(* ===== verification/_CoqProject ===== *)
-Q . S2P
Prelude.v
Regs.v
Config.v
DynInst.v
Metadata.v
Rob.v
RobSafe.v
Speculation.v
RobSquash.v
RobCount.v
StoreSet.v
DepGraph.v
FUPool.v
MemDepUnit.v
InstQueue.v
IqTaint.v
IqContention.v
IqOrder.v
Rename.v
RenameInv.v
RenameTaint.v
LsqUnit.v
LsqInv.v
LsqOrder.v
LsqForward.v
PageTrie.v
Trie.v
TrieMap.v
Tlb.v
TlbInv.v
TlbSilent.v
MemAccess.v
MemAccessSafe.v
Lsq.v
Iew.v
IewPorts.v
IewRedirect.v
IewDispatch.v
IewWriteback.v
Commit.v
CommitRedirect.v
CommitFuel.v
CommitOrder.v
DirPred.v
DirPredOk.v
BPred.v
BPredRas.v
BPredInv.v
BPredUndo.v
BPredSafe.v
TimeBuf.v
Activity.v
CpuList.v
X86Pc.v
Decode.v
DecodeSafe.v
DecodeOk.v
Fetch.v
FetchLoop.v
FetchOk.v
FetchSignals.v
ReplPolicy.v
ReplOrder.v
Packet.v
CacheTags.v
CacheQueue.v
Cache.v
CacheMem.v
CacheRun.v
CacheSilent.v
CacheQueueOk.v
CacheFrame.v
CacheOk.v
CacheNonint.v
CacheFill.v
RenameStage.v
RenameStageOk.v
RenameSignals.v
RenameSerial.v
