(* ===== verification/Prelude.v ===== *)
(** * DOLMA on gem5: a verification of the out-of-order processor model

    DOLMA protects an out-of-order processor against transient-execution attacks.
    It is written as a change to gem5's O3 processor model: an instruction that
    runs ahead of an unresolved branch, or whose operands come from a load that may
    still be squashed, is _restricted_, and a restricted instruction must not leave
    a trace other code can measure: no TLB fill, no replacement update, no
    cache hit that shows, no unit taken from an older instruction, no redirect of
    fetch.  This library models that processor model, function by function, and
    proves what its parts promise.  Paths below are relative to [src/src/].

    ** How the program is put together

    Fetch predicts branches ([BPredUnit]) and hands instructions to decode and
    rename; rename maps registers and propagates taint; the issue stage
    ([DefaultIEW]) dispatches into the instruction queue and the load/store queue,
    executes, and reports redirects and results; commit ([DefaultCommit]) fills and
    drains the reorder buffer, performs redirects and takes traps.  The stages
    share the instructions ([BaseDynInst]), which carry DOLMA's flags: the reorder
    buffer clears a flag once the cause is resolved ([ROB::updateSafeStatus]) and
    tells the instruction queue and the load/store queue, which release what waited.
    Stages talk through time buffers; a stage's operations here take what the wires
    hold as arguments and leave what it sends in its state.

    ** Conventions

    - A stage or structure is a record, an operation a function of it that
      returns an [outcome]: [Err] is a failing [assert], a [panic] or [fatal], a
      null pointer or an access out of range.  So "no assertion fails" is a theorem.
    - A shared instruction is a pointer (its sequence number) into a [store]; every
      update goes through [modify].
    - An [unsigned] or [Addr] is a [Z] with its wrap-around written out ([u8],
      [u32], [u64]) where the code can reach it; bit operations are those of [Z].
    - Configuration flags ([isSTT], [isDolmaConservative], ...) are the record
      [DolmaConfig]; the targets are X86 and system-call emulation or full system.
    - What the modelled code calls and is not modelled is an interface: a class
      with its operations and, where needed, a second class with its laws:
      [MemSystem]/[MemSystemOk] (data cache port, data TLB), [PageTrie]/
      [PageTrieLaws], [PageTables], [Dtb], [CpuEnv] (interrupts, traps, PC events),
      [DirPred]/[DirPredOk], [PcState], [PcFlow]/[PcFlowOk], [IsaDecoder]/
      [IsaDecoderOk], [FetchEnv] (the rest of the machine around fetch), [CacheEnv] (what
      surrounds the data cache), [RandomGen]/[RandomGenOk].  Where the other side is modelled too, an
      instance discharges the laws.
    - Statistics, tracing, probe points, checkpoints and the checker are left out.

    ** The files

    Shared: [Prelude] (this file: outcomes, bit sets, vectors, lists), [Regs]
    ([cpu/reg_class.hh]), [Config] ([cpu/base.cc], [mem/request.hh]), [DynInst]
    ([cpu/base_dyn_inst.hh]), [Metadata] (the replay of deferred TLB and cache
    updates at retirement).

    Reorder buffer ([cpu/o3/rob_impl.hh]): [Rob] (model), [RobSafe] (which
    instructions are restricted after [updateSafeStatus], exactly), [Speculation]
    (the shadow of an unresolved branch as an invariant of all interleavings of the
    operations), [RobSquash] (squash and redirect), [RobCount] (counters).

    Instruction queue ([cpu/o3/inst_queue_impl.hh] and what it owns): [StoreSet]
    ([store_set.cc]), [DepGraph] ([dep_graph.hh]), [FUPool] ([fu_pool.cc]),
    [MemDepUnit] ([mem_dep_unit_impl.hh]), [InstQueue]; [IqTaint] (taint reaches
    every consumer), [IqContention] (a restricted instruction never delays an older
    one over a unit), [IqOrder] (age order and termination of issue).

    Renaming ([cpu/o3/rename_impl.hh], [rename_map.cc], [free_list.hh],
    [regfile.cc], [scoreboard.hh]): [Rename]; [RenameInv] (registers are
    conserved, a squash restores the maps), [RenameTaint] (ready sources hand on
    their taint).  The stage around them: [RenameStage] over the interface
    [StaticOperands]; [RenameStageOk] (the loop and a thread's turn), [RenameSignals]
    (stalls, and decode knows which threads are held back), [RenameSerial] (order,
    room in the back end; instructions that serialize, by nature or because rename
    marked them after one that serializes after, wait for an empty buffer).

    Load/store queue ([cpu/o3/lsq_unit_impl.hh], [lsq_impl.hh]): [LsqUnit];
    [LsqInv] (refinement of two lists), [LsqOrder] (no missed violation),
    [LsqForward] (forwarded bytes and masked hits, or the failing assertion on an
    executed strictly ordered store), [Lsq] (the dispatcher over threads).

    Translation: [PageTrie], [Trie], [TrieMap] ([base/trie.hh] and the map it
    implements), [Tlb], [TlbInv], [TlbSilent] ([arch/x86/tlb.cc]: consistency, and
    restricted translations leave no trace), [MemAccess], [MemAccessSafe]
    ([cpu/base_dyn_inst.hh], [cpu/translation.hh]: split requests, delay on miss).

    Issue stage ([cpu/o3/iew_impl.hh]): [Iew]; [IewPorts] (writeback ports),
    [IewRedirect] (the oldest redirect is reported, restricted ones are marked),
    [IewDispatch] (order of dispatch), [IewWriteback] (faulting results are not
    broadcast).

    Commit stage ([cpu/o3/commit_impl.hh]): [Commit]; [CommitRedirect] (no
    restricted redirect is performed, also across the wire from the issue stage),
    [CommitFuel] (the loops of a commit cycle never run out of fuel), [CommitOrder]
    (in-order commit, precise faults, choice of the thread).

    Branch prediction ([cpu/pred/]): [DirPred] and [DirPredOk] (local, tournament
    and bi-mode predictors and the interface they satisfy), [BPred] (return address
    stack, branch target buffer, indirect predictor, unit), [BPredRas],
    [BPredInv], [BPredUndo], [BPredSafe] (the unit never fails, wrong paths are
    undone, all but the tournament predictor's local histories, and targets are learned).

    Front end and CPU: [TimeBuf] ([cpu/timebuf.hh], a circular buffer that refines a
    delay line), [Activity] ([cpu/activity.cc], an exact count of what is in flight),
    [CpuList] (the CPU's list of instructions, [cpu/o3/cpu.cc]), [X86Pc] (program
    counters); decode ([cpu/o3/decode_impl.hh]): [Decode], [DecodeSafe] (its
    redirects depend on nothing DOLMA protects), [DecodeOk] (order, corrected
    targets, the handshake with fetch); fetch ([cpu/o3/fetch_impl.hh]): [Fetch] (the
    stage, over the interfaces [IsaDecoder] and [FetchEnv]), [FetchLoop] (its loops
    end and build a path along the predictions; the fuel of the outer loop counts
    instructions and chunks of the fetch buffer), [FetchOk] (the path from cycle to
    cycle, sending to decode), [FetchSignals] (answers to requests of a wrong path, the
    signals of decode and commit).

    Data cache ([mem/packet.cc], [mem/cache/]): [Packet] (commands and packets),
    [ReplPolicy] and [ReplOrder] (the eight replacement policies, as records of
    operations with the laws [PolicyOk]; LRU is a recency stack), [CacheTags] (blocks,
    set-associative tags, DOLMA's [accessBlock]), [CacheQueue] (MSHRs with their
    targets, the write buffer), [Cache] (port, look-up, hits, misses, fills,
    evictions), [CacheMem] (sending, responses, snoops), [CacheRun] (the cache as a
    machine, one step per call or event from outside).  Proofs: [CacheQueueOk] and
    [CacheOk] (queues, blocking and retries stay consistent over every run),
    [CacheFrame] (what the operations on blocks leave alone), [CacheSilent] and
    [CacheNonint] (restricted reads leave no trace and may be deleted from a run, a
    deferred metadata update makes up for exactly one hit; the cache is an instance
    of [MemSystem] and discharges [MemSystemOk]), [CacheFill] (a filled line is
    found with the bytes memory sent).

    ** Loops and their bounds

    Recursion follows the data where it can.  Elsewhere a function takes fuel and
    answers [NoFuel] when it runs out; the fuel is computed from the state, and a
    theorem says that it is enough:
    - [schedLoop] (issue): one step per entry of [listOrder] and per ready
      instruction; [IqOrder.schedule_terminates].
    - [commitLoop]: every iteration takes an instruction out of the buffer
      ([commitFuel] is their number plus one), so the answer is never [NoFuel] for the
      loop, only for [servicePC] below; [CommitOrder.commit_in_order].
    - [fetchInner] and [fetchOuter]: one step per instruction the width leaves room
      for, and per chunk of the fetch buffer between them ([fetchFuel]);
      [FetchLoop.fetch_total].  [sendLoop]: once around the active threads per
      instruction; [FetchOk.fetch_sends].
    - the squash walks of the reorder buffer and the instruction queue, the walk over
      units of a class and [dg_pop] are bounded by the lengths of the lists they
      walk; the loops of the load/store queue by its number of entries, of which a
      circular buffer has one more than it holds; [writebackLoop] by the store queue.
    - [findSlot] (writeback ports) by the slots left; the mask of a trie node by 65
      bits.
    - [servicePC] repeats while PC events redirect the thread, which depends on code
      outside; its bound [serviceBound] is a parameter.
    - [scLoop] (second-chance search): one round more than second chances left;
      [ReplOrder.second_chance_search].
    - [sqFull] and [sqFull(tid)] call each other; [Lsq.sqFull_diverges] shows that
      under the dynamic policy no depth is enough.

    ** Not modelled

    - [ltage.cc], a direction predictor no DOLMA configuration selects; the unit is
      proved for every predictor that satisfies [DirPredOk].
    - of the data cache, the atomic and functional paths, flushing for system calls,
      and what lies behind its ports (packet queues, crossbars, lower levels); MSHRs of
      caches above, since it is the first level.  Compressed, sector, skewed and fully
      associative tags, the non-coherent cache and the prefetchers, which no DOLMA
      configuration uses; a prefetcher is an interface ([CacheEnv]).
    - the instruction set (execution, decoding, micro-operations), which is generated;
      the functions the pipeline calls on an instruction are parameters.
    - the CPU object, thread contexts and checker, and the rest of the simulator:
      glue around the pipeline that DOLMA does not change. *)

(** Shared vocabulary: outcomes of code with assertions, bit sets of
    enumerations, machine integers, list and iterator lemmas. *)

From Stdlib Require Export Ascii.
From stdpp Require Export strings gmap functions base numbers fin_maps sorting list.

Local Open Scope Z_scope.


(** ** Outcomes

    gem5 code checks its internal consistency with [assert] and stops with
    [panic]; both are outcomes of the model, so that "no assertion fails" is
    a statement about the code. *)

Inductive error : Type :=
  | Assertion (what : string)
  | PanicCall (what : string)
  | NullDeref (what : string)
  | OutOfRange (what : string)
  | NoFuel (what : string). (** the bound of a loop of the model, not of the code *)

Inductive outcome (A : Type) : Type :=
  | Ok (a : A)
  | Err (e : error).
Arguments Ok {A} a.
Arguments Err {A} e.

Declare Scope outcome_scope.
Delimit Scope outcome_scope with outcome.

Notation "'let!' x ':=' c 'in' k" :=
  (match c with Ok x => k | Err e => Err e end)
  (at level 10, x pattern, c at level 100, k at level 200,
   format "'[v' 'let!'  x  ':='  c  'in' '//' k ']'") : outcome_scope.
Notation "'assert!' b 'as' s 'in' k" :=
  (if b%bool then k else Err (Assertion s%string))
  (at level 10, b at level 100, s at level 0, k at level 200,
   format "'[v' 'assert!'  b  'as'  s  'in' '//' k ']'") : outcome_scope.
Open Scope outcome_scope.

Definition is_ok {A} (o : outcome A) : bool :=
  match o with Ok _ => true | Err _ => false end.

(** A monadic left fold: the shape of every loop that threads state through a
    container and may stop at an assertion. *)
Fixpoint foldM {A S : Type} (f : S → A → outcome S) (l : list A) (s : S)
  : outcome S :=
  match l with
  | [] => Ok s
  | a :: l' => let! s' := f s a in foldM f l' s'
  end.

(** Destructs the computations an [Ok] result went through. *)
Ltac inv_ok1 H :=
  match type of H with
  | Ok _ = Ok _ => inversion H; clear H; subst
  | Err _ = Ok _ => discriminate H
  | (match ?c with Ok _ => _ | Err _ => _ end) = Ok _ =>
      let E := fresh "E" in destruct c eqn:E; [| discriminate H]
  | (if ?b then _ else Err _) = Ok _ =>
      let E := fresh "E" in destruct b eqn:E; [| discriminate H]
  | (let (_, _) := ?c in _) = Ok _ =>
      let E := fresh "E" in destruct c eqn:E
  end.
Ltac inv_ok H := repeat (inv_ok1 H; try (cbn beta iota in H)).

(** Closes a decidable or computable closed goal by evaluation. *)
Ltac by_eval :=
  first [ reflexivity
        | vm_compute; reflexivity
        | apply (bool_decide_unpack _); vm_compute; exact I
        | vm_compute; done ].

(** ** Bit sets of enumerations ([std::bitset<NumStatus>] and the like) *)

Class BitIndex (E : Type) := {
  bit_index : E → N;
  bit_index_inj : Inj (=) (=) bit_index;
}.
#[export] Existing Instance bit_index_inj.

Definition bitset := N.

(** An enumeration is indexed injectively when a table inverts the index. *)
Lemma enum_index_inj {E : Type} (f : E → N) (all : list E) :
  (∀ e, all !! N.to_nat (f e) = Some e) → Inj (=) (=) f.
Proof. intros H x y Heq. pose proof (H x). pose proof (H y). congruence. Qed.

Section bitset.
Context {E : Type} `{BitIndex E}.

Definition bs_test (s : bitset) (e : E) : bool := N.testbit s (bit_index e).
Definition bs_set (s : bitset) (e : E) : bitset := N.setbit s (bit_index e).
Definition bs_reset (s : bitset) (e : E) : bitset := N.clearbit s (bit_index e).
Definition bs_assign (s : bitset) (e : E) (b : bool) : bitset :=
  if b then bs_set s e else bs_reset s e.

Lemma bs_test_empty e : bs_test 0%N e = false.
Proof. apply N.bits_0. Qed.

Lemma bs_test_set s e e' :
  bs_test (bs_set s e) e' = (bit_index e =? bit_index e')%N || bs_test s e'.
Proof. apply N.setbit_eqb. Qed.

Lemma bs_test_reset s e e' :
  bs_test (bs_reset s e) e'
  = bs_test s e' && negb (bit_index e =? bit_index e')%N.
Proof. apply N.clearbit_eqb. Qed.

Lemma bs_test_assign s e b e' :
  bs_test (bs_assign s e b) e'
  = if (bit_index e =? bit_index e')%N then b else bs_test s e'.
Proof.
  destruct b; cbn; [rewrite bs_test_set|rewrite bs_test_reset];
    destruct (N.eqb _ _), (bs_test s e'); reflexivity.
Qed.
End bitset.
Arguments bs_test {E H} s e : simpl never.
Arguments bs_set {E H} s e : simpl never.
Arguments bs_reset {E H} s e : simpl never.

Create Rewrite HintDb bits.
#[export] Hint Rewrite @bs_test_empty @bs_test_set @bs_test_reset
  @bs_test_assign : bits.

(** ** Machine integers *)

Definition wrap (w : Z) (z : Z) : Z := z mod 2 ^ w.
Definition u64 := wrap 64.
Definition u64_max : Z := 2 ^ 64 - 1.

(** [Tick] of [base/types.hh]: simulated time. *)
Abbreviation Tick := Z.

(** ** Lists *)

Lemma filter_all {A} (P : A → Prop) `{∀ x, Decision (P x)} (l : list A) :
  Forall P l → filter P l = l.
Proof. induction 1; [done|]. rewrite filter_cons_True by done. by f_equal. Qed.

Lemma filter_none {A} (P : A → Prop) `{∀ x, Decision (P x)} (l : list A) :
  Forall (λ x, ¬ P x) l → filter P l = [].
Proof. induction 1; [done|]. by rewrite filter_cons_False. Qed.

Lemma sorted_lt_NoDup (l : list Z) : StronglySorted Z.lt l → NoDup l.
Proof.
  induction 1 as [|x l Hl IH Hx]; constructor; auto.
  intros Hin. eapply Forall_forall in Hx; [|done]. lia.
Qed.

Lemma StronglySorted_reverse (l : list Z) :
  StronglySorted Z.lt l → StronglySorted Z.gt (reverse l).
Proof.
  induction 1 as [|x l Hl IH Hx]; [constructor|]. rewrite reverse_cons.
  apply StronglySorted_app. split_and!; [|done|repeat constructor].
  intros a b Ha ->%list_elem_of_singleton. rewrite elem_of_reverse in Ha.
  pose proof (proj1 (Forall_forall _ _) Hx a Ha). cbn in *. lia.
Qed.

Lemma StronglySorted_filter {A} (R : A → A → Prop) (P : A → Prop) `{∀ x, Decision (P x)} l :
  StronglySorted R l → StronglySorted R (filter P l).
Proof.
  induction 1 as [|x l Hl IH Hx]; [constructor|].
  destruct (decide (P x)); [rewrite filter_cons_True by done|by rewrite filter_cons_False].
  constructor; [done|]. rewrite Forall_forall in *. intros y [_ Hy]%list_elem_of_filter. auto.
Qed.

(** ** Vectors

    [v[i]] of a [std::vector] or array, with the access out of range as an
    error. *)

Definition vec_get {A} (what : string) (v : list A) (i : Z) : outcome A :=
  if 0 <=? i then
    match v !! Z.to_nat i with Some a => Ok a | None => Err (OutOfRange what) end
  else Err (OutOfRange what).

Definition vec_set {A} (what : string) (v : list A) (i : Z) (a : A)
  : outcome (list A) :=
  if (0 <=? i) && (i <? Z.of_nat (length v)) then Ok (<[Z.to_nat i := a]> v)
  else Err (OutOfRange what).

Section vectors.
Context {A : Type} (what : string).
Implicit Types (v : list A) (i j : Z).

Lemma vec_get_Ok v i a :
  vec_get what v i = Ok a ↔ 0 <= i ∧ v !! Z.to_nat i = Some a.
Proof.
  unfold vec_get. destruct (Z.leb_spec 0 i); [|split; [done|lia]].
  destruct (v !! Z.to_nat i); split; naive_solver.
Qed.

Lemma vec_get_total v i :
  0 <= i < Z.of_nat (length v) → ∃ a, vec_get what v i = Ok a.
Proof.
  intros Hi. unfold vec_get. rewrite (proj2 (Z.leb_le 0 i)) by lia.
  destruct (lookup_lt_is_Some_2 v (Z.to_nat i)) as [a ->]; [lia|eauto].
Qed.

Lemma vec_set_total v i a :
  0 <= i < Z.of_nat (length v) → vec_set what v i a = Ok (<[Z.to_nat i := a]> v).
Proof.
  intros Hi. unfold vec_set.
  by rewrite (proj2 (Z.leb_le 0 i)), (proj2 (Z.ltb_lt i _)) by lia.
Qed.

Lemma vec_set_Ok v i a v' :
  vec_set what v i a = Ok v' →
  0 <= i < Z.of_nat (length v) ∧ v' = <[Z.to_nat i := a]> v.
Proof.
  unfold vec_set. intros H. inv_ok H.
  apply andb_true_iff in E as [?%Z.leb_le ?%Z.ltb_lt]. done.
Qed.

Lemma vec_get_set v i a v' j :
  vec_set what v i a = Ok v' →
  vec_get what v' j = if j =? i then Ok a else vec_get what v j.
Proof.
  intros [Hi ->]%vec_set_Ok. unfold vec_get. destruct (Z.eqb_spec j i) as [->|Hne].
  - rewrite (proj2 (Z.leb_le 0 i)) by lia. by rewrite list_lookup_insert_eq by lia.
  - destruct (Z.leb_spec 0 j); [|done]. by rewrite list_lookup_insert_ne by lia.
Qed.
End vectors.
