(* ===== verification/Regs.v ===== *)
(** * Registers

    Architectural and physical register identifiers ([cpu/reg_class.hh],
    [cpu/o3/comm.hh]) for the X86 build of gem5. *)

From S2P Require Import Prelude.

Local Open Scope Z_scope.

Inductive RegClass : Type :=
  | IntRegClass | FloatRegClass | VecRegClass | VecElemClass
  | CCRegClass | MiscRegClass.

#[export] Instance RegClass_eq_dec : EqDecision RegClass.
Proof. solve_decision. Defined.

(** [TheISA::NumVecElemPerVecReg] and [TheISA::ZeroReg] of X86
    ([arch/x86/registers.hh]; [NUM_INTREGS] is 16). *)
Definition NumVecElemPerVecReg : Z := 2.
Definition ZeroReg : Z := 16.

(** [RegId]: [elemIdx] is -1 for every class but [VecElemClass]. *)
Record RegId := mkRegId {
  regClass : RegClass;
  regIdx : Z;
  elemIdx : Z;
}.

#[export] Instance RegId_eq_dec : EqDecision RegId.
Proof. solve_decision. Defined.

Definition RegId_flatIndex (r : RegId) : Z :=
  match regClass r with
  | VecElemClass => NumVecElemPerVecReg * regIdx r + elemIdx r
  | _ => regIdx r
  end.

Definition RegId_isRenameable (r : RegId) : bool :=
  bool_decide (regClass r ≠ MiscRegClass).

(** The second disjunct of the source holds on Alpha only. *)
Definition RegId_isZeroReg (r : RegId) : bool :=
  bool_decide (regClass r = IntRegClass) && (regIdx r =? ZeroReg).

(** [PhysRegId]: a [RegId] with a position in the unified register file. *)
Record PhysRegId := mkPhysRegId {
  pr_reg : RegId;
  flatIdx : Z;
}.

#[export] Instance PhysRegId_eq_dec : EqDecision PhysRegId.
Proof. solve_decision. Defined.

Definition PhysRegId_isFixedMapping (p : PhysRegId) : bool :=
  negb (RegId_isRenameable (pr_reg p)).
Definition PhysRegId_isZeroReg (p : PhysRegId) : bool :=
  RegId_isZeroReg (pr_reg p).
Definition PhysRegId_flatIndex (p : PhysRegId) : Z := flatIdx p.
