(* ===== verification/Config.v ===== *)
(** * DOLMA configuration and memory requests

    The mode flags of [BaseCPU] ([cpu/base.cc], [cpu/base.hh]) and the parts
    of [Request] ([mem/request.hh]) that carry DOLMA's restriction. *)

From S2P Require Import Prelude.

Local Open Scope Z_scope.

(** ** Protection modes *)

Record DolmaConfig := mkDolmaConfig {
  isDolma : bool;
  isDolmaConservative : bool;
  isDolmaMemOnly : bool;
  isSTT : bool;
}.

(** The block of [BaseCPU::BaseCPU] that derives the four flags from the
    parameters [mode] and [stt]. *)
Definition configDolma (mode : Z) (stt : bool) : outcome DolmaConfig :=
  assert! (0 <=? mode) && (mode <=? 4) as "p->mode >= 0 && p->mode <= 4" in
  let d := 0 <? mode in
  Ok (mkDolmaConfig d (d && (mode mod 2 =? 0)) (d && (2 <? mode)) (d && stt)).

(** ** Memory requests *)

Abbreviation Addr := Z.

Module ReqFlag.
Definition UNCACHEABLE : Z := 0x400.
Definition STRICT_ORDER : Z := 0x800.
Definition MMAPPED_IPR : Z := 0x2000.
Definition RESTRICTED : Z := 0x4000.
Definition CACHE_BLOCK_ZERO : Z := 0x10000.
Definition LLSC : Z := 0x200000.
Definition MEM_SWAP_COND : Z := 0x800000.
Definition INVALIDATE : Z := 0x100000000.
Definition CLEAN : Z := 0x200000000.
Definition STORE_NO_DATA : Z :=
  Z.lor CACHE_BLOCK_ZERO (Z.lor CLEAN INVALIDATE).
End ReqFlag.

Record Request := mkRequest {
  req_vaddr : Addr;
  req_size : Z;
  req_flags : Z;
  req_paddr : option Addr;
  metadataUpdate : bool;
}.

(** [Flags::isSet(f)], [Flags::set(f)] and [Flags::clear(f)]
    ([base/flags.hh]) on 64 bits. *)
Definition flags_isSet (flags f : Z) : bool := negb (Z.land flags f =? 0).
Definition flags_set (flags f : Z) : Z := Z.lor flags f.
Definition flags_clear (flags f : Z) : Z := Z.ldiff flags f.

Definition req_set_flags (v : Z) (r : Request) : Request :=
  mkRequest (req_vaddr r) (req_size r) v (req_paddr r) (metadataUpdate r).

Definition req_isRestricted (r : Request) : bool :=
  flags_isSet (req_flags r) ReqFlag.RESTRICTED.
Definition req_isStrictlyOrdered (r : Request) : bool :=
  flags_isSet (req_flags r) ReqFlag.STRICT_ORDER.
Definition req_isLLSC (r : Request) : bool :=
  flags_isSet (req_flags r) ReqFlag.LLSC.
Definition req_isMmappedIpr (r : Request) : bool :=
  flags_isSet (req_flags r) ReqFlag.MMAPPED_IPR.
Definition req_isUncacheable (r : Request) : bool :=
  flags_isSet (req_flags r) ReqFlag.UNCACHEABLE.
Definition req_isCacheMaintenance (r : Request) : bool :=
  flags_isSet (req_flags r) (Z.lor ReqFlag.CLEAN ReqFlag.INVALIDATE).
Definition req_setUnsafe (r : Request) : Request :=
  req_set_flags (flags_set (req_flags r) ReqFlag.RESTRICTED) r.
Definition req_clearUnsafe (r : Request) : Request :=
  req_set_flags (flags_clear (req_flags r) ReqFlag.RESTRICTED) r.
Definition req_setMetadataUpdate (r : Request) : Request :=
  mkRequest (req_vaddr r) (req_size r) (req_flags r) (req_paddr r) true.
