(* ===== verification/DynInst.v ===== *)
(** * Dynamic instructions

    [BaseDynInst] ([cpu/base_dyn_inst.hh], [cpu/base_dyn_inst_impl.hh]): the
    status bits every pipeline structure reads and writes, DOLMA's
    speculation and restriction flags, and the assertions that guard them.

    A [DynInstPtr] is shared by the ROB, the instruction queue and the LSQ, so
    the model keeps one [store] of instructions; a pointer is the sequence
    number of the instruction, which the CPU never reuses. *)

From S2P Require Import Prelude Regs Config.

Local Open Scope Z_scope.

(** [uint64_t], [int16_t] and a reference-counted pointer. *)
Abbreviation InstSeqNum := Z.
Abbreviation ThreadID := nat.
Abbreviation DynInstPtr := Z.

(** ** The status bits, flags and static properties of an instruction *)

(** [enum BaseDynInst::Status]; the last ten are DOLMA's. *)
Inductive Status : Type :=
  | IqEntry | RobEntry | LsqEntry | Completed | ResultReady | CanIssue |
  Issued | Executed | CanCommit | AtCommit | Committed | Squashed |
  SquashedInIQ | SquashedInLSQ | SquashedInROB | RecoverInst | BlockingInst |
  ThreadsyncWait | SerializeBefore | SerializeAfter | SerializeHandled |
  ControlInducer | DataInducer | ControlRestricted | DataRestricted |
  PendingMemOrder | PendingBranch | PartialStoreBufferHit |
  TotalStoreBufferHit | DolmaStalled | PendingMetadata.

Definition Status_index (x : Status) : N :=
  match x with
  | IqEntry => 0 | RobEntry => 1 | LsqEntry => 2 | Completed => 3 |
  ResultReady => 4 | CanIssue => 5 | Issued => 6 | Executed => 7 | CanCommit
  => 8 | AtCommit => 9 | Committed => 10 | Squashed => 11 | SquashedInIQ => 12
  | SquashedInLSQ => 13 | SquashedInROB => 14 | RecoverInst => 15 |
  BlockingInst => 16 | ThreadsyncWait => 17 | SerializeBefore => 18 |
  SerializeAfter => 19 | SerializeHandled => 20 | ControlInducer => 21 |
  DataInducer => 22 | ControlRestricted => 23 | DataRestricted => 24 |
  PendingMemOrder => 25 | PendingBranch => 26 | PartialStoreBufferHit => 27 |
  TotalStoreBufferHit => 28 | DolmaStalled => 29 | PendingMetadata => 30
  end%N.

Definition Status_all : list Status :=
  [IqEntry; RobEntry; LsqEntry; Completed; ResultReady; CanIssue; Issued;
   Executed; CanCommit; AtCommit; Committed; Squashed; SquashedInIQ;
   SquashedInLSQ; SquashedInROB; RecoverInst; BlockingInst; ThreadsyncWait;
   SerializeBefore; SerializeAfter; SerializeHandled; ControlInducer;
   DataInducer; ControlRestricted; DataRestricted; PendingMemOrder;
   PendingBranch; PartialStoreBufferHit; TotalStoreBufferHit; DolmaStalled;
   PendingMetadata].

#[export] Instance Status_BitIndex : BitIndex Status.
Proof.
  refine {| bit_index := Status_index |}.
  apply (enum_index_inj Status_index Status_all).
  intros []; reflexivity.
Defined.

(** [enum BaseDynInst::Flags]. *)
Inductive InstFlag : Type :=
  | NotAnInst | TranslationStarted | TranslationCompleted |
  PossibleLoadViolation | HitExternalSnoop | EffAddrValid | RecordResult |
  Predicate | PredTaken | IsStrictlyOrdered | ReqMade | MemOpDone.

Definition InstFlag_index (x : InstFlag) : N :=
  match x with
  | NotAnInst => 0 | TranslationStarted => 1 | TranslationCompleted => 2 |
  PossibleLoadViolation => 3 | HitExternalSnoop => 4 | EffAddrValid => 5 |
  RecordResult => 6 | Predicate => 7 | PredTaken => 8 | IsStrictlyOrdered => 9
  | ReqMade => 10 | MemOpDone => 11
  end%N.

Definition InstFlag_all : list InstFlag :=
  [NotAnInst; TranslationStarted; TranslationCompleted;
   PossibleLoadViolation; HitExternalSnoop; EffAddrValid; RecordResult;
   Predicate; PredTaken; IsStrictlyOrdered; ReqMade; MemOpDone].

#[export] Instance InstFlag_BitIndex : BitIndex InstFlag.
Proof.
  refine {| bit_index := InstFlag_index |}.
  apply (enum_index_inj InstFlag_index InstFlag_all).
  intros []; reflexivity.
Defined.

(** [StaticInstFlags] ([cpu/StaticInstFlags.py]). *)
Inductive StaticFlag : Type :=
  | IsNop | IsInteger | IsFloating | IsCC | IsVector | IsVectorElem | IsMemRef
  | IsLoad | IsStore | IsAtomic | IsStoreConditional | IsIndexed |
  IsInstPrefetch | IsDataPrefetch | IsControl | IsDirectControl |
  IsIndirectControl | IsCondControl | IsUncondControl | IsCall | IsReturn |
  IsCondDelaySlot | IsThreadSync | IsSerializing | IsSerializeBefore |
  IsSerializeAfter | IsMemBarrier | IsWriteBarrier | IsReadBarrier | IsERET |
  IsNonSpeculative | IsQuiesce | IsIprAccess | IsUnverifiable | IsSyscall |
  IsMacroop | IsMicroop | IsDelayedCommit | IsLastMicroop | IsFirstMicroop |
  IsMicroBranch | IsDspOp | IsSquashAfter.

Definition StaticFlag_index (x : StaticFlag) : N :=
  match x with
  | IsNop => 0 | IsInteger => 1 | IsFloating => 2 | IsCC => 3 | IsVector => 4
  | IsVectorElem => 5 | IsMemRef => 6 | IsLoad => 7 | IsStore => 8 | IsAtomic
  => 9 | IsStoreConditional => 10 | IsIndexed => 11 | IsInstPrefetch => 12 |
  IsDataPrefetch => 13 | IsControl => 14 | IsDirectControl => 15 |
  IsIndirectControl => 16 | IsCondControl => 17 | IsUncondControl => 18 |
  IsCall => 19 | IsReturn => 20 | IsCondDelaySlot => 21 | IsThreadSync => 22 |
  IsSerializing => 23 | IsSerializeBefore => 24 | IsSerializeAfter => 25 |
  IsMemBarrier => 26 | IsWriteBarrier => 27 | IsReadBarrier => 28 | IsERET =>
  29 | IsNonSpeculative => 30 | IsQuiesce => 31 | IsIprAccess => 32 |
  IsUnverifiable => 33 | IsSyscall => 34 | IsMacroop => 35 | IsMicroop => 36 |
  IsDelayedCommit => 37 | IsLastMicroop => 38 | IsFirstMicroop => 39 |
  IsMicroBranch => 40 | IsDspOp => 41 | IsSquashAfter => 42
  end%N.

Definition StaticFlag_all : list StaticFlag :=
  [IsNop; IsInteger; IsFloating; IsCC; IsVector; IsVectorElem; IsMemRef;
   IsLoad; IsStore; IsAtomic; IsStoreConditional; IsIndexed;
   IsInstPrefetch; IsDataPrefetch; IsControl; IsDirectControl;
   IsIndirectControl; IsCondControl; IsUncondControl; IsCall; IsReturn;
   IsCondDelaySlot; IsThreadSync; IsSerializing; IsSerializeBefore;
   IsSerializeAfter; IsMemBarrier; IsWriteBarrier; IsReadBarrier; IsERET;
   IsNonSpeculative; IsQuiesce; IsIprAccess; IsUnverifiable; IsSyscall;
   IsMacroop; IsMicroop; IsDelayedCommit; IsLastMicroop; IsFirstMicroop;
   IsMicroBranch; IsDspOp; IsSquashAfter].

#[export] Instance StaticFlag_BitIndex : BitIndex StaticFlag.
Proof.
  refine {| bit_index := StaticFlag_index |}.
  apply (enum_index_inj StaticFlag_index StaticFlag_all).
  intros []; reflexivity.
Defined.


(** [StaticInst]: the decoded instruction, fixed for its lifetime.
    [disassembly] is what [disassemble(instAddr())] prints. *)
Record StaticInst := mkStaticInst {
  si_flags : bitset;
  si_opClass : nat;
  si_numSrcRegs : nat;
  si_numDestRegs : nat;
  disassembly : string;
}.

(** The faults the modelled code tells apart. *)
Inductive Fault : Type :=
  | ReExec
  | M5PanicFault
  | GeneralProtection
  | OtherFault (n : Z).

Record DynInst := mkDynInst {
  seqNum : InstSeqNum; (** The sequence number of the instruction. *)
  violatorSeqNum : InstSeqNum; (** of a store: the load it caught out of order *)
  ydi : InstSeqNum; (** DOLMA: youngest data inducer, 0 when none *)
  staticInst : StaticInst;
  fault : option Fault; (** [None] is [NoFault] *)
  pc : Addr; (** [instAddr()] of the PC state *)
  instFlags : bitset;
  status : bitset;
  readySrcRegIdx : list bool; (** [_readySrcRegIdx] *)
  collider_PC : Addr;
  colliderSeqNum : InstSeqNum;
  violator : option DynInstPtr;
  violator_PC : Addr;
  threadNumber : ThreadID;
  readyRegs : Z; (** [uint8_t] *)
  effAddr : Addr;
  physEffAddrLow : Addr;
  physEffAddrHigh : Addr;
  memReqFlags : Z;
  effSize : Z; (** [uint8_t] *)
  memData : option (list Z);
  delayedFwdData : option (list Z); (** DOLMA: store-to-load forwarding *)
  validationData : option (list Z); (** DOLMA: metadata update *)
  lqIdx : Z; (** [int16_t] *)
  sqIdx : Z; (** [int16_t] *)
  savedReq : option Request;
  savedSreqLow : option Request;
  savedSreqHigh : option Request;
  dolmaVirtualReq : option Request;
  dolmaVirtualSreqLow : option Request;
  dolmaVirtualSreqHigh : option Request;
  dolmaPhysicalReq : option Request;
  dolmaPhysicalSreqLow : option Request;
  dolmaPhysicalSreqHigh : option Request;
  branchTaken : bool; (** DOLMA: direction of a pending branch *)
  destRegIdx : list PhysRegId; (** [_destRegIdx] *)
  srcRegIdx : list PhysRegId; (** [_srcRegIdx] *)
  prevDestRegIdx : list PhysRegId; (** [_prevDestRegIdx] *)
}.

Definition set_violatorSeqNum (v : InstSeqNum) (i : DynInst) : DynInst :=
  mkDynInst (seqNum i) v (ydi i) (staticInst i) (fault i) (pc i) (instFlags i)
    (status i) (readySrcRegIdx i) (collider_PC i) (colliderSeqNum i)
    (violator i) (violator_PC i) (threadNumber i) (readyRegs i) (effAddr i)
    (physEffAddrLow i) (physEffAddrHigh i) (memReqFlags i) (effSize i)
    (memData i) (delayedFwdData i) (validationData i) (lqIdx i) (sqIdx i)
    (savedReq i) (savedSreqLow i) (savedSreqHigh i) (dolmaVirtualReq i)
    (dolmaVirtualSreqLow i) (dolmaVirtualSreqHigh i) (dolmaPhysicalReq i)
    (dolmaPhysicalSreqLow i) (dolmaPhysicalSreqHigh i) (branchTaken i)
    (destRegIdx i) (srcRegIdx i) (prevDestRegIdx i).
Definition set_ydi (v : InstSeqNum) (i : DynInst) : DynInst :=
  mkDynInst (seqNum i) (violatorSeqNum i) v (staticInst i) (fault i) (pc i)
    (instFlags i) (status i) (readySrcRegIdx i) (collider_PC i)
    (colliderSeqNum i) (violator i) (violator_PC i) (threadNumber i)
    (readyRegs i) (effAddr i) (physEffAddrLow i) (physEffAddrHigh i)
    (memReqFlags i) (effSize i) (memData i) (delayedFwdData i)
    (validationData i) (lqIdx i) (sqIdx i) (savedReq i) (savedSreqLow i)
    (savedSreqHigh i) (dolmaVirtualReq i) (dolmaVirtualSreqLow i)
    (dolmaVirtualSreqHigh i) (dolmaPhysicalReq i) (dolmaPhysicalSreqLow i)
    (dolmaPhysicalSreqHigh i) (branchTaken i) (destRegIdx i) (srcRegIdx i)
    (prevDestRegIdx i).
Definition set_fault (v : option Fault) (i : DynInst) : DynInst :=
  mkDynInst (seqNum i) (violatorSeqNum i) (ydi i) (staticInst i) v (pc i) (instFlags
    i) (status i) (readySrcRegIdx i) (collider_PC i) (colliderSeqNum i)
    (violator i) (violator_PC i) (threadNumber i) (readyRegs i) (effAddr i)
    (physEffAddrLow i) (physEffAddrHigh i) (memReqFlags i) (effSize i)
    (memData i) (delayedFwdData i) (validationData i) (lqIdx i) (sqIdx i)
    (savedReq i) (savedSreqLow i) (savedSreqHigh i) (dolmaVirtualReq i)
    (dolmaVirtualSreqLow i) (dolmaVirtualSreqHigh i) (dolmaPhysicalReq i)
    (dolmaPhysicalSreqLow i) (dolmaPhysicalSreqHigh i) (branchTaken i)
    (destRegIdx i) (srcRegIdx i) (prevDestRegIdx i).
Definition set_pc (v : Addr) (i : DynInst) : DynInst :=
  mkDynInst (seqNum i) (violatorSeqNum i) (ydi i) (staticInst i) (fault i) v
    (instFlags i) (status i) (readySrcRegIdx i) (collider_PC i)
    (colliderSeqNum i) (violator i) (violator_PC i) (threadNumber i)
    (readyRegs i) (effAddr i) (physEffAddrLow i) (physEffAddrHigh i)
    (memReqFlags i) (effSize i) (memData i) (delayedFwdData i)
    (validationData i) (lqIdx i) (sqIdx i) (savedReq i) (savedSreqLow i)
    (savedSreqHigh i) (dolmaVirtualReq i) (dolmaVirtualSreqLow i)
    (dolmaVirtualSreqHigh i) (dolmaPhysicalReq i) (dolmaPhysicalSreqLow i)
    (dolmaPhysicalSreqHigh i) (branchTaken i) (destRegIdx i) (srcRegIdx i)
    (prevDestRegIdx i).
Definition set_instFlags (v : bitset) (i : DynInst) : DynInst :=
  mkDynInst (seqNum i) (violatorSeqNum i) (ydi i) (staticInst i) (fault i) (pc i) v
    (status i) (readySrcRegIdx i) (collider_PC i) (colliderSeqNum i)
    (violator i) (violator_PC i) (threadNumber i) (readyRegs i) (effAddr i)
    (physEffAddrLow i) (physEffAddrHigh i) (memReqFlags i) (effSize i)
    (memData i) (delayedFwdData i) (validationData i) (lqIdx i) (sqIdx i)
    (savedReq i) (savedSreqLow i) (savedSreqHigh i) (dolmaVirtualReq i)
    (dolmaVirtualSreqLow i) (dolmaVirtualSreqHigh i) (dolmaPhysicalReq i)
    (dolmaPhysicalSreqLow i) (dolmaPhysicalSreqHigh i) (branchTaken i)
    (destRegIdx i) (srcRegIdx i) (prevDestRegIdx i).
Definition set_status (v : bitset) (i : DynInst) : DynInst :=
  mkDynInst (seqNum i) (violatorSeqNum i) (ydi i) (staticInst i) (fault i) (pc i)
    (instFlags i) v (readySrcRegIdx i) (collider_PC i) (colliderSeqNum i)
    (violator i) (violator_PC i) (threadNumber i) (readyRegs i) (effAddr i)
    (physEffAddrLow i) (physEffAddrHigh i) (memReqFlags i) (effSize i)
    (memData i) (delayedFwdData i) (validationData i) (lqIdx i) (sqIdx i)
    (savedReq i) (savedSreqLow i) (savedSreqHigh i) (dolmaVirtualReq i)
    (dolmaVirtualSreqLow i) (dolmaVirtualSreqHigh i) (dolmaPhysicalReq i)
    (dolmaPhysicalSreqLow i) (dolmaPhysicalSreqHigh i) (branchTaken i)
    (destRegIdx i) (srcRegIdx i) (prevDestRegIdx i).
Definition set_readySrcRegIdx (v : list bool) (i : DynInst) : DynInst :=
  mkDynInst (seqNum i) (violatorSeqNum i) (ydi i) (staticInst i) (fault i) (pc i)
    (instFlags i) (status i) v (collider_PC i) (colliderSeqNum i) (violator
    i) (violator_PC i) (threadNumber i) (readyRegs i) (effAddr i)
    (physEffAddrLow i) (physEffAddrHigh i) (memReqFlags i) (effSize i)
    (memData i) (delayedFwdData i) (validationData i) (lqIdx i) (sqIdx i)
    (savedReq i) (savedSreqLow i) (savedSreqHigh i) (dolmaVirtualReq i)
    (dolmaVirtualSreqLow i) (dolmaVirtualSreqHigh i) (dolmaPhysicalReq i)
    (dolmaPhysicalSreqLow i) (dolmaPhysicalSreqHigh i) (branchTaken i)
    (destRegIdx i) (srcRegIdx i) (prevDestRegIdx i).
Definition set_collider_PC (v : Addr) (i : DynInst) : DynInst :=
  mkDynInst (seqNum i) (violatorSeqNum i) (ydi i) (staticInst i) (fault i) (pc i)
    (instFlags i) (status i) (readySrcRegIdx i) v (colliderSeqNum i)
    (violator i) (violator_PC i) (threadNumber i) (readyRegs i) (effAddr i)
    (physEffAddrLow i) (physEffAddrHigh i) (memReqFlags i) (effSize i)
    (memData i) (delayedFwdData i) (validationData i) (lqIdx i) (sqIdx i)
    (savedReq i) (savedSreqLow i) (savedSreqHigh i) (dolmaVirtualReq i)
    (dolmaVirtualSreqLow i) (dolmaVirtualSreqHigh i) (dolmaPhysicalReq i)
    (dolmaPhysicalSreqLow i) (dolmaPhysicalSreqHigh i) (branchTaken i)
    (destRegIdx i) (srcRegIdx i) (prevDestRegIdx i).
Definition set_colliderSeqNum (v : InstSeqNum) (i : DynInst) : DynInst :=
  mkDynInst (seqNum i) (violatorSeqNum i) (ydi i) (staticInst i) (fault i) (pc i)
    (instFlags i) (status i) (readySrcRegIdx i) (collider_PC i) v (violator
    i) (violator_PC i) (threadNumber i) (readyRegs i) (effAddr i)
    (physEffAddrLow i) (physEffAddrHigh i) (memReqFlags i) (effSize i)
    (memData i) (delayedFwdData i) (validationData i) (lqIdx i) (sqIdx i)
    (savedReq i) (savedSreqLow i) (savedSreqHigh i) (dolmaVirtualReq i)
    (dolmaVirtualSreqLow i) (dolmaVirtualSreqHigh i) (dolmaPhysicalReq i)
    (dolmaPhysicalSreqLow i) (dolmaPhysicalSreqHigh i) (branchTaken i)
    (destRegIdx i) (srcRegIdx i) (prevDestRegIdx i).
Definition set_violator (v : option DynInstPtr) (i : DynInst) : DynInst :=
  mkDynInst (seqNum i) (violatorSeqNum i) (ydi i) (staticInst i) (fault i) (pc i)
    (instFlags i) (status i) (readySrcRegIdx i) (collider_PC i)
    (colliderSeqNum i) v (violator_PC i) (threadNumber i) (readyRegs i)
    (effAddr i) (physEffAddrLow i) (physEffAddrHigh i) (memReqFlags i)
    (effSize i) (memData i) (delayedFwdData i) (validationData i) (lqIdx i)
    (sqIdx i) (savedReq i) (savedSreqLow i) (savedSreqHigh i)
    (dolmaVirtualReq i) (dolmaVirtualSreqLow i) (dolmaVirtualSreqHigh i)
    (dolmaPhysicalReq i) (dolmaPhysicalSreqLow i) (dolmaPhysicalSreqHigh i)
    (branchTaken i) (destRegIdx i) (srcRegIdx i) (prevDestRegIdx i).
Definition set_violator_PC (v : Addr) (i : DynInst) : DynInst :=
  mkDynInst (seqNum i) (violatorSeqNum i) (ydi i) (staticInst i) (fault i) (pc i)
    (instFlags i) (status i) (readySrcRegIdx i) (collider_PC i)
    (colliderSeqNum i) (violator i) v (threadNumber i) (readyRegs i)
    (effAddr i) (physEffAddrLow i) (physEffAddrHigh i) (memReqFlags i)
    (effSize i) (memData i) (delayedFwdData i) (validationData i) (lqIdx i)
    (sqIdx i) (savedReq i) (savedSreqLow i) (savedSreqHigh i)
    (dolmaVirtualReq i) (dolmaVirtualSreqLow i) (dolmaVirtualSreqHigh i)
    (dolmaPhysicalReq i) (dolmaPhysicalSreqLow i) (dolmaPhysicalSreqHigh i)
    (branchTaken i) (destRegIdx i) (srcRegIdx i) (prevDestRegIdx i).
Definition set_readyRegs (v : Z) (i : DynInst) : DynInst :=
  mkDynInst (seqNum i) (violatorSeqNum i) (ydi i) (staticInst i) (fault i) (pc i)
    (instFlags i) (status i) (readySrcRegIdx i) (collider_PC i)
    (colliderSeqNum i) (violator i) (violator_PC i) (threadNumber i) v
    (effAddr i) (physEffAddrLow i) (physEffAddrHigh i) (memReqFlags i)
    (effSize i) (memData i) (delayedFwdData i) (validationData i) (lqIdx i)
    (sqIdx i) (savedReq i) (savedSreqLow i) (savedSreqHigh i)
    (dolmaVirtualReq i) (dolmaVirtualSreqLow i) (dolmaVirtualSreqHigh i)
    (dolmaPhysicalReq i) (dolmaPhysicalSreqLow i) (dolmaPhysicalSreqHigh i)
    (branchTaken i) (destRegIdx i) (srcRegIdx i) (prevDestRegIdx i).
Definition set_effAddr (v : Addr) (i : DynInst) : DynInst :=
  mkDynInst (seqNum i) (violatorSeqNum i) (ydi i) (staticInst i) (fault i) (pc i)
    (instFlags i) (status i) (readySrcRegIdx i) (collider_PC i)
    (colliderSeqNum i) (violator i) (violator_PC i) (threadNumber i)
    (readyRegs i) v (physEffAddrLow i) (physEffAddrHigh i) (memReqFlags i)
    (effSize i) (memData i) (delayedFwdData i) (validationData i) (lqIdx i)
    (sqIdx i) (savedReq i) (savedSreqLow i) (savedSreqHigh i)
    (dolmaVirtualReq i) (dolmaVirtualSreqLow i) (dolmaVirtualSreqHigh i)
    (dolmaPhysicalReq i) (dolmaPhysicalSreqLow i) (dolmaPhysicalSreqHigh i)
    (branchTaken i) (destRegIdx i) (srcRegIdx i) (prevDestRegIdx i).
Definition set_physEffAddrLow (v : Addr) (i : DynInst) : DynInst :=
  mkDynInst (seqNum i) (violatorSeqNum i) (ydi i) (staticInst i) (fault i) (pc i)
    (instFlags i) (status i) (readySrcRegIdx i) (collider_PC i)
    (colliderSeqNum i) (violator i) (violator_PC i) (threadNumber i)
    (readyRegs i) (effAddr i) v (physEffAddrHigh i) (memReqFlags i) (effSize
    i) (memData i) (delayedFwdData i) (validationData i) (lqIdx i) (sqIdx i)
    (savedReq i) (savedSreqLow i) (savedSreqHigh i) (dolmaVirtualReq i)
    (dolmaVirtualSreqLow i) (dolmaVirtualSreqHigh i) (dolmaPhysicalReq i)
    (dolmaPhysicalSreqLow i) (dolmaPhysicalSreqHigh i) (branchTaken i)
    (destRegIdx i) (srcRegIdx i) (prevDestRegIdx i).
Definition set_physEffAddrHigh (v : Addr) (i : DynInst) : DynInst :=
  mkDynInst (seqNum i) (violatorSeqNum i) (ydi i) (staticInst i) (fault i) (pc i)
    (instFlags i) (status i) (readySrcRegIdx i) (collider_PC i)
    (colliderSeqNum i) (violator i) (violator_PC i) (threadNumber i)
    (readyRegs i) (effAddr i) (physEffAddrLow i) v (memReqFlags i) (effSize
    i) (memData i) (delayedFwdData i) (validationData i) (lqIdx i) (sqIdx i)
    (savedReq i) (savedSreqLow i) (savedSreqHigh i) (dolmaVirtualReq i)
    (dolmaVirtualSreqLow i) (dolmaVirtualSreqHigh i) (dolmaPhysicalReq i)
    (dolmaPhysicalSreqLow i) (dolmaPhysicalSreqHigh i) (branchTaken i)
    (destRegIdx i) (srcRegIdx i) (prevDestRegIdx i).
Definition set_memReqFlags (v : Z) (i : DynInst) : DynInst :=
  mkDynInst (seqNum i) (violatorSeqNum i) (ydi i) (staticInst i) (fault i) (pc i)
    (instFlags i) (status i) (readySrcRegIdx i) (collider_PC i)
    (colliderSeqNum i) (violator i) (violator_PC i) (threadNumber i)
    (readyRegs i) (effAddr i) (physEffAddrLow i) (physEffAddrHigh i) v
    (effSize i) (memData i) (delayedFwdData i) (validationData i) (lqIdx i)
    (sqIdx i) (savedReq i) (savedSreqLow i) (savedSreqHigh i)
    (dolmaVirtualReq i) (dolmaVirtualSreqLow i) (dolmaVirtualSreqHigh i)
    (dolmaPhysicalReq i) (dolmaPhysicalSreqLow i) (dolmaPhysicalSreqHigh i)
    (branchTaken i) (destRegIdx i) (srcRegIdx i) (prevDestRegIdx i).
Definition set_effSize (v : Z) (i : DynInst) : DynInst :=
  mkDynInst (seqNum i) (violatorSeqNum i) (ydi i) (staticInst i) (fault i) (pc i)
    (instFlags i) (status i) (readySrcRegIdx i) (collider_PC i)
    (colliderSeqNum i) (violator i) (violator_PC i) (threadNumber i)
    (readyRegs i) (effAddr i) (physEffAddrLow i) (physEffAddrHigh i)
    (memReqFlags i) v (memData i) (delayedFwdData i) (validationData i)
    (lqIdx i) (sqIdx i) (savedReq i) (savedSreqLow i) (savedSreqHigh i)
    (dolmaVirtualReq i) (dolmaVirtualSreqLow i) (dolmaVirtualSreqHigh i)
    (dolmaPhysicalReq i) (dolmaPhysicalSreqLow i) (dolmaPhysicalSreqHigh i)
    (branchTaken i) (destRegIdx i) (srcRegIdx i) (prevDestRegIdx i).
Definition set_memData (v : option (list Z)) (i : DynInst) : DynInst :=
  mkDynInst (seqNum i) (violatorSeqNum i) (ydi i) (staticInst i) (fault i) (pc i)
    (instFlags i) (status i) (readySrcRegIdx i) (collider_PC i)
    (colliderSeqNum i) (violator i) (violator_PC i) (threadNumber i)
    (readyRegs i) (effAddr i) (physEffAddrLow i) (physEffAddrHigh i)
    (memReqFlags i) (effSize i) v (delayedFwdData i) (validationData i)
    (lqIdx i) (sqIdx i) (savedReq i) (savedSreqLow i) (savedSreqHigh i)
    (dolmaVirtualReq i) (dolmaVirtualSreqLow i) (dolmaVirtualSreqHigh i)
    (dolmaPhysicalReq i) (dolmaPhysicalSreqLow i) (dolmaPhysicalSreqHigh i)
    (branchTaken i) (destRegIdx i) (srcRegIdx i) (prevDestRegIdx i).
Definition set_delayedFwdData (v : option (list Z)) (i : DynInst) : DynInst :=
  mkDynInst (seqNum i) (violatorSeqNum i) (ydi i) (staticInst i) (fault i) (pc i)
    (instFlags i) (status i) (readySrcRegIdx i) (collider_PC i)
    (colliderSeqNum i) (violator i) (violator_PC i) (threadNumber i)
    (readyRegs i) (effAddr i) (physEffAddrLow i) (physEffAddrHigh i)
    (memReqFlags i) (effSize i) (memData i) v (validationData i) (lqIdx i)
    (sqIdx i) (savedReq i) (savedSreqLow i) (savedSreqHigh i)
    (dolmaVirtualReq i) (dolmaVirtualSreqLow i) (dolmaVirtualSreqHigh i)
    (dolmaPhysicalReq i) (dolmaPhysicalSreqLow i) (dolmaPhysicalSreqHigh i)
    (branchTaken i) (destRegIdx i) (srcRegIdx i) (prevDestRegIdx i).
Definition set_validationData (v : option (list Z)) (i : DynInst) : DynInst :=
  mkDynInst (seqNum i) (violatorSeqNum i) (ydi i) (staticInst i) (fault i) (pc i)
    (instFlags i) (status i) (readySrcRegIdx i) (collider_PC i)
    (colliderSeqNum i) (violator i) (violator_PC i) (threadNumber i)
    (readyRegs i) (effAddr i) (physEffAddrLow i) (physEffAddrHigh i)
    (memReqFlags i) (effSize i) (memData i) (delayedFwdData i) v (lqIdx i)
    (sqIdx i) (savedReq i) (savedSreqLow i) (savedSreqHigh i)
    (dolmaVirtualReq i) (dolmaVirtualSreqLow i) (dolmaVirtualSreqHigh i)
    (dolmaPhysicalReq i) (dolmaPhysicalSreqLow i) (dolmaPhysicalSreqHigh i)
    (branchTaken i) (destRegIdx i) (srcRegIdx i) (prevDestRegIdx i).
Definition set_lqIdx (v : Z) (i : DynInst) : DynInst :=
  mkDynInst (seqNum i) (violatorSeqNum i) (ydi i) (staticInst i) (fault i) (pc i)
    (instFlags i) (status i) (readySrcRegIdx i) (collider_PC i)
    (colliderSeqNum i) (violator i) (violator_PC i) (threadNumber i)
    (readyRegs i) (effAddr i) (physEffAddrLow i) (physEffAddrHigh i)
    (memReqFlags i) (effSize i) (memData i) (delayedFwdData i)
    (validationData i) v (sqIdx i) (savedReq i) (savedSreqLow i)
    (savedSreqHigh i) (dolmaVirtualReq i) (dolmaVirtualSreqLow i)
    (dolmaVirtualSreqHigh i) (dolmaPhysicalReq i) (dolmaPhysicalSreqLow i)
    (dolmaPhysicalSreqHigh i) (branchTaken i) (destRegIdx i) (srcRegIdx i)
    (prevDestRegIdx i).
Definition set_sqIdx (v : Z) (i : DynInst) : DynInst :=
  mkDynInst (seqNum i) (violatorSeqNum i) (ydi i) (staticInst i) (fault i) (pc i)
    (instFlags i) (status i) (readySrcRegIdx i) (collider_PC i)
    (colliderSeqNum i) (violator i) (violator_PC i) (threadNumber i)
    (readyRegs i) (effAddr i) (physEffAddrLow i) (physEffAddrHigh i)
    (memReqFlags i) (effSize i) (memData i) (delayedFwdData i)
    (validationData i) (lqIdx i) v (savedReq i) (savedSreqLow i)
    (savedSreqHigh i) (dolmaVirtualReq i) (dolmaVirtualSreqLow i)
    (dolmaVirtualSreqHigh i) (dolmaPhysicalReq i) (dolmaPhysicalSreqLow i)
    (dolmaPhysicalSreqHigh i) (branchTaken i) (destRegIdx i) (srcRegIdx i)
    (prevDestRegIdx i).
Definition set_savedReq (v : option Request) (i : DynInst) : DynInst :=
  mkDynInst (seqNum i) (violatorSeqNum i) (ydi i) (staticInst i) (fault i) (pc i)
    (instFlags i) (status i) (readySrcRegIdx i) (collider_PC i)
    (colliderSeqNum i) (violator i) (violator_PC i) (threadNumber i)
    (readyRegs i) (effAddr i) (physEffAddrLow i) (physEffAddrHigh i)
    (memReqFlags i) (effSize i) (memData i) (delayedFwdData i)
    (validationData i) (lqIdx i) (sqIdx i) v (savedSreqLow i) (savedSreqHigh
    i) (dolmaVirtualReq i) (dolmaVirtualSreqLow i) (dolmaVirtualSreqHigh i)
    (dolmaPhysicalReq i) (dolmaPhysicalSreqLow i) (dolmaPhysicalSreqHigh i)
    (branchTaken i) (destRegIdx i) (srcRegIdx i) (prevDestRegIdx i).
Definition set_savedSreqLow (v : option Request) (i : DynInst) : DynInst :=
  mkDynInst (seqNum i) (violatorSeqNum i) (ydi i) (staticInst i) (fault i) (pc i)
    (instFlags i) (status i) (readySrcRegIdx i) (collider_PC i)
    (colliderSeqNum i) (violator i) (violator_PC i) (threadNumber i)
    (readyRegs i) (effAddr i) (physEffAddrLow i) (physEffAddrHigh i)
    (memReqFlags i) (effSize i) (memData i) (delayedFwdData i)
    (validationData i) (lqIdx i) (sqIdx i) (savedReq i) v (savedSreqHigh i)
    (dolmaVirtualReq i) (dolmaVirtualSreqLow i) (dolmaVirtualSreqHigh i)
    (dolmaPhysicalReq i) (dolmaPhysicalSreqLow i) (dolmaPhysicalSreqHigh i)
    (branchTaken i) (destRegIdx i) (srcRegIdx i) (prevDestRegIdx i).
Definition set_savedSreqHigh (v : option Request) (i : DynInst) : DynInst :=
  mkDynInst (seqNum i) (violatorSeqNum i) (ydi i) (staticInst i) (fault i) (pc i)
    (instFlags i) (status i) (readySrcRegIdx i) (collider_PC i)
    (colliderSeqNum i) (violator i) (violator_PC i) (threadNumber i)
    (readyRegs i) (effAddr i) (physEffAddrLow i) (physEffAddrHigh i)
    (memReqFlags i) (effSize i) (memData i) (delayedFwdData i)
    (validationData i) (lqIdx i) (sqIdx i) (savedReq i) (savedSreqLow i) v
    (dolmaVirtualReq i) (dolmaVirtualSreqLow i) (dolmaVirtualSreqHigh i)
    (dolmaPhysicalReq i) (dolmaPhysicalSreqLow i) (dolmaPhysicalSreqHigh i)
    (branchTaken i) (destRegIdx i) (srcRegIdx i) (prevDestRegIdx i).
Definition set_dolmaVirtualReq (v : option Request) (i : DynInst) : DynInst :=
  mkDynInst (seqNum i) (violatorSeqNum i) (ydi i) (staticInst i) (fault i) (pc i)
    (instFlags i) (status i) (readySrcRegIdx i) (collider_PC i)
    (colliderSeqNum i) (violator i) (violator_PC i) (threadNumber i)
    (readyRegs i) (effAddr i) (physEffAddrLow i) (physEffAddrHigh i)
    (memReqFlags i) (effSize i) (memData i) (delayedFwdData i)
    (validationData i) (lqIdx i) (sqIdx i) (savedReq i) (savedSreqLow i)
    (savedSreqHigh i) v (dolmaVirtualSreqLow i) (dolmaVirtualSreqHigh i)
    (dolmaPhysicalReq i) (dolmaPhysicalSreqLow i) (dolmaPhysicalSreqHigh i)
    (branchTaken i) (destRegIdx i) (srcRegIdx i) (prevDestRegIdx i).
Definition set_dolmaVirtualSreqLow (v : option Request) (i : DynInst) : DynInst :=
  mkDynInst (seqNum i) (violatorSeqNum i) (ydi i) (staticInst i) (fault i) (pc i)
    (instFlags i) (status i) (readySrcRegIdx i) (collider_PC i)
    (colliderSeqNum i) (violator i) (violator_PC i) (threadNumber i)
    (readyRegs i) (effAddr i) (physEffAddrLow i) (physEffAddrHigh i)
    (memReqFlags i) (effSize i) (memData i) (delayedFwdData i)
    (validationData i) (lqIdx i) (sqIdx i) (savedReq i) (savedSreqLow i)
    (savedSreqHigh i) (dolmaVirtualReq i) v (dolmaVirtualSreqHigh i)
    (dolmaPhysicalReq i) (dolmaPhysicalSreqLow i) (dolmaPhysicalSreqHigh i)
    (branchTaken i) (destRegIdx i) (srcRegIdx i) (prevDestRegIdx i).
Definition set_dolmaVirtualSreqHigh (v : option Request) (i : DynInst) : DynInst :=
  mkDynInst (seqNum i) (violatorSeqNum i) (ydi i) (staticInst i) (fault i) (pc i)
    (instFlags i) (status i) (readySrcRegIdx i) (collider_PC i)
    (colliderSeqNum i) (violator i) (violator_PC i) (threadNumber i)
    (readyRegs i) (effAddr i) (physEffAddrLow i) (physEffAddrHigh i)
    (memReqFlags i) (effSize i) (memData i) (delayedFwdData i)
    (validationData i) (lqIdx i) (sqIdx i) (savedReq i) (savedSreqLow i)
    (savedSreqHigh i) (dolmaVirtualReq i) (dolmaVirtualSreqLow i) v
    (dolmaPhysicalReq i) (dolmaPhysicalSreqLow i) (dolmaPhysicalSreqHigh i)
    (branchTaken i) (destRegIdx i) (srcRegIdx i) (prevDestRegIdx i).
Definition set_dolmaPhysicalReq (v : option Request) (i : DynInst) : DynInst :=
  mkDynInst (seqNum i) (violatorSeqNum i) (ydi i) (staticInst i) (fault i) (pc i)
    (instFlags i) (status i) (readySrcRegIdx i) (collider_PC i)
    (colliderSeqNum i) (violator i) (violator_PC i) (threadNumber i)
    (readyRegs i) (effAddr i) (physEffAddrLow i) (physEffAddrHigh i)
    (memReqFlags i) (effSize i) (memData i) (delayedFwdData i)
    (validationData i) (lqIdx i) (sqIdx i) (savedReq i) (savedSreqLow i)
    (savedSreqHigh i) (dolmaVirtualReq i) (dolmaVirtualSreqLow i)
    (dolmaVirtualSreqHigh i) v (dolmaPhysicalSreqLow i)
    (dolmaPhysicalSreqHigh i) (branchTaken i) (destRegIdx i) (srcRegIdx i)
    (prevDestRegIdx i).
Definition set_dolmaPhysicalSreqLow (v : option Request) (i : DynInst) : DynInst :=
  mkDynInst (seqNum i) (violatorSeqNum i) (ydi i) (staticInst i) (fault i) (pc i)
    (instFlags i) (status i) (readySrcRegIdx i) (collider_PC i)
    (colliderSeqNum i) (violator i) (violator_PC i) (threadNumber i)
    (readyRegs i) (effAddr i) (physEffAddrLow i) (physEffAddrHigh i)
    (memReqFlags i) (effSize i) (memData i) (delayedFwdData i)
    (validationData i) (lqIdx i) (sqIdx i) (savedReq i) (savedSreqLow i)
    (savedSreqHigh i) (dolmaVirtualReq i) (dolmaVirtualSreqLow i)
    (dolmaVirtualSreqHigh i) (dolmaPhysicalReq i) v (dolmaPhysicalSreqHigh
    i) (branchTaken i) (destRegIdx i) (srcRegIdx i) (prevDestRegIdx i).
Definition set_dolmaPhysicalSreqHigh (v : option Request) (i : DynInst) : DynInst :=
  mkDynInst (seqNum i) (violatorSeqNum i) (ydi i) (staticInst i) (fault i) (pc i)
    (instFlags i) (status i) (readySrcRegIdx i) (collider_PC i)
    (colliderSeqNum i) (violator i) (violator_PC i) (threadNumber i)
    (readyRegs i) (effAddr i) (physEffAddrLow i) (physEffAddrHigh i)
    (memReqFlags i) (effSize i) (memData i) (delayedFwdData i)
    (validationData i) (lqIdx i) (sqIdx i) (savedReq i) (savedSreqLow i)
    (savedSreqHigh i) (dolmaVirtualReq i) (dolmaVirtualSreqLow i)
    (dolmaVirtualSreqHigh i) (dolmaPhysicalReq i) (dolmaPhysicalSreqLow i) v
    (branchTaken i) (destRegIdx i) (srcRegIdx i) (prevDestRegIdx i).
Definition set_branchTaken (v : bool) (i : DynInst) : DynInst :=
  mkDynInst (seqNum i) (violatorSeqNum i) (ydi i) (staticInst i) (fault i) (pc i)
    (instFlags i) (status i) (readySrcRegIdx i) (collider_PC i)
    (colliderSeqNum i) (violator i) (violator_PC i) (threadNumber i)
    (readyRegs i) (effAddr i) (physEffAddrLow i) (physEffAddrHigh i)
    (memReqFlags i) (effSize i) (memData i) (delayedFwdData i)
    (validationData i) (lqIdx i) (sqIdx i) (savedReq i) (savedSreqLow i)
    (savedSreqHigh i) (dolmaVirtualReq i) (dolmaVirtualSreqLow i)
    (dolmaVirtualSreqHigh i) (dolmaPhysicalReq i) (dolmaPhysicalSreqLow i)
    (dolmaPhysicalSreqHigh i) v (destRegIdx i) (srcRegIdx i) (prevDestRegIdx
    i).
Definition set_destRegIdx (v : list PhysRegId) (i : DynInst) : DynInst :=
  mkDynInst (seqNum i) (violatorSeqNum i) (ydi i) (staticInst i) (fault i) (pc i)
    (instFlags i) (status i) (readySrcRegIdx i) (collider_PC i)
    (colliderSeqNum i) (violator i) (violator_PC i) (threadNumber i)
    (readyRegs i) (effAddr i) (physEffAddrLow i) (physEffAddrHigh i)
    (memReqFlags i) (effSize i) (memData i) (delayedFwdData i)
    (validationData i) (lqIdx i) (sqIdx i) (savedReq i) (savedSreqLow i)
    (savedSreqHigh i) (dolmaVirtualReq i) (dolmaVirtualSreqLow i)
    (dolmaVirtualSreqHigh i) (dolmaPhysicalReq i) (dolmaPhysicalSreqLow i)
    (dolmaPhysicalSreqHigh i) (branchTaken i) v (srcRegIdx i)
    (prevDestRegIdx i).
Definition set_srcRegIdx (v : list PhysRegId) (i : DynInst) : DynInst :=
  mkDynInst (seqNum i) (violatorSeqNum i) (ydi i) (staticInst i) (fault i) (pc i)
    (instFlags i) (status i) (readySrcRegIdx i) (collider_PC i)
    (colliderSeqNum i) (violator i) (violator_PC i) (threadNumber i)
    (readyRegs i) (effAddr i) (physEffAddrLow i) (physEffAddrHigh i)
    (memReqFlags i) (effSize i) (memData i) (delayedFwdData i)
    (validationData i) (lqIdx i) (sqIdx i) (savedReq i) (savedSreqLow i)
    (savedSreqHigh i) (dolmaVirtualReq i) (dolmaVirtualSreqLow i)
    (dolmaVirtualSreqHigh i) (dolmaPhysicalReq i) (dolmaPhysicalSreqLow i)
    (dolmaPhysicalSreqHigh i) (branchTaken i) (destRegIdx i) v
    (prevDestRegIdx i).
Definition set_prevDestRegIdx (v : list PhysRegId) (i : DynInst) : DynInst :=
  mkDynInst (seqNum i) (violatorSeqNum i) (ydi i) (staticInst i) (fault i) (pc i)
    (instFlags i) (status i) (readySrcRegIdx i) (collider_PC i)
    (colliderSeqNum i) (violator i) (violator_PC i) (threadNumber i)
    (readyRegs i) (effAddr i) (physEffAddrLow i) (physEffAddrHigh i)
    (memReqFlags i) (effSize i) (memData i) (delayedFwdData i)
    (validationData i) (lqIdx i) (sqIdx i) (savedReq i) (savedSreqLow i)
    (savedSreqHigh i) (dolmaVirtualReq i) (dolmaVirtualSreqLow i)
    (dolmaVirtualSreqHigh i) (dolmaPhysicalReq i) (dolmaPhysicalSreqLow i)
    (dolmaPhysicalSreqHigh i) (branchTaken i) (destRegIdx i) (srcRegIdx i) v.


(** ** Reading an instruction *)

Section reading.
Variable i : DynInst.

Definition static (f : StaticFlag) : bool := bs_test (si_flags (staticInst i)) f.
Definition st (b : Status) : bool := bs_test (status i) b.
Definition fl (b : InstFlag) : bool := bs_test (instFlags i) b.

Definition isMemRef := static IsMemRef.
Definition isLoad := static IsLoad.
Definition isStore := static IsStore.
Definition isStoreConditional := static IsStoreConditional.
Definition isInstPrefetch := static IsInstPrefetch.
Definition isDataPrefetch := static IsDataPrefetch.
Definition isFloating := static IsFloating.
Definition isVector := static IsVector.
Definition isControl := static IsControl.
Definition isCall := static IsCall.
Definition isReturn := static IsReturn.
Definition isDirectCtrl := static IsDirectControl.
Definition isIndirectCtrl := static IsIndirectControl.
Definition isCondCtrl := static IsCondControl.
Definition isUncondCtrl := static IsUncondControl.
Definition isMemBarrier := static IsMemBarrier.
Definition isWriteBarrier := static IsWriteBarrier.
Definition isNonSpeculative := static IsNonSpeculative.
Definition isSerializeBefore := static IsSerializeBefore || st SerializeBefore.
Definition isSerializeAfter := static IsSerializeAfter || st SerializeAfter.
Definition opClass : nat := si_opClass (staticInst i).
Definition numSrcRegs : nat := si_numSrcRegs (staticInst i).
Definition numDestRegs : nat := si_numDestRegs (staticInst i).
Definition instAddr : Addr := pc i.

Definition effAddrValid := fl EffAddrValid.
Definition memOpDone := fl MemOpDone.
Definition notAnInst := fl NotAnInst.
Definition translationStarted := fl TranslationStarted.
Definition translationCompleted := fl TranslationCompleted.
Definition possibleLoadViolation := fl PossibleLoadViolation.
Definition hitExternalSnoop := fl HitExternalSnoop.
Definition readPredTaken := fl PredTaken.
Definition readPredicate := fl Predicate.
Definition strictlyOrdered := fl IsStrictlyOrdered.
Definition hasRequest := fl ReqMade.
Definition isTranslationDelayed :=
  translationStarted && negb translationCompleted.

Definition isCompleted := st Completed.
Definition readyToIssue := st CanIssue.
Definition isIssued := st Issued.
Definition isExecuted := st Executed.
Definition readyToCommit := st CanCommit.
Definition isAtCommit := st AtCommit.
Definition isCommitted := st Committed.
Definition isSquashed := st Squashed.
Definition isInIQ := st IqEntry.
Definition isSquashedInIQ := st SquashedInIQ.
Definition isInLSQ := st LsqEntry.
Definition isInROB := st RobEntry.

(** DOLMA's predicates all require that the instruction is not squashed. *)
Definition isPendingMetadata := negb isSquashed && st PendingMetadata.
Definition isPendingMemOrder := negb isSquashed && st PendingMemOrder.
Definition isPendingBranch := negb isSquashed && st PendingBranch.
Definition isControlInducer := negb isSquashed && st ControlInducer.
Definition isDataInducer := negb isSquashed && st DataInducer.
Definition isControlRestricted := negb isSquashed && st ControlRestricted.
Definition isDataRestricted := negb isSquashed && st DataRestricted.
Definition isDolmaRestricted :=
  negb isSquashed && (isControlRestricted || isDataRestricted).
Definition isDolmaStalled := negb isSquashed && st DolmaStalled.
Definition isTotalStoreBufferHit := st TotalStoreBufferHit.
Definition isPartialStoreBufferHit := st PartialStoreBufferHit.
Definition getColliderPC : Addr := collider_PC i.
Definition getViolator : option DynInstPtr := violator i.
Definition getFault : option Fault := fault i.
Definition isReadySrcRegIdx (idx : nat) : bool :=
  default false (readySrcRegIdx i !! idx).
End reading.

(** ** Updating an instruction *)

Definition status_set (b : Status) (i : DynInst) : DynInst :=
  set_status (bs_set (status i) b) i.
Definition status_reset (b : Status) (i : DynInst) : DynInst :=
  set_status (bs_reset (status i) b) i.
Definition flag_assign (b : InstFlag) (v : bool) (i : DynInst) : DynInst :=
  set_instFlags (bs_assign (instFlags i) b v) i.

Definition setIssued := status_set Issued.
Definition clearIssued := status_reset Issued.
Definition setExecuted := status_set Executed.
Definition setCanIssue := status_set CanIssue.
Definition clearCanIssue := status_reset CanIssue.
Definition setCompleted := status_set Completed.
Definition setAtCommit := status_set AtCommit.
Definition setCommitted := status_set Committed.
Definition clearCanCommit := status_reset CanCommit.
Definition setInROB := status_set RobEntry.
Definition setInIQ := status_set IqEntry.
Definition clearInIQ := status_reset IqEntry.
Definition setInLSQ := status_set LsqEntry.
Definition setTotalStoreBufferHit := status_set TotalStoreBufferHit.
Definition setPartialStoreBufferHit := status_set PartialStoreBufferHit.
Definition clearTotalStoreBufferHit := status_reset TotalStoreBufferHit.
Definition clearPartialStoreBufferHit := status_reset PartialStoreBufferHit.
Definition clearControlInducer := status_reset ControlInducer.
Definition clearDataInducer := status_reset DataInducer.
Definition clearControlRestricted := status_reset ControlRestricted.
Definition clearDataRestricted := status_reset DataRestricted.
Definition clearDolmaStalled := status_reset DolmaStalled.

Definition setSquashedInIQ (i : DynInst) : DynInst :=
  status_set Squashed (status_set SquashedInIQ i).

(** Drops the private copies of the requests that DOLMA keeps for the
    metadata update; the inner tests are those of the source. *)
Definition dropDolmaReqs (i : DynInst) : DynInst :=
  match dolmaVirtualReq i with
  | None => i
  | Some _ =>
      let i := set_dolmaVirtualReq None i in
      let i := match dolmaVirtualSreqLow i with
               | None => i
               | Some _ => set_dolmaVirtualSreqHigh None
                             (set_dolmaVirtualSreqLow None i)
               end in
      match dolmaPhysicalReq i with
      | None => i
      | Some _ =>
          let i := set_dolmaPhysicalReq None i in
          let i := match dolmaPhysicalSreqLow i with
                   | None => i
                   | Some _ => set_dolmaPhysicalSreqLow None i
                   end in
          match dolmaPhysicalSreqHigh i with
          | None => i
          | Some _ => set_dolmaPhysicalSreqHigh None i
          end
      end
  end.

Definition setSquashed (i : DynInst) : DynInst :=
  dropDolmaReqs (status_set Squashed i).

Definition setCanCommit (i : DynInst) : outcome DynInst :=
  assert! negb (isPendingMemOrder i) as "setCanCommit: !isPendingMemOrder()" in
  assert! negb (isPendingBranch i) as "setCanCommit: !isPendingBranch()" in
  Ok (status_set CanCommit i).

Definition clearInROB (i : DynInst) : outcome DynInst :=
  assert! negb (isPendingMemOrder i) as "clearInROB: !isPendingMemOrder()" in
  assert! negb (isPendingBranch i) as "clearInROB: !isPendingBranch()" in
  assert! negb (isControlInducer i) as "clearInROB: !isControlInducer()" in
  assert! negb (isDataInducer i) as "clearInROB: !isDataInducer()" in
  assert! negb (isDolmaRestricted i) as "clearInROB: !isDolmaRestricted()" in
  assert! negb (isDolmaStalled i) as "clearInROB: !isDolmaStalled()" in
  Ok (status_reset RobEntry i).

Section dolma.
Variable cfg : DolmaConfig.

Definition setViolator (v : DynInstPtr) (i : DynInst) : outcome DynInst :=
  assert! isDolma cfg as "setViolator: cpu->isDolma()" in
  assert! negb (isSTT cfg) as "setViolator: !cpu->isSTT()" in
  Ok (set_violator (Some v) i).

Definition setPendingMetadata (i : DynInst) : outcome DynInst :=
  assert! isDolma cfg as "setPendingMetadata: cpu->isDolma()" in
  assert! negb (isSTT cfg) as "setPendingMetadata: !cpu->isSTT()" in
  Ok (status_set PendingMetadata i).

Definition setPendingMemOrder (i : DynInst) : outcome DynInst :=
  assert! isDolma cfg as "setPendingMemOrder: cpu->isDolma()" in
  assert! negb (isSTT cfg) as "setPendingMemOrder: !cpu->isSTT()" in
  assert! negb (isSquashed i) as "setPendingMemOrder: !isSquashed()" in
  Ok (set_violator_PC (pc i)
        (status_reset CanCommit (status_set PendingMemOrder i))).

(** The overload that takes the store the load collided with. *)
Definition setPendingMemOrderStore (store i : DynInst) : outcome DynInst :=
  assert! isDolma cfg as "setPendingMemOrder(store): cpu->isDolma()" in
  assert! negb (isSquashed i) as "setPendingMemOrder(store): !isSquashed()" in
  let i := status_reset CanCommit (status_set PendingMemOrder i) in
  let i :=
    if (colliderSeqNum i =? 0) || (seqNum store <? colliderSeqNum i)
    then set_collider_PC (instAddr store)
           (set_colliderSeqNum (seqNum store) i)
    else i in
  Ok (set_violator_PC (pc i) i).

Definition clearPendingMemOrder (i : DynInst) : DynInst :=
  status_set CanCommit (status_reset PendingMemOrder i).

Definition setPendingBranch (taken : bool) (i : DynInst) : outcome DynInst :=
  assert! isDolma cfg as "setPendingBranch: cpu->isDolma()" in
  let i := set_branchTaken taken i in
  assert! negb (isPendingBranch i) as "setPendingBranch: !isPendingBranch()" in
  Ok (status_set PendingBranch i).

Definition clearPendingBranch (i : DynInst) : DynInst :=
  status_set CanCommit (status_reset PendingBranch i).

Definition setControlInducer (i : DynInst) : outcome DynInst :=
  assert! isDolma cfg as "setControlInducer: cpu->isDolma()" in
  assert! negb (isSquashed i) as "setControlInducer: !isSquashed()" in
  Ok (status_set ControlInducer i).

Definition setDataInducer (i : DynInst) : outcome DynInst :=
  assert! isDolma cfg as "setDataInducer: cpu->isDolma()" in
  assert! negb (isSquashed i) as "setDataInducer: !isSquashed()" in
  assert! negb (strictlyOrdered i) as "setDataInducer: !strictlyOrdered()" in
  Ok (status_set DataInducer i).

Definition setControlRestricted (i : DynInst) : outcome DynInst :=
  assert! isDolma cfg as "setControlRestricted: cpu->isDolma()" in
  assert! negb (isSquashed i) as "setControlRestricted: !isSquashed()" in
  assert! negb (isControlRestricted i)
    as "setControlRestricted: !isControlRestricted()" in
  Ok (status_set ControlRestricted i).

Definition setDataRestricted (i : DynInst) : outcome DynInst :=
  assert! isDolma cfg as "setDataRestricted: cpu->isDolma()" in
  assert! negb (isSquashed i) as "setDataRestricted: !isSquashed()" in
  Ok (status_set DataRestricted i).

Definition setDolmaStalled (i : DynInst) : outcome DynInst :=
  assert! negb (isSTT cfg) || negb (isStore i) as "setDolmaStalled: !isStore()" in
  assert! negb (isSquashed i) as "setDolmaStalled: !isSquashed()" in
  assert! negb (isDolmaStalled i) as "setDolmaStalled: !isDolmaStalled()" in
  assert! isDolmaRestricted i as "setDolmaStalled: isDolmaRestricted()" in
  assert! negb (isTotalStoreBufferHit i)
    as "setDolmaStalled: !isTotalStoreBufferHit()" in
  assert! negb (isPartialStoreBufferHit i)
    as "setDolmaStalled: !isPartialStoreBufferHit()" in
  Ok (dropDolmaReqs
        (status_set DolmaStalled
           (status_reset PendingBranch (status_reset PendingMemOrder i)))).

Definition untaint (i : DynInst) : outcome DynInst :=
  assert! isDolmaRestricted i as "untaint: isDolmaRestricted()" in
  Ok (status_reset DataRestricted
        (status_reset ControlRestricted (status_reset DolmaStalled i))).
End dolma.

(** [++readyRegs == numSrcRegs()] compares the incremented [uint8_t]. *)
Definition markSrcRegReady (i : DynInst) : outcome DynInst :=
  let i := set_readyRegs (wrap 8 (readyRegs i + 1)) i in
  let i := if readyRegs i =? Z.of_nat (numSrcRegs i) then setCanIssue i else i in
  if Z.of_nat (numSrcRegs i) <? readyRegs i
  then Err (PanicCall "More registers are ready than needed")
  else Ok i.

Definition markSrcRegReadyIdx (src_idx : nat) (i : DynInst) : outcome DynInst :=
  markSrcRegReady (set_readySrcRegIdx (<[src_idx := true]> (readySrcRegIdx i)) i).

Definition eaSrcsReady (i : DynInst) : bool :=
  forallb (isReadySrcRegIdx i) (seq 1 (numSrcRegs i - 1)).

(** [initVars()] on construction; [readySrcRegIdx] is the zeroed bitset. *)
Definition initInst (si : StaticInst) (pc0 : Addr) (sn : InstSeqNum)
    (tid : ThreadID) : DynInst :=
  {| seqNum := sn; violatorSeqNum := 0; ydi := 0; staticInst := si;
     fault := None; pc := pc0;
     instFlags := bs_set (bs_set 0%N RecordResult) Predicate;
     status := 0%N;
     readySrcRegIdx := replicate (si_numSrcRegs si) false;
     collider_PC := 0; colliderSeqNum := 0; violator := None;
     violator_PC := 0; threadNumber := tid; readyRegs := 0;
     effAddr := 0; physEffAddrLow := 0; physEffAddrHigh := 0;
     memReqFlags := 0; effSize := 0; memData := None;
     delayedFwdData := None; validationData := None;
     lqIdx := -1; sqIdx := -1;
     savedReq := None; savedSreqLow := None; savedSreqHigh := None;
     dolmaVirtualReq := None; dolmaVirtualSreqLow := None;
     dolmaVirtualSreqHigh := None; dolmaPhysicalReq := None;
     dolmaPhysicalSreqLow := None; dolmaPhysicalSreqHigh := None;
     branchTaken := false; destRegIdx := []; srcRegIdx := [];
     prevDestRegIdx := [] |}.

(** ** The store of instructions *)

Abbreviation store := (gmap DynInstPtr DynInst).

Definition deref (p : DynInstPtr) (s : store) : outcome DynInst :=
  match s !! p with
  | Some i => Ok i
  | None => Err (NullDeref "DynInstPtr")
  end.

(** [p->f()] where [f] may assert. *)
Definition modifyM (f : DynInst → outcome DynInst) (p : DynInstPtr) (s : store)
  : outcome store :=
  let! i := deref p s in
  let! i' := f i in
  Ok (<[p := i']> s).

Definition modify (f : DynInst → DynInst) (p : DynInstPtr) (s : store)
  : outcome store := modifyM (λ i, Ok (f i)) p s.

(** ** Automation *)

Create HintDb dyn.
#[export] Hint Unfold static st fl isMemRef isLoad isStore isStoreConditional
  isControl effAddrValid strictlyOrdered isCompleted readyToIssue isIssued
  isExecuted readyToCommit isAtCommit isCommitted isSquashed isInIQ
  isSquashedInIQ isInLSQ isInROB isPendingMetadata isPendingMemOrder
  isPendingBranch isControlInducer isDataInducer isControlRestricted
  isDataRestricted isDolmaRestricted isDolmaStalled isTotalStoreBufferHit
  isPartialStoreBufferHit status_set status_reset flag_assign setIssued
  clearIssued setExecuted setCanIssue clearCanIssue setCompleted setAtCommit
  setCommitted clearCanCommit setInROB setInIQ clearInIQ setInLSQ
  clearControlInducer clearDataInducer clearControlRestricted
  clearDataRestricted clearDolmaStalled setSquashedInIQ clearPendingMemOrder
  clearPendingBranch : dyn.

Ltac dyn_red :=
  cbn [status instFlags ydi seqNum staticInst threadNumber violatorSeqNum
       dolmaVirtualReq violator pc collider_PC colliderSeqNum
       set_status set_instFlags set_ydi set_violatorSeqNum set_violator
       set_violator_PC set_collider_PC set_colliderSeqNum set_branchTaken
       set_readyRegs set_readySrcRegIdx];
  autorewrite with bits;
  cbn [bit_index Status_BitIndex Status_index InstFlag_BitIndex InstFlag_index
       N.eqb Pos.eqb orb andb negb].
Ltac dyn_simpl := repeat (progress autounfold with dyn); dyn_red.

(** Two versions of an instruction that agree on everything the reorder buffer
    reads: identity, status, flags and the youngest data inducer. *)
Record same_core (i i' : DynInst) : Prop := {
  sc_status : status i' = status i;
  sc_flags : instFlags i' = instFlags i;
  sc_seqNum : seqNum i' = seqNum i;
  sc_static : staticInst i' = staticInst i;
  sc_ydi : ydi i' = ydi i;
  sc_violator : violatorSeqNum i' = violatorSeqNum i;
  sc_thread : threadNumber i' = threadNumber i;
}.

#[export] Instance same_core_equiv : Equivalence same_core.
Proof. split; [done| | ]; intros ? **; constructor; repeat
  match goal with H : same_core _ _ |- _ => destruct H end; congruence. Qed.

(** Dropping the saved requests changes nothing else. *)
Lemma dropDolmaReqs_frame i : same_core i (dropDolmaReqs i).
Proof.
  destruct i as [? ? ? ? ? ? ? ? ? ? ? ? ? ? ? ? ? ? ? ? ? ? ? ? ? ? ? ?
                 [?|] [?|] ? [?|] [?|] [?|] ? ? ? ?]; constructor; reflexivity.
Qed.

(** After [setSquashed] the private copies of the virtual request are gone. *)
Lemma setSquashed_drops_virtual i : dolmaVirtualReq (setSquashed i) = None.
Proof.
  unfold setSquashed, status_set, dropDolmaReqs.
  destruct i as [? ? ? ? ? ? ? ? ? ? ? ? ? ? ? ? ? ? ? ? ? ? ? ? ? ? ? ?
                 [?|] [?|] ? [?|] [?|] [?|] ? ? ? ?]; reflexivity.
Qed.

Lemma deref_Ok p s i : deref p s = Ok i ↔ s !! p = Some i.
Proof. unfold deref. destruct (s !! p); split; intros; congruence. Qed.

Lemma modifyM_Ok f p s s' :
  modifyM f p s = Ok s' ↔
  ∃ i i', s !! p = Some i ∧ f i = Ok i' ∧ s' = <[p := i']> s.
Proof.
  unfold modifyM, deref. split.
  - intros H. destruct (s !! p) as [i|]; inv_ok H. eauto.
  - intros (i & i' & -> & -> & ->). reflexivity.
Qed.

Lemma modify_Ok f p s s' :
  modify f p s = Ok s' ↔ ∃ i, s !! p = Some i ∧ s' = <[p := f i]> s.
Proof.
  unfold modify. rewrite modifyM_Ok. split.
  - intros (i & i' & ? & [= <-] & ->). eauto.
  - intros (i & ? & ->). eauto.
Qed.
