(* ===== verification/Metadata.v ===== *)
(** * Deferred metadata updates

    A restricted memory instruction reads the TLB and the L1 cache without
    touching their replacement state.  Once it is safe, at retirement,
    [DefaultIEW::updateMetadataIfNeeded] replays the updates.  The TLB and the
    data cache port are reached through the interface [MemSystem]; what this
    code relies on is [MemSystemOk]. *)

From S2P Require Import Prelude Regs Config DynInst.

Local Open Scope Z_scope.

(** ** The memory system as the core sees it

    [dtb_updateLRU req write tid] is [cpu->dtb->updateLRU].
    [dcache_sendTimingReq req] is [dcachePort->sendTimingReq] of a read packet
    carrying [req]: its boolean answer, the request afterwards (the port may
    clear its restriction) and the new state. *)
Class MemSystem (M : Type) := {
  dtb_updateLRU : Request → bool → ThreadID → M → M;
  dcache_sendTimingReq : Request → M → bool * Request * M;
}.

(** [CpuSidePort::recvTimingReq] never accepts a metadata update. *)
Class MemSystemOk (M : Type) `{MemSystem M} := {
  metadata_update_refused : ∀ r m,
    metadataUpdate r = true → (dcache_sendTimingReq r m).1.1 = false;
}.

(** [TheISA::HasUnalignedMemAcc] is true on X86. *)
Section metadata.
Context {M : Type} `{MemSystem M}.

(** [BaseDynInst::updateLRU]: one TLB touch, or one per half of a split
    access; the saved virtual requests are dropped. *)
Definition updateLRU (i : DynInst) (m : M) : outcome (DynInst * M) :=
  let tlb r m := dtb_updateLRU r (isStore i) (threadNumber i) m in
  let! m' :=
    match dolmaVirtualSreqLow i, dolmaVirtualReq i with
    | None, Some r => Ok (tlb r m)
    | None, None => Err (NullDeref "dolmaVirtualReq")
    | Some lo, _ =>
        match dolmaVirtualSreqHigh i with
        | Some hi => Ok (tlb hi (tlb lo m))
        | None => Err (NullDeref "dolmaVirtualSreqHigh")
        end
    end in
  let i := set_dolmaVirtualReq None i in
  Ok (match dolmaVirtualSreqLow i with
      | None => i
      | Some _ => set_dolmaVirtualSreqHigh None (set_dolmaVirtualSreqLow None i)
      end, m').

Definition asMetadataUpdate (r : Request) : Request :=
  req_setMetadataUpdate (req_clearUnsafe r).

(** [LSQUnit::dolmaLoad]: reissues the load's read as a metadata update.  The
    first packet carries the main request, or the low half of a split one. *)
Definition dolmaLoad (i : DynInst) (m : M) : outcome (DynInst * M) :=
  match dolmaPhysicalReq i with
  | None => Err (Assertion "dolmaLoad: req")
  | Some req =>
      assert! bool_decide (validationData i = None)
        as "dolmaLoad: !load_inst->validationData" in
      let i := set_validationData
                 (Some (replicate (Z.to_nat (req_size req)) 0)) i in
      match dolmaPhysicalSreqLow i with
      | None =>
          let '(ret, _, m) := dcache_sendTimingReq (asMetadataUpdate req) m in
          assert! negb ret as "dolmaLoad: !ret_val" in
          Ok (set_dolmaPhysicalReq None i, m)
      | Some lo =>
          match dolmaPhysicalSreqHigh i with
          | None => Err (Assertion "dolmaLoad: sreqHigh")
          | Some hi =>
              let '(ret, _, m) := dcache_sendTimingReq (asMetadataUpdate lo) m in
              assert! negb ret as "dolmaLoad: !ret_val" in
              let '(ret, _, m) := dcache_sendTimingReq (asMetadataUpdate hi) m in
              assert! negb ret as "dolmaLoad: !ret_val" in
              Ok (set_dolmaPhysicalSreqHigh None
                    (set_dolmaPhysicalSreqLow None
                       (set_dolmaPhysicalReq None i)), m)
          end
      end
  end.

(** [DefaultIEW::updateMetadataIfNeeded]. *)
Definition updateMetadataIfNeeded (i : DynInst) (m : M) : outcome (DynInst * M) :=
  assert! negb (isSquashed i) as "updateMetadataIfNeeded: !inst->isSquashed()" in
  match isMemRef i, dolmaVirtualReq i with
  | true, Some _ =>
      let! (i, m) := updateLRU i m in
      match isLoad i, dolmaPhysicalReq i with
      | true, Some _ => dolmaLoad i m
      | _, _ => Ok (i, m)
      end
  | _, _ => Ok (i, m)
  end.

(** The updates leave what the pipeline reads of the instruction alone. *)
Lemma updateLRU_core i m i' m' :
  updateLRU i m = Ok (i', m') → same_core i i'.
Proof.
  unfold updateLRU. intros Hu. inv_ok Hu.
  cbn. destruct (dolmaVirtualSreqLow i); constructor; reflexivity.
Qed.

Lemma dolmaLoad_core i m i' m' :
  dolmaLoad i m = Ok (i', m') → same_core i i'.
Proof.
  unfold dolmaLoad. intros Hd.
  destruct (dolmaPhysicalReq i); [|discriminate]. cbn in Hd.
  inv_ok1 Hd. destruct (dolmaPhysicalSreqLow i).
  - destruct (dolmaPhysicalSreqHigh i); [|discriminate].
    destruct (dcache_sendTimingReq _ _) as [[? ?] ?]. inv_ok1 Hd.
    destruct (dcache_sendTimingReq _ _) as [[? ?] ?]. inv_ok Hd.
    constructor; reflexivity.
  - destruct (dcache_sendTimingReq _ _) as [[? ?] ?]. inv_ok Hd.
    constructor; reflexivity.
Qed.

Lemma updateMetadataIfNeeded_core i m i' m' :
  updateMetadataIfNeeded i m = Ok (i', m') → same_core i i'.
Proof.
  unfold updateMetadataIfNeeded. intros Hu. inv_ok1 Hu.
  destruct (isMemRef i), (dolmaVirtualReq i); try (inv_ok Hu; reflexivity).
  destruct (updateLRU i m) as [[i1 m1]|] eqn:E1; [|discriminate].
  apply updateLRU_core in E1. rewrite E1.
  destruct (isLoad i1), (dolmaPhysicalReq i1); try (inv_ok Hu; reflexivity).
  eapply dolmaLoad_core; eauto.
Qed.

(** The saved requests come in whole: a half is saved only with the other. *)
Definition reqs_whole (i : DynInst) : Prop :=
  (is_Some (dolmaVirtualSreqLow i) → is_Some (dolmaVirtualSreqHigh i)) ∧
  (is_Some (dolmaPhysicalSreqLow i) → is_Some (dolmaPhysicalSreqHigh i)).

Lemma send_metadata_refused `{!MemSystemOk M} r m :
  ∃ r' m', dcache_sendTimingReq (asMetadataUpdate r) m = (false, r', m').
Proof.
  destruct (dcache_sendTimingReq _ _) as [[b r'] m'] eqn:E.
  pose proof (metadata_update_refused (asMetadataUpdate r) m eq_refl) as Hr.
  rewrite E in Hr. cbn in Hr. subst. eauto.
Qed.

Lemma dolmaLoad_ok `{!MemSystemOk M} i m :
  validationData i = None → is_Some (dolmaPhysicalReq i) →
  (is_Some (dolmaPhysicalSreqLow i) → is_Some (dolmaPhysicalSreqHigh i)) →
  is_ok (dolmaLoad i m) = true.
Proof.
  intros Hval [pr Hpr] Hp. unfold dolmaLoad. rewrite Hpr, bool_decide_true by done.
  cbn. destruct (dolmaPhysicalSreqLow i) as [lo|].
  - destruct Hp as [hi ->]; [eauto|].
    destruct (send_metadata_refused lo m) as (? & m1 & ->). cbn.
    by destruct (send_metadata_refused hi m1) as (? & m2 & ->).
  - by destruct (send_metadata_refused pr m) as (? & m1 & ->).
Qed.

(** With a port that refuses metadata updates no assertion of the replay
    fails. *)
Lemma updateMetadataIfNeeded_ok `{!MemSystemOk M} i m :
  isSquashed i = false → validationData i = None → reqs_whole i →
  is_ok (updateMetadataIfNeeded i m) = true.
Proof.
  intros Hsq Hval [Hv Hp]. unfold updateMetadataIfNeeded. rewrite Hsq. cbn [negb].
  destruct (isMemRef i); [|reflexivity].
  destruct (dolmaVirtualReq i) as [r|] eqn:Er; [|reflexivity].
  unfold updateLRU. rewrite Er.
  destruct (dolmaVirtualSreqLow i) as [lo|] eqn:El; cbn.
  1: destruct Hv as [hi Hhi]; [eauto|]; rewrite Hhi; cbn.
  all: rewrite El; destruct (isLoad _); [|reflexivity]; cbn.
  all: destruct (dolmaPhysicalReq i) eqn:Ep; [|reflexivity].
  all: apply dolmaLoad_ok; cbn; rewrite ?Ep; eauto.
Qed.
End metadata.
