(* ===== verification/Rob.v ===== *)
(** * The reorder buffer

    [ROB] ([cpu/o3/rob.hh], [cpu/o3/rob_impl.hh]): in-order instruction lists
    per hardware thread, DOLMA's restriction of instructions behind unresolved
    branches ([insertInst]), the per-cycle recomputation of which instructions
    are safe ([updateSafeStatus]), the search for a resolved redirect,
    squashing over several cycles and retirement.

    A [std::list] iterator is the pointer it denotes, [None] for [end()]. *)

From S2P Require Import Prelude Regs Config DynInst Metadata.

Local Open Scope Z_scope.

Inductive ROBPolicy : Type := Dynamic | Partitioned | Threshold.
Inductive ROBStatus : Type := Running | Idle | ROBSquashing.

#[export] Instance ROBPolicy_eq_dec : EqDecision ROBPolicy.
Proof. solve_decision. Defined.

Record ROB := mkROB {
  robPolicy : ROBPolicy;
  numEntries : Z;
  squashWidth : nat;
  numThreads : nat;
  maxEntries : ThreadID → Z;
  threadEntries : ThreadID → Z;
  instList : ThreadID → list DynInstPtr; (** program order *)
  rob_head : option DynInstPtr; (** iterator; [None] is [end()] *)
  rob_tail : option DynInstPtr;
  squashIt : ThreadID → option DynInstPtr;
  numInstsInROB : Z;
  squashedSeqNum : ThreadID → InstSeqNum;
  doneSquashing : ThreadID → bool;
  robStatus : ThreadID → ROBStatus;
  activeThreads : list ThreadID; (** owned by the CPU *)
  removeList : list DynInstPtr; (** [FullO3CPU::removeList] *)
}.

Definition set_maxEntries (v : ThreadID → Z) (r : ROB) : ROB :=
  mkROB (robPolicy r) (numEntries r) (squashWidth r) (numThreads r) v
    (threadEntries r) (instList r) (rob_head r) (rob_tail r) (squashIt r)
    (numInstsInROB r) (squashedSeqNum r) (doneSquashing r) (robStatus r)
    (activeThreads r) (removeList r).
Definition set_threadEntries (v : ThreadID → Z) (r : ROB) : ROB :=
  mkROB (robPolicy r) (numEntries r) (squashWidth r) (numThreads r) (maxEntries
    r) v (instList r) (rob_head r) (rob_tail r) (squashIt r) (numInstsInROB
    r) (squashedSeqNum r) (doneSquashing r) (robStatus r) (activeThreads r)
    (removeList r).
Definition set_instList (v : ThreadID → list DynInstPtr) (r : ROB) : ROB :=
  mkROB (robPolicy r) (numEntries r) (squashWidth r) (numThreads r) (maxEntries
    r) (threadEntries r) v (rob_head r) (rob_tail r) (squashIt r)
    (numInstsInROB r) (squashedSeqNum r) (doneSquashing r) (robStatus r)
    (activeThreads r) (removeList r).
Definition set_rob_head (v : option DynInstPtr) (r : ROB) : ROB :=
  mkROB (robPolicy r) (numEntries r) (squashWidth r) (numThreads r) (maxEntries
    r) (threadEntries r) (instList r) v (rob_tail r) (squashIt r)
    (numInstsInROB r) (squashedSeqNum r) (doneSquashing r) (robStatus r)
    (activeThreads r) (removeList r).
Definition set_rob_tail (v : option DynInstPtr) (r : ROB) : ROB :=
  mkROB (robPolicy r) (numEntries r) (squashWidth r) (numThreads r) (maxEntries
    r) (threadEntries r) (instList r) (rob_head r) v (squashIt r)
    (numInstsInROB r) (squashedSeqNum r) (doneSquashing r) (robStatus r)
    (activeThreads r) (removeList r).
Definition set_squashIt (v : ThreadID → option DynInstPtr) (r : ROB) : ROB :=
  mkROB (robPolicy r) (numEntries r) (squashWidth r) (numThreads r) (maxEntries
    r) (threadEntries r) (instList r) (rob_head r) (rob_tail r) v
    (numInstsInROB r) (squashedSeqNum r) (doneSquashing r) (robStatus r)
    (activeThreads r) (removeList r).
Definition set_numInstsInROB (v : Z) (r : ROB) : ROB :=
  mkROB (robPolicy r) (numEntries r) (squashWidth r) (numThreads r) (maxEntries
    r) (threadEntries r) (instList r) (rob_head r) (rob_tail r) (squashIt r)
    v (squashedSeqNum r) (doneSquashing r) (robStatus r) (activeThreads r)
    (removeList r).
Definition set_squashedSeqNum (v : ThreadID → InstSeqNum) (r : ROB) : ROB :=
  mkROB (robPolicy r) (numEntries r) (squashWidth r) (numThreads r) (maxEntries
    r) (threadEntries r) (instList r) (rob_head r) (rob_tail r) (squashIt r)
    (numInstsInROB r) v (doneSquashing r) (robStatus r) (activeThreads r)
    (removeList r).
Definition set_doneSquashing (v : ThreadID → bool) (r : ROB) : ROB :=
  mkROB (robPolicy r) (numEntries r) (squashWidth r) (numThreads r) (maxEntries
    r) (threadEntries r) (instList r) (rob_head r) (rob_tail r) (squashIt r)
    (numInstsInROB r) (squashedSeqNum r) v (robStatus r) (activeThreads r)
    (removeList r).
Definition set_robStatus (v : ThreadID → ROBStatus) (r : ROB) : ROB :=
  mkROB (robPolicy r) (numEntries r) (squashWidth r) (numThreads r) (maxEntries
    r) (threadEntries r) (instList r) (rob_head r) (rob_tail r) (squashIt r)
    (numInstsInROB r) (squashedSeqNum r) (doneSquashing r) v (activeThreads
    r) (removeList r).
Definition set_removeList (v : list DynInstPtr) (r : ROB) : ROB :=
  mkROB (robPolicy r) (numEntries r) (squashWidth r) (numThreads r) (maxEntries
    r) (threadEntries r) (instList r) (rob_head r) (rob_tail r) (squashIt r)
    (numInstsInROB r) (squashedSeqNum r) (doneSquashing r) (robStatus r)
    (activeThreads r) v.

(** ** Construction and capacity *)

Definition resetState (r : ROB) : ROB :=
  let r := set_doneSquashing
    (λ t, if (t <? numThreads r)%nat then true else doneSquashing r t) r in
  let r := set_threadEntries
    (λ t, if (t <? numThreads r)%nat then 0 else threadEntries r t) r in
  let r := set_squashIt
    (λ t, if (t <? numThreads r)%nat then None else squashIt r t) r in
  let r := set_squashedSeqNum
    (λ t, if (t <? numThreads r)%nat then 0 else squashedSeqNum r t) r in
  set_rob_tail None (set_rob_head None (set_numInstsInROB 0 r)).

(** The constructor; [policy] is the lower-cased parameter string, and the
    thread arrays start out as the zeroed members of a fresh object. *)
Definition newROB (policy : string) (entries : Z) (width threads : nat)
    (threshold : Z) (active : list ThreadID) : outcome ROB :=
  let mk pol max :=
    Ok (resetState
          (mkROB pol entries width threads
             (λ t, if (t <? threads)%nat then max else 0) (λ _, 0) (λ _, [])
             None None (λ _, None) 0 (λ _, 0) (λ _, false) (λ _, Running)
             active [])) in
  if (policy =? "dynamic")%string then mk Dynamic entries
  else if (policy =? "partitioned")%string
       then mk Partitioned (entries / Z.of_nat threads)
  else if (policy =? "threshold")%string then mk Threshold threshold
  else Err (Assertion "Invalid ROB Sharing Policy").

Definition resetEntries (r : ROB) : ROB :=
  if bool_decide (robPolicy r ≠ Dynamic) || (1 <? numThreads r)%nat then
    let active := length (activeThreads r) in
    fold_left (λ r t,
      if bool_decide (robPolicy r = Partitioned)
      then set_maxEntries (<[t := numEntries r / Z.of_nat active]> (maxEntries r)) r
      else if bool_decide (robPolicy r = Threshold) && (active =? 1)%nat
      then set_maxEntries (<[t := numEntries r]> (maxEntries r)) r
      else r) (activeThreads r) r
  else r.

Definition entryAmount (num_threads : nat) (r : ROB) : Z :=
  if bool_decide (robPolicy r = Partitioned)
  then numEntries r / Z.of_nat num_threads else 0.

Definition countInstsThread (tid : ThreadID) (r : ROB) : Z :=
  Z.of_nat (length (instList r tid)).
Definition countInsts (r : ROB) : Z :=
  fold_left (λ total t, total + countInstsThread t r) (seq 0 (numThreads r)) 0.

(** Both return [unsigned]. *)
Definition numFreeEntries (r : ROB) : Z :=
  wrap 32 (numEntries r - numInstsInROB r).
Definition numFreeEntriesThread (tid : ThreadID) (r : ROB) : Z :=
  wrap 32 (maxEntries r tid - threadEntries r tid).
Definition isFull (r : ROB) : bool := numInstsInROB r =? numEntries r.
Definition isFullThread (tid : ThreadID) (r : ROB) : bool :=
  threadEntries r tid =? numEntries r.
Definition isEmpty (r : ROB) : bool := numInstsInROB r =? 0.
Definition isEmptyThread (tid : ThreadID) (r : ROB) : bool :=
  threadEntries r tid =? 0.

(** ** Which control instructions open a speculation window *)

(** [std::isspace] in the "C" locale. *)
Definition isspace (c : ascii) : bool :=
  let n := nat_of_ascii c in ((n =? 32) || ((9 <=? n) && (n <=? 13)))%nat.

Fixpoint skip_spaces (s : string) : string :=
  match s with
  | EmptyString => EmptyString
  | String c s' => if isspace c then skip_spaces s' else s
  end.

(** [s.substr(0, s.find(c))]. *)
Fixpoint upto_char (c : ascii) (s : string) : string :=
  match s with
  | EmptyString => EmptyString
  | String d s' => if (d =? c)%char then EmptyString else String d (upto_char c s')
  end.

Definition ends_with (suf s : string) : bool :=
  (String.length suf <=? String.length s)%nat &&
  (String.substring (String.length s - String.length suf)
     (String.length suf) s =? suf)%string.

Definition starts_with (pre s : string) : bool :=
  (String.substring 0 (String.length pre) s =? pre)%string.

Definition instName (i : DynInst) : string :=
  upto_char " " (skip_spaces (disassembly (staticInst i))).

(** The decision of [insertInst]: with complete control information every
    branch but a direct unconditional one; otherwise read off the mnemonic. *)
Definition inducesControl (i : DynInst) : bool :=
  let hasCtrlInfo := xorb (isDirectCtrl i) (isIndirectCtrl i) &&
                     xorb (isUncondCtrl i) (isCondCtrl i) in
  if hasCtrlInfo then negb (isDirectCtrl i && isUncondCtrl i)
  else
    let name := instName i in
    if negb (isReturn i) && ends_with "_I" name then
      if isCall i then false
      else if starts_with "JMP" name then false else true
    else true.

(** ** Inserting an instruction *)

(** The loop over the thread's list that stops at the first inducer. *)
Fixpoint anyControlInducer (l : list DynInstPtr) (s : store) : outcome bool :=
  match l with
  | [] => Ok false
  | q :: l' =>
      let! i := deref q s in
      if isControlInducer i then Ok true else anyControlInducer l' s
  end.

Section insert.
Variable cfg : DolmaConfig.

Definition markControl (l : list DynInstPtr) (p : DynInstPtr) (s : store)
  : outcome store :=
  let! s :=
    if negb (isDolmaMemOnly cfg) then
      let! b := anyControlInducer l s in
      if b then modifyM (setControlRestricted cfg) p s else Ok s
    else Ok s in
  let! i := deref p s in
  if isControl i && inducesControl i
  then modifyM (setControlInducer cfg) p s else Ok s.

Definition insertInst (p : DynInstPtr) (r : ROB) (s : store)
  : outcome (ROB * store) :=
  let! inst := deref p s in
  assert! negb (numInstsInROB r =? numEntries r)
    as "insertInst: numInstsInROB != numEntries" in
  let tid := threadNumber inst in
  let l := instList r tid ++ [p] in
  let r := set_instList (<[tid := l]> (instList r)) r in
  let! r :=
    if numInstsInROB r =? 0 then
      assert! bool_decide (head l = Some p) as "insertInst: (*head) == inst" in
      Ok (set_rob_head (head l) r)
    else Ok r in
  let r := set_rob_tail (last l) r in
  let! s := modify setInROB p s in
  let! s := if isDolma cfg && negb (isSquashed inst) then markControl l p s
            else Ok s in
  let r := set_numInstsInROB (numInstsInROB r + 1) r in
  let r := set_threadEntries
             (<[tid := threadEntries r tid + 1]> (threadEntries r)) r in
  assert! bool_decide (rob_tail r = Some p) as "insertInst: (*tail) == inst" in
  Ok (r, s).
End insert.

(** ** Safety of in-flight instructions *)

Fixpoint findInstIn (l : list DynInstPtr) (sn : InstSeqNum) (s : store)
  : outcome (option DynInstPtr) :=
  match l with
  | [] => Ok None
  | q :: l' =>
      let! i := deref q s in
      if seqNum i =? sn then Ok (Some q) else findInstIn l' sn s
  end.

Definition findInst (tid : ThreadID) (sn : InstSeqNum) (r : ROB) (s : store)
  : outcome (option DynInstPtr) := findInstIn (instList r tid) sn s.

Section safety.
Variable cfg : DolmaConfig.

Fixpoint resolvedRedirectIn (l : list DynInstPtr) (s : store)
  : outcome (option DynInstPtr) :=
  match l with
  | [] => Ok None
  | q :: l' =>
      let! i := deref q s in
      if negb (isDolmaRestricted i) &&
         (isPendingBranch i ||
          isPendingMemOrder i && (negb (getColliderPC i =? 0) || isSTT cfg))
      then Ok (Some q) else resolvedRedirectIn l' s
  end.

Definition getResolvedRedirect (tid : ThreadID) (r : ROB) (s : store)
  : outcome (option DynInstPtr) := resolvedRedirectIn (instList r tid) s.

(** The local variables of [updateSafeStatus]. *)
Record SafeScan := mkSafeScan {
  foundUnresolvedBranch : bool;
  foundUnresolvedStore : bool;
  ydis : gset InstSeqNum;
  oldestViolator : InstSeqNum;
}.

(** [(InstSeqNum) -1] starts [oldestViolator]. *)
Definition scan0 : SafeScan := mkSafeScan false false ∅ u64_max.

(** Control restrictions go when no unresolved branch precedes, data
    restrictions when the youngest data inducer is not a pending one. *)
Definition clearResolved (a : SafeScan) (i : DynInst) : DynInst :=
  let i := if isControlRestricted i && negb (foundUnresolvedBranch a)
           then clearControlRestricted i else i in
  if isDataRestricted i && bool_decide (ydi i ∉ ydis a)
  then clearDataRestricted i else i.

(** The first block of the loop body: lift restrictions, and once both are
    lifted schedule the metadata update, release a stalled instruction or pass
    a delayed memory-order violation on to the load. *)
Definition liftRestrictions (a : SafeScan) (p : DynInstPtr) (s : store)
  : outcome store :=
  let! i := deref p s in
  if negb (isDolmaRestricted i) then Ok s else
  let i := clearResolved a i in
  if isDolmaRestricted i then Ok (<[p := i]> s) else
  let! i := if negb (isSTT cfg) && negb (isDolmaStalled i) &&
               bool_decide (is_Some (dolmaVirtualReq i))
            then setPendingMetadata cfg i else Ok i in
  if isDolmaStalled i then Ok (<[p := clearDolmaStalled i]> s)
  else
    let s := <[p := i]> s in
    if isStore i && negb (isSTT cfg) then
      match getViolator i with
      | None => Ok s
      | Some v =>
          let! vi := deref v s in
          if isSquashed vi then Ok s
          else modifyM (setPendingMemOrderStore cfg i) v s
      end
    else Ok s.

(** The second block: an inducer stays unresolved, or is resolved. *)
Definition resolveInducer (a : SafeScan) (p : DynInstPtr) (s : store)
  : outcome (SafeScan * store) :=
  let! i := deref p s in
  if negb (isDataInducer i) then Ok (a, s)
  else if (isDolmaConservative cfg || isPendingMemOrder i)
          || (isDolmaMemOnly cfg && foundUnresolvedBranch a)
          || (negb (isSTT cfg) &&
              (foundUnresolvedStore a || (oldestViolator a <=? seqNum i)))
  then Ok (mkSafeScan (foundUnresolvedBranch a) (foundUnresolvedStore a)
             ({[ seqNum i ]} ∪ ydis a) (oldestViolator a), s)
  else Ok (a, <[p := clearDataInducer i]> s).

(** The third block: what this instruction means for younger ones. *)
Definition noteInst (l : list DynInstPtr) (a : SafeScan) (p : DynInstPtr)
    (s : store) : outcome (SafeScan * store) :=
  let! i := deref p s in
  let a := if isControlInducer i
           then mkSafeScan true (foundUnresolvedStore a) (ydis a) (oldestViolator a)
           else a in
  if isStore i && negb (isSquashed i) && negb (isSTT cfg)
     && negb (isDolmaConservative cfg) then
    if negb (effAddrValid i)
    then Ok (mkSafeScan (foundUnresolvedBranch a) true (ydis a) (oldestViolator a), s)
    else if negb (violatorSeqNum i =? 0) && (violatorSeqNum i <? oldestViolator a)
    then
      let! v := findInstIn l (violatorSeqNum i) s in
      let forget := <[p := set_violatorSeqNum 0 i]> s in
      match v with
      | None => Ok (a, forget)
      | Some v =>
          let! vi := deref v s in
          if isSquashed vi then Ok (a, forget)
          else Ok (mkSafeScan (foundUnresolvedBranch a) (foundUnresolvedStore a)
                     (ydis a) (violatorSeqNum i), s)
      end
    else Ok (a, s)
  else Ok (a, s).

Definition safeStep (l : list DynInstPtr) (as_ : SafeScan * store)
    (p : DynInstPtr) : outcome (SafeScan * store) :=
  let! s := liftRestrictions as_.1 p as_.2 in
  let! (a, s) := resolveInducer as_.1 p s in
  noteInst l a p s.

Definition updateSafeStatus (tid : ThreadID) (r : ROB) (s : store)
  : outcome store :=
  let l := instList r tid in
  let! (_, s) := foldM (safeStep l) l (scan0, s) in
  Ok s.
End safety.

(** ** The global head and tail *)

Fixpoint updateHeadIn (ts : list ThreadID) (r : ROB) (s : store)
    (best : option (DynInstPtr * InstSeqNum)) : outcome (option DynInstPtr) :=
  match ts with
  | [] => Ok (fst <$> best)
  | t :: ts' =>
      match instList r t with
      | [] => updateHeadIn ts' r s best
      | q :: _ =>
          let! i := deref q s in
          match best with
          | None => updateHeadIn ts' r s (Some (q, seqNum i))
          | Some (_, lowest) =>
              updateHeadIn ts' r s
                (if seqNum i <? lowest then Some (q, seqNum i) else best)
          end
      end
  end.

Definition updateHead (r : ROB) (s : store) : outcome ROB :=
  let! h := updateHeadIn (activeThreads r) r s None in
  Ok (set_rob_head h r).

Fixpoint updateTailIn (ts : list ThreadID) (r : ROB) (s : store)
    (tl : option DynInstPtr) : outcome (option DynInstPtr) :=
  match ts with
  | [] => Ok tl
  | t :: ts' =>
      match last (instList r t) with
      | None => updateTailIn ts' r s tl
      | Some q =>
          match tl with
          | None => updateTailIn ts' r s (Some q)
          | Some c =>
              let! i := deref q s in
              let! j := deref c s in
              updateTailIn ts' r s
                (if seqNum j <? seqNum i then Some q else tl)
          end
      end
  end.

Definition updateTail (r : ROB) (s : store) : outcome ROB :=
  let! t := updateTailIn (activeThreads r) r s None in
  Ok (set_rob_tail t r).

(** ** Retirement *)

Section retire.
Variable cfg : DolmaConfig.
Context {M : Type} `{MemSystem M}.

Definition retireHead (tid : ThreadID) (r : ROB) (s : store) (m : M)
  : outcome (ROB * store * M) :=
  assert! 0 <? numInstsInROB r as "retireHead: numInstsInROB > 0" in
  match instList r tid with
  | [] => Err (NullDeref "retireHead: *begin()")
  | p :: rest =>
      let! i := deref p s in
      assert! readyToCommit i as "retireHead: head_inst->readyToCommit()" in
      let! (s, m) :=
        if isPendingMetadata i then
          let! (i, m) := updateMetadataIfNeeded i m in Ok (<[p := i]> s, m)
        else Ok (s, m) in
      let! i := deref p s in
      let! s :=
        if isDataInducer i then
          assert! isDolmaConservative cfg
            as "retireHead: cpu->isDolmaConservative()" in
          updateSafeStatus cfg tid r (<[p := clearDataInducer i]> s)
        else Ok s in
      let r := set_numInstsInROB (numInstsInROB r - 1) r in
      let r := set_threadEntries
                 (<[tid := threadEntries r tid - 1]> (threadEntries r)) r in
      let! s := modifyM clearInROB p s in
      let! s := modify setCommitted p s in
      let r := set_instList (<[tid := rest]> (instList r)) r in
      let! r := updateHead r s in
      Ok (set_removeList (removeList r ++ [p]) r, s, m)
  end.
End retire.

Definition isHeadReady (tid : ThreadID) (r : ROB) (s : store) : outcome bool :=
  if negb (threadEntries r tid =? 0) then
    match instList r tid with
    | [] => Err (NullDeref "isHeadReady: front()")
    | p :: _ => let! i := deref p s in Ok (readyToCommit i)
    end
  else Ok false.

Fixpoint canCommitIn (ts : list ThreadID) (r : ROB) (s : store) : outcome bool :=
  match ts with
  | [] => Ok false
  | t :: ts' =>
      let! b := isHeadReady t r s in
      if b then Ok true else canCommitIn ts' r s
  end.
Definition canCommit (r : ROB) (s : store) : outcome bool :=
  canCommitIn (activeThreads r) r s.

Definition readHeadInst (tid : ThreadID) (r : ROB) (s : store)
  : outcome (option DynInstPtr) :=
  if negb (threadEntries r tid =? 0) then
    match instList r tid with
    | [] => Err (NullDeref "readHeadInst: *begin()")
    | p :: _ =>
        let! i := deref p s in
        assert! isInROB i as "readHeadInst: (*head_thread)->isInROB()" in
        Ok (Some p)
    end
  else Ok None.

Definition readTailInst (tid : ThreadID) (r : ROB) : outcome DynInstPtr :=
  match last (instList r tid) with
  | Some p => Ok p
  | None => Err (NullDeref "readTailInst: *--end()")
  end.

(** ** Squashing *)

(** [--it] on the list: the element before [p]. *)
Fixpoint prev_in (p : DynInstPtr) (l : list DynInstPtr) : option DynInstPtr :=
  match l with
  | [] => None
  | a :: l' =>
      match l' with
      | [] => None
      | b :: _ => if b =? p then Some a else prev_in p l'
      end
  end.

(** The [for] loop of [doSquash]: at most [n] instructions, from [it] towards
    the head.  [inl s]: reached the head and returned; [inr (it, s, upd)]: left
    the loop at [it], [upd] when the tail was squashed. *)
Fixpoint squashLoop (n : nat) (l : list DynInstPtr) (sn : InstSeqNum)
    (it : DynInstPtr) (s : store) (upd : bool)
  : outcome (store + DynInstPtr * store * bool) :=
  match n with
  | O => Ok (inr (it, s, upd))
  | S n' =>
      let! i := deref it s in
      if sn <? seqNum i then
        let! i' := setCanCommit (setSquashed i) in
        let s := <[it := i']> s in
        if bool_decide (head l = Some it) then Ok (inl s)
        else
          let upd := upd || bool_decide (last l = Some it) in
          match prev_in it l with
          | None => Err (NullDeref "doSquash: --squashIt")
          | Some it' => squashLoop n' l sn it' s upd
          end
      else Ok (inr (it, s, upd))
  end.

Definition finishSquash (tid : ThreadID) (r : ROB) : ROB :=
  set_doneSquashing (<[tid := true]> (doneSquashing r))
    (set_squashIt (<[tid := None]> (squashIt r)) r).

Definition doSquash (tid : ThreadID) (r : ROB) (s : store)
  : outcome (ROB * store) :=
  match squashIt r tid with
  | None => Err (Assertion "doSquash: squashIt[tid] != instList[tid].end()")
  | Some it =>
      let! i := deref it s in
      let sn := squashedSeqNum r tid in
      if seqNum i <? sn then Ok (finishSquash tid r, s) else
      let! o := squashLoop (squashWidth r) (instList r tid) sn it s false in
      match o with
      | inl s => Ok (finishSquash tid r, s)
      | inr (it, s, upd) =>
          let! i := deref it s in
          let r := set_squashIt (<[tid := Some it]> (squashIt r)) r in
          let r := if seqNum i <=? sn then finishSquash tid r else r in
          let! r := if upd then updateTail r s else Ok r in
          Ok (r, s)
      end
  end.

Definition squash (squash_num : InstSeqNum) (tid : ThreadID) (r : ROB)
    (s : store) : outcome (ROB * store) :=
  if isEmptyThread tid r then Ok (r, s) else
  let r := set_robStatus (<[tid := ROBSquashing]> (robStatus r)) r in
  let r := set_doneSquashing (<[tid := false]> (doneSquashing r)) r in
  let r := set_squashedSeqNum (<[tid := squash_num]> (squashedSeqNum r)) r in
  match last (instList r tid) with
  | None => Ok (r, s)
  | Some p =>
      doSquash tid (set_squashIt (<[tid := Some p]> (squashIt r)) r) s
  end.
