(* ===== verification/RobSafe.v ===== *)
(** * Safety recomputation of the reorder buffer

    What [ROB::updateSafeStatus] does to a thread's instructions, against the
    reference reading of DOLMA's rule: an instruction stays control restricted
    exactly while an older unresolved control inducer is in the buffer, and
    stays data restricted exactly while its youngest data inducer is an older
    unresolved one. *)

From S2P Require Import Prelude Regs Config DynInst Metadata Rob.

Local Open Scope Z_scope.

(** ** Observing the store *)

Definition view (f : DynInst → bool) (s : store) (p : DynInstPtr) : bool :=
  match s !! p with Some i => f i | None => false end.

Definition ydi_at (s : store) (p : DynInstPtr) : InstSeqNum :=
  match s !! p with Some i => ydi i | None => 0 end.

(** A pointer is the sequence number of what it points to. *)
Definition wf_store (s : store) : Prop := map_Forall (λ p i, seqNum i = p) s.

(** Pointers kept in instructions are reference counted, so they are valid. *)
Definition closed_store (s : store) : Prop :=
  map_Forall (λ _ i, match violator i with
                     | Some v => bool_decide (is_Some (s !! v))
                     | None => true end = true) s.

Definition in_store (s : store) (l : list DynInstPtr) : Prop :=
  Forall (λ p, is_Some (s !! p)) l.

(** The bits [updateSafeStatus] writes besides restrictions and inducers: a
    delayed memory-order violation, the metadata update, the stall. *)
Definition side_bit (b : Status) : bool :=
  match b with
  | PendingMemOrder | CanCommit | PendingMetadata | DolmaStalled => true
  | _ => false
  end.

(** Everything [updateSafeStatus] keeps in an instruction it is not visiting. *)
Record kept (i i' : DynInst) : Prop := {
  kept_seqNum : seqNum i' = seqNum i;
  kept_static : staticInst i' = staticInst i;
  kept_flags : instFlags i' = instFlags i;
  kept_ydi : ydi i' = ydi i;
  kept_violator : violator i' = violator i;
  kept_thread : threadNumber i' = threadNumber i;
  kept_status : ∀ b, side_bit b = false → st i' b = st i b;
}.

#[export] Instance kept_preorder : PreOrder kept.
Proof.
  split; [constructor; auto|].
  intros i j k [] []; constructor; try congruence.
  intros b Hb. rewrite <-(kept_status0 b Hb). auto.
Qed.

Definition kept_opt (o o' : option DynInst) : Prop :=
  match o, o' with
  | Some i, Some i' => kept i i'
  | None, None => True
  | _, _ => False
  end.

#[export] Instance kept_opt_preorder : PreOrder kept_opt.
Proof.
  split; [intros []; cbn; [reflexivity|done]|].
  intros [] [] []; cbn; try done. apply transitivity.
Qed.

(** The predicates that survive in a kept instruction. *)
Lemma kept_preds i i' : kept i i' →
  isSquashed i' = isSquashed i ∧ isControlInducer i' = isControlInducer i ∧
  isDataInducer i' = isDataInducer i ∧
  isControlRestricted i' = isControlRestricted i ∧
  isDataRestricted i' = isDataRestricted i.
Proof.
  intros []. unfold isControlInducer, isDataInducer, isControlRestricted,
    isDataRestricted, isSquashed.
  rewrite !kept_status0 by reflexivity. auto.
Qed.

(** ** One visit *)

(** What a visit makes of the visited instruction, restrictions aside. *)
Record visited (i i' : DynInst) : Prop := {
  vis_seqNum : seqNum i' = seqNum i;
  vis_static : staticInst i' = staticInst i;
  vis_flags : instFlags i' = instFlags i;
  vis_ydi : ydi i' = ydi i;
  vis_violator : violator i' = violator i;
  vis_thread : threadNumber i' = threadNumber i;
  vis_squashed : isSquashed i' = isSquashed i;
  vis_inducer : isControlInducer i' = isControlInducer i;
}.

#[export] Instance visited_preorder : PreOrder visited.
Proof. split; [constructor; auto|]. intros i j k [] []; constructor; congruence. Qed.

Lemma kept_visited i i' : kept i i' → visited i i'.
Proof.
  intros Hk. pose proof (kept_preds _ _ Hk) as (? & ? & ? & ? & ?).
  destruct Hk. by constructor.
Qed.

Lemma setPendingMemOrderStore_kept cfg st_ i i' :
  setPendingMemOrderStore cfg st_ i = Ok i' → kept i i'.
Proof.
  unfold setPendingMemOrderStore. intros H. inv_ok H.
  constructor; try (destruct (_ || _); reflexivity).
  intros b Hb. destruct (_ || _); destruct b; try discriminate Hb;
    dyn_simpl; rewrite ?andb_true_r; reflexivity.
Qed.

(** Restrictions after a visit with scan state [a]. *)
Record lifted (a : SafeScan) (i i' : DynInst) : Prop := {
  lift_visited : visited i i';
  lift_data_inducer : isDataInducer i' = isDataInducer i;
  lift_control : isControlRestricted i'
    = isControlRestricted i && foundUnresolvedBranch a;
  lift_data : isDataRestricted i'
    = isDataRestricted i && bool_decide (ydi i ∈ ydis a);
}.

Lemma lifted_kept a i j k : lifted a i j → kept j k → lifted a i k.
Proof.
  intros [] Hk. pose proof (kept_preds _ _ Hk) as (? & ? & ? & ? & ?).
  pose proof (kept_visited _ _ Hk). constructor; [by etransitivity|congruence..].
Qed.

Lemma status_reset_visited b i :
  b ≠ Squashed → b ≠ ControlInducer → visited i (status_reset b i).
Proof.
  intros H1 H2. constructor; try reflexivity;
    destruct b; try done; dyn_simpl; rewrite ?andb_true_r; reflexivity.
Qed.

Lemma clear_control_facts i :
  isControlRestricted (clearControlRestricted i) = false ∧
  isDataRestricted (clearControlRestricted i) = isDataRestricted i ∧
  isDataInducer (clearControlRestricted i) = isDataInducer i ∧
  isSquashed (clearControlRestricted i) = isSquashed i.
Proof. dyn_simpl. rewrite ?andb_false_r, ?andb_true_r. auto. Qed.

Lemma clear_data_facts i :
  isDataRestricted (clearDataRestricted i) = false ∧
  isControlRestricted (clearDataRestricted i) = isControlRestricted i ∧
  isDataInducer (clearDataRestricted i) = isDataInducer i ∧
  isSquashed (clearDataRestricted i) = isSquashed i.
Proof. dyn_simpl. rewrite ?andb_false_r, ?andb_true_r. auto. Qed.

Lemma clearResolved_lifted a i : lifted a i (clearResolved a i).
Proof.
  unfold clearResolved.
  set (j := if isControlRestricted i && _ then _ else i).
  assert (visited i j ∧ isDataInducer j = isDataInducer i ∧
    isControlRestricted j = isControlRestricted i && foundUnresolvedBranch a ∧
    isDataRestricted j = isDataRestricted i) as (Hv & Hdi & Hc & Hd).
  { subst j. pose proof (clear_control_facts i) as (? & ? & ? & ?).
    destruct (isControlRestricted i) eqn:Ec, (foundUnresolvedBranch a); cbn;
      split_and!; auto; try reflexivity; by apply status_reset_visited. }
  clearbody j. rewrite bool_decide_not, (vis_ydi _ _ Hv).
  pose proof (clear_data_facts j) as (? & ? & ? & ?).
  destruct (isDataRestricted j) eqn:Ed, (bool_decide (ydi i ∈ ydis a)) eqn:Ey; cbn;
    constructor; rewrite ?Ey; try congruence; try done;
    try (rewrite <-Hd; rewrite ?Ed; done).
  etransitivity; [done|]. by apply status_reset_visited.
Qed.

Lemma setPendingMetadata_kept cfg i i' : setPendingMetadata cfg i = Ok i' → kept i i'.
Proof.
  unfold setPendingMetadata. intros H. inv_ok H.
  constructor; try reflexivity.
  intros b Hb. destruct b; try discriminate Hb; dyn_simpl; reflexivity.
Qed.

Lemma clearDolmaStalled_kept i : kept i (clearDolmaStalled i).
Proof.
  constructor; try reflexivity.
  intros b Hb. destruct b; try discriminate Hb; dyn_simpl; by rewrite andb_true_r.
Qed.

(** [s'] differs from [s] at [p] by [R] and elsewhere keeps every instruction. *)
Definition steps_at (R : DynInst → DynInst → Prop) (p : DynInstPtr) (s s' : store) :=
  (∃ i i', s !! p = Some i ∧ s' !! p = Some i' ∧ R i i') ∧
  ∀ q, q ≠ p → kept_opt (s !! q) (s' !! q).

Lemma steps_at_insert (R : DynInst → DynInst → Prop) p s i i' :
  s !! p = Some i → R i i' → steps_at R p s (<[p := i']> s).
Proof.
  intros Hp HR. split.
  - exists i, i'. by rewrite lookup_insert_eq.
  - intros q Hq. rewrite lookup_insert_ne by done. reflexivity.
Qed.

(** Changing any instruction by a kept update after the visit. *)
Lemma steps_at_kept (R : DynInst → DynInst → Prop) p s s' v j j' :
  (∀ i k k', R i k → kept k k' → R i k') →
  steps_at R p s s' → s' !! v = Some j → kept j j' →
  steps_at R p s (<[v := j']> s').
Proof.
  intros HR ((i & i' & Hi & Hi' & Hii) & Ho) Hv Hk. split.
  - exists i. destruct (decide (v = p)) as [->|].
    + exists j'. rewrite lookup_insert_eq. split_and!; eauto.
      eapply HR; [done|]. congruence.
    + exists i'. rewrite lookup_insert_ne by done. eauto.
  - intros q Hq. destruct (decide (v = q)) as [->|].
    + rewrite lookup_insert_eq. specialize (Ho q Hq). rewrite Hv in Ho.
      destruct (s !! q); [|done]. cbn in *. by etransitivity.
    + rewrite lookup_insert_ne by done. auto.
Qed.

Lemma liftRestrictions_spec cfg a p s s' :
  liftRestrictions cfg a p s = Ok s' → steps_at (lifted a) p s s'.
Proof.
  unfold liftRestrictions. intros H. inv_ok1 H. cbn beta iota in H.
  rename a0 into i. apply deref_Ok in E.
  destruct (isDolmaRestricted i) eqn:Er; cbn [negb] in H.
  2:{ inv_ok H. split; [|reflexivity]. exists i, i. split_and!; auto.
      unfold isDolmaRestricted, isControlRestricted, isDataRestricted in Er.
      constructor; [reflexivity..| |];
        unfold isControlRestricted, isDataRestricted;
        destruct (isSquashed i), (st i ControlRestricted), (st i DataRestricted);
        done. }
  pose proof (clearResolved_lifted a i) as Hl. set (j := clearResolved a i) in *.
  clearbody j. destruct (isDolmaRestricted j).
  { inv_ok H. by apply steps_at_insert with i. }
  inv_ok1 H. rename a0 into k. rename E0 into Ek.
  assert (lifted a i k) as Hk.
  { destruct (_ && _ && _); [|by inv_ok Ek].
    eapply lifted_kept; eauto using setPendingMetadata_kept. }
  destruct (isDolmaStalled k).
  { inv_ok H. apply steps_at_insert with i; [done|].
    eapply lifted_kept; eauto using clearDolmaStalled_kept. }
  assert (steps_at (lifted a) p s (<[p:=k]> s)) as Hs by by apply steps_at_insert with i.
  destruct (isStore k && negb (isSTT cfg)); [|by inv_ok H].
  destruct (getViolator k) as [v|]; [|by inv_ok H].
  inv_ok1 H. apply deref_Ok in E0. destruct (isSquashed a0); [by inv_ok H|].
  apply modifyM_Ok in H as (vi & vi' & Hv & Hset & ->).
  eapply steps_at_kept; eauto using lifted_kept, setPendingMemOrderStore_kept.
Qed.

(** What a whole visit makes of the visited instruction. *)
Record settled (a : SafeScan) (i i' : DynInst) : Prop := {
  set_visited : visited i i';
  set_control : isControlRestricted i'
    = isControlRestricted i && foundUnresolvedBranch a;
  set_data : isDataRestricted i'
    = isDataRestricted i && bool_decide (ydi i ∈ ydis a);
}.

Lemma settled_kept a i j k : settled a i j → kept j k → settled a i k.
Proof.
  intros [] Hk. pose proof (kept_preds _ _ Hk) as (? & ? & ? & ? & ?).
  pose proof (kept_visited _ _ Hk). constructor; [by etransitivity|congruence..].
Qed.

Lemma resolveInducer_spec cfg a p s a' s' :
  resolveInducer cfg a p s = Ok (a', s') →
  ∃ i i', s !! p = Some i ∧ s' = <[p := i']> s ∧
    (i' = i ∨ i' = clearDataInducer i) ∧
    foundUnresolvedBranch a' = foundUnresolvedBranch a ∧
    ∀ x, x ∈ ydis a' ↔ x ∈ ydis a ∨ (x = seqNum i ∧ isDataInducer i' = true).
Proof.
  unfold resolveInducer. intros H. inv_ok1 H. apply deref_Ok in E.
  rename a0 into i. destruct (isDataInducer i) eqn:Ei; cbn [negb] in H.
  2:{ inv_ok H. exists i, i. rewrite insert_id by done. split_and!; auto.
      rewrite Ei. naive_solver. }
  destruct (_ || _ || _); inv_ok H; exists i.
  - exists i. rewrite insert_id by done. split_and!; auto. cbn. set_solver.
  - exists (clearDataInducer i). split_and!; auto.
    assert (isDataInducer (clearDataInducer i) = false) as ->
      by (dyn_simpl; by rewrite !andb_false_r).
    naive_solver.
Qed.

Lemma set_violatorSeqNum_kept v i : kept i (set_violatorSeqNum v i).
Proof. constructor; reflexivity. Qed.

Lemma noteInst_spec cfg l a p s a' s' :
  noteInst cfg l a p s = Ok (a', s') →
  ∃ i i', s !! p = Some i ∧ s' = <[p := i']> s ∧ kept i i' ∧
    foundUnresolvedBranch a' = foundUnresolvedBranch a || isControlInducer i ∧
    ydis a' = ydis a.
Proof.
  unfold noteInst. intros H. inv_ok1 H. apply deref_Ok in E. rename a0 into i.
  set (b := if isControlInducer i then _ else a) in H.
  assert (foundUnresolvedBranch b = foundUnresolvedBranch a || isControlInducer i ∧
          ydis b = ydis a) as [Hb Hy].
  { subst b. destruct (isControlInducer i); cbn;
      rewrite ?orb_true_r, ?orb_false_r; auto. }
  clearbody b. exists i.
  assert (∃ i', s' = <[p:=i']> s ∧ kept i i' ∧
    foundUnresolvedBranch a' = foundUnresolvedBranch b ∧ ydis a' = ydis b)
    as (i' & ? & ? & ? & ?).
  2:{ exists i'. split_and!; congruence. }
  assert (s = <[p:=i]> s) as Hid by by rewrite insert_id.
  destruct (_ && _ && _ && _); [|inv_ok H; by exists i].
  destruct (negb _); [inv_ok H; by exists i|].
  destruct (_ && _); [|inv_ok H; by exists i].
  inv_ok1 H. destruct a0 as [v|].
  - inv_ok1 H. destruct (isSquashed a0); inv_ok H; [|by exists i].
    eauto using set_violatorSeqNum_kept.
  - inv_ok H. eauto using set_violatorSeqNum_kept.
Qed.

Lemma safeStep_spec cfg l a p s a' s' :
  safeStep cfg l (a, s) p = Ok (a', s') →
  steps_at (settled a) p s s' ∧
  ∃ i i', s !! p = Some i ∧ s' !! p = Some i' ∧
    foundUnresolvedBranch a' = foundUnresolvedBranch a || isControlInducer i ∧
    ∀ x, x ∈ ydis a' ↔ x ∈ ydis a ∨ (x = seqNum i ∧ isDataInducer i' = true).
Proof.
  unfold safeStep. cbn [fst snd]. intros H. inv_ok1 H.
  apply liftRestrictions_spec in E as ((i & i1 & Hi & Hi1 & Hl) & Ho).
  destruct (resolveInducer _ _ _ _) as [[b s2]|] eqn:Er; [|discriminate].
  apply resolveInducer_spec in Er as (? & i2 & Hi1' & -> & Hi2 & Hfb & Hy).
  assert (x = i1) as -> by congruence.
  apply noteInst_spec in H as (? & i3 & Hi2' & -> & Hk & Hfb' & Hy').
  rewrite lookup_insert_eq in Hi2'. injection Hi2' as <-.
  assert (visited i1 i2 ∧ isControlRestricted i2 = isControlRestricted i1 ∧
          isDataRestricted i2 = isDataRestricted i1) as (Hv & Hc & Hd).
  { destruct Hi2 as [->| ->]; [split; [reflexivity|done]|].
    split; [by apply status_reset_visited|].
    dyn_simpl. by rewrite !andb_true_r. }
  pose proof (kept_preds _ _ Hk) as (? & ? & ? & ? & ?).
  destruct Hl as [Hlv Hldi Hlc Hld]. split.
  - split.
    + exists i, i3. rewrite lookup_insert_eq. split_and!; auto.
      constructor; [|congruence..]. do 2 (etransitivity; [eassumption|]).
      by apply kept_visited.
    + intros q Hq. rewrite !lookup_insert_ne by done. auto.
  - exists i, i3. rewrite lookup_insert_eq. split_and!; auto.
    + rewrite Hfb', Hfb. rewrite (vis_inducer _ _ Hv), (vis_inducer _ _ Hlv). done.
    + intros x. rewrite Hy', Hy, (vis_seqNum _ _ Hlv). naive_solver congruence.
Qed.

(** ** The whole scan *)

(** The state of the loop after the prefix [done] of the thread's list:
    [s0] is the store at the start, [s] the current one. *)
Record scanned (s0 : store) (dn : list DynInstPtr) (a : SafeScan) (s : store)
  : Prop := {
  sc_branch : foundUnresolvedBranch a = existsb (view isControlInducer s0) dn;
  sc_ydis : ∀ x, x ∈ ydis a ↔ x ∈ dn ∧ view isDataInducer s x = true;
  sc_done : ∀ k p, dn !! k = Some p →
    ∃ i i', s0 !! p = Some i ∧ s !! p = Some i' ∧ visited i i' ∧
      isControlRestricted i' = isControlRestricted i
        && existsb (view isControlInducer s0) (take k dn) ∧
      isDataRestricted i' = isDataRestricted i
        && bool_decide (ydi i ∈ take k dn ∧ view isDataInducer s (ydi i) = true);
  sc_todo : ∀ p, p ∉ dn → kept_opt (s0 !! p) (s !! p);
}.

Lemma view_kept_opt f s s' p :
  (∀ i i', kept i i' → f i' = f i) →
  kept_opt (s !! p) (s' !! p) → view f s' p = view f s p.
Proof.
  intros Hf Hk. unfold view. destruct (s !! p), (s' !! p); cbn in Hk; try done. auto.
Qed.

Lemma view_inducer_kept s s' p :
  kept_opt (s !! p) (s' !! p) → view isDataInducer s' p = view isDataInducer s p.
Proof.
  apply view_kept_opt. intros i i' Hk. by apply kept_preds in Hk as (? & ? & ? & ? & ?).
Qed.

Lemma scanned_step cfg l s0 dn a s p a' s' :
  wf_store s0 → p ∉ dn → scanned s0 dn a s →
  safeStep cfg l (a, s) p = Ok (a', s') → scanned s0 (dn ++ [p]) a' s'.
Proof.
  intros Hwf Hp [Hbr Hy Hdn Htd] Hstep.
  apply safeStep_spec in Hstep as (((i & i' & Hi & Hi' & Hset) & Ho) &
    (? & ? & Hi2 & Hi2' & Hfb & Hy')).
  rewrite Hi in Hi2. rewrite Hi' in Hi2'. injection Hi2 as <-. injection Hi2' as <-.
  pose proof (Htd p Hp) as Hkp. rewrite Hi in Hkp.
  destruct (s0 !! p) as [i0|] eqn:Hi0; [|done]. cbn in Hkp.
  pose proof (kept_preds _ _ Hkp) as (_ & Hkci & _ & Hkcr & Hkdr).
  assert (seqNum i = p) as Hsn by (rewrite (kept_seqNum _ _ Hkp); by apply Hwf).
  assert (∀ x, x ≠ p → view isDataInducer s' x = view isDataInducer s x) as Hdi
    by (intros; by apply view_inducer_kept, Ho).
  assert (view isDataInducer s' p = isDataInducer i') as Hdip
    by (unfold view; by rewrite Hi').
  split.
  - rewrite Hfb, Hbr, existsb_app. cbn. rewrite orb_false_r. unfold view at 3.
    by rewrite Hi0, Hkci.
  - intros x. rewrite Hy', Hy, elem_of_app, list_elem_of_singleton, Hsn.
    destruct (decide (x = p)) as [->|Hx]; [|rewrite Hdi by done; naive_solver].
    rewrite Hdip. naive_solver.
  - intros k q Hq. apply lookup_app_Some in Hq as [Hq|[Hk Hq]].
    + destruct (Hdn k q Hq) as (j & j' & Hj & Hj' & Hv & Hc & Hd).
      assert (q ≠ p) as Hqp by (intros ->; apply Hp; eapply list_elem_of_lookup_2; eauto).
      specialize (Ho q Hqp). rewrite Hj' in Ho.
      destruct (s' !! q) as [j''|] eqn:Hj''; [|done]. cbn in Ho.
      pose proof (kept_preds _ _ Ho) as (_ & _ & _ & Hcr & Hdr).
      exists j, j''. rewrite take_app_le by (apply lookup_lt_Some in Hq; lia).
      split_and!; auto.
      * etransitivity; [done|by apply kept_visited].
      * congruence.
      * rewrite Hdr, Hd. f_equal. apply bool_decide_ext.
        split; intros [Hin Hx]; split; auto; [rewrite Hdi|rewrite <-Hdi]; auto;
          intros Heq; rewrite Heq in Hin;
          by apply Hp, (subseteq_take k).
    + apply list_lookup_singleton_Some in Hq as [Hk' <-].
      assert (k = length dn) as -> by lia.
      rewrite take_app_length. exists i0, i'. destruct Hset as [Hsv Hsc Hsd].
      split_and!; auto.
      * etransitivity; [by apply kept_visited|done].
      * by rewrite Hsc, Hkcr, Hbr.
      * rewrite Hsd, Hkdr, (kept_ydi _ _ Hkp). f_equal. apply bool_decide_ext.
        rewrite Hy. destruct (decide (ydi i0 = p)) as [->|Hx]; [naive_solver|].
        by rewrite Hdi.
  - intros q Hq. rewrite elem_of_app, list_elem_of_singleton in Hq.
    etransitivity; [apply Htd|apply Ho]; naive_solver.
Qed.

Lemma scanned_fold cfg l s0 todo : ∀ dn a s a' s',
  wf_store s0 → NoDup (dn ++ todo) → scanned s0 dn a s →
  foldM (safeStep cfg l) todo (a, s) = Ok (a', s') →
  scanned s0 (dn ++ todo) a' s'.
Proof.
  induction todo as [|p todo IH]; intros dn a s a' s' Hwf Hnd Hsc H; cbn in H.
  { inv_ok H. by rewrite app_nil_r. }
  destruct (safeStep cfg l (a, s) p) as [[a1 s1]|] eqn:E; [|discriminate].
  rewrite cons_middle, app_assoc. eapply IH; eauto.
  - by rewrite <-app_assoc.
  - eapply scanned_step; eauto. apply NoDup_app in Hnd as (_ & Hd & _).
    intros Hin. apply (Hd p Hin). left.
Qed.

Lemma updateSafeStatus_scanned cfg tid r s s' :
  wf_store s → NoDup (instList r tid) →
  updateSafeStatus cfg tid r s = Ok s' →
  ∃ a, scanned s (instList r tid) a s'.
Proof.
  intros Hwf Hnd H. unfold updateSafeStatus in H.
  destruct (foldM _ _ _) as [[a s1]|] eqn:E; [|discriminate]. inv_ok H.
  exists a. apply (scanned_fold cfg (instList r tid) s _ [] scan0 s); auto.
  split; cbn; auto; [set_solver| |reflexivity]. intros k p Hk.
  by rewrite lookup_nil in Hk.
Qed.

(** ** Absence of assertion failures *)

(** The store keeps its pointers and the violators they name. *)
Definition same_links (s s' : store) : Prop :=
  ∀ p, match s !! p, s' !! p with
       | Some i, Some i' => violator i' = violator i
       | None, None => True
       | _, _ => False
       end.

#[export] Instance same_links_preorder : PreOrder same_links.
Proof.
  split; [intros s p; by destruct (s !! p)|].
  intros s1 s2 s3 H1 H2 p. specialize (H1 p). specialize (H2 p).
  destruct (s1 !! p), (s2 !! p), (s3 !! p); try done. congruence.
Qed.

Lemma same_links_insert s p i i' :
  s !! p = Some i → violator i' = violator i → same_links s (<[p := i']> s).
Proof.
  intros Hi Hv q. destruct (decide (p = q)) as [->|].
  - by rewrite lookup_insert_eq, Hi.
  - rewrite lookup_insert_ne by done. by destruct (s !! q).
Qed.

Lemma steps_at_same_links (R : DynInst → DynInst → Prop) p s s' :
  (∀ i i', R i i' → violator i' = violator i) → steps_at R p s s' →
  same_links s s'.
Proof.
  intros HR ((i & i' & Hi & Hi' & Hii) & Ho) q.
  destruct (decide (q = p)) as [->|Hq]; [rewrite Hi, Hi'; auto|].
  specialize (Ho q Hq). destruct (s !! q), (s' !! q); cbn in *; try done.
  by apply kept_violator.
Qed.

Lemma same_links_some s s' p : same_links s s' → is_Some (s !! p) → is_Some (s' !! p).
Proof. intros H [i Hi]. specialize (H p). rewrite Hi in H. by destruct (s' !! p). Qed.

Lemma same_links_closed s s' : same_links s s' → closed_store s → closed_store s'.
Proof.
  intros H Hc p i' Hi'. pose proof (H p) as Hp. rewrite Hi' in Hp.
  destruct (s !! p) as [i|] eqn:Hi; [|done]. specialize (Hc p i Hi). cbn in Hc.
  rewrite Hp. destruct (violator i); [|done].
  rewrite bool_decide_eq_true in *. by eapply same_links_some.
Qed.

Section total.
Context (cfg : DolmaConfig).
Hypothesis dolma_on : isDolma cfg = true.

Lemma liftRestrictions_total a p s :
  is_Some (s !! p) → closed_store s → ∃ s', liftRestrictions cfg a p s = Ok s'.
Proof.
  intros [i Hi] Hc. unfold liftRestrictions, deref. rewrite Hi.
  destruct (negb (isDolmaRestricted i)); [eauto|].
  pose proof (clearResolved_lifted a i) as [Hv _ _ _].
  set (j := clearResolved a i) in *. clearbody j.
  destruct (isDolmaRestricted j); [eauto|].
  assert (∃ k, (if negb (isSTT cfg) && negb (isDolmaStalled j)
                   && bool_decide (is_Some (dolmaVirtualReq j))
                then setPendingMetadata cfg j else Ok j) = Ok k ∧
               violator k = violator i) as (k & -> & Hk).
  { unfold setPendingMetadata. rewrite dolma_on.
    destruct (isSTT cfg); cbn; [eauto using vis_violator|].
    destruct (_ && _); eexists; (split; [reflexivity|]); cbn; by apply vis_violator. }
  cbn. destruct (isDolmaStalled k); [eauto|].
  destruct (isStore k && negb (isSTT cfg)); [|eauto].
  unfold getViolator. rewrite Hk. specialize (Hc p i Hi). cbn in Hc.
  destruct (violator i) as [v|]; [|eauto]. rewrite bool_decide_eq_true in Hc.
  assert (is_Some (<[p:=k]> s !! v)) as [vi Hvi]
    by (rewrite lookup_insert; case_decide; eauto).
  unfold modifyM, deref. rewrite Hvi. destruct (isSquashed vi) eqn:Es; [eauto|].
  unfold setPendingMemOrderStore. rewrite dolma_on, Es. eauto.
Qed.

Lemma resolveInducer_total a p s :
  is_Some (s !! p) → ∃ o, resolveInducer cfg a p s = Ok o.
Proof.
  intros [i Hi]. unfold resolveInducer, deref. rewrite Hi.
  destruct (negb _); [eauto|]. destruct (_ || _ || _); eauto.
Qed.

Lemma findInstIn_total l sn s :
  in_store s l → ∃ o, findInstIn l sn s = Ok o ∧ ∀ q, o = Some q → q ∈ l.
Proof.
  induction 1 as [|q l [i Hi] Hl (o & Ho & Hin)]; cbn;
    [exists None; by split|].
  unfold deref. rewrite Hi. destruct (seqNum i =? sn).
  - eexists. split; [done|]. intros ? [= ->]. left.
  - exists o. split; [done|]. intros. right. auto.
Qed.

Lemma noteInst_total l a p s :
  is_Some (s !! p) → in_store s l → ∃ o, noteInst cfg l a p s = Ok o.
Proof.
  intros [i Hi] Hl. unfold noteInst, deref. rewrite Hi.
  destruct (_ && _ && _ && _); [|eauto]. destruct (negb _); [eauto|].
  destruct (_ && _); [|eauto].
  destruct (findInstIn_total l (violatorSeqNum i) s Hl) as ([v|] & -> & Hin); [|eauto].
  specialize (Hin v eq_refl). eapply Forall_forall in Hl as [vi ->]; [|done].
  destruct (isSquashed vi); eauto.
Qed.

Lemma safeStep_total l a p s :
  is_Some (s !! p) → in_store s l → closed_store s →
  ∃ a' s', safeStep cfg l (a, s) p = Ok (a', s') ∧ same_links s s'.
Proof.
  intros Hp Hl Hc. unfold safeStep. cbn [fst snd].
  destruct (liftRestrictions_total a p s Hp Hc) as [s1 E1]. rewrite E1.
  apply liftRestrictions_spec, steps_at_same_links in E1;
    [|intros ? ? []; by apply vis_violator].
  destruct (resolveInducer_total a p s1) as [[a2 s2] E2];
    [by eapply same_links_some|]. rewrite E2.
  apply resolveInducer_spec in E2 as (i1 & i2 & Hi1 & -> & Hi2 & _ & _).
  assert (same_links s1 (<[p:=i2]> s1)) as L2
    by (eapply same_links_insert; [done|by destruct Hi2 as [->| ->]]).
  destruct (noteInst_total l a2 p (<[p:=i2]> s1)) as [[a3 s3] E3].
  - rewrite lookup_insert_eq. eauto.
  - eapply Forall_impl; [exact Hl|]. intros q Hq.
    eapply same_links_some, same_links_some; eauto.
  - exists a3, s3. split; [done|].
    apply noteInst_spec in E3 as (j & j' & Hj & -> & Hk & _ & _).
    etransitivity; [done|]. etransitivity; [done|].
    eapply same_links_insert; [done|by apply kept_violator].
Qed.

Lemma foldM_safeStep_total l todo : ∀ a s,
  in_store s l → in_store s todo → closed_store s →
  ∃ a' s', foldM (safeStep cfg l) todo (a, s) = Ok (a', s') ∧ same_links s s'.
Proof.
  induction todo as [|p todo IH]; intros a s Hl Ht Hc; cbn.
  { exists a, s. split; [done|reflexivity]. }
  inversion_clear Ht as [|? ? Hp Htd].
  destruct (safeStep_total l a p s Hp Hl Hc) as (a1 & s1 & E & L). rewrite E.
  destruct (IH a1 s1) as (a2 & s2 & E2 & L2).
  1-2: eapply Forall_impl; [eassumption|]; intros; by eapply same_links_some.
  { by eapply same_links_closed. }
  exists a2, s2. split; [done|by etransitivity].
Qed.

Lemma updateSafeStatus_Ok tid r s :
  in_store s (instList r tid) → closed_store s →
  ∃ s', updateSafeStatus cfg tid r s = Ok s' ∧ same_links s s'.
Proof.
  intros Hl Hc. unfold updateSafeStatus.
  destruct (foldM_safeStep_total (instList r tid) (instList r tid) scan0 s Hl Hl Hc)
    as (a & s' & -> & L). eauto.
Qed.
End total.

(** ** A small reorder buffer to evaluate on

    Sequence number 1 is an unresolved conditional branch, 2 a load in its
    shadow, 3 an addition that consumed the load's value. *)
Module RobExample.
Definition flagset (fs : list StaticFlag) : bitset := fold_right (λ f s, bs_set s f) 0%N fs.
Definition bits (bs : list Status) : bitset := fold_right (λ b s, bs_set s b) 0%N bs.
Definition inst (sn : Z) (fs : list StaticFlag) (name : string) (bs : list Status)
  : DynInst :=
  set_status (bits bs)
    (initInst (mkStaticInst (flagset fs) 0 0 0 name) (0x400000 + 4 * sn) sn 0).

Definition branch : DynInst :=
  inst 1 [IsControl; IsDirectControl; IsCondControl] "JNZ_I" [RobEntry; ControlInducer].
Definition load : DynInst :=
  inst 2 [IsMemRef; IsLoad] "LD" [RobEntry; ControlRestricted; DataInducer].
Definition add : DynInst :=
  set_ydi 2 (inst 3 [IsInteger] "ADD" [RobEntry; ControlRestricted; DataRestricted]).

Definition insts : store := {[ 1 := branch; 2 := load; 3 := add ]}.
Definition resolved : store := <[1 := clearControlInducer branch]> insts.

Definition mode1 : DolmaConfig := mkDolmaConfig true false false false.
Definition mode2 : DolmaConfig := mkDolmaConfig true true false false.

Definition rob : ROB :=
  mkROB Dynamic 8 2 1 (λ _, 8) (λ _, 3) (λ t, if (t =? 0)%nat then [1; 2; 3] else [])
    (Some 1) (Some 3) (λ _, None) 3 (λ _, 0) (λ _, true) (λ _, Running) [0%nat] [].

Definition after (cfg : DolmaConfig) (s : store) : store :=
  match updateSafeStatus cfg 0 rob s with Ok s' => s' | Err _ => ∅ end.
End RobExample.

(** Nothing precedes the head, so nothing restricts it. *)
Lemma head_unrestricted cfg tid r s s' p rest :
  wf_store s → NoDup (instList r tid) →
  updateSafeStatus cfg tid r s = Ok s' → instList r tid = p :: rest →
  view isDolmaRestricted s' p = false.
Proof.
  intros Hwf Hnd H Hl.
  apply updateSafeStatus_scanned in H as [a Hsc]; auto. rewrite Hl in Hsc.
  destruct (sc_done _ _ _ _ Hsc 0%nat p eq_refl) as (i & i' & Hi & Hi' & _ & Hc & Hd).
  unfold view. rewrite Hi'. unfold isDolmaRestricted. rewrite Hc, Hd. cbn.
  rewrite bool_decide_false by (intros [Hin _]; by apply not_elem_of_nil in Hin).
  by rewrite !andb_false_r.
Qed.

(** ** Theorems *)

(** C1: [ROB::updateSafeStatus] keeps an instruction control restricted exactly
    when it was and some older instruction of its thread is an unresolved
    control inducer. *)
Theorem control_restriction_exact cfg tid r s s' k p :
  wf_store s → NoDup (instList r tid) →
  updateSafeStatus cfg tid r s = Ok s' →
  instList r tid !! k = Some p →
  view isControlRestricted s' p
  = view isControlRestricted s p
    && existsb (view isControlInducer s) (take k (instList r tid)).
Proof.
  intros Hwf Hnd H Hk.
  apply updateSafeStatus_scanned in H as [a Hsc]; auto.
  destruct (sc_done _ _ _ _ Hsc k p Hk) as (i & i' & Hi & Hi' & _ & Hc & _).
  unfold view at 1 2. by rewrite Hi, Hi'.
Qed.

Lemma control_restriction_exact_witness :
  view isControlRestricted (RobExample.after RobExample.mode1 RobExample.insts) 3 = true ∧
  view isControlRestricted (RobExample.after RobExample.mode1 RobExample.resolved) 3 = false.
Proof.
  split.
  - rewrite (control_restriction_exact RobExample.mode1 0 RobExample.rob
      RobExample.insts _ 2 3); by_eval.
  - rewrite (control_restriction_exact RobExample.mode1 0 RobExample.rob
      RobExample.resolved _ 2 3); by_eval.
Defined.

(** C2: [ROB::updateSafeStatus] keeps an instruction data restricted exactly
    when it was and its youngest data inducer is an older instruction of its
    thread that the scan leaves unresolved. *)
Theorem data_restriction_exact cfg tid r s s' k p :
  wf_store s → NoDup (instList r tid) →
  updateSafeStatus cfg tid r s = Ok s' →
  instList r tid !! k = Some p →
  view isDataRestricted s' p
  = view isDataRestricted s p
    && bool_decide (ydi_at s p ∈ take k (instList r tid) ∧
                    view isDataInducer s' (ydi_at s p) = true).
Proof.
  intros Hwf Hnd H Hk.
  apply updateSafeStatus_scanned in H as [a Hsc]; auto.
  destruct (sc_done _ _ _ _ Hsc k p Hk) as (i & i' & Hi & Hi' & _ & _ & Hd).
  unfold view at 1 2. unfold ydi_at. by rewrite Hi, Hi'.
Qed.

Lemma data_restriction_exact_witness :
  view isDataRestricted (RobExample.after RobExample.mode2 RobExample.resolved) 3 = true ∧
  view isDataRestricted (RobExample.after RobExample.mode1 RobExample.resolved) 3 = false.
Proof.
  split.
  - rewrite (data_restriction_exact RobExample.mode2 0 RobExample.rob
      RobExample.resolved _ 2 3); by_eval.
  - rewrite (data_restriction_exact RobExample.mode1 0 RobExample.rob
      RobExample.resolved _ 2 3); by_eval.
Defined.

(** C3: with DOLMA enabled [ROB::updateSafeStatus] runs to completion: no
    assertion fails and no pointer is null, whatever the flags of the
    instructions, and it keeps every instruction in place. *)
Theorem updateSafeStatus_total cfg tid r s :
  isDolma cfg = true → in_store s (instList r tid) → closed_store s →
  ∃ s', updateSafeStatus cfg tid r s = Ok s' ∧ dom s' = dom s.
Proof.
  intros Hd Hl Hc. destruct (updateSafeStatus_Ok cfg Hd tid r s Hl Hc) as (s' & Hs & L).
  exists s'. split; [done|]. apply set_eq. intros p. rewrite !elem_of_dom.
  specialize (L p). destruct (s !! p), (s' !! p); naive_solver.
Qed.

Lemma updateSafeStatus_total_witness :
  ∃ s', updateSafeStatus RobExample.mode1 0 RobExample.rob RobExample.insts = Ok s' ∧
        dom s' = dom RobExample.insts.
Proof. apply updateSafeStatus_total; by_eval. Defined.

(** after [ROB::updateSafeStatus] the oldest instruction of the thread is
    unrestricted, in every mode: the head of the buffer can always proceed. *)
Theorem head_becomes_safe cfg tid r s s' p rest :
  wf_store s → NoDup (instList r tid) →
  updateSafeStatus cfg tid r s = Ok s' → instList r tid = p :: rest →
  view isDolmaRestricted s' p = false.
Proof. apply head_unrestricted. Qed.

(** The same buffer after the branch has retired. *)
Definition ex_rob_tail : ROB :=
  set_instList (λ t, if (t =? 0)%nat then [2; 3] else []) RobExample.rob.

Lemma head_becomes_safe_witness :
  ∃ s', updateSafeStatus RobExample.mode2 0 ex_rob_tail RobExample.insts = Ok s' ∧
        view isDolmaRestricted s' 2 = false.
Proof.
  eexists. split; [by_eval|].
  apply (head_becomes_safe RobExample.mode2 0 ex_rob_tail RobExample.insts _ 2 [3]); by_eval.
Defined.
