(* ===== verification/Speculation.v ===== *)
(** * The speculation shadow

    DOLMA's control rule as an invariant of every interleaving of the
    operations on a reorder buffer: behind an unresolved control inducer every
    instruction is control restricted or squashed.  The operations are those
    of [Rob.v]; anything else the pipeline does to an instruction is a [calm]
    update, and the updates of [DynInst.v] are shown to be calm. *)

From S2P Require Import Prelude Regs Config DynInst Metadata Rob RobSafe.

Local Open Scope Z_scope.

(** A stalled instruction is restricted. *)
Definition stall_ok (i : DynInst) : Prop :=
  isDolmaStalled i = true → isDolmaRestricted i = true.

(** ** Calm updates *)

(** An update that neither opens a window, nor lifts a restriction, nor
    revives a squashed instruction, nor stalls an unrestricted one. *)
Record calm (i i' : DynInst) : Prop := {
  calm_seqNum : seqNum i' = seqNum i;
  calm_thread : threadNumber i' = threadNumber i;
  calm_squashed : isSquashed i = true → isSquashed i' = true;
  calm_inducer : isControlInducer i' = true → isControlInducer i = true;
  calm_restricted : isControlRestricted i = true →
    isControlRestricted i' = true ∨ isSquashed i' = true;
  calm_stall : stall_ok i → stall_ok i';
}.

#[export] Instance calm_preorder : PreOrder calm.
Proof.
  split; [constructor; auto|]. intros i j k [] []; constructor; auto.
  1-2: congruence.
  intros H. destruct (calm_restricted0 H); auto.
Qed.

(** Updates that leave the six bits of the invariant alone are calm. *)
Definition shadow_bit (b : Status) : bool :=
  match b with
  | Squashed | ControlInducer | ControlRestricted | DataRestricted
  | DolmaStalled => true
  | _ => false
  end.

Lemma calm_same_bits i i' :
  seqNum i' = seqNum i → threadNumber i' = threadNumber i →
  (∀ b, shadow_bit b = true → st i' b = st i b) → calm i i'.
Proof.
  intros Hs Ht Hb. assert (isSquashed i' = isSquashed i) as Hsq by by apply Hb.
  constructor; auto; unfold stall_ok, isDolmaRestricted, isDolmaStalled,
    isControlInducer, isControlRestricted, isDataRestricted in *;
    rewrite Hsq, ?(Hb ControlInducer), ?(Hb ControlRestricted), ?(Hb DataRestricted),
      ?(Hb DolmaStalled) by reflexivity; auto.
Qed.

Lemma same_core_calm i i' : same_core i i' → calm i i'.
Proof. intros []. apply calm_same_bits; [done..|]. intros b _. unfold st. congruence. Qed.

Lemma calm_status_set b i : shadow_bit b = false → calm i (status_set b i).
Proof.
  intros Hb. apply calm_same_bits; [done..|]. intros b' Hb'.
  destruct b; try discriminate Hb; destruct b'; try discriminate Hb'; dyn_simpl; done.
Qed.

Lemma calm_status_reset b i :
  shadow_bit b = false ∨ b = ControlInducer ∨ b = DolmaStalled →
  calm i (status_reset b i).
Proof.
  intros [Hb|[->| ->]].
  - apply calm_same_bits; [done..|]. intros b' Hb'. destruct b; try discriminate Hb;
      destruct b'; try discriminate Hb'; dyn_simpl; by rewrite andb_true_r.
  - constructor; unfold stall_ok; try done; dyn_simpl;
      rewrite ?andb_true_r, ?andb_false_r; auto; done.
  - constructor; unfold stall_ok; try done; dyn_simpl;
      rewrite ?andb_true_r, ?andb_false_r; auto; done.
Qed.

Lemma calm_setSquashed i : calm i (setSquashed i).
Proof.
  unfold setSquashed. etransitivity; [|apply same_core_calm, dropDolmaReqs_frame].
  constructor; unfold stall_ok; try done; dyn_simpl; auto; done.
Qed.

Lemma calm_setDataRestricted cfg i i' : setDataRestricted cfg i = Ok i' → calm i i'.
Proof.
  unfold setDataRestricted. intros H. inv_ok H.
  constructor; unfold stall_ok; try done; dyn_simpl; auto.
  destruct (bs_test (status i) Squashed); cbn; rewrite ?orb_true_r; auto.
Qed.

Lemma calm_setDolmaStalled cfg i i' : setDolmaStalled cfg i = Ok i' → calm i i'.
Proof.
  unfold setDolmaStalled. intros H. inv_ok H. rename E2 into Hr.
  etransitivity; [|apply same_core_calm, dropDolmaReqs_frame].
  constructor; unfold stall_ok; try done; dyn_simpl;
    rewrite ?andb_true_r; auto.
Qed.

Create HintDb calm.
#[export] Hint Resolve calm_status_set calm_status_reset calm_setSquashed
  same_core_calm : calm.

(** ** The invariant *)

(** Every instruction of [s] is still in [s'], changed calmly. *)
Definition calm_store (s s' : store) : Prop :=
  ∀ p i, s !! p = Some i → ∃ i', s' !! p = Some i' ∧ calm i i'.

#[export] Instance calm_store_preorder : PreOrder calm_store.
Proof.
  split; [intros s p i Hi; exists i; split; [done|reflexivity]|].
  intros s1 s2 s3 H1 H2 p i Hi. destruct (H1 p i Hi) as (j & Hj & ?).
  destruct (H2 p j Hj) as (k & Hk & ?). exists k. split; [done|by etransitivity].
Qed.

Lemma calm_store_insert s p i i' :
  s !! p = Some i → calm i i' → calm_store s (<[p := i']> s).
Proof.
  intros Hi Hc q j Hj. destruct (decide (p = q)) as [->|].
  - exists i'. rewrite lookup_insert_eq. split; [done|congruence].
  - exists j. rewrite lookup_insert_ne by done. split; [done|reflexivity].
Qed.

Lemma calm_store_modifyM f p s s' :
  (∀ i i', f i = Ok i' → calm i i') → modifyM f p s = Ok s' → calm_store s s'.
Proof.
  intros Hf H. apply modifyM_Ok in H as (i & i' & Hi & Hfi & ->).
  by eapply calm_store_insert; eauto.
Qed.

Lemma calm_store_modify f p s s' :
  (∀ i, calm i (f i)) → modify f p s = Ok s' → calm_store s s'.
Proof.
  intros Hf H. eapply calm_store_modifyM; [|exact H]. by intros ? ? [= <-].
Qed.

(** In the shadow of every unresolved control inducer of [l]: restricted or
    squashed. *)
Definition shadow (l : list DynInstPtr) (s : store) : Prop :=
  ∀ j q, l !! j = Some q →
  existsb (view isControlInducer s) (take j l) = true →
  view isControlRestricted s q || view isSquashed s q = true.

(** The instructions of thread [t], oldest first. *)
Definition thread_list (t : ThreadID) (l : list DynInstPtr) (s : store) : Prop :=
  StronglySorted Z.lt l ∧
  Forall (λ p, ∃ i, s !! p = Some i ∧ threadNumber i = t) l.

(** [m]: does the mode restrict instructions behind branches? *)
Record shadow_inv (m : bool) (r : ROB) (s : store) : Prop := {
  inv_wf : wf_store s;
  inv_list : ∀ t, thread_list t (instList r t) s;
  inv_shadow : m = true → ∀ t, shadow (instList r t) s;
  inv_stall : map_Forall (λ _, stall_ok) s;
}.

Lemma existsb_impl {A} (f g : A → bool) (l : list A) :
  (∀ x, x ∈ l → f x = true → g x = true) → existsb f l = true → existsb g l = true.
Proof.
  intros H Hf. apply existsb_exists in Hf as (x & Hx & Hfx).
  apply existsb_exists. exists x. split; [done|]. apply H; [|done].
  by apply list_elem_of_In.
Qed.

Lemma calm_views s s' p : calm_store s s' → is_Some (s !! p) →
  (view isControlInducer s' p = true → view isControlInducer s p = true) ∧
  (view isControlRestricted s p || view isSquashed s p = true →
   view isControlRestricted s' p || view isSquashed s' p = true).
Proof.
  intros Hc [i Hi]. destruct (Hc p i Hi) as (i' & Hi' & []). unfold view.
  rewrite Hi, Hi'. split; [done|]. rewrite !orb_true_iff. naive_solver.
Qed.

Lemma shadow_calm l s s' :
  in_store s l → calm_store s s' → shadow l s → shadow l s'.
Proof.
  intros Hin Hc Hs j q Hj Hex.
  pose proof (proj1 (Forall_forall _ _) Hin) as Hl.
  eapply calm_views; [done|apply Hl; by eapply list_elem_of_lookup_2|].
  apply (Hs j q Hj). eapply existsb_impl; [|exact Hex]. intros x Hx.
  eapply calm_views; [done|]. apply Hl. by eapply subseteq_take.
Qed.

Lemma thread_list_in t l s : thread_list t l s → in_store s l.
Proof. intros [_ H]. eapply Forall_impl; [exact H|]. intros p (i & ? & ?). eauto. Qed.

Lemma thread_list_calm s s' t l :
  calm_store s s' → thread_list t l s → thread_list t l s'.
Proof.
  intros Hc [Hs Hl]. split; [done|]. eapply Forall_impl; [exact Hl|].
  intros p (i & Hi & Ht). destruct (Hc p i Hi) as (i' & ? & []).
  exists i'. split; [done|congruence].
Qed.

Lemma thread_list_suffix s t l l' :
  suffix l' l → thread_list t l s → thread_list t l' s.
Proof.
  intros [k ->] [Hs Hl]. apply StronglySorted_app in Hs as (_ & _ & ?).
  apply Forall_app in Hl as [_ ?]. by split.
Qed.

(** What holds of the whole store after a calm change, with no new pointer. *)
Lemma store_calm (P : DynInstPtr → DynInst → Prop) s s' :
  dom s' ⊆ dom s → calm_store s s' → (∀ p i i', calm i i' → P p i → P p i') →
  map_Forall P s → map_Forall P s'.
Proof.
  intros Hd Hc HP H p i' Hi'.
  assert (p ∈ dom s) as [i Hi]%elem_of_dom by (apply Hd, elem_of_dom; eauto).
  destruct (Hc p i Hi) as (j & Hj & Hij).
  assert (j = i') as -> by congruence. eauto.
Qed.

Lemma shadow_suffix l l' s : suffix l' l → shadow l s → shadow l' s.
Proof.
  intros [k ->] Hsh j q Hj Hex. apply (Hsh (length k + j)%nat).
  - rewrite lookup_app_r by lia. by replace (length k + j - length k)%nat with j by lia.
  - rewrite take_app_add, existsb_app, Hex. by rewrite orb_true_r.
Qed.

Lemma shadow_inv_calm m r r' s s' :
  dom s' ⊆ dom s → calm_store s s' → (∀ t, suffix (instList r' t) (instList r t)) →
  shadow_inv m r s → shadow_inv m r' s'.
Proof.
  intros Hd Hc Hl [Hwf Hls Hsh Hst]. split.
  - eapply store_calm; eauto. intros p i i' [] Hp. cbn in *. congruence.
  - intros t. eapply thread_list_suffix; [apply Hl|]. eapply thread_list_calm; [done|apply Hls].
  - intros Hm t. eapply shadow_suffix; [apply Hl|].
    apply (shadow_calm _ s); eauto using thread_list_in.
  - eapply store_calm; eauto. intros _ i i' []; auto.
Qed.

(** ** Each operation of the reorder buffer keeps the invariant *)

Lemma stall_ok_unrestricted i : isDolmaStalled i = false → stall_ok i.
Proof. unfold stall_ok. congruence. Qed.
Lemma stall_ok_restricted i : isDolmaRestricted i = true → stall_ok i.
Proof. by unfold stall_ok. Qed.
#[export] Hint Resolve stall_ok_unrestricted stall_ok_restricted : calm.

Lemma stall_ok_same_bits i i' :
  (∀ b, shadow_bit b = true → st i' b = st i b) → stall_ok i → stall_ok i'.
Proof.
  intros Hb. unfold stall_ok, isDolmaRestricted, isDolmaStalled, isControlRestricted,
    isDataRestricted, isSquashed. by rewrite !Hb.
Qed.

Lemma stall_ok_setPendingMetadata cfg i i' :
  setPendingMetadata cfg i = Ok i' → stall_ok i → stall_ok i'.
Proof.
  unfold setPendingMetadata. intros H. inv_ok H. apply stall_ok_same_bits.
  intros b Hb. destruct b; try discriminate Hb; dyn_simpl; done.
Qed.

Lemma stall_ok_setPendingMemOrderStore cfg x i i' :
  setPendingMemOrderStore cfg x i = Ok i' → stall_ok i → stall_ok i'.
Proof.
  unfold setPendingMemOrderStore. intros H. inv_ok H. apply stall_ok_same_bits.
  intros b Hb. destruct (_ || _); destruct b; try discriminate Hb;
    dyn_simpl; by rewrite ?andb_true_r.
Qed.

Lemma liftRestrictions_stall cfg a p s s' :
  liftRestrictions cfg a p s = Ok s' →
  map_Forall (λ _, stall_ok) s → map_Forall (λ _, stall_ok) s'.
Proof.
  unfold liftRestrictions. intros H Hs. inv_ok1 H. apply deref_Ok in E.
  destruct (negb _); [by inv_ok H|]. set (j := clearResolved a a0) in *. clearbody j.
  destruct (isDolmaRestricted j) eqn:Ej.
  { inv_ok H. apply map_Forall_insert_2; auto with calm. }
  inv_ok1 H. rename a1 into k. cbn beta iota in H.
  destruct (isDolmaStalled k) eqn:Ek.
  { inv_ok H. apply map_Forall_insert_2; [|done]. apply stall_ok_unrestricted.
    dyn_simpl. by rewrite !andb_false_r. }
  assert (map_Forall (λ _, stall_ok) (<[p:=k]> s)) as Hk
    by (apply map_Forall_insert_2; auto with calm).
  destruct (isStore k && _); [|by inv_ok H]. destruct (getViolator k); [|by inv_ok H].
  inv_ok1 H. destruct (isSquashed a1); [by inv_ok H|].
  apply modifyM_Ok in H as (i & i' & Hi & Hset & ->).
  apply map_Forall_insert_2; [|done].
  eapply stall_ok_setPendingMemOrderStore; [done|]. by apply (Hk _ _ Hi).
Qed.

Lemma safeStep_stall cfg l a p s a' s' :
  safeStep cfg l (a, s) p = Ok (a', s') →
  map_Forall (λ _, stall_ok) s → map_Forall (λ _, stall_ok) s'.
Proof.
  unfold safeStep. cbn [fst snd]. intros H Hs. inv_ok1 H. rename a0 into s1.
  eapply liftRestrictions_stall in Hs; [|done].
  destruct (resolveInducer _ _ _ _) as [[b s2]|] eqn:Er; [|discriminate].
  apply resolveInducer_spec in Er as (? & i2 & Hi1 & -> & Hi2 & _ & _).
  assert (map_Forall (λ _, stall_ok) (<[p:=i2]> s1)) as Hs2.
  { apply map_Forall_insert_2; [|done].
    destruct Hi2 as [->| ->]; [by apply (Hs _ _ Hi1)|].
    apply (calm_stall _ _ (calm_status_reset DataInducer x (or_introl eq_refl))).
    by apply (Hs _ _ Hi1). }
  unfold noteInst in H. inv_ok1 H. apply deref_Ok in E0.
  assert (stall_ok (set_violatorSeqNum 0 a0)) as Hv by apply (Hs2 _ _ E0).
  destruct (_ && _ && _ && _); [|by inv_ok H]. destruct (negb _); [by inv_ok H|].
  destruct (_ && _); [|by inv_ok H]. inv_ok1 H.
  destruct a1; [inv_ok1 H; destruct (isSquashed a1)|]; inv_ok H;
    try done; by apply map_Forall_insert_2.
Qed.

Lemma updateSafeStatus_stall cfg tid r s s' :
  updateSafeStatus cfg tid r s = Ok s' →
  map_Forall (λ _, stall_ok) s → map_Forall (λ _, stall_ok) s'.
Proof.
  unfold updateSafeStatus. intros H. inv_ok1 H. destruct a as [a s1]. inv_ok H.
  revert E. generalize (instList r tid) at 1 as l, scan0 as b, s as s0.
  induction (instList r tid) as [|p l' IH]; intros l b s0 H; cbn in H; [by inv_ok H|].
  destruct (safeStep _ _ _ _) as [[b1 s1]|] eqn:E1; [|discriminate].
  intros. eapply IH; [done|]. by eapply safeStep_stall.
Qed.

(** What [updateSafeStatus] keeps everywhere. *)
Lemma updateSafeStatus_visited cfg tid r s s' p :
  wf_store s → NoDup (instList r tid) → updateSafeStatus cfg tid r s = Ok s' →
  match s !! p, s' !! p with
  | Some i, Some i' => visited i i'
  | None, None => True
  | _, _ => False
  end.
Proof.
  intros Hwf Hnd H. apply updateSafeStatus_scanned in H as [a [_ _ Hd Ht]]; auto.
  destruct (decide (p ∈ instList r tid)) as [Hin|Hout].
  - apply list_elem_of_lookup in Hin as [k Hk].
    destruct (Hd k p Hk) as (i & i' & -> & -> & ? & _). done.
  - specialize (Ht p Hout). destruct (s !! p), (s' !! p); cbn in *; try done.
    by apply kept_visited.
Qed.

Lemma updateSafeStatus_view cfg tid r s s' p f :
  (∀ i i', visited i i' → f i' = f i) → wf_store s → NoDup (instList r tid) →
  updateSafeStatus cfg tid r s = Ok s' → view f s' p = view f s p.
Proof.
  intros Hf Hwf Hnd H. eapply (updateSafeStatus_visited _ _ _ _ _ p) in H; auto.
  unfold view. destruct (s !! p), (s' !! p); try done. auto.
Qed.

Lemma updateSafeStatus_inv m cfg tid r s s' :
  updateSafeStatus cfg tid r s = Ok s' → shadow_inv m r s → shadow_inv m r s'.
Proof.
  intros H [Hwf Hls Hsh Hst].
  assert (∀ t, NoDup (instList r t)) as Hnd by (intros t; apply sorted_lt_NoDup, Hls).
  pose proof (λ p, updateSafeStatus_visited _ _ _ _ _ p Hwf (Hnd tid) H) as Hvis.
  split.
  - intros p i' Hi'. specialize (Hvis p). rewrite Hi' in Hvis.
    destruct (s !! p) eqn:Hi; [|done]. rewrite (vis_seqNum _ _ Hvis). by apply Hwf.
  - intros t. destruct (Hls t) as [Hs Hl]. split; [done|].
    eapply Forall_impl; [exact Hl|]. intros p (i & Hi & Ht).
    specialize (Hvis p). rewrite Hi in Hvis. destruct (s' !! p) as [i'|]; [|done].
    exists i'. split; [done|]. by rewrite (vis_thread _ _ Hvis).
  - intros Hm t j q Hj Hex. specialize (Hsh Hm).
    assert (existsb (view isControlInducer s) (take j (instList r t)) = true) as Hex'.
    { eapply existsb_impl; [|exact Hex]. intros x _. cbn.
      erewrite updateSafeStatus_view; eauto using vis_inducer. }
    pose proof (Hsh t j q Hj Hex') as Hq.
    rewrite (updateSafeStatus_view _ _ _ _ _ q isSquashed vis_squashed Hwf (Hnd tid) H).
    destruct (decide (t = tid)) as [->|Ht].
    + apply updateSafeStatus_scanned in H as [a [_ _ Hd _]]; auto.
      destruct (Hd j q Hj) as (i & i' & Hi & Hi' & _ & Hc & _).
      revert Hq. unfold view. by rewrite Hi, Hi', Hc, Hex', andb_true_r.
    + assert (q ∉ instList r tid) as Hout.
      { intros Hin. destruct (Hls t) as [_ Hlt]. destruct (Hls tid) as [_ Hl].
        eapply Forall_lookup_1 in Hlt as (i & Hi & Hit); [|done].
        eapply Forall_forall in Hl as (? & ? & ?); [|done]. naive_solver. }
      apply updateSafeStatus_scanned in H as [a [_ _ _ Htd]]; auto.
      erewrite (view_kept_opt isControlRestricted s s' q); [done| |by apply Htd].
      intros i i' Hk. by apply kept_preds in Hk as (? & ? & ? & ? & ?).
  - by eapply updateSafeStatus_stall.
Qed.

(** What insertion does to the inserted instruction. *)
Record entered (i i' : DynInst) : Prop := {
  ent_seqNum : seqNum i' = seqNum i;
  ent_thread : threadNumber i' = threadNumber i;
  ent_squashed : isSquashed i' = isSquashed i;
  ent_restricted : isControlRestricted i = true → isControlRestricted i' = true;
  ent_stall : stall_ok i → stall_ok i';
}.

#[export] Instance entered_preorder : PreOrder entered.
Proof. split; [constructor; auto|]. intros i j k [] []; constructor; auto; congruence. Qed.

Lemma entered_status_set b i :
  match b with RobEntry | ControlInducer | ControlRestricted => True | _ => False end →
  entered i (status_set b i).
Proof.
  intros Hb. destruct b; try done; constructor; unfold stall_ok; try done; dyn_simpl; auto;
    destruct (bs_test (status i) Squashed); cbn; auto.
Qed.

Lemma anyControlInducer_spec l s b :
  anyControlInducer l s = Ok b → b = existsb (view isControlInducer s) l.
Proof.
  revert b. induction l as [|q l IH]; intros b H; cbn in *; [by inv_ok H|].
  inv_ok1 H. apply deref_Ok in E. unfold view at 1. rewrite E.
  destruct (isControlInducer a); [by inv_ok H|]. by apply IH.
Qed.

Lemma markControl_spec cfg l p s s' i :
  s !! p = Some i → markControl cfg l p s = Ok s' →
  ∃ i', s' = <[p := i']> s ∧ entered i i' ∧
    (isDolmaMemOnly cfg = false → existsb (view isControlInducer s) l = true →
     isControlRestricted i' = true).
Proof.
  unfold markControl. intros Hi H. inv_ok1 H. rename a into s1.
  assert (∃ j, s1 = <[p := j]> s ∧ entered i j ∧
    (isDolmaMemOnly cfg = false → existsb (view isControlInducer s) l = true →
     isControlRestricted j = true)) as (j & -> & Hj & Hr).
  { destruct (isDolmaMemOnly cfg); cbn in E.
    { inv_ok E. exists i. split_and!; [by rewrite insert_id|reflexivity|done]. }
    inv_ok1 E. apply anyControlInducer_spec in E0 as ->.
    destruct (existsb _ _).
    - apply modifyM_Ok in E as (? & j & ? & Hset & ->). exists j.
      unfold setControlRestricted in Hset. inv_ok Hset. assert (x = i) as -> by congruence.
      split_and!; [done|by apply entered_status_set|]. intros _ _.
      revert select (negb (isSquashed i) = true). dyn_simpl. by intros ->.
    - inv_ok E. exists i. split_and!; [by rewrite insert_id|reflexivity|done]. }
  inv_ok1 H. apply deref_Ok in E0. rewrite lookup_insert_eq in E0. injection E0 as <-.
  destruct (_ && _); [|inv_ok H; eauto].
  apply modifyM_Ok in H as (k & k' & Hk & Hset & ->). rewrite lookup_insert_eq in Hk.
  injection Hk as <-. unfold setControlInducer in Hset. inv_ok Hset.
  exists (status_set ControlInducer j). rewrite insert_insert_eq.
  assert (entered j (status_set ControlInducer j)) as He by by apply entered_status_set.
  split_and!; [done|by etransitivity|]. intros. apply He. auto.
Qed.

Lemma insertInst_spec cfg p r s r' s' i :
  insertInst cfg p r s = Ok (r', s') → s !! p = Some i → p ∉ instList r (threadNumber i) →
  isDolma cfg = true →
  instList r' = <[threadNumber i := instList r (threadNumber i) ++ [p]]> (instList r) ∧
  ∃ i', s' = <[p := i']> s ∧ entered i i' ∧
    (isDolmaMemOnly cfg = false → isSquashed i = false →
     existsb (view isControlInducer s) (instList r (threadNumber i)) = true →
     isControlRestricted i' = true).
Proof.
  unfold insertInst. intros H Hi Hp Hd. unfold deref in H. rewrite Hi in H. inv_ok1 H.
  cbn beta iota in H. inv_ok1 H. rename a into r1.
  assert (instList r1 = <[threadNumber i := instList r (threadNumber i) ++ [p]]> (instList r))
    as Hl1 by (destruct (_ =? 0); inv_ok E0; done).
  inv_ok1 H. rename a into s1. apply modifyM_Ok in E1 as (? & i1 & Hi1 & [= <-] & ->).
  assert (x = i) as -> by congruence. inv_ok1 H. rename a into s2. inv_ok H.
  split; [done|]. rewrite Hd in E1. cbn [andb] in E1.
  assert (entered i (setInROB i)) as He by by apply entered_status_set.
  destruct (isSquashed i); cbn in E1.
  { inv_ok E1. exists (setInROB i). split_and!; try done. }
  eapply markControl_spec in E1 as (i' & -> & Hi' & Hr); [|apply lookup_insert_eq].
  exists i'. rewrite insert_insert_eq. split_and!; [done|by etransitivity|].
  intros Hm _ Hex. apply Hr; [done|]. rewrite existsb_app. apply orb_true_iff. left.
  eapply existsb_impl; [|exact Hex]. intros q Hq. unfold view.
  rewrite lookup_insert_ne; [done|]. by intros ->.
Qed.

(** The modes that restrict instructions behind branches. *)
Definition restrictsBranches (cfg : DolmaConfig) : bool := negb (isDolmaMemOnly cfg).

(** Inserting the youngest instruction of a thread. *)
Lemma insertInst_inv cfg p r s r' s' i :
  isDolma cfg = true →
  insertInst cfg p r s = Ok (r', s') → s !! p = Some i →
  Forall (λ q, q < p) (instList r (threadNumber i)) →
  shadow_inv (restrictsBranches cfg) r s → shadow_inv (restrictsBranches cfg) r' s'.
Proof.
  intros Hd H Hi Hlt [Hwf Hls Hsh Hst].
  assert (∀ t, p ∉ instList r t) as Hp.
  { intros t Hin. destruct (Hls t) as [_ Hl].
    pose proof (proj1 (Forall_forall _ _) Hl p Hin) as (j & Hj & Ht).
    assert (threadNumber i = t) as Hit by congruence. rewrite Hit in Hlt.
    pose proof (proj1 (Forall_forall _ _) Hlt p Hin). cbn in *. lia. }
  eapply insertInst_spec in H as (Hl & i' & -> & He & Hr); eauto.
  set (tid := threadNumber i) in *.
  assert (∀ t l, (p ∈ l → t = tid) → thread_list t l s → thread_list t l (<[p:=i']> s))
    as Htl.
  { intros t l Hpl [Hs Hf]. split; [done|]. rewrite Forall_forall in *. intros q Hq.
    destruct (decide (q = p)) as [->|Hne].
    - exists i'. rewrite lookup_insert_eq. split; [done|].
      by rewrite (ent_thread _ _ He), Hpl.
    - rewrite lookup_insert_ne by done. auto. }
  assert (∀ f q, q ≠ p → view f (<[p:=i']> s) q = view f s q) as Hv
    by (intros; unfold view; by rewrite lookup_insert_ne).
  assert (restrictsBranches cfg = true → ∀ t j q, instList r t !! j = Some q →
    existsb (view isControlInducer (<[p:=i']> s)) (take j (instList r t)) = true →
    view isControlRestricted (<[p:=i']> s) q || view isSquashed (<[p:=i']> s) q = true)
    as Hold.
  { intros Hm t j q Hj Hex. specialize (Hsh Hm). assert (q ≠ p) by (intros ->; apply (Hp t); by eapply list_elem_of_lookup_2).
    rewrite !Hv by done. apply (Hsh t j q Hj). eapply existsb_impl; [|exact Hex].
    intros x Hx. rewrite Hv; [done|]. intros ->. by apply (Hp t), (subseteq_take j). }
  split.
  - apply map_Forall_insert_2; [|done]. rewrite (ent_seqNum _ _ He). by apply Hwf.
  - intros t. rewrite Hl. destruct (decide (t = tid)) as [->|Ht].
    + rewrite fn_lookup_insert. destruct (Hls tid) as [Hs Hf]. apply Htl; [done|].
      split; [|apply Forall_app; split; [done|]; repeat constructor; eauto].
      apply StronglySorted_app. split_and!; [|done|by repeat constructor].
      intros x y Hx ->%list_elem_of_singleton. eapply Forall_forall in Hlt; eauto.
    + rewrite fn_lookup_insert_ne by done. apply Htl; [|done]. intros Hin. by destruct (Hp t).
  - intros Hm t. specialize (Hold Hm). apply negb_true_iff in Hm.
    rewrite Hl. destruct (decide (t = tid)) as [->|Ht].
    2:{ rewrite fn_lookup_insert_ne by done. intros j q. apply Hold. }
    rewrite fn_lookup_insert. intros j q Hj Hex.
    apply lookup_app_Some in Hj as [Hj|[Hj Hq]].
    + rewrite take_app_le in Hex by (apply lookup_lt_Some in Hj; lia). by eapply Hold.
    + apply list_lookup_singleton_Some in Hq as [Hj0 <-].
      replace j with (length (instList r tid)) in Hex by lia.
      rewrite take_app_length in Hex. unfold view. rewrite lookup_insert_eq.
      destruct (isSquashed i) eqn:Esq; [by rewrite (ent_squashed _ _ He), Esq, orb_true_r|].
      rewrite Hr; auto. eapply existsb_impl; [|exact Hex].
      intros x Hx. rewrite Hv; [done|]. intros ->. by destruct (Hp tid).
  - apply map_Forall_insert_2; [|done]. by apply He, (Hst _ _ Hi).
Qed.

(** Squashing is calm, and leaves the lists alone. *)
Lemma squashLoop_calm n l sn it s upd o :
  squashLoop n l sn it s upd = Ok o →
  let s' := match o with inl s' => s' | inr (_, s', _) => s' end in
  calm_store s s' ∧ dom s' = dom s.
Proof.
  revert it s upd o. induction n as [|n IH]; intros it s upd o H; cbn in H.
  { inv_ok H. split; [reflexivity|done]. }
  inv_ok1 H. apply deref_Ok in E. destruct (sn <? seqNum a).
  2:{ inv_ok H. split; [reflexivity|done]. }
  inv_ok1 H. unfold setCanCommit in E0. inv_ok E0.
  set (i' := status_set _ _) in *.
  assert (calm_store s (<[it:=i']> s)) as Hc.
  { eapply calm_store_insert; [done|]. subst i'.
    etransitivity; [apply calm_setSquashed|by apply calm_status_set]. }
  assert (dom (<[it:=i']> s) = dom s) as Hd
    by (rewrite dom_insert_lookup_L; eauto).
  destruct (bool_decide _); [by inv_ok H|].
  destruct (prev_in it l); [|discriminate]. apply IH in H as [Hc' Hd'].
  split; [by etransitivity|congruence].
Qed.

Lemma updateTail_instList r s r' : updateTail r s = Ok r' → instList r' = instList r.
Proof. unfold updateTail. intros H. by inv_ok H. Qed.
Lemma updateHead_instList r s r' : updateHead r s = Ok r' → instList r' = instList r.
Proof. unfold updateHead. intros H. by inv_ok H. Qed.

Lemma doSquash_calm tid r s r' s' :
  doSquash tid r s = Ok (r', s') →
  calm_store s s' ∧ dom s' = dom s ∧ instList r' = instList r.
Proof.
  unfold doSquash. intros H. destruct (squashIt r tid); [|discriminate].
  inv_ok1 H. destruct (_ <? _).
  { inv_ok H. split_and!; [reflexivity|done..]. }
  inv_ok1 H. apply squashLoop_calm in E0 as [Hc Hd]. destruct a0 as [s1|[[it s1] upd]].
  - inv_ok H. done.
  - inv_ok1 H. inv_ok1 H. inv_ok H. split_and!; [done..|].
    transitivity (instList (if seqNum a0 <=? squashedSeqNum r tid
                  then finishSquash tid (set_squashIt (<[tid:=Some it]> (squashIt r)) r)
                  else set_squashIt (<[tid:=Some it]> (squashIt r)) r));
      [|by destruct (_ <=? _)].
    destruct upd; [by eapply updateTail_instList|by inv_ok E1].
Qed.

Lemma squash_calm sn tid r s r' s' :
  squash sn tid r s = Ok (r', s') →
  calm_store s s' ∧ dom s' = dom s ∧ instList r' = instList r.
Proof.
  unfold squash. intros H. destruct (isEmptyThread tid r); [by inv_ok H|].
  cbn in H. destruct (last _); [by apply doSquash_calm in H|by inv_ok H].
Qed.

Lemma shadow_inv_calm_same m r r' s s' :
  calm_store s s' → dom s' = dom s → instList r' = instList r →
  shadow_inv m r s → shadow_inv m r' s'.
Proof. intros Hc Hd Hl. apply shadow_inv_calm; [by rewrite Hd|done|by rewrite Hl]. Qed.

Lemma calm_clearInROB i i' : clearInROB i = Ok i' → calm i i'.
Proof. unfold clearInROB. intros H. inv_ok H. auto with calm. Qed.

Lemma modifyM_dom f p s s' : modifyM f p s = Ok s' → dom s' = dom s.
Proof.
  intros H. apply modifyM_Ok in H as (i & i' & Hi & _ & ->).
  rewrite dom_insert_lookup_L; eauto.
Qed.

Section retire.
Context {M : Type} `{MemSystem M} (cfg : DolmaConfig).

(** The replay of metadata updates and the release of a conservative load. *)
Lemma retire_metadata_inv b r s (m : M) p i s' m' :
  s !! p = Some i →
  (if isPendingMetadata i then
     let! (i', m') := updateMetadataIfNeeded i m in Ok (<[p := i']> s, m')
   else Ok (s, m)) = Ok (s', m') →
  shadow_inv b r s → shadow_inv b r s'.
Proof.
  intros Hi Hu. destruct (isPendingMetadata i); [|by inv_ok Hu].
  destruct (updateMetadataIfNeeded i m) as [[i' m1]|] eqn:E; [|discriminate].
  inv_ok Hu. apply updateMetadataIfNeeded_core in E.
  apply shadow_inv_calm_same; [|rewrite dom_insert_lookup_L; eauto|done].
  by eapply calm_store_insert; [|apply same_core_calm].
Qed.

Lemma retireHead_inv b tid r s (m : M) r' s' m' :
  retireHead cfg tid r s m = Ok (r', s', m') → shadow_inv b r s → shadow_inv b r' s'.
Proof.
  unfold retireHead. intros Hr Hinv. inv_ok1 Hr.
  destruct (instList r tid) as [|p rest] eqn:El; [discriminate|].
  inv_ok1 Hr. apply deref_Ok in E0. inv_ok1 Hr.
  destruct (if isPendingMetadata a then _ else _) as [[s1 m1]|] eqn:E2; [|discriminate].
  eapply retire_metadata_inv in Hinv; eauto.
  inv_ok1 Hr. rename a0 into i1. apply deref_Ok in E3. inv_ok1 Hr. rename a0 into s2.
  assert (shadow_inv b r s2) as Hinv2.
  { destruct (isDataInducer i1); [|by inv_ok E4]. inv_ok1 E4.
    eapply updateSafeStatus_inv; [exact E4|].
    apply (shadow_inv_calm_same b r r s1); [|rewrite dom_insert_lookup_L; eauto|done|done].
    eapply calm_store_insert; [done|]. apply calm_status_reset. by left. }
  inv_ok1 Hr. rename a0 into s3. inv_ok1 Hr. rename a0 into s4. inv_ok1 Hr. inv_ok Hr.
  apply updateHead_instList in E7. cbn in E7. revert Hinv2. apply shadow_inv_calm.
  - apply modifyM_dom in E5. apply modifyM_dom in E6. by rewrite E6, E5.
  - etransitivity; [eapply calm_store_modifyM, E5; apply calm_clearInROB|].
    eapply calm_store_modify, E6. intros. by apply calm_status_set.
  - intros t. cbn. rewrite E7. destruct (decide (t = tid)) as [->|Ht].
    + rewrite fn_lookup_insert, El. by exists [p].
    + by rewrite fn_lookup_insert_ne.
Qed.
End retire.

(** ** The machine *)

(** What the other stages do to an instruction: the instruction queue issues,
    stalls and taints it, the LSQ unit and IEW execute it, record a delayed
    squash or resolve the branch, commit clears the delayed squash. *)
Inductive pipeline_op (cfg : DolmaConfig) (i : DynInst) : DynInst → Prop :=
  | op_issue : pipeline_op cfg i (setIssued i)
  | op_unissue : pipeline_op cfg i (clearIssued i)
  | op_execute : pipeline_op cfg i (setExecuted i)
  | op_canIssue : pipeline_op cfg i (setCanIssue i)
  | op_complete : pipeline_op cfg i (setCompleted i)
  | op_inIQ : pipeline_op cfg i (setInIQ i)
  | op_outIQ : pipeline_op cfg i (clearInIQ i)
  | op_totalHit : pipeline_op cfg i (setTotalStoreBufferHit i)
  | op_partialHit : pipeline_op cfg i (setPartialStoreBufferHit i)
  | op_canCommit i' : setCanCommit i = Ok i' → pipeline_op cfg i i'
  | op_squash : pipeline_op cfg i (setSquashed i)
  | op_squashInIQ : pipeline_op cfg i (setSquashedInIQ i)
  | op_stall i' : setDolmaStalled cfg i = Ok i' → pipeline_op cfg i i'
  | op_taint y i' :
      setDataRestricted cfg i = Ok i' → pipeline_op cfg i (set_ydi y i')
  | op_dataInducer i' : setDataInducer cfg i = Ok i' → pipeline_op cfg i i'
  | op_resolveBranch : pipeline_op cfg i (clearControlInducer i)
  | op_pendingBranch t i' : setPendingBranch cfg t i = Ok i' → pipeline_op cfg i i'
  | op_donePendingBranch : pipeline_op cfg i (clearPendingBranch i)
  | op_pendingMemOrder i' : setPendingMemOrder cfg i = Ok i' → pipeline_op cfg i i'
  | op_pendingMemOrderStore x i' :
      setPendingMemOrderStore cfg x i = Ok i' → pipeline_op cfg i i'
  | op_donePendingMemOrder : pipeline_op cfg i (clearPendingMemOrder i)
  | op_violator v i' : setViolator cfg v i = Ok i' → pipeline_op cfg i i'
  | op_effAddr : pipeline_op cfg i (flag_assign EffAddrValid true i).

Lemma calm_setSquashedInIQ i : calm i (setSquashedInIQ i).
Proof. constructor; unfold stall_ok; try done; dyn_simpl; auto; done. Qed.

(** Closes [calm] goals of updates that write bits outside the invariant. *)
Ltac calm_bits :=
  apply calm_same_bits; [reflexivity..|];
  let b := fresh in let Hb := fresh in
  intros b Hb; destruct b; try discriminate Hb; dyn_simpl;
  rewrite ?andb_true_r; reflexivity.

Lemma pipeline_op_calm cfg i i' : pipeline_op cfg i i' → calm i i'.
Proof.
  destruct 1 as [| | | | | | | | |i' H| | |i' H|y i' H|i' H| |t i' H| |i' H|x i' H| |v i' H|];
    try (by apply calm_status_set); try (by apply calm_status_reset; auto).
  - unfold setCanCommit in H. inv_ok H. auto with calm.
  - apply calm_setSquashed.
  - apply calm_setSquashedInIQ.
  - by eapply calm_setDolmaStalled.
  - etransitivity; [by eapply calm_setDataRestricted|]. calm_bits.
  - unfold setDataInducer in H. inv_ok H. auto with calm.
  - unfold setPendingBranch in H. inv_ok H. calm_bits.
  - calm_bits.
  - unfold setPendingMemOrder in H. inv_ok H. calm_bits.
  - unfold setPendingMemOrderStore in H. inv_ok H. destruct (_ || _); calm_bits.
  - calm_bits.
  - unfold setViolator in H. inv_ok H. calm_bits.
  - calm_bits.
Qed.

Section machine.
Context {M : Type} `{MemSystem M} (cfg : DolmaConfig).

Record Machine := mkMachine { rob : ROB; insts : store; mem : M }.

(** One action of the core. *)
Inductive step : Machine → Machine → Prop :=
  | step_fetch r s m si pc0 sn tid :
      s !! sn = None → (tid < numThreads r)%nat →
      step (mkMachine r s m)
           (mkMachine r (<[sn := initInst si pc0 sn tid]> s) m)
  | step_dispatch r s m p i r' s' :
      s !! p = Some i →
      (** instructions reach the buffer in program order *)
      Forall (λ q, q < p) (instList r (threadNumber i)) →
      insertInst cfg p r s = Ok (r', s') →
      step (mkMachine r s m) (mkMachine r' s' m)
  | step_pipeline r s m p i i' :
      s !! p = Some i → pipeline_op cfg i i' →
      step (mkMachine r s m) (mkMachine r (<[p := i']> s) m)
  | step_safe r s m tid s' :
      updateSafeStatus cfg tid r s = Ok s' →
      step (mkMachine r s m) (mkMachine r s' m)
  | step_squash r s m sn tid r' s' :
      squash sn tid r s = Ok (r', s') →
      step (mkMachine r s m) (mkMachine r' s' m)
  | step_doSquash r s m tid r' s' :
      doSquash tid r s = Ok (r', s') →
      step (mkMachine r s m) (mkMachine r' s' m)
  | step_retire r s m tid r' s' m' :
      retireHead cfg tid r s m = Ok (r', s', m') →
      step (mkMachine r s m) (mkMachine r' s' m').

(** An empty buffer and no instruction in flight. *)
Definition initial (x : Machine) : Prop :=
  ∃ policy entries width threads threshold active,
    0 <= entries ∧
    newROB policy entries width threads threshold active = Ok (rob x) ∧ insts x = ∅.

Definition reachable (x : Machine) : Prop := ∃ x0, initial x0 ∧ rtc step x0 x.

Lemma initial_inv m x : initial x → shadow_inv m (rob x) (insts x).
Proof.
  intros (po & en & wi & th & ts & ac & _ & Hr & ->).
  assert (∀ t, instList (rob x) t = []) as Hl.
  { intros t. unfold newROB in Hr. repeat case_match; inversion Hr; done. }
  split.
  - apply map_Forall_empty.
  - intros t. rewrite Hl. split; constructor.
  - intros _ t j q. by rewrite Hl, lookup_nil.
  - apply map_Forall_empty.
Qed.

Lemma fetch_inv m r s si pc0 sn tid :
  s !! sn = None → shadow_inv m r s → shadow_inv m r (<[sn := initInst si pc0 sn tid]> s).
Proof.
  intros Hn [Hwf Hls Hsh Hst].
  assert (calm_store s (<[sn := initInst si pc0 sn tid]> s)) as Hc.
  { intros p i Hi. exists i. rewrite lookup_insert_ne by congruence. split; [done|reflexivity]. }
  split.
  - by apply map_Forall_insert_2.
  - intros t. eapply thread_list_calm; [done|apply Hls].
  - intros Hm t. apply (shadow_calm _ s); eauto using thread_list_in.
  - apply map_Forall_insert_2; [|done]. by intros [=].
Qed.

Hypothesis dolma_on : isDolma cfg = true.

Lemma step_inv x x' :
  step x x' → shadow_inv (restrictsBranches cfg) (rob x) (insts x) →
  shadow_inv (restrictsBranches cfg) (rob x') (insts x').
Proof.
  destruct 1 as [| |? ? ? p i i' Hi Hop| |? ? ? ? ? ? ? Hq|? ? ? ? ? ? Hq|]; cbn.
  - by apply fetch_inv.
  - by eapply insertInst_inv.
  - apply shadow_inv_calm_same; [|rewrite dom_insert_lookup_L; eauto|done].
    eapply calm_store_insert; [done|by eapply pipeline_op_calm].
  - by apply updateSafeStatus_inv with cfg tid.
  - apply squash_calm in Hq as (? & ? & ?). by apply shadow_inv_calm_same.
  - apply doSquash_calm in Hq as (? & ? & ?). by apply shadow_inv_calm_same.
  - by eapply retireHead_inv.
Qed.

Lemma reachable_inv x : reachable x → shadow_inv (restrictsBranches cfg) (rob x) (insts x).
Proof.
  intros (x0 & H0 & Hr). apply (initial_inv (restrictsBranches cfg)) in H0.
  induction Hr as [|x y z Hs _ IH]; [done|]. by apply IH, (step_inv x y).
Qed.
End machine.
Arguments Machine M : clear implicits.

(** ** A concrete run *)

(** A memory system that refuses every metadata update. *)
Module SpecExample.
#[global] Instance unit_mem : MemSystem unit := {|
  dtb_updateLRU _ _ _ m := m;
  dcache_sendTimingReq r m := (false, r, m);
|}.

Definition branch_si : StaticInst :=
  mkStaticInst (RobExample.flagset [IsControl; IsDirectControl; IsCondControl]) 0 0 0 "JNZ_I".
Definition load_si : StaticInst :=
  mkStaticInst (RobExample.flagset [IsMemRef; IsLoad]) 0 0 0 "LD".

Definition rob0 : ROB :=
  match newROB "dynamic" 8 2 1 0 [0%nat] with Ok r => r | Err _ => RobExample.rob end.
Definition fetched : store :=
  <[2 := initInst load_si 0x400004 2 0]> (<[1 := initInst branch_si 0x400000 1 0]> ∅).
Definition ins (p : DynInstPtr) (rs : ROB * store) : ROB * store :=
  match insertInst RobExample.mode1 p rs.1 rs.2 with Ok x => x | Err _ => rs end.
Definition dispatched : ROB * store := ins 2 (ins 1 (rob0, fetched)).
Definition machine : Machine unit := mkMachine dispatched.1 dispatched.2 tt.

Lemma machine_reachable : reachable RobExample.mode1 machine.
Proof.
  exists (mkMachine rob0 ∅ tt). split.
  { exists "dynamic"%string, 8, 2%nat, 1%nat, 0, [0%nat]. split_and!; [lia|reflexivity..]. }
  eapply rtc_l; [apply (step_fetch RobExample.mode1 rob0 ∅ tt branch_si 0x400000 1 0); [reflexivity|cbn; lia]|].
  eapply rtc_l; [apply (step_fetch RobExample.mode1 rob0 _ tt load_si 0x400004 2 0); [reflexivity|cbn; lia]|].
  eapply rtc_l; [eapply (step_dispatch RobExample.mode1 rob0 fetched tt 1);
    [reflexivity|constructor|vm_compute; reflexivity]|].
  eapply rtc_l; [eapply (step_dispatch RobExample.mode1 _ _ tt 2);
    [reflexivity|repeat constructor|vm_compute; reflexivity]|].
  apply rtc_refl.
Qed.
End SpecExample.

(** ** Theorems *)

(** C4: in every reachable state of the core, in every DOLMA mode that
    restricts behind branches, an instruction that is younger than an
    unresolved control inducer of its thread and not squashed is restricted. *)
Theorem shadow_restricted {M} `{MemSystem M} cfg (x : Machine M) t k j b q :
  isDolma cfg = true → isDolmaMemOnly cfg = false → reachable cfg x →
  instList (rob x) t !! k = Some b → instList (rob x) t !! j = Some q → (k < j)%nat →
  view isControlInducer (insts x) b = true → view isSquashed (insts x) q = false →
  view isDolmaRestricted (insts x) q = true.
Proof.
  intros Hd Hm Hx Hb Hq Hkj Hind Hsq. apply reachable_inv in Hx; auto.
  pose proof (inv_shadow _ _ _ Hx (f_equal negb Hm) t j q Hq) as Hr. rewrite Hsq, orb_false_r in Hr.
  unfold view in *. destruct (insts x !! q) as [i|]; [|apply Hr].
  - unfold isDolmaRestricted. rewrite Hsq, Hr; [done|].
    apply existsb_exists. exists b. split; [|done]. apply list_elem_of_In.
    apply list_elem_of_lookup. exists k. by rewrite lookup_take_lt.
  - apply existsb_exists. exists b. split; [|done]. apply list_elem_of_In.
    apply list_elem_of_lookup. exists k. by rewrite lookup_take_lt.
Qed.

Lemma shadow_restricted_witness :
  view isDolmaRestricted (insts SpecExample.machine) 2 = true.
Proof.
  apply (shadow_restricted RobExample.mode1 SpecExample.machine 0 0 1 1 2);
    first [apply SpecExample.machine_reachable|lia|by_eval].
Defined.

(** C5: In every reachable state of the core in which the instructions that stores
    have recorded as violators still exist, and in every DOLMA mode, one call of
    [ROB::updateSafeStatus] for a thread runs to completion and leaves the oldest
    instruction of the thread neither restricted nor stalled, whatever it was
    before: no instruction is held back once it is the oldest and its thread has been
    scanned. *)
Theorem head_released {M} `{MemSystem M} cfg (x : Machine M) tid p rest :
  isDolma cfg = true → reachable cfg x → closed_store (insts x) →
  instList (rob x) tid = p :: rest →
  ∃ s', updateSafeStatus cfg tid (rob x) (insts x) = Ok s' ∧ is_Some (s' !! p) ∧
    view isDolmaRestricted s' p = false ∧ view isDolmaStalled s' p = false.
Proof.
  intros Hd Hx Hc Hl. apply reachable_inv in Hx; auto.
  pose proof (thread_list_in _ _ _ (inv_list _ _ _ Hx tid)) as Hin.
  destruct (updateSafeStatus_Ok cfg Hd tid (rob x) (insts x) Hin Hc) as (s' & Hu & _).
  exists s'. split; [done|]. pose proof (updateSafeStatus_inv _ _ _ _ _ _ Hu Hx) as Hx'.
  assert (is_Some (s' !! p)) as [i Hi].
  { pose proof (thread_list_in _ _ _ (inv_list _ _ _ Hx' tid)) as Hin'. rewrite Hl in Hin'.
    by apply Forall_cons in Hin' as [? _]. }
  assert (view isDolmaRestricted s' p = false) as Hr.
  { eapply head_unrestricted; eauto; [apply Hx|].
    apply sorted_lt_NoDup, (inv_list _ _ _ Hx). }
  split; [by exists i|]. split; [done|].
  pose proof (inv_stall _ _ _ Hx' _ _ Hi) as Hst. unfold view, stall_ok in *. rewrite Hi in *.
  destruct (isDolmaStalled i); [|done]. by rewrite Hst in Hr.
Qed.

Lemma head_released_witness :
  ∃ s', updateSafeStatus RobExample.mode1 0 (rob SpecExample.machine)
          (insts SpecExample.machine) = Ok s' ∧
        view isDolmaRestricted s' 1 = false ∧ view isDolmaStalled s' 1 = false.
Proof.
  destruct (head_released RobExample.mode1 SpecExample.machine 0 1 [2])
    as (s' & Hu & _ & H); [reflexivity|apply SpecExample.machine_reachable|by_eval|by_eval|].
  by exists s'.
Defined.
