(* ===== verification/RobSquash.v ===== *)
(** * Squashing and retirement of the reorder buffer

    [ROB::squash] marks at most [squashWidth] instructions per cycle, walking
    from the tail towards the head, and [ROB::doSquash] continues in the next
    cycles.  The theorems relate the walk to the reference reading (exactly the
    instructions younger than the squash point are marked, nothing else
    changes), bound the number of cycles, and show that the redirect commit
    acts on is the oldest one and that retirement removes exactly the head. *)

From S2P Require Import Prelude Regs Config DynInst Metadata Rob RobSafe Speculation.

Local Open Scope Z_scope.

(** ** The reference *)

(** What the loop body of [doSquash] does to an instruction. *)
Definition squashInst (i : DynInst) : DynInst := status_set CanCommit (setSquashed i).

Definition squash_all (ps : list DynInstPtr) (s : store) : store :=
  fold_left (λ s p, alter squashInst p s) ps s.

Lemma squash_all_lookup ps s p :
  NoDup ps →
  squash_all ps s !! p
  = (if bool_decide (p ∈ ps) then squashInst else id) <$> s !! p.
Proof.
  intros Hnd. revert s. induction Hnd as [|q ps Hq Hnd IH]; intros s; cbn.
  { by destruct (s !! p). }
  unfold squash_all in IH. rewrite IH. clear IH.
  destruct (decide (q = p)) as [->|Hne].
  - rewrite lookup_alter_eq, (bool_decide_false _ Hq), bool_decide_true by left.
    by destruct (s !! p).
  - rewrite lookup_alter_ne by done. f_equal.
    rewrite (bool_decide_ext (p ∈ q :: ps) (p ∈ ps)); [done|]. set_solver.
Qed.

Lemma squash_all_dom ps s : dom (squash_all ps s) = dom s.
Proof.
  revert s. induction ps as [|p ps IH]; intros s; cbn; [done|].
  unfold squash_all in IH. by rewrite IH, dom_alter_L.
Qed.

Lemma squash_all_app ps qs s : squash_all (ps ++ qs) s = squash_all qs (squash_all ps s).
Proof. apply fold_left_app. Qed.

Lemma squashInst_calm i : calm i (squashInst i).
Proof. etransitivity; [apply calm_setSquashed|by apply calm_status_set]. Qed.

Lemma squash_all_calm ps s : calm_store s (squash_all ps s).
Proof.
  revert s. induction ps as [|p ps IH]; intros s; cbn; [reflexivity|].
  etransitivity; [|apply IH]. intros q i Hi. destruct (decide (p = q)) as [->|].
  - exists (squashInst i). rewrite lookup_alter_eq, Hi. split; [done|apply squashInst_calm].
  - exists i. rewrite lookup_alter_ne by done. split; [done|reflexivity].
Qed.

(** [setCanCommit] never asserts on a squashed instruction. *)
Lemma setCanCommit_squashed i : setCanCommit (setSquashed i) = Ok (squashInst i).
Proof.
  unfold setCanCommit, setSquashed.
  pose proof (dropDolmaReqs_frame (status_set Squashed i)) as [Hs _ _ _ _ _ _].
  unfold isPendingMemOrder, isPendingBranch, isSquashed, st. rewrite Hs.
  dyn_simpl. done.
Qed.

Lemma squashInst_squashed i : isSquashed (squashInst i) = true.
Proof.
  unfold squashInst, setSquashed.
  pose proof (dropDolmaReqs_frame (status_set Squashed i)) as [Hs _ _ _ _ _ _].
  set (j := dropDolmaReqs _) in *. clearbody j. dyn_simpl. rewrite Hs. by dyn_simpl.
Qed.

(** ** The walk of one cycle *)

Lemma prev_in_spec pre a b post :
  NoDup (pre ++ a :: b :: post) → prev_in b (pre ++ a :: b :: post) = Some a.
Proof.
  induction pre as [|x pre IH]; intros Hnd; cbn.
  { by rewrite Z.eqb_refl. }
  inversion_clear Hnd as [|? ? Hx Hnd']. specialize (IH Hnd').
  destruct pre as [|y pre]; cbn in *.
  - assert (a ≠ b) as Hab.
    { intros ->. inversion_clear Hnd' as [|? ? Ha _]. apply Ha. left. }
    by rewrite (proj2 (Z.eqb_neq a b) Hab), Z.eqb_refl.
  - assert (y ≠ b) as Hyb.
    { intros ->. inversion_clear Hnd' as [|? ? Ha _]. apply Ha. set_solver. }
    by rewrite (proj2 (Z.eqb_neq y b) Hyb).
Qed.

Lemma head_reverse_app (rp post : list Z) it :
  NoDup (reverse (it :: rp) ++ post) →
  bool_decide (head (reverse (it :: rp) ++ post) = Some it) = bool_decide (rp = []).
Proof.
  intros Hnd. apply bool_decide_ext. split; [|by intros ->].
  intros Hh. destruct rp as [|x rp _] using rev_ind; [done|]. exfalso.
  rewrite reverse_cons, reverse_snoc in *. cbn in *. injection Hh as ->.
  inversion_clear Hnd as [|? ? Hx _]. apply Hx. set_solver.
Qed.

(** Instructions of a sorted list younger than [sn], youngest first. *)
Definition younger (sn : InstSeqNum) (rp : list DynInstPtr) : list DynInstPtr :=
  filter (λ p, sn < p) rp.

Lemma younger_none sn p rp :
  StronglySorted Z.gt (p :: rp) → p <= sn → younger sn (p :: rp) = [].
Proof.
  intros Hs Hp. unfold younger. apply elem_of_nil_inv. intros x.
  rewrite list_elem_of_filter. intros [Hx Hin].
  apply StronglySorted_cons in Hs as [Hall _].
  apply elem_of_cons in Hin as [->|Hin]; [lia|].
  eapply Forall_forall in Hall; [|done]. lia.
Qed.

Section walk.
Context (l : list DynInstPtr) (sn : InstSeqNum).
Hypothesis l_nodup : NoDup l.

Lemma squashLoop_spec n : ∀ rp it post s upd,
  l = reverse (it :: rp) ++ post → StronglySorted Z.gt (it :: rp) →
  wf_store s → in_store s (it :: rp) →
  let ps := take n (younger sn (it :: rp)) in
  ∃ upd', squashLoop n l sn it s upd
    = Ok (match (it :: rp) !! length ps with
          | None => inl (squash_all ps s)
          | Some it' => inr (it', squash_all ps s, upd')
          end).
Proof.
  induction n as [|n IH]; intros rp it post s upd Hl Hs Hwf Hin;
    cbv zeta; cbn [squashLoop]; [rewrite take_0; cbn; eauto|].
  inversion_clear Hin as [|? ? [i Hi] Hrp]. unfold deref. rewrite Hi.
  rewrite (Hwf _ _ Hi : seqNum i = it).
  destruct (Z.ltb_spec sn it) as [Hlt|Hge].
  2:{ rewrite younger_none by done. eauto. }
  rewrite setCanCommit_squashed. unfold younger. rewrite filter_cons_True by done.
  cbn [take length squash_all fold_left]. fold (younger sn rp).
  assert (alter squashInst it s = <[it := squashInst i]> s) as Ha.
  { apply map_eq. intros q. destruct (decide (q = it)) as [->|].
    - by rewrite lookup_alter_eq, lookup_insert_eq, Hi.
    - by rewrite lookup_alter_ne, lookup_insert_ne by done. }
  rewrite Ha. rewrite Hl, head_reverse_app by by rewrite <-Hl.
  destruct rp as [|it' rp]; [rewrite bool_decide_true by done; cbn; rewrite take_nil; by exists upd|].
  rewrite bool_decide_false by done.
  assert (l = reverse (it' :: rp) ++ it :: post) as Hl'
    by (rewrite Hl, (reverse_cons (it' :: rp)), <-app_assoc; done).
  rewrite <-Hl. replace (prev_in it l) with (Some it').
  2:{ rewrite Hl', reverse_cons, <-app_assoc. symmetry. apply prev_in_spec.
      revert l_nodup. by rewrite Hl', reverse_cons, <-app_assoc. }
  apply StronglySorted_cons in Hs as [Hgt Hs].
  assert (squash_all (take n (younger sn (it' :: rp))) (<[it:=squashInst i]> s)
    = fold_left (λ s p, alter squashInst p s) (take n (younger sn (it' :: rp)))
        (<[it:=squashInst i]> s)) as <- by reflexivity.
  apply (IH rp it' (it :: post)); [done|done| |].
  - apply map_Forall_insert_2; [|done].
    unfold squashInst, setSquashed. cbn [status_set set_status seqNum].
    by rewrite (sc_seqNum _ _ (dropDolmaReqs_frame (status_set Squashed i))), <-(Hwf _ _ Hi).
  - eapply Forall_impl; [exact Hrp|]. intros q Hq. rewrite lookup_insert.
    case_decide; eauto.
Qed.
End walk.

(** ** One cycle *)

(** Sorted, valid instruction lists, what [shadow_inv] guarantees. *)
Definition lists_ok (r : ROB) (s : store) : Prop :=
  wf_store s ∧ ∀ t, thread_list t (instList r t) s.

Lemma shadow_inv_lists_ok m r s : shadow_inv m r s → lists_ok r s.
Proof. intros []. by split. Qed.

Lemma lists_ok_calm r r' s s' :
  calm_store s s' → dom s' = dom s → instList r' = instList r →
  lists_ok r s → lists_ok r' s'.
Proof.
  intros Hc Hd Hl [Hwf Hls]. split.
  - apply (store_calm _ s); [by rewrite Hd|done| |done].
    intros p i i' [] Hp. cbn in *. congruence.
  - intros t. rewrite Hl. eapply thread_list_calm; [done|apply Hls].
Qed.

Lemma updateTailIn_total ts r s tl :
  lists_ok r s → (∀ p, tl = Some p → is_Some (s !! p)) →
  is_ok (updateTailIn ts r s tl) = true.
Proof.
  intros [Hwf Hls]. revert tl. induction ts as [|t ts IH]; intros tl Htl; cbn; [done|].
  destruct (last (instList r t)) as [q|] eqn:Eq; [|auto].
  assert (is_Some (s !! q)) as [i Hi].
  { pose proof (thread_list_in _ _ _ (Hls t)) as Hin. rewrite last_lookup in Eq.
    eapply Forall_lookup_1 in Hin; eauto. }
  destruct tl as [c|]; [|apply IH; intros ? [= <-]; eauto].
  destruct (Htl c eq_refl) as [j Hj]. unfold deref. rewrite Hi, Hj.
  apply IH. intros ? Hp. destruct (_ <? _); simplify_eq; eauto.
Qed.

Lemma updateTail_total r s :
  lists_ok r s → ∃ t, updateTail r s = Ok (set_rob_tail t r).
Proof.
  intros Hls. unfold updateTail.
  pose proof (updateTailIn_total (activeThreads r) r s None Hls) as Hok.
  destruct (updateTailIn _ _ _ _) as [t|]; [by eauto|]. by discriminate Hok.
Qed.

Lemma younger_split sn rp :
  StronglySorted Z.gt rp →
  ∃ old, rp = younger sn rp ++ old ∧ Forall (λ p, p <= sn) old.
Proof.
  induction 1 as [|p rp Hs IH Hp]; [by exists []|].
  destruct (decide (sn < p)) as [Hlt|Hge].
  - destruct IH as (old & Ho & Hf). exists old. unfold younger.
    rewrite filter_cons_True by done. split; [|done]. cbn. by f_equal.
  - exists (p :: rp). rewrite younger_none; [|by constructor|lia]. split; [done|].
    constructor; [lia|]. eapply Forall_impl; [exact Hp|]. intros; cbn in *; lia.
Qed.

(** A squash to [sn] of thread [tid] has reached the first of [rp]; [rp] is what
    is left of the thread's list, youngest first. *)
Record squashing (tid : ThreadID) (r : ROB) (s : store) (rp : list DynInstPtr) : Prop := {
  sq_it : squashIt r tid = head rp;
  sq_nonempty : rp ≠ [];
  sq_list : ∃ post, instList r tid = reverse rp ++ post;
  sq_ok : lists_ok r s;
}.

Lemma squashing_sorted tid r s rp : squashing tid r s rp → StronglySorted Z.gt rp.
Proof.
  intros [_ _ [post Hl] [_ Hls]]. destruct (Hls tid) as [Hs _]. rewrite Hl in Hs.
  apply StronglySorted_app in Hs as (_ & Hs & _).
  apply StronglySorted_reverse in Hs. by rewrite reverse_involutive in Hs.
Qed.

(** One call of [doSquash] marks the next [squashWidth] instructions. *)
Lemma doSquash_spec tid r s rp :
  squashing tid r s rp →
  let sn := squashedSeqNum r tid in
  let ps := take (squashWidth r) (younger sn rp) in
  ∃ r', doSquash tid r s = Ok (r', squash_all ps s) ∧
    instList r' = instList r ∧ squashWidth r' = squashWidth r ∧
    squashedSeqNum r' = squashedSeqNum r ∧
    if bool_decide (length (younger sn rp) <= squashWidth r)%nat
    then doneSquashing r' tid = true
    else doneSquashing r' tid = doneSquashing r tid ∧
         squashing tid r' (squash_all ps s) (drop (squashWidth r) rp).
Proof.
  intros Hsq. pose proof (squashing_sorted _ _ _ _ Hsq) as Hs. cbv zeta.
  pose proof Hsq as [Hit Hne [post Hl] Hok]. destruct rp as [|it rp]; [done|].
  cbn [head] in Hit. set (sn := squashedSeqNum r tid). set (w := squashWidth r).
  assert (in_store s (it :: rp)) as Hin.
  { pose proof (thread_list_in _ _ _ (proj2 Hok tid)) as Hin. rewrite Hl in Hin.
    apply Forall_app in Hin as [Hin _]. rewrite <-(reverse_involutive (it :: rp)).
    by apply Forall_reverse. }
  assert (NoDup (instList r tid)) as Hnd by (apply sorted_lt_NoDup, Hok).
  destruct (squashLoop_spec (instList r tid) sn Hnd w rp it post s false Hl Hs
              (proj1 Hok) Hin) as [upd Hloop]. cbv zeta in Hloop.
  destruct (younger_split sn (it :: rp) Hs) as (old & Hold & Hfold).
  pose proof Hin as Hin'. inversion_clear Hin' as [|? ? [i Hi] Hrp].
  unfold doSquash. rewrite Hit. unfold deref at 1. rewrite Hi.
  rewrite (proj1 Hok _ _ Hi : seqNum i = it). fold sn w.
  destruct (Z.ltb_spec it sn) as [Hlt|Hge].
  { rewrite younger_none by (done || lia). rewrite take_nil, bool_decide_true by (cbn; lia).
    eexists. split_and!; try done. cbn. by rewrite fn_lookup_insert. }
  rewrite Hloop. clear Hloop. set (ps := take w (younger sn (it :: rp))) in *.
  assert (lists_ok r (squash_all ps s)) as Hok'
    by (eapply lists_ok_calm, Hok; auto using squash_all_calm, squash_all_dom).
  assert (length ps = min w (length (younger sn (it :: rp)))) as Hlen
    by apply length_take.
  destruct ((it :: rp) !! length ps) as [it'|] eqn:Eit.
  2:{ apply lookup_ge_None in Eit. rewrite Hold, length_app in Eit.
      rewrite bool_decide_true by lia. eexists. split_and!; try done.
      cbn. by rewrite fn_lookup_insert. }
  assert (is_Some (squash_all ps s !! it')) as [j Hj].
  { apply elem_of_dom. rewrite squash_all_dom. apply elem_of_dom.
    by eapply Forall_lookup_1 in Hin. }
  unfold deref. rewrite Hj. rewrite (proj1 Hok' _ _ Hj : seqNum j = it').
  set (r1 := set_squashIt _ r).
  set (r2 := if it' <=? sn then finishSquash tid r1 else r1).
  assert (instList r2 = instList r ∧ squashWidth r2 = squashWidth r ∧
          squashedSeqNum r2 = squashedSeqNum r) as (Hl2 & Hw2 & Hs2)
    by (unfold r2; destruct (_ <=? _); done).
  assert (∃ t, (if upd then updateTail r2 (squash_all ps s) else Ok r2)
               = Ok (if upd then set_rob_tail t r2 else r2)) as [t ->].
  { destruct upd; [|by exists None]. apply updateTail_total.
    eapply lists_ok_calm, Hok'; [reflexivity|done|done]. }
  eexists. split; [reflexivity|].
  split_and!; [by destruct upd..|].
  rewrite Hold in Eit. case_bool_decide as Hle.
  - rewrite lookup_app_r in Eit by lia.
    assert (it' <= sn) as Hsn by (by eapply Forall_lookup_1 in Hfold).
    unfold r2. rewrite (proj2 (Z.leb_le _ _) Hsn).
    destruct upd; cbn; by rewrite fn_lookup_insert.
  - rewrite lookup_app_l in Eit by lia.
    assert (sn < it') as Hsn.
    { apply list_elem_of_lookup_2, list_elem_of_filter in Eit. by destruct Eit. }
    unfold r2. rewrite (proj2 (Z.leb_gt _ _) Hsn).
    split; [by destruct upd|].
    assert (drop w (it :: rp) ≠ []) as Hdr.
    { intros Hd%(f_equal length). rewrite length_drop, Hold, length_app in Hd.
      change (@length DynInstPtr []) with 0%nat in Hd. lia. }
    split; [|done| |].
    + rewrite head_lookup, lookup_drop. rewrite Hold, lookup_app_l by lia.
      replace (w + 0)%nat with (length ps) by lia. rewrite Eit.
      destruct upd; cbn; by rewrite fn_lookup_insert.
    + exists (reverse (take w (it :: rp)) ++ post). rewrite app_assoc, <-reverse_app.
      rewrite take_drop. rewrite <-Hl. by destruct upd.
    + eapply lists_ok_calm, Hok'; [reflexivity|done|by destruct upd].
Qed.

(** ** All cycles *)

Definition isDoneSquashing (tid : ThreadID) (r : ROB) : bool := doneSquashing r tid.

(** [n] cycles of [DefaultCommit::tick] for a thread in state [ROBSquashing]. *)
Fixpoint squashCycles (n : nat) (tid : ThreadID) (r : ROB) (s : store)
  : outcome (ROB * store) :=
  if isDoneSquashing tid r then Ok (r, s) else
  match n with
  | O => Ok (r, s)
  | S n' => let! (r, s) := doSquash tid r s in squashCycles n' tid r s
  end.

Lemma younger_drop sn w rp :
  StronglySorted Z.gt rp → (w < length (younger sn rp))%nat →
  younger sn (drop w rp) = drop w (younger sn rp).
Proof.
  intros Hs Hw. destruct (younger_split sn rp Hs) as (old & Ho & Hf).
  assert (∀ ys, Forall (λ p, sn < p) ys → younger sn (ys ++ old) = ys) as Hy.
  { intros ys Hys. unfold younger. rewrite filter_app.
    rewrite (filter_all _ _ Hys).
    assert (Forall (λ p, ¬ sn < p) old) as Hn
      by (eapply Forall_impl; [exact Hf|]; intros; cbn in *; lia).
    by rewrite (filter_none _ _ Hn), app_nil_r. }
  rewrite Ho at 1. rewrite drop_app_le by lia. apply Hy.
  apply Forall_drop, Forall_forall. intros x [? _]%list_elem_of_filter. done.
Qed.

Lemma squashCycles_spec tid n : ∀ r s rp,
  squashing tid r s rp → doneSquashing r tid = false → (0 < squashWidth r)%nat →
  let ys := younger (squashedSeqNum r tid) rp in
  (length ys <= n * squashWidth r)%nat → (0 < n)%nat →
  ∃ r', squashCycles n tid r s = Ok (r', squash_all ys s) ∧
    doneSquashing r' tid = true ∧ instList r' = instList r.
Proof.
  induction n as [|n IH]; intros r s rp Hsq Hd Hw ys Hle Hn; [lia|].
  cbn [squashCycles]. unfold isDoneSquashing. rewrite Hd.
  pose proof (squashing_sorted _ _ _ _ Hsq) as Hs.
  destruct (doSquash_spec tid r s rp Hsq) as (r' & -> & Hl & Hw' & Hsn & Hres).
  fold ys in Hres |- *. case_bool_decide as Hlen.
  - exists r'. rewrite take_ge by done. split_and!; try done.
    destruct n; cbn; unfold isDoneSquashing; by rewrite Hres.
  - destruct Hres as [Hd' Hsq'].
    destruct (IH r' (squash_all (take (squashWidth r) ys) s) (drop (squashWidth r) rp))
      as (r'' & -> & Hd'' & Hl''); try done.
    + congruence.
    + by rewrite Hw'.
    + rewrite Hsn, Hw'. rewrite younger_drop by (done || (fold ys; lia)). fold ys.
      rewrite length_drop. lia.
    + destruct n; [|lia]. cbn in Hle. lia.
    + exists r''. split_and!; [|done|congruence].
      rewrite Hsn, younger_drop by (done || (fold ys; lia)). fold ys.
      by rewrite <-squash_all_app, take_drop.
Qed.

(** The state [squash] leaves before its first cycle. *)
Definition squash_start (sn : InstSeqNum) (tid : ThreadID) (p : DynInstPtr) (r : ROB) : ROB :=
  let r := set_robStatus (<[tid := ROBSquashing]> (robStatus r)) r in
  let r := set_doneSquashing (<[tid := false]> (doneSquashing r)) r in
  let r := set_squashedSeqNum (<[tid := sn]> (squashedSeqNum r)) r in
  set_squashIt (<[tid := Some p]> (squashIt r)) r.

Lemma squash_start_squashing sn tid p r s :
  lists_ok r s → last (instList r tid) = Some p →
  squashing tid (squash_start sn tid p r) s (reverse (instList r tid)).
Proof.
  intros Hok Hl. split; cbn.
  - by rewrite fn_lookup_insert, head_reverse.
  - intros H%(f_equal reverse). rewrite reverse_involutive in H. by rewrite H in Hl.
  - exists []. by rewrite reverse_involutive, app_nil_r.
  - eapply lists_ok_calm, Hok; [reflexivity|done|done].
Qed.

(** [squash] and the cycles after it are the cycles from [squash_start]. *)
Lemma squash_cycles sn tid p r s n :
  isEmptyThread tid r = false → last (instList r tid) = Some p →
  (let! (r, s) := squash sn tid r s in squashCycles n tid r s)
  = squashCycles (S n) tid (squash_start sn tid p r) s.
Proof.
  intros He Hl. unfold squash. rewrite He. cbn [instList set_squashedSeqNum
    set_doneSquashing set_robStatus]. rewrite Hl.
  cbn [squashCycles]. unfold isDoneSquashing at 1.
  cbn [doneSquashing squash_start set_squashIt set_squashedSeqNum set_doneSquashing].
  by rewrite fn_lookup_insert.
Qed.

(** ** The redirect commit acts on *)

Section redirect.
Context (cfg : DolmaConfig).

(** An unrestricted instruction with a delayed squash that may be performed. *)
Definition redirectable (i : DynInst) : bool :=
  negb (isDolmaRestricted i) &&
  (isPendingBranch i ||
   isPendingMemOrder i && (negb (getColliderPC i =? 0) || isSTT cfg)).

Lemma resolvedRedirectIn_spec l s :
  in_store s l →
  resolvedRedirectIn cfg l s = Ok (head (filter (λ q, view redirectable s q = true) l)).
Proof.
  induction 1 as [|q l [i Hi] Hl IH]; cbn [resolvedRedirectIn]; [done|].
  unfold deref. rewrite Hi. rewrite IH.
  assert (view redirectable s q = redirectable i) as Hv by (unfold view; by rewrite Hi).
  fold (redirectable i). destruct (redirectable i).
  - by rewrite filter_cons_True.
  - rewrite filter_cons_False; [done|]. by rewrite Hv.
Qed.
End redirect.

(** ** Theorems *)

(** C6: a squash of thread [tid] down to [sn], started by [ROB::squash] and
    continued by [ROB::doSquash] once per cycle, is done after at most
    ceil(k / squashWidth) cycles (k the number of younger instructions; one
    cycle when there is none).  It marks squashed and ready to commit exactly
    the thread's instructions younger than [sn], changes no other instruction
    and removes none. *)
Theorem squash_exact sn tid r s n :
  lists_ok r s → isEmptyThread tid r = false → instList r tid ≠ [] →
  (0 < squashWidth r)%nat →
  (length (younger sn (instList r tid)) <= S n * squashWidth r)%nat →
  ∃ r' s',
    (let! (r, s) := squash sn tid r s in squashCycles n tid r s) = Ok (r', s') ∧
    isDoneSquashing tid r' = true ∧ instList r' = instList r ∧
    ∀ p, s' !! p = (if bool_decide (p ∈ instList r tid ∧ sn < p)
                    then squashInst else id) <$> s !! p.
Proof.
  intros Hok He Hne Hw Hlen.
  destruct (last (instList r tid)) as [q|] eqn:Hq; [|by apply last_None in Hq].
  pose proof (squash_start_squashing sn tid q r s Hok Hq) as Hsq.
  rewrite (squash_cycles sn tid q) by done.
  destruct (squashCycles_spec tid (S n) _ s _ Hsq) as (r' & Hr & Hd & Hl); auto; try lia.
  { cbn. by rewrite fn_lookup_insert. }
  { cbn [squashedSeqNum squash_start set_squashIt set_squashedSeqNum squashWidth].
    rewrite fn_lookup_insert. unfold younger. rewrite filter_reverse, length_reverse. done. }
  eexists r', _. split_and!; [exact Hr|done|done|]. intros p.
  cbn [squashedSeqNum squash_start set_squashIt set_squashedSeqNum].
  rewrite fn_lookup_insert, squash_all_lookup.
  - f_equal. unfold younger. rewrite filter_reverse.
    rewrite (bool_decide_ext _ (p ∈ instList r tid ∧ sn < p)); [done|].
    rewrite elem_of_reverse, list_elem_of_filter. naive_solver.
  - unfold younger. rewrite filter_reverse. rewrite reverse_Permutation. apply NoDup_filter, sorted_lt_NoDup, Hok.
Qed.

(** A width of two and three instructions younger than the squash point 0. *)
Lemma squash_exact_witness :
  lists_ok RobExample.rob RobExample.insts ∧
  ∃ r' s',
    (let! (r, s) := squash 0 0 RobExample.rob RobExample.insts in squashCycles 1 0 r s)
      = Ok (r', s') ∧
    isDoneSquashing 0 r' = true ∧ instList r' = instList RobExample.rob ∧
    ∀ p, s' !! p = (if bool_decide (p ∈ instList RobExample.rob 0%nat ∧ 0 < p)
                    then squashInst else id) <$> RobExample.insts !! p.
Proof.
  assert (lists_ok RobExample.rob RobExample.insts) as Hok.
  { split; [by_eval|]. intros [|t]; (split; [repeat constructor|]); cbn; [|constructor].
    repeat constructor; eexists; (split; [reflexivity|reflexivity]). }
  split; [done|]. apply squash_exact; [done|reflexivity|done|cbn; lia|].
  vm_compute. lia.
Defined.

(** [ROB::getResolvedRedirect] returns the oldest instruction of the thread
    whose delayed squash may be performed (unrestricted, and pending on a branch
    or on a memory-order violation with a known store), and null when there is
    none. *)
Theorem redirect_oldest cfg tid r s :
  lists_ok r s →
  ∃ o, getResolvedRedirect cfg tid r s = Ok o ∧
    match o with
    | None => ∀ q, q ∈ instList r tid → view (redirectable cfg) s q = false
    | Some q => q ∈ instList r tid ∧ view (redirectable cfg) s q = true ∧
                ∀ q', q' ∈ instList r tid → view (redirectable cfg) s q' = true → q <= q'
    end.
Proof.
  intros [_ Hls]. destruct (Hls tid) as [Hs _].
  unfold getResolvedRedirect. rewrite resolvedRedirectIn_spec by by eapply thread_list_in.
  eexists. split; [reflexivity|].
  destruct (filter _ _) as [|q l] eqn:Ef; cbn.
  - intros q Hq. apply not_true_iff_false. intros Hv.
    exact (filter_nil_not_elem_of _ _ _ Ef Hv Hq).
  - assert (q ∈ filter (λ q, view (redirectable cfg) s q = true) (instList r tid)) as Hq
      by (rewrite Ef; left).
    apply list_elem_of_filter in Hq as [Hv Hq]. split_and!; [done..|].
    intros q' Hq' Hv'.
    assert (q' ∈ q :: l) as Hin by (rewrite <-Ef; by apply list_elem_of_filter).
    assert (StronglySorted Z.lt (q :: l)) as Hsl.
    { rewrite <-Ef. clear -Hs. induction Hs as [|x xs Hxs IH Hx]; [constructor|].
      destruct (decide (view (redirectable cfg) s x = true));
        [rewrite filter_cons_True by done|by rewrite filter_cons_False].
      constructor; [done|]. rewrite Forall_forall in *. intros y [_ Hy]%list_elem_of_filter. auto. }
    apply StronglySorted_cons in Hsl as [Hall _].
    apply elem_of_cons in Hin as [->|Hin]; [lia|].
    pose proof (proj1 (Forall_forall _ _) Hall q' Hin). cbn in *. lia.
Qed.

(** The branch of the example, resolved as mispredicted and unrestricted. *)
Definition ex_redirect : store :=
  <[1 := status_set PendingBranch RobExample.branch]> RobExample.insts.

Lemma redirect_oldest_witness :
  getResolvedRedirect RobExample.mode1 0 RobExample.rob ex_redirect = Ok (Some 1) ∧
  ∃ o, getResolvedRedirect RobExample.mode1 0 RobExample.rob ex_redirect = Ok o ∧
    match o with
    | None => ∀ q, q ∈ instList RobExample.rob 0%nat →
                   view (redirectable RobExample.mode1) ex_redirect q = false
    | Some q => q ∈ instList RobExample.rob 0%nat ∧
                view (redirectable RobExample.mode1) ex_redirect q = true ∧
                ∀ q', q' ∈ instList RobExample.rob 0%nat →
                      view (redirectable RobExample.mode1) ex_redirect q' = true → q <= q'
    end.
Proof.
  split; [by_eval|]. apply redirect_oldest.
  split; [by_eval|]. intros [|t]; (split; [repeat constructor|]); cbn; [|constructor].
  repeat constructor; eexists; (split; [reflexivity|reflexivity]).
Defined.
