(* ===== verification/RobCount.v ===== *)
(** * Occupancy and retirement of the reorder buffer

    The counters [numInstsInROB] and [threadEntries], which rename's credits
    and every capacity test read, against the lists they summarise; and what
    retirement does to the buffer. *)

From S2P Require Import Prelude Regs Config DynInst Metadata Rob RobSafe Speculation RobSquash.

Local Open Scope Z_scope.

(** ** Counting *)

Record rob_counts (r : ROB) : Prop := {
  rc_thread : ∀ t, threadEntries r t = countInstsThread t r;
  rc_total : numInstsInROB r = countInsts r;
  rc_outside : ∀ t, (numThreads r <= t)%nat → instList r t = [];
  rc_bound : numInstsInROB r <= numEntries r;
}.

(** A running sum over a list, as [countInsts] computes it. *)
Lemma fold_sum {A} (f : A → Z) (l : list A) a :
  fold_left (λ n x, n + f x) l a = a + fold_left (λ n x, n + f x) l 0.
Proof.
  revert a. induction l as [|x l IH]; intros a; cbn [fold_left]; [lia|].
  rewrite IH, (IH (0 + f x)). lia.
Qed.

Lemma fold_sum_insert (f g : nat → Z) (l : list nat) t :
  NoDup l → t ∈ l → (∀ u, u ≠ t → g u = f u) →
  fold_left (λ n x, n + g x) l 0 = fold_left (λ n x, n + f x) l 0 - f t + g t.
Proof.
  intros Hnd Hin Heq. induction Hnd as [|x l Hx Hnd IH]; [by apply not_elem_of_nil in Hin|].
  cbn [fold_left]. rewrite (fold_sum g), (fold_sum f). destruct (decide (x = t)) as [->|Hne].
  - assert (fold_left (λ n y, n + g y) l 0 = fold_left (λ n y, n + f y) l 0) as ->; [|lia].
    generalize 0 as z. clear -Heq Hx. induction l as [|y l IH]; intros z; cbn; [done|].
    rewrite Heq by set_solver. apply IH. set_solver.
  - apply elem_of_cons in Hin as [->|Hin]; [done|]. rewrite IH by done.
    rewrite Heq by done. lia.
Qed.

Lemma countInsts_insert r r' tid l :
  (tid < numThreads r)%nat → numThreads r' = numThreads r →
  instList r' = <[tid := l]> (instList r) →
  countInsts r' = countInsts r - countInstsThread tid r + Z.of_nat (length l).
Proof.
  intros Ht Hn Hl. unfold countInsts. rewrite Hn.
  rewrite (fold_sum_insert (λ t, countInstsThread t r) (λ t, countInstsThread t r') _ tid).
  - unfold countInstsThread at 3. by rewrite Hl, fn_lookup_insert.
  - apply NoDup_seq.
  - apply elem_of_seq. lia.
  - intros u Hu. unfold countInstsThread. by rewrite Hl, fn_lookup_insert_ne.
Qed.

(** Replacing one thread's list, with the counters moved accordingly. *)
Lemma rob_counts_replace r r' tid l :
  rob_counts r → (tid < numThreads r)%nat →
  numThreads r' = numThreads r → numEntries r' = numEntries r →
  instList r' = <[tid := l]> (instList r) →
  let d := Z.of_nat (length l) - countInstsThread tid r in
  threadEntries r' = <[tid := threadEntries r tid + d]> (threadEntries r) →
  numInstsInROB r' = numInstsInROB r + d → numInstsInROB r' <= numEntries r' →
  rob_counts r'.
Proof.
  intros [Hth Htot Hout Hb] Ht Hn He Hl d Hte Hni Hb'. split; [| | |done].
  - intros t. rewrite Hte. unfold countInstsThread. rewrite Hl.
    destruct (decide (t = tid)) as [->|Hne].
    + rewrite !fn_lookup_insert, Hth. unfold d, countInstsThread. lia.
    + rewrite !fn_lookup_insert_ne by done. apply Hth.
  - rewrite Hni, Htot, (countInsts_insert r r' tid l) by done. unfold d. lia.
  - intros t Hge. rewrite Hl, fn_lookup_insert_ne by lia. apply Hout. lia.
Qed.

(** The fields the counters depend on. *)
Record same_counts (r r' : ROB) : Prop := {
  sm_list : instList r' = instList r;
  sm_entries : threadEntries r' = threadEntries r;
  sm_num : numInstsInROB r' = numInstsInROB r;
  sm_cap : numEntries r' = numEntries r;
  sm_threads : numThreads r' = numThreads r;
}.

Lemma rob_counts_same r r' : same_counts r r' → rob_counts r → rob_counts r'.
Proof.
  intros [Hl He Hn Hc Ht] [H1 H2 H3 H4].
  split; unfold countInsts, countInstsThread in *; rewrite ?He, ?Hl, ?Hn, ?Hc, ?Ht; auto.
Qed.

Lemma updateHead_same r s r' : updateHead r s = Ok r' → same_counts r r'.
Proof. unfold updateHead. intros H. inv_ok H. done. Qed.
Lemma updateTail_same r s r' : updateTail r s = Ok r' → same_counts r r'.
Proof. unfold updateTail. intros H. inv_ok H. done. Qed.

Lemma doSquash_same tid r s r' s' : doSquash tid r s = Ok (r', s') → same_counts r r'.
Proof.
  unfold doSquash. intros H. destruct (squashIt r tid); [|discriminate].
  inv_ok1 H. destruct (_ <? _); [by inv_ok H|]. inv_ok1 H.
  destruct a0 as [s1|[[it s1] upd]]; [by inv_ok H|]. inv_ok1 H. inv_ok1 H. inv_ok H.
  destruct upd; [apply updateTail_same in E2; destruct (_ <=? _); by destruct E2|].
  inv_ok E2. by destruct (_ <=? _).
Qed.

Lemma squash_same sn tid r s r' s' : squash sn tid r s = Ok (r', s') → same_counts r r'.
Proof.
  unfold squash. intros H. destruct (isEmptyThread tid r); [by inv_ok H|].
  cbn in H. destruct (last _); [|by inv_ok H]. by apply doSquash_same in H as [].
Qed.

Lemma insertInst_counts cfg p r s r' s' i :
  insertInst cfg p r s = Ok (r', s') → s !! p = Some i → (threadNumber i < numThreads r)%nat →
  rob_counts r → rob_counts r' ∧ numThreads r' = numThreads r.
Proof.
  unfold insertInst, deref. intros H Hi Ht Hc. rewrite Hi in H. inv_ok1 H.
  cbn beta iota in H. inv_ok1 H. rename a into r1.
  set (l := instList r (threadNumber i) ++ [p]) in *.
  assert (∃ h, r1 = set_rob_head h (set_instList (<[threadNumber i := l]> (instList r)) r))
    as [h ->].
  { destruct (_ =? 0); inv_ok E0; eexists; [reflexivity|]. by instantiate (1 := rob_head r). }
  inv_ok1 H. inv_ok1 H. inv_ok H. split; [|done].
  eapply (rob_counts_replace r _ (threadNumber i) l Hc Ht); try done.
  - unfold l, countInstsThread. cbn. rewrite length_app. cbn. f_equal. lia.
  - unfold l, countInstsThread. cbn. rewrite length_app. cbn. lia.
  - cbn. pose proof (rc_bound _ Hc). apply negb_true_iff, Z.eqb_neq in E. lia.
Qed.

(** Only the inserted instruction changes. *)
Lemma insertInst_entered cfg p r s r' s' i :
  insertInst cfg p r s = Ok (r', s') → s !! p = Some i →
  ∃ i', s' = <[p := i']> s ∧ entered i i'.
Proof.
  unfold insertInst, deref. intros H Hi. rewrite Hi in H. inv_ok1 H. cbn beta iota in H.
  inv_ok1 H. inv_ok1 H. apply modifyM_Ok in E1 as (? & i1 & Hi1 & [= <-] & ->).
  assert (x = i) as -> by congruence. inv_ok1 H. inv_ok H.
  assert (entered i (setInROB i)) as He by by apply entered_status_set.
  destruct (_ && _); [|inv_ok E1; by exists (setInROB i)].
  eapply markControl_spec in E1 as (i' & -> & Hi' & _); [|apply lookup_insert_eq].
  exists i'. rewrite insert_insert_eq. split; [done|by etransitivity].
Qed.

(** ** Threads of the instructions in flight *)

Definition threads_below (n : nat) (s : store) : Prop :=
  map_Forall (λ _ i, (threadNumber i < n)%nat) s.

Lemma threads_below_calm n s s' :
  dom s' = dom s → calm_store s s' → threads_below n s → threads_below n s'.
Proof.
  intros Hd Hc. apply store_calm; [by rewrite Hd|done|]. intros _ i i' []. congruence.
Qed.

Lemma safeStep_threads cfg l n a p s a' s' :
  safeStep cfg l (a, s) p = Ok (a', s') → threads_below n s → threads_below n s'.
Proof.
  intros H Ht. apply safeStep_spec in H as [((i & i' & Hi & Hi' & Hset) & Ho) _].
  intros q j Hj. destruct (decide (q = p)) as [->|Hq].
  - assert (j = i') as -> by congruence.
    rewrite (vis_thread _ _ (set_visited _ _ _ Hset)). by apply (Ht p).
  - specialize (Ho q Hq). rewrite Hj in Ho. destruct (s !! q) as [k|] eqn:Hk; [|done].
    cbn in Ho. rewrite (kept_thread _ _ Ho). by apply (Ht q).
Qed.

Lemma updateSafeStatus_threads cfg tid r n s s' :
  updateSafeStatus cfg tid r s = Ok s' → threads_below n s → threads_below n s'.
Proof.
  unfold updateSafeStatus. intros H. inv_ok1 H. destruct a as [a s1]. inv_ok H.
  revert E. generalize (instList r tid) at 1 as l, scan0 as b, s as s0.
  induction (instList r tid) as [|p l' IH]; intros l b s0 H; cbn in H; [by inv_ok H|].
  destruct (safeStep _ _ _ _) as [[b1 s1]|] eqn:E1; [|discriminate].
  intros. eapply IH; [done|]. by eapply safeStep_threads.
Qed.

(** ** Retirement *)

Section retire.
Context {M : Type} `{MemSystem M} (cfg : DolmaConfig).

Lemma threads_below_insert n s p i i' :
  s !! p = Some i → threadNumber i' = threadNumber i →
  threads_below n s → threads_below n (<[p := i']> s).
Proof.
  intros Hi Ht Hs. apply map_Forall_insert_2; [|done]. rewrite Ht. by apply (Hs p).
Qed.

Lemma threads_below_modifyM n f p s s' :
  (∀ i i', f i = Ok i' → threadNumber i' = threadNumber i) →
  modifyM f p s = Ok s' → threads_below n s → threads_below n s'.
Proof.
  intros Hf Hm. apply modifyM_Ok in Hm as (i & i' & Hi & Hfi & ->).
  by eapply threads_below_insert; eauto.
Qed.

Lemma retireHead_counts tid r s (m : M) r' s' m' :
  retireHead cfg tid r s m = Ok (r', s', m') →
  rob_counts r → threads_below (numThreads r) s →
  rob_counts r' ∧ threads_below (numThreads r') s'.
Proof.
  unfold retireHead. intros Hr Hc Hs. inv_ok1 Hr.
  destruct (instList r tid) as [|p rest] eqn:El; [discriminate|].
  inv_ok1 Hr. apply deref_Ok in E0. inv_ok1 Hr.
  destruct (if isPendingMetadata a then _ else _) as [[s1 m1]|] eqn:E2; [|discriminate].
  assert (threads_below (numThreads r) s1) as Hs1.
  { destruct (isPendingMetadata a); [|by inv_ok E2].
    destruct (updateMetadataIfNeeded a m) as [[i' m2]|] eqn:Eu; [|discriminate].
    inv_ok E2. apply updateMetadataIfNeeded_core in Eu.
    eapply threads_below_insert; eauto. by apply sc_thread. }
  inv_ok1 Hr. rename a0 into i1. apply deref_Ok in E3. inv_ok1 Hr. rename a0 into s2.
  assert (threads_below (numThreads r) s2) as Hs2.
  { destruct (isDataInducer i1); [|by inv_ok E4]. inv_ok1 E4.
    eapply updateSafeStatus_threads; [exact E4|]. by eapply threads_below_insert. }
  inv_ok1 Hr. rename a0 into s3. inv_ok1 Hr. rename a0 into s4. inv_ok1 Hr. inv_ok Hr.
  apply updateHead_same in E7. rename a0 into r1.
  assert (rob_counts r1 ∧ numThreads r1 = numThreads r) as [Hc1 Hn].
  { split; [|by rewrite (sm_threads _ _ E7)].
    apply (rob_counts_same _ _ E7).
    apply (rob_counts_replace r _ tid rest); try done.
    - destruct (decide (numThreads r <= tid)%nat) as [Hge|]; [|lia].
      apply (rc_outside _ Hc) in Hge. by rewrite Hge in El.
    - unfold countInstsThread. rewrite El. cbn. f_equal. lia.
    - unfold countInstsThread. rewrite El. cbn. lia.
    - cbn. pose proof (rc_bound _ Hc). lia. }
  split; [eapply rob_counts_same, Hc1; done|]. cbn. rewrite Hn.
  eapply (threads_below_modifyM _ _ _ _ _) in E6; [exact E6|by intros ? ? [= <-]|].
  eapply (threads_below_modifyM _ _ _ _ _) in E5; [exact E5| |done].
  unfold clearInROB. intros ? ? Hx. by inv_ok Hx.
Qed.

(** ** Every reachable state *)

Lemma initial_counts (x : Machine M) : initial x → rob_counts (rob x).
Proof.
  intros (po & en & wi & th & ts & ac & Hen & Hnew & _).
  assert (threadEntries (rob x) = (λ t, if (t <? th)%nat then 0 else 0) ∧
    instList (rob x) = (λ _, []) ∧ numInstsInROB (rob x) = 0 ∧ numEntries (rob x) = en)
    as (Hte & Hl & Hn & He).
  { unfold newROB in Hnew. repeat case_match; inversion Hnew; done. }
  split; [intros t|..|by intros; rewrite Hl|lia].
  - unfold countInstsThread. rewrite Hte, Hl. by destruct (_ <? _)%nat.
  - rewrite Hn. unfold countInsts, countInstsThread. rewrite Hl.
    induction (seq 0 (numThreads (rob x))) as [|t l IH]; [done|]. exact IH.
Qed.

Definition counts_inv (x : Machine M) : Prop :=
  rob_counts (rob x) ∧ threads_below (numThreads (rob x)) (insts x).

Lemma step_counts (x y : Machine M) : step cfg x y → counts_inv x → counts_inv y.
Proof.
  unfold counts_inv. intros Hs [Hc Ht].
  destruct Hs as [? ? ? ? ? ? ? Hn Hlt|? ? ? p i ? ? Hi Hf Hins|? ? ? p i i' Hi Hop
    |? ? ? ? ? Hu|? ? ? ? ? ? ? Hq|? ? ? ? ? ? Hq|? ? ? ? ? ? ? Hret];
    cbn [rob insts] in *.
  - split; [done|]. by apply map_Forall_insert_2.
  - pose proof (Ht p i Hi : (threadNumber i < numThreads r)%nat) as Hti.
    destruct (insertInst_counts _ _ _ _ _ _ _ Hins Hi Hti Hc) as [Hc' Hn]. split; [done|].
    rewrite Hn. destruct (insertInst_entered _ _ _ _ _ _ _ Hins Hi) as (i' & -> & He).
    eapply threads_below_insert; [done|by apply ent_thread|done].
  - split; [done|]. eapply threads_below_insert; [done| |done].
    by apply calm_thread, pipeline_op_calm with cfg.
  - split; [done|]. by eapply updateSafeStatus_threads.
  - pose proof (squash_same _ _ _ _ _ _ Hq) as Hsm. apply squash_calm in Hq as (? & ? & _).
    split; [by eapply rob_counts_same|]. rewrite (sm_threads _ _ Hsm). by eapply threads_below_calm.
  - pose proof (doSquash_same _ _ _ _ _ Hq) as Hsm. apply doSquash_calm in Hq as (? & ? & _).
    split; [by eapply rob_counts_same|]. rewrite (sm_threads _ _ Hsm). by eapply threads_below_calm.
  - by eapply retireHead_counts.
Qed.

Lemma reachable_counts (x : Machine M) : reachable cfg x → counts_inv x.
Proof.
  intros (x0 & H0 & Hr).
  assert (counts_inv x0) as Hi.
  { split; [by apply initial_counts|].
    destruct H0 as (? & ? & ? & ? & ? & ? & ? & ? & ->). apply map_Forall_empty. }
  clear H0. induction Hr as [|x y z Hs _ IH]; [done|]. by apply IH, (step_counts x y).
Qed.
End retire.

(** The instructions thread [t] has in the buffer. *)
Definition occupancy (r : ROB) (t : ThreadID) : Z := Z.of_nat (length (instList r t)).

(** ** Theorems *)

(** in every reachable state, in every mode, the occupancy counters are the
    lengths of the lists they summarise, the buffer is never over its capacity,
    and [numFreeEntries] is the true number of free entries: the unsigned
    subtraction does not wrap. *)
Theorem counters_exact {M} `{MemSystem M} cfg (x : Machine M) :
  reachable cfg x → numEntries (rob x) < 2 ^ 32 →
  (∀ t, threadEntries (rob x) t = occupancy (rob x) t) ∧
  numInstsInROB (rob x) = countInsts (rob x) ∧
  numInstsInROB (rob x) <= numEntries (rob x) ∧
  numFreeEntries (rob x) = numEntries (rob x) - countInsts (rob x).
Proof.
  intros Hx Hlt. destruct (reachable_counts cfg x Hx) as [[Hth Htot Hout Hb] _].
  split_and!; [done..|]. unfold numFreeEntries, wrap. rewrite Htot in *.
  rewrite Z.mod_small; [done|]. split; [lia|].
  assert (0 <= countInsts (rob x)); [|lia]. unfold countInsts.
  generalize (seq 0 (numThreads (rob x))) as l. induction l as [|t l IH]; [done|].
  cbn [fold_left]. rewrite fold_sum. unfold countInstsThread at 1. lia.
Qed.

Lemma counters_exact_witness :
  (∀ t, threadEntries (rob SpecExample.machine) t = occupancy (rob SpecExample.machine) t) ∧
  numInstsInROB (rob SpecExample.machine) = countInsts (rob SpecExample.machine) ∧
  numInstsInROB (rob SpecExample.machine) <= numEntries (rob SpecExample.machine) ∧
  numFreeEntries (rob SpecExample.machine)
  = numEntries (rob SpecExample.machine) - countInsts (rob SpecExample.machine).
Proof.
  apply (counters_exact RobExample.mode1);
    [apply SpecExample.machine_reachable|vm_compute; reflexivity].
Defined.
