(* ===== verification/StoreSet.v ===== *)
(** * The store set predictor

    [StoreSet] ([cpu/o3/store_set.hh], [cpu/o3/store_set.cc]): after a
    memory-order violation the load and the store are put into one store set,
    and later loads of the set wait for the last store fetched into it.

    [storeList] is a [std::map] ordered youngest first ([ltseqnum]); its
    [begin()] is the head of the list. *)

From S2P Require Import Prelude Config DynInst.

Local Open Scope Z_scope.

Record StoreSet := mkStoreSet {
  SSIT : list Z;
  validSSIT : list bool;
  LFST : list InstSeqNum;
  validLFST : list bool;
  storeList : list (InstSeqNum * Z);
  clearPeriod : Z;
  SSITSize : Z;
  LFSTSize : Z;
  indexMask : Z;
  offsetBits : Z;
  memOpsPred : Z;
}.

Definition set_SSIT (v : list Z) (d : StoreSet) : StoreSet :=
  mkStoreSet v (validSSIT d) (LFST d) (validLFST d) (storeList d) (clearPeriod d)
    (SSITSize d) (LFSTSize d) (indexMask d) (offsetBits d) (memOpsPred d).
Definition set_validSSIT (v : list bool) (d : StoreSet) : StoreSet :=
  mkStoreSet (SSIT d) v (LFST d) (validLFST d) (storeList d) (clearPeriod d)
    (SSITSize d) (LFSTSize d) (indexMask d) (offsetBits d) (memOpsPred d).
Definition set_LFST (v : list InstSeqNum) (d : StoreSet) : StoreSet :=
  mkStoreSet (SSIT d) (validSSIT d) v (validLFST d) (storeList d) (clearPeriod d)
    (SSITSize d) (LFSTSize d) (indexMask d) (offsetBits d) (memOpsPred d).
Definition set_validLFST (v : list bool) (d : StoreSet) : StoreSet :=
  mkStoreSet (SSIT d) (validSSIT d) (LFST d) v (storeList d) (clearPeriod d)
    (SSITSize d) (LFSTSize d) (indexMask d) (offsetBits d) (memOpsPred d).
Definition set_storeList (v : list (InstSeqNum * Z)) (d : StoreSet) : StoreSet :=
  mkStoreSet (SSIT d) (validSSIT d) (LFST d) (validLFST d) v (clearPeriod d)
    (SSITSize d) (LFSTSize d) (indexMask d) (offsetBits d) (memOpsPred d).
Definition set_memOpsPred (v : Z) (d : StoreSet) : StoreSet :=
  mkStoreSet (SSIT d) (validSSIT d) (LFST d) (validLFST d) (storeList d) (clearPeriod d)
    (SSITSize d) (LFSTSize d) (indexMask d) (offsetBits d) v.

(** [isPowerOf2] ([base/intmath.hh]). *)
Definition isPowerOf2 (n : Z) : bool := negb (n =? 0) && (Z.land n (n - 1) =? 0).

(** The constructor; [fatal] ends the simulation. *)
Definition newStoreSet (clear_period ssit lfst : Z) : outcome StoreSet :=
  if negb (isPowerOf2 ssit) then Err (PanicCall "Invalid SSIT size!") else
  if negb (isPowerOf2 lfst) then Err (PanicCall "Invalid LFST size!") else
  Ok (mkStoreSet (replicate (Z.to_nat ssit) 0) (replicate (Z.to_nat ssit) false)
        (replicate (Z.to_nat lfst) 0) (replicate (Z.to_nat lfst) false) []
        clear_period ssit lfst (ssit - 1) 2 0).

(** [init]: resizes a predictor; [std::vector::resize] keeps what fits. *)
Definition initStoreSet (clear_period ssit lfst : Z) (d : StoreSet) : StoreSet :=
  mkStoreSet (resize (Z.to_nat ssit) 0 (SSIT d)) (replicate (Z.to_nat ssit) false)
    (replicate (Z.to_nat lfst) 0) (replicate (Z.to_nat lfst) false) (storeList d)
    clear_period ssit lfst (ssit - 1) 2 0.

Definition calcIndex (d : StoreSet) (PC : Addr) : Z :=
  Z.land (Z.shiftr PC (offsetBits d)) (indexMask d).
Definition calcSSID (d : StoreSet) (PC : Addr) : Z :=
  Z.lxor PC (Z.shiftr PC 10) mod LFSTSize d.

Definition violation (store_PC load_PC : Addr) (d : StoreSet) : outcome StoreSet :=
  let load_index := calcIndex d load_PC in
  let store_index := calcIndex d store_PC in
  assert! (load_index <? SSITSize d) && (store_index <? SSITSize d)
    as "violation: load_index < SSITSize && store_index < SSITSize" in
  let! valid_load := vec_get "validSSIT" (validSSIT d) load_index in
  let! valid_store := vec_get "validSSIT" (validSSIT d) store_index in
  match valid_load, valid_store with
  | false, false =>
      let new_set := calcSSID d load_PC in
      let! v := vec_set "validSSIT" (validSSIT d) load_index true in
      let! t := vec_set "SSIT" (SSIT d) load_index new_set in
      let! v := vec_set "validSSIT" v store_index true in
      let! t := vec_set "SSIT" t store_index new_set in
      assert! new_set <? LFSTSize d as "violation: new_set < LFSTSize" in
      Ok (set_SSIT t (set_validSSIT v d))
  | true, false =>
      let! load_SSID := vec_get "SSIT" (SSIT d) load_index in
      let! v := vec_set "validSSIT" (validSSIT d) store_index true in
      let! t := vec_set "SSIT" (SSIT d) store_index load_SSID in
      assert! load_SSID <? LFSTSize d as "violation: load_SSID < LFSTSize" in
      Ok (set_SSIT t (set_validSSIT v d))
  | false, true =>
      let! store_SSID := vec_get "SSIT" (SSIT d) store_index in
      let! v := vec_set "validSSIT" (validSSIT d) load_index true in
      let! t := vec_set "SSIT" (SSIT d) load_index store_SSID in
      Ok (set_SSIT t (set_validSSIT v d))
  | true, true =>
      let! load_SSID := vec_get "SSIT" (SSIT d) load_index in
      let! store_SSID := vec_get "SSIT" (SSIT d) store_index in
      assert! (load_SSID <? LFSTSize d) && (store_SSID <? LFSTSize d)
        as "violation: load_SSID < LFSTSize && store_SSID < LFSTSize" in
      let! t := if load_SSID <? store_SSID
                then vec_set "SSIT" (SSIT d) store_index load_SSID
                else vec_set "SSIT" (SSIT d) load_index store_SSID in
      Ok (set_SSIT t d)
  end.

Definition clear (d : StoreSet) : StoreSet :=
  set_storeList []
    (set_validLFST (replicate (Z.to_nat (LFSTSize d)) false)
       (set_validSSIT (replicate (Z.to_nat (SSITSize d)) false) d)).

Definition checkClear (d : StoreSet) : StoreSet :=
  let d := set_memOpsPred (memOpsPred d + 1) d in
  if clearPeriod d <? memOpsPred d then clear (set_memOpsPred 0 d) else d.

Definition insertLoad (load_PC : Addr) (load_seq_num : InstSeqNum) (d : StoreSet)
  : StoreSet := checkClear d.

(** [storeList[k] = v] in an ordered map. *)
Fixpoint map_put (k : InstSeqNum) (v : Z) (l : list (InstSeqNum * Z))
  : list (InstSeqNum * Z) :=
  match l with
  | [] => [(k, v)]
  | (k', v') :: l' =>
      if k' <? k then (k, v) :: l
      else if k' =? k then (k, v) :: l' else (k', v') :: map_put k v l'
  end.

Definition map_erase (k : InstSeqNum) (l : list (InstSeqNum * Z))
  : list (InstSeqNum * Z) := filter (λ e, e.1 ≠ k) l.

Definition insertStore (store_PC : Addr) (store_seq_num : InstSeqNum) (tid : ThreadID)
    (d : StoreSet) : outcome StoreSet :=
  let index := calcIndex d store_PC in
  let d := checkClear d in
  assert! index <? SSITSize d as "insertStore: index < SSITSize" in
  let! valid := vec_get "validSSIT" (validSSIT d) index in
  if negb valid then Ok d else
  let! store_SSID := vec_get "SSIT" (SSIT d) index in
  assert! store_SSID <? LFSTSize d as "insertStore: store_SSID < LFSTSize" in
  let! l := vec_set "LFST" (LFST d) store_SSID store_seq_num in
  let! v := vec_set "validLFST" (validLFST d) store_SSID true in
  Ok (set_storeList (map_put store_seq_num store_SSID (storeList d))
        (set_validLFST v (set_LFST l d))).

Definition checkInst (PC : Addr) (d : StoreSet) : outcome InstSeqNum :=
  let index := calcIndex d PC in
  assert! index <? SSITSize d as "checkInst: index < SSITSize" in
  let! valid := vec_get "validSSIT" (validSSIT d) index in
  if negb valid then Ok 0 else
  let! inst_SSID := vec_get "SSIT" (SSIT d) index in
  assert! inst_SSID <? LFSTSize d as "checkInst: inst_SSID < LFSTSize" in
  let! vl := vec_get "validLFST" (validLFST d) inst_SSID in
  if negb vl then Ok 0 else vec_get "LFST" (LFST d) inst_SSID.

Definition issued (issued_PC : Addr) (issued_seq_num : InstSeqNum) (is_store : bool)
    (d : StoreSet) : outcome StoreSet :=
  if negb is_store then Ok d else
  let index := calcIndex d issued_PC in
  assert! index <? SSITSize d as "issued: index < SSITSize" in
  let d := set_storeList (map_erase issued_seq_num (storeList d)) d in
  let! valid := vec_get "validSSIT" (validSSIT d) index in
  if negb valid then Ok d else
  let! store_SSID := vec_get "SSIT" (SSIT d) index in
  assert! store_SSID <? LFSTSize d as "issued: store_SSID < LFSTSize" in
  let! vl := vec_get "validLFST" (validLFST d) store_SSID in
  let! last := vec_get "LFST" (LFST d) store_SSID in
  if vl && (last =? issued_seq_num)
  then let! v := vec_set "validLFST" (validLFST d) store_SSID false in
       Ok (set_validLFST v d)
  else Ok d.

(** The loop of [squash]: the iterator stays at [begin()] throughout.  [None]
    when [fuel] iterations do not end it; the source loops for ever when an
    entry is younger than the squash point and the last store of its set is
    not. *)
Fixpoint squashFrom (fuel : nat) (squashed_num : InstSeqNum) (d : StoreSet)
  : outcome (option StoreSet) :=
  match fuel with
  | O => Ok None
  | S fuel' =>
      match storeList d with
      | [] => Ok (Some d)
      | (sn, idx) :: rest =>
          if sn <=? squashed_num then Ok (Some d) else
          let! last := vec_get "LFST" (LFST d) idx in
          let! vl := vec_get "validLFST" (validLFST d) idx in
          let younger := squashed_num <? last in
          if vl && younger then
            let! v := vec_set "validLFST" (validLFST d) idx false in
            squashFrom fuel' squashed_num (set_storeList rest (set_validLFST v d))
          else if negb vl && younger then
            squashFrom fuel' squashed_num (set_storeList rest d)
          else squashFrom fuel' squashed_num d
      end
  end.

(** One iteration more than there are entries. *)
Definition squashStoreSet (squashed_num : InstSeqNum) (d : StoreSet)
  : outcome (option StoreSet) :=
  squashFrom (S (length (storeList d))) squashed_num d.

(** ** Well-formed predictors *)

(** Table sizes, masks and table contents. *)
Record tables_ok (d : StoreSet) : Prop := {
  tab_pow : ∃ n, 0 <= n ∧ SSITSize d = 2 ^ n;
  tab_mask : indexMask d = SSITSize d - 1;
  tab_lfst_pos : 0 < LFSTSize d;
  tab_ssit : Z.of_nat (length (SSIT d)) = SSITSize d;
  tab_vssit : Z.of_nat (length (validSSIT d)) = SSITSize d;
  tab_lfst : Z.of_nat (length (LFST d)) = LFSTSize d;
  tab_vlfst : Z.of_nat (length (validLFST d)) = LFSTSize d;
  tab_ids : Forall (λ x, 0 <= x < LFSTSize d) (SSIT d);
}.

(** Pending stores are ordered youngest first, and the last fetched store of
    each pending store's set is at least as young. *)
Record list_ok (d : StoreSet) : Prop := {
  lst_sorted : StronglySorted (λ e e', e'.1 < e.1) (storeList d);
  lst_last : Forall (λ e, 0 <= e.2 < LFSTSize d ∧
      ∃ last, LFST d !! Z.to_nat e.2 = Some last ∧ e.1 <= last) (storeList d);
}.

Definition store_set_ok (d : StoreSet) : Prop := tables_ok d ∧ list_ok d.

(** [sn] is younger than every store fetched so far. *)
Definition youngest (sn : InstSeqNum) (d : StoreSet) : Prop := Forall (λ v, v < sn) (LFST d).

Section tables.
Context (d : StoreSet).
Hypothesis tables : tables_ok d.

Lemma calcIndex_bound PC : 0 <= calcIndex d PC < SSITSize d.
Proof.
  destruct tables as [(n & Hn & Hs) Hm _ _ _ _ _ _]. unfold calcIndex.
  rewrite Hm, Hs. replace (2 ^ n - 1) with (Z.ones n) by (rewrite Z.ones_equiv; lia).
  rewrite Z.land_ones by done. apply Z.mod_pos_bound. lia.
Qed.

Lemma calcSSID_bound PC : 0 <= calcSSID d PC < LFSTSize d.
Proof. unfold calcSSID. apply Z.mod_pos_bound, tables. Qed.

Lemma get_validSSIT PC : ∃ b, vec_get "validSSIT" (validSSIT d) (calcIndex d PC) = Ok b.
Proof. apply vec_get_total. rewrite tab_vssit by done. apply calcIndex_bound. Qed.

Lemma get_SSIT PC :
  ∃ x, vec_get "SSIT" (SSIT d) (calcIndex d PC) = Ok x ∧ 0 <= x < LFSTSize d.
Proof.
  destruct (vec_get_total "SSIT" (SSIT d) (calcIndex d PC)) as [x Hx].
  { rewrite tab_ssit by done. apply calcIndex_bound. }
  exists x. split; [done|]. apply vec_get_Ok in Hx as [_ Hx].
  by eapply Forall_lookup_1 in Hx; [|apply tables].
Qed.

Lemma get_validLFST i :
  0 <= i < LFSTSize d → ∃ b, vec_get "validLFST" (validLFST d) i = Ok b.
Proof. intros. apply vec_get_total. by rewrite tab_vlfst. Qed.

Lemma get_LFST i : 0 <= i < LFSTSize d → ∃ x, vec_get "LFST" (LFST d) i = Ok x.
Proof. intros. apply vec_get_total. by rewrite tab_lfst. Qed.
End tables.

(** Writing within range keeps the tables well formed. *)
Lemma tables_ok_SSIT d PC x t v :
  tables_ok d → 0 <= x < LFSTSize d →
  vec_set "SSIT" (SSIT d) (calcIndex d PC) x = Ok t → length v = length (validSSIT d) →
  tables_ok (set_SSIT t (set_validSSIT v d)).
Proof.
  intros Hd Hx [_ ->]%vec_set_Ok Hv. pose proof Hd as [? ? ? Hs Hvs ? ? Hids].
  split; cbn; rewrite ?length_insert, ?Hv; auto. by apply Forall_insert.
Qed.

Lemma vec_set_length {A} w (v : list A) i a v' : vec_set w v i a = Ok v' → length v' = length v.
Proof. intros [_ ->]%vec_set_Ok. apply length_insert. Qed.

Lemma vec_set_ex {A} w (v : list A) i a n :
  Z.of_nat (length v) = n → 0 <= i < n → ∃ v', vec_set w v i a = Ok v'.
Proof. intros Hn Hi. eexists. apply vec_set_total. lia. Qed.

Lemma violation_spec store_PC load_PC d :
  tables_ok d →
  ∃ t v x, violation store_PC load_PC d = Ok (set_SSIT t (set_validSSIT v d)) ∧
    tables_ok (set_SSIT t (set_validSSIT v d)) ∧ 0 <= x < LFSTSize d ∧
    vec_get "validSSIT" v (calcIndex d load_PC) = Ok true ∧
    vec_get "validSSIT" v (calcIndex d store_PC) = Ok true ∧
    vec_get "SSIT" t (calcIndex d load_PC) = Ok x ∧
    vec_get "SSIT" t (calcIndex d store_PC) = Ok x.
Proof.
  intros Hd. unfold violation.
  pose proof (calcIndex_bound d Hd load_PC) as Hl. pose proof (calcIndex_bound d Hd store_PC) as Hs.
  rewrite (proj2 (Z.ltb_lt _ _) (proj2 Hl)), (proj2 (Z.ltb_lt _ _) (proj2 Hs)). cbn [andb].
  destruct (get_validSSIT d Hd load_PC) as [vl Evl]. destruct (get_validSSIT d Hd store_PC) as [vs Evs].
  destruct (get_SSIT d Hd load_PC) as (ld & El & Hld). destruct (get_SSIT d Hd store_PC) as (st & Es & Hst).
  rewrite Evl, Evs.
  set (li := calcIndex d load_PC) in *. set (si := calcIndex d store_PC) in *.
  pose proof (tab_vssit _ Hd) as Lv. pose proof (tab_ssit _ Hd) as Lt.
  destruct vl, vs.
  - rewrite El, Es. rewrite (proj2 (Z.ltb_lt _ _) (proj2 Hld)), (proj2 (Z.ltb_lt _ _) (proj2 Hst)).
    cbn [andb]. destruct (Z.ltb_spec ld st).
    + destruct (vec_set_ex "SSIT" (SSIT d) si ld _ Lt Hs) as [t Et]. rewrite Et.
      exists t, (validSSIT d), ld. split_and!; try done; try lia.
      * by apply (tables_ok_SSIT d store_PC ld).
      * rewrite (vec_get_set _ _ _ _ _ _ Et). by destruct (_ =? _).
      * rewrite (vec_get_set _ _ _ _ _ _ Et). by rewrite Z.eqb_refl.
    + destruct (vec_set_ex "SSIT" (SSIT d) li st _ Lt Hl) as [t Et]. rewrite Et.
      exists t, (validSSIT d), st. split_and!; try done; try lia.
      * by apply (tables_ok_SSIT d load_PC st).
      * rewrite (vec_get_set _ _ _ _ _ _ Et). by rewrite Z.eqb_refl.
      * rewrite (vec_get_set _ _ _ _ _ _ Et). by destruct (_ =? _).
  - rewrite El. destruct (vec_set_ex "validSSIT" (validSSIT d) si true _ Lv Hs) as [v Ev]. rewrite Ev.
    destruct (vec_set_ex "SSIT" (SSIT d) si ld _ Lt Hs) as [t Et]. rewrite Et.
    rewrite (proj2 (Z.ltb_lt _ _) (proj2 Hld)).
    exists t, v, ld. rewrite !(vec_get_set _ _ _ _ _ _ Et), !(vec_get_set _ _ _ _ _ _ Ev), !Z.eqb_refl.
    split_and!; try lia; try done; try (by destruct (_ =? _)).
    apply (tables_ok_SSIT d store_PC ld); eauto using vec_set_length.
  - rewrite Es. destruct (vec_set_ex "validSSIT" (validSSIT d) li true _ Lv Hl) as [v Ev]. rewrite Ev.
    destruct (vec_set_ex "SSIT" (SSIT d) li st _ Lt Hl) as [t Et]. rewrite Et.
    exists t, v, st. rewrite !(vec_get_set _ _ _ _ _ _ Et), !(vec_get_set _ _ _ _ _ _ Ev), !Z.eqb_refl.
    split_and!; try lia; try done; try (by destruct (_ =? _)).
    apply (tables_ok_SSIT d load_PC st); eauto using vec_set_length.
  - pose proof (calcSSID_bound d Hd load_PC) as Hn. set (n := calcSSID d load_PC) in *.
    destruct (vec_set_ex "validSSIT" (validSSIT d) li true _ Lv Hl) as [v Ev]. rewrite Ev.
    destruct (vec_set_ex "SSIT" (SSIT d) li n _ Lt Hl) as [t Et]. rewrite Et.
    pose proof (vec_set_length _ _ _ _ _ Ev) as Lv'. pose proof (vec_set_length _ _ _ _ _ Et) as Lt'.
    rewrite <-Lv' in Lv. rewrite <-Lt' in Lt.
    destruct (vec_set_ex "validSSIT" v si true _ Lv Hs) as [v2 Ev2]. rewrite Ev2.
    destruct (vec_set_ex "SSIT" t si n _ Lt Hs) as [t2 Et2]. rewrite Et2.
    rewrite (proj2 (Z.ltb_lt _ _) (proj2 Hn)).
    exists t2, v2, n. rewrite !(vec_get_set _ _ _ _ _ _ Et2), !(vec_get_set _ _ _ _ _ _ Ev2),
      !(vec_get_set _ _ _ _ _ _ Et), !(vec_get_set _ _ _ _ _ _ Ev), !Z.eqb_refl.
    split_and!; try lia; try done; try (by destruct (_ =? _)).
    assert (tables_ok (set_SSIT t (set_validSSIT v d))) as Hd1
      by by apply (tables_ok_SSIT d load_PC n).
    apply (tables_ok_SSIT _ store_PC n t2 v2 Hd1 Hn Et2).
    by rewrite (vec_set_length _ _ _ _ _ Ev2).
Qed.

Lemma clear_ok d : tables_ok d → store_set_ok (clear d).
Proof.
  intros [? ? ? ? ? ? ? ?]. split; split; cbn; rewrite ?length_replicate; auto;
    try constructor; lia.
Qed.

Lemma checkClear_ok d : store_set_ok d → store_set_ok (checkClear d).
Proof.
  intros [[] []]. unfold checkClear. destruct (_ <? _); [|by split; split].
  by apply clear_ok.
Qed.

Lemma checkClear_frame d PC :
  calcIndex (checkClear d) PC = calcIndex d PC ∧ LFST (checkClear d) = LFST d.
Proof. unfold checkClear. by destruct (_ <? _). Qed.

Lemma map_put_head k v l :
  Forall (λ e : Z * Z, e.1 < k) l → map_put k v l = (k, v) :: l.
Proof.
  destruct 1 as [|[k' v'] l Hk _]; [done|]. cbn in *. by rewrite (proj2 (Z.ltb_lt _ _) Hk).
Qed.

(** Pending stores are older than the youngest one. *)
Lemma list_ok_older d sn : list_ok d → youngest sn d → Forall (λ e, e.1 < sn) (storeList d).
Proof.
  intros [_ Hl] Hy. eapply Forall_impl; [exact Hl|]. intros [k i] (_ & last & Hlast & Hle).
  cbn in *. eapply Forall_lookup_1 in Hy; [|done]. cbn in *. lia.
Qed.

(** The outcome of [insertStore]: recorded in the store's set, if it has one. *)
Lemma insertStore_spec PC sn tid d0 :
  store_set_ok d0 → youngest sn d0 →
  let d := checkClear d0 in
  ∃ d', insertStore PC sn tid d0 = Ok d' ∧ store_set_ok d' ∧
    SSIT d' = SSIT d ∧ validSSIT d' = validSSIT d ∧
    (vec_get "validSSIT" (validSSIT d) (calcIndex d PC) = Ok false → d' = d) ∧
    (vec_get "validSSIT" (validSSIT d) (calcIndex d PC) = Ok true → ∀ x,
       vec_get "SSIT" (SSIT d) (calcIndex d PC) = Ok x →
       vec_get "LFST" (LFST d') x = Ok sn ∧ vec_get "validLFST" (validLFST d') x = Ok true ∧
       storeList d' = (sn, x) :: storeList d).
Proof.
  intros Hok Hy d. unfold insertStore.
  destruct (checkClear_frame d0 PC) as [Hidx HL]. fold d in Hidx, HL |- *. rewrite <-Hidx.
  assert (store_set_ok d) as [Ht Hl] by by apply checkClear_ok.
  rewrite (proj2 (Z.ltb_lt _ _) (proj2 (calcIndex_bound d Ht PC))).
  destruct (get_validSSIT d Ht PC) as [b Eb]. rewrite Eb.
  destruct b; cbn [negb]; [|exists d; by split_and!].
  destruct (get_SSIT d Ht PC) as (x & Ex & Hx). rewrite Ex.
  rewrite (proj2 (Z.ltb_lt _ _) (proj2 Hx)).
  destruct (vec_set_ex "LFST" (LFST d) x sn _ (tab_lfst _ Ht) Hx) as [lf Elf]. rewrite Elf.
  destruct (vec_set_ex "validLFST" (validLFST d) x true _ (tab_vlfst _ Ht) Hx) as [vl Evl]. rewrite Evl.
  assert (youngest sn d) as Hyd by (unfold youngest; by rewrite HL).
  pose proof (list_ok_older d sn Hl Hyd) as Hold.
  eexists. split; [reflexivity|]. cbn. rewrite map_put_head by done. split_and!; try done.
  - pose proof Elf as [_ ->]%vec_set_Ok. pose proof Evl as [_ ->]%vec_set_Ok.
    destruct Ht, Hl as [Hs Hla]. split; split; cbn; rewrite ?length_insert; auto.
    + constructor; [done|]. eapply Forall_impl; [exact Hold|]. done.
    + constructor.
      * split; [done|]. exists sn. rewrite list_lookup_insert_eq by lia. split; [done|]. cbn. lia.
      * eapply Forall_impl; [exact Hla|]. intros [k i] (Hi & last & Hlast & Hle). split; [done|].
        cbn in *. destruct (decide (i = x)) as [->|Hne].
        -- exists sn. rewrite list_lookup_insert_eq by lia. split; [done|].
           eapply Forall_lookup_1 in Hyd; [|exact Hlast]. cbn in *. lia.
        -- exists last. rewrite list_lookup_insert_ne by lia. done.
  - intros _ y Hy'. assert (y = x) as -> by congruence.
    rewrite (vec_get_set _ _ _ _ _ _ Elf), (vec_get_set _ _ _ _ _ _ Evl), Z.eqb_refl. done.
Qed.

Lemma issued_spec PC sn is_store d :
  store_set_ok d →
  ∃ d', issued PC sn is_store d = Ok d' ∧ store_set_ok d' ∧
    SSIT d' = SSIT d ∧ validSSIT d' = validSSIT d ∧ LFST d' = LFST d ∧
    LFSTSize d' = LFSTSize d ∧ (∀ PC', calcIndex d' PC' = calcIndex d PC') ∧
    (is_store = true → ∀ x,
       vec_get "validSSIT" (validSSIT d) (calcIndex d PC) = Ok true →
       vec_get "SSIT" (SSIT d) (calcIndex d PC) = Ok x →
       vec_get "LFST" (LFST d) x = Ok sn →
       vec_get "validLFST" (validLFST d') x = Ok false).
Proof.
  intros [Ht Hl]. unfold issued. destruct is_store; cbn [negb]; [|exists d; by split_and!].
  rewrite (proj2 (Z.ltb_lt _ _) (proj2 (calcIndex_bound d Ht PC))).
  set (d1 := set_storeList _ d).
  assert (store_set_ok d1) as Hok1.
  { destruct Ht, Hl as [Hs Hla]. split; split; cbn; auto.
    - by apply StronglySorted_filter.
    - unfold map_erase. rewrite Forall_forall in *. intros e [_ He]%list_elem_of_filter. auto. }
  assert (Htd1 : tables_ok d1) by apply Hok1.
  change (calcIndex d PC) with (calcIndex d1 PC).
  destruct (get_validSSIT d1 Htd1 PC) as [b Eb]. rewrite Eb.
  destruct b; cbn [negb]; [|exists d1; split_and!; try done; intros; by change (validSSIT d) with (validSSIT d1) in *; congruence].
  destruct (get_SSIT d1 Htd1 PC) as (x & Ex & Hx). rewrite Ex.
  rewrite (proj2 (Z.ltb_lt _ _) (proj2 Hx)).
  destruct (get_validLFST d1 Htd1 x Hx) as [vl Evl]. rewrite Evl.
  destruct (get_LFST d1 Htd1 x Hx) as [last Elast]. rewrite Elast.
  destruct (vl && (last =? sn)) eqn:Ec.
  - destruct (vec_set_ex "validLFST" (validLFST d1) x false _ (tab_vlfst _ Htd1) Hx) as [v Ev].
    rewrite Ev. eexists. split; [reflexivity|]. split_and!; try done.
    + destruct Hok1 as [[] []]. split; split; cbn; auto.
      rewrite (vec_set_length _ _ _ _ _ Ev). done.
    + intros _ y _ Hy _. change (SSIT d) with (SSIT d1) in Hy. assert (y = x) as -> by congruence.
      cbn. by rewrite (vec_get_set _ _ _ _ _ _ Ev), Z.eqb_refl.
  - exists d1. split_and!; try done. intros _ y _ Hy Hsn. change (SSIT d) with (SSIT d1) in Hy.
    assert (y = x) as -> by congruence. change (LFST d) with (LFST d1) in Hsn.
    assert (last = sn) as -> by congruence. rewrite Z.eqb_refl, andb_true_r in Ec. congruence.
Qed.

Lemma checkInst_total PC d : tables_ok d → is_ok (checkInst PC d) = true.
Proof.
  intros Ht. unfold checkInst.
  rewrite (proj2 (Z.ltb_lt _ _) (proj2 (calcIndex_bound d Ht PC))).
  destruct (get_validSSIT d Ht PC) as [b ->]. destruct b; [cbn [negb]|done].
  destruct (get_SSIT d Ht PC) as (x & -> & Hx). rewrite (proj2 (Z.ltb_lt _ _) (proj2 Hx)).
  destruct (get_validLFST d Ht x Hx) as [vl ->]. destruct vl; [cbn [negb]|done].
  by destruct (get_LFST d Ht x Hx) as [y ->].
Qed.

(** ** Squashing *)

(** The sets of the squashed stores lose their last fetched store. *)
Definition squashed_sets (num : InstSeqNum) (l : list (InstSeqNum * Z)) : list Z :=
  snd <$> filter (λ e, num < e.1) l.

Definition invalidate (ids : list Z) (v : list bool) : list bool :=
  imap (λ i b, b && negb (bool_decide (Z.of_nat i ∈ ids))) v.

Arguments invalidate : simpl never.
Arguments squashed_sets : simpl never.

Lemma invalidate_nil v : invalidate [] v = v.
Proof.
  apply list_eq. intros i. unfold invalidate. rewrite list_lookup_imap.
  destruct (v !! i); cbn; [|done]. f_equal.
  rewrite bool_decide_false by apply not_elem_of_nil. apply andb_true_r.
Qed.

Lemma invalidate_cons i ids v :
  0 <= i → invalidate ids (<[Z.to_nat i := false]> v) = invalidate (i :: ids) v.
Proof.
  intros Hi. apply list_eq. intros j. unfold invalidate. rewrite !list_lookup_imap.
  destruct (decide (Z.to_nat i = j)) as [<-|Hne].
  - destruct (v !! Z.to_nat i) as [b|] eqn:Eb.
    + rewrite list_lookup_insert_eq by by eapply lookup_lt_Some. cbn.
      rewrite (bool_decide_true (Z.of_nat (Z.to_nat i) ∈ i :: ids)) by (rewrite Z2Nat.id by done; left).
      by rewrite andb_false_r.
    + by rewrite list_insert_ge, Eb by by apply lookup_ge_None.
  - rewrite list_lookup_insert_ne by done. destruct (v !! j); [|done]. cbn. do 2 f_equal.
    f_equal. apply bool_decide_ext. rewrite elem_of_cons. split; [tauto|]. intros [|]; [lia|done].
Qed.

Lemma invalidate_false i ids v :
  0 <= i → v !! Z.to_nat i = Some false → invalidate ids v = invalidate (i :: ids) v.
Proof. intros Hi Hv. rewrite <-invalidate_cons by done. by rewrite list_insert_id. Qed.

Lemma squashFrom_spec num n : ∀ d,
  store_set_ok d → (length (storeList d) < n)%nat →
  squashFrom n num d = Ok (Some
    (set_storeList (filter (λ e, e.1 <= num) (storeList d))
       (set_validLFST (invalidate (squashed_sets num (storeList d)) (validLFST d)) d))).
Proof.
  induction n as [|n IH]; intros d Hok Hlen; [lia|]. cbn [squashFrom].
  destruct (storeList d) as [|[sn idx] rest] eqn:El.
  { rewrite filter_nil. unfold squashed_sets. rewrite filter_nil. cbn [fmap list_fmap].
    rewrite invalidate_nil, <-El. by destruct d. }
  pose proof Hok as [Ht [Hs Hla]]. rewrite El in Hs, Hla.
  apply StronglySorted_cons in Hs as [Hlt Hs].
  destruct (Z.leb_spec sn num) as [Hle|Hgt].
  { assert (Forall (λ e : Z * Z, e.1 <= num) ((sn, idx) :: rest)) as Hall.
    { constructor; [done|]. eapply Forall_impl; [exact Hlt|]. intros e He. cbn in *. lia. }
    rewrite filter_all by done. unfold squashed_sets.
    rewrite filter_none by (eapply Forall_impl; [exact Hall|]; intros; cbn in *; lia).
    cbn [fmap list_fmap]. rewrite invalidate_nil, <-El. by destruct d. }
  apply Forall_cons in Hla as [(Hidx & last & Elast & Hge) Hla']. cbn [fst snd] in *.
  assert (vec_get "LFST" (LFST d) idx = Ok last) as ->
    by (apply vec_get_Ok; split; [lia|done]).
  destruct (get_validLFST d Ht idx Hidx) as [vl Evl]. rewrite Evl.
  rewrite (proj2 (Z.ltb_lt num last)) by lia. rewrite !andb_true_r.
  unfold squashed_sets. rewrite filter_cons_False by (cbn; lia).
  rewrite filter_cons_True by done. cbn [fmap list_fmap snd]. fold (squashed_sets num rest).
  destruct vl; cbn [negb].
  - rewrite vec_set_total by (rewrite (tab_vlfst _ Ht); lia).
    rewrite IH; cbn; [|split; [destruct Ht; split; cbn; rewrite ?length_insert; auto|by split]|cbn in Hlen; lia].
    rewrite invalidate_cons by lia. done.
  - rewrite IH; cbn; [|split; [by destruct Ht|by split]|cbn in Hlen; lia].
    apply vec_get_Ok in Evl as [_ Evl]. rewrite (invalidate_false idx) by (lia || done). done.
Qed.

(** ** Theorems *)

(** A predictor with four sets, as the constructor and [violation] leave it. *)
Definition ex_store_set : StoreSet :=
  match newStoreSet 1000 16 4 with
  | Ok d => match violation 0x40 0x84 d with Ok d => d | Err _ => d end
  | Err _ => mkStoreSet [] [] [] [] [] 0 0 0 0 0 0
  end.

Lemma newStoreSet_ok n c lfst d :
  0 <= n → 0 < lfst → newStoreSet c (2 ^ n) lfst = Ok d → store_set_ok d.
Proof.
  intros Hn Hl H. unfold newStoreSet in H.
  destruct (negb (isPowerOf2 (2 ^ n))); [discriminate|].
  destruct (negb (isPowerOf2 lfst)); [discriminate|]. inv_ok H.
  assert (0 < 2 ^ n) by lia.
  split; split; cbn; rewrite ?length_replicate; eauto; try lia; try constructor.
  apply Forall_replicate. lia.
Qed.

Lemma ex_store_set_ok : store_set_ok ex_store_set.
Proof.
  unfold ex_store_set. destruct (newStoreSet 1000 16 4) as [d|] eqn:E; [|discriminate].
  assert (store_set_ok d) as [Ht Hl] by (by apply (newStoreSet_ok 4 1000 4)).
  destruct (violation_spec 0x40 0x84 d Ht) as (t & v & x & -> & Ht' & _).
  split; [done|]. by destruct Hl.
Qed.

(** a memory-order violation teaches the predictor the dependence: after
    [StoreSet::violation] the next dispatched store at [store_PC] is the one a
    load at [load_PC] is told to wait for, unless the periodic clearing falls
    in between. *)
Theorem violation_learned store_PC load_PC sn tid d :
  store_set_ok d → youngest sn d → memOpsPred d + 1 <= clearPeriod d →
  ∃ d1 d2, violation store_PC load_PC d = Ok d1 ∧
    insertStore store_PC sn tid d1 = Ok d2 ∧ checkInst load_PC d2 = Ok sn.
Proof.
  intros [Ht Hl] Hy Hm.
  destruct (violation_spec store_PC load_PC d Ht)
    as (t & v & x & Hv & Ht' & Hx & Hvl & Hvs & Htl & Hts).
  set (d1 := set_SSIT t (set_validSSIT v d)) in *.
  assert (store_set_ok d1) as Hok1 by (split; [done|by destruct Hl]).
  destruct (insertStore_spec store_PC sn tid d1 Hok1 Hy)
    as (d2 & Hi & [Ht2 _] & Hs2 & Hv2 & _ & Hlast).
  assert (checkClear d1 = set_memOpsPred (memOpsPred d + 1) d1) as Hc.
  { unfold checkClear. cbn. by rewrite (proj2 (Z.ltb_ge _ _) Hm). }
  rewrite Hc in *. destruct (Hlast Hvs x Hts) as (HL & HV & _).
  exists d1, d2. split_and!; [done..|]. unfold checkInst.
  rewrite (proj2 (Z.ltb_lt _ _) (proj2 (calcIndex_bound d2 Ht2 load_PC))).
  rewrite Hs2, Hv2.
  assert (calcIndex d2 load_PC = calcIndex d load_PC ∧ LFSTSize d2 = LFSTSize d) as [-> ->].
  { unfold insertStore in Hi. rewrite Hc in Hi.
    inv_ok1 Hi. inv_ok1 Hi. destruct (negb a); [by inv_ok Hi|]. by inv_ok Hi. }
  cbn [validSSIT SSIT set_memOpsPred d1 set_SSIT set_validSSIT]. rewrite Hvl. cbn [negb].
  rewrite Htl, (proj2 (Z.ltb_lt _ _) (proj2 Hx)), HV. by cbn [negb].
Qed.

Lemma violation_learned_witness :
  ∃ d1 d2, violation 0x48 0x9c ex_store_set = Ok d1 ∧
    insertStore 0x48 7 0 d1 = Ok d2 ∧ checkInst 0x9c d2 = Ok 7.
Proof.
  apply (violation_learned 0x48 0x9c 7 0 ex_store_set);
    [apply ex_store_set_ok|by_eval|vm_compute; discriminate].
Defined.

(** on a well-formed predictor [StoreSet::squash] terminates, although its
    loop erases nothing for an entry whose set was last used by an older store:
    the invariant rules that entry out.  It drops exactly the pending stores
    younger than the squash point and invalidates exactly their sets. *)
Theorem squash_terminates num d :
  store_set_ok d →
  squashStoreSet num d = Ok (Some
    (set_storeList (filter (λ e, e.1 <= num) (storeList d))
       (set_validLFST (invalidate (squashed_sets num (storeList d)) (validLFST d)) d))).
Proof. intros Hok. apply squashFrom_spec; [done|lia]. Qed.

Definition ex_pending : StoreSet :=
  match insertStore 0x40 5 0 ex_store_set with Ok d => d | Err _ => ex_store_set end.

Lemma ex_pending_ok : store_set_ok ex_pending.
Proof.
  destruct (insertStore_spec 0x40 5 0 ex_store_set ex_store_set_ok) as (d & Hd & Hok & _);
    [by_eval|]. unfold ex_pending. by rewrite Hd.
Qed.

Lemma squash_terminates_witness :
  storeList ex_pending ≠ [] ∧
  squashStoreSet 3 ex_pending = Ok (Some
    (set_storeList (filter (λ e, e.1 <= 3) (storeList ex_pending))
       (set_validLFST (invalidate (squashed_sets 3 (storeList ex_pending))
          (validLFST ex_pending)) ex_pending))).
Proof. split; [by_eval|]. apply squash_terminates, ex_pending_ok. Defined.

(** every operation of the predictor keeps it well formed and stays within
    its tables: no assertion fails and no index is out of range. *)
Theorem store_set_safe d PC PC' sn tid b :
  store_set_ok d → youngest sn d →
  is_ok (checkInst PC d) = true ∧
  (∃ d', violation PC PC' d = Ok d' ∧ store_set_ok d') ∧
  (∃ d', insertStore PC sn tid d = Ok d' ∧ store_set_ok d') ∧
  (∃ d', issued PC sn b d = Ok d' ∧ store_set_ok d') ∧
  (∃ d', squashStoreSet sn d = Ok (Some d') ∧ store_set_ok d').
Proof.
  intros Hok Hy. pose proof Hok as [Ht Hl]. split_and!.
  - by apply checkInst_total.
  - destruct (violation_spec PC PC' d Ht) as (t & v & x & -> & Ht' & _).
    eexists. split; [done|]. split; [done|by destruct Hl].
  - destruct (insertStore_spec PC sn tid d Hok Hy) as (d' & -> & ? & _). eauto.
  - destruct (issued_spec PC sn b d Hok) as (d' & -> & ? & _). eauto.
  - unfold squashStoreSet. rewrite (squashFrom_spec sn _ d Hok) by lia. eexists. split; [done|].
    destruct Ht, Hl as [Hs Hla]. split; split; cbn; auto.
    + unfold invalidate. by rewrite length_imap.
    + by apply StronglySorted_filter.
    + rewrite Forall_forall in *. intros e [_ He]%list_elem_of_filter. auto.
Qed.

Lemma store_set_safe_witness :
  is_ok (checkInst 0x40 ex_pending) = true ∧
  (∃ d', violation 0x40 0x84 ex_pending = Ok d' ∧ store_set_ok d') ∧
  (∃ d', insertStore 0x40 9 0 ex_pending = Ok d' ∧ store_set_ok d') ∧
  (∃ d', issued 0x40 9 true ex_pending = Ok d' ∧ store_set_ok d') ∧
  (∃ d', squashStoreSet 9 ex_pending = Ok (Some d') ∧ store_set_ok d').
Proof. apply store_set_safe; [apply ex_pending_ok|by_eval]. Defined.
