(* ===== verification/DepGraph.v ===== *)
(** * The register dependency graph

    [DependencyGraph] ([cpu/o3/dep_graph.hh]): per physical register the
    producing instruction and a linked list of the consumers that wait for it,
    newest first.  The instruction queue pops the list when the producer
    completes and unlinks squashed consumers. *)

From S2P Require Import Prelude Regs Config DynInst.

Local Open Scope Z_scope.

(** The head node of a chain: [inst] and the chain behind [next]. *)
Record DepEntry := mkDepEntry {
  dep_inst : option DynInstPtr;
  dep_next : list DynInstPtr;
}.

Record DependencyGraph := mkDependencyGraph {
  dependGraph : list DepEntry;
  memAllocCounter : Z; (** [unsigned] *)
}.

Definition dg_entry (g : DependencyGraph) (idx : Z) : outcome DepEntry :=
  vec_get "dependGraph" (dependGraph g) idx.

Definition dg_update (idx : Z) (e : DepEntry) (g : DependencyGraph)
  : outcome DependencyGraph :=
  let! l := vec_set "dependGraph" (dependGraph g) idx e in
  Ok (mkDependencyGraph l (memAllocCounter g)).

Definition dg_count (d : Z) (g : DependencyGraph) : DependencyGraph :=
  mkDependencyGraph (dependGraph g) (wrap 32 (memAllocCounter g + d)).

Definition dg_resize (num_entries : nat) : DependencyGraph :=
  mkDependencyGraph (replicate num_entries (mkDepEntry None [])) 0.

(** [reset]: frees every node of every chain, one decrement each. *)
Definition dg_reset (g : DependencyGraph) : DependencyGraph :=
  mkDependencyGraph (replicate (length (dependGraph g)) (mkDepEntry None []))
    (fold_left (λ c e, fold_left (λ c _, wrap 32 (c - 1)) (dep_next e) c)
       (dependGraph g) (memAllocCounter g)).

Definition dg_insert (idx : Z) (new_inst : DynInstPtr) (g : DependencyGraph)
  : outcome DependencyGraph :=
  let! e := dg_entry g idx in
  let! g := dg_update idx (mkDepEntry (dep_inst e) (new_inst :: dep_next e)) g in
  Ok (dg_count 1 g).

Definition dg_setInst (idx : Z) (new_inst : DynInstPtr) (g : DependencyGraph)
  : outcome DependencyGraph :=
  let! e := dg_entry g idx in
  dg_update idx (mkDepEntry (Some new_inst) (dep_next e)) g.

Definition dg_clearInst (idx : Z) (g : DependencyGraph) : outcome DependencyGraph :=
  let! e := dg_entry g idx in
  dg_update idx (mkDepEntry None (dep_next e)) g.

(** The walk of [remove] to the node of [p], asserting before the end. *)
Fixpoint unlink (p : DynInstPtr) (l : list DynInstPtr) : outcome (list DynInstPtr) :=
  match l with
  | [] => Err (Assertion "remove: curr != NULL")
  | q :: l' =>
      if q =? p then Ok l'
      else let! l' := unlink p l' in Ok (q :: l')
  end.

Definition dg_remove (idx : Z) (inst_to_remove : DynInstPtr) (g : DependencyGraph)
  : outcome DependencyGraph :=
  let! e := dg_entry g idx in
  match dep_next e with
  | [] => Ok g
  | l =>
      let! l' := unlink inst_to_remove l in
      let! g := dg_update idx (mkDepEntry (dep_inst e) l') g in
      Ok (dg_count (-1) g)
  end.

Definition dg_pop (idx : Z) (g : DependencyGraph)
  : outcome (option DynInstPtr * DependencyGraph) :=
  let! e := dg_entry g idx in
  match dep_next e with
  | [] => Ok (None, g)
  | p :: l =>
      let! g := dg_update idx (mkDepEntry (dep_inst e) l) g in
      Ok (Some p, dg_count (-1) g)
  end.

Definition dg_empty_at (idx : Z) (g : DependencyGraph) : outcome bool :=
  let! e := dg_entry g idx in
  Ok (bool_decide (dep_next e = [])).

Definition dg_empty (g : DependencyGraph) : bool :=
  forallb (λ e, bool_decide (dep_next e = [])) (dependGraph g).

(** ** What the operations do to the chains *)

(** The consumers waiting for register [idx], newest first. *)
Definition waiting (g : DependencyGraph) (idx : Z) : list DynInstPtr :=
  match dg_entry g idx with Ok e => dep_next e | Err _ => [] end.

(** [g'] differs from [g] in the chain of [idx], which is now [l]. *)
Definition chain_set (idx : Z) (l : list DynInstPtr) (g g' : DependencyGraph) : Prop :=
  length (dependGraph g') = length (dependGraph g) ∧
  ∀ j, waiting g' j = if j =? idx then l else waiting g j.

(** Every allocated node is in a chain and every node of a chain allocated. *)
Definition nodes (g : DependencyGraph) : nat :=
  sum_list_with (length ∘ dep_next) (dependGraph g).
Definition no_leak (g : DependencyGraph) : Prop :=
  memAllocCounter g = wrap 32 (Z.of_nat (nodes g)).

Lemma waiting_update idx e g g' :
  dg_update idx e g = Ok g' → chain_set idx (dep_next e) g g'.
Proof.
  unfold dg_update. intros H. inv_ok H. split; [apply vec_set_Ok in E as [_ ->]; apply length_insert|].
  intros j. unfold waiting, dg_entry. cbn. rewrite (vec_get_set _ _ _ _ _ _ E).
  by destruct (j =? idx).
Qed.

Lemma chain_set_count idx l g g' d : chain_set idx l g g' → chain_set idx l g (dg_count d g').
Proof. done. Qed.

Lemma sum_list_with_insert {A} (f : A → nat) (l : list A) i x y :
  l !! i = Some x → (sum_list_with f (<[i := y]> l) + f x = sum_list_with f l + f y)%nat.
Proof.
  revert i. induction l as [|z l IH]; intros [|i] H; try done.
  - injection H as ->. change (<[0%nat := y]> (x :: l)) with (y :: l). cbn [sum_list_with]. lia.
  - specialize (IH i H). change (<[S i := y]> (z :: l)) with (z :: <[i := y]> l).
    cbn [sum_list_with]. lia.
Qed.

Lemma nodes_update idx e e' g g' :
  dg_entry g idx = Ok e → dg_update idx e' g = Ok g' →
  (nodes g' + length (dep_next e) = nodes g + length (dep_next e'))%nat ∧
  memAllocCounter g' = memAllocCounter g.
Proof.
  unfold dg_entry, dg_update. intros He H. inv_ok H. split; [|done].
  apply vec_get_Ok in He as [_ He]. apply vec_set_Ok in E as [_ ->].
  exact (sum_list_with_insert (length ∘ dep_next) _ _ _ e' He).
Qed.

Lemma wrap_add_l w a b : wrap w (wrap w a + b) = wrap w (a + b).
Proof. unfold wrap. apply Zplus_mod_idemp_l. Qed.

Lemma dg_entry_total g idx :
  0 <= idx < Z.of_nat (length (dependGraph g)) → ∃ e, dg_entry g idx = Ok e ∧ waiting g idx = dep_next e.
Proof.
  intros Hi. destruct (vec_get_total "dependGraph" _ _ Hi) as [e He].
  exists e. split; [done|]. unfold waiting, dg_entry. by rewrite He.
Qed.

Lemma dg_update_total g idx e :
  0 <= idx < Z.of_nat (length (dependGraph g)) → ∃ g', dg_update idx e g = Ok g'.
Proof. intros Hi. unfold dg_update. rewrite vec_set_total by done. eauto. Qed.

(** Inserting puts the consumer at the front of the register's chain. *)
Lemma dg_insert_spec idx p g :
  0 <= idx < Z.of_nat (length (dependGraph g)) → no_leak g →
  ∃ g', dg_insert idx p g = Ok g' ∧ chain_set idx (p :: waiting g idx) g g' ∧ no_leak g'.
Proof.
  intros Hi Hn. destruct (dg_entry_total g idx Hi) as (e & He & Hw).
  destruct (dg_update_total g idx (mkDepEntry (dep_inst e) (p :: dep_next e)) Hi) as [g' Hg].
  exists (dg_count 1 g'). unfold dg_insert. rewrite He, Hg. split_and!; [done| |].
  - rewrite Hw. by apply waiting_update in Hg.
  - destruct (nodes_update _ _ _ _ _ He Hg) as [Hnodes Hc]. unfold no_leak in *.
  cbn [dep_next memAllocCounter dg_count length] in *.
    change (nodes (dg_count 1 g')) with (nodes g').
    rewrite Hc, Hn, wrap_add_l. f_equal. lia.
Qed.

(** Popping takes the newest consumer. *)
Lemma dg_pop_spec idx g :
  0 <= idx < Z.of_nat (length (dependGraph g)) → no_leak g →
  ∃ g', dg_pop idx g = Ok (head (waiting g idx), g') ∧
    chain_set idx (tail (waiting g idx)) g g' ∧ no_leak g'.
Proof.
  intros Hi Hn. destruct (dg_entry_total g idx Hi) as (e & He & Hw). unfold dg_pop. rewrite He, Hw.
  destruct (dep_next e) as [|p l] eqn:El; cbn [head tail].
  { exists g. split_and!; try done. split; [done|]. intros j.
    destruct (Z.eqb_spec j idx) as [->|]; [by rewrite Hw|done]. }
  destruct (dg_update_total g idx (mkDepEntry (dep_inst e) l) Hi) as [g' Hg]. rewrite Hg.
  exists (dg_count (-1) g'). split_and!; [done|by apply waiting_update in Hg|].
  destruct (nodes_update _ _ _ _ _ He Hg) as [Hnodes Hc]. unfold no_leak in *.
  cbn [dep_next memAllocCounter dg_count length] in *.
  change (nodes (dg_count (-1) g')) with (nodes g').
  rewrite Hc, Hn, wrap_add_l. f_equal. rewrite El in Hnodes. cbn [length] in Hnodes. lia.
Qed.

Lemma unlink_spec p l l' :
  unlink p l = Ok l' ↔ (∃ k1 k2, l = k1 ++ p :: k2 ∧ (p ∉ k1) ∧ l' = k1 ++ k2).
Proof.
  revert l'. induction l as [|q l IH]; intros l'; cbn.
  { split; [done|]. intros (k1 & k2 & H & _). by destruct k1. }
  destruct (Z.eqb_spec q p) as [->|Hne].
  - split.
    + intros [= <-]. exists [], l. split_and!; [done|apply not_elem_of_nil|done].
    + intros ([|x k1] & k2 & Heq & Hp & ->); simplify_eq/=; [done|]. by destruct Hp; left.
  - split.
    + intros H. inv_ok H. destruct (proj1 (IH _) eq_refl) as (k1 & k2 & -> & Hp & ->).
      exists (q :: k1), k2. split_and!; [done| |done]. rewrite elem_of_cons. naive_solver.
    + intros ([|x k1] & k2 & Heq & Hp & ->); simplify_eq/=.
      rewrite (proj2 (IH (k1 ++ k2))); [done|]. exists k1, k2. split_and!; [done| |done].
      intros ?. apply Hp. by right.
Qed.

(** Removing a waiting consumer unlinks its newest node. *)
Lemma dg_remove_spec idx p g k1 k2 :
  0 <= idx < Z.of_nat (length (dependGraph g)) → no_leak g →
  waiting g idx = k1 ++ p :: k2 → p ∉ k1 →
  ∃ g', dg_remove idx p g = Ok g' ∧ chain_set idx (k1 ++ k2) g g' ∧ no_leak g'.
Proof.
  intros Hi Hn Hl Hp. destruct (dg_entry_total g idx Hi) as (e & He & Hw).
  unfold dg_remove. rewrite He. rewrite Hw in Hl.
  assert (unlink p (dep_next e) = Ok (k1 ++ k2)) as Hu
    by (apply unlink_spec; exists k1, k2; by rewrite Hl).
  assert (∃ a l, dep_next e = a :: l) as (a & l & Ha) by (rewrite Hl; destruct k1; eauto).
  rewrite Ha in Hu |- *. rewrite Hu.
  destruct (dg_update_total g idx (mkDepEntry (dep_inst e) (k1 ++ k2)) Hi) as [g' Hg]. rewrite Hg.
  exists (dg_count (-1) g'). split_and!; [done|by apply waiting_update in Hg|].
  destruct (nodes_update _ _ _ _ _ He Hg) as [Hnodes Hc]. unfold no_leak in *.
  cbn [dep_next memAllocCounter dg_count length] in *.
  change (nodes (dg_count (-1) g')) with (nodes g').
  rewrite Hc, Hn, wrap_add_l. f_equal. rewrite Hl in Hnodes. rewrite !length_app in Hnodes.
  cbn [length] in Hnodes. lia.
Qed.

(** ** Sequences of operations *)

Inductive dg_op : Type :=
  | OpInsert (idx : Z) (p : DynInstPtr)
  | OpSetInst (idx : Z) (p : DynInstPtr)
  | OpClearInst (idx : Z)
  | OpRemove (idx : Z) (p : DynInstPtr)
  | OpPop (idx : Z)
  | OpReset.

Definition dg_run (g : DependencyGraph) (o : dg_op) : outcome DependencyGraph :=
  match o with
  | OpInsert idx p => dg_insert idx p g
  | OpSetInst idx p => dg_setInst idx p g
  | OpClearInst idx => dg_clearInst idx g
  | OpRemove idx p => dg_remove idx p g
  | OpPop idx => let! (_, g) := dg_pop idx g in Ok g
  | OpReset => Ok (dg_reset g)
  end.

Lemma dg_entry_range g idx e :
  dg_entry g idx = Ok e → 0 <= idx < Z.of_nat (length (dependGraph g)).
Proof. intros [? H]%vec_get_Ok. apply lookup_lt_Some in H. lia. Qed.

(** Changing a producer keeps every chain. *)
Lemma set_producer_no_leak idx o e g g' :
  dg_entry g idx = Ok e → dg_update idx (mkDepEntry o (dep_next e)) g = Ok g' →
  no_leak g → no_leak g'.
Proof.
  intros He Hg Hn. destruct (nodes_update _ _ _ _ _ He Hg) as [Hnodes Hc].
  unfold no_leak in *. rewrite Hc, Hn. cbn [dep_next] in Hnodes. do 2 f_equal. lia.
Qed.

(** [k] decrements of the unsigned counter. *)
Lemma decrements {A} (l : list A) c :
  fold_left (λ c _, wrap 32 (c - 1)) l (wrap 32 c) = wrap 32 (c - Z.of_nat (length l)).
Proof.
  revert c. induction l as [|x l IH]; intros c; cbn [fold_left length].
  { f_equal. lia. }
  replace (wrap 32 c - 1) with (wrap 32 c + (-1)) by lia. rewrite wrap_add_l.
  replace (c + -1) with (c - 1) by lia. rewrite IH. f_equal. lia.
Qed.

Lemma decrements_all l c :
  fold_left (λ c e, fold_left (λ c _, wrap 32 (c - 1)) (dep_next e) c) l (wrap 32 c)
  = wrap 32 (c - Z.of_nat (sum_list_with (length ∘ dep_next) l)).
Proof.
  revert c. induction l as [|e l IH]; intros c; cbn [fold_left sum_list_with].
  { f_equal. lia. }
  rewrite decrements, IH. f_equal. unfold compose. lia.
Qed.

Lemma dg_reset_spec g :
  no_leak g → memAllocCounter (dg_reset g) = 0 ∧ nodes (dg_reset g) = 0%nat.
Proof.
  unfold no_leak, nodes. intros Hn. split; cbn.
  - rewrite Hn, decrements_all, Z.sub_diag. done.
  - clear Hn. induction (length (dependGraph g)) as [|n IH]; [done|exact IH].
Qed.

Lemma dg_run_no_leak g o g' : dg_run g o = Ok g' → no_leak g → no_leak g'.
Proof.
  intros H Hn. destruct o as [idx p|idx p|idx|idx p|idx|]; cbn in H.
  - assert (∃ e, dg_entry g idx = Ok e) as [e He] by (unfold dg_insert in H; inv_ok1 H; eauto).
    destruct (dg_insert_spec idx p g (dg_entry_range _ _ _ He) Hn) as (g1 & Hg & _ & ?).
    congruence.
  - unfold dg_setInst in H. inv_ok1 H. by eapply set_producer_no_leak.
  - unfold dg_clearInst in H. inv_ok1 H. by eapply set_producer_no_leak.
  - assert (∃ e, dg_entry g idx = Ok e) as [e He] by (unfold dg_remove in H; inv_ok1 H; eauto).
    destruct (dep_next e) as [|a l] eqn:El.
    { unfold dg_remove in H. rewrite He, El in H. by inv_ok H. }
    assert (∃ l', unlink p (a :: l) = Ok l') as [l' Hu].
    { unfold dg_remove in H. rewrite He, El in H. inv_ok1 H. eauto. }
    apply unlink_spec in Hu as (k1 & k2 & Hk & Hp & _).
    destruct (dg_remove_spec idx p g k1 k2 (dg_entry_range _ _ _ He) Hn) as (g1 & Hg & _ & ?);
      [unfold waiting; by rewrite He, El|done|]. congruence.
  - assert (∃ e, dg_entry g idx = Ok e) as [e He].
    { unfold dg_pop in H. destruct (dg_entry g idx); [eauto|discriminate]. }
    destruct (dg_pop_spec idx g (dg_entry_range _ _ _ He) Hn) as (g1 & Hg & _ & ?).
    rewrite Hg in H. by inv_ok H.
  - inv_ok H. destruct (dg_reset_spec g Hn) as [Hc Hz]. unfold no_leak. by rewrite Hc, Hz.
Qed.

Lemma foldM_no_leak ops g g' : foldM dg_run ops g = Ok g' → no_leak g → no_leak g'.
Proof.
  revert g. induction ops as [|o ops IH]; intros g H Hn; cbn in H; [by inv_ok H|].
  inv_ok1 H. eapply IH; [exact H|]. by eapply dg_run_no_leak.
Qed.

(** Popping the chain of a register until it is empty. *)
Fixpoint dg_pop_all (fuel : nat) (idx : Z) (g : DependencyGraph)
  : outcome (list DynInstPtr * DependencyGraph) :=
  match fuel with
  | O => Ok ([], g)
  | S n =>
      let! (o, g) := dg_pop idx g in
      match o with
      | None => Ok ([], g)
      | Some p => let! (l, g) := dg_pop_all n idx g in Ok (p :: l, g)
      end
  end.

Lemma chain_set_trans idx l l' g1 g2 g3 :
  chain_set idx l g1 g2 → chain_set idx l' g2 g3 → chain_set idx l' g1 g3.
Proof.
  intros [H1 W1] [H2 W2]. split; [congruence|]. intros j. rewrite W2, W1.
  by destruct (j =? idx).
Qed.

Lemma dg_pop_all_spec n : ∀ idx g,
  0 <= idx < Z.of_nat (length (dependGraph g)) → no_leak g →
  (length (waiting g idx) < n)%nat →
  ∃ g', dg_pop_all n idx g = Ok (waiting g idx, g') ∧ chain_set idx [] g g' ∧ no_leak g'.
Proof.
  induction n as [|n IH]; intros idx g Hi Hn Hlen; [lia|]. cbn.
  destruct (dg_pop_spec idx g Hi Hn) as (g1 & -> & Hset & Hn1).
  destruct (waiting g idx) as [|p l] eqn:Ew; cbn [head tail] in *; [eauto|].
  pose proof Hset as [Hlen1 Hw1].
  assert (waiting g1 idx = l) as Hwl by (rewrite Hw1; by rewrite Z.eqb_refl).
  destruct (IH idx g1) as (g2 & E2 & Hset2 & Hn2);
    [by rewrite Hlen1|done|rewrite Hwl; cbn in Hlen; lia|].
  rewrite E2. exists g2. rewrite Hwl. split_and!; [done|by eapply chain_set_trans|done].
Qed.

(** ** Theorems *)

(** whatever sequence of operations the instruction queue performs on a
    fresh dependency graph, the allocation counter is the number of nodes in
    the chains: no node is leaked or freed twice; and [reset] brings it to 0. *)
Theorem dep_graph_no_leak n ops g :
  foldM dg_run ops (dg_resize n) = Ok g →
  memAllocCounter g = wrap 32 (Z.of_nat (nodes g)) ∧
  memAllocCounter (dg_reset g) = 0 ∧ nodes (dg_reset g) = 0%nat.
Proof.
  intros H. assert (no_leak g) as Hn.
  { eapply foldM_no_leak; [exact H|]. unfold no_leak, nodes. cbn.
    assert (sum_list_with (length ∘ dep_next) (replicate n (mkDepEntry None [])) = 0%nat) as ->
      by (clear; induction n as [|n IH]; [done|exact IH]). done. }
  split; [exact Hn|]. by apply dg_reset_spec.
Qed.

Lemma dep_graph_no_leak_witness :
  ∃ g, foldM dg_run [OpSetInst 3 1; OpInsert 3 2; OpInsert 3 4; OpRemove 3 2] (dg_resize 8)
       = Ok g ∧ waiting g 3 = [4] ∧
  memAllocCounter g = wrap 32 (Z.of_nat (nodes g)) ∧
  memAllocCounter (dg_reset g) = 0 ∧ nodes (dg_reset g) = 0%nat.
Proof.
  eexists. split; [vm_compute; reflexivity|]. split; [by_eval|].
  apply (dep_graph_no_leak 8 [OpSetInst 3 1; OpInsert 3 2; OpInsert 3 4; OpRemove 3 2]).
  vm_compute. reflexivity.
Defined.

(** a squashed consumer leaves the chain as if it had never been added:
    [remove] after [insert] restores every chain. *)
Theorem insert_remove idx p g :
  0 <= idx < Z.of_nat (length (dependGraph g)) → no_leak g →
  ∃ g1 g2, dg_insert idx p g = Ok g1 ∧ dg_remove idx p g1 = Ok g2 ∧
    ∀ j, waiting g2 j = waiting g j.
Proof.
  intros Hi Hn. destruct (dg_insert_spec idx p g Hi Hn) as (g1 & Hg1 & [Hl1 Hw1] & Hn1).
  destruct (dg_remove_spec idx p g1 [] (waiting g idx)) as (g2 & Hg2 & [_ Hw2] & _); try done.
  { by rewrite Hl1. } { by rewrite Hw1, Z.eqb_refl. } { apply not_elem_of_nil. }
  exists g1, g2. split_and!; [done..|]. intros j. rewrite Hw2, Hw1.
  by destruct (Z.eqb_spec j idx) as [->|].
Qed.

Lemma insert_remove_witness :
  ∃ g1 g2, dg_insert 3 7 (dg_resize 8) = Ok g1 ∧ dg_remove 3 7 g1 = Ok g2 ∧
    ∀ j, waiting g2 j = waiting (dg_resize 8) j.
Proof. apply insert_remove; [cbn; lia|reflexivity]. Defined.
