(* ===== verification/FUPool.v ===== *)
(** * The pool of functional units

    [FUPool] ([cpu/o3/fu_pool.hh], [cpu/o3/fu_pool.cc]): per operation class a
    circular queue of the units that can execute it.  DOLMA widened the busy
    bit of a unit to the sequence number of the instruction that holds it, so
    that issue can evict a younger restricted instruction. *)

From S2P Require Import Prelude Config DynInst.

Local Open Scope Z_scope.

Definition NoCapableFU : Z := -2.
Definition NoFreeFU : Z := -1.

(** [FUPool::FUIdxQueue]. *)
Record FUIdxQueue := mkFUIdxQueue {
  fq_idx : Z;
  fq_size : Z;
  funcUnitsIdx : list Z;
}.

Definition addFU (fu_idx : Z) (q : FUIdxQueue) : FUIdxQueue :=
  mkFUIdxQueue (fq_idx q) (fq_size q + 1) (funcUnitsIdx q ++ [fu_idx]).

Definition getFU (q : FUIdxQueue) : outcome (Z * FUIdxQueue) :=
  let! retval := vec_get "funcUnitsIdx" (funcUnitsIdx q) (fq_idx q) in
  let idx := fq_idx q + 1 in
  let idx := if idx =? fq_size q then 0 else idx in
  Ok (retval, mkFUIdxQueue idx (fq_size q) (funcUnitsIdx q)).

(** The arrays over [OpClass] are lists indexed by the class. *)
Record FUPool := mkFUPool {
  maxOpLatencies : list Z;
  fu_pipelined : list bool;
  capabilityList : list bool;
  unitsToBeFreed : list Z; (** a stack; the back is the head *)
  numFU : Z;
  unitBusy : list InstSeqNum; (** 0 when free *)
  fuPerCapList : list FUIdxQueue;
}.

Definition set_unitBusy (v : list InstSeqNum) (p : FUPool) : FUPool :=
  mkFUPool (maxOpLatencies p) (fu_pipelined p) (capabilityList p) (unitsToBeFreed p)
    (numFU p) v (fuPerCapList p).
Definition set_unitsToBeFreed (v : list Z) (p : FUPool) : FUPool :=
  mkFUPool (maxOpLatencies p) (fu_pipelined p) (capabilityList p) v
    (numFU p) (unitBusy p) (fuPerCapList p).
Definition set_fuPerCapList (v : list FUIdxQueue) (p : FUPool) : FUPool :=
  mkFUPool (maxOpLatencies p) (fu_pipelined p) (capabilityList p) (unitsToBeFreed p)
    (numFU p) (unitBusy p) v.

(** ** Construction *)

(** [OpDesc] and [FUDesc] of the parameters. *)
Record OpDesc := mkOpDesc { od_opClass : nat; od_opLat : Z; od_pipelined : bool }.
Record FUDesc := mkFUDesc { fd_number : nat; fd_ops : list OpDesc }.

Definition addOp (number : nat) (p : FUPool) (j : OpDesc) : FUPool :=
  let c := od_opClass j in
  let q := default (mkFUIdxQueue 0 0 []) (fuPerCapList p !! c) in
  let q := fold_left (λ q k, addFU (numFU p + Z.of_nat k) q) (seq 0 number) q in
  mkFUPool
    (alter (λ l, if l <? od_opLat j then od_opLat j else l) c (maxOpLatencies p))
    (if od_pipelined j then fu_pipelined p else <[c := false]> (fu_pipelined p))
    (<[c := true]> (capabilityList p)) (unitsToBeFreed p) (numFU p) (unitBusy p)
    (<[c := q]> (fuPerCapList p)).

Definition addDesc (p : FUPool) (i : FUDesc) : FUPool :=
  if (fd_number i =? 0)%nat then p else
  let p := fold_left (addOp (fd_number i)) (fd_ops i) p in
  mkFUPool (maxOpLatencies p) (fu_pipelined p) (capabilityList p) (unitsToBeFreed p)
    (numFU p + Z.of_nat (fd_number i)) (unitBusy p) (fuPerCapList p).

Definition newFUPool (Num_OpClasses : nat) (FUList : list FUDesc) : FUPool :=
  let p := fold_left addDesc FUList
    (mkFUPool (replicate Num_OpClasses 0) (replicate Num_OpClasses true)
       (replicate Num_OpClasses false) [] 0 []
       (replicate Num_OpClasses (mkFUIdxQueue 0 0 []))) in
  set_unitBusy (replicate (Z.to_nat (numFU p)) 0) p.

(** ** Operations *)

(** The loop of [getUnit]; [None] when [fuel] runs out. *)
Fixpoint findUnit (fuel : nat) (busy : list InstSeqNum) (start_idx fu_idx : Z)
    (q : FUIdxQueue) : outcome (option (option Z * FUIdxQueue)) :=
  match fuel with
  | O => Ok None
  | S n =>
      let! b := vec_get "unitBusy" busy fu_idx in
      if b =? 0 then Ok (Some (Some fu_idx, q)) else
      let! (fu_idx, q) := getFU q in
      if fu_idx =? start_idx then Ok (Some (None, q))
      else findUnit n busy start_idx fu_idx q
  end.

(** [getUnit]; the queue bounds the iterations. *)
Definition getUnit (capability : nat) (sn : InstSeqNum) (p : FUPool)
  : outcome (option (Z * FUPool)) :=
  assert! negb (sn =? 0) as "getUnit: seqNum" in
  let! cap := vec_get "capabilityList" (capabilityList p) (Z.of_nat capability) in
  if negb cap then Ok (Some (NoCapableFU, p)) else
  let! q := vec_get "fuPerCapList" (fuPerCapList p) (Z.of_nat capability) in
  let! (fu_idx, q) := getFU q in
  let! o := findUnit (S (length (funcUnitsIdx q))) (unitBusy p) fu_idx fu_idx q in
  match o with
  | None => Ok None
  | Some (r, q) =>
      let p := set_fuPerCapList (<[capability := q]> (fuPerCapList p)) p in
      match r with
      | None => Ok (Some (NoFreeFU, p))
      | Some fu_idx =>
          assert! fu_idx <? numFU p as "getUnit: fu_idx < numFU" in
          let! b := vec_set "unitBusy" (unitBusy p) fu_idx sn in
          Ok (Some (fu_idx, set_unitBusy b p))
      end
  end.

Definition freeUnitNextCycle (fu_idx : Z) (p : FUPool) : outcome FUPool :=
  let! b := vec_get "unitBusy" (unitBusy p) fu_idx in
  assert! negb (b =? 0) as "freeUnitNextCycle: unitBusy[fu_idx]" in
  Ok (set_unitsToBeFreed (fu_idx :: unitsToBeFreed p) p).

Fixpoint freeUnits (l : list Z) (busy : list InstSeqNum) : outcome (list InstSeqNum) :=
  match l with
  | [] => Ok busy
  | fu_idx :: l' =>
      let! b := vec_get "unitBusy" busy fu_idx in
      assert! negb (b =? 0) as "processFreeUnits: unitBusy[fu_idx]" in
      let! busy := vec_set "unitBusy" busy fu_idx 0 in
      freeUnits l' busy
  end.

Definition processFreeUnits (p : FUPool) : outcome FUPool :=
  let! b := freeUnits (unitsToBeFreed p) (unitBusy p) in
  Ok (set_unitsToBeFreed [] (set_unitBusy b p)).

Definition getOpLatency (capability : nat) (p : FUPool) : outcome Z :=
  vec_get "maxOpLatencies" (maxOpLatencies p) (Z.of_nat capability).
Definition isPipelined (capability : nat) (p : FUPool) : outcome bool :=
  vec_get "pipelined" (fu_pipelined p) (Z.of_nat capability).
Definition fu_isDrained (p : FUPool) : bool :=
  forallb (λ b, b =? 0) (unitBusy p).

(** ** The circular queue *)

Record queue_ok (nFU : Z) (q : FUIdxQueue) : Prop := {
  qo_size : fq_size q = Z.of_nat (length (funcUnitsIdx q));
  qo_idx : 0 <= fq_idx q < fq_size q;
  qo_nodup : NoDup (funcUnitsIdx q);
  qo_range : Forall (λ i, 0 <= i < nFU) (funcUnitsIdx q);
}.

(** The units in the order the queue will hand them out. *)
Definition rotation (q : FUIdxQueue) : list Z :=
  drop (Z.to_nat (fq_idx q)) (funcUnitsIdx q) ++ take (Z.to_nat (fq_idx q)) (funcUnitsIdx q).

Lemma rotation_perm q : rotation q ≡ₚ funcUnitsIdx q.
Proof. unfold rotation. rewrite Permutation_app_comm. by rewrite take_drop. Qed.

Lemma getFU_spec nFU q :
  queue_ok nFU q →
  ∃ x r q', getFU q = Ok (x, q') ∧ rotation q = x :: r ∧ rotation q' = r ++ [x] ∧
    queue_ok nFU q' ∧ funcUnitsIdx q' = funcUnitsIdx q.
Proof.
  intros [Hs Hi Hn Hr]. unfold getFU.
  destruct (vec_get_total "funcUnitsIdx" (funcUnitsIdx q) (fq_idx q)) as [x Hx]; [lia|].
  rewrite Hx. apply vec_get_Ok in Hx as [_ Hx].
  set (k := Z.to_nat (fq_idx q)) in *.
  pose proof (take_drop_middle _ _ _ Hx) as Hm.
  exists x, (drop (S k) (funcUnitsIdx q) ++ take k (funcUnitsIdx q)). eexists.
  split; [reflexivity|]. split_and!; cbn.
  - unfold rotation. fold k. by rewrite (drop_S _ _ _ Hx).
  - unfold rotation. cbn. rewrite <-app_assoc. rewrite <-(take_S_r _ _ _ Hx).
    destruct (Z.eqb_spec (fq_idx q + 1) (fq_size q)) as [He|Hne].
    + cbn. rewrite drop_0, take_0, app_nil_r.
      rewrite drop_ge by lia. rewrite take_ge by lia. done.
    + replace (Z.to_nat (fq_idx q + 1)) with (S k) by lia. done.
  - split; cbn; auto. destruct (Z.eqb_spec (fq_idx q + 1) (fq_size q)); lia.
  - done.
Qed.

Definition free_unit (busy : list InstSeqNum) (i : Z) : bool :=
  match vec_get "unitBusy" busy i with Ok b => b =? 0 | Err _ => false end.

(** The loop hands out the first free unit of the rotation. *)
Lemma findUnit_spec nFU busy : ∀ post pre c start q n,
  queue_ok nFU q → Z.of_nat (length busy) = nFU →
  rotation q = post ++ pre ++ [c] → head (pre ++ [c]) = Some start →
  Forall (λ i, free_unit busy i = false) pre → (length post < n)%nat →
  ∃ q', findUnit n busy start c q
        = Ok (Some (head (filter (λ i, free_unit busy i = true) (c :: post)), q')) ∧
    queue_ok nFU q' ∧ funcUnitsIdx q' = funcUnitsIdx q.
Proof.
  induction post as [|x post IH]; intros pre c start q n Hq Hb Hrot Hst Hpre Hn;
    (destruct n as [|n]; [cbn in Hn; lia|]); cbn [findUnit].
  all: assert (Hin : 0 <= c < nFU).
  1,3: eapply (proj1 (Forall_forall _ _) (qo_range _ _ Hq)); rewrite <-rotation_perm, Hrot; set_solver.
  all: destruct (vec_get_total "unitBusy" busy c) as [b Eb]; [lia|]; rewrite Eb.
  all: assert (free_unit busy c = (b =? 0)) as Hf by (unfold free_unit; by rewrite Eb).
  all: destruct (b =? 0) eqn:Eb0; [rewrite filter_cons_True by done; eauto|].
  all: rewrite filter_cons_False by (rewrite Hf; done).
  all: destruct (getFU_spec nFU q Hq) as (y & r & q' & -> & Hr & Hr' & Hq' & Hu).
  - rewrite Hrot in Hr. cbn in Hr. destruct pre as [|p0 pre]; cbn in Hr, Hst; simplify_eq;
      rewrite Z.eqb_refl; eauto.
  - rewrite Hrot in Hr. cbn in Hr. injection Hr as <- <-.
    assert (NoDup (rotation q)) as Hnd by (rewrite rotation_perm; apply Hq).
    assert (x ≠ start) as Hne.
    { rewrite Hrot in Hnd. inversion_clear Hnd as [|? ? Hx _]. intros ->. apply Hx.
      rewrite elem_of_app. right. destruct pre; cbn in Hst; simplify_eq; left. }
    rewrite (proj2 (Z.eqb_neq _ _) Hne). rewrite <-Hu.
    apply (IH (pre ++ [c])); auto.
    + by rewrite Hr', <-!app_assoc.
    + destruct pre; cbn in *; done.
    + apply Forall_app. split; [done|]. by repeat constructor.
    + cbn in Hn. lia.
Qed.

(** ** Well-formed pools *)

Record pool_ok (p : FUPool) : Prop := {
  po_busy : Z.of_nat (length (unitBusy p)) = numFU p;
  po_classes : length (fuPerCapList p) = length (capabilityList p);
  po_queue : ∀ c q, fuPerCapList p !! c = Some q → capabilityList p !! c = Some true →
    queue_ok (numFU p) q;
}.

(** The units that can execute class [c]. *)
Definition capable (p : FUPool) (c : nat) : list Z :=
  match fuPerCapList p !! c with Some q => funcUnitsIdx q | None => [] end.

(** Replacing the queue of a class by a rotated one. *)
Lemma pool_ok_rotate p c q q' b :
  pool_ok p → fuPerCapList p !! c = Some q → queue_ok (numFU p) q' →
  length b = length (unitBusy p) →
  pool_ok (set_unitBusy b (set_fuPerCapList (<[c := q']> (fuPerCapList p)) p)).
Proof.
  intros [Hb Hc Hq] Hcq Hq' Hlen. split; cbn.
  - by rewrite Hlen.
  - by rewrite length_insert.
  - intros c2 q2 H2 Hcap. destruct (decide (c = c2)) as [->|Hne].
    + rewrite list_lookup_insert_eq in H2 by by eapply lookup_lt_Some. congruence.
    + rewrite list_lookup_insert_ne in H2 by done. eauto.
Qed.

(** A stack of distinct busy units can be freed. *)
Lemma freeUnits_spec l : ∀ busy,
  NoDup l → Forall (λ i, 0 <= i < Z.of_nat (length busy) ∧ free_unit busy i = false) l →
  ∃ busy', freeUnits l busy = Ok busy' ∧ length busy' = length busy ∧
    ∀ i, free_unit busy' i = free_unit busy i || bool_decide (i ∈ l).
Proof.
  induction l as [|x l IH]; intros busy Hnd Hall; cbn.
  { exists busy. split_and!; [done..|]. intros i.
    rewrite bool_decide_false by apply not_elem_of_nil. by rewrite orb_false_r. }
  apply NoDup_cons in Hnd as [Hx Hnd]. apply Forall_cons in Hall as [[Hr Hbx] Hall].
  destruct (vec_get_total "unitBusy" busy x Hr) as [b Eb]. rewrite Eb.
  assert ((b =? 0) = false) as -> by (unfold free_unit in Hbx; by rewrite Eb in Hbx).
  cbn [negb].
  pose proof (vec_set_total "unitBusy" busy x 0 Hr) as Es. rewrite Es.
  assert (∀ i, free_unit (<[Z.to_nat x:=0]> busy) i = free_unit busy i || bool_decide (i = x)) as Hf.
  { intros i. unfold free_unit. rewrite (vec_get_set _ _ _ _ _ i Es).
    destruct (Z.eqb_spec i x) as [->|]; [by rewrite bool_decide_true, orb_true_r|].
    by rewrite bool_decide_false, orb_false_r. }
  destruct (IH (<[Z.to_nat x:=0]> busy) Hnd) as (busy' & Hok & Hlen & Hb').
  { rewrite Forall_forall in *. intros i Hi. rewrite length_insert, Hf.
    destruct (Hall i Hi) as [? ->]. split; [done|]. apply bool_decide_false. by intros ->. }
  rewrite length_insert in Hlen. exists busy'. split_and!; [done..|]. intros i.
  rewrite Hb', Hf, <-orb_assoc. f_equal. destruct (decide (i = x)) as [->|Hne].
  - by rewrite (bool_decide_true (x = x)), (bool_decide_true (x ∈ x :: l)) by (done || left).
  - rewrite (bool_decide_false (i = x)) by done. cbn. apply bool_decide_ext. set_solver.
Qed.

(** What [getUnit] returns. *)
Lemma getUnit_cases c sn p :
  pool_ok p → sn ≠ 0 → (c < length (capabilityList p))%nat →
  ∃ i p', getUnit c sn p = Ok (Some (i, p')) ∧ pool_ok p' ∧
    unitsToBeFreed p' = unitsToBeFreed p ∧
    if negb (bool_decide (capabilityList p !! c = Some true))
    then i = NoCapableFU ∧ p' = p
    else if existsb (free_unit (unitBusy p)) (capable p c)
    then i ∈ capable p c ∧ free_unit (unitBusy p) i = true ∧
         unitBusy p' = <[Z.to_nat i := sn]> (unitBusy p)
    else i = NoFreeFU ∧ unitBusy p' = unitBusy p.
Proof.
  intros Hok Hsn Hc. unfold getUnit. rewrite (proj2 (Z.eqb_neq _ _) Hsn). cbn [negb].
  destruct (lookup_lt_is_Some_2 _ _ Hc) as [cap Ecap].
  assert (vec_get "capabilityList" (capabilityList p) (Z.of_nat c) = Ok cap) as ->
    by (apply vec_get_Ok; rewrite Nat2Z.id; split; [lia|done]).
  rewrite Ecap. destruct cap; cbn [negb]; [|exists NoCapableFU, p; by split_and!].
  rewrite bool_decide_true by done. cbn [negb].
  destruct (lookup_lt_is_Some_2 (fuPerCapList p) c) as [q Eq]; [by rewrite (po_classes _ Hok)|].
  assert (vec_get "fuPerCapList" (fuPerCapList p) (Z.of_nat c) = Ok q) as ->
    by (apply vec_get_Ok; rewrite Nat2Z.id; split; [lia|done]).
  pose proof (po_queue _ Hok c q Eq Ecap) as Hq.
  destruct (getFU_spec _ q Hq) as (x & r & q1 & -> & Hr & Hr1 & Hq1 & Hu1).
  destruct (findUnit_spec (numFU p) (unitBusy p) r [] x x q1 (S (length (funcUnitsIdx q1))) Hq1
              (po_busy _ Hok)) as (q2 & -> & Hq2 & Hu2); [done|done|constructor| |].
  { rewrite Hu1. rewrite <-(rotation_perm q), Hr. cbn. lia. }
  unfold capable. rewrite Eq.
  assert (∀ i, i ∈ x :: r ↔ i ∈ funcUnitsIdx q) as Hmem
    by (intros i; by rewrite <-(rotation_perm q), Hr).
  destruct (filter _ (x :: r)) as [|i l] eqn:Ef; cbn [head].
  - eexists _, _. split; [reflexivity|]. split_and!.
    + apply (pool_ok_rotate p c q q2 (unitBusy p)); auto.
    + done.
    + assert (existsb (free_unit (unitBusy p)) (funcUnitsIdx q) = false) as ->; [|done].
      apply not_true_iff_false. intros (i & Hi%list_elem_of_In & Hfi)%existsb_exists.
      apply Hmem in Hi. exact (filter_nil_not_elem_of _ _ _ Ef Hfi Hi).
  - assert (i ∈ filter (λ i, free_unit (unitBusy p) i = true) (x :: r)) as Hi
      by (rewrite Ef; left).
    apply list_elem_of_filter in Hi as [Hfi Hi]. apply Hmem in Hi.
    pose proof (proj1 (Forall_forall _ _) (qo_range _ _ Hq) i Hi) as Hrange. cbn in Hrange.
    cbn [numFU set_fuPerCapList unitBusy].
    rewrite (proj2 (Z.ltb_lt _ _) (proj2 Hrange)).
    rewrite vec_set_total by (rewrite (po_busy _ Hok); lia).
    eexists _, _. split; [reflexivity|]. split_and!.
    + apply (pool_ok_rotate p c q q2); auto. apply length_insert.
    + done.
    + assert (existsb (free_unit (unitBusy p)) (funcUnitsIdx q) = true) as ->; [|done].
      apply existsb_exists. exists i. split; [by apply list_elem_of_In|done].
Qed.

(** Handing out units never changes who can execute what. *)
Lemma getFU_units q x q' : getFU q = Ok (x, q') → funcUnitsIdx q' = funcUnitsIdx q.
Proof. unfold getFU. intros H. by inv_ok H. Qed.

Lemma findUnit_units busy start n : ∀ c q o q',
  findUnit n busy start c q = Ok (Some (o, q')) → funcUnitsIdx q' = funcUnitsIdx q.
Proof.
  induction n as [|n IH]; intros c q o q' H; cbn in H; [done|]. inv_ok1 H.
  destruct (_ =? _); [by inv_ok H|]. destruct (getFU q) as [[x q1]|] eqn:Eg; [|done].
  apply getFU_units in Eg. destruct (_ =? _); [by inv_ok H|]. apply IH in H. congruence.
Qed.

Lemma capable_insert p c q q' c' :
  fuPerCapList p !! c = Some q → funcUnitsIdx q' = funcUnitsIdx q →
  capable (set_fuPerCapList (<[c := q']> (fuPerCapList p)) p) c' = capable p c'.
Proof.
  intros Hq Hu. unfold capable. cbn. destruct (decide (c = c')) as [->|Hne].
  - rewrite list_lookup_insert_eq by by eapply lookup_lt_Some. by rewrite Hq.
  - by rewrite list_lookup_insert_ne.
Qed.

Lemma getUnit_capable c sn p i p' :
  getUnit c sn p = Ok (Some (i, p')) →
  capabilityList p' = capabilityList p ∧ ∀ c', capable p' c' = capable p c'.
Proof.
  unfold getUnit. intros H. inv_ok1 H. inv_ok1 H. destruct (negb a); [by inv_ok H|].
  inv_ok1 H. apply vec_get_Ok in E1 as [_ E1]. rewrite Nat2Z.id in E1.
  destruct (getFU a0) as [[x q1]|] eqn:Eg; [|done]. apply getFU_units in Eg.
  destruct (findUnit _ _ _ _ _) as [[[o q2]|]|] eqn:Ef; [|done..].
  apply findUnit_units in Ef.
  pose proof (λ c', capable_insert p c a0 q2 c' E1 ltac:(congruence)) as Hc.
  destruct o; [|by inv_ok H]. inv_ok H. done.
Qed.

(** ** An example pool: one adder and one unpipelined divider *)
Definition ex_pool : FUPool :=
  newFUPool 4 [mkFUDesc 2 [mkOpDesc 1 1 true]; mkFUDesc 1 [mkOpDesc 2 12 false]].

Lemma ex_pool_ok : pool_ok ex_pool.
Proof.
  split; [by_eval..|]. intros c q Hq Hc.
  destruct c as [|[|[|[|c]]]]; vm_compute in Hq, Hc; simplify_eq.
  all: split; cbn; [done|lia|by_eval|repeat constructor; lia].
Qed.

(** ** Theorems *)

(** [FUPool::getUnit] returns [NoCapableFU] exactly for classes the pool
    cannot execute; otherwise it terminates and either reserves a free capable
    unit for the instruction, changing no other unit, or returns [NoFreeFU] when
    every capable unit is busy. *)
Theorem getUnit_spec c sn p :
  pool_ok p → sn ≠ 0 → (c < length (capabilityList p))%nat →
  ∃ i p', getUnit c sn p = Ok (Some (i, p')) ∧ pool_ok p' ∧
    unitsToBeFreed p' = unitsToBeFreed p ∧
    if negb (bool_decide (capabilityList p !! c = Some true))
    then i = NoCapableFU ∧ p' = p
    else if existsb (free_unit (unitBusy p)) (capable p c)
    then i ∈ capable p c ∧ free_unit (unitBusy p) i = true ∧
         unitBusy p' = <[Z.to_nat i := sn]> (unitBusy p)
    else i = NoFreeFU ∧ unitBusy p' = unitBusy p.
Proof. apply getUnit_cases. Qed.

Lemma getUnit_spec_witness :
  ∃ i p', getUnit 1 7 ex_pool = Ok (Some (i, p')) ∧ pool_ok p' ∧
    unitsToBeFreed p' = unitsToBeFreed ex_pool ∧
    i ∈ capable ex_pool 1 ∧ free_unit (unitBusy ex_pool) i = true ∧
    unitBusy p' = <[Z.to_nat i := 7]> (unitBusy ex_pool).
Proof.
  destruct (getUnit_spec 1 7 ex_pool) as (i & p' & H1 & H2 & H3 & H4);
    [apply ex_pool_ok|lia|vm_compute; lia|].
  exists i, p'. split_and!; [done..|exact (proj1 H4)|exact (proj1 (proj2 H4))|exact (proj2 (proj2 H4))].
Defined.

(** [FUPool::processFreeUnits] frees exactly the scheduled units, provided
    each busy unit was scheduled at most once. *)
Theorem processFreeUnits_spec p :
  NoDup (unitsToBeFreed p) →
  Forall (λ i, 0 <= i < Z.of_nat (length (unitBusy p)) ∧ free_unit (unitBusy p) i = false)
    (unitsToBeFreed p) →
  ∃ p', processFreeUnits p = Ok p' ∧ unitsToBeFreed p' = [] ∧
    ∀ i, free_unit (unitBusy p') i
         = free_unit (unitBusy p) i || bool_decide (i ∈ unitsToBeFreed p).
Proof.
  intros Hnd Hall. destruct (freeUnits_spec _ _ Hnd Hall) as (b & Hb & _ & Hf).
  unfold processFreeUnits. rewrite Hb. eexists. split_and!; [reflexivity|done|exact Hf].
Qed.

Definition ex_busy_pool : FUPool := set_unitsToBeFreed [1; 0] (set_unitBusy [5; 6; 0] ex_pool).

Lemma processFreeUnits_spec_witness :
  ∃ p', processFreeUnits ex_busy_pool = Ok p' ∧ unitsToBeFreed p' = [] ∧
    ∀ i, free_unit (unitBusy p') i
         = free_unit (unitBusy ex_busy_pool) i || bool_decide (i ∈ unitsToBeFreed ex_busy_pool).
Proof.
  apply processFreeUnits_spec; [by_eval|]. repeat constructor; cbn; lia.
Defined.

(** the completion of an evicted instruction makes the pool assert.  When
    issue hands the unpipelined unit [i] of a younger instruction to an older
    one ([unitBusy[fu_idx] = issuing_inst->seqNum]), the younger one's pending
    completion still frees the unit, and the older one's completion then finds
    it free: [freeUnitNextCycle] fails its assertion. *)
Theorem evicted_unit_freed_twice p i sn :
  0 <= i < Z.of_nat (length (unitBusy p)) → sn ≠ 0 → unitsToBeFreed p = [] →
  (let! b := vec_set "unitBusy" (unitBusy p) i sn in
   let! p := freeUnitNextCycle i (set_unitBusy b p) in
   let! p := processFreeUnits p in
   freeUnitNextCycle i p)
  = Err (Assertion "freeUnitNextCycle: unitBusy[fu_idx]").
Proof.
  intros Hi Hsn Hf. pose proof (vec_set_total "unitBusy" (unitBusy p) i sn Hi) as Es. rewrite Es.
  unfold freeUnitNextCycle at 1. cbn [unitBusy set_unitBusy].
  rewrite (vec_get_set _ _ _ _ _ i Es), Z.eqb_refl, (proj2 (Z.eqb_neq _ _) Hsn). cbn [negb].
  unfold processFreeUnits. cbn [unitsToBeFreed set_unitBusy set_unitsToBeFreed unitBusy freeUnits].
  rewrite Hf. cbn [freeUnits].
  rewrite (vec_get_set _ _ _ _ _ i Es), Z.eqb_refl, (proj2 (Z.eqb_neq _ _) Hsn). cbn [negb].
  pose proof (vec_set_total "unitBusy" (<[Z.to_nat i:=sn]> (unitBusy p)) i 0) as E0.
  rewrite E0 by by rewrite length_insert.
  unfold freeUnitNextCycle. cbn [unitBusy set_unitBusy set_unitsToBeFreed].
  rewrite (vec_get_set _ _ _ _ _ i (E0 ltac:(by rewrite length_insert))), Z.eqb_refl. done.
Qed.

Lemma evicted_unit_freed_twice_witness :
  (let! b := vec_set "unitBusy" (unitBusy ex_pool) 2 5 in
   let! p := freeUnitNextCycle 2 (set_unitBusy b ex_pool) in
   let! p := processFreeUnits p in
   freeUnitNextCycle 2 p)
  = Err (Assertion "freeUnitNextCycle: unitBusy[fu_idx]").
Proof. apply (evicted_unit_freed_twice ex_pool 2 5); [by_eval|lia|reflexivity]. Defined.
