(* ===== verification/MemDepUnit.v ===== *)
(** * The memory dependence unit

    [MemDepUnit] ([cpu/o3/mem_dep_unit.hh], [cpu/o3/mem_dep_unit_impl.hh]):
    holds a memory instruction back until its registers are ready and the
    store or barrier it is predicted to depend on has completed.  DOLMA changed
    it so that restricted stores neither hold instructions back nor enter the
    predictor.

    Entries are shared pointers that outlive their place in the hash, so they
    live in a heap of their own; [memDepHash] and [dependInsts] hold references
    to it, and [instList] holds the reference whose [listIt] is that node.
    [moveToReady] calls back into the instruction queue; here the operations
    return the instructions they move, in order. *)

From S2P Require Import Prelude Regs Config DynInst StoreSet.

Local Open Scope Z_scope.

Abbreviation EntryPtr := nat.

Record MemDepEntry := mkMemDepEntry {
  me_inst : DynInstPtr;
  dependInsts : list EntryPtr;
  me_regsReady : bool;
  memDepReady : bool;
  me_squashed : bool;
}.

Definition set_dependInsts (v : list EntryPtr) (e : MemDepEntry) : MemDepEntry :=
  mkMemDepEntry (me_inst e) v (me_regsReady e) (memDepReady e) (me_squashed e).
Definition set_regsReady (v : bool) (e : MemDepEntry) : MemDepEntry :=
  mkMemDepEntry (me_inst e) (dependInsts e) v (memDepReady e) (me_squashed e).
Definition set_memDepReady (v : bool) (e : MemDepEntry) : MemDepEntry :=
  mkMemDepEntry (me_inst e) (dependInsts e) (me_regsReady e) v (me_squashed e).
Definition set_me_squashed (v : bool) (e : MemDepEntry) : MemDepEntry :=
  mkMemDepEntry (me_inst e) (dependInsts e) (me_regsReady e) (memDepReady e) v.

Record MemDepUnit := mkMemDepUnit {
  heap : gmap EntryPtr MemDepEntry;
  heap_next : EntryPtr; (** the next allocation *)
  memDepHash : gmap InstSeqNum EntryPtr;
  md_instList : ThreadID → list EntryPtr;
  instsToReplay : list DynInstPtr;
  depPred : StoreSet;
  loadBarrier : bool;
  loadBarrierSN : InstSeqNum;
  storeBarrier : bool;
  storeBarrierSN : InstSeqNum;
}.

Definition set_heap (v : gmap EntryPtr MemDepEntry) (u : MemDepUnit) : MemDepUnit :=
  mkMemDepUnit v (heap_next u) (memDepHash u) (md_instList u) (instsToReplay u) (depPred u)
    (loadBarrier u) (loadBarrierSN u) (storeBarrier u) (storeBarrierSN u).
Definition set_memDepHash (v : gmap InstSeqNum EntryPtr) (u : MemDepUnit) : MemDepUnit :=
  mkMemDepUnit (heap u) (heap_next u) v (md_instList u) (instsToReplay u) (depPred u)
    (loadBarrier u) (loadBarrierSN u) (storeBarrier u) (storeBarrierSN u).
Definition set_md_instList (v : ThreadID → list EntryPtr) (u : MemDepUnit) : MemDepUnit :=
  mkMemDepUnit (heap u) (heap_next u) (memDepHash u) v (instsToReplay u) (depPred u)
    (loadBarrier u) (loadBarrierSN u) (storeBarrier u) (storeBarrierSN u).
Definition set_instsToReplay (v : list DynInstPtr) (u : MemDepUnit) : MemDepUnit :=
  mkMemDepUnit (heap u) (heap_next u) (memDepHash u) (md_instList u) v (depPred u)
    (loadBarrier u) (loadBarrierSN u) (storeBarrier u) (storeBarrierSN u).
Definition set_depPred (v : StoreSet) (u : MemDepUnit) : MemDepUnit :=
  mkMemDepUnit (heap u) (heap_next u) (memDepHash u) (md_instList u) (instsToReplay u) v
    (loadBarrier u) (loadBarrierSN u) (storeBarrier u) (storeBarrierSN u).
Definition set_loadBarrier (v : bool) (sn : InstSeqNum) (u : MemDepUnit) : MemDepUnit :=
  mkMemDepUnit (heap u) (heap_next u) (memDepHash u) (md_instList u) (instsToReplay u)
    (depPred u) v sn (storeBarrier u) (storeBarrierSN u).
Definition set_storeBarrier (v : bool) (sn : InstSeqNum) (u : MemDepUnit) : MemDepUnit :=
  mkMemDepUnit (heap u) (heap_next u) (memDepHash u) (md_instList u) (instsToReplay u)
    (depPred u) (loadBarrier u) (loadBarrierSN u) v sn.

Definition newMemDepUnit (p : StoreSet) : MemDepUnit :=
  mkMemDepUnit ∅ 0 ∅ (λ _, []) [] p false 0 false 0.

Definition md_isDrained (threads : nat) (u : MemDepUnit) : bool :=
  bool_decide (instsToReplay u = []) && bool_decide (memDepHash u = ∅) &&
  forallb (λ t, bool_decide (md_instList u t = [])) (seq 0 threads).

Definition md_takeOverFrom (u : MemDepUnit) : MemDepUnit :=
  set_depPred (clear (depPred u)) (set_storeBarrier false 0 (set_loadBarrier false 0 u)).

Definition entry_deref (e : EntryPtr) (u : MemDepUnit) : outcome MemDepEntry :=
  match heap u !! e with
  | Some x => Ok x
  | None => Err (NullDeref "MemDepEntryPtr")
  end.
Definition entry_put (e : EntryPtr) (x : MemDepEntry) (u : MemDepUnit) : MemDepUnit :=
  set_heap (<[e := x]> (heap u)) u.

(** [std::make_shared<MemDepEntry>(inst)], [memDepHash.insert] (which keeps an
    existing entry) and [instList[tid].push_back]. *)
Definition newEntry (p : DynInstPtr) (i : DynInst) (u : MemDepUnit)
  : EntryPtr * MemDepUnit :=
  let e := heap_next u in
  let h := match memDepHash u !! seqNum i with
           | Some _ => memDepHash u
           | None => <[seqNum i := e]> (memDepHash u)
           end in
  let tid := threadNumber i in
  (e, mkMemDepUnit (<[e := mkMemDepEntry p [] false false false]> (heap u)) (S e) h
        (<[tid := md_instList u tid ++ [e]]> (md_instList u))
        (instsToReplay u) (depPred u) (loadBarrier u) (loadBarrierSN u)
        (storeBarrier u) (storeBarrierSN u)).

Definition findInHash (sn : InstSeqNum) (u : MemDepUnit) : outcome EntryPtr :=
  match memDepHash u !! sn with
  | Some e => Ok e
  | None => Err (Assertion "findInHash: hash_it != memDepHash.end()")
  end.

(** The instruction handed to [iqPtr->addReadyMemInst]. *)
Definition moveToReady (e : EntryPtr) (u : MemDepUnit) : outcome DynInstPtr :=
  let! x := entry_deref e u in
  assert! negb (me_squashed x) as "moveToReady: !woken_inst_entry->squashed" in
  Ok (me_inst x).

(** The store or barrier a memory instruction has to wait for, if any. *)
Definition producingStore (i : DynInst) (u : MemDepUnit) : outcome InstSeqNum :=
  if isLoad i && loadBarrier u then Ok (loadBarrierSN u)
  else if isStore i && storeBarrier u then Ok (storeBarrierSN u)
  else checkInst (instAddr i) (depPred u).

Definition producingEntry (producing_store : InstSeqNum) (u : MemDepUnit) (s : store)
  : outcome (option EntryPtr) :=
  if producing_store =? 0 then Ok None else
  match memDepHash u !! producing_store with
  | None => Ok None
  | Some e =>
      let! x := entry_deref e u in
      let! si := deref (me_inst x) s in
      Ok (if isDolmaRestricted si then None else Some e)
  end.

(** [insert]: the unit, the store and what was moved to the ready list. *)
Definition md_insert (p : DynInstPtr) (u : MemDepUnit) (s : store)
  : outcome (list DynInstPtr * MemDepUnit * store) :=
  let! i := deref p s in
  let (e, u) := newEntry p i u in
  let! producing_store := producingStore i u in
  let! store_entry := producingEntry producing_store u s in
  let! x := entry_deref e u in
  let! (ready, u, s) :=
    match store_entry with
    | None =>
        let x := set_memDepReady true x in
        if readyToIssue i then
          let u := entry_put e (set_regsReady true x) u in
          let! r := moveToReady e u in
          Ok ([r], u, s)
        else Ok ([], entry_put e x u, s)
    | Some st =>
        let x := if readyToIssue i then set_regsReady true x else x in
        let u := entry_put e x u in
        let! s := modify clearCanIssue p s in
        let! sx := entry_deref st u in
        Ok ([], entry_put st (set_dependInsts (dependInsts sx ++ [e]) sx) u, s)
    end in
  if isStore i then
    if negb (isDolmaRestricted i) then
      let! d := insertStore (instAddr i) (seqNum i) (threadNumber i) (depPred u) in
      Ok (ready, set_depPred d u, s)
    else Ok (ready, u, s)
  else if isLoad i then Ok (ready, u, s)
  else Err (PanicCall "Unknown type! (most likely a barrier).").

Definition md_insertNonSpec (p : DynInstPtr) (u : MemDepUnit) (s : store)
  : outcome MemDepUnit :=
  let! i := deref p s in
  let (_, u) := newEntry p i u in
  if isStore i then
    let! d := insertStore (instAddr i) (seqNum i) (threadNumber i) (depPred u) in
    Ok (set_depPred d u)
  else if isLoad i then Ok u
  else Err (PanicCall "Unknown type! (most likely a barrier).").

Definition md_insertBarrier (p : DynInstPtr) (u : MemDepUnit) (s : store)
  : outcome MemDepUnit :=
  let! i := deref p s in
  let sn := seqNum i in
  let u := if isMemBarrier i then set_storeBarrier true sn (set_loadBarrier true sn u)
           else if isWriteBarrier i then set_storeBarrier true sn u else u in
  Ok (newEntry p i u).2.

Definition md_regsReady (p : DynInstPtr) (u : MemDepUnit) (s : store)
  : outcome (list DynInstPtr * MemDepUnit) :=
  let! i := deref p s in
  let! e := findInHash (seqNum i) u in
  let! x := entry_deref e u in
  let u := entry_put e (set_regsReady true x) u in
  if memDepReady x then let! r := moveToReady e u in Ok ([r], u) else Ok ([], u).

Definition md_nonSpecInstReady (p : DynInstPtr) (u : MemDepUnit) (s : store)
  : outcome (list DynInstPtr) :=
  let! i := deref p s in
  let! e := findInHash (seqNum i) u in
  let! r := moveToReady e u in
  Ok [r].

Definition md_reschedule (p : DynInstPtr) (u : MemDepUnit) : MemDepUnit :=
  set_instsToReplay (instsToReplay u ++ [p]) u.

(** [replay]: every waiting instruction goes to the ready list. *)
Fixpoint replayAll (l : list DynInstPtr) (u : MemDepUnit) (s : store)
  : outcome (list DynInstPtr) :=
  match l with
  | [] => Ok []
  | p :: l' =>
      let! i := deref p s in
      let! e := findInHash (seqNum i) u in
      let! r := moveToReady e u in
      let! rs := replayAll l' u s in
      Ok (r :: rs)
  end.
Definition md_replay (u : MemDepUnit) (s : store)
  : outcome (list DynInstPtr * MemDepUnit) :=
  let! rs := replayAll (instsToReplay u) u s in
  Ok (rs, set_instsToReplay [] u).

Definition md_completed (p : DynInstPtr) (u : MemDepUnit) (s : store)
  : outcome MemDepUnit :=
  let! i := deref p s in
  match memDepHash u !! seqNum i with
  | None => Err (Assertion "completed: hash_it != memDepHash.end()")
  | Some e =>
      let tid := threadNumber i in
      let l := filter (λ e', e' ≠ e) (md_instList u tid) in
      Ok (set_memDepHash (delete (seqNum i) (memDepHash u))
            (set_md_instList (<[tid := l]> (md_instList u)) u))
  end.

(** The loop of [wakeDependents]. *)
Fixpoint wakeEach (es : list EntryPtr) (u : MemDepUnit)
  : outcome (list DynInstPtr * MemDepUnit) :=
  match es with
  | [] => Ok ([], u)
  | e :: es' =>
      let! x := entry_deref e u in
      if me_regsReady x && negb (me_squashed x) then
        let! r := moveToReady e u in
        let! (rs, u) := wakeEach es' u in
        Ok (r :: rs, u)
      else wakeEach es' (entry_put e (set_memDepReady true x) u)
  end.

Definition md_wakeDependents (p : DynInstPtr) (u : MemDepUnit) (s : store)
  : outcome (list DynInstPtr * MemDepUnit) :=
  let! i := deref p s in
  if negb (isStore i) && negb (isMemBarrier i) && negb (isWriteBarrier i)
  then Ok ([], u) else
  let! e := findInHash (seqNum i) u in
  let! x := entry_deref e u in
  let! (rs, u) := wakeEach (dependInsts x) u in
  let! x := entry_deref e u in
  Ok (rs, entry_put e (set_dependInsts [] x) u).

Definition md_completeBarrier (p : DynInstPtr) (u : MemDepUnit) (s : store)
  : outcome (list DynInstPtr * MemDepUnit) :=
  let! (rs, u) := md_wakeDependents p u s in
  let! u := md_completed p u s in
  let! i := deref p s in
  let sn := seqNum i in
  let drop_store u := if storeBarrierSN u =? sn then set_storeBarrier false sn u else u in
  let u := if isMemBarrier i then
             drop_store (if loadBarrierSN u =? sn then set_loadBarrier false sn u else u)
           else if isWriteBarrier i then drop_store u else u in
  Ok (rs, u).

(** The loop of [squash] over the thread's list, youngest first. *)
Fixpoint squashEntries (rl : list EntryPtr) (num : InstSeqNum) (u : MemDepUnit) (s : store)
  : outcome (list EntryPtr * MemDepUnit) :=
  match rl with
  | [] => Ok ([], u)
  | e :: rl' =>
      let! x := entry_deref e u in
      let! i := deref (me_inst x) s in
      let sn := seqNum i in
      if negb (num <? sn) then Ok (rl, u) else
      let u := if sn =? loadBarrierSN u then set_loadBarrier false (loadBarrierSN u) u else u in
      let u := if sn =? storeBarrierSN u then set_storeBarrier false (storeBarrierSN u) u else u in
      match memDepHash u !! sn with
      | None => Err (Assertion "squash: hash_it != memDepHash.end()")
      | Some h =>
          let! hx := entry_deref h u in
          let u := entry_put h (set_me_squashed true hx) u in
          squashEntries rl' num (set_memDepHash (delete sn (memDepHash u)) u) s
      end
  end.

(** [squash]; [None] when the predictor's loop does not end. *)
Definition md_squash (num : InstSeqNum) (tid : ThreadID) (u : MemDepUnit) (s : store)
  : outcome (option MemDepUnit) :=
  let! replay := foldM (λ acc p,
      let! i := deref p s in
      Ok (if bool_decide (threadNumber i = tid) && (num <? seqNum i) then acc
          else acc ++ [p])) (instsToReplay u) [] in
  let u := set_instsToReplay replay u in
  let! (rl, u) := squashEntries (reverse (md_instList u tid)) num u s in
  let u := set_md_instList (<[tid := reverse rl]> (md_instList u)) u in
  let! d := squashStoreSet num (depPred u) in
  Ok ((λ d, set_depPred d u) <$> d).

Definition md_violation (store_PC load_PC : Addr) (u : MemDepUnit) : outcome MemDepUnit :=
  let! d := violation store_PC load_PC (depPred u) in Ok (set_depPred d u).

Definition md_issue (p : DynInstPtr) (u : MemDepUnit) (s : store) : outcome MemDepUnit :=
  let! i := deref p s in
  let! d := issued (instAddr i) (seqNum i) (isStore i) (depPred u) in
  Ok (set_depPred d u).

(** ** Waking dependents *)

Definition wakeable (u : MemDepUnit) (e : EntryPtr) : bool :=
  match heap u !! e with
  | Some x => me_regsReady x && negb (me_squashed x)
  | None => false
  end.

Definition inst_at (u : MemDepUnit) (e : EntryPtr) : DynInstPtr :=
  match heap u !! e with Some x => me_inst x | None => 0 end.

(** Wakes the entries of [es]: the ready ones leave for the instruction queue,
    the others only lose their memory dependence. *)
Definition woken (es : list EntryPtr) (u : MemDepUnit) : gmap EntryPtr MemDepEntry :=
  map_imap (λ e x, Some (if bool_decide (e ∈ es) && negb (wakeable u e)
                         then set_memDepReady true x else x)) (heap u).

Lemma heap_put_heap e x u : heap (entry_put e x u) = <[e := x]> (heap u).
Proof. done. Qed.

Lemma woken_nil u : woken [] u = heap u.
Proof.
  apply map_eq. intros e. unfold woken. rewrite map_lookup_imap. by destruct (heap u !! e).
Qed.

Lemma wakeEach_spec es : ∀ u,
  NoDup es → Forall (λ e, is_Some (heap u !! e)) es →
  wakeEach es u = Ok (inst_at u <$> filter (λ e, wakeable u e = true) es,
                      set_heap (woken es u) u).
Proof.
  induction es as [|e es IH]; intros u Hnd Hin; cbn [wakeEach].
  { rewrite woken_nil. by destruct u. }
  apply NoDup_cons in Hnd as [He Hnd]. apply Forall_cons in Hin as [[x Hx] Hin].
  unfold entry_deref. rewrite Hx.
  assert (wakeable u e = me_regsReady x && negb (me_squashed x)) as Hw
    by (unfold wakeable; by rewrite Hx).
  rewrite <-Hw. destruct (wakeable u e) eqn:Ew.
  - unfold moveToReady, entry_deref. rewrite Hx.
    symmetry in Hw. apply andb_true_iff in Hw as [_ ->]. rewrite IH by done.
    rewrite filter_cons_True by done. cbn [fmap list_fmap]. unfold inst_at at 2. rewrite Hx.
    do 3 f_equal. unfold woken. apply map_eq. intros e'. rewrite !map_lookup_imap.
    destruct (heap u !! e') as [y|]; [|done]. cbn. do 2 f_equal.
    destruct (decide (e' = e)) as [->|Hne].
    + by rewrite Ew, !andb_false_r.
    + by rewrite (bool_decide_ext (e' ∈ e :: es) (e' ∈ es)) by set_solver.
  - set (u1 := entry_put e (set_memDepReady true x) u).
    assert (∀ e', e' ≠ e → heap u1 !! e' = heap u !! e') as Hother
      by (intros; unfold u1; by rewrite heap_put_heap, lookup_insert_ne).
    assert (∀ e', e' ∈ es → wakeable u1 e' = wakeable u e' ∧ inst_at u1 e' = inst_at u e') as Hsame.
    { intros e' He'. assert (e' ≠ e) by (by intros ->). unfold wakeable, inst_at.
      by rewrite Hother. }
    rewrite IH; [|done|].
    2:{ rewrite Forall_forall in *. intros e' He'. rewrite Hother; [auto|]. by intros ->. }
    rewrite filter_cons_False by (by rewrite Ew).
    assert (filter (λ e', wakeable u1 e' = true) es = filter (λ e', wakeable u e' = true) es) as ->.
    { clear -Hsame. induction es as [|y es IH]; [done|]. rewrite !filter_cons.
      destruct (Hsame y) as [-> _]; [left|]. rewrite IH; [done|]. intros; apply Hsame; by right. }
    do 2 f_equal.
    + apply list_fmap_ext. intros k e' Hk. apply list_elem_of_lookup_2 in Hk.
      apply list_elem_of_filter in Hk as [_ Hk]. by apply Hsame.
    + unfold set_heap, u1, entry_put. cbn. f_equal. unfold woken. apply map_eq. intros e'.
      rewrite !map_lookup_imap. cbn. destruct (decide (e' = e)) as [->|Hne].
      * rewrite lookup_insert_eq, Hx. cbn. rewrite (bool_decide_false (e ∈ es)) by done.
        rewrite Ew, bool_decide_true by left. done.
      * rewrite lookup_insert_ne by done. destruct (heap u !! e') as [y|] eqn:Ey; [|done]. cbn.
        unfold wakeable. cbn. rewrite lookup_insert_ne, Ey by done.
        by rewrite (bool_decide_ext (e' ∈ e :: es) (e' ∈ es)) by set_solver.
Qed.

(** ** Squashing *)

(** A listed entry: valid, in the hash under its instruction, not squashed. *)
Definition entry_ok (tid : ThreadID) (u : MemDepUnit) (s : store) (e : EntryPtr) : Prop :=
  ∃ x i, heap u !! e = Some x ∧ s !! me_inst x = Some i ∧ seqNum i = me_inst x ∧
    threadNumber i = tid ∧ memDepHash u !! me_inst x = Some e ∧ me_squashed x = false.

Record unit_ok (tid : ThreadID) (u : MemDepUnit) (s : store) : Prop := {
  uo_entries : Forall (entry_ok tid u s) (md_instList u tid);
  uo_sorted : StronglySorted Z.lt (inst_at u <$> md_instList u tid);
  uo_replay : Forall (λ p, is_Some (s !! p)) (instsToReplay u);
  uo_pred : store_set_ok (depPred u);
}.

Lemma entry_ok_inst tid u s e :
  entry_ok tid u s e →
  ∃ x i, heap u !! e = Some x ∧ inst_at u e = me_inst x ∧ s !! inst_at u e = Some i ∧
    seqNum i = inst_at u e ∧ memDepHash u !! inst_at u e = Some e.
Proof.
  intros (x & i & Hx & Hi & Hs & _ & Hh & _). exists x, i.
  assert (inst_at u e = me_inst x) as Ha by (unfold inst_at; by rewrite Hx).
  rewrite Ha. by split_and!.
Qed.

(** What the loop leaves: the removed entries are squashed and unhashed, and
    barriers among them dropped. *)
Record squash_effect (removed : list EntryPtr) (u u' : MemDepUnit) : Prop := {
  se_hash : ∀ sn, memDepHash u' !! sn
    = if bool_decide (sn ∈ inst_at u <$> removed) then None else memDepHash u !! sn;
  se_heap : ∀ e, heap u' !! e
    = (λ x, if bool_decide (e ∈ removed) then set_me_squashed true x else x) <$> heap u !! e;
  se_load : loadBarrierSN u' = loadBarrierSN u ∧
    loadBarrier u' = loadBarrier u && negb (bool_decide (loadBarrierSN u ∈ inst_at u <$> removed));
  se_store : storeBarrierSN u' = storeBarrierSN u ∧
    storeBarrier u' = storeBarrier u && negb (bool_decide (storeBarrierSN u ∈ inst_at u <$> removed));
  se_list : md_instList u' = md_instList u;
  se_replay : instsToReplay u' = instsToReplay u;
  se_pred : depPred u' = depPred u;
}.

Lemma squash_effect_nil u : squash_effect [] u u.
Proof.
  split; try done.
  - intros e. destruct (heap u !! e); done.
  - rewrite bool_decide_false by apply not_elem_of_nil. by rewrite andb_true_r.
  - rewrite bool_decide_false by apply not_elem_of_nil. by rewrite andb_true_r.
Qed.

(** One iteration of the loop, on an entry found in the hash. *)
Definition squashOne (sn : InstSeqNum) (e : EntryPtr) (x : MemDepEntry) (u : MemDepUnit)
  : MemDepUnit :=
  mkMemDepUnit (<[e := set_me_squashed true x]> (heap u)) (heap_next u)
    (delete sn (memDepHash u)) (md_instList u) (instsToReplay u) (depPred u)
    (loadBarrier u && negb (sn =? loadBarrierSN u)) (loadBarrierSN u)
    (storeBarrier u && negb (sn =? storeBarrierSN u)) (storeBarrierSN u).

Lemma squashEntries_cons tid e rl num u s x :
  entry_ok tid u s e → heap u !! e = Some x →
  squashEntries (e :: rl) num u s
  = if negb (num <? inst_at u e) then Ok (e :: rl, u)
    else squashEntries rl num (squashOne (inst_at u e) e x u) s.
Proof.
  intros He Hx. destruct (entry_ok_inst _ _ _ _ He) as (x' & i & Hx' & Ha & Hi & Hs & Hh).
  assert (x' = x) as -> by congruence. cbn [squashEntries].
  unfold entry_deref at 1. rewrite Hx, <-Ha. unfold deref. rewrite Hi, Hs.
  destruct (negb _); [done|]. set (sn := inst_at u e) in *.
  set (u1 := if sn =? loadBarrierSN u then _ else u).
  assert (storeBarrierSN u1 = storeBarrierSN u) as -> by (unfold u1; by destruct (_ =? _)).
  set (u2 := if sn =? storeBarrierSN u then _ else u1).
  assert (memDepHash u2 = memDepHash u ∧ heap u2 = heap u) as [Hh2 Hp2]
    by (unfold u2, u1; destruct (_ =? _), (_ =? _); done).
  rewrite Hh2, Hh. unfold entry_deref. rewrite Hp2, Hx. f_equal.
  clear -u2. unfold squashOne, u2, u1.
  destruct (sn =? loadBarrierSN u), (sn =? storeBarrierSN u); cbn [negb];
    rewrite ?andb_true_r, ?andb_false_r; by destruct u.
Qed.

Lemma squashOne_effect tid u s e x :
  entry_ok tid u s e → heap u !! e = Some x →
  squash_effect [e] u (squashOne (inst_at u e) e x u).
Proof.
  intros He Hx. set (sn := inst_at u e) in *.
  assert (∀ k, k ∈ inst_at u <$> [e] ↔ k = sn) as Hk by (intros; cbn; set_solver).
  split; cbn; try done.
  - intros k. rewrite (bool_decide_ext _ (k = sn)) by apply Hk.
    case_bool_decide as Hks; [subst; apply lookup_delete_eq|by apply lookup_delete_ne].
  - intros k. rewrite (bool_decide_ext _ (k = e)) by apply list_elem_of_singleton.
    case_bool_decide as Hke; [subst; by rewrite lookup_insert_eq, Hx|].
    rewrite lookup_insert_ne by done. by destruct (heap u !! k).
  - split; [done|]. do 2 f_equal. rewrite (bool_decide_ext _ (loadBarrierSN u = sn)) by apply Hk.
    rewrite Z.eqb_sym. by destruct (Z.eqb_spec (loadBarrierSN u) sn); case_bool_decide.
  - split; [done|]. do 2 f_equal. rewrite (bool_decide_ext _ (storeBarrierSN u = sn)) by apply Hk.
    rewrite Z.eqb_sym. by destruct (Z.eqb_spec (storeBarrierSN u) sn); case_bool_decide.
Qed.

Lemma squash_effect_inst removed u u' e : squash_effect removed u u' → inst_at u' e = inst_at u e.
Proof.
  intros H. unfold inst_at. rewrite (se_heap _ _ _ H). destruct (heap u !! e); [|done].
  cbn. by case_bool_decide.
Qed.

Lemma squash_effect_trans r1 r2 u1 u2 u3 :
  squash_effect r1 u1 u2 → squash_effect r2 u2 u3 → squash_effect (r1 ++ r2) u1 u3.
Proof.
  intros H1 H2.
  assert (∀ k, k ∈ inst_at u1 <$> r1 ++ r2 ↔ k ∈ inst_at u1 <$> r1 ∨ k ∈ inst_at u2 <$> r2) as Hk.
  { intros k. rewrite fmap_app, elem_of_app.
    assert (inst_at u2 <$> r2 = inst_at u1 <$> r2) as ->; [|done].
    apply list_fmap_ext. intros. by eapply squash_effect_inst. }
  assert (∀ k, bool_decide (k ∈ inst_at u1 <$> r1 ++ r2)
    = bool_decide (k ∈ inst_at u1 <$> r1) || bool_decide (k ∈ inst_at u2 <$> r2)) as Hb.
  { intros k. rewrite (bool_decide_ext _ _ (Hk k)). apply bool_decide_or. }
  destruct H1 as [Hh1 Hp1 [Hl1 Hlb1] [Hs1 Hsb1] Hli1 Hr1 Hd1],
    H2 as [Hh2 Hp2 [Hl2 Hlb2] [Hs2 Hsb2] Hli2 Hr2 Hd2]. split; try congruence.
  - intros sn. rewrite Hh2, Hh1, Hb.
    by destruct (bool_decide (sn ∈ inst_at u1 <$> r1)), (bool_decide (sn ∈ inst_at u2 <$> r2)).
  - intros e. rewrite Hp2, Hp1. destruct (heap u1 !! e); [|done]. cbn. f_equal.
    rewrite (bool_decide_ext _ _ (elem_of_app r1 r2 e)), bool_decide_or.
    by destruct (bool_decide (e ∈ r1)), (bool_decide (e ∈ r2)).
  - split; [congruence|]. rewrite Hlb2, Hlb1, Hl1, Hb, negb_orb. by rewrite andb_assoc.
  - split; [congruence|]. rewrite Hsb2, Hsb1, Hs1, Hb, negb_orb. by rewrite andb_assoc.
Qed.

(** Entries other than the removed ones stay valid. *)
Lemma entry_ok_effect tid removed u u' s e :
  squash_effect removed u u' → entry_ok tid u s e →
  inst_at u e ∉ inst_at u <$> removed → entry_ok tid u' s e.
Proof.
  intros H He Hn. destruct He as (x & i & Hx & Hi & Hs & Ht & Hh & Hsq).
  assert (inst_at u e = me_inst x) as Ha by (unfold inst_at; by rewrite Hx). rewrite Ha in Hn.
  assert (e ∉ removed) as Hr.
  { intros Hin. apply Hn. rewrite <-Ha. by apply list_elem_of_fmap_2. }
  exists x, i. rewrite (se_heap _ _ _ H), (se_hash _ _ _ H), Hx. cbn.
  by rewrite !bool_decide_false.
Qed.

Lemma squashEntries_spec tid num s : ∀ rl u,
  Forall (entry_ok tid u s) rl → StronglySorted Z.gt (inst_at u <$> rl) →
  ∃ u', squashEntries rl num u s = Ok (filter (λ e, inst_at u e <= num) rl, u') ∧
    squash_effect (filter (λ e, num < inst_at u e) rl) u u'.
Proof.
  induction rl as [|e rl IH]; intros u Hall Hs.
  { exists u. split; [done|apply squash_effect_nil]. }
  apply Forall_cons in Hall as [He Hall]. cbn in Hs. apply StronglySorted_cons in Hs as [Hgt Hs].
  assert (∃ x, heap u !! e = Some x) as [x Hx] by (destruct He as (x & ? & ? & _); eauto).
  rewrite (squashEntries_cons tid e rl num u s x He Hx).
  assert (∀ e', e' ∈ rl → inst_at u e' < inst_at u e) as Hlt.
  { intros e' He'. rewrite Forall_fmap in Hgt.
    pose proof (proj1 (Forall_forall _ _) Hgt e' He'). cbn in *. lia. }
  destruct (Z.ltb_spec num (inst_at u e)) as [Hlt1|Hge]; cbn [negb].
  - pose proof (squashOne_effect tid u s e x He Hx) as Heff.
    set (u1 := squashOne (inst_at u e) e x u) in *.
    assert (∀ e', inst_at u1 e' = inst_at u e') as Hi by (intros; by eapply squash_effect_inst).
    destruct (IH u1) as (u' & Hu' & Heff').
    + rewrite Forall_forall in *. intros e' He'. eapply entry_ok_effect; [done|auto|].
      cbn. rewrite list_elem_of_singleton. intros Heq. specialize (Hlt e' He'). lia.
    + assert (inst_at u1 <$> rl = inst_at u <$> rl) as ->; [|done].
      apply list_fmap_ext. intros. apply Hi.
    + rewrite (list_filter_iff _ (λ e', inst_at u e' <= num)) in Hu' by (intros; by rewrite Hi).
      rewrite (list_filter_iff _ (λ e', num < inst_at u e')) in Heff' by (intros; by rewrite Hi).
      exists u'. rewrite filter_cons_False by lia. rewrite filter_cons_True by done.
      split; [done|]. apply (squash_effect_trans [e] _ u u1); done.
  - exists u. assert (Forall (λ e', inst_at u e' <= num) (e :: rl)) as Hle.
    { constructor; [done|]. apply Forall_forall. intros e' He'. specialize (Hlt e' He'). lia. }
    rewrite filter_all by done.
    rewrite filter_none by (eapply Forall_impl; [exact Hle|]; intros; cbn in *; lia).
    split; [done|apply squash_effect_nil].
Qed.

(** The replay list without the squashed instructions. *)
Definition replay_kept (num : InstSeqNum) (tid : ThreadID) (s : store) (p : DynInstPtr) : Prop :=
  match s !! p with
  | Some i => bool_decide (threadNumber i = tid) && (num <? seqNum i) = false
  | None => True
  end.
#[export] Instance replay_kept_dec num tid s p : Decision (replay_kept num tid s p).
Proof. unfold replay_kept. destruct (s !! p); apply _. Defined.

Lemma replay_filter num tid s l : ∀ acc,
  Forall (λ p, is_Some (s !! p)) l →
  foldM (λ acc p,
      let! i := deref p s in
      Ok (if bool_decide (threadNumber i = tid) && (num <? seqNum i) then acc
          else acc ++ [p])) l acc
  = Ok (acc ++ filter (replay_kept num tid s) l).
Proof.
  induction l as [|p l IH]; intros acc Hl; cbn [foldM]; [by rewrite app_nil_r|].
  apply Forall_cons in Hl as [[i Hi] Hl]. unfold deref. rewrite Hi.
  destruct (_ && _) eqn:Eb; rewrite IH by done; f_equal.
  - rewrite filter_cons_False; [done|]. unfold replay_kept. rewrite Hi. by rewrite Eb.
  - rewrite filter_cons_True, <-app_assoc; [done|]. unfold replay_kept. by rewrite Hi.
Qed.

Lemma reverse_filter {A} (P : A → Prop) `{∀ x, Decision (P x)} (l : list A) :
  reverse (filter P (reverse l)) = filter P l.
Proof. by rewrite filter_reverse, reverse_involutive. Qed.

(** The whole [squash] of the unit. *)
Lemma md_squash_spec num tid u s :
  unit_ok tid u s →
  let removed := filter (λ e, num < inst_at u e) (md_instList u tid) in
  let gone sn := bool_decide (sn ∈ inst_at u <$> removed) in
  ∃ u', md_squash num tid u s = Ok (Some u') ∧ unit_ok tid u' s ∧
    (∀ sn, memDepHash u' !! sn = if gone sn then None else memDepHash u !! sn) ∧
    (∀ e, heap u' !! e = (λ x, if bool_decide (e ∈ removed) then set_me_squashed true x else x)
                         <$> heap u !! e) ∧
    loadBarrier u' = loadBarrier u && negb (gone (loadBarrierSN u)) ∧
    storeBarrier u' = storeBarrier u && negb (gone (storeBarrierSN u)) ∧
    md_instList u' = <[tid := filter (λ e, inst_at u e <= num) (md_instList u tid)]> (md_instList u) ∧
    instsToReplay u' = filter (replay_kept num tid s) (instsToReplay u).
Proof.
  intros [Hent Hsort Hrep Hpred] removed gone. unfold md_squash.
  rewrite (replay_filter num tid s _ [] Hrep). cbn [app].
  set (u0 := set_instsToReplay _ u).
  assert (Forall (entry_ok tid u0 s) (reverse (md_instList u0 tid))) as Hent0
    by by apply Forall_reverse.
  assert (StronglySorted Z.gt (inst_at u0 <$> reverse (md_instList u0 tid))) as Hsort0.
  { rewrite fmap_reverse. by apply StronglySorted_reverse. }
  destruct (squashEntries_spec tid num s _ u0 Hent0 Hsort0) as (u1 & -> & Heff).
  set (u2 := set_md_instList _ u1).
  assert (store_set_ok (depPred u2)) as Hp2 by (cbn; by rewrite (se_pred _ _ _ Heff)).
  unfold squashStoreSet. rewrite (squashFrom_spec num _ _ Hp2) by lia. cbn [fmap option_fmap option_map].
  set (d := set_storeList _ _). rewrite filter_reverse in Heff.
  change (inst_at u0) with (inst_at u) in *. change (md_instList u0) with (md_instList u) in *.
  fold removed in Heff.
  assert (md_instList u2 = <[tid := filter (λ e, inst_at u e <= num) (md_instList u tid)]> (md_instList u)) as Hl2.
  { cbn. rewrite reverse_filter, (se_list _ _ _ Heff). done. }
  assert (∀ sn, gone sn = bool_decide (sn ∈ inst_at u <$> reverse removed)) as Hgone.
  { intros sn. apply bool_decide_ext. by rewrite fmap_reverse, elem_of_reverse. }
  exists (set_depPred d u2). split_and!; try done.
  - split; cbn [md_instList set_depPred]; rewrite ?Hl2, ?fn_lookup_insert.
    + rewrite Forall_forall in *. intros e [Hle He]%list_elem_of_filter.
      assert (entry_ok tid u1 s e) as Hok; [|exact Hok].
      eapply entry_ok_effect; [exact Heff|by apply Hent|]. intros Hin.
      apply list_elem_of_fmap in Hin as (e' & Heq & He').
      apply elem_of_reverse, list_elem_of_filter in He' as [Hgt _].
      change (inst_at u0) with (inst_at u) in *. lia.
    + assert (inst_at (set_depPred d u2) <$> filter (λ e, inst_at u e <= num) (md_instList u tid)
        = inst_at u <$> filter (λ e, inst_at u e <= num) (md_instList u tid)) as ->.
      { apply list_fmap_ext. intros. exact (squash_effect_inst _ _ _ _ Heff). }
      clear -Hsort. induction (md_instList u tid) as [|e l IH]; [constructor|].
      cbn in Hsort. apply StronglySorted_cons in Hsort as [Hall Hsort].
      destruct (decide (inst_at u e <= num));
        [rewrite filter_cons_True by done|rewrite filter_cons_False by done; auto].
      cbn. constructor; [auto|]. rewrite Forall_fmap in *. rewrite Forall_forall in *.
      intros e' [_ He']%list_elem_of_filter. by apply Hall.
    + cbn. rewrite (se_replay _ _ _ Heff). cbn. rewrite Forall_forall in *.
      intros p [_ Hp]%list_elem_of_filter. auto.
    + destruct Hp2 as [Ht [Hs Hla]]. subst d. destruct Ht. split; split; cbn; auto.
      * unfold invalidate. by rewrite length_imap.
      * by apply StronglySorted_filter.
      * rewrite Forall_forall in *. intros e [_ He]%list_elem_of_filter. auto.
  - intros sn. rewrite Hgone. apply (se_hash _ _ _ Heff).
  - intros e. rewrite (bool_decide_ext _ (e ∈ reverse removed)) by by rewrite elem_of_reverse.
    apply (se_heap _ _ _ Heff).
  - rewrite Hgone. apply (se_load _ _ _ Heff).
  - rewrite Hgone. apply (se_store _ _ _ Heff).
  - cbn. by rewrite (se_replay _ _ _ Heff).
Qed.

(** ** An example: a store and a load predicted to depend on it *)
Module MemDepExample.
Definition flagset (fs : list StaticFlag) : bitset := fold_right (λ f s, bs_set s f) 0%N fs.
Definition inst (sn : Z) (pc0 : Addr) (fs : list StaticFlag) (bs : list Status) : DynInst :=
  set_status (fold_right (λ b s, bs_set s b) 0%N bs)
    (initInst (mkStaticInst (flagset fs) 0 0 0 "") pc0 sn 0).
Definition insts (bs : list Status) : store :=
  {[ 5 := inst 5 0x40 [IsMemRef; IsStore] bs; 6 := inst 6 0x84 [IsMemRef; IsLoad] [CanIssue] ]}.
Definition insert (p : DynInstPtr) (us : MemDepUnit * store) : MemDepUnit * store :=
  match md_insert p us.1 us.2 with Ok (_, u, s) => (u, s) | Err _ => us end.
(** Only the store. *)
Definition one (bs : list Status) : MemDepUnit * store :=
  insert 5 (newMemDepUnit ex_store_set, insts bs).
(** The unit with the store in the predictor, and the store restricted since. *)
Definition unit1 : MemDepUnit := (one []).1.
Definition shadowed : store := insts [ControlRestricted].
Definition load6 : DynInst := inst 6 0x84 [IsMemRef; IsLoad] [CanIssue].
(** The load waits for the store. *)
Definition two : MemDepUnit * store := insert 6 (one []).

Lemma two_ok : unit_ok 0 two.1 two.2.
Proof.
  assert (depPred two.1 = ex_pending) as Hp by (vm_compute; reflexivity).
  split; [| | |rewrite Hp; apply ex_pending_ok].
  - assert (md_instList two.1 0%nat = [0%nat; 1%nat]) as -> by (vm_compute; reflexivity).
    repeat constructor; eexists _, _; vm_compute; (split_and!; reflexivity).
  - assert (inst_at two.1 <$> md_instList two.1 0%nat = [5; 6]) as -> by (vm_compute; reflexivity).
    repeat constructor.
  - assert (instsToReplay two.1 = []) as -> by (vm_compute; reflexivity). constructor.
Qed.
End MemDepExample.

(** ** Theorems *)

(** DOLMA: a restricted store holds nothing back.  When the store or
    barrier the predictor names is restricted (or gone), [MemDepUnit::insert]
    leaves the new memory instruction free of memory dependences: it may issue
    as soon as its registers are ready, is handed to the instruction queue at
    once when they are, and no instruction is changed. *)
Theorem restricted_store_ignored p u s i sn ready u' s' :
  s !! p = Some i → md_insert p u s = Ok (ready, u', s') →
  producingStore i u = Ok sn →
  (∀ e x si, memDepHash (newEntry p i u).2 !! sn = Some e →
     heap (newEntry p i u).2 !! e = Some x → s !! me_inst x = Some si →
     isDolmaRestricted si = true) →
  ready = (if readyToIssue i then [p] else []) ∧ s' = s ∧
  heap u' !! heap_next u = Some (mkMemDepEntry p [] (readyToIssue i) true false).
Proof.
  intros Hi H Hp Hr. unfold md_insert, deref in H. rewrite Hi in H.
  destruct (newEntry p i u) as [e u1] eqn:En.
  assert (e = heap_next u ∧ heap u1 !! e = Some (mkMemDepEntry p [] false false false) ∧
          producingStore i u1 = producingStore i u) as (-> & Hx & Hps).
  { unfold newEntry in En. injection En as <- <-. cbn. by rewrite lookup_insert_eq. }
  rewrite Hps, Hp in H. cbn [snd] in Hr.
  destruct (producingEntry sn u1 s) as [[st|]|] eqn:Ep; [| |discriminate].
  - exfalso. unfold producingEntry in Ep. destruct (sn =? 0); [done|].
    destruct (memDepHash u1 !! sn) as [e'|]; [|done].
    unfold entry_deref in Ep. destruct (heap u1 !! e') as [x|] eqn:Ex; [|done].
    unfold deref in Ep. destruct (s !! me_inst x) as [si|] eqn:Es; [|done].
    by rewrite (Hr e' x si) in Ep.
  - unfold entry_deref in H. rewrite Hx in H.
    assert (∃ u2, (u', s', ready) = (u2, s, if readyToIssue i then [p] else []) ∧
      heap u2 !! heap_next u = Some (mkMemDepEntry p [] (readyToIssue i) true false)) as (u2 & Heq & ?).
    { destruct (readyToIssue i).
      - unfold moveToReady, entry_deref, entry_put in H. cbn in H. rewrite lookup_insert_eq in H.
        cbn in H. destruct (isStore i); [destruct (negb _); [inv_ok1 H|]|destruct (isLoad i); [|discriminate]];
          inv_ok H; eexists; (split; [reflexivity|]); cbn; by rewrite lookup_insert_eq.
      - unfold entry_put in H. cbn in H.
        destruct (isStore i); [destruct (negb _); [inv_ok1 H|]|destruct (isLoad i); [|discriminate]];
          inv_ok H; eexists; (split; [reflexivity|]); cbn; by rewrite lookup_insert_eq. }
    by simplify_eq.
Qed.

Lemma restricted_store_ignored_witness :
  ∃ ready u' s', md_insert 6 MemDepExample.unit1 MemDepExample.shadowed = Ok (ready, u', s') ∧
  (ready = (if readyToIssue MemDepExample.load6 then [6] else []) ∧
   s' = MemDepExample.shadowed ∧
   heap u' !! heap_next MemDepExample.unit1
   = Some (mkMemDepEntry 6 [] (readyToIssue MemDepExample.load6) true false)).
Proof.
  destruct (md_insert 6 MemDepExample.unit1 MemDepExample.shadowed) as [[[ready u'] s']|] eqn:E;
    [|exfalso; vm_compute in E; discriminate].
  exists ready, u', s'. split; [done|].
  apply (restricted_store_ignored 6 _ _ _ 5 ready u' s'); [by_eval|exact E|by_eval|].
  intros e x si He Hx Hs. vm_compute in He. injection He as <-. vm_compute in Hx.
  injection Hx as <-. vm_compute in Hs. injection Hs as <-. by_eval.
Defined.

(** when a store completes, [MemDepUnit::wakeDependents] hands to the
    instruction queue exactly the instructions that waited for it, whose
    registers are ready and which are not squashed, in the order they were
    added; every other waiting one loses its memory dependence, and the store
    has no dependents left. *)
Theorem wake_dependents_exact p u s i e x :
  s !! p = Some i → isStore i = true → memDepHash u !! seqNum i = Some e →
  heap u !! e = Some x → NoDup (dependInsts x) → (e ∉ dependInsts x) →
  Forall (λ d, is_Some (heap u !! d)) (dependInsts x) →
  md_wakeDependents p u s
  = Ok (inst_at u <$> filter (λ d, wakeable u d = true) (dependInsts x),
        set_heap (<[e := set_dependInsts [] x]> (woken (dependInsts x) u)) u).
Proof.
  intros Hi Hst Hh Hx Hnd He Hall. unfold md_wakeDependents, deref. rewrite Hi, Hst.
  cbn [negb andb]. unfold findInHash. rewrite Hh. unfold entry_deref at 1. rewrite Hx.
  rewrite wakeEach_spec by done. unfold entry_deref. cbn [heap set_heap].
  assert (woken (dependInsts x) u !! e = Some x) as ->; [|done].
  unfold woken. rewrite map_lookup_imap, Hx. cbn. by rewrite bool_decide_false.
Qed.

Lemma wake_dependents_exact_witness :
  let (u, s) := MemDepExample.two in
  ∃ x, heap u !! 0%nat = Some x ∧ dependInsts x = [1%nat] ∧
  md_wakeDependents 5 u s
  = Ok (inst_at u <$> filter (λ d, wakeable u d = true) (dependInsts x),
        set_heap (<[0%nat := set_dependInsts [] x]> (woken (dependInsts x) u)) u).
Proof.
  exists (mkMemDepEntry 5 [1%nat] false true false). split; [by_eval|]. split; [by_eval|].
  eapply (wake_dependents_exact 5); by_eval.
Defined.

(** [MemDepUnit::squash] terminates and removes from the thread's list and
    from the hash exactly the instructions younger than the squash point, marks
    exactly their entries squashed so that no store can wake them later, lifts
    a barrier exactly when its instruction is among them, and keeps the unit
    well formed. *)
Theorem memdep_squash_exact num tid u s :
  unit_ok tid u s →
  let gone sn := bool_decide
    (sn ∈ inst_at u <$> filter (λ e, num < inst_at u e) (md_instList u tid)) in
  ∃ u', md_squash num tid u s = Ok (Some u') ∧ unit_ok tid u' s ∧
    md_instList u' tid = filter (λ e, inst_at u e <= num) (md_instList u tid) ∧
    (∀ sn, memDepHash u' !! sn = if gone sn then None else memDepHash u !! sn) ∧
    (∀ e, e ∈ md_instList u tid → num < inst_at u e → wakeable u' e = false) ∧
    loadBarrier u' = loadBarrier u && negb (gone (loadBarrierSN u)) ∧
    storeBarrier u' = storeBarrier u && negb (gone (storeBarrierSN u)).
Proof.
  intros Hok gone.
  destruct (md_squash_spec num tid u s Hok)
    as (u' & Hsq & Hok' & Hh & Hp & Hl & Hs & Hli & _).
  exists u'. split_and!; auto.
  - by rewrite Hli, fn_lookup_insert.
  - intros e He Hlt. unfold wakeable. rewrite Hp. destruct (heap u !! e) as [x|]; [|done]. cbn.
    rewrite bool_decide_true by by apply list_elem_of_filter. cbn. apply andb_false_r.
Qed.

Lemma memdep_squash_exact_witness :
  ∃ u', md_squash 5 0 MemDepExample.two.1 MemDepExample.two.2 = Ok (Some u') ∧
    md_instList u' 0%nat = [0%nat].
Proof.
  destruct (memdep_squash_exact 5 0 _ _ MemDepExample.two_ok) as (u' & H1 & _ & H2 & _).
  exists u'. split; [exact H1|]. rewrite H2. by_eval.
Defined.
