(* ===== verification/InstQueue.v ===== *)
(** * The instruction queue

    [InstructionQueue] ([cpu/o3/inst_queue.hh], [cpu/o3/inst_queue_impl.hh]):
    instructions wait here for their source registers, are woken through the
    dependency graph, and are issued oldest first per operation class while
    functional units last.  DOLMA's data rule lives here: a completed inducer
    taints the instructions it wakes, a tainted producer taints what reads its
    register later, and an unsafe instruction that holds up an older one is
    stalled until it is safe.

    Ready queues ([std::priority_queue] ordered by sequence number) are sorted
    lists of pointers; a pointer is its instruction's sequence number.  The
    iterator [readyIt] of a class denotes the class's only entry of
    [listOrder]. *)

From S2P Require Import Prelude Regs Config DynInst Metadata Rob StoreSet DepGraph FUPool.
From S2P Require Import MemDepUnit.

Local Open Scope Z_scope.

Record InstQueue := mkInstQueue {
  iq_instList : ThreadID → list DynInstPtr;
  iq_numEntries : Z;
  freeEntries : Z; (** [unsigned] *)
  iq_count : ThreadID → Z;
  iq_numThreads : nat;
  iqPolicy : ROBPolicy; (** the same three sharing policies *)
  iq_maxEntries : ThreadID → Z;
  iq_activeThreads : list ThreadID;
  totalWidth : nat;
  readyInsts : nat → list DynInstPtr; (** per op class, oldest first *)
  queueOnList : nat → bool;
  listOrder : list (nat * InstSeqNum); (** [queueType], [oldestInst] *)
  instsToExecute : list DynInstPtr;
  nonSpecInsts : gmap InstSeqNum DynInstPtr;
  deferredMemInsts : list DynInstPtr;
  blockedMemInsts : list DynInstPtr;
  retryMemInsts : list DynInstPtr;
  dolmaStalledInsts : list DynInstPtr;
  dependGraphOf : DependencyGraph;
  regScoreboard : list bool;
  regToProducerInst : list (option DynInstPtr);
  iq_squashedSeqNum : ThreadID → InstSeqNum;
  wbOutstanding : Z;
  memDepUnits : ThreadID → MemDepUnit;
  fuPool : FUPool;
  fuCompletions : list (DynInstPtr * Z * Z); (** scheduled events: instruction, unit to free or -1, cycles *)
  i2e_size : Z; (** [issueToExecuteQueue->access(0)->size] *)
  i2e_prev : Z; (** [issueToExecuteQueue->access(-1)->size] *)
}.

Definition set_iq_instList (v : ThreadID → list DynInstPtr) (q : InstQueue) : InstQueue :=
  mkInstQueue v (iq_numEntries q) (freeEntries q) (iq_count q) (iq_numThreads q)
    (iqPolicy q) (iq_maxEntries q) (iq_activeThreads q) (totalWidth q)
    (readyInsts q) (queueOnList q) (listOrder q) (instsToExecute q)
    (nonSpecInsts q) (deferredMemInsts q) (blockedMemInsts q)
    (retryMemInsts q) (dolmaStalledInsts q) (dependGraphOf q)
    (regScoreboard q) (regToProducerInst q) (iq_squashedSeqNum q)
    (wbOutstanding q) (memDepUnits q) (fuPool q) (fuCompletions q)
    (i2e_size q) (i2e_prev q).
Definition set_freeEntries (v : Z) (q : InstQueue) : InstQueue :=
  mkInstQueue (iq_instList q) (iq_numEntries q) v (iq_count q) (iq_numThreads q)
    (iqPolicy q) (iq_maxEntries q) (iq_activeThreads q) (totalWidth q)
    (readyInsts q) (queueOnList q) (listOrder q) (instsToExecute q)
    (nonSpecInsts q) (deferredMemInsts q) (blockedMemInsts q)
    (retryMemInsts q) (dolmaStalledInsts q) (dependGraphOf q)
    (regScoreboard q) (regToProducerInst q) (iq_squashedSeqNum q)
    (wbOutstanding q) (memDepUnits q) (fuPool q) (fuCompletions q)
    (i2e_size q) (i2e_prev q).
Definition set_iq_count (v : ThreadID → Z) (q : InstQueue) : InstQueue :=
  mkInstQueue (iq_instList q) (iq_numEntries q) (freeEntries q) v (iq_numThreads q)
    (iqPolicy q) (iq_maxEntries q) (iq_activeThreads q) (totalWidth q)
    (readyInsts q) (queueOnList q) (listOrder q) (instsToExecute q)
    (nonSpecInsts q) (deferredMemInsts q) (blockedMemInsts q)
    (retryMemInsts q) (dolmaStalledInsts q) (dependGraphOf q)
    (regScoreboard q) (regToProducerInst q) (iq_squashedSeqNum q)
    (wbOutstanding q) (memDepUnits q) (fuPool q) (fuCompletions q)
    (i2e_size q) (i2e_prev q).
Definition set_iq_maxEntries (v : ThreadID → Z) (q : InstQueue) : InstQueue :=
  mkInstQueue (iq_instList q) (iq_numEntries q) (freeEntries q) (iq_count q)
    (iq_numThreads q) (iqPolicy q) v (iq_activeThreads q) (totalWidth q)
    (readyInsts q) (queueOnList q) (listOrder q) (instsToExecute q)
    (nonSpecInsts q) (deferredMemInsts q) (blockedMemInsts q)
    (retryMemInsts q) (dolmaStalledInsts q) (dependGraphOf q)
    (regScoreboard q) (regToProducerInst q) (iq_squashedSeqNum q)
    (wbOutstanding q) (memDepUnits q) (fuPool q) (fuCompletions q)
    (i2e_size q) (i2e_prev q).
Definition set_readyInsts (v : nat → list DynInstPtr) (q : InstQueue) : InstQueue :=
  mkInstQueue (iq_instList q) (iq_numEntries q) (freeEntries q) (iq_count q)
    (iq_numThreads q) (iqPolicy q) (iq_maxEntries q) (iq_activeThreads q)
    (totalWidth q) v (queueOnList q) (listOrder q) (instsToExecute q)
    (nonSpecInsts q) (deferredMemInsts q) (blockedMemInsts q)
    (retryMemInsts q) (dolmaStalledInsts q) (dependGraphOf q)
    (regScoreboard q) (regToProducerInst q) (iq_squashedSeqNum q)
    (wbOutstanding q) (memDepUnits q) (fuPool q) (fuCompletions q)
    (i2e_size q) (i2e_prev q).
Definition set_queueOnList (v : nat → bool) (q : InstQueue) : InstQueue :=
  mkInstQueue (iq_instList q) (iq_numEntries q) (freeEntries q) (iq_count q)
    (iq_numThreads q) (iqPolicy q) (iq_maxEntries q) (iq_activeThreads q)
    (totalWidth q) (readyInsts q) v (listOrder q) (instsToExecute q)
    (nonSpecInsts q) (deferredMemInsts q) (blockedMemInsts q)
    (retryMemInsts q) (dolmaStalledInsts q) (dependGraphOf q)
    (regScoreboard q) (regToProducerInst q) (iq_squashedSeqNum q)
    (wbOutstanding q) (memDepUnits q) (fuPool q) (fuCompletions q)
    (i2e_size q) (i2e_prev q).
Definition set_listOrder (v : list (nat * InstSeqNum)) (q : InstQueue) : InstQueue :=
  mkInstQueue (iq_instList q) (iq_numEntries q) (freeEntries q) (iq_count q)
    (iq_numThreads q) (iqPolicy q) (iq_maxEntries q) (iq_activeThreads q)
    (totalWidth q) (readyInsts q) (queueOnList q) v (instsToExecute q)
    (nonSpecInsts q) (deferredMemInsts q) (blockedMemInsts q)
    (retryMemInsts q) (dolmaStalledInsts q) (dependGraphOf q)
    (regScoreboard q) (regToProducerInst q) (iq_squashedSeqNum q)
    (wbOutstanding q) (memDepUnits q) (fuPool q) (fuCompletions q)
    (i2e_size q) (i2e_prev q).
Definition set_instsToExecute (v : list DynInstPtr) (q : InstQueue) : InstQueue :=
  mkInstQueue (iq_instList q) (iq_numEntries q) (freeEntries q) (iq_count q)
    (iq_numThreads q) (iqPolicy q) (iq_maxEntries q) (iq_activeThreads q)
    (totalWidth q) (readyInsts q) (queueOnList q) (listOrder q) v
    (nonSpecInsts q) (deferredMemInsts q) (blockedMemInsts q)
    (retryMemInsts q) (dolmaStalledInsts q) (dependGraphOf q)
    (regScoreboard q) (regToProducerInst q) (iq_squashedSeqNum q)
    (wbOutstanding q) (memDepUnits q) (fuPool q) (fuCompletions q)
    (i2e_size q) (i2e_prev q).
Definition set_nonSpecInsts (v : gmap InstSeqNum DynInstPtr) (q : InstQueue) : InstQueue :=
  mkInstQueue (iq_instList q) (iq_numEntries q) (freeEntries q) (iq_count q)
    (iq_numThreads q) (iqPolicy q) (iq_maxEntries q) (iq_activeThreads q)
    (totalWidth q) (readyInsts q) (queueOnList q) (listOrder q)
    (instsToExecute q) v (deferredMemInsts q) (blockedMemInsts q)
    (retryMemInsts q) (dolmaStalledInsts q) (dependGraphOf q)
    (regScoreboard q) (regToProducerInst q) (iq_squashedSeqNum q)
    (wbOutstanding q) (memDepUnits q) (fuPool q) (fuCompletions q)
    (i2e_size q) (i2e_prev q).
Definition set_deferredMemInsts (v : list DynInstPtr) (q : InstQueue) : InstQueue :=
  mkInstQueue (iq_instList q) (iq_numEntries q) (freeEntries q) (iq_count q)
    (iq_numThreads q) (iqPolicy q) (iq_maxEntries q) (iq_activeThreads q)
    (totalWidth q) (readyInsts q) (queueOnList q) (listOrder q)
    (instsToExecute q) (nonSpecInsts q) v (blockedMemInsts q)
    (retryMemInsts q) (dolmaStalledInsts q) (dependGraphOf q)
    (regScoreboard q) (regToProducerInst q) (iq_squashedSeqNum q)
    (wbOutstanding q) (memDepUnits q) (fuPool q) (fuCompletions q)
    (i2e_size q) (i2e_prev q).
Definition set_blockedMemInsts (v : list DynInstPtr) (q : InstQueue) : InstQueue :=
  mkInstQueue (iq_instList q) (iq_numEntries q) (freeEntries q) (iq_count q)
    (iq_numThreads q) (iqPolicy q) (iq_maxEntries q) (iq_activeThreads q)
    (totalWidth q) (readyInsts q) (queueOnList q) (listOrder q)
    (instsToExecute q) (nonSpecInsts q) (deferredMemInsts q) v
    (retryMemInsts q) (dolmaStalledInsts q) (dependGraphOf q)
    (regScoreboard q) (regToProducerInst q) (iq_squashedSeqNum q)
    (wbOutstanding q) (memDepUnits q) (fuPool q) (fuCompletions q)
    (i2e_size q) (i2e_prev q).
Definition set_retryMemInsts (v : list DynInstPtr) (q : InstQueue) : InstQueue :=
  mkInstQueue (iq_instList q) (iq_numEntries q) (freeEntries q) (iq_count q)
    (iq_numThreads q) (iqPolicy q) (iq_maxEntries q) (iq_activeThreads q)
    (totalWidth q) (readyInsts q) (queueOnList q) (listOrder q)
    (instsToExecute q) (nonSpecInsts q) (deferredMemInsts q)
    (blockedMemInsts q) v (dolmaStalledInsts q) (dependGraphOf q)
    (regScoreboard q) (regToProducerInst q) (iq_squashedSeqNum q)
    (wbOutstanding q) (memDepUnits q) (fuPool q) (fuCompletions q)
    (i2e_size q) (i2e_prev q).
Definition set_dolmaStalledInsts (v : list DynInstPtr) (q : InstQueue) : InstQueue :=
  mkInstQueue (iq_instList q) (iq_numEntries q) (freeEntries q) (iq_count q)
    (iq_numThreads q) (iqPolicy q) (iq_maxEntries q) (iq_activeThreads q)
    (totalWidth q) (readyInsts q) (queueOnList q) (listOrder q)
    (instsToExecute q) (nonSpecInsts q) (deferredMemInsts q)
    (blockedMemInsts q) (retryMemInsts q) v (dependGraphOf q)
    (regScoreboard q) (regToProducerInst q) (iq_squashedSeqNum q)
    (wbOutstanding q) (memDepUnits q) (fuPool q) (fuCompletions q)
    (i2e_size q) (i2e_prev q).
Definition set_dependGraphOf (v : DependencyGraph) (q : InstQueue) : InstQueue :=
  mkInstQueue (iq_instList q) (iq_numEntries q) (freeEntries q) (iq_count q)
    (iq_numThreads q) (iqPolicy q) (iq_maxEntries q) (iq_activeThreads q)
    (totalWidth q) (readyInsts q) (queueOnList q) (listOrder q)
    (instsToExecute q) (nonSpecInsts q) (deferredMemInsts q)
    (blockedMemInsts q) (retryMemInsts q) (dolmaStalledInsts q) v
    (regScoreboard q) (regToProducerInst q) (iq_squashedSeqNum q)
    (wbOutstanding q) (memDepUnits q) (fuPool q) (fuCompletions q)
    (i2e_size q) (i2e_prev q).
Definition set_regScoreboard (v : list bool) (q : InstQueue) : InstQueue :=
  mkInstQueue (iq_instList q) (iq_numEntries q) (freeEntries q) (iq_count q)
    (iq_numThreads q) (iqPolicy q) (iq_maxEntries q) (iq_activeThreads q)
    (totalWidth q) (readyInsts q) (queueOnList q) (listOrder q)
    (instsToExecute q) (nonSpecInsts q) (deferredMemInsts q)
    (blockedMemInsts q) (retryMemInsts q) (dolmaStalledInsts q)
    (dependGraphOf q) v (regToProducerInst q) (iq_squashedSeqNum q)
    (wbOutstanding q) (memDepUnits q) (fuPool q) (fuCompletions q)
    (i2e_size q) (i2e_prev q).
Definition set_regToProducerInst (v : list (option DynInstPtr)) (q : InstQueue) : InstQueue :=
  mkInstQueue (iq_instList q) (iq_numEntries q) (freeEntries q) (iq_count q)
    (iq_numThreads q) (iqPolicy q) (iq_maxEntries q) (iq_activeThreads q)
    (totalWidth q) (readyInsts q) (queueOnList q) (listOrder q)
    (instsToExecute q) (nonSpecInsts q) (deferredMemInsts q)
    (blockedMemInsts q) (retryMemInsts q) (dolmaStalledInsts q)
    (dependGraphOf q) (regScoreboard q) v (iq_squashedSeqNum q)
    (wbOutstanding q) (memDepUnits q) (fuPool q) (fuCompletions q)
    (i2e_size q) (i2e_prev q).
Definition set_iq_squashedSeqNum (v : ThreadID → InstSeqNum) (q : InstQueue) : InstQueue :=
  mkInstQueue (iq_instList q) (iq_numEntries q) (freeEntries q) (iq_count q)
    (iq_numThreads q) (iqPolicy q) (iq_maxEntries q) (iq_activeThreads q)
    (totalWidth q) (readyInsts q) (queueOnList q) (listOrder q)
    (instsToExecute q) (nonSpecInsts q) (deferredMemInsts q)
    (blockedMemInsts q) (retryMemInsts q) (dolmaStalledInsts q)
    (dependGraphOf q) (regScoreboard q) (regToProducerInst q) v
    (wbOutstanding q) (memDepUnits q) (fuPool q) (fuCompletions q)
    (i2e_size q) (i2e_prev q).
Definition set_wbOutstanding (v : Z) (q : InstQueue) : InstQueue :=
  mkInstQueue (iq_instList q) (iq_numEntries q) (freeEntries q) (iq_count q)
    (iq_numThreads q) (iqPolicy q) (iq_maxEntries q) (iq_activeThreads q)
    (totalWidth q) (readyInsts q) (queueOnList q) (listOrder q)
    (instsToExecute q) (nonSpecInsts q) (deferredMemInsts q)
    (blockedMemInsts q) (retryMemInsts q) (dolmaStalledInsts q)
    (dependGraphOf q) (regScoreboard q) (regToProducerInst q)
    (iq_squashedSeqNum q) v (memDepUnits q) (fuPool q) (fuCompletions q)
    (i2e_size q) (i2e_prev q).
Definition set_memDepUnits (v : ThreadID → MemDepUnit) (q : InstQueue) : InstQueue :=
  mkInstQueue (iq_instList q) (iq_numEntries q) (freeEntries q) (iq_count q)
    (iq_numThreads q) (iqPolicy q) (iq_maxEntries q) (iq_activeThreads q)
    (totalWidth q) (readyInsts q) (queueOnList q) (listOrder q)
    (instsToExecute q) (nonSpecInsts q) (deferredMemInsts q)
    (blockedMemInsts q) (retryMemInsts q) (dolmaStalledInsts q)
    (dependGraphOf q) (regScoreboard q) (regToProducerInst q)
    (iq_squashedSeqNum q) (wbOutstanding q) v (fuPool q) (fuCompletions q)
    (i2e_size q) (i2e_prev q).
Definition set_fuPool (v : FUPool) (q : InstQueue) : InstQueue :=
  mkInstQueue (iq_instList q) (iq_numEntries q) (freeEntries q) (iq_count q)
    (iq_numThreads q) (iqPolicy q) (iq_maxEntries q) (iq_activeThreads q)
    (totalWidth q) (readyInsts q) (queueOnList q) (listOrder q)
    (instsToExecute q) (nonSpecInsts q) (deferredMemInsts q)
    (blockedMemInsts q) (retryMemInsts q) (dolmaStalledInsts q)
    (dependGraphOf q) (regScoreboard q) (regToProducerInst q)
    (iq_squashedSeqNum q) (wbOutstanding q) (memDepUnits q) v
    (fuCompletions q) (i2e_size q) (i2e_prev q).
Definition set_fuCompletions (v : list (DynInstPtr * Z * Z)) (q : InstQueue) : InstQueue :=
  mkInstQueue (iq_instList q) (iq_numEntries q) (freeEntries q) (iq_count q)
    (iq_numThreads q) (iqPolicy q) (iq_maxEntries q) (iq_activeThreads q)
    (totalWidth q) (readyInsts q) (queueOnList q) (listOrder q)
    (instsToExecute q) (nonSpecInsts q) (deferredMemInsts q)
    (blockedMemInsts q) (retryMemInsts q) (dolmaStalledInsts q)
    (dependGraphOf q) (regScoreboard q) (regToProducerInst q)
    (iq_squashedSeqNum q) (wbOutstanding q) (memDepUnits q) (fuPool q) v
    (i2e_size q) (i2e_prev q).
Definition set_i2e_size (v : Z) (q : InstQueue) : InstQueue :=
  mkInstQueue (iq_instList q) (iq_numEntries q) (freeEntries q) (iq_count q)
    (iq_numThreads q) (iqPolicy q) (iq_maxEntries q) (iq_activeThreads q)
    (totalWidth q) (readyInsts q) (queueOnList q) (listOrder q)
    (instsToExecute q) (nonSpecInsts q) (deferredMemInsts q)
    (blockedMemInsts q) (retryMemInsts q) (dolmaStalledInsts q)
    (dependGraphOf q) (regScoreboard q) (regToProducerInst q)
    (iq_squashedSeqNum q) (wbOutstanding q) (memDepUnits q) (fuPool q)
    (fuCompletions q) v (i2e_prev q).
Definition set_i2e_prev (v : Z) (q : InstQueue) : InstQueue :=
  mkInstQueue (iq_instList q) (iq_numEntries q) (freeEntries q) (iq_count q)
    (iq_numThreads q) (iqPolicy q) (iq_maxEntries q) (iq_activeThreads q)
    (totalWidth q) (readyInsts q) (queueOnList q) (listOrder q)
    (instsToExecute q) (nonSpecInsts q) (deferredMemInsts q)
    (blockedMemInsts q) (retryMemInsts q) (dolmaStalledInsts q)
    (dependGraphOf q) (regScoreboard q) (regToProducerInst q)
    (iq_squashedSeqNum q) (wbOutstanding q) (memDepUnits q) (fuPool q)
    (fuCompletions q) (i2e_size q) v.


(** ** Construction and limits *)

Definition set_upto {A} (n : nat) (v : A) (f : nat → A) : nat → A :=
  λ t, if (t <? n)%nat then v else f t.

(** [resetState]; [classes] is [Num_OpClasses].  [regToProducerInst] and
    [instsToExecute] are not reset. *)
Definition iq_resetState (classes : nat) (q : InstQueue) : InstQueue :=
  let n := iq_numThreads q in
  let q := set_iq_instList (set_upto n [] (iq_instList q))
             (set_iq_count (set_upto n 0 (iq_count q)) q) in
  let q := set_freeEntries (iq_numEntries q) q in
  let q := set_regScoreboard (replicate (length (regScoreboard q)) false) q in
  let q := set_iq_squashedSeqNum (set_upto n 0 (iq_squashedSeqNum q)) q in
  let q := set_queueOnList (set_upto classes false (queueOnList q))
             (set_readyInsts (set_upto classes [] (readyInsts q)) q) in
  let q := set_nonSpecInsts ∅ (set_listOrder [] q) in
  let q := set_deferredMemInsts [] (set_blockedMemInsts [] (set_retryMemInsts [] q)) in
  set_wbOutstanding 0 (set_dolmaStalledInsts [] q).

(** The constructor; [policy] is lower case and [thresholdIQ] the limit the
    source computes from a percentage in floating point. *)
Definition newInstQueue (policy : string) (thresholdIQ : Z) (classes : nat) (entries : Z)
    (width threads physRegs : nat) (active : list ThreadID) (mdu : MemDepUnit) (fus : FUPool)
  : outcome InstQueue :=
  let make pol maxE :=
    iq_resetState classes
      (mkInstQueue (λ _, []) entries 0 (λ _, 0) threads pol maxE active width
         (λ _, []) (λ _, false) [] [] ∅ [] [] [] [] (dg_resize physRegs)
         (replicate physRegs false) (replicate physRegs None) (λ _, 0) 0 (λ _, mdu) fus [] 0 0) in
  if String.eqb policy "dynamic" then
    Ok (make Dynamic (set_upto threads entries (λ _, 0)))
  else if String.eqb policy "partitioned" then
    Ok (make Partitioned (set_upto threads (entries / Z.of_nat threads) (λ _, 0)))
  else if String.eqb policy "threshold" then
    Ok (make Threshold (set_upto threads thresholdIQ (λ _, 0)))
  else Err (Assertion "Invalid IQ Sharing Policy").

Definition iq_takeOverFrom : nat → InstQueue → InstQueue := iq_resetState.

Definition iq_entryAmount (num_threads : nat) (q : InstQueue) : Z :=
  if bool_decide (iqPolicy q = Partitioned)
  then iq_numEntries q / Z.of_nat num_threads else 0.

Definition iq_resetEntries (q : InstQueue) : InstQueue :=
  if bool_decide (iqPolicy q ≠ Dynamic) || (1 <? iq_numThreads q)%nat then
    let active := length (iq_activeThreads q) in
    fold_left (λ q t,
      if bool_decide (iqPolicy q = Partitioned)
      then set_iq_maxEntries (<[t := iq_numEntries q / Z.of_nat active]> (iq_maxEntries q)) q
      else if bool_decide (iqPolicy q = Threshold) && (active =? 1)%nat
      then set_iq_maxEntries (<[t := iq_numEntries q]> (iq_maxEntries q)) q
      else q) (iq_activeThreads q) q
  else q.

(** [unsigned] results. *)
Definition iq_numFreeEntries (q : InstQueue) : Z := freeEntries q.
Definition iq_numFreeEntriesOf (tid : ThreadID) (q : InstQueue) : Z :=
  wrap 32 (iq_maxEntries q tid - iq_count q tid).
Definition iq_isFullOf (tid : ThreadID) (q : InstQueue) : bool :=
  iq_numFreeEntriesOf tid q =? 0.
Definition iq_countInsts (q : InstQueue) : Z := wrap 32 (iq_numEntries q - freeEntries q).

(** ** Ready queues and their order *)

(** [push] of the priority queue: [top()] is the oldest. *)
Fixpoint pq_push (p : DynInstPtr) (l : list DynInstPtr) : list DynInstPtr :=
  match l with
  | [] => [p]
  | x :: l' => if p <? x then p :: l else x :: pq_push p l'
  end.

Definition pq_top (what : string) (l : list DynInstPtr) : outcome DynInstPtr :=
  match l with [] => Err (NullDeref what) | p :: _ => Ok p end.

(** Inserts before the first entry that is younger. *)
Fixpoint order_insert (e : nat * InstSeqNum) (l : list (nat * InstSeqNum))
  : list (nat * InstSeqNum) :=
  match l with
  | [] => [e]
  | x :: l' => if e.2 <? x.2 then e :: l else x :: order_insert e l'
  end.

(** The walk of [moveToYoungerInst]: before the first entry not older. *)
Fixpoint order_insert_lt (e : nat * InstSeqNum) (l : list (nat * InstSeqNum))
  : list (nat * InstSeqNum) :=
  match l with
  | [] => [e]
  | x :: l' => if x.2 <? e.2 then x :: order_insert_lt e l' else e :: l
  end.

Definition addToOrderList (op_class : nat) (q : InstQueue) : outcome InstQueue :=
  assert! negb (bool_decide (readyInsts q op_class = []))
    as "addToOrderList: !readyInsts[op_class].empty()" in
  let! top := pq_top "top()" (readyInsts q op_class) in
  Ok (set_queueOnList (<[op_class := true]> (queueOnList q))
        (set_listOrder (order_insert (op_class, top) (listOrder q)) q)).

(** [moveToYoungerInst] on the entries behind the current one. *)
Definition moveToYoungerInst (op_class : nat) (behind : list (nat * InstSeqNum))
    (q : InstQueue) : outcome (list (nat * InstSeqNum)) :=
  let! top := pq_top "top()" (readyInsts q op_class) in
  Ok (order_insert_lt (op_class, top) behind).

(** [readyIt[op_class]->oldestInst]. *)
Definition readyIt_oldest (op_class : nat) (q : InstQueue) : outcome InstSeqNum :=
  match filter (λ e, e.1 = op_class) (listOrder q) with
  | e :: _ => Ok e.2
  | [] => Err (NullDeref "*readyIt[op_class]")
  end.

(** Pushes onto the ready queue and keeps [listOrder] in step: the common end
    of [addReadyMemInst] and [addIfReady]. *)
Definition pushReady (p : DynInstPtr) (op_class : nat) (q : InstQueue) : outcome InstQueue :=
  let q := set_readyInsts
             (<[op_class := pq_push p (readyInsts q op_class)]> (readyInsts q)) q in
  if negb (queueOnList q op_class) then addToOrderList op_class q
  else
    let! top := pq_top "top()" (readyInsts q op_class) in
    let! oldest := readyIt_oldest op_class q in
    if top <? oldest then
      addToOrderList op_class
        (set_listOrder (filter (λ e, e.1 ≠ op_class) (listOrder q)) q)
    else Ok q.

Definition addReadyMemInst (p : DynInstPtr) (q : InstQueue) (s : store) : outcome InstQueue :=
  let! i := deref p s in
  pushReady p (opClass i) q.

(** What a memory dependence unit moved to the ready list. *)
Definition addReadyMemInsts (ps : list DynInstPtr) (q : InstQueue) (s : store)
  : outcome InstQueue :=
  foldM (λ q p, addReadyMemInst p q s) ps q.

Definition set_memDepUnit (tid : ThreadID) (u : MemDepUnit) (q : InstQueue) : InstQueue :=
  set_memDepUnits (<[tid := u]> (memDepUnits q)) q.

Definition addIfReady (p : DynInstPtr) (q : InstQueue) (s : store) : outcome InstQueue :=
  let! i := deref p s in
  if readyToIssue i then
    if isMemRef i then
      let tid := threadNumber i in
      let! (rs, u) := md_regsReady p (memDepUnits q tid) s in
      addReadyMemInsts rs (set_memDepUnit tid u q) s
    else pushReady p (opClass i) q
  else Ok q.

(** ** Tainting *)

Section iq.
Variable cfg : DolmaConfig.

(** Makes [p] depend on the taint of [src]: its youngest data inducer, and the
    restriction. *)
Definition taint (src : DynInst) (p : DynInst) : outcome DynInst :=
  let new_ydi := if isDataInducer src then seqNum src else ydi src in
  let p := if (ydi p =? 0) || (ydi p <? new_ydi) then set_ydi new_ydi p else p in
  if negb (isDataRestricted p) then setDataRestricted cfg p else Ok p.

Definition renamedSrcRegIdx (idx : nat) (i : DynInst) : outcome PhysRegId :=
  vec_get "_srcRegIdx" (srcRegIdx i) (Z.of_nat idx).
Definition renamedDestRegIdx (idx : nat) (i : DynInst) : outcome PhysRegId :=
  vec_get "_destRegIdx" (destRegIdx i) (Z.of_nat idx).

(** One source register of [addToDependents]. *)
Definition addSrc (p : DynInstPtr) (qsb : InstQueue * store * bool) (src_reg_idx : nat)
  : outcome (InstQueue * store * bool) :=
  let '(q, s, ret) := qsb in
  let! i := deref p s in
  if isReadySrcRegIdx i src_reg_idx then Ok (q, s, ret) else
  let! src_reg := renamedSrcRegIdx src_reg_idx i in
  assert! negb (PhysRegId_isZeroReg src_reg) as "addToDependents: !src_reg->isZeroReg()" in
  if PhysRegId_isFixedMapping src_reg then Ok (q, s, ret) else
  let flat := PhysRegId_flatIndex src_reg in
  let! ready := vec_get "regScoreboard" (regScoreboard q) flat in
  if negb ready then
    let! g := dg_insert flat p (dependGraphOf q) in
    Ok (set_dependGraphOf g q, s, true)
  else
    let! i := markSrcRegReadyIdx src_reg_idx i in
    let s := <[p := i]> s in
    let! prod := vec_get "regToProducerInst" (regToProducerInst q) flat in
    match prod with
    | None => Err (Assertion "addToDependents: regToProducerInst[flatIndex]")
    | Some pr =>
        let! src := deref pr s in
        if bool_decide (threadNumber src = threadNumber i) &&
           (isDataInducer src || isDataRestricted src) then
          assert! negb (isCommitted src) as "addToDependents: !isCommitted()" in
          let! i := taint src i in
          Ok (q, <[p := i]> s, ret)
        else Ok (q, s, ret)
    end.

Definition addToDependents (p : DynInstPtr) (q : InstQueue) (s : store)
  : outcome (InstQueue * store * bool) :=
  let! i := deref p s in
  foldM (addSrc p) (seq 0 (numSrcRegs i)) (q, s, false).

Definition addDest (p : DynInstPtr) (q : InstQueue) (dest_reg : PhysRegId) : outcome InstQueue :=
  if PhysRegId_isFixedMapping dest_reg then Ok q else
  let flat := PhysRegId_flatIndex dest_reg in
  let! e := dg_empty_at flat (dependGraphOf q) in
  if negb e then Err (PanicCall "Dependency graph not empty!") else
  let! g := dg_setInst flat p (dependGraphOf q) in
  let! b := vec_set "regScoreboard" (regScoreboard q) flat false in
  let! r := vec_set "regToProducerInst" (regToProducerInst q) flat (Some p) in
  Ok (set_regToProducerInst r (set_regScoreboard b (set_dependGraphOf g q))).

Definition addToProducers (p : DynInstPtr) (q : InstQueue) (s : store) : outcome InstQueue :=
  let! i := deref p s in
  foldM (λ q idx, let! d := renamedDestRegIdx idx i in addDest p q d)
    (seq 0 (numDestRegs i)) q.

(** ** Insertion *)

Definition enqueue (p : DynInstPtr) (i : DynInst) (q : InstQueue) : InstQueue :=
  let tid := threadNumber i in
  set_freeEntries (wrap 32 (freeEntries q - 1))
    (set_iq_instList (<[tid := iq_instList q tid ++ [p]]> (iq_instList q)) q).
(** [count[tid]] and [freeEntries] are [unsigned], so that [count[tid] >= 0]
    cannot fail. *)
Definition count_up (tid : ThreadID) (q : InstQueue) : InstQueue :=
  set_iq_count (<[tid := wrap 32 (iq_count q tid + 1)]> (iq_count q)) q.
Definition count_down (tid : ThreadID) (q : InstQueue) : InstQueue :=
  set_iq_count (<[tid := wrap 32 (iq_count q tid - 1)]> (iq_count q)) q.
Definition free_entry (q : InstQueue) : InstQueue :=
  set_freeEntries (wrap 32 (freeEntries q + 1)) q.

(** [countInsts()] is [numEntries - freeEntries], which makes the assertions
    on it hold trivially; they are left out. *)
Definition iq_insert (p : DynInstPtr) (q : InstQueue) (s : store)
  : outcome (InstQueue * store) :=
  let! i := deref p s in
  assert! negb (freeEntries q =? 0) as "insert: freeEntries != 0" in
  let q := enqueue p i q in
  let! s := modify setInIQ p s in
  let! (q, s, _) := addToDependents p q s in
  let! q := addToProducers p q s in
  let tid := threadNumber i in
  let! (q, s) :=
    if isMemRef i then
      let! (rs, u, s) := md_insert p (memDepUnits q tid) s in
      let! q := addReadyMemInsts rs (set_memDepUnit tid u q) s in
      Ok (q, s)
    else let! q := addIfReady p q s in Ok (q, s) in
  Ok (count_up tid q, s).

Definition iq_insertNonSpec (p : DynInstPtr) (q : InstQueue) (s : store)
  : outcome (InstQueue * store) :=
  let! i := deref p s in
  let q := set_nonSpecInsts (<[seqNum i := p]> (nonSpecInsts q)) q in
  assert! negb (freeEntries q =? 0) as "insertNonSpec: freeEntries != 0" in
  let q := enqueue p i q in
  let! s := modify setInIQ p s in
  let! q := addToProducers p q s in
  let tid := threadNumber i in
  let! q :=
    if isMemRef i then
      let! u := md_insertNonSpec p (memDepUnits q tid) s in Ok (set_memDepUnit tid u q)
    else Ok q in
  Ok (count_up tid q, s).

Definition iq_insertBarrier (p : DynInstPtr) (q : InstQueue) (s : store)
  : outcome (InstQueue * store) :=
  let! i := deref p s in
  let tid := threadNumber i in
  let! u := md_insertBarrier p (memDepUnits q tid) s in
  iq_insertNonSpec p (set_memDepUnit tid u q) s.

Definition getInstToExecute (q : InstQueue) : outcome (DynInstPtr * InstQueue) :=
  match instsToExecute q with
  | [] => Err (Assertion "getInstToExecute: !instsToExecute.empty()")
  | p :: l => Ok (p, set_instsToExecute l q)
  end.

(** ** Waking dependents *)

(** The head of [wakeDependentInstructions]: does the completed load induce
    data speculation?  In memory-only mode the walk stops at the first control
    inducer before the load in the thread's list. *)
Fixpoint inducerBefore (p : DynInstPtr) (l : list DynInstPtr) (s : store) : outcome bool :=
  match l with
  | [] => Err (NullDeref "wakeDependentInstructions: *it at end()")
  | x :: l' =>
      if x =? p then Ok false else
      let! i := deref x s in
      if isControlInducer i then Ok true else inducerBefore p l' s
  end.

Definition induceData (p : DynInstPtr) (q : InstQueue) (s : store) : outcome store :=
  let! i := deref p s in
  if isDolma cfg && negb (isControl i) && negb (isDataInducer i) && isLoad i then
    if isDolmaConservative cfg || (negb (isSTT cfg) && isPendingMemOrder i)
    then modifyM (setDataInducer cfg) p s
    else if isDolmaMemOnly cfg then
      let! b := inducerBefore p (iq_instList q (threadNumber i)) s in
      if b then modifyM (setDataInducer cfg) p s else Ok s
    else Ok s
  else Ok s.

(** Wakes one consumer. *)
Definition wakeOne (completed : DynInstPtr) (dest_reg : PhysRegId) (tainted : bool)
    (qs : InstQueue * store) (dep : DynInstPtr) : outcome (InstQueue * store) :=
  let '(q, s) := qs in
  assert! negb (PhysRegId_isZeroReg dest_reg) as "wakeDependents: !dest_reg->isZeroReg()" in
  assert! negb (PhysRegId_isFixedMapping dest_reg)
    as "wakeDependents: !dest_reg->isFixedMapping()" in
  assert! negb (dep =? completed) as "wakeDependents: dep_inst != completed_inst" in
  let! c := deref completed s in
  let! d := deref dep s in
  assert! bool_decide (threadNumber d = threadNumber c)
    as "wakeDependents: dep_inst->threadNumber == completed_inst->threadNumber" in
  let! d := if tainted then taint c d else Ok d in
  let! d := markSrcRegReady d in
  let s := <[dep := d]> s in
  let! q := addIfReady dep q s in
  Ok (q, s).

(** The [while] loop that pops the chain of a register; the chain bounds it. *)
Definition wakeReg (completed : DynInstPtr) (tainted : bool)
    (qsn : InstQueue * store * nat) (dest_reg : PhysRegId)
  : outcome (InstQueue * store * nat) :=
  let '(q, s, n) := qsn in
  if PhysRegId_isFixedMapping dest_reg then Ok (q, s, n) else
  let flat := PhysRegId_flatIndex dest_reg in
  let! (deps, g) := dg_pop_all (S (length (waiting (dependGraphOf q) flat))) flat
                      (dependGraphOf q) in
  let! (q, s) := foldM (wakeOne completed dest_reg tainted) deps
                   (set_dependGraphOf g q, s) in
  let! e := dg_empty_at flat (dependGraphOf q) in
  assert! e as "wakeDependents: dependGraph.empty(dest_reg)" in
  let! g := dg_clearInst flat (dependGraphOf q) in
  let! b := vec_set "regScoreboard" (regScoreboard q) flat true in
  Ok (set_regScoreboard b (set_dependGraphOf g q), s, n + length deps)%nat.

Definition wakeDependentInstructions (p : DynInstPtr) (q : InstQueue) (s : store)
  : outcome (InstQueue * store * nat) :=
  let! s := induceData p q s in
  let! c := deref p s in
  let tainted := isDataInducer c || isDataRestricted c in
  foldM (λ qsn idx, let! d := renamedDestRegIdx idx c in wakeReg p tainted qsn d)
    (seq 0 (numDestRegs c)) (q, s, 0%nat).

Definition completeMemInst (p : DynInstPtr) (q : InstQueue) (s : store)
  : outcome (InstQueue * store) :=
  let! i := deref p s in
  let tid := threadNumber i in
  let q := free_entry q in
  let s := <[p := flag_assign MemOpDone true (clearInIQ i)]> s in
  let! u := md_completed p (memDepUnits q tid) s in
  Ok (count_down tid (set_memDepUnit tid u q), s).

Definition wakeDependents (p : DynInstPtr) (q : InstQueue) (s : store)
  : outcome (InstQueue * store * nat) :=
  let! i := deref p s in
  assert! negb (isSquashed i) as "wakeDependents: !completed_inst->isSquashed()" in
  assert! negb (isDolmaStalled i) as "wakeDependents: !completed_inst->isDolmaStalled()" in
  let tid := threadNumber i in
  let! (q, s) :=
    if isMemRef i then
      let! (rs, u) := md_wakeDependents p (memDepUnits q tid) s in
      let! q := addReadyMemInsts rs (set_memDepUnit tid u q) s in
      completeMemInst p q s
    else if isMemBarrier i || isWriteBarrier i then
      let! (rs, u) := md_completeBarrier p (memDepUnits q tid) s in
      let! q := addReadyMemInsts rs (set_memDepUnit tid u q) s in
      Ok (q, s)
    else Ok (q, s) in
  wakeDependentInstructions p q s.

(** ** Deferred, blocked and stalled instructions *)

Definition clearTranslation (i : DynInst) : DynInst :=
  flag_assign TranslationCompleted false (flag_assign TranslationStarted false i).

Definition rescheduleMemInst (p : DynInstPtr) (q : InstQueue) (s : store)
  : outcome (InstQueue * store) :=
  let! i := deref p s in
  let tid := threadNumber i in
  Ok (set_memDepUnit tid (md_reschedule p (memDepUnits q tid)) q,
      <[p := clearCanIssue (clearTranslation i)]> s).

Definition replayMemInst (p : DynInstPtr) (q : InstQueue) (s : store) : outcome InstQueue :=
  let! i := deref p s in
  let tid := threadNumber i in
  let! (rs, u) := md_replay (memDepUnits q tid) s in
  addReadyMemInsts rs (set_memDepUnit tid u q) s.

Definition deferMemInst (p : DynInstPtr) (q : InstQueue) : InstQueue :=
  set_deferredMemInsts (deferredMemInsts q ++ [p]) q.

Definition blockMemInst (p : DynInstPtr) (q : InstQueue) (s : store)
  : outcome (InstQueue * store) :=
  let! s := modify (λ i, clearCanIssue (clearIssued (clearTranslation i))) p s in
  Ok (set_blockedMemInsts (blockedMemInsts q ++ [p]) q, s).

Definition dolmaStallInst (p : DynInstPtr) (q : InstQueue) (s : store)
  : outcome (InstQueue * store) :=
  let! i := deref p s in
  assert! isDolmaStalled i as "dolmaStallInst: inst->isDolmaStalled()" in
  assert! bool_decide (p ∉ dolmaStalledInsts q)
    as "dolmaStallInst: inst->seqNum != (*it)->seqNum" in
  Ok (set_dolmaStalledInsts (dolmaStalledInsts q ++ [p]) q,
      <[p := clearIssued (clearTranslation i)]> s).

Definition cacheUnblocked (q : InstQueue) : InstQueue :=
  set_blockedMemInsts [] (set_retryMemInsts (retryMemInsts q ++ blockedMemInsts q) q).

(** [erase] of the first match. *)
Fixpoint erase_first (p : DynInstPtr) (l : list DynInstPtr) : list DynInstPtr :=
  match l with
  | [] => []
  | x :: l' => if x =? p then l' else x :: erase_first p l'
  end.

Fixpoint firstDeferred (l : list DynInstPtr) (s : store) : outcome (option DynInstPtr) :=
  match l with
  | [] => Ok None
  | p :: l' =>
      let! i := deref p s in
      if translationCompleted i || isSquashed i then Ok (Some p) else firstDeferred l' s
  end.

Definition getDeferredMemInstToExecute (q : InstQueue) (s : store)
  : outcome (option (DynInstPtr * InstQueue)) :=
  let! o := firstDeferred (deferredMemInsts q) s in
  Ok ((λ p, (p, set_deferredMemInsts (erase_first p (deferredMemInsts q)) q)) <$> o).

(** The oldest instruction of the list that is no longer stalled. *)
Fixpoint oldestReleased (l : list DynInstPtr) (s : store) (oldest : option DynInstPtr)
  : outcome (option DynInstPtr) :=
  match l with
  | [] => Ok oldest
  | p :: l' =>
      let! i := deref p s in
      let oldest :=
        if negb (isDolmaStalled i) then
          match oldest with
          | None => Some p
          | Some o => if p <? o then Some p else oldest
          end
        else oldest in
      oldestReleased l' s oldest
  end.

Definition getDolmaStalledInstToExecute (q : InstQueue) (s : store)
  : outcome (option (DynInstPtr * InstQueue)) :=
  let! o := oldestReleased (dolmaStalledInsts q) s None in
  Ok ((λ p, (p, set_dolmaStalledInsts (erase_first p (dolmaStalledInsts q)) q)) <$> o).

Definition getBlockedMemInstToExecute (q : InstQueue)
  : option (DynInstPtr * InstQueue) :=
  match retryMemInsts q with
  | [] => None
  | p :: l => Some (p, set_retryMemInsts l q)
  end.

(** The three [while] loops at the head of [scheduleReadyInsts]; the lists
    bound them. *)
Fixpoint drainStalled (n : nat) (q : InstQueue) (s : store) : outcome InstQueue :=
  match n with
  | O => Ok q
  | S n' =>
      let! o := getDolmaStalledInstToExecute q s in
      match o with
      | None => Ok q
      | Some (p, q) => let! q := addReadyMemInst p q s in drainStalled n' q s
      end
  end.
Fixpoint drainDeferred (n : nat) (q : InstQueue) (s : store) : outcome InstQueue :=
  match n with
  | O => Ok q
  | S n' =>
      let! o := getDeferredMemInstToExecute q s in
      match o with
      | None => Ok q
      | Some (p, q) => let! q := addReadyMemInst p q s in drainDeferred n' q s
      end
  end.
Fixpoint drainBlocked (n : nat) (q : InstQueue) (s : store) : outcome InstQueue :=
  match n with
  | O => Ok q
  | S n' =>
      match getBlockedMemInstToExecute q with
      | None => Ok q
      | Some (p, q) => let! q := addReadyMemInst p q s in drainBlocked n' q s
      end
  end.

(** ** Issue *)

(** [fuPerCapList[op_class].getFU()]. *)
Definition nextFU (op_class : nat) (q : InstQueue) : outcome (Z * InstQueue) :=
  let p := fuPool q in
  let! fq := vec_get "fuPerCapList" (fuPerCapList p) (Z.of_nat op_class) in
  let! (i, fq) := getFU fq in
  Ok (i, set_fuPool (set_fuPerCapList (<[op_class := fq]> (fuPerCapList p)) p) q).

Definition stallOccupant (o : DynInstPtr) (q : InstQueue) (s : store)
  : outcome (InstQueue * store) :=
  let! i := deref o s in
  if isDolmaStalled i then Ok (q, s) else
  let! s := modifyM (setDolmaStalled cfg) o s in
  dolmaStallInst o q s.

(** The occupant of a unit, when it is a younger restricted instruction. *)
Definition unsafeOccupant (issuing : DynInst) (fu_idx : Z) (r : ROB)
    (busy : list InstSeqNum) (s : store) : outcome (option DynInstPtr) :=
  let! b := vec_get "unitBusy" busy fu_idx in
  assert! negb (b =? 0) as "scheduleReadyInsts: fuPool->unitBusy[fu_idx]" in
  let! o := findInst (threadNumber issuing) b r s in
  match o with
  | None => Ok None
  | Some o =>
      let! oi := deref o s in
      Ok (if isDolmaRestricted oi && (seqNum issuing <? seqNum oi) then Some o else None)
  end.

(** The search for an unsafe occupant: a younger restricted instruction that
    holds a unit the issuing one needs is stalled and its unit handed over.
    The walk is circular and ends where it started. *)
Fixpoint evict (fuel : nat) (issuing : DynInst) (op_class : nat) (start_idx fu_idx : Z)
    (r : ROB) (q : InstQueue) (s : store) : outcome (Z * InstQueue * store) :=
  match fuel with
  | O => Err (NoFuel "evict")
  | S n =>
      let! unsafe := unsafeOccupant issuing fu_idx r (unitBusy (fuPool q)) s in
      match unsafe with
      | Some o =>
          let! (q, s) := stallOccupant o q s in
          let! b := vec_set "unitBusy" (unitBusy (fuPool q)) fu_idx (seqNum issuing) in
          Ok (fu_idx, set_fuPool (set_unitBusy b (fuPool q)) q, s)
      | None =>
          let! (fu_idx, q) := nextFU op_class q in
          if fu_idx =? start_idx then Ok (NoFreeFU, q, s)
          else evict n issuing op_class start_idx fu_idx r q s
      end
  end.

(** The unit for [issuing]: [NoCapableFU], [NoFreeFU] or its index. *)
Definition acquireUnit (issuing : DynInst) (op_class : nat) (r : ROB) (q : InstQueue)
    (s : store) : outcome (Z * InstQueue * store) :=
  let! o := getUnit op_class (seqNum issuing) (fuPool q) in
  match o with
  | None => Err (NoFuel "getUnit")
  | Some (idx, p) =>
      let q := set_fuPool p q in
      if isDolma cfg && negb (isSTT cfg) && (idx =? NoFreeFU) then
        let! (start_idx, q) := nextFU op_class q in
        let! fq := vec_get "fuPerCapList" (fuPerCapList (fuPool q)) (Z.of_nat op_class) in
        evict (length (funcUnitsIdx fq)) issuing op_class start_idx start_idx r q s
      else Ok (idx, q, s)
  end.

(** Sends the instruction to execute, at once or through a completion event. *)
Definition dispatchToFU (p : DynInstPtr) (op_class : nat) (idx op_latency : Z)
    (q : InstQueue) : outcome InstQueue :=
  if op_latency =? 1 then
    let q := set_instsToExecute (instsToExecute q ++ [p]) (set_i2e_size (i2e_size q + 1) q) in
    if 0 <=? idx then
      let! f := freeUnitNextCycle idx (fuPool q) in Ok (set_fuPool f q)
    else Ok q
  else
    let! pipelined := isPipelined op_class (fuPool q) in
    let q := set_wbOutstanding (wbOutstanding q + 1) q in
    let q := set_fuCompletions
               (fuCompletions q ++ [(p, if pipelined then -1 else idx, op_latency - 1)]) q in
    if pipelined then
      let! f := freeUnitNextCycle idx (fuPool q) in Ok (set_fuPool f q)
    else Ok q.

(** [processFUCompletion], run by the scheduled event. *)
Definition processFUCompletion (p : DynInstPtr) (fu_idx : Z) (q : InstQueue)
  : outcome InstQueue :=
  let q := set_wbOutstanding (wbOutstanding q - 1) q in
  let! q := if -1 <? fu_idx then
              let! f := freeUnitNextCycle fu_idx (fuPool q) in Ok (set_fuPool f q)
            else Ok q in
  Ok (set_instsToExecute (instsToExecute q ++ [p]) (set_i2e_prev (i2e_prev q + 1) q)).

(** The variables of the issue loop: [order_it] stands between the entries
    already passed and those to come. *)
Record Sched := mkSched {
  sc_q : InstQueue;
  sc_s : store;
  passed : list (nat * InstSeqNum);
  ahead : list (nat * InstSeqNum);
  total_issued : nat;
}.

(** [pop()] of a class's queue and the erasure of its order entry, which
    reappears further on when the queue is not empty. *)
Definition popReady (op_class : nat) (behind : list (nat * InstSeqNum)) (q : InstQueue)
  : outcome (InstQueue * list (nat * InstSeqNum)) :=
  let q := set_readyInsts (<[op_class := tail (readyInsts q op_class)]> (readyInsts q)) q in
  if bool_decide (readyInsts q op_class = []) then
    Ok (set_queueOnList (<[op_class := false]> (queueOnList q)) q, behind)
  else
    let! behind := moveToYoungerInst op_class behind q in
    Ok (q, behind).

Definition No_OpClass : nat := 0.

Definition schedStep (r : ROB) (op_class : nat) (behind : list (nat * InstSeqNum))
    (entry : nat * InstSeqNum) (x : Sched) : outcome Sched :=
  let q := sc_q x in
  let s := sc_s x in
  assert! negb (bool_decide (readyInsts q op_class = []))
    as "scheduleReadyInsts: !readyInsts[op_class].empty()" in
  let! p := pq_top "top()" (readyInsts q op_class) in
  let! i := deref p s in
  if isSTT cfg && isDolmaRestricted i && isLoad i then
    assert! negb (isDolmaStalled i) as "scheduleReadyInsts: !issuing_inst->isDolmaStalled()" in
    let! (q, behind) := popReady op_class behind q in
    let! s := modifyM (setDolmaStalled cfg) p s in
    let! (q, s) := dolmaStallInst p q s in
    (** the second [order_it++] steps over an entry *)
    match behind with
    | [] => Err (OutOfRange "scheduleReadyInsts: ++order_it at end()")
    | e :: behind => Ok (mkSched q s (passed x ++ [e]) behind (total_issued x))
    end
  else if isSquashed i then
    let! (q, behind) := popReady op_class behind q in
    Ok (mkSched q s (passed x) behind (total_issued x))
  else
    let! (idx, q, s) :=
      if (op_class =? No_OpClass)%nat then Ok (NoCapableFU, q, s)
      else acquireUnit i op_class r q s in
    let! op_latency :=
      if negb (op_class =? No_OpClass)%nat && (NoFreeFU <? idx)
      then getOpLatency op_class (fuPool q) else Ok 1 in
    if negb (idx =? NoFreeFU) then
      let! q := dispatchToFU p op_class idx op_latency q in
      let! (q, behind) := popReady op_class behind q in
      let! s := modify setIssued p s in
      let tid := threadNumber i in
      let! (q, s) :=
        if negb (isMemRef i) then
          let! s := modify clearInIQ p s in Ok (count_down tid (free_entry q), s)
        else
          let! u := md_issue p (memDepUnits q tid) s in
          Ok (set_memDepUnit tid u q, s) in
      Ok (mkSched q s (passed x) behind (S (total_issued x)))
    else Ok (mkSched q s (passed x ++ [entry]) behind (total_issued x)).

Fixpoint schedLoop (fuel : nat) (r : ROB) (x : Sched) : outcome (option Sched) :=
  match fuel with
  | O => Ok None
  | S n =>
      if (total_issued x <? totalWidth (sc_q x))%nat then
        match ahead x with
        | [] => Ok (Some x)
        | e :: behind =>
            let! x := schedStep r e.1 behind e x in schedLoop n r x
        end
      else Ok (Some x)
  end.

(** A bound on the iterations: each one removes a ready instruction or passes
    an entry. *)
Definition schedFuel (q : InstQueue) : nat :=
  S (length (listOrder q) +
     sum_list_with (λ e, length (readyInsts q e.1)) (listOrder q)).

Definition scheduleReadyInsts (r : ROB) (q : InstQueue) (s : store)
  : outcome (option (InstQueue * store * nat)) :=
  let! q := drainStalled (length (dolmaStalledInsts q)) q s in
  let! q := drainDeferred (length (deferredMemInsts q)) q s in
  let! q := drainBlocked (length (retryMemInsts q)) q s in
  let! o := schedLoop (schedFuel q) r (mkSched q s [] (listOrder q) 0) in
  Ok ((λ x, (set_listOrder (passed x ++ ahead x) (sc_q x), sc_s x, total_issued x)) <$> o).

Definition scheduleNonSpec (sn : InstSeqNum) (q : InstQueue) (s : store)
  : outcome (InstQueue * store) :=
  match nonSpecInsts q !! sn with
  | None => Err (Assertion "scheduleNonSpec: inst_it != nonSpecInsts.end()")
  | Some p =>
      let! i := deref p s in
      let tid := threadNumber i in
      let s := <[p := setCanIssue (setAtCommit i)]> s in
      let! q :=
        if negb (isMemRef i) then addIfReady p q s
        else
          let! rs := md_nonSpecInstReady p (memDepUnits q tid) s in
          addReadyMemInsts rs q s in
      Ok (set_nonSpecInsts (delete sn (nonSpecInsts q)) q, s)
  end.

(** ** Commit and squash *)

Fixpoint drop_committed (sn : InstSeqNum) (l : list DynInstPtr) : list DynInstPtr :=
  match l with
  | [] => []
  | p :: l' => if p <=? sn then drop_committed sn l' else l
  end.

Definition iq_commit (sn : InstSeqNum) (tid : ThreadID) (q : InstQueue) : InstQueue :=
  set_iq_instList (<[tid := drop_committed sn (iq_instList q tid)]> (iq_instList q)) q.

(** Removes a squashed instruction that is still waiting from what it waits
    for. *)
Definition unlinkSquashed (p : DynInstPtr) (i : DynInst) (q : InstQueue) : outcome InstQueue :=
  let is_acq_rel := isMemBarrier i && (isLoad i || (isStore i && negb (isStoreConditional i))) in
  if is_acq_rel || (negb (isNonSpeculative i) && negb (isStoreConditional i) &&
                    negb (isMemBarrier i) && negb (isWriteBarrier i)) then
    foldM (λ q idx,
        let! src := renamedSrcRegIdx idx i in
        if negb (isReadySrcRegIdx i idx) && negb (PhysRegId_isFixedMapping src) then
          let! g := dg_remove (PhysRegId_flatIndex src) p (dependGraphOf q) in
          Ok (set_dependGraphOf g q)
        else Ok q) (seq 0 (numSrcRegs i)) q
  else if negb (isStoreConditional i) || negb (isCompleted i) then
    match nonSpecInsts q !! seqNum i with
    | None =>
        assert! bool_decide (is_Some (fault i)) || isMemRef i
          as "doSquash: getFault() != NoFault || isMemRef()" in
        Ok q
    | Some _ => Ok (set_nonSpecInsts (delete (seqNum i) (nonSpecInsts q)) q)
    end
  else Ok q.

Definition clearProducers (i : DynInst) (q : InstQueue) : outcome InstQueue :=
  foldM (λ q idx,
      let! d := renamedDestRegIdx idx i in
      if PhysRegId_isFixedMapping d then Ok q else
      let flat := PhysRegId_flatIndex d in
      let! e := dg_empty_at flat (dependGraphOf q) in
      assert! e as "doSquash: dependGraph.empty(dest_reg)" in
      let! g := dg_clearInst flat (dependGraphOf q) in
      Ok (set_dependGraphOf g q)) (seq 0 (numDestRegs i)) q.

(** One squashed instruction. *)
Definition squashInIQ (p : DynInstPtr) (i : DynInst) (q : InstQueue) (s : store)
  : outcome (InstQueue * store) :=
  let! (q, s) :=
    if negb (isIssued i) || (isMemRef i && negb (memOpDone i)) then
      let! q := unlinkSquashed p i q in
      let! i' := setCanCommit (setIssued (setSquashedInIQ i)) in
      let s := <[p := clearInIQ i']> s in
      Ok (free_entry (count_down (threadNumber i) q), s)
    else Ok (q, s) in
  let! q := clearProducers i q in
  Ok (q, s).

(** The loop of [doSquash], youngest first: what stays in the list. *)
Fixpoint squashIQ (rl : list DynInstPtr) (tid : ThreadID) (num : InstSeqNum)
    (q : InstQueue) (s : store) : outcome (list DynInstPtr * InstQueue * store) :=
  match rl with
  | [] => Ok ([], q, s)
  | p :: rl' =>
      let! i := deref p s in
      if negb (num <? seqNum i) then Ok (rl, q, s)
      else if negb (bool_decide (threadNumber i = tid)) || isSquashedInIQ i then
        let! (l, q, s) := squashIQ rl' tid num q s in Ok (p :: l, q, s)
      else
        let! (q, s) := squashInIQ p i q s in
        squashIQ rl' tid num q s
  end.

Definition iq_doSquash (tid : ThreadID) (q : InstQueue) (s : store)
  : outcome (InstQueue * store) :=
  let! (rl, q, s) :=
    squashIQ (reverse (iq_instList q tid)) tid (iq_squashedSeqNum q tid) q s in
  Ok (set_iq_instList (<[tid := reverse rl]> (iq_instList q)) q, s).

(** [squash]; [doneSeqNum] comes from commit. *)
Definition iq_squash (doneSeqNum : InstSeqNum) (tid : ThreadID) (q : InstQueue) (s : store)
  : outcome (option (InstQueue * store)) :=
  let q := set_iq_squashedSeqNum (<[tid := doneSeqNum]> (iq_squashedSeqNum q)) q in
  let! (q, s) := iq_doSquash tid q s in
  let! u := md_squash (iq_squashedSeqNum q tid) tid (memDepUnits q tid) s in
  Ok ((λ u, (set_memDepUnit tid u q, s)) <$> u).

Definition iq_violation (tid : ThreadID) (store_PC load_PC : Addr) (q : InstQueue)
  : outcome InstQueue :=
  let! u := md_violation store_PC load_PC (memDepUnits q tid) in
  Ok (set_memDepUnit tid u q).

Definition iq_isDrained (threads : nat) (q : InstQueue) : bool :=
  dg_empty (dependGraphOf q) && bool_decide (instsToExecute q = []) &&
  (wbOutstanding q =? 0) &&
  forallb (λ t, md_isDrained threads (memDepUnits q t)) (seq 0 (iq_numThreads q)).

Definition hasReadyInsts (classes : nat) (q : InstQueue) : bool :=
  negb (bool_decide (listOrder q = [])) ||
  existsb (λ c, negb (bool_decide (readyInsts q c = []))) (seq 0 classes).

Definition iq_isFull (q : InstQueue) : bool := freeEntries q =? 0.
End iq.
