(* ===== verification/IqTaint.v ===== *)
(** * Taint propagation through the instruction queue

    DOLMA's data rule: whoever reads a value that an unresolved data inducer
    produced, directly or through other instructions, is data restricted and
    remembers an inducer at least as young.  Consumers that wait in the
    dependency graph are tainted when the producer completes
    ([wakeDependentInstructions]); consumers that arrive later are tainted on
    insertion ([addToDependents]). *)

From S2P Require Import Prelude Regs Config DynInst Metadata Rob RobSafe StoreSet DepGraph.
From S2P Require Import FUPool MemDepUnit InstQueue.

Local Open Scope Z_scope.

(** Restricted by an inducer at least as young as [y]. *)
Definition tainted_by (y : InstSeqNum) (i : DynInst) : Prop :=
  isDataRestricted i = true ∧ y <= ydi i.

(** The youngest data inducer behind the value of [c]. *)
Definition root (c : DynInst) : InstSeqNum := if isDataInducer c then seqNum c else ydi c.

Section taint.
Context (cfg : DolmaConfig).

Lemma taint_taints c i i' : taint cfg c i = Ok i' → tainted_by (root c) i'.
Proof.
  unfold taint. fold (root c). set (j := if _ || _ then _ else i). intros H.
  assert (root c <= ydi j) as Hy.
  { unfold j. destruct (Z.eqb_spec (ydi i) 0), (Z.ltb_spec (ydi i) (root c)); cbn; lia. }
  destruct (isDataRestricted j) eqn:Ej; cbn in H; [by inv_ok H|].
  unfold setDataRestricted in H. inv_ok H. split; [|done].
  revert select (negb (isSquashed j) = true). dyn_simpl. by intros ->.
Qed.

Lemma markSrcRegReady_frame i i' :
  markSrcRegReady i = Ok i' → isDataRestricted i' = isDataRestricted i ∧ ydi i' = ydi i.
Proof.
  unfold markSrcRegReady. set (j := if _ =? _ then _ else _). intros H.
  destruct (_ <? _) in H; [discriminate|]. inv_ok H. unfold j.
  destruct (_ =? _); [|done]. dyn_simpl. done.
Qed.

(** ** What waking leaves alone *)

Lemma addToOrderList_graph c q q' :
  addToOrderList c q = Ok q' → dependGraphOf q' = dependGraphOf q.
Proof. unfold addToOrderList. intros H. by inv_ok H. Qed.

Lemma pushReady_graph p c q q' : pushReady p c q = Ok q' → dependGraphOf q' = dependGraphOf q.
Proof.
  unfold pushReady. intros H. destruct (negb _); [by apply addToOrderList_graph in H|].
  inv_ok1 H. inv_ok1 H. destruct (_ <? _); [by apply addToOrderList_graph in H|by inv_ok H].
Qed.

Lemma addReadyMemInsts_graph ps q s q' :
  addReadyMemInsts ps q s = Ok q' → dependGraphOf q' = dependGraphOf q.
Proof.
  revert q. induction ps as [|p ps IH]; intros q H; unfold addReadyMemInsts in *; cbn in H;
    [by inv_ok H|]. inv_ok1 H. apply IH in H. rewrite H. unfold addReadyMemInst in E.
  inv_ok1 E. by apply pushReady_graph in E.
Qed.

Lemma addIfReady_graph p q s q' :
  addIfReady p q s = Ok q' → dependGraphOf q' = dependGraphOf q.
Proof.
  unfold addIfReady. intros H. inv_ok1 H. destruct (readyToIssue a); [|by inv_ok H].
  destruct (isMemRef a); [|by apply pushReady_graph in H].
  destruct (md_regsReady _ _ _) as [[rs u]|]; [|discriminate].
  by apply addReadyMemInsts_graph in H.
Qed.

(** ** Waking the consumers of one register *)

(** The effect of waking [deps] for the completed instruction [p]: the value's
    taint reaches each of them; without taint no restriction changes. *)
Record wakes (p : DynInstPtr) (c : DynInst) (tainted : bool) (deps : list DynInstPtr)
    (s s' : store) : Prop := {
  wk_completed : s !! p = Some c → s' !! p = Some c;
  wk_tainted : tainted = true → ∀ d, d ∈ deps → ∃ i, s' !! d = Some i ∧ tainted_by (root c) i;
  wk_kept : ∀ d i, s !! d = Some i → tainted_by (root c) i →
    ∃ i', s' !! d = Some i' ∧ tainted_by (root c) i';
  wk_clean : tainted = false → ∀ d, view isDataRestricted s' d = view isDataRestricted s d;
}.

Lemma wakes_trans p c t d1 d2 s1 s2 s3 :
  wakes p c t d1 s1 s2 → wakes p c t d2 s2 s3 → wakes p c t (d1 ++ d2) s1 s3.
Proof.
  intros [C1 T1 K1 N1] [C2 T2 K2 N2]. split.
  - auto.
  - intros Ht d [Hd|Hd]%elem_of_app; [|auto].
    destruct (T1 Ht d Hd) as (i & Hi & Hti). eauto.
  - intros d i Hi Hti. destruct (K1 d i Hi Hti) as (i' & ? & ?). eauto.
  - intros Ht d. rewrite N2, N1; auto.
Qed.

Lemma wakes_nil p c t s : wakes p c t [] s s.
Proof.
  split; [auto|intros _ d Hd; by apply not_elem_of_nil in Hd|eauto|done].
Qed.

Lemma wakeOne_wakes p reg t q s d q' s' c :
  s !! p = Some c → wakeOne cfg p reg t (q, s) d = Ok (q', s') →
  wakes p c t [d] s s' ∧ dependGraphOf q' = dependGraphOf q.
Proof.
  unfold wakeOne. intros Hp H. inv_ok1 H. inv_ok1 H. inv_ok1 H.
  apply negb_true_iff, Z.eqb_neq in E1. unfold deref in H. rewrite Hp in H.
  destruct (s !! d) as [di|] eqn:Hd; [|discriminate]. inv_ok1 H. inv_ok1 H.
  rename a into d1. inv_ok1 H. rename a into d2. inv_ok1 H. inv_ok H.
  apply addIfReady_graph in E5. apply markSrcRegReady_frame in E4 as [Hr Hy].
  split; [|done]. split.
  - intros _. by rewrite lookup_insert_ne.
  - intros -> x ->%list_elem_of_singleton. exists d2. rewrite lookup_insert_eq. split; [done|].
    apply taint_taints in E3. unfold tainted_by in *. by rewrite Hr, Hy.
  - intros x i Hx Hti. destruct (decide (x = d)) as [->|Hne].
    + exists d2. rewrite lookup_insert_eq. split; [done|]. unfold tainted_by. rewrite Hr, Hy.
      destruct t; [by apply taint_taints in E3|]. inv_ok E3.
      assert (i = d1) as -> by congruence. exact Hti.
    + exists i. by rewrite lookup_insert_ne.
  - intros -> x. inv_ok E3. unfold view. destruct (decide (x = d)) as [->|Hne].
    + by rewrite lookup_insert_eq, Hd.
    + by rewrite lookup_insert_ne.
Qed.

Lemma wakeAll_wakes p reg t c deps : ∀ q s q' s',
  s !! p = Some c → foldM (wakeOne cfg p reg t) deps (q, s) = Ok (q', s') →
  wakes p c t deps s s' ∧ dependGraphOf q' = dependGraphOf q.
Proof.
  induction deps as [|d deps IH]; intros q s q' s' Hp H; cbn [foldM] in H.
  { inv_ok H. split; [apply wakes_nil|done]. }
  destruct (wakeOne _ _ _ _ _ _) as [[q1 s1]|] eqn:E; [|discriminate].
  apply (wakeOne_wakes p reg t q s d q1 s1 c Hp) in E as [W1 G1].
  apply IH in H as [W2 G2]; [|by apply W1]. split; [|congruence].
  by apply (wakes_trans p c t [d] deps s s1 s').
Qed.

(** Graphs that only lose consumers of registers whose chains are popped. *)
Lemma wakeReg_wakes p t c reg q s n q' s' n' :
  s !! p = Some c → no_leak (dependGraphOf q) →
  wakeReg cfg p t (q, s, n) reg = Ok (q', s', n') →
  let flat := PhysRegId_flatIndex reg in
  let deps := if PhysRegId_isFixedMapping reg then [] else waiting (dependGraphOf q) flat in
  wakes p c t deps s s' ∧ no_leak (dependGraphOf q') ∧
  ∀ j, waiting (dependGraphOf q') j
       = if negb (PhysRegId_isFixedMapping reg) && (j =? flat) then []
         else waiting (dependGraphOf q) j.
Proof.
  intros Hp Hn H flat deps. unfold wakeReg in H.
  destruct (PhysRegId_isFixedMapping reg); cbn [negb andb].
  { inv_ok H. split_and!; [apply wakes_nil|done|done]. }
  fold flat in H. destruct (dg_pop_all _ _ _) as [[ds g]|] eqn:Epop; [|discriminate].
  assert (0 <= flat < Z.of_nat (length (dependGraph (dependGraphOf q)))) as Hr.
  { cbn in Epop. destruct (dg_pop flat (dependGraphOf q)) as [[? ?]|] eqn:E1; [|discriminate].
    unfold dg_pop in E1. destruct (dg_entry _ _) eqn:E2; [|discriminate].
    by apply dg_entry_range in E2. }
  destruct (dg_pop_all_spec (S (length (waiting (dependGraphOf q) flat))) flat (dependGraphOf q)
              Hr Hn) as (g' & Hpop & [Hlen Hw] & Hn'); [lia|].
  rewrite Epop in Hpop. injection Hpop as -> ->.
  destruct (foldM _ _ _) as [[q1 s1]|] eqn:Ef; [|discriminate].
  destruct (wakeAll_wakes p reg t c _ _ _ _ _ Hp Ef) as [Hwk Hg].
  cbn [dependGraphOf set_dependGraphOf] in Hg.
  inv_ok1 H. inv_ok1 H. inv_ok1 H. inv_ok1 H. inv_ok H.
  split; [done|]. cbn. unfold dg_clearInst in E1. inv_ok1 E1.
  split; [by eapply set_producer_no_leak|]. intros j.
  pose proof (waiting_update _ _ _ _ E1) as [_ Hw2]. rewrite Hw2.
  destruct (Z.eqb_spec j flat) as [->|Hne].
  - cbn. specialize (Hw flat). rewrite Z.eqb_refl in Hw. unfold waiting in Hw.
    select (dg_entry _ _ = Ok _) (fun He => by rewrite He in Hw).
  - rewrite Hw. by rewrite (proj2 (Z.eqb_neq _ _) Hne).
Qed.

(** ** All destination registers *)

Lemma wakeRegs_wakes p t c idxs : ∀ q s n q' s' n',
  s !! p = Some c → no_leak (dependGraphOf q) →
  foldM (λ qsn idx, let! d := renamedDestRegIdx idx c in wakeReg cfg p t qsn d) idxs (q, s, n)
    = Ok (q', s', n') →
  ∃ deps, wakes p c t deps s s' ∧
    ∀ idx reg d, idx ∈ idxs → destRegIdx c !! idx = Some reg →
      PhysRegId_isFixedMapping reg = false →
      d ∈ waiting (dependGraphOf q) (PhysRegId_flatIndex reg) → d ∈ deps.
Proof.
  induction idxs as [|k idxs IH]; intros q s n q' s' n' Hp Hn H; cbn [foldM] in H.
  { inv_ok H. exists []. split; [apply wakes_nil|]. intros idx reg d Hin. by apply not_elem_of_nil in Hin. }
  destruct (renamedDestRegIdx k c) as [rk|] eqn:Ek; [|discriminate].
  destruct (wakeReg _ _ _ _ _) as [[[q1 s1] n1]|] eqn:E; [|discriminate].
  destruct (wakeReg_wakes p t c rk q s n q1 s1 n1 Hp Hn E) as (W1 & Hn1 & Hw1).
  destruct (IH q1 s1 n1 q' s' n' (wk_completed _ _ _ _ _ _ W1 Hp) Hn1 H) as (deps2 & W2 & Hc2).
  eexists (_ ++ deps2). split; [by eapply wakes_trans|].
  intros idx reg d Hin Hreg Hfix Hd. rewrite elem_of_app.
  assert (∀ reg', renamedDestRegIdx k c = Ok reg' → destRegIdx c !! k = Some reg') as Hk.
  { intros reg' Hr. unfold renamedDestRegIdx in Hr. apply vec_get_Ok in Hr as [_ Hr].
    by rewrite Nat2Z.id in Hr. }
  specialize (Hk rk Ek). apply elem_of_cons in Hin as [->|Hin].
  - assert (reg = rk) as -> by congruence. left. by rewrite Hfix.
  - destruct (decide (PhysRegId_isFixedMapping rk = false ∧
                      PhysRegId_flatIndex reg = PhysRegId_flatIndex rk)) as [[Hf Heq]|Hno].
    + left. rewrite Hf. by rewrite <-Heq.
    + right. eapply Hc2; eauto. rewrite Hw1.
      destruct (PhysRegId_isFixedMapping rk), (Z.eqb_spec (PhysRegId_flatIndex reg)
        (PhysRegId_flatIndex rk)); cbn; try done. naive_solver.
Qed.

Lemma setDataInducer_facts i i' :
  setDataInducer cfg i = Ok i' →
  isDataInducer i' = true ∧ isDataRestricted i' = isDataRestricted i ∧ seqNum i' = seqNum i.
Proof.
  unfold setDataInducer. intros H. inv_ok H.
  revert select (negb (isSquashed i) = true). dyn_simpl. by intros ->.
Qed.

(** [induceData] touches the completed instruction only, and no restriction. *)
Lemma induceData_spec p q s s' :
  induceData cfg p q s = Ok s' →
  ∃ i i', s !! p = Some i ∧ s' = <[p := i']> s ∧ isDataRestricted i' = isDataRestricted i ∧
    seqNum i' = seqNum i ∧ (isDataInducer i = true → isDataInducer i' = true) ∧
    (isDolma cfg = true → isDolmaConservative cfg = true → isLoad i = true →
     isControl i = false → isDataInducer i' = true).
Proof.
  unfold induceData. intros H. inv_ok1 H. apply deref_Ok in E. rename a into i.
  assert (∀ i', setDataInducer cfg i = Ok i' → s' = <[p := i']> s →
    ∃ i'', Some i = Some i ∧ s' = <[p := i'']> s ∧ isDataRestricted i'' = isDataRestricted i ∧
    seqNum i'' = seqNum i ∧ (isDataInducer i = true → isDataInducer i'' = true) ∧
    (isDolma cfg = true → isDolmaConservative cfg = true → isLoad i = true →
     isControl i = false → isDataInducer i'' = true)) as Hset.
  { intros i' Hi' ->. destruct (setDataInducer_facts _ _ Hi') as (? & ? & ?).
    exists i'. by split_and!. }
  assert (∀ s1, modifyM (setDataInducer cfg) p s = Ok s1 →
    ∃ i', setDataInducer cfg i = Ok i' ∧ s1 = <[p := i']> s) as Hmod.
  { intros s1 Hm. apply modifyM_Ok in Hm as (j & j' & Hj & Hset' & ->).
    assert (j = i) as -> by congruence. eauto. }
  assert (s = <[p := i]> s) as Hid by by rewrite insert_id.
  exists i. rewrite E. destruct (isDolma cfg) eqn:Ed; cbn [andb] in H.
  2:{ inv_ok H. exists i. by split_and!. }
  destruct (isControl i) eqn:Ec; cbn [negb andb] in H.
  { inv_ok H. exists i. by split_and!. }
  destruct (isDataInducer i) eqn:Ei; cbn [negb andb] in H.
  { inv_ok H. exists i. by split_and!. }
  destruct (isLoad i) eqn:El; cbn [andb] in H.
  2:{ inv_ok H. exists i. by split_and!. }
  destruct (isDolmaConservative cfg) eqn:Ecs; cbn [orb] in H.
  { destruct (Hmod _ H) as (i' & ? & ?). eauto. }
  destruct (_ && _); [destruct (Hmod _ H) as (i' & ? & ?); eauto|].
  destruct (isDolmaMemOnly cfg); [|inv_ok H; exists i; by split_and!].
  inv_ok1 H. destruct a; [destruct (Hmod _ H) as (i' & ? & ?); eauto|].
  inv_ok H. exists i. by split_and!.
Qed.

Lemma wakeDependentInstructions_spec p q s q' s' n :
  no_leak (dependGraphOf q) → wakeDependentInstructions cfg p q s = Ok (q', s', n) →
  ∃ s1 i c deps, induceData cfg p q s = Ok s1 ∧ s !! p = Some i ∧ s1 = <[p := c]> s ∧
    s' !! p = Some c ∧
    wakes p c (isDataInducer c || isDataRestricted c) deps s1 s' ∧
    ∀ idx reg d, (idx < numDestRegs c)%nat → destRegIdx c !! idx = Some reg →
      PhysRegId_isFixedMapping reg = false →
      d ∈ waiting (dependGraphOf q) (PhysRegId_flatIndex reg) → d ∈ deps.
Proof.
  unfold wakeDependentInstructions. intros Hn H. inv_ok1 H. rename a into s1.
  destruct (induceData_spec _ _ _ _ E) as (i & c & Hi & -> & _).
  unfold deref in H. rewrite lookup_insert_eq in H.
  apply (wakeRegs_wakes p _ c) in H as (deps & W & Hc); [|apply lookup_insert_eq|done].
  exists (<[p:=c]> s), i, c, deps. split_and!; try done.
  - apply W, lookup_insert_eq.
  - intros idx reg d Hidx. apply Hc. apply elem_of_seq. lia.
Qed.
End taint.

(** ** Consumers that arrive after the producer has completed *)

Section late.
Context (cfg : DolmaConfig).

(** Sequence numbers are unsigned. *)
Definition nonneg_store (s : store) : Prop := map_Forall (λ _ i, 0 <= seqNum i ∧ 0 <= ydi i) s.

Lemma nonneg_root s p c : nonneg_store s → s !! p = Some c → 0 <= root c.
Proof. intros H Hp. destruct (H p c Hp). unfold root. by destruct (isDataInducer c). Qed.

Lemma taint_keeps c i i' y :
  0 <= root c → taint cfg c i = Ok i' → tainted_by y i → tainted_by y i'.
Proof.
  unfold taint. fold (root c). intros Hc H [Hr Hy].
  set (j := if (ydi i =? 0) || (ydi i <? root c) then _ else i) in H.
  assert (isDataRestricted j = true ∧ y <= ydi j) as [Hrj Hyj].
  { unfold j. destruct (Z.eqb_spec (ydi i) 0), (Z.ltb_spec (ydi i) (root c)); cbn;
      (split; [done|lia]). }
  rewrite Hrj in H. cbn in H. injection H as <-. by split.
Qed.

Lemma taint_fields c i i' :
  taint cfg c i = Ok i' →
  seqNum i' = seqNum i ∧ threadNumber i' = threadNumber i ∧ srcRegIdx i' = srcRegIdx i ∧
  readySrcRegIdx i' = readySrcRegIdx i ∧ (0 <= root c → 0 <= ydi i → 0 <= ydi i').
Proof.
  unfold taint. fold (root c). set (j := if _ || _ then _ else i). intros H.
  assert (i' = j ∨ i' = status_set DataRestricted j) as Hj.
  { destruct (isDataRestricted j); cbn in H; [inv_ok H; by left|].
    unfold setDataRestricted in H. inv_ok H. by right. }
  assert (0 <= root c → 0 <= ydi i → 0 <= ydi j) as Hy
    by (intros ? ?; unfold j; destruct ((ydi i =? 0) || (ydi i <? root c)); cbn; assumption).
  assert (seqNum j = seqNum i ∧ threadNumber j = threadNumber i ∧ srcRegIdx j = srcRegIdx i ∧
          readySrcRegIdx j = readySrcRegIdx i) as (F1 & F2 & F3 & F4)
    by (unfold j; by destruct ((ydi i =? 0) || (ydi i <? root c))).
  destruct Hj as [->| ->]; by split_and!.
Qed.

Lemma markSrcRegReadyIdx_fields k i i' :
  markSrcRegReadyIdx k i = Ok i' →
  seqNum i' = seqNum i ∧ threadNumber i' = threadNumber i ∧ srcRegIdx i' = srcRegIdx i ∧
  ydi i' = ydi i ∧ readySrcRegIdx i' = <[k := true]> (readySrcRegIdx i).
Proof.
  unfold markSrcRegReadyIdx, markSrcRegReady. set (j := if _ =? _ then _ else _). intros H.
  destruct (_ <? _) in H; [discriminate|]. inv_ok H. unfold j.
  by destruct (_ =? _).
Qed.

(** What one source register does to the inserted instruction [p]. *)
Record reads (p : DynInstPtr) (ks : list nat) (q q' : InstQueue) (s s' : store) : Prop := {
  rd_board : regScoreboard q' = regScoreboard q ∧ regToProducerInst q' = regToProducerInst q;
  rd_others : ∀ x, x ≠ p → s' !! x = s !! x;
  rd_nonneg : nonneg_store s → nonneg_store s';
  rd_inst : ∀ i, s !! p = Some i → ∃ i', s' !! p = Some i' ∧
    threadNumber i' = threadNumber i ∧ srcRegIdx i' = srcRegIdx i ∧
    (∀ k, k ∉ ks → isReadySrcRegIdx i' k = isReadySrcRegIdx i k) ∧
    (nonneg_store s → ∀ y, tainted_by y i → tainted_by y i');
}.

Lemma reads_trans p k1 k2 q1 q2 q3 s1 s2 s3 :
  reads p k1 q1 q2 s1 s2 → reads p k2 q2 q3 s2 s3 → reads p (k1 ++ k2) q1 q3 s1 s3.
Proof.
  intros [[B1 R1] O1 N1 I1] [[B2 R2] O2 N2 I2]. split; [split; congruence| |auto|].
  - intros x Hx. rewrite O2, O1; done.
  - intros i Hi. destruct (I1 i Hi) as (i1 & Hi1 & T1 & S1 & Rd1 & Y1).
    destruct (I2 i1 Hi1) as (i2 & Hi2 & T2 & S2 & Rd2 & Y2).
    exists i2. split_and!; [done|congruence|congruence| |auto].
    intros k Hk. rewrite elem_of_app in Hk. rewrite Rd2, Rd1; tauto.
Qed.

Lemma reads_refl p ks q q' s :
  regScoreboard q' = regScoreboard q → regToProducerInst q' = regToProducerInst q →
  reads p ks q q' s s.
Proof. intros Hb Hr. split; [done|done|done|]. intros i Hi. exists i. by split_and!. Qed.

Lemma addSrc_reads p k q s b q' s' b' :
  nonneg_store s → addSrc cfg p (q, s, b) k = Ok (q', s', b') →
  reads p [k] q q' s s' ∧
  ∀ i reg pr src,
    s !! p = Some i → isReadySrcRegIdx i k = false → srcRegIdx i !! k = Some reg →
    PhysRegId_isFixedMapping reg = false →
    regScoreboard q !! Z.to_nat (PhysRegId_flatIndex reg) = Some true →
    regToProducerInst q !! Z.to_nat (PhysRegId_flatIndex reg) = Some (Some pr) →
    pr ≠ p → s !! pr = Some src → threadNumber src = threadNumber i →
    isDataInducer src || isDataRestricted src = true →
    ∃ i', s' !! p = Some i' ∧ tainted_by (root src) i'.
Proof.
  intros Hnn H. unfold addSrc in H. destruct (deref p s) as [i|] eqn:Ei; [|discriminate].
  apply deref_Ok in Ei.
  destruct (isReadySrcRegIdx i k) eqn:Erd.
  { inv_ok H. split; [by apply reads_refl|]. intros. congruence. }
  destruct (renamedSrcRegIdx k i) as [reg|] eqn:Er; [|discriminate]. inv_ok1 H.
  assert (srcRegIdx i !! k = Some reg) as Hreg.
  { unfold renamedSrcRegIdx in Er. apply vec_get_Ok in Er as [_ Er]. by rewrite Nat2Z.id in Er. }
  destruct (PhysRegId_isFixedMapping reg) eqn:Efix.
  { inv_ok H. split; [by apply reads_refl|]. intros. congruence. }
  inv_ok1 H. rename a into ready. apply vec_get_Ok in E0 as [_ E0].
  destruct ready; cbn [negb] in H.
  2:{ inv_ok H. split; [by apply reads_refl|]. intros. congruence. }
  inv_ok1 H. rename a into i1. destruct (markSrcRegReadyIdx_fields _ _ _ E1) as (F1 & F2 & F3 & F4 & F5).
  inv_ok1 H. rename a into prod. apply vec_get_Ok in E2 as [_ E2].
  destruct prod as [pr|]; [|discriminate]. inv_ok1 H. rename a into src.
  apply deref_Ok in E3.
  assert (isDataRestricted i1 = isDataRestricted i) as Hres1.
  { unfold markSrcRegReadyIdx in E1. by apply markSrcRegReady_frame in E1 as [-> _]. }
  assert (∀ y, tainted_by y i → tainted_by y i1) as Hkeep1
    by (unfold tainted_by; by rewrite Hres1, F4).
  assert (∀ k', k' ∉ [k] → isReadySrcRegIdx i1 k' = isReadySrcRegIdx i k') as Hrd1.
  { intros k' Hk'. unfold isReadySrcRegIdx. rewrite F5.
    rewrite list_lookup_insert_ne; [done|]. intros ->. apply Hk'. left. }
  assert (nonneg_store (<[p:=i1]> s)) as Hnn1.
  { apply map_Forall_insert_2; [|done]. rewrite F1, F4. by apply (Hnn p). }
  destruct (_ && _) eqn:Et.
  - inv_ok1 H. inv_ok1 H. rename a into i2. inv_ok H.
    destruct (taint_fields _ _ _ E5) as (G1 & G2 & G3 & G4 & G5).
    pose proof (nonneg_root _ _ _ Hnn1 E3) as Hroot.
    rewrite insert_insert_eq. split.
    + split; [done| | |].
      * intros x Hx. by rewrite lookup_insert_ne.
      * intros _. apply map_Forall_insert_2; [|done]. rewrite G1, F1.
        destruct (Hnn p i Ei). split; [done|]. apply G5; [done|]. by rewrite F4.
      * intros i0 Hi0. assert (i0 = i) as -> by congruence. exists i2.
        rewrite lookup_insert_eq. split_and!; [done|congruence|congruence| |].
        -- intros k' Hk'. rewrite <-Hrd1 by done. unfold isReadySrcRegIdx. by rewrite G4.
        -- intros _ y Hy. eapply taint_keeps; eauto.
    + intros i0 reg0 pr0 src0 Hi0 _ Hreg0 _ _ Hpr0 Hne Hsrc0 _ _. exists i2.
      rewrite lookup_insert_eq. split; [done|].
      assert (i0 = i) as -> by congruence. assert (reg0 = reg) as -> by congruence.
      rewrite E2 in Hpr0. injection Hpr0 as <-. rewrite lookup_insert_ne in E3 by done.
      assert (src0 = src) as -> by congruence. by eapply taint_taints.
  - inv_ok H. split.
    + split; [done| |done|].
      * intros x Hx. by rewrite lookup_insert_ne.
      * intros i0 Hi0. assert (i0 = i) as -> by congruence. exists i1.
        rewrite lookup_insert_eq. by split_and!.
    + intros i0 reg0 pr0 src0 Hi0 _ Hreg0 _ _ Hpr0 Hne Hsrc0 Hth Htn. exfalso.
      assert (i0 = i) as -> by congruence. assert (reg0 = reg) as -> by congruence.
      rewrite E2 in Hpr0. injection Hpr0 as <-. rewrite lookup_insert_ne in E3 by done.
      assert (src0 = src) as -> by congruence.
      rewrite Htn, andb_true_r in Et. apply bool_decide_eq_false in Et. congruence.
Qed.

Lemma reads_fields p ks q q' s s' i :
  reads p ks q q' s s' → s !! p = Some i →
  ∃ i', s' !! p = Some i' ∧ threadNumber i' = threadNumber i ∧ srcRegIdx i' = srcRegIdx i.
Proof. intros [_ _ _ HI] Hi. destruct (HI i Hi) as (i' & ? & ? & ? & _). eauto. Qed.

(** All the source registers of the inserted instruction. *)
Lemma addSrcs_reads p pr src ks : ∀ q s b q' s' b',
  NoDup ks → nonneg_store s → pr ≠ p → s !! pr = Some src →
  isDataInducer src || isDataRestricted src = true →
  foldM (addSrc cfg p) ks (q, s, b) = Ok (q', s', b') →
  reads p ks q q' s s' ∧
  ∀ i k reg, k ∈ ks → s !! p = Some i → isReadySrcRegIdx i k = false →
    srcRegIdx i !! k = Some reg → PhysRegId_isFixedMapping reg = false →
    regScoreboard q !! Z.to_nat (PhysRegId_flatIndex reg) = Some true →
    regToProducerInst q !! Z.to_nat (PhysRegId_flatIndex reg) = Some (Some pr) →
    threadNumber src = threadNumber i →
    ∃ i', s' !! p = Some i' ∧ tainted_by (root src) i'.
Proof.
  induction ks as [|k0 ks IH]; intros q s b q' s' b' Hnd Hnn Hne Hpr Ht H; cbn [foldM] in H.
  { inv_ok H. split; [by apply reads_refl|]. intros i k reg Hk. by apply not_elem_of_nil in Hk. }
  apply NoDup_cons in Hnd as [Hk0 Hnd].
  destruct (addSrc _ _ _ _) as [[[q1 s1] b1]|] eqn:E; [|discriminate].
  destruct (addSrc_reads p k0 q s b q1 s1 b1 Hnn E) as [R1 T1].
  assert (s1 !! pr = Some src) as Hpr1 by (rewrite (rd_others _ _ _ _ _ _ R1); done).
  destruct (IH q1 s1 b1 q' s' b' Hnd (rd_nonneg _ _ _ _ _ _ R1 Hnn) Hne Hpr1 Ht H) as [R2 T2].
  split; [by apply (reads_trans p [k0] ks q q1 q' s s1 s')|].
  intros i k reg Hk Hi Hrd Hreg Hfix Hsb Hprod Hth.
  apply elem_of_cons in Hk as [->|Hk].
  - destruct (T1 i reg pr src) as (i1 & Hi1 & Hti); try done.
    destruct (rd_inst _ _ _ _ _ _ R2 i1 Hi1) as (i2 & Hi2 & _ & _ & _ & Hy).
    exists i2. split; [done|]. apply Hy; [by apply R1|done].
  - destruct (rd_inst _ _ _ _ _ _ R1 i Hi) as (i1 & Hi1 & Ht1 & Hs1 & Hrd1 & _).
    destruct (rd_board _ _ _ _ _ _ R1) as [Hb1 Hb2].
    apply (T2 i1 k reg); try congruence. rewrite Hrd1; [done|].
    rewrite list_elem_of_singleton. by intros ->.
Qed.
End late.

(** ** An example: a load and an addition that reads its result

    Register 3 is the load's destination.  The addition is inserted while the
    load is outstanding; a subtraction arrives after it has completed. *)
Module IqExample.
Definition reg (n : Z) : PhysRegId := mkPhysRegId (mkRegId IntRegClass n (-1)) n.
Definition flagset (fs : list StaticFlag) : bitset := fold_right (λ f s, bs_set s f) 0%N fs.
Definition inst (sn : Z) (fs : list StaticFlag) (srcs dests : list Z) : DynInst :=
  let si := mkStaticInst (flagset fs) 1 (length srcs) (length dests) "" in
  set_srcRegIdx (reg <$> srcs) (set_destRegIdx (reg <$> dests) (initInst si (4 * sn) sn 0)).
Definition load : DynInst := inst 2 [IsMemRef; IsLoad] [] [3].
Definition add : DynInst := inst 4 [IsInteger] [3] [4].
Definition sub : DynInst := inst 5 [IsInteger] [3] [5].
Definition insts : store := {[ 2 := load; 4 := add; 5 := sub ]}.
Definition mode2 : DolmaConfig := mkDolmaConfig true true false false.

Definition empty : outcome InstQueue :=
  newInstQueue "dynamic" 0 4 16 2 1 8 [0%nat] (newMemDepUnit ex_store_set) ex_pool.
Definition fetched : outcome (InstQueue * store) :=
  let! q := empty in
  let! (q, s) := iq_insert mode2 2 q insts in
  iq_insert mode2 4 q s.
Definition completed : outcome (InstQueue * store * nat) :=
  let! (q, s) := fetched in
  wakeDependents mode2 2 q s.

Definition queue0 : InstQueue := mkInstQueue (λ _, []) 0 0 (λ _, 0) 0 Dynamic (λ _, 0) [] 0 (λ _, [])
  (λ _, false) [] [] ∅ [] [] [] [] (dg_resize 0) [] [] (λ _, 0) 0
  (λ _, newMemDepUnit ex_store_set) ex_pool [] 0 0.
Definition before : InstQueue * store :=
  match fetched with Ok x => x | Err _ => (queue0, ∅) end.
Definition after : InstQueue * store :=
  match completed with Ok (x, _) => x | Err _ => (queue0, ∅) end.
End IqExample.

(** ** Theorems *)

(** C8: when an instruction completes, [wakeDependentInstructions] makes every
    instruction that waits for one of its destination registers data restricted,
    with a youngest data inducer no older than the completed one's, if the
    completed instruction induces or carries taint; if it does neither, no
    instruction becomes or stops being data restricted. *)
Theorem wake_taints cfg p q s q' s' n :
  no_leak (dependGraphOf q) → wakeDependentInstructions cfg p q s = Ok (q', s', n) →
  ∃ c, s' !! p = Some c ∧
    if isDataInducer c || isDataRestricted c then
      ∀ idx reg d, (idx < numDestRegs c)%nat → destRegIdx c !! idx = Some reg →
        PhysRegId_isFixedMapping reg = false →
        d ∈ waiting (dependGraphOf q) (PhysRegId_flatIndex reg) →
        ∃ i, s' !! d = Some i ∧ tainted_by (root c) i
    else ∀ d, view isDataRestricted s' d = view isDataRestricted s d.
Proof.
  intros Hn H.
  destruct (wakeDependentInstructions_spec cfg p q s q' s' n Hn H)
    as (s1 & i & c & deps & Hind & Hi & -> & Hc & W & Hcover).
  exists c. split; [done|]. destruct (_ || _) eqn:Et.
  - intros idx reg d Hidx Hreg Hfix Hd. eapply wk_tainted; eauto.
  - intros d. rewrite (wk_clean _ _ _ _ _ _ W eq_refl d).
    destruct (induceData_spec cfg p q s _ Hind) as (i0 & c0 & Hi0 & Heq & Hr & _).
    assert (i0 = i) as -> by congruence.
    assert (c0 = c) as ->.
    { assert (<[p:=c]> s !! p = <[p:=c0]> s !! p) as E by congruence.
      rewrite !lookup_insert_eq in E. congruence. }
    unfold view. destruct (decide (d = p)) as [->|Hne].
    + rewrite lookup_insert_eq, Hi. done.
    + by rewrite lookup_insert_ne.
Qed.

Lemma wake_taints_witness :
  ∃ q' s' n, wakeDependentInstructions IqExample.mode2 2 IqExample.before.1 IqExample.before.2
    = Ok (q', s', n) ∧
  ∃ c, s' !! 2 = Some c ∧
    if isDataInducer c || isDataRestricted c then
      ∀ idx reg d, (idx < numDestRegs c)%nat → destRegIdx c !! idx = Some reg →
        PhysRegId_isFixedMapping reg = false →
        d ∈ waiting (dependGraphOf IqExample.before.1) (PhysRegId_flatIndex reg) →
        ∃ i, s' !! d = Some i ∧ tainted_by (root c) i
    else ∀ d, view isDataRestricted s' d = view isDataRestricted IqExample.before.2 d.
Proof.
  destruct (wakeDependentInstructions IqExample.mode2 2 IqExample.before.1 IqExample.before.2)
    as [[[q' s'] n]|] eqn:E; [|vm_compute in E; discriminate].
  exists q', s', n. split; [done|].
  apply (wake_taints IqExample.mode2 2 IqExample.before.1 IqExample.before.2 q' s' n);
    [by_eval|exact E].
Defined.

(** in the conservative modes every load restricts what waits for its
    result: once the load's value is broadcast its consumers are data restricted
    with a youngest data inducer no older than the load, whatever the load
    itself depends on. *)
Theorem conservative_load_taints cfg p q s q' s' n i idx reg d :
  isDolma cfg = true → isDolmaConservative cfg = true →
  no_leak (dependGraphOf q) → s !! p = Some i → isLoad i = true → isControl i = false →
  wakeDependentInstructions cfg p q s = Ok (q', s', n) →
  ∃ c, s' !! p = Some c ∧ isDataInducer c = true ∧ seqNum c = seqNum i ∧
    ((idx < numDestRegs c)%nat → destRegIdx c !! idx = Some reg →
     PhysRegId_isFixedMapping reg = false →
     d ∈ waiting (dependGraphOf q) (PhysRegId_flatIndex reg) →
     ∃ j, s' !! d = Some j ∧ tainted_by (seqNum i) j).
Proof.
  intros Hd Hc Hn Hi Hl Hctl H.
  destruct (wakeDependentInstructions_spec cfg p q s q' s' n Hn H)
    as (s1 & i0 & c & deps & Hind & Hi0 & -> & Hpc & W & Hcover).
  assert (i0 = i) as -> by congruence.
  destruct (induceData_spec cfg p q s _ Hind) as (i1 & c1 & Hi1 & Heq & _ & Hsn & _ & Hcons).
  assert (i1 = i) as -> by congruence.
  assert (c1 = c) as ->.
  { assert (<[p:=c]> s !! p = <[p:=c1]> s !! p) as E by congruence.
    rewrite !lookup_insert_eq in E. congruence. }
  specialize (Hcons Hd Hc Hl Hctl). exists c. split_and!; [done..|].
  intros Hidx Hreg Hfix Hdep.
  destruct (wk_tainted _ _ _ _ _ _ W) with d as (j & Hj & Htj); [by rewrite Hcons|eauto|].
  exists j. split; [done|]. unfold root in Htj. by rewrite Hcons, Hsn in Htj.
Qed.

Lemma conservative_load_taints_witness :
  ∃ q' s' n, wakeDependentInstructions IqExample.mode2 2 IqExample.before.1 IqExample.before.2
    = Ok (q', s', n) ∧ ∃ j, s' !! 4 = Some j ∧ tainted_by 2 j.
Proof.
  destruct (wakeDependentInstructions IqExample.mode2 2 IqExample.before.1 IqExample.before.2)
    as [[[q' s'] n]|] eqn:E; [|vm_compute in E; discriminate].
  exists q', s', n. split; [done|].
  destruct (IqExample.before.2 !! 2) as [i|] eqn:Ei; [|vm_compute in Ei; discriminate].
  pose proof Ei as Ei'. vm_compute in Ei'. injection Ei' as Ei'.
  destruct (conservative_load_taints IqExample.mode2 2 IqExample.before.1 IqExample.before.2
    q' s' n i 0 (IqExample.reg 3) 4) as (c & Hc & Hdi & Hsn & Hall);
    [done|done|by_eval|done|by rewrite <-Ei'|by rewrite <-Ei'|exact E|].
  assert (s' !! 2 = Some c) as Hc' by done.
  pose proof E as E'. vm_compute in E'. injection E' as _ Es _. rewrite <-Es in Hc'.
  vm_compute in Hc'. injection Hc' as Hc'.
  assert (seqNum i = 2) as Hi2 by by rewrite <-Ei'. rewrite Hi2 in Hall.
  apply Hall; [rewrite <-Hc'; cbn; lia|by rewrite <-Hc'|done|vm_compute; left].
Defined.


