(* ===== verification/IqContention.v ===== *)
(** * Contention for functional units

    What [scheduleReadyInsts] does when no capable unit is free: a younger
    instruction that is still restricted must not delay an older one, so its
    unit is taken away and it is stalled; nobody else is disturbed. *)

From S2P Require Import Prelude Regs Config DynInst Metadata Rob RobSafe StoreSet DepGraph.
From S2P Require Import FUPool MemDepUnit InstQueue IqTaint.

Local Open Scope Z_scope.

(** A computation of the model that did not exhaust a loop bound. *)
Definition fuelled {A} (o : outcome A) : Prop :=
  match o with Err (NoFuel _) => False | _ => True end.

Lemma fuelled_bind {A B} (c : outcome A) (k : A → outcome B) :
  fuelled c → (∀ a, c = Ok a → fuelled (k a)) →
  fuelled (match c with Ok a => k a | Err e => Err e end).
Proof. destruct c as [a|[]]; cbn; auto. Qed.

Lemma fuelled_assert {A} (b : bool) w (o : outcome A) :
  fuelled o → fuelled (if b then o else Err (Assertion w)).
Proof. by destruct b. Qed.

Lemma vec_get_fuelled {A} w (v : list A) i : fuelled (vec_get w v i).
Proof. unfold vec_get. destruct (_ <=? _); [|done]. by destruct (_ !! _). Qed.

Lemma vec_set_fuelled {A} w (v : list A) i a : fuelled (vec_set w v i a).
Proof. unfold vec_set. by destruct (_ && _). Qed.

Lemma deref_fuelled p s : fuelled (deref p s).
Proof. unfold deref. by destruct (s !! p). Qed.

Create HintDb fuelled.
#[export] Hint Resolve vec_get_fuelled vec_set_fuelled deref_fuelled : fuelled.

Lemma findInst_fuelled tid sn r s : fuelled (findInst tid sn r s).
Proof.
  unfold findInst. induction (instList r tid) as [|p l IH]; [done|]. cbn.
  apply fuelled_bind; [auto with fuelled|]. intros i _. by destruct (_ =? _).
Qed.

Lemma setDolmaStalled_fuelled cfg i : fuelled (setDolmaStalled cfg i).
Proof. unfold setDolmaStalled. by repeat apply fuelled_assert. Qed.

Lemma stallOccupant_fuelled cfg o q s : fuelled (stallOccupant cfg o q s).
Proof.
  unfold stallOccupant. apply fuelled_bind; [auto with fuelled|]. intros i _.
  destruct (isDolmaStalled i); [done|]. unfold modifyM. apply fuelled_bind.
  - apply fuelled_bind; [auto with fuelled|]. intros j _.
    apply fuelled_bind; [apply setDolmaStalled_fuelled|done].
  - intros s' _. unfold dolmaStallInst. apply fuelled_bind; [auto with fuelled|].
    intros j _. by repeat apply fuelled_assert.
Qed.

Section contention.
Context (cfg : DolmaConfig) (r : ROB) (issuing : DynInst).

(** Unit [fu] is held by [o], a younger instruction that is still restricted. *)
Definition unsafe_occupant (busy : list InstSeqNum) (s : store) (fu : Z) (o : DynInstPtr)
  : Prop :=
  ∃ b oi, vec_get "unitBusy" busy fu = Ok b ∧
    findInst (threadNumber issuing) b r s = Ok (Some o) ∧ s !! o = Some oi ∧
    isDolmaRestricted oi = true ∧ seqNum issuing < seqNum oi.

(** Only [o] changed, and it is stalled now. *)
Definition stalls (o : DynInstPtr) (s s' : store) : Prop :=
  (∀ x, x ≠ o → s' !! x = s !! x) ∧ view isDolmaStalled s' o = true.

Lemma setDolmaStalled_stalled i i' : setDolmaStalled cfg i = Ok i' → isDolmaStalled i' = true.
Proof.
  unfold setDolmaStalled. intros H. inv_ok H. revert select (negb (isSquashed i) = true).
  match goal with |- context [dropDolmaReqs ?k] =>
    pose proof (sc_status _ _ (dropDolmaReqs_frame k)) as Hs; revert Hs;
    generalize (dropDolmaReqs k) end.
  intros j Hs. dyn_simpl. rewrite Hs. dyn_simpl. rewrite !andb_true_r. done.
Qed.

Lemma stallOccupant_stalls o q s q' s' :
  stallOccupant cfg o q s = Ok (q', s') →
  stalls o s s' ∧ fuPool q' = fuPool q ∧
  (q' = q ∨ q' = set_dolmaStalledInsts (dolmaStalledInsts q ++ [o]) q).
Proof.
  unfold stallOccupant, dolmaStallInst. intros H. inv_ok1 H. apply deref_Ok in E.
  destruct (isDolmaStalled a) eqn:Es.
  { inv_ok H. split_and!; [|done|by left]. split; [done|]. unfold view. by rewrite E. }
  inv_ok1 H. apply modifyM_Ok in E0 as (j & j' & Hj & Hst & ->).
  unfold deref in H. rewrite lookup_insert_eq in H. inv_ok H.
  split_and!; [|done|by right]. split.
  - intros x Hx. by rewrite !lookup_insert_ne.
  - unfold view. rewrite lookup_insert_eq. revert select (isDolmaStalled j' = true).
    unfold clearTranslation. dyn_simpl. by rewrite !andb_true_r.
Qed.

(** The check of one unit decides [unsafe_occupant]. *)
Lemma unsafeOccupant_spec fu busy s :
  fuelled (unsafeOccupant issuing fu r busy s) ∧
  ∀ o, unsafeOccupant issuing fu r busy s = Ok o →
    match o with
    | Some o => unsafe_occupant busy s fu o
    | None => ∀ o, ¬ unsafe_occupant busy s fu o
    end.
Proof.
  unfold unsafeOccupant, unsafe_occupant. split.
  - apply fuelled_bind; [auto with fuelled|]. intros b _. apply fuelled_assert.
    apply fuelled_bind; [apply findInst_fuelled|]. intros [o|] _; [|done].
    apply fuelled_bind; [auto with fuelled|done].
  - intros o H. inv_ok1 H. inv_ok1 H. inv_ok1 H. destruct a0 as [o0|].
    2:{ injection H as <-. intros o (b & oi & Hb & Hf & _). congruence. }
    inv_ok1 H. apply deref_Ok in E2. injection H as <-. destruct (_ && _) eqn:Eb.
    + apply andb_true_iff in Eb as [? ?%Z.ltb_lt]. exists a, a0. by split_and!.
    + intros o (b & oi & Hb & Hf & Ho & Hres & Hlt). assert (b = a) as -> by congruence.
      assert (o0 = o) as -> by congruence. assert (oi = a0) as -> by congruence.
      apply Z.ltb_lt in Hlt. by rewrite Hres, Hlt in Eb.
Qed.

(** The circular walk, from the unit [c] on: what it passed was safe. *)
Lemma evict_spec nFU op_class : ∀ post pre c start fq n q s,
  queue_ok nFU fq → fuPerCapList (fuPool q) !! op_class = Some fq →
  rotation fq = post ++ pre ++ [c] → head (pre ++ [c]) = Some start →
  Forall (λ fu, ∀ o, ¬ unsafe_occupant (unitBusy (fuPool q)) s fu o) pre →
  (length post < n)%nat →
  fuelled (evict cfg n issuing op_class start c r q s) ∧
  ∀ idx q' s', evict cfg n issuing op_class start c r q s = Ok (idx, q', s') →
    (idx = NoFreeFU ∧ s' = s ∧
     Forall (λ fu, ∀ o, ¬ unsafe_occupant (unitBusy (fuPool q)) s fu o) (rotation fq)) ∨
    (∃ o, idx ∈ rotation fq ∧ unsafe_occupant (unitBusy (fuPool q)) s idx o ∧ stalls o s s').
Proof.
  induction post as [|x post IH]; intros pre c start fq n q s Hq Hfq Hrot Hst Hpre Hn;
    (destruct n as [|n]; [cbn in Hn; lia|]); cbn [evict].
  all: destruct (unsafeOccupant_spec c (unitBusy (fuPool q)) s) as [F Hun].
  all: destruct (unsafeOccupant _ _ _ _ _) as [[o|]|e] eqn:Eo;
    [clear F; specialize (Hun _ eq_refl)|clear F; specialize (Hun _ eq_refl)
    |split; [by destruct e|discriminate]].
  1,3: split;
    [apply fuelled_bind; [apply stallOccupant_fuelled|]; intros [q1 s1] _;
     apply fuelled_bind; [auto with fuelled|done]
    |intros idx q' s' H; right; exists o;
     destruct (stallOccupant _ _ _ _) as [[q1 s1]|] eqn:Es; [|discriminate]; inv_ok1 H; inv_ok H;
     apply stallOccupant_stalls in Es as (? & _ & _); rewrite Hrot; split_and!; [set_solver|done..]].
  all: destruct (getFU_spec nFU fq Hq) as (y & rest & fq' & Hget & Hr & Hr' & Hq' & Hu).
  all: assert (nextFU op_class q = Ok (y, set_fuPool (set_fuPerCapList
         (<[op_class := fq']> (fuPerCapList (fuPool q))) (fuPool q)) q)) as ->
    by (unfold nextFU; rewrite (proj2 (vec_get_Ok "fuPerCapList" _ _ fq))
          by (rewrite Nat2Z.id; split; [lia|done]); by rewrite Hget).
  all: assert (Forall (λ fu, ∀ o, ¬ unsafe_occupant (unitBusy (fuPool q)) s fu o) (pre ++ [c]))
    as Hpre' by (apply Forall_app; split; [done|by repeat constructor]).
  - rewrite Hrot in Hr. cbn in Hr. assert (y = start) as ->.
    { destruct pre; cbn in Hr, Hst; congruence. }
    rewrite Z.eqb_refl. split; [done|]. intros idx q' s' H. inv_ok H. left. by rewrite Hrot.
  - rewrite Hrot in Hr. cbn in Hr. injection Hr as <- <-.
    assert (NoDup (rotation fq)) as Hnd by (rewrite rotation_perm; apply Hq).
    assert (x ≠ start) as Hne.
    { rewrite Hrot in Hnd. inversion_clear Hnd as [|? ? Hx _]. intros ->. apply Hx.
      rewrite elem_of_app. right. destruct pre; cbn in Hst; simplify_eq; left. }
    rewrite (proj2 (Z.eqb_neq _ _) Hne).
    destruct (IH (pre ++ [c]) x start fq' n (set_fuPool (set_fuPerCapList
      (<[op_class := fq']> (fuPerCapList (fuPool q))) (fuPool q)) q) s) as [F HI];
      [exact Hq'| |by rewrite Hr', <-!app_assoc|by destruct pre|exact Hpre'|cbn in Hn; lia|].
    { cbn. rewrite list_lookup_insert_eq; [done|]. by eapply lookup_lt_Some. }
    split; [exact F|]. intros idx q' s' H.
    assert (rotation fq' ≡ₚ rotation fq) as Hp by by rewrite !rotation_perm, Hu.
    destruct (HI _ _ _ H) as [(H1 & H2 & H3)|(o & H1 & H2 & H3)].
    + left. split_and!; [done..|]. by rewrite <-Hp.
    + right. exists o. split_and!; [by rewrite <-Hp|done..].
Qed.
End contention.

(** ** An example: a restricted division holds the only divider

    The younger division 9 is control restricted; the older division 5 issues. *)
Module ContentionExample.
Definition div (sn : Z) (bs : list Status) : DynInst :=
  set_status (fold_right (λ b s, bs_set s b) 0%N bs) (IqExample.inst sn [IsInteger] [] []).
Definition insts (bs : list Status) : store := {[ 5 := div 5 []; 9 := div 9 bs ]}.
Definition rob : ROB :=
  mkROB Dynamic 8 2 1 (λ _, 8) (λ _, 2) (λ t, if (t =? 0)%nat then [5; 9] else [])
    (Some 5) (Some 9) (λ _, None) 2 (λ _, 0) (λ _, true) (λ _, Running) [0%nat] [].
Definition mode1 : DolmaConfig := mkDolmaConfig true false false false.
Definition queue : InstQueue := set_fuPool (set_unitBusy [0; 0; 9] ex_pool) IqExample.queue0.

Lemma pool_of_queue : pool_ok (fuPool queue).
Proof. destruct ex_pool_ok as [H1 H2 H3]. split; [by_eval|exact H2|exact H3]. Qed.
End ContentionExample.

(** ** Theorems *)

(** C13: under DOLMA without STT (the STT variant never looks for an occupant), with a
    well-formed pool of units, the search for a unit on behalf of an instruction (with a
    sequence number, and for an operation class the pool knows) always ends. When it reports that no unit is free, no capable unit is held by an unsafe
    occupant, that is by a younger instruction of the issuing thread, found in that
    thread's reorder buffer, which is still restricted; and the only instruction the search
    ever disturbs is such an occupant of the unit it hands over, which it stalls. *)
Theorem contention_safe cfg r issuing op_class q s :
  isDolma cfg = true → isSTT cfg = false →
  pool_ok (fuPool q) → seqNum issuing ≠ 0 →
  (op_class < length (capabilityList (fuPool q)))%nat →
  fuelled (acquireUnit cfg issuing op_class r q s) ∧
  ∀ idx q' s', acquireUnit cfg issuing op_class r q s = Ok (idx, q', s') →
    (idx = NoFreeFU → s' = s ∧ ∀ fu o, fu ∈ capable (fuPool q) op_class →
       ¬ unsafe_occupant r issuing (unitBusy (fuPool q)) s fu o) ∧
    (s' = s ∨ ∃ o, idx ∈ capable (fuPool q) op_class ∧
       unsafe_occupant r issuing (unitBusy (fuPool q)) s idx o ∧ stalls o s s').
Proof.
  intros Hd Hstt Hp Hsn Hc. unfold acquireUnit. rewrite Hd, Hstt. cbn [negb andb].
  destruct (getUnit_cases op_class (seqNum issuing) (fuPool q) Hp Hsn Hc)
    as (i & p' & Hget & Hp' & _ & Hcase). rewrite Hget.
  apply getUnit_capable in Hget as [Hcap Hunits].
  destruct (Z.eqb_spec i NoFreeFU) as [->|Hne].
  2:{ split; [done|]. intros idx q' s' H. inv_ok H. split; [done|by left]. }
  destruct (bool_decide_reflect (capabilityList (fuPool q) !! op_class = Some true)) as [Hcb|_];
    cbn [negb] in Hcase; [|by destruct Hcase].
  destruct (existsb _ _) eqn:Eex.
  { destruct Hcase as (Hin & Hfree & _). by vm_compute in Hfree. }
  destruct Hcase as [_ Hbusy].
  destruct (lookup_lt_is_Some_2 (fuPerCapList p') op_class) as [fq Hfq];
    [rewrite (po_classes _ Hp'), Hcap; done|].
  assert (queue_ok (numFU p') fq) as Hfqok
    by (apply (po_queue _ Hp' op_class); [done|by rewrite Hcap]).
  destruct (getFU_spec _ fq Hfqok) as (x & rest & fq1 & Hg & Hr & Hr1 & Hq1 & Hu1).
  unfold nextFU. cbn [fuPool set_fuPool].
  rewrite (proj2 (vec_get_Ok "fuPerCapList" _ _ fq)) by (rewrite Nat2Z.id; split; [lia|done]).
  rewrite Hg. cbn [fuPerCapList fuPool set_fuPool set_fuPerCapList].
  rewrite (proj2 (vec_get_Ok "fuPerCapList" _ _ fq1))
    by (rewrite Nat2Z.id; split; [lia|]; apply list_lookup_insert_eq; by eapply lookup_lt_Some).
  set (q1 := set_fuPool _ _).
  destruct (evict_spec cfg r issuing (numFU p') op_class rest [] x x fq1
              (length (funcUnitsIdx fq1)) q1 s) as [F HE]; [done| |done|done|constructor| |].
  { cbn. apply list_lookup_insert_eq. by eapply lookup_lt_Some. }
  { rewrite Hu1, <-(rotation_perm fq), Hr. cbn. lia. }
  split; [exact F|]. intros idx q' s' H.
  assert (rotation fq1 ≡ₚ capable (fuPool q) op_class) as Hperm.
  { rewrite rotation_perm, Hu1, <-Hunits. unfold capable. by rewrite Hfq. }
  assert (unitBusy (fuPool q1) = unitBusy (fuPool q)) as Hb1 by exact Hbusy.
  rewrite Hb1 in HE.
  destruct (HE _ _ _ H) as [(-> & -> & Hall)|(o & Hin & Ho & Hs)].
  - split; [|by left]. intros _. split; [done|]. intros fu o Hfu.
    rewrite <-Hperm in Hfu. by apply (proj1 (Forall_forall _ _) Hall fu Hfu).
  - rewrite Hperm in Hin. split; [|right; by exists o]. intros ->.
    destruct Ho as (b & oi & Hb & _). by vm_compute in Hb.
Qed.

Lemma contention_safe_witness :
  ∃ q' s', acquireUnit ContentionExample.mode1 (ContentionExample.div 5 []) 2
      ContentionExample.rob ContentionExample.queue
      (ContentionExample.insts [Issued; ControlRestricted]) = Ok (2, q', s') ∧
    stalls 9 (ContentionExample.insts [Issued; ControlRestricted]) s'.
Proof.
  set (run := acquireUnit ContentionExample.mode1 (ContentionExample.div 5 []) 2
      ContentionExample.rob ContentionExample.queue
      (ContentionExample.insts [Issued; ControlRestricted])).
  assert ((let! (idx, q', s') := run in Ok (idx, view isDolmaStalled s' 9)) = Ok (2, true)) as V
    by (vm_compute; reflexivity).
  destruct run as [[[idx q'] s']|] eqn:E; [|discriminate].
  injection V as -> V. exists q', s'. split; [done|].
  destruct (contention_safe ContentionExample.mode1 ContentionExample.rob
    (ContentionExample.div 5 []) 2 ContentionExample.queue
    (ContentionExample.insts [Issued; ControlRestricted])) as [_ H];
    [done|done|apply ContentionExample.pool_of_queue|done|vm_compute; lia|].
  destruct (H _ _ _ E) as [_ [->|(o & _ & Ho & Hs)]].
  - exfalso. vm_compute in V. discriminate.
  - destruct Ho as (b & oi & Hb & Hf & _). vm_compute in Hb. injection Hb as <-.
    vm_compute in Hf. injection Hf as <-. exact Hs.
Defined.
