(* ===== verification/IqOrder.v ===== *)
(** * The order of issue

    The list [listOrder] of the instruction queue holds one entry per
    operation class with a ready instruction, sorted by the age of the oldest;
    the invariant [order_ok] says so, and every operation on the ready queues
    keeps it.  From it follow that issue considers the oldest ready instruction
    first, that the issue loop ends, and that it respects the issue width. *)

From S2P Require Import Prelude Regs Config DynInst Metadata Rob RobSafe StoreSet DepGraph.
From S2P Require Import FUPool MemDepUnit InstQueue IqTaint IqContention.

Local Open Scope Z_scope.

Implicit Types (q : InstQueue).

Abbreviation older := (λ e f : nat * InstSeqNum, e.2 <= f.2).

(** [l] is a well-formed [listOrder] for the ready queues of [q]. *)
Record order_ok (q : InstQueue) (l : list (nat * InstSeqNum)) : Prop := {
  oo_nodup : NoDup l.*1;
  oo_sorted : StronglySorted older l;
  oo_on : ∀ c, queueOnList q c = bool_decide (c ∈ l.*1);
  oo_empty : ∀ c, c ∉ l.*1 → readyInsts q c = [];
  oo_top : ∀ c n, (c, n) ∈ l → head (readyInsts q c) = Some n;
  oo_queues : ∀ c, StronglySorted Z.le (readyInsts q c);
}.

(** ** The priority queue *)

Lemma pq_push_perm p l : pq_push p l ≡ₚ p :: l.
Proof.
  induction l as [|x l IH]; cbn; [done|]. destruct (_ <? _); [done|].
  rewrite IH. constructor.
Qed.

Lemma pq_push_sorted p l : StronglySorted Z.le l → StronglySorted Z.le (pq_push p l).
Proof.
  induction 1 as [|x l Hl IH Hx]; cbn; [repeat constructor|].
  destruct (Z.ltb_spec p x).
  - constructor; [by constructor|]. constructor; [lia|].
    eapply Forall_impl; [exact Hx|]. cbn. lia.
  - constructor; [done|]. rewrite pq_push_perm. constructor; [lia|done].
Qed.

Lemma pq_push_head p l :
  head (pq_push p l)
  = Some (match l with x :: _ => if p <? x then p else x | [] => p end).
Proof. destruct l as [|x l]; cbn; [done|]. by destruct (_ <? _). Qed.

(** ** The order list *)

Lemma order_insert_perm e l : order_insert e l ≡ₚ e :: l.
Proof.
  induction l as [|x l IH]; cbn; [done|]. destruct (_ <? _); [done|].
  rewrite IH. constructor.
Qed.

Lemma order_insert_sorted e l : StronglySorted older l → StronglySorted older (order_insert e l).
Proof.
  induction 1 as [|x l Hl IH Hx]; cbn; [repeat constructor|].
  destruct (Z.ltb_spec e.2 x.2).
  - constructor; [by constructor|]. constructor; [lia|].
    eapply Forall_impl; [exact Hx|]. cbn. lia.
  - constructor; [done|]. rewrite order_insert_perm. constructor; [lia|done].
Qed.

Lemma order_insert_lt_perm e l : order_insert_lt e l ≡ₚ e :: l.
Proof.
  induction l as [|x l IH]; cbn; [done|]. destruct (_ <? _); [|done].
  rewrite IH. constructor.
Qed.

Lemma order_insert_lt_sorted e l :
  StronglySorted older l → StronglySorted older (order_insert_lt e l).
Proof.
  induction 1 as [|x l Hl IH Hx]; cbn; [repeat constructor|].
  destruct (Z.ltb_spec x.2 e.2).
  - constructor; [done|]. rewrite order_insert_lt_perm. constructor; [lia|done].
  - constructor; [by constructor|]. constructor; [lia|].
    eapply Forall_impl; [exact Hx|]. cbn. lia.
Qed.

(** The list for new ready queues that differ in class [c] only: [l'] is [l]
    with the entry of [c] replaced by [(c, top)]. *)
Lemma order_ok_replace q q' l l0 l' c top :
  order_ok q l → (∀ e, e ∈ l0 ↔ e ∈ l ∧ e.1 ≠ c) → NoDup l0.*1 →
  l' ≡ₚ (c, top) :: l0 → StronglySorted older l' →
  (∀ x, queueOnList q' x = <[c := true]> (queueOnList q) x) →
  (∀ x, x ≠ c → readyInsts q' x = readyInsts q x) →
  head (readyInsts q' c) = Some top → StronglySorted Z.le (readyInsts q' c) →
  order_ok q' l'.
Proof.
  intros [Hnd Hs Hon He Ht Hq] Hl0 Hnd0 Hp Hs' Hon' Hr Htop Hqc.
  assert (c ∉ l0.*1) as Hc.
  { intros ([c1 n1] & Hc1 & Hin)%list_elem_of_fmap. cbn in Hc1. subst. by apply Hl0 in Hin as [_ ?]. }
  assert (∀ x, x ≠ c → x ∈ l0.*1 ↔ x ∈ l.*1) as Hfst.
  { intros x Hx. rewrite !list_elem_of_fmap. split; intros (e & -> & He1); exists e; naive_solver. }
  assert (∀ x, x ∈ l'.*1 ↔ x = c ∨ x ∈ l0.*1) as Hmem
    by (intros x; rewrite Hp; cbn; by rewrite elem_of_cons).
  split.
  - rewrite Hp. cbn. by constructor.
  - done.
  - intros x. rewrite Hon'. destruct (decide (x = c)) as [->|Hne].
    + rewrite fn_lookup_insert. symmetry. apply bool_decide_true, Hmem. by left.
    + rewrite fn_lookup_insert_ne by done. rewrite Hon. apply bool_decide_ext.
      rewrite Hmem, Hfst; naive_solver.
  - intros x Hx. rewrite Hmem in Hx. rewrite Hr by naive_solver. apply He.
    rewrite <-Hfst; naive_solver.
  - intros x n Hx. rewrite Hp in Hx. apply elem_of_cons in Hx as [[= -> ->]|Hx]; [done|].
    apply Hl0 in Hx as [Hx Hne]. cbn in Hne. rewrite Hr by done. auto.
  - intros x. destruct (decide (x = c)) as [->|Hne]; [done|]. rewrite Hr; auto.
Qed.

(** The fields the issue loop leaves to the ready queues. *)
Record same_ready (q q' : InstQueue) : Prop := {
  sr_ready : readyInsts q' = readyInsts q;
  sr_on : queueOnList q' = queueOnList q;
  sr_width : totalWidth q' = totalWidth q;
}.

#[export] Instance same_ready_preorder : PreOrder same_ready.
Proof.
  split; [done|]. intros q1 q2 q3 [] []. split; congruence.
Qed.

Lemma order_ok_same q q' l : same_ready q q' → order_ok q l → order_ok q' l.
Proof. intros [Hr Ho _] [H1 H2 H3 H4 H5 H6]. split; rewrite ?Hr, ?Ho; auto. Qed.

(** ** Pushing a ready instruction *)

Lemma readyIt_oldest_spec q c n :
  NoDup (listOrder q).*1 → (c, n) ∈ listOrder q → readyIt_oldest c q = Ok n.
Proof.
  unfold readyIt_oldest. induction (listOrder q) as [|[c1 n1] l IH]; intros Hnd Hin.
  { by apply not_elem_of_nil in Hin. }
  cbn in Hnd. apply NoDup_cons in Hnd as [Hc1 Hnd]. apply elem_of_cons in Hin as [[= -> ->]|Hin].
  - by rewrite filter_cons_True.
  - rewrite filter_cons_False; [by apply IH|]. cbn. intros ->. apply Hc1.
    apply list_elem_of_fmap. by exists (c, n).
Qed.

Lemma addToOrderList_spec c top rest q :
  readyInsts q c = top :: rest →
  addToOrderList c q = Ok (set_queueOnList (<[c := true]> (queueOnList q))
                             (set_listOrder (order_insert (c, top) (listOrder q)) q)).
Proof. intros H. unfold addToOrderList. by rewrite H. Qed.

Lemma order_entry q l c : order_ok q l → c ∈ l.*1 → ∃ n rest, (c, n) ∈ l ∧ readyInsts q c = n :: rest.
Proof.
  intros Hok ([c1 n] & -> & Hin)%list_elem_of_fmap. exists n. pose proof (oo_top _ _ Hok c1 n Hin) as Ht.
  cbn. destruct (readyInsts q c1) as [|x rest]; simplify_eq/=. eauto.
Qed.

Lemma not_class_filter (l : list (nat * InstSeqNum)) c (e : nat * InstSeqNum) :
  e ∈ filter (λ e, e.1 ≠ c) l ↔ e ∈ l ∧ e.1 ≠ c.
Proof. rewrite list_elem_of_filter. tauto. Qed.

Lemma NoDup_fst_filter (P : nat * InstSeqNum → Prop) `{∀ x, Decision (P x)}
    (l : list (nat * InstSeqNum)) :
  NoDup l.*1 → NoDup (filter P l).*1.
Proof.
  induction l as [|e l IH]; [done|]. cbn [fmap list_fmap]. rewrite NoDup_cons. intros [He Hl].
  destruct (decide (P e)); [rewrite filter_cons_True by done|rewrite filter_cons_False by done; auto].
  cbn. apply NoDup_cons. split; [|auto]. contradict He. rewrite list_elem_of_fmap in *.
  destruct He as (x & Hx & [_ Hin]%list_elem_of_filter). eauto.
Qed.

Lemma pushReady_ok p c q :
  order_ok q (listOrder q) →
  ∃ q', pushReady p c q = Ok q' ∧ order_ok q' (listOrder q') ∧
    readyInsts q' = <[c := pq_push p (readyInsts q c)]> (readyInsts q) ∧
    totalWidth q' = totalWidth q.
Proof.
  intros Hok. unfold pushReady. set (qr := set_readyInsts _ q).
  assert (readyInsts qr c = pq_push p (readyInsts q c)) as Hrc
    by apply fn_lookup_insert.
  assert (∀ x, x ≠ c → readyInsts qr x = readyInsts q x) as Hrx
    by (intros x Hx; by apply fn_lookup_insert_ne).
  assert (StronglySorted Z.le (readyInsts qr c)) as Hqc
    by (rewrite Hrc; apply pq_push_sorted, Hok).
  pose proof (pq_push_head p (readyInsts q c)) as Hh. rewrite <-Hrc in Hh.
  destruct (readyInsts qr c) as [|top rest] eqn:Er; [done|]. cbn in Hh. injection Hh as Htop.
  assert (queueOnList qr = queueOnList q) as Hon by done.
  rewrite Hon, (oo_on _ _ Hok). case_bool_decide as Hc; cbn [negb pq_top].
  - destruct (order_entry _ _ _ Hok Hc) as (n & rst & Hin & Hn). rewrite Hn in Htop.
    rewrite (readyIt_oldest_spec qr c n (oo_nodup _ _ Hok) Hin).
    destruct (Z.ltb_spec top n) as [Hlt|Hge].
    + rewrite (addToOrderList_spec c top rest) by exact Er. eexists. split; [reflexivity|].
      split; [|done]. cbn [listOrder set_listOrder set_queueOnList].
      eapply (order_ok_replace q _ (listOrder q) (filter (λ e, e.1 ≠ c) (listOrder q)));
        [done|apply not_class_filter|by apply NoDup_fst_filter, Hok
        |apply order_insert_perm|by apply order_insert_sorted, StronglySorted_filter, Hok
        |done|exact Hrx|exact (f_equal head Er)|].
      change (StronglySorted Z.le (readyInsts qr c)). by rewrite Er.
    + eexists. split; [reflexivity|]. split; [|done].
      assert (top = n) as -> by (destruct (Z.ltb_spec p n); lia).
      destruct Hok as [H1 H2 H3 H4 H5 H6]. split; [done|done|done| | |].
      * intros x Hx. rewrite Hrx; [by apply H4|]. intros ->. done.
      * intros x m Hx. destruct (decide (x = c)) as [->|Hne].
        -- rewrite Er. cbn. rewrite <-(H5 _ _ Hx), Hn. done.
        -- rewrite Hrx; auto.
      * intros x. destruct (decide (x = c)) as [->|Hne]; [by rewrite Er|]. rewrite Hrx; auto.
  - rewrite (addToOrderList_spec c top rest) by exact Er. eexists. split; [reflexivity|].
    split; [|done]. cbn [listOrder set_listOrder set_queueOnList].
    eapply (order_ok_replace q _ (listOrder q) (listOrder q));
      [done| |apply Hok|apply order_insert_perm|apply order_insert_sorted, Hok
      |done|exact Hrx|exact (f_equal head Er)
      |change (StronglySorted Z.le (readyInsts qr c)); by rewrite Er].
    intros e. split; [|tauto]. intros He. split; [done|]. intros <-. apply Hc.
    by apply list_elem_of_fmap_2.
Qed.

(** ** Popping one *)

Lemma popReady_ok q passed c n behind :
  order_ok q (passed ++ (c, n) :: behind) →
  ∃ q' behind', popReady c behind q = Ok (q', behind') ∧ order_ok q' (passed ++ behind') ∧
    totalWidth q' = totalWidth q ∧
    (∀ x, x ≠ c → readyInsts q' x = readyInsts q x) ∧
    readyInsts q' c = tail (readyInsts q c) ∧
    behind' ≡ₚ match tail (readyInsts q c) with [] => behind | t :: _ => (c, t) :: behind end.
Proof.
  intros Hok. unfold popReady. set (qr := set_readyInsts _ q).
  assert (readyInsts qr c = tail (readyInsts q c)) as Hrc by apply fn_lookup_insert.
  assert (∀ x, x ≠ c → readyInsts qr x = readyInsts q x) as Hrx
    by (intros x Hx; by apply fn_lookup_insert_ne).
  pose proof (oo_top _ _ Hok c n ltac:(set_solver)) as Htop.
  pose proof (oo_queues _ _ Hok c) as Hqc.
  destruct (readyInsts q c) as [|x rest] eqn:Ec; [done|]. cbn [head tail] in Htop, Hrc. injection Htop as ->.
  inversion_clear Hqc as [|? ? Hrest Hle].
  pose proof (oo_nodup _ _ Hok) as Hnd. rewrite fmap_app, fmap_cons in Hnd. cbn in Hnd.
  assert ((c ∉ (passed.*1 ++ behind.*1)) ∧ NoDup (passed.*1 ++ behind.*1)) as [Hc Hnd0].
  { apply NoDup_cons. by rewrite Permutation_middle. }
  assert (∀ e, e ∈ passed ++ behind ↔ e ∈ passed ++ (c, n) :: behind ∧ e.1 ≠ c) as Hl0.
  { intros e. rewrite !elem_of_app, elem_of_cons. split; [|intros [[?|[->|?]] ?]; naive_solver].
    intros He. split; [tauto|]. intros <-. apply Hc. rewrite elem_of_app.
    destruct He as [He|He]; [left|right]; by apply list_elem_of_fmap_2. }
  pose proof (oo_sorted _ _ Hok) as Hs. apply StronglySorted_app in Hs as (Hpb & Hsp & Hsb).
  inversion_clear Hsb as [|? ? Hsb' Hnb].
  destruct rest as [|t rest]; cbn [tail]; rewrite Hrc.
  - rewrite bool_decide_true by done. eexists _, _. split; [reflexivity|].
    split_and!; [|done..]. destruct Hok as [H1 H2 H3 H4 H5 H6]. split.
    + by rewrite fmap_app.
    + apply StronglySorted_app. split_and!; [|done..]. intros a b Ha Hb. apply Hpb; set_solver.
    + intros x. cbn. destruct (decide (x = c)) as [->|Hne].
      * rewrite fn_lookup_insert. symmetry. apply bool_decide_false. by rewrite fmap_app.
      * rewrite fn_lookup_insert_ne by done. rewrite H3. apply bool_decide_ext.
        rewrite !fmap_app, fmap_cons. cbn. set_solver.
    + intros x Hx. change (readyInsts qr x = []).
      destruct (decide (x = c)) as [->|Hne]; [by rewrite Hrc|].
      rewrite Hrx by done. apply H4. revert Hx. rewrite !fmap_app, fmap_cons. cbn. set_solver.
    + intros x m Hx. apply Hl0 in Hx as [Hx Hne]. cbn in Hne.
      change (head (readyInsts qr x) = Some m). rewrite Hrx; auto.
    + intros x. change (StronglySorted Z.le (readyInsts qr x)).
      destruct (decide (x = c)) as [->|Hne]; [rewrite Hrc; constructor|]. rewrite Hrx; auto.
  - rewrite bool_decide_false by done. unfold moveToYoungerInst. rewrite Hrc. cbn [pq_top].
    eexists _, _. split; [reflexivity|].
    split_and!; [|done|done|done|apply order_insert_lt_perm].
    eapply (order_ok_replace q qr _ (passed ++ behind)); [done|exact Hl0|by rewrite fmap_app| | | |
      exact Hrx|by rewrite Hrc|by rewrite Hrc].
    + rewrite order_insert_lt_perm. by rewrite Permutation_middle.
    + apply StronglySorted_app. split_and!; [|done|by apply order_insert_lt_sorted].
      intros a b Ha Hb. rewrite order_insert_lt_perm in Hb. apply elem_of_cons in Hb as [->|Hb].
      * specialize (Hpb a (c, n) Ha ltac:(left)). apply Forall_cons in Hle as [? _]. cbn in *. lia.
      * apply Hpb; set_solver.
    + intros x. cbn. destruct (decide (x = c)) as [->|Hne].
      * rewrite fn_lookup_insert, (oo_on _ _ Hok). apply bool_decide_true.
        rewrite fmap_app, fmap_cons. set_solver.
      * by rewrite fn_lookup_insert_ne.
Qed.

(** ** What issuing an instruction leaves alone *)

Section frames.
Context (cfg : DolmaConfig).

Lemma nextFU_same c q i q' : nextFU c q = Ok (i, q') → same_ready q q'.
Proof.
  unfold nextFU. intros H. inv_ok1 H. destruct (getFU a) as [[x fq]|]; [|done]. by inv_ok H.
Qed.

Lemma stallOccupant_same o q s q' s' : stallOccupant cfg o q s = Ok (q', s') → same_ready q q'.
Proof. intros H. by apply stallOccupant_stalls in H as (_ & _ & [->| ->]). Qed.

Lemma evict_same issuing c start r n : ∀ fu q s i q' s',
  evict cfg n issuing c start fu r q s = Ok (i, q', s') → same_ready q q'.
Proof.
  induction n as [|n IH]; intros fu q s i q' s' H; cbn in H; [done|]. inv_ok1 H.
  destruct a as [o|].
  - destruct (stallOccupant _ _ _ _) as [[q1 s1]|] eqn:Es; [|done]. inv_ok1 H. inv_ok H.
    apply stallOccupant_same in Es. by etransitivity.
  - destruct (nextFU _ _) as [[x q1]|] eqn:En; [|done]. apply nextFU_same in En.
    destruct (_ =? _); [by inv_ok H|]. etransitivity; [done|eauto].
Qed.

Lemma acquireUnit_same issuing c r q s i q' s' :
  acquireUnit cfg issuing c r q s = Ok (i, q', s') → same_ready q q'.
Proof.
  unfold acquireUnit. intros H. inv_ok1 H. destruct a as [[idx p]|]; [|done].
  destruct (_ && _); [|by inv_ok H].
  destruct (nextFU _ _) as [[x q1]|] eqn:En; [|done]. apply nextFU_same in En.
  inv_ok1 H. apply evict_same in H. transitivity (set_fuPool p q); [done|]. by etransitivity.
Qed.

Lemma dispatchToFU_same p c idx lat q q' :
  dispatchToFU p c idx lat q = Ok q' → same_ready q q'.
Proof.
  unfold dispatchToFU. intros H. destruct (lat =? 1).
  - destruct (_ <=? _); [|by inv_ok H]. inv_ok1 H. by inv_ok H.
  - inv_ok1 H. destruct a; [|by inv_ok H]. inv_ok1 H. by inv_ok H.
Qed.

Lemma dolmaStallInst_same p q s q' s' : dolmaStallInst p q s = Ok (q', s') → same_ready q q'.
Proof. unfold dolmaStallInst. intros H. by inv_ok H. Qed.
End frames.

(** ** The issue loop *)

(** The work left: entries to come and instructions ready behind them. *)
Definition work (q : InstQueue) (l : list (nat * InstSeqNum)) : nat :=
  sum_list_with (λ e, S (length (readyInsts q e.1))) l.

Lemma work_perm q l l' : l ≡ₚ l' → work q l = work q l'.
Proof. unfold work. induction 1; cbn; lia. Qed.

Lemma work_count q l :
  work q l = (length l + sum_list_with (λ e, length (readyInsts q e.1)) l)%nat.
Proof. unfold work. induction l; cbn; lia. Qed.

Lemma work_same q q' l : readyInsts q' = readyInsts q → work q' l = work q l.
Proof. intros H. unfold work. by rewrite H. Qed.

Lemma work_others q q' c l :
  (∀ x, x ≠ c → readyInsts q' x = readyInsts q x) → c ∉ l.*1 → work q' l = work q l.
Proof.
  intros Hr. unfold work. induction l as [|[x n] l IH]; cbn; [done|].
  rewrite not_elem_of_cons. intros [Hx Hl]. rewrite Hr by done. rewrite IH by done. done.
Qed.

(** What one iteration establishes. *)
Record progress (width : nat) (x x' : Sched) : Prop := {
  pg_order : order_ok (sc_q x') (passed x' ++ ahead x');
  pg_width : totalWidth (sc_q x') = width;
  pg_work : (work (sc_q x') (ahead x') < work (sc_q x) (ahead x))%nat;
  pg_issued : (total_issued x' <= S (total_issued x))%nat;
}.

(** After the head entry's queue is popped, less work is ahead. *)
Lemma popReady_work q passed c n behind q' behind' :
  order_ok q (passed ++ (c, n) :: behind) → popReady c behind q = Ok (q', behind') →
  order_ok q' (passed ++ behind') ∧ totalWidth q' = totalWidth q ∧
  (work q' behind' < work q ((c, n) :: behind))%nat.
Proof.
  intros Hok H. destruct (popReady_ok _ _ _ _ _ Hok) as (q1 & b1 & H1 & Ho & Hw & Hx & Hc & Hp).
  rewrite H in H1. injection H1 as <- <-. split_and!; [done..|].
  assert (c ∉ behind.*1) as Hcb.
  { pose proof (oo_nodup _ _ Hok) as Hnd. rewrite fmap_app, fmap_cons in Hnd. cbn in Hnd.
    apply NoDup_app in Hnd as (_ & _ & Hnd). by apply NoDup_cons in Hnd as [? _]. }
  rewrite (work_perm q' _ _ Hp). cbn [work sum_list_with fst].
  pose proof (work_others q q' c behind Hx Hcb) as Hwk. unfold work in Hwk |- *. cbn.
  destruct (readyInsts q c) as [|x [|t rest]]; cbn in *; rewrite ?Hc, ?Hwk; cbn; lia.
Qed.

Section loop.
Context (cfg : DolmaConfig) (r : ROB).

Lemma schedStep_progress x c n behind x' :
  ahead x = (c, n) :: behind → order_ok (sc_q x) (passed x ++ ahead x) →
  schedStep cfg r c behind (c, n) x = Ok x' → progress (totalWidth (sc_q x)) x x'.
Proof.
  intros Ha Hok H. rewrite Ha in Hok. unfold schedStep in H. inv_ok1 H. inv_ok1 H. inv_ok1 H.
  destruct (_ && _ && _).
  { inv_ok1 H. destruct (popReady _ _ _) as [[q1 b1]|] eqn:Ep; [|done].
    destruct (popReady_work _ _ _ _ _ _ _ Hok Ep) as (Ho & Hw & Hk).
    inv_ok1 H. destruct (dolmaStallInst _ _ _) as [[q2 s2]|] eqn:Ed; [|done].
    apply dolmaStallInst_same in Ed. destruct b1 as [|e1 b1]; [done|]. inv_ok H.
    split; cbn [sc_q ahead passed total_issued].
    - rewrite <-app_assoc. by apply (order_ok_same q1).
    - by rewrite (sr_width _ _ Ed).
    - rewrite Ha, (work_same q1 q2) by apply Ed. unfold work in Hk |- *. cbn in Hk |- *. lia.
    - lia. }
  destruct (isSquashed a0).
  { destruct (popReady _ _ _) as [[q1 b1]|] eqn:Ep; [|done].
    destruct (popReady_work _ _ _ _ _ _ _ Hok Ep) as (Ho & Hw & Hk). inv_ok H.
    split; cbn [sc_q ahead passed total_issued]; [done|done|by rewrite Ha|lia]. }
  destruct (if (c =? No_OpClass)%nat then _ else _) as [[[idx q1] s1]|] eqn:Eu; [|done].
  assert (same_ready (sc_q x) q1) as Hs1.
  { destruct (_ =? _)%nat; [by inv_ok Eu|]. by eapply acquireUnit_same. }
  inv_ok1 H. apply (order_ok_same _ _ _ Hs1) in Hok. destruct (negb (idx =? NoFreeFU)).
  2:{ inv_ok H. split; cbn [sc_q ahead passed total_issued].
      - by rewrite <-app_assoc.
      - apply Hs1.
      - rewrite Ha, (work_same (sc_q x) q1) by apply Hs1. unfold work. cbn. lia.
      - lia. }
  inv_ok1 H. rename a2 into q2. apply dispatchToFU_same in E3.
  apply (order_ok_same _ _ _ E3) in Hok.
  destruct (popReady _ _ _) as [[q3 b3]|] eqn:Ep; [|done].
  destruct (popReady_work _ _ _ _ _ _ _ Hok Ep) as (Ho & Hw & Hk). inv_ok1 H.
  destruct (if negb (isMemRef a0) then _ else _) as [[q4 s4]|] eqn:E5; [|done].
  assert (same_ready q3 q4) as Hs4.
  { destruct (negb (isMemRef a0)).
    - inv_ok1 E5. by inv_ok E5.
    - inv_ok1 E5. by inv_ok E5. }
  inv_ok H. assert (same_ready (sc_q x) q2) as Hs2 by by etransitivity.
  split; cbn [sc_q ahead passed total_issued].
  - by apply (order_ok_same q3).
  - rewrite (sr_width _ _ Hs4), Hw. apply Hs2.
  - rewrite Ha, (work_same q3 q4) by apply Hs4.
    rewrite (work_same (sc_q x) q2) in Hk by apply Hs2. exact Hk.
  - lia.
Qed.

(** Enough fuel runs the loop to its end. *)
Lemma schedLoop_ends fuel : ∀ x,
  order_ok (sc_q x) (passed x ++ ahead x) → (work (sc_q x) (ahead x) < fuel)%nat →
  (total_issued x <= totalWidth (sc_q x))%nat →
  match schedLoop cfg fuel r x with
  | Ok None => False
  | Ok (Some x') => order_ok (sc_q x') (passed x' ++ ahead x') ∧
      totalWidth (sc_q x') = totalWidth (sc_q x) ∧
      (total_issued x' <= totalWidth (sc_q x))%nat ∧
      (ahead x' = [] ∨ total_issued x' = totalWidth (sc_q x))
  | Err _ => True
  end.
Proof.
  induction fuel as [|fuel IH]; intros x Hok Hf Hw; [lia|]. cbn [schedLoop].
  destruct (Nat.ltb_spec (total_issued x) (totalWidth (sc_q x))); [|by split_and!; [..|right; lia]].
  destruct (ahead x) as [|[c n] behind] eqn:Ea; [split_and!; rewrite ?Ea; auto|]. cbn [fst].
  destruct (schedStep _ _ _ _ _ _) as [x'|] eqn:Es; [|done].
  rewrite <-Ea in Hok, Hf. apply schedStep_progress in Es as [Po Pw Pk Pi]; [|done..].
  specialize (IH x' Po). rewrite Pw in IH. destruct (schedLoop _ _ _ _) as [[?|]|]; auto.
  - apply IH; lia.
  - apply IH; lia.
Qed.

(** [addReadyMemInst] and the loops that call it. *)
Definition keeps_order (q q' : InstQueue) : Prop :=
  order_ok q (listOrder q) → order_ok q' (listOrder q') ∧ totalWidth q' = totalWidth q.

Lemma keeps_order_trans q1 q2 q3 : keeps_order q1 q2 → keeps_order q2 q3 → keeps_order q1 q3.
Proof. unfold keeps_order. intros H1 H2 H. destruct (H1 H), (H2 (proj1 (H1 H))). split; congruence. Qed.

Lemma keeps_order_same q q0 q' :
  same_ready q q0 → listOrder q0 = listOrder q → keeps_order q0 q' → keeps_order q q'.
Proof.
  intros Hs Hl H Hok. apply (order_ok_same _ _ _ Hs) in Hok. rewrite <-Hl in Hok.
  destruct (H Hok) as [? ->]. split; [done|apply Hs].
Qed.

Lemma addReadyMemInst_keeps p q s q' : addReadyMemInst p q s = Ok q' → keeps_order q q'.
Proof.
  unfold addReadyMemInst. intros H Hok. inv_ok1 H.
  destruct (pushReady_ok p (opClass a) q Hok) as (q1 & H1 & Ho & _ & Hw).
  rewrite H in H1. by injection H1 as <-.
Qed.

Lemma drainStalled_keeps n : ∀ q s q', drainStalled n q s = Ok q' → keeps_order q q'.
Proof.
  induction n as [|n IH]; intros q s q' H; cbn in H; [by inv_ok H|].
  unfold getDolmaStalledInstToExecute in H. destruct (oldestReleased _ _ _) as [[p|]|]; cbn in H;
    [|by inv_ok H|done]. inv_ok1 H. apply addReadyMemInst_keeps in E. apply IH in H.
  eapply keeps_order_trans; [|exact H]. by eapply keeps_order_same, E.
Qed.

Lemma drainDeferred_keeps n : ∀ q s q', drainDeferred n q s = Ok q' → keeps_order q q'.
Proof.
  induction n as [|n IH]; intros q s q' H; cbn in H; [by inv_ok H|].
  unfold getDeferredMemInstToExecute in H. destruct (firstDeferred _ _) as [[p|]|]; cbn in H;
    [|by inv_ok H|done]. inv_ok1 H. apply addReadyMemInst_keeps in E. apply IH in H.
  eapply keeps_order_trans; [|exact H]. by eapply keeps_order_same, E.
Qed.

Lemma drainBlocked_keeps n : ∀ q s q', drainBlocked n q s = Ok q' → keeps_order q q'.
Proof.
  induction n as [|n IH]; intros q s q' H; cbn in H; [by inv_ok H|].
  unfold getBlockedMemInstToExecute in H. destruct (retryMemInsts q) as [|p l]; cbn in H;
    [by inv_ok H|]. inv_ok1 H. apply addReadyMemInst_keeps in E. apply IH in H.
  eapply keeps_order_trans; [|exact H]. by eapply keeps_order_same, E.
Qed.
End loop.

(** ** An example: two additions and a division are ready *)
Module OrderExample.
Definition insts : store :=
  {[ 4 := IqExample.inst 4 [IsInteger] [] []; 5 := IqExample.inst 5 [IsInteger] [] [];
     7 := IqExample.inst 7 [IsInteger] [] [] ]}.
Definition rob : ROB :=
  mkROB Dynamic 8 2 1 (λ _, 8) (λ _, 3) (λ t, if (t =? 0)%nat then [4; 5; 7] else [])
    (Some 4) (Some 7) (λ _, None) 3 (λ _, 0) (λ _, true) (λ _, Running) [0%nat] [].
Definition ready (c : nat) : list DynInstPtr :=
  match c with 1%nat => [4; 7] | 2%nat => [5] | _ => [] end.
Definition on (c : nat) : bool := match c with 1%nat | 2%nat => true | _ => false end.
Definition queue : InstQueue :=
  mkInstQueue (λ _, [4; 5; 7]) 16 13 (λ _, 3) 1 Dynamic (λ _, 16) [0%nat] 2 ready on
    [(1%nat, 4); (2%nat, 5)] [] ∅ [] [] [] [] (dg_resize 8) [] [] (λ _, 0) 0
    (λ _, newMemDepUnit ex_store_set) ex_pool [] 0 0.

Lemma queue_order : order_ok queue (listOrder queue).
Proof.
  split.
  - by_eval.
  - repeat constructor; cbn; lia.
  - intros [|[|[|c]]]; by_eval.
  - intros [|[|[|c]]] Hc; [done|..|done]; exfalso; apply Hc; by_eval.
  - intros c n Hc. cbn in Hc. rewrite !elem_of_cons in Hc.
    destruct Hc as [[= -> ->]|[[= -> ->]|Hc]]; [done..|]. by apply not_elem_of_nil in Hc.
  - intros [|[|[|c]]]; repeat constructor; lia.
Qed.
End OrderExample.

(** The oldest of the instructions that are no longer stalled. *)
Definition released (s : store) (p : DynInstPtr) : Prop := view isDolmaStalled s p = false.

Lemma oldestReleased_spec s l : ∀ o,
  Forall (λ p, is_Some (s !! p)) l → (∀ p, o = Some p → released s p) →
  ∃ o', oldestReleased l s o = Ok o' ∧
    match o' with
    | None => o = None ∧ ∀ p, p ∈ l → ¬ released s p
    | Some p => (p ∈ l ∨ o = Some p) ∧ released s p ∧
        (∀ p', p' ∈ l ∨ o = Some p' → released s p' → p <= p')
    end.
Proof.
  induction l as [|x l IH]; intros o Hall Ho; cbn.
  { exists o. split; [done|]. destruct o as [p|]; [|set_solver].
    split_and!; [by right|auto|]. intros p' [Hp|[= ->]] _; [by apply not_elem_of_nil in Hp|lia]. }
  apply Forall_cons in Hall as [[i Hi] Hall]. unfold deref. rewrite Hi.
  assert (released s x ↔ isDolmaStalled i = false) as Hx by (unfold released, view; by rewrite Hi).
  destruct (isDolmaStalled i) eqn:Es; cbn [negb].
  - destruct (IH o Hall Ho) as (o' & -> & H'). exists o'. split; [done|].
    assert (¬ released s x) as Hnx by naive_solver. destruct o' as [p|].
    + destruct H' as (H1 & H2 & H3). split_and!; [set_solver|done|].
      intros p' Hp' Hr. apply H3; [|done]. set_solver.
    + destruct H' as [H1 H2]. split; [done|]. set_solver.
  - set (o1 := match o with None => _ | Some _ => _ end).
    assert (∀ p, o1 = Some p → released s p) as Ho1.
    { intros p. unfold o1. destruct o as [y|]; [destruct (x <? y)|]; intros [= <-]; naive_solver. }
    destruct (IH o1 Hall Ho1) as (o' & -> & H'). exists o'. split; [done|].
    destruct o' as [p|]; [|by destruct H' as [H1 _]; unfold o1 in H1; destruct o; [destruct (_ <? _)|]].
    destruct H' as (H1 & H2 & H3). split_and!; [|done|].
    + destruct H1 as [H1|H1]; [set_solver|]. unfold o1 in H1.
      destruct o as [y|]; [destruct (x <? y)|]; simplify_eq; set_solver.
    + intros p' Hp' Hr.
      assert (∀ z, o1 = Some z → p <= z) as Hz by (intros z Hz; apply H3; auto).
      assert (p <= x ∧ ∀ y, o = Some y → p <= y) as [Hpx Hpo].
      { unfold o1 in Hz. destruct o as [y|]; [destruct (Z.ltb_spec x y)|]; specialize (Hz _ eq_refl);
          (split; [lia|intros ? [= <-]; lia]) || (split; [lia|done]). }
      destruct Hp' as [[->|Hp']%elem_of_cons|Hp']; auto.
Qed.

Lemma erase_first_perm p l : p ∈ l → l ≡ₚ p :: erase_first p l.
Proof.
  induction l as [|x l IH]; [by intros ?%not_elem_of_nil|]. cbn.
  destruct (Z.eqb_spec x p) as [->|Hne]; [done|]. intros [->|Hl]%elem_of_cons; [done|].
  rewrite (IH Hl) at 1. constructor.
Qed.

(** ** Theorems *)

(** [getDolmaStalledInstToExecute] releases exactly one of the stalled
    instructions that have become safe, the oldest, and takes it off the list;
    it returns nothing only when all are still stalled. *)
Theorem stalled_oldest_first q s :
  Forall (λ p, is_Some (s !! p)) (dolmaStalledInsts q) →
  ∃ o, getDolmaStalledInstToExecute q s = Ok o ∧
    match o with
    | None => ∀ p, p ∈ dolmaStalledInsts q → ¬ released s p
    | Some (p, q') => p ∈ dolmaStalledInsts q ∧ released s p ∧
        (∀ p', p' ∈ dolmaStalledInsts q → released s p' → p <= p') ∧
        dolmaStalledInsts q ≡ₚ p :: dolmaStalledInsts q'
    end.
Proof.
  intros Hall. unfold getDolmaStalledInstToExecute.
  destruct (oldestReleased_spec s (dolmaStalledInsts q) None Hall) as (o & -> & H); [done|].
  eexists. split; [reflexivity|]. destruct o as [p|]; cbn; [|by apply H].
  destruct H as ([H1|H1] & H2 & H3); [|done].
  split_and!; [done|done|auto|by apply erase_first_perm].
Qed.

Lemma stalled_oldest_first_witness :
  ∃ p q', getDolmaStalledInstToExecute
      (set_dolmaStalledInsts [7; 5; 9] OrderExample.queue)
      (<[9 := ContentionExample.div 9 [DolmaStalled; ControlRestricted]]> OrderExample.insts)
    = Ok (Some (p, q')) ∧ p = 5 ∧ [7; 5; 9] ≡ₚ p :: dolmaStalledInsts q'.
Proof.
  destruct (stalled_oldest_first (set_dolmaStalledInsts [7; 5; 9] OrderExample.queue)
    (<[9 := ContentionExample.div 9 [DolmaStalled; ControlRestricted]]> OrderExample.insts))
    as (o & H & Ho); [by_eval|]. destruct o as [[p q']|].
  - exists p, q'. split; [exact H|]. split; [|apply Ho].
    assert (p <= 5) as Hle by (apply Ho; [right; left|by_eval]).
    destruct Ho as (Hin & _). cbn in Hin. rewrite !elem_of_cons in Hin.
    destruct Hin as [->|[->|[->|Hin]]]; [lia|done|lia|by apply not_elem_of_nil in Hin].
  - exfalso. apply (Ho 5); [right; left|by_eval].
Defined.

(** making an instruction ready never fails and keeps the order list
    well formed, and the head of the list is then at least as old as every
    ready instruction of any class. *)
Theorem oldest_class_first p c q :
  order_ok q (listOrder q) →
  ∃ q', pushReady p c q = Ok q' ∧ order_ok q' (listOrder q') ∧
    (∀ x, x ∈ readyInsts q' c ↔ x = p ∨ x ∈ readyInsts q c) ∧
    ∃ c0 n rest, listOrder q' = (c0, n) :: rest ∧ head (readyInsts q' c0) = Some n ∧
      ∀ c' x, x ∈ readyInsts q' c' → n <= x.
Proof.
  intros Hok. destruct (pushReady_ok p c q Hok) as (q' & H & Hok' & Hr & _).
  exists q'. split_and!; [done|done| |].
  { intros x. rewrite Hr, fn_lookup_insert, pq_push_perm. apply elem_of_cons. }
  destruct Hok' as [H1 H2 H3 H4 H5 H6].
  destruct (listOrder q') as [|[c0 n] rest] eqn:El.
  { exfalso. assert (readyInsts q' c = []) as E by (apply H4, not_elem_of_nil).
    rewrite Hr, fn_lookup_insert in E. pose proof (pq_push_perm p (readyInsts q c)) as Hp.
    rewrite E in Hp. by apply Permutation_nil_cons in Hp. }
  exists c0, n, rest. split_and!; [done|apply H5; left|]. intros c' x Hx.
  assert (c' ∈ ((c0, n) :: rest).*1) as Hc'.
  { destruct (decide (c' ∈ ((c0, n) :: rest).*1)) as [|Hn]; [done|]. rewrite (H4 _ Hn) in Hx.
    by apply not_elem_of_nil in Hx. }
  apply list_elem_of_fmap in Hc' as ([c1 n1] & -> & Hin). cbn in Hx.
  pose proof (H5 _ _ Hin) as Hh. pose proof (H6 c1) as Hs.
  destruct (readyInsts q' c1) as [|y ys]; [done|]. injection Hh as ->.
  assert (n <= n1) as Hn1.
  { apply elem_of_cons in Hin as [[= -> ->]|Hin]; [lia|]. inversion_clear H2 as [|? ? _ Hall].
    exact (proj1 (Forall_forall _ _) Hall _ Hin). }
  apply elem_of_cons in Hx as [->|Hx]; [done|]. inversion_clear Hs as [|? ? _ Hall].
  pose proof (proj1 (Forall_forall _ _) Hall x Hx). cbn in *. lia.
Qed.

Lemma oldest_class_first_witness :
  ∃ q', pushReady 2 2 OrderExample.queue = Ok q' ∧ order_ok q' (listOrder q') ∧
    ∃ c0 n rest, listOrder q' = (c0, n) :: rest ∧ ∀ c' x, x ∈ readyInsts q' c' → n <= x.
Proof.
  destruct (oldest_class_first 2 2 OrderExample.queue OrderExample.queue_order)
    as (q' & H1 & H2 & _ & c0 & n & rest & H3 & _ & H4).
  exists q'. split_and!; [exact H1|exact H2|]. exists c0, n, rest. auto.
Defined.



(** in STT mode the iteration that stalls a restricted load steps over the
    entry that follows it: that class is not considered in this cycle although
    the width allows it, and when no entry follows the iterator moves past the
    end of the list. *)
Theorem stt_stall_skips cfg r c n behind x p i :
  isSTT cfg = true → order_ok (sc_q x) (passed x ++ (c, n) :: behind) →
  head (readyInsts (sc_q x) c) = Some p → sc_s x !! p = Some i →
  isDolmaRestricted i = true → isLoad i = true →
  ∀ x', schedStep cfg r c behind (c, n) x = Ok x' →
    ∃ e, passed x' = passed x ++ [e] ∧ total_issued x' = total_issued x ∧
      e :: ahead x' ≡ₚ match tail (readyInsts (sc_q x) c) with
                       | [] => behind
                       | t :: _ => (c, t) :: behind
                       end.
Proof.
  intros Hstt Hok Hp Hi Hres Hl x' H. unfold schedStep in H.
  destruct (popReady_ok _ _ _ _ _ Hok) as (q1 & b1 & H1 & _ & _ & _ & _ & Hperm).
  destruct (readyInsts (sc_q x) c) as [|p1 rest] eqn:Er; [done|]. injection Hp as ->.
  rewrite bool_decide_false in H by done. cbn [negb pq_top] in H. unfold deref in H.
  rewrite Hi, Hstt, Hres, Hl in H. cbn [andb] in H. inv_ok1 H. rewrite H1 in H. inv_ok1 H.
  destruct (dolmaStallInst _ _ _) as [[q2 s2]|]; [|done].
  destruct b1 as [|e1 b1]; [done|]. inv_ok H. by exists e1.
Qed.

Lemma stt_stall_skips_witness :
  let ld := IqExample.inst 4 [IsMemRef; IsLoad] [] [3] in
  let s := <[4 := set_status (bs_set 0%N DataRestricted) ld]> OrderExample.insts in
  ∃ x', schedStep (mkDolmaConfig true true true true) OrderExample.rob 1 [(2%nat, 5)] (1%nat, 4)
      (mkSched OrderExample.queue s [] (listOrder OrderExample.queue) 0) = Ok x' ∧
    ∃ e, passed x' = [] ++ [e] ∧ total_issued x' = 0%nat ∧
      e :: ahead x' ≡ₚ [(1%nat, 7); (2%nat, 5)].
Proof.
  intros ld s.
  destruct (schedStep (mkDolmaConfig true true true true) OrderExample.rob 1 [(2%nat, 5)]
    (1%nat, 4) (mkSched OrderExample.queue s [] (listOrder OrderExample.queue) 0)) as [x'|] eqn:E.
  - exists x'. split; [done|].
    eapply (stt_stall_skips (mkDolmaConfig true true true true) OrderExample.rob 1 4 [(2%nat, 5)]
      (mkSched OrderExample.queue s [] (listOrder OrderExample.queue) 0) 4);
      [done|apply OrderExample.queue_order|done|by apply lookup_insert_eq|by_eval|by_eval|exact E].
  - exfalso. assert (is_ok (schedStep (mkDolmaConfig true true true true) OrderExample.rob 1
      [(2%nat, 5)] (1%nat, 4) (mkSched OrderExample.queue s [] (listOrder OrderExample.queue) 0))
      = true) as V by (vm_compute; reflexivity). by rewrite E in V.
Defined.
