(* ===== verification/Rename.v ===== *)
(** * Register renaming

    The physical register file's identifiers ([cpu/o3/regfile.cc]), the free
    lists ([cpu/o3/free_list.hh]), the rename maps ([cpu/o3/rename_map.hh],
    [cpu/o3/rename_map.cc]), the scoreboard ([cpu/o3/scoreboard.hh]) and the
    part of the rename stage that uses them ([cpu/o3/rename_impl.hh]): renaming
    of sources and destinations, the history buffer, its undo on a squash and
    its release at commit.

    A [PhysRegIdPtr] points into the register file, which holds each identifier
    once; the pointer is modelled by the identifier.  The five maps and lists of
    the unified classes are a family indexed by the register class. *)

From S2P Require Import Prelude Regs Config DynInst Metadata Rob StoreSet DepGraph FUPool.
From S2P Require Import MemDepUnit InstQueue.

Local Open Scope Z_scope.

(** [Enums::VecRegRenameMode]. *)
Inductive VecMode : Type := Full | Elem.

#[export] Instance VecMode_eq_dec : EqDecision VecMode.
Proof. solve_decision. Defined.

(** ** The register file's identifiers *)

Record PhysRegFile := mkPhysRegFile {
  regIds : RegClass → list PhysRegId;
  rf_vecMode : VecMode;
}.

(** [n] scalar registers of class [c], the first with flat index [base]. *)
Definition scalarIds (c : RegClass) (base : Z) (n : nat) : list PhysRegId :=
  (λ k, mkPhysRegId (mkRegId c (Z.of_nat k) (-1)) (base + Z.of_nat k)) <$> seq 0 n.

Definition elemIds (base : Z) (n : nat) : list PhysRegId :=
  (λ k, let k := Z.of_nat k in
        mkPhysRegId (mkRegId VecElemClass (k / NumVecElemPerVecReg)
                       (k mod NumVecElemPerVecReg)) (base + k))
    <$> seq 0 (n * Z.to_nat NumVecElemPerVecReg).

(** The constructor; misc registers all get flat index 0. *)
Definition newPhysRegFile (nInt nFloat nVec nCC nMisc : nat) (mode : VecMode) : PhysRegFile :=
  let bFloat := Z.of_nat nInt in
  let bVec := bFloat + Z.of_nat nFloat in
  let bElem := bVec + Z.of_nat nVec in
  let bCC := bElem + Z.of_nat nVec * NumVecElemPerVecReg in
  mkPhysRegFile
    (λ c, match c with
          | IntRegClass => scalarIds IntRegClass 0 nInt
          | FloatRegClass => scalarIds FloatRegClass bFloat nFloat
          | VecRegClass => scalarIds VecRegClass bVec nVec
          | VecElemClass => elemIds bElem nVec
          | CCRegClass => scalarIds CCRegClass bCC nCC
          | MiscRegClass =>
              (λ k, mkPhysRegId (mkRegId MiscRegClass (Z.of_nat k) (-1)) 0) <$> seq 0 nMisc
          end) mode.

Definition getMiscRegId (rf : PhysRegFile) (reg_idx : Z) : outcome PhysRegId :=
  vec_get "miscRegIds" (regIds rf MiscRegClass) reg_idx.

(** ** Free lists *)

(** Queues, the front first. *)
Abbreviation UnifiedFreeList := (RegClass → list PhysRegId).

Definition classValue (p : PhysRegId) : RegClass := regClass (pr_reg p).

(** [getReg] of the list of class [c]. *)
Definition getReg (c : RegClass) (fl : UnifiedFreeList) : outcome (PhysRegId * UnifiedFreeList) :=
  match fl c with
  | [] => Err (Assertion "getReg: !freeRegs.empty()")
  | r :: l => Ok (r, <[c := l]> fl)
  end.

Definition addReg (r : PhysRegId) (fl : UnifiedFreeList) : outcome UnifiedFreeList :=
  match classValue r with
  | MiscRegClass => Err (PanicCall "Unexpected RegClass")
  | c => Ok (<[c := fl c ++ [r]]> fl)
  end.

Definition addRegs (rs : list PhysRegId) (fl : UnifiedFreeList) : outcome UnifiedFreeList :=
  match rs with
  | [] => Ok fl
  | first :: _ =>
      if negb (bool_decide (classValue <$> last rs = Some (classValue first)))
      then Err (PanicCall "Attempt to add mixed type regs")
      else
        match classValue first with
        | MiscRegClass => Err (PanicCall "Unexpected RegClass")
        | c => Ok (<[c := fl c ++ rs]> fl)
        end
  end.

(** [PhysRegFile::initFreeList], called by the constructor of the lists. *)
Definition initFreeList (rf : PhysRegFile) : outcome UnifiedFreeList :=
  foldM (λ fl c, addRegs (regIds rf c) fl)
    [IntRegClass; FloatRegClass;
     (if bool_decide (rf_vecMode rf = Full) then VecRegClass else VecElemClass); CCRegClass]
    (λ _, []).

Definition numFreeRegs (c : RegClass) (fl : UnifiedFreeList) : nat := length (fl c).

(** ** Rename maps *)

(** [SimpleRenameMap]; an entry is null until it is set. *)
Record SimpleRenameMap := mkSimpleRenameMap {
  rmap : list (option PhysRegId);
  zeroReg : RegId;
}.

Definition set_rmap (v : list (option PhysRegId)) (m : SimpleRenameMap) : SimpleRenameMap :=
  mkSimpleRenameMap v (zeroReg m).

(** [init]: the zero register is an integer register in every map. *)
Definition initMap (size : nat) (zero : Z) : SimpleRenameMap :=
  mkSimpleRenameMap (replicate size None) (mkRegId IntRegClass zero (-1)).

Definition present (what : string) (o : option PhysRegId) : outcome PhysRegId :=
  match o with Some r => Ok r | None => Err (NullDeref what) end.

(** [rename] indexes the map with [index()], [lookup] and [setEntry] with
    [flatIndex()].  [l] is the free list the map points to. *)
Definition simple_rename (arch : RegId) (m : SimpleRenameMap) (l : list PhysRegId)
  : outcome (PhysRegId * PhysRegId * SimpleRenameMap * list PhysRegId) :=
  let! e := vec_get "map" (rmap m) (regIdx arch) in
  let! prev := present "prev_reg" e in
  if negb (bool_decide (arch = zeroReg m)) then
    match l with
    | [] => Err (Assertion "getReg: !freeRegs.empty()")
    | new :: l =>
        let! v := vec_set "map" (rmap m) (regIdx arch) (Some new) in
        Ok (new, prev, set_rmap v m, l)
    end
  else
    assert! PhysRegId_isZeroReg prev as "rename: prev_reg->isZeroReg()" in
    Ok (prev, prev, m, l).

Definition simple_lookup (arch : RegId) (m : SimpleRenameMap) : outcome PhysRegId :=
  assert! RegId_flatIndex arch <=? Z.of_nat (length (rmap m))
    as "lookup: arch_reg.flatIndex() <= map.size()" in
  let! e := vec_get "map" (rmap m) (RegId_flatIndex arch) in
  present "map[]" e.

Definition simple_setEntry (arch : RegId) (phys : PhysRegId) (m : SimpleRenameMap)
  : outcome SimpleRenameMap :=
  assert! RegId_flatIndex arch <=? Z.of_nat (length (rmap m))
    as "setEntry: arch_reg.flatIndex() <= map.size()" in
  let! v := vec_set "map" (rmap m) (RegId_flatIndex arch) (Some phys) in
  Ok (set_rmap v m).

Record UnifiedRenameMap := mkUnifiedRenameMap {
  maps : RegClass → SimpleRenameMap;
  vecMode : VecMode;
}.

Definition set_map (c : RegClass) (v : SimpleRenameMap) (m : UnifiedRenameMap)
  : UnifiedRenameMap := mkUnifiedRenameMap (<[c := v]> (maps m)) (vecMode m).

(** The assertions on the vector mode. *)
Definition mode_ok (c : RegClass) (mode : VecMode) : bool :=
  match c with
  | VecRegClass => bool_decide (mode = Full)
  | VecElemClass => bool_decide (mode = Elem)
  | _ => true
  end.

Section maps.
Context (rf : PhysRegFile).

Definition um_lookup (arch : RegId) (m : UnifiedRenameMap) : outcome PhysRegId :=
  match regClass arch with
  | MiscRegClass => getMiscRegId rf (RegId_flatIndex arch)
  | c =>
      assert! mode_ok c (vecMode m) as "lookup: vecMode" in
      simple_lookup arch (maps m c)
  end.

Definition um_rename (arch : RegId) (m : UnifiedRenameMap) (fl : UnifiedFreeList)
  : outcome (PhysRegId * PhysRegId * UnifiedRenameMap * UnifiedFreeList) :=
  match regClass arch with
  | MiscRegClass => let! r := um_lookup arch m in Ok (r, r, m, fl)
  | c =>
      assert! mode_ok c (vecMode m) as "rename: vecMode" in
      let! (new, prev, v, l) := simple_rename arch (maps m c) (fl c) in
      Ok (new, prev, set_map c v m, <[c := l]> fl)
  end.

Definition um_setEntry (arch : RegId) (phys : PhysRegId) (m : UnifiedRenameMap)
  : outcome UnifiedRenameMap :=
  match regClass arch with
  | MiscRegClass =>
      let! r := um_lookup arch m in
      assert! bool_decide (phys = r) as "setEntry: phys_reg == lookup(arch_reg)" in
      Ok m
  | c =>
      assert! bool_decide (classValue phys = c) as "setEntry: class of phys_reg" in
      assert! mode_ok c (vecMode m) as "setEntry: vecMode" in
      let! v := simple_setEntry arch phys (maps m c) in
      Ok (set_map c v m)
  end.

Definition numFreeEntriesMap (m : UnifiedRenameMap) (fl : UnifiedFreeList) : nat :=
  Nat.min (Nat.min (numFreeRegs IntRegClass fl) (numFreeRegs FloatRegClass fl))
    (numFreeRegs (if bool_decide (vecMode m = Full) then VecRegClass else VecElemClass) fl).

Definition canRename (intRegs floatRegs vectorRegs vecElemRegs ccRegs : nat)
    (fl : UnifiedFreeList) : bool :=
  ((intRegs <=? numFreeRegs IntRegClass fl) && (floatRegs <=? numFreeRegs FloatRegClass fl) &&
   (vectorRegs <=? numFreeRegs VecRegClass fl) &&
   (vecElemRegs <=? numFreeRegs VecElemClass fl) && (ccRegs <=? numFreeRegs CCRegClass fl))%nat.

(** ** The scoreboard *)

Definition sb_getReg (r : PhysRegId) (sb : list bool) : outcome bool :=
  assert! flatIdx r <? Z.of_nat (length sb) as "getReg: flatIndex() < numPhysRegs" in
  if PhysRegId_isFixedMapping r then Ok true else
  let! ready := vec_get "regScoreBoard" sb (flatIdx r) in
  assert! negb (PhysRegId_isZeroReg r) || ready as "getReg: ready" in
  Ok ready.

Definition sb_setReg (r : PhysRegId) (sb : list bool) : outcome (list bool) :=
  assert! flatIdx r <? Z.of_nat (length sb) as "setReg: flatIndex() < numPhysRegs" in
  if PhysRegId_isFixedMapping r then Ok sb else
  vec_set "regScoreBoard" sb (flatIdx r) true.

Definition sb_unsetReg (r : PhysRegId) (sb : list bool) : outcome (list bool) :=
  assert! flatIdx r <? Z.of_nat (length sb) as "unsetReg: flatIndex() < numPhysRegs" in
  if PhysRegId_isFixedMapping r then Ok sb else
  if PhysRegId_isZeroReg r then Ok sb else
  vec_set "regScoreBoard" sb (flatIdx r) false.

(** ** The rename stage *)

(** [DefaultRename::RenameHistory]. *)
Record RenameHistory := mkRenameHistory {
  hb_seqNum : InstSeqNum;
  archReg : RegId;
  newPhysReg : PhysRegId;
  prevPhysReg : PhysRegId;
}.

Record RenameState := mkRenameState {
  renameMap : ThreadID → UnifiedRenameMap;
  freeList : UnifiedFreeList;
  scoreboard : list bool;
  historyBuffer : ThreadID → list RenameHistory; (** newest first *)
}.

(** [v[idx] = a] on the instruction's operand arrays, which the model fills in
    order. *)
Definition arr_set {A} (idx : nat) (a : A) (l : list A) : list A :=
  take idx l ++ [a] ++ drop (S idx) l.

Context (cfg : DolmaConfig) (flattenRegId : RegId → RegId).

(** One destination of [renameDestRegs]. *)
Definition renameDest (tid : ThreadID) (p : DynInstPtr)
    (xqs : RenameState * InstQueue * store) (d : nat * RegId)
  : outcome (RenameState * InstQueue * store) :=
  let '(x, q, s) := xqs in
  let '(dest_idx, dest_reg) := d in
  let! i := deref p s in
  let flat := flattenRegId dest_reg in
  let! (new, prev, m, fl) := um_rename flat (renameMap x tid) (freeList x) in
  let! sb := sb_unsetReg new (scoreboard x) in
  let! prods := vec_set "regToProducerInst" (regToProducerInst q) (flatIdx new) (Some p) in
  let hb := mkRenameHistory (seqNum i) flat new prev in
  let i := set_destRegIdx (arr_set dest_idx new (destRegIdx i)) i in
  let i := set_prevDestRegIdx (arr_set dest_idx prev (prevDestRegIdx i)) i in
  Ok (mkRenameState (<[tid := m]> (renameMap x)) fl sb
        (<[tid := hb :: historyBuffer x tid]> (historyBuffer x)),
      set_regToProducerInst prods q, <[p := i]> s).

(** [dests] are the instruction's destination registers. *)
Definition renameDestRegs (tid : ThreadID) (p : DynInstPtr) (dests : list RegId)
    (xqs : RenameState * InstQueue * store) : outcome (RenameState * InstQueue * store) :=
  foldM (renameDest tid p) (zip (seq 0 (length dests)) dests) xqs.

(** One source of [renameSrcRegs]: DOLMA taints the instruction when the ready
    register was produced by an inducer or a restricted instruction. *)
Definition renameSrc (tid : ThreadID) (p : DynInstPtr) (x : RenameState) (q : InstQueue)
    (s : store) (e : nat * RegId) : outcome store :=
  let '(src_idx, src_reg) := e in
  let! i := deref p s in
  let! r := um_lookup (flattenRegId src_reg) (renameMap x tid) in
  if bool_decide (regClass src_reg = VecElemClass)
  then Err (PanicCall "Invalid register class") else
  let i := set_srcRegIdx (arr_set src_idx r (srcRegIdx i)) i in
  assert! Bool.eqb (RegId_isZeroReg src_reg) (PhysRegId_isZeroReg r)
    as "renameSrcRegs: src_reg.isZeroReg() == renamed_reg->isZeroReg()" in
  let! ready := sb_getReg r (scoreboard x) in
  if ready then
    let! i := markSrcRegReadyIdx src_idx i in
    let s := <[p := i]> s in
    if RegId_isZeroReg src_reg then Ok s else
    let! prod := vec_get "regToProducerInst" (regToProducerInst q) (flatIdx r) in
    match prod with
    | None => Ok s
    | Some pr =>
        let! src := deref pr s in
        if bool_decide (threadNumber src = threadNumber i) &&
           (isDataInducer src || isDataRestricted src) then
          assert! negb (isCommitted src) as "renameSrcRegs: !isCommitted()" in
          let! i := taint cfg src i in
          Ok (<[p := i]> s)
        else Ok s
    end
  else Ok (<[p := i]> s).

Definition renameSrcRegs (tid : ThreadID) (p : DynInstPtr) (srcs : list RegId)
    (x : RenameState) (q : InstQueue) (s : store) : outcome store :=
  foldM (renameSrc tid p x q) (zip (seq 0 (length srcs)) srcs) s.

(** The loop of [doSquash]: undoes the newest renames. *)
Fixpoint undoRenames (sn : InstSeqNum) (hb : list RenameHistory) (m : UnifiedRenameMap)
    (fl : UnifiedFreeList) : outcome (list RenameHistory * UnifiedRenameMap * UnifiedFreeList) :=
  match hb with
  | [] => Ok ([], m, fl)
  | h :: hb' =>
      if negb (sn <? hb_seqNum h) then Ok (hb, m, fl)
      else if negb (bool_decide (newPhysReg h = prevPhysReg h)) then
        let! m := um_setEntry (archReg h) (prevPhysReg h) m in
        let! fl := addReg (newPhysReg h) fl in
        undoRenames sn hb' m fl
      else undoRenames sn hb' m fl
  end.

Definition rn_doSquash (sn : InstSeqNum) (tid : ThreadID) (x : RenameState)
  : outcome RenameState :=
  let! (hb, m, fl) := undoRenames sn (historyBuffer x tid) (renameMap x tid) (freeList x) in
  Ok (mkRenameState (<[tid := m]> (renameMap x)) fl (scoreboard x)
        (<[tid := hb]> (historyBuffer x))).

(** The loop of [removeFromHistory], oldest first. *)
Fixpoint freeCommitted (sn : InstSeqNum) (old : list RenameHistory) (fl : UnifiedFreeList)
  : outcome (list RenameHistory * UnifiedFreeList) :=
  match old with
  | [] => Ok ([], fl)
  | h :: old' =>
      if hb_seqNum h <=? sn then
        let! fl := if negb (bool_decide (newPhysReg h = prevPhysReg h))
                   then addReg (prevPhysReg h) fl else Ok fl in
        freeCommitted sn old' fl
      else Ok (old, fl)
  end.

Definition removeFromHistory (sn : InstSeqNum) (tid : ThreadID) (x : RenameState)
  : outcome RenameState :=
  let! (old, fl) := freeCommitted sn (reverse (historyBuffer x tid)) (freeList x) in
  Ok (mkRenameState (renameMap x) fl (scoreboard x)
        (<[tid := reverse old]> (historyBuffer x))).

(** ** The initial mapping

    The block of [FullO3CPU]'s constructor that maps the architectural registers
    of the active threads; the zero register is shared between threads.  [sizes]
    are the register counts of the instruction set. *)

Definition archRegs (sizes : RegClass → nat) (mode : VecMode) : list RegId :=
  let scalar c := (λ k, mkRegId c (Z.of_nat k) (-1)) <$> seq 0 (sizes c) in
  scalar IntRegClass ++ scalar FloatRegClass ++
  (if bool_decide (mode = Full) then scalar VecRegClass
   else (λ k, let k := Z.of_nat k in
              mkRegId VecElemClass (k / NumVecElemPerVecReg) (k mod NumVecElemPerVecReg))
          <$> seq 0 (sizes VecRegClass * Z.to_nat NumVecElemPerVecReg)) ++
  scalar CCRegClass.

Definition setupEntry (tid : ThreadID)
    (st : UnifiedRenameMap * UnifiedFreeList * option PhysRegId) (arch : RegId)
  : outcome (UnifiedRenameMap * UnifiedFreeList * option PhysRegId) :=
  let '(m, fl, zero) := st in
  if RegId_isZeroReg arch && negb (tid =? 0)%nat then
    let! z := present "intZeroReg" zero in
    let! m := um_setEntry arch z m in
    Ok (m, fl, zero)
  else
    let! (r, fl) := getReg (regClass arch) fl in
    let! m := um_setEntry arch r m in
    Ok (m, fl, if RegId_isZeroReg arch then Some r else zero).

Definition emptyMap (sizes : RegClass → nat) (mode : VecMode) : UnifiedRenameMap :=
  mkUnifiedRenameMap
    (λ c, match c with
          | IntRegClass => initMap (sizes IntRegClass) ZeroReg
          | FloatRegClass =>
              initMap (sizes FloatRegClass) (Z.of_nat (sizes FloatRegClass) + 1)
          | VecElemClass => initMap (sizes VecRegClass * Z.to_nat NumVecElemPerVecReg) (-1)
          | _ => initMap (sizes c) (-1)
          end) mode.

Definition setupThread (sizes : RegClass → nat)
    (st : (ThreadID → UnifiedRenameMap) * UnifiedFreeList * option PhysRegId) (tid : ThreadID)
  : outcome ((ThreadID → UnifiedRenameMap) * UnifiedFreeList * option PhysRegId) :=
  let '(ms, fl, zero) := st in
  let! (m, fl, zero) := foldM (setupEntry tid) (archRegs sizes (vecMode (ms tid)))
                          (ms tid, fl, zero) in
  Ok (<[tid := m]> ms, fl, zero).

Definition setupRename (sizes : RegClass → nat) (active : nat) : outcome RenameState :=
  let! fl := initFreeList rf in
  let! (ms, fl, _) := foldM (setupThread sizes) (seq 0 active)
                        (λ _, emptyMap sizes (rf_vecMode rf), fl, None) in
  Ok (mkRenameState ms fl
        (replicate (sum_list_with (λ c, length (regIds rf c))
           [IntRegClass; FloatRegClass; VecRegClass; VecElemClass; CCRegClass]) true) (λ _, [])).
End maps.
