(* ===== verification/RenameInv.v ===== *)
(** * Conservation of physical registers

    Every physical register is, at any time, in exactly one place: mapped,
    free, or remembered by the history buffer as the previous mapping of an
    instruction in flight.  Renaming, squashing and committing move registers
    between these places; a squash restores the map of before. *)

From S2P Require Import Prelude Regs Config DynInst Metadata Rob RobSafe StoreSet DepGraph FUPool.
From S2P Require Import MemDepUnit InstQueue IqTaint Rename.

Local Open Scope Z_scope.

(** ** Collecting the elements of a family of lists *)

Definition gather {K A} (f : K → list A) (ks : list K) : list A := mjoin (f <$> ks).

(** Exchanging elements at one key. *)
Lemma gather_swap {K A} `{EqDecision K} (f g : K → list A) ks k xs ys :
  NoDup ks → k ∈ ks → (∀ j, j ≠ k → f j = g j) → xs ++ f k ≡ₚ ys ++ g k →
  xs ++ gather f ks ≡ₚ ys ++ gather g ks.
Proof.
  intros Hnd Hk Hfg Hp. unfold gather. induction ks as [|j ks IH]; [by apply not_elem_of_nil in Hk|].
  apply NoDup_cons in Hnd as [Hj Hnd]. cbn. destruct (decide (j = k)) as [->|Hne].
  - rewrite !app_assoc, Hp. apply Permutation_app_head.
    assert (f <$> ks = g <$> ks) as ->; [|done]. apply list_fmap_ext. intros n x Hx.
    apply Hfg. intros ->. apply Hj. by eapply list_elem_of_lookup_2.
  - rewrite (Hfg j Hne). apply elem_of_cons in Hk as [|Hk]; [done|]. specialize (IH Hnd Hk).
    rewrite (Permutation_app_comm (g j)), app_assoc, IH. rewrite <-app_assoc.
    by rewrite (Permutation_app_comm _ (g j)).
Qed.

Lemma gather_same {K A} (f g : K → list A) ks :
  (∀ j, f j = g j) → gather f ks = gather g ks.
Proof. intros H. unfold gather. f_equal. apply list_fmap_ext. auto. Qed.

Lemma elem_of_gather {K A} (f : K → list A) ks k a : k ∈ ks → a ∈ f k → a ∈ gather f ks.
Proof.
  intros Hk Ha. unfold gather. apply list_elem_of_join. exists (f k). split; [done|].
  by apply list_elem_of_fmap_2.
Qed.

(** Overwriting one entry of a table of optional values. *)
Lemma omap_insert_swap {A} (l : list (option A)) i a b :
  l !! i = Some (Some a) → a :: omap id (<[i := Some b]> l) ≡ₚ b :: omap id l.
Proof.
  intros Hi. rewrite insert_take_drop by by eapply lookup_lt_Some.
  rewrite <-(take_drop_middle _ _ _ Hi) at 3. rewrite !omap_app. cbn.
  rewrite <-!Permutation_middle. constructor.
Qed.

Lemma elem_of_insert_inv {A} (l : list A) i (a b : A) : a ∈ <[i := b]> l → a = b ∨ a ∈ l.
Proof.
  intros [j Hj]%list_elem_of_lookup. apply list_lookup_insert_Some in Hj
    as [(_ & -> & _)|[_ Hj]]; [by left|right]. by eapply list_elem_of_lookup_2.
Qed.

Lemma perm_exchange {A} (a b : A) M M' F P :
  b :: M' ≡ₚ a :: M → M' ++ (b :: F) ++ P ≡ₚ M ++ F ++ a :: P.
Proof.
  intros H. rewrite <-app_comm_cons, <-Permutation_middle, app_comm_cons, H. cbn.
  rewrite !app_assoc. apply Permutation_middle.
Qed.

(** A list splits in one way into a prefix that satisfies [P] and a rest whose
    head does not. *)
Lemma split_unique {A} (P : A → Prop) (l1 l2 r1 r2 : list A) :
  l1 ++ r1 = l2 ++ r2 → Forall P l1 → Forall P l2 →
  (∀ h, head r1 = Some h → ¬ P h) → (∀ h, head r2 = Some h → ¬ P h) → l1 = l2 ∧ r1 = r2.
Proof.
  revert l2. induction l1 as [|a l1 IH]; intros [|b l2] Heq H1 H2 N1 N2; cbn in Heq.
  - done.
  - subst. apply Forall_cons in H2 as [Hb _]. by destruct (N1 b).
  - subst. apply Forall_cons in H1 as [Ha _]. by destruct (N2 a).
  - injection Heq as -> Heq. apply Forall_cons in H1 as [_ H1]. apply Forall_cons in H2 as [_ H2].
    destruct (IH l2 Heq H1 H2 N1 N2) as [-> ->]. done.
Qed.

(** ** Where the registers are *)

Definition classes : list RegClass :=
  [IntRegClass; FloatRegClass; VecRegClass; VecElemClass; CCRegClass].

(** The registers mapped by class [c]; the shared zero register apart. *)
Definition mapped (m : UnifiedRenameMap) (c : RegClass) : list PhysRegId :=
  omap id (if bool_decide (c = IntRegClass)
           then <[Z.to_nat ZeroReg := None]> (rmap (maps m c)) else rmap (maps m c)).

(** The registers the history buffer will free at commit. *)
Definition pending (hb : list RenameHistory) : list PhysRegId :=
  prevPhysReg <$> filter (λ h, newPhysReg h ≠ prevPhysReg h) hb.

Definition slots (n : nat) : list (ThreadID * RegClass) :=
  t ← seq 0 n; pair t <$> classes.

Definition live (n : nat) (x : RenameState) : list PhysRegId :=
  gather (λ tc, mapped (renameMap x tc.1) tc.2) (slots n) ++
  gather (freeList x) classes ++
  gather (λ t, pending (historyBuffer x t)) (seq 0 n).

Lemma elem_of_slots n t c : (t, c) ∈ slots n ↔ (t < n)%nat ∧ c ∈ classes.
Proof.
  unfold slots. rewrite list_elem_of_bind. split.
  - intros (t' & Hc & Ht). apply list_elem_of_fmap in Hc as (c' & [= -> ->] & Hc).
    apply elem_of_seq in Ht. split; [lia|done].
  - intros [Ht Hc]. exists t. split; [by apply list_elem_of_fmap_2|apply elem_of_seq; lia].
Qed.

Lemma NoDup_slots n : NoDup (slots n).
Proof.
  unfold slots. apply NoDup_bind.
  - intros t1 t2 [t c] _ _ (c1 & [= -> ->] & _)%list_elem_of_fmap
      (c2 & [= -> ->] & _)%list_elem_of_fmap. done.
  - intros t _. apply NoDup_fmap_2; [by intros ? ? [= ->]|by_eval].
  - apply NoDup_seq.
Qed.

Lemma NoDup_classes : NoDup classes.
Proof. by_eval. Qed.

Lemma in_classes c : c ≠ MiscRegClass → c ∈ classes.
Proof. unfold classes. destruct c; set_solver. Qed.

(** ** Table entries *)

(** [arch] names an entry that can be renamed and that [index()] and
    [flatIndex()] agree on. *)
Record slot_ok (m : UnifiedRenameMap) (arch : RegId) : Prop := {
  so_class : regClass arch ≠ MiscRegClass ∧ regClass arch ≠ VecElemClass;
  so_mode : mode_ok (regClass arch) (vecMode m) = true;
  so_range : 0 <= regIdx arch < Z.of_nat (length (rmap (maps m (regClass arch))));
  so_zero : regClass arch = IntRegClass → regIdx arch ≠ ZeroReg;
}.

Definition cell (m : UnifiedRenameMap) (arch : RegId) : option PhysRegId :=
  default None (rmap (maps m (regClass arch)) !! Z.to_nat (regIdx arch)).

Definition put (arch : RegId) (r : PhysRegId) (m : UnifiedRenameMap) : UnifiedRenameMap :=
  let c := regClass arch in
  set_map c (set_rmap (<[Z.to_nat (regIdx arch) := Some r]> (rmap (maps m c))) (maps m c)) m.

(** Maps that agree entry by entry. *)
Definition same_map (m m' : UnifiedRenameMap) : Prop :=
  vecMode m' = vecMode m ∧ ∀ c, maps m' c = maps m c.

#[export] Instance same_map_equiv : Equivalence same_map.
Proof.
  split.
  - by intros m.
  - intros m m' [H1 H2]. by split.
  - intros m1 m2 m3 [H1 H2] [H3 H4]. split; [congruence|]. intros c. by rewrite H4.
Qed.

#[export] Instance put_proper arch r : Proper (same_map ==> same_map) (put arch r).
Proof.
  intros m m' [H1 H2]. split; [done|]. intros c. unfold put. cbn. rewrite H2.
  destruct (decide (c = regClass arch)) as [->|Hne].
  - by rewrite !fn_lookup_insert.
  - by rewrite !fn_lookup_insert_ne by done.
Qed.

#[export] Instance slot_ok_proper : Proper (same_map ==> eq ==> iff) slot_ok.
Proof.
  intros m m' [H1 H2] a ? <-. split; intros [A B C D]; (split; [done|congruence| |done]).
  - by rewrite H2.
  - by rewrite <-H2.
Qed.

#[export] Instance cell_proper : Proper (same_map ==> eq ==> eq) cell.
Proof. intros m m' [_ H2] a ? <-. unfold cell. by rewrite H2. Qed.

Lemma flatIndex_scalar arch : regClass arch ≠ VecElemClass → RegId_flatIndex arch = regIdx arch.
Proof. unfold RegId_flatIndex. by destruct (regClass arch). Qed.

Lemma cell_lookup m arch r :
  cell m arch = Some r →
  rmap (maps m (regClass arch)) !! Z.to_nat (regIdx arch) = Some (Some r).
Proof. unfold cell. destruct (_ !! _) as [[?|]|]; cbn; congruence. Qed.

Lemma um_setEntry_put rf arch r m :
  slot_ok m arch → classValue r = regClass arch → um_setEntry rf arch r m = Ok (put arch r m).
Proof.
  intros [[Hm He] Hmode Hr _] Hc. pose proof (flatIndex_scalar _ He) as Hflat.
  unfold um_setEntry, simple_setEntry, put. rewrite Hflat.
  destruct (regClass arch) eqn:E; try done; rewrite bool_decide_true by done; rewrite Hmode;
    rewrite (proj2 (Z.leb_le _ _)) by lia; by rewrite (vec_set_total _ _ _ _ Hr).
Qed.

Lemma put_cell m arch r : slot_ok m arch → cell (put arch r m) arch = Some r.
Proof.
  intros [_ _ Hr _]. unfold cell, put. cbn. rewrite fn_lookup_insert. cbn.
  rewrite list_lookup_insert_eq by lia. done.
Qed.

Lemma put_slot m arch r a : slot_ok m a → slot_ok (put arch r m) a.
Proof.
  intros [A B C D]. split; [done|done| |done]. unfold put. cbn.
  destruct (decide (regClass a = regClass arch)) as [E|Hne].
  - rewrite E, fn_lookup_insert. cbn. rewrite length_insert. by rewrite <-E.
  - by rewrite fn_lookup_insert_ne by done.
Qed.

Lemma put_back m arch r r' : cell m arch = Some r → same_map m (put arch r (put arch r' m)).
Proof.
  intros Hc%cell_lookup. split; [done|]. intros c. unfold put. cbn.
  destruct (decide (c = regClass arch)) as [->|Hne].
  - rewrite !fn_lookup_insert. cbn. rewrite list_insert_insert_eq, list_insert_id by done.
    by destruct (maps m (regClass arch)).
  - by rewrite !fn_lookup_insert_ne by done.
Qed.

Lemma mapped_same m m' c : same_map m m' → mapped m' c = mapped m c.
Proof. intros [_ H]. unfold mapped. by rewrite H. Qed.

(** The registers mapped after an entry is overwritten. *)
Lemma mapped_put m arch r r' :
  slot_ok m arch → cell m arch = Some r →
  r :: mapped (put arch r' m) (regClass arch) ≡ₚ r' :: mapped m (regClass arch).
Proof.
  intros [_ _ Hr Hz] Hc%cell_lookup. unfold mapped, put. cbn. rewrite fn_lookup_insert. cbn.
  case_bool_decide as Hint.
  - assert (Z.to_nat (regIdx arch) ≠ Z.to_nat ZeroReg) as Hne.
    { specialize (Hz Hint). unfold ZeroReg in *. lia. }
    rewrite list_insert_insert_ne by done. apply omap_insert_swap.
    by rewrite list_lookup_insert_ne.
  - by apply omap_insert_swap.
Qed.

Lemma mapped_put_ne m arch r c : c ≠ regClass arch → mapped (put arch r m) c = mapped m c.
Proof. intros Hne. unfold mapped, put. cbn. by rewrite fn_lookup_insert_ne. Qed.

(** ** Undoing the history *)

(** Undoing the entries [hb], newest first, leads from [m] to [m0]. *)
Fixpoint undo_to (m : UnifiedRenameMap) (hb : list RenameHistory) (m0 : UnifiedRenameMap)
  : Prop :=
  match hb with
  | [] => same_map m0 m
  | h :: hb' =>
      if bool_decide (newPhysReg h = prevPhysReg h) then undo_to m hb' m0
      else slot_ok m (archReg h) ∧ cell m (archReg h) = Some (newPhysReg h) ∧
           classValue (newPhysReg h) = regClass (archReg h) ∧
           classValue (prevPhysReg h) = regClass (archReg h) ∧
           undo_to (put (archReg h) (prevPhysReg h) m) hb' m0
  end.

#[export] Instance undo_to_proper : Proper (same_map ==> eq ==> same_map ==> iff) undo_to.
Proof.
  intros m m' Hm hb ? <- m0 m0' H0. revert m m' Hm. induction hb as [|h hb IH]; intros m m' Hm; cbn.
  - by rewrite Hm, H0.
  - case_bool_decide; [by apply IH|].
    rewrite (slot_ok_proper _ _ Hm _ _ eq_refl), (cell_proper _ _ Hm _ _ eq_refl).
    by rewrite (IH _ _ (put_proper _ _ _ _ Hm)).
Qed.

Lemma undo_to_fun hb : ∀ m m1 m2, undo_to m hb m1 → undo_to m hb m2 → same_map m1 m2.
Proof.
  induction hb as [|h hb IH]; intros m m1 m2; cbn.
  - intros H1 H2. by rewrite H1.
  - case_bool_decide; [apply IH|]. intros (_ & _ & _ & _ & H1) (_ & _ & _ & _ & H2). eauto.
Qed.

Lemma undo_to_app hb1 hb2 : ∀ m m0,
  undo_to m (hb1 ++ hb2) m0 ↔ ∃ m1, undo_to m hb1 m1 ∧ undo_to m1 hb2 m0.
Proof.
  induction hb1 as [|h hb1 IH]; intros m m0; cbn.
  - split; [by exists m|]. intros (m1 & H1 & H2). by rewrite <-H1.
  - case_bool_decide; [apply IH|]. setoid_rewrite IH. naive_solver.
Qed.

(** The history of thread [t] can be undone. *)
Definition hist_ok (m : UnifiedRenameMap) (hb : list RenameHistory) : Prop :=
  ∃ m0, undo_to m hb m0.

(** The maps' zero registers, and registers filed under their class. *)
Record map_ok (m : UnifiedRenameMap) : Prop := {
  mo_zero : zeroReg (maps m IntRegClass) = mkRegId IntRegClass ZeroReg (-1);
  mo_zeros : ∀ c, regClass (zeroReg (maps m c)) = IntRegClass;
  mo_class : ∀ c r, Some r ∈ rmap (maps m c) → classValue r = c;
}.

Definition free_ok (fl : UnifiedFreeList) : Prop := ∀ c r, r ∈ fl c → classValue r = c.

Lemma map_ok_same m m' : same_map m m' → map_ok m → map_ok m'.
Proof.
  intros [_ H] [A B C]. split; [by rewrite H|intros c; by rewrite H|intros c r; rewrite H; auto].
Qed.

Lemma map_ok_put m arch r : classValue r = regClass arch → map_ok m → map_ok (put arch r m).
Proof.
  intros Hr [A B C]. unfold put. split; cbn.
  - destruct (decide (regClass arch = IntRegClass)) as [->|Hne];
      [by rewrite fn_lookup_insert|by rewrite fn_lookup_insert_ne].
  - intros c. destruct (decide (regClass arch = c)) as [->|Hne];
      [rewrite fn_lookup_insert; apply B|rewrite fn_lookup_insert_ne by done; apply B].
  - intros c r'. destruct (decide (c = regClass arch)) as [->|Hne].
    + rewrite fn_lookup_insert. cbn. intros Hin.
      apply elem_of_insert_inv in Hin as [[= ->]|Hin]; [congruence|auto].
    + rewrite fn_lookup_insert_ne by done. auto.
Qed.

(** An architectural register as [flattenRegId] delivers it; vector elements,
    whose [index()] is not their place in the map, are left out. *)
Definition arch_ok (a : RegId) : Prop := regClass a ≠ VecElemClass ∧ elemIdx a = -1.

(** What renaming one register does. *)
Lemma um_rename_spec rf arch m fl new prev m' fl' :
  arch_ok arch → map_ok m → free_ok fl → um_rename rf arch m fl = Ok (new, prev, m', fl') →
  (new = prev ∧ same_map m m' ∧ ∀ c, fl' c = fl c) ∨
  (slot_ok m arch ∧ cell m arch = Some prev ∧ same_map (put arch new m) m' ∧
   fl (regClass arch) = new :: fl' (regClass arch) ∧
   (∀ c, c ≠ regClass arch → fl' c = fl c) ∧
   classValue new = regClass arch ∧ classValue prev = regClass arch).
Proof.
  intros [He Helem] Hm Hfl H. unfold um_rename in H.
  destruct (decide (regClass arch = MiscRegClass)) as [Emisc|Hmisc].
  { rewrite Emisc in H. inv_ok1 H. inv_ok H. by left. }
  assert (mode_ok (regClass arch) (vecMode m) = true ∧
    (let! (new, prev, v, l) := simple_rename arch (maps m (regClass arch)) (fl (regClass arch)) in
     Ok (new, prev, set_map (regClass arch) v m, <[regClass arch := l]> fl))
    = Ok (new, prev, m', fl')) as [Hmode H'].
  { destruct (regClass arch); try done; by inv_ok1 H. }
  clear H. destruct (simple_rename _ _ _) as [[[[n0 p0] v] l0]|] eqn:Es; [|done].
  injection H' as -> -> <- <-. unfold simple_rename in Es. inv_ok1 Es. inv_ok1 Es.
  apply vec_get_Ok in E as [Hpos Hcell]. destruct a as [r|]; [|done]. injection E0 as ->.
  pose proof (lookup_lt_Some _ _ _ Hcell) as Hlt.
  destruct (bool_decide_reflect (arch = zeroReg (maps m (regClass arch)))) as [Ez|Hz];
    cbn [negb] in Es.
  - destruct (PhysRegId_isZeroReg a0); [|done]. injection Es as <- <- <- <-. left.
    split_and!; [done| |].
    + split; [done|]. intros c. cbn. destruct (decide (c = regClass arch)) as [->|Hne];
        [by rewrite fn_lookup_insert|by rewrite fn_lookup_insert_ne].
    + intros c. destruct (decide (c = regClass arch)) as [->|Hne];
        [by rewrite fn_lookup_insert|by rewrite fn_lookup_insert_ne].
  - right. destruct (fl (regClass arch)) as [|new0 l] eqn:El; [done|].
    rewrite vec_set_total in Es by lia. injection Es as -> <- <- <-.
    assert (slot_ok m arch) as Hslot.
    { split; [done|done|lia|]. intros Eint Eidx. apply Hz. rewrite Eint, (mo_zero _ Hm).
      destruct arch; cbn in *; congruence. }
    split_and!; [done| |done| | | |].
    + unfold cell. by rewrite Hcell.
    + by rewrite fn_lookup_insert.
    + intros c Hc. by rewrite fn_lookup_insert_ne.
    + apply Hfl. rewrite El. left.
    + eapply mo_class; [done|]. by eapply list_elem_of_lookup_2.
Qed.

(** ** Moving registers between the places *)

Definition all_mapped (n : nat) (rm : ThreadID → UnifiedRenameMap) : list PhysRegId :=
  gather (λ tc, mapped (rm tc.1) tc.2) (slots n).

Lemma maps_swap n rm t m' arch r r' :
  (t < n)%nat → slot_ok (rm t) arch → cell (rm t) arch = Some r →
  same_map (put arch r' (rm t)) m' →
  r :: all_mapped n (<[t := m']> rm) ≡ₚ r' :: all_mapped n rm.
Proof.
  intros Ht Hs Hc Hm.
  apply (gather_swap _ _ (slots n) (t, regClass arch) [r] [r'] (NoDup_slots n)).
  - apply elem_of_slots. split; [done|]. apply in_classes, Hs.
  - intros [t' c] Hne. cbn. destruct (decide (t' = t)) as [->|Ht'].
    + rewrite fn_lookup_insert, (mapped_same _ _ _ Hm). apply mapped_put_ne. congruence.
    + by rewrite fn_lookup_insert_ne.
  - cbn. rewrite fn_lookup_insert, (mapped_same _ _ _ Hm). by apply mapped_put.
Qed.

Lemma maps_same n rm t m' : same_map (rm t) m' → all_mapped n (<[t := m']> rm) = all_mapped n rm.
Proof.
  intros Hm. apply gather_same. intros [t' c]. cbn. destruct (decide (t' = t)) as [->|Ht'].
  - rewrite fn_lookup_insert. by apply mapped_same.
  - by rewrite fn_lookup_insert_ne.
Qed.

Lemma free_swap (fl fl' : UnifiedFreeList) c r :
  c ∈ classes → fl c ≡ₚ r :: fl' c → (∀ c', c' ≠ c → fl' c' = fl c') →
  gather fl classes ≡ₚ r :: gather fl' classes.
Proof.
  intros Hc Hr Ho. apply (gather_swap fl fl' classes c [] [r] NoDup_classes Hc); [|done].
  intros j Hj. by rewrite Ho.
Qed.

Lemma addReg_spec r fl :
  classValue r ≠ MiscRegClass →
  addReg r fl = Ok (<[classValue r := fl (classValue r) ++ [r]]> fl) ∧
  gather (<[classValue r := fl (classValue r) ++ [r]]> fl) classes ≡ₚ r :: gather fl classes.
Proof.
  intros Hc. split; [unfold addReg; by destruct (classValue r)|].
  apply (free_swap _ _ (classValue r)).
  - by apply in_classes.
  - rewrite fn_lookup_insert. by rewrite Permutation_app_comm.
  - intros c' Hne. by rewrite fn_lookup_insert_ne.
Qed.

Lemma addReg_free_ok r fl :
  free_ok fl → free_ok (<[classValue r := fl (classValue r) ++ [r]]> fl).
Proof.
  intros H c r'. destruct (decide (c = classValue r)) as [->|Hne].
  - rewrite fn_lookup_insert, elem_of_app, list_elem_of_singleton. intros [?| ->]; auto.
  - rewrite fn_lookup_insert_ne by done. auto.
Qed.

Lemma pending_cons h (hb : list RenameHistory) :
  pending (h :: hb) = if bool_decide (newPhysReg h = prevPhysReg h) then pending hb
                      else prevPhysReg h :: pending hb.
Proof.
  unfold pending. case_bool_decide; [rewrite filter_cons_False by naive_solver; done|].
  by rewrite filter_cons_True.
Qed.

(** The registers that entries of class [c] took from the free list. *)
Definition taken (hb : list RenameHistory) (c : RegClass) : list PhysRegId :=
  filter (λ r, classValue r = c)
    (newPhysReg <$> filter (λ h, newPhysReg h ≠ prevPhysReg h) hb).

(** The registers, the class discipline and the map after undoing. *)
Lemma undo_spec rf n t sn hb : ∀ rm fl m0,
  (t < n)%nat → undo_to (rm t) hb m0 → map_ok (rm t) → free_ok fl →
  ∃ undone hb' m' fl', undoRenames rf sn hb (rm t) fl = Ok (hb', m', fl') ∧
    hb = undone ++ hb' ∧ Forall (λ h, sn < hb_seqNum h) undone ∧
    (∀ h, head hb' = Some h → hb_seqNum h <= sn) ∧
    undo_to (rm t) undone m' ∧ map_ok m' ∧ free_ok fl' ∧
    (∀ c, fl' c = fl c ++ taken undone c) ∧
    all_mapped n (<[t := m']> rm) ++ gather fl' classes ++ pending hb'
    ≡ₚ all_mapped n rm ++ gather fl classes ++ pending hb.
Proof.
  induction hb as [|h hb IH]; intros rm fl m0 Ht Hu Hm Hfl; cbn [undoRenames].
  { exists [], [], (rm t), fl. split_and!; [done..| |by rewrite (maps_same n rm t)].
    intros c. by rewrite app_nil_r. }
  destruct (Z.ltb_spec sn (hb_seqNum h)) as [Hlt|Hge]; cbn [negb].
  2:{ exists [], (h :: hb), (rm t), fl. split_and!; [done|done|constructor| |done|done|done| |].
      - intros ? [= <-]. done.
      - intros c. by rewrite app_nil_r.
      - by rewrite (maps_same n rm t). }
  cbn [undo_to] in Hu. rewrite pending_cons.
  case_bool_decide as Heq; cbn [negb].
  - destruct (IH rm fl m0 Ht Hu Hm Hfl) as (und & hb' & m' & fl' & H1 & H2 & H3 & H4 & H5 & H6 & H7 & Hf & H8).
    exists (h :: und), hb', m', fl'. split_and!; [done|by rewrite H2|by constructor|done| |done|done| |done].
    + cbn [undo_to]. by rewrite bool_decide_true.
    + intros c. rewrite Hf. unfold taken at 2. by rewrite filter_cons_False by naive_solver.
  - destruct Hu as (Hs & Hc & Hcn & Hcp & Hu). rewrite (um_setEntry_put rf _ _ _ Hs Hcp).
    destruct (addReg_spec (newPhysReg h) fl) as [-> Hf].
    { rewrite Hcn. apply Hs. }
    set (fl1 := <[_ := _]> fl) in *. set (m1 := put (archReg h) (prevPhysReg h) (rm t)) in *.
    assert (map_ok m1) as Hm1 by by apply map_ok_put.
    assert (free_ok fl1) as Hfl1 by by apply addReg_free_ok.
    destruct (IH (<[t := m1]> rm) fl1 m0 Ht) as (und & hb' & m' & fl' & H1 & H2 & H3 & H4 & H5 & H6 & H7 & Hft & H8);
      [by rewrite fn_lookup_insert..|done|].
    rewrite fn_lookup_insert in H1, H5.
    exists (h :: und), hb', m', fl'. split_and!; [done|by rewrite H2|by constructor|done| |done|done| |].
    { cbn [undo_to]. rewrite bool_decide_false by done. by split_and!. }
    { intros c. rewrite Hft. unfold fl1, taken at 2. rewrite filter_cons_True by done.
      cbn [fmap list_fmap]. destruct (decide (classValue (newPhysReg h) = c)) as [<-|Hc'].
      - rewrite filter_cons_True, fn_lookup_insert by done. by rewrite <-app_assoc.
      - rewrite filter_cons_False, fn_lookup_insert_ne by done. done. }
    assert (all_mapped n (<[t:=m']> (<[t:=m1]> rm)) = all_mapped n (<[t:=m']> rm)) as Hmm.
    { apply gather_same. intros [t' c]. cbn. destruct (decide (t' = t)) as [->|Hne];
        [by rewrite !fn_lookup_insert|by rewrite !fn_lookup_insert_ne]. }
    rewrite Hmm in H8. rewrite H8, Hf.
    apply perm_exchange. by apply (maps_swap n rm t m1 (archReg h)).
Qed.

Lemma cell_mapped m arch r : slot_ok m arch → cell m arch = Some r → r ∈ mapped m (regClass arch).
Proof.
  intros [_ _ Hr Hz] Hc%cell_lookup. unfold mapped. apply list_elem_of_omap. exists (Some r).
  split; [|done]. case_bool_decide as Hint; [|by eapply list_elem_of_lookup_2].
  apply (list_elem_of_lookup_2 _ (Z.to_nat (regIdx arch))). rewrite list_lookup_insert_ne; [done|].
  specialize (Hz Hint). unfold ZeroReg in *. lia.
Qed.

(** ** The invariant *)

Record rn_inv (n : nat) (x : RenameState) : Prop := {
  ri_nodup : NoDup (live n x);
  ri_maps : ∀ t, (t < n)%nat → map_ok (renameMap x t);
  ri_free : free_ok (freeList x);
  ri_hist : ∀ t, (t < n)%nat → hist_ok (renameMap x t) (historyBuffer x t);
}.

(** The other threads' share of a family. *)
Lemma gather_at {K A} `{EqDecision K} (f : K → list A) ks k :
  NoDup ks → k ∈ ks →
  ∃ rest, ∀ g, (∀ j, j ≠ k → g j = f j) → gather g ks ≡ₚ g k ++ rest.
Proof.
  intros Hnd Hk. exists (gather (<[k := []]> f) ks). intros g Hg.
  apply (gather_swap g (<[k := []]> f) ks k [] (g k) Hnd Hk).
  - intros j Hj. rewrite fn_lookup_insert_ne by done. auto.
  - rewrite fn_lookup_insert. by rewrite app_nil_r.
Qed.

(** Replacing the map, the free lists and the history of thread [t]. *)
Lemma live_update n x t m' fl' hb' sb :
  (t < n)%nat →
  all_mapped n (<[t := m']> (renameMap x)) ++ gather fl' classes ++ pending hb'
  ≡ₚ all_mapped n (renameMap x) ++ gather (freeList x) classes ++ pending (historyBuffer x t) →
  live n (mkRenameState (<[t := m']> (renameMap x)) fl' sb (<[t := hb']> (historyBuffer x)))
  ≡ₚ live n x.
Proof.
  intros Ht H. unfold live. fold (all_mapped n (renameMap x)).
  fold (all_mapped n (<[t := m']> (renameMap x))). cbn [renameMap freeList historyBuffer].
  destruct (gather_at (λ t, pending (historyBuffer x t)) (seq 0 n) t) as [R HR];
    [apply NoDup_seq|apply elem_of_seq; lia|].
  rewrite (HR (λ t0, pending (historyBuffer x t0))) by done.
  rewrite (HR (λ t0, pending (<[t := hb']> (historyBuffer x) t0)))
    by (intros j Hj; by rewrite fn_lookup_insert_ne).
  rewrite fn_lookup_insert. rewrite !app_assoc. rewrite !app_assoc in H. by rewrite H.
Qed.

(** The invariant after such a replacement. *)
Lemma rn_inv_update n x t m' fl' hb' sb :
  (t < n)%nat → rn_inv n x → map_ok m' → free_ok fl' → hist_ok m' hb' →
  all_mapped n (<[t := m']> (renameMap x)) ++ gather fl' classes ++ pending hb'
  ≡ₚ all_mapped n (renameMap x) ++ gather (freeList x) classes ++ pending (historyBuffer x t) →
  rn_inv n (mkRenameState (<[t := m']> (renameMap x)) fl' sb (<[t := hb']> (historyBuffer x))).
Proof.
  intros Ht [Hnd Hm Hf Hh] Hm' Hf' Hh' H. split; cbn [renameMap freeList historyBuffer].
  - by rewrite (live_update n x t m' fl' hb' sb Ht H).
  - intros t' Ht'. destruct (decide (t' = t)) as [->|Hne];
      [by rewrite fn_lookup_insert|rewrite fn_lookup_insert_ne by done; auto].
  - done.
  - intros t' Ht'. destruct (decide (t' = t)) as [->|Hne];
      [by rewrite !fn_lookup_insert|rewrite !fn_lookup_insert_ne by done; auto].
Qed.

(** One renamed destination. *)
Record renamed (n : nat) (t : ThreadID) (sn : InstSeqNum) (x x' : RenameState)
    (hs : list RenameHistory) : Prop := {
  rd_inv : rn_inv n x';
  rd_live : live n x' ≡ₚ live n x;
  rd_hist : historyBuffer x' t = hs ++ historyBuffer x t;
  rd_seq : Forall (λ h, sn < hb_seqNum h) hs;
  rd_undo : undo_to (renameMap x' t) hs (renameMap x t);
  rd_free : ∀ c, freeList x c ≡ₚ taken hs c ++ freeList x' c;
  rd_others : ∀ t', t' ≠ t →
    renameMap x' t' = renameMap x t' ∧ historyBuffer x' t' = historyBuffer x t';
}.

Section steps.
Context (rf : PhysRegFile) (flattenRegId : RegId → RegId) (n : nat) (t : ThreadID).
Hypothesis Ht : (t < n)%nat.

Lemma renameDest_renamed sn p x q s i k d x' q' s' :
  rn_inv n x → arch_ok (flattenRegId d) → s !! p = Some i → sn < seqNum i →
  renameDest rf flattenRegId t p (x, q, s) (k, d) = Ok (x', q', s') →
  (∃ h, renamed n t sn x x' [h]) ∧ ∃ i', s' !! p = Some i' ∧ seqNum i' = seqNum i.
Proof.
  intros Hinv Ha Hi Hsn H. unfold renameDest, deref in H. rewrite Hi in H.
  destruct (um_rename _ _ _ _) as [[[[new prev] m'] fl']|] eqn:Er; [|done].
  inv_ok1 H. inv_ok1 H. injection H as <- _ <-. split; [|eexists; by rewrite lookup_insert_eq].
  clear E E0. set (h := mkRenameHistory _ _ new prev). exists h.
  destruct (um_rename_spec _ _ _ _ _ _ _ _ Ha (ri_maps _ _ Hinv t Ht) (ri_free _ _ Hinv) Er)
    as [(-> & Hm & Hf)|(Hs & Hc & Hm & Hfc & Hfo & Hcn & Hcp)].
  - assert (all_mapped n (<[t := m']> (renameMap x)) ++ gather fl' classes ++
              pending (h :: historyBuffer x t)
            ≡ₚ all_mapped n (renameMap x) ++ gather (freeList x) classes ++
               pending (historyBuffer x t)) as Hp.
    { rewrite (maps_same n _ t m' Hm), (gather_same fl' (freeList x) classes Hf), pending_cons.
      by rewrite bool_decide_true. }
    split; cbn [renameMap historyBuffer freeList]; rewrite ?fn_lookup_insert.
    + apply rn_inv_update; auto.
      * apply (map_ok_same _ _ Hm). by apply Hinv.
      * intros c r. rewrite Hf. apply Hinv.
      * destruct (ri_hist _ _ Hinv t Ht) as [m0 H0]. exists m0. cbn.
        rewrite bool_decide_true by done. by rewrite <-Hm.
    + by apply live_update.
    + done.
    + by repeat constructor.
    + cbn. rewrite bool_decide_true by done. done.
    + intros c. rewrite Hf. unfold taken. by rewrite filter_cons_False by naive_solver.
    + intros t' Hne. by rewrite !fn_lookup_insert_ne.
  - assert (new ≠ prev) as Hne.
    { pose proof (ri_nodup _ _ Hinv) as Hnd. unfold live in Hnd.
      apply NoDup_app in Hnd as (_ & Hd & _). intros ->. apply (Hd prev).
      - apply (elem_of_gather _ _ (t, regClass (flattenRegId d))); [|by apply cell_mapped].
        apply elem_of_slots. split; [done|]. apply in_classes, Hs.
      - apply elem_of_app. left. apply (elem_of_gather _ _ (regClass (flattenRegId d)));
          [apply in_classes, Hs|]. rewrite Hfc. left. }
    assert (all_mapped n (<[t := m']> (renameMap x)) ++ gather fl' classes ++
              pending (h :: historyBuffer x t)
            ≡ₚ all_mapped n (renameMap x) ++ gather (freeList x) classes ++
               pending (historyBuffer x t)) as Hp.
    { rewrite pending_cons, bool_decide_false by done. symmetry.
      rewrite (free_swap (freeList x) fl' (regClass (flattenRegId d)) new);
        [|apply in_classes, Hs|by rewrite Hfc|done].
      apply perm_exchange. symmetry. by apply (maps_swap n _ t m' (flattenRegId d)). }
    assert (free_ok fl') as Hfl'.
    { intros c r Hr. destruct (decide (c = regClass (flattenRegId d))) as [->|Hc'].
      - apply (ri_free _ _ Hinv). rewrite Hfc. by right.
      - rewrite Hfo in Hr by done. by apply (ri_free _ _ Hinv). }
    assert (∀ hb m0, undo_to (renameMap x t) hb m0 → undo_to m' (h :: hb) m0) as Hundo.
    { intros hb m0 H0. cbn [undo_to]. rewrite bool_decide_false by done. cbn [archReg newPhysReg prevPhysReg h].
      rewrite <-Hm. split_and!; [by apply put_slot|by apply put_cell|done|done|].
      by rewrite <-(put_back _ _ _ new Hc). }
    split; cbn [renameMap historyBuffer freeList]; rewrite ?fn_lookup_insert.
    + apply rn_inv_update; auto.
      * apply (map_ok_same _ _ Hm), map_ok_put; [done|]. by apply Hinv.
      * destruct (ri_hist _ _ Hinv t Ht) as [m0 H0]. exists m0. by apply Hundo.
    + by apply live_update.
    + done.
    + by repeat constructor.
    + by apply Hundo.
    + intros c. unfold taken. rewrite filter_cons_True by done. cbn [fmap list_fmap newPhysReg h].
      destruct (decide (classValue new = c)) as [<-|Hc'].
      * rewrite filter_cons_True by done. cbn. by rewrite Hcn, Hfc.
      * rewrite filter_cons_False by done. cbn. rewrite Hfo by congruence. done.
    + intros t' Hne'. by rewrite !fn_lookup_insert_ne.
Qed.

Lemma taken_app h1 h2 c : taken (h1 ++ h2) c = taken h1 c ++ taken h2 c.
Proof. unfold taken. by rewrite filter_app, fmap_app, filter_app. Qed.

Lemma renamed_refl sn x : rn_inv n x → renamed n t sn x x [].
Proof. intros H. by split. Qed.

Lemma renamed_trans sn x1 x2 x3 h1 h2 :
  renamed n t sn x1 x2 h1 → renamed n t sn x2 x3 h2 → renamed n t sn x1 x3 (h2 ++ h1).
Proof.
  intros [A1 A2 A3 A4 A5 A6 A7] [B1 B2 B3 B4 B5 B6 B7]. split.
  - done.
  - by rewrite B2.
  - by rewrite B3, A3, app_assoc.
  - by apply Forall_app.
  - apply undo_to_app. eauto.
  - intros c. rewrite taken_app, A6, B6, app_assoc.
    by rewrite (Permutation_app_comm (taken h1 c)).
  - intros t' Hne. destruct (A7 t' Hne), (B7 t' Hne). split; congruence.
Qed.

Lemma renameDests_renamed sn p ds : ∀ x q s i x' q' s',
  rn_inv n x → Forall (λ d, arch_ok (flattenRegId d.2)) ds → s !! p = Some i → sn < seqNum i →
  foldM (renameDest rf flattenRegId t p) ds (x, q, s) = Ok (x', q', s') →
  ∃ hs, renamed n t sn x x' hs.
Proof.
  induction ds as [|[k d] ds IH]; intros x q s i x' q' s' Hinv Hd Hi Hsn H; cbn [foldM] in H.
  { injection H as <- _ _. exists []. by apply renamed_refl. }
  apply Forall_cons in Hd as [Hd Hds].
  destruct (renameDest _ _ _ _ _ _) as [[[x1 q1] s1]|] eqn:E; [|done].
  apply (renameDest_renamed sn p x q s i) in E as [[h R1] (i1 & Hi1 & Hs1)]; [|done..].
  destruct (IH x1 q1 s1 i1 x' q' s') as [hs R2]; [apply R1|done|done|congruence|done|].
  exists (hs ++ [h]). by eapply renamed_trans.
Qed.

Lemma renameDestRegs_renamed sn p dests x q s i x' q' s' :
  rn_inv n x → Forall (λ d, arch_ok (flattenRegId d)) dests → s !! p = Some i → sn < seqNum i →
  renameDestRegs rf flattenRegId t p dests (x, q, s) = Ok (x', q', s') →
  ∃ hs, renamed n t sn x x' hs.
Proof.
  intros Hinv Hd. apply renameDests_renamed; [done|]. apply Forall_forall.
  intros [k d] Hin. apply (proj1 (Forall_forall _ _) Hd). by eapply elem_of_zip_r.
Qed.

(** A squash takes back what was renamed since. *)
Lemma rn_doSquash_spec sn x :
  rn_inv n x →
  ∃ undone x', rn_doSquash rf sn t x = Ok x' ∧ rn_inv n x' ∧ live n x' ≡ₚ live n x ∧
    historyBuffer x t = undone ++ historyBuffer x' t ∧
    Forall (λ h, sn < hb_seqNum h) undone ∧
    (∀ h, head (historyBuffer x' t) = Some h → hb_seqNum h <= sn) ∧
    undo_to (renameMap x t) undone (renameMap x' t) ∧
    (∀ c, freeList x' c = freeList x c ++ taken undone c) ∧
    (∀ t', t' ≠ t → renameMap x' t' = renameMap x t' ∧ historyBuffer x' t' = historyBuffer x t').
Proof.
  intros Hinv. destruct (ri_hist _ _ Hinv t Ht) as [m0 H0].
  destruct (undo_spec rf n t sn (historyBuffer x t) (renameMap x) (freeList x) m0 Ht H0
              (ri_maps _ _ Hinv t Ht) (ri_free _ _ Hinv))
    as (und & hb' & m' & fl' & Hu & Hhb & Hf1 & Hf2 & Hun & Hm' & Hfl' & Hft & Hp).
  exists und. eexists. unfold rn_doSquash. rewrite Hu. split; [reflexivity|].
  cbn [renameMap historyBuffer freeList]. rewrite !fn_lookup_insert.
  split_and!; [| |done|done|done|done|done|intros t' Hne; by rewrite !fn_lookup_insert_ne].
  - apply rn_inv_update; auto. exists m0. rewrite Hhb in H0.
    apply undo_to_app in H0 as (m1 & H1 & H2). by rewrite <-(undo_to_fun _ _ _ _ H1 Hun).
  - by apply live_update.
Qed.

(** Commit frees the previous mappings of the oldest entries. *)
Lemma freeCommitted_spec sn old : ∀ fl,
  free_ok fl →
  Forall (λ h, newPhysReg h ≠ prevPhysReg h → classValue (prevPhysReg h) ≠ MiscRegClass) old →
  ∃ committed old' fl', freeCommitted sn old fl = Ok (old', fl') ∧ old = committed ++ old' ∧
    Forall (λ h, hb_seqNum h <= sn) committed ∧ free_ok fl' ∧
    gather fl' classes ≡ₚ pending committed ++ gather fl classes.
Proof.
  induction old as [|h old IH]; intros fl Hfl Hc; cbn [freeCommitted].
  { exists [], [], fl. by split_and!. }
  apply Forall_cons in Hc as [Hh Hc]. destruct (Z.leb_spec (hb_seqNum h) sn).
  2:{ exists [], (h :: old), fl. by split_and!. }
  case_bool_decide as Heq; cbn [negb].
  - destruct (IH fl Hfl Hc) as (cm & old' & fl' & H1 & H2 & H3 & H4 & H5).
    exists (h :: cm), old', fl'. rewrite pending_cons, bool_decide_true by done.
    split_and!; [done|by rewrite H2|by constructor|done|done].
  - destruct (addReg_spec (prevPhysReg h) fl) as [-> Hg]; [auto|].
    destruct (IH _ (addReg_free_ok (prevPhysReg h) fl Hfl) Hc)
      as (cm & old' & fl' & H1 & H2 & H3 & H4 & H5).
    exists (h :: cm), old', fl'. rewrite pending_cons, bool_decide_false by done.
    split_and!; [done|by rewrite H2|by constructor|done|].
    rewrite H5, Hg. by rewrite <-Permutation_middle.
Qed.

Lemma undo_to_classes hb : ∀ m m0, undo_to m hb m0 →
  Forall (λ h, newPhysReg h ≠ prevPhysReg h → classValue (prevPhysReg h) ≠ MiscRegClass) hb.
Proof.
  induction hb as [|h hb IH]; intros m m0 H; [constructor|]. cbn in H. case_bool_decide.
  - constructor; [done|eauto].
  - destruct H as (Hs & _ & _ & Hc & H). constructor; [|eauto]. intros _. rewrite Hc. apply Hs.
Qed.

Lemma pending_app h1 h2 : pending (h1 ++ h2) = pending h1 ++ pending h2.
Proof. unfold pending. by rewrite filter_app, fmap_app. Qed.

Lemma pending_reverse hb : pending (reverse hb) ≡ₚ pending hb.
Proof.
  unfold pending. induction hb as [|h hb IH]; [done|]. rewrite reverse_cons, filter_app, fmap_app, IH.
  destruct (decide (newPhysReg h ≠ prevPhysReg h)).
  - rewrite !filter_cons_True by done. cbn. by rewrite Permutation_app_comm.
  - rewrite !filter_cons_False by done. cbn. by rewrite app_nil_r.
Qed.

Lemma removeFromHistory_spec sn x :
  rn_inv n x →
  ∃ x', removeFromHistory sn t x = Ok x' ∧ rn_inv n x' ∧ live n x' ≡ₚ live n x ∧
    renameMap x' = renameMap x.
Proof.
  intros Hinv. destruct (ri_hist _ _ Hinv t Ht) as [m0 H0].
  destruct (freeCommitted_spec sn (reverse (historyBuffer x t)) (freeList x) (ri_free _ _ Hinv))
    as (cm & old' & fl' & H1 & H2 & H3 & H4 & H5).
  { apply Forall_reverse. by eapply undo_to_classes. }
  assert (historyBuffer x t = reverse old' ++ reverse cm) as Hhb
    by (by rewrite <-reverse_app, <-H2, reverse_involutive).
  unfold removeFromHistory. rewrite H1. eexists. split; [reflexivity|].
  assert (same_map (renameMap x t) (renameMap x t)) as Hrefl by done.
  assert (all_mapped n (<[t := renameMap x t]> (renameMap x)) ++ gather fl' classes ++
            pending (reverse old')
          ≡ₚ all_mapped n (renameMap x) ++ gather (freeList x) classes ++
             pending (historyBuffer x t)) as Hp.
  { rewrite (maps_same n _ t _ Hrefl), H5, Hhb, pending_app, (pending_reverse cm).
    apply Permutation_app_head. rewrite <-!app_assoc, Permutation_app_comm, <-app_assoc.
    done. }
  pose proof (live_update n x t (renameMap x t) fl' (reverse old') (scoreboard x) Ht Hp) as HL.
  assert (rn_inv n (mkRenameState (<[t := renameMap x t]> (renameMap x)) fl' (scoreboard x)
            (<[t := reverse old']> (historyBuffer x)))) as HI.
  { apply rn_inv_update; auto; [by apply Hinv|]. rewrite Hhb in H0.
    apply undo_to_app in H0 as (m1 & Hm1 & _). by exists m1. }
  assert (∀ t', (<[t := renameMap x t]> (renameMap x)) t' = renameMap x t') as Hid.
  { intros t'. destruct (decide (t' = t)) as [->|Hne];
      [by rewrite fn_lookup_insert|by rewrite fn_lookup_insert_ne]. }
  assert (live n (mkRenameState (renameMap x) fl' (scoreboard x)
                    (<[t := reverse old']> (historyBuffer x))) ≡ₚ live n x) as HL'.
  { rewrite <-HL. unfold live. cbn. fold (all_mapped n (renameMap x)).
    fold (all_mapped n (<[t := renameMap x t]> (renameMap x))). by rewrite (maps_same n _ t _ Hrefl). }
  split_and!; [|done|done]. destruct HI as [_ A B C]. split; cbn in *; auto.
  - rewrite HL'. apply Hinv.
  - intros t' Ht'. specialize (A t' Ht'). by rewrite Hid in A.
  - intros t' Ht'. specialize (C t' Ht'). by rewrite Hid in C.
Qed.
End steps.

(** ** Runs of the stage *)

Section runs.
Context (rf : PhysRegFile) (flattenRegId : RegId → RegId) (n : nat).

(** The stage renames the destinations of an instruction, undoes the renames of
    squashed instructions, or releases the history of committed ones. *)
Inductive rn_step : RenameState → RenameState → Prop :=
  | step_rename t p dests x q s i x' q' s' :
      (t < n)%nat → Forall (λ d, arch_ok (flattenRegId d)) dests → s !! p = Some i →
      renameDestRegs rf flattenRegId t p dests (x, q, s) = Ok (x', q', s') → rn_step x x'
  | step_squash t sn x x' : (t < n)%nat → rn_doSquash rf sn t x = Ok x' → rn_step x x'
  | step_commit t sn x x' : (t < n)%nat → removeFromHistory sn t x = Ok x' → rn_step x x'.

Lemma rn_step_inv x x' : rn_step x x' → rn_inv n x → rn_inv n x' ∧ live n x' ≡ₚ live n x.
Proof.
  intros [t p dests x0 q s i x1 q' s' Ht Hd Hi H|t sn x0 x1 Ht H|t sn x0 x1 Ht H] Hinv.
  - destruct (renameDestRegs_renamed rf flattenRegId n t Ht (seqNum i - 1) p dests x0 q s i x1 q' s')
      as [hs R]; [done|done|done|lia|done|]. split; apply R.
  - destruct (rn_doSquash_spec rf n t Ht sn x0 Hinv) as (und & x2 & H2 & HI & HL & _).
    rewrite H in H2. by injection H2 as <-.
  - destruct (removeFromHistory_spec n t Ht sn x0 Hinv) as (x2 & H2 & HI & HL & _).
    rewrite H in H2. by injection H2 as <-.
Qed.

Lemma rn_steps_inv x0 x :
  rn_inv n x0 → rtc rn_step x0 x → rn_inv n x ∧ live n x ≡ₚ live n x0.
Proof.
  intros H0 H. revert H0. induction H as [|x y z Hxy _ IH]; intros Hinv; [done|].
  destruct (rn_step_inv x y Hxy Hinv) as [Hy Ly]. destruct (IH Hy) as [Hz Lz].
  split; [done|]. by rewrite Lz.
Qed.

(** Renaming the destinations of several instructions in turn. *)
Definition renameAll (t : ThreadID) (insts : list (DynInstPtr * list RegId))
    (xqs : RenameState * InstQueue * store) : outcome (RenameState * InstQueue * store) :=
  foldM (λ xqs pd, renameDestRegs rf flattenRegId t pd.1 pd.2 xqs) insts xqs.

(** Renaming keeps every sequence number. *)
Lemma renameDests_seqNums t p ds : ∀ x q s x' q' s',
  foldM (renameDest rf flattenRegId t p) ds (x, q, s) = Ok (x', q', s') →
  ∀ y, seqNum <$> s' !! y = seqNum <$> s !! y.
Proof.
  induction ds as [|[k d] ds IH]; intros x q s x' q' s' H y; cbn [foldM] in H.
  { by injection H as _ _ <-. }
  destruct (renameDest _ _ _ _ _ _) as [[[x1 q1] s1]|] eqn:E; [|done].
  rewrite (IH _ _ _ _ _ _ H y). unfold renameDest, deref in E.
  destruct (s !! p) as [i|] eqn:Hi; [|done].
  destruct (um_rename _ _ _ _) as [[[[new prev] m'] fl']|]; [|done].
  inv_ok1 E. inv_ok1 E. injection E as _ _ <-. destruct (decide (y = p)) as [->|Hne].
  - by rewrite lookup_insert_eq, Hi.
  - by rewrite lookup_insert_ne.
Qed.

Lemma renameAll_renamed t sn insts : (t < n)%nat → ∀ x q s x' q' s',
  rn_inv n x →
  Forall (λ pd, Forall (λ d, arch_ok (flattenRegId d)) pd.2 ∧
                ∃ i, seqNum <$> s !! pd.1 = Some i ∧ sn < i) insts →
  renameAll t insts (x, q, s) = Ok (x', q', s') → ∃ hs, renamed n t sn x x' hs.
Proof.
  intros Ht. induction insts as [|[p ds] insts IH]; intros x q s x' q' s' Hinv Hall H;
    cbn [renameAll foldM] in H.
  { injection H as <- _ _. exists []. by apply renamed_refl. }
  apply Forall_cons in Hall as [(Hd & sq & Hsq & Hlt) Hall]. cbn [fst snd] in *.
  destruct (s !! p) as [i|] eqn:Hi; [|done]. injection Hsq as Hsq.
  destruct (renameDestRegs _ _ _ _ _ _) as [[[x1 q1] s1]|] eqn:E; [|done].
  pose proof (renameDests_seqNums _ _ _ _ _ _ _ _ _ E) as Hseq.
  apply (renameDestRegs_renamed rf flattenRegId n t Ht sn p ds x q s i) in E as [h1 R1];
    [|done..|lia].
  destruct (IH x1 q1 s1 x' q' s') as [h2 R2]; [apply R1| |done|].
  { eapply Forall_impl; [exact Hall|]. intros [p' ds'] (Hd' & i' & Hi' & Hlt').
    split; [done|]. exists i'. by rewrite Hseq. }
  exists (h2 ++ h1). by eapply renamed_trans.
Qed.
End runs.

(** ** An example: two threads, 16 integer registers each and the zero register *)
Module RenameExample.
Definition sizes (c : RegClass) : nat :=
  match c with IntRegClass => 17 | FloatRegClass => 2 | VecRegClass => 1 | CCRegClass => 1 | _ => 0 end.
Definition rf : PhysRegFile := newPhysRegFile 40 6 3 4 2 Full.
Definition empty : RenameState :=
  mkRenameState (λ _, emptyMap sizes Full) (λ _, []) [] (λ _, []).
Definition start : RenameState :=
  match setupRename rf sizes 2 with Ok x => x | Err _ => empty end.

Lemma map_ok_eval m :
  zeroReg (maps m IntRegClass) = mkRegId IntRegClass ZeroReg (-1) →
  (∀ c, regClass (zeroReg (maps m c)) = IntRegClass) →
  (∀ c, Forall (λ o, classValue <$> o = None ∨ classValue <$> o = Some c) (rmap (maps m c))) →
  map_ok m.
Proof.
  intros H1 H2 H3. split; [done|done|]. intros c r Hr.
  destruct (proj1 (Forall_forall _ _) (H3 c) _ Hr) as [?|[= ?]]; done.
Qed.

Lemma start_inv : rn_inv 2 start.
Proof.
  split.
  - by_eval.
  - intros [|[|t]] Ht; [| |lia];
      (apply map_ok_eval; [by_eval|intros []; by_eval|intros []; by_eval]).
  - intros c r Hr.
    assert (Forall (λ r, classValue r = c) (freeList start c)) as H by (destruct c; by_eval).
    exact (proj1 (Forall_forall _ _) H r Hr).
  - intros t Ht. exists (renameMap start t).
    assert (historyBuffer start t = []) as -> by (destruct t as [|[|t]]; [by_eval|by_eval|lia]).
    cbn. reflexivity.
Qed.
End RenameExample.

(** ** Theorems *)

(** C15: whatever the rename stage does from a consistent start, over all its
    threads, no physical register is lost and none is in two places: mapped
    twice, mapped and free, free twice, or freed while the history buffer still
    needs it. *)
Theorem registers_conserved rf flattenRegId n x0 x :
  rn_inv n x0 → rtc (rn_step rf flattenRegId n) x0 x →
  NoDup (live n x) ∧ live n x ≡ₚ live n x0.
Proof.
  intros H0 H. destruct (rn_steps_inv rf flattenRegId n x0 x H0 H) as [HI HL].
  split; [apply HI|done].
Qed.

Definition rn_insts : store :=
  {[ 7 := IqExample.inst 7 [IsInteger] [] [0]; 9 := IqExample.inst 9 [IsInteger] [] [0] ]}.
Definition rn_queue : InstQueue := set_regToProducerInst (replicate 60 None) IqExample.queue0.
(** [rax] and the zero register, then [rax] again. *)
Definition rn_renames : list (DynInstPtr * list RegId) :=
  [(7, [mkRegId IntRegClass 0 (-1); mkRegId IntRegClass 16 (-1)]);
   (9, [mkRegId IntRegClass 0 (-1)])].
Definition rn_run : outcome (RenameState * InstQueue * store) :=
  renameAll RenameExample.rf id 1 rn_renames (RenameExample.start, rn_queue, rn_insts).

Lemma registers_conserved_witness :
  ∃ x q s, renameDestRegs RenameExample.rf id 1 7
      [mkRegId IntRegClass 0 (-1); mkRegId IntRegClass 16 (-1)]
      (RenameExample.start, rn_queue, rn_insts) = Ok (x, q, s) ∧
    NoDup (live 2 x) ∧ live 2 x ≡ₚ live 2 RenameExample.start.
Proof.
  destruct (renameDestRegs RenameExample.rf id 1 7
      [mkRegId IntRegClass 0 (-1); mkRegId IntRegClass 16 (-1)]
      (RenameExample.start, rn_queue, rn_insts)) as [[[x q] s]|] eqn:E;
    [|vm_compute in E; discriminate].
  exists x, q, s. split; [done|].
  apply (registers_conserved RenameExample.rf id 2 RenameExample.start x RenameExample.start_inv).
  apply rtc_once. eapply step_rename; [|..|exact E]; [lia| |by_eval].
  repeat constructor; done.
Defined.

(** C16: a squash is exact: after any instructions younger than [sn] have been
    renamed, undoing the history down to [sn] succeeds, brings back the map and
    the history buffer of before and returns every register taken to its free
    list, without touching another thread. *)
Theorem squash_restores rf flattenRegId n t sn insts x q s x' q' s' :
  (t < n)%nat → rn_inv n x →
  (∀ h, head (historyBuffer x t) = Some h → hb_seqNum h <= sn) →
  Forall (λ pd, Forall (λ d, arch_ok (flattenRegId d)) pd.2 ∧
                ∃ i, seqNum <$> s !! pd.1 = Some i ∧ sn < i) insts →
  renameAll rf flattenRegId t insts (x, q, s) = Ok (x', q', s') →
  ∃ x'', rn_doSquash rf sn t x' = Ok x'' ∧ same_map (renameMap x t) (renameMap x'' t) ∧
    historyBuffer x'' t = historyBuffer x t ∧ (∀ c, freeList x'' c ≡ₚ freeList x c) ∧
    ∀ t', t' ≠ t → renameMap x'' t' = renameMap x t' ∧ historyBuffer x'' t' = historyBuffer x t'.
Proof.
  intros Ht Hinv Hold Hins H.
  destruct (renameAll_renamed rf flattenRegId n t sn insts Ht x q s x' q' s' Hinv Hins H) as [hs R].
  destruct (rn_doSquash_spec rf n t Ht sn x' (rd_inv _ _ _ _ _ _ R))
    as (und & x'' & Hsq & _ & _ & Hhb & Hf1 & Hf2 & Hun & Hfl & Ho).
  assert (und = hs ∧ historyBuffer x'' t = historyBuffer x t) as [-> Hh].
  { apply (split_unique (λ h, sn < hb_seqNum h)).
    - rewrite <-Hhb. apply R.
    - done.
    - apply R.
    - intros h Hh. apply Hf2 in Hh. lia.
    - intros h Hh. apply Hold in Hh. lia. }
  exists x''. split_and!; [done| |done| |].
  - apply (undo_to_fun hs (renameMap x' t)); [apply R|done].
  - intros c. by rewrite Hfl, (rd_free _ _ _ _ _ _ R), Permutation_app_comm.
  - intros t' Hne. destruct (Ho t' Hne), (rd_others _ _ _ _ _ _ R t' Hne). split; congruence.
Qed.

Lemma squash_restores_witness :
  ∃ x' q' s' x'', rn_run = Ok (x', q', s') ∧
    rn_doSquash RenameExample.rf 5 1 x' = Ok x'' ∧
    same_map (renameMap RenameExample.start 1) (renameMap x'' 1) ∧
    ∀ c, freeList x'' c ≡ₚ freeList RenameExample.start c.
Proof.
  destruct rn_run as [[[x' q'] s']|] eqn:E; [|vm_compute in E; discriminate].
  destruct (squash_restores RenameExample.rf id 2 1 5 rn_renames RenameExample.start rn_queue
    rn_insts x' q' s') as (x'' & H1 & H2 & _ & H3 & _);
    [lia|apply RenameExample.start_inv|by intros h Hh; vm_compute in Hh| |exact E|].
  - unfold rn_renames. apply Forall_cons_2; [|apply Forall_cons_2; [|apply Forall_nil_2]];
      (split; [cbn [snd]; repeat (apply Forall_cons_2; [by split|]); apply Forall_nil_2|]).
    + exists 7. split; [vm_compute; reflexivity|lia].
    + exists 9. split; [vm_compute; reflexivity|lia].
  - exists x', q', s', x''. by split_and!.
Defined.
