(* ===== verification/RenameTaint.v ===== *)
(** * Taint at rename, and two defects of the rename tables

    A source register that is already ready when the instruction is renamed
    never enters the dependency graph, so [renameSrcRegs] itself must hand the
    producer's taint on.  Together with [wakeDependentInstructions] and
    [addToDependents] every way to read a register is then covered, except
    where the table of producers is overwritten by an instruction that writes a
    misc register. *)

From S2P Require Import Prelude Regs Config DynInst Metadata Rob RobSafe StoreSet DepGraph FUPool.
From S2P Require Import MemDepUnit InstQueue IqTaint Rename RenameInv.

Local Open Scope Z_scope.

Section taint_at_rename.
Context (rf : PhysRegFile) (cfg : DolmaConfig) (flattenRegId : RegId → RegId).
Context (t : ThreadID) (p : DynInstPtr) (x : RenameState) (q : InstQueue).

(** What renaming a source may do to the instructions. *)
Record src_renamed (s s' : store) : Prop := {
  sr_others : ∀ y, y ≠ p → s' !! y = s !! y;
  sr_nonneg : nonneg_store s → nonneg_store s';
  sr_inst : ∀ i, s !! p = Some i → ∃ i', s' !! p = Some i' ∧
    threadNumber i' = threadNumber i ∧
    (nonneg_store s → ∀ y, tainted_by y i → tainted_by y i');
}.

Lemma src_renamed_trans s1 s2 s3 : src_renamed s1 s2 → src_renamed s2 s3 → src_renamed s1 s3.
Proof.
  intros [O1 N1 I1] [O2 N2 I2]. split; [intros y Hy; by rewrite O2, O1|auto|].
  intros i Hi. destruct (I1 i Hi) as (i1 & Hi1 & T1 & Y1).
  destruct (I2 i1 Hi1) as (i2 & Hi2 & T2 & Y2). exists i2. split_and!; [done|congruence|auto].
Qed.

(** The pieces of an update that keep thread, age and taint. *)
Definition keeps_taint (i i' : DynInst) : Prop :=
  seqNum i' = seqNum i ∧ threadNumber i' = threadNumber i ∧ ydi i' = ydi i ∧
  isDataRestricted i' = isDataRestricted i.

Lemma src_renamed_insert s i i' :
  s !! p = Some i → keeps_taint i i' → src_renamed s (<[p := i']> s).
Proof.
  intros Hi (H1 & H2 & H3 & H4). split.
  - intros y Hy. by rewrite lookup_insert_ne.
  - intros Hnn. apply map_Forall_insert_2; [|done]. rewrite H1, H3. by apply (Hnn p).
  - intros j Hj. assert (j = i) as -> by congruence. exists i'.
    rewrite lookup_insert_eq. split_and!; [done..|]. intros _ y [Hr Hy]. split; congruence.
Qed.

Lemma src_renamed_taint s i i' pr src :
  nonneg_store s → s !! p = Some i → s !! pr = Some src → taint cfg src i = Ok i' →
  src_renamed s (<[p := i']> s).
Proof.
  intros Hnn Hi Hsrc Ht. destruct (taint_fields cfg src i i' Ht) as (H1 & H2 & _ & _ & H5).
  pose proof (nonneg_root s pr src Hnn Hsrc) as Hroot. split.
  - intros y Hy. by rewrite lookup_insert_ne.
  - intros _. apply map_Forall_insert_2; [|done]. destruct (Hnn p i Hi). rewrite H1. split; auto.
  - intros j Hj. assert (j = i) as -> by congruence. exists i'.
    rewrite lookup_insert_eq. split_and!; [done..|]. intros _ y Hy. by eapply taint_keeps.
Qed.

(** The instruction as it is once its source is recorded and marked ready. *)
Lemma renameSrc_cases s k a s' i :
  nonneg_store s → s !! p = Some i → renameSrc rf cfg flattenRegId t p x q s (k, a) = Ok s' →
  ∃ r i1, um_lookup rf (flattenRegId a) (renameMap x t) = Ok r ∧ keeps_taint i i1 ∧
    (s' = <[p := i1]> s ∨
     ∃ pr src i2, regToProducerInst q !! Z.to_nat (flatIdx r) = Some (Some pr) ∧
       <[p := i1]> s !! pr = Some src ∧ isDataInducer src || isDataRestricted src = true ∧
       taint cfg src i1 = Ok i2 ∧ s' = <[p := i2]> s) ∧
    (∀ pr src, RegId_isZeroReg a = false → sb_getReg r (scoreboard x) = Ok true →
       regToProducerInst q !! Z.to_nat (flatIdx r) = Some (Some pr) → pr ≠ p →
       s !! pr = Some src → threadNumber src = threadNumber i →
       isDataInducer src || isDataRestricted src = true →
       ∃ i2, taint cfg src i1 = Ok i2 ∧ s' = <[p := i2]> s).
Proof.
  intros Hnn Hi H. unfold renameSrc, deref in H. rewrite Hi in H. inv_ok1 H. rename a0 into r.
  case_bool_decide; [done|]. inv_ok1 H. inv_ok1 H. rename a0 into ready.
  set (i0 := set_srcRegIdx _ i) in H. assert (keeps_taint i i0) as K0 by done.
  exists r. destruct ready.
  2:{ injection H as <-. exists i0. split_and!; [done|done|by left|]. intros. congruence. }
  inv_ok1 H. rename a0 into i1. destruct (markSrcRegReadyIdx_fields _ _ _ E2) as (F1 & F2 & _ & F4 & _).
  assert (isDataRestricted i1 = isDataRestricted i0) as F5.
  { unfold markSrcRegReadyIdx in E2. by apply markSrcRegReady_frame in E2 as [-> _]. }
  assert (keeps_taint i i1) as K1 by (unfold keeps_taint in *; destruct K0 as (?&?&?&?); split_and!; congruence).
  exists i1. split_and!; [done|done|..].
  - destruct (RegId_isZeroReg a); [injection H as <-; by left|]. inv_ok1 H.
    apply vec_get_Ok in E3 as [_ E3]. destruct a0 as [pr|]; [|injection H as <-; by left].
    destruct (<[p:=i1]> s !! pr) as [src|] eqn:Hsrc; [|done].
    destruct (_ && _) eqn:Et; [|injection H as <-; by left]. apply andb_true_iff in Et as [_ Et].
    inv_ok1 H. inv_ok1 H. injection H as <-. right. exists pr, src, a0.
    rewrite insert_insert_eq. by split_and!.
  - intros pr src Hz _ Hpr Hne Hsrc Hth Ht. rewrite Hz in H. inv_ok1 H.
    apply vec_get_Ok in E3 as [_ E3]. assert (a0 = Some pr) as -> by congruence.
    rewrite lookup_insert_ne, Hsrc in H by done. rewrite Ht, andb_true_r in H.
    rewrite bool_decide_true in H by (destruct K1 as (_ & K2 & _); congruence).
    inv_ok1 H. inv_ok1 H. injection H as <-. exists a0. by rewrite insert_insert_eq.
Qed.

Lemma renameSrc_renamed s k a s' i :
  nonneg_store s → s !! p = Some i → renameSrc rf cfg flattenRegId t p x q s (k, a) = Ok s' →
  src_renamed s s'.
Proof.
  intros Hnn Hi H. destruct (renameSrc_cases s k a s' i Hnn Hi H)
    as (r & i1 & _ & K & [->|(pr & src & i2 & _ & Hsrc & _ & Ht & ->)] & _).
  - by apply (src_renamed_insert s i).
  - pose proof (src_renamed_insert s i i1 Hi K) as R1. eapply src_renamed_trans; [exact R1|].
    rewrite <-(insert_insert_eq s p i2 i1).
    apply (src_renamed_taint _ i1 i2 pr src); [by apply R1|by rewrite lookup_insert_eq|done|done].
Qed.

Lemma renameSrcs_tainted pr src : ∀ srcs s s' i,
  nonneg_store s → s !! p = Some i → pr ≠ p → s !! pr = Some src →
  threadNumber src = threadNumber i → isDataInducer src || isDataRestricted src = true →
  foldM (renameSrc rf cfg flattenRegId t p x q) srcs s = Ok s' →
  src_renamed s s' ∧
  ∀ k a r, (k, a) ∈ srcs → RegId_isZeroReg a = false →
    um_lookup rf (flattenRegId a) (renameMap x t) = Ok r → sb_getReg r (scoreboard x) = Ok true →
    regToProducerInst q !! Z.to_nat (flatIdx r) = Some (Some pr) →
    ∃ i', s' !! p = Some i' ∧ tainted_by (root src) i'.
Proof.
  induction srcs as [|[k0 a0] srcs IH]; intros s s' i Hnn Hi Hne Hpr Hth Ht H; cbn [foldM] in H.
  { injection H as <-. split; [|intros k a r Hin; by apply not_elem_of_nil in Hin].
    split; [done|done|]. intros j Hj. exists j. by split_and!. }
  destruct (renameSrc _ _ _ _ _ _ _ _ _) as [s1|] eqn:E; [|done].
  pose proof (renameSrc_renamed s k0 a0 s1 i Hnn Hi E) as R1.
  destruct (sr_inst _ _ R1 i Hi) as (i1 & Hi1 & Hth1 & _).
  destruct (IH s1 s' i1) as [R2 T2]; [by apply R1|done|done| |congruence|done|done|].
  { rewrite (sr_others _ _ R1); done. }
  split; [by eapply src_renamed_trans|].
  intros k a r Hin Hz Hl Hsb Hprod. apply elem_of_cons in Hin as [[= -> ->]|Hin]; [|by eapply T2].
  destruct (renameSrc_cases s k0 a0 s1 i Hnn Hi E) as (r' & j1 & Hl' & K & _ & Hall).
  assert (r' = r) as -> by congruence.
  destruct (Hall pr src Hz Hsb Hprod Hne Hpr Hth Ht) as (j2 & Htj & ->).
  destruct (sr_inst _ _ R2 j2) as (j3 & Hj3 & _ & Hk); [by rewrite lookup_insert_eq|].
  exists j3. split; [done|]. apply Hk; [by apply R1|]. by eapply taint_taints.
Qed.
End taint_at_rename.

(** ** An example: a completed load's result is read again

    The load wrote integer register 33; it is a data inducer. *)
Module RenameTaintExample.
Definition rax : RegId := mkRegId IntRegClass 0 (-1).
Definition load : DynInst :=
  set_status (bs_set 0%N DataInducer) (IqExample.inst 2 [IsMemRef; IsLoad] [] [0]).
Definition use : DynInst := IqExample.inst 9 [IsInteger] [0] [].
Definition insts : store := {[ 2 := load; 9 := use ]}.
(** The load's destination is renamed, and its value has arrived. *)
Definition run : outcome (RenameState * InstQueue * store) :=
  let! (x, q, s) := renameDestRegs RenameExample.rf id 0 2 [rax]
                      (RenameExample.start, rn_queue, insts) in
  let! r := um_lookup RenameExample.rf rax (renameMap x 0%nat) in
  let! sb := sb_setReg r (scoreboard x) in
  Ok (mkRenameState (renameMap x) (freeList x) sb (historyBuffer x), q, s).
Definition state : RenameState * InstQueue * store :=
  match run with Ok r => r | Err _ => (RenameExample.empty, rn_queue, ∅) end.
Definition mode1 : DolmaConfig := mkDolmaConfig true false false false.
(** The register that [rax] is mapped to. *)
Definition reg33 : PhysRegId := mkPhysRegId (mkRegId IntRegClass 33 (-1)) 33.
End RenameTaintExample.

(** ** Theorems *)

(** C12: an instruction that finds a source register ready at rename inherits
    its taint there: if the register's recorded producer is of the same thread
    and induces or carries taint, [renameSrcRegs] leaves the instruction data
    restricted with a youngest data inducer no older than the producer's. *)
Theorem rename_taints rf cfg flattenRegId t p srcs x q s s' i pr src k a r :
  nonneg_store s → s !! p = Some i → s !! pr = Some src → pr ≠ p →
  threadNumber src = threadNumber i → isDataInducer src || isDataRestricted src = true →
  srcs !! k = Some a → RegId_isZeroReg a = false →
  um_lookup rf (flattenRegId a) (renameMap x t) = Ok r → sb_getReg r (scoreboard x) = Ok true →
  regToProducerInst q !! Z.to_nat (flatIdx r) = Some (Some pr) →
  renameSrcRegs rf cfg flattenRegId t p srcs x q s = Ok s' →
  ∃ i', s' !! p = Some i' ∧ tainted_by (root src) i'.
Proof.
  intros Hnn Hi Hpr Hne Hth Ht Hk Hz Hl Hsb Hprod H.
  destruct (renameSrcs_tainted rf cfg flattenRegId t p x q pr src _ s s' i Hnn Hi Hne Hpr Hth Ht H)
    as [_ HT].
  apply (HT k a r); [|done..]. apply (list_elem_of_lookup_2 _ k). apply lookup_zip_with_Some.
  exists k, a. split_and!; [done| |done]. apply lookup_seq. split; [done|].
  by apply lookup_lt_Some in Hk.
Qed.

Lemma rename_taints_witness :
  ∃ s', renameSrcRegs RenameExample.rf RenameTaintExample.mode1 id 0 9 [RenameTaintExample.rax]
      RenameTaintExample.state.1.1 RenameTaintExample.state.1.2 RenameTaintExample.state.2
    = Ok s' ∧ ∃ i', s' !! 9 = Some i' ∧ tainted_by 2 i'.
Proof.
  destruct (renameSrcRegs RenameExample.rf RenameTaintExample.mode1 id 0 9 [RenameTaintExample.rax]
      RenameTaintExample.state.1.1 RenameTaintExample.state.1.2 RenameTaintExample.state.2)
    as [s'|] eqn:E; [|vm_compute in E; discriminate].
  exists s'. split; [done|].
  destruct (RenameTaintExample.state.2 !! 2) as [src|] eqn:Es; [|vm_compute in Es; discriminate].
  assert (root src = 2 ∧ threadNumber src = 0%nat ∧ isDataInducer src || isDataRestricted src = true)
    as (Hroot & Hth & Ht) by (vm_compute in Es; injection Es as <-; by_eval).
  rewrite <-Hroot.
  apply (rename_taints RenameExample.rf RenameTaintExample.mode1 id 0 9 [RenameTaintExample.rax]
    RenameTaintExample.state.1.1 RenameTaintExample.state.1.2 RenameTaintExample.state.2 s'
    RenameTaintExample.use 2 src 0 RenameTaintExample.rax RenameTaintExample.reg33);
    [by_eval|by_eval|exact Es|done|by rewrite Hth|exact Ht|done|done|by_eval|by_eval|by_eval|exact E].
Defined.

(** an instruction with a misc-register destination erases the producer of
    integer physical register 0: misc registers have flat index 0, and
    [renameDestRegs] records the producer by flat index.  Whatever produced
    register 0, a later reader of it is then not tainted when the misc writer is
    not. *)
Theorem misc_dest_hides_taint cfg flattenRegId nInt nFloat nVec nCC nMisc mode t p k d
    x q s x' q' s' c e a r pi ci s'' :
  let rf := newPhysRegFile nInt nFloat nVec nCC nMisc mode in
  regClass (flattenRegId d) = MiscRegClass →
  renameDest rf flattenRegId t p (x, q, s) (k, d) = Ok (x', q', s') →
  um_lookup rf (flattenRegId a) (renameMap x' t) = Ok r → flatIdx r = 0 →
  c ≠ p → nonneg_store s' → s' !! p = Some pi → s' !! c = Some ci →
  isDataInducer pi || isDataRestricted pi = false →
  renameSrc rf cfg flattenRegId t c x' q' s' (e, a) = Ok s'' →
  same_map (renameMap x t) (renameMap x' t) ∧
  view isDataRestricted s'' c = isDataRestricted ci.
Proof.
  intros rf Hmisc H Hl Hr Hne Hnn Hp Hc Hclean Hsrc. unfold renameDest in H. inv_ok1 H.
  unfold um_rename, um_lookup, getMiscRegId in H. rewrite Hmisc in H.
  destruct (vec_get "miscRegIds" _ _) as [r0|] eqn:Er; [|done].
  inv_ok1 H. inv_ok1 H. injection H as Hx Hq Hs.
  assert (flatIdx r0 = 0) as Hr0.
  { apply vec_get_Ok in Er as [_ Er]. cbn in Er. apply list_lookup_fmap_Some in Er
      as (? & -> & _). done. }
  apply vec_set_Ok in E1 as [Hlen ->]. rewrite Hr0 in Hq, Hlen.
  assert (regToProducerInst q' !! 0%nat = Some (Some p)) as Hprod.
  { rewrite <-Hq. cbn. apply list_lookup_insert_eq. lia. }
  split. { rewrite <-Hx. cbn. by rewrite fn_lookup_insert. }
  destruct (renameSrc_cases rf cfg flattenRegId t c x' q' s' e a s'' ci Hnn Hc Hsrc)
    as (r' & i1 & Hl' & (_ & _ & _ & K) & [->|(pr & src & i2 & Hpr & Hsrc' & Htn & _)] & _).
  - unfold view. by rewrite lookup_insert_eq.
  - assert (r' = r) as -> by congruence. rewrite Hr in Hpr. change (Z.to_nat 0) with 0%nat in Hpr.
    assert (pr = p) as -> by congruence. rewrite lookup_insert_ne in Hsrc' by done. congruence.
Qed.

(** Register 0 is mapped by [rax] of thread 0, the tainted load 2 produced it;
    instruction 5 writes a misc register and 9 reads [rax]. *)
Module MiscExample.
Definition misc : RegId := mkRegId MiscRegClass 1 (-1).
Definition rax : RegId := mkRegId IntRegClass 0 (-1).
Definition insts : store :=
  {[ 2 := RenameTaintExample.load; 5 := IqExample.inst 5 [IsInteger] [] [0];
     9 := RenameTaintExample.use ]}.
Definition queue : InstQueue :=
  set_regToProducerInst (<[0%nat := Some 2]> (replicate 60 None)) IqExample.queue0.
Definition reg0 : PhysRegId := mkPhysRegId rax 0.
End MiscExample.

Lemma misc_dest_hides_taint_witness :
  ∃ x' q' s' s'',
    renameDest RenameExample.rf id 0 5 (RenameExample.start, MiscExample.queue, MiscExample.insts)
      (0%nat, MiscExample.misc) = Ok (x', q', s') ∧
    renameSrc RenameExample.rf RenameTaintExample.mode1 id 0 9 x' q' s' (0%nat, MiscExample.rax)
    = Ok s'' ∧ view isDataRestricted s'' 9 = false.
Proof.
  destruct (renameDest RenameExample.rf id 0 5
    (RenameExample.start, MiscExample.queue, MiscExample.insts) (0%nat, MiscExample.misc))
    as [[[x' q'] s']|] eqn:E; [|vm_compute in E; discriminate].
  assert ((let! (x', q', s') := renameDest RenameExample.rf id 0 5
      (RenameExample.start, MiscExample.queue, MiscExample.insts) (0%nat, MiscExample.misc) in
    Ok (bool_decide (nonneg_store s'), s' !! 9, view isDataInducer s' 5 || view isDataRestricted s' 5,
        bool_decide (is_Some (s' !! 5)),
        um_lookup RenameExample.rf MiscExample.rax (renameMap x' 0%nat),
        is_ok (renameSrc RenameExample.rf RenameTaintExample.mode1 id 0 9 x' q' s'
                 (0%nat, MiscExample.rax))))
    = Ok (true, Some RenameTaintExample.use, false, true, Ok MiscExample.reg0, true)) as V
    by (vm_compute; reflexivity).
  rewrite E in V. injection V as V1 V2 V3 V4 V5 V6.
  apply bool_decide_eq_true in V1, V4. destruct V4 as [pi Hpi].
  change (is_ok (renameSrc RenameExample.rf RenameTaintExample.mode1 id 0 9 x' q' s'
            (0%nat, MiscExample.rax)) = true) in V6.
  destruct (renameSrc RenameExample.rf RenameTaintExample.mode1 id 0 9 x' q' s'
              (0%nat, MiscExample.rax)) as [s''|] eqn:E2; [|discriminate V6].
  exists x', q', s', s''. split; [reflexivity|]. split; [exact E2|].
  destruct (misc_dest_hides_taint RenameTaintExample.mode1 id 40 6 3 4 2 Full 0 5 0 MiscExample.misc
    RenameExample.start MiscExample.queue MiscExample.insts x' q' s' 9 0 MiscExample.rax
    MiscExample.reg0 pi RenameTaintExample.use s'') as [_ ->];
    [done|exact E|exact V5|done|done|exact V1|exact Hpi|exact V2| |exact E2|done].
  unfold view in V3. by rewrite Hpi in V3.
Defined.

(** renaming a vector element changes the wrong entry: [rename] indexes the
    map with [index()], [lookup] with [flatIndex()].  In element mode the renamed
    register keeps its old mapping and another one is mapped to the new physical
    register. *)
Theorem element_rename_misplaced rf a b m fl new prev m' fl' :
  regClass a = VecElemClass → regIdx a ≠ RegId_flatIndex a →
  regClass (zeroReg (maps m VecElemClass)) = IntRegClass →
  regClass b = VecElemClass → RegId_flatIndex b = regIdx a →
  um_rename rf a m fl = Ok (new, prev, m', fl') →
  um_lookup rf a m' = um_lookup rf a m ∧ um_lookup rf b m' = Ok new.
Proof.
  intros Ha Hne Hz Hb Hidx H. unfold um_rename in H. rewrite Ha in H. inv_ok1 H.
  destruct (simple_rename _ _ _) as [[[[n0 p0] v] l0]|] eqn:Es; [|done].
  injection H as -> -> <- _. unfold simple_rename in Es. inv_ok1 Es. inv_ok1 Es.
  rewrite bool_decide_false in Es by congruence. cbn [negb] in Es.
  destruct (fl VecElemClass) as [|new0 l]; [done|]. inv_ok1 Es. injection Es as -> _ <- _.
  unfold um_lookup. rewrite Ha, Hb. cbn [maps set_map vecMode]. rewrite fn_lookup_insert, E.
  unfold simple_lookup. cbn [rmap set_rmap]. rewrite Hidx, !(vec_get_set _ _ _ _ _ _ E2), Z.eqb_refl.
  rewrite (proj2 (Z.eqb_neq _ _)) by congruence.
  apply vec_set_Ok in E2 as [Hlen ->]. rewrite length_insert.
  rewrite (proj2 (Z.leb_le (regIdx a) _)) by lia. done.
Qed.

Lemma element_rename_misplaced_witness :
  let rf := newPhysRegFile 40 6 4 4 2 Elem in
  let sizes c := match c with IntRegClass => 17%nat | VecRegClass => 2%nat | _ => 0%nat end in
  let a := mkRegId VecElemClass 1 1 in
  let b := mkRegId VecElemClass 0 1 in
  ∃ x new prev m' fl', setupRename rf sizes 1 = Ok x ∧
    um_rename rf a (renameMap x 0%nat) (freeList x) = Ok (new, prev, m', fl') ∧
    um_lookup rf a m' = um_lookup rf a (renameMap x 0%nat) ∧ um_lookup rf b m' = Ok new.
Proof.
  intros rf sizes a b.
  destruct (setupRename rf sizes 1) as [x|] eqn:E; [|vm_compute in E; discriminate].
  assert ((let! x := setupRename rf sizes 1 in
           Ok (is_ok (um_rename rf a (renameMap x 0%nat) (freeList x)),
               regClass (zeroReg (maps (renameMap x 0%nat) VecElemClass))))
          = Ok (true, IntRegClass)) as V by (vm_compute; reflexivity).
  rewrite E in V. injection V as V1 V2.
  change (is_ok (um_rename rf a (renameMap x 0%nat) (freeList x)) = true) in V1.
  destruct (um_rename rf a (renameMap x 0%nat) (freeList x)) as [[[[new prev] m'] fl']|] eqn:E2;
    [|discriminate V1].
  exists x, new, prev, m', fl'. split; [reflexivity|]. split; [exact E2|].
  apply (element_rename_misplaced rf a b (renameMap x 0%nat) (freeList x) new prev m' fl');
    [done|vm_compute; discriminate|exact V2|done|done|exact E2].
Defined.
