(* ===== verification/LsqUnit.v ===== *)
(** * The load/store queue

    [LSQUnit] ([cpu/o3/lsq_unit.hh], [cpu/o3/lsq_unit_impl.hh]): the load and
    store queues of one hardware thread, circular buffers with one sentinel
    entry.  Loads search the older stores for their data, stores check the
    younger loads for ordering violations, committed stores are written back in
    order.  DOLMA added the dummy accesses that hide hits on restricted stores
    and the delay of restricted loads that miss.

    Packets in flight share their [LSQSenderState], so the sender states live
    in a heap; a packet is identified by a number, as the source compares packet
    pointers.  Requests are never changed after they entered a queue, so they
    are values.  The instruction queue's callbacks are those of [InstQueue.v];
    calls into the issue stage proper are recorded in order.  Statistics, the
    checker and [activityThisCycle] are left out. *)

From S2P Require Import Prelude Regs Config DynInst Metadata Rob StoreSet DepGraph FUPool.
From S2P Require Import MemDepUnit InstQueue.

Local Open Scope Z_scope.

(** ** Packets *)

(** [Packet::createRead], [Packet::createWrite] and the buffer
    [dataStatic] points the packet at: a load's [memData] or
    [delayedFwdData] from an offset on, or the bytes a store writes. *)
Inductive PktData : Type :=
  | ToMemData (off : Z)
  | ToDelayedFwdData (off : Z)
  | WriteData (bytes : list Z).

Record Packet := mkPacket {
  pkt_id : Z;
  pkt_req : Request;
  pkt_data : PktData;
  pkt_senderState : option Z;
}.

Record LSQSenderState := mkLSQSenderState {
  ss_inst : DynInstPtr;
  ss_mainPkt : option Packet;
  ss_pendingPacket : option Packet;
  ss_idx : Z; (** [uint8_t] *)
  ss_outstanding : Z; (** [uint8_t] *)
  ss_isLoad : bool;
  ss_noWB : bool;
  ss_isSplit : bool;
  ss_pktToSend : bool;
  ss_cacheBlocked : bool;
}.

(** The constructor with the fields its users assign. *)
Definition newSenderState (isLoad noWB : bool) (idx : Z) (p : DynInstPtr) : LSQSenderState :=
  mkLSQSenderState p None None (wrap 8 idx) 1 isLoad noWB false false false.
Definition ss_setOutstanding (v : Z) (x : LSQSenderState) : LSQSenderState :=
  mkLSQSenderState (ss_inst x) (ss_mainPkt x) (ss_pendingPacket x) (ss_idx x) v
    (ss_isLoad x) (ss_noWB x) (ss_isSplit x) (ss_pktToSend x) (ss_cacheBlocked x).
(** [isSplit = true; outstanding = 2; mainPkt = pkt]. *)
Definition ss_split (main : option Packet) (x : LSQSenderState) : LSQSenderState :=
  mkLSQSenderState (ss_inst x) main (ss_pendingPacket x) (ss_idx x) 2
    (ss_isLoad x) (ss_noWB x) true (ss_pktToSend x) (ss_cacheBlocked x).
Definition ss_setCacheBlocked (x : LSQSenderState) : LSQSenderState :=
  mkLSQSenderState (ss_inst x) (ss_mainPkt x) (ss_pendingPacket x) (ss_idx x)
    (ss_outstanding x) (ss_isLoad x) (ss_noWB x) (ss_isSplit x) (ss_pktToSend x) true.
Definition ss_setPending (b : bool) (p : option Packet) (x : LSQSenderState) : LSQSenderState :=
  mkLSQSenderState (ss_inst x) (ss_mainPkt x) p (ss_idx x)
    (ss_outstanding x) (ss_isLoad x) (ss_noWB x) (ss_isSplit x) b (ss_cacheBlocked x).
(** [complete()]: [--outstanding == 0]. *)
Definition ss_complete (x : LSQSenderState) : bool * LSQSenderState :=
  let x := ss_setOutstanding (wrap 8 (ss_outstanding x - 1)) x in
  (ss_outstanding x =? 0, x).

(** ** The queues *)

Record SQEntry := mkSQEntry {
  sq_data : list Z; (** [char data[16]] *)
  sq_inst : option DynInstPtr;
  sq_req : option Request;
  sq_sreqLow : option Request;
  sq_sreqHigh : option Request;
  sq_size : Z; (** [uint8_t] *)
  sq_isSplit : bool;
  sq_canWB : bool; (** committed, so it may write back *)
  sq_committed : bool; (** sent to the memory system *)
  sq_completed : bool;
  sq_isAllZeros : bool;
}.

Definition set_sq_data (v : list Z) (e : SQEntry) : SQEntry :=
  mkSQEntry v (sq_inst e) (sq_req e) (sq_sreqLow e) (sq_sreqHigh e) (sq_size e)
    (sq_isSplit e) (sq_canWB e) (sq_committed e) (sq_completed e)
    (sq_isAllZeros e).
Definition set_sq_inst (v : option DynInstPtr) (e : SQEntry) : SQEntry :=
  mkSQEntry (sq_data e) v (sq_req e) (sq_sreqLow e) (sq_sreqHigh e) (sq_size e)
    (sq_isSplit e) (sq_canWB e) (sq_committed e) (sq_completed e)
    (sq_isAllZeros e).
Definition set_sq_req (v : option Request) (e : SQEntry) : SQEntry :=
  mkSQEntry (sq_data e) (sq_inst e) v (sq_sreqLow e) (sq_sreqHigh e) (sq_size e)
    (sq_isSplit e) (sq_canWB e) (sq_committed e) (sq_completed e)
    (sq_isAllZeros e).
Definition set_sq_sreqLow (v : option Request) (e : SQEntry) : SQEntry :=
  mkSQEntry (sq_data e) (sq_inst e) (sq_req e) v (sq_sreqHigh e) (sq_size e)
    (sq_isSplit e) (sq_canWB e) (sq_committed e) (sq_completed e)
    (sq_isAllZeros e).
Definition set_sq_sreqHigh (v : option Request) (e : SQEntry) : SQEntry :=
  mkSQEntry (sq_data e) (sq_inst e) (sq_req e) (sq_sreqLow e) v (sq_size e)
    (sq_isSplit e) (sq_canWB e) (sq_committed e) (sq_completed e)
    (sq_isAllZeros e).
Definition set_sq_size (v : Z) (e : SQEntry) : SQEntry :=
  mkSQEntry (sq_data e) (sq_inst e) (sq_req e) (sq_sreqLow e) (sq_sreqHigh e) v
    (sq_isSplit e) (sq_canWB e) (sq_committed e) (sq_completed e)
    (sq_isAllZeros e).
Definition set_sq_isSplit (v : bool) (e : SQEntry) : SQEntry :=
  mkSQEntry (sq_data e) (sq_inst e) (sq_req e) (sq_sreqLow e) (sq_sreqHigh e)
    (sq_size e) v (sq_canWB e) (sq_committed e) (sq_completed e)
    (sq_isAllZeros e).
Definition set_sq_canWB (v : bool) (e : SQEntry) : SQEntry :=
  mkSQEntry (sq_data e) (sq_inst e) (sq_req e) (sq_sreqLow e) (sq_sreqHigh e)
    (sq_size e) (sq_isSplit e) v (sq_committed e) (sq_completed e)
    (sq_isAllZeros e).
Definition set_sq_committed (v : bool) (e : SQEntry) : SQEntry :=
  mkSQEntry (sq_data e) (sq_inst e) (sq_req e) (sq_sreqLow e) (sq_sreqHigh e)
    (sq_size e) (sq_isSplit e) (sq_canWB e) v (sq_completed e)
    (sq_isAllZeros e).
Definition set_sq_completed (v : bool) (e : SQEntry) : SQEntry :=
  mkSQEntry (sq_data e) (sq_inst e) (sq_req e) (sq_sreqLow e) (sq_sreqHigh e)
    (sq_size e) (sq_isSplit e) (sq_canWB e) (sq_committed e) v
    (sq_isAllZeros e).
Definition set_sq_isAllZeros (v : bool) (e : SQEntry) : SQEntry :=
  mkSQEntry (sq_data e) (sq_inst e) (sq_req e) (sq_sreqLow e) (sq_sreqHigh e)
    (sq_size e) (sq_isSplit e) (sq_canWB e) (sq_committed e) (sq_completed e)
    v.

(** [SQEntry()] and [SQEntry(inst)]; the former leaves [isSplit] and
    [isAllZeros] unset, nothing reads them before the latter sets them. *)
Definition newSQEntry (p : option DynInstPtr) : SQEntry :=
  mkSQEntry (replicate 16 0) p None None None 0 false false false false false.

Record LSQUnit := mkLSQUnit {
  lsqID : ThreadID;
  storeQueue : list SQEntry;
  loadQueue : list (option DynInstPtr);
  LQEntries : Z; (** [unsigned], the sentinel entry included *)
  SQEntries : Z; (** [unsigned], the sentinel entry included *)
  depCheckShift : Z;
  checkLoads : bool;
  loads : Z; (** [int] *)
  stores : Z; (** [int] *)
  storesToWB : Z; (** [int] *)
  loadHead : Z; (** [int], oldest load *)
  loadTail : Z; (** [int], first free entry *)
  storeHead : Z; (** [int], oldest store *)
  storeWBIdx : Z; (** [int], the next store to write back *)
  storeTail : Z; (** [int], first free entry *)
  cacheStorePorts : Z;
  usedStorePorts : Z;
  cacheBlockMask : Addr;
  stalled : bool; (** a load waits for a store that holds part of its data *)
  stallingStoreIsn : InstSeqNum;
  stallingLoadIdx : Z;
  retryPkt : option Packet;
  isStoreBlocked : bool;
  storeInFlight : bool; (** under TSO: a store is in the memory system *)
  memDepViolator : option DynInstPtr;
  hasPendingPkt : bool;
  pendingPkt : option Packet;
  needsTSO : bool;
}.

Definition set_storeQueue (v : list SQEntry) (u : LSQUnit) : LSQUnit :=
  mkLSQUnit (lsqID u) v (loadQueue u) (LQEntries u) (SQEntries u) (depCheckShift u)
    (checkLoads u) (loads u) (stores u) (storesToWB u) (loadHead u)
    (loadTail u) (storeHead u) (storeWBIdx u) (storeTail u)
    (cacheStorePorts u) (usedStorePorts u) (cacheBlockMask u) (stalled u)
    (stallingStoreIsn u) (stallingLoadIdx u) (retryPkt u) (isStoreBlocked u)
    (storeInFlight u) (memDepViolator u) (hasPendingPkt u) (pendingPkt u)
    (needsTSO u).
Definition set_loadQueue (v : list (option DynInstPtr)) (u : LSQUnit) : LSQUnit :=
  mkLSQUnit (lsqID u) (storeQueue u) v (LQEntries u) (SQEntries u) (depCheckShift u)
    (checkLoads u) (loads u) (stores u) (storesToWB u) (loadHead u)
    (loadTail u) (storeHead u) (storeWBIdx u) (storeTail u)
    (cacheStorePorts u) (usedStorePorts u) (cacheBlockMask u) (stalled u)
    (stallingStoreIsn u) (stallingLoadIdx u) (retryPkt u) (isStoreBlocked u)
    (storeInFlight u) (memDepViolator u) (hasPendingPkt u) (pendingPkt u)
    (needsTSO u).
Definition set_LQEntries (v : Z) (u : LSQUnit) : LSQUnit :=
  mkLSQUnit (lsqID u) (storeQueue u) (loadQueue u) v (SQEntries u) (depCheckShift u)
    (checkLoads u) (loads u) (stores u) (storesToWB u) (loadHead u)
    (loadTail u) (storeHead u) (storeWBIdx u) (storeTail u)
    (cacheStorePorts u) (usedStorePorts u) (cacheBlockMask u) (stalled u)
    (stallingStoreIsn u) (stallingLoadIdx u) (retryPkt u) (isStoreBlocked u)
    (storeInFlight u) (memDepViolator u) (hasPendingPkt u) (pendingPkt u)
    (needsTSO u).
Definition set_SQEntries (v : Z) (u : LSQUnit) : LSQUnit :=
  mkLSQUnit (lsqID u) (storeQueue u) (loadQueue u) (LQEntries u) v (depCheckShift u)
    (checkLoads u) (loads u) (stores u) (storesToWB u) (loadHead u)
    (loadTail u) (storeHead u) (storeWBIdx u) (storeTail u)
    (cacheStorePorts u) (usedStorePorts u) (cacheBlockMask u) (stalled u)
    (stallingStoreIsn u) (stallingLoadIdx u) (retryPkt u) (isStoreBlocked u)
    (storeInFlight u) (memDepViolator u) (hasPendingPkt u) (pendingPkt u)
    (needsTSO u).
Definition set_loads (v : Z) (u : LSQUnit) : LSQUnit :=
  mkLSQUnit (lsqID u) (storeQueue u) (loadQueue u) (LQEntries u) (SQEntries u)
    (depCheckShift u) (checkLoads u) v (stores u) (storesToWB u) (loadHead u)
    (loadTail u) (storeHead u) (storeWBIdx u) (storeTail u)
    (cacheStorePorts u) (usedStorePorts u) (cacheBlockMask u) (stalled u)
    (stallingStoreIsn u) (stallingLoadIdx u) (retryPkt u) (isStoreBlocked u)
    (storeInFlight u) (memDepViolator u) (hasPendingPkt u) (pendingPkt u)
    (needsTSO u).
Definition set_stores (v : Z) (u : LSQUnit) : LSQUnit :=
  mkLSQUnit (lsqID u) (storeQueue u) (loadQueue u) (LQEntries u) (SQEntries u)
    (depCheckShift u) (checkLoads u) (loads u) v (storesToWB u) (loadHead u)
    (loadTail u) (storeHead u) (storeWBIdx u) (storeTail u)
    (cacheStorePorts u) (usedStorePorts u) (cacheBlockMask u) (stalled u)
    (stallingStoreIsn u) (stallingLoadIdx u) (retryPkt u) (isStoreBlocked u)
    (storeInFlight u) (memDepViolator u) (hasPendingPkt u) (pendingPkt u)
    (needsTSO u).
Definition set_storesToWB (v : Z) (u : LSQUnit) : LSQUnit :=
  mkLSQUnit (lsqID u) (storeQueue u) (loadQueue u) (LQEntries u) (SQEntries u)
    (depCheckShift u) (checkLoads u) (loads u) (stores u) v (loadHead u)
    (loadTail u) (storeHead u) (storeWBIdx u) (storeTail u)
    (cacheStorePorts u) (usedStorePorts u) (cacheBlockMask u) (stalled u)
    (stallingStoreIsn u) (stallingLoadIdx u) (retryPkt u) (isStoreBlocked u)
    (storeInFlight u) (memDepViolator u) (hasPendingPkt u) (pendingPkt u)
    (needsTSO u).
Definition set_loadHead (v : Z) (u : LSQUnit) : LSQUnit :=
  mkLSQUnit (lsqID u) (storeQueue u) (loadQueue u) (LQEntries u) (SQEntries u)
    (depCheckShift u) (checkLoads u) (loads u) (stores u) (storesToWB u) v
    (loadTail u) (storeHead u) (storeWBIdx u) (storeTail u)
    (cacheStorePorts u) (usedStorePorts u) (cacheBlockMask u) (stalled u)
    (stallingStoreIsn u) (stallingLoadIdx u) (retryPkt u) (isStoreBlocked u)
    (storeInFlight u) (memDepViolator u) (hasPendingPkt u) (pendingPkt u)
    (needsTSO u).
Definition set_loadTail (v : Z) (u : LSQUnit) : LSQUnit :=
  mkLSQUnit (lsqID u) (storeQueue u) (loadQueue u) (LQEntries u) (SQEntries u)
    (depCheckShift u) (checkLoads u) (loads u) (stores u) (storesToWB u)
    (loadHead u) v (storeHead u) (storeWBIdx u) (storeTail u)
    (cacheStorePorts u) (usedStorePorts u) (cacheBlockMask u) (stalled u)
    (stallingStoreIsn u) (stallingLoadIdx u) (retryPkt u) (isStoreBlocked u)
    (storeInFlight u) (memDepViolator u) (hasPendingPkt u) (pendingPkt u)
    (needsTSO u).
Definition set_storeHead (v : Z) (u : LSQUnit) : LSQUnit :=
  mkLSQUnit (lsqID u) (storeQueue u) (loadQueue u) (LQEntries u) (SQEntries u)
    (depCheckShift u) (checkLoads u) (loads u) (stores u) (storesToWB u)
    (loadHead u) (loadTail u) v (storeWBIdx u) (storeTail u)
    (cacheStorePorts u) (usedStorePorts u) (cacheBlockMask u) (stalled u)
    (stallingStoreIsn u) (stallingLoadIdx u) (retryPkt u) (isStoreBlocked u)
    (storeInFlight u) (memDepViolator u) (hasPendingPkt u) (pendingPkt u)
    (needsTSO u).
Definition set_storeWBIdx (v : Z) (u : LSQUnit) : LSQUnit :=
  mkLSQUnit (lsqID u) (storeQueue u) (loadQueue u) (LQEntries u) (SQEntries u)
    (depCheckShift u) (checkLoads u) (loads u) (stores u) (storesToWB u)
    (loadHead u) (loadTail u) (storeHead u) v (storeTail u)
    (cacheStorePorts u) (usedStorePorts u) (cacheBlockMask u) (stalled u)
    (stallingStoreIsn u) (stallingLoadIdx u) (retryPkt u) (isStoreBlocked u)
    (storeInFlight u) (memDepViolator u) (hasPendingPkt u) (pendingPkt u)
    (needsTSO u).
Definition set_storeTail (v : Z) (u : LSQUnit) : LSQUnit :=
  mkLSQUnit (lsqID u) (storeQueue u) (loadQueue u) (LQEntries u) (SQEntries u)
    (depCheckShift u) (checkLoads u) (loads u) (stores u) (storesToWB u)
    (loadHead u) (loadTail u) (storeHead u) (storeWBIdx u) v
    (cacheStorePorts u) (usedStorePorts u) (cacheBlockMask u) (stalled u)
    (stallingStoreIsn u) (stallingLoadIdx u) (retryPkt u) (isStoreBlocked u)
    (storeInFlight u) (memDepViolator u) (hasPendingPkt u) (pendingPkt u)
    (needsTSO u).
Definition set_usedStorePorts (v : Z) (u : LSQUnit) : LSQUnit :=
  mkLSQUnit (lsqID u) (storeQueue u) (loadQueue u) (LQEntries u) (SQEntries u)
    (depCheckShift u) (checkLoads u) (loads u) (stores u) (storesToWB u)
    (loadHead u) (loadTail u) (storeHead u) (storeWBIdx u) (storeTail u)
    (cacheStorePorts u) v (cacheBlockMask u) (stalled u) (stallingStoreIsn u)
    (stallingLoadIdx u) (retryPkt u) (isStoreBlocked u) (storeInFlight u)
    (memDepViolator u) (hasPendingPkt u) (pendingPkt u) (needsTSO u).
Definition set_cacheBlockMask (v : Addr) (u : LSQUnit) : LSQUnit :=
  mkLSQUnit (lsqID u) (storeQueue u) (loadQueue u) (LQEntries u) (SQEntries u)
    (depCheckShift u) (checkLoads u) (loads u) (stores u) (storesToWB u)
    (loadHead u) (loadTail u) (storeHead u) (storeWBIdx u) (storeTail u)
    (cacheStorePorts u) (usedStorePorts u) v (stalled u) (stallingStoreIsn u)
    (stallingLoadIdx u) (retryPkt u) (isStoreBlocked u) (storeInFlight u)
    (memDepViolator u) (hasPendingPkt u) (pendingPkt u) (needsTSO u).
Definition set_stalled (v : bool) (u : LSQUnit) : LSQUnit :=
  mkLSQUnit (lsqID u) (storeQueue u) (loadQueue u) (LQEntries u) (SQEntries u)
    (depCheckShift u) (checkLoads u) (loads u) (stores u) (storesToWB u)
    (loadHead u) (loadTail u) (storeHead u) (storeWBIdx u) (storeTail u)
    (cacheStorePorts u) (usedStorePorts u) (cacheBlockMask u) v
    (stallingStoreIsn u) (stallingLoadIdx u) (retryPkt u) (isStoreBlocked u)
    (storeInFlight u) (memDepViolator u) (hasPendingPkt u) (pendingPkt u)
    (needsTSO u).
Definition set_stallingStoreIsn (v : InstSeqNum) (u : LSQUnit) : LSQUnit :=
  mkLSQUnit (lsqID u) (storeQueue u) (loadQueue u) (LQEntries u) (SQEntries u)
    (depCheckShift u) (checkLoads u) (loads u) (stores u) (storesToWB u)
    (loadHead u) (loadTail u) (storeHead u) (storeWBIdx u) (storeTail u)
    (cacheStorePorts u) (usedStorePorts u) (cacheBlockMask u) (stalled u) v
    (stallingLoadIdx u) (retryPkt u) (isStoreBlocked u) (storeInFlight u)
    (memDepViolator u) (hasPendingPkt u) (pendingPkt u) (needsTSO u).
Definition set_stallingLoadIdx (v : Z) (u : LSQUnit) : LSQUnit :=
  mkLSQUnit (lsqID u) (storeQueue u) (loadQueue u) (LQEntries u) (SQEntries u)
    (depCheckShift u) (checkLoads u) (loads u) (stores u) (storesToWB u)
    (loadHead u) (loadTail u) (storeHead u) (storeWBIdx u) (storeTail u)
    (cacheStorePorts u) (usedStorePorts u) (cacheBlockMask u) (stalled u)
    (stallingStoreIsn u) v (retryPkt u) (isStoreBlocked u) (storeInFlight u)
    (memDepViolator u) (hasPendingPkt u) (pendingPkt u) (needsTSO u).
Definition set_retryPkt (v : option Packet) (u : LSQUnit) : LSQUnit :=
  mkLSQUnit (lsqID u) (storeQueue u) (loadQueue u) (LQEntries u) (SQEntries u)
    (depCheckShift u) (checkLoads u) (loads u) (stores u) (storesToWB u)
    (loadHead u) (loadTail u) (storeHead u) (storeWBIdx u) (storeTail u)
    (cacheStorePorts u) (usedStorePorts u) (cacheBlockMask u) (stalled u)
    (stallingStoreIsn u) (stallingLoadIdx u) v (isStoreBlocked u)
    (storeInFlight u) (memDepViolator u) (hasPendingPkt u) (pendingPkt u)
    (needsTSO u).
Definition set_isStoreBlocked (v : bool) (u : LSQUnit) : LSQUnit :=
  mkLSQUnit (lsqID u) (storeQueue u) (loadQueue u) (LQEntries u) (SQEntries u)
    (depCheckShift u) (checkLoads u) (loads u) (stores u) (storesToWB u)
    (loadHead u) (loadTail u) (storeHead u) (storeWBIdx u) (storeTail u)
    (cacheStorePorts u) (usedStorePorts u) (cacheBlockMask u) (stalled u)
    (stallingStoreIsn u) (stallingLoadIdx u) (retryPkt u) v (storeInFlight u)
    (memDepViolator u) (hasPendingPkt u) (pendingPkt u) (needsTSO u).
Definition set_storeInFlight (v : bool) (u : LSQUnit) : LSQUnit :=
  mkLSQUnit (lsqID u) (storeQueue u) (loadQueue u) (LQEntries u) (SQEntries u)
    (depCheckShift u) (checkLoads u) (loads u) (stores u) (storesToWB u)
    (loadHead u) (loadTail u) (storeHead u) (storeWBIdx u) (storeTail u)
    (cacheStorePorts u) (usedStorePorts u) (cacheBlockMask u) (stalled u)
    (stallingStoreIsn u) (stallingLoadIdx u) (retryPkt u) (isStoreBlocked u) v
    (memDepViolator u) (hasPendingPkt u) (pendingPkt u) (needsTSO u).
Definition set_memDepViolator (v : option DynInstPtr) (u : LSQUnit) : LSQUnit :=
  mkLSQUnit (lsqID u) (storeQueue u) (loadQueue u) (LQEntries u) (SQEntries u)
    (depCheckShift u) (checkLoads u) (loads u) (stores u) (storesToWB u)
    (loadHead u) (loadTail u) (storeHead u) (storeWBIdx u) (storeTail u)
    (cacheStorePorts u) (usedStorePorts u) (cacheBlockMask u) (stalled u)
    (stallingStoreIsn u) (stallingLoadIdx u) (retryPkt u) (isStoreBlocked u)
    (storeInFlight u) v (hasPendingPkt u) (pendingPkt u) (needsTSO u).
Definition set_hasPendingPkt (v : bool) (u : LSQUnit) : LSQUnit :=
  mkLSQUnit (lsqID u) (storeQueue u) (loadQueue u) (LQEntries u) (SQEntries u)
    (depCheckShift u) (checkLoads u) (loads u) (stores u) (storesToWB u)
    (loadHead u) (loadTail u) (storeHead u) (storeWBIdx u) (storeTail u)
    (cacheStorePorts u) (usedStorePorts u) (cacheBlockMask u) (stalled u)
    (stallingStoreIsn u) (stallingLoadIdx u) (retryPkt u) (isStoreBlocked u)
    (storeInFlight u) (memDepViolator u) v (pendingPkt u) (needsTSO u).
Definition set_pendingPkt (v : option Packet) (u : LSQUnit) : LSQUnit :=
  mkLSQUnit (lsqID u) (storeQueue u) (loadQueue u) (LQEntries u) (SQEntries u)
    (depCheckShift u) (checkLoads u) (loads u) (stores u) (storesToWB u)
    (loadHead u) (loadTail u) (storeHead u) (storeWBIdx u) (storeTail u)
    (cacheStorePorts u) (usedStorePorts u) (cacheBlockMask u) (stalled u)
    (stallingStoreIsn u) (stallingLoadIdx u) (retryPkt u) (isStoreBlocked u)
    (storeInFlight u) (memDepViolator u) (hasPendingPkt u) v (needsTSO u).

(** [cacheLineSize()] is an [unsigned int], so [~(cacheLineSize() - 1)] has 32
    bits before it is widened to [Addr]. *)
Definition lsq_resetState (cacheLineSize : Z) (u : LSQUnit) : LSQUnit :=
  let u := set_loads 0 (set_stores 0 (set_storesToWB 0 u)) in
  let u := set_loadHead 0 (set_loadTail 0 u) in
  let u := set_storeHead 0 (set_storeWBIdx 0 (set_storeTail 0 u)) in
  let u := set_usedStorePorts 0 u in
  let u := set_retryPkt None (set_memDepViolator None u) in
  set_cacheBlockMask (wrap 32 (- cacheLineSize)) (set_stalled false u).

(** The constructor followed by [init]. *)
Definition lsq_init (maxLQEntries maxSQEntries : Z) (id : ThreadID)
    (shift : Z) (check : bool) (ports : Z) (tso : bool) (cacheLineSize : Z)
  : outcome LSQUnit :=
  let lq := wrap 32 (maxLQEntries + 1) in
  let sq := wrap 32 (maxSQEntries + 1) in
  assert! lq <=? 256 as "init: LQEntries <= 256" in
  assert! sq <=? 256 as "init: SQEntries <= 256" in
  Ok (lsq_resetState cacheLineSize
        (mkLSQUnit id (replicate (Z.to_nat sq) (newSQEntry None))
           (replicate (Z.to_nat lq) None) lq sq shift check 0 0 0 0 0 0 0 0
           ports 0 0 false 0 0 None false false None false None tso)).

Definition lsq_takeOverFrom : Z → LSQUnit → LSQUnit := lsq_resetState.
Definition clearLQ : LSQUnit → LSQUnit := set_loadQueue [].
Definition clearSQ : LSQUnit → LSQUnit := set_storeQueue [].

Definition lsq_drainSanityCheck (u : LSQUnit) : outcome () :=
  assert! forallb (λ o, bool_decide (o = None)) (loadQueue u) as "!loadQueue[i]" in
  assert! storesToWB u =? 0 as "storesToWB == 0" in
  assert! (match retryPkt u with None => true | Some _ => false end) as "!retryPkt" in
  Ok ().

(** The loop pushes until the vector has [size + 1] entries and counts
    [LQEntries] up with it. *)
Definition resizeLQ (size : Z) (u : LSQUnit) : outcome LSQUnit :=
  let n := wrap 32 (size + 1) in
  assert! LQEntries u <=? n as "size_plus_sentinel >= LQEntries" in
  let grow := (Z.to_nat n - length (loadQueue u))%nat in
  let u :=
    if LQEntries u <? n
    then set_loadQueue (loadQueue u ++ replicate grow None)
           (set_LQEntries (LQEntries u + Z.of_nat grow) u)
    else set_LQEntries n u in
  assert! LQEntries u <=? 256 as "resizeLQ: LQEntries <= 256" in
  Ok u.

Definition resizeSQ (size : Z) (u : LSQUnit) : outcome LSQUnit :=
  let n := wrap 32 (size + 1) in
  let grow := (Z.to_nat n - length (storeQueue u))%nat in
  let u :=
    if SQEntries u <? n
    then set_storeQueue (storeQueue u ++ replicate grow (newSQEntry None))
           (set_SQEntries (SQEntries u + Z.of_nat grow) u)
    else set_SQEntries n u in
  assert! SQEntries u <=? 256 as "resizeSQ: SQEntries <= 256" in
  Ok u.

Definition incrIdx (entries i : Z) : Z := if entries <=? i + 1 then 0 else i + 1.
Definition decrIdx (entries i : Z) : Z := if i - 1 <? 0 then i - 1 + entries else i - 1.
Definition incrLdIdx (u : LSQUnit) : Z → Z := incrIdx (LQEntries u).
Definition decrLdIdx (u : LSQUnit) : Z → Z := decrIdx (LQEntries u).
Definition incrStIdx (u : LSQUnit) : Z → Z := incrIdx (SQEntries u).
Definition decrStIdx (u : LSQUnit) : Z → Z := decrIdx (SQEntries u).

Definition numFreeLoadEntries (u : LSQUnit) : Z := wrap 32 (LQEntries u - loads u - 1).
Definition numFreeStoreEntries (u : LSQUnit) : Z := wrap 32 (SQEntries u - stores u - 1).
Definition lqFull (u : LSQUnit) : bool := wrap 32 (LQEntries u - 1) <=? wrap 32 (loads u).
Definition sqFull (u : LSQUnit) : bool := wrap 32 (SQEntries u - 1) <=? wrap 32 (stores u).
Definition lqEmpty (u : LSQUnit) : bool := loads u =? 0.
Definition sqEmpty (u : LSQUnit) : bool := stores u =? 0.
Definition lsq_isFull (u : LSQUnit) : bool := lqFull u || sqFull u.
Definition lsq_isEmpty (u : LSQUnit) : bool := lqEmpty u && sqEmpty u.
Definition lsq_getCount (u : LSQUnit) : Z := wrap 32 (loads u + stores u).
Definition hasStoresToWB (u : LSQUnit) : bool := negb (storesToWB u =? 0).
Definition willWB (u : LSQUnit) : outcome bool :=
  let! e := vec_get "storeQueue" (storeQueue u) (storeWBIdx u) in
  Ok (sq_canWB e && negb (sq_completed e) && negb (isStoreBlocked u)).
Definition lsq_tick : LSQUnit → LSQUnit := set_usedStorePorts 0.
Definition getMemDepViolator (u : LSQUnit) : option DynInstPtr * LSQUnit :=
  (memDepViolator u, set_memDepViolator None u).

(** [loadQueue[idx]->...] *)
Definition loadAt (idx : Z) (u : LSQUnit) (s : store) : outcome (DynInstPtr * DynInst) :=
  let! o := vec_get "loadQueue" (loadQueue u) idx in
  match o with
  | Some p => let! i := deref p s in Ok (p, i)
  | None => Err (NullDeref "loadQueue[idx]")
  end.
(** [storeQueue[idx]] and [storeQueue[idx].inst->...] *)
Definition entryAt (idx : Z) (u : LSQUnit) : outcome SQEntry :=
  vec_get "storeQueue" (storeQueue u) idx.
Definition storeAt (idx : Z) (u : LSQUnit) (s : store)
  : outcome (SQEntry * DynInstPtr * DynInst) :=
  let! e := entryAt idx u in
  match sq_inst e with
  | Some p => let! i := deref p s in Ok (e, p, i)
  | None => Err (NullDeref "storeQueue[idx].inst")
  end.
Definition setEntry (idx : Z) (f : SQEntry → SQEntry) (u : LSQUnit) : outcome LSQUnit :=
  let! e := entryAt idx u in
  let! v := vec_set "storeQueue" (storeQueue u) idx (f e) in
  Ok (set_storeQueue v u).

(** ** Insertion *)

Definition lsq_insertLoad (p : DynInstPtr) (u : LSQUnit) (s : store)
  : outcome (LSQUnit * store) :=
  assert! negb ((loadTail u + 1) mod LQEntries u =? loadHead u)
    as "(loadTail + 1) % LQEntries != loadHead" in
  assert! wrap 32 (loads u) <? LQEntries u as "loads < LQEntries" in
  let! s := modify (λ i, set_sqIdx (if stores u =? 0 then -1 else storeTail u)
                           (set_lqIdx (loadTail u) i)) p s in
  let! v := vec_set "loadQueue" (loadQueue u) (loadTail u) (Some p) in
  Ok (set_loads (loads u + 1) (set_loadTail (incrLdIdx u (loadTail u)) (set_loadQueue v u)), s).

Definition lsq_insertStore (p : DynInstPtr) (u : LSQUnit) (s : store)
  : outcome (LSQUnit * store) :=
  assert! negb ((storeTail u + 1) mod SQEntries u =? storeHead u)
    as "(storeTail + 1) % SQEntries != storeHead" in
  assert! wrap 32 (stores u) <? SQEntries u as "stores < SQEntries" in
  let! s := modify (λ i, set_lqIdx (loadTail u) (set_sqIdx (storeTail u) i)) p s in
  let! v := vec_set "storeQueue" (storeQueue u) (storeTail u) (newSQEntry (Some p)) in
  Ok (set_stores (stores u + 1)
        (set_storeTail (incrStIdx u (storeTail u)) (set_storeQueue v u)), s).

Definition lsq_insert (p : DynInstPtr) (u : LSQUnit) (s : store)
  : outcome (LSQUnit * store) :=
  let! i := deref p s in
  assert! isMemRef i as "insert: inst->isMemRef()" in
  let! (u, s) := if isLoad i then lsq_insertLoad p u s else lsq_insertStore p u s in
  let! s := modify setInLSQ p s in
  Ok (u, s).

(** ** Snoops

    [handleLockedSnoop] and [handleLockedSnoopHit] do nothing on X86
    ([arch/generic/locked_mem.hh]). *)

(** The loop of [checkSnoop] over the loads behind the head. *)
Fixpoint snoopFrom (fuel : nat) (invalidate_addr : Addr) (force_squash : bool)
    (load_idx : Z) (u : LSQUnit) (s : store) : outcome store :=
  if load_idx =? loadTail u then Ok s else
  match fuel with
  | O => Err (NoFuel "checkSnoop")
  | S fuel' =>
      let! (p, i) := loadAt load_idx u s in
      let next := incrLdIdx u load_idx in
      if negb (effAddrValid i) || strictlyOrdered i || isDolmaStalled i
      then snoopFrom fuel' invalidate_addr force_squash next u s
      else
        let load_addr_low := Z.land (physEffAddrLow i) (cacheBlockMask u) in
        let load_addr_high := Z.land (physEffAddrHigh i) (cacheBlockMask u) in
        if (load_addr_low =? invalidate_addr) || (load_addr_high =? invalidate_addr)
           || force_squash
        then
          let force_squash := force_squash || needsTSO u in
          let i' := if possibleLoadViolation i || force_squash
                    then set_fault (Some ReExec) i
                    else flag_assign HitExternalSnoop true i in
          snoopFrom fuel' invalidate_addr force_squash next u (<[p := i']> s)
        else snoopFrom fuel' invalidate_addr force_squash next u s
  end.

(** [addr] is the address of an invalidation. *)
Definition checkSnoop (addr : Addr) (u : LSQUnit) (s : store) : outcome store :=
  if loadHead u =? loadTail u then Ok s
  else snoopFrom (Z.to_nat (LQEntries u)) (Z.land addr (cacheBlockMask u)) false
         (incrLdIdx u (loadHead u)) u s.

(** ** Memory ordering violations *)

(** The blocks of [2^depCheckShift] bytes an access touches. *)
Definition blockLow (u : LSQUnit) (i : DynInst) : Z :=
  Z.shiftr (effAddr i) (depCheckShift u).
Definition blockHigh (u : LSQUnit) (i : DynInst) : Z :=
  Z.shiftr (u64 (effAddr i + effSize i - 1)) (depCheckShift u).

(** The body of the loop for the load [ld]: [Some] is a detected violation. *)
Definition checkLoad (cfg : DolmaConfig) (p ld : DynInstPtr) (u : LSQUnit) (s : store)
  : outcome (bool * option Fault * LSQUnit * store) :=
  let! inst := deref p s in
  let! ld_inst := deref ld s in
  let! viol := match memDepViolator u with
               | None => Ok None
               | Some v => let! vi := deref v s in Ok (Some (seqNum vi))
               end in
  if (blockLow u ld_inst <=? blockHigh u inst) && (blockLow u inst <=? blockHigh u ld_inst)
  then
    if isLoad inst then
      if hitExternalSnoop ld_inst
         && (match viol with None => true | Some n => seqNum ld_inst <? n end)
      then Ok (true, Some M5PanicFault, set_memDepViolator (Some ld) u, s)
      else Ok (false, None, u, <[ld := flag_assign PossibleLoadViolation true ld_inst]> s)
    else
      if match viol with None => false | Some n => n <? seqNum ld_inst end
      then Ok (true, None, u, s)
      else
        let! s :=
          if isDolma cfg && negb (isDolmaConservative cfg) && negb (isSTT cfg)
          then modify (set_violatorSeqNum (seqNum ld_inst)) p s else Ok s in
        Ok (true, Some M5PanicFault, set_memDepViolator (Some ld) u, s)
  else Ok (false, None, u, s).

(** The first component of [checkLoad] ends the loop ([return] or [break]). *)
Fixpoint checkViolationsFrom (cfg : DolmaConfig) (fuel : nat) (load_idx : Z)
    (p : DynInstPtr) (u : LSQUnit) (s : store) : outcome (option Fault * LSQUnit * store) :=
  if load_idx =? loadTail u then Ok (None, u, s) else
  match fuel with
  | O => Err (NoFuel "checkViolations")
  | S fuel' =>
      let! (ld, i) := loadAt load_idx u s in
      let next := incrLdIdx u load_idx in
      if negb (effAddrValid i) || strictlyOrdered i || isDolmaStalled i
      then checkViolationsFrom cfg fuel' next p u s
      else
        let! (stop, f, u, s) := checkLoad cfg p ld u s in
        if stop then Ok (f, u, s) else checkViolationsFrom cfg fuel' next p u s
  end.

Definition checkViolations (cfg : DolmaConfig) (load_idx : Z) (p : DynInstPtr)
    (u : LSQUnit) (s : store) : outcome (option Fault * LSQUnit * store) :=
  checkViolationsFrom cfg (Z.to_nat (LQEntries u)) load_idx p u s.

(** ** Commit *)

Definition commitLoad (u : LSQUnit) : outcome LSQUnit :=
  let! o := vec_get "loadQueue" (loadQueue u) (loadHead u) in
  assert! bool_decide (is_Some o) as "commitLoad: loadQueue[loadHead]" in
  let! v := vec_set "loadQueue" (loadQueue u) (loadHead u) None in
  Ok (set_loads (loads u - 1) (set_loadHead (incrLdIdx u (loadHead u)) (set_loadQueue v u))).

Fixpoint commitLoadsUpto (fuel : nat) (youngest_inst : InstSeqNum) (u : LSQUnit) (s : store)
  : outcome LSQUnit :=
  if loads u =? 0 then Ok u else
  match fuel with
  | O => Err (NoFuel "commitLoads")
  | S fuel' =>
      let! (_, i) := loadAt (loadHead u) u s in
      if seqNum i <=? youngest_inst then
        let! u := commitLoad u in commitLoadsUpto fuel' youngest_inst u s
      else Ok u
  end.

Definition commitLoads (youngest_inst : InstSeqNum) (u : LSQUnit) (s : store)
  : outcome LSQUnit :=
  let! o := vec_get "loadQueue" (loadQueue u) (loadHead u) in
  assert! (loads u =? 0) || bool_decide (is_Some o)
    as "commitLoads: loads == 0 || loadQueue[loadHead]" in
  commitLoadsUpto (Z.to_nat (loads u)) youngest_inst u s.

Fixpoint commitStoresFrom (fuel : nat) (youngest_inst : InstSeqNum) (store_idx : Z)
    (u : LSQUnit) (s : store) : outcome LSQUnit :=
  if store_idx =? storeTail u then Ok u else
  match fuel with
  | O => Err (NoFuel "commitStores")
  | S fuel' =>
      let! (e, _, i) := storeAt store_idx u s in
      let next := incrStIdx u store_idx in
      if sq_canWB e then commitStoresFrom fuel' youngest_inst next u s
      else if youngest_inst <? seqNum i then Ok u
      else
        let! u := setEntry store_idx (set_sq_canWB true) u in
        commitStoresFrom fuel' youngest_inst next (set_storesToWB (storesToWB u + 1) u) s
  end.

Definition commitStores (youngest_inst : InstSeqNum) (u : LSQUnit) (s : store)
  : outcome LSQUnit :=
  let! e := entryAt (storeHead u) u in
  assert! (stores u =? 0) || bool_decide (is_Some (sq_inst e))
    as "commitStores: stores == 0 || storeQueue[storeHead].inst" in
  commitStoresFrom (Z.to_nat (SQEntries u)) youngest_inst (storeHead u) u s.

(** ** Squash *)

Definition clearStall (u : LSQUnit) : LSQUnit := set_stallingStoreIsn 0 (set_stalled false u).

(** Removes the load at [load_idx], which becomes the tail. *)
Definition squashLoadAt (load_idx : Z) (p : DynInstPtr) (i : DynInst) (u : LSQUnit)
    (s : store) : outcome (LSQUnit * store) :=
  let u := if stalled u && (load_idx =? stallingLoadIdx u)
           then set_stallingLoadIdx 0 (clearStall u) else u in
  let! v := vec_set "loadQueue" (loadQueue u) load_idx None in
  Ok (set_loadTail load_idx (set_loads (loads u - 1) (set_loadQueue v u)),
      <[p := setSquashed i]> s).

Fixpoint squashLoads (fuel : nat) (num : InstSeqNum) (load_idx : Z)
    (u : LSQUnit) (s : store) : outcome (LSQUnit * store) :=
  if loads u =? 0 then Ok (u, s) else
  match fuel with
  | O => Err (NoFuel "squash: loads")
  | S fuel' =>
      let! (p, i) := loadAt load_idx u s in
      if num <? seqNum i then
        let! (u, s) := squashLoadAt load_idx p i u s in
        squashLoads fuel' num (decrLdIdx u load_idx) u s
      else Ok (u, s)
  end.

(** What a squashed store leaves in its entry. *)
Definition clearEntry (e : SQEntry) : SQEntry :=
  let e := set_sq_req None (set_sq_canWB false (set_sq_inst None e)) in
  if sq_isSplit e then set_sq_sreqHigh None (set_sq_sreqLow None e) else e.

Definition squashStoreAt (store_idx : Z) (p : DynInstPtr) (i : DynInst) (u : LSQUnit)
    (s : store) : outcome (LSQUnit * store) :=
  if stalled u && (seqNum i =? stallingStoreIsn u)
  then Err (PanicCall "Is stalled should have been cleared by stalling load!")
  else
    let! u := setEntry store_idx clearEntry u in
    Ok (set_storeTail store_idx (set_stores (stores u - 1) u), <[p := setSquashed i]> s).

Fixpoint squashStores (fuel : nat) (num : InstSeqNum) (store_idx : Z)
    (u : LSQUnit) (s : store) : outcome (LSQUnit * store) :=
  if stores u =? 0 then Ok (u, s) else
  match fuel with
  | O => Err (NoFuel "squash: stores")
  | S fuel' =>
      let! (e, p, i) := storeAt store_idx u s in
      if (num <? seqNum i) && negb (sq_canWB e) then
        let! (u, s) := squashStoreAt store_idx p i u s in
        squashStores fuel' num (decrStIdx u store_idx) u s
      else Ok (u, s)
  end.

Definition dropViolator (num : InstSeqNum) (u : LSQUnit) (s : store) : outcome LSQUnit :=
  match memDepViolator u with
  | None => Ok u
  | Some v => let! vi := deref v s in
              Ok (if num <? seqNum vi then set_memDepViolator None u else u)
  end.

Definition lsq_squash (squashed_num : InstSeqNum) (u : LSQUnit) (s : store)
  : outcome (LSQUnit * store) :=
  let! (u, s) := squashLoads (Z.to_nat (loads u)) squashed_num
                   (decrLdIdx u (loadTail u)) u s in
  let! u := dropViolator squashed_num u s in
  squashStores (Z.to_nat (stores u)) squashed_num (decrStIdx u (storeTail u)) u s.

(** ** The store data *)

Definition overwrite (bytes : list Z) (old : list Z) : list Z :=
  bytes ++ drop (length bytes) old.

(** [new uint8_t[size]] when there is no buffer yet; the bytes of a fresh array
    are unspecified, the model has zeros. *)
Definition allocate (size : Z) (o : option (list Z)) : list Z :=
  default (replicate (Z.to_nat size) 0) o.

Definition slice (off size : Z) (l : list Z) : list Z :=
  take (Z.to_nat size) (drop (Z.to_nat off) l).

(** The entry of a store after [write]; [isSplit] is only ever set. *)
Definition writtenEntry (req : Request) (sreqLow sreqHigh : option Request)
    (data : list Z) (e : SQEntry) : SQEntry :=
  let size := req_size req in
  let e := set_sq_sreqHigh sreqHigh (set_sq_sreqLow sreqLow (set_sq_req (Some req) e)) in
  let e := set_sq_isAllZeros (flags_isSet (req_flags req) ReqFlag.STORE_NO_DATA)
             (set_sq_size (wrap 8 size) e) in
  let e := match sreqLow with Some _ => set_sq_isSplit true e | None => e end in
  if flags_isSet (req_flags req) ReqFlag.CACHE_BLOCK_ZERO || req_isCacheMaintenance req
  then e
  else set_sq_data (overwrite (take (Z.to_nat size) data) (sq_data e)) e.

Definition lsq_write (req : Request) (sreqLow sreqHigh : option Request)
    (data : list Z) (store_idx : Z) (u : LSQUnit) : outcome LSQUnit :=
  let! e := entryAt store_idx u in
  assert! bool_decide (is_Some (sq_inst e)) as "write: storeQueue[store_idx].inst" in
  assert! (req_size req <=? 16) || flags_isSet (req_flags req) ReqFlag.STORE_NO_DATA
    as "size <= sizeof(data) || store_no_data" in
  setEntry store_idx (writtenEntry req sreqLow sreqHigh data) u.

(** ** The search for a store to forward from *)

Inductive SQSearch : Type :=
  | NoHit                      (** the walk reached [storeWBIdx] *)
  | Forward (store_idx : Z)    (** all bytes found, answered at once *)
  | TotalHit (store_idx : Z)   (** all bytes found in a restricted store *)
  | PartialHit (store_idx : Z) (** some bytes found in a restricted store *)
  | Retry (store_idx : Z).     (** some bytes found: wait for the store *)

Record Overlap := mkOverlap {
  has_lower_limit : bool; (** [store_has_lower_limit] *)
  has_upper_limit : bool; (** [store_has_upper_limit] *)
  lower_has_part : bool;  (** [lower_load_has_store_part] *)
  upper_has_part : bool;  (** [upper_load_has_store_part] *)
}.

Definition overlapOf (req : Request) (i : DynInst) (e : SQEntry) : Overlap :=
  let lo := req_vaddr req in
  let hi := u64 (req_vaddr req + req_size req) in
  let slo := effAddr i in
  let shi := u64 (effAddr i + sq_size e) in
  mkOverlap (slo <=? lo) (hi <=? shi) (lo <? shi) (slo <? hi).

Definition isTotal (req : Request) (o : Overlap) : bool :=
  has_lower_limit o && has_upper_limit o && negb (req_isLLSC req).
Definition isPartial (req : Request) (o : Overlap) : bool :=
  (negb (req_isLLSC req) &&
   ((has_lower_limit o && lower_has_part o) || (has_upper_limit o && upper_has_part o)
    || (lower_has_part o && upper_has_part o)))
  || (req_isLLSC req &&
      ((has_lower_limit o || upper_has_part o) && (has_upper_limit o || lower_has_part o))).

(** The bytes a store hands to the load. *)
Definition forwardedBytes (req : Request) (i : DynInst) (e : SQEntry) : list Z :=
  if sq_isAllZeros e then replicate (Z.to_nat (req_size req)) 0
  else slice (u64 (req_vaddr req - effAddr i)) (req_size req) (sq_data e).

Definition setForwarded (req : Request) (i : DynInst) (e : SQEntry) (ld : DynInst) : DynInst :=
  set_memData (Some (overwrite (forwardedBytes req i e)
                       (allocate (req_size req) (memData ld)))) ld.

(** A store that cannot forward: not yet executed, strictly ordered or a cache
    maintenance operation. *)
Definition skipsStore (i : DynInst) (e : SQEntry) : bool :=
  (sq_size e =? 0) || strictlyOrdered i
  || match sq_req e with Some r => req_isCacheMaintenance r | None => false end.

Section search.
Variable cfg : DolmaConfig.

(** The loop of [read]; [was] is [wasPartialStoreBufferHit].  The load's
    status and data are updated on the way. *)
Fixpoint searchSQ (fuel : nat) (p : DynInstPtr) (req : Request) (was : bool)
    (store_idx : Z) (u : LSQUnit) (s : store) : outcome (SQSearch * store) :=
  if (store_idx =? -1) || (store_idx =? storeWBIdx u) then Ok (NoHit, s) else
  match fuel with
  | O => Err (NoFuel "read")
  | S fuel' =>
      let store_idx := decrStIdx u store_idx in
      let! (e, _, i) := storeAt store_idx u s in
      let! ld := deref p s in
      if skipsStore i e then
        let! s :=
          if isDolma cfg && negb (isDolmaConservative cfg) && negb (isSTT cfg)
             && ((sq_size e =? 0) || strictlyOrdered i)
          then
            assert! negb (effAddrValid i) as "!storeQueue[store_idx].inst->effAddrValid()" in
            modifyM (setDataInducer cfg) p s
          else Ok s in
        searchSQ fuel' p req was store_idx u s
      else
        assert! effAddrValid i as "storeQueue[store_idx].inst->effAddrValid()" in
        let o := overlapOf req i e in
        if isTotal req o then
          let ld := setForwarded req i e ld in
          if isDolma cfg && isDolmaRestricted i && negb (isDolmaRestricted ld)
          then Ok (TotalHit store_idx, <[p := setTotalStoreBufferHit ld]> s)
          else Ok (Forward store_idx, <[p := ld]> s)
        else if isPartial req o then
          if sq_completed e then Err (PanicCall "Should not check one of these")
          else if isDolma cfg && negb (isSTT cfg) && isDolmaRestricted i
                  && negb (isDolmaRestricted ld) && negb was
          then Ok (PartialHit store_idx, <[p := setPartialStoreBufferHit ld]> s)
          else Ok (Retry store_idx, s)
        else searchSQ fuel' p req was store_idx u s
  end.
End search.

(** ** The world of the unit

    [StorePort] is the data cache port for writes (its answer and new state)
    and the memory-mapped registers ([handleIprRead] answers with a delay, the
    bytes and the new state). *)
Class StorePort (M : Type) := {
  dcache_sendWrite : Request → list Z → M → bool * M;
  handleIprRead : Request → M → Z * list Z * M;
  handleIprWrite : Request → list Z → M → M;
}.

Inductive LsqCall : Type :=
  | ScheduleWriteback (p : DynInstPtr) (pkt : Packet) (delay : Z)
  | InstToCommit (p : DynInstPtr)
  | CheckMisprediction (p : DynInstPtr)
  | ForwardOldRegs (p : DynInstPtr)
  | UpdateLSQNextCycle.

Record World (M : Type) := mkWorld {
  w_lsq : LSQUnit;
  w_iq : InstQueue;
  w_insts : store;
  w_mem : M;
  w_senders : gmap Z LSQSenderState;
  w_next : Z; (** the next packet or sender state to allocate *)
  w_calls : list LsqCall; (** calls to the issue stage, oldest first *)
}.
Arguments mkWorld {M}.
Arguments w_lsq {M}. Arguments w_iq {M}. Arguments w_insts {M}. Arguments w_mem {M}.
Arguments w_senders {M}. Arguments w_next {M}. Arguments w_calls {M}.

Section worlds.
Context {M : Type}.
Definition w_set_lsq (u : LSQUnit) (w : World M) : World M :=
  mkWorld u (w_iq w) (w_insts w) (w_mem w) (w_senders w) (w_next w) (w_calls w).
Definition w_set_iq (q : InstQueue) (w : World M) : World M :=
  mkWorld (w_lsq w) q (w_insts w) (w_mem w) (w_senders w) (w_next w) (w_calls w).
Definition w_set_insts (s : store) (w : World M) : World M :=
  mkWorld (w_lsq w) (w_iq w) s (w_mem w) (w_senders w) (w_next w) (w_calls w).
Definition w_set_mem (m : M) (w : World M) : World M :=
  mkWorld (w_lsq w) (w_iq w) (w_insts w) m (w_senders w) (w_next w) (w_calls w).
Definition w_set_senders (x : gmap Z LSQSenderState) (w : World M) : World M :=
  mkWorld (w_lsq w) (w_iq w) (w_insts w) (w_mem w) x (w_next w) (w_calls w).
Definition w_call (c : LsqCall) (w : World M) : World M :=
  mkWorld (w_lsq w) (w_iq w) (w_insts w) (w_mem w) (w_senders w) (w_next w)
    (w_calls w ++ [c]).
Definition w_fresh (w : World M) : Z * World M :=
  (w_next w, mkWorld (w_lsq w) (w_iq w) (w_insts w) (w_mem w) (w_senders w)
               (w_next w + 1) (w_calls w)).
Definition w_put (k : Z) (x : LSQSenderState) (w : World M) : World M :=
  w_set_senders (<[k := x]> (w_senders w)) w.
Definition w_delete (k : Z) (w : World M) : World M := w_set_senders (delete k (w_senders w)) w.
Definition w_modify (f : DynInst → DynInst) (p : DynInstPtr) (w : World M) : outcome (World M) :=
  let! s := modify f p (w_insts w) in Ok (w_set_insts s w).

Definition w_reschedule (p : DynInstPtr) (w : World M) : outcome (World M) :=
  let! (q, s) := rescheduleMemInst p (w_iq w) (w_insts w) in
  Ok (w_set_insts s (w_set_iq q w)).
Definition w_block (p : DynInstPtr) (w : World M) : outcome (World M) :=
  let! (q, s) := blockMemInst p (w_iq w) (w_insts w) in
  Ok (w_set_insts s (w_set_iq q w)).
Definition w_replay (p : DynInstPtr) (w : World M) : outcome (World M) :=
  let! q := replayMemInst p (w_iq w) (w_insts w) in
  Ok (w_set_iq q w).

Definition setStall (load_idx : Z) (isn : InstSeqNum) (u : LSQUnit) : LSQUnit :=
  set_stallingLoadIdx load_idx (set_stallingStoreIsn isn (set_stalled true u)).

(** The load at [load_idx] has to wait for the store at [store_idx], so long as
    it is the oldest load that needs to do so; it is rescheduled. *)
Definition stallLoad (p : DynInstPtr) (load_idx store_idx : Z) (w : World M) : outcome (World M) :=
  let u := w_lsq w in
  let! ld := deref p (w_insts w) in
  let! older :=
    if stalled u then
      let! (_, x) := loadAt (stallingLoadIdx u) u (w_insts w) in
      Ok (seqNum ld <? seqNum x)
    else Ok true in
  let! (_, _, i) := storeAt store_idx u (w_insts w) in
  let w := if older
           then w_set_lsq (setStall load_idx (seqNum i) u) w
           else w in
  let! w := w_reschedule p w in
  w_modify clearIssued p w.
End worlds.

(** ** Loads *)

Section loads.
Context {M : Type} `{MemSystem M} `{StorePort M}.
Variable cfg : DolmaConfig.

(** The request is only sent to hide a hit on a restricted store. *)
Definition isDummy (was : bool) (ld : DynInst) : bool :=
  isTotalStoreBufferHit ld || (isPartialStoreBufferHit ld && negb was).

(** The buffer the answer goes to. *)
Definition prepareBuffer (req : Request) (was : bool) (ld : DynInst) : DynInst :=
  if isDummy was ld
  then set_delayedFwdData (Some (allocate (req_size req) (delayedFwdData ld))) ld
  else set_memData (Some (allocate (req_size req) (memData ld))) ld.

(** Keeps copies of the requests of a restricted load for the metadata update. *)
Definition saveRequests (req : Request) (sreqLow sreqHigh : option Request) (ld : DynInst)
  : DynInst :=
  if isDolmaRestricted ld then
    let ld := set_dolmaPhysicalReq (Some req) ld in
    match sreqLow with
    | Some _ => set_dolmaPhysicalSreqHigh sreqHigh (set_dolmaPhysicalSreqLow sreqLow ld)
    | None => ld
    end
  else ld.

(** The requests sent: the main one, or the halves of a split access. *)
Definition sentRequests (req : Request) (sreqLow sreqHigh : option Request)
  : outcome (Request * option Request) :=
  match sreqLow with
  | None => Ok (req, None)
  | Some lo =>
      match sreqHigh with
      | Some hi => Ok (lo, Some hi)
      | None => Err (NullDeref "sreqHigh")
      end
  end.

Record SendResult := mkSendResult {
  successful_load : bool;
  dolma_restricted_miss : bool;
  completedFirst : bool;
}.

(** [sendTimingReq] of the first packet and, once that is accepted, of the
    second.  A restricted request that comes back unrestricted was a miss. *)
Definition sendLoad (fst : Request) (snd : option Request) (m : M) : SendResult * M :=
  let '(ok, r, m) := dcache_sendTimingReq fst m in
  if ok then
    match snd with
    | None => (mkSendResult true false false, m)
    | Some hi =>
        let '(ok, r, m) := dcache_sendTimingReq hi m in
        if ok then (mkSendResult true false true, m)
        else (mkSendResult false (req_isRestricted hi && negb (req_isRestricted r)) true, m)
    end
  else (mkSendResult false (req_isRestricted fst && negb (req_isRestricted r)) false, m).

(** What remains of the access when a packet was refused. *)
Definition abandonLoad (ld : DynInst) : DynInst :=
  let ld := set_dolmaPhysicalReq None (clearDataInducer ld) in
  match dolmaPhysicalSreqLow ld with
  | Some _ => set_dolmaPhysicalSreqHigh None (set_dolmaPhysicalSreqLow None ld)
  | None => ld
  end.

(** A packet was refused: a restricted load that missed is stalled until it is
    safe, any other load waits for the cache to unblock. *)
Definition loadRefused (p : DynInstPtr) (was miss : bool) (w : World M) : outcome (World M) :=
  let! w := w_modify abandonLoad p w in
  let! ld := deref p (w_insts w) in
  if miss then
    assert! negb (isTotalStoreBufferHit ld) as "!load_inst->isTotalStoreBufferHit()" in
    let! s := modifyM (setDolmaStalled cfg) p (w_insts w) in
    Ok (w_set_insts s w)
  else
    let! w := w_modify (λ ld,
      let ld := clearTotalStoreBufferHit ld in
      if isPartialStoreBufferHit ld && negb was then clearPartialStoreBufferHit ld else ld) p w in
    w_block p w.

(** A packet for the load's own buffer, delivered by a [WritebackEvent]. *)
Definition scheduleWriteback (p : DynInstPtr) (req : Request) (delay : Z) (w : World M)
  : World M :=
  let (k, w) := w_fresh w in
  w_call (ScheduleWriteback p (mkPacket k req (ToMemData 0) None) delay) w.

(** The part of [read] that accesses memory; [hit] is the store the walk
    stopped at. *)
Definition accessMemory (p : DynInstPtr) (load_idx : Z) (req : Request)
    (sreqLow sreqHigh : option Request) (was : bool) (hit : Z) (w : World M)
  : outcome (World M) :=
  let! w := w_modify (prepareBuffer req was) p w in
  let! ld := deref p (w_insts w) in
  let dummy := isDummy was ld in
  let (k, w) := w_fresh w in
  let (id, w) := w_fresh w in
  let buf := if dummy then ToDelayedFwdData 0 else ToMemData 0 in
  let data_pkt := mkPacket id req buf (Some k) in
  let x := newSenderState true dummy load_idx p in
  let! (fst, snd) := sentRequests req sreqLow sreqHigh in
  let x := match snd with None => x | Some _ => ss_split (Some data_pkt) x end in
  let! w := w_modify (saveRequests req sreqLow sreqHigh) p w in
  let (res, m) := sendLoad fst snd (w_mem w) in
  let w := w_set_mem m w in
  if successful_load res then
    let w := w_put k x w in
    let! ld := deref p (w_insts w) in
    if isTotalStoreBufferHit ld then Ok (scheduleWriteback p req 0 w)
    else if isPartialStoreBufferHit ld && negb was then stallLoad p load_idx hit w
    else Ok w
  else
    let w := if completedFirst res
             then w_put k (ss_setCacheBlocked (ss_complete x).2) w else w in
    loadRefused p was (dolma_restricted_miss res) w.

(** Reads of memory-mapped registers. *)
Definition readIpr (p : DynInstPtr) (req : Request) (sreqLow sreqHigh : option Request)
    (w : World M) : outcome (World M) :=
  let! ld := deref p (w_insts w) in
  assert! bool_decide (memData ld = None) as "read: !load_inst->memData" in
  let! (fst, snd) := sentRequests req sreqLow sreqHigh in
  let! (delay, bytes, m) :=
    match snd with
    | None => Ok (handleIprRead req (w_mem w))
    | Some hi =>
        assert! req_isMmappedIpr fst && req_isMmappedIpr hi
          as "sreqLow->isMmappedIpr() && sreqHigh->isMmappedIpr()" in
        let '(delay, lob, m) := handleIprRead fst (w_mem w) in
        let '(delay2, hib, m) := handleIprRead hi m in
        Ok (if delay <? delay2 then delay2 else delay,
            take (Z.to_nat (req_size fst)) lob ++ hib, m)
    end in
  let! w := w_modify (set_memData (Some (overwrite bytes (replicate 64 0)))) p
              (w_set_mem m w) in
  Ok (scheduleWriteback p req delay w).

Definition lsq_read (req : Request) (sreqLow sreqHigh : option Request) (load_idx : Z)
    (w : World M) : outcome (option Fault * World M) :=
  let u := w_lsq w in
  let! (p, ld) := loadAt load_idx u (w_insts w) in
  assert! negb (isExecuted ld) as "!load_inst->isExecuted()" in
  if req_isStrictlyOrdered req && (negb (load_idx =? loadHead u) || negb (isAtCommit ld))
  then
    let! w := w_reschedule p w in
    Ok (Some M5PanicFault, w)
  else
    let! w :=
      if req_isLLSC req then
        assert! bool_decide (sreqLow = None) as "read: !sreqLow" in
        w_modify (flag_assign RecordResult true) p w
      else Ok w in
    if req_isMmappedIpr req then
      let! w := readIpr p req sreqLow sreqHigh w in Ok (None, w)
    else
      let was := isPartialStoreBufferHit ld in
      let! (hit, s) := searchSQ cfg (Z.to_nat (SQEntries u)) p req was (sqIdx ld) u
                         (w_insts w) in
      let w := w_set_insts s w in
      let! w :=
        match hit with
        | Forward _ => Ok (scheduleWriteback p req 0 w)
        | Retry k => stallLoad p load_idx k w
        | TotalHit k | PartialHit k => accessMemory p load_idx req sreqLow sreqHigh was k w
        | NoHit => accessMemory p load_idx req sreqLow sreqHigh was (-1) w
        end in
      Ok (None, w).

(** ** Stores *)

(** [handleLockedWrite] of X86. *)
Definition handleLockedWrite : bool := true.

(** A store the stalled load waits for is done: the load is replayed. *)
Definition unstall (i : DynInst) (w : World M) : outcome (World M) :=
  let u := w_lsq w in
  if stalled u && (seqNum i =? stallingStoreIsn u) then
    let! o := vec_get "loadQueue" (loadQueue u) (stallingLoadIdx u) in
    match o with
    | Some ld => w_replay ld (w_set_lsq (clearStall u) w)
    | None => Err (NullDeref "loadQueue[stallingLoadIdx]")
    end
  else Ok w.

Definition storePostSend (w : World M) : outcome (World M) :=
  let! (e, p, i) := storeAt (storeWBIdx (w_lsq w)) (w_lsq w) (w_insts w) in
  let! w := unstall i w in
  let! w := if isStoreConditional i then Ok w else w_modify setCompleted p w in
  let u := w_lsq w in
  let u := if needsTSO u then set_storeInFlight true u else u in
  Ok (w_set_lsq (set_storeWBIdx (incrStIdx u (storeWBIdx u)) u) w).

(** The [do ... while] of [completeStore]. *)
Fixpoint popStores (fuel : nat) (u : LSQUnit) : outcome LSQUnit :=
  match fuel with
  | O => Err (NoFuel "completeStore")
  | S fuel' =>
      let u := set_stores (stores u - 1) (set_storeHead (incrStIdx u (storeHead u)) u) in
      let! e := entryAt (storeHead u) u in
      if sq_completed e && negb (storeHead u =? storeTail u) then popStores fuel' u
      else Ok u
  end.

(** The effect of [completeStore] on the queue; tells whether the head moved. *)
Definition retireStores (store_idx : Z) (u : LSQUnit) : outcome (bool * LSQUnit) :=
  let! u := setEntry store_idx (set_sq_completed true) u in
  let u := set_storesToWB (storesToWB u - 1) u in
  if store_idx =? storeHead u then
    let! u := popStores (Z.to_nat (SQEntries u)) u in Ok (true, u)
  else Ok (false, u).

Definition completeStore (store_idx : Z) (w : World M) : outcome (World M) :=
  let! (e, p, i) := storeAt store_idx (w_lsq w) (w_insts w) in
  let! (moved, u) := retireStores store_idx (w_lsq w) in
  let w := w_set_lsq u w in
  let w := if moved then w_call UpdateLSQNextCycle w else w in
  let! w := unstall i w in
  let! w := w_modify setCompleted p w in
  let u := w_lsq w in
  Ok (w_set_lsq (if needsTSO u then set_storeInFlight false u else u) w).

Definition writeBytes (pkt : Packet) : list Z :=
  match pkt_data pkt with WriteData l => l | _ => [] end.

Definition sendStore (pkt : Packet) (w : World M) : outcome (bool * World M) :=
  let (ok, m) := dcache_sendWrite (pkt_req pkt) (writeBytes pkt) (w_mem w) in
  let w := w_set_mem m w in
  if ok then Ok (true, w)
  else
    let u := set_isStoreBlocked true (w_lsq w) in
    assert! (match retryPkt u with None => true | Some _ => false end) as "retryPkt == NULL" in
    Ok (false, w_set_lsq (set_retryPkt (Some pkt) u) w).

Definition writebackPendingStore (w : World M) : outcome (World M) :=
  if hasPendingPkt (w_lsq w) then
    match pendingPkt (w_lsq w) with
    | None => Err (Assertion "pendingPkt != NULL")
    | Some pkt =>
        let! (ok, w) := sendStore pkt w in
        let! w := if ok then storePostSend w else Ok w in
        Ok (w_set_lsq (set_hasPendingPkt false (set_pendingPkt None (w_lsq w))) w)
    end
  else Ok w.

Definition advanceWB (w : World M) : World M :=
  let u := w_lsq w in w_set_lsq (set_storeWBIdx (incrStIdx u (storeWBIdx u)) u) w.

Definition w_setEntry (idx : Z) (f : SQEntry → SQEntry) (w : World M) : outcome (World M) :=
  let! u := setEntry idx f (w_lsq w) in Ok (w_set_lsq u w).

(** The end of an iteration of [writebackStores]: the packets of the store
    are sent; [snd] is the second half of a split store. *)
Definition sendPackets (k : Z) (pkt : Packet) (snd : option Packet) (w : World M)
  : outcome (World M) :=
  let! (ok, w) := sendStore pkt w in
  match ok, snd with
  | false, None => Ok w
  | false, Some pkt2 =>
      match w_senders w !! k with
      | Some x => Ok (w_put k (ss_setPending true (Some pkt2) x) w)
      | None => Err (NullDeref "state")
      end
  | true, None => storePostSend w
  | true, Some pkt2 =>
      let u := w_lsq w in
      if usedStorePorts u <? cacheStorePorts u then
        let w := w_set_lsq (set_usedStorePorts (usedStorePorts u + 1) u) w in
        let! (ok, w) := sendStore pkt2 w in
        if ok then storePostSend w else Ok w
      else
        assert! (match pendingPkt u with None => true | Some _ => false end)
          as "pendingPkt == NULL" in
        Ok (w_set_lsq (set_hasPendingPkt true (set_pendingPkt (Some pkt2) u)) w)
  end.

(** [handleIprWrite] of one or two packets. *)
Definition writeIpr (k : Z) (pkt : Packet) (snd : option Packet) (w : World M)
  : outcome (World M) :=
  let m := handleIprWrite (pkt_req pkt) (writeBytes pkt) (w_mem w) in
  let! m := match snd with
            | None => Ok m
            | Some pkt2 =>
                assert! req_isMmappedIpr (pkt_req pkt2) as "snd_data_pkt->req->isMmappedIpr()" in
                Ok (handleIprWrite (pkt_req pkt2) (writeBytes pkt2) m)
            end in
  let! w := completeStore (storeWBIdx (w_lsq w)) (w_delete k (w_set_mem m w)) in
  Ok (advanceWB w).

(** The packets of the store at [storeWBIdx]: the sender state's key, the
    first packet and the second one of a split store. *)
Definition buildPackets (e : SQEntry) (p : DynInstPtr) (req : Request) (bytes : list Z)
    (w : World M) : outcome (Z * Packet * option Packet * World M) :=
  let idx := storeWBIdx (w_lsq w) in
  let (k, w) := w_fresh w in
  let (id1, w) := w_fresh w in
  let x := newSenderState false false idx p in
  if sq_isSplit e then
    match sq_sreqLow e, sq_sreqHigh e with
    | Some lo, Some hi =>
        let (id2, w) := w_fresh w in
        let n := Z.to_nat (req_size lo) in
        let! w := w_setEntry idx (set_sq_req (Some lo)) w in
        Ok (k, mkPacket id1 lo (WriteData (take n bytes)) (Some k),
            Some (mkPacket id2 hi (WriteData (drop n bytes)) (Some k)),
            w_put k (ss_split None x) w)
    | _, _ => Err (Assertion "storeQueue[storeWBIdx].sreqLow && sreqHigh")
    end
  else Ok (k, mkPacket id1 req (WriteData bytes) (Some k), None, w_put k x w).

Definition ss_setNoWB (x : LSQSenderState) : LSQSenderState :=
  mkLSQSenderState (ss_inst x) (ss_mainPkt x) (ss_pendingPacket x) (ss_idx x)
    (ss_outstanding x) (ss_isLoad x) true (ss_isSplit x) (ss_pktToSend x) (ss_cacheBlocked x).

(** The iteration of [writebackStores] for a store with data. *)
Definition writebackStore (e : SQEntry) (p : DynInstPtr) (i : DynInst) (w : World M)
  : outcome (World M) :=
  let idx := storeWBIdx (w_lsq w) in
  match sq_req e with
  | None => Err (Assertion "storeQueue[storeWBIdx].req")
  | Some req =>
      assert! negb (sq_committed e) as "!storeQueue[storeWBIdx].committed" in
      let! w := w_setEntry idx (set_sq_committed true) w in
      assert! bool_decide (memData i = None) as "writebackStores: !inst->memData" in
      let n := Z.to_nat (req_size req) in
      let bytes := if sq_isAllZeros e then replicate n 0 else take n (sq_data e) in
      let! w := w_modify (set_memData (Some bytes)) p w in
      let! (k, pkt, snd, w) := buildPackets e p req bytes w in
      let! w :=
        if isStoreConditional i then
          assert! negb (sq_isSplit e) as "!storeQueue[storeWBIdx].isSplit" in
          w_modify (flag_assign RecordResult true) p w
        else Ok (w_put k (ss_setNoWB (default (newSenderState false false idx p)
                                        (w_senders w !! k))) w) in
      if isStoreConditional i && negb handleLockedWrite then
        let! w := completeStore idx (w_call (ScheduleWriteback p pkt 1) w) in
        Ok (advanceWB w)
      else if req_isMmappedIpr (pkt_req pkt) then
        assert! negb (isStoreConditional i) as "!inst->isStoreConditional()" in
        writeIpr k pkt snd w
      else sendPackets k pkt snd w
  end.

Definition canWriteback (u : LSQUnit) : outcome bool :=
  if (0 <? storesToWB u) && negb (storeWBIdx u =? storeTail u) then
    let! e := entryAt (storeWBIdx u) u in
    Ok (bool_decide (is_Some (sq_inst e)) && sq_canWB e
        && (negb (needsTSO u) || negb (storeInFlight u))
        && (usedStorePorts u <? cacheStorePorts u))
  else Ok false.

Fixpoint writebackLoop (fuel : nat) (w : World M) : outcome (World M) :=
  let! go := canWriteback (w_lsq w) in
  if negb go || isStoreBlocked (w_lsq w) then Ok w else
  match fuel with
  | O => Err (NoFuel "writebackStores")
  | S fuel' =>
      let idx := storeWBIdx (w_lsq w) in
      let! (e, p, i) := storeAt idx (w_lsq w) (w_insts w) in
      let! w :=
        if sq_size e =? 0 then
          let! w := completeStore idx w in Ok (advanceWB w)
        else
          let u := w_lsq w in
          let w := w_set_lsq (set_usedStorePorts (usedStorePorts u + 1) u) w in
          if isDataPrefetch i then Ok (advanceWB w) else writebackStore e p i w in
      writebackLoop fuel' w
  end.

Definition writebackStores (w : World M) : outcome (World M) :=
  let! w := writebackPendingStore w in
  let! w := writebackLoop (S (Z.to_nat (SQEntries (w_lsq w)))) w in
  let u := set_usedStorePorts 0 (w_lsq w) in
  assert! (0 <=? stores u) && (0 <=? storesToWB u) as "stores >= 0 && storesToWB >= 0" in
  Ok (w_set_lsq u w).

Definition samePkt (a : option Packet) (b : Packet) : bool :=
  match a with Some a => pkt_id a =? pkt_id b | None => false end.

Definition recvRetry (w : World M) : outcome (World M) :=
  let u := w_lsq w in
  if isStoreBlocked u then
    match retryPkt u with
    | None => Err (Assertion "retryPkt != NULL")
    | Some pkt =>
        match pkt_senderState pkt ≫= λ k, x ← w_senders w !! k; Some (k, x) with
        | None => Err (NullDeref "retryPkt->senderState")
        | Some (k, x) =>
            let (ok, m) := dcache_sendWrite (pkt_req pkt) (writeBytes pkt) (w_mem w) in
            let w := w_set_mem m w in
            if ok then
              let last := negb (ss_pktToSend x) || samePkt (ss_pendingPacket x) pkt in
              let! w := if last
                        then storePostSend (w_put k (ss_setPending false (ss_pendingPacket x) x) w)
                        else Ok w in
              let w := w_set_lsq (set_isStoreBlocked false (set_retryPkt None (w_lsq w))) w in
              if last then Ok w
              else match ss_pendingPacket x with
                   | None => Err (Assertion "state->pendingPacket")
                   | Some pkt2 =>
                       let! (ok, w) := sendStore pkt2 w in
                       if ok then storePostSend w else Ok w
                   end
            else Ok w
        end
    end
  else Ok w.

(** ** Responses *)

(** [completeAcc] of the instruction set copies the data to its registers. *)
Variable completeAcc : Packet → DynInst → DynInst.

Definition lsq_writeback (p : DynInstPtr) (pkt : Packet) (w : World M) : outcome (World M) :=
  let! i := deref p (w_insts w) in
  if isSquashed i then
    assert! negb (isStore i) as "writeback: !inst->isStore()" in Ok w
  else
    let! w :=
      if isExecuted i then Ok w
      else
        match fault i with
        | None => w_modify (λ i, completeAcc pkt (setExecuted i)) p w
        | Some ReExec => w_modify setExecuted p w
        | Some _ => Err (Assertion "dynamic_cast<ReExec*>(inst->fault.get())")
        end in
    Ok (w_call (CheckMisprediction p) (w_call (InstToCommit p) w)).

Definition processWriteback (p : DynInstPtr) (pkt : Packet) (w : World M) : outcome (World M) :=
  let! w := lsq_writeback p pkt w in
  Ok (match pkt_senderState pkt with Some k => w_delete k w | None => w end).

Definition dropPhysicalReqs (i : DynInst) : DynInst :=
  set_dolmaPhysicalSreqHigh None (set_dolmaPhysicalSreqLow None (set_dolmaPhysicalReq None i)).

Definition completeDataAccess (pkt : Packet) (w : World M) : outcome (World M) :=
  match pkt_senderState pkt ≫= λ k, x ← w_senders w !! k; Some (k, x) with
  | None => Err (NullDeref "pkt->senderState")
  | Some (k, x) =>
      let p := ss_inst x in
      if ss_cacheBlocked x then Ok (w_delete k w) else
      let (done, x) := ss_complete x in
      if negb done then Ok (w_put k x w) else
      let! i := deref p (w_insts w) in
      if ss_noWB x && match dolmaPhysicalReq i with Some _ => true | None => false end then
        assert! ss_isLoad x as "state->isLoad" in
        let! w := w_modify dropPhysicalReqs p w in
        Ok (w_delete k w)
      else
        let! w :=
          if isSquashed i then Ok w
          else
            let! w :=
              if ss_noWB x then Ok w
              else
                assert! isLoad i || isStoreConditional i
                  as "inst->isLoad() || inst->isStoreConditional()" in
                match ss_isSplit x && ss_isLoad x, ss_mainPkt x with
                | false, _ => lsq_writeback p pkt w
                | true, Some main => lsq_writeback p main w
                | true, None => Err (NullDeref "state->mainPkt")
                end in
            if isStore i then completeStore (ss_idx x) w else Ok w in
        Ok (w_delete k w)
  end.

(** ** Execution

    [initiateAcc] of the instruction set computes the address, translates it
    and calls [read] or [write]. *)
Variable initiateAcc : DynInstPtr → World M → outcome (option Fault * World M).

Definition w_checkViolations (load_idx : Z) (p : DynInstPtr) (w : World M)
  : outcome (option Fault * World M) :=
  let! (f, u, s) := checkViolations cfg load_idx p (w_lsq w) (w_insts w) in
  Ok (f, w_set_insts s (w_set_lsq u w)).

Definition executeLoad (p : DynInstPtr) (w : World M) : outcome (option Fault * World M) :=
  let! i := deref p (w_insts w) in
  assert! negb (isDolmaStalled i) as "executeLoad: !inst->isDolmaStalled()" in
  assert! negb (isSTT cfg) || negb (isDolmaRestricted i)
    as "executeLoad: !inst->isDolmaRestricted()" in
  let! (load_fault, w) := initiateAcc p w in
  let! i := deref p (w_insts w) in
  if isDolmaStalled i then Ok (load_fault, w)
  else
    match load_fault, isTranslationDelayed i, readPredicate i with
    | None, true, _ => Ok (None, w)
    | None, false, true =>
        assert! effAddrValid i as "executeLoad: inst->effAddrValid()" in
        if checkLoads (w_lsq w)
        then w_checkViolations (incrLdIdx (w_lsq w) (lqIdx i)) p w
        else Ok (None, w)
    | _, _, _ =>
        let w := if readPredicate i then w else w_call (ForwardOldRegs p) w in
        let! w := if negb (hasRequest i && strictlyOrdered i) || isAtCommit i
                  then w_modify setExecuted p w else Ok w in
        Ok (load_fault, w_call (InstToCommit p) w)
    end.

Definition executeStore (p : DynInstPtr) (w : World M) : outcome (option Fault * World M) :=
  assert! negb (stores (w_lsq w) =? 0) as "stores != 0" in
  let! i0 := deref p (w_insts w) in
  assert! negb (isDolmaStalled i0) as "executeStore: !store_inst->isDolmaStalled()" in
  let! (store_fault, w) := initiateAcc p w in
  let! i := deref p (w_insts w) in
  if isDolmaStalled i then Ok (store_fault, w)
  else if isTranslationDelayed i && bool_decide (store_fault = None) then Ok (store_fault, w)
  else if negb (readPredicate i) then Ok (store_fault, w_call (ForwardOldRegs p) w)
  else
    let! e := entryAt (sqIdx i0) (w_lsq w) in
    if sq_size e =? 0 then Ok (store_fault, w)
    else
      assert! bool_decide (store_fault = None) as "store_fault == NoFault" in
      let! w :=
        if isStoreConditional i then
          let! w := w_setEntry (sqIdx i0) (set_sq_canWB true) w in
          Ok (w_set_lsq (set_storesToWB (storesToWB (w_lsq w) + 1) (w_lsq w)) w)
        else Ok w in
      w_checkViolations (lqIdx i0) p w.
End loads.
