(* ===== verification/LsqInv.v ===== *)
(** * The load and store queues as lists

    The circular buffers of the unit refine two lists: insertion appends,
    commit drops the oldest loads and marks the oldest stores, a squash cuts
    both lists.  [lsq_rep] is the abstraction relation; every operation on the
    queues succeeds on a represented state and is simulated by the operation on
    the lists. *)

From S2P Require Import Prelude Regs Config DynInst Metadata Rob RobSafe StoreSet DepGraph FUPool.
From S2P Require Import MemDepUnit InstQueue LsqUnit.

Local Open Scope Z_scope.

(** ** Circular indices *)

(** The index of the entry [k] places behind [h] in a buffer of [n] entries. *)
Definition ring (n h k : Z) : Z := (h + k) mod n.

Section ring.
Variables (n h : Z).
Hypothesis n_pos : 0 < n.

Lemma ring_bound k : 0 <= ring n h k < n.
Proof. apply Z.mod_pos_bound, n_pos. Qed.

Lemma ring_incr k : incrIdx n (ring n h k) = ring n h (k + 1).
Proof.
  pose proof (ring_bound k). unfold incrIdx, ring in *.
  replace (h + (k + 1)) with (h + k + 1) by lia.
  rewrite <- (Z.add_mod_idemp_l (h + k) 1) by lia.
  destruct (Z.leb_spec n ((h + k) mod n + 1)).
  - replace ((h + k) mod n + 1) with n by lia. by rewrite Z_mod_same_full.
  - symmetry. apply Z.mod_small. lia.
Qed.

Lemma ring_decr k : decrIdx n (ring n h (k + 1)) = ring n h k.
Proof.
  rewrite <- ring_incr. pose proof (ring_bound k). unfold incrIdx, decrIdx.
  destruct (Z.leb_spec n (ring n h k + 1)).
  - rewrite (proj2 (Z.ltb_lt _ _)) by lia. lia.
  - rewrite (proj2 (Z.ltb_ge _ _)) by lia. lia.
Qed.

Lemma ring_inj a b : 0 <= a < n → 0 <= b < n → ring n h a = ring n h b → a = b.
Proof.
  unfold ring. intros Ha Hb Heq.
  pose proof (Z.div_mod (h + a) n ltac:(lia)). pose proof (Z.div_mod (h + b) n ltac:(lia)).
  assert (a - b = n * ((h + a) / n - (h + b) / n)) as Hd by lia.
  assert ((h + a) / n - (h + b) / n = 0) by nia. lia.
Qed.

Lemma ring_zero : 0 <= h < n → ring n h 0 = h.
Proof. intros. unfold ring. rewrite Z.add_0_r. by apply Z.mod_small. Qed.

Lemma ring_shift a b : ring n (ring n h a) b = ring n h (a + b).
Proof. unfold ring. rewrite Z.add_mod_idemp_l by lia. f_equal. lia. Qed.
End ring.

(** The buffer [v] of [n] entries holds the list [l] from [h] to [t]. *)
Record ring_ok {A} (n h t : Z) (v l : list A) : Prop := {
  ro_n : 0 < n <= Z.of_nat (length v);
  ro_h : 0 <= h < n;
  ro_l : Z.of_nat (length l) < n;
  ro_t : t = ring n h (Z.of_nat (length l));
  ro_get : ∀ k a, l !! k = Some a → v !! Z.to_nat (ring n h (Z.of_nat k)) = Some a;
}.

Section ring_ok.
Context {A : Type}.
Implicit Types (n h t : Z) (v l : list A).

Lemma ro_tail_range n h t v l : ring_ok n h t v l → 0 <= t < n.
Proof. intros [??? -> _]. apply ring_bound. lia. Qed.

Lemma ro_vec_get n h t v w l k a :
  ring_ok n h t v l → l !! k = Some a → vec_get w v (ring n h (Z.of_nat k)) = Ok a.
Proof.
  intros R Hk. apply vec_get_Ok. split; [|by eapply ro_get].
  apply ring_bound. destruct R. lia.
Qed.

Lemma ro_vec_set n h t v w l k a :
  ring_ok n h t v l →
  vec_set w v (ring n h k) a = Ok (<[Z.to_nat (ring n h k) := a]> v).
Proof.
  intros [? ? ? ? ?]. apply vec_set_total.
  pose proof (ring_bound n h ltac:(lia) k). lia.
Qed.

(** Writing one slot changes the list at most at that slot. *)
Lemma ro_get_set n h t v l j k (a b : A) :
  ring_ok n h t v l → 0 <= j < n → l !! k = Some b → j ≠ Z.of_nat k →
  <[Z.to_nat (ring n h j) := a]> v !! Z.to_nat (ring n h (Z.of_nat k)) = Some b.
Proof.
  intros R Hj Hk Hne. pose proof (lookup_lt_Some _ _ _ Hk). destruct R.
  pose proof (ring_bound n h ltac:(lia) j). pose proof (ring_bound n h ltac:(lia) (Z.of_nat k)).
  rewrite list_lookup_insert_ne; [eauto|]. intros Heq%Z2Nat.inj; [|lia..].
  apply ring_inj in Heq; lia.
Qed.

Lemma ro_empty_iff n h t v l : ring_ok n h t v l → (h = t ↔ l = []).
Proof.
  intros [? ? ? -> ?]. split.
  - intros Heq. rewrite <- (ring_zero n h) in Heq at 1 by lia.
    apply ring_inj in Heq; [|lia..]. apply length_zero_iff_nil. lia.
  - intros ->. symmetry. apply ring_zero; cbn in *; lia.
Qed.

(** The test that guards an insertion. *)
Lemma ro_not_full n h t v l :
  ring_ok n h t v l → Z.of_nat (length l) < n - 1 → (t + 1) mod n ≠ h.
Proof.
  intros [? ? ? -> ?] Hl. change ((ring n h (Z.of_nat (length l)) + 1) mod n)
    with (ring n (ring n h (Z.of_nat (length l))) 1).
  rewrite ring_shift by lia. intros Heq. rewrite <- (ring_zero n h) in Heq at 2 by lia.
  apply ring_inj in Heq; lia.
Qed.

Lemma ro_snoc n h t v l a :
  ring_ok n h t v l → Z.of_nat (length l) < n - 1 →
  ring_ok n h (incrIdx n t) (<[Z.to_nat t := a]> v) (l ++ [a]).
Proof.
  intros R Hl. pose proof R as [? ? ? -> Hg]. split; rewrite ?length_insert, ?length_app;
    cbn [length]; [lia..|rewrite ring_incr by lia; f_equal; lia|].
  intros k b [Hk|[Hk Hb]]%lookup_app_Some.
  - eapply ro_get_set; eauto with lia. pose proof (lookup_lt_Some _ _ _ Hk). lia.
  - apply list_lookup_singleton_Some in Hb as [? <-].
    replace k with (length l) by lia. apply list_lookup_insert_eq.
    pose proof (ring_bound n h ltac:(lia) (Z.of_nat (length l))). lia.
Qed.

(** Dropping the oldest entry, whatever its slot is set to. *)
Lemma ro_pop n h t v l a b :
  ring_ok n h t v (a :: l) →
  ring_ok n (incrIdx n h) t (<[Z.to_nat h := b]> v) l.
Proof.
  intros R. pose proof R as [? ? Hl -> Hg]. cbn [length] in *.
  assert (incrIdx n h = ring n h 1) as ->.
  { rewrite <- (ring_zero n h) at 1 by lia. by rewrite ring_incr by lia. }
  split; rewrite ?length_insert; [lia|apply ring_bound; lia|lia|..].
  - rewrite ring_shift by lia. f_equal. lia.
  - intros k c Hk. rewrite ring_shift by lia.
    replace (1 + Z.of_nat k) with (Z.of_nat (S k)) by lia.
    replace (Z.to_nat h) with (Z.to_nat (ring n h 0)) by (rewrite ring_zero by lia; done).
    eapply ro_get_set; eauto; lia.
Qed.

(** Dropping the youngest entry, whatever its slot is set to. *)
Lemma ro_cut n h t v l a b :
  ring_ok n h t v (l ++ [a]) →
  decrIdx n t = ring n h (Z.of_nat (length l)) ∧
  ring_ok n h (decrIdx n t) (<[Z.to_nat (decrIdx n t) := b]> v) l.
Proof.
  intros R. pose proof R as [? ? Hl -> Hg]. rewrite length_app in *. cbn [length] in *.
  assert (decrIdx n (ring n h (Z.of_nat (length l + 1))) = ring n h (Z.of_nat (length l))) as ->.
  { rewrite Nat2Z.inj_add. by rewrite ring_decr by lia. }
  split; [done|]. split; rewrite ?length_insert; [lia..|done|].
  intros k c Hk. pose proof (lookup_lt_Some _ _ _ Hk).
  eapply ro_get_set; [done|lia|by apply lookup_app_l_Some|lia].
Qed.

Lemma ro_update n h t v l k a b :
  ring_ok n h t v l → l !! k = Some a →
  ring_ok n h t (<[Z.to_nat (ring n h (Z.of_nat k)) := b]> v) (<[k := b]> l).
Proof.
  intros R Hk. pose proof R as [? ? ? -> Hg]. pose proof (lookup_lt_Some _ _ _ Hk).
  split; rewrite ?length_insert; [lia..|done|].
  intros j c Hj. destruct (decide (j = k)) as [->|Hne].
  - rewrite list_lookup_insert_eq in Hj by done. injection Hj as <-.
    apply list_lookup_insert_eq. pose proof (ring_bound n h ltac:(lia) (Z.of_nat k)). lia.
  - rewrite list_lookup_insert_ne in Hj by done. eapply ro_get_set; eauto; lia.
Qed.
End ring_ok.

Arguments ring : simpl never.
Arguments incrIdx : simpl never.
Arguments decrIdx : simpl never.
Arguments wrap : simpl never.

(** ** The abstraction *)

Record Queues := mkQueues {
  q_loads : list DynInstPtr;  (** oldest first *)
  q_stores : list SQEntry;    (** oldest first *)
}.

Definition known (s : store) (p : DynInstPtr) : Prop := ∃ i, s !! p = Some i ∧ seqNum i = p.
Definition entrySeq (e : SQEntry) : InstSeqNum := default 0 (sq_inst e).
Definition pendingWB (e : SQEntry) : Prop := sq_canWB e = true ∧ sq_completed e = false.
#[export] Instance pendingWB_dec e : Decision (pendingWB e).
Proof. unfold pendingWB. apply _. Defined.

Record lsq_rep (u : LSQUnit) (s : store) (a : Queues) : Prop := {
  lr_loads : ring_ok (LQEntries u) (loadHead u) (loadTail u) (loadQueue u)
               (Some <$> q_loads a);
  lr_loads_n : loads u = Z.of_nat (length (q_loads a));
  lr_stores : ring_ok (SQEntries u) (storeHead u) (storeTail u) (storeQueue u) (q_stores a);
  lr_stores_n : stores u = Z.of_nat (length (q_stores a));
  lr_width : LQEntries u <= 256 ∧ SQEntries u <= 256;
  lr_known_loads : Forall (known s) (q_loads a);
  lr_known_stores : Forall (λ e, ∃ p, sq_inst e = Some p ∧ known s p) (q_stores a);
  lr_sorted_loads : StronglySorted Z.lt (q_loads a);
  lr_sorted_stores : StronglySorted Z.lt (entrySeq <$> q_stores a);
  (** committed stores are the oldest ones *)
  lr_prefix : StronglySorted (λ e e', sq_canWB e' = true → sq_canWB e = true) (q_stores a);
  lr_done : Forall (λ e, sq_completed e = true → sq_canWB e = true) (q_stores a);
  lr_wb : storesToWB u = Z.of_nat (length (filter pendingWB (q_stores a)));
  lr_violator : ∀ v, memDepViolator u = Some v → known s v;
  (** the load that waits for a store is queued and younger than the store *)
  lr_stall : stalled u = true →
    ∃ k p, q_loads a !! k = Some p ∧
      stallingLoadIdx u = ring (LQEntries u) (loadHead u) (Z.of_nat k) ∧
      stallingStoreIsn u < p;
}.

(** ** Reading a represented state *)

Lemma known_insert s p q i : known s p → seqNum i = q → known (<[q := i]> s) p.
Proof.
  intros (j & Hj & Hp) Hi. destruct (decide (p = q)) as [->|Hne].
  - exists i. by rewrite lookup_insert_eq.
  - exists j. by rewrite lookup_insert_ne.
Qed.

Lemma known_deref s p : known s p → ∃ i, deref p s = Ok i ∧ seqNum i = p.
Proof. intros (i & Hi & Hp). exists i. split; [by apply deref_Ok|done]. Qed.

Lemma seqNum_setSquashed i : seqNum (setSquashed i) = seqNum i.
Proof. exact (sc_seqNum _ _ (dropDolmaReqs_frame (status_set Squashed i))). Qed.

Section rep.
Context (u : LSQUnit) (s : store) (a : Queues).
Hypothesis R : lsq_rep u s a.

Lemma rep_loadAt k p :
  q_loads a !! k = Some p →
  ∃ i, loadAt (ring (LQEntries u) (loadHead u) (Z.of_nat k)) u s = Ok (p, i) ∧ seqNum i = p.
Proof.
  intros Hk. unfold loadAt.
  rewrite (ro_vec_get _ _ _ _ _ _ k (Some p) (lr_loads _ _ _ R)) by (by rewrite list_lookup_fmap, Hk).
  destruct (known_deref s p) as (i & -> & ?); [|eauto].
  eapply Forall_lookup_1; [apply (lr_known_loads _ _ _ R)|done].
Qed.

Lemma rep_entryAt k e :
  q_stores a !! k = Some e →
  entryAt (ring (SQEntries u) (storeHead u) (Z.of_nat k)) u = Ok e.
Proof. apply ro_vec_get with (t := storeTail u), (lr_stores _ _ _ R). Qed.

Lemma rep_storeAt k e :
  q_stores a !! k = Some e →
  ∃ i, storeAt (ring (SQEntries u) (storeHead u) (Z.of_nat k)) u s = Ok (e, entrySeq e, i) ∧
       seqNum i = entrySeq e ∧ sq_inst e = Some (entrySeq e).
Proof.
  intros Hk. unfold storeAt. rewrite (rep_entryAt k e Hk).
  destruct (Forall_lookup_1 _ _ _ _ (lr_known_stores _ _ _ R) Hk) as (p & Hp & Hkn).
  unfold entrySeq. rewrite Hp. destruct (known_deref s p Hkn) as (i & -> & ?). eauto.
Qed.
End rep.

(** ** The operations on the lists *)

Inductive lsq_op : Type :=
  | LInsert (p : DynInstPtr) (is_load : bool)
  | LWrite (req : Request) (sreqLow sreqHigh : option Request) (data : list Z) (k : nat)
  | LCommitLoads (n : InstSeqNum)
  | LCommitStores (n : InstSeqNum)
  | LComplete (k : nat)
  | LSquash (n : InstSeqNum)
  | LStall (k : nat) (n : InstSeqNum) (** a load waits for the store [n] *)
  | LUnstall
  | LViolation (p : DynInstPtr).

Definition slotOf (u : LSQUnit) (k : nat) : Z :=
  ring (SQEntries u) (storeHead u) (Z.of_nat k).

Definition lsq_run (o : lsq_op) (u : LSQUnit) (s : store) : outcome (LSQUnit * store) :=
  match o with
  | LInsert p _ => lsq_insert p u s
  | LWrite req lo hi data k => let! u := lsq_write req lo hi data (slotOf u k) u in Ok (u, s)
  | LCommitLoads n => let! u := commitLoads n u s in Ok (u, s)
  | LCommitStores n => let! u := commitStores n u s in Ok (u, s)
  | LComplete k => let! (_, u) := retireStores (slotOf u k) u in Ok (u, s)
  | LSquash n => lsq_squash n u s
  | LStall k n => Ok (setStall (ring (LQEntries u) (loadHead u) (Z.of_nat k)) n u, s)
  | LUnstall => Ok (clearStall u, s)
  | LViolation p => Ok (set_memDepViolator (Some p) u, s)
  end.

(** A store may write back once it is committed. *)
Definition commitEntry (n : InstSeqNum) (e : SQEntry) : SQEntry :=
  if sq_canWB e then e else if n <? entrySeq e then e else set_sq_canWB true e.

(** The completed stores at the head leave the queue. *)
Fixpoint dropCompleted (l : list SQEntry) : list SQEntry :=
  match l with
  | e :: l' => if sq_completed e then dropCompleted l' else l
  | [] => []
  end.

Definition lsq_abs (o : lsq_op) (a : Queues) : Queues :=
  match o with
  | LInsert p is_load =>
      if is_load then mkQueues (q_loads a ++ [p]) (q_stores a)
      else mkQueues (q_loads a) (q_stores a ++ [newSQEntry (Some p)])
  | LWrite req lo hi data k =>
      mkQueues (q_loads a) (alter (writtenEntry req lo hi data) k (q_stores a))
  | LCommitLoads n => mkQueues (filter (λ p, n < p) (q_loads a)) (q_stores a)
  | LCommitStores n => mkQueues (q_loads a) (commitEntry n <$> q_stores a)
  | LComplete k =>
      let l := alter (set_sq_completed true) k (q_stores a) in
      mkQueues (q_loads a) (if (k =? 0)%nat then dropCompleted l else l)
  | LSquash n =>
      mkQueues (filter (λ p, p <= n) (q_loads a))
        (filter (λ e, sq_canWB e = true ∨ entrySeq e <= n) (q_stores a))
  | LStall _ _ | LUnstall | LViolation _ => a
  end.

(** When the pipeline performs an operation. *)
Definition lsq_ready (o : lsq_op) (u : LSQUnit) (s : store) (a : Queues) : Prop :=
  match o with
  | LInsert p is_load =>
      ∃ i, s !! p = Some i ∧ seqNum i = p ∧ isMemRef i = true ∧ isLoad i = is_load ∧
        Forall (λ q, q < p) (q_loads a) ∧ Forall (λ e, entrySeq e < p) (q_stores a) ∧
        if is_load then lqFull u = false else sqFull u = false
  | LWrite req lo hi data k =>
      is_Some (q_stores a !! k) ∧
      (req_size req <= 16 ∨ flags_isSet (req_flags req) ReqFlag.STORE_NO_DATA = true)
  | LCommitLoads n =>
      stalled u = true →
      ∃ p i, loadAt (stallingLoadIdx u) u s = Ok (p, i) ∧ n < seqNum i
  | LCommitStores n => True
  | LComplete k => ∃ e, q_stores a !! k = Some e ∧ pendingWB e
  | LSquash n => True
  | LStall k n => ∃ p, q_loads a !! k = Some p ∧ n < p
  | LUnstall => True
  | LViolation p => known s p
  end.

(** ** Simulation *)

Lemma wrap_small z : 0 <= z < 2 ^ 32 → wrap 32 z = z.
Proof. intros. by apply Z.mod_small. Qed.

Lemma sorted_snoc {A} (P : A → A → Prop) l x :
  StronglySorted P l → Forall (λ y, P y x) l → StronglySorted P (l ++ [x]).
Proof.
  intros Hl Hx. apply StronglySorted_app. split_and!; [|done|repeat constructor].
  intros y z Hy ->%list_elem_of_singleton. by apply (proj1 (Forall_forall _ _) Hx).
Qed.

(** Changes of the store that keep sequence numbers keep the representation. *)
Lemma rep_store u s s' a :
  lsq_rep u s a → (∀ p, known s p → known s' p) → lsq_rep u s' a.
Proof.
  intros R Hs. destruct R. constructor; auto.
  - eapply Forall_impl; eauto.
  - eapply Forall_impl; [exact lr_known_stores0|]. intros e (p & ? & ?). eauto.
Qed.

Lemma known_modify f p s s' :
  modify f p s = Ok s' → (∀ i, seqNum (f i) = seqNum i) → ∀ q, known s q → known s' q.
Proof.
  intros (i & Hi & ->)%modify_Ok Hf q Hq. destruct (decide (p = q)) as [->|Hne].
  - destruct Hq as (j & Hj & Hs). exists (f i). rewrite lookup_insert_eq, Hf. naive_solver.
  - destruct Hq as (j & Hj & Hs). exists j. by rewrite lookup_insert_ne.
Qed.

Lemma modify_known f p s : known s p → ∃ s', modify f p s = Ok s'.
Proof. intros (i & Hi & _). eexists. apply modify_Ok. eauto. Qed.

Section inserting.
Context (u : LSQUnit) (s : store) (a : Queues) (p : DynInstPtr).
Hypothesis R : lsq_rep u s a.
Hypothesis Hp : known s p.

Lemma lsq_insertLoad_rep :
  Forall (λ q, q < p) (q_loads a) → lqFull u = false →
  ∃ u' s', lsq_insertLoad p u s = Ok (u', s') ∧ known s' p ∧
    lsq_rep u' s' (mkQueues (q_loads a ++ [p]) (q_stores a)).
Proof.
  intros Hlt Hfull. unfold lsq_insertLoad. destruct (modify_known
    (λ i, set_sqIdx (if stores u =? 0 then -1 else storeTail u) (set_lqIdx (loadTail u) i))
    p s Hp) as (s' & Hm). pose proof (known_modify _ _ _ _ Hm (λ _, eq_refl)) as Hk.
  pose proof (rep_store _ _ _ _ R Hk) as R'. clear R. destruct R' as [Ro Hn ? ? [Hw ?]].
  pose proof Ro as [? ? Hl Ht ?]. rewrite length_fmap in *. unfold lqFull in Hfull.
  rewrite !wrap_small, Z.leb_gt in Hfull by lia.
  pose proof (ro_not_full _ _ _ _ _ Ro ltac:(rewrite length_fmap; lia)) as Hnf.
  rewrite (proj2 (Z.eqb_neq _ _)) by done. cbn [negb].
  rewrite wrap_small, (proj2 (Z.ltb_lt _ _)), Hm by lia.
  rewrite Ht, (ro_vec_set _ _ _ _ _ _ _ _ Ro), <- Ht.
  eexists _, _. split; [done|]. split; [auto|]. constructor; cbn; auto.
  - rewrite fmap_app. apply ro_snoc; [done|rewrite length_fmap; lia].
  - rewrite length_app. cbn. lia.
  - apply Forall_app. repeat constructor; auto.
  - by apply sorted_snoc.
  - intros Hst. destruct (lr_stall0 Hst) as (k & q & Hq & ? & ?).
    exists k, q. split; [by apply lookup_app_l_Some|done].
Qed.

Lemma lsq_insertStore_rep :
  Forall (λ e, entrySeq e < p) (q_stores a) → sqFull u = false →
  ∃ u' s', lsq_insertStore p u s = Ok (u', s') ∧ known s' p ∧
    lsq_rep u' s' (mkQueues (q_loads a) (q_stores a ++ [newSQEntry (Some p)])).
Proof.
  intros Hlt Hfull. unfold lsq_insertStore. destruct (modify_known
    (λ i, set_lqIdx (loadTail u) (set_sqIdx (storeTail u) i)) p s Hp) as (s' & Hm).
  pose proof (known_modify _ _ _ _ Hm (λ _, eq_refl)) as Hk.
  pose proof (rep_store _ _ _ _ R Hk) as R'. clear R. destruct R' as [? ? Ro Hn [? Hw]].
  pose proof Ro as [? ? Hl Ht ?]. unfold sqFull in Hfull.
  rewrite !wrap_small, Z.leb_gt in Hfull by lia.
  pose proof (ro_not_full _ _ _ _ _ Ro ltac:(lia)) as Hnf.
  rewrite (proj2 (Z.eqb_neq _ _)) by done. cbn [negb].
  rewrite wrap_small, (proj2 (Z.ltb_lt _ _)), Hm by lia.
  rewrite Ht, (ro_vec_set _ _ _ _ _ _ _ _ Ro), <- Ht.
  eexists _, _. split; [done|]. split; [auto|]. constructor; cbn; auto.
  - apply ro_snoc; [done|lia].
  - rewrite length_app. cbn. lia.
  - apply Forall_app. repeat constructor; eauto.
  - rewrite fmap_app. apply sorted_snoc; [done|]. by apply Forall_fmap.
  - apply sorted_snoc; [done|]. by apply Forall_true.
  - apply Forall_app. by repeat constructor.
  - rewrite filter_app, filter_cons_False, app_nil_r by (by intros [? ?]). done.
Qed.
End inserting.

Lemma lsq_insert_rep u s a p is_load :
  lsq_rep u s a → lsq_ready (LInsert p is_load) u s a →
  ∃ u' s', lsq_insert p u s = Ok (u', s') ∧ lsq_rep u' s' (lsq_abs (LInsert p is_load) a).
Proof.
  intros R (i & Hi & Hs & Hm & Hld & Hl & Hst & Hf). assert (known s p) as Hp by (by exists i).
  unfold lsq_insert, lsq_abs. rewrite (proj2 (deref_Ok _ _ _) Hi), Hm, Hld.
  assert (∃ u' s', (if is_load then lsq_insertLoad p u s else lsq_insertStore p u s) = Ok (u', s') ∧
    known s' p ∧ lsq_rep u' s' (if is_load then mkQueues (q_loads a ++ [p]) (q_stores a)
      else mkQueues (q_loads a) (q_stores a ++ [newSQEntry (Some p)]))) as (u' & s' & -> & Hk & R').
  { destruct is_load; [by apply lsq_insertLoad_rep|by apply lsq_insertStore_rep]. }
  destruct (modify_known setInLSQ p s' Hk) as (s2 & Hm2). rewrite Hm2.
  eexists _, _. split; [done|]. eapply rep_store; [done|]. by apply (known_modify _ _ _ _ Hm2).
Qed.

(** *** Updating store entries *)

Lemma alter_insert {A} (f : A → A) (k : nat) (l : list A) x :
  l !! k = Some x → alter f k l = <[k := f x]> l.
Proof.
  intros Hk. apply list_eq. intros j. destruct (decide (k = j)) as [<-|Hne].
  - rewrite list_lookup_alter_eq, Hk, list_lookup_insert_eq; [done|]. by eapply lookup_lt_Some.
  - by rewrite list_lookup_alter_ne, list_lookup_insert_ne.
Qed.

Lemma fmap_same_update {A B} (f : A → B) (l : list A) k x y :
  l !! k = Some x → f y = f x → f <$> <[k := y]> l = f <$> l.
Proof.
  intros Hk Hf. rewrite list_fmap_insert, Hf. apply list_insert_id.
  by rewrite list_lookup_fmap, Hk.
Qed.

(** The entries are replaced by [l'], which names the same instructions. *)
Lemma rep_entries u s a v' l' z :
  lsq_rep u s a →
  ring_ok (SQEntries u) (storeHead u) (storeTail u) v' l' →
  sq_inst <$> l' = sq_inst <$> q_stores a →
  StronglySorted (λ e e', sq_canWB e' = true → sq_canWB e = true) l' →
  Forall (λ e, sq_completed e = true → sq_canWB e = true) l' →
  z = Z.of_nat (length (filter pendingWB l')) →
  lsq_rep (set_storesToWB z (set_storeQueue v' u)) s (mkQueues (q_loads a) l').
Proof.
  intros [] Hro Hi Hp Hd Hz. constructor; cbn; auto.
  - rewrite lr_stores_n0, <- (length_fmap sq_inst l'), Hi. by rewrite length_fmap.
  - assert (Forall (λ o, ∃ p, o = Some p ∧ known s p) (sq_inst <$> l')) as HF
      by (rewrite Hi; by apply Forall_fmap).
    rewrite Forall_fmap in HF. exact HF.
  - assert (∀ l, entrySeq <$> l = (λ o : option Z, default 0 o) <$> (sq_inst <$> l)) as He
      by (intros; by rewrite <- list_fmap_compose).
    by rewrite He, Hi, <- He.
Qed.

Lemma rep_setEntry u s a k e f :
  lsq_rep u s a → q_stores a !! k = Some e →
  ∃ v', setEntry (slotOf u k) f u = Ok (set_storeQueue v' u) ∧
    ring_ok (SQEntries u) (storeHead u) (storeTail u) v' (<[k := f e]> (q_stores a)).
Proof.
  intros R Hk. unfold setEntry, slotOf. rewrite (rep_entryAt _ _ _ R _ _ Hk).
  rewrite (ro_vec_set _ _ _ _ _ _ _ _ (lr_stores _ _ _ R)). eexists. split; [done|].
  by eapply ro_update; [apply (lr_stores _ _ _ R)|].
Qed.

Lemma filter_update {A} (P : A → Prop) `{∀ x, Decision (P x)} l k x y :
  l !! k = Some x →
  (length (filter P (<[k := y]> l)) + (if decide (P x) then 1 else 0)
   = length (filter P l) + (if decide (P y) then 1 else 0))%nat.
Proof.
  intros Hk. rewrite <- (take_drop_middle l k x Hk) at 2.
  rewrite insert_take_drop by (by eapply lookup_lt_Some).
  rewrite !filter_app, !length_app, !filter_cons.
  destruct (decide (P x)), (decide (P y)); cbn [length]; lia.
Qed.

Lemma canWB_update l k e e' :
  StronglySorted (λ e e', sq_canWB e' = true → sq_canWB e = true) l →
  l !! k = Some e → sq_canWB e' = sq_canWB e →
  StronglySorted (λ e e', sq_canWB e' = true → sq_canWB e = true) (<[k := e']> l).
Proof.
  intros Hs Hk He. revert k Hk.
  induction Hs as [|x l Hl IH Hx]; intros [|k] Hk; [done..| |]; cbn in *.
  - injection Hk as ->. constructor; [done|]. by rewrite He.
  - constructor; [auto|]. apply Forall_insert; [done|]. rewrite He.
    by apply (Forall_lookup_1 _ _ _ _ Hx Hk).
Qed.

Lemma writtenEntry_frame req lo hi data e :
  sq_inst (writtenEntry req lo hi data e) = sq_inst e ∧
  sq_canWB (writtenEntry req lo hi data e) = sq_canWB e ∧
  sq_completed (writtenEntry req lo hi data e) = sq_completed e.
Proof. unfold writtenEntry. by destruct lo, (_ || _). Qed.

Lemma lsq_write_rep u s a req lo hi data k :
  lsq_rep u s a → lsq_ready (LWrite req lo hi data k) u s a →
  ∃ u', lsq_write req lo hi data (slotOf u k) u = Ok u' ∧
    lsq_rep u' s (lsq_abs (LWrite req lo hi data k) a).
Proof.
  intros R [(e & Hk) Hsz]. destruct (rep_storeAt _ _ _ R _ _ Hk) as (_ & _ & _ & Hi).
  destruct (rep_setEntry _ _ _ _ _ (writtenEntry req lo hi data) R Hk) as (v' & Hset & Ho).
  unfold lsq_write, lsq_abs. rewrite (alter_insert _ _ _ _ Hk).
  unfold slotOf at 1. rewrite (rep_entryAt _ _ _ R _ _ Hk), Hi, bool_decide_true by done.
  assert ((req_size req <=? 16) || flags_isSet (req_flags req) ReqFlag.STORE_NO_DATA = true) as ->.
  { destruct Hsz as [?%Z.leb_le| ->]; [by apply orb_true_iff; left|apply orb_true_r]. }
  rewrite Hset. eexists. split; [done|].
  destruct (writtenEntry_frame req lo hi data e) as (H1 & H2 & H3).
  apply (rep_entries u s a v' _ (storesToWB u) R Ho).
  - by eapply fmap_same_update.
  - by eapply canWB_update; [apply (lr_prefix _ _ _ R)| |].
  - apply Forall_insert; [apply (lr_done _ _ _ R)|]. rewrite H2, H3.
    by apply (Forall_lookup_1 _ _ _ _ (lr_done _ _ _ R) Hk).
  - rewrite (lr_wb _ _ _ R). f_equal.
    pose proof (filter_update pendingWB _ _ _ (writtenEntry req lo hi data e) Hk) as Hf.
    assert (pendingWB (writtenEntry req lo hi data e) ↔ pendingWB e) as Hiff
      by (unfold pendingWB; by rewrite H2, H3).
    do 2 destruct (decide _); tauto || lia.
Qed.

(** *** Commit *)

Lemma slotOf_next u s a k : lsq_rep u s a → incrStIdx u (slotOf u k) = slotOf u (S k).
Proof.
  intros [_ _ [? ? ? ? ?]]. unfold incrStIdx, slotOf. rewrite ring_incr by lia. f_equal. lia.
Qed.

Lemma slotOf_tail u s a k :
  lsq_rep u s a → (k <= length (q_stores a))%nat →
  (slotOf u k =? storeTail u) = (k =? length (q_stores a))%nat.
Proof.
  intros [_ _ [? ? ? -> ?]] Hk. unfold slotOf. destruct (Nat.eqb_spec k (length (q_stores a))).
  - subst. apply Z.eqb_refl.
  - apply Z.eqb_neq. intros Heq%ring_inj; lia.
Qed.

(** Behind an uncommitted store younger than [n] nothing is committed. *)
Lemma commitEntry_id n e rest :
  StronglySorted Z.lt (entrySeq <$> e :: rest) →
  StronglySorted (λ e e', sq_canWB e' = true → sq_canWB e = true) (e :: rest) →
  sq_canWB e = false → n < entrySeq e → commitEntry n <$> e :: rest = e :: rest.
Proof.
  intros [_ Hs]%StronglySorted_inv [_ Hp]%StronglySorted_inv Hc Hn.
  transitivity (id <$> e :: rest); [|apply list_fmap_id]. apply list_fmap_ext.
  intros k x Hk. unfold commitEntry.
  assert (sq_canWB x = false ∧ n < entrySeq x) as [-> Hx].
  { destruct k as [|k]; [by injection Hk as <-|]. cbn in Hk. split.
    - destruct (sq_canWB x) eqn:Hx; [|done].
      by rewrite (Forall_lookup_1 _ _ _ _ Hp Hk Hx) in Hc.
    - change (Forall (Z.lt (entrySeq e)) (entrySeq <$> rest)) in Hs.
      rewrite Forall_fmap in Hs. pose proof (Forall_lookup_1 _ _ _ _ Hs Hk). cbn in *. lia. }
  by rewrite (proj2 (Z.ltb_lt _ _)).
Qed.

Lemma canWB_all l l' :
  Forall (λ e, sq_canWB e = true) l →
  StronglySorted (λ e e', sq_canWB e' = true → sq_canWB e = true) l' →
  StronglySorted (λ e e', sq_canWB e' = true → sq_canWB e = true) (l ++ l').
Proof.
  intros Hl Hl'. induction Hl; [done|]. cbn. constructor; [done|]. by apply Forall_true.
Qed.

(** Marking the oldest uncommitted store. *)
Lemma commitOne_rep u s ls don e rest :
  lsq_rep u s (mkQueues ls (don ++ e :: rest)) →
  Forall (λ e, sq_canWB e = true) don → sq_canWB e = false →
  ∃ v', setEntry (slotOf u (length don)) (set_sq_canWB true) u = Ok (set_storeQueue v' u) ∧
    lsq_rep (set_storesToWB (storesToWB u + 1) (set_storeQueue v' u)) s
      (mkQueues ls ((don ++ [set_sq_canWB true e]) ++ rest)).
Proof.
  intros R Hd Hc. set (a := mkQueues ls (don ++ e :: rest)) in R.
  assert (q_stores a !! length don = Some e) as Hk by (by apply list_lookup_middle).
  destruct (rep_setEntry _ _ _ _ _ (set_sq_canWB true) R Hk) as (v' & Hset & Ho).
  exists v'. split; [done|]. assert (<[length don := set_sq_canWB true e]> (q_stores a)
    = (don ++ [set_sq_canWB true e]) ++ rest) as Hl.
  { cbn. rewrite <- app_assoc. rewrite insert_app_r_alt, Nat.sub_diag by lia. done. }
  pose proof (filter_update pendingWB _ _ _ (set_sq_canWB true e) Hk) as Hf.
  rewrite Hl in *. apply (rep_entries _ _ _ _ _ _ R Ho).
  - rewrite <- Hl. by eapply fmap_same_update.
  - pose proof (lr_prefix _ _ _ R) as Hp. cbn [q_stores a] in Hp.
    apply StronglySorted_app in Hp as (_ & _ & [Hp _]%StronglySorted_inv).
    apply canWB_all; [|done]. apply Forall_app. by repeat constructor.
  - rewrite <- Hl. apply Forall_insert; [apply (lr_done _ _ _ R)|done].
  - rewrite (lr_wb _ _ _ R). assert (sq_completed e = false) as Hcm.
    { destruct (sq_completed e) eqn:Hx; [|done].
      by rewrite (Forall_lookup_1 _ _ _ _ (lr_done _ _ _ R) Hk Hx) in Hc. }
    rewrite decide_False in Hf by (intros [? ?]; congruence).
    rewrite decide_True in Hf by done. lia.
Qed.

Lemma commitStoresFrom_rep n s : ∀ rest don fuel u ls,
  lsq_rep u s (mkQueues ls (don ++ rest)) →
  Forall (λ e, sq_canWB e = true) don → (length rest <= fuel)%nat →
  ∃ u', commitStoresFrom fuel n (slotOf u (length don)) u s = Ok u' ∧
    lsq_rep u' s (mkQueues ls (don ++ (commitEntry n <$> rest))).
Proof.
  induction rest as [|e rest IH]; intros don fuel u ls R Hd Hf.
  { exists u. split; [|done]. rewrite app_nil_r in R.
    destruct fuel; cbn [commitStoresFrom]; by rewrite (slotOf_tail _ _ _ _ R), Nat.eqb_refl. }
  destruct fuel as [|fuel]; cbn [length] in Hf; [lia|]. cbn [commitStoresFrom].
  assert ((don ++ e :: rest) !! length don = Some e) as Hk by (by apply list_lookup_middle).
  rewrite (slotOf_tail _ _ _ _ R), (proj2 (Nat.eqb_neq _ _))
    by (cbn; rewrite length_app; cbn; lia).
  destruct (rep_storeAt _ _ _ R _ _ Hk) as (i & Hat & Hseq & Hi).
  unfold slotOf at 1. rewrite Hat, Hseq, (slotOf_next _ _ _ _ R). cbn [fmap list_fmap].
  assert (∀ x : SQEntry, S (length don) = length (don ++ [x])) as Hlen
    by (intros; rewrite length_app; cbn; lia).
  unfold commitEntry at 1. destruct (sq_canWB e) eqn:Hc.
  { destruct (IH (don ++ [e]) fuel u ls) as (u' & Hu & R');
      [by rewrite <- app_assoc|by apply Forall_app; repeat constructor|lia|].
    exists u'. rewrite (Hlen e). rewrite <- app_assoc in R'. done. }
  destruct (Z.ltb_spec n (entrySeq e)) as [Hlt|Hge].
  { exists u. split; [done|]. pose proof (lr_sorted_stores _ _ _ R) as Hs.
    pose proof (lr_prefix _ _ _ R) as Hp. cbn [q_stores] in Hs, Hp. rewrite fmap_app in Hs.
    apply StronglySorted_app in Hs as (_ & _ & Hs). apply StronglySorted_app in Hp as (_ & _ & Hp).
    pose proof (commitEntry_id n e rest Hs Hp Hc Hlt) as Hid. cbn in Hid.
    injection Hid as _ ->. done. }
  destruct (commitOne_rep _ _ _ _ _ _ R Hd Hc) as (v' & -> & R').
  destruct (IH (don ++ [set_sq_canWB true e]) fuel _ ls R') as (u' & Hu & R2);
    [by apply Forall_app; repeat constructor|lia|].
  exists u'. rewrite (Hlen (set_sq_canWB true e)). rewrite <- app_assoc in R2. done.
Qed.

Lemma commitStores_rep u s a n :
  lsq_rep u s a →
  ∃ u', commitStores n u s = Ok u' ∧ lsq_rep u' s (lsq_abs (LCommitStores n) a).
Proof.
  intros R. unfold commitStores, lsq_abs. pose proof R as [_ _ [? ? Hl _ _] Hn].
  destruct (vec_get_total "storeQueue" (storeQueue u) (storeHead u) ltac:(lia)) as (e & He).
  unfold entryAt at 1. rewrite He.
  assert ((stores u =? 0) || bool_decide (is_Some (sq_inst e)) = true) as ->.
  { rewrite Hn. destruct (q_stores a) as [|x l] eqn:Hq; [done|]. cbn [length].
    destruct (rep_storeAt _ _ _ R 0 x) as (i & Hat & _ & Hx); [by rewrite Hq|].
    unfold storeAt, entryAt in Hat. rewrite ring_zero, He in Hat by lia.
    rewrite bool_decide_true; [apply orb_true_r|]. destruct (sq_inst e); [done|discriminate]. }
  destruct a as [ls st]. cbn [q_loads q_stores] in *.
  destruct (commitStoresFrom_rep n s st [] (Z.to_nat (SQEntries u)) u ls R) as (u' & Hu & R');
    [constructor|lia|].
  unfold slotOf in Hu. cbn in Hu. rewrite ring_zero in Hu by lia. eauto.
Qed.

(** The stalled load is still queued after a commit. *)
Definition stall_above (n : InstSeqNum) (u : LSQUnit) (l : list DynInstPtr) : Prop :=
  stalled u = true → ∀ k q, l !! k = Some q →
  stallingLoadIdx u = ring (LQEntries u) (loadHead u) (Z.of_nat k) → n < q.

Lemma commitLoad_rep n u s p ls st :
  lsq_rep u s (mkQueues (p :: ls) st) → stall_above n u (p :: ls) → p <= n →
  ∃ u', commitLoad u = Ok u' ∧ lsq_rep u' s (mkQueues ls st) ∧ stall_above n u' ls.
Proof.
  intros R Hab Hp. unfold commitLoad. pose proof R as [Ro Hn]. pose proof Ro as [? ? Hl Ht ?].
  pose proof (ro_vec_get _ _ _ _ "loadQueue" _ 0%nat (Some p) Ro eq_refl) as Hg.
  pose proof (ro_vec_set _ _ _ _ "loadQueue" _ 0 None Ro) as Hs.
  cbn [Z.of_nat] in Hg. rewrite ring_zero in Hg, Hs by lia.
  rewrite Hg, bool_decide_true, Hs by done. eexists. split; [done|].
  assert (incrLdIdx u (loadHead u) = ring (LQEntries u) (loadHead u) 1) as Hh.
  { unfold incrLdIdx. rewrite <- (ring_zero (LQEntries u) (loadHead u)) at 1 by lia.
    by rewrite ring_incr by lia. }
  assert (∀ k : nat, ring (LQEntries u) (incrLdIdx u (loadHead u)) (Z.of_nat k)
    = ring (LQEntries u) (loadHead u) (Z.of_nat (S k))) as Hk.
  { intros k. rewrite Hh, ring_shift by lia. f_equal. lia. }
  split.
  - destruct R. constructor; cbn in *; auto.
    + by eapply ro_pop.
    + lia.
    + by inversion lr_known_loads0.
    + by inversion lr_sorted_loads0.
    + intros Hst. destruct (lr_stall0 Hst) as (k & q & Hq & Hi & ?).
      pose proof (Hab Hst k q Hq Hi). destruct k as [|k]; [injection Hq as ->; lia|].
      exists k, q. by rewrite Hk.
  - intros Hst k q Hq. cbn. rewrite Hk. intros Hi. by apply (Hab Hst (S k) q).
Qed.

Lemma commitLoadsUpto_rep n s st : ∀ ls u,
  lsq_rep u s (mkQueues ls st) → stall_above n u ls →
  ∃ u', commitLoadsUpto (length ls) n u s = Ok u' ∧
    lsq_rep u' s (mkQueues (filter (λ p, n < p) ls) st).
Proof.
  induction ls as [|p ls IH]; intros u R Hab; cbn [length commitLoadsUpto];
    rewrite (lr_loads_n _ _ _ R); cbn [q_loads length].
  { exists u. done. }
  destruct (rep_loadAt _ _ _ R 0 p eq_refl) as (i & Hat & Hi).
  rewrite ring_zero in Hat by (destruct (lr_loads _ _ _ R); lia).
  rewrite (proj2 (Z.eqb_neq _ _)), Hat, Hi by lia.
  destruct (Z.leb_spec p n) as [Hle|Hgt].
  - destruct (commitLoad_rep _ _ _ _ _ _ R Hab Hle) as (u' & -> & R' & Hab').
    rewrite filter_cons_False by lia. by apply IH.
  - exists u. split; [done|]. rewrite filter_all; [done|].
    pose proof (lr_sorted_loads _ _ _ R) as [_ Hs]%StronglySorted_inv.
    constructor; [done|]. eapply Forall_impl; [exact Hs|]. cbn. lia.
Qed.

Lemma commitLoads_rep u s a n :
  lsq_rep u s a → lsq_ready (LCommitLoads n) u s a →
  ∃ u', commitLoads n u s = Ok u' ∧ lsq_rep u' s (lsq_abs (LCommitLoads n) a).
Proof.
  intros R Hr. unfold commitLoads, lsq_abs. pose proof R as [Ro Hn]. pose proof Ro as [? ? Hl _ _].
  destruct (vec_get_total "loadQueue" (loadQueue u) (loadHead u) ltac:(lia)) as (o & Ho).
  rewrite Ho. assert ((loads u =? 0) || bool_decide (is_Some o) = true) as ->.
  { rewrite Hn. destruct (q_loads a) as [|x l] eqn:Hq; [done|]. cbn [length].
    pose proof (ro_vec_get _ _ _ _ "loadQueue" _ 0%nat (Some x) Ro eq_refl) as Hg.
    cbn [Z.of_nat] in Hg. rewrite ring_zero, Ho in Hg by lia. injection Hg as ->.
    rewrite bool_decide_true by done. apply orb_true_r. }
  rewrite Hn, Nat2Z.id. destruct a as [ls st]. apply commitLoadsUpto_rep; [done|].
  intros Hst k q Hq Hi. destruct (Hr Hst) as (p & i & Hat & Hlt).
  destruct (rep_loadAt _ _ _ R k q Hq) as (j & Hat' & Hj). rewrite <- Hi, Hat in Hat'.
  injection Hat' as -> ->. cbn in *. lia.
Qed.

(** *** Completion *)

Lemma ro_pop_keep {A} n h t (v : list A) a l :
  ring_ok n h t v (a :: l) → ring_ok n (incrIdx n h) t v l.
Proof.
  intros R. pose proof (ro_get _ _ _ _ _ R 0%nat a eq_refl) as Hg. cbn [Z.of_nat] in Hg.
  rewrite ring_zero in Hg by (destruct R; lia).
  apply (ro_pop _ _ _ _ _ _ a) in R. by rewrite list_insert_id in R.
Qed.

Lemma popStores_spec : ∀ l fuel u e,
  ring_ok (SQEntries u) (storeHead u) (storeTail u) (storeQueue u) (e :: l) →
  stores u = Z.of_nat (S (length l)) → (length l < fuel)%nat →
  ∃ h, popStores fuel u = Ok (set_stores (Z.of_nat (length (dropCompleted l)))
                                (set_storeHead h u)) ∧
    ring_ok (SQEntries u) h (storeTail u) (storeQueue u) (dropCompleted l).
Proof.
  induction l as [|x l IH]; intros [|fuel] u e R Hn Hf; cbn [length] in Hf; try lia;
    cbn [popStores]; pose proof (ro_pop_keep _ _ _ _ _ _ R) as R';
    set (u1 := set_stores (stores u - 1) (set_storeHead (incrStIdx u (storeHead u)) u)).
  - destruct (vec_get_total "storeQueue" (storeQueue u) (incrStIdx u (storeHead u))) as (y & Hy).
    { destruct R'. cbn in *. unfold incrStIdx. lia. }
    unfold entryAt. cbn [storeQueue storeHead u1 set_stores set_storeHead storeTail]. rewrite Hy.
    rewrite (proj2 (Z.eqb_eq _ _)); [|by apply (ro_empty_iff _ _ _ _ _ R')].
    rewrite andb_false_r. exists (incrStIdx u (storeHead u)). split; [|done].
    unfold u1. cbn [length dropCompleted]. by rewrite Hn.
  - assert (entryAt (storeHead u1) u1 = Ok x) as ->.
    { unfold entryAt. cbn. pose proof (ro_vec_get _ _ _ _ "storeQueue" _ 0%nat x R' eq_refl) as Hg.
      cbn [Z.of_nat] in Hg. by rewrite ring_zero in Hg by (destruct R'; lia). }
    cbn [dropCompleted]. rewrite (proj2 (Z.eqb_neq _ _)).
    2: { intros Heq. by apply (ro_empty_iff _ _ _ _ _ R') in Heq. }
    rewrite andb_true_r. destruct (sq_completed x).
    + destruct (IH fuel u1 x R') as (h & Hp & Ro); [cbn in *; lia|lia|]. exists h. split; [exact Hp|exact Ro].
    + exists (incrStIdx u (storeHead u)). split; [|done]. unfold u1. cbn [length] in *.
      do 2 f_equal. lia.
Qed.

Lemma dropCompleted_suffix l : dropCompleted l `suffix_of` l.
Proof.
  induction l as [|e l IH]; [done|]. cbn. destruct (sq_completed e); [by apply suffix_cons_r|done].
Qed.

Lemma dropCompleted_pending l :
  length (filter pendingWB (dropCompleted l)) = length (filter pendingWB l).
Proof.
  induction l as [|e l IH]; [done|]. cbn [dropCompleted]. destruct (sq_completed e) eqn:He; [|done].
  rewrite IH, filter_cons_False; [done|]. intros [? ?]. congruence.
Qed.

(** The oldest stores leave the represented queue. *)
Lemma rep_drop u s ls l l' h :
  lsq_rep u s (mkQueues ls l) → l' `suffix_of` l →
  length (filter pendingWB l') = length (filter pendingWB l) →
  ring_ok (SQEntries u) h (storeTail u) (storeQueue u) l' →
  lsq_rep (set_stores (Z.of_nat (length l')) (set_storeHead h u)) s (mkQueues ls l').
Proof.
  intros R (l0 & ->) Hp Ro. destruct R. cbn [q_loads q_stores] in *. rewrite fmap_app in *.
  constructor; cbn in *; auto.
  - by apply Forall_app in lr_known_stores0 as [_ ?].
  - by apply StronglySorted_app in lr_sorted_stores0 as (_ & _ & ?).
  - by apply StronglySorted_app in lr_prefix0 as (_ & _ & ?).
  - by apply Forall_app in lr_done0 as [_ ?].
  - by rewrite Hp.
Qed.

Lemma retireStores_rep u s a k :
  lsq_rep u s a → lsq_ready (LComplete k) u s a →
  ∃ b u', retireStores (slotOf u k) u = Ok (b, u') ∧
    lsq_rep u' s (lsq_abs (LComplete k) a).
Proof.
  intros R (e & Hk & Hc & Hd). unfold retireStores, lsq_abs. rewrite (alter_insert _ _ _ _ Hk).
  destruct (rep_setEntry _ _ _ _ _ (set_sq_completed true) R Hk) as (v' & -> & Ho).
  set (l := <[k := set_sq_completed true e]> (q_stores a)) in *.
  assert (lsq_rep (set_storesToWB (storesToWB u - 1) (set_storeQueue v' u)) s
            (mkQueues (q_loads a) l)) as R'.
  { apply (rep_entries _ _ _ _ _ _ R Ho).
    - by eapply fmap_same_update.
    - by eapply canWB_update; [apply (lr_prefix _ _ _ R)| |].
    - apply Forall_insert; [apply (lr_done _ _ _ R)|done].
    - rewrite (lr_wb _ _ _ R).
      pose proof (filter_update pendingWB _ _ _ (set_sq_completed true e) Hk) as Hf.
      rewrite decide_True, decide_False in Hf by (done || by intros [_ ?]). unfold l. lia. }
  cbn [storeHead set_storesToWB set_storeQueue storesToWB SQEntries].
  pose proof (lookup_lt_Some _ _ _ Hk) as Hlt. pose proof (lr_stores _ _ _ R) as [? ? ? _ _].
  destruct (Nat.eqb_spec k 0) as [->|Hk0].
  - unfold slotOf. rewrite ring_zero, Z.eqb_refl by lia.
    destruct (q_stores a) as [|e0 rest] eqn:Hq; [done|]. injection Hk as ->.
    cbn [insert list_insert] in l. subst l.
    destruct (popStores_spec rest (Z.to_nat (SQEntries u)) _ _ (lr_stores _ _ _ R')) as (h & -> & Ro).
    { by rewrite (lr_stores_n _ _ _ R'). }
    { cbn [length] in *. lia. }
    eexists _, _. split; [done|]. cbn [dropCompleted set_sq_completed sq_completed].
    eapply rep_drop; [exact R'| |exact (dropCompleted_pending (set_sq_completed true e :: rest))|done].
    exact (dropCompleted_suffix (set_sq_completed true e :: rest)).
  - rewrite (proj2 (Z.eqb_neq _ _)); [eauto|]. unfold slotOf.
    rewrite <- (ring_zero (SQEntries u) (storeHead u)) at 2 by lia. intros Heq%ring_inj; lia.
Qed.

(** *** Squash *)

Lemma squashLoadAt_rep u s ls st p :
  lsq_rep u s (mkQueues (ls ++ [p]) st) →
  ∃ i, loadAt (decrLdIdx u (loadTail u)) u s = Ok (p, i) ∧ seqNum i = p ∧
  ∃ u' s', squashLoadAt (decrLdIdx u (loadTail u)) p i u s = Ok (u', s') ∧
    loadTail u' = decrLdIdx u (loadTail u) ∧ lsq_rep u' s' (mkQueues ls st).
Proof.
  intros R. pose proof (lr_loads _ _ _ R) as Ro. cbn [q_loads] in Ro. rewrite fmap_app in Ro.
  pose proof Ro as [Hnv Hh Hl _ _]. rewrite length_app, length_fmap in Hl. cbn [length] in Hl.
  destruct (ro_cut _ _ _ _ _ _ None Ro) as [Hd Ro']. rewrite length_fmap in Hd.
  destruct (rep_loadAt _ _ _ R (length ls) p) as (i & Hat & Hi); [by apply list_lookup_middle|].
  unfold decrLdIdx in *. rewrite <- Hd in Hat. exists i. split; [done|]. split; [done|].
  set (idx := decrIdx (LQEntries u) (loadTail u)) in *.
  set (u1 := if stalled u && (idx =? stallingLoadIdx u)
             then set_stallingLoadIdx 0 (clearStall u) else u).
  assert (loadQueue u1 = loadQueue u ∧ loads u1 = loads u) as [Hq Hn]
    by (unfold u1; by destruct (_ && _)).
  unfold squashLoadAt. fold u1. rewrite Hq, vec_set_total
    by (pose proof (ring_bound (LQEntries u) (loadHead u) ltac:(lia) (Z.of_nat (length ls))); lia).
  eexists _, _. split; [done|]. split; [done|].
  assert (∀ q, known s q → known (<[p := setSquashed i]> s) q) as Hk.
  { intros q Hq'. apply known_insert; [done|]. by rewrite seqNum_setSquashed. }
  apply (rep_store _ _ _ _ R) in Hk as R'. clear R. destruct R'. rewrite Hn.
  cbn [q_loads q_stores] in *. rewrite length_app in *. cbn [length] in *.
  apply Forall_app in lr_known_loads0 as [? _].
  apply StronglySorted_app in lr_sorted_loads0 as (_ & ? & _).
  assert (stalled u1 = true → ∃ k q, ls !! k = Some q ∧
    stallingLoadIdx u = ring (LQEntries u) (loadHead u) (Z.of_nat k) ∧ stallingStoreIsn u < q ∧
    u1 = u) as Hst.
  { unfold u1. destruct (stalled u) eqn:Es; [|cbn; congruence].
    destruct (Z.eqb_spec idx (stallingLoadIdx u)) as [_|Hne]; [done|]. intros _.
    destruct (lr_stall0 eq_refl) as (k & q & Hlk & ? & ?). exists k, q.
    split; [|done]. apply lookup_app_Some in Hlk as [?|[? Hs]]; [done|].
    apply list_lookup_singleton_Some in Hs as [? _]. destruct Hne. rewrite Hd.
    by replace (length ls) with k by lia. }
  constructor; cbn [q_loads q_stores];
    try (unfold u1; destruct (_ && _); cbn; by auto with lia).
  cbn. intros Hs. destruct (Hst Hs) as (k & q & ? & ? & ? & ->). eauto.
Qed.

(** A sorted list is cut where it exceeds [n]. *)
Lemma filter_le_snoc n (l : list Z) x :
  StronglySorted Z.lt (l ++ [x]) →
  filter (λ p, p <= n) (l ++ [x]) = if n <? x then filter (λ p, p <= n) l else l ++ [x].
Proof.
  intros Hs. destruct (Z.ltb_spec n x).
  - rewrite filter_app, filter_cons_False, app_nil_r by lia. done.
  - apply filter_all. apply StronglySorted_app in Hs as (Hlt & _ & _).
    apply Forall_app. split; [|by repeat constructor]. apply Forall_forall. intros y Hy.
    specialize (Hlt y x Hy). cbn in *. pose proof (Hlt ltac:(by apply list_elem_of_singleton)). lia.
Qed.

Lemma squashLoads_rep n st : ∀ ls u s,
  lsq_rep u s (mkQueues ls st) →
  ∃ u' s', squashLoads (length ls) n (decrLdIdx u (loadTail u)) u s = Ok (u', s') ∧
    lsq_rep u' s' (mkQueues (filter (λ p, p <= n) ls) st).
Proof.
  induction ls as [|p ls IH] using rev_ind; intros u s R.
  { exists u, s. cbn. by rewrite (lr_loads_n _ _ _ R). }
  rewrite filter_le_snoc by apply (lr_sorted_loads _ _ _ R).
  rewrite length_app, Nat.add_comm. cbn [length Nat.add squashLoads].
  rewrite (lr_loads_n _ _ _ R), (proj2 (Z.eqb_neq _ _)) by (cbn; rewrite length_app; cbn; lia).
  destruct (squashLoadAt_rep _ _ _ _ _ R) as (i & -> & -> & u' & s' & Hsq & Ht & R').
  destruct (n <? p); [|eauto]. rewrite Hsq, <- Ht. by apply IH.
Qed.

Lemma squashStoreAt_rep u s ls st e :
  lsq_rep u s (mkQueues ls (st ++ [e])) →
  sq_canWB e = false → (stalled u = true → stallingStoreIsn u ≠ entrySeq e) →
  ∃ i, storeAt (decrStIdx u (storeTail u)) u s = Ok (e, entrySeq e, i) ∧ seqNum i = entrySeq e ∧
  ∃ u' s', squashStoreAt (decrStIdx u (storeTail u)) (entrySeq e) i u s = Ok (u', s') ∧
    storeTail u' = decrStIdx u (storeTail u) ∧ stalled u' = stalled u ∧
    stallingStoreIsn u' = stallingStoreIsn u ∧ lsq_rep u' s' (mkQueues ls st).
Proof.
  intros R Hc Hst. pose proof (lr_stores _ _ _ R) as Ro. cbn [q_stores] in Ro.
  destruct (rep_storeAt _ _ _ R (length st) e) as (i & Hat & Hi & Hin);
    [by apply list_lookup_middle|]. destruct (ro_cut _ _ _ _ _ _ (clearEntry e) Ro) as [Hd Ro'].
  unfold decrStIdx in *. rewrite <- Hd in Hat. exists i. split; [done|]. split; [done|].
  unfold squashStoreAt. rewrite Hi. destruct (stalled u && (entrySeq e =? stallingStoreIsn u)) eqn:Es.
  { apply andb_true_iff in Es as [E1 ?%Z.eqb_eq]. by destruct (Hst E1). }
  unfold setEntry, entryAt. rewrite Hd, (ro_vec_get _ _ _ _ _ _ (length st) e Ro),
    (ro_vec_set _ _ _ _ _ _ _ _ Ro), <- Hd by (by apply list_lookup_middle).
  eexists _, _. do 4 (split; [done|]).
  assert (∀ q, known s q → known (<[entrySeq e := setSquashed i]> s) q) as Hk.
  { intros q Hq'. apply known_insert; [done|]. by rewrite seqNum_setSquashed. }
  pose proof (rep_store _ _ _ _ R Hk) as R'. clear R. destruct R'.
  cbn [q_loads q_stores] in *. rewrite fmap_app, length_app in *. cbn [length] in *.
  apply Forall_app in lr_known_stores0 as [? _]. apply Forall_app in lr_done0 as [? _].
  apply StronglySorted_app in lr_sorted_stores0 as (_ & ? & _).
  apply StronglySorted_app in lr_prefix0 as (_ & ? & _).
  rewrite filter_app, filter_cons_False, app_nil_r in lr_wb0 by (intros [? ?]; congruence).
  constructor; cbn; auto with lia.
Qed.

(** A store stays when it is committed or not younger than [n]. *)
Abbreviation kept n := (λ e, sq_canWB e = true ∨ entrySeq e <= n).

Lemma filter_kept_snoc n st e :
  StronglySorted Z.lt (entrySeq <$> st ++ [e]) →
  StronglySorted (λ e e', sq_canWB e' = true → sq_canWB e = true) (st ++ [e]) →
  filter (kept n) (st ++ [e])
  = if (n <? entrySeq e) && negb (sq_canWB e) then filter (kept n) st else st ++ [e].
Proof.
  intros Hs Hp. destruct ((n <? entrySeq e) && negb (sq_canWB e)) eqn:Eb.
  - apply andb_true_iff in Eb as [?%Z.ltb_lt ?%negb_true_iff].
    rewrite filter_app, filter_cons_False, app_nil_r by (intros [?|?]; [congruence|lia]). done.
  - apply filter_all. rewrite fmap_app in Hs.
    apply StronglySorted_app in Hs as (Hs & _ & _). apply StronglySorted_app in Hp as (Hp & _ & _).
    assert (kept n e) as He.
    { destruct (sq_canWB e); [by left|]. right. rewrite andb_true_r in Eb.
      by apply Z.ltb_ge in Eb. }
    apply Forall_app. split; [|by apply Forall_singleton]. apply Forall_forall. intros x Hx.
    destruct He as [He|He]; [left; by apply (Hp x e Hx); [apply list_elem_of_singleton|]|right].
    assert (entrySeq x < entrySeq e) as Hlt; [|lia].
    apply Hs; [by apply list_elem_of_fmap_2|by apply list_elem_of_singleton].
Qed.

Lemma squashStores_rep n ls : ∀ st u s,
  lsq_rep u s (mkQueues ls st) → Forall (λ p, p <= n) ls →
  ∃ u' s', squashStores (length st) n (decrStIdx u (storeTail u)) u s = Ok (u', s') ∧
    lsq_rep u' s' (mkQueues ls (filter (kept n) st)).
Proof.
  induction st as [|e st IH] using rev_ind; intros u s R Hls.
  { exists u, s. cbn. by rewrite (lr_stores_n _ _ _ R). }
  rewrite filter_kept_snoc by (apply (lr_sorted_stores _ _ _ R) || apply (lr_prefix _ _ _ R)).
  rewrite length_app, Nat.add_comm. cbn [length Nat.add squashStores].
  rewrite (lr_stores_n _ _ _ R), (proj2 (Z.eqb_neq _ _)) by (cbn; rewrite length_app; cbn; lia).
  destruct (rep_storeAt _ _ _ R (length st) e) as (i & Hat & Hi & Hin);
    [by apply list_lookup_middle|].
  destruct (ro_cut _ _ _ _ _ _ e (lr_stores _ _ _ R)) as [Hd _].
  change (decrStIdx u (storeTail u) = ring (SQEntries u) (storeHead u) (Z.of_nat (length st))) in Hd.
  rewrite Hd, Hat, Hi. destruct (Z.ltb_spec n (entrySeq e)) as [Hlt|];
    [destruct (sq_canWB e) eqn:Hc|]; cbn [andb negb]; [eauto| |eauto].
  destruct (squashStoreAt_rep u s ls st e R Hc) as (j & Hat' & _ & u' & s' & Hsq & Ht & _ & _ & R').
  { intros Hst. destruct (lr_stall _ _ _ R Hst) as (k & p & Hk & _ & ?).
    pose proof (Forall_lookup_1 _ _ _ _ Hls Hk). cbn in *. lia. }
  rewrite Hd in Hsq, Hat', Ht. rewrite Hat in Hat'. injection Hat' as <-.
  rewrite Hsq, <- Ht. by apply IH.
Qed.

Lemma dropViolator_rep n u s a :
  lsq_rep u s a → ∃ u', dropViolator n u s = Ok u' ∧ lsq_rep u' s a.
Proof.
  intros R. unfold dropViolator. destruct (memDepViolator u) as [v|] eqn:Hv; [|eauto].
  destruct (known_deref s v (lr_violator _ _ _ R v Hv)) as (i & -> & _).
  destruct (n <? seqNum i); [|eauto]. eexists. split; [done|].
  destruct R. constructor; cbn; auto. done.
Qed.

Lemma lsq_squash_rep n u s a :
  lsq_rep u s a →
  ∃ u' s', lsq_squash n u s = Ok (u', s') ∧ lsq_rep u' s' (lsq_abs (LSquash n) a).
Proof.
  intros R. unfold lsq_squash, lsq_abs. destruct a as [ls st].
  rewrite (lr_loads_n _ _ _ R), Nat2Z.id. cbn [q_loads q_stores].
  destruct (squashLoads_rep n st ls u s R) as (u1 & s1 & -> & R1).
  destruct (dropViolator_rep n u1 s1 _ R1) as (u2 & -> & R2).
  rewrite (lr_stores_n _ _ _ R2), Nat2Z.id. apply squashStores_rep; [done|].
  apply Forall_forall. by intros p [? _]%list_elem_of_filter.
Qed.

(** *** All operations *)

Lemma lsq_run_rep o u s a :
  lsq_rep u s a → lsq_ready o u s a →
  ∃ u' s', lsq_run o u s = Ok (u', s') ∧ lsq_rep u' s' (lsq_abs o a).
Proof.
  intros R Hr. destruct o; cbn [lsq_run].
  - by apply lsq_insert_rep.
  - destruct (lsq_write_rep _ _ _ _ _ _ _ _ R Hr) as (u' & -> & ?). eauto.
  - destruct (commitLoads_rep _ _ _ _ R Hr) as (u' & -> & ?). eauto.
  - destruct (commitStores_rep _ _ _ n R) as (u' & -> & ?). eauto.
  - destruct (retireStores_rep _ _ _ _ R Hr) as (b & u' & -> & ?). eauto.
  - by apply lsq_squash_rep.
  - eexists _, _. split; [done|]. destruct Hr as (p & Hk & Hp). destruct R.
    constructor; cbn; auto. eauto.
  - eexists _, _. split; [done|]. destruct R. by constructor; cbn.
  - eexists _, _. split; [done|]. destruct R. constructor; cbn; auto. by intros v [= <-].
Qed.

Lemma lsq_init_rep nl ns id shift check ports tso line u s :
  0 <= nl < 2 ^ 32 - 1 → 0 <= ns < 2 ^ 32 - 1 →
  lsq_init nl ns id shift check ports tso line = Ok u →
  lsq_rep u s (mkQueues [] []).
Proof.
  intros Hl Hs Hi. unfold lsq_init in Hi. rewrite !wrap_small in Hi by lia. inv_ok Hi.
  apply Z.leb_le in E, E0. constructor; cbn; try done; try by constructor.
  all: split; rewrite ?length_replicate; cbn; try lia; try done.
  all: by rewrite ring_zero by lia.
Qed.

(** A sequence of operations, each performed when it may be. *)
Definition lsq_runs (ops : list lsq_op) (u : LSQUnit) (s : store) : outcome (LSQUnit * store) :=
  foldM (λ x o, lsq_run o x.1 x.2) ops (u, s).

Fixpoint lsq_legal (ops : list lsq_op) (u : LSQUnit) (s : store) (a : Queues) : Prop :=
  match ops with
  | [] => True
  | o :: ops' =>
      lsq_ready o u s a ∧
      ∀ u' s', lsq_run o u s = Ok (u', s') → lsq_legal ops' u' s' (lsq_abs o a)
  end.

Lemma lsq_runs_rep ops : ∀ u s a,
  lsq_rep u s a → lsq_legal ops u s a →
  ∃ u' s', lsq_runs ops u s = Ok (u', s') ∧ lsq_rep u' s' (foldl (flip lsq_abs) a ops).
Proof.
  induction ops as [|o ops IH]; intros u s a R; [by eexists _, _|]. intros [Hr Hl].
  destruct (lsq_run_rep o u s a R Hr) as (u1 & s1 & Hrun & R1).
  destruct (IH u1 s1 _ R1 (Hl _ _ Hrun)) as (u2 & s2 & Hruns & R2).
  exists u2, s2. split; [|done]. unfold lsq_runs. cbn. by rewrite Hrun.
Qed.

(** C23: Refinement.  The circular load and store queues of a freshly
    initialised unit implement two lists: after any sequence of insertions,
    store writes, commits, store completions, squashes, stalls and violations,
    no assertion or panic of those operations has fired, the queues hold
    exactly the entries of the lists in order (with the counters, indices and
    the number of stores left to write back), and the free-entry counts that
    dispatch reads are the capacity minus the lists' lengths. *)
Theorem lsq_refines nl ns id shift check ports tso line u s ops :
  0 <= nl < 2 ^ 32 - 1 → 0 <= ns < 2 ^ 32 - 1 →
  lsq_init nl ns id shift check ports tso line = Ok u →
  lsq_legal ops u s (mkQueues [] []) →
  let a := foldl (flip lsq_abs) (mkQueues [] []) ops in
  ∃ u' s', lsq_runs ops u s = Ok (u', s') ∧ lsq_rep u' s' a ∧
    numFreeLoadEntries u' = LQEntries u' - 1 - Z.of_nat (length (q_loads a)) ∧
    numFreeStoreEntries u' = SQEntries u' - 1 - Z.of_nat (length (q_stores a)).
Proof.
  intros Hl Hs Hi Hleg a. pose proof (lsq_init_rep _ _ _ _ _ _ _ _ _ s Hl Hs Hi) as R.
  destruct (lsq_runs_rep ops u s _ R Hleg) as (u' & s' & Hrun & R').
  exists u', s'. split; [done|]. split; [done|].
  destruct (lr_loads _ _ _ R') as [_ _ Hll _ _]. destruct (lr_stores _ _ _ R') as [_ _ Hsl _ _].
  rewrite length_fmap in Hll. pose proof (lr_width _ _ _ R').
  unfold numFreeLoadEntries, numFreeStoreEntries.
  rewrite (lr_loads_n _ _ _ R'), (lr_stores_n _ _ _ R'), !wrap_small; unfold a; lia.
Qed.

(** Discharges [lsq_legal] of a concrete sequence by running it. *)
Ltac lsq_legal_eval :=
  match goal with
  | |- lsq_legal ?l ?u ?s ?a => let l' := eval vm_compute in l in change (lsq_legal l' u s a)
  end; cbn [lsq_legal];
  repeat match goal with
  | |- _ ∧ _ => split
  | |- ∀ _ _, _ → _ => let H := fresh in intros ? ? H; vm_compute in H; injection H as <- <-
  end; cbn [lsq_ready]; try done;
  try (eexists; split_and!; by_eval || (vm_compute; repeat constructor)).

Module LsqExample.
Definition op (fs : list StaticFlag) (sn : InstSeqNum) : DynInst :=
  initInst (mkStaticInst (fold_right (λ f b, bs_set b f) 0%N (IsMemRef :: fs)) 0 0 0 "") 0 sn 0.
Definition accessing (addr size : Z) (i : DynInst) : DynInst :=
  set_effSize size (set_effAddr addr (flag_assign EffAddrValid true i)).
(** A store of four bytes at 100, a load of four bytes at 102 and a younger
    store. *)
Definition insts : store :=
  <[5 := accessing 100 4 (op [IsStore] 5)]> (<[6 := accessing 102 4 (op [IsLoad] 6)]>
  (<[7 := op [IsStore] 7]> ∅)).
Definition unit0 : LSQUnit :=
  ltac:(match eval vm_compute in (lsq_init 2 2 0 0 true 1 true 64) with
        | Ok ?u => exact u
        end).
Definition ops : list lsq_op := [LInsert 5 false; LInsert 6 true; LInsert 7 false].
(** The unit and the instructions after [ops]. *)
Definition unit1 : LSQUnit :=
  ltac:(match eval vm_compute in (lsq_runs ops unit0 insts) with Ok (?u, _) => exact u end).
Definition insts1 : store :=
  ltac:(match eval vm_compute in (lsq_runs ops unit0 insts) with Ok (_, ?s) => exact s end).
Definition queues1 : Queues := mkQueues [6] [newSQEntry (Some 5); newSQEntry (Some 7)].

Lemma rep1 : lsq_rep unit1 insts1 queues1.
Proof.
  destruct (lsq_runs_rep ops unit0 insts (mkQueues [] [])) as (u & s & H & R).
  - by apply (lsq_init_rep 2 2 0 0 true 1 true 64).
  - lsq_legal_eval.
  - vm_compute in H. injection H as <- <-. exact R.
Qed.
End LsqExample.

Lemma lsq_refines_witness :
  ∃ u' s', lsq_runs (LsqExample.ops ++ [LCommitStores 5; LSquash 6]) LsqExample.unit0
             LsqExample.insts = Ok (u', s') ∧
    numFreeLoadEntries u' = LQEntries u' - 1 - 1 ∧
    numFreeStoreEntries u' = SQEntries u' - 1 - 1.
Proof.
  destruct (lsq_refines 2 2 0 0 true 1 true 64 LsqExample.unit0 LsqExample.insts
              (LsqExample.ops ++ [LCommitStores 5; LSquash 6]))
    as (u' & s' & Hr & _ & Hl & Hs); [lia|lia|reflexivity| |by exists u', s'].
  lsq_legal_eval.
Defined.
