(* ===== verification/LsqOrder.v ===== *)
(** * Memory ordering violations

    When a store executes, [checkViolations] walks the younger loads of the
    queue.  The theorem relates the walk to the reference: the oldest younger
    load that already executed and shares a byte with the store is caught,
    unless a still older violator is already known. *)

From S2P Require Import Prelude Regs Config DynInst Metadata Rob RobSafe StoreSet DepGraph FUPool.
From S2P Require Import MemDepUnit InstQueue LsqUnit LsqInv.

Local Open Scope Z_scope.

(** ** The reference *)

(** The loads the walk does not skip. *)
Definition eligible (i : DynInst) : bool :=
  negb (negb (effAddrValid i) || strictlyOrdered i || isDolmaStalled i).

Definition sameBlocks (u : LSQUnit) (inst ld : DynInst) : bool :=
  (blockLow u ld <=? blockHigh u inst) && (blockLow u inst <=? blockHigh u ld).

Definition conflict (u : LSQUnit) (s : store) (inst : DynInst) (q : DynInstPtr) : bool :=
  match s !! q with
  | Some ld => eligible ld && sameBlocks u inst ld
  | None => false
  end.

(** An access that does not wrap around the address space. *)
Definition access_ok (i : DynInst) : Prop :=
  0 <= effAddr i ∧ 0 < effSize i ∧ effAddr i + effSize i <= 2 ^ 64.

Definition shareByte (i j : DynInst) : Prop :=
  effAddr i < effAddr j + effSize j ∧ effAddr j < effAddr i + effSize i.

(** Blocks are coarser than bytes. *)
Lemma shareByte_blocks u i j :
  0 <= depCheckShift u → access_ok i → access_ok j → shareByte i j → sameBlocks u i j = true.
Proof.
  intros Hs (? & ? & ?) (? & ? & ?) [? ?]. unfold sameBlocks, blockLow, blockHigh, u64, wrap.
  rewrite !(Z.mod_small (_ + _ - 1)) by lia. rewrite !Z.shiftr_div_pow2 by done.
  apply andb_true_iff. split; apply Z.leb_le, Z.div_le_mono; lia.
Qed.

Lemma loadAt_inst idx u s p i : loadAt idx u s = Ok (p, i) → s !! p = Some i.
Proof.
  unfold loadAt. intros H. destruct (vec_get _ _ _) as [[q|]|]; inv_ok H. by apply deref_Ok.
Qed.

(** ** The walk *)

Section walk.
Context (cfg : DolmaConfig) (u : LSQUnit) (s : store) (a : Queues).
Context (p : DynInstPtr) (inst : DynInst).
Hypothesis R : lsq_rep u s a.
Hypothesis Hp : s !! p = Some inst.
Hypothesis Hst : isLoad inst = false.

(** What the walk answers when the oldest conflicting load is [q]. *)
Definition verdict (q : DynInstPtr) : option Fault * LSQUnit * store :=
  if match memDepViolator u with Some v => v <? q | None => false end
  then (None, u, s)
  else (Some M5PanicFault, set_memDepViolator (Some q) u,
        if isDolma cfg && negb (isDolmaConservative cfg) && negb (isSTT cfg)
        then <[p := set_violatorSeqNum q inst]> s else s).

Lemma slot_load_tail k :
  (k <= length (q_loads a))%nat →
  (ring (LQEntries u) (loadHead u) (Z.of_nat k) =? loadTail u) = (k =? length (q_loads a))%nat.
Proof.
  intros Hk. destruct (lr_loads _ _ _ R) as [? ? Hl -> ?]. rewrite length_fmap in *.
  destruct (Nat.eqb_spec k (length (q_loads a))) as [->|]; [apply Z.eqb_refl|].
  apply Z.eqb_neq. intros Heq%ring_inj; lia.
Qed.

Lemma checkLoad_verdict q ld :
  s !! q = Some ld → seqNum ld = q →
  checkLoad cfg p q u s =
  if sameBlocks u inst ld then Ok (true, (verdict q).1.1, (verdict q).1.2, (verdict q).2)
  else Ok (false, None, u, s).
Proof.
  intros Hq Hs. unfold checkLoad, verdict, modify, modifyM.
  rewrite (proj2 (deref_Ok _ _ _) Hp), (proj2 (deref_Ok _ _ _) Hq), Hst, Hs.
  fold (sameBlocks u inst ld). destruct (memDepViolator u) as [v|] eqn:Hv.
  - destruct (lr_violator _ _ _ R v Hv) as (j & Hj & Hjs).
    rewrite (proj2 (deref_Ok _ _ _) Hj), Hjs. destruct (sameBlocks u inst ld); [|done].
    destruct (v <? q); [done|]. by destruct (_ && _).
  - destruct (sameBlocks u inst ld); [|done]. by destruct (_ && _).
Qed.

Lemma checkViolationsFrom_spec : ∀ rest k fuel,
  drop k (q_loads a) = rest → (k <= length (q_loads a))%nat → (length rest <= fuel)%nat →
  checkViolationsFrom cfg fuel (ring (LQEntries u) (loadHead u) (Z.of_nat k)) p u s
  = Ok (match head (filter (λ q, conflict u s inst q = true) rest) with
        | None => (None, u, s)
        | Some q => verdict q
        end).
Proof.
  induction rest as [|q rest IH]; intros k fuel Hd Hk Hf.
  { apply (f_equal length) in Hd. rewrite length_drop in Hd. cbn in Hd.
    destruct fuel; cbn [checkViolationsFrom]; rewrite slot_load_tail by done;
      by rewrite (proj2 (Nat.eqb_eq _ _)) by lia. }
  assert (q_loads a !! k = Some q) as Hq.
  { rewrite <- (Nat.add_0_r k), <- lookup_drop, Hd. done. }
  pose proof (lookup_lt_Some _ _ _ Hq). destruct fuel as [|fuel]; cbn in Hf; [lia|].
  cbn [checkViolationsFrom]. rewrite slot_load_tail, (proj2 (Nat.eqb_neq _ _)) by lia.
  destruct (rep_loadAt _ _ _ R k q Hq) as (ld & Hat & Hs). rewrite Hat.
  pose proof (loadAt_inst _ _ _ _ _ Hat) as Hld.
  assert (incrLdIdx u (ring (LQEntries u) (loadHead u) (Z.of_nat k))
    = ring (LQEntries u) (loadHead u) (Z.of_nat (S k))) as ->.
  { unfold incrLdIdx. rewrite ring_incr by (destruct (lr_loads _ _ _ R); lia). f_equal. lia. }
  assert (drop (S k) (q_loads a) = rest) as Hd'.
  { rewrite <- Nat.add_1_r, <- drop_drop, Hd. done. }
  assert (conflict u s inst q = eligible ld && sameBlocks u inst ld) as Hc
    by (unfold conflict; by rewrite Hld).
  unfold eligible in Hc.
  destruct (negb (effAddrValid ld) || strictlyOrdered ld || isDolmaStalled ld).
  { rewrite filter_cons_False by (by rewrite Hc). apply IH; [done|lia|lia]. }
  rewrite (checkLoad_verdict q ld Hld Hs). cbn [negb andb] in Hc.
  destruct (sameBlocks u inst ld).
  - rewrite filter_cons_True by done. cbn. by destruct (verdict q) as [[? ?] ?].
  - rewrite filter_cons_False by (by rewrite Hc). apply IH; [done|lia|lia].
Qed.
End walk.

(** C22: No missed violation.  When a store executes, the walk over the younger
    loads always ends with an answer, and afterwards every younger load that
    had already executed and shares a byte with the store is at or behind the
    recorded violator [memDepViolator], so the squash that follows removes it.
    A fault is only raised for a queued younger load of the same blocks, which
    is then the violator and, in the performance mode of DOLMA, is remembered by
    the store. *)
Theorem no_missed_violation cfg u s a p inst k :
  lsq_rep u s a → s !! p = Some inst → isLoad inst = false → access_ok inst →
  0 <= depCheckShift u → (k <= length (q_loads a))%nat →
  ∃ f u' s', checkViolations cfg (ring (LQEntries u) (loadHead u) (Z.of_nat k)) p u s
             = Ok (f, u', s') ∧
    (∀ j q ld, (k <= j)%nat → q_loads a !! j = Some q → s !! q = Some ld →
       eligible ld = true → access_ok ld → shareByte inst ld →
       ∃ v, memDepViolator u' = Some v ∧ v <= q) ∧
    (f ≠ None → ∃ q, memDepViolator u' = Some q ∧ q ∈ drop k (q_loads a) ∧
       conflict u s inst q = true ∧
       (isDolma cfg && negb (isDolmaConservative cfg) && negb (isSTT cfg) = true →
        ∃ i', s' !! p = Some i' ∧ violatorSeqNum i' = q)).
Proof.
  intros R Hp Hst Hok Hsh Hk. unfold checkViolations.
  rewrite (checkViolationsFrom_spec cfg u s a p inst R Hp Hst (drop k (q_loads a)) k) by
    (done || (rewrite length_drop; destruct (lr_loads _ _ _ R); rewrite length_fmap in *; lia)).
  set (l := filter (λ q, conflict u s inst q = true) (drop k (q_loads a))).
  assert (∀ j q ld, (k <= j)%nat → q_loads a !! j = Some q → s !! q = Some ld →
    eligible ld = true → access_ok ld → shareByte inst ld → q ∈ l) as Hin.
  { intros j q ld Hj Hq Hld He Ho Hsb. apply list_elem_of_filter. split.
    - unfold conflict. rewrite Hld, He. by apply shareByte_blocks.
    - apply list_elem_of_lookup. exists (j - k)%nat. rewrite lookup_drop.
      by replace (k + (j - k))%nat with j by lia. }
  assert (StronglySorted Z.lt l) as Hsl.
  { apply StronglySorted_filter. pose proof (lr_sorted_loads _ _ _ R) as Hs.
    rewrite <- (take_drop k (q_loads a)) in Hs. by apply StronglySorted_app in Hs as (_ & _ & ?). }
  destruct (head l) as [q|] eqn:Hh.
  2: { eexists _, _, _. split; [done|]. split; [|done]. intros j q ld ? ? ? ? ? ?.
       apply head_None in Hh. rewrite Hh in Hin. exfalso. by eapply not_elem_of_nil, Hin. }
  assert (∀ q', q' ∈ l → q <= q') as Hmin.
  { destruct l as [|q0 l0]; [done|]. injection Hh as ->. intros q' [->|Hq']%elem_of_cons; [lia|].
    apply StronglySorted_inv in Hsl as [_ Hsl]. rewrite Forall_forall in Hsl.
    specialize (Hsl q' Hq'). cbn in Hsl. lia. }
  assert (q ∈ l) as Hql by (destruct l; [done|injection Hh as ->; left]).
  apply list_elem_of_filter in Hql as [Hqc Hqd]. unfold verdict.
  destruct (match memDepViolator u with Some v => v <? q | None => false end) eqn:Ev.
  - eexists _, _, _. split; [done|]. split; [|done]. intros j q' ld ? ? ? ? ? ?.
    destruct (memDepViolator u) as [v|]; [|done]. apply Z.ltb_lt in Ev.
    exists v. split; [done|]. assert (q <= q'); [by eapply Hmin, Hin|lia].
  - eexists _, _, _. split; [done|]. split.
    + intros. exists q. split; [done|]. by eapply Hmin, Hin.
    + intros _. exists q. repeat (split; [done|]). intros ->.
      eexists. by rewrite lookup_insert_eq.
Qed.

Lemma no_missed_violation_witness :
  ∃ f u' s', checkViolations (mkDolmaConfig true false false false) 0 5 LsqExample.unit1
               LsqExample.insts1 = Ok (f, u', s') ∧ ∃ v, memDepViolator u' = Some v ∧ v <= 6.
Proof.
  destruct (no_missed_violation (mkDolmaConfig true false false false) LsqExample.unit1
    LsqExample.insts1 LsqExample.queues1 5
    (default (LsqExample.op [] 0) (LsqExample.insts1 !! 5)) 0)
    as (f & u' & s' & Hc & Hall & _);
    [exact LsqExample.rep1|reflexivity|reflexivity|by_eval|by_eval|cbn; lia|].
  exists f, u', s'. split; [exact Hc|].
  apply (Hall 0%nat 6 (default (LsqExample.op [] 0) (LsqExample.insts1 !! 6)));
    [lia|reflexivity..|by_eval|by_eval].
Defined.
