(* ===== verification/LsqForward.v ===== *)
(** * Store-to-load forwarding

    [read] searches the older stores of the queue for the bytes of a load.  The
    reference is a byte map: each byte comes from the youngest older store that
    wrote it, and from memory when none did.  DOLMA adds that a hit on a
    restricted store must not show: the load then accesses the cache exactly as
    if the store were not there. *)

From S2P Require Import Prelude Regs Config DynInst Metadata Rob RobSafe StoreSet DepGraph FUPool.
From S2P Require Import MemDepUnit InstQueue IqTaint LsqUnit LsqInv LsqOrder.

Local Open Scope Z_scope.

(** ** The reference *)

(** The byte a store holds for an address. *)
Definition byteOf (e : SQEntry) (i : DynInst) (addr : Z) : option Z :=
  if (effAddr i <=? addr) && (addr <? effAddr i + sq_size e)
  then if sq_isAllZeros e then Some 0 else sq_data e !! Z.to_nat (addr - effAddr i)
  else None.

(** The byte of the youngest store that has one; the list is youngest first. *)
Fixpoint lookupByte (l : list (SQEntry * DynInst)) (addr : Z) : option Z :=
  match l with
  | [] => None
  | (e, i) :: l' =>
      match (if skipsStore i e then None else byteOf e i addr) with
      | Some b => Some b
      | None => lookupByte l' addr
      end
  end.

(** The stores from position [wb] up to [wb + n], youngest first. *)
Fixpoint window (s : store) (l : list SQEntry) (wb n : nat) : list (SQEntry * DynInst) :=
  match n with
  | O => []
  | S n' =>
      match l !! (wb + n')%nat with
      | Some e =>
          match s !! entrySeq e with
          | Some i => (e, i) :: window s l wb n'
          | None => []
          end
      | None => []
      end
  end.

(** A store that can forward was executed: it has its address, size and data and is
    not yet in memory.  Of the others nothing is required. *)
Definition store_ok (x : SQEntry * DynInst) : Prop :=
  let (e, i) := x in
  skipsStore i e = false →
    effAddrValid i = true ∧ 0 <= effAddr i ∧ 0 < sq_size e ∧ effAddr i + sq_size e < 2 ^ 64 ∧
    (sq_isAllZeros e = true ∨ sq_size e <= Z.of_nat (length (sq_data e))) ∧
    sq_completed e = false.

(** A store that stops the simulation when the search passes it: in DOLMA's
    performance mode the code asserts that a store it cannot forward from, because it
    has no size or is strictly ordered, has no valid address yet. *)
Definition bypassFails (cfg : DolmaConfig) (x : SQEntry * DynInst) : bool :=
  let (e, i) := x in
  isDolma cfg && negb (isDolmaConservative cfg) && negb (isSTT cfg)
  && ((sq_size e =? 0) || strictlyOrdered i) && effAddrValid i.
Definition bypassAssertion : error := Assertion "!storeQueue[store_idx].inst->effAddrValid()".

Definition request_ok (req : Request) : Prop :=
  0 <= req_vaddr req ∧ 0 < req_size req ∧ req_vaddr req + req_size req < 2 ^ 64 ∧
  req_isLLSC req = false.

(** ** One store *)

Section one_store.
Context (req : Request) (e : SQEntry) (i : DynInst).
Hypothesis Hr : request_ok req.
Hypothesis Hs : skipsStore i e = false.
Hypothesis Ho : store_ok (e, i).

Lemma isTotal_iff :
  isTotal req (overlapOf req i e) = true ↔
  effAddr i <= req_vaddr req ∧ req_vaddr req + req_size req <= effAddr i + sq_size e.
Proof.
  destruct Hr as (? & ? & ? & Hl). specialize (Ho Hs).
  destruct Ho as (_ & ? & ? & ? & _). unfold isTotal, overlapOf, u64, wrap. cbn.
  rewrite Hl, !Z.mod_small, andb_true_r, andb_true_iff, !Z.leb_le by lia. done.
Qed.

Lemma isPartial_iff :
  isPartial req (overlapOf req i e) = true ↔
  req_vaddr req < effAddr i + sq_size e ∧ effAddr i < req_vaddr req + req_size req.
Proof.
  destruct Hr as (? & ? & ? & Hl). specialize (Ho Hs).
  destruct Ho as (_ & ? & ? & ? & _). unfold isPartial, overlapOf, u64, wrap. cbn.
  rewrite Hl, !Z.mod_small by lia. cbn. rewrite orb_false_r, !orb_true_iff, !andb_true_iff.
  rewrite !Z.leb_le, !Z.ltb_lt. lia.
Qed.

Lemma disjoint_byte b :
  isPartial req (overlapOf req i e) = false → 0 <= b < req_size req →
  byteOf e i (req_vaddr req + b) = None.
Proof.
  intros Hp Hb. unfold byteOf. destruct (_ && _) eqn:E; [|done].
  apply andb_true_iff in E as [?%Z.leb_le ?%Z.ltb_lt].
  assert (isPartial req (overlapOf req i e) = true); [|congruence].
  apply isPartial_iff. lia.
Qed.

Lemma total_byte ld b :
  isTotal req (overlapOf req i e) = true → 0 <= b < req_size req →
  ∃ m, memData (setForwarded req i e ld) = Some m ∧
       m !! Z.to_nat b = byteOf e i (req_vaddr req + b) ∧
       byteOf e i (req_vaddr req + b) ≠ None.
Proof.
  intros [H1 H2]%isTotal_iff Hb. destruct Hr as (? & ? & ? & _).
  specialize (Ho Hs). destruct Ho as (_ & ? & ? & ? & Hd & _).
  eexists. split; [done|]. unfold byteOf, overwrite, forwardedBytes, slice.
  rewrite (proj2 (Z.leb_le _ _)), (proj2 (Z.ltb_lt _ _)) by lia. cbn [andb].
  destruct (sq_isAllZeros e).
  - rewrite lookup_app_l by (rewrite length_replicate; lia).
    rewrite lookup_replicate_2 by lia. done.
  - destruct Hd as [?|Hd]; [done|]. unfold u64, wrap. rewrite Z.mod_small by lia.
    rewrite lookup_app_l by (rewrite length_take, length_drop; lia).
    rewrite lookup_take_lt, lookup_drop by lia.
    replace (Z.to_nat (req_vaddr req - effAddr i) + Z.to_nat b)%nat
      with (Z.to_nat (req_vaddr req + b - effAddr i)) by lia.
    split; [done|]. intros Hn%lookup_ge_None. lia.
Qed.

Lemma touching_byte :
  req_vaddr req < effAddr i + sq_size e ∧ effAddr i < req_vaddr req + req_size req →
  ∃ b, 0 <= b < req_size req ∧ byteOf e i (req_vaddr req + b) ≠ None.
Proof.
  intros [? ?]. specialize (Ho Hs). destruct Ho as (_ & ? & ? & ? & Hd & _).
  destruct Hr as (? & ? & ? & _).
  exists (Z.max 0 (effAddr i - req_vaddr req)). split; [lia|]. unfold byteOf.
  rewrite (proj2 (Z.leb_le _ _)), (proj2 (Z.ltb_lt _ _)) by lia. cbn [andb].
  destruct (sq_isAllZeros e); [done|]. destruct Hd as [?|?]; [done|].
  intros Hn%lookup_ge_None. lia.
Qed.

Lemma total_partial :
  isTotal req (overlapOf req i e) = true → isPartial req (overlapOf req i e) = true.
Proof.
  intros [? ?]%isTotal_iff. apply isPartial_iff. destruct Hr as (? & ? & ? & _).
  specialize (Ho Hs). destruct Ho as (_ & ? & ? & ? & _). lia.
Qed.
End one_store.

(** ** The walk *)

(** The load may have become a data inducer on the way. *)
Definition induced (ld ld' : DynInst) : Prop :=
  ∃ b, ld' = set_status b ld ∧ ∀ x, x ≠ DataInducer → bs_test b x = bs_test (status ld) x.

Lemma induced_refl ld : induced ld ld.
Proof. exists (status ld). split; [by destruct ld|done]. Qed.

Lemma induced_trans ld1 ld2 ld3 : induced ld1 ld2 → induced ld2 ld3 → induced ld1 ld3.
Proof.
  intros (b & -> & Hb) (c & -> & Hc). exists c. split; [done|]. intros x Hx.
  rewrite Hc by done. by apply Hb.
Qed.

Lemma induced_restricted ld ld' : induced ld ld' → isDolmaRestricted ld' = isDolmaRestricted ld.
Proof. intros (b & -> & Hb). dyn_simpl. by rewrite !Hb. Qed.

Lemma setDataInducer_induced cfg ld :
  isDolma cfg = true → isSquashed ld = false → strictlyOrdered ld = false →
  ∃ ld', setDataInducer cfg ld = Ok ld' ∧ induced ld ld' ∧
    isSquashed ld' = false ∧ strictlyOrdered ld' = false.
Proof.
  intros Hd Hs Ho. unfold setDataInducer. rewrite Hd, Hs, Ho. eexists. split; [done|].
  split; [|split; [|done]].
  - eexists. split; [done|]. intros x Hx. rewrite bs_test_set.
    destruct (N.eqb_spec (bit_index DataInducer) (bit_index x)) as [Heq|]; [|done].
    by apply bit_index_inj in Heq.
  - revert Hs. dyn_simpl. done.
Qed.

(** What a search over the stores [ws] answers. *)
Definition covered (req : Request) (ws : list (SQEntry * DynInst)) (ld : DynInst) : Prop :=
  ∀ b, 0 <= b < req_size req → ∃ m, memData ld = Some m ∧
    m !! Z.to_nat b = lookupByte ws (req_vaddr req + b) ∧
    lookupByte ws (req_vaddr req + b) ≠ None.

Definition touched (req : Request) (ws : list (SQEntry * DynInst)) : Prop :=
  ∃ b, 0 <= b < req_size req ∧ lookupByte ws (req_vaddr req + b) ≠ None.

Definition untouched (req : Request) (ws : list (SQEntry * DynInst)) : Prop :=
  ∀ b, 0 <= b < req_size req → lookupByte ws (req_vaddr req + b) = None.

Definition hides (cfg : DolmaConfig) (i ld : DynInst) : bool :=
  isDolma cfg && isDolmaRestricted i && negb (isDolmaRestricted ld).

(** A store of [ws] the search stopped at, for which [P] holds. *)
Definition stopped (ws : list (SQEntry * DynInst)) (P : DynInst → Prop) : Prop :=
  ∃ e i, (e, i) ∈ ws ∧ skipsStore i e = false ∧ P i.

Definition search_result (cfg : DolmaConfig) (req : Request) (was : bool) (u : LSQUnit)
    (l : list SQEntry) (ws : list (SQEntry * DynInst)) (ld ld' : DynInst) (hit : SQSearch)
  : Prop :=
  match hit with
  | NoHit => induced ld ld' ∧ untouched req ws
  | Forward _ => covered req ws ld' ∧ stopped ws (λ i, hides cfg i ld = false)
  | TotalHit _ => covered req ws ld' ∧
      ∃ ld0 e i, induced ld ld0 ∧ ld' = setTotalStoreBufferHit (setForwarded req i e ld0)
  | PartialHit k => touched req ws ∧ (∃ j, k = slotOf u j ∧ is_Some (l !! j)) ∧
      ∃ ld0, induced ld ld0 ∧ ld' = setPartialStoreBufferHit ld0
  | Retry k => touched req ws ∧ (∃ j, k = slotOf u j ∧ is_Some (l !! j)) ∧ induced ld ld' ∧
      stopped ws (λ i, negb (isSTT cfg) && hides cfg i ld && negb was = false)
  end.

Lemma search_result_cons cfg req was u l x ws ld ld1 ld' hit :
  (∀ b, 0 <= b < req_size req →
     lookupByte (x :: ws) (req_vaddr req + b) = lookupByte ws (req_vaddr req + b)) →
  induced ld ld1 → search_result cfg req was u l ws ld1 ld' hit →
  search_result cfg req was u l (x :: ws) ld ld' hit.
Proof.
  intros Hb Hi. assert (∀ P : DynInst → Prop, stopped ws P → stopped (x :: ws) P) as Hst.
  { intros P (e & i & ? & ?). exists e, i. split; [by right|done]. }
  assert (∀ i, hides cfg i ld1 = hides cfg i ld) as Hh.
  { intros i. unfold hides. by rewrite (induced_restricted _ _ Hi). }
  assert (covered req ws ld' → covered req (x :: ws) ld') as Hc.
  { intros Hc b Hr. rewrite Hb by done. by apply Hc. }
  assert (touched req ws → touched req (x :: ws)) as Ht.
  { intros (b & Hr & Hn). exists b. by rewrite Hb. }
  destruct hit; cbn; unfold stopped in *; try setoid_rewrite Hh.
  - intros [Hi' Hu]. split; [by eapply induced_trans|]. intros b Hr. rewrite Hb by done. by apply Hu.
  - intros [? ?]. split; [auto|]. by apply (Hst (λ i, hides cfg i ld = false)).
  - intros (? & ld0 & e & i & ? & ?). split; [auto|]. exists ld0, e, i.
    split; [by eapply induced_trans|done].
  - intros (? & ? & ld0 & ? & ?). split; [auto|]. split; [done|]. exists ld0.
    split; [by eapply induced_trans|done].
  - intros (? & ? & ? & ?). split; [auto|]. split; [done|]. split; [by eapply induced_trans|].
    by apply (Hst (λ i, negb (isSTT cfg) && hides cfg i ld && negb was = false)).
Qed.

Section walk.
Context (cfg : DolmaConfig) (u : LSQUnit) (a : Queues).
Context (p : DynInstPtr) (req : Request) (was : bool) (wb : nat).
Hypothesis Hr : request_ok req.
Hypothesis Hwb : storeWBIdx u = slotOf u wb.
Hypothesis Hp : p ∉ entrySeq <$> q_stores a.

Lemma window_insert s ld l n :
  p ∉ entrySeq <$> l → window (<[p := ld]> s) l wb n = window s l wb n.
Proof.
  intros Hl. induction n as [|n IH]; [done|]. cbn.
  destruct (l !! (wb + n)%nat) as [e|] eqn:He; [|done].
  rewrite lookup_insert_ne; [by rewrite IH|]. intros ->. apply Hl.
  by apply list_elem_of_fmap_2, (list_elem_of_lookup_2 _ _ _ He).
Qed.

(** The store the walk visits next. *)
Lemma window_step s n :
  lsq_rep u s a → (wb + S n <= length (q_stores a))%nat →
  ∃ e i, q_stores a !! (wb + n)%nat = Some e ∧
    window s (q_stores a) wb (S n) = (e, i) :: window s (q_stores a) wb n ∧
    decrStIdx u (slotOf u (wb + S n)) = slotOf u (wb + n) ∧
    (slotOf u (wb + S n) =? -1) || (slotOf u (wb + S n) =? storeWBIdx u) = false ∧
    storeAt (slotOf u (wb + n)) u s = Ok (e, entrySeq e, i).
Proof.
  intros R Hn. destruct (lookup_lt_is_Some_2 (q_stores a) (wb + n)) as [e He]; [lia|].
  destruct (rep_storeAt _ _ _ R _ _ He) as (i & Hat & _ & Hi). exists e, i. split; [done|].
  destruct (lr_stores _ _ _ R) as [Hnv ? Hl _ _]. split.
  { cbn. rewrite He. unfold storeAt in Hat. rewrite (rep_entryAt _ _ _ R _ _ He), Hi in Hat.
    inv_ok Hat. apply deref_Ok in E. by rewrite E. }
  split; [|split; [|done]].
  - unfold decrStIdx, slotOf.
    replace (Z.of_nat (wb + S n)) with (Z.of_nat (wb + n) + 1) by lia. apply ring_decr. lia.
  - apply orb_false_iff. rewrite Hwb, !Z.eqb_neq. unfold slotOf.
    pose proof (ring_bound (SQEntries u) (storeHead u) ltac:(lia) (Z.of_nat (wb + S n))).
    split; [lia|]. intros Heq%ring_inj; lia.
Qed.

(** The store is passed over: the bytes of the load come from the older ones. *)
Definition passed (e : SQEntry) (i : DynInst) (ws : list (SQEntry * DynInst)) : Prop :=
  ∀ b, 0 <= b < req_size req →
    lookupByte ((e, i) :: ws) (req_vaddr req + b) = lookupByte ws (req_vaddr req + b).

(** The answer when the walk stops at a store. *)
Definition hitAnswer (k : Z) (e : SQEntry) (i ld : DynInst) (s : store)
  : outcome (SQSearch * store) :=
  if isTotal req (overlapOf req i e) then
    if hides cfg i ld
    then Ok (TotalHit k, <[p := setTotalStoreBufferHit (setForwarded req i e ld)]> s)
    else Ok (Forward k, <[p := setForwarded req i e ld]> s)
  else if negb (isSTT cfg) && hides cfg i ld && negb was
  then Ok (PartialHit k, <[p := setPartialStoreBufferHit ld]> s)
  else Ok (Retry k, s).

Lemma hitAnswer_result e i ld s ws j :
  store_ok (e, i) → skipsStore i e = false → s !! p = Some ld → is_Some (q_stores a !! j) →
  isPartial req (overlapOf req i e) = true →
  ∃ hit ld', hitAnswer (slotOf u j) e i ld s = Ok (hit, <[p := ld']> s) ∧
    search_result cfg req was u (q_stores a) ((e, i) :: ws) ld ld' hit.
Proof.
  intros Ho Hsk Hld Hj Hpt. unfold hitAnswer.
  assert (∀ b, byteOf e i (req_vaddr req + b) ≠ None →
    lookupByte ((e, i) :: ws) (req_vaddr req + b) = byteOf e i (req_vaddr req + b)) as Hfst.
  { intros b Hbn. cbn. rewrite Hsk. by destruct (byteOf e i (req_vaddr req + b)). }
  assert (touched req ((e, i) :: ws)) as Ht.
  { apply (isPartial_iff _ _ _ Hr Hsk Ho) in Hpt. pose proof Hr as (? & ? & ? & _).
    pose proof (touching_byte _ _ _ Hr Hsk Ho Hpt) as (b & Hb & Hn). exists b. by rewrite Hfst. }
  assert (stopped ((e, i) :: ws) (eq i)) as Hst by (exists e, i; split_and!; [left|done..]).
  destruct (isTotal req (overlapOf req i e)) eqn:Etot.
  - assert (∀ ld0, memData ld0 = memData (setForwarded req i e ld) →
      covered req ((e, i) :: ws) ld0) as Hcov.
    { intros ld0 Hm b Hb. destruct (total_byte req e i Hr Hsk Ho ld b Etot Hb) as (m & ? & Hm2 & ?).
      exists m. rewrite Hm, Hfst by done. done. }
    destruct (hides cfg i ld) eqn:Eh; eexists _, _; (split; [done|]); split; try by apply Hcov.
    + exists ld, e, i. split; [apply induced_refl|done].
    + exists e, i. split_and!; [left|done..].
  - destruct (negb (isSTT cfg) && hides cfg i ld && negb was) eqn:Eh.
    + eexists _, _. split; [done|]. split; [done|]. split; [eauto|].
      exists ld. split; [apply induced_refl|done].
    + exists (Retry (slotOf u j)), ld. rewrite insert_id by done. split; [done|].
      split; [done|]. split; [eauto|]. split; [apply induced_refl|].
      exists e, i. split_and!; [left|done..].
Qed.

(** What a search over the stores [ws] may return: an answer, and then it has touched
    nothing but the load, or the failed assertion. *)
Definition searched (s : store) (ws : list (SQEntry * DynInst)) (ld : DynInst)
    (o : outcome (SQSearch * store)) : Prop :=
  (∃ hit ld', o = Ok (hit, <[p := ld']> s) ∧ search_result cfg req was u (q_stores a) ws ld ld' hit) ∨
  (Exists (λ x, bypassFails cfg x = true) ws ∧ o = Err bypassAssertion).

(** The search ends. *)
Lemma searchSQ_spec : ∀ n fuel s ld,
  lsq_rep u s a → s !! p = Some ld → seqNum ld = p →
  isSquashed ld = false → strictlyOrdered ld = false →
  (wb + n <= length (q_stores a))%nat → (n <= fuel)%nat →
  Forall store_ok (window s (q_stores a) wb n) →
  searched s (window s (q_stores a) wb n) ld (searchSQ cfg fuel p req was (slotOf u (wb + n)) u s).
Proof.
  induction n as [|n IH]; intros fuel s ld R Hld Hseq Hsq Hso Hn Hf Hok.
  { left. exists NoHit, ld. rewrite Nat.add_0_r, insert_id by done. split; [|split; [apply induced_refl|done]].
    destruct fuel; cbn [searchSQ]; by rewrite Hwb, Z.eqb_refl, orb_true_r. }
  destruct fuel as [|fuel]; [lia|].
  destruct (window_step s n R Hn) as (e & i & He & Hw & Hd & Hne & Hat).
  rewrite Hw in *. apply Forall_cons in Hok as [Ho Hok]. set (ws := window s (q_stores a) wb n) in *.
  cbn [searchSQ]. rewrite Hne, Hd, Hat, (proj2 (deref_Ok _ _ _) Hld).
  assert (∀ ld1, induced ld ld1 → isSquashed ld1 = false → strictlyOrdered ld1 = false →
    passed e i ws →
    searched s ((e, i) :: ws) ld (searchSQ cfg fuel p req was (slotOf u (wb + n)) u (<[p := ld1]> s))) as Hrec.
  { intros ld1 Hi1 Hsq1 Hso1 Hb. assert (seqNum ld1 = p) as Hs1 by (by destruct Hi1 as (? & -> & _)).
    destruct (IH fuel (<[p := ld1]> s) ld1) as [(hit & ld' & Hs & Hres)|[Hb1 Hs]];
      rewrite ?window_insert, ?lookup_insert_eq by done; try done; [|lia|lia| |].
    - eapply rep_store; [done|]. intros q Hq. by apply known_insert.
    - left. exists hit, ld'. rewrite window_insert in Hres by done. rewrite insert_insert_eq in Hs.
      split; [done|]. by eapply search_result_cons.
    - right. rewrite window_insert in Hb1 by done. split; [by right|done]. }
  pose proof (Hrec ld (induced_refl ld) Hsq Hso) as Hsame. rewrite insert_id in Hsame by done.
  destruct (skipsStore i e) eqn:Hsk.
  { assert (passed e i ws) as Hpass by (intros b _; cbn; by rewrite Hsk).
    destruct (_ && ((sq_size e =? 0) || strictlyOrdered i)) eqn:Ec; [|by apply Hsame].
    destruct (effAddrValid i) eqn:Ev; cbn [negb].
    { right. split; [|done]. left. unfold bypassFails. by rewrite Ec, Ev. }
    apply andb_true_iff in Ec as [Em Es]. apply andb_true_iff in Em as [Em _]. apply andb_true_iff in Em as [Em _].
    destruct (setDataInducer_induced cfg ld Em Hsq Hso) as (ld1 & Hset & Hi1 & Hsq1 & Hso1).
    unfold modifyM. rewrite (proj2 (deref_Ok _ _ _) Hld), Hset. by apply Hrec. }
  pose proof (Ho Hsk) as Ho'. destruct Ho' as (Hv & _ & _ & _ & _ & Hcm). rewrite Hv, Hcm.
  destruct (isPartial req (overlapOf req i e)) eqn:Ept.
  - destruct (hitAnswer_result e i ld s ws (wb + n) Ho Hsk Hld (mk_is_Some _ _ He) Ept)
      as (hit & ld' & Ha & Hres).
    left. exists hit, ld'. split; [|done]. rewrite <- Ha. unfold hitAnswer, hides.
    destruct (isTotal _ _); [done|]. by rewrite !andb_assoc, (andb_comm (isDolma cfg)).
  - destruct (isTotal req (overlapOf req i e)) eqn:Etot.
    { apply (total_partial _ _ _ Hr Hsk Ho) in Etot. congruence. }
    apply Hsame. intros b Hb. cbn. rewrite Hsk. by rewrite (disjoint_byte _ _ _ Hr Hsk Ho b Ept Hb).
Qed.
End walk.


(** ** Hits on restricted stores do not show *)

(** The store index [read] goes on with. *)
Definition stopIdx (hit : SQSearch) : Z :=
  match hit with
  | NoHit => -1
  | Forward k | TotalHit k | PartialHit k | Retry k => k
  end.

(** A load that accesses memory after the search keeps its identity and its
    restriction, and is a partial hit only if the search found one. *)
Lemma accessing_hit cfg req was u l ws ld ld' hit :
  search_result cfg req was u l ws ld ld' hit →
  (seqNum ld' = seqNum ld ∧ isDolmaRestricted ld' = isDolmaRestricted ld ∧
   (isPartialStoreBufferHit ld' = true → isPartialStoreBufferHit ld = true ∨
      ∃ j, stopIdx hit = slotOf u j ∧ is_Some (l !! j)) ∧
   match hit with Forward _ | Retry _ => False | _ => True end) ∨
  match hit with Forward _ | Retry _ => True | _ => False end.
Proof.
  destruct hit; cbn; try (by right); left.
  - destruct H as [(b & -> & Hb) _]. split_and!; [done| | |done].
    + by apply induced_restricted; exists b.
    + dyn_simpl. rewrite Hb by done. by left.
  - destruct H as (_ & ld0 & e & i & (b & -> & Hb) & ->). split_and!; [done| | |done].
    + unfold setTotalStoreBufferHit, setForwarded. dyn_simpl. cbn [set_memData status set_status].
      dyn_red. by rewrite !Hb.
    + unfold setTotalStoreBufferHit, setForwarded. dyn_simpl. cbn [set_memData status set_status].
      dyn_red. rewrite Hb by done. by left.
  - destruct H as (_ & ? & ld0 & (b & -> & Hb) & ->). split_and!; [done| |by right|done].
    unfold setPartialStoreBufferHit. dyn_simpl. by rewrite !Hb.
Qed.

Section masking.
Context {M : Type} `{MemSystem M} `{StorePort M}.
Variable cfg : DolmaConfig.
Implicit Types w : World M.

Lemma w_modify_ok f p (w : World M) i :
  w_insts w !! p = Some i → w_modify f p w = Ok (w_set_insts (<[p := f i]> (w_insts w)) w).
Proof. intros Hi. unfold w_modify, modify, modifyM. by rewrite (proj2 (deref_Ok _ _ _) Hi). Qed.

Lemma stallLoad_total (w : World M) a p ld idx j :
  lsq_rep (w_lsq w) (w_insts w) a → w_insts w !! p = Some ld →
  is_Some (q_stores a !! j) →
  ∃ w', stallLoad p idx (slotOf (w_lsq w) j) w = Ok w' ∧ w_mem w' = w_mem w.
Proof.
  intros R Hld [e He]. unfold stallLoad. rewrite (proj2 (deref_Ok _ _ _) Hld).
  assert (∃ b, (if stalled (w_lsq w) then
      let! (_, x) := loadAt (stallingLoadIdx (w_lsq w)) (w_lsq w) (w_insts w) in
      Ok (seqNum ld <? seqNum x) else Ok true) = Ok b) as (older & ->).
  { destruct (stalled (w_lsq w)) eqn:Es; [|eauto].
    destruct (lr_stall _ _ _ R Es) as (k & q & Hk & -> & _).
    destruct (rep_loadAt _ _ _ R k q Hk) as (x & -> & _). eauto. }
  destruct (rep_storeAt _ _ _ R _ _ He) as (i & Hat & _ & _). unfold slotOf. rewrite Hat.
  set (w1 := if older then w_set_lsq _ w else w).
  assert (w_insts w1 = w_insts w ∧ w_mem w1 = w_mem w) as [Hi1 Hm1] by (unfold w1; by destruct older).
  unfold w_reschedule, rescheduleMemInst. rewrite Hi1, (proj2 (deref_Ok _ _ _) Hld).
  erewrite w_modify_ok; [|cbn; apply lookup_insert_eq]. eexists. split; [done|]. done.
Qed.

Lemma prepareBuffer_frame req was ld :
  status (prepareBuffer req was ld) = status ld ∧ seqNum (prepareBuffer req was ld) = seqNum ld.
Proof. unfold prepareBuffer. by destruct (isDummy was ld). Qed.

Lemma sendLoad_no_miss fst snd (m : M) :
  req_isRestricted fst = false → (∀ r, snd = Some r → req_isRestricted r = false) →
  dolma_restricted_miss (sendLoad fst snd m).1 = false.
Proof.
  intros Hf Hs. unfold sendLoad. destruct (dcache_sendTimingReq fst m) as [[[] r] m1].
  - destruct snd as [hi|]; [|done].
    destruct (dcache_sendTimingReq hi m1) as [[[] r2] m2]; [done|]. cbn. by rewrite (Hs hi).
  - cbn. by rewrite Hf.
Qed.

Lemma loadRefused_mem p was (w : World M) ld :
  w_insts w !! p = Some ld →
  ∃ w', loadRefused cfg p was false w = Ok w' ∧ w_mem w' = w_mem w.
Proof.
  intros Hld. unfold loadRefused. rewrite (w_modify_ok _ _ _ _ Hld).
  cbn [w_insts w_set_insts]. rewrite (proj2 (deref_Ok _ _ _) (lookup_insert_eq _ _ _)).
  erewrite w_modify_ok; [|apply lookup_insert_eq].
  unfold w_block, blockMemInst, modify, modifyM. cbn [w_insts w_set_insts].
  rewrite (proj2 (deref_Ok _ _ _) (lookup_insert_eq _ _ _)). by eexists.
Qed.

(** What the memory system sees of an unrestricted load that accesses it. *)
Lemma accessMemory_mem (w : World M) a p ld idx req lo hi was hit rq1 rq2 :
  lsq_rep (w_lsq w) (w_insts w) a → w_insts w !! p = Some ld → seqNum ld = p →
  isDolmaRestricted ld = false →
  sentRequests req lo hi = Ok (rq1, rq2) → req_isRestricted rq1 = false →
  (∀ r, rq2 = Some r → req_isRestricted r = false) →
  (isPartialStoreBufferHit ld && negb was = true →
     ∃ j, hit = slotOf (w_lsq w) j ∧ is_Some (q_stores a !! j)) →
  ∃ w', accessMemory cfg p idx req lo hi was hit w = Ok w' ∧
    w_mem w' = (sendLoad rq1 rq2 (w_mem w)).2.
Proof.
  intros R Hld Hseq Hres Hsent Hfst Hsnd Hhit. unfold accessMemory.
  rewrite (w_modify_ok _ _ _ _ Hld). set (ld1 := prepareBuffer req was ld).
  cbn [w_insts w_set_insts w_lsq w_mem w_fresh w_next w_senders w_calls w_iq].
  rewrite (proj2 (deref_Ok _ _ _) (lookup_insert_eq _ _ _)), Hsent.
  erewrite w_modify_ok; [|cbn; apply lookup_insert_eq]. cbn [w_insts w_set_insts w_mem].
  rewrite insert_insert_eq. destruct (prepareBuffer_frame req was ld) as (Hst & Hsq1). fold ld1 in Hst, Hsq1.
  assert (saveRequests req lo hi ld1 = ld1) as ->.
  { unfold saveRequests. revert Hres. dyn_simpl. rewrite Hst. by intros ->. }
  destruct (sendLoad rq1 rq2 (w_mem w)) as [res m] eqn:Es. cbn [snd].
  pose proof (sendLoad_no_miss rq1 rq2 (w_mem w) Hfst Hsnd) as Hmiss. rewrite Es in Hmiss. cbn in Hmiss.
  assert (∀ q, known (w_insts w) q → known (<[p := ld1]> (w_insts w)) q) as Hk.
  { intros q Hq. apply known_insert; [done|]. congruence. }
  pose proof (rep_store _ _ _ _ R Hk) as R1.
  destruct (successful_load res).
  - cbn [w_insts w_put w_set_senders w_set_mem w_set_insts]. rewrite (proj2 (deref_Ok _ _ _) (lookup_insert_eq _ _ _)).
    destruct (isTotalStoreBufferHit ld1); [by eexists|].
    destruct (isPartialStoreBufferHit ld1 && negb was) eqn:Ep; [|by eexists].
    destruct Hhit as (j & -> & Hj); [revert Ep; dyn_simpl; by rewrite Hst|].
    match goal with |- ∃ w', stallLoad _ _ _ ?W = _ ∧ _ =>
      destruct (stallLoad_total W a p ld1 idx j) as (w' & Hw & Hm) end;
      [exact R1|apply lookup_insert_eq|done|]. by exists w'.
  - rewrite Hmiss. destruct (completedFirst res);
      match goal with |- ∃ w', loadRefused _ _ _ _ ?W = _ ∧ _ =>
        apply (loadRefused_mem p was W ld1 (lookup_insert_eq _ _ _)) end.
Qed.

(** The window holds only stores that cannot show: not executed, strictly
    ordered, or restricted. *)
Definition allRestricted (ws : list (SQEntry * DynInst)) : Prop :=
  Forall (λ x, skipsStore x.2 x.1 = true ∨ isDolmaRestricted x.2 = true) ws.
End masking.

(** C20: Hits on restricted stores do not show.  Take DOLMA, but not STT, and an
    unrestricted load (so are its requests) that has not been executed, squashed, or turned back by a
    partial hit before, with a cacheable, ordinary (not load-linked or
    memory-mapped) request, all of whose older stores in the queue are restricted or
    cannot forward.  It completes its [read], and the memory system sees exactly the
    requests of the load, whatever the addresses and data of those stores are: a total
    hit or a partial hit sends the same packets as a miss in the store queue.  The one
    exception is the assertion of DOLMA's performance mode (lsq_unit.hh:772), which may
    stop the simulation, and only if one of the stores has no size, or is strictly
    ordered, and has a valid address. *)
Theorem restricted_hits_masked {M : Type} `{MemSystem M} `{StorePort M}
    cfg (w : World M) a p ld k req lo hi rq1 rq2 wb n :
  isDolma cfg = true → isSTT cfg = false →
  lsq_rep (w_lsq w) (w_insts w) a → q_loads a !! k = Some p → w_insts w !! p = Some ld →
  p ∉ entrySeq <$> q_stores a →
  isExecuted ld = false → isSquashed ld = false → strictlyOrdered ld = false →
  isDolmaRestricted ld = false → isPartialStoreBufferHit ld = false →
  storeWBIdx (w_lsq w) = slotOf (w_lsq w) wb → sqIdx ld = slotOf (w_lsq w) (wb + n) →
  (wb + n <= length (q_stores a))%nat →
  Forall store_ok (window (w_insts w) (q_stores a) wb n) →
  allRestricted (window (w_insts w) (q_stores a) wb n) →
  request_ok req → req_isStrictlyOrdered req = false → req_isMmappedIpr req = false →
  sentRequests req lo hi = Ok (rq1, rq2) → req_isRestricted rq1 = false →
  (∀ r, rq2 = Some r → req_isRestricted r = false) →
  let o := lsq_read cfg req lo hi (ring (LQEntries (w_lsq w)) (loadHead (w_lsq w)) (Z.of_nat k)) w in
  (∃ w', o = Ok (None, w') ∧ w_mem w' = (sendLoad rq1 rq2 (w_mem w)).2) ∨
  (Exists (λ x, bypassFails cfg x = true) (window (w_insts w) (q_stores a) wb n) ∧ o = Err bypassAssertion).
Proof.
  intros Hd Hstt R Hk Hld Hp Hex Hsq Hso Hres Hpart Hwb Hidx Hn Hok Hall Hr Hstrict Hipr Hsent H1 H2 o.
  unfold o, lsq_read. clear o. destruct (rep_loadAt _ _ _ R k p Hk) as (ld' & Hat & Hseq).
  pose proof (loadAt_inst _ _ _ _ _ Hat) as Hld'. rewrite Hld in Hld'. injection Hld' as <-.
  rewrite Hat, Hex, Hstrict. pose proof Hr as (_ & _ & _ & Hll). rewrite Hll, Hipr, Hidx, Hpart. cbn [negb andb].
  destruct (lr_stores _ _ _ R) as [_ _ Hl _ _].
  destruct (searchSQ_spec cfg (w_lsq w) a p req false wb Hr Hwb Hp n
    (Z.to_nat (SQEntries (w_lsq w))) (w_insts w) ld R Hld Hseq Hsq Hso Hn ltac:(lia) Hok)
    as [(hit & ld1 & -> & Hsr)|[Hb ->]]; [left|by right].
  assert (stopped (window (w_insts w) (q_stores a) wb n) (λ i, hides cfg i ld = false) → False) as Hno.
  { intros (e & i & Hin & Hsk & Hh). unfold allRestricted in Hall. rewrite Forall_forall in Hall.
    unfold hides in Hh. rewrite Hd, Hres in Hh. specialize (Hall (e, i) Hin). cbn in Hall.
    destruct Hall as [?|Hri]; [congruence|]. by rewrite Hri in Hh. }
  destruct (accessing_hit _ _ _ _ _ _ _ _ _ Hsr) as [Hacc|Hacc].
  2: { destruct hit; cbn in Hsr; try done; destruct Hno; [apply Hsr|].
       destruct Hsr as (_ & _ & _ & e & i & ? & ? & Hh). exists e, i.
       rewrite Hstt, andb_true_r in Hh. done. }
  destruct Hacc as (Hs1 & Hr1 & Hp1 & Hhit). rewrite Hres in Hr1. rewrite Hpart in Hp1.
  assert (∃ w', accessMemory cfg p (ring (LQEntries (w_lsq w)) (loadHead (w_lsq w)) (Z.of_nat k)) req
      lo hi false (stopIdx hit) (w_set_insts (<[p := ld1]> (w_insts w)) w) = Ok w' ∧
      w_mem w' = (sendLoad rq1 rq2 (w_mem w)).2) as (w' & Hw & Hm).
  { apply (accessMemory_mem cfg (w_set_insts (<[p := ld1]> (w_insts w)) w) a p ld1); auto.
    - cbn. eapply rep_store; [done|]. intros q Hq. apply known_insert; congruence.
    - apply lookup_insert_eq.
    - congruence.
    - intros [Hpt _]%andb_true_iff. by apply Hp1 in Hpt as [|]. }
  exists w'. split; [|done]. destruct hit; try done; cbn [stopIdx] in Hw; by rewrite Hw.
Qed.

(** ** Examples *)

Module ForwardExample.
(** A restricted store of four bytes at 100, and a load of two bytes at 101. *)
Definition insts : store :=
  <[5 := status_set ControlRestricted (LsqExample.accessing 100 4 (LsqExample.op [IsStore] 5))]>
  (<[6 := LsqExample.op [IsLoad] 6]> ∅).
Definition wreq : Request := mkRequest 100 4 0 (Some 100) false.
Definition rreq : Request := mkRequest 101 2 0 (Some 101) false.
Definition ops : list lsq_op :=
  [LInsert 5 false; LWrite wreq None None [1; 2; 3; 4] 0; LInsert 6 true].
Definition unit1 : LSQUnit :=
  ltac:(match eval vm_compute in (lsq_runs ops LsqExample.unit0 insts) with
        | Ok (?u, _) => exact u end).
Definition insts1 : store :=
  ltac:(match eval vm_compute in (lsq_runs ops LsqExample.unit0 insts) with
        | Ok (_, ?s) => exact s end).
Definition queues1 : Queues := foldl (flip lsq_abs) (mkQueues [] []) ops.
Definition ld : DynInst := default (LsqExample.op [] 0) (insts1 !! 6).
Definition mode1 : DolmaConfig := mkDolmaConfig true false false false.

Lemma fwd_rep1 : lsq_rep unit1 insts1 queues1.
Proof.
  destruct (lsq_runs_rep ops LsqExample.unit0 insts (mkQueues [] [])) as (u & s & H & R).
  - by apply (lsq_init_rep 2 2 0 0 true 1 true 64).
  - lsq_legal_eval. split; [by eexists|by_eval].
  - vm_compute in H. injection H as <- <-. exact R.
Qed.

(** A memory system that accepts every packet and remembers the requests. *)
#[global] Instance log_mem : MemSystem (list Request) := {|
  dtb_updateLRU := λ _ _ _ m, m;
  dcache_sendTimingReq := λ r m, (true, r, r :: m);
|}.
#[global] Instance log_port : StorePort (list Request) := {|
  dcache_sendWrite := λ r _ m, (true, r :: m);
  handleIprRead := λ _ m, (0, [], m);
  handleIprWrite := λ _ _ m, m;
|}.
Lemma rreq_ok : request_ok rreq.
Proof. by repeat split. Qed.

Lemma not_a_store : 6 ∉ entrySeq <$> q_stores queues1.
Proof. by intros ?%list_elem_of_singleton. Qed.

Lemma window_ok : Forall store_ok (window insts1 (q_stores queues1) 0 1).
Proof.
  constructor; [|constructor]. intros _.
  change (true = true ∧ 0 <= 100 ∧ 0 < 4 ∧ 100 + 4 < 2 ^ 64 ∧
    (false = true ∨ 4 <= 16) ∧ false = false). lia.
Qed.

Lemma no_assertion : ¬ Exists (λ x, bypassFails mode1 x = true) (window insts1 (q_stores queues1) 0 1).
Proof. apply (bool_decide_unpack _). by vm_compute. Qed.

Lemma window_restricted : allRestricted (window insts1 (q_stores queues1) 0 1).
Proof. constructor; [|constructor]. by right. Qed.

Definition world : World (list Request) := mkWorld unit1 IqExample.queue0 insts1 [] ∅ 0 [].
End ForwardExample.


Lemma restricted_hits_masked_witness :
  ∃ w', lsq_read ForwardExample.mode1 ForwardExample.rreq None None 0 ForwardExample.world
        = Ok (None, w') ∧ w_mem w' = [ForwardExample.rreq].
Proof.
  destruct (restricted_hits_masked ForwardExample.mode1 ForwardExample.world ForwardExample.queues1
    6 ForwardExample.ld 0 ForwardExample.rreq None None ForwardExample.rreq None 0 1)
    as [(w' & Hw & Hm)|[Hb _]]; try reflexivity.
  - exact ForwardExample.fwd_rep1.
  - exact ForwardExample.not_a_store.
  - exact ForwardExample.window_ok.
  - exact ForwardExample.window_restricted.
  - exact ForwardExample.rreq_ok.
  - done.
  - exists w'. split; [exact Hw|]. exact Hm.
  - by apply ForwardExample.no_assertion in Hb.
Defined.

(** A strictly ordered store stops the simulation.  In DOLMA's performance
    mode, a load whose youngest older store in the queue is an executed,
    strictly ordered store (its address is valid) fails the assertion that the
    bypassed store has no valid address, although that store is legitimately
    waiting to be written back. *)
Theorem strict_store_asserts cfg u a p req was wb n s ld e i :
  isDolma cfg = true → isDolmaConservative cfg = false → isSTT cfg = false →
  lsq_rep u s a → storeWBIdx u = slotOf u wb → (wb + S n <= length (q_stores a))%nat →
  s !! p = Some ld → q_stores a !! (wb + n)%nat = Some e → s !! entrySeq e = Some i →
  strictlyOrdered i = true → effAddrValid i = true →
  searchSQ cfg (Z.to_nat (SQEntries u)) p req was (slotOf u (wb + S n)) u s
  = Err bypassAssertion.
Proof.
  intros Hd Hc Hstt R Hwb Hn Hld He Hi Hso Hv.
  destruct (window_step u a wb Hwb s n R Hn) as (e' & i' & He' & Hw & Hdec & Hne & Hat).
  rewrite He in He'. injection He' as <-. cbn in Hw. rewrite He, Hi in Hw. injection Hw as <-.
  destruct (lr_stores _ _ _ R) as [? _ _ _ _].
  destruct (Z.to_nat (SQEntries u)) as [|fuel] eqn:Ef; [lia|]. cbn [searchSQ].
  rewrite Hne, Hdec, Hat, (proj2 (deref_Ok _ _ _) Hld).
  unfold skipsStore. rewrite Hso, Hd, Hc, Hstt, Hv, !orb_true_r. done.
Qed.

Module StrictExample.
(** The store of [ForwardExample], uncacheable. *)
Definition insts1 : store :=
  <[5 := flag_assign IsStrictlyOrdered true
           (default (LsqExample.op [] 0) (ForwardExample.insts1 !! 5))]> ForwardExample.insts1.
Lemma strict_rep1 : lsq_rep ForwardExample.unit1 insts1 ForwardExample.queues1.
Proof.
  eapply rep_store; [exact ForwardExample.fwd_rep1|]. intros q Hq. by apply known_insert.
Qed.
End StrictExample.

Lemma strict_store_asserts_witness :
  searchSQ ForwardExample.mode1 3 6 ForwardExample.rreq false 1 ForwardExample.unit1
    StrictExample.insts1 = Err bypassAssertion.
Proof.
  apply (strict_store_asserts ForwardExample.mode1 ForwardExample.unit1 ForwardExample.queues1 6
    ForwardExample.rreq false 0 0 StrictExample.insts1 ForwardExample.ld
    (default (newSQEntry None) (q_stores ForwardExample.queues1 !! 0%nat))
    (default (LsqExample.op [] 0) (StrictExample.insts1 !! 5)));
    try reflexivity. exact StrictExample.strict_rep1.
Defined.
