(* ===== verification/PageTrie.v ===== *)
(** * The interface between the TLB and its tries

    Pages as prefixes of 64-bit addresses, the operations the TLB calls on a
    trie, and what a trie promises about them: it is a finite map from handles
    to pages, and a lookup finds the widest page that covers the address. *)

From S2P Require Import Prelude Regs Config DynInst.

Local Open Scope Z_scope.

(** ** Prefixes *)

(** The mask of the [w] leading bits of 64. *)
Definition pmask (w : Z) : Z := Z.shiftl (Z.ones w) (64 - w).

(** Two addresses agree on their [w] leading bits. *)
Definition agree (w : Z) (a b : Addr) : Prop :=
  ∀ i, 64 - w <= i < 64 → Z.testbit a i = Z.testbit b i.

Section prefixes.
Implicit Types (w a b : Z).

Lemma agree_refl w a : agree w a a.
Proof. by intros i Hi. Qed.

Lemma agree_sym w a b : agree w a b → agree w b a.
Proof. intros Hab i Hi. symmetry. auto. Qed.

Lemma agree_trans w a b c : agree w a b → agree w b c → agree w a c.
Proof. intros Hab Hbc i Hi. rewrite Hab by done. auto. Qed.

Lemma agree_le w w' a b : w' <= w → agree w a b → agree w' a b.
Proof. intros Hw Hab i Hi. apply Hab. lia. Qed.

Lemma agree_succ w a b :
  agree (w + 1) a b ↔ agree w a b ∧ (0 <= w → Z.testbit a (63 - w) = Z.testbit b (63 - w)).
Proof.
  split.
  - intros Hab. split; [eapply agree_le; [|done]; lia|]. intros. apply Hab. lia.
  - intros [Hab Hbit] i Hi. destruct (decide (i = 63 - w)) as [->|]; [apply Hbit; lia|].
    apply Hab. lia.
Qed.

Lemma pmask_testbit w i :
  0 <= w <= 64 → 0 <= i → Z.testbit (pmask w) i = (64 - w <=? i) && (i <? 64).
Proof.
  intros Hw Hi. unfold pmask. rewrite Z.shiftl_spec by done.
  destruct (Z.leb_spec (64 - w) i); cbn.
  - rewrite Z.testbit_ones_nonneg by lia. destruct (Z.ltb_spec (i - (64 - w)) w),
      (Z.ltb_spec i 64); lia.
  - by rewrite Z.testbit_neg_r by lia.
Qed.

Lemma land_pmask w a b :
  0 <= w <= 64 → Z.land a (pmask w) = Z.land b (pmask w) ↔ agree w a b.
Proof.
  intros Hw. split.
  - intros Heq i Hi. apply (f_equal (λ z, Z.testbit z i)) in Heq.
    rewrite !Z.land_spec, pmask_testbit in Heq by lia.
    destruct (Z.leb_spec (64 - w) i), (Z.ltb_spec i 64); cbn in Heq; try lia.
    by rewrite !andb_true_r in Heq.
  - intros Hab. apply Z.bits_inj'. intros i Hi. rewrite !Z.land_spec, pmask_testbit by lia.
    destruct (Z.leb_spec (64 - w) i), (Z.ltb_spec i 64); cbn; rewrite ?andb_false_r; try done.
    by rewrite Hab by lia.
Qed.

Lemma pmask_sub w w' :
  0 <= w <= 64 → 0 <= w' <= 64 → Z.land (pmask w) (pmask w') = pmask w ↔ w <= w'.
Proof.
  intros Hw Hw'. split.
  - intros Heq. destruct (decide (w <= w')); [done|].
    apply (f_equal (λ z, Z.testbit z (64 - w))) in Heq.
    rewrite Z.land_spec, !pmask_testbit in Heq by lia.
    destruct (Z.leb_spec (64 - w) (64 - w)), (Z.leb_spec (64 - w') (64 - w)),
      (Z.ltb_spec (64 - w) 64); cbn in Heq; try done; lia.
  - intros Hle. apply Z.bits_inj'. intros i Hi. rewrite Z.land_spec, !pmask_testbit by lia.
    destruct (Z.leb_spec (64 - w) i), (Z.leb_spec (64 - w') i), (Z.ltb_spec i 64); cbn; try done; lia.
Qed.

Lemma pmask_inj w w' : 0 <= w <= 64 → 0 <= w' <= 64 → pmask w = pmask w' ↔ w = w'.
Proof.
  intros Hw Hw'. split; [|by intros ->]. intros Heq.
  pose proof (proj1 (pmask_sub w w' Hw Hw')). pose proof (proj1 (pmask_sub w' w Hw' Hw)).
  rewrite Heq, Z.land_diag in *. lia.
Qed.

Lemma land_pmask_agree w a : 0 <= w <= 64 → agree w (Z.land a (pmask w)) a.
Proof.
  intros Hw i Hi. rewrite Z.land_spec, pmask_testbit by lia.
  rewrite (proj2 (Z.leb_le _ _)), (proj2 (Z.ltb_lt _ _)) by lia. by rewrite andb_true_r.
Qed.

(** What [matches] tests on a stored prefix. *)
Lemma match_agree w a k :
  0 <= w <= 64 → Z.land k (pmask w) = k → (Z.land a (pmask w) =? k) = true ↔ agree w k a.
Proof.
  intros Hw Hk. rewrite Z.eqb_eq. rewrite <-Hk at 1. rewrite land_pmask by done.
  split; apply agree_sym.
Qed.
End prefixes.

(** ** Pages *)

(** The page of the addresses that share the [pg_width] leading bits of
    [pg_key], and the TLB entry that translates it. *)
Record Page := mkPage { pg_key : Addr; pg_width : Z; pg_value : nat }.

#[export] Instance Page_eq_dec : EqDecision Page.
Proof. solve_decision. Defined.

Definition covers (p : Page) (a : Addr) : Prop := agree (pg_width p) (pg_key p) a.

(** ** The operations *)

Class PageTrie (T H : Type) := {
  tr_lookup : Addr → T → option nat;
  (** [insert(tid, key, width, val)] *)
  tr_insert : ThreadID → Addr → Z → nat → T → outcome (H * T);
  tr_remove : H → T → outcome T;
  (** [Handle::tid] *)
  tr_tid : H → ThreadID;
}.

(** ** The contract *)

Class PageTrieLaws (T H : Type) `{PageTrie T H} := {
  (** a well-formed trie of a thread *)
  tr_ok : ThreadID → T → Prop;
  (** the trie maps a handle to a page *)
  tr_binds : T → H → Page → Prop;
  tr_binds_fun : ∀ tid t h p q,
    tr_ok tid t → tr_binds t h p → tr_binds t h q → p = q;
  tr_binds_tid : ∀ tid t h p, tr_ok tid t → tr_binds t h p → tr_tid h = tid;
  tr_lookup_some : ∀ tid t a i,
    tr_ok tid t → tr_lookup a t = Some i →
    ∃ h p, tr_binds t h p ∧ covers p a ∧ pg_value p = i
      ∧ ∀ h' p', tr_binds t h' p' → covers p' a → pg_width p <= pg_width p';
  tr_lookup_none : ∀ tid t a h p,
    tr_ok tid t → tr_lookup a t = None → tr_binds t h p → ¬ covers p a;
  (** a prefix that is not there yet *)
  tr_insert_law : ∀ tid t a w i,
    tr_ok tid t → 1 <= w <= 64 →
    (∀ h p, tr_binds t h p → pg_width p = w → ¬ covers p a) →
    ∃ h t', tr_insert tid a w i t = Ok (h, t') ∧ tr_ok tid t' ∧ (∀ p, ¬ tr_binds t h p)
      ∧ ∀ h' p, tr_binds t' h' p ↔
          (h' = h ∧ p = mkPage (Z.land a (pmask w)) w i) ∨ tr_binds t h' p;
  tr_remove_law : ∀ tid t h p,
    tr_ok tid t → tr_binds t h p →
    ∃ t', tr_remove h t = Ok t' ∧ tr_ok tid t'
      ∧ ∀ h' q, tr_binds t' h' q ↔ h' ≠ h ∧ tr_binds t h' q;
}.
