(* ===== verification/Trie.v ===== *)
(** * The prefix trie

    [Trie<Key, Value>] of [base/trie.hh] for 64-bit keys, which finds the TLB
    entry that covers an address.  A node holds a prefix (a key and the mask of
    its leading bits); a node without a value is a fork.  DOLMA added the
    hardware thread of each node.

    A [Node *] is the node's number, given out by [new]; a node's [parent] is
    its place in the tree.  The values are indices of TLB entries. *)

From S2P Require Import Prelude Regs Config DynInst.

Local Open Scope Z_scope.

Abbreviation Key := Z.

Definition MaxBits : Z := 64.

Inductive node : Type :=
  | Null
  | Node (id : nat) (key mask : Key) (tid : ThreadID) (value : option nat) (kid0 kid1 : node).

(** [Trie]: the root and the number of the next [new Node]. *)
Record Trie := mkTrie { trie_head : node; trie_next : nat }.

(** [Handle]: the node and the thread it was made for. *)
Record Handle := mkHandle { handle_id : nat; handle_tid : ThreadID }.

(** [Trie()] followed by [setTID]. *)
Definition newTrie (tid : ThreadID) : Trie := mkTrie (Node 0 0 0 tid None Null Null) 1.

Definition matches (n : node) (test : Key) : bool :=
  match n with
  | Null => false
  | Node _ key mask _ _ _ _ => Z.land test mask =? key
  end.

(** [kid && kid->matches(key) && (kid->mask & new_mask) == kid->mask]. *)
Definition goesAfter (kid : node) (key new_mask : Key) : bool :=
  match kid with
  | Null => false
  | Node _ _ mask _ _ _ _ => matches kid key && (Z.land mask new_mask =? mask)
  end.

Definition extendMask (orig : Key) : Key :=
  Z.lor orig (Z.lor (Z.shiftr orig 1) (Z.shiftl 1 (MaxBits - 1))).

Fixpoint lookupHandle (key : Key) (n : node) : option (Handle * nat) :=
  match n with
  | Null => None
  | Node id _ _ tid (Some v) _ _ => Some (mkHandle id tid, v)
  | Node _ _ _ _ None kid0 kid1 =>
      if matches kid0 key then lookupHandle key kid0
      else if matches kid1 key then lookupHandle key kid1
      else None
  end.

Definition trie_lookup (key : Key) (t : Trie) : option nat :=
  snd <$> lookupHandle key (trie_head t).

(** ** Insertion *)

(** [~(Key)0], shifted when [width < MaxBits]. *)
Definition newMask (width : Z) : Key :=
  if width <? MaxBits then u64 (Z.shiftl (Z.ones MaxBits) (MaxBits - width))
  else Z.ones MaxBits.

(** The walk down a leg until a bit differs or the bits run out; a mask has 64
    extensions. *)
Fixpoint walkMask (fuel : nat) (key kid_key new_mask cur_mask : Key) : outcome Key :=
  match fuel with
  | O => Err (NoFuel "Trie::insert")
  | S f =>
      let next := extendMask cur_mask in
      if negb (Z.land key next =? Z.land kid_key next) || (cur_mask =? new_mask)
      then Ok cur_mask
      else walkMask f key kid_key new_mask next
  end.

(** One turn of the loop over the two legs: [None] is [continue]; otherwise
    the leg's new subtree, the new node's number and the next free number. *)
Definition insertLeg (kid : node) (node_mask key new_mask cur_mask : Key) (tid : ThreadID)
    (val : nat) (next : nat) : outcome (option (node * nat * nat)) :=
  let made id := Node id (Z.land key new_mask) new_mask tid (Some val) Null Null in
  match kid with
  | Null => Ok (Some (made next, next, S next))
  | Node _ kid_key _ _ _ _ _ =>
      let! cur := walkMask 65 key kid_key new_mask cur_mask in
      if cur =? node_mask then Ok None
      else if cur =? new_mask then
        Ok (Some (Node next (Z.land key cur) cur tid (Some val) kid Null, next, S next))
      else
        Ok (Some (Node next (Z.land key cur) cur tid None kid (made (S next)), S next, S (S next)))
  end.

(** [insert] from a node on: the walk past the nodes the new one comes after,
    then the value or the new nodes. *)
Fixpoint insertNode (tid : ThreadID) (key new_mask : Key) (val : nat) (next : nat) (n : node)
  : outcome (node * nat * nat) :=
  match n with
  | Null => Err (Assertion "node")
  | Node id nkey mask ntid value kid0 kid1 =>
      if goesAfter kid0 key new_mask then
        let! (kid, h, next) := insertNode tid key new_mask val next kid0 in
        Ok (Node id nkey mask ntid value kid kid1, h, next)
      else if goesAfter kid1 key new_mask then
        let! (kid, h, next) := insertNode tid key new_mask val next kid1 in
        Ok (Node id nkey mask ntid value kid0 kid, h, next)
      else if mask =? new_mask then
        assert! bool_decide (value = None) as "!node->value" in
        assert! bool_decide (ntid = tid) as "node->tid == tid" in
        Ok (Node id nkey mask ntid (Some val) kid0 kid1, id, next)
      else
        let! leg := insertLeg kid0 mask key new_mask mask tid val next in
        match leg with
        | Some (kid, h, next) => Ok (Node id nkey mask ntid value kid kid1, h, next)
        | None =>
            let! leg := insertLeg kid1 mask key new_mask mask tid val next in
            match leg with
            | Some (kid, h, next) => Ok (Node id nkey mask ntid value kid0 kid, h, next)
            | None => Err (PanicCall "Reached the end of the Trie insert function!")
            end
        end
  end.

Definition trie_insert (tid : ThreadID) (key : Key) (width : Z) (val : nat) (t : Trie)
  : outcome (Handle * Trie) :=
  let new_mask := newMask width in
  let! (n, h, next) :=
    insertNode tid (Z.land key new_mask) new_mask val (trie_next t) (trie_head t) in
  Ok (mkHandle h tid, mkTrie n next).

(** ** Removal *)

(** What [remove] leaves in the place of a node: the node without its value,
    or, when the node goes, its only kid, which the parent must link. *)
Inductive removal : Type :=
  | Absent
  | Kept (n : node)
  | Gone (kid : node).

(** The parent's part once one of its kids has been replaced: the kids are
    moved up, and a fork with less than two kids that is not the root goes
    too. *)
Definition tidyParent (root : bool) (id : nat) (key mask : Key) (tid : ThreadID)
    (value : option nat) (kid0 kid1 : node) : removal :=
  let '(kid0, kid1) := match kid0 with Null => (kid1, Null) | _ => (kid0, kid1) end in
  match kid1, value with
  | Null, None =>
      if root then Kept (Node id key mask tid value kid0 kid1) else Gone kid0
  | _, _ => Kept (Node id key mask tid value kid0 kid1)
  end.

Fixpoint removeNode (h : nat) (root : bool) (n : node) : outcome removal :=
  match n with
  | Null => Ok Absent
  | Node id key mask tid value kid0 kid1 =>
      if (id =? h)%nat then
        match kid1 with
        | Node _ _ _ _ _ _ _ =>
            assert! bool_decide (is_Some value) as "node->value" in
            Ok (Kept (Node id key mask tid None kid0 kid1))
        | Null =>
            if root then Err (PanicCall "Trie: Can't remove root node.") else Ok (Gone kid0)
        end
      else
        let! r0 := removeNode h false kid0 in
        match r0 with
        | Kept kid => Ok (Kept (Node id key mask tid value kid kid1))
        | Gone kid => Ok (tidyParent root id key mask tid value kid kid1)
        | Absent =>
            let! r1 := removeNode h false kid1 in
            match r1 with
            | Kept kid => Ok (Kept (Node id key mask tid value kid0 kid))
            | Gone kid => Ok (tidyParent root id key mask tid value kid0 kid)
            | Absent => Ok Absent
            end
        end
  end.

(** A handle of no node of the trie points to deleted storage. *)
Definition trie_remove (h : Handle) (t : Trie) : outcome Trie :=
  let! r := removeNode (handle_id h) true (trie_head t) in
  match r with
  | Kept n => Ok (mkTrie n (trie_next t))
  | Gone n => Err (PanicCall "Trie: Can't remove root node.")
  | Absent => Err (NullDeref "handle")
  end.

(** [remove(Key)]: the value that was removed, if any. *)
Definition trie_removeKey (key : Key) (t : Trie) : outcome (option nat * Trie) :=
  match lookupHandle key (trie_head t) with
  | None => Ok (None, t)
  | Some (h, v) => let! t := trie_remove h t in Ok (Some v, t)
  end.

Definition trie_clear (t : Trie) : Trie :=
  match trie_head t with
  | Null => t
  | Node id key mask tid value _ _ => mkTrie (Node id key mask tid value Null Null) (trie_next t)
  end.
