(* ===== verification/TrieMap.v ===== *)
(** * The trie is a map from prefixes

    The shape invariant of [Trie.Trie], its pages as an association list, the
    effect of every operation on that list, the instance of the interface
    [PageTrie] and the refinement of a reference map. *)

From S2P Require Import Prelude Regs Config DynInst PageTrie Trie.

Local Open Scope Z_scope.

(** ** Masks *)

Lemma newMask_pmask w : 1 <= w <= 64 → newMask w = pmask w.
Proof.
  intros Hw. unfold newMask, MaxBits, u64, wrap.
  destruct (Z.ltb_spec w 64); [|by replace w with 64 by lia].
  apply Z.bits_inj'. intros i Hi. rewrite pmask_testbit by lia.
  destruct (decide (i < 64)).
  - rewrite Z.mod_pow2_bits_low by lia. rewrite Z.shiftl_spec by lia.
    rewrite (proj2 (Z.ltb_lt i 64)), andb_true_r by lia.
    destruct (Z.leb_spec (64 - w) i).
    + rewrite Z.testbit_ones_nonneg by lia. apply Z.ltb_lt. lia.
    + by rewrite Z.testbit_neg_r by lia.
  - rewrite Z.mod_pow2_bits_high by lia.
    destruct (Z.ltb_spec i 64); [lia|]. by rewrite andb_false_r.
Qed.

Lemma extendMask_pmask w : 0 <= w < 64 → extendMask (pmask w) = pmask (w + 1).
Proof.
  intros Hw. unfold extendMask, MaxBits. apply Z.bits_inj'. intros i Hi.
  rewrite Z.shiftl_1_l, !Z.lor_spec, Z.shiftr_spec, Z.pow2_bits_eqb, !pmask_testbit by lia.
  destruct (Z.leb_spec (64 - w) i), (Z.leb_spec (64 - w) (i + 1)), (Z.ltb_spec (i + 1) 64),
    (Z.ltb_spec i 64), (Z.leb_spec (64 - (w + 1)) i), (Z.eqb_spec (64 - 1) i); cbn; try done; lia.
Qed.

(** The width of the mask of a prefix. *)
Definition maskWidth (m : Key) : Z := 64 - Z.log2 (2 ^ 64 - m).

Lemma maskWidth_pmask w : 0 <= w <= 64 → maskWidth (pmask w) = w.
Proof.
  intros Hw. unfold maskWidth, pmask. rewrite Z.shiftl_mul_pow2, Z.ones_equiv by lia.
  replace (Z.pred (2 ^ w) * 2 ^ (64 - w)) with (2 ^ 64 - 2 ^ (64 - w)).
  - replace (2 ^ 64 - (2 ^ 64 - 2 ^ (64 - w))) with (2 ^ (64 - w)) by lia.
    rewrite Z.log2_pow2 by lia. lia.
  - rewrite Z.mul_pred_l, <-Z.pow_add_r by lia. by replace (w + (64 - w)) with 64 by lia.
Qed.

Lemma walkMask_spec fuel key kid nw w :
  0 <= w <= nw → nw <= 64 → agree w key kid → nw - w < Z.of_nat fuel →
  ∃ w', walkMask fuel key kid (pmask nw) (pmask w) = Ok (pmask w')
    ∧ w <= w' <= nw ∧ agree w' key kid ∧ (w' = nw ∨ ¬ agree (w' + 1) key kid).
Proof.
  revert w. induction fuel as [|fuel IH]; intros w Hw Hnw Hag Hf; [lia|]. cbn [walkMask].
  destruct (Z.eqb_spec (pmask w) (pmask nw)) as [Heq|Hne].
  { apply pmask_inj in Heq as ->; [|lia..].
    rewrite orb_true_r. exists nw. split_and!; try done; try lia; by left. }
  assert (w < nw) by (destruct (decide (w = nw)); [by subst|lia]).
  rewrite orb_false_r, extendMask_pmask by lia.
  destruct (Z.eqb_spec (Z.land key (pmask (w + 1))) (Z.land kid (pmask (w + 1)))) as [He|He]; cbn.
  - rewrite land_pmask in He by lia. destruct (IH (w + 1)) as (w' & Hr & ? & ? & ?); try done; try lia.
    exists w'. split_and!; try done; lia.
  - rewrite land_pmask in He by lia. exists w. split_and!; try done; try lia. by right.
Qed.

(** ** The invariant *)

Fixpoint node_ids (n : node) : list nat :=
  match n with
  | Null => []
  | Node id _ _ _ _ kid0 kid1 => id :: node_ids kid0 ++ node_ids kid1
  end.

(** The pages stored in a subtree. *)
Fixpoint entries (n : node) : list (Handle * Page) :=
  match n with
  | Null => []
  | Node id key mask tid value kid0 kid1 =>
      (match value with
       | Some v => [(mkHandle id tid, mkPage key (maskWidth mask) v)]
       | None => []
       end) ++ entries kid0 ++ entries kid1
  end.

(** Two subtrees below a prefix of width [w] part at the next bit. *)
Definition apart (w : Z) (m n : node) : Prop :=
  match m, n with
  | Node _ k _ _ _ _ _, Node _ k' _ _ _ _ _ => ¬ agree (w + 1) k k'
  | _, _ => True
  end.

(** A subtree below a prefix [k] of width [w]: a longer prefix that extends
    it, forks that part, a first kid before a second, and no fork with less
    than two kids. *)
Inductive sub_ok (tid : ThreadID) : Z → Key → node → Prop :=
  | sub_null w k : sub_ok tid w k Null
  | sub_node w k id key w' value kid0 kid1 :
      0 <= w < w' → w' <= 64 → Z.land key (pmask w') = key → agree w k key →
      (value = None → kid1 ≠ Null) →
      kids_ok tid w' key kid0 kid1 →
      sub_ok tid w k (Node id key (pmask w') tid value kid0 kid1)
with kids_ok (tid : ThreadID) : Z → Key → node → node → Prop :=
  | kids_intro w key kid0 kid1 :
      sub_ok tid w key kid0 → sub_ok tid w key kid1 → apart w kid0 kid1 →
      (kid0 = Null → kid1 = Null) → kids_ok tid w key kid0 kid1.

(** The root is the empty prefix and holds no value. *)
Record trie_ok (tid : ThreadID) (t : Trie) : Prop := {
  to_head : ∃ kid0 kid1, trie_head t = Node 0 0 (pmask 0) tid None kid0 kid1
              ∧ kids_ok tid 0 0 kid0 kid1;
  to_ids : NoDup (node_ids (trie_head t));
  to_next : Forall (λ i, i < trie_next t)%nat (node_ids (trie_head t));
}.

Lemma entries_ids n : (handle_id ∘ fst <$> entries n) `sublist_of` node_ids n.
Proof.
  induction n as [|id key mask tid value k0 IH0 k1 IH1]; cbn; [constructor|].
  rewrite !fmap_app. destruct value; cbn; constructor; by apply sublist_app.
Qed.

Lemma entries_in_ids n h p : (h, p) ∈ entries n → handle_id h ∈ node_ids n.
Proof.
  intros Hin. apply (elem_of_submseteq (handle_id ∘ fst <$> entries n));
    [|apply sublist_submseteq, entries_ids].
  change (handle_id h) with ((handle_id ∘ fst) (h, p)). by apply list_elem_of_fmap_2.
Qed.

Lemma entries_fun n h p q :
  NoDup (node_ids n) → (h, p) ∈ entries n → (h, q) ∈ entries n → p = q.
Proof.
  intros Hn Hp Hq. eapply sublist_NoDup in Hn; [|apply entries_ids].
  apply list_elem_of_lookup in Hp as [i Hi], Hq as [j Hj].
  assert (i = j); [|congruence].
  eapply (NoDup_lookup _ i j (handle_id h)); [done|..]; rewrite list_lookup_fmap.
  - by rewrite Hi.
  - by rewrite Hj.
Qed.

Lemma sub_entries tid w k n h p :
  sub_ok tid w k n → (h, p) ∈ entries n →
  handle_tid h = tid ∧ w < pg_width p <= 64 ∧ agree w k (pg_key p)
  ∧ ∀ a, covers p a → matches n a = true.
Proof.
  revert w k. induction n as [|id key mask tid' value k0 IH0 k1 IH1]; intros w k Hok Hin;
    [by apply elem_of_nil in Hin|].
  inversion Hok as [|? ? ? ? w' ? ? ? Hw Hw' Hkey Hag Hf Hk]; subst.
  inversion Hk as [? ? ? ? Hk0 Hk1 Ha Hz]; subst. cbn in Hin. rewrite !elem_of_app in Hin.
  assert (Hdeep : ∀ q, w' < pg_width q <= 64 → agree w' key (pg_key q) →
    w < pg_width q <= 64 ∧ agree w k (pg_key q)
    ∧ ∀ a, covers q a → matches (Node id key (pmask w') tid' value k0 k1) a = true).
  { intros q Hq Hkq. split_and!; [lia..| |].
    - apply (agree_trans _ _ key); [done|]. apply (agree_le w'); [lia|done].
    - intros a Ha'. cbn. apply match_agree; [lia|done|].
      apply (agree_trans _ _ (pg_key q)); [done|]. apply (agree_le (pg_width q)); [lia|done]. }
  destruct Hin as [Hin|[Hin|Hin]].
  - destruct value as [v|]; [|by apply elem_of_nil in Hin].
    apply list_elem_of_singleton in Hin. simplify_eq. cbn. rewrite maskWidth_pmask by lia.
    split_and!; try done; try lia. intros a Ha'. unfold covers in Ha'. cbn in Ha'.
    apply match_agree; [lia|done..].
  - destruct (IH0 _ _ Hk0 Hin) as (? & ? & ? & _). split; [done|]. by apply Hdeep.
  - destruct (IH1 _ _ Hk1 Hin) as (? & ? & ? & _). split; [done|]. by apply Hdeep.
Qed.

(** Both kids never match. *)
Lemma apart_matches tid w key kid0 kid1 a :
  0 <= w → kids_ok tid w key kid0 kid1 → matches kid0 a = true → matches kid1 a = false.
Proof.
  intros Hw Hk Hm. inversion Hk as [? ? ? ? Hk0 Hk1 Ha Hz]; subst.
  destruct (matches kid1 a) eqn:Hm1; [|done]. exfalso.
  inversion Hk0; inversion Hk1; subst; try done. cbn in *.
  apply match_agree in Hm; [|lia|done]. apply match_agree in Hm1; [|lia|done].
  apply Ha. eapply agree_trans; [eapply agree_le; [|done]; lia|].
  apply agree_sym. eapply agree_le; [|done]. lia.
Qed.

(** ** Lookup *)

(** [r] is the widest page of the subtree that covers [a]. *)
Definition finds (l : list (Handle * Page)) (a : Key) (r : option (Handle * nat)) : Prop :=
  match r with
  | Some (h, v) =>
      ∃ p, (h, p) ∈ l ∧ covers p a ∧ pg_value p = v
        ∧ ∀ h' p', (h', p') ∈ l → covers p' a → pg_width p <= pg_width p'
  | None => ∀ h p, (h, p) ∈ l → ¬ covers p a
  end.

Lemma finds_kids tid w key kid0 kid1 a :
  0 <= w → kids_ok tid w key kid0 kid1 →
  finds (entries kid0) a (lookupHandle a kid0) ∨ matches kid0 a = false →
  finds (entries kid1) a (lookupHandle a kid1) ∨ matches kid1 a = false →
  finds (entries kid0 ++ entries kid1) a
    (if matches kid0 a then lookupHandle a kid0
     else if matches kid1 a then lookupHandle a kid1 else None).
Proof.
  intros Hw Hk Hf0 Hf1. pose proof (apart_matches _ _ _ _ _ a Hw Hk) as Hap.
  inversion Hk as [? ? ? ? Hk0 Hk1 Ha Hz]; subst.
  assert (Hno : ∀ kid, sub_ok tid w key kid → matches kid a = false →
    ∀ h p, (h, p) ∈ entries kid → ¬ covers p a).
  { intros kid Hs Hm h p Hin Hc. destruct (sub_entries _ _ _ _ _ _ Hs Hin) as (_ & _ & _ & Hcov).
    rewrite Hcov in Hm; done. }
  assert (Hgo : ∀ kid other r, (∀ h p, (h, p) ∈ entries other → ¬ covers p a) →
    (∀ h p, (h, p) ∈ entries kid ++ entries other ↔ (h, p) ∈ entries kid0 ++ entries kid1) →
    finds (entries kid) a r → finds (entries kid0 ++ entries kid1) a r).
  { intros kid other r Hn Heq Hr. destruct r as [[h v]|]; cbn in *.
    - destruct Hr as (p & Hin & Hc & Hv & Hmin). exists p. split_and!; try done.
      + rewrite <-Heq, elem_of_app. by left.
      + intros h' p'. rewrite <-Heq, elem_of_app. intros [?|?] ?; [by eapply Hmin|].
        exfalso. by eapply Hn.
    - intros h p. rewrite <-Heq, elem_of_app. intros [?|?]; eauto. }
  destruct (matches kid0 a) eqn:Hm0.
  - destruct Hf0 as [Hf0|]; [|done]. apply (Hgo kid0 kid1); [by apply Hno, Hap|done|done].
  - destruct (matches kid1 a) eqn:Hm1.
    + destruct Hf1 as [Hf1|]; [|done]. apply (Hgo kid1 kid0); [by apply Hno| |done].
      intros h p. rewrite !elem_of_app. tauto.
    + intros h p. rewrite elem_of_app. intros [Hin|Hin]; [exact (Hno _ Hk0 Hm0 _ _ Hin)|exact (Hno _ Hk1 Hm1 _ _ Hin)].
Qed.

Lemma lookupHandle_spec tid a n : ∀ id key w value kid0 kid1,
  n = Node id key (pmask w) tid value kid0 kid1 → 0 <= w <= 64 → agree w key a →
  kids_ok tid w key kid0 kid1 → finds (entries n) a (lookupHandle a n).
Proof.
  induction n as [|id key mask tid' value k0 IH0 k1 IH1]; [done|].
  intros ? ? w ? ? ? [= <- <- -> <- <- <- <-] Hw Hag Hk. cbn.
  destruct value as [v|]; cbn.
  { rewrite maskWidth_pmask by lia. eexists. split_and!; [by left|done|done|].
    intros h p. rewrite elem_of_cons, elem_of_app. inversion Hk as [? ? ? ? Hk0 Hk1]; subst.
    intros [[= -> ->]|[Hin|Hin]] _; cbn; [done|..].
    - apply (sub_entries _ _ _ _ _ _ Hk0) in Hin as (_ & ? & _). lia.
    - apply (sub_entries _ _ _ _ _ _ Hk1) in Hin as (_ & ? & _). lia. }
  inversion Hk as [? ? ? ? Hk0 Hk1]; subst. eapply (finds_kids tid' w key); [lia|done|..].
  - destruct (matches k0 a) eqn:Hm; [left|by right]. inversion Hk0; subst; [done|].
    apply match_agree in Hm; [|lia|done]. eapply IH0; try done; lia.
  - destruct (matches k1 a) eqn:Hm; [left|by right]. inversion Hk1; subst; [done|].
    apply match_agree in Hm; [|lia|done]. eapply IH1; try done; lia.
Qed.

(** ** Insertion *)

Definition nodeKey (n : node) : Key := match n with Null => 0 | Node _ key _ _ _ _ _ => key end.

(** The numbers given out between [next] and [next']. *)
Definition grown (next next' : nat) (l l' : list nat) : Prop :=
  ∃ k, next' = (next + k)%nat ∧ l' ≡ₚ seq next k ++ l.

Lemma entries_first x id key mask tid value kid0 kid1 :
  x ∈ entries kid0 → x ∈ entries (Node id key mask tid value kid0 kid1).
Proof. intros Hx. cbn. rewrite !elem_of_app. auto. Qed.

Lemma entries_second x id key mask tid value kid0 kid1 :
  x ∈ entries kid1 → x ∈ entries (Node id key mask tid value kid0 kid1).
Proof. intros Hx. cbn. rewrite !elem_of_app. auto. Qed.

Lemma grown_first id next next' l l' r :
  grown next next' l l' → grown next next' (id :: l ++ r) (id :: l' ++ r).
Proof.
  intros (k & -> & Hp). exists k. split; [done|]. rewrite Hp, <-(assoc_L (++)).
  apply Permutation_middle.
Qed.

Lemma grown_second id next next' l r r' :
  grown next next' r r' → grown next next' (id :: l ++ r) (id :: l ++ r').
Proof.
  intros (k & -> & Hp). exists k. split; [done|]. rewrite Hp.
  rewrite (assoc_L (++) l), (Permutation_app_comm l), <-(assoc_L (++)). apply Permutation_middle.
Qed.

Lemma perm_first {A} (x : A) o l l' r : l' ≡ₚ x :: l → o ++ l' ++ r ≡ₚ x :: o ++ l ++ r.
Proof. intros ->. symmetry. apply (Permutation_middle o (l ++ r)). Qed.

Lemma perm_second {A} (x : A) o l r r' : r' ≡ₚ x :: r → o ++ l ++ r' ≡ₚ x :: o ++ l ++ r.
Proof. intros ->. rewrite !(assoc_L (++)). symmetry. apply Permutation_middle. Qed.

Section insertion.
Context (tid : ThreadID) (a : Key) (nw : Z) (val : nat).
Context (Hnw : 0 <= nw <= 64) (Ha : Z.land a (pmask nw) = a).

Lemma insertLeg_spec w key kid next :
  0 <= w < nw → agree w key a → sub_ok tid w key kid → goesAfter kid a (pmask nw) = false →
  ∃ r, insertLeg kid (pmask w) a (pmask nw) (pmask w) tid val next = Ok r ∧
    match r with
    | None => kid ≠ Null ∧ ¬ agree (w + 1) a (nodeKey kid)
    | Some (kid', h, next') =>
        sub_ok tid w key kid' ∧ kid' ≠ Null ∧ agree (w + 1) (nodeKey kid') a
        ∧ (kid ≠ Null → agree (w + 1) (nodeKey kid) a)
        ∧ entries kid' ≡ₚ (mkHandle h tid, mkPage a nw val) :: entries kid
        ∧ grown next next' (node_ids kid) (node_ids kid')
    end.
Proof.
  intros Hw Hag Hs Hgo. unfold insertLeg. rewrite Ha.
  assert (Hmade : ∀ i w', 0 <= w' < nw → sub_ok tid w' a (Node i a (pmask nw) tid (Some val) Null Null)).
  { intros i w' Hw'. constructor; try done; try lia; repeat constructor. }
  inversion Hs as [|? ? id kkey kw value k0 k1 Hkw Hkw' Hkey Hkag Hf Hk]; subst.
  { eexists. split; [done|]. split_and!; try done.
    - constructor; try done; try lia; repeat constructor.
    - cbn. by rewrite maskWidth_pmask by lia.
    - exists 1%nat. split; [lia|done]. }
  destruct (walkMask_spec 65 a kkey nw w) as (cw & -> & Hcw & Hcag & Hstop); try lia.
  { eapply agree_trans; [apply agree_sym|]; done. }
  assert (Hlt : cw < kw).
  { destruct (decide (cw < kw)); [done|]. exfalso. cbn in Hgo.
    rewrite (proj2 (match_agree kw a kkey ltac:(lia) Hkey)), (proj2 (Z.eqb_eq _ _)) in Hgo;
      [done|apply pmask_sub; lia|]. apply agree_sym. eapply agree_le; [|done]. lia. }
  destruct (Z.eqb_spec (pmask cw) (pmask w)) as [Heq|Hne].
  { apply pmask_inj in Heq as ->; [|lia..]. eexists. split; [done|]. split; [done|]. cbn.
    destruct Hstop; [lia|done]. }
  assert (w < cw) by (destruct (decide (cw = w)); [by subst|lia]).
  assert (Hcut : agree cw (Z.land a (pmask cw)) a) by (apply land_pmask_agree; lia).
  assert (Hidem : Z.land (Z.land a (pmask cw)) (pmask cw) = Z.land a (pmask cw)).
  { by rewrite <-Z.land_assoc, Z.land_diag. }
  assert (Hkag' : agree cw (Z.land a (pmask cw)) kkey) by (by eapply agree_trans).
  assert (Hup : agree w key (Z.land a (pmask cw))).
  { eapply agree_trans; [done|]. apply agree_sym. eapply agree_le; [|done]. lia. }
  assert (Hsub : sub_ok tid cw (Z.land a (pmask cw)) (Node id kkey (pmask kw) tid value k0 k1)).
  { constructor; try done; lia. }
  set (K := Node id kkey (pmask kw) tid value k0 k1) in *.
  destruct (Z.eqb_spec (pmask cw) (pmask nw)) as [Heq|Hne'].
  - apply pmask_inj in Heq as ->; [|lia..]. eexists. split; [done|]. split_and!; try done.
    + constructor; try done; try lia. by constructor; [|constructor|..].
    + cbn. eapply agree_le; [|done]. lia.
    + intros _. cbn. apply agree_sym. eapply agree_le; [|done]. lia.
    + cbn. rewrite Ha, maskWidth_pmask, app_nil_r by lia. done.
    + exists 1%nat. split; [lia|]. cbn. by rewrite app_nil_r.
  - assert (cw < nw) by (destruct (decide (cw = nw)); [by subst|lia]).
    destruct Hstop as [|Hstop]; [lia|]. eexists. split; [done|]. split_and!; try done.
    + constructor; try done; try lia. constructor; [done| |cbn|done].
      * constructor; try done; try lia; repeat constructor.
      * intros Hagr. apply Hstop. by apply agree_sym.
    + cbn. eapply agree_le; [|done]. lia.
    + intros _. cbn. apply agree_sym. eapply agree_le; [|done]. lia.
    + cbn [entries]. rewrite app_nil_l, !app_nil_r, maskWidth_pmask by lia.
      apply (Permutation_app_comm _ [_]).
    + exists 2%nat. split; [lia|]. cbn [node_ids seq app].
      constructor. apply (Permutation_app_comm _ [_]).
Qed.

(** A key below a node with two kids goes down one of the legs. *)
Lemma legs_cover w key kid0 kid1 :
  0 <= w < 64 → agree w key a → sub_ok tid w key kid0 → sub_ok tid w key kid1 →
  kid0 ≠ Null → kid1 ≠ Null → apart w kid0 kid1 →
  ¬ agree (w + 1) a (nodeKey kid0) → ¬ agree (w + 1) a (nodeKey kid1) → False.
Proof.
  intros Hw Hag Hs0 Hs1 Hn0 Hn1 Hap Ha0 Ha1.
  inversion Hs0 as [|? ? ? key0 ? ? ? ? ? ? ? Hag0]; subst; [done|].
  inversion Hs1 as [|? ? ? key1 ? ? ? ? ? ? ? Hag1]; subst; [done|]. cbn in *.
  rewrite agree_succ in Ha0, Ha1, Hap.
  assert (agree w a key0) by (eapply agree_trans; [apply agree_sym|]; done).
  assert (agree w a key1) by (eapply agree_trans; [apply agree_sym|]; done).
  assert (agree w key0 key1) by (eapply agree_trans; [apply agree_sym|]; done).
  destruct (Z.testbit a (63 - w)) eqn:?, (Z.testbit key0 (63 - w)) eqn:?,
    (Z.testbit key1 (63 - w)) eqn:?; naive_solver.
Qed.

(** What inserting below a node does: the node keeps its prefix, its subtree
    gets the page. *)
Definition inserts (n : node) (id : nat) (key : Key) (w : Z) (value : option nat) (kid1 : node)
    (next : nat) : Prop :=
  ∃ value' kid0' kid1' h next',
    let n' := Node id key (pmask w) tid value' kid0' kid1' in
    insertNode tid a (pmask nw) val next n = Ok (n', h, next')
    ∧ kids_ok tid w key kid0' kid1'
    ∧ (kid1 ≠ Null → kid1' ≠ Null) ∧ (w < nw ∧ value' = value ∨ w = nw ∧ is_Some value')
    ∧ entries n' ≡ₚ (mkHandle h tid, mkPage a nw val) :: entries n
    ∧ grown next next' (node_ids n) (node_ids n').

(** The page's prefix is the node's, or a leg is added or split. *)
Lemma insertNode_here id key w value k0 k1 next :
  0 <= w <= nw → Z.land key (pmask w) = key → agree w key a → kids_ok tid w key k0 k1 →
  (∀ h p, (h, p) ∈ entries (Node id key (pmask w) tid value k0 k1) → pg_width p = nw → ¬ covers p a) →
  goesAfter k0 a (pmask nw) = false → goesAfter k1 a (pmask nw) = false →
  inserts (Node id key (pmask w) tid value k0 k1) id key w value k1 next.
Proof.
  intros Hw Hkey Hag Hk Hnew Hg0 Hg1. unfold inserts. cbn [insertNode]. rewrite Hg0, Hg1.
  inversion Hk as [? ? ? ? Hk0 Hk1 Hap Hz]; subst.
  destruct (Z.eqb_spec (pmask w) (pmask nw)) as [Heq|Hne].
  + apply pmask_inj in Heq as ->; [|lia..].
    assert (key = a) as ->. { rewrite <-Hkey, <-Ha. by apply land_pmask. }
    destruct value as [v|].
    { exfalso. apply (Hnew (mkHandle id tid) (mkPage a nw v)); [|done|apply agree_refl].
      cbn. rewrite maskWidth_pmask by lia. by left. }
    rewrite bool_decide_true, bool_decide_true by done.
    exists (Some val), k0, k1, id, next. split; [done|]. split_and!; try done.
    * right. eauto.
    * cbn. by rewrite maskWidth_pmask by lia.
    * exists 0%nat. split; [lia|done].
  + assert (w < nw) by (destruct (decide (w = nw)); [by subst|lia]).
    destruct (insertLeg_spec w key k0 next) as (r & -> & Hr); try done; [lia|].
    destruct r as [[[k0' h] next']|].
    * destruct Hr as (Hs & Hnn & Hka & Hkk & He & Hgr).
      exists value, k0', k1, h, next'. split; [done|]. split_and!; try done.
      -- constructor; try done. destruct k0' as [|i0 kk0], k1 as [|i1 kk1]; try done.
         destruct k0; [by specialize (Hz eq_refl)|]. cbn in *. intros Hc. apply Hap.
         eapply agree_trans; [by apply Hkk|]. eapply agree_trans; [by apply agree_sym|done].
      -- left. split; [lia|done].
      -- by apply perm_first.
      -- by apply grown_first.
    * destruct Hr as [Hnn0 Hna].
      destruct (insertLeg_spec w key k1 next) as (r & -> & Hr); try done; [lia|].
      destruct r as [[[k1' h] next']|].
      -- destruct Hr as (Hs & Hnn & Hka & Hkk & He & Hgr).
         exists value, k0, k1', h, next'. split; [done|]. split_and!; try done.
         ++ constructor; try done. destruct k0 as [|i0 kk0], k1' as [|i1 kk1]; try done.
            cbn in *. intros Hc. apply Hna. apply agree_sym. eapply agree_trans; [done|]. done.
         ++ left. split; [lia|done].
         ++ by apply perm_second.
         ++ by apply grown_second.
      -- exfalso. destruct Hr as [Hnn1 Hna1]. eapply legs_cover; [..|done|done|done]; try done; lia.
Qed.

(** A kid that is rebuilt around the page still hangs below its parent. *)
Lemma sub_rebuild w key id0 key0 w0 value0 k00 k01 value' kid0' kid1' :
  sub_ok tid w key (Node id0 key0 (pmask w0) tid value0 k00 k01) → 0 <= w0 <= 64 →
  kids_ok tid w0 key0 kid0' kid1' → (k01 ≠ Null → kid1' ≠ Null) →
  (w0 < nw ∧ value' = value0 ∨ w0 = nw ∧ is_Some value') →
  sub_ok tid w key (Node id0 key0 (pmask w0) tid value' kid0' kid1').
Proof.
  intros Hs Hw0 Hk Hk1 Hv. inversion Hs as [|? ? ? ? w1 ? ? ? Hw Hw' Hkey Hag Hf Hkk]; subst.
  match goal with Hm : pmask w1 = _ |- _ => apply pmask_inj in Hm as ->; [|lia..] end.
  constructor; try done.
  destruct Hv as [[_ ->]|[_ [? ->]]]; [|done]. intros. by apply Hk1, Hf.
Qed.

Lemma goesAfter_spec w key kid :
  sub_ok tid w key kid → goesAfter kid a (pmask nw) = true →
  ∃ id0 key0 w0 value0 k00 k01, kid = Node id0 key0 (pmask w0) tid value0 k00 k01
    ∧ w < w0 <= nw ∧ Z.land key0 (pmask w0) = key0 ∧ agree w0 key0 a ∧ kids_ok tid w0 key0 k00 k01.
Proof.
  intros Hs Hg. inversion Hs as [|? ? id0 key0 w0 value0 k00 k01 Hw0 Hw0' Hkey0 Hag0 Hf0 Hkk0]; subst; [done|].
  cbn in Hg. apply andb_true_iff in Hg as [Hm Hsub%Z.eqb_eq].
  apply match_agree in Hm; [|lia|done]. apply pmask_sub in Hsub; [|lia..].
  exists id0, key0, w0, value0, k00, k01. split_and!; try done; lia.
Qed.

Lemma insertNode_spec n : ∀ id key w value kid0 kid1 next,
  n = Node id key (pmask w) tid value kid0 kid1 →
  0 <= w <= nw → Z.land key (pmask w) = key → agree w key a → kids_ok tid w key kid0 kid1 →
  (∀ h p, (h, p) ∈ entries n → pg_width p = nw → ¬ covers p a) →
  inserts n id key w value kid1 next.
Proof.
  induction n as [|id key mask tid' value k0 IH0 k1 IH1]; [done|].
  intros ? ? w ? ? ? next [= <- <- -> -> <- <- <-] Hw Hkey Hag Hk Hnew.
  inversion Hk as [? ? ? ? Hk0 Hk1 Hap Hz]; subst.
  destruct (goesAfter k0 a (pmask nw)) eqn:Hg0; [|destruct (goesAfter k1 a (pmask nw)) eqn:Hg1].
  - destruct (goesAfter_spec _ _ _ Hk0 Hg0) as (id0 & key0 & w0 & value0 & k00 & k01 & Hkid & ? & ? & ? & ?).
    destruct (IH0 _ _ _ _ _ _ next Hkid) as (v' & k0' & k1' & h & next' & Hr & Hk' & Hk1' & Hv & He & Hgr);
      try done; try lia.
    { intros h p Hin Hp. apply (Hnew h p); [|done]. by apply entries_first. }
    unfold inserts. cbn [insertNode]. rewrite Hg0, Hr.
    exists value, (Node id0 key0 (pmask w0) tid v' k0' k1'), k1, h, next'. split_and!; try done.
    + subst k0. constructor; try done. eapply sub_rebuild; try done; lia.
    + left. split; [lia|done].
    + by apply perm_first.
    + by apply grown_first.
  - destruct (goesAfter_spec _ _ _ Hk1 Hg1) as (id1 & key1 & w1 & value1 & k10 & k11 & Hkid & ? & ? & ? & ?).
    destruct (IH1 _ _ _ _ _ _ next Hkid) as (v' & k0' & k1' & h & next' & Hr & Hk' & Hk1' & Hv & He & Hgr);
      try done; try lia.
    { intros h p Hin Hp. apply (Hnew h p); [|done]. by apply entries_second. }
    unfold inserts. cbn [insertNode]. rewrite Hg0, Hg1, Hr.
    exists value, k0, (Node id1 key1 (pmask w1) tid v' k0' k1'), h, next'. split_and!; try done.
    + subst k1. constructor; try done; [|by intros ->; specialize (Hz eq_refl)].
      eapply sub_rebuild; try done; lia.
    + left. split; [lia|done].
    + by apply perm_second.
    + by apply grown_second.
  - by apply insertNode_here.
Qed.
End insertion.

(** ** Removal *)

Lemma removeNode_absent h root n : h ∉ node_ids n → removeNode h root n = Ok Absent.
Proof.
  revert root. induction n as [|id key mask tid value k0 IH0 k1 IH1]; intros root Hn; [done|].
  cbn in *. rewrite not_elem_of_cons, not_elem_of_app in Hn. destruct Hn as (Hid & H0 & H1).
  destruct (Nat.eqb_spec id h); [by subst|]. by rewrite IH0, IH1.
Qed.

Lemma sub_weaken tid w w' key key' n :
  0 <= w <= w' → agree w key key' → sub_ok tid w' key' n → sub_ok tid w key n.
Proof.
  intros Hw Hag Hs. inversion Hs; subst; constructor; try done; try lia.
  eapply agree_trans; [done|]. eapply agree_le; [|done]. lia.
Qed.

Section removal.
Context (tid : ThreadID) (h : Handle) (p : Page).

(** What [remove] does to a subtree that holds the handle: the node stays or
    goes, what is left hangs below the parent and lacks the page. *)
Definition removesKid (w : Z) (key : Key) (kid : node) : Prop :=
  ∃ r kid', removeNode (handle_id h) false kid = Ok r
    ∧ (r = Kept kid' ∧ kid' ≠ Null ∨ r = Gone kid') ∧ sub_ok tid w key kid'
    ∧ (kid' ≠ Null → agree (w + 1) (nodeKey kid) (nodeKey kid'))
    ∧ entries kid ≡ₚ (h, p) :: entries kid' ∧ node_ids kid' ⊆+ node_ids kid.

(** A fork between kids [kid0] and [kid1] that lost the handle. *)
Definition leaves (root : bool) (id : nat) (key : Key) (w : Z) (value : option nat)
    (kid0 kid1 : node) (r : removal) : Prop :=
  match r with
  | Kept n => ∃ k0 k1, n = Node id key (pmask w) tid value k0 k1 ∧ kids_ok tid w key k0 k1
      ∧ (value = None → k1 = Null → root = true)
      ∧ entries k0 ++ entries k1 = entries kid0 ++ entries kid1
      ∧ node_ids k0 ++ node_ids k1 = node_ids kid0 ++ node_ids kid1
  | Gone n => root = false ∧ value = None ∧ sub_ok tid w key n
      ∧ entries n = entries kid0 ++ entries kid1 ∧ node_ids n = node_ids kid0 ++ node_ids kid1
  | Absent => False
  end.

Lemma tidyParent_spec root id key w value kid0 kid1 :
  sub_ok tid w key kid0 → sub_ok tid w key kid1 → apart w kid0 kid1 →
  leaves root id key w value kid0 kid1 (tidyParent root id key (pmask w) tid value kid0 kid1).
Proof.
  intros H0 H1 Ha. unfold tidyParent.
  assert (Hone : ∀ k, sub_ok tid w key k → kids_ok tid w key k Null).
  { intros k Hk. constructor; try done; [constructor|by destruct k]. }
  destruct kid0 as [|i0 key0 m0 t0 v0 k00 k01].
  - destruct value as [v|], root; cbn; rewrite ?app_nil_r;
      first [ do 2 eexists; split_and!; [done|by apply Hone|done|by rewrite app_nil_r..]
            | done ].
  - destruct kid1 as [|i1 key1 m1 t1 v1 k10 k11]; destruct value as [v|], root; cbn;
      first [ do 2 eexists; split_and!; [done|by constructor|done|done..]
            | by rewrite !app_nil_r ].
Qed.

Lemma leaves_keep root id key w value kid0 kid1 :
  kids_ok tid w key kid0 kid1 → (value = None → kid1 = Null → root = true) →
  leaves root id key w value kid0 kid1 (Kept (Node id key (pmask w) tid value kid0 kid1)).
Proof. intros Hk Hf. cbn. eauto 10. Qed.

Lemma removeNode_first root id key w value kid0 kid1 :
  0 <= w → id ≠ handle_id h → kids_ok tid w key kid0 kid1 → removesKid w key kid0 →
  (value = None → kid1 = Null → root = true) →
  ∃ r kid0', removeNode (handle_id h) root (Node id key (pmask w) tid value kid0 kid1) = Ok r
    ∧ leaves root id key w value kid0' kid1 r
    ∧ entries kid0 ≡ₚ (h, p) :: entries kid0' ∧ node_ids kid0' ⊆+ node_ids kid0.
Proof.
  intros Hw Hid Hk (r & kid' & Hr & Hcase & Hs & Hag & He & Hids) Hf. cbn [removeNode].
  rewrite (proj2 (Nat.eqb_neq _ _)), Hr by done.
  inversion Hk as [? ? ? ? Hk0 Hk1 Hap Hz]; subst.
  assert (Hap' : apart w kid' kid1).
  { destruct kid' as [|i' key'], kid1 as [|i1 key1]; try done. destruct kid0; [by specialize (Hz eq_refl)|].
    cbn in *. intros Hc. apply Hap. eapply agree_trans; [by apply Hag|done]. }
  destruct Hcase as [[-> Hn]| ->]; do 2 eexists; split_and!; try done.
  - apply leaves_keep; [by constructor|done].
  - by apply tidyParent_spec.
Qed.

Lemma removeNode_second root id key w value kid0 kid1 :
  0 <= w → id ≠ handle_id h → kids_ok tid w key kid0 kid1 → removesKid w key kid1 →
  handle_id h ∉ node_ids kid0 → (value = None → kid1 = Null → root = true) →
  ∃ r kid1', removeNode (handle_id h) root (Node id key (pmask w) tid value kid0 kid1) = Ok r
    ∧ leaves root id key w value kid0 kid1' r
    ∧ entries kid1 ≡ₚ (h, p) :: entries kid1' ∧ node_ids kid1' ⊆+ node_ids kid1.
Proof.
  intros Hw Hid Hk (r & kid' & Hr & Hcase & Hs & Hag & He & Hids) Habs Hf. cbn [removeNode].
  rewrite (proj2 (Nat.eqb_neq _ _)), removeNode_absent, Hr by done.
  inversion Hk as [? ? ? ? Hk0 Hk1 Hap Hz]; subst.
  assert (Hk1n : kid1 ≠ Null).
  { intros ->. apply Permutation_nil_cons in He. done. }
  assert (Hap' : apart w kid0 kid').
  { destruct kid' as [|i' key'], kid0 as [|i0 key0]; try done. destruct kid1; [done|].
    cbn in *. intros Hc. apply Hap. eapply agree_trans; [done|]. by apply agree_sym, Hag. }
  destruct Hcase as [[-> Hn]| ->]; do 2 eexists; split_and!; try done.
  - apply leaves_keep; [constructor; try done; intros ->; by specialize (Hz eq_refl)|done].
  - by apply tidyParent_spec.
Qed.

Lemma sub_key w key n : sub_ok tid w key n → n ≠ Null → agree w key (nodeKey n).
Proof. by destruct 1. Qed.

Lemma leaves_removes w key id key' w' value kid0 kid1 x y r :
  sub_ok tid w key (Node id key' (pmask w') tid value kid0 kid1) → 0 <= w < w' → w' <= 64 →
  removeNode (handle_id h) false (Node id key' (pmask w') tid value kid0 kid1) = Ok r →
  leaves false id key' w' value x y r →
  entries kid0 ++ entries kid1 ≡ₚ (h, p) :: entries x ++ entries y →
  node_ids x ++ node_ids y ⊆+ node_ids kid0 ++ node_ids kid1 →
  removesKid w key (Node id key' (pmask w') tid value kid0 kid1).
Proof.
  intros Hs Hw Hw' Hr Hl He Hids. inversion Hs as [|? ? ? ? w1 ? ? ? ? ? Hkey Hag Hf Hk]; subst.
  match goal with Hm : pmask w1 = _ |- _ => apply pmask_inj in Hm as ->; [|lia..] end.
  destruct r as [|n|n]; cbn in Hl; [done|..].
  - destruct Hl as (k0 & k1 & -> & Hk' & Hone & He' & Hi'). do 2 eexists.
    split; [exact Hr|]. split; [by left|]. split_and!.
    + constructor; try done. intros Hv Hn. specialize (Hone Hv Hn). done.
    + intros _. apply agree_refl.
    + cbn [entries]. rewrite He, He'. symmetry. apply Permutation_middle.
    + cbn [node_ids]. rewrite Hi'. by apply submseteq_skip.
  - destruct Hl as (_ & -> & Hn & He' & Hi'). do 2 eexists.
    split; [exact Hr|]. split; [by right|]. split_and!.
    + eapply sub_weaken; [|done|done]. lia.
    + intros Hnn. cbn. eapply agree_le; [|by apply sub_key]. lia.
    + cbn [entries]. by rewrite He, He'.
    + cbn [node_ids]. rewrite Hi'. by apply submseteq_cons.
Qed.

Lemma removeNode_own w key w' value kid0 kid1 :
  sub_ok tid w key (Node (handle_id h) (pg_key p) (pmask w') tid value kid0 kid1) →
  0 <= w < w' → w' <= 64 → handle_tid h = tid → pg_width p = w' → value = Some (pg_value p) →
  removesKid w key (Node (handle_id h) (pg_key p) (pmask w') tid value kid0 kid1).
Proof.
  intros Hs Hw Hw'. inversion Hs as [|? ? ? ? w1 ? ? ? ? ? Hkey Hag Hf Hk]; subst.
  match goal with Hm : pmask w1 = _ |- _ => apply pmask_inj in Hm as ->; [|lia..] end.
  inversion Hk as [? ? ? ? Hk0 Hk1 Hap Hz]; subst.
  intros Ht Hpw ->.
  assert (Hown : ∀ n, entries n = entries kid0 ++ entries kid1 →
    entries (Node (handle_id h) (pg_key p) (pmask w') tid
      (Some (pg_value p)) kid0 kid1) ≡ₚ (h, p) :: entries n).
  { intros n ->. cbn. rewrite maskWidth_pmask, <-Ht, <-Hpw by lia. by destruct h, p. }
  unfold removesKid. cbn [removeNode]. rewrite Nat.eqb_refl.
  destruct kid1 as [|i1 key1 m1 t1 v1 k10 k11].
  - do 2 eexists. split; [done|]. split; [by right|]. split_and!.
    + eapply sub_weaken; [|done|done]. lia.
    + intros Hnn. cbn. eapply agree_le; [|by apply sub_key]. lia.
    + apply Hown. cbn. by rewrite app_nil_r.
    + cbn. rewrite app_nil_r. by apply submseteq_cons.
  - do 2 eexists. split; [done|]. split; [by left|]. split_and!.
    + by constructor.
    + intros _. apply agree_refl.
    + by apply Hown.
    + done.
Qed.

Lemma removeNode_sub n : ∀ w key, 0 <= w → sub_ok tid w key n → NoDup (node_ids n) →
  (h, p) ∈ entries n → removesKid w key n.
Proof.
  induction n as [|id key' mask tid' value k0 IH0 k1 IH1]; intros w key Hw Hs Hnd Hin;
    [by apply elem_of_nil in Hin|].
  inversion Hs as [|? ? ? ? w' ? ? ? Hww Hw' Hkey Hag Hf Hk]; subst.
  inversion Hk as [? ? ? ? Hk0 Hk1 Hap Hz]; subst.
  cbn in Hnd. apply NoDup_cons in Hnd as [Hid Hnd]. apply NoDup_app in Hnd as (Hn0 & Hd & Hn1).
  rewrite elem_of_app in Hid. cbn [entries] in Hin. rewrite !elem_of_app in Hin.
  destruct Hin as [Hin|[Hin|Hin]].
  - destruct value as [v|]; [|by apply elem_of_nil in Hin].
    apply list_elem_of_singleton in Hin as [= Hh Hp]. rewrite maskWidth_pmask in Hp by lia.
    pose proof (removeNode_own w key w' (Some v) k0 k1) as Ho. rewrite Hh, Hp in Ho. by apply Ho.
  - pose proof (entries_in_ids _ _ _ Hin).
    destruct (removeNode_first false id key' w' value k0 k1) as (r & x & Hr & Hl & He & Hi);
      [lia|naive_solver|done|by apply IH0; [lia|..]|naive_solver|].
    eapply leaves_removes; try done; [by rewrite He|by apply submseteq_app].
  - pose proof (entries_in_ids _ _ _ Hin).
    destruct (removeNode_second false id key' w' value k0 k1) as (r & x & Hr & Hl & He & Hi);
      [lia|naive_solver|done|by apply IH1; [lia|..]|naive_solver|naive_solver|].
    eapply leaves_removes; try done; [|by apply submseteq_app].
    rewrite He. symmetry. apply Permutation_middle.
Qed.
End removal.

(** ** The operations of the trie *)

Definition trie_binds (t : Trie) (h : Handle) (p : Page) : Prop := (h, p) ∈ entries (trie_head t).

Section trie.
Context (tid : ThreadID).
Implicit Types (t : Trie) (a : Key).

Lemma newTrie_ok : trie_ok tid (newTrie tid).
Proof.
  split; cbn.
  - do 2 eexists. split; [done|]. repeat constructor.
  - repeat constructor. by intros ?%elem_of_nil.
  - repeat constructor.
Qed.

Lemma trie_binds_width t h p :
  trie_ok tid t → trie_binds t h p → handle_tid h = tid ∧ 1 <= pg_width p <= 64.
Proof.
  intros [(k0 & k1 & Hh & Hk) _ _] Hin. unfold trie_binds in Hin. rewrite Hh in Hin. cbn in Hin.
  inversion Hk as [? ? ? ? Hk0 Hk1]; subst. rewrite elem_of_app in Hin.
  destruct Hin as [Hin|Hin]; eapply sub_entries in Hin as (? & ? & _); try done; split; auto; lia.
Qed.

Lemma trie_find a t :
  trie_ok tid t → finds (entries (trie_head t)) a (lookupHandle a (trie_head t)).
Proof.
  intros [(k0 & k1 & Hh & Hk) _ _]. rewrite Hh. eapply lookupHandle_spec; try done.
  intros i Hi. lia.
Qed.

Lemma trie_insert_spec a w v t :
  trie_ok tid t → 1 <= w <= 64 →
  (∀ h p, trie_binds t h p → pg_width p = w → ¬ covers p a) →
  ∃ h t', trie_insert tid a w v t = Ok (h, t') ∧ trie_ok tid t'
    ∧ entries (trie_head t') ≡ₚ (h, mkPage (Z.land a (pmask w)) w v) :: entries (trie_head t).
Proof.
  intros [(k0 & k1 & Hh & Hk) Hnd Hnx] Hw Hnew. unfold trie_insert. rewrite newMask_pmask by done.
  destruct (insertNode_spec tid (Z.land a (pmask w)) w v ltac:(lia)
              ltac:(by rewrite <-Z.land_assoc, Z.land_diag) (trie_head t) 0 0 0 None k0 k1
              (trie_next t))
    as (v' & k0' & k1' & h & next' & -> & Hk' & _ & Hv & He & k & -> & Hids); try done; try lia.
  { intros i Hi. lia. }
  { intros h p Hin Hp Hc. apply (Hnew h p Hin Hp). unfold covers in *. rewrite Hp in *.
    eapply agree_trans; [done|]. apply land_pmask_agree. lia. }
  exists (mkHandle h tid), (mkTrie (Node 0 0 (pmask 0) tid v' k0' k1') (trie_next t + k)).
  split; [done|]. split; [|done]. split; cbn [trie_head trie_next].
  - destruct Hv as [[_ ->]|[? _]]; [by eauto|lia].
  - rewrite Hids. apply NoDup_app. split_and!; [apply NoDup_seq| |done].
    intros i [? ?]%elem_of_seq Hi. rewrite Forall_forall in Hnx. apply Hnx in Hi. lia.
  - rewrite Hids. apply Forall_app. split.
    + apply Forall_forall. intros i [? ?]%elem_of_seq. lia.
    + eapply Forall_impl; [done|]. cbn. lia.
Qed.

Lemma trie_remove_spec h p t :
  trie_ok tid t → trie_binds t h p →
  ∃ t', trie_remove h t = Ok t' ∧ trie_ok tid t'
    ∧ entries (trie_head t) ≡ₚ (h, p) :: entries (trie_head t').
Proof.
  intros [(k0 & k1 & Hh & Hk) Hnd Hnx] Hin. unfold trie_binds, trie_remove in *. rewrite Hh in *.
  assert (Hgo : ∃ r x y, removeNode (handle_id h) true (Node 0 0 (pmask 0) tid None k0 k1) = Ok r
    ∧ leaves tid true 0 0 0 None x y r ∧ entries k0 ++ entries k1 ≡ₚ (h, p) :: entries x ++ entries y
    ∧ node_ids x ++ node_ids y ⊆+ node_ids k0 ++ node_ids k1).
  { cbn in Hnd. apply NoDup_cons in Hnd as [Hid Hnd]. apply NoDup_app in Hnd as (Hn0 & Hd & Hn1).
    rewrite elem_of_app in Hid. cbn [entries] in Hin. rewrite app_nil_l, elem_of_app in Hin.
    inversion Hk as [? ? ? ? Hk0 Hk1]; subst.
    destruct Hin as [Hin|Hin]; pose proof (entries_in_ids _ _ _ Hin).
    - destruct (removeNode_first tid h p true 0 0 0 None k0 k1) as (r & x & Hr & Hl & He & Hi);
        [lia|by intros Heq; apply Hid; rewrite Heq; auto|done|by apply removeNode_sub|done|].
      exists r, x, k1. split_and!; try done; [by rewrite He|by apply submseteq_app].
    - destruct (removeNode_second tid h p true 0 0 0 None k0 k1) as (r & x & Hr & Hl & He & Hi);
        [lia|by intros Heq; apply Hid; rewrite Heq; auto|done|by apply removeNode_sub|naive_solver|done|].
      exists r, k0, x. split_and!; try done; [|by apply submseteq_app].
      rewrite He. symmetry. apply Permutation_middle. }
  destruct Hgo as (r & x & y & -> & Hl & He & Hi). destruct r as [|n|n]; cbn in Hl; [done|..|naive_solver].
  destruct Hl as (k0' & k1' & -> & Hk' & _ & He' & Hi'). eexists. split; [done|].
  assert (Hsub : node_ids (Node 0 0 (pmask 0) tid None k0' k1') ⊆+ node_ids (Node 0 0 (pmask 0) tid None k0 k1)).
  { cbn [node_ids]. rewrite Hi'. by apply submseteq_skip. }
  apply submseteq_Permutation in Hsub as [rest Hsub].
  rewrite Hsub in Hnd, Hnx. apply NoDup_app in Hnd as [Hnd _]. apply Forall_app in Hnx as [Hnx _].
  split; [split; cbn [trie_head trie_next]; eauto|].
  - cbn [trie_head entries]. by rewrite !app_nil_l, He, He'.
Qed.
End trie.

(** ** The interface *)

#[export] Instance Trie_PageTrie : PageTrie Trie Handle := {|
  tr_lookup := trie_lookup;
  tr_insert := trie_insert;
  tr_remove := trie_remove;
  tr_tid := handle_tid;
|}.

Lemma entries_delete n n' h p h' q :
  NoDup (node_ids n) → entries n ≡ₚ (h, p) :: entries n' →
  (h', q) ∈ entries n' ↔ h' ≠ h ∧ (h', q) ∈ entries n.
Proof.
  intros Hnd He. eapply sublist_NoDup in Hnd; [|apply entries_ids].
  rewrite He in Hnd. cbn in Hnd. apply NoDup_cons in Hnd as [Hh _].
  assert (Hin : ∀ r, (h, r) ∈ entries n' → False).
  { intros r Hr. apply Hh. change (handle_id h) with ((handle_id ∘ fst) (h, r)).
    by apply list_elem_of_fmap_2. }
  rewrite He, elem_of_cons. split.
  - intros Hq. split; [|by right]. intros ->. by eapply Hin.
  - intros [Hne [[= -> ->]|?]]; done.
Qed.

#[export] Program Instance Trie_PageTrieLaws : PageTrieLaws Trie Handle := {|
  tr_ok := trie_ok;
  tr_binds := trie_binds;
|}.
Next Obligation. intros tid t h p q [_ Hnd _]. by apply entries_fun. Qed.
Next Obligation. intros tid t h p Hok Hb. by apply (trie_binds_width _ _ _ _ Hok) in Hb as []. Qed.
Next Obligation.
  cbn. unfold trie_lookup. intros tid t a i Hok Hl. pose proof (trie_find tid a t Hok) as Hf.
  destruct (lookupHandle a (trie_head t)) as [[h v]|]; [|done]. simplify_eq/=.
  destruct Hf as (p & ? & ? & ? & ?). eauto 10.
Qed.
Next Obligation.
  cbn. unfold trie_lookup. intros tid t a h p Hok Hl. pose proof (trie_find tid a t Hok) as Hf.
  destruct (lookupHandle a (trie_head t)) as [[? ?]|]; [done|]. apply Hf.
Qed.
Next Obligation.
  intros tid t a w i Hok Hw Hnew.
  destruct (trie_insert_spec tid a w i t) as (h & t' & Hr & Hok' & He); try done.
  exists h, t'. split_and!; try done.
  - intros p Hp. apply (entries_delete _ _ _ _ h p (to_ids _ _ Hok') He) in Hp as []. done.
  - intros h' p. unfold trie_binds. rewrite He, elem_of_cons. split; intros [?|?]; naive_solver.
Qed.
Next Obligation.
  intros tid t h p Hok Hb. destruct (trie_remove_spec tid h p t) as (t' & Hr & Hok' & He); try done.
  exists t'. split_and!; try done. intros h' q. apply (entries_delete _ _ _ _ _ _ (to_ids _ _ Hok) He).
Qed.

(** ** The reference map

    A list of pages: a lookup takes the widest page that covers the address,
    [remove(Key)] drops it. *)

Definition coversb (p : Page) (a : Key) : bool :=
  Z.land (pg_key p) (pmask (pg_width p)) =? Z.land a (pmask (pg_width p)).

Fixpoint widest (a : Key) (d : list Page) : option Page :=
  match d with
  | [] => None
  | p :: d' =>
      match widest a d' with
      | Some q => if coversb p a && (pg_width p <=? pg_width q) then Some p else Some q
      | None => if coversb p a then Some p else None
      end
  end.

Inductive trie_op : Type :=
  | TLookup (key : Key)
  | TInsert (key : Key) (width : Z) (val : nat)
  | TRemove (key : Key)
  | TClear.

Definition ref_run (op : trie_op) (d : list Page) : option nat * list Page :=
  match op with
  | TLookup a => (pg_value <$> widest a d, d)
  | TInsert a w v => (None, mkPage (Z.land a (pmask w)) w v :: d)
  | TRemove a =>
      match widest a d with
      | Some p => (Some (pg_value p), filter (λ q, q ≠ p) d)
      | None => (None, d)
      end
  | TClear => (None, [])
  end.

(** An insertion is legal when its prefix is not there. *)
Definition ref_legal (op : trie_op) (d : list Page) : bool :=
  match op with
  | TInsert a w _ =>
      (1 <=? w) && (w <=? 64) && forallb (λ p, negb ((pg_width p =? w) && coversb p a)) d
  | _ => true
  end.

Definition trie_run (tid : ThreadID) (op : trie_op) (t : Trie) : outcome (option nat * Trie) :=
  match op with
  | TLookup a => Ok (trie_lookup a t, t)
  | TInsert a w v => let! (_, t) := trie_insert tid a w v t in Ok (None, t)
  | TRemove a => trie_removeKey a t
  | TClear => Ok (None, trie_clear t)
  end.

Fixpoint ref_runs (ops : list trie_op) (d : list Page) : list (option nat) * list Page :=
  match ops with
  | [] => ([], d)
  | op :: ops =>
      let (o, d) := ref_run op d in
      let (os, d) := ref_runs ops d in (o :: os, d)
  end.

Fixpoint ref_legals (ops : list trie_op) (d : list Page) : bool :=
  match ops with
  | [] => true
  | op :: ops => ref_legal op d && ref_legals ops (snd (ref_run op d))
  end.

Fixpoint trie_runs (tid : ThreadID) (ops : list trie_op) (t : Trie)
  : outcome (list (option nat) * Trie) :=
  match ops with
  | [] => Ok ([], t)
  | op :: ops =>
      let! (o, t) := trie_run tid op t in
      let! (os, t) := trie_runs tid ops t in Ok (o :: os, t)
  end.

(** No prefix is stored twice. *)
Record distinct (d : list Page) : Prop := {
  di_nodup : NoDup d;
  di_width : Forall (λ p, 1 <= pg_width p <= 64) d;
  di_same : ∀ p q a, p ∈ d → q ∈ d → pg_width p = pg_width q → covers p a → covers q a → p = q;
}.

Record trie_rep (tid : ThreadID) (t : Trie) (d : list Page) : Prop := {
  rep_ok : trie_ok tid t;
  rep_pages : snd <$> entries (trie_head t) ≡ₚ d;
  rep_distinct : distinct d;
}.

Lemma coversb_covers p a : 1 <= pg_width p <= 64 → coversb p a = true ↔ covers p a.
Proof. intros Hw. unfold coversb. rewrite Z.eqb_eq. apply land_pmask. lia. Qed.

Lemma widest_spec a d :
  Forall (λ p, 1 <= pg_width p <= 64) d →
  match widest a d with
  | Some p => p ∈ d ∧ covers p a ∧ ∀ q, q ∈ d → covers q a → pg_width p <= pg_width q
  | None => ∀ q, q ∈ d → ¬ covers q a
  end.
Proof.
  induction 1 as [|p d Hp Hd IH]; cbn; [by intros q ?%elem_of_nil|].
  pose proof (coversb_covers p a Hp) as Hc.
  destruct (widest a d) as [q|].
  - destruct IH as (Hin & Hq & Hmin).
    destruct (coversb p a && (pg_width p <=? pg_width q)) eqn:E.
    + apply andb_true_iff in E as [?%Hc ?%Z.leb_le]. split_and!; [by left|done|].
      intros r [->|Hr]%elem_of_cons Hcr; [lia|]. specialize (Hmin _ Hr Hcr). lia.
    + split_and!; [by right|done|]. intros r [->|Hr]%elem_of_cons Hcr; [|by apply Hmin].
      apply Hc in Hcr. rewrite Hcr in E. apply Z.leb_gt in E. lia.
  - destruct (coversb p a) eqn:E.
    + split_and!; [by left|by apply Hc|]. intros r [->|Hr]%elem_of_cons Hcr; [lia|by apply IH in Hr].
    + intros r [->|Hr]%elem_of_cons; [|by apply IH]. intros Hcr%Hc. congruence.
Qed.

Lemma rep_binds tid t d p :
  trie_rep tid t d → p ∈ d ↔ ∃ h, trie_binds t h p.
Proof.
  intros [_ Hp _]. rewrite <-Hp, list_elem_of_fmap. unfold trie_binds. split.
  - intros ([h q] & -> & Hin). eauto.
  - intros [h Hin]. by exists (h, p).
Qed.

Lemma lookup_widest tid t d a :
  trie_rep tid t d →
  match lookupHandle a (trie_head t) with
  | Some (h, v) => ∃ p, widest a d = Some p ∧ trie_binds t h p ∧ pg_value p = v
  | None => widest a d = None
  end.
Proof.
  intros Hrep. pose proof (rep_distinct _ _ _ Hrep) as [_ Hw Hsame].
  pose proof (trie_find tid a t (rep_ok _ _ _ Hrep)) as Hf.
  pose proof (widest_spec a d Hw) as Hs.
  destruct (lookupHandle a (trie_head t)) as [[h v]|]; cbn in Hf.
  - destruct Hf as (p & Hin & Hc & Hv & Hmin).
    assert (Hpd : p ∈ d) by (apply (rep_binds _ _ _ _ Hrep); eauto).
    destruct (widest a d) as [q|]; [|by apply Hs in Hpd]. destruct Hs as (Hq & Hcq & Hminq).
    exists p. split_and!; try done. f_equal. eapply Hsame; try done.
    apply (rep_binds _ _ _ _ Hrep) in Hq as Hb. destruct Hb as [h' Hb].
    specialize (Hmin _ _ Hb Hcq). specialize (Hminq _ Hpd Hc). lia.
  - destruct (widest a d) as [q|]; [|done]. destruct Hs as (Hq & Hcq & _).
    apply (rep_binds _ _ _ _ Hrep) in Hq as [h' Hb]. by apply Hf in Hb.
Qed.

Lemma distinct_insert a w v d :
  distinct d → ref_legal (TInsert a w v) d = true →
  1 <= w <= 64 ∧ (∀ p, p ∈ d → pg_width p = w → ¬ covers p a)
  ∧ distinct (mkPage (Z.land a (pmask w)) w v :: d).
Proof.
  intros [Hnd Hw Hsame] Hl. cbn in Hl. apply andb_true_iff in Hl as [Hww Hall].
  apply andb_true_iff in Hww as [?%Z.leb_le ?%Z.leb_le]. rewrite forallb_forall in Hall.
  assert (Hnew : ∀ p, p ∈ d → pg_width p = w → ¬ covers p a).
  { intros p Hp <- Hc. specialize (Hall p (proj1 (list_elem_of_In _ _) Hp)). apply coversb_covers in Hc; [|lia].
    rewrite Z.eqb_refl, Hc in Hall. done. }
  split_and!; [lia..|done|].
  assert (Hag : agree w (Z.land a (pmask w)) a) by (apply land_pmask_agree; lia).
  assert (Hcov : ∀ p b, p ∈ d → pg_width p = w → covers p b →
                        agree w (Z.land a (pmask w)) b → False).
  { intros p b Hp Hpw Hc Hb. apply (Hnew p Hp Hpw). unfold covers in *. rewrite Hpw in *.
    eapply agree_trans; [done|]. eapply agree_trans; [|done]. by apply agree_sym. }
  split.
  - constructor; [|done]. intros Hin. by apply (Hcov _ a Hin).
  - constructor; [cbn; lia|done].
  - intros p q b. rewrite !elem_of_cons. intros [->|Hp] [->|Hq] Heq Hc Hd; [done|..|by eapply Hsame];
      exfalso; cbn in *; eauto.
Qed.

Lemma distinct_filter (P : Page → Prop) `{∀ p, Decision (P p)} d :
  distinct d → distinct (filter P d).
Proof.
  intros [Hnd Hw Hsame]. split.
  - by apply NoDup_filter.
  - apply Forall_forall. intros p [_ Hp]%list_elem_of_filter. by eapply Forall_forall in Hw.
  - intros p q a [_ Hp]%list_elem_of_filter [_ Hq]%list_elem_of_filter. by apply Hsame.
Qed.

Lemma filter_remove (p : Page) l d :
  NoDup d → d ≡ₚ p :: l → filter (λ q, q ≠ p) d ≡ₚ l.
Proof.
  intros Hnd Hp. rewrite Hp in Hnd. rewrite Hp. rewrite filter_cons_False by tauto.
  rewrite filter_all; [done|]. apply NoDup_cons in Hnd as [Hni _].
  apply Forall_forall. by intros q Hq ->.
Qed.

Lemma trie_run_rep tid op t d :
  trie_rep tid t d → ref_legal op d = true →
  ∃ t', trie_run tid op t = Ok (fst (ref_run op d), t') ∧ trie_rep tid t' (snd (ref_run op d)).
Proof.
  intros Hrep Hl. pose proof (rep_ok _ _ _ Hrep) as Hok.
  destruct op as [a|a w v|a|]; cbn [trie_run ref_run].
  - pose proof (lookup_widest tid t d a Hrep) as Hlw. exists t. split; [|done]. unfold trie_lookup.
    destruct (lookupHandle a (trie_head t)) as [[h v]|].
    + destruct Hlw as (p & -> & _ & <-). done.
    + by rewrite Hlw.
  - destruct (distinct_insert a w v d (rep_distinct _ _ _ Hrep) Hl) as (Hw & Hnew & Hdi).
    destruct (trie_insert_spec tid a w v t Hok Hw) as (h & t' & -> & Hok' & He).
    { intros h p Hb. apply Hnew, (rep_binds _ _ _ _ Hrep). eauto. }
    exists t'. split; [done|]. split; [done| |done]. by rewrite He, fmap_cons, (rep_pages _ _ _ Hrep).
  - pose proof (lookup_widest tid t d a Hrep) as Hlw. unfold trie_removeKey.
    destruct (lookupHandle a (trie_head t)) as [[h v]|]; [|by rewrite Hlw; eauto].
    destruct Hlw as (p & -> & Hb & <-).
    destruct (trie_remove_spec tid h p t Hok Hb) as (t' & -> & Hok' & He).
    exists t'. split; [done|]. split; [done| |by apply distinct_filter, Hrep].
    pose proof (rep_pages _ _ _ Hrep) as Hp. rewrite He, fmap_cons in Hp.
    symmetry. apply filter_remove; [apply Hrep|]. by rewrite <-Hp.
  - exists (trie_clear t). split; [done|]. destruct Hok as [(k0 & k1 & Hh & Hk) Hnd Hnx].
    unfold trie_clear. rewrite Hh in *. split; [split; cbn|done|].
    + do 2 eexists. split; [done|]. repeat constructor.
    + repeat constructor. by intros ?%elem_of_nil.
    + apply Forall_cons in Hnx as [? _]. by repeat constructor.
    + split; [constructor..|]. by intros ? ? ? ?%elem_of_nil.
Qed.

Lemma trie_runs_rep tid ops t d :
  trie_rep tid t d → ref_legals ops d = true →
  ∃ t', trie_runs tid ops t = Ok (fst (ref_runs ops d), t') ∧ trie_rep tid t' (snd (ref_runs ops d)).
Proof.
  revert t d. induction ops as [|op ops IH]; intros t d Hrep Hl; cbn in *; [by eauto|].
  apply andb_true_iff in Hl as [Hop Hl].
  destruct (trie_run_rep tid op t d Hrep Hop) as (t' & -> & Hrep').
  destruct (ref_run op d) as [o d']. cbn in *. destruct (IH _ _ Hrep' Hl) as (t'' & -> & Hrep'').
  destruct (ref_runs ops d') as [os d'']. eauto.
Qed.

(** ** The theorem *)

(** C38: Any sequence of lookups, insertions of absent prefixes, removals and
    clearings runs on a fresh trie without an assertion or a panic and answers
    what the reference list of pages answers: each lookup finds the widest page
    that covers the key, each removal takes exactly that page out. *)
Theorem trie_refines (tid : ThreadID) (ops : list trie_op) (Hl : ref_legals ops [] = true) :
  ∃ t, trie_runs tid ops (newTrie tid) = Ok (fst (ref_runs ops []), t)
    ∧ snd <$> entries (trie_head t) ≡ₚ snd (ref_runs ops []).
Proof.
  destruct (trie_runs_rep tid ops (newTrie tid) []) as (t & Hr & Hrep); [|done|].
  - split; [apply newTrie_ok|done|]. split; [constructor..|]. by intros ? ? ? ?%elem_of_nil.
  - exists t. split; [done|apply Hrep].
Qed.

Module TrieExample.
(** Two small pages, the large page around them, then without it. *)
Definition ops : list trie_op :=
  [ TInsert 0x400000 52 7; TInsert 0x401000 52 8; TLookup 0x401abc; TInsert 0x400000 43 9;
    TLookup 0x401abc; TRemove 0x401abc; TLookup 0x401abc; TLookup 0x500000; TClear; TLookup 0x400000 ].
End TrieExample.

Lemma trie_refines_witness :
  ∃ t, trie_runs 1 TrieExample.ops (newTrie 1)
       = Ok ([None; None; Some 8; None; Some 9; Some 9; Some 8; None; None; None]%nat, t)
    ∧ snd <$> entries (trie_head t) ≡ₚ [].
Proof. apply (trie_refines 1 TrieExample.ops). reflexivity. Defined.
