(* ===== verification/Tlb.v ===== *)
(** * The X86 TLB

    [X86ISA::TLB] ([arch/x86/tlb.cc], [arch/x86/tlb.hh]): a fully associative
    array of entries with least-recently-used replacement, found through one
    prefix trie per hardware thread.  DOLMA made a restricted request read the
    TLB without touching the replacement state, turned a restricted miss into a
    fault that clears the restriction, and added [updateLRU], which replays the
    touch once the instruction is safe.

    A [TlbEntry *] is the entry's index in the array.  The trie and the page
    tables (walker, emulated page table of a process) are reached through the
    interfaces [PageTrie] and [PageTables]; the registers the code reads from
    the thread context are the record [ThreadContext].  Statistics and
    checkpoints are left out. *)

From S2P Require Import Prelude Regs Config DynInst PageTrie.

Local Open Scope Z_scope.

(** ** The environment *)

Inductive TlbMode : Type := Read | Write | Execute.
#[export] Instance TlbMode_eq_dec : EqDecision TlbMode.
Proof. solve_decision. Defined.

(** [PageFault] is number 14 of the X86 vectors. *)
Definition PageFault : Fault := OtherFault 14.

Record Pte := mkPte { pte_paddr : Addr; pte_uncacheable : bool; pte_readOnly : bool }.

Record SegAttr := mkSegAttr { attr_writable : bool; attr_readable : bool; attr_expandDown : bool }.

(** The registers the TLB reads; the [m5_] fields are those of [HandyM5Reg]. *)
Record ThreadContext := mkThreadContext {
  tc_threadId : ThreadID;
  tc_contextId : Z;
  m5_prot : bool;
  m5_longMode : bool;
  m5_sixtyFourBit : bool;
  m5_paging : bool;
  m5_cpl : Z;
  m5_defAddr : Z;
  m5_altAddr : Z;
  cr0_wp : bool;
  seg_sel : Z → Z;
  seg_attr : Z → SegAttr;
  seg_base : Z → Addr;
  seg_limit : Z → Addr;
  pci_config : Z;
  apic_base : Addr;
}.

(** [SegmentRegIndex], [FlagBit] and the address prefixes. *)
Definition SEGMENT_REG_ES : Z := 0.
Definition SEGMENT_REG_HS : Z := 6.
Definition SEGMENT_REG_TSG : Z := 8.
Definition SEGMENT_REG_LS : Z := 9.
Definition SEGMENT_REG_MS : Z := 10.
Definition SYS_SEGMENT_REG_IDTR : Z := 12.
Definition SegmentFlagMask : Z := 0xF.
Definition CPL0Flag : Z := 0x10.
Definition AddrSizeFlag : Z := 0x20.
Definition StoreCheckFlag : Z := 0x40.
Definition GENERIC_IPR : Z := 0x08000000.
Definition IntAddrPrefixMask : Z := 0xffffffff00000000.
Definition IntAddrPrefixCPUID : Z := 0x100000000.
Definition IntAddrPrefixMSR : Z := 0x200000000.
Definition IntAddrPrefixIO : Z := 0x300000000.
Definition PhysAddrPrefixIO : Z := 0x8000000000000000.
Definition PhysAddrPrefixPciConfig : Z := 0xC000000000000000.
Definition PhysAddrPrefixLocalAPIC : Z := 0x2000000000000000.
Definition PageShift : Z := 12.
Definition PageBytes : Z := 4096.
Definition UNCACHED : Z := Z.lor ReqFlag.UNCACHEABLE ReqFlag.STRICT_ORDER.

Definition lowMask (n : Z) : Z := Z.ones n.
Definition req_setFlags (f : Z) (r : Request) : Request :=
  req_set_flags (flags_set (req_flags r) f) r.
Definition req_setPaddr (a : Addr) (r : Request) : Request :=
  mkRequest (req_vaddr r) (req_size r) (req_flags r) (Some a) (metadataUpdate r).

(** ** The entries *)

Record TlbEntry (H : Type) := mkTlbEntry {
  te_tid : ThreadID;
  te_paddr : Addr;
  te_vaddr : Addr;
  te_logBytes : Z;
  te_writable : bool;
  te_user : bool;
  te_uncacheable : bool;
  te_global : bool;
  te_lruSeq : Z; (** [uint64_t] *)
  te_trieHandle : option H;
}.
Arguments mkTlbEntry {H}.
Arguments te_tid {H}. Arguments te_paddr {H}. Arguments te_vaddr {H}.
Arguments te_logBytes {H}. Arguments te_writable {H}. Arguments te_user {H}.
Arguments te_uncacheable {H}. Arguments te_global {H}. Arguments te_lruSeq {H}.
Arguments te_trieHandle {H}.

Record TLB (T H : Type) := mkTLB {
  configAddress : Z; (** [uint32_t] *)
  tlb_size : Z;
  tlb_entries : list (TlbEntry H);
  tlb_freeList : list nat;
  tlb_tries : list T;
  lruSeq : Z; (** [uint64_t] *)
  num_threads_per_core : nat;
}.
Arguments mkTLB {T H}.
Arguments configAddress {T H}. Arguments tlb_size {T H}. Arguments tlb_entries {T H}. Arguments tlb_freeList {T H}.
Arguments tlb_tries {T H}. Arguments lruSeq {T H}. Arguments num_threads_per_core {T H}.

(** ** The page tables

    [walker_start] is [walker->start] (its fault, and what it does to the TLB,
    the page tables and the requests in flight); [pt_lookup], [pt_pageAlign]
    and [fixupStackFault] belong to the emulated process. *)
Class PageTables (T H E : Type) := {
  FullSystem : bool;
  walker_start : Request → TlbMode → TLB T H → E → option Fault * TLB T H * E;
  pt_lookup : Addr → E → option Pte;
  pt_pageAlign : Addr → Addr;
  fixupStackFault : Addr → E → bool * E;
  msrAddrToIndex : Addr → option Z;
  MISCREG_PCI_CONFIG_ADDRESS : Z;
}.

Section tlb.
Context {T H E : Type} `{PageTrie T H} `{PageTables T H E}.
Abbreviation TLB := (TLB T H).
Abbreviation TlbEntry := (TlbEntry H).

Definition te_set_lruSeq (v : Z) (e : TlbEntry) : TlbEntry :=
  mkTlbEntry (te_tid e) (te_paddr e) (te_vaddr e) (te_logBytes e) (te_writable e) (te_user e)
    (te_uncacheable e) (te_global e) v (te_trieHandle e).
Definition te_set_vaddr (v : Addr) (e : TlbEntry) : TlbEntry :=
  mkTlbEntry (te_tid e) (te_paddr e) v (te_logBytes e) (te_writable e) (te_user e)
    (te_uncacheable e) (te_global e) (te_lruSeq e) (te_trieHandle e).
Definition te_set_trieHandle (v : option H) (e : TlbEntry) : TlbEntry :=
  mkTlbEntry (te_tid e) (te_paddr e) (te_vaddr e) (te_logBytes e) (te_writable e) (te_user e)
    (te_uncacheable e) (te_global e) (te_lruSeq e) v.

(** [TlbEntry()] and the constructor for a page of an emulated process. *)
Definition blankEntry : TlbEntry := mkTlbEntry 0 0 0 0 false true false false 0 None.
Definition pageEntry (tid : ThreadID) (vaddr : Addr) (p : Pte) : TlbEntry :=
  mkTlbEntry tid (pte_paddr p) vaddr PageShift (negb (pte_readOnly p)) true
    (pte_uncacheable p) false 0 None.

Definition set_tlb_entries (v : list TlbEntry) (t : TLB) : TLB :=
  mkTLB (configAddress t) (tlb_size t) v (tlb_freeList t) (tlb_tries t) (lruSeq t) (num_threads_per_core t).
Definition set_tlb_freeList (v : list nat) (t : TLB) : TLB :=
  mkTLB (configAddress t) (tlb_size t) (tlb_entries t) v (tlb_tries t) (lruSeq t) (num_threads_per_core t).
Definition set_tlb_tries (v : list T) (t : TLB) : TLB :=
  mkTLB (configAddress t) (tlb_size t) (tlb_entries t) (tlb_freeList t) v (lruSeq t) (num_threads_per_core t).
Definition set_lruSeq (v : Z) (t : TLB) : TLB :=
  mkTLB (configAddress t) (tlb_size t) (tlb_entries t) (tlb_freeList t) (tlb_tries t) v (num_threads_per_core t).

Definition setConfigAddress (addr : Z) (t : TLB) : TLB :=
  mkTLB (wrap 32 addr) (tlb_size t) (tlb_entries t) (tlb_freeList t) (tlb_tries t) (lruSeq t)
    (num_threads_per_core t).

(** The constructor; [empty] is [Trie()] followed by [setTID]. *)
Definition newTLB (size : Z) (threads : nat) (empty : ThreadID → T) : outcome TLB :=
  if size =? 0 then Err (PanicCall "TLBs must have a non-zero size.")
  else Ok (mkTLB 0 size (replicate (Z.to_nat size) blankEntry) (seq 0 (Z.to_nat size))
             (empty <$> seq 0 threads) 0 threads).

Definition nextSeq (t : TLB) : Z * TLB :=
  let n := u64 (lruSeq t + 1) in (n, set_lruSeq n t).

Definition tlbEntry (i : nat) (t : TLB) : outcome TlbEntry :=
  vec_get "tlb" (tlb_entries t) (Z.of_nat i).
Definition setTlbEntry (i : nat) (f : TlbEntry → TlbEntry) (t : TLB) : outcome TLB :=
  let! e := tlbEntry i t in
  let! v := vec_set "tlb" (tlb_entries t) (Z.of_nat i) (f e) in
  Ok (set_tlb_entries v t).
Definition trieOf (tid : ThreadID) (t : TLB) : outcome T :=
  vec_get "tries" (tlb_tries t) (Z.of_nat tid).
Definition setTrie (tid : ThreadID) (x : T) (t : TLB) : outcome TLB :=
  let! v := vec_set "tries" (tlb_tries t) (Z.of_nat tid) x in
  Ok (set_tlb_tries v t).

(** ** Lookup, insertion and removal *)

Definition tlb_lookup (tid : ThreadID) (va : Addr) (update_lru : bool) (t : TLB)
  : outcome (option nat * TLB) :=
  let! tr := trieOf tid t in
  match tr_lookup va tr with
  | None => Ok (None, t)
  | Some i =>
      if update_lru then
        let (n, t) := nextSeq t in
        let! t := setTlbEntry i (te_set_lruSeq n) t in
        Ok (Some i, t)
      else Ok (Some i, t)
  end.

(** [tries[e.trieHandle->tid].remove(e.trieHandle); e.trieHandle = NULL;
    freeList.push_back(&e)]. *)
Definition releaseEntry (i : nat) (t : TLB) : outcome TLB :=
  let! e := tlbEntry i t in
  match te_trieHandle e with
  | None => Err (Assertion "tlb[lru].trieHandle")
  | Some h =>
      let! tr := trieOf (tr_tid h) t in
      let! tr := tr_remove h tr in
      let! t := setTrie (tr_tid h) tr t in
      let! t := setTlbEntry i (te_set_trieHandle None) t in
      Ok (set_tlb_freeList (tlb_freeList t ++ [i]) t)
  end.

(** The index of the entry with the lowest sequence number, the first one of
    several. *)
Fixpoint lruIndex (l : list TlbEntry) (i lru : nat) (best : Z) : nat :=
  match l with
  | [] => lru
  | e :: l' =>
      if te_lruSeq e <? best then lruIndex l' (S i) i (te_lruSeq e)
      else lruIndex l' (S i) lru best
  end.

Definition findLRU (t : TLB) : nat :=
  match tlb_entries t with
  | [] => 0%nat
  | e :: l => lruIndex l 1 0 (te_lruSeq e)
  end.

Definition evictLRU (t : TLB) : outcome TLB := releaseEntry (findLRU t) t.

Definition tlb_insert (vpn : Addr) (entry : TlbEntry) (t : TLB) : outcome (nat * TLB) :=
  let! tr := trieOf (te_tid entry) t in
  match tr_lookup vpn tr with
  | Some i =>
      let! e := tlbEntry i t in
      assert! bool_decide (te_tid e = te_tid entry) as "newEntry->tid == entry.tid" in
      assert! te_vaddr e =? vpn as "newEntry->vaddr == vpn" in
      Ok (i, t)
  | None =>
      let! t := match tlb_freeList t with [] => evictLRU t | _ => Ok t end in
      match tlb_freeList t with
      | [] => Err (NullDeref "freeList.front()")
      | i :: fl =>
          let t := set_tlb_freeList fl t in
          let (n, t) := nextSeq t in
          let! tr := trieOf (te_tid entry) t in
          let! (h, tr) := tr_insert (te_tid entry) vpn (64 - te_logBytes entry) i tr in
          let! t := setTrie (te_tid entry) tr t in
          let! t := setTlbEntry i (λ _, te_set_trieHandle (Some h)
                      (te_set_vaddr vpn (te_set_lruSeq n entry))) t in
          Ok (i, t)
      end
  end.

(** The loops of [flushAll] and [flushNonGlobal]. *)
Definition flushIf (P : TlbEntry → bool) (t : TLB) : outcome TLB :=
  foldM (λ t i,
    let! e := tlbEntry i t in
    match te_trieHandle e with
    | Some _ => if P e then releaseEntry i t else Ok t
    | None => Ok t
    end) (seq 0 (Z.to_nat (tlb_size t))) t.
Definition flushAll : TLB → outcome TLB := flushIf (λ _, true).
Definition flushNonGlobal : TLB → outcome TLB := flushIf (λ e, negb (te_global e)).

Definition demapPage (va : Addr) (t : TLB) : outcome TLB :=
  let! tr := trieOf 0 t in
  match tr_lookup va tr with
  | None => Ok t
  | Some i =>
      let! e := tlbEntry i t in
      match te_trieHandle e with
      | None => Err (NullDeref "entry->trieHandle")
      | Some h =>
          let! tr := tr_remove h tr in
          let! t := setTrie 0 tr t in
          let! t := setTlbEntry i (te_set_trieHandle None) t in
          Ok (set_tlb_freeList (tlb_freeList t ++ [i]) t)
      end
  end.

(** ** Translation *)

Definition segOf (r : Request) : Z := Z.land (req_flags r) SegmentFlagMask.

(** Outside 64-bit mode addresses have 32 bits. *)
Definition truncates (tc : ThreadContext) (r : Request) : bool :=
  negb (m5_sixtyFourBit tc) || flags_isSet (req_flags r) AddrSizeFlag.
Definition linearAddr (tc : ThreadContext) (r : Request) : Addr :=
  if truncates tc r then Z.land (req_vaddr r) (lowMask 32) else req_vaddr r.

Definition tidOf (tc : ThreadContext) (t : TLB) : ThreadID :=
  Nat.modulo (tc_threadId tc) (num_threads_per_core t).

Definition tlb_updateLRU (r : Request) (tc : ThreadContext) (t : TLB) : outcome TLB :=
  if segOf r =? SEGMENT_REG_MS then Ok t
  else if m5_prot tc then
    if negb (m5_longMode tc) then Ok t
    else if m5_paging tc then
      let! (_, t) := tlb_lookup (tidOf tc t) (linearAddr tc r) true t in Ok t
    else Ok t
  else Ok t.

Definition translateInt (r : Request) (tc : ThreadContext) : outcome (option Fault * Request) :=
  let vaddr := req_vaddr r in
  let prefix := Z.land (Z.shiftr vaddr 3) IntAddrPrefixMask in
  if prefix =? IntAddrPrefixCPUID then
    Err (PanicCall "CPUID memory space not yet implemented!")
  else if prefix =? IntAddrPrefixMSR then
    let r := req_setFlags ReqFlag.MMAPPED_IPR r in
    match msrAddrToIndex (Z.ldiff (Z.shiftr vaddr 3) IntAddrPrefixMask) with
    | None => Ok (Some GeneralProtection, r)
    | Some regNum => Ok (None, req_setPaddr (u64 (regNum * 8)) r)
    end
  else if prefix =? IntAddrPrefixIO then
    let IOPort := Z.ldiff vaddr IntAddrPrefixMask in
    assert! Z.ldiff IOPort 0xFFFF =? 0 as "!(IOPort & ~0xFFFF)" in
    if (IOPort =? 0xCF8) && (req_size r =? 4) then
      Ok (None, req_setPaddr (MISCREG_PCI_CONFIG_ADDRESS * 8)
                  (req_setFlags ReqFlag.MMAPPED_IPR r))
    else if (Z.ldiff IOPort (lowMask 2) =? 0xCFC) && Z.testbit (pci_config tc) 31 then
      Ok (None, req_setPaddr (Z.lor PhysAddrPrefixPciConfig
                   (Z.lor (Z.land (pci_config tc) (Z.ldiff (lowMask 31) (lowMask 2)))
                      (Z.land IOPort (lowMask 2)))) (req_setFlags UNCACHED r))
    else Ok (None, req_setPaddr (Z.lor PhysAddrPrefixIO IOPort) (req_setFlags UNCACHED r))
  else Ok (Some GeneralProtection, r).

Definition finalizePhysical (r : Request) (tc : ThreadContext) : outcome (option Fault * Request) :=
  match req_paddr r with
  | None => Err (Assertion "getPaddr: VALID_PADDR")
  | Some paddr =>
      if (0xFFFF0000 <=? paddr) && (paddr <=? 0xFFFFFFFF) then
        Ok (None, req_setPaddr (Z.lor (Z.shiftl (Z.land (Z.shiftr paddr 8) 0xFF) 8)
                                  (Z.land paddr 0xFF))
                    (req_setFlags (Z.lor ReqFlag.MMAPPED_IPR
                                     (Z.lor GENERIC_IPR ReqFlag.STRICT_ORDER)) r))
      else if FullSystem then
        let start := u64 (apic_base tc * PageBytes) in
        let last := u64 ((apic_base tc + 1) * PageBytes - 1) in
        if (start <=? paddr) && (paddr <=? last) then
          assert! paddr - start <? 4096 as "addr < (1 << 12)" in
          Ok (None, req_setPaddr (Z.lor PhysAddrPrefixLocalAPIC
                       (Z.lor (wrap 8 (tc_contextId tc) * 4096) (paddr - start)))
                      (req_setFlags UNCACHED r))
        else Ok (None, r)
      else Ok (None, r)
  end.

(** The segment checks outside long mode; [true] is a [GeneralProtection]. *)
Definition segmentFault (r : Request) (tc : ThreadContext) (m : TlbMode) : bool :=
  let seg := segOf r in
  let storeCheck := flags_isSet (req_flags r) StoreCheckFlag in
  let attr := seg_attr tc seg in
  let ordinary := (SEGMENT_REG_ES <=? seg) && (seg <=? SEGMENT_REG_HS) in
  if negb ((seg =? SEGMENT_REG_TSG) || (seg =? SYS_SEGMENT_REG_IDTR)
           || (seg =? SEGMENT_REG_HS) || (seg =? SEGMENT_REG_LS))
     && (seg_sel tc seg =? 0) then true
  else if ordinary && negb (attr_writable attr) && (bool_decide (m = Write) || storeCheck)
  then true
  else if ordinary && negb (attr_readable attr) && bool_decide (m = Read) then true
  else
    let limit := seg_limit tc seg in
    let logSize := if flags_isSet (req_flags r) AddrSizeFlag then m5_altAddr tc
                   else m5_defAddr tc in
    let offset := wrap (2 ^ logSize * 8) (u64 (req_vaddr r - seg_base tc seg)) in
    let endOffset := u64 (offset + req_size r - 1) in
    if ordinary && attr_expandDown attr then (offset <=? limit) || (endOffset <=? limit)
    else (limit <? offset) || (limit <? endOffset).

(** The paging checks; [Some] is the fault. *)
Definition pagingFault (r : Request) (tc : ThreadContext) (m : TlbMode) (e : TlbEntry)
  : option Fault :=
  let inUser := (m5_cpl tc =? 3) && negb (flags_isSet (req_flags r) CPL0Flag) in
  let badWrite := negb (te_writable e) && (inUser || cr0_wp tc) in
  if (inUser && negb (te_user e)) || (bool_decide (m = Write) && badWrite) then Some PageFault
  else if flags_isSet (req_flags r) StoreCheckFlag && badWrite then Some PageFault
  else None.

(** A miss that is handled: [inr] is the entry, [inl] the answer of
    [translate] without one (the fault and whether the response is delayed). *)
Definition handleMiss (r : Request) (vaddr : Addr) (tid : ThreadID) (m : TlbMode)
    (timing : bool) (t : TLB) (env : E)
  : outcome ((option Fault * bool + nat) * TLB * E) :=
  if FullSystem then
    let '(fault, t, env) := walker_start r m t env in
    if timing || bool_decide (is_Some fault) then Ok (inl (fault, true), t, env)
    else
      let! (o, t) := tlb_lookup 0 vaddr true t in
      match o with
      | Some i => Ok (inr i, t, env)
      | None => Err (Assertion "translate: entry")
      end
  else
    let (pte, env) :=
      match pt_lookup vaddr env with
      | Some p => (Some p, env)
      | None =>
          if bool_decide (m ≠ Execute) then
            let (grown, env) := fixupStackFault vaddr env in
            (if grown then pt_lookup vaddr env else None, env)
          else (None, env)
      end in
    match pte with
    | None => Ok (inl (Some PageFault, false), t, env)
    | Some p =>
        let va := pt_pageAlign vaddr in
        let! (i, t) := tlb_insert va (pageEntry tid va p) t in
        Ok (inr i, t, env)
    end.

(** What [translate] answers: the fault, whether the response is delayed, the
    request, and the new states. *)
Record Translated := mkTranslated {
  tr_fault : option Fault;
  tr_delayed : bool;
  tr_req : Request;
  tr_tlb : TLB;
  tr_env : E;
}.

(** With an entry at hand: the checks, the physical address, its finalization. *)
Definition usePage (r : Request) (vaddr : Addr) (tc : ThreadContext) (m : TlbMode) (i : nat)
    (t : TLB) (env : E) : outcome Translated :=
  let! e := tlbEntry i t in
  match pagingFault r tc m e with
  | Some f => Ok (mkTranslated (Some f) false r t env)
  | None =>
      let r := req_setPaddr (Z.lor (te_paddr e) (Z.land vaddr (lowMask (te_logBytes e)))) r in
      let r := if te_uncacheable e then req_setFlags UNCACHED r else r in
      let! (f, r) := finalizePhysical r tc in
      Ok (mkTranslated f false r t env)
  end.

Definition translate (r : Request) (tc : ThreadContext) (m : TlbMode) (timing : bool)
    (t : TLB) (env : E) : outcome Translated :=
  if segOf r =? SEGMENT_REG_MS then
    let! (f, r) := translateInt r tc in Ok (mkTranslated f false r t env)
  else if m5_prot tc then
    if negb (m5_longMode tc) && segmentFault r tc m
    then Ok (mkTranslated (Some GeneralProtection) false r t env)
    else
      let vaddr := linearAddr tc r in
      if m5_paging tc then
        let tid := tidOf tc t in
        let! (o, t) := tlb_lookup tid vaddr (negb (req_isRestricted r)) t in
        match o with
        | Some i => usePage r vaddr tc m i t env
        | None =>
            if req_isRestricted r
            then Ok (mkTranslated (Some GeneralProtection) false (req_clearUnsafe r) t env)
            else
              let! (x, t, env) := handleMiss r vaddr tid m timing t env in
              match x with
              | inl (f, delayed) => Ok (mkTranslated f delayed r t env)
              | inr i => usePage r vaddr tc m i t env
              end
        end
      else
        let! (f, r) := finalizePhysical (req_setPaddr vaddr r) tc in
        Ok (mkTranslated f false r t env)
  else
    let! (f, r) := finalizePhysical (req_setPaddr (req_vaddr r) r) tc in
    Ok (mkTranslated f false r t env).

(** ** The entry points *)

Definition translateAtomic (r : Request) (tc : ThreadContext) (m : TlbMode) (t : TLB) (env : E)
  : outcome Translated := translate r tc m false t env.

(** The answer, and whether [translation->finish] is called with it now. *)
Definition translateTiming (r : Request) (tc : ThreadContext) (m : TlbMode) (t : TLB) (env : E)
  : outcome (Translated * bool) :=
  let! x := translate r tc m true t env in Ok (x, negb (tr_delayed x)).
End tlb.
#[global] Arguments Translated T H E : clear implicits.
