(* ===== verification/TlbInv.v ===== *)
(** * Consistency of the TLB

    The array, the free list and the tries describe the same set of pages; every
    operation keeps them so and runs into none of its assertions.  The proofs
    use the trie through the contract [PageTrieLaws]. *)

From S2P Require Import Prelude Regs Config DynInst PageTrie Trie TrieMap Tlb.

Local Open Scope Z_scope.

(** ** The invariant *)

Section consistency.
Context {T H : Type} `{PageTrieLaws T H}.
Implicit Types (t : TLB T H) (e : TlbEntry H) (i j : nat).

Definition te_width e : Z := 64 - te_logBytes e.
Definition pageOf i e : Page := mkPage (Z.land (te_vaddr e) (pmask (te_width e))) (te_width e) i.

Record tlb_ok (t : TLB T H) : Prop := {
  tk_length : length (tlb_entries t) = Z.to_nat (tlb_size t);
  tk_size : 0 < tlb_size t;
  tk_threads : length (tlb_tries t) = num_threads_per_core t;
  tk_tries : ∀ tid tr, tlb_tries t !! tid = Some tr → tr_ok tid tr;
  (** the free list holds the entries without a handle, once each *)
  tk_nodup : NoDup (tlb_freeList t);
  tk_free : ∀ i, i ∈ tlb_freeList t ↔
              ∃ e, tlb_entries t !! i = Some e ∧ te_trieHandle e = None;
  (** an entry in use is in its thread's trie *)
  tk_used : ∀ i e h, tlb_entries t !! i = Some e → te_trieHandle e = Some h →
              ∃ tr, tlb_tries t !! te_tid e = Some tr ∧ tr_binds tr h (pageOf i e);
  (** and nothing else is *)
  tk_bound : ∀ tid tr h p, tlb_tries t !! tid = Some tr → tr_binds tr h p →
              ∃ e, tlb_entries t !! pg_value p = Some e ∧ te_trieHandle e = Some h
                ∧ te_tid e = tid;
}.

Lemma tlbEntry_lookup i e t : tlb_entries t !! i = Some e → tlbEntry i t = Ok e.
Proof. intros Hi. apply vec_get_Ok. rewrite Nat2Z.id. split; [lia|done]. Qed.

Lemma setTlbEntry_lookup i f e t :
  tlb_entries t !! i = Some e →
  setTlbEntry i f t = Ok (set_tlb_entries (<[i := f e]> (tlb_entries t)) t).
Proof.
  intros Hi. unfold setTlbEntry. rewrite (tlbEntry_lookup i e) by done.
  pose proof (lookup_lt_Some _ _ _ Hi). rewrite vec_set_total by lia. by rewrite Nat2Z.id.
Qed.

Lemma trieOf_lookup tid tr t : tlb_tries t !! tid = Some tr → trieOf tid t = Ok tr.
Proof. intros Hi. apply vec_get_Ok. rewrite Nat2Z.id. split; [lia|done]. Qed.

Lemma setTrie_lookup tid tr tr' t :
  tlb_tries t !! tid = Some tr →
  setTrie tid tr' t = Ok (set_tlb_tries (<[tid := tr']> (tlb_tries t)) t).
Proof.
  intros Hi. unfold setTrie. pose proof (lookup_lt_Some _ _ _ Hi).
  rewrite vec_set_total by lia. by rewrite Nat2Z.id.
Qed.

Lemma trie_of_thread t tid :
  tlb_ok t → (tid < num_threads_per_core t)%nat → ∃ tr, tlb_tries t !! tid = Some tr ∧ tr_ok tid tr.
Proof.
  intros Hok Ht. rewrite <-(tk_threads _ Hok) in Ht.
  destruct (lookup_lt_is_Some_2 (tlb_tries t) tid Ht) as [tr Htr].
  exists tr. split; [done|]. by apply (tk_tries _ Hok).
Qed.

(** A lookup names an entry in use of the thread. *)
Lemma lookup_entry t tid tr a i :
  tlb_ok t → tlb_tries t !! tid = Some tr → tr_lookup a tr = Some i →
  ∃ e h, tlb_entries t !! i = Some e ∧ te_trieHandle e = Some h ∧ te_tid e = tid
    ∧ tr_binds tr h (pageOf i e) ∧ covers (pageOf i e) a.
Proof.
  intros Hok Htr Hl. pose proof (tk_tries _ Hok _ _ Htr) as Htok.
  destruct (tr_lookup_some _ _ _ _ Htok Hl) as (h & p & Hb & Hc & <- & _).
  destruct (tk_bound _ Hok _ _ _ _ Htr Hb) as (e & He & Hh & Ht).
  destruct (tk_used _ Hok _ _ _ He Hh) as (tr' & Htr' & Hb').
  rewrite Ht in Htr'. simplify_eq. pose proof (tr_binds_fun _ _ _ _ _ Htok Hb Hb') as Heq.
  exists e, h. split_and!; try done. by rewrite <-Heq.
Qed.

(** ** Touching an entry *)

Lemma te_set_lruSeq_page i n e : pageOf i (te_set_lruSeq n e) = pageOf i e.
Proof. by destruct e. Qed.

Lemma tlb_ok_touch t i e n m :
  tlb_ok t → tlb_entries t !! i = Some e →
  tlb_ok (set_tlb_entries (<[i := te_set_lruSeq n e]> (tlb_entries t)) (set_lruSeq m t)).
Proof.
  intros Hok Hi. pose proof (lookup_lt_Some _ _ _ Hi).
  assert (Hget : ∀ j x, <[i := te_set_lruSeq n e]> (tlb_entries t) !! j = Some x →
    ∃ y, tlb_entries t !! j = Some y ∧ te_trieHandle x = te_trieHandle y ∧ te_tid x = te_tid y
      ∧ pageOf j x = pageOf j y).
  { intros j x. destruct (decide (i = j)) as [->|].
    - rewrite list_lookup_insert_eq by done. intros [= <-]. by exists e.
    - rewrite list_lookup_insert_ne by done. by exists x. }
  assert (Hput : ∀ j y, tlb_entries t !! j = Some y →
    ∃ x, <[i := te_set_lruSeq n e]> (tlb_entries t) !! j = Some x
      ∧ te_trieHandle x = te_trieHandle y ∧ te_tid x = te_tid y).
  { intros j y Hy. destruct (decide (i = j)) as [->|].
    - rewrite list_lookup_insert_eq by done. rewrite Hi in Hy. simplify_eq. by eexists.
    - rewrite list_lookup_insert_ne by done. by exists y. }
  destruct Hok as [K1 K2 K3 K4 K5 K6 K7 K8]. split; cbn; try done.
  - by rewrite length_insert.
  - intros j. rewrite K6. split.
    + intros (y & Hy & Hn). destruct (Hput _ _ Hy) as (x & ? & ? & ?). exists x. split; congruence.
    + intros (x & Hx & Hn). destruct (Hget _ _ Hx) as (y & ? & ? & ? & ?). exists y. split; congruence.
  - intros j x h Hx Hh. destruct (Hget _ _ Hx) as (y & Hy & Hhy & Hty & Hpy).
    rewrite Hpy, Hty. eapply K7; [done|congruence].
  - intros tid tr h p Htr Hb. destruct (K8 _ _ _ _ Htr Hb) as (y & Hy & ? & ?).
    destruct (Hput _ _ Hy) as (x & ? & ? & ?). exists x. split_and!; congruence.
Qed.

Lemma tlb_lookup_spec t tid a update :
  tlb_ok t → (tid < num_threads_per_core t)%nat →
  ∃ o t', tlb_lookup tid a update t = Ok (o, t') ∧ tlb_ok t'.
Proof.
  intros Hok Ht. destruct (trie_of_thread _ _ Hok Ht) as (tr & Htr & _).
  unfold tlb_lookup. rewrite (trieOf_lookup _ _ _ Htr).
  destruct (tr_lookup a tr) as [i|] eqn:Hl; [|by eauto]. destruct update; [|by eauto].
  destruct (lookup_entry _ _ _ _ _ Hok Htr Hl) as (e & h & He & _).
  cbn. erewrite setTlbEntry_lookup by done. do 2 eexists. split; [done|].
  by apply (tlb_ok_touch t i e).
Qed.

(** ** Releasing an entry *)

Lemma releaseEntry_spec t i e h :
  tlb_ok t → tlb_entries t !! i = Some e → te_trieHandle e = Some h →
  ∃ tr tr', tlb_tries t !! te_tid e = Some tr
    ∧ (∀ h' q, tr_binds tr' h' q ↔ h' ≠ h ∧ tr_binds tr h' q)
    ∧ let t' := set_tlb_freeList (tlb_freeList t ++ [i])
                  (set_tlb_entries (<[i := te_set_trieHandle None e]> (tlb_entries t))
                     (set_tlb_tries (<[te_tid e := tr']> (tlb_tries t)) t)) in
      releaseEntry i t = Ok t' ∧ tlb_ok t'.
Proof.
  intros Hok He Hh. destruct (tk_used _ Hok _ _ _ He Hh) as (tr & Htr & Hb).
  pose proof (tk_tries _ Hok _ _ Htr) as Htok. pose proof (tr_binds_tid _ _ _ _ Htok Hb) as Hht.
  destruct (tr_remove_law _ _ _ _ Htok Hb) as (tr' & Hrm & Htok' & Hbinds).
  pose proof (lookup_lt_Some _ _ _ He). pose proof (lookup_lt_Some _ _ _ Htr).
  exists tr, tr'. split; [done|]. split; [done|]. cbv zeta. split.
  { unfold releaseEntry. rewrite (tlbEntry_lookup _ _ _ He), Hh, Hht.
    rewrite (trieOf_lookup _ _ _ Htr), Hrm, (setTrie_lookup _ _ _ _ Htr).
    by erewrite setTlbEntry_lookup by done. }
  destruct Hok as [K1 K2 K3 K4 K5 K6 K7 K8].
  assert (Hother : ∀ j x h', tlb_entries t !! j = Some x → te_trieHandle x = Some h' →
    te_tid x = te_tid e → h' = h → j = i).
  { intros j x h' Hx Hhx Htx ->. destruct (K7 _ _ _ Hx Hhx) as (tr2 & Htr2 & Hb2).
    rewrite Htx in Htr2. simplify_eq. pose proof (tr_binds_fun _ _ _ _ _ Htok Hb Hb2) as Heq.
    by injection Heq. }
  split; cbn; rewrite ?length_insert; try done.
  - intros tid tr2. destruct (decide (te_tid e = tid)) as [<-|].
    + rewrite list_lookup_insert_eq by done. by intros [= <-].
    + rewrite list_lookup_insert_ne by done. apply K4.
  - apply NoDup_app. split_and!; [done| |apply NoDup_singleton].
    intros j Hj ->%list_elem_of_singleton. apply K6 in Hj as (x & Hx & ?). congruence.
  - intros j. rewrite elem_of_app, list_elem_of_singleton, K6.
    destruct (decide (i = j)) as [->|].
    + rewrite list_lookup_insert_eq by done. split; [by eauto|by right].
    + rewrite list_lookup_insert_ne by done. split; [intros [?|?]; [done|congruence]|by left].
  - intros j x h' Hx Hhx. destruct (decide (i = j)) as [->|].
    { rewrite list_lookup_insert_eq in Hx by done. by simplify_eq. }
    rewrite list_lookup_insert_ne in Hx by done.
    destruct (K7 _ _ _ Hx Hhx) as (tr2 & Htr2 & Hb2).
    destruct (decide (te_tid e = te_tid x)) as [Heq|].
    + rewrite <-Heq, list_lookup_insert_eq by done. rewrite <-Heq in Htr2. simplify_eq.
      exists tr'. split; [done|]. apply Hbinds. split; [|done]. intros ->. by eapply n, eq_sym, Hother.
    + rewrite list_lookup_insert_ne by done. eauto.
  - intros tid tr2 h' p Htr2 Hb2.
    assert (Hold : ∃ tr3, tlb_tries t !! tid = Some tr3 ∧ tr_binds tr3 h' p ∧ (tid = te_tid e → h' ≠ h)).
    { destruct (decide (te_tid e = tid)) as [<-|].
      - rewrite list_lookup_insert_eq in Htr2 by done. simplify_eq.
        apply Hbinds in Hb2 as [? ?]. eauto.
      - rewrite list_lookup_insert_ne in Htr2 by done. exists tr2. split_and!; done || congruence. }
    destruct Hold as (tr3 & Htr3 & Hb3 & Hne). destruct (K8 _ _ _ _ Htr3 Hb3) as (x & Hx & Hhx & Htx).
    assert (i ≠ pg_value p). { intros ->. rewrite He in Hx. simplify_eq. by apply Hne. }
    exists x. rewrite list_lookup_insert_ne by done. done.
Qed.
(** ** Replacement *)

Lemma lruIndex_spec (l done' : list (TlbEntry H)) lru b :
  done' !! lru = Some b →
  (∀ j x, done' !! j = Some x → te_lruSeq b <= te_lruSeq x) →
  ∃ e, (done' ++ l) !! lruIndex l (length done') lru (te_lruSeq b) = Some e
    ∧ ∀ j x, (done' ++ l) !! j = Some x → te_lruSeq e <= te_lruSeq x.
Proof.
  revert done' lru b. induction l as [|x l IH]; intros dn lru b Hb Hmin; cbn.
  { rewrite app_nil_r. eauto. }
  assert (Hlast : ∀ y z, (dn ++ [x]) !! y = Some z → dn !! y = Some z ∨ y = length dn ∧ z = x).
  { intros y z [?|[? Hz]]%lookup_app_Some; [by left|]. right.
    apply list_lookup_singleton_Some in Hz as [? ->]. split; [lia|done]. }
  replace (S (length dn)) with (length (dn ++ [x])) by (rewrite length_app; cbn; lia).
  replace (dn ++ x :: l) with ((dn ++ [x]) ++ l) by by rewrite <-(assoc_L (++)).
  destruct (Z.ltb_spec (te_lruSeq x) (te_lruSeq b)); apply IH.
  - by rewrite lookup_app_r, Nat.sub_diag by lia.
  - intros j z [Hz|[_ ->]]%Hlast; [|lia]. apply Hmin in Hz. lia.
  - by apply lookup_app_l_Some.
  - intros j z [Hz|[_ ->]]%Hlast; [|lia]. by apply Hmin in Hz.
Qed.

Lemma findLRU_spec t :
  tlb_entries t ≠ [] →
  ∃ e, tlb_entries t !! findLRU t = Some e
    ∧ ∀ j x, tlb_entries t !! j = Some x → te_lruSeq e <= te_lruSeq x.
Proof.
  intros Hne. unfold findLRU. destruct (tlb_entries t) as [|e l]; [done|].
  apply (lruIndex_spec l [e] 0 e); [done|].
  intros j x [-> ->]%list_lookup_singleton_Some. done.
Qed.

(** With no free entry, the victim is in use. *)
Lemma evictLRU_spec t :
  tlb_ok t → tlb_freeList t = [] →
  ∃ v e t', tlb_entries t !! v = Some e ∧ is_Some (te_trieHandle e)
    ∧ (∀ j x, tlb_entries t !! j = Some x → te_lruSeq e <= te_lruSeq x)
    ∧ evictLRU t = Ok t' ∧ tlb_ok t' ∧ tlb_freeList t' = [v] ∧ lruSeq t' = lruSeq t
    ∧ num_threads_per_core t' = num_threads_per_core t
    ∧ tlb_entries t' = <[v := te_set_trieHandle None e]> (tlb_entries t)
    ∧ ∀ tid tr', tlb_tries t' !! tid = Some tr' →
        ∃ tr, tlb_tries t !! tid = Some tr ∧ ∀ h q, tr_binds tr' h q → tr_binds tr h q.
Proof.
  intros Hok Hfl. assert (Hne : tlb_entries t ≠ []).
  { intros He. pose proof (tk_length _ Hok) as Hl. rewrite He in Hl. cbn in Hl.
    pose proof (tk_size _ Hok). lia. }
  destruct (findLRU_spec t Hne) as (e & He & Hmin).
  destruct (te_trieHandle e) as [h|] eqn:Hh.
  2:{ assert (findLRU t ∈ tlb_freeList t) as Hin by (apply (tk_free _ Hok); eauto).
      rewrite Hfl in Hin. by apply elem_of_nil in Hin. }
  destruct (releaseEntry_spec _ _ _ _ Hok He Hh) as (tr & tr' & Htr & Hb & Hr & Hok').
  exists (findLRU t), e. eexists. split_and!; try done; [by cbn; rewrite Hfl|].
  intros tid tr2 Htr2. cbn in Htr2. destruct (decide (te_tid e = tid)) as [<-|].
  - rewrite list_lookup_insert_eq in Htr2 by by eapply lookup_lt_Some. simplify_eq.
    exists tr. split; [done|]. intros h' q [_ ?]%Hb. done.
  - rewrite list_lookup_insert_ne in Htr2 by done. eauto.
Qed.

(** ** Filling an entry *)

Lemma tlb_ok_fill t i fl e h tr tr' n :
  tlb_ok t → tlb_freeList t = i :: fl → te_trieHandle e = Some h →
  tlb_tries t !! te_tid e = Some tr → tr_ok (te_tid e) tr' → (∀ p, ¬ tr_binds tr h p) →
  (∀ h' p, tr_binds tr' h' p ↔ (h' = h ∧ p = pageOf i e) ∨ tr_binds tr h' p) →
  tlb_ok (set_tlb_entries (<[i := e]> (tlb_entries t))
            (set_tlb_tries (<[te_tid e := tr']> (tlb_tries t))
               (set_lruSeq n (set_tlb_freeList fl t)))).
Proof.
  intros [K1 K2 K3 K4 K5 K6 K7 K8] Hfl Hh Htr Htok' Hfresh Hb.
  rewrite Hfl in K5. apply NoDup_cons in K5 as [Hni Hnd].
  assert (Hi : ∃ e0, tlb_entries t !! i = Some e0 ∧ te_trieHandle e0 = None).
  { apply K6. rewrite Hfl. by left. }
  destruct Hi as (e0 & He0 & Hn0). pose proof (lookup_lt_Some _ _ _ He0).
  pose proof (lookup_lt_Some _ _ _ Htr).
  split; cbn; rewrite ?length_insert; try done.
  - intros tid tr2. destruct (decide (te_tid e = tid)) as [<-|].
    + rewrite list_lookup_insert_eq by done. by intros [= <-].
    + rewrite list_lookup_insert_ne by done. apply K4.
  - intros j. specialize (K6 j). rewrite Hfl, elem_of_cons in K6.
    destruct (decide (i = j)) as [->|].
    + rewrite list_lookup_insert_eq by done. split; [done|]. intros (x & [= <-] & ?). congruence.
    + rewrite list_lookup_insert_ne by done. rewrite <-K6. split; [by right|]. by intros [->|].
  - intros j x h' Hx Hhx. destruct (decide (i = j)) as [->|].
    { rewrite list_lookup_insert_eq in Hx by done. simplify_eq.
      exists tr'. rewrite list_lookup_insert_eq by done. split; [done|]. apply Hb. by left. }
    rewrite list_lookup_insert_ne in Hx by done. destruct (K7 _ _ _ Hx Hhx) as (tr2 & Htr2 & Hb2).
    destruct (decide (te_tid e = te_tid x)) as [Heq|].
    + rewrite <-Heq, list_lookup_insert_eq by done. rewrite <-Heq in Htr2. simplify_eq.
      exists tr'. split; [done|]. apply Hb. by right.
    + rewrite list_lookup_insert_ne by done. eauto.
  - intros tid tr2 h' p Htr2 Hb2. destruct (decide (te_tid e = tid)) as [<-|].
    + rewrite list_lookup_insert_eq in Htr2 by done. simplify_eq.
      apply Hb in Hb2 as [[-> ->]|Hb2].
      { cbn. exists e. by rewrite list_lookup_insert_eq. }
      destruct (K8 _ _ _ _ Htr Hb2) as (x & Hx & Hhx & Htx).
      exists x. rewrite list_lookup_insert_ne by (intros Heq; rewrite <-Heq in Hx; congruence). done.
    + rewrite list_lookup_insert_ne in Htr2 by done.
      destruct (K8 _ _ _ _ Htr2 Hb2) as (x & Hx & Hhx & Htx).
      exists x. rewrite list_lookup_insert_ne by (intros Heq; rewrite <-Heq in Hx; congruence). done.
Qed.
(** ** Insertion *)

(** The entry as [insert] stores it. *)
Definition stored (vpn : Addr) (entry : TlbEntry H) (n : Z) (h : H) : TlbEntry H :=
  te_set_trieHandle (Some h) (te_set_vaddr vpn (te_set_lruSeq n entry)).

(** The entry a new page takes: the first free one, or the least recently
    used. *)
Definition victim (t : TLB T H) (i : nat) : Prop :=
  match tlb_freeList t with
  | j :: _ => i = j
  | [] => ∃ e, tlb_entries t !! i = Some e
            ∧ ∀ j x, tlb_entries t !! j = Some x → te_lruSeq e <= te_lruSeq x
  end.

Lemma makeRoom_spec t :
  tlb_ok t →
  ∃ i fl t', match tlb_freeList t with [] => evictLRU t | _ => Ok t end = Ok t'
    ∧ tlb_ok t' ∧ tlb_freeList t' = i :: fl ∧ victim t i ∧ lruSeq t' = lruSeq t
    ∧ num_threads_per_core t' = num_threads_per_core t
    ∧ (∀ j, j ≠ i → tlb_entries t' !! j = tlb_entries t !! j)
    ∧ ∀ tid tr', tlb_tries t' !! tid = Some tr' →
        ∃ tr, tlb_tries t !! tid = Some tr ∧ ∀ h q, tr_binds tr' h q → tr_binds tr h q.
Proof.
  intros Hok. unfold victim. destruct (tlb_freeList t) as [|i fl] eqn:Hfl.
  - destruct (evictLRU_spec _ Hok Hfl) as (v & e & t' & He & _ & Hmin & Hr & Hok' & Hfl' & Hs & Hn & Hen & Htr).
    exists v, [], t'. split_and!; try done; [by eauto|].
    intros j Hj. rewrite Hen. by rewrite list_lookup_insert_ne.
  - exists i, fl, t. split_and!; try done. eauto.
Qed.

Lemma tlb_insert_miss t vpn entry tr :
  tlb_ok t → tlb_tries t !! te_tid entry = Some tr → tr_lookup vpn tr = None →
  0 <= te_logBytes entry <= 63 →
  ∃ i t' h, tlb_insert vpn entry t = Ok (i, t') ∧ tlb_ok t' ∧ victim t i
    ∧ tlb_entries t' !! i = Some (stored vpn entry (u64 (lruSeq t + 1)) h)
    ∧ (∀ j, j ≠ i → tlb_entries t' !! j = tlb_entries t !! j)
    ∧ tlb_lookup (te_tid entry) vpn false t' = Ok (Some i, t').
Proof.
  intros Hok Htr Hl Hlog. unfold tlb_insert. rewrite (trieOf_lookup _ _ _ Htr), Hl.
  destruct (makeRoom_spec t Hok) as (i & fl & t1 & -> & Hok1 & Hfl & Hv & Hs & Hn & Hen & Hmono).
  rewrite Hfl. cbn [nextSeq].
  destruct (trie_of_thread t1 (te_tid entry) Hok1) as (tr1 & Htr1 & Htok1).
  { rewrite Hn, <-(tk_threads _ Hok). by eapply lookup_lt_Some. }
  destruct (Hmono _ _ Htr1) as (tr0 & Htr0 & Hsub). rewrite Htr in Htr0. simplify_eq.
  assert (Hnew : ∀ h p, tr_binds tr1 h p → ¬ covers p vpn).
  { intros h p Hb. eapply tr_lookup_none; [by apply (tk_tries _ Hok _ _ Htr)|done|]. by apply Hsub. }
  destruct (tr_insert_law (te_tid entry) tr1 vpn (64 - te_logBytes entry) i) as
    (h & tr2 & Hins & Htok2 & Hfresh & Hb2); [done|lia|by eauto|].
  set (n := u64 (lruSeq t1 + 1)). unfold nextSeq. fold n. cbn [lruSeq set_tlb_freeList].
  rewrite (trieOf_lookup (te_tid entry) tr1) by done. rewrite Hins.
  rewrite (setTrie_lookup (te_tid entry) tr1) by done.
  assert (Hi : ∃ e0, tlb_entries t1 !! i = Some e0).
  { assert (i ∈ tlb_freeList t1) as (e0 & ? & _)%(tk_free _ Hok1) by (rewrite Hfl; by left). eauto. }
  destruct Hi as [e0 He0]. rewrite (setTlbEntry_lookup i _ e0) by done.
  pose proof (lookup_lt_Some _ _ _ He0). pose proof (lookup_lt_Some _ _ _ Htr1).
  do 3 eexists. split; [done|]. split.
  { apply (tlb_ok_fill t1 i fl (stored vpn entry n h) h tr1 tr2 n); done. }
  split; [done|]. rewrite <-Hs. cbn [tlb_entries set_tlb_entries]. split.
  { by rewrite list_lookup_insert_eq. }
  split.
  { intros j Hj. rewrite list_lookup_insert_ne by done. by apply Hen. }
  unfold tlb_lookup. rewrite (trieOf_lookup _ tr2) by (cbn; by rewrite list_lookup_insert_eq).
  destruct (tr_lookup vpn tr2) as [j|] eqn:Hl2.
  - destruct (tr_lookup_some _ _ _ _ Htok2 Hl2) as (h' & p & Hb & Hc & <- & _).
    apply Hb2 in Hb as [[-> ->]|Hb]; [done|]. exfalso. by eapply Hnew.
  - exfalso. eapply tr_lookup_none; [done|done|apply Hb2; by left|].
    unfold covers. cbn. apply land_pmask_agree. lia.
Qed.
Lemma tlb_insert_hit t vpn entry tr i :
  tlb_ok t → tlb_tries t !! te_tid entry = Some tr → tr_lookup vpn tr = Some i →
  (∀ e, tlb_entries t !! i = Some e → te_vaddr e = vpn) →
  tlb_insert vpn entry t = Ok (i, t).
Proof.
  intros Hok Htr Hl Hv. unfold tlb_insert. rewrite (trieOf_lookup _ _ _ Htr), Hl.
  destruct (lookup_entry _ _ _ _ _ Hok Htr Hl) as (e & h & He & _ & Ht & _).
  rewrite (tlbEntry_lookup _ _ _ He), (bool_decide_true _ Ht), (Hv _ He), Z.eqb_refl. done.
Qed.

(** ** Flushing *)

Lemma flushIf_spec P t : tlb_ok t → ∃ t', flushIf P t = Ok t' ∧ tlb_ok t'.
Proof.
  intros Hok. unfold flushIf. rewrite <-(tk_length _ Hok).
  assert (Hl : Forall (λ i, i < length (tlb_entries t))%nat (seq 0 (length (tlb_entries t)))).
  { apply Forall_forall. intros i [_ ?]%elem_of_seq. lia. }
  revert Hl. generalize (seq 0 (length (tlb_entries t))). intros l.
  revert t Hok. induction l as [|i l IH]; intros t Hok Hl; [by eauto|].
  apply Forall_cons in Hl as [Hi Hl]. destruct (lookup_lt_is_Some_2 _ _ Hi) as [e He].
  cbn [foldM]. rewrite (tlbEntry_lookup _ _ _ He).
  destruct (te_trieHandle e) as [h|] eqn:Hh; [|by apply IH].
  destruct (P e); [|by apply IH].
  destruct (releaseEntry_spec _ _ _ _ Hok He Hh) as (tr & tr' & _ & _ & -> & Hok').
  apply IH; [done|]. cbn. by rewrite length_insert.
Qed.

(** Removing a page of thread 0 is releasing its entry. *)
Lemma demapPage_spec va t :
  tlb_ok t → (0 < num_threads_per_core t)%nat → ∃ t', demapPage va t = Ok t' ∧ tlb_ok t'.
Proof.
  intros Hok Ht. destruct (trie_of_thread t 0 Hok Ht) as (tr & Htr & _).
  unfold demapPage. rewrite (trieOf_lookup _ _ _ Htr).
  destruct (tr_lookup va tr) as [i|] eqn:Hl; [|by eauto].
  destruct (lookup_entry _ _ _ _ _ Hok Htr Hl) as (e & h & He & Hh & Htid & Hb & _).
  destruct (releaseEntry_spec _ _ _ _ Hok He Hh) as (tr1 & tr1' & _ & _ & Hr & Hok').
  eexists. split; [|exact Hok']. rewrite <-Hr. unfold releaseEntry.
  rewrite (tlbEntry_lookup _ _ _ He), Hh.
  by rewrite (tr_binds_tid _ _ _ _ (tk_tries _ Hok _ _ Htr) Hb), (trieOf_lookup _ _ _ Htr).
Qed.

(** ** Sequences of operations *)

Inductive tlb_op : Type :=
  | OLookup (tid : ThreadID) (va : Addr) (update_lru : bool)
  | OInsert (vpn : Addr) (entry : TlbEntry H)
  | OFlushAll
  | OFlushNonGlobal
  | ODemap (va : Addr)
  | OConfig (addr : Z).

Definition tlb_run (t : TLB T H) (op : tlb_op) : outcome (TLB T H) :=
  match op with
  | OLookup tid va u => let! (_, t) := tlb_lookup tid va u t in Ok t
  | OInsert vpn e => let! (_, t) := tlb_insert vpn e t in Ok t
  | OFlushAll => flushAll t
  | OFlushNonGlobal => flushNonGlobal t
  | ODemap va => demapPage va t
  | OConfig a => Ok (setConfigAddress a t)
  end.

(** Thread numbers in range; an inserted page has less than 64 address bits and
    is not inside a page that starts elsewhere. *)
Definition tlb_legal (t : TLB T H) (op : tlb_op) : bool :=
  match op with
  | OLookup tid _ _ => (tid <? num_threads_per_core t)%nat
  | OInsert vpn e =>
      (0 <=? te_logBytes e) && (te_logBytes e <=? 63)
      && match tlb_tries t !! te_tid e with
         | None => false
         | Some tr =>
             match tr_lookup vpn tr with
             | None => true
             | Some i => match tlb_entries t !! i with
                         | Some e' => te_vaddr e' =? vpn
                         | None => false
                         end
             end
         end
  | ODemap _ => (0 <? num_threads_per_core t)%nat
  | _ => true
  end.

Fixpoint tlb_legals (ops : list tlb_op) (t : TLB T H) : bool :=
  match ops with
  | [] => true
  | op :: ops =>
      tlb_legal t op && match tlb_run t op with Ok t' => tlb_legals ops t' | Err _ => true end
  end.

Lemma tlb_run_ok t op : tlb_ok t → tlb_legal t op = true → ∃ t', tlb_run t op = Ok t' ∧ tlb_ok t'.
Proof.
  intros Hok Hl. destruct op as [tid va u|vpn e| | |va|a]; cbn in *.
  - apply Nat.ltb_lt in Hl. destruct (tlb_lookup_spec t tid va u Hok Hl) as (o & t' & -> & ?). eauto.
  - destruct (tlb_tries t !! te_tid e) as [tr|] eqn:Htr; [|by rewrite andb_false_r in Hl].
    apply andb_true_iff in Hl as [Hlog Hl]. apply andb_true_iff in Hlog as [?%Z.leb_le ?%Z.leb_le].
    destruct (tr_lookup vpn tr) as [i|] eqn:Hlk.
    + rewrite (tlb_insert_hit t vpn e tr i); eauto. intros e' He'. rewrite He' in Hl.
      by apply Z.eqb_eq.
    + destruct (tlb_insert_miss t vpn e tr) as (i & t' & h & -> & ? & _); eauto.
  - by apply flushIf_spec.
  - by apply flushIf_spec.
  - apply demapPage_spec; [done|]. destruct (num_threads_per_core t); [done|lia].
  - eexists. split; [done|]. by destruct Hok.
Qed.

Lemma tlb_runs_ok ops t : tlb_ok t → tlb_legals ops t = true → ∃ t', foldM tlb_run ops t = Ok t' ∧ tlb_ok t'.
Proof.
  revert t. induction ops as [|op ops IH]; intros t Hok Hl; cbn in *; [by eauto|].
  apply andb_true_iff in Hl as [Hop Hl].
  destruct (tlb_run_ok t op Hok Hop) as (t' & Hr & Hok'). rewrite Hr in *. by apply IH.
Qed.

(** A fresh TLB. *)
Lemma newTLB_ok size threads (empty : ThreadID → T) :
  0 < size → (∀ tid, tr_ok tid (empty tid)) → (∀ tid h p, ¬ tr_binds (empty tid) h p) →
  ∃ t, newTLB size threads empty = Ok t ∧ tlb_ok t ∧ num_threads_per_core t = threads.
Proof.
  intros Hs Hok Hno. unfold newTLB. destruct (Z.eqb_spec size 0); [lia|].
  eexists. split; [done|]. split; [|done].
  assert (Htr : ∀ tid tr, (empty <$> seq 0 threads) !! tid = Some tr → tr = empty tid).
  { intros tid tr. rewrite list_lookup_fmap. intros (i & [-> _]%lookup_seq & ->)%fmap_Some. done. }
  split; cbn; try done.
  - by rewrite length_replicate.
  - by rewrite length_fmap, length_seq.
  - intros tid tr ->%Htr. apply Hok.
  - apply NoDup_seq.
  - intros i. rewrite elem_of_seq. split.
    + intros [_ ?]. exists blankEntry. split; [|done]. apply lookup_replicate. split; [done|lia].
    + intros (e & [_ ?]%lookup_replicate & _). lia.
  - intros i e h [-> _]%lookup_replicate. done.
  - intros tid tr h p ->%Htr Hb. by apply Hno in Hb.
Qed.
End consistency.
#[global] Arguments tlb_op H : clear implicits.

(** ** The theorems *)

(** C37: The array, the free list and the tries of the TLB stay consistent: from
    a fresh TLB over the prefix tries of [base/trie.hh], any sequence of lookups,
    insertions (of pages that do not lie inside a page with another start),
    flushes and page removals runs without an assertion, a panic or an access
    out of range, an entry is in the free list exactly when it has no trie
    handle, and a trie holds exactly the entries of its thread that have one. *)
Theorem tlb_consistent (size : Z) (threads : nat) (t0 : TLB Trie Handle)
    (ops : list (tlb_op Handle))
    (Hs : 0 < size) (Hnew : newTLB size threads newTrie = Ok t0)
    (Hl : tlb_legals ops t0 = true) :
  ∃ t, foldM tlb_run ops t0 = Ok t ∧ tlb_ok t.
Proof.
  destruct (newTLB_ok size threads newTrie) as (t & Hr & Hok & _); try done.
  - intros tid. apply newTrie_ok.
  - intros tid h p Hb. by apply elem_of_nil in Hb.
  - rewrite Hnew in Hr. simplify_eq. by apply tlb_runs_ok.
Qed.

Module TlbExample.
Definition page (tid : ThreadID) (va pa : Addr) : TlbEntry Handle :=
  pageEntry tid va (mkPte pa false false).

(** Two entries, two threads: the third page evicts the first. *)
Definition ops : list (tlb_op Handle) :=
  [ OInsert 0x1000 (page 0 0x1000 0x7000); OInsert 0x2000 (page 1 0x2000 0x8000);
    OLookup 0 0x1004 true; OInsert 0x3000 (page 0 0x3000 0x9000); OLookup 1 0x2004 true;
    ODemap 0x3008; OFlushNonGlobal; OInsert 0x1000 (page 1 0x1000 0xa000); OFlushAll ].
Definition start : outcome (TLB Trie Handle) := newTLB 2 2 newTrie.
Definition tlb0 : TLB Trie Handle :=
  Eval vm_compute in match start with Ok t => t | Err _ => mkTLB 0 0 [] [] [] 0 0 end.
(** The state when both entries are in use. *)
Definition full : TLB Trie Handle :=
  Eval vm_compute in
    match foldM tlb_run (take 3 ops) tlb0 with Ok t => t | Err _ => tlb0 end.
Definition trie0 : Trie :=
  Eval vm_compute in match tlb_tries full with tr :: _ => tr | [] => newTrie 0 end.

Lemma full_ok : tlb_ok full.
Proof.
  destruct (newTLB_ok 2 2 newTrie) as (t & Hr & Hok & _); [done|apply newTrie_ok|..].
  { intros tid h p Hb. by apply elem_of_nil in Hb. }
  assert (t = tlb0) as -> by (vm_compute in Hr; by injection Hr).
  destruct (tlb_runs_ok (take 3 ops) tlb0 Hok) as (t' & Hr' & Hok'); [reflexivity|].
  assert (t' = full) as <- by (vm_compute in Hr'; by injection Hr'). done.
Qed.
End TlbExample.

Lemma tlb_consistent_witness :
  ∃ t, foldM tlb_run TlbExample.ops TlbExample.tlb0 = Ok t ∧ tlb_ok t.
Proof. by apply (tlb_consistent 2 2 TlbExample.tlb0 TlbExample.ops). Defined.

(** Replacement is least recently used: inserting a page that no page of its
    thread covers succeeds, takes the first free entry or, when there is none,
    an entry whose sequence number is the smallest of all, leaves every other
    entry untouched, and the page is found afterwards. *)
Theorem insert_evicts_lru (t : TLB Trie Handle) (tr : Trie) (vpn : Addr)
    (entry : TlbEntry Handle)
    (Hok : tlb_ok t) (Htr : tlb_tries t !! te_tid entry = Some tr)
    (Hmiss : tr_lookup vpn tr = None) (Hlog : 0 <= te_logBytes entry <= 63) :
  ∃ i t' h, tlb_insert vpn entry t = Ok (i, t') ∧ victim t i
    ∧ tlb_entries t' !! i = Some (stored vpn entry (u64 (lruSeq t + 1)) h)
    ∧ (∀ j, j ≠ i → tlb_entries t' !! j = tlb_entries t !! j)
    ∧ tlb_lookup (te_tid entry) vpn false t' = Ok (Some i, t').
Proof.
  destruct (tlb_insert_miss t vpn entry tr) as (i & t' & h & Hr & _ & Hv & He & Ho & Hf); try done.
  exists i, t', h. done.
Qed.

Lemma insert_evicts_lru_witness :
  ∃ i t' h, tlb_insert 0x3000 (TlbExample.page 0 0x3000 0x9000) TlbExample.full = Ok (i, t')
    ∧ victim TlbExample.full i
    ∧ tlb_entries t' !! i
      = Some (stored 0x3000 (TlbExample.page 0 0x3000 0x9000) (u64 (lruSeq TlbExample.full + 1)) h)
    ∧ (∀ j, j ≠ i → tlb_entries t' !! j = tlb_entries TlbExample.full !! j)
    ∧ tlb_lookup 0 0x3000 false t' = Ok (Some i, t').
Proof.
  apply (insert_evicts_lru TlbExample.full TlbExample.trie0 0x3000 (TlbExample.page 0 0x3000 0x9000));
    [exact TlbExample.full_ok|reflexivity|reflexivity|split; by vm_compute].
Defined.
