(* ===== verification/TlbSilent.v ===== *)
(** * Restricted translations leave no trace

    A restricted request reads the TLB without touching the replacement state
    and never starts a walk; once the instruction is safe, [updateLRU] leaves
    the TLB as an unrestricted translation would have. *)

From S2P Require Import Prelude Regs Config DynInst PageTrie Trie TrieMap Tlb TlbInv.

Local Open Scope Z_scope.

(** ** Flags *)

(** Clearing the restriction changes none of the other flags. *)
Lemma clear_other f g : Z.land ReqFlag.RESTRICTED g = 0 →
  Z.land (flags_clear f ReqFlag.RESTRICTED) g = Z.land f g.
Proof.
  intros Hm. unfold flags_clear. apply Z.bits_inj'. intros i Hi.
  rewrite !Z.land_spec, Z.ldiff_spec. apply (f_equal (λ z, Z.testbit z i)) in Hm.
  rewrite Z.land_spec, Z.bits_0 in Hm.
  by destruct (Z.testbit f i), (Z.testbit ReqFlag.RESTRICTED i), (Z.testbit g i).
Qed.

Lemma clear_set_other f g : Z.land ReqFlag.RESTRICTED g = 0 →
  flags_set (flags_clear f ReqFlag.RESTRICTED) g = flags_clear (flags_set f g) ReqFlag.RESTRICTED.
Proof.
  intros Hm. unfold flags_clear, flags_set. apply Z.bits_inj'. intros i Hi.
  rewrite Z.ldiff_spec, !Z.lor_spec, Z.ldiff_spec. apply (f_equal (λ z, Z.testbit z i)) in Hm.
  rewrite Z.land_spec, Z.bits_0 in Hm.
  by destruct (Z.testbit f i), (Z.testbit ReqFlag.RESTRICTED i), (Z.testbit g i).
Qed.

Lemma clearUnsafe_setFlags r g : Z.land ReqFlag.RESTRICTED g = 0 →
  req_setFlags g (req_clearUnsafe r) = req_clearUnsafe (req_setFlags g r).
Proof. intros Hg. unfold req_setFlags, req_clearUnsafe. cbn. by rewrite clear_set_other. Qed.

Lemma clearUnsafe_isSet r g : Z.land ReqFlag.RESTRICTED g = 0 →
  flags_isSet (req_flags (req_clearUnsafe r)) g = flags_isSet (req_flags r) g.
Proof. intros Hg. unfold flags_isSet. cbn. by rewrite clear_other. Qed.

Lemma clearUnsafe_unrestricted r : req_isRestricted (req_clearUnsafe r) = false.
Proof.
  unfold req_isRestricted, flags_isSet, req_clearUnsafe. cbn. unfold flags_clear.
  apply negb_false_iff, Z.eqb_eq, Z.bits_inj'. intros i Hi.
  rewrite Z.land_spec, Z.ldiff_spec, Z.bits_0. by destruct (Z.testbit _ i), (Z.testbit _ i).
Qed.

(** ** Sequences of translations *)

Record TranslateCall := mkTranslateCall {
  tcall_req : Request;
  tcall_tc : ThreadContext;
  tcall_mode : TlbMode;
  tcall_timing : bool;
}.

(** What the requester sees of a translation. *)
Record TranslateAnswer := mkTranslateAnswer {
  ta_fault : option Fault;
  ta_delayed : bool;
  ta_req : Request;
}.

Section silent.
Context {T H E : Type} `{PageTrie T H} `{PageTables T H E}.
Implicit Types (t : TLB T H) (env : E) (r : Request) (tc : ThreadContext) (m : TlbMode).

Definition answerOf (x : Translated T H E) : TranslateAnswer :=
  mkTranslateAnswer (tr_fault x) (tr_delayed x) (tr_req x).

Fixpoint translateAll (calls : list TranslateCall) t env
  : outcome (list TranslateAnswer * TLB T H * E) :=
  match calls with
  | [] => Ok ([], t, env)
  | c :: calls =>
      let! x := translate (tcall_req c) (tcall_tc c) (tcall_mode c) (tcall_timing c) t env in
      let! (l, t, env) := translateAll calls (tr_tlb x) (tr_env x) in
      Ok (answerOf x :: l, t, env)
  end.

(** The answers to the requests that were not restricted. *)
Fixpoint openAnswers (calls : list TranslateCall) (l : list TranslateAnswer) : list TranslateAnswer :=
  match calls, l with
  | c :: calls, a :: l =>
      if req_isRestricted (tcall_req c) then openAnswers calls l else a :: openAnswers calls l
  | _, _ => []
  end.

Lemma usePage_frame r va tc m i t env x :
  usePage r va tc m i t env = Ok x → tr_tlb x = t ∧ tr_env x = env.
Proof.
  unfold usePage. intros Hx. inv_ok Hx. destruct (pagingFault _ _ _ _); inv_ok Hx; [done|].
  done.
Qed.

Lemma restricted_translate_frame r tc m timing t env x :
  req_isRestricted r = true → translate r tc m timing t env = Ok x →
  tr_tlb x = t ∧ tr_env x = env.
Proof.
  intros Hr Hx. unfold translate in Hx. rewrite Hr in Hx. cbn [negb] in Hx.
  destruct (segOf r =? SEGMENT_REG_MS); [inv_ok Hx; done|].
  destruct (m5_prot tc); [|inv_ok Hx; done].
  destruct (negb (m5_longMode tc) && segmentFault r tc m); [inv_ok Hx; done|].
  destruct (m5_paging tc); [|inv_ok Hx; done].
  unfold tlb_lookup in Hx. destruct (trieOf (tidOf tc t) t) as [tr|]; [|done].
  destruct (tr_lookup (linearAddr tc r) tr) as [i|]; [by eapply usePage_frame|inv_ok Hx; done].
Qed.

(** C32: Restricted translations are invisible to every other one: a sequence of
    translations in which some requests are restricted ends with the TLB and the
    page tables that the sequence without the restricted requests ends with, and
    gives the unrestricted requests the same faults, delays and physical
    addresses.  So no lookup, replacement decision or page walk depends on an
    access that is still speculative. *)
Theorem restricted_translations_invisible (calls : list TranslateCall) (t t' : TLB T H)
    (env env' : E) (l : list TranslateAnswer)
    (Hrun : translateAll calls t env = Ok (l, t', env')) :
  translateAll (filter (λ c, req_isRestricted (tcall_req c) = false) calls) t env
  = Ok (openAnswers calls l, t', env').
Proof.
  revert t env l Hrun. induction calls as [|c calls IH]; intros t env l Hrun; cbn in Hrun.
  { by injection Hrun as <- <- <-. }
  destruct (translate _ _ _ _ t env) as [x|] eqn:Hx; [|done].
  destruct (translateAll calls (tr_tlb x) (tr_env x)) as [[[l1 t1] env1]|] eqn:Hl; [|done].
  injection Hrun as <- <- <-. apply IH in Hl. cbn [openAnswers].
  destruct (req_isRestricted (tcall_req c)) eqn:Hr.
  - rewrite filter_cons_False by congruence.
    apply restricted_translate_frame in Hx as [Ht He]; [|done]. by rewrite Ht, He in Hl.
  - rewrite filter_cons_True by done. cbn [translateAll]. by rewrite Hx, Hl.
Qed.

(** ** The deferred touch *)

(** The answer for the request without its restriction. *)
Definition cleared (o : outcome (option Fault * Request)) : outcome (option Fault * Request) :=
  let! (f, r) := o in Ok (f, req_clearUnsafe r).

Lemma finalizePhysical_clear r tc :
  finalizePhysical (req_clearUnsafe r) tc = cleared (finalizePhysical r tc).
Proof.
  unfold finalizePhysical. change (req_paddr (req_clearUnsafe r)) with (req_paddr r).
  destruct (req_paddr r) as [pa|]; [|done].
  destruct ((0xFFFF0000 <=? pa) && (pa <=? 0xFFFFFFFF)); [by rewrite clearUnsafe_setFlags|].
  destruct FullSystem; [|done].
  destruct (_ && _); [|done]. destruct (_ <? 4096); [|done]. by rewrite clearUnsafe_setFlags.
Qed.

(** The checks read the page, not when it was used. *)
Lemma pagingFault_clear r tc m (e : TlbEntry H) n :
  pagingFault (req_clearUnsafe r) tc m (te_set_lruSeq n e) = pagingFault r tc m e.
Proof. unfold pagingFault. by rewrite !clearUnsafe_isSet. Qed.

Lemma usePage_clear r va tc m i t t' e n env x :
  tlbEntry i t = Ok e → tlbEntry i t' = Ok (te_set_lruSeq n e) →
  usePage r va tc m i t env = Ok x →
  usePage (req_clearUnsafe r) va tc m i t' env
  = Ok (mkTranslated (tr_fault x) (tr_delayed x) (req_clearUnsafe (tr_req x)) t' env).
Proof.
  intros He He' Hx. unfold usePage in *. rewrite He in Hx. rewrite He'.
  rewrite pagingFault_clear. destruct (pagingFault r tc m e); [by inv_ok Hx|].
  cbn [te_paddr te_logBytes te_uncacheable te_set_lruSeq].
  set (pa := Z.lor _ _) in *.
  change (req_setPaddr pa (req_clearUnsafe r)) with (req_clearUnsafe (req_setPaddr pa r)).
  replace (if te_uncacheable e then req_setFlags UNCACHED (req_clearUnsafe (req_setPaddr pa r))
           else req_clearUnsafe (req_setPaddr pa r))
    with (req_clearUnsafe (if te_uncacheable e then req_setFlags UNCACHED (req_setPaddr pa r)
                           else req_setPaddr pa r))
    by (destruct (te_uncacheable e); [by rewrite clearUnsafe_setFlags|done]).
  rewrite finalizePhysical_clear. unfold cleared. by inv_ok Hx.
Qed.

Lemma setTlbEntry_entry (i : nat) f t t' :
  setTlbEntry i f t = Ok t' →
  ∃ e, tlbEntry i t = Ok e ∧ tlbEntry i t' = Ok (f e).
Proof.
  unfold setTlbEntry. intros Hs. inv_ok Hs. exists a. split; [done|].
  unfold tlbEntry. cbn. erewrite vec_get_set by done. by rewrite Z.eqb_refl.
Qed.

(** The deferred update is the update: in long mode with paging, when a
    restricted request hits the TLB, the same request without the restriction
    gets the same fault and the same physical address, and what it leaves behind
    is exactly the TLB that [updateLRU] makes of the one the restricted request
    saw.  Deferring the touch until the instruction is safe therefore loses
    nothing of the replacement order. *)
Theorem deferred_touch_exact (r : Request) (tc : ThreadContext) (m : TlbMode) (timing : bool)
    (t t1 : TLB T H) (env : E) (x : Translated T H E)
    (Hr : req_isRestricted r = true) (Hseg : segOf r ≠ SEGMENT_REG_MS)
    (Hprot : m5_prot tc = true) (Hlong : m5_longMode tc = true) (Hpage : m5_paging tc = true)
    (Hx : translate r tc m timing t env = Ok x) (Hhit : req_isRestricted (tr_req x) = true)
    (Hup : tlb_updateLRU r tc t = Ok t1) :
  translate (req_clearUnsafe r) tc m timing t env
  = Ok (mkTranslated (tr_fault x) (tr_delayed x) (req_clearUnsafe (tr_req x)) t1 env).
Proof.
  unfold translate, tlb_updateLRU in *.
  assert (Hs : segOf (req_clearUnsafe r) = segOf r) by (unfold segOf; cbn; by rewrite clear_other).
  assert (Hla : linearAddr tc (req_clearUnsafe r) = linearAddr tc r).
  { unfold linearAddr, truncates. by rewrite clearUnsafe_isSet. }
  rewrite Hs, Hla, clearUnsafe_unrestricted. rewrite (proj2 (Z.eqb_neq _ _) Hseg) in *.
  rewrite Hprot, Hlong, Hpage, ?Hr in *. cbn [negb andb] in *.
  unfold tlb_lookup in *. destruct (trieOf (tidOf tc t) t) as [tr|]; [|done].
  destruct (tr_lookup (linearAddr tc r) tr) as [i|]; cbn [nextSeq] in *.
  - destruct (setTlbEntry i _ _) as [t2|] eqn:Hset; [|done]. injection Hup as <-.
    apply setTlbEntry_entry in Hset as (e & He & He').
    exact (usePage_clear r _ tc m i t t2 e _ env x He He' Hx).
  - injection Hx as <-. cbn in Hhit. by rewrite clearUnsafe_unrestricted in Hhit.
Qed.

(** In protected mode outside long mode with paging the TLB is used all the
    same, but [updateLRU] returns before the lookup: the deferred touch of a
    restricted hit is lost, where an unrestricted request advances the sequence
    number. *)
Theorem legacy_touch_dropped (r : Request) (tc : ThreadContext) (m : TlbMode) (timing : bool)
    (t : TLB T H) (env : E) (x : Translated T H E) (tr : T) (i : nat)
    (Hr : req_isRestricted r = false) (Hseg : segOf r ≠ SEGMENT_REG_MS)
    (Hprot : m5_prot tc = true) (Hlong : m5_longMode tc = false) (Hpage : m5_paging tc = true)
    (Hok : segmentFault r tc m = false)
    (Htr : trieOf (tidOf tc t) t = Ok tr) (Hhit : tr_lookup (linearAddr tc r) tr = Some i)
    (Hx : translate r tc m timing t env = Ok x) :
  tlb_updateLRU r tc t = Ok t ∧ lruSeq (tr_tlb x) = u64 (lruSeq t + 1).
Proof.
  unfold translate, tlb_updateLRU in *. rewrite (proj2 (Z.eqb_neq _ _) Hseg) in *.
  rewrite Hprot, Hlong, Hpage, Hr, Hok in *. cbn [negb andb] in *. split; [done|].
  unfold tlb_lookup in Hx. rewrite Htr, Hhit in Hx. unfold nextSeq in Hx.
  destruct (setTlbEntry i _ _) as [t2|] eqn:Hset; [|done].
  apply usePage_frame in Hx as [-> _]. unfold setTlbEntry in Hset. by inv_ok Hset.
Qed.
End silent.

Module SilentExample.
(** An emulated process with every page below 1 MB mapped one to one. *)
#[local] Instance Tables : PageTables Trie Handle unit := {|
  FullSystem := false;
  walker_start := λ _ _ t e, (None, t, e);
  pt_lookup := λ a _, if a <? 0x100000 then Some (mkPte (Z.ldiff a 0xFFF) false false) else None;
  pt_pageAlign := λ a, Z.ldiff a 0xFFF;
  fixupStackFault := λ _ e, (false, e);
  msrAddrToIndex := λ _, None;
  MISCREG_PCI_CONFIG_ADDRESS := 0;
|}.

Definition tc (tid : ThreadID) (long : bool) : ThreadContext :=
  mkThreadContext tid 0 true long true true 3 3 2 true (λ _, 1) (λ _, mkSegAttr true true false)
    (λ _, 0) (λ _, u64_max) 0 0.
Definition req (va : Addr) (restricted : bool) : Request :=
  mkRequest va 8 (if restricted then ReqFlag.RESTRICTED else 0) None false.
Definition call (tid : ThreadID) (va : Addr) (restricted : bool) : TranslateCall :=
  mkTranslateCall (req va restricted) (tc tid true) Read true.

(** A hit, a restricted hit, a restricted miss, a miss that evicts. *)
Definition calls : list TranslateCall :=
  [call 0 0x1004 false; call 1 0x2004 true; call 0 0x5000 true; call 0 0x3008 false;
   call 1 0x2008 true].
Definition result : list TranslateAnswer * TLB Trie Handle * unit :=
  Eval vm_compute in
    match translateAll calls TlbExample.full tt with
    | Ok x => x | Err _ => ([], TlbExample.full, tt) end.
Definition hit : Translated Trie Handle unit :=
  Eval vm_compute in
    match translate (req 0x1004 true) (tc 0 true) Read true TlbExample.full tt with
    | Ok x => x | Err _ => mkTranslated None false (req 0 false) TlbExample.full tt end.
Definition touched : TLB Trie Handle :=
  Eval vm_compute in
    match tlb_updateLRU (req 0x1004 true) (tc 0 true) TlbExample.full with
    | Ok t => t | Err _ => TlbExample.full end.
Definition legacy : Translated Trie Handle unit :=
  Eval vm_compute in
    match translate (req 0x1004 false) (tc 0 false) Read true TlbExample.full tt with
    | Ok x => x | Err _ => mkTranslated None false (req 0 false) TlbExample.full tt end.
End SilentExample.
#[local] Existing Instance SilentExample.Tables.

Lemma restricted_translations_invisible_witness :
  translateAll (filter (λ c, req_isRestricted (tcall_req c) = false) SilentExample.calls)
    TlbExample.full tt
  = Ok (openAnswers SilentExample.calls (fst (fst SilentExample.result)),
        snd (fst SilentExample.result), tt).
Proof.
  apply (restricted_translations_invisible SilentExample.calls). vm_compute. reflexivity.
Defined.

Lemma deferred_touch_exact_witness :
  translate (req_clearUnsafe (SilentExample.req 0x1004 true)) (SilentExample.tc 0 true) Read true
    TlbExample.full tt
  = Ok (mkTranslated (tr_fault SilentExample.hit) (tr_delayed SilentExample.hit)
          (req_clearUnsafe (tr_req SilentExample.hit)) SilentExample.touched tt)
  ∧ SilentExample.touched ≠ TlbExample.full.
Proof.
  split; [|by vm_compute].
  apply (deferred_touch_exact (SilentExample.req 0x1004 true) (SilentExample.tc 0 true) Read true
    TlbExample.full SilentExample.touched tt SilentExample.hit); by vm_compute.
Defined.
