(* ===== verification/MemAccess.v ===== *)
(** * Address translation and the start of a memory access

    [BaseDynInst::initiateMemRead], [writeMem], [splitRequest],
    [initiateTranslation] and [finishTranslation] ([cpu/base_dyn_inst.hh]),
    [WholeTranslationState] and [DataTranslation] ([cpu/translation.hh]) and
    [Request::splitOnVaddr].  DOLMA marks the requests of a restricted
    instruction, keeps unmarked copies for the deferred update, and stalls the
    instruction when the TLB answers with the mark cleared, which means a miss.

    The data TLB is reached through the interface [Dtb]; the access goes on in
    [LsqUnit.lsq_read] and [LsqUnit.lsq_write].  A request is shared between the
    instruction, the translation state and the local variables of the code: the
    translation state holds its contents, and the saved requests of an
    instruction whose translation is pending are kept equal to them.  The
    checker, tracing, latency statistics and the extra data of a conditional
    swap are left out. *)

From S2P Require Import Prelude Regs Config DynInst Metadata InstQueue LsqUnit PageTrie Tlb.

Local Open Scope Z_scope.

(** ** The data TLB

    [dtb_translateTiming req mode tid] is [cpu->dtb->translateTiming] for the
    thread: the fault, whether the answer is delayed ([finish] is called later,
    by the walker), the request afterwards and the new state. *)
Class Dtb (M : Type) := {
  dtb_translateTiming : Request → TlbMode → ThreadID → M →
    outcome (option Fault * bool * Request * M);
}.

(** What the stalling of a restricted miss relies on: a restricted request is
    answered at once and changes nothing, and loses its mark only together with
    a fault; a translation without a fault gives a physical address. *)
Class DtbOk (M : Type) `{Dtb M} := {
  dtb_restricted : ∀ r mode tid m f delayed r' m',
    req_isRestricted r = true →
    dtb_translateTiming r mode tid m = Ok (f, delayed, r', m') →
    delayed = false ∧ m' = m ∧ (req_isRestricted r' = false → is_Some f);
  dtb_translated : ∀ r mode tid m r' m',
    dtb_translateTiming r mode tid m = Ok (None, false, r', m') → is_Some (req_paddr r');
}.

(** ** Splitting a request *)

(** [roundDown(val, align)] of [base/intmath.hh] on 64 bits. *)
Definition roundDown (val align : Z) : Z := Z.ldiff val (u64 (align - 1)).

Definition req_set_range (va size : Z) (r : Request) : Request :=
  mkRequest va size (req_flags r) (req_paddr r) (metadataUpdate r).

Definition splitOnVaddr (split_addr : Addr) (r : Request) : outcome (Request * Request) :=
  assert! bool_decide (req_paddr r = None) as "noneSet(VALID_PADDR)" in
  assert! (req_vaddr r <? split_addr) && (split_addr <? u64 (req_vaddr r + req_size r))
    as "split_addr > _vaddr && split_addr < _vaddr + _size" in
  let low := split_addr - req_vaddr r in
  Ok (req_set_range (req_vaddr r) low r,
      req_set_range split_addr (req_size r - low) r).

Definition splitRequest (block_size : Z) (r : Request)
  : outcome (option Request * option Request) :=
  let addr := req_vaddr r in
  let split_addr := roundDown (u64 (addr + req_size r - 1)) block_size in
  assert! (split_addr <=? addr) || (split_addr - addr <? block_size)
    as "split_addr <= addr || split_addr - addr < block_size" in
  if addr <? split_addr then
    let! (lo, hi) := splitOnVaddr split_addr r in Ok (Some lo, Some hi)
  else Ok (None, None).

(** ** The state of a translation *)

Record WholeTranslationState := mkWTS {
  wts_outstanding : Z;
  wts_fault0 : option Fault;
  wts_fault1 : option Fault;
  wts_isSplit : bool;
  wts_mainReq : Request;
  wts_sreqLow : option Request;
  wts_sreqHigh : option Request;
  wts_res : option Z; (** what [res] points to *)
  wts_mode : TlbMode;
}.

(** The two constructors. *)
Definition newWTS (req : Request) (lo hi : option Request) (res : option Z) (mode : TlbMode)
  : outcome WholeTranslationState :=
  assert! negb (bool_decide (mode = Execute))
    as "mode == BaseTLB::Read || mode == BaseTLB::Write" in
  let split := bool_decide (is_Some lo) in
  Ok (mkWTS (if split then 2 else 1) None None split req lo hi res mode).

Definition wts_set_reqs (main : Request) (lo hi : option Request) (st : WholeTranslationState)
  : WholeTranslationState :=
  mkWTS (wts_outstanding st) (wts_fault0 st) (wts_fault1 st) (wts_isSplit st) main lo hi
    (wts_res st) (wts_mode st).
Definition wts_set_fault (high : bool) (f : option Fault) (st : WholeTranslationState)
  : WholeTranslationState :=
  mkWTS (wts_outstanding st - 1) (if high then wts_fault0 st else f)
    (if high then f else wts_fault1 st) (wts_isSplit st) (wts_mainReq st) (wts_sreqLow st)
    (wts_sreqHigh st) (wts_res st) (wts_mode st).

Definition req_orFlags (o : option Request) (r : Request) : outcome Request :=
  match o with
  | Some x => Ok (req_setFlags (req_flags x) r)
  | None => Err (NullDeref "sreq->getFlags()")
  end.

(** The end of a split translation copies its state to the main request. *)
Definition copyToMain (st : WholeTranslationState) : outcome WholeTranslationState :=
  let! main :=
    match wts_fault0 st with
    | Some _ => Ok (wts_mainReq st)
    | None =>
        match wts_sreqLow st ≫= req_paddr with
        | Some pa => Ok (req_setPaddr pa (wts_mainReq st))
        | None => Err (Assertion "getPaddr: VALID_PADDR")
        end
    end in
  let! main := req_orFlags (wts_sreqLow st) main in
  let! main := req_orFlags (wts_sreqHigh st) main in
  Ok (wts_set_reqs main (wts_sreqLow st) (wts_sreqHigh st) st).

(** [WholeTranslationState::finish]; [high] is [index == 1]. *)
Definition wts_finish (f : option Fault) (high : bool) (st : WholeTranslationState)
  : outcome (bool * WholeTranslationState) :=
  assert! negb (wts_outstanding st =? 0) as "outstanding" in
  let st := wts_set_fault high f st in
  let over := wts_outstanding st =? 0 in
  let! st := if wts_isSplit st && over then copyToMain st else Ok st in
  Ok (over, st).

Definition wts_getFault (st : WholeTranslationState) : option Fault :=
  if negb (wts_isSplit st) then wts_fault0 st
  else match wts_fault0 st with
       | Some f => Some f
       | None => wts_fault1 st
       end.

Definition paddrOf (o : option Request) : outcome Addr :=
  match o ≫= req_paddr with
  | Some pa => Ok pa
  | None => Err (Assertion "getPaddr: VALID_PADDR")
  end.

Definition finishTranslation (st : WholeTranslationState) (i : DynInst) : outcome DynInst :=
  let i := set_fault (wts_getFault st) i in
  let i := flag_assign IsStrictlyOrdered (req_isStrictlyOrdered (wts_mainReq st)) i in
  let! i :=
    match fault i with
    | Some _ => Ok i
    | None =>
        let! pa := paddrOf (Some (wts_mainReq st)) in
        let i := set_physEffAddrLow pa i in
        let! i :=
          if wts_isSplit st then
            let! lo := paddrOf (wts_sreqLow st) in
            let! hi := paddrOf (wts_sreqHigh st) in
            Ok (set_physEffAddrHigh hi (set_physEffAddrLow lo i))
          else Ok i in
        let i := set_memReqFlags (wrap 32 (req_flags (wts_mainReq st))) i in
        assert! negb (flags_isSet (req_flags (wts_mainReq st)) ReqFlag.MEM_SWAP_COND)
                || bool_decide (is_Some (wts_res st)) as "state->res" in
        Ok i
    end in
  Ok (flag_assign TranslationCompleted true i).

(** [DataTranslation::finish]. *)
Definition dataFinish (f : option Fault) (high : bool) (st : WholeTranslationState) (i : DynInst)
  : outcome (WholeTranslationState * DynInst) :=
  let! (over, st) := wts_finish f high st in
  if over then let! i := finishTranslation st i in Ok (st, i) else Ok (st, i).

(** ** Starting a translation *)

(** The request that part [high] of the translation works on. *)
Definition partReq (high : bool) (st : WholeTranslationState) : option Request :=
  if wts_isSplit st then if high then wts_sreqHigh st else wts_sreqLow st
  else Some (wts_mainReq st).
Definition setPartReq (high : bool) (r : Request) (st : WholeTranslationState)
  : WholeTranslationState :=
  if wts_isSplit st then
    if high then wts_set_reqs (wts_mainReq st) (wts_sreqLow st) (Some r) st
    else wts_set_reqs (wts_mainReq st) (Some r) (wts_sreqHigh st) st
  else wts_set_reqs r (wts_sreqLow st) (wts_sreqHigh st) st.

Section translation.
Context {M : Type} `{Dtb M}.
Variable cfg : DolmaConfig.

(** The restricted instruction's requests are marked; unmarked copies stay with
    the instruction. *)
Definition markRequests (i : DynInst) (req : Request) (lo hi : option Request)
  : DynInst * Request * option Request * option Request :=
  if isDolmaRestricted i && (negb (isSTT cfg) || negb (isStore i)) then
    let i := set_dolmaVirtualReq (Some req) i in
    match lo with
    | Some _ =>
        (set_dolmaVirtualSreqHigh hi (set_dolmaVirtualSreqLow lo i),
         req_setUnsafe req, req_setUnsafe <$> lo, req_setUnsafe <$> hi)
    | None => (i, req_setUnsafe req, lo, hi)
    end
  else (i, req, lo, hi).

(** One call of [translateTiming], with the end of the part unless the answer
    is delayed; the boolean tells that a restricted request lost its mark. *)
Definition translatePart (high : bool) (st : WholeTranslationState) (i : DynInst) (m : M)
  : outcome (bool * WholeTranslationState * DynInst * M) :=
  match partReq high st with
  | None => Err (NullDeref "sreq->isRestricted()")
  | Some r =>
      let! (f, delayed, r', m) := dtb_translateTiming r (wts_mode st) (threadNumber i) m in
      let st := setPartReq high r' st in
      let! (st, i) := if delayed then Ok (st, i) else dataFinish f high st i in
      Ok (req_isRestricted r && isDolmaRestricted i && negb (req_isRestricted r'), st, i, m)
  end.

Definition stallMiss (i : DynInst) : outcome DynInst :=
  assert! negb (isSTT cfg) as "initiateTranslation: !cpu->isSTT()" in
  setDolmaStalled cfg i.

(** A translation that is still going on: the requests are saved. *)
Definition saveIfPending (st : WholeTranslationState) (i : DynInst) : DynInst :=
  if translationCompleted i then i
  else set_savedSreqHigh (wts_sreqHigh st)
         (set_savedSreqLow (wts_sreqLow st)
            (set_savedReq (Some (wts_mainReq st)) (set_fault None i))).

(** The one or two translations. *)
Definition translateParts (st : WholeTranslationState) (i : DynInst) (m : M)
  : outcome (DynInst * WholeTranslationState * M) :=
  let! (missed, st, i, m) := translatePart false st i m in
  if missed then let! i := stallMiss i in Ok (i, st, m)
  else if wts_isSplit st then
    let! (missed, st, i, m) := translatePart true st i m in
    if missed then let! i := stallMiss i in Ok (i, st, m)
    else Ok (saveIfPending st i, st, m)
  else Ok (saveIfPending st i, st, m).

Definition initiateTranslation (req : Request) (lo hi : option Request) (res : option Z)
    (mode : TlbMode) (i : DynInst) (m : M)
  : outcome (DynInst * WholeTranslationState * M) :=
  let i := flag_assign TranslationStarted true i in
  let '(i, req, lo, hi) := markRequests i req lo hi in
  let! st := newWTS req lo hi res mode in
  translateParts st i m.
End translation.

(** ** The accesses *)

(** The machine with the translations that wait for the walker. *)
Record MemWorld (M : Type) := mkMemWorld {
  mw_world : World M;
  mw_pending : gmap DynInstPtr WholeTranslationState;
}.
Arguments mkMemWorld {M}. Arguments mw_world {M}. Arguments mw_pending {M}.

Section accesses.
Context {M : Type} `{MemSystem M} `{StorePort M} `{Dtb M}.
Variable cfg : DolmaConfig.
Variable cacheLineSize : Z.

Definition mw_put (p : DynInstPtr) (i : DynInst) (mw : MemWorld M) : MemWorld M :=
  mkMemWorld (w_set_insts (<[p := i]> (w_insts (mw_world mw))) (mw_world mw)) (mw_pending mw).

(** The first part of both accesses: the saved requests when the translation
    has been started before, otherwise a new request and its translation. *)
Definition accessRequests (p : DynInstPtr) (i : DynInst) (addr size flags : Z) (res : option Z)
    (mode : TlbMode) (mw : MemWorld M)
  : outcome (DynInst * option Request * option Request * option Request * MemWorld M) :=
  if translationStarted i then
    assert! negb (bool_decide (mode = Read)) || negb (isDolmaRestricted i)
      as "initiateMemRead: !isDolmaRestricted()" in
    Ok (i, savedReq i, savedSreqLow i, savedSreqHigh i, mw)
  else
    let req := mkRequest addr size flags None false in
    let! (lo, hi) := splitRequest cacheLineSize req in
    let! (i, st, m) := initiateTranslation cfg req lo hi res mode i (w_mem (mw_world mw)) in
    let pending := if (wts_outstanding st =? 0) || isDolmaStalled i then mw_pending mw
                   else <[p := st]> (mw_pending mw) in
    Ok (i, Some (wts_mainReq st), wts_sreqLow st, wts_sreqHigh st,
        mkMemWorld (w_set_mem m (mw_world mw)) pending).

Definition setEffective (req : Request) (size : Z) (i : DynInst) : DynInst :=
  flag_assign EffAddrValid true (set_effSize (wrap 8 size) (set_effAddr (req_vaddr req) i)).

Definition initiateMemRead (p : DynInstPtr) (addr size flags : Z) (mw : MemWorld M)
  : outcome (option Fault * MemWorld M) :=
  let! i := deref p (w_insts (mw_world mw)) in
  let i := flag_assign ReqMade true i in
  let! (i, req, lo, hi, mw) := accessRequests p i addr size flags None Read mw in
  if translationCompleted i then
    match fault i with
    | None =>
        match req with
        | None => Err (NullDeref "req->getVaddr()")
        | Some req =>
            let i := setEffective req size i in
            let! (f, w) := lsq_read cfg req lo hi (lqIdx i) (mw_world (mw_put p i mw)) in
            let! w := w_modify (set_fault f) p w in
            Ok (f, mkMemWorld w (mw_pending mw))
        end
    | Some f =>
        let i := if isDolmaStalled i then i else setExecuted i in
        Ok (Some f, mw_put p i mw)
    end
  else Ok (fault i, mw_put p i mw).

(** Stores are sent after commit, so their requests lose the mark here. *)
Definition clearIfRestricted (r : Request) : Request :=
  if req_isRestricted r then req_clearUnsafe r else r.

Definition writeMem (p : DynInstPtr) (data : list Z) (size addr flags : Z) (res : option Z)
    (mw : MemWorld M) : outcome (option Fault * MemWorld M) :=
  let! i := deref p (w_insts (mw_world mw)) in
  let i := flag_assign ReqMade true i in
  let! (i, req, lo, hi, mw) := accessRequests p i addr size flags res Write mw in
  if bool_decide (fault i = None) && translationCompleted i then
    match req with
    | None => Err (NullDeref "req->getVaddr()")
    | Some req =>
        let i := set_fault None (setEffective req size i) in
        let! u := lsq_write (clearIfRestricted req) (clearIfRestricted <$> lo)
                    (clearIfRestricted <$> hi) data (sqIdx i) (w_lsq (mw_world mw)) in
        let mw := mw_put p i mw in
        Ok (None, mkMemWorld (w_set_lsq u (mw_world mw)) (mw_pending mw))
    end
  else Ok (fault i, mw_put p i mw).

(** The walker ends a delayed part of a translation with the request [r]. *)
Definition walkFinished (p : DynInstPtr) (high : bool) (f : option Fault) (r : Request)
    (mw : MemWorld M) : outcome (MemWorld M) :=
  match mw_pending mw !! p with
  | None => Err (NullDeref "state")
  | Some st =>
      let! i := deref p (w_insts (mw_world mw)) in
      let! (st, i) := dataFinish f high (setPartReq high r st) i in
      let i := set_savedSreqHigh (wts_sreqHigh st)
                 (set_savedSreqLow (wts_sreqLow st) (set_savedReq (Some (wts_mainReq st)) i)) in
      let pending := if wts_outstanding st =? 0 then delete p (mw_pending mw)
                     else <[p := st]> (mw_pending mw) in
      Ok (mw_put p i (mkMemWorld (mw_world mw) pending))
  end.
End accesses.
