(* ===== verification/MemAccessSafe.v ===== *)
(** * Delay on miss

    A request is split at the block boundary it crosses and nowhere else; a
    restricted load that misses the TLB is stalled and leaves no trace in the
    memory system. *)

From S2P Require Import Prelude Regs Config DynInst Metadata InstQueue IqTaint LsqUnit LsqInv PageTrie Trie TrieMap Tlb TlbInv TlbSilent MemAccess.

Local Open Scope Z_scope.

(** ** Splitting *)

Lemma roundDown_pow2 x k : 0 <= k <= 64 → 0 <= x → roundDown x (2 ^ k) = 2 ^ k * (x / 2 ^ k).
Proof.
  intros Hk Hx. unfold roundDown, u64, wrap.
  assert (0 < 2 ^ k) by (apply Z.pow_pos_nonneg; lia).
  assert (2 ^ k <= 2 ^ 64) by (apply Z.pow_le_mono_r; lia).
  rewrite Z.mod_small by lia. replace (2 ^ k - 1) with (Z.ones k) by (rewrite Z.ones_equiv; lia).
  rewrite Z.ldiff_ones_r, Z.shiftl_mul_pow2, Z.shiftr_div_pow2 by lia. lia.
Qed.

(** The accesses [a, a + n) and the block of [bs] bytes it lies in. *)
Definition inOneBlock (bs a n : Z) : Prop := a / bs = (a + n - 1) / bs.

(** C34: An access of at most a cache block is split exactly when it crosses a
    block boundary: [splitRequest] fails none of its assertions, leaves an
    access inside one block whole, and otherwise gives two non-empty adjacent
    accesses that together are the original one, each inside one block, the
    second starting at the boundary. *)
Theorem splitRequest_exact (k : Z) (r : Request)
    (Hk : 0 <= k < 32) (Hva : 0 <= req_vaddr r) (Hsize : 0 < req_size r <= 2 ^ k)
    (Htop : req_vaddr r + req_size r <= 2 ^ 64) (Hnew : req_paddr r = None) :
  (splitRequest (2 ^ k) r = Ok (None, None)
   ∧ inOneBlock (2 ^ k) (req_vaddr r) (req_size r))
  ∨ ∃ n, 0 < n < req_size r
    ∧ splitRequest (2 ^ k) r
      = Ok (Some (req_set_range (req_vaddr r) n r),
            Some (req_set_range (req_vaddr r + n) (req_size r - n) r))
    ∧ inOneBlock (2 ^ k) (req_vaddr r) n
    ∧ inOneBlock (2 ^ k) (req_vaddr r + n) (req_size r - n)
    ∧ (req_vaddr r + n) mod 2 ^ k = 0.
Proof.
  set (a := req_vaddr r) in *. set (sz := req_size r) in *. set (B := 2 ^ k) in *.
  assert (0 < B) by (apply Z.pow_pos_nonneg; lia).
  unfold splitRequest. fold a sz.
  assert (Hu : u64 (a + sz - 1) = a + sz - 1) by (unfold u64, wrap; apply Z.mod_small; lia).
  rewrite Hu. replace (roundDown (a + sz - 1) B) with (B * ((a + sz - 1) / B))
    by (symmetry; apply roundDown_pow2; lia). set (q := (a + sz - 1) / B).
  pose proof (Z.div_mod (a + sz - 1) B ltac:(lia)) as Hd. fold q in Hd.
  pose proof (Z.mod_pos_bound (a + sz - 1) B ltac:(lia)) as Hm.
  pose proof (Z.div_mod a B ltac:(lia)) as Hd'. pose proof (Z.mod_pos_bound a B ltac:(lia)) as Hm'.
  rewrite (proj2 (orb_true_iff _ _)) by (right; apply Z.ltb_lt; lia).
  destruct (Z.ltb_spec a (B * q)) as [Hlt|Hge].
  - right. exists (B * q - a). split; [lia|].
    assert (Hq : a / B = q - 1) by nia.
    split; [|split_and!].
    + unfold splitOnVaddr. fold a sz. rewrite Hnew, bool_decide_true by done.
      assert (B * q < u64 (a + sz)).
      { unfold u64, wrap. destruct (decide (a + sz = 2 ^ 64)) as [Heq|]; [|rewrite Z.mod_small; lia].
        exfalso. assert (Hdiv : 2 ^ 64 = B * 2 ^ (64 - k)).
        { unfold B. rewrite <-Z.pow_add_r by lia. f_equal. lia. }
        assert (q = 2 ^ (64 - k) - 1); [|nia].
        unfold q. rewrite Heq, Hdiv. symmetry. apply (Z.div_unique_pos _ _ _ (B - 1)); lia. }
      rewrite (proj2 (Z.ltb_lt _ _) Hlt), (proj2 (Z.ltb_lt _ _)) by done. cbn [andb].
      do 4 f_equal; lia.
    + unfold inOneBlock. rewrite Hq.
      apply (Z.div_unique_pos _ _ _ (B - 1)); lia.
    + unfold inOneBlock. replace (a + (B * q - a)) with (q * B) by lia.
      rewrite Z.div_mul by lia. unfold q at 1. f_equal. lia.
    + replace (a + (B * q - a)) with (q * B) by lia. apply Z.mod_mul. lia.
  - left. split; [done|]. unfold inOneBlock. fold q.
    symmetry. apply (Z.div_unique_pos _ _ _ (a - B * q)); nia.
Qed.

(** ** Stalling *)

Section delay.
Context {M : Type} `{MemSystem M} `{StorePort M} `{DtbOk M}.
Variable cfg : DolmaConfig.
Variable cacheLineSize : Z.
Implicit Types (i : DynInst) (m : M) (r : Request) (st : WholeTranslationState).

(** The requests that are translated. *)
Definition parts (req : Request) (lo hi : option Request) : list Request :=
  match lo, hi with
  | Some l, Some h => [l; h]
  | _, _ => [req]
  end.

(** The TLB answers the restricted request; it misses when the mark is gone. *)
Definition answered (tid : ThreadID) m r : Prop :=
  ∃ x, dtb_translateTiming (req_setUnsafe r) Read tid m = Ok x.
Definition misses (tid : ThreadID) m r : Prop :=
  ∃ f d r' m', dtb_translateTiming (req_setUnsafe r) Read tid m = Ok (f, d, r', m')
    ∧ req_isRestricted r' = false.

Lemma setUnsafe_restricted r : req_isRestricted (req_setUnsafe r) = true.
Proof.
  unfold req_isRestricted, flags_isSet. cbn. unfold flags_set. apply negb_true_iff, Z.eqb_neq.
  intros Hz. apply (f_equal (λ z, Z.testbit z 14)) in Hz.
  rewrite Z.land_spec, Z.lor_spec, orb_true_r in Hz. done.
Qed.

(** A part that hits, or misses, with what is known of the instruction. *)
Lemma translatePart_answer high st i m r :
  partReq high st = Some (req_setUnsafe r) → wts_mode st = Read →
  isDolmaRestricted i = true → answered (threadNumber i) m r →
  ∃ f r', dtb_translateTiming (req_setUnsafe r) Read (threadNumber i) m = Ok (f, false, r', m)
    ∧ (req_isRestricted r' = false → is_Some f)
    ∧ (f = None → is_Some (req_paddr r'))
    ∧ ∀ st' i', dataFinish f high (setPartReq high r' st) i = Ok (st', i') →
        isDolmaRestricted i' = isDolmaRestricted i →
        translatePart high st i m = Ok (negb (req_isRestricted r'), st', i', m).
Proof.
  intros Hp Hm Hr [[[[f d] r'] m'] Ha].
  destruct (dtb_restricted _ _ _ _ _ _ _ _ (setUnsafe_restricted r) Ha) as (-> & -> & Hf).
  exists f, r'. split; [done|]. split; [done|]. split.
  { intros ->. by eapply dtb_translated. }
  intros st' i' Hfin Hr'. unfold translatePart. rewrite Hp, Hm, Ha, Hfin.
  by rewrite setUnsafe_restricted, Hr', Hr.
Qed.

(** What [setDolmaStalled] asserts. *)
Record stallable i : Prop := {
  sb_restricted : isDolmaRestricted i = true;
  sb_running : isDolmaStalled i = false;
  sb_total : isTotalStoreBufferHit i = false;
  sb_partial : isPartialStoreBufferHit i = false;
}.

Lemma stallable_status i i' : status i' = status i → stallable i → stallable i'.
Proof.
  intros Hs [? ? ? ?].
  split; repeat (autounfold with dyn in *; cbn in * ); rewrite ?Hs in *; done.
Qed.

Lemma dropDolmaReqs_gone i :
  dolmaVirtualReq (dropDolmaReqs i) = None ∧ fault (dropDolmaReqs i) = fault i.
Proof.
  destruct i as [? ? ? ? ? ? ? ? ? ? ? ? ? ? ? ? ? ? ? ? ? ? ? ? ? ? ? ?
                 [?|] [?|] ? [?|] [?|] [?|] ? ? ? ?]; done.
Qed.

Lemma stallMiss_spec i :
  isSTT cfg = false → stallable i →
  ∃ i', stallMiss cfg i = Ok i' ∧ isDolmaStalled i' = true ∧ isExecuted i' = isExecuted i
    ∧ dolmaVirtualReq i' = None ∧ instFlags i' = instFlags i ∧ fault i' = fault i.
Proof.
  intros Hstt [Hr Hn Ht Hp]. unfold stallMiss, setDolmaStalled. rewrite Hstt, Hr, Hn, Ht, Hp.
  assert (Hs : isSquashed i = false).
  { destruct (isSquashed i) eqn:E; [|done]. unfold isDolmaRestricted in Hr. by rewrite E in Hr. }
  rewrite Hs. cbn [negb orb]. eexists. split; [done|].
  set (j := status_set _ _). destruct (dropDolmaReqs_frame j) as [Hst Hfl _ _ _ _ _].
  destruct (dropDolmaReqs_gone j) as [Hv Hf]. split_and!; try done.
  - repeat (autounfold with dyn in *; cbn in * ). rewrite Hst. unfold j. dyn_simpl. by rewrite Hs.
  - repeat (autounfold with dyn in *; cbn in * ). rewrite Hst. unfold j. dyn_simpl. by rewrite !andb_true_r.
Qed.

(** The instruction after the requests were marked. *)
Lemma markRequests_restricted i req lo hi :
  isSTT cfg = false → isDolmaRestricted i = true →
  (is_Some lo ↔ is_Some hi) →
  ∃ i', markRequests cfg i req lo hi
        = (i', req_setUnsafe req, req_setUnsafe <$> lo, req_setUnsafe <$> hi)
    ∧ status i' = status i ∧ instFlags i' = instFlags i ∧ fault i' = fault i
    ∧ threadNumber i' = threadNumber i.
Proof.
  intros Hstt Hr Hb. unfold markRequests. rewrite Hr, Hstt. cbn [negb orb andb].
  destruct lo as [l|]; [by eexists|].
  destruct hi as [h|]; [|by eexists]. destruct Hb as [_ Hb]. by destruct Hb.
Qed.

(** The first part of a split translation only records its fault. *)
Lemma dataFinish_first f r' st i :
  wts_isSplit st = true → wts_outstanding st = 2 →
  ∃ st', dataFinish f false (setPartReq false r' st) i = Ok (st', i)
    ∧ wts_isSplit st' = true ∧ wts_outstanding st' = 1 ∧ wts_fault0 st' = f
    ∧ wts_sreqLow st' = Some r' ∧ wts_sreqHigh st' = wts_sreqHigh st ∧ wts_mode st' = wts_mode st.
Proof.
  intros Hs Ho. unfold dataFinish, wts_finish, setPartReq. rewrite Hs. cbn. rewrite Ho, Hs. cbn.
  eexists. split; [done|]. cbn. split_and!; done || lia.
Qed.

#[local] Arguments finishTranslation : simpl never.

(** A part that ends the translation with a fault completes it. *)
Lemma dataFinish_last f high r' st i :
  wts_outstanding st = 1 → is_Some f →
  (if wts_isSplit st then high = true ∧ is_Some (wts_sreqLow st)
     ∧ (wts_fault0 st = None → is_Some (wts_sreqLow st ≫= req_paddr)) else high = false) →
  ∃ st' i', dataFinish f high (setPartReq high r' st) i = Ok (st', i')
    ∧ wts_outstanding st' = 0 ∧ status i' = status i ∧ is_Some (fault i')
    ∧ translationCompleted i' = true.
Proof.
  intros Ho [x ->] Hs. unfold dataFinish, wts_finish, setPartReq.
  destruct (wts_isSplit st) eqn:Hsp.
  - destruct Hs as (-> & [l Hl] & Hpa). cbn. rewrite Ho, Hsp. change (1 - 1 =? 0) with true. cbn. unfold copyToMain. cbn.
    rewrite Hl in Hpa |- *.
    assert (Hfin : ∀ st' , wts_isSplit st' = true → wts_fault1 st' = Some x →
      ∃ i', finishTranslation st' i = Ok i' ∧ status i' = status i ∧ is_Some (fault i')
        ∧ translationCompleted i' = true).
    { intros st' Hsp' Hf1. unfold finishTranslation.
      assert (Hgf : ∃ y, wts_getFault st' = Some y).
      { unfold wts_getFault. rewrite Hsp'. cbn. destruct (wts_fault0 st'); eauto. }
      destruct Hgf as [y Hy]. rewrite Hy. cbn. eexists. split_and!; [done|done|by eexists|].
      unfold translationCompleted, fl. by dyn_simpl. }
    destruct (wts_fault0 st) eqn:Hf0.
    + cbn. edestruct Hfin as (i' & -> & ?); [..|do 2 eexists; split; [done|]; cbn; split; [lia|done]];
        done.
    + destruct (Hpa eq_refl) as [pa Hp]. cbn in Hp. cbn. rewrite Hp. cbn.
      edestruct Hfin as (i' & -> & ?); [..|do 2 eexists; split; [done|]; cbn; split; [lia|done]];
        done.
  - subst high. cbn. rewrite Ho, Hsp. change (1 - 1 =? 0) with true. cbn. unfold finishTranslation, wts_getFault. cbn. rewrite Hsp. cbn.
    do 2 eexists. split; [done|]. cbn. split_and!; [lia|done|by eexists|].
    unfold translationCompleted, fl. by dyn_simpl.
Qed.

(** The instruction was stalled by its translation. *)
Definition stalledBy i i' : Prop :=
  isDolmaStalled i' = true ∧ isExecuted i' = isExecuted i ∧ dolmaVirtualReq i' = None
  ∧ (translationCompleted i' = true → is_Some (fault i')).

Lemma stall_after i j :
  isSTT cfg = false → stallable i → status j = status i →
  (translationCompleted j = true → is_Some (fault j)) →
  ∃ i', stallMiss cfg j = Ok i' ∧ stalledBy i i'.
Proof.
  intros Hstt Hsb Hst Hf. destruct (stallMiss_spec j Hstt) as (i' & Hr & ? & He & ? & Hfl & Hff).
  { by eapply stallable_status. }
  exists i'. split; [done|]. split_and!; try done.
  - rewrite He. unfold isExecuted, st. by rewrite Hst.
  - unfold translationCompleted, fl in *. rewrite Hfl, Hff. done.
Qed.

Lemma restricted_status i j : status j = status i → isDolmaRestricted j = isDolmaRestricted i.
Proof. intros Hs. repeat (autounfold with dyn; cbn). by rewrite Hs. Qed.

Lemma whole_miss i j req m :
  isSTT cfg = false → stallable i → status j = status i →
  answered (threadNumber j) m req → misses (threadNumber j) m req →
  ∃ i' st', translateParts cfg (mkWTS 1 None None false (req_setUnsafe req) None None None Read) j m
            = Ok (i', st', m) ∧ stalledBy i i'.
Proof.
  intros Hstt Hsb Hst Ha Hm. set (st0 := mkWTS 1 _ _ _ _ _ _ _ _).
  assert (Hjr : isDolmaRestricted j = true) by (rewrite (restricted_status i); [apply Hsb|done]).
  destruct (translatePart_answer false st0 j m req) as (f & r' & Hx & Hrf & _ & Htp); [done..|].
  destruct Hm as (? & ? & ? & ? & He & Hrr). rewrite Hx in He. simplify_eq.
  destruct (dataFinish_last x false x1 st0 j) as (st1 & j1 & Hfin & _ & Hst1 & Hf1 & Hc1);
    [done|by apply Hrf|done|].
  unfold translateParts. rewrite (Htp _ _ Hfin), Hrr by by apply restricted_status. cbn -[stallMiss].
  destruct (stall_after i j1) as (i' & -> & Hi'); [done|done|by rewrite Hst1, Hst|done|].
  do 2 eexists. done.
Qed.

Lemma split_miss i j req l h m :
  isSTT cfg = false → stallable i → status j = status i → translationCompleted j = false →
  answered (threadNumber j) m l → answered (threadNumber j) m h →
  misses (threadNumber j) m l ∨ misses (threadNumber j) m h →
  ∃ i' st', translateParts cfg (mkWTS 2 None None true (req_setUnsafe req) (Some (req_setUnsafe l))
              (Some (req_setUnsafe h)) None Read) j m = Ok (i', st', m) ∧ stalledBy i i'.
Proof.
  intros Hstt Hsb Hst Hjc Hal Hah Hm. set (st0 := mkWTS 2 _ _ _ _ _ _ _ _).
  assert (Hjr : isDolmaRestricted j = true) by (rewrite (restricted_status i); [apply Hsb|done]).
  destruct (translatePart_answer false st0 j m l) as (f & r' & Hx & Hrf & Hpa & Htp); [done..|].
  destruct (dataFinish_first f r' st0 j) as (st1 & Hfin & Hs1 & Ho1 & Hf1 & Hl1 & Hh1 & Hm1); [done|done|].
  unfold translateParts. rewrite (Htp _ _ Hfin) by done.
  destruct (req_isRestricted r') eqn:Hrr; cbn -[translatePart stallMiss].
  - rewrite Hs1.
    destruct (translatePart_answer true st1 j m h) as (f2 & r2 & Hx2 & Hrf2 & Hpa2 & Htp2);
      [by unfold partReq; rewrite Hs1, Hh1|done..|].
    assert (Hr2 : req_isRestricted r2 = false).
    { destruct Hm as [(? & ? & ? & ? & He & ?)|(? & ? & ? & ? & He & ?)].
      - rewrite Hx in He. simplify_eq. congruence.
      - rewrite Hx2 in He. by simplify_eq. }
    destruct (dataFinish_last f2 true r2 st1 j) as (st2 & j2 & Hfin2 & _ & Hst2 & Hf2 & Hc2);
      [done|by apply Hrf2| |].
    { rewrite Hs1, Hl1, Hf1. split_and!; [done|by eexists|]. intros ->. by apply Hpa. }
    rewrite (Htp2 _ _ Hfin2) by by rewrite (restricted_status j). rewrite Hr2. cbn -[stallMiss].
    destruct (stall_after i j2) as (i' & -> & Hi'); [done|done|by rewrite Hst2, Hst|done|].
    do 2 eexists. done.
  - destruct (stall_after i j) as (i' & -> & Hi'); [done|done|done|by rewrite Hjc|].
    do 2 eexists. done.
Qed.

Lemma initiateTranslation_miss i req lo hi m :
  isSTT cfg = false → stallable i → (is_Some lo ↔ is_Some hi) → translationCompleted i = false →
  Forall (answered (threadNumber i) m) (parts req lo hi) →
  Exists (misses (threadNumber i) m) (parts req lo hi) →
  ∃ i' st, initiateTranslation cfg req lo hi None Read i m = Ok (i', st, m) ∧ stalledBy i i'.
Proof.
  intros Hstt Hsb Hb Htc Hans Hmiss. unfold initiateTranslation.
  set (i0 := flag_assign TranslationStarted true i).
  destruct (markRequests_restricted i0 req lo hi Hstt) as (j & -> & Hst & Hfl & Hfa & Hth);
    [by rewrite (restricted_status i); [apply Hsb|]|done|].
  assert (Hjc : translationCompleted j = false).
  { unfold translationCompleted, fl in *. rewrite Hfl. unfold i0. dyn_simpl. done. }
  change (threadNumber i0) with (threadNumber i) in Hth. rewrite <-Hth in Hans, Hmiss.
  destruct lo as [l|], hi as [h|]; try (exfalso; destruct Hb as [Hb1 Hb2]; first [by destruct Hb1|by destruct Hb2]).
  - cbn in Hans, Hmiss. apply Forall_cons in Hans as [Hal [Hah _]%Forall_cons].
    eapply split_miss; try done. apply Exists_cons in Hmiss as [Hm|Hm]; [by left|right].
    apply Exists_cons in Hm as [Hm|Hm]; [done|by apply Exists_nil in Hm].
  - cbn in Hans, Hmiss. apply Forall_cons in Hans as [Ha _].
    apply Exists_cons in Hmiss as [Hm|Hm]; [|by apply Exists_nil in Hm].
    by apply whole_miss.
Qed.

Lemma splitRequest_both bs r lo hi :
  splitRequest bs r = Ok (lo, hi) → is_Some lo ↔ is_Some hi.
Proof.
  unfold splitRequest. intros Hs. inv_ok1 Hs. clear E. revert Hs.
  destruct (_ <? _); intros Hs; [|by injection Hs as <- <-].
  destruct (splitOnVaddr _ r) as [[l h]|]; [|done]. injection Hs as <- <-. split; by eexists.
Qed.

(** C33: Delay on miss: when any part of a restricted load misses the TLB, the
    load is stalled and nothing else happens.  The instruction is marked as
    stalled, is not executed and loses the copies kept for a deferred update;
    the load/store queue, the instruction queue, the memory system with its TLB,
    the packets in flight, the other instructions and the pending translations
    are exactly what they were. *)
Theorem delay_on_miss (p : DynInstPtr) (i : DynInst) (addr size flags : Z) (mw : MemWorld M)
    (lo hi : option Request)
    (Hi : w_insts (mw_world mw) !! p = Some i) (Hstt : isSTT cfg = false)
    (Hsb : stallable i) (Hts : translationStarted i = false) (Htc : translationCompleted i = false)
    (Hsplit : splitRequest cacheLineSize (mkRequest addr size flags None false) = Ok (lo, hi))
    (Hans : Forall (answered (threadNumber i) (w_mem (mw_world mw)))
              (parts (mkRequest addr size flags None false) lo hi))
    (Hmiss : Exists (misses (threadNumber i) (w_mem (mw_world mw)))
               (parts (mkRequest addr size flags None false) lo hi)) :
  ∃ f i', initiateMemRead cfg cacheLineSize p addr size flags mw = Ok (f, mw_put p i' mw)
    ∧ isDolmaStalled i' = true ∧ isExecuted i' = isExecuted i ∧ dolmaVirtualReq i' = None.
Proof.
  unfold initiateMemRead, deref. rewrite Hi. set (j := flag_assign ReqMade true i).
  assert (Hj : translationStarted j = false ∧ translationCompleted j = false).
  { unfold j, translationStarted, translationCompleted, fl in *. dyn_simpl. by rewrite !andb_true_r || done. }
  destruct Hj as [Hjs Hjc]. unfold accessRequests. rewrite Hjs, Hsplit.
  destruct (initiateTranslation_miss j _ lo hi _ Hstt (stallable_status i j eq_refl Hsb)
              (splitRequest_both _ _ _ _ Hsplit) Hjc Hans Hmiss) as (i' & st & -> & Hd & He & Hv & Hf).
  rewrite Hd, orb_true_r.
  assert (Hmw : mkMemWorld (w_set_mem (w_mem (mw_world mw)) (mw_world mw)) (mw_pending mw) = mw).
  { by destruct mw as [[] ?]. }
  rewrite Hmw. destruct (translationCompleted i') eqn:Hc'.
  - destruct (Hf eq_refl) as [x Hx]. rewrite Hx. by eauto 10.
  - by eauto 10.
Qed.
End delay.

(** ** The X86 TLB keeps the contract *)

Section tlb_dtb.
Context {T H E : Type} `{PageTrie T H} `{PageTables T H E}.
Variable tcs : ThreadID → ThreadContext.

(** The data TLB with its page tables as the memory system. *)
Definition tlbTranslateTiming (r : Request) (mode : TlbMode) (tid : ThreadID) (m : TLB T H * E)
  : outcome (option Fault * bool * Request * (TLB T H * E)) :=
  let! (x, now) := translateTiming r (tcs tid) mode (fst m) (snd m) in
  Ok (tr_fault x, negb now, tr_req x, (tr_tlb x, tr_env x)).

#[local] Instance tlb_Dtb : Dtb (TLB T H * E) := {| dtb_translateTiming := tlbTranslateTiming |}.

Lemma finalizePhysical_paddr r tc f r' :
  finalizePhysical r tc = Ok (f, r') → is_Some (req_paddr r').
Proof.
  unfold finalizePhysical. destruct (req_paddr r) as [pa|] eqn:Hp; [|done].
  destruct (_ && _); [by intros [= <- <-]; eexists|].
  destruct FullSystem; [|intros [= <- <-]; by eexists].
  destruct (_ && _); [|intros [= <- <-]; by eexists].
  destruct (_ <? 4096); [intros [= <- <-]; by eexists|done].
Qed.

Lemma translateInt_paddr r tc r' :
  translateInt r tc = Ok (None, r') → is_Some (req_paddr r').
Proof.
  unfold translateInt. intros Hx. repeat (case_match; try discriminate);
    simplify_eq; by eexists.
Qed.

Lemma usePage_paddr r va tc m i (t : TLB T H) (env : E) x :
  usePage r va tc m i t env = Ok x → tr_delayed x = false ∧ (tr_fault x = None → is_Some (req_paddr (tr_req x))).
Proof.
  unfold usePage. intros Hx. destruct (tlbEntry i t); [|done].
  destruct (pagingFault _ _ _ _); [by injection Hx as <-|].
  destruct (finalizePhysical _ _) as [[f r']|] eqn:Hf; [|done]. injection Hx as <-. cbn.
  split; [done|]. intros _. by eapply finalizePhysical_paddr.
Qed.

Lemma handleMiss_answer r va tid m timing (t : TLB T H) (env : E) f d t' env' :
  handleMiss r va tid m timing t env = Ok (inl (f, d), t', env') → f = None → d = true.
Proof.
  unfold handleMiss. intros Hx ->. destruct FullSystem.
  - destruct (walker_start r m t env) as [[wf wt] we]. destruct (_ || _); [by simplify_eq|].
    destruct (tlb_lookup _ _ _ _) as [[[j|] ?]|]; by simplify_eq.
  - destruct (match pt_lookup va env with Some _ => _ | None => _ end) as [[pte|] e'] in Hx; [|by simplify_eq].
    destruct (tlb_insert _ _ _) as [[? ?]|]; by simplify_eq.
Qed.

(** Setting flags and addresses keeps the mark. *)
Lemma setFlags_restricted g r : req_isRestricted r = true → req_isRestricted (req_setFlags g r) = true.
Proof.
  unfold req_isRestricted, flags_isSet, req_setFlags. cbn. unfold flags_set.
  rewrite !negb_true_iff, !Z.eqb_neq. intros Hr Hz. apply Hr.
  rewrite Z.land_lor_distr_l in Hz. by apply Z.lor_eq_0_iff in Hz as [? _].
Qed.

Lemma finalizePhysical_restricted r tc f r' :
  finalizePhysical r tc = Ok (f, r') → req_isRestricted r = true → req_isRestricted r' = true.
Proof.
  unfold finalizePhysical. intros Hx Hr. repeat (case_match; try discriminate); simplify_eq; try done;
    by apply (setFlags_restricted _ r).
Qed.

Lemma translateInt_restricted r tc f r' :
  translateInt r tc = Ok (f, r') → req_isRestricted r = true → req_isRestricted r' = true.
Proof.
  unfold translateInt. intros Hx Hr. repeat (case_match; try discriminate); simplify_eq; try done;
    by apply (setFlags_restricted _ r).
Qed.

Lemma usePage_restricted r va tc m i (t : TLB T H) (env : E) x :
  usePage r va tc m i t env = Ok x → req_isRestricted r = true → req_isRestricted (tr_req x) = true.
Proof.
  unfold usePage. intros Hx Hr. destruct (tlbEntry i t) as [e|]; [|done].
  destruct (pagingFault _ _ _ _); [by injection Hx as <-|].
  destruct (finalizePhysical _ _) as [[f r']|] eqn:Hf; [|done]. injection Hx as <-. cbn.
  eapply finalizePhysical_restricted; [done|].
  destruct (te_uncacheable e); [by apply (setFlags_restricted _ (req_setPaddr _ r))|done].
Qed.

(** A restricted translation: at once, and without the mark only with a fault. *)
Lemma translate_restricted_answer r tc m timing (t : TLB T H) (env : E) x :
  req_isRestricted r = true → translate r tc m timing t env = Ok x →
  tr_delayed x = false ∧ (req_isRestricted (tr_req x) = false → is_Some (tr_fault x)).
Proof.
  intros Hr Hx. unfold translate in Hx. rewrite Hr in Hx. cbn [negb] in Hx.
  assert (Hfin : ∀ r0 f r1, finalizePhysical r0 tc = Ok (f, r1) → req_isRestricted r0 = true →
    req_isRestricted r1 = false → is_Some f).
  { intros r0 f r1 Hf Hr0 Hr1. rewrite (finalizePhysical_restricted _ _ _ _ Hf Hr0) in Hr1. done. }
  destruct (segOf r =? SEGMENT_REG_MS).
  { destruct (translateInt r tc) as [[f r']|] eqn:Hf; [|done]. injection Hx as <-. cbn.
    rewrite (translateInt_restricted _ _ _ _ Hf Hr). done. }
  destruct (m5_prot tc).
  2:{ destruct (finalizePhysical _ _) as [[f r']|] eqn:Hf; [|done]. injection Hx as <-. cbn.
      split; [done|]. by eapply Hfin. }
  destruct (negb (m5_longMode tc) && segmentFault r tc m); [by injection Hx as <-|].
  destruct (m5_paging tc).
  2:{ destruct (finalizePhysical _ _) as [[f r']|] eqn:Hf; [|done]. injection Hx as <-. cbn.
      split; [done|]. by eapply Hfin. }
  unfold tlb_lookup in Hx. destruct (trieOf (tidOf tc t) t) as [tr|]; [|done].
  destruct (tr_lookup (linearAddr tc r) tr) as [i|]; [|by injection Hx as <-].
  split; [by apply usePage_paddr in Hx as [? _]|].
  rewrite (usePage_restricted _ _ _ _ _ _ _ _ Hx Hr). done.
Qed.

Lemma translate_paddr r tc m timing (t : TLB T H) (env : E) x :
  translate r tc m timing t env = Ok x → tr_fault x = None → tr_delayed x = false →
  is_Some (req_paddr (tr_req x)).
Proof.
  unfold translate. intros Hx Hf Hd.
  destruct (segOf r =? SEGMENT_REG_MS).
  { destruct (translateInt r tc) as [[f r']|] eqn:Hi; [|done]. injection Hx as <-. cbn in *. subst.
    by eapply translateInt_paddr. }
  destruct (m5_prot tc).
  2:{ destruct (finalizePhysical _ _) as [[f r']|] eqn:Hi; [|done]. injection Hx as <-.
      by eapply finalizePhysical_paddr. }
  destruct (negb (m5_longMode tc) && segmentFault r tc m); [by injection Hx as <-|].
  destruct (m5_paging tc).
  2:{ destruct (finalizePhysical _ _) as [[f r']|] eqn:Hi; [|done]. injection Hx as <-.
      by eapply finalizePhysical_paddr. }
  destruct (tlb_lookup _ _ _ _) as [[[i|] t1]|]; [|destruct (req_isRestricted r)|done].
  - by apply usePage_paddr in Hx as [_ Hx]; apply Hx.
  - by injection Hx as <-.
  - destruct (handleMiss _ _ _ _ _ _ _) as [[[[[f d]|i] t2] env2]|] eqn:Hm; [..|done].
    + injection Hx as <-. cbn in *. subst. by apply handleMiss_answer in Hm.
    + by apply usePage_paddr in Hx as [_ Hx]; apply Hx.
Qed.

#[local] Instance tlb_DtbOk : DtbOk (TLB T H * E).
Proof.
  split; cbn; unfold tlbTranslateTiming, translateTiming.
  - intros r mode tid [t env] f d r' [t' env'] Hr Hx. cbn in Hx.
    destruct (translate _ _ _ _ _ _) as [x|] eqn:Ht; [|done]. injection Hx as <- <- <- <- <-.
    destruct (restricted_translate_frame _ _ _ _ _ _ _ Hr Ht) as [-> ->].
    destruct (translate_restricted_answer _ _ _ _ _ _ _ Hr Ht) as [-> Hf]. done.
  - intros r mode tid [t env] r' [t' env'] Hx. cbn in Hx.
    destruct (translate _ _ _ _ _ _) as [x|] eqn:Ht; [|done]. injection Hx as Hf Hd <- <- <-.
    rewrite negb_involutive in Hd. by eapply translate_paddr.
Qed.
End tlb_dtb.

Module DelayExample.
#[global] Existing Instance SilentExample.Tables.
#[global] Instance Tlb : Dtb (TLB Trie Handle * unit) := tlb_Dtb (λ tid, SilentExample.tc tid true).
#[global] Instance TlbOk : DtbOk (TLB Trie Handle * unit) :=
  tlb_DtbOk (λ tid, SilentExample.tc tid true).
(** A memory that accepts every packet. *)
#[global] Instance Mem : MemSystem (TLB Trie Handle * unit) := {|
  dtb_updateLRU := λ _ _ _ m, m;
  dcache_sendTimingReq := λ r m, (true, r, m);
|}.
#[global] Instance Port : StorePort (TLB Trie Handle * unit) := {|
  dcache_sendWrite := λ _ _ m, (true, m);
  handleIprRead := λ _ m, (0, [], m);
  handleIprWrite := λ _ _ m, m;
|}.
(** A restricted load of eight bytes across the end of the only mapped page. *)
Definition ld : DynInst := status_set ControlRestricted (LsqExample.op [IsLoad] 6).
Definition mode1 : DolmaConfig := mkDolmaConfig true false false false.
Definition world : MemWorld (TLB Trie Handle * unit) :=
  mkMemWorld (mkWorld LsqExample.unit1 IqExample.queue0 {[ 6 := ld ]} (TlbExample.full, tt) ∅ 0 []) ∅.
Definition req : Request := mkRequest 0x1ffc 8 0 None false.
Definition low : Request := mkRequest 0x1ffc 4 0 None false.
Definition high : Request := mkRequest 0x2000 4 0 None false.
End DelayExample.

Lemma splitRequest_exact_witness :
  splitRequest (2 ^ 6) DelayExample.req = Ok (Some DelayExample.low, Some DelayExample.high).
Proof.
  destruct (splitRequest_exact 6 DelayExample.req) as [[H _]|(n & Hn & H & _)]; cbn; try lia; try done.
Defined.

Lemma delay_on_miss_witness :
  ∃ f i', initiateMemRead DelayExample.mode1 64 6 0x1ffc 8 0 DelayExample.world
          = Ok (f, mw_put 6 i' DelayExample.world)
    ∧ isDolmaStalled i' = true ∧ isExecuted i' = isExecuted DelayExample.ld
    ∧ dolmaVirtualReq i' = None.
Proof.
  apply (delay_on_miss DelayExample.mode1 64 6 DelayExample.ld 0x1ffc 8 0 DelayExample.world
           (Some DelayExample.low) (Some DelayExample.high)); try reflexivity.
  - by split.
  - constructor; [|constructor; [|constructor]]; eexists; vm_compute; reflexivity.
  - apply Exists_cons_tl, Exists_cons_hd. do 4 eexists. split; [vm_compute; reflexivity|reflexivity].
Defined.
