(* ===== verification/Lsq.v ===== *)
(** * The load/store queue of all threads

    [LSQ] ([cpu/o3/lsq.hh], [cpu/o3/lsq_impl.hh]): one [LSQUnit] per hardware
    thread, the sharing policy, and the calls that go to the unit of a thread or
    to the units of all active threads.  The operations of a unit work on the
    world of [LsqUnit]; here its unit is the one being served.

    [sqFull()] and [sqFull(tid)] call each other: they carry a bound on the depth
    of the calls, and [sqFull_diverges] shows that under the dynamic policy no
    bound is enough. *)

From S2P Require Import Prelude Regs Config DynInst Metadata Rob InstQueue LsqUnit.

Local Open Scope Z_scope.

Record LSQ := mkLSQ {
  lsqPolicy : ROBPolicy; (** the same three sharing policies *)
  ls_LQEntries : Z;
  ls_SQEntries : Z;
  maxLQEntries : Z;
  maxSQEntries : Z;
  ls_numThreads : nat;
  ls_activeThreads : list ThreadID;
  ls_thread : list LSQUnit;
}.

Definition set_ls_thread (v : list LSQUnit) (l : LSQ) : LSQ :=
  mkLSQ (lsqPolicy l) (ls_LQEntries l) (ls_SQEntries l) (maxLQEntries l) (maxSQEntries l)
    (ls_numThreads l) (ls_activeThreads l) v.

(** [Impl::MaxThreads] *)
Definition MaxThreads : nat := 4.

(** The constructor; [policy] is the lower-cased parameter string, [mkUnit] makes
    [LSQUnit::init]'s unit of a thread from its queue sizes. *)
Definition newLSQ (policy : string) (lq sq threshold : Z) (threads : nat)
    (active : list ThreadID) (mkUnit : Z → Z → ThreadID → outcome LSQUnit) : outcome LSQ :=
  assert! (0 <? threads)%nat && (threads <=? MaxThreads)%nat as "numThreads > 0 && numThreads <= Impl::MaxThreads" in
  let! (pol, maxl, maxs) :=
    if (policy =? "dynamic")%string then Ok (Dynamic, lq, sq)
    else if (policy =? "partitioned")%string
         then Ok (Partitioned, lq / Z.of_nat threads, sq / Z.of_nat threads)
    else if (policy =? "threshold")%string then
      assert! lq <? threshold as "params->smtLSQThreshold > LQEntries" in
      assert! sq <? threshold as "params->smtLSQThreshold > SQEntries" in
      Ok (Threshold, threshold, threshold)
    else Err (Assertion "Invalid LSQ Sharing Policy") in
  let! us := foldM (λ us tid, let! u := mkUnit maxl maxs tid in Ok (us ++ [u]))
               (seq 0 threads) [] in
  Ok (mkLSQ pol lq sq maxl maxs threads active us).

(** [thread[tid]] *)
Definition unitOf (tid : ThreadID) (l : LSQ) : outcome LSQUnit :=
  vec_get "thread" (ls_thread l) (Z.of_nat tid).
Definition setUnit (tid : ThreadID) (u : LSQUnit) (l : LSQ) : outcome LSQ :=
  let! v := vec_set "thread" (ls_thread l) (Z.of_nat tid) u in Ok (set_ls_thread v l).
Definition modUnit (tid : ThreadID) (f : LSQUnit → outcome LSQUnit) (l : LSQ) : outcome LSQ :=
  let! u := unitOf tid l in let! u := f u in setUnit tid u l.

(** A loop over the active threads. *)
Definition eachActive {S : Type} (f : S → ThreadID → outcome S) (l : LSQ) (s : S) : outcome S :=
  foldM f (ls_activeThreads l) s.

(** [for (...) if (!p(thread[tid])) return false; return true;] and its dual,
    and the sums. *)
Definition allActive (p : LSQUnit → outcome bool) (l : LSQ) : outcome bool :=
  eachActive (λ (b : bool) tid, if b then let! u := unitOf tid l in p u else Ok false) l true.
Definition anyActive (p : LSQUnit → outcome bool) (l : LSQ) : outcome bool :=
  eachActive (λ (b : bool) tid, if b then Ok true else let! u := unitOf tid l in p u) l false.
Definition sumActive (f : LSQUnit → Z) (l : LSQ) : outcome Z :=
  eachActive (λ n tid, let! u := unitOf tid l in Ok (wrap 32 (n + f u))) l 0.

(** ** Queries *)

Definition ls_getCount : LSQ → outcome Z := sumActive lsq_getCount.
Definition numLoads : LSQ → outcome Z := sumActive loads.
Definition numStores : LSQ → outcome Z := sumActive stores.
Definition ls_numFreeLoadEntries : LSQ → outcome Z := sumActive numFreeLoadEntries.
Definition ls_numFreeStoreEntries : LSQ → outcome Z := sumActive numFreeStoreEntries.

Definition ls_isFull : LSQ → outcome bool := allActive (λ u, Ok (lqFull u || sqFull u)).
Definition ls_isFullOf (tid : ThreadID) (l : LSQ) : outcome bool :=
  if bool_decide (lsqPolicy l = Dynamic) then ls_isFull l
  else let! u := unitOf tid l in Ok (lqFull u || sqFull u).
Definition ls_lqEmpty : LSQ → outcome bool := allActive (λ u, Ok (lqEmpty u)).
Definition ls_sqEmpty : LSQ → outcome bool := allActive (λ u, Ok (sqEmpty u)).
Definition ls_isEmpty (l : LSQ) : outcome bool :=
  let! a := ls_lqEmpty l in if a then ls_sqEmpty l else Ok false.
Definition ls_isDrained (l : LSQ) : outcome bool :=
  let! a := ls_lqEmpty l in let! b := ls_sqEmpty l in Ok (a && b).

Definition ls_lqFull : LSQ → outcome bool := allActive (λ u, Ok (lqFull u)).
Definition ls_lqFullOf (tid : ThreadID) (l : LSQ) : outcome bool :=
  if bool_decide (lsqPolicy l = Dynamic) then ls_lqFull l
  else let! u := unitOf tid l in Ok (lqFull u).

(** [sqFull()] calls [sqFull(tid)] for each active thread, which calls
    [sqFull()] under the dynamic policy. *)
Fixpoint ls_sqFull (depth : nat) (l : LSQ) : outcome bool :=
  match depth with
  | O => Err (NoFuel "LSQ::sqFull")
  | S d =>
      eachActive (λ (b : bool) tid,
        if b then
          if bool_decide (lsqPolicy l = Dynamic) then ls_sqFull d l
          else let! u := unitOf tid l in Ok (sqFull u)
        else Ok false) l true
  end.
Definition ls_sqFullOf (depth : nat) (tid : ThreadID) (l : LSQ) : outcome bool :=
  if bool_decide (lsqPolicy l = Dynamic) then ls_sqFull depth l
  else let! u := unitOf tid l in Ok (sqFull u).

Definition ls_isStalled : LSQ → outcome bool := allActive (λ u, Ok (stalled u)).
Definition ls_isStalledOf (tid : ThreadID) (l : LSQ) : outcome bool :=
  if bool_decide (lsqPolicy l = Dynamic) then ls_isStalled l
  else let! u := unitOf tid l in Ok (stalled u).
Definition ls_hasStoresToWB : LSQ → outcome bool := anyActive (λ u, Ok (hasStoresToWB u)).
Definition ls_willWB : LSQ → outcome bool := anyActive willWB.
Definition ls_violation : LSQ → outcome bool :=
  anyActive (λ u, Ok (bool_decide (is_Some (memDepViolator u)))).
Definition ls_violationOf (tid : ThreadID) (l : LSQ) : outcome bool :=
  let! u := unitOf tid l in Ok (bool_decide (is_Some (memDepViolator u))).

(** ** Sizes *)

Definition ls_entryAmount (num_threads : nat) (l : LSQ) : Z :=
  if bool_decide (lsqPolicy l = Partitioned) then ls_LQEntries l / Z.of_nat num_threads else 0.
Definition resizeEntries (size : Z) (tid : ThreadID) (l : LSQ) : outcome LSQ :=
  modUnit tid (λ u, let! u := resizeLQ size u in resizeSQ size u) l.
Definition ls_resetEntries (l : LSQ) : outcome LSQ :=
  if bool_decide (lsqPolicy l ≠ Dynamic) || (1 <? ls_numThreads l)%nat then
    let active := Z.of_nat (length (ls_activeThreads l)) in
    let size := if bool_decide (lsqPolicy l = Partitioned) then ls_LQEntries l / active
                else ls_LQEntries l in
    eachActive (λ l tid, resizeEntries size tid l) l l
  else Ok l.
Definition removeEntries (tid : ThreadID) (l : LSQ) : outcome LSQ :=
  modUnit tid (λ u, Ok (clearSQ (clearLQ u))) l.
Definition ls_tick (l : LSQ) : outcome LSQ :=
  eachActive (λ l tid, modUnit tid (λ u, Ok (lsq_tick u)) l) l l.
Definition ls_takeOverFrom (shift : Z) (l : LSQ) : outcome LSQ :=
  foldM (λ l tid, modUnit tid (λ u, Ok (lsq_takeOverFrom shift u)) l)
    (seq 0 (ls_numThreads l)) l.
Definition ls_drainSanityCheck (l : LSQ) : outcome () :=
  let! d := ls_isDrained l in
  assert! d as "isDrained()" in
  foldM (λ _ tid, let! u := unitOf tid l in lsq_drainSanityCheck u) (seq 0 (ls_numThreads l)) tt.

(** ** Calls of a unit *)

Section calls.
Context {M : Type}.

(** Runs an operation of the unit of [tid]. *)
Definition withUnit {A : Type} (tid : ThreadID) (f : World M → outcome (A * World M))
    (l : LSQ) (w : World M) : outcome (A * LSQ * World M) :=
  let! u := unitOf tid l in
  let! (a, w) := f (w_set_lsq u w) in
  let! l := setUnit tid (w_lsq w) l in
  Ok (a, l, w).

Definition inUnit (tid : ThreadID) (f : World M → outcome (World M)) (lw : LSQ * World M)
  : outcome (LSQ * World M) :=
  let! (_, l, w) := withUnit tid (λ w, let! w := f w in Ok (tt, w)) (fst lw) (snd lw) in
  Ok (l, w).

(** A queue operation that also updates the instructions. *)
Definition onQueue (f : LSQUnit → store → outcome (LSQUnit * store)) (w : World M)
  : outcome (World M) :=
  let! (u, s) := f (w_lsq w) (w_insts w) in Ok (w_set_insts s (w_set_lsq u w)).

Definition ls_insertLoad (p : DynInstPtr) (lw : LSQ * World M) : outcome (LSQ * World M) :=
  let! i := deref p (w_insts (snd lw)) in
  inUnit (threadNumber i) (onQueue (lsq_insertLoad p)) lw.
Definition ls_insertStore (p : DynInstPtr) (lw : LSQ * World M) : outcome (LSQ * World M) :=
  let! i := deref p (w_insts (snd lw)) in
  inUnit (threadNumber i) (onQueue (lsq_insertStore p)) lw.
Definition ls_commitLoads (sn : InstSeqNum) (tid : ThreadID) (lw : LSQ * World M)
  : outcome (LSQ * World M) :=
  inUnit tid (λ w, let! u := commitLoads sn (w_lsq w) (w_insts w) in Ok (w_set_lsq u w)) lw.
Definition ls_commitStores (sn : InstSeqNum) (tid : ThreadID) (lw : LSQ * World M)
  : outcome (LSQ * World M) :=
  inUnit tid (λ w, let! u := commitStores sn (w_lsq w) (w_insts w) in Ok (w_set_lsq u w)) lw.
Definition ls_squash (sn : InstSeqNum) (tid : ThreadID) (lw : LSQ * World M)
  : outcome (LSQ * World M) :=
  inUnit tid (onQueue (lsq_squash sn)) lw.
Definition ls_getMemDepViolator (tid : ThreadID) (l : LSQ) : outcome (option DynInstPtr * LSQ) :=
  let! u := unitOf tid l in
  let (v, u) := getMemDepViolator u in
  let! l := setUnit tid u l in Ok (v, l).
Definition ls_checkSnoop (addr : Addr) (l : LSQ) (w : World M) : outcome (World M) :=
  let! s := foldM (λ s tid, let! u := unitOf tid l in checkSnoop addr u s)
              (seq 0 (ls_numThreads l)) (w_insts w) in
  Ok (w_set_insts s w).

Context `{MemSystem M} `{StorePort M}.
Variable cfg : DolmaConfig.
Variable completeAcc : Packet → DynInst → DynInst.
Variable initiateAcc : DynInstPtr → World M → outcome (option Fault * World M).

Definition ls_executeLoad (p : DynInstPtr) (l : LSQ) (w : World M)
  : outcome (option Fault * LSQ * World M) :=
  let! i := deref p (w_insts w) in
  withUnit (threadNumber i) (executeLoad cfg initiateAcc p) l w.
Definition ls_executeStore (p : DynInstPtr) (l : LSQ) (w : World M)
  : outcome (option Fault * LSQ * World M) :=
  let! i := deref p (w_insts w) in
  withUnit (threadNumber i) (executeStore cfg initiateAcc p) l w.
Definition ls_writebackStores (l : LSQ) (w : World M) : outcome (LSQ * World M) :=
  eachActive (λ lw tid, inUnit tid writebackStores lw) l (l, w).

(** [tid] is the thread of the request's context. *)
Definition ls_read (tid : ThreadID) (req : Request) (lo hi : option Request) (load_idx : Z)
    (l : LSQ) (w : World M) : outcome (option Fault * LSQ * World M) :=
  withUnit tid (lsq_read cfg req lo hi load_idx) l w.
Definition ls_write (tid : ThreadID) (req : Request) (lo hi : option Request) (data : list Z)
    (store_idx : Z) (l : LSQ) : outcome LSQ :=
  modUnit tid (lsq_write req lo hi data store_idx) l.

Definition recvReqRetry (l : LSQ) (w : World M) : outcome (LSQ * World M) :=
  let w := w_set_iq (cacheUnblocked (w_iq w)) w in
  eachActive (λ lw tid, inUnit tid recvRetry lw) l (l, w).

(** [invalidate] is [pkt->isInvalidate()], [addr] the packet's address. *)
Definition recvTimingResp (tid : ThreadID) (pkt : Packet) (addr : Addr) (invalidate : bool)
    (l : LSQ) (w : World M) : outcome (LSQ * World M) :=
  let! (l, w) := inUnit tid (completeDataAccess completeAcc pkt) (l, w) in
  if invalidate then let! w := ls_checkSnoop addr l w in Ok (l, w) else Ok (l, w).
Definition recvTimingSnoopReq (addr : Addr) (invalidate : bool) (l : LSQ) (w : World M)
  : outcome (World M) :=
  if invalidate then ls_checkSnoop addr l w else Ok w.
End calls.

(** ** The recursion of [sqFull] *)

(** Under the dynamic policy [LSQ::sqFull()] and [LSQ::sqFull(tid)] never
    return while a thread is active: however deep the calls may nest, the
    outermost one has not been answered.  (With the other policies one level is
    enough.) *)
Theorem sqFull_diverges (l : LSQ) (depth : nat)
    (Hdyn : lsqPolicy l = Dynamic) (Hactive : ls_activeThreads l ≠ []) :
  ls_sqFull depth l = Err (NoFuel "LSQ::sqFull").
Proof.
  induction depth as [|d IH]; [done|]. cbn. unfold eachActive.
  destruct (ls_activeThreads l) as [|t ts]; [done|]. cbn.
  rewrite bool_decide_true by done. by rewrite IH.
Qed.

Module LsqDispatchExample.
(** One active thread; its unit is never looked at. *)
Definition dynamic : LSQ := mkLSQ Dynamic 32 32 32 32 1 [0%nat] [].
End LsqDispatchExample.

Lemma sqFull_diverges_witness :
  ls_sqFull 1000 LsqDispatchExample.dynamic = Err (NoFuel "LSQ::sqFull").
Proof. by apply (sqFull_diverges LsqDispatchExample.dynamic 1000). Defined.
