(* ===== verification/Iew.v ===== *)
(** * The issue, execute and writeback stage

    [DefaultIEW] ([cpu/o3/iew.hh], [cpu/o3/iew_impl.hh]): dispatch of renamed
    instructions to the instruction queue and the load/store queue through the
    skid buffer, execution of what the instruction queue issued, DOLMA's handling
    of redirects by restricted instructions and of contention for the writeback
    ports, writeback, and the stage's cycle.

    A time buffer is the list of its slots from the current cycle on; the wire to
    commit is slot 0 of [iewQueue].  What commit and rename send is an argument
    of the cycle.  The load/store queue reports to this stage through the calls
    logged in its world, which are run in order when the operation returns
    ([runCalls]); calls that concern the event queue or the register file stay in
    [sg_events].  What belongs to the instruction set (the next PC, whether a
    branch was mispredicted, execution) is a parameter.  Statistics, probes and
    the activity recorder are left out. *)

From S2P Require Import Prelude Regs Config DynInst Metadata Rob StoreSet DepGraph FUPool.
From S2P Require Import MemDepUnit InstQueue Rename LsqUnit Lsq.

Local Open Scope Z_scope.

(** ** Data *)

Inductive StageStatus : Type :=
  | StRunning | StBlocked | StIdle | StStartSquash | StSquashing | StUnblocking.
#[export] Instance StageStatus_eq_dec : EqDecision StageStatus.
Proof. solve_decision. Defined.

(** What commit tells this stage about a thread. *)
Record CommitComm := mkCommitComm {
  cc_squash : bool;
  cc_robSquashing : bool;
  cc_doneSeqNum : InstSeqNum;
  cc_nonSpecSeqNum : InstSeqNum;
  cc_strictlyOrdered : bool;
  cc_strictlyOrderedLoad : option DynInstPtr;
}.

Record IEWStruct := mkIEWStruct {
  ic_insts : list (option DynInstPtr); (** [insts[MaxWidth]] *)
  ic_size : Z;
  ic_mispredictInst : ThreadID → option DynInstPtr;
  ic_squashedSeqNum : ThreadID → InstSeqNum;
  ic_pc : ThreadID → Addr;
  ic_squash : ThreadID → bool;
  ic_branchTaken : ThreadID → bool;
  ic_includeSquashInst : ThreadID → bool;
}.

Definition set_ic_insts (v : list (option DynInstPtr)) (b : IEWStruct) : IEWStruct :=
  mkIEWStruct v (ic_size b) (ic_mispredictInst b) (ic_squashedSeqNum b) (ic_pc b)
    (ic_squash b) (ic_branchTaken b) (ic_includeSquashInst b).
Definition set_ic_size (v : Z) (b : IEWStruct) : IEWStruct :=
  mkIEWStruct (ic_insts b) v (ic_mispredictInst b) (ic_squashedSeqNum b) (ic_pc b)
    (ic_squash b) (ic_branchTaken b) (ic_includeSquashInst b).
Definition set_ic_mispredictInst (v : ThreadID → option DynInstPtr) (b : IEWStruct) : IEWStruct :=
  mkIEWStruct (ic_insts b) (ic_size b) v (ic_squashedSeqNum b) (ic_pc b) (ic_squash b)
    (ic_branchTaken b) (ic_includeSquashInst b).
Definition set_ic_squashedSeqNum (v : ThreadID → InstSeqNum) (b : IEWStruct) : IEWStruct :=
  mkIEWStruct (ic_insts b) (ic_size b) (ic_mispredictInst b) v (ic_pc b) (ic_squash b)
    (ic_branchTaken b) (ic_includeSquashInst b).
Definition set_ic_pc (v : ThreadID → Addr) (b : IEWStruct) : IEWStruct :=
  mkIEWStruct (ic_insts b) (ic_size b) (ic_mispredictInst b) (ic_squashedSeqNum b) v
    (ic_squash b) (ic_branchTaken b) (ic_includeSquashInst b).
Definition set_ic_squash (v : ThreadID → bool) (b : IEWStruct) : IEWStruct :=
  mkIEWStruct (ic_insts b) (ic_size b) (ic_mispredictInst b) (ic_squashedSeqNum b)
    (ic_pc b) v (ic_branchTaken b) (ic_includeSquashInst b).
Definition set_ic_branchTaken (v : ThreadID → bool) (b : IEWStruct) : IEWStruct :=
  mkIEWStruct (ic_insts b) (ic_size b) (ic_mispredictInst b) (ic_squashedSeqNum b)
    (ic_pc b) (ic_squash b) v (ic_includeSquashInst b).
Definition set_ic_includeSquashInst (v : ThreadID → bool) (b : IEWStruct) : IEWStruct :=
  mkIEWStruct (ic_insts b) (ic_size b) (ic_mispredictInst b) (ic_squashedSeqNum b)
    (ic_pc b) (ic_squash b) (ic_branchTaken b) v.

Record IewToRename := mkIewToRename {
  freeIQEntries : ThreadID → Z;
  freeLQEntries : ThreadID → Z;
  freeSQEntries : ThreadID → Z;
  dispatchedToLQ : ThreadID → Z;
  dispatchedToSQ : ThreadID → Z;
  iqCount : ThreadID → Z;
  ldstqCount : ThreadID → Z;
  dispatched : ThreadID → Z;
  usedIQ : ThreadID → bool;
  usedLSQ : ThreadID → bool;
  iewBlock : ThreadID → bool;
  iewUnblock : ThreadID → bool;
}.

Definition set_freeIQEntries (v : ThreadID → Z) (r : IewToRename) : IewToRename :=
  mkIewToRename v (freeLQEntries r) (freeSQEntries r) (dispatchedToLQ r)
    (dispatchedToSQ r) (iqCount r) (ldstqCount r) (dispatched r) (usedIQ r)
    (usedLSQ r) (iewBlock r) (iewUnblock r).
Definition set_freeLQEntries (v : ThreadID → Z) (r : IewToRename) : IewToRename :=
  mkIewToRename (freeIQEntries r) v (freeSQEntries r) (dispatchedToLQ r)
    (dispatchedToSQ r) (iqCount r) (ldstqCount r) (dispatched r) (usedIQ r)
    (usedLSQ r) (iewBlock r) (iewUnblock r).
Definition set_freeSQEntries (v : ThreadID → Z) (r : IewToRename) : IewToRename :=
  mkIewToRename (freeIQEntries r) (freeLQEntries r) v (dispatchedToLQ r)
    (dispatchedToSQ r) (iqCount r) (ldstqCount r) (dispatched r) (usedIQ r)
    (usedLSQ r) (iewBlock r) (iewUnblock r).
Definition set_dispatchedToLQ (v : ThreadID → Z) (r : IewToRename) : IewToRename :=
  mkIewToRename (freeIQEntries r) (freeLQEntries r) (freeSQEntries r) v (dispatchedToSQ r)
    (iqCount r) (ldstqCount r) (dispatched r) (usedIQ r) (usedLSQ r)
    (iewBlock r) (iewUnblock r).
Definition set_dispatchedToSQ (v : ThreadID → Z) (r : IewToRename) : IewToRename :=
  mkIewToRename (freeIQEntries r) (freeLQEntries r) (freeSQEntries r) (dispatchedToLQ r) v
    (iqCount r) (ldstqCount r) (dispatched r) (usedIQ r) (usedLSQ r)
    (iewBlock r) (iewUnblock r).
Definition set_iqCount (v : ThreadID → Z) (r : IewToRename) : IewToRename :=
  mkIewToRename (freeIQEntries r) (freeLQEntries r) (freeSQEntries r) (dispatchedToLQ r)
    (dispatchedToSQ r) v (ldstqCount r) (dispatched r) (usedIQ r) (usedLSQ r)
    (iewBlock r) (iewUnblock r).
Definition set_ldstqCount (v : ThreadID → Z) (r : IewToRename) : IewToRename :=
  mkIewToRename (freeIQEntries r) (freeLQEntries r) (freeSQEntries r) (dispatchedToLQ r)
    (dispatchedToSQ r) (iqCount r) v (dispatched r) (usedIQ r) (usedLSQ r)
    (iewBlock r) (iewUnblock r).
Definition set_dispatched (v : ThreadID → Z) (r : IewToRename) : IewToRename :=
  mkIewToRename (freeIQEntries r) (freeLQEntries r) (freeSQEntries r) (dispatchedToLQ r)
    (dispatchedToSQ r) (iqCount r) (ldstqCount r) v (usedIQ r) (usedLSQ r)
    (iewBlock r) (iewUnblock r).
Definition set_usedIQ (v : ThreadID → bool) (r : IewToRename) : IewToRename :=
  mkIewToRename (freeIQEntries r) (freeLQEntries r) (freeSQEntries r) (dispatchedToLQ r)
    (dispatchedToSQ r) (iqCount r) (ldstqCount r) (dispatched r) v (usedLSQ r)
    (iewBlock r) (iewUnblock r).
Definition set_usedLSQ (v : ThreadID → bool) (r : IewToRename) : IewToRename :=
  mkIewToRename (freeIQEntries r) (freeLQEntries r) (freeSQEntries r) (dispatchedToLQ r)
    (dispatchedToSQ r) (iqCount r) (ldstqCount r) (dispatched r) (usedIQ r) v
    (iewBlock r) (iewUnblock r).
Definition set_iewBlock (v : ThreadID → bool) (r : IewToRename) : IewToRename :=
  mkIewToRename (freeIQEntries r) (freeLQEntries r) (freeSQEntries r) (dispatchedToLQ r)
    (dispatchedToSQ r) (iqCount r) (ldstqCount r) (dispatched r) (usedIQ r)
    (usedLSQ r) v (iewUnblock r).
Definition set_iewUnblock (v : ThreadID → bool) (r : IewToRename) : IewToRename :=
  mkIewToRename (freeIQEntries r) (freeLQEntries r) (freeSQEntries r) (dispatchedToLQ r)
    (dispatchedToSQ r) (iqCount r) (ldstqCount r) (dispatched r) (usedIQ r)
    (usedLSQ r) (iewBlock r) v.

Record IEW := mkIEW {
  iew_active : bool; (** [_status] *)
  dispatchStatus : ThreadID → StageStatus;
  exeStatus : StageStatus;
  wbStatus : StageStatus;
  iew_insts : ThreadID → list DynInstPtr; (** [insts], the front first *)
  skidBuffer : ThreadID → list DynInstPtr;
  fetchRedirect : ThreadID → bool;
  updatedQueues : bool;
  wroteToTimeBuffer : bool;
  updateLSQNextCycle : bool;
  wbNumInst : Z;
  wbCycle : Z;
  iewQueue : list IEWStruct; (** cycle 0 is [toCommit] *)
  toRename : IewToRename; (** also [toFetch] *)
  issued : list Z; (** the sizes two cycles ago and before, newest first *)
  issueToExecuteDelay : nat;
  dispatchWidth : nat;
  wbWidth : Z;
  skidBufferMax : nat;
  iew_numThreads : nat;
  iew_activeThreads : list ThreadID;
}.

Definition set_iew_active (v : bool) (x : IEW) : IEW :=
  mkIEW v (dispatchStatus x) (exeStatus x) (wbStatus x) (iew_insts x)
    (skidBuffer x) (fetchRedirect x) (updatedQueues x) (wroteToTimeBuffer x)
    (updateLSQNextCycle x) (wbNumInst x) (wbCycle x) (iewQueue x) (toRename x)
    (issued x) (issueToExecuteDelay x) (dispatchWidth x) (wbWidth x)
    (skidBufferMax x) (iew_numThreads x) (iew_activeThreads x).
Definition set_dispatchStatus (v : ThreadID → StageStatus) (x : IEW) : IEW :=
  mkIEW (iew_active x) v (exeStatus x) (wbStatus x) (iew_insts x) (skidBuffer x)
    (fetchRedirect x) (updatedQueues x) (wroteToTimeBuffer x)
    (updateLSQNextCycle x) (wbNumInst x) (wbCycle x) (iewQueue x) (toRename x)
    (issued x) (issueToExecuteDelay x) (dispatchWidth x) (wbWidth x)
    (skidBufferMax x) (iew_numThreads x) (iew_activeThreads x).
Definition set_exeStatus (v : StageStatus) (x : IEW) : IEW :=
  mkIEW (iew_active x) (dispatchStatus x) v (wbStatus x) (iew_insts x)
    (skidBuffer x) (fetchRedirect x) (updatedQueues x) (wroteToTimeBuffer x)
    (updateLSQNextCycle x) (wbNumInst x) (wbCycle x) (iewQueue x) (toRename x)
    (issued x) (issueToExecuteDelay x) (dispatchWidth x) (wbWidth x)
    (skidBufferMax x) (iew_numThreads x) (iew_activeThreads x).
Definition set_wbStatus (v : StageStatus) (x : IEW) : IEW :=
  mkIEW (iew_active x) (dispatchStatus x) (exeStatus x) v (iew_insts x)
    (skidBuffer x) (fetchRedirect x) (updatedQueues x) (wroteToTimeBuffer x)
    (updateLSQNextCycle x) (wbNumInst x) (wbCycle x) (iewQueue x) (toRename x)
    (issued x) (issueToExecuteDelay x) (dispatchWidth x) (wbWidth x)
    (skidBufferMax x) (iew_numThreads x) (iew_activeThreads x).
Definition set_iew_insts (v : ThreadID → list DynInstPtr) (x : IEW) : IEW :=
  mkIEW (iew_active x) (dispatchStatus x) (exeStatus x) (wbStatus x) v
    (skidBuffer x) (fetchRedirect x) (updatedQueues x) (wroteToTimeBuffer x)
    (updateLSQNextCycle x) (wbNumInst x) (wbCycle x) (iewQueue x) (toRename x)
    (issued x) (issueToExecuteDelay x) (dispatchWidth x) (wbWidth x)
    (skidBufferMax x) (iew_numThreads x) (iew_activeThreads x).
Definition set_skidBuffer (v : ThreadID → list DynInstPtr) (x : IEW) : IEW :=
  mkIEW (iew_active x) (dispatchStatus x) (exeStatus x) (wbStatus x) (iew_insts x)
    v (fetchRedirect x) (updatedQueues x) (wroteToTimeBuffer x)
    (updateLSQNextCycle x) (wbNumInst x) (wbCycle x) (iewQueue x) (toRename x)
    (issued x) (issueToExecuteDelay x) (dispatchWidth x) (wbWidth x)
    (skidBufferMax x) (iew_numThreads x) (iew_activeThreads x).
Definition set_fetchRedirect (v : ThreadID → bool) (x : IEW) : IEW :=
  mkIEW (iew_active x) (dispatchStatus x) (exeStatus x) (wbStatus x) (iew_insts x)
    (skidBuffer x) v (updatedQueues x) (wroteToTimeBuffer x)
    (updateLSQNextCycle x) (wbNumInst x) (wbCycle x) (iewQueue x) (toRename x)
    (issued x) (issueToExecuteDelay x) (dispatchWidth x) (wbWidth x)
    (skidBufferMax x) (iew_numThreads x) (iew_activeThreads x).
Definition set_updatedQueues (v : bool) (x : IEW) : IEW :=
  mkIEW (iew_active x) (dispatchStatus x) (exeStatus x) (wbStatus x) (iew_insts x)
    (skidBuffer x) (fetchRedirect x) v (wroteToTimeBuffer x)
    (updateLSQNextCycle x) (wbNumInst x) (wbCycle x) (iewQueue x) (toRename x)
    (issued x) (issueToExecuteDelay x) (dispatchWidth x) (wbWidth x)
    (skidBufferMax x) (iew_numThreads x) (iew_activeThreads x).
Definition set_wroteToTimeBuffer (v : bool) (x : IEW) : IEW :=
  mkIEW (iew_active x) (dispatchStatus x) (exeStatus x) (wbStatus x) (iew_insts x)
    (skidBuffer x) (fetchRedirect x) (updatedQueues x) v
    (updateLSQNextCycle x) (wbNumInst x) (wbCycle x) (iewQueue x) (toRename x)
    (issued x) (issueToExecuteDelay x) (dispatchWidth x) (wbWidth x)
    (skidBufferMax x) (iew_numThreads x) (iew_activeThreads x).
Definition set_updateLSQNextCycle (v : bool) (x : IEW) : IEW :=
  mkIEW (iew_active x) (dispatchStatus x) (exeStatus x) (wbStatus x) (iew_insts x)
    (skidBuffer x) (fetchRedirect x) (updatedQueues x) (wroteToTimeBuffer x) v
    (wbNumInst x) (wbCycle x) (iewQueue x) (toRename x) (issued x)
    (issueToExecuteDelay x) (dispatchWidth x) (wbWidth x) (skidBufferMax x)
    (iew_numThreads x) (iew_activeThreads x).
Definition set_wbNumInst (v : Z) (x : IEW) : IEW :=
  mkIEW (iew_active x) (dispatchStatus x) (exeStatus x) (wbStatus x) (iew_insts x)
    (skidBuffer x) (fetchRedirect x) (updatedQueues x) (wroteToTimeBuffer x)
    (updateLSQNextCycle x) v (wbCycle x) (iewQueue x) (toRename x) (issued x)
    (issueToExecuteDelay x) (dispatchWidth x) (wbWidth x) (skidBufferMax x)
    (iew_numThreads x) (iew_activeThreads x).
Definition set_wbCycle (v : Z) (x : IEW) : IEW :=
  mkIEW (iew_active x) (dispatchStatus x) (exeStatus x) (wbStatus x) (iew_insts x)
    (skidBuffer x) (fetchRedirect x) (updatedQueues x) (wroteToTimeBuffer x)
    (updateLSQNextCycle x) (wbNumInst x) v (iewQueue x) (toRename x)
    (issued x) (issueToExecuteDelay x) (dispatchWidth x) (wbWidth x)
    (skidBufferMax x) (iew_numThreads x) (iew_activeThreads x).
Definition set_iewQueue (v : list IEWStruct) (x : IEW) : IEW :=
  mkIEW (iew_active x) (dispatchStatus x) (exeStatus x) (wbStatus x) (iew_insts x)
    (skidBuffer x) (fetchRedirect x) (updatedQueues x) (wroteToTimeBuffer x)
    (updateLSQNextCycle x) (wbNumInst x) (wbCycle x) v (toRename x) (issued x)
    (issueToExecuteDelay x) (dispatchWidth x) (wbWidth x) (skidBufferMax x)
    (iew_numThreads x) (iew_activeThreads x).
Definition set_toRename (v : IewToRename) (x : IEW) : IEW :=
  mkIEW (iew_active x) (dispatchStatus x) (exeStatus x) (wbStatus x) (iew_insts x)
    (skidBuffer x) (fetchRedirect x) (updatedQueues x) (wroteToTimeBuffer x)
    (updateLSQNextCycle x) (wbNumInst x) (wbCycle x) (iewQueue x) v (issued x)
    (issueToExecuteDelay x) (dispatchWidth x) (wbWidth x) (skidBufferMax x)
    (iew_numThreads x) (iew_activeThreads x).
Definition set_issued (v : list Z) (x : IEW) : IEW :=
  mkIEW (iew_active x) (dispatchStatus x) (exeStatus x) (wbStatus x) (iew_insts x)
    (skidBuffer x) (fetchRedirect x) (updatedQueues x) (wroteToTimeBuffer x)
    (updateLSQNextCycle x) (wbNumInst x) (wbCycle x) (iewQueue x) (toRename x)
    v (issueToExecuteDelay x) (dispatchWidth x) (wbWidth x) (skidBufferMax x)
    (iew_numThreads x) (iew_activeThreads x).

(** [toCommit->...] *)
Definition toCommit (x : IEW) : outcome IEWStruct := vec_get "iewQueue" (iewQueue x) 0.
Definition setToCommit (f : IEWStruct → IEWStruct) (x : IEW) : outcome IEW :=
  let! b := toCommit x in
  let! q := vec_set "iewQueue" (iewQueue x) 0 (f b) in Ok (set_iewQueue q x).
(** [toRename->...] *)
Definition setToRename (f : IewToRename → IewToRename) (x : IEW) : IEW :=
  set_toRename (f (toRename x)) x.
Definition upd {A : Type} (tid : ThreadID) (v : A) (f : ThreadID → A) : ThreadID → A := <[tid := v]> f.

(** ** Dispatch *)

(** One more instruction of [tid] has been processed. *)
Definition countDispatched (tid : ThreadID) (i : DynInst) (x : IEW) : IEW :=
  setToRename (λ r,
    let r := if isLoad i then set_dispatchedToLQ (upd tid (dispatchedToLQ r tid + 1) (dispatchedToLQ r)) r else r in
    let r := if isStore i then set_dispatchedToSQ (upd tid (dispatchedToSQ r tid + 1) (dispatchedToSQ r)) r else r in
    set_dispatched (upd tid (dispatched r tid + 1) (dispatched r)) r) x.

Definition emptyRenameInsts (tid : ThreadID) (x : IEW) (s : store) : outcome IEW :=
  let! x := foldM (λ x p, let! i := deref p s in Ok (countDispatched tid i x)) (iew_insts x tid) x in
  Ok (set_iew_insts (upd tid [] (iew_insts x)) x).

Definition emptySkid (tid : ThreadID) (x : IEW) (s : store) : outcome IEW :=
  let! x := foldM (λ x p, let! i := deref p s in Ok (countDispatched tid i x)) (skidBuffer x tid) x in
  Ok (set_skidBuffer (upd tid [] (skidBuffer x)) x).

Definition skidInsert (tid : ThreadID) (x : IEW) : outcome IEW :=
  let x := set_iew_insts (upd tid [] (iew_insts x))
             (set_skidBuffer (upd tid (skidBuffer x tid ++ iew_insts x tid) (skidBuffer x)) x) in
  assert! (length (skidBuffer x tid) <=? skidBufferMax x)%nat
    as "Skidbuffer Exceeded Max Size" in
  Ok x.

Definition setStatus (tid : ThreadID) (st : StageStatus) (x : IEW) : IEW :=
  set_dispatchStatus (upd tid st (dispatchStatus x)) x.

Definition block (tid : ThreadID) (x : IEW) : outcome IEW :=
  let x :=
    if bool_decide (dispatchStatus x tid ≠ StBlocked) && bool_decide (dispatchStatus x tid ≠ StUnblocking)
    then set_wroteToTimeBuffer true
           (setToRename (λ r, set_iewBlock (upd tid true (iewBlock r)) r) x)
    else x in
  let! x := skidInsert tid x in
  Ok (setStatus tid StBlocked x).

Definition setUnblock (tid : ThreadID) (b : bool) (x : IEW) : IEW :=
  setToRename (λ r, set_iewUnblock (upd tid b (iewUnblock r)) r) x.

Definition unblock (tid : ThreadID) (x : IEW) : IEW :=
  match skidBuffer x tid with
  | [] => setStatus tid StRunning (set_wroteToTimeBuffer true (setUnblock tid true x))
  | _ => x
  end.

Definition skidsEmpty (x : IEW) : bool :=
  forallb (λ tid, bool_decide (skidBuffer x tid = [])) (iew_activeThreads x).
Definition skidCount (x : IEW) : nat :=
  fold_left (λ m tid, Nat.max m (length (skidBuffer x tid))) (iew_activeThreads x) 0%nat.

(** [fromRename->insts[0 .. size)] *)
Definition sortInsts (fromRename : list DynInstPtr) (x : IEW) (s : store) : outcome IEW :=
  foldM (λ x p, let! i := deref p s in
    let tid := threadNumber i in
    Ok (set_iew_insts (upd tid (iew_insts x tid ++ [p]) (iew_insts x)) x)) fromRename x.

Fixpoint validInstsFromRename (fromRename : list DynInstPtr) (s : store) : outcome nat :=
  match fromRename with
  | [] => Ok 0%nat
  | p :: l => let! i := deref p s in
              let! n := validInstsFromRename l s in
              Ok (if isSquashed i then n else S n)
  end.

(** ** The stage and what it works on *)

Record Stage (M : Type) := mkStage {
  sg_iew : IEW;
  sg_lsq : LSQ;
  sg_w : World M;
  sg_rob : ROB;
  sg_scoreboard : list bool;
  sg_events : list LsqCall; (** for the event queue and the register file *)
}.
Arguments mkStage {M}. Arguments sg_iew {M}. Arguments sg_lsq {M}. Arguments sg_w {M}.
Arguments sg_rob {M}. Arguments sg_scoreboard {M}. Arguments sg_events {M}.

Section stage.
Context {M : Type}.
Definition sg_insts (g : Stage M) : store := w_insts (sg_w g).
Definition sg_set_iew (x : IEW) (g : Stage M) : Stage M :=
  mkStage x (sg_lsq g) (sg_w g) (sg_rob g) (sg_scoreboard g) (sg_events g).
Definition sg_set_lsq (l : LSQ) (g : Stage M) : Stage M :=
  mkStage (sg_iew g) l (sg_w g) (sg_rob g) (sg_scoreboard g) (sg_events g).
Definition sg_set_w (w : World M) (g : Stage M) : Stage M :=
  mkStage (sg_iew g) (sg_lsq g) w (sg_rob g) (sg_scoreboard g) (sg_events g).
Definition sg_set_scoreboard (sb : list bool) (g : Stage M) : Stage M :=
  mkStage (sg_iew g) (sg_lsq g) (sg_w g) (sg_rob g) sb (sg_events g).
Definition sg_event (c : LsqCall) (g : Stage M) : Stage M :=
  mkStage (sg_iew g) (sg_lsq g) (sg_w g) (sg_rob g) (sg_scoreboard g) (sg_events g ++ [c]).
Definition sg_set_insts (s : store) (g : Stage M) : Stage M := sg_set_w (w_set_insts s (sg_w g)) g.
Definition sg_set_iq (q : InstQueue) (g : Stage M) : Stage M := sg_set_w (w_set_iq q (sg_w g)) g.
Definition sg_iq (g : Stage M) : InstQueue := w_iq (sg_w g).

Definition onIew (f : IEW → outcome IEW) (g : Stage M) : outcome (Stage M) :=
  let! x := f (sg_iew g) in Ok (sg_set_iew x g).
Definition onInst (f : DynInst → DynInst) (p : DynInstPtr) (g : Stage M) : outcome (Stage M) :=
  let! s := modify f p (sg_insts g) in Ok (sg_set_insts s g).
Definition onInstM (f : DynInst → outcome DynInst) (p : DynInstPtr) (g : Stage M) : outcome (Stage M) :=
  let! s := modifyM f p (sg_insts g) in Ok (sg_set_insts s g).
Definition onIq (f : InstQueue → store → outcome (InstQueue * store)) (g : Stage M)
  : outcome (Stage M) :=
  let! (q, s) := f (sg_iq g) (sg_insts g) in Ok (sg_set_insts s (sg_set_iq q g)).
Definition onLsq (f : LSQ * World M → outcome (LSQ * World M)) (g : Stage M) : outcome (Stage M) :=
  let! (l, w) := f (sg_lsq g, sg_w g) in Ok (sg_set_lsq l (sg_set_w w g)).
End stage.

(** ** Writeback ports *)

Definition slot (c n : Z) (x : IEW) : outcome (option DynInstPtr) :=
  let! b := vec_get "iewQueue" (iewQueue x) c in vec_get "insts" (ic_insts b) n.
Definition setSlot (c n : Z) (p : DynInstPtr) (x : IEW) : outcome IEW :=
  let! b := vec_get "iewQueue" (iewQueue x) c in
  let! v := vec_set "insts" (ic_insts b) n (Some p) in
  let! q := vec_set "iewQueue" (iewQueue x) c (set_ic_insts v b) in
  Ok (set_iewQueue q x).

Section ports.
Variable cfg : DolmaConfig.

(** The exchange at the start of an iteration: with [unsafe_contention] set,
    [inst_to_insert] takes the place of the contender, which goes on. *)
Definition exchange (contention : bool) (idx : Z) (p : DynInstPtr) (x : IEW) (s : store)
  : outcome (DynInstPtr * IEW) :=
  if contention then
    let! c := slot (wbCycle x - 1) idx x in
    let! x := setSlot (wbCycle x - 1) idx p x in
    match c with
    | None => Err (NullDeref "unsafe_contender")
    | Some c =>
        let! pi := deref p s in
        let! ci := deref c s in
        assert! negb (seqNum pi =? seqNum ci)
          as "inst_to_insert->seqNum != unsafe_contender->seqNum" in
        Ok (c, x)
    end
  else Ok (p, x).

(** Is the instruction in the slot an unsafe contender of [inst_to_insert]? *)
Definition unsafeContender (qi pi : DynInst) : bool :=
  (threadNumber qi =? threadNumber pi)%nat && isDolmaRestricted qi && negb (isSTT cfg)
  && (seqNum pi <? seqNum qi).

(** To the next slot; [unsafe_contention] is set at the end of a cycle. *)
Definition nextSlot (idx : Z) (x : IEW) : bool * IEW :=
  let x := set_wbNumInst (wbNumInst x + 1) x in
  if wbNumInst x =? wbWidth x
  then (negb (idx =? -1), set_wbNumInst 0 (set_wbCycle (wbCycle x + 1) x))
  else (false, x).

(** The search for a free slot.  [contention] and [idx] are
    [unsafe_contention] and [unsafe_contender_idx], [p] is [inst_to_insert]. *)
Fixpoint findSlot (fuel : nat) (contention : bool) (idx : Z) (p : DynInstPtr) (x : IEW) (s : store)
  : outcome (DynInstPtr * IEW) :=
  match fuel with
  | O => Err (NoFuel "instToCommit")
  | S f =>
      let! o := slot (wbCycle x) (wbNumInst x) x in
      match o with
      | None => Ok (p, x)
      | Some q =>
          let! qi := deref q s in
          assert! negb (isDolmaStalled qi) as "instToCommit: !isDolmaStalled()" in
          let! (p, x) := exchange contention idx p x s in
          let! pi := deref p s in
          let idx := if unsafeContender qi pi then wbNumInst x else idx in
          let (contention, x) := nextSlot idx x in
          findSlot f contention idx p x s
      end
  end.

(** Every slot of the buffer is visited at most once. *)
Definition slotFuel (x : IEW) : nat :=
  S (length (iewQueue x) * Z.to_nat (wbWidth x)).

Definition instToCommit (p : DynInstPtr) (x : IEW) (s : store) : outcome IEW :=
  let! (p, x) := findSlot (slotFuel x) false (-1) p x s in
  let! x := setSlot (wbCycle x) (wbNumInst x) p x in
  let! b := vec_get "iewQueue" (iewQueue x) (wbCycle x) in
  let! q := vec_set "iewQueue" (iewQueue x) (wbCycle x) (set_ic_size (ic_size b + 1) b) in
  Ok (set_iewQueue q x).

(** ** Redirects *)

(** Of the instruction set: [pcState().branching()], [advancePC] and
    [mispredicted()]. *)
Variable branching : DynInst → bool.
Variable advancePC : DynInst → Addr.
Variable mispredicted : DynInst → bool.

Definition squashDueToBranch (p : DynInstPtr) (tid : ThreadID) (x : IEW) (s : store)
  : outcome (IEW * store) :=
  let! b := toCommit x in
  let! i := deref p s in
  if negb (ic_squash b tid) || (seqNum i <? ic_squashedSeqNum b tid) then
    let! s := if isControlInducer i && isDolmaRestricted i
              then modifyM (setPendingBranch cfg (branching i)) p s else Ok s in
    let! x := setToCommit (λ b,
      set_ic_includeSquashInst (upd tid false (ic_includeSquashInst b))
        (set_ic_mispredictInst (upd tid (Some p) (ic_mispredictInst b))
           (set_ic_pc (upd tid (advancePC i) (ic_pc b))
              (set_ic_branchTaken (upd tid (branching i) (ic_branchTaken b))
                 (set_ic_squashedSeqNum (upd tid (seqNum i) (ic_squashedSeqNum b))
                    (set_ic_squash (upd tid true (ic_squash b)) b)))))) x in
    Ok (set_wroteToTimeBuffer true x, s)
  else Ok (x, s).

Definition squashDueToMemOrder (conflicting violator : DynInstPtr) (tid : ThreadID) (x : IEW)
    (s : store) : outcome (IEW * store) :=
  let! b := toCommit x in
  let! v := deref violator s in
  if negb (ic_squash b tid) || (seqNum v <=? ic_squashedSeqNum b tid) then
    let! x := setToCommit (λ b,
      set_ic_includeSquashInst (upd tid true (ic_includeSquashInst b))
        (set_ic_mispredictInst (upd tid None (ic_mispredictInst b))
           (set_ic_pc (upd tid (pc v) (ic_pc b))
              (set_ic_squashedSeqNum (upd tid (seqNum v) (ic_squashedSeqNum b))
                 (set_ic_squash (upd tid true (ic_squash b)) b))))) x in
    let! c := deref conflicting s in
    let! s :=
      if isDolmaRestricted c && negb (isSTT cfg) then
        let! s := modifyM (setPendingMemOrder cfg) violator s in
        modifyM (setViolator cfg violator) conflicting s
      else if isDolmaRestricted v then modifyM (setPendingMemOrderStore cfg c) violator s
      else Ok s in
    Ok (set_wroteToTimeBuffer true x, s)
  else Ok (x, s).

(** The guard of both redirect checks. *)
Definition mayRedirect (i : DynInst) (x : IEW) : outcome bool :=
  let tid := threadNumber i in
  let! b := toCommit x in
  Ok (negb (fetchRedirect x tid) || negb (ic_squash b tid)
      || (seqNum i <? ic_squashedSeqNum b tid)).

Definition redirect (tid : ThreadID) (x : IEW) : IEW :=
  set_fetchRedirect (upd tid true (fetchRedirect x)) x.

Definition checkMisprediction (p : DynInstPtr) (x : IEW) (s : store) : outcome (IEW * store) :=
  let! i := deref p s in
  let! may := mayRedirect i x in
  if may then
    if mispredicted i then squashDueToBranch p (threadNumber i) (redirect (threadNumber i) x) s
    else Ok (x, <[p := clearControlInducer i]> s)
  else Ok (x, s).
End ports.

(** ** Execution *)

Section iew.
Context {M : Type} `{MemSystem M} `{StorePort M}.
Variable cfg : DolmaConfig.
Variable branching : DynInst → bool.
Variable advancePC : DynInst → Addr.
Variable mispredicted : DynInst → bool.
(** [execute()] and [initiateAcc()] of the instruction. *)
Variable execute : DynInst → DynInst.
Variable initiateAcc : DynInstPtr → World M → outcome (option Fault * World M).
Variable Num_OpClasses : nat.

Definition stageToCommit (p : DynInstPtr) (g : Stage M) : outcome (Stage M) :=
  onIew (λ x, instToCommit cfg p x (sg_insts g)) g.

(** The calls of the load/store queue to this stage. *)
Definition runCall (g : Stage M) (c : LsqCall) : outcome (Stage M) :=
  match c with
  | InstToCommit p => stageToCommit p g
  | CheckMisprediction p =>
      let! (x, s) := checkMisprediction cfg branching advancePC mispredicted p (sg_iew g) (sg_insts g) in
      Ok (sg_set_insts s (sg_set_iew x g))
  | UpdateLSQNextCycle => Ok (sg_set_iew (set_updateLSQNextCycle true (sg_iew g)) g)
  | ScheduleWriteback _ _ _ | ForwardOldRegs _ => Ok (sg_event c g)
  end.
Definition runCalls (g : Stage M) : outcome (Stage M) :=
  let calls := w_calls (sg_w g) in
  let w := sg_w g in
  foldM runCall calls
    (sg_set_w (mkWorld (w_lsq w) (w_iq w) (w_insts w) (w_mem w) (w_senders w) (w_next w) []) g).

(** [ldstQueue.executeLoad] or [executeStore]. *)
Definition executeMem (p : DynInstPtr) (load : bool) (g : Stage M)
  : outcome (option Fault * Stage M) :=
  let! (f, l, w) := if load then ls_executeLoad cfg initiateAcc p (sg_lsq g) (sg_w g)
                    else ls_executeStore cfg initiateAcc p (sg_lsq g) (sg_w g) in
  let! g := runCalls (sg_set_lsq l (sg_set_w w g)) in
  Ok (f, g).

(** The memory part of an execution: [None] when the instruction was stalled
    or deferred, so that the loop goes on with the next one. *)
Definition executeMemRef (p : DynInstPtr) (g : Stage M) : outcome (bool * Stage M) :=
  let! i := deref p (sg_insts g) in
  if isLoad i || isStore i then
    let! (f, g) := executeMem p (isLoad i) g in
    let! j := deref p (sg_insts g) in
    if isDolmaStalled j then
      assert! negb (isSTT cfg) as "executeInsts: !cpu->isSTT()" in
      let! g := onIq (dolmaStallInst p) g in Ok (false, g)
    else if isTranslationDelayed j && bool_decide (f = None) then
      Ok (false, sg_set_iq (deferMemInst p (sg_iq g)) g)
    else if isLoad i then
      let! g := if static j IsDataPrefetch || static j IsInstPrefetch
                then onInst (set_fault None) p g else Ok g in
      Ok (true, g)
    else
      let! g :=
        if bool_decide (f ≠ None) || negb (readPredicate j) || negb (isStoreConditional j) then
          let! g := onInst setExecuted p g in stageToCommit p g
        else Ok g in
      Ok (true, g)
  else Err (PanicCall "Unexpected memory type!").

Definition executeOther (p : DynInstPtr) (g : Stage M) : outcome (Stage M) :=
  let! i := deref p (sg_insts g) in
  let! g :=
    match fault i with
    | Some _ => Ok g
    | None =>
        let! g := onInst execute p g in
        let! j := deref p (sg_insts g) in
        Ok (if readPredicate j then g else sg_event (ForwardOldRegs p) g)
    end in
  let! g := onInst setExecuted p g in
  stageToCommit p g.

(** The memory-order violation of an executed store or load, if there is one. *)
Definition handleViolation (p : DynInstPtr) (g : Stage M) : outcome (Stage M) :=
  let! i := deref p (sg_insts g) in
  let tid := threadNumber i in
  assert! isMemRef i as "executeInsts: inst->isMemRef()" in
  let! (o, l) := ls_getMemDepViolator tid (sg_lsq g) in
  match o with
  | None => Err (NullDeref "violator")
  | Some vp =>
      let! v := deref vp (sg_insts g) in
      assert! seqNum i <? seqNum v as "violator->seqNum > inst->seqNum" in
      let g := sg_set_iew (redirect tid (sg_iew g)) (sg_set_lsq l g) in
      let! g :=
        if isSTT cfg || (negb (isDolmaRestricted i) && negb (isDolmaRestricted v)) then
          let! q := iq_violation tid (instAddr i) (instAddr v) (sg_iq g) in Ok (sg_set_iq q g)
        else Ok g in
      let! (x, s) := squashDueToMemOrder cfg p vp tid (sg_iew g) (sg_insts g) in
      Ok (sg_set_insts s (sg_set_iew x g))
  end.

(** After an execution: at most one redirect is reported to commit. *)
Definition checkRedirect (p : DynInstPtr) (g : Stage M) : outcome (Stage M) :=
  let! i := deref p (sg_insts g) in
  let tid := threadNumber i in
  let! may := mayRedirect i (sg_iew g) in
  let! viol := ls_violationOf tid (sg_lsq g) in
  if may then
    if mispredicted i && negb (negb (isExecuted i) && isLoad i) then
      let! (x, s) := squashDueToBranch cfg branching advancePC p tid (redirect tid (sg_iew g)) (sg_insts g) in
      Ok (sg_set_insts s (sg_set_iew x g))
    else if viol then handleViolation p g
    else if isControlInducer i && negb (isLoad i) then onInst clearControlInducer p g
    else Ok g
  else if viol then
    assert! isMemRef i as "executeInsts: inst->isMemRef()" in
    let! (_, l) := ls_getMemDepViolator tid (sg_lsq g) in Ok (sg_set_lsq l g)
  else Ok g.

Definition executeInst (g : Stage M) : outcome (Stage M) :=
  let! (p, q) := getInstToExecute (sg_iq g) in
  let g := sg_set_iq q g in
  let! i := deref p (sg_insts g) in
  if isSquashed i then
    let! g := onInst setExecuted p g in onInstM setCanCommit p g
  else
    assert! negb (isDolmaStalled i) as "executeInsts: !inst->isDolmaStalled()" in
    if isMemRef i then
      let! (goOn, g) := executeMemRef p g in
      if goOn : bool then checkRedirect p g else Ok g
    else
      let! g := executeOther p g in checkRedirect p g.

(** [fromIssue->size]: what was issued [issueToExecuteDelay] cycles ago. *)
Definition fromIssueSize (g : Stage M) : Z :=
  match issueToExecuteDelay (sg_iew g) with
  | O => i2e_size (sg_iq g)
  | 1%nat => i2e_prev (sg_iq g)
  | S (S d) => default 0 (issued (sg_iew g) !! d)
  end.

Definition executeInsts (g : Stage M) : outcome (Stage M) :=
  let x := sg_iew g in
  let x := set_wbCycle 0 (set_wbNumInst 0 x) in
  let x := set_fetchRedirect
             (fold_left (λ f tid, upd tid false f) (iew_activeThreads x) (fetchRedirect x)) x in
  let n := Z.to_nat (fromIssueSize g) in
  let! g := foldM (λ g _, executeInst g) (seq 0 n) (sg_set_iew x g) in
  let x := sg_iew g in
  let x := if (0 <? n)%nat then
             set_updatedQueues true
               (if bool_decide (exeStatus x = StIdle) then set_exeStatus StRunning x else x)
           else x in
  Ok (sg_set_iew (set_wbNumInst 0 x) g).

(** ** Writeback *)

Definition stageWakeDependents (p : DynInstPtr) (g : Stage M) : outcome (Stage M) :=
  let! (q, s, _) := wakeDependents cfg p (sg_iq g) (sg_insts g) in
  let g := sg_set_insts s (sg_set_iq q g) in
  let! i := deref p s in
  let! sb := foldM (λ sb idx, let! d := renamedDestRegIdx idx i in sb_setReg d sb)
               (seq 0 (numDestRegs i)) (sg_scoreboard g) in
  Ok (sg_set_scoreboard sb g).

(** The first slots of the wire to commit, up to an empty one. *)
Fixpoint leadingInsts (l : list (option DynInstPtr)) : list DynInstPtr :=
  match l with
  | Some p :: l' => p :: leadingInsts l'
  | _ => []
  end.

Definition writebackInst (g : Stage M) (p : DynInstPtr) : outcome (Stage M) :=
  let! i := deref p (sg_insts g) in
  if negb (isSquashed i) && isExecuted i && bool_decide (fault i = None)
  then stageWakeDependents p g else Ok g.

Definition writebackInsts (g : Stage M) : outcome (Stage M) :=
  let! b := toCommit (sg_iew g) in
  foldM writebackInst (leadingInsts (take (Z.to_nat (wbWidth (sg_iew g))) (ic_insts b))) g.

(** ** Dispatching *)

(** [instQueue.insert...] and the load/store queue for one instruction. *)
Definition dispatchOne (p : DynInstPtr) (i : DynInst) (g : Stage M) : outcome (Stage M) :=
  let nonSpec (g : Stage M) :=
    let! g := onInstM setCanCommit p g in onIq (iq_insertNonSpec p) g in
  let addToIq (g : Stage M) :=
    if isNonSpeculative i then nonSpec g else onIq (iq_insert cfg p) g in
  if isLoad i then
    let! g := onLsq (ls_insertLoad p) g in addToIq g
  else if isStore i then
    let! g := onLsq (ls_insertStore p) g in
    if isStoreConditional i then nonSpec g else addToIq g
  else if isMemBarrier i || isWriteBarrier i then
    let! g := onInstM setCanCommit p g in onIq (iq_insertBarrier p) g
  else if static i IsNop then
    let! g := onInst setIssued p g in
    let! g := onInst setExecuted p g in
    let! g := onInstM setCanCommit p g in
    let! q := addToProducers p (sg_iq g) (sg_insts g) in
    Ok (sg_set_iq q g)
  else
    assert! negb (isExecuted i) as "dispatchInsts: !inst->isExecuted()" in
    addToIq g.

(** The queue an instruction comes from. *)
Definition toDispatch (fromSkid : bool) (tid : ThreadID) (x : IEW) : list DynInstPtr :=
  if fromSkid then skidBuffer x tid else iew_insts x tid.
Definition popDispatch (fromSkid : bool) (tid : ThreadID) (x : IEW) : IEW :=
  if fromSkid then set_skidBuffer (upd tid (tail (skidBuffer x tid)) (skidBuffer x)) x
  else set_iew_insts (upd tid (tail (iew_insts x tid)) (iew_insts x)) x.

Definition blockDispatch (tid : ThreadID) (g : Stage M) : outcome (Stage M) :=
  let! x := block tid (sg_iew g) in Ok (sg_set_iew (setUnblock tid false x) g).

(** The loop over the instructions: how many it went through and the state. *)
Fixpoint dispatchLoop (n : nat) (fromSkid : bool) (tid : ThreadID) (count : nat) (g : Stage M)
  : outcome (nat * Stage M) :=
  match n with
  | O => Ok (count, g)
  | S n' =>
      match toDispatch fromSkid tid (sg_iew g) with
      | [] => Err (Assertion "dispatchInsts: inst")
      | p :: _ =>
          let! i := deref p (sg_insts g) in
          if isSquashed i then
            dispatchLoop n' fromSkid tid (S count)
              (sg_set_iew (countDispatched tid i (popDispatch fromSkid tid (sg_iew g))) g)
          else if iq_isFullOf tid (sg_iq g) then
            let! g := blockDispatch tid g in Ok (count, g)
          else
            let! lf := if isLoad i then ls_lqFullOf tid (sg_lsq g) else Ok false in
            let! sf := if lf then Ok false
                       else if isStore i then ls_sqFullOf 1 tid (sg_lsq g) else Ok false in
            if lf || sf then let! g := blockDispatch tid g in Ok (count, g)
            else
              let! g := dispatchOne p i g in
              dispatchLoop n' fromSkid tid (S count)
                (sg_set_iew (countDispatched tid i (popDispatch fromSkid tid (sg_iew g))) g)
      end
  end.

Definition dispatchInsts (tid : ThreadID) (g : Stage M) : outcome (Stage M) :=
  let x := sg_iew g in
  let fromSkid := bool_decide (dispatchStatus x tid = StUnblocking) in
  let n := Nat.min (length (toDispatch fromSkid tid x)) (dispatchWidth x) in
  let! (count, g) := dispatchLoop n fromSkid tid 0 g in
  let! g := if bool_decide (toDispatch fromSkid tid (sg_iew g) = []) then Ok g
            else blockDispatch tid g in
  let x := sg_iew g in
  Ok (if bool_decide (dispatchStatus x tid = StIdle) && (0 <? count)%nat
      then sg_set_iew (set_updatedQueues true (setStatus tid StRunning x)) g else g).

Definition dispatch (fromRename : list DynInstPtr) (tid : ThreadID) (g : Stage M)
  : outcome (Stage M) :=
  let st := dispatchStatus (sg_iew g) tid in
  if bool_decide (st = StRunning) || bool_decide (st = StIdle) then dispatchInsts tid g
  else if bool_decide (st = StUnblocking) then
    assert! negb (skidsEmpty (sg_iew g)) as "dispatch: !skidsEmpty()" in
    let! g := dispatchInsts tid g in
    let! n := validInstsFromRename fromRename (sg_insts g) in
    let! x := if (n =? 0)%nat then Ok (sg_iew g) else skidInsert tid (sg_iew g) in
    Ok (sg_set_iew (unblock tid x) g)
  else Ok g.

(** ** Signals *)

Definition stageSquash (cc : CommitComm) (tid : ThreadID) (g : Stage M) : outcome (Stage M) :=
  let! o := iq_squash (cc_doneSeqNum cc) tid (sg_iq g) (sg_insts g) in
  match o with
  | None => Err (NoFuel "instQueue.squash")
  | Some (q, s) =>
      let g := sg_set_insts s (sg_set_iq q g) in
      let! g := onLsq (ls_squash (cc_doneSeqNum cc) tid) g in
      let x := set_updatedQueues true (sg_iew g) in
      let! x := emptySkid tid x (sg_insts g) in
      let! x := emptyRenameInsts tid x (sg_insts g) in
      Ok (sg_set_iew x g)
  end.

Definition checkStall (cc : CommitComm) (tid : ThreadID) (g : Stage M) : bool :=
  cc_robSquashing cc || iq_isFullOf tid (sg_iq g).

Definition checkSignalsAndUpdate (cc : CommitComm) (tid : ThreadID) (g : Stage M)
  : outcome (Stage M) :=
  if cc_squash cc then
    let! g := stageSquash cc tid g in
    let x := sg_iew g in
    let st := dispatchStatus x tid in
    let x := if bool_decide (st = StBlocked) || bool_decide (st = StUnblocking)
             then set_wroteToTimeBuffer true (setUnblock tid true x) else x in
    Ok (sg_set_iew (set_fetchRedirect (upd tid false (fetchRedirect x))
                      (setStatus tid StSquashing x)) g)
  else
    let! g :=
      if cc_robSquashing cc then
        let! x := emptyRenameInsts tid (setStatus tid StSquashing (sg_iew g)) (sg_insts g) in
        Ok (sg_set_iew (set_wroteToTimeBuffer true x) g)
      else Ok g in
    if checkStall cc tid g then
      let! x := block tid (sg_iew g) in Ok (sg_set_iew (setStatus tid StBlocked x) g)
    else
      let st := dispatchStatus (sg_iew g) tid in
      Ok (if bool_decide (st = StBlocked)
          then sg_set_iew (unblock tid (setStatus tid StUnblocking (sg_iew g))) g
          else if bool_decide (st = StSquashing)
          then sg_set_iew (setStatus tid StRunning (sg_iew g)) g
          else g).

Definition updateStageStatus (g : Stage M) : outcome (Stage M) :=
  let x := sg_iew g in
  let any := existsb (λ tid, bool_decide (dispatchStatus x tid = StUnblocking)) (iew_activeThreads x) in
  let! wb := ls_willWB (sg_lsq g) in
  let busy := hasReadyInsts Num_OpClasses (sg_iq g) || wb || any in
  Ok (sg_set_iew (set_iew_active busy x) g).

(** ** The cycle *)

(** What a thread's committed instructions release. *)
Definition commitThread (cc : CommitComm) (tid : ThreadID) (g : Stage M) : outcome (Stage M) :=
  if negb (cc_doneSeqNum cc =? 0) && negb (cc_squash cc) && negb (cc_robSquashing cc) then
    let! g := onLsq (ls_commitStores (cc_doneSeqNum cc) tid) g in
    let! g := onLsq (ls_commitLoads (cc_doneSeqNum cc) tid) g in
    let g := sg_set_iew (set_updateLSQNextCycle true (sg_iew g)) g in
    Ok (sg_set_iq (iq_commit (cc_doneSeqNum cc) tid (sg_iq g)) g)
  else Ok g.

Definition wakeNonSpec (cc : CommitComm) (g : Stage M) : outcome (Stage M) :=
  if cc_nonSpecSeqNum cc =? 0 then Ok g
  else if cc_strictlyOrdered cc then
    match cc_strictlyOrderedLoad cc with
    | None => Err (NullDeref "strictlyOrderedLoad")
    | Some p =>
        let! q := replayMemInst p (sg_iq g) (sg_insts g) in
        onInst setAtCommit p (sg_set_iq q g)
    end
  else onIq (scheduleNonSpec (cc_nonSpecSeqNum cc)) g.

Definition broadcastFree (tid : ThreadID) (g : Stage M) : outcome (Stage M) :=
  let! u := unitOf tid (sg_lsq g) in
  let q := sg_iq g in
  Ok (sg_set_iew (set_wroteToTimeBuffer true (setToRename (λ r,
        set_iqCount (upd tid (iq_count q tid) (iqCount r))
          (set_ldstqCount (upd tid (lsq_getCount u) (ldstqCount r))
             (set_usedIQ (upd tid true (usedIQ r))
                (set_freeIQEntries (upd tid (iq_numFreeEntriesOf tid q) (freeIQEntries r))
                   (set_usedLSQ (upd tid true (usedLSQ r))
                      (set_freeLQEntries (upd tid (numFreeLoadEntries u) (freeLQEntries r))
                         (set_freeSQEntries (upd tid (numFreeStoreEntries u) (freeSQEntries r)) r)))))))
        (sg_iew g))) g).

(** Execution, the release of safe instructions, writeback and issue. *)
Definition runExecute (g : Stage M) : outcome (Stage M) :=
  let! g := executeInsts g in
  let! g := if isDolma cfg then
              foldM (λ g tid, let! s := updateSafeStatus cfg tid (sg_rob g) (sg_insts g) in
                              Ok (sg_set_insts s g)) (iew_activeThreads (sg_iew g)) g
            else Ok g in
  let! g := writebackInsts g in
  let! o := scheduleReadyInsts cfg (sg_rob g) (sg_iq g) (sg_insts g) in
  match o with
  | None => Err (NoFuel "scheduleReadyInsts")
  | Some (q, s, _) =>
      (** [issueToExecQueue.advance()] *)
      let x := set_issued (i2e_prev q :: issued (sg_iew g)) (sg_iew g) in
      Ok (sg_set_insts s (sg_set_iq (set_i2e_size 0 (set_i2e_prev (i2e_size q) q)) (sg_set_iew x g)))
  end.

(** [tick]: [fromRename] and [fromCommit] are what the wires hold. *)
Definition iew_tick (fromRename : list DynInstPtr) (fromCommit : ThreadID → CommitComm) (g : Stage M)
  : outcome (Stage M) :=
  let x := set_updatedQueues false (set_wroteToTimeBuffer false
             (set_wbCycle 0 (set_wbNumInst 0 (sg_iew g)))) in
  let! x := sortInsts fromRename x (sg_insts g) in
  let! fp := processFreeUnits (fuPool (sg_iq g)) in
  let g := sg_set_iq (set_fuPool fp (sg_iq g)) (sg_set_iew x g) in
  let active := iew_activeThreads x in
  let! g := foldM (λ g tid,
      let! g := checkSignalsAndUpdate (fromCommit tid) tid g in
      dispatch fromRename tid g) active g in
  let! g := if bool_decide (exeStatus (sg_iew g) = StSquashing) then Ok g else runExecute g in
  let x := sg_iew g in
  let free := updatedQueues x || bool_decide (exeStatus x = StRunning) || updateLSQNextCycle x in
  let x := if free then set_updateLSQNextCycle false (set_exeStatus StIdle x) else x in
  let g := sg_set_iew x g in
  let! (l, w) := ls_writebackStores (sg_lsq g) (sg_w g) in
  let! g := runCalls (sg_set_lsq l (sg_set_w w g)) in
  let! g := foldM (λ g tid,
      let! g := commitThread (fromCommit tid) tid g in
      let! g := wakeNonSpec (fromCommit tid) g in
      if free then broadcastFree tid g else Ok g) active g in
  updateStageStatus g.
End iew.

(** ** Construction, draining and switching *)

(** The constructor; [slots] are the empty slots of the queue to commit. *)
Definition MaxWidth : Z := 8.
Definition newIEW (width : nat) (issueWidth wbW : Z) (renameToIEWDelay renameWidth delay threads : nat)
    (slots : list IEWStruct) (r : IewToRename) (active : list ThreadID) : outcome IEW :=
  if MaxWidth <? Z.of_nat width then Err (PanicCall "dispatchWidth") else
  if MaxWidth <? issueWidth then Err (PanicCall "issueWidth") else
  if MaxWidth <? wbW then Err (PanicCall "wbWidth") else
  Ok (mkIEW true (λ _, StRunning) StRunning StIdle (λ _, []) (λ _, []) (λ _, false) false false
        false 0 0 slots r [] delay width wbW ((renameToIEWDelay + 1) * renameWidth)
        threads active).

Section switching.
Context {M : Type}.

(** The free entries of every thread, for rename. *)
Definition startupStage (g : Stage M) : outcome (Stage M) :=
  foldM (λ g tid,
    let! u := unitOf tid (sg_lsq g) in
    Ok (sg_set_iew (setToRename (λ r,
      set_freeSQEntries (upd tid (numFreeStoreEntries u) (freeSQEntries r))
        (set_freeLQEntries (upd tid (numFreeLoadEntries u) (freeLQEntries r))
           (set_usedLSQ (upd tid true (usedLSQ r))
              (set_freeIQEntries (upd tid (iq_numFreeEntriesOf tid (sg_iq g)) (freeIQEntries r))
                 (set_usedIQ (upd tid true (usedIQ r)) r))))) (sg_iew g)) g))
    (seq 0 (iew_numThreads (sg_iew g))) g.

Definition iew_isDrained (g : Stage M) : outcome bool :=
  let x := sg_iew g in
  let threads := iew_numThreads x in
  let! l := ls_isDrained (sg_lsq g) in
  let q := l && iq_isDrained threads (sg_iq g) in
  let t := forallb (λ tid, bool_decide (iew_insts x tid = []) && bool_decide (skidBuffer x tid = [])
                           && bool_decide (dispatchStatus x tid = StRunning)) (seq 0 threads) in
  Ok (q && t && fu_isDrained (fuPool (sg_iq g))).

(** [cacheLineSize] is what the units' masks are recomputed from. *)
Definition iew_takeOverFrom (classes : nat) (cacheLineSize : Z) (g : Stage M) : outcome (Stage M) :=
  let x := sg_iew g in
  let q := iq_takeOverFrom classes (sg_iq g) in
  let! l := ls_takeOverFrom cacheLineSize (sg_lsq g) in
  let g := sg_set_iq (set_i2e_size 0 (set_i2e_prev 0 q)) (sg_set_lsq l g) in
  let! g := startupStage (sg_set_iew (set_wbStatus StIdle (set_exeStatus StRunning (set_iew_active true x))) g) in
  let x := sg_iew g in
  let x := foldr (λ tid x, set_fetchRedirect (upd tid false (fetchRedirect x)) (setStatus tid StRunning x))
             x (seq 0 (iew_numThreads x)) in
  Ok (sg_set_iew (set_issued [] (set_updateLSQNextCycle false x)) g).

Definition iew_resetEntries (g : Stage M) : outcome (Stage M) :=
  let q := iq_resetEntries (sg_iq g) in
  let! l := ls_resetEntries (sg_lsq g) in
  Ok (sg_set_iq q (sg_set_lsq l g)).
End switching.
