(* ===== verification/IewPorts.v ===== *)
(** * Writeback ports

    [DefaultIEW::instToCommit] hands out the slots of the queue to commit, which
    are the writeback ports of the coming cycles.  It takes the first free slot,
    loses and duplicates nothing, and always ends.  DOLMA's exchange of a younger
    restricted instruction against the one that asks for a port does not deliver
    what its comment promises: it happens only when the next cycle is contended
    as well, and it goes on with an index of an earlier cycle. *)

From S2P Require Import Prelude Regs Config DynInst Metadata Rob InstQueue LsqUnit Lsq Iew.

Local Open Scope Z_scope.

(** ** Lists of slots *)

Lemma concat_map_insert {A B : Type} (f : A → list B) (l : list A) (n : nat) (a b : A) :
  l !! n = Some a →
  f a ++ concat (map f (<[n := b]> l)) ≡ₚ f b ++ concat (map f l).
Proof.
  revert n. induction l as [|c l IH]; intros [|n]; cbn; [done..| |]; intros H.
  - injection H as ->. rewrite !(assoc_L (++)). apply Permutation_app_tail, Permutation_app_comm.
  - rewrite (Permutation_app_comm (f a)), <- (assoc_L (++)).
    rewrite (Permutation_app_comm _ (f a)), (IH _ H).
    rewrite !(assoc_L (++)). apply Permutation_app_tail, Permutation_app_comm.
Qed.

Lemma elem_of_concat_map {A B : Type} (f : A → list B) (l : list A) (n : nat) (a : A) (b : B) :
  l !! n = Some a → b ∈ f a → b ∈ concat (map f l).
Proof.
  revert n. induction l as [|c l IH]; intros [|n]; cbn; [done..| |]; intros H Hb;
    apply elem_of_app; [left; by injection H as ->|right; eauto].
Qed.

Lemma exchange_perm {A : Type} (o b b' x x' : list A) (p : A) :
  o ++ b' ≡ₚ p :: b → b ++ x' ≡ₚ b' ++ x → o ++ x' ≡ₚ p :: x.
Proof.
  intros H1 H2. apply (Permutation_app_inv_l b').
  rewrite (assoc_L (++)), (Permutation_app_comm b'), H1. cbn. rewrite H2.
  by rewrite Permutation_middle.
Qed.

(** The instructions that hold a port, and those of one cycle. *)
Definition cycleInsts (b : IEWStruct) : list DynInstPtr := concat (map option_list (ic_insts b)).
Definition portInsts (x : IEW) : list DynInstPtr := concat (map cycleInsts (iewQueue x)).

Definition occupied (x : IEW) (c n : Z) : Prop := ∃ q, slot c n x = Ok (Some q).
Definition free (x : IEW) (c n : Z) : Prop := slot c n x = Ok None.

Section slots.
Implicit Types (x : IEW) (c n : Z).

Lemma slot_Ok x c n o :
  slot c n x = Ok o ↔
  0 <= c ∧ 0 <= n ∧ ∃ b, iewQueue x !! Z.to_nat c = Some b ∧ ic_insts b !! Z.to_nat n = Some o.
Proof.
  unfold slot. split.
  - intros H. inv_ok H. apply vec_get_Ok in E as [? ?]. apply vec_get_Ok in H as [? ?]. eauto 6.
  - intros (? & ? & b & ? & ?). rewrite (proj2 (vec_get_Ok _ _ _ b)) by done.
    by apply vec_get_Ok.
Qed.

Lemma slot_port x c n q : slot c n x = Ok (Some q) → q ∈ portInsts x.
Proof.
  intros (_ & _ & b & Hb & Hq)%slot_Ok. eapply elem_of_concat_map; [done|].
  eapply elem_of_concat_map; [done|]. by apply list_elem_of_singleton.
Qed.

(** Writing a slot that exists: what it does to every slot and to the ports. *)
Lemma setSlot_spec x c n o p :
  slot c n x = Ok o →
  ∃ x', setSlot c n p x = Ok x' ∧
    (∀ c' n', slot c' n' x' = if decide (c' = c ∧ n' = n) then Ok (Some p) else slot c' n' x) ∧
    option_list o ++ portInsts x' ≡ₚ p :: portInsts x ∧
    x' = set_iewQueue (iewQueue x') x ∧
    map ic_size (iewQueue x') = map ic_size (iewQueue x).
Proof.
  intros Hs. pose proof Hs as (Hc & Hn & b & Hb & Ho)%slot_Ok. unfold setSlot.
  pose proof (lookup_lt_Some _ _ _ Hb). pose proof (lookup_lt_Some _ _ _ Ho).
  rewrite (proj2 (vec_get_Ok _ _ _ b)) by done.
  rewrite !vec_set_total by lia. eexists; split; [reflexivity|]. split_and!; cbn.
  - intros c' n'. unfold slot; cbn.
    rewrite (vec_get_set _ _ _ _ _ c' (vec_set_total "iewQueue" (iewQueue x) c _ ltac:(lia))).
    destruct (Z.eqb_spec c' c) as [->|]; [|by rewrite decide_False by tauto]. cbn.
    rewrite (vec_get_set _ _ _ _ _ n' (vec_set_total "insts" (ic_insts b) n _ ltac:(lia))).
    destruct (Z.eqb_spec n' n) as [->|]; [by rewrite decide_True|rewrite decide_False by tauto].
    by rewrite (proj2 (vec_get_Ok _ _ _ b)).
  - eapply exchange_perm; [|apply (concat_map_insert cycleInsts _ _ _ _ Hb)].
    apply (concat_map_insert option_list _ _ _ (Some p) Ho).
  - done.
  - change (map ic_size) with (fmap ic_size : list IEWStruct → list Z).
    rewrite list_fmap_insert. apply list_insert_id. by rewrite list_lookup_fmap, Hb.
Qed.
End slots.

(** ** The search *)

(** What the search relies on of the instructions it meets: they exist, are not
    stalled, and no two have the same number. *)
Definition port_live (s : store) (q : DynInstPtr) : Prop :=
  ∃ i, s !! q = Some i ∧ isDolmaStalled i = false.
Definition ports_ok (s : store) (l : list DynInstPtr) : Prop :=
  Forall (port_live s) l ∧ NoDup ((λ q, seqNum <$> s !! q) <$> l).

#[export] Instance ports_ok_proper (s : store) : Proper ((≡ₚ) ==> iff) (ports_ok s).
Proof. intros l l' H. unfold ports_ok. by rewrite H. Qed.

(** The position of the search is [(wbCycle, wbNumInst)]. *)
Definition at_or_before (c n c' n' : Z) : Prop := c < c' ∨ c = c' ∧ n <= n'.

(** [(c, n)] is the first free port from the position of the search on. *)
Record first_free (x : IEW) (c n : Z) : Prop := {
  ff_free : free x c n;
  ff_width : 0 <= n < wbWidth x;
  ff_here : at_or_before (wbCycle x) (wbNumInst x) c n;
  ff_first : ∀ c' n', 0 <= n' < wbWidth x → at_or_before (wbCycle x) (wbNumInst x) c' n' →
    c' < c ∨ c' = c ∧ n' < n → occupied x c' n';
}.

Definition same_shape (x x' : IEW) : Prop :=
  (∀ c n, occupied x c n ↔ occupied x' c n) ∧ (∀ c n, free x c n ↔ free x' c n) ∧
  map ic_size (iewQueue x') = map ic_size (iewQueue x) ∧ wbWidth x' = wbWidth x.

Record search_inv (s : store) (contention : bool) (idx : Z) (p : DynInstPtr) (x : IEW) (c n : Z)
  : Prop := {
  si_free : first_free x c n;
  si_pos : 0 <= wbCycle x ∧ 0 <= wbNumInst x < wbWidth x;
  si_insts : ports_ok s (p :: portInsts x);
  si_idx : idx ≠ -1 → 0 <= idx < wbWidth x ∧ (occupied x (wbCycle x) idx ∨ wbNumInst x <= idx);
  si_contention : contention = true → idx ≠ -1 ∧ occupied x (wbCycle x - 1) idx;
}.

Lemma same_shape_refl x : same_shape x x.
Proof. done. Qed.
Lemma same_shape_trans x y z : same_shape x y → same_shape y z → same_shape x z.
Proof.
  intros (H1 & H2 & H3 & H4) (G1 & G2 & G3 & G4).
  split_and!; [intros; by rewrite H1|intros; by rewrite H2|congruence|congruence].
Qed.

Section search.
Variable cfg : DolmaConfig.
Variable s : store.

Lemma ports_ok_live l q : ports_ok s l → q ∈ l → ∃ i, s !! q = Some i ∧ isDolmaStalled i = false.
Proof. intros [Hl _] Hq. by eapply Forall_forall in Hl. Qed.

(** Overwriting an occupied slot keeps what is occupied and what is free. *)
Lemma setSlot_shape x c n q p x' :
  slot c n x = Ok (Some q) → setSlot c n p x = Ok x' →
  same_shape x x' ∧ q :: portInsts x' ≡ₚ p :: portInsts x ∧
  wbCycle x' = wbCycle x ∧ wbNumInst x' = wbNumInst x.
Proof.
  intros Hs Hset. destruct (setSlot_spec x c n _ p Hs) as (y & Hy & Hslot & Hp & Hx & Hsz).
  rewrite Hset in Hy. injection Hy as <-.
  split; [|by split; [|split; rewrite Hx]].
  assert (wbWidth x' = wbWidth x) by (by rewrite Hx).
  split_and!; [| |done|done]; intros c' n'; unfold occupied, free; rewrite Hslot;
    destruct (decide _) as [[-> ->]|]; try done; rewrite Hs; naive_solver.
Qed.

Lemma first_free_shape x x' c n :
  same_shape x x' → wbCycle x' = wbCycle x → wbNumInst x' = wbNumInst x →
  first_free x c n → first_free x' c n.
Proof.
  intros (Ho & Hf & _ & Hw) Hc Hn [H1 H2 H3 H4].
  split; rewrite ?Hc, ?Hn, ?Hw; [by apply Hf|done|done|].
  intros c' n' ???. apply Ho. auto.
Qed.

Lemma exchange_ok contention idx p x c n :
  search_inv s contention idx p x c n →
  ∃ p' x', exchange contention idx p x s = Ok (p', x') ∧ search_inv s false idx p' x' c n ∧
    same_shape x x' ∧ p' :: portInsts x' ≡ₚ p :: portInsts x ∧
    wbCycle x' = wbCycle x ∧ wbNumInst x' = wbNumInst x.
Proof.
  intros [Hfree Hpos Hok Hidx Hcon]. destruct contention; cbn; [|by exists p, x].
  destruct (Hcon eq_refl) as (Hne & q & Hq). rewrite Hq.
  destruct (setSlot_spec x _ _ _ p Hq) as (x' & Hx' & _). rewrite Hx'.
  destruct (setSlot_shape _ _ _ _ _ _ Hq Hx') as (Hsh & Hp & Hc & Hn).
  destruct (ports_ok_live _ p Hok ltac:(set_solver)) as (pi & Hpi & _).
  assert (q ∈ portInsts x) as Hin by eauto using slot_port.
  destruct (ports_ok_live _ q Hok ltac:(set_solver)) as (qi & Hqi & _).
  rewrite (proj2 (deref_Ok _ _ _) Hpi), (proj2 (deref_Ok _ _ _) Hqi).
  assert (seqNum pi ≠ seqNum qi) as Hsn.
  { destruct Hok as [_ Hnd]. cbn in Hnd. apply NoDup_cons in Hnd as [Hnd _].
    intros Heq. apply Hnd. apply list_elem_of_fmap. exists q. by rewrite Hpi, Hqi; cbn; rewrite Heq. }
  rewrite (proj2 (Z.eqb_neq _ _) Hsn). cbn. exists q, x'. split; [done|].
  split; [|done]. destruct Hsh as (Ho & Hf & Hz & Hw).
  split; rewrite ?Hc, ?Hn, ?Hw; [by eapply first_free_shape|done|by rewrite Hp| |done].
  intros H. destruct (Hidx H) as [? H']. split; [done|]. by rewrite <- Ho.
Qed.

Lemma nextSlot_ok idx p x c n idx' :
  search_inv s false idx p x c n → occupied x (wbCycle x) (wbNumInst x) →
  idx' = idx ∨ idx' = wbNumInst x →
  ∃ contention y, nextSlot idx' x = (contention, y) ∧ search_inv s contention idx' p y c n ∧
    same_shape x y ∧ portInsts y = portInsts x ∧
    wbCycle y * wbWidth y + wbNumInst y = wbCycle x * wbWidth x + wbNumInst x + 1.
Proof.
  intros [Hfree [Hc Hn] Hok Hidx _] Hocc Hidx'.
  assert (idx' ≠ -1 → 0 <= idx' < wbWidth x ∧
          (occupied x (wbCycle x) idx' ∨ wbNumInst x + 1 <= idx')) as Hi.
  { intros Hne. destruct Hidx' as [->| ->]; [|by split; [lia|left]].
    destruct (Hidx Hne) as [? [?|?]]; split; auto.
    destruct (decide (idx = wbNumInst x)) as [->|]; [by left|right; lia]. }
  assert (¬ (wbCycle x = c ∧ wbNumInst x = n)) as Hnot.
  { intros [<- <-]. pose proof (ff_free _ _ _ Hfree). destruct Hocc as [q Hq]. unfold free in *. congruence. }
  assert (first_free x c n) as [F1 F2 F3 F4] by done.
  unfold nextSlot. cbn. destruct (Z.eqb_spec (wbNumInst x + 1) (wbWidth x)) as [He|He];
    (eexists _, _; split; [reflexivity|]); (split; [|split; [done|split; [done|cbn; lia]]]);
    (split; [split; [exact F1|exact F2| |]| |done| |]); cbn; unfold at_or_before in *; try lia.
  all: try (intros c' n' ? ? ?; apply F4; [done|lia|done]).
  all: try (intros Hne; destruct (Hi Hne) as [? [?|?]]; (split; [done|]); (by left) || (right; lia)).
  - intros Hne%negb_true_iff%Z.eqb_neq. split; [done|]. destruct (Hi Hne) as [? [Ho|?]]; [|lia].
    by replace (wbCycle x + 1 - 1) with (wbCycle x) by lia.
Qed.

(** The search ends at the first free port with the same instructions and the
    same ports taken. *)
Lemma findSlot_ok fuel : ∀ contention idx p x c n,
  search_inv s contention idx p x c n →
  c * wbWidth x + n - (wbCycle x * wbWidth x + wbNumInst x) < Z.of_nat fuel →
  ∃ p' x', findSlot cfg fuel contention idx p x s = Ok (p', x') ∧
    wbCycle x' = c ∧ wbNumInst x' = n ∧ same_shape x x' ∧
    p' :: portInsts x' ≡ₚ p :: portInsts x.
Proof.
  induction fuel as [|f IH]; intros contention idx p x c n Hinv Hfuel.
  { destruct Hinv as [[_ Hw Hat _] [? ?] _ _ _]. destruct Hat as [?|[Heq ?]]; [|rewrite Heq in *]; nia. }
  assert (first_free x c n) as [F1 F2 F3 F4] by apply Hinv.
  destruct (decide (wbCycle x = c ∧ wbNumInst x = n)) as [[Hc Hn]|Hne].
  { subst c n. exists p, x. cbn. unfold free in F1. by rewrite F1. }
  assert (occupied x (wbCycle x) (wbNumInst x)) as Hocc.
  { destruct (si_pos _ _ _ _ _ _ _ Hinv). apply F4; [done|by right|].
    unfold at_or_before in F3. lia. }
  pose proof Hocc as [q Hq]. cbn. rewrite Hq.
  destruct (ports_ok_live _ q (si_insts _ _ _ _ _ _ _ Hinv)) as (qi & Hqi & Hst).
  { apply slot_port in Hq. set_solver. }
  rewrite (proj2 (deref_Ok _ _ _) Hqi), Hst. cbn.
  destruct (exchange_ok _ _ _ _ _ _ Hinv) as (p1 & x1 & -> & Hinv1 & Hsh1 & Hp1 & Hc1 & Hn1).
  destruct (ports_ok_live _ p1 (si_insts _ _ _ _ _ _ _ Hinv1)) as (pi & Hpi & _); [set_solver|].
  rewrite (proj2 (deref_Ok _ _ _) Hpi).
  destruct (nextSlot_ok _ _ _ _ _ (if unsafeContender cfg qi pi then wbNumInst x1 else idx) Hinv1)
    as (k & x2 & -> & Hinv2 & Hsh2 & Hp2 & Hpos2).
  { rewrite Hc1, Hn1. by apply Hsh1. } { destruct (unsafeContender cfg qi pi); auto. }
  assert (wbWidth x1 = wbWidth x ∧ wbWidth x2 = wbWidth x) as [Hw1 Hw2].
  { destruct Hsh1 as (_ & _ & _ & ?), Hsh2 as (_ & _ & _ & ?). split; congruence. }
  destruct (IH _ _ _ _ _ _ Hinv2) as (p' & x' & Hrun & Hc' & Hn' & Hsh' & Hp').
  { rewrite Hpos2, Hw1, Hw2, Hc1, Hn1. lia. }
  exists p', x'. split_and!; [done..| |].
  - eapply same_shape_trans; [done|]. by eapply same_shape_trans.
  - by rewrite Hp', Hp2.
Qed.
End search.

(** Counting an instruction of a cycle leaves the slots alone. *)
Lemma countSlot_spec x c b :
  vec_get "iewQueue" (iewQueue x) c = Ok b →
  ∃ q, vec_set "iewQueue" (iewQueue x) c (set_ic_size (ic_size b + 1) b) = Ok q ∧
    (∀ c' n', slot c' n' (set_iewQueue q x) = slot c' n' x) ∧
    portInsts (set_iewQueue q x) = portInsts x ∧
    map ic_size q = alter (Z.add 1) (Z.to_nat c) (map ic_size (iewQueue x)).
Proof.
  intros Hg. pose proof Hg as [Hc Hb]%vec_get_Ok. pose proof (lookup_lt_Some _ _ _ Hb).
  eexists; split; [apply vec_set_total; lia|]. split_and!.
  - intros c' n'. unfold slot; cbn.
    rewrite (vec_get_set _ _ _ _ _ c' (vec_set_total "iewQueue" (iewQueue x) c _ ltac:(lia))).
    destruct (Z.eqb_spec c' c) as [->|]; [by rewrite Hg|done].
  - unfold portInsts; cbn. f_equal. change (map cycleInsts) with (fmap (M := list) cycleInsts).
    rewrite list_fmap_insert. apply list_insert_id. by rewrite list_lookup_fmap, Hb.
  - change (map ic_size) with (fmap (M := list) ic_size). rewrite list_fmap_insert; cbn.
    apply list_eq. intros k. destruct (decide (k = Z.to_nat c)) as [->|].
    + rewrite list_lookup_insert_eq by (rewrite length_fmap; lia).
      rewrite list_lookup_alter_eq, list_lookup_fmap, Hb. cbn. f_equal. lia.
    + by rewrite list_lookup_insert_ne, list_lookup_alter_ne.
Qed.

(** Writeback ports are handed out without loss.  When some port of the
    queue to commit is free from the current position on, and the instructions
    concerned exist, are not stalled and have distinct numbers, [instToCommit]
    returns: it ends at the first free port, which is the only one that becomes
    occupied, the instructions in the queue are those that were there and the
    new one (whatever exchanges DOLMA makes on the way), and the count of that
    cycle alone goes up by one. *)
Theorem instToCommit_first_free (cfg : DolmaConfig) (p : DynInstPtr) (x : IEW) (s : store) (c n : Z)
    (Hpos : 0 <= wbCycle x ∧ 0 <= wbNumInst x < wbWidth x)
    (Hfree : first_free x c n)
    (Hok : ports_ok s (p :: portInsts x)) :
  ∃ x', instToCommit cfg p x s = Ok x' ∧
    wbCycle x' = c ∧ wbNumInst x' = n ∧
    portInsts x' ≡ₚ p :: portInsts x ∧
    (∀ c' n', occupied x' c' n' ↔ occupied x c' n' ∨ (c' = c ∧ n' = n)) ∧
    map ic_size (iewQueue x') = alter (Z.add 1) (Z.to_nat c) (map ic_size (iewQueue x)).
Proof.
  destruct (findSlot_ok cfg s (slotFuel x) false (-1) p x c n)
    as (p1 & x1 & Hfind & Hc & Hn & (Ho & Hf & Hz & Hw) & Hp); [by split| |].
  { destruct Hfree as [Hfr Hnw _ _]. apply slot_Ok in Hfr as (? & _ & b & Hb%lookup_lt_Some & _).
    unfold slotFuel. nia. }
  unfold instToCommit. rewrite Hfind.
  assert (slot c n x1 = Ok None) as Hs by apply Hf, Hfree. rewrite Hc, Hn.
  destruct (setSlot_spec x1 c n None p1 Hs) as (x2 & -> & Hslot & Hp2 & Hx2 & Hz2).
  assert (wbCycle x2 = c ∧ wbNumInst x2 = n) as [Hc2 Hn2] by (rewrite Hx2; done). rewrite Hc2.
  assert (slot c n x2 = Ok (Some p1)) as Hs2 by (rewrite Hslot, decide_True; done).
  unfold slot in Hs2. destruct (vec_get "iewQueue" (iewQueue x2) c) as [b|] eqn:Hb; [|done].
  destruct (countSlot_spec _ _ _ Hb) as (q & -> & Hq & Hpq & Hzq).
  exists (set_iewQueue q x2). split_and!; [done..| | |].
  - rewrite Hpq. cbn in Hp2. by rewrite Hp2.
  - intros c' n'. unfold occupied at 1. rewrite Hq, Hslot, Ho.
    destruct (decide _); [naive_solver|unfold occupied; naive_solver].
  - cbn. by rewrite Hzq, Hz2, Hz.
Qed.

(** ** The exchange *)

(** Without contention from the cycle before, the search passes the rest of a
    full cycle without touching it. *)
Lemma findSlot_row (cfg : DolmaConfig) (s : store) (fuel : nat) : ∀ idx p pi x,
  s !! p = Some pi →
  wbNumInst x < wbWidth x →
  (∀ n, wbNumInst x <= n < wbWidth x →
     ∃ q, slot (wbCycle x) n x = Ok (Some q) ∧ port_live s q) →
  free x (wbCycle x + 1) 0 →
  wbWidth x - wbNumInst x < Z.of_nat fuel →
  findSlot cfg fuel false idx p x s = Ok (p, set_wbNumInst 0 (set_wbCycle (wbCycle x + 1) x)).
Proof.
  induction fuel as [|f IH]; intros idx p pi x Hp Hn Hrow Hnext Hfuel; [lia|].
  destruct (Hrow (wbNumInst x)) as (q & Hq & qi & Hqi & Hst); [lia|]. cbn. rewrite Hq.
  rewrite (proj2 (deref_Ok _ _ _) Hqi), Hst. cbn. rewrite (proj2 (deref_Ok _ _ _) Hp).
  set (idx' := if unsafeContender cfg qi pi then _ else _). unfold nextSlot. cbn.
  destruct (Z.eqb_spec (wbNumInst x + 1) (wbWidth x)) as [He|He].
  - destruct f as [|f]; [lia|]. cbn.
    change (slot (wbCycle x + 1) 0 _) with (slot (wbCycle x + 1) 0 x).
    unfold free in Hnext. by rewrite Hnext.
  - apply (IH idx' p pi (set_wbNumInst (wbNumInst x + 1) x)); cbn; try done; try lia.
    intros n Hn'. apply (Hrow n). lia.
Qed.

(** The eldest instructions do not always get the ports.  When the rest of
    the current cycle is taken and the first port of the next cycle is free,
    [instToCommit] gives the instruction the next cycle and leaves the current
    one as it is, also when a port of the current cycle belongs to a younger,
    restricted instruction of the same thread: the exchange that should put the
    older one first is only made once the next cycle is seen to be taken too. *)
Theorem older_waits_for_restricted (cfg : DolmaConfig) (p q : DynInstPtr) (pi qi : DynInst) (x : IEW)
    (s : store) (n : Z)
    (Hpos : 0 <= wbCycle x ∧ 0 <= wbNumInst x < wbWidth x)
    (Hrow : ∀ n, wbNumInst x <= n < wbWidth x →
       ∃ q, slot (wbCycle x) n x = Ok (Some q) ∧ port_live s q)
    (Hnext : free x (wbCycle x + 1) 0)
    (Hp : s !! p = Some pi) (Hq : s !! q = Some qi)
    (Hn : wbNumInst x <= n < wbWidth x) (Hat : slot (wbCycle x) n x = Ok (Some q))
    (Hunsafe : isDolmaRestricted qi = true ∧ threadNumber qi = threadNumber pi ∧ seqNum pi < seqNum qi) :
  ∃ x', instToCommit cfg p x s = Ok x' ∧
    slot (wbCycle x + 1) 0 x' = Ok (Some p) ∧
    (∀ k, slot (wbCycle x) k x' = slot (wbCycle x) k x) ∧
    slot (wbCycle x) n x' = Ok (Some q).
Proof.
  unfold instToCommit. rewrite (findSlot_row cfg s _ _ p pi x Hp (proj2 (proj2 Hpos)) Hrow Hnext).
  2: { apply slot_Ok in Hat as (? & _ & b & Hb%lookup_lt_Some & _). unfold slotFuel. nia. }
  cbn. set (y := set_wbNumInst 0 _).
  destruct (setSlot_spec y (wbCycle x + 1) 0 None p Hnext) as (x2 & -> & Hslot & _ & Hx2 & _).
  assert (wbCycle x2 = wbCycle x + 1) as -> by (by rewrite Hx2).
  assert (slot (wbCycle x + 1) 0 x2 = Ok (Some p)) as Hs2 by (rewrite Hslot, decide_True; done).
  pose proof Hs2 as Hv. unfold slot in Hv.
  destruct (vec_get "iewQueue" (iewQueue x2) (wbCycle x + 1)) as [b|] eqn:Hb; [|done].
  destruct (countSlot_spec _ _ _ Hb) as (v & -> & Hvs & _).
  assert (∀ k, slot (wbCycle x) k (set_iewQueue v x2) = slot (wbCycle x) k x) as Hsame.
  { intros k. rewrite Hvs, Hslot, decide_False by lia. done. }
  exists (set_iewQueue v x2). split_and!; [done|by rewrite Hvs|done|by rewrite Hsame].
Qed.

Module PortsExample.
Definition nop (sn : Z) : DynInst := initInst (mkStaticInst 0%N 1 0 0 "") (4 * sn) sn 0.
Definition restricted (sn : Z) : DynInst := status_set ControlRestricted (nop sn).
Definition insts : store := {[ 3 := nop 3; 4 := nop 4; 5 := nop 5; 10 := restricted 10 ]}.
Definition mode : DolmaConfig := mkDolmaConfig true true false false.

Definition cycle (l : list (option DynInstPtr)) : IEWStruct :=
  mkIEWStruct l (Z.of_nat (length (concat (map option_list l)))) (λ _, None) (λ _, 0) (λ _, 0)
    (λ _, false) (λ _, false) (λ _, false).
Definition none : IewToRename :=
  mkIewToRename (λ _, 0) (λ _, 0) (λ _, 0) (λ _, 0) (λ _, 0) (λ _, 0) (λ _, 0) (λ _, 0)
    (λ _, false) (λ _, false) (λ _, false) (λ _, false).
Definition stage (width : Z) (slots : list IEWStruct) : IEW :=
  mkIEW true (λ _, StRunning) StRunning StIdle (λ _, []) (λ _, []) (λ _, false) false false false
    0 0 slots none [] 1 2 width 8 1 [0%nat].
(** One port per cycle: 10 (restricted), 3 and 4 hold the first three cycles. *)
Definition narrow : IEW :=
  stage 1 [cycle [Some 10]; cycle [Some 3]; cycle [Some 4]; cycle [None]].
(** Two ports per cycle: the first cycle is full, the second is free. *)
Definition wide : IEW := stage 2 [cycle [Some 3; Some 10]; cycle [None; None]].
Definition after : IEW :=
  match instToCommit mode 5 narrow insts with Ok x => x | Err _ => narrow end.
End PortsExample.

(** An exchange goes on with the index of an earlier cycle and then puts out
    whatever it finds there.  With one port per cycle, instruction 10 (restricted)
    in the first, 3 and 4 (not restricted) in the second and third, instruction 5
    asks for a port: 5 and 10 change places as intended, but the index is kept,
    so that the restricted 10 then takes the port of 3, the oldest of all, which
    ends up last. *)
Theorem restricted_displaces_oldest :
  instToCommit PortsExample.mode 5 PortsExample.narrow PortsExample.insts = Ok PortsExample.after ∧
  isDolmaRestricted (PortsExample.restricted 10) = true ∧
  isDolmaRestricted (PortsExample.nop 3) = false ∧
  slot 1 0 PortsExample.narrow = Ok (Some 3) ∧
  slot 1 0 PortsExample.after = Ok (Some 10) ∧
  slot 3 0 PortsExample.after = Ok (Some 3).
Proof. by_eval || (split_and!; vm_compute; reflexivity). Qed.

Lemma first_free_narrow : first_free PortsExample.narrow 3 0.
Proof.
  split; [reflexivity|cbn; lia|cbn; unfold at_or_before; lia|]. unfold at_or_before; cbn.
  intros c n Hn Hat Hb. assert (n = 0) as -> by lia.
  assert (c = 0 ∨ c = 1 ∨ c = 2) as [->|[->| ->]] by lia; eexists; reflexivity.
Qed.

Lemma instToCommit_first_free_witness :
  ∃ x', instToCommit PortsExample.mode 5 PortsExample.narrow PortsExample.insts = Ok x' ∧
    portInsts x' ≡ₚ 5 :: portInsts PortsExample.narrow.
Proof.
  destruct (instToCommit_first_free PortsExample.mode 5 PortsExample.narrow PortsExample.insts 3 0)
    as (x' & H & _ & _ & Hp & _); [cbn; lia|apply first_free_narrow| |eauto].
  split; [|by_eval]. repeat constructor; (eexists; split; [reflexivity|by_eval]).
Defined.

Lemma older_waits_for_restricted_witness :
  ∃ x', instToCommit PortsExample.mode 5 PortsExample.wide PortsExample.insts = Ok x' ∧
    slot 1 0 x' = Ok (Some 5) ∧ slot 0 1 x' = Ok (Some 10).
Proof.
  destruct (older_waits_for_restricted PortsExample.mode 5 10 (PortsExample.nop 5)
              (PortsExample.restricted 10) PortsExample.wide PortsExample.insts 1)
    as (x' & H & H1 & _ & H2); try reflexivity; [cbn; lia| |cbn; lia| |eauto].
  - cbn. intros n Hn. assert (n = 0 ∨ n = 1) as [->| ->] by lia;
      (eexists; split; [reflexivity|]); (eexists; split; [reflexivity|by_eval]).
  - split_and!; [by_eval..|cbn; lia].
Defined.
