(* ===== verification/IewRedirect.v ===== *)
(** * Redirects reported to commit

    Within a cycle several instructions of a thread may find that fetch went
    wrong: mispredicted branches ([squashDueToBranch]) and memory-order
    violations ([squashDueToMemOrder]).  The wire to commit carries one redirect
    per thread; it is the one of the oldest instruction, and when it comes from a
    restricted instruction the instruction is marked as pending. *)

From S2P Require Import Prelude Regs Config DynInst Metadata Rob InstQueue LsqUnit Lsq Iew IewPorts.

Local Open Scope Z_scope.

(** A redirect as it is reported. *)
Inductive Report : Type :=
  | Mispredict (p : DynInstPtr)
  | Violation (conflicting violator : DynInstPtr).

(** The instruction fetch goes back to: a violator is squashed itself. *)
Definition subject (r : Report) : DynInstPtr :=
  match r with Mispredict p => p | Violation _ v => v end.
Definition is_violation (r : Report) : bool :=
  match r with Mispredict _ => false | Violation _ _ => true end.

Section redirects.
Variable cfg : DolmaConfig.
Variable branching : DynInst → bool.
Variable advancePC : DynInst → Addr.
Variable tid : ThreadID.
(** [TheISA::advancePC] works on the PC and the static instruction. *)
Hypothesis advancePC_ext : ∀ i j,
  pc i = pc j → staticInst i = staticInst j → advancePC i = advancePC j.

Definition report (xs : IEW * store) (r : Report) : outcome (IEW * store) :=
  match r with
  | Mispredict p => squashDueToBranch cfg branching advancePC p tid (fst xs) (snd xs)
  | Violation c v => squashDueToMemOrder cfg c v tid (fst xs) (snd xs)
  end.

(** What reporting leaves of an instruction. *)
Record reported_as (i i' : DynInst) : Prop := {
  ra_seqNum : seqNum i' = seqNum i;
  ra_pc : pc i' = pc i;
  ra_static : staticInst i' = staticInst i;
  ra_restricted : isDolmaRestricted i' = isDolmaRestricted i;
  ra_inducer : isControlInducer i' = isControlInducer i;
  ra_branch : isPendingBranch i = true → isPendingBranch i' = true;
  ra_memOrder : isPendingMemOrder i = true → isPendingMemOrder i' = true;
}.

#[export] Instance reported_as_preorder : PreOrder reported_as.
Proof. split; [done|]. intros ??? [] []. split; try congruence; auto. Qed.

Definition stores_as (s s' : store) : Prop :=
  ∀ p i, s !! p = Some i → ∃ i', s' !! p = Some i' ∧ reported_as i i'.

#[export] Instance stores_as_preorder : PreOrder stores_as.
Proof.
  split; [by intros s p i; exists i|]. intros s1 s2 s3 H1 H2 p i Hi.
  destruct (H1 p i Hi) as (j & Hj & ?). destruct (H2 p j Hj) as (k & ? & ?).
  exists k. split; [done|]. by etrans.
Qed.

Lemma stores_as_insert s p i i' :
  s !! p = Some i → reported_as i i' → stores_as s (<[p := i']> s).
Proof.
  intros Hp Hi q j Hq. destruct (decide (p = q)) as [<-|].
  - rewrite lookup_insert_eq. simplify_eq. eauto.
  - rewrite lookup_insert_ne by done. by exists j.
Qed.

Ltac flag_frame :=
  unfold isDolmaRestricted, isControlRestricted, isDataRestricted, isControlInducer,
    isPendingBranch, isPendingMemOrder, isSquashed, st; cbn; autorewrite with bits; cbn;
  repeat match goal with |- context [bs_test ?s ?b] => destruct (bs_test s b) end; cbn; auto.

Lemma restricted_not_squashed i : isDolmaRestricted i = true → isSquashed i = false.
Proof. unfold isDolmaRestricted. by destruct (isSquashed i). Qed.

Lemma setPendingBranch_frame taken i i' :
  setPendingBranch cfg taken i = Ok i' → isDolmaRestricted i = true →
  reported_as i i' ∧ isPendingBranch i' = true.
Proof.
  unfold setPendingBranch. intros H Hr%restricted_not_squashed. inv_ok H.
  split; [split; try done; flag_frame|]. revert Hr. flag_frame.
Qed.

Lemma setPendingMemOrder_frame i i' :
  setPendingMemOrder cfg i = Ok i' → reported_as i i' ∧ isPendingMemOrder i' = true.
Proof.
  unfold setPendingMemOrder. intros H. inv_ok H. apply negb_true_iff in E1.
  split; [split; try done; flag_frame|]. revert E1. flag_frame.
Qed.

Lemma setPendingMemOrderStore_frame c i i' :
  setPendingMemOrderStore cfg c i = Ok i' → reported_as i i' ∧ isPendingMemOrder i' = true.
Proof.
  unfold setPendingMemOrderStore. intros H. inv_ok H. apply negb_true_iff in E0.
  split; [split; try (destruct (_ || _); done); destruct (_ || _); flag_frame|].
  revert E0. destruct (_ || _); flag_frame.
Qed.

Lemma setViolator_frame v i i' : setViolator cfg v i = Ok i' → reported_as i i'.
Proof. unfold setViolator. intros H. inv_ok H. done. Qed.

(** An update of an instruction with such a frame. *)
Lemma modifyM_as f p s s' (Q : DynInst → Prop) :
  (∀ i i', s !! p = Some i → f i = Ok i' → reported_as i i' ∧ Q i') → modifyM f p s = Ok s' →
  stores_as s s' ∧ ∃ i', s' !! p = Some i' ∧ Q i'.
Proof.
  intros Hf (i & i' & Hi & Hfi & ->)%modifyM_Ok. destruct (Hf i i' Hi Hfi) as [Ha HQ].
  split; [by eapply stores_as_insert|]. exists i'. by rewrite lookup_insert_eq.
Qed.

Lemma setToCommit_Ok f x x' b :
  toCommit x = Ok b → setToCommit f x = Ok x' → toCommit x' = Ok (f b).
Proof.
  unfold setToCommit. intros Hb H. rewrite Hb in H. inv_ok H. unfold toCommit.
  etrans; [apply (vec_get_set _ _ _ _ _ 0 E)|done].
Qed.

(** ** One report *)

Definition content (b : IEWStruct) (r : Report) (i : DynInst) : Prop :=
  ic_squash b tid = true ∧ ic_squashedSeqNum b tid = seqNum i ∧
  match r with
  | Mispredict p => ic_includeSquashInst b tid = false ∧ ic_mispredictInst b tid = Some p ∧
                    ic_pc b tid = advancePC i
  | Violation _ _ => ic_includeSquashInst b tid = true ∧ ic_mispredictInst b tid = None ∧
                     ic_pc b tid = pc i
  end.

(** The instruction whose redirect has to be delayed is marked. *)
Definition held (s s' : store) (r : Report) (i : DynInst) : Prop :=
  match r with
  | Mispredict p => isControlInducer i = true → isDolmaRestricted i = true →
      ∃ j, s' !! p = Some j ∧ isPendingBranch j = true
  | Violation c v =>
      isDolmaRestricted i = true ∨
      isSTT cfg = false ∧ (∃ ci, s !! c = Some ci ∧ isDolmaRestricted ci = true) →
      ∃ j, s' !! v = Some j ∧ isPendingMemOrder j = true
  end.

(** The number a report must be below (or at, for a violation) to replace the
    one on the wire. *)
Definition beats (r : Report) (sn sn' : InstSeqNum) : Prop :=
  if is_violation r then sn <= sn' else sn < sn'.

Lemma squashDueToBranch_cases p x s x' s' b i :
  squashDueToBranch cfg branching advancePC p tid x s = Ok (x', s') →
  toCommit x = Ok b → s !! p = Some i →
  ic_squash b tid = true ∧ ¬ beats (Mispredict p) (seqNum i) (ic_squashedSeqNum b tid) ∧
    x' = x ∧ s' = s ∨
  (ic_squash b tid = true → beats (Mispredict p) (seqNum i) (ic_squashedSeqNum b tid)) ∧
    stores_as s s' ∧ held s s' (Mispredict p) i ∧
    ∃ b', toCommit x' = Ok b' ∧ content b' (Mispredict p) i.
Proof.
  unfold squashDueToBranch. intros H Hb Hi. rewrite Hb, (proj2 (deref_Ok _ _ _) Hi) in H.
  destruct (_ || _) eqn:Hc.
  - right. apply orb_true_iff in Hc. split; [intros Hs; rewrite Hs in Hc; cbn; lia|].
    inv_ok H. split_and!; [| |].
    + destruct (isControlInducer i && isDolmaRestricted i) eqn:Hcr; [|by simplify_eq].
      apply andb_true_iff in Hcr as [_ Hr].
      eapply (modifyM_as _ _ _ _ (λ _, True)); [|done]. intros j i' Hj Hs.
      split; [|done]. simplify_eq. by eapply setPendingBranch_frame.
    + cbn. intros H1 H2. rewrite H1, H2 in E. cbn in E.
      eapply (modifyM_as _ _ _ _ (λ j, isPendingBranch j = true)); [|done]. intros j i' Hj Hs.
      simplify_eq. by eapply setPendingBranch_frame.
    + eexists. split; [exact (setToCommit_Ok _ _ _ _ Hb E0)|].
      repeat split; cbn; apply fn_lookup_insert.
  - left. apply orb_false_iff in Hc as [Hs%negb_false_iff Hlt]. inv_ok H. cbn. split_and!; try done. lia.
Qed.

Lemma squashDueToMemOrder_cases c v x s x' s' b i :
  squashDueToMemOrder cfg c v tid x s = Ok (x', s') →
  toCommit x = Ok b → s !! v = Some i →
  ic_squash b tid = true ∧ ¬ beats (Violation c v) (seqNum i) (ic_squashedSeqNum b tid) ∧
    x' = x ∧ s' = s ∨
  (ic_squash b tid = true → beats (Violation c v) (seqNum i) (ic_squashedSeqNum b tid)) ∧
    stores_as s s' ∧ held s s' (Violation c v) i ∧
    ∃ b', toCommit x' = Ok b' ∧ content b' (Violation c v) i.
Proof.
  unfold squashDueToMemOrder. intros H Hb Hi. rewrite Hb, (proj2 (deref_Ok _ _ _) Hi) in H.
  destruct (negb _ || _) eqn:Hc.
  2: { left. apply orb_false_iff in Hc as [Hs%negb_false_iff Hlt]. inv_ok H. cbn. split_and!; try done. lia. }
  right. apply orb_true_iff in Hc. split; [intros Hs; rewrite Hs in Hc; cbn; lia|].
  inv_ok H. rename a into y, a0 into ci. apply deref_Ok in E0.
  assert (∃ b', toCommit (set_wroteToTimeBuffer true y) = Ok b' ∧ content b' (Violation c v) i).
  { eexists. split; [exact (setToCommit_Ok _ _ _ _ Hb E)|].
    repeat split; cbn; apply fn_lookup_insert. }
  cbn. destruct (isDolmaRestricted ci && negb (isSTT cfg)) eqn:Hr.
  - inv_ok E1. rename a into s1.
    destruct (modifyM_as _ _ _ _ (λ j, isPendingMemOrder j = true) (λ j i' _, setPendingMemOrder_frame j i') E2)
      as (Hs1 & j & Hj & Hpend).
    destruct (modifyM_as _ _ _ _ (λ _, True) (λ j i' _ H, conj (setViolator_frame v j i' H) I) E1)
      as (Hs2 & _).
    split; [by etrans|]. split; [|done]. intros _. destruct (Hs2 v j Hj) as (k & Hk & ?).
    exists k. split; [done|]. by apply (ra_memOrder j).
  - destruct (isDolmaRestricted i) eqn:Hri.
    + destruct (modifyM_as _ _ _ _ (λ j, isPendingMemOrder j = true)
                  (λ j i' _, setPendingMemOrderStore_frame ci j i') E1) as (Hs1 & Hj).
      done.
    + inv_ok E1. split; [done|]. split; [|done].
      intros [?|[Hstt (cj & Hcj & Hrc)]]; [done|]. simplify_eq. by rewrite Hrc, Hstt in Hr.
Qed.

(** ** The reports of a cycle *)

(** [r], about [i], is to be preferred to [r'], about [i']. *)
Definition precedes (r : Report) (i : DynInst) (r' : Report) (i' : DynInst) : Prop :=
  seqNum i < seqNum i' ∨ seqNum i = seqNum i' ∧ (is_violation r' = true → is_violation r = true).

Definition carries (s s' : store) (rs : list Report) (b : IEWStruct) : Prop :=
  ∃ r i, r ∈ rs ∧ s !! subject r = Some i ∧ content b r i ∧ held s s' r i ∧
    ∀ r' i', r' ∈ rs → s !! subject r' = Some i' → precedes r i r' i'.

Definition wire_inv (s : store) (rs : list Report) (xs : IEW * store) : Prop :=
  stores_as s (snd xs) ∧ ∃ b, toCommit (fst xs) = Ok b ∧
    (rs = [] ∧ ic_squash b tid = false ∨ carries s (snd xs) rs b).

(** The description of a redirect does not depend on marks set meanwhile. *)
Lemma content_as b r i j : reported_as i j → content b r j → content b r i.
Proof.
  intros [Hs Hp Ht _ _ _ _] (H1 & H2 & H3). split; [done|]. split; [congruence|].
  destruct r; rewrite <- ?Hp; [|done]. by rewrite (advancePC_ext i j).
Qed.

Lemma held_as s s1 s2 r i j :
  stores_as s s1 → s !! subject r = Some i → s1 !! subject r = Some j → reported_as i j →
  held s1 s2 r j → held s s2 r i.
Proof.
  intros Has Hi Hj [_ _ _ Hr Hin _ _] Hheld. destruct r as [p|c v]; cbn in *.
  - rewrite <- Hr, <- Hin. done.
  - intros H. apply Hheld. rewrite Hr. destruct H as [?|[? (ci & Hci & Hrc)]]; [by left|right].
    split; [done|]. destruct (Has c ci Hci) as (cj & ? & []). exists cj. split; congruence.
Qed.

Lemma held_later s s1 s2 r i : stores_as s1 s2 → held s s1 r i → held s s2 r i.
Proof.
  intros Has Hh. destruct r; cbn in *; intros.
  - destruct Hh as (j & Hj & ?); [done..|]. destruct (Has _ _ Hj) as (k & ? & []). eauto.
  - destruct Hh as (j & Hj & ?); [done..|]. destruct (Has _ _ Hj) as (k & ? & []). eauto.
Qed.

Lemma report_cases r x s x' s' b i :
  report (x, s) r = Ok (x', s') → toCommit x = Ok b → s !! subject r = Some i →
  ic_squash b tid = true ∧ ¬ beats r (seqNum i) (ic_squashedSeqNum b tid) ∧ x' = x ∧ s' = s ∨
  (ic_squash b tid = true → beats r (seqNum i) (ic_squashedSeqNum b tid)) ∧
    stores_as s s' ∧ held s s' r i ∧ ∃ b', toCommit x' = Ok b' ∧ content b' r i.
Proof.
  destruct r; cbn; [apply squashDueToBranch_cases|apply squashDueToMemOrder_cases].
Qed.

Lemma report_subject r x s xs' : report (x, s) r = Ok xs' → is_Some (s !! subject r).
Proof.
  destruct r; cbn; unfold squashDueToBranch, squashDueToMemOrder; intros H; inv_ok1 H;
    inv_ok1 H; apply deref_Ok in E0; eauto.
Qed.

Lemma report_step s rs xs r xs' :
  wire_inv s rs xs → is_Some (s !! subject r) → report xs r = Ok xs' → wire_inv s (rs ++ [r]) xs'.
Proof.
  destruct xs as [x s1], xs' as [x2 s2]. intros (Has & b & Hb & Hinv) [i Hi] Hrep. cbn in *.
  destruct (Has _ _ Hi) as (j & Hj & Hij). pose proof (ra_seqNum _ _ Hij) as Hsn.
  destruct (report_cases _ _ _ _ _ _ _ Hrep Hb Hj)
    as [(Hsq & Hno & -> & ->)|(Hyes & Hs12 & Hheld & b2 & Hb2 & Hcont)].
  - split; [done|]. exists b. split; [done|]. right.
    destruct Hinv as [[_ ?]|(w & iw & Hw & Hiw & Hcw & Hhw & Hall)]; [congruence|].
    exists w, iw. split_and!; [set_solver|done..|]. intros r' i' [Hr'| ->%list_elem_of_singleton]%elem_of_app Hi'; [eauto|].
    simplify_eq. destruct Hcw as (_ & Hsw & _). unfold precedes, beats in *.
    destruct (is_violation r); lia || (destruct (decide (seqNum iw = seqNum i')); [by right|left; lia]).
  - cbn. split; [by etrans|]. exists b2. split; [done|]. right. exists r, i. split_and!.
    + set_solver.
    + done.
    + by eapply content_as.
    + by eapply held_as.
    + intros r' i' [Hr'| ->%list_elem_of_singleton]%elem_of_app Hi'; [|simplify_eq; right; auto].
      destruct Hinv as [[-> _]|(w & iw & Hw & Hiw & (Hsw & Hnw & _) & Hhw & Hall)]; [set_solver|].
      specialize (Hyes Hsw). specialize (Hall _ _ Hr' Hi'). unfold precedes, beats in *.
      destruct (is_violation r); [|left; lia]. destruct (decide (seqNum i = seqNum i')); [by right|left; lia].
Qed.

Lemma reports_inv s rs : ∀ done xs xs',
  wire_inv s done xs → Forall (λ r, is_Some (s !! subject r)) rs →
  foldM report rs xs = Ok xs' → wire_inv s (done ++ rs) xs'.
Proof.
  induction rs as [|r rs IH]; intros dn xs xs' Hinv Hall H; cbn in H.
  - inv_ok H. by rewrite app_nil_r.
  - inv_ok H. apply Forall_cons in Hall as [Hr Hrs].
    rewrite cons_middle, (assoc_L (++)). eapply IH; [|done|done]. by eapply report_step.
Qed.

(** The redirect on the wire is the oldest.  Whatever mispredictions and
    memory-order violations of a thread are reported in a cycle, in whatever
    order, the slot to commit ends up describing one of them that precedes all
    the others: its instruction is the oldest, and at the same instruction a
    violation goes before a misprediction (it squashes the instruction itself).
    When that redirect depends on a restricted instruction, the instruction it
    goes back to has been marked as pending, so that commit can delay it. *)
Theorem oldest_redirect_reported (x x' : IEW) (s s' : store) (b : IEWStruct) (rs : list Report)
    (Hb : toCommit x = Ok b) (Hnone : ic_squash b tid = false) (Hrs : rs ≠ [])
    (Hlive : Forall (λ r, is_Some (s !! subject r)) rs)
    (Hrun : foldM report rs (x, s) = Ok (x', s')) :
  ∃ b' r i, toCommit x' = Ok b' ∧ r ∈ rs ∧ s !! subject r = Some i ∧
    content b' r i ∧ held s s' r i ∧
    (∀ r' i', r' ∈ rs → s !! subject r' = Some i' → precedes r i r' i').
Proof.
  destruct (reports_inv s rs [] (x, s) (x', s')) as (_ & b' & Hb' & Hw); [|done..|].
  { split; [done|]. exists b. auto. }
  destruct Hw as [[Hnil _]|(r & i & ? & ? & ? & ? & ?)]; [done|]. exists b', r, i. done.
Qed.
End redirects.

Module RedirectExample.
Import PortsExample.
(** Two branches, 5 and the restricted 3, and a load 4 that conflicts with store 2. *)
Definition branch3 : DynInst := status_set ControlInducer (restricted 3).
Definition insts : store := {[ 2 := nop 2; 3 := branch3; 4 := nop 4; 5 := nop 5 ]}.
Definition next (i : DynInst) : Addr := pc i + 4.
Definition taken (i : DynInst) : bool := false.
Definition reports : list Report := [Mispredict 5; Violation 2 4; Mispredict 3].
Definition run : outcome (IEW * store) :=
  foldM (report mode taken next 0) reports (wide, insts).
Definition after : IEW * store := match run with Ok xs => xs | Err _ => (wide, ∅) end.
End RedirectExample.

Lemma oldest_redirect_reported_witness :
  ∃ b' r i, toCommit (fst RedirectExample.after) = Ok b' ∧ r ∈ RedirectExample.reports ∧
    RedirectExample.insts !! subject r = Some i ∧
    content RedirectExample.next 0 b' r i ∧
    held PortsExample.mode RedirectExample.insts (snd RedirectExample.after) r i.
Proof.
  destruct (oldest_redirect_reported PortsExample.mode RedirectExample.taken RedirectExample.next 0
              ltac:(intros i j H _; unfold RedirectExample.next; by rewrite H)
              PortsExample.wide (fst RedirectExample.after) RedirectExample.insts
              (snd RedirectExample.after) (PortsExample.cycle [Some 3; Some 10]) RedirectExample.reports)
    as (b' & r & i & H1 & H2 & H3 & H4 & H5 & _).
  - reflexivity.
  - reflexivity.
  - discriminate.
  - repeat constructor; by eexists.
  - vm_compute; reflexivity.
  - exists b', r, i. exact (conj H1 (conj H2 (conj H3 (conj H4 H5)))).
Defined.
