(* ===== verification/IewDispatch.v ===== *)
(** * In-order dispatch

    Dispatch takes the instructions of a thread in the order rename sent them,
    first those that waited in the skid buffer, and none is lost when the stage
    blocks half way. *)

From S2P Require Import Prelude Regs Config DynInst Metadata Rob StoreSet DepGraph FUPool.
From S2P Require Import MemDepUnit InstQueue IqTaint Rename LsqUnit Lsq Iew.

Local Open Scope Z_scope.

(** ** What inserting an instruction leaves alone *)

(** Only the record of [p] changes, and it stays in its thread. *)
Definition only (p : DynInstPtr) (s s' : store) : Prop :=
  (∀ x, x ≠ p → s' !! x = s !! x) ∧
  (∀ i, s !! p = Some i → ∃ i', s' !! p = Some i' ∧ threadNumber i' = threadNumber i).

#[export] Instance only_preorder p : PreOrder (only p).
Proof.
  split; [split; eauto|]. intros s1 s2 s3 [H1 G1] [H2 G2]. split.
  - intros x Hx. by rewrite H2, H1.
  - intros i Hi. destruct (G1 i Hi) as (j & Hj & ?). destruct (G2 j Hj) as (k & ? & ?).
    exists k. split; [done|congruence].
Qed.

Lemma only_insert p s i' :
  (∀ i, s !! p = Some i → threadNumber i' = threadNumber i) → only p s (<[p := i']> s).
Proof.
  intros H. split; [intros x ?; by rewrite lookup_insert_ne|].
  intros i Hi. exists i'. rewrite lookup_insert_eq. auto.
Qed.

Lemma modifyM_only f p s s' :
  (∀ i i', f i = Ok i' → threadNumber i' = threadNumber i) → modifyM f p s = Ok s' → only p s s'.
Proof.
  intros Hf (i & i' & Hi & Hfi & ->)%modifyM_Ok. apply only_insert. intros j Hj.
  simplify_eq. eauto.
Qed.

Lemma modify_only f p s s' :
  (∀ i, threadNumber (f i) = threadNumber i) → modify f p s = Ok s' → only p s s'.
Proof. intros Hf. apply modifyM_only. intros i i' [= <-]. apply Hf. Qed.

Lemma addToOrderList_list c q q' : addToOrderList c q = Ok q' → iq_instList q' = iq_instList q.
Proof. unfold addToOrderList. intros H. by inv_ok H. Qed.

Lemma pushReady_list p c q q' : pushReady p c q = Ok q' → iq_instList q' = iq_instList q.
Proof.
  unfold pushReady. intros H. destruct (negb _); [by apply addToOrderList_list in H|].
  inv_ok1 H. inv_ok1 H. destruct (_ <? _); [by apply addToOrderList_list in H|by inv_ok H].
Qed.

Lemma foldM_list {A} (f : InstQueue → A → outcome InstQueue) l : ∀ q q',
  (∀ q a q', f q a = Ok q' → iq_instList q' = iq_instList q) →
  foldM f l q = Ok q' → iq_instList q' = iq_instList q.
Proof.
  induction l as [|a l IH]; cbn; intros q q' Hf H; [by inv_ok H|].
  inv_ok1 H. rewrite (IH _ _ Hf H). eauto.
Qed.

Lemma addReadyMemInsts_list ps q s q' :
  addReadyMemInsts ps q s = Ok q' → iq_instList q' = iq_instList q.
Proof.
  apply foldM_list. unfold addReadyMemInst. intros q1 a q2 H. inv_ok1 H.
  by eapply pushReady_list.
Qed.

Lemma addIfReady_list p q s q' : addIfReady p q s = Ok q' → iq_instList q' = iq_instList q.
Proof.
  unfold addIfReady. intros H. inv_ok1 H. destruct (readyToIssue a); [|by inv_ok H].
  destruct (isMemRef a); [|by apply pushReady_list in H].
  destruct (md_regsReady _ _ _) as [[rs u]|]; [|discriminate].
  by apply addReadyMemInsts_list in H.
Qed.

Lemma addToProducers_list p q s q' : addToProducers p q s = Ok q' → iq_instList q' = iq_instList q.
Proof.
  unfold addToProducers. intros H. inv_ok1 H. revert H. apply foldM_list.
  intros q1 idx q2 H. inv_ok1 H. unfold addDest in H. destruct (PhysRegId_isFixedMapping _); [by inv_ok H|].
  inv_ok1 H. destruct (negb _); [done|]. by inv_ok H.
Qed.

Section dispatch.
Context {M : Type}.
Variable cfg : DolmaConfig.

Lemma taint_thread c i i' : taint cfg c i = Ok i' → threadNumber i' = threadNumber i.
Proof. intros H. by apply taint_fields in H as (_ & ? & _). Qed.

Lemma addSrc_frame p q s b k q' s' b' :
  addSrc cfg p (q, s, b) k = Ok (q', s', b') → iq_instList q' = iq_instList q ∧ only p s s'.
Proof.
  unfold addSrc. intros H. inv_ok1 H. apply deref_Ok in E. rename a into i.
  destruct (isReadySrcRegIdx i k); [by inv_ok H|]. inv_ok1 H. inv_ok1 H.
  destruct (PhysRegId_isFixedMapping a); [by inv_ok H|]. inv_ok1 H.
  destruct (negb a0); [by inv_ok H|]. inv_ok1 H. rename a1 into j.
  apply markSrcRegReadyIdx_fields in E3 as (_ & Ht & _).
  inv_ok1 H. destruct a1 as [pr|]; [|done]. inv_ok1 H.
  assert (only p s (<[p := j]> s)) by (apply only_insert; intros; by simplify_eq).
  destruct (_ && _); [|by inv_ok H]. inv_ok1 H. inv_ok1 H. apply taint_thread in E6.
  inv_ok H. split; [done|]. etrans; [done|]. apply only_insert.
  rewrite lookup_insert_eq. intros; by simplify_eq.
Qed.

Lemma addToDependents_frame p q s q' s' b :
  addToDependents cfg p q s = Ok (q', s', b) → iq_instList q' = iq_instList q ∧ only p s s'.
Proof.
  unfold addToDependents. intros H. inv_ok1 H. revert H. generalize false as b0.
  generalize (seq 0 (numSrcRegs a)) as ks. clear E. intros ks. revert q s.
  induction ks as [|k ks IH]; cbn [foldM]; intros q s b0 H; [by inv_ok H|].
  destruct (addSrc cfg p (q, s, b0) k) as [[[q1 s1] b1]|] eqn:E; [|done].
  apply addSrc_frame in E as [El Eo]. apply IH in H as [Hl Ho].
  split; [congruence|by etrans].
Qed.

Lemma md_insert_only p u s r u' s' : md_insert p u s = Ok (r, u', s') → only p s s'.
Proof.
  unfold md_insert. intros H. inv_ok1 H. destruct (newEntry p a u) as [e u1].
  do 3 inv_ok1 H. inv_ok1 H. destruct a3 as [[r1 u2] s2].
  assert (only p s s2) as Hs.
  { destruct a1 as [stt|]; [|destruct (readyToIssue a); [inv_ok1 E3|]; by inv_ok E3].
    inv_ok1 E3. inv_ok1 E3. inv_ok E3. by eapply (modify_only clearCanIssue). }
  destruct (isStore a); [destruct (negb _)|destruct (isLoad a)]; by inv_ok H.
Qed.

(** The instruction joins the end of its thread's list. *)
Definition joins (p : DynInstPtr) (tid : ThreadID) (q q' : InstQueue) : Prop :=
  iq_instList q' tid = iq_instList q tid ++ [p].

Lemma joins_enqueue p i tid q q' :
  threadNumber i = tid → iq_instList q' = iq_instList (enqueue p i q) → joins p tid q q'.
Proof. intros Ht Hl. unfold joins. rewrite Hl. cbn. by rewrite Ht, fn_lookup_insert. Qed.

Lemma iq_insert_joins p q s q' s' i :
  iq_insert cfg p q s = Ok (q', s') → s !! p = Some i → joins p (threadNumber i) q q' ∧ only p s s'.
Proof.
  unfold iq_insert. intros H Hi. rewrite (proj2 (deref_Ok _ _ _) Hi) in H. inv_ok1 H.
  inv_ok1 H. apply (modify_only setInIQ) in E0; [|done].
  destruct (addToDependents _ _ _ _) as [[[q1 s1] b]|] eqn:Ed; [|done].
  apply addToDependents_frame in Ed as [Hl1 Ho1]. inv_ok1 H. apply addToProducers_list in E1.
  destruct (isMemRef i).
  - destruct (md_insert _ _ _) as [[[rs u] s2]|] eqn:Em; [|done]. apply md_insert_only in Em.
    destruct (addReadyMemInsts _ _ _) as [q3|] eqn:Er; [|done]. apply addReadyMemInsts_list in Er.
    inv_ok H. split; [|by do 2 (etrans; [done|])].
    apply (joins_enqueue _ i); [done|]. exact (eq_trans Er (eq_trans E1 Hl1)).
  - destruct (addIfReady _ _ _) as [q3|] eqn:Er; [|done]. apply addIfReady_list in Er.
    inv_ok H. split; [|by etrans]. apply (joins_enqueue _ i); [done|]. exact (eq_trans Er (eq_trans E1 Hl1)).
Qed.

Lemma iq_insertNonSpec_joins p q s q' s' i :
  iq_insertNonSpec p q s = Ok (q', s') → s !! p = Some i →
  joins p (threadNumber i) q q' ∧ only p s s'.
Proof.
  unfold iq_insertNonSpec. intros H Hi. rewrite (proj2 (deref_Ok _ _ _) Hi) in H. inv_ok1 H.
  inv_ok1 H. apply (modify_only setInIQ) in E0; [|done]. inv_ok1 H. apply addToProducers_list in E1.
  destruct (isMemRef i).
  - destruct (md_insertNonSpec _ _ _) as [u|] eqn:Em; [|done].
    inv_ok H. split; [|done]. apply (joins_enqueue _ i); [done|]. exact E1.
  - inv_ok H. split; [|done]. apply (joins_enqueue _ i); [done|]. exact E1.
Qed.

Lemma iq_insertBarrier_joins p q s q' s' i :
  iq_insertBarrier p q s = Ok (q', s') → s !! p = Some i →
  joins p (threadNumber i) q q' ∧ only p s s'.
Proof.
  unfold iq_insertBarrier. intros H Hi. rewrite (proj2 (deref_Ok _ _ _) Hi) in H. inv_ok1 H.
  by apply (iq_insertNonSpec_joins _ _ _ _ _ i) in H.
Qed.

(** ** One instruction *)

(** What an operation of the stage on [p] may do besides the queue list. *)
Record works_on (p : DynInstPtr) (g g' : Stage M) : Prop := {
  wo_iew : sg_iew g' = sg_iew g;
  wo_insts : only p (sg_insts g) (sg_insts g');
}.

Lemma onLsq_works p (f : LSQUnit → store → outcome (LSQUnit * store)) tid g g' :
  (∀ u s u' s', f u s = Ok (u', s') → only p s s') →
  onLsq (inUnit tid (onQueue f)) g = Ok g' →
  works_on p g g' ∧ sg_iq g' = sg_iq g.
Proof.
  unfold onLsq, inUnit, withUnit, onQueue. cbn. intros Hf H.
  destruct (unitOf tid (sg_lsq g)) as [u|]; [|done]. cbn in H.
  destruct (f u _) as [[u' s']|] eqn:E; [|done]. cbn in H. apply Hf in E.
  destruct (setUnit _ _ _); [|done]. inv_ok H. split; [by split|done].
Qed.

Lemma ls_insert_works p i (load : bool) g g' :
  sg_insts g !! p = Some i →
  onLsq (if load then ls_insertLoad p else ls_insertStore p) g = Ok g' →
  works_on p g g' ∧ sg_iq g' = sg_iq g.
Proof.
  intros Hi H. apply (onLsq_works p (if load then lsq_insertLoad p else lsq_insertStore p) (threadNumber i)).
  - intros u s u' s' Hf. destruct load; unfold lsq_insertLoad, lsq_insertStore in Hf; inv_ok Hf;
      (eapply modify_only; [|eassumption]; done).
  - revert H. unfold onLsq. destruct load; unfold ls_insertLoad, ls_insertStore; cbn;
      unfold sg_insts in Hi; by rewrite (proj2 (deref_Ok _ _ _) Hi).
Qed.

Lemma onInst_works f p g g' :
  (∀ i, threadNumber (f i) = threadNumber i) → onInst f p g = Ok g' →
  works_on p g g' ∧ sg_iq g' = sg_iq g.
Proof.
  unfold onInst. intros Hf H. inv_ok H. apply modify_only in E; [|done]. split; [by split|done].
Qed.

Lemma onInstM_works f p g g' :
  (∀ i i', f i = Ok i' → threadNumber i' = threadNumber i) → onInstM f p g = Ok g' →
  works_on p g g' ∧ sg_iq g' = sg_iq g.
Proof.
  unfold onInstM. intros Hf H. inv_ok H. apply modifyM_only in E; [|done]. split; [by split|done].
Qed.

Lemma setCanCommit_thread i i' : setCanCommit i = Ok i' → threadNumber i' = threadNumber i.
Proof. unfold setCanCommit. intros H. by inv_ok H. Qed.

Lemma onIq_works p i f g g' :
  (∀ q s q' s', f q s = Ok (q', s') → s !! p = Some i → joins p (threadNumber i) q q' ∧ only p s s') →
  sg_insts g !! p = Some i → onIq f g = Ok g' →
  works_on p g g' ∧ joins p (threadNumber i) (sg_iq g) (sg_iq g').
Proof.
  unfold onIq. intros Hf Hi H. destruct (f _ _) as [[q s]|] eqn:E; [|done]. inv_ok H.
  apply Hf in E as [Hj Ho]; [|done]. split; [by split|done].
Qed.

#[local] Instance works_on_preorder p : PreOrder (works_on p).
Proof.
  split; [split; [done|reflexivity]|]. intros ??? [] []. split; [congruence|by etrans].
Qed.

(** Does the instruction take an entry of the queue? *)
Definition entersIQ (i : DynInst) : bool :=
  isLoad i || isStore i || isMemBarrier i || isWriteBarrier i || negb (static i IsNop).

Lemma works_inst p g g' i :
  works_on p g g' → sg_insts g !! p = Some i →
  ∃ i', sg_insts g' !! p = Some i' ∧ threadNumber i' = threadNumber i.
Proof. intros [_ [_ H]]. apply H. Qed.

(** The list of thread [tid] grows by [l]. *)
Definition appends (tid : ThreadID) (l : list DynInstPtr) (g g' : Stage M) : Prop :=
  iq_instList (sg_iq g') tid = iq_instList (sg_iq g) tid ++ l.

Lemma nonSpec_works p i g g' :
  sg_insts g !! p = Some i →
  (let! g := onInstM setCanCommit p g in onIq (iq_insertNonSpec p) g) = Ok g' →
  works_on p g g' ∧ appends (threadNumber i) [p] g g'.
Proof.
  intros Hi H. inv_ok1 H. apply onInstM_works in E as [Hw Hq]; [|apply setCanCommit_thread].
  destruct (works_inst _ _ _ _ Hw Hi) as (j & Hj & Ht).
  destruct (onIq_works p j (iq_insertNonSpec p) a g') as [Hw2 Hl]; [|done..|].
  { intros q s q' s' ??. by eapply iq_insertNonSpec_joins. }
  split; [by etrans|]. unfold appends. rewrite <- Ht, <- Hq. exact Hl.
Qed.

Lemma addToIq_works p i (ns : bool) g g' :
  sg_insts g !! p = Some i →
  (if ns then let! g := onInstM setCanCommit p g in onIq (iq_insertNonSpec p) g
   else onIq (iq_insert cfg p) g) = Ok g' →
  works_on p g g' ∧ appends (threadNumber i) [p] g g'.
Proof.
  intros Hi. destruct ns; [by apply nonSpec_works|]. apply onIq_works; [|done].
  intros q s q' s' ??. by eapply iq_insert_joins.
Qed.

Lemma dispatchOne_works p i g g' :
  sg_insts g !! p = Some i → dispatchOne cfg p i g = Ok g' →
  works_on p g g' ∧ appends (threadNumber i) (if entersIQ i then [p] else []) g g'.
Proof.
  intros Hi. unfold dispatchOne, entersIQ.
  assert (∀ load g1, onLsq (if load : bool then ls_insertLoad p else ls_insertStore p) g = Ok g1 →
    works_on p g g1 ∧ sg_iq g1 = sg_iq g ∧ ∃ j, sg_insts g1 !! p = Some j ∧ threadNumber j = threadNumber i)
    as Hlsq.
  { intros load g1 H. destruct (ls_insert_works _ _ _ _ _ Hi H) as [Hw Hq].
    split; [done|]. split; [done|]. by eapply works_inst. }
  assert (∀ g1 j, works_on p g g1 → sg_iq g1 = sg_iq g → threadNumber j = threadNumber i →
    works_on p g1 g' ∧ appends (threadNumber j) [p] g1 g' →
    works_on p g g' ∧ appends (threadNumber i) [p] g g') as Hafter.
  { intros g1 j Hw Hq Ht [Hw2 Ha]. split; [by etrans|]. unfold appends in *. rewrite <- Ht, <- Hq. exact Ha. }
  destruct (isLoad i); cbn [orb].
  { intros H. inv_ok1 H. destruct (Hlsq true _ E) as (Hw & Hq & j & Hj & Ht).
    eapply (Hafter a j); [done..|]. by apply (addToIq_works p j) in H. }
  destruct (isStore i); cbn [orb].
  { intros H. inv_ok1 H. destruct (Hlsq false _ E) as (Hw & Hq & j & Hj & Ht).
    eapply (Hafter a j); [done..|]. destruct (isStoreConditional i);
      [by apply (nonSpec_works p j) in H|by apply (addToIq_works p j) in H]. }
  destruct (isMemBarrier i || isWriteBarrier i) eqn:Hb; cbn [orb].
  { intros H. inv_ok1 H. apply onInstM_works in E as [Hw Hq]; [|apply setCanCommit_thread].
    destruct (works_inst _ _ _ _ Hw Hi) as (j & Hj & Ht). eapply (Hafter a j); [done..|].
    destruct (onIq_works p j (iq_insertBarrier p) a g') as [Hw2 Hl]; [|done..|done].
    intros q s q' s' ??. by eapply iq_insertBarrier_joins. }
  destruct (static i IsNop); cbn [negb].
  - intros H. inv_ok1 H. apply onInst_works in E as [Hw1 Hq1]; [|done].
    inv_ok1 H. apply onInst_works in E as [Hw2 Hq2]; [|done].
    inv_ok1 H. apply onInstM_works in E as [Hw3 Hq3]; [|apply setCanCommit_thread].
    inv_ok H. apply addToProducers_list in E. split.
    + transitivity a1; [by do 2 (etrans; [done|])|]. by split.
    + unfold appends. cbn. rewrite E, Hq3, Hq2, Hq1. by rewrite app_nil_r.
  - intros H. inv_ok1 H. by apply (addToIq_works p i) in H.
Qed.

(** ** The loop *)

(** What waits for dispatch, in the order rename sent it. *)
Definition waiting (tid : ThreadID) (g : Stage M) : list DynInstPtr :=
  skidBuffer (sg_iew g) tid ++ iew_insts (sg_iew g) tid.

Definition having (f : DynInst → bool) (s : store) (l : list DynInstPtr) : list DynInstPtr :=
  filter (λ p, from_option f false (s !! p) = true) l.

(** The loop's effect: the first [k] waiting instructions are gone. *)
Record dispatched_first (tid : ThreadID) (k : nat) (g g' : Stage M) : Prop := {
  df_rest : waiting tid g' = drop k (waiting tid g);
  df_queue : appends tid (having (λ i, negb (isSquashed i) && entersIQ i) (sg_insts g)
                            (take k (waiting tid g))) g g';
  df_count : dispatched (toRename (sg_iew g')) tid = dispatched (toRename (sg_iew g)) tid + Z.of_nat k;
  df_loads : dispatchedToLQ (toRename (sg_iew g')) tid = dispatchedToLQ (toRename (sg_iew g)) tid
             + Z.of_nat (length (having isLoad (sg_insts g) (take k (waiting tid g))));
  df_stores : dispatchedToSQ (toRename (sg_iew g')) tid = dispatchedToSQ (toRename (sg_iew g)) tid
              + Z.of_nat (length (having isStore (sg_insts g) (take k (waiting tid g))));
}.

(** [dispatchStatus] decides which of the two queues is read; when it is the
    incoming one, the skid buffer is empty. *)
Definition source_ok (fromSkid : bool) (tid : ThreadID) (g : Stage M) : Prop :=
  fromSkid = false → skidBuffer (sg_iew g) tid = [].

Definition wait_ok (tid : ThreadID) (g : Stage M) : Prop :=
  NoDup (waiting tid g) ∧
  (∀ p, p ∈ waiting tid g → ∃ i, sg_insts g !! p = Some i ∧ threadNumber i = tid).

(** Blocking moves the incoming instructions behind the skid buffer. *)
Lemma blockDispatch_first tid g g' :
  blockDispatch tid g = Ok g' → dispatched_first tid 0 g g'.
Proof.
  unfold blockDispatch, block, skidInsert. intros H. inv_ok1 H. rename a into x.
  set (y := if _ && _ then _ else _) in E.
  assert (skidBuffer y = skidBuffer (sg_iew g) ∧ iew_insts y = iew_insts (sg_iew g) ∧
    dispatched (toRename y) = dispatched (toRename (sg_iew g)) ∧
    dispatchedToLQ (toRename y) = dispatchedToLQ (toRename (sg_iew g)) ∧
    dispatchedToSQ (toRename y) = dispatchedToSQ (toRename (sg_iew g))) as (H1 & H2 & H3 & H4 & H5)
    by (unfold y; by destruct (_ && _)). clearbody y. cbv zeta in E. inv_ok E. inv_ok E0. inv_ok H.
  split; unfold waiting, appends; cbn; rewrite ?H3, ?H4, ?H5, ?app_nil_r, ?Z.add_0_r; try done.
  rewrite H1, H2. unfold upd. by rewrite !fn_lookup_insert, app_nil_r.
Qed.

Lemma having_nil f s : having f s [] = [].
Proof. done. Qed.

Lemma having_ext f s s' l : (∀ p, p ∈ l → s' !! p = s !! p) → having f s' l = having f s l.
Proof.
  intros H. unfold having. induction l as [|p l IH]; [done|].
  assert (s' !! p = s !! p) as Hp by (apply H; set_solver).
  rewrite !filter_cons, Hp, IH by set_solver. done.
Qed.

Lemma having_cons f s p l i :
  s !! p = Some i → having f s (p :: l) = (if f i then [p] else []) ++ having f s l.
Proof.
  intros Hi. unfold having. destruct (f i) eqn:Hf.
  - by rewrite filter_cons_True by (by rewrite Hi).
  - rewrite filter_cons_False; [done|]. rewrite Hi. cbn. by rewrite Hf.
Qed.

(** One instruction, then [k] more. *)
Lemma dispatched_first_cons tid k p l i (g g1 g' : Stage M) :
  waiting tid g = p :: l → p ∉ l → sg_insts g !! p = Some i → threadNumber i = tid →
  only p (sg_insts g) (sg_insts g1) →
  appends tid (if negb (isSquashed i) && entersIQ i then [p] else []) g g1 →
  waiting tid g1 = l →
  toRename (sg_iew g1) = toRename (countDispatched tid i (sg_iew g)) →
  dispatched_first tid k g1 g' → dispatched_first tid (S k) g g'.
Proof.
  intros Hw Hp Hi Ht [Ho _] Ha Hl Hr [D1 D2 D3 D4 D5]. unfold appends in *.
  assert (∀ f, having f (sg_insts g1) (take k l) = having f (sg_insts g) (take k l)) as Hh.
  { intros f. apply having_ext. intros q Hq%elem_of_take. destruct Hq as (n & Hq & _).
    apply Ho. intros ->. by apply list_elem_of_lookup_2 in Hq. }
  split; unfold appends; rewrite ?Hw; cbn [take drop]; rewrite ?(having_cons _ _ _ _ _ Hi), ?length_app.
  - by rewrite D1, Hl.
  - rewrite D2, Ha, Hl, Hh. by rewrite <- (assoc_L (++)).
  - rewrite D3, Hr. cbn. unfold upd. destruct (isLoad i), (isStore i); cbn; rewrite fn_lookup_insert; lia.
  - rewrite D4, Hl, Hh, Hr. cbn. unfold upd.
    destruct (isLoad i), (isStore i); cbn; rewrite ?fn_lookup_insert; lia.
  - rewrite D5, Hl, Hh, Hr. cbn. unfold upd.
    destruct (isLoad i), (isStore i); cbn; rewrite ?fn_lookup_insert; lia.
Qed.

Lemma waiting_pop fromSkid tid p l i (g : Stage M) :
  source_ok fromSkid tid g → toDispatch fromSkid tid (sg_iew g) = p :: l →
  let g' := sg_set_iew (countDispatched tid i (popDispatch fromSkid tid (sg_iew g))) g in
  ∃ r, waiting tid g = p :: r ∧ waiting tid g' = r ∧ source_ok fromSkid tid g' ∧
    toDispatch fromSkid tid (sg_iew g') = l ∧
    toRename (sg_iew g') = toRename (countDispatched tid i (sg_iew g)).
Proof.
  unfold source_ok, waiting, toDispatch, popDispatch, upd. intros Hs Hd.
  destruct fromSkid; cbn; rewrite Hd, ?fn_lookup_insert.
  - exists (l ++ iew_insts (sg_iew g) tid). cbn. done.
  - rewrite (Hs eq_refl). by exists l.
Qed.

(** The loop takes instructions from the front of what waits. *)
Lemma dispatchLoop_first n : ∀ fromSkid tid count (g g' : Stage M) count',
  source_ok fromSkid tid g → wait_ok tid g →
  dispatchLoop cfg n fromSkid tid count g = Ok (count', g') →
  ∃ k, (k <= n)%nat ∧ count' = (count + k)%nat ∧ dispatched_first tid k g g'.
Proof.
  induction n as [|n IH]; intros fromSkid tid count g g' count' Hs [Hnd Hw] H; cbn [dispatchLoop] in H.
  { inv_ok H. exists 0%nat. split; [done|]. split; [lia|].
    split; unfold appends; cbn; by rewrite ?app_nil_r, ?Z.add_0_r. }
  assert (∀ g1, blockDispatch tid g = Ok g1 → count' = count → g' = g1 →
    ∃ k, (k <= S n)%nat ∧ count' = (count + k)%nat ∧ dispatched_first tid k g g') as Hblock.
  { intros g1 Hb -> ->. exists 0%nat. split; [lia|]. split; [lia|]. by apply blockDispatch_first. }
  destruct (toDispatch fromSkid tid (sg_iew g)) as [|p l] eqn:Hd; [done|].
  inv_ok1 H. apply deref_Ok in E. rename a into i.
  destruct (waiting_pop _ _ _ _ i _ Hs Hd) as (r & Hwr & _).
  rewrite Hwr in Hnd, Hw. apply NoDup_cons in Hnd as [Hp Hnd].
  destruct (Hw p) as (i' & Hi' & Ht); [set_solver|]. simplify_eq.
  assert (∀ g1, works_on p g g1 →
    appends (threadNumber i) (if negb (isSquashed i) && entersIQ i then [p] else []) g g1 →
    dispatchLoop cfg n fromSkid (threadNumber i) (S count)
      (sg_set_iew (countDispatched (threadNumber i) i (popDispatch fromSkid (threadNumber i) (sg_iew g1))) g1)
      = Ok (count', g') →
    ∃ k, (k <= S n)%nat ∧ count' = (count + k)%nat ∧ dispatched_first (threadNumber i) k g g') as Hnext.
  { intros g1 [Hiew Honly] Happ Hloop. rewrite Hiew in Hloop.
    destruct (waiting_pop fromSkid (threadNumber i) p l i (sg_set_iew (sg_iew g) g1) Hs Hd)
      as (r' & Hw0 & Hw1 & Hs1 & _ & Hr1). cbn in Hr1.
    set (G := sg_set_iew (countDispatched (threadNumber i) i
                (popDispatch fromSkid (threadNumber i) (sg_iew g))) g1) in Hloop.
    change (waiting (threadNumber i) G = r') in Hw1.
    assert (r' = r) as -> by (unfold waiting in *; cbn in *; congruence).
    apply IH in Hloop as (k & Hk & -> & Hdf); [|done|].
    - exists (S k). split; [lia|]. split; [lia|].
      by eapply (dispatched_first_cons _ k p r i g G g').
    - split; [by rewrite Hw1|]. rewrite Hw1. cbn. intros q Hq. destruct Honly as [Ho _].
      change (sg_insts _) with (sg_insts g1). rewrite Ho by (intros ->; done). apply Hw. set_solver. }
  destruct (isSquashed i) eqn:Hsq.
  { apply (Hnext g); [done| |done]. unfold appends. cbn. by rewrite app_nil_r. }
  destruct (iq_isFullOf _ _). { inv_ok H. eauto. }
  inv_ok1 H. inv_ok1 H. destruct (a || a0). { inv_ok H. eauto. }
  inv_ok1 H. destruct (dispatchOne_works _ _ _ _ E E2) as [Hwk Happ]. by apply (Hnext a1).
Qed.

(** Dispatch is in order and loses nothing.  A call of [dispatchInsts] for a
    thread takes the first [k] instructions that wait, those of the skid buffer
    before those that came from rename, with [k] at most the dispatch width;
    whatever stops it (the instruction queue or the load/store queue is full, the
    width is used up), the rest waits in the same order.  The instructions taken
    that are neither squashed nor no-ops are appended to the thread's list in the
    instruction queue in that order, and rename is told exactly how many
    instructions, loads and stores left. *)
Theorem dispatch_in_order (tid : ThreadID) (g g' : Stage M)
    (Hskid : dispatchStatus (sg_iew g) tid ≠ StUnblocking → skidBuffer (sg_iew g) tid = [])
    (Hwait : wait_ok tid g)
    (Hrun : dispatchInsts cfg tid g = Ok g') :
  ∃ k, (k <= dispatchWidth (sg_iew g))%nat ∧ dispatched_first tid k g g'.
Proof.
  unfold dispatchInsts in Hrun. set (fromSkid := bool_decide _) in Hrun.
  assert (source_ok fromSkid tid g) as Hs by (intros Hf%bool_decide_eq_false; auto).
  destruct (dispatchLoop _ _ _ _ _ _) as [[count g1]|] eqn:El; [|done].
  apply dispatchLoop_first in El as (k & Hk & _ & Hdf); [|done..].
  exists k. split; [lia|]. inv_ok1 Hrun. rename a into g2.
  assert (dispatched_first tid k g g2) as Hdf2.
  { destruct (bool_decide (toDispatch fromSkid tid (sg_iew g1) = [])); [by inv_ok E|]. apply blockDispatch_first in E as [B1 B2 B3 B4 B5].
    destruct Hdf as [D1 D2 D3 D4 D5]. unfold appends in *.
    split; unfold appends; rewrite ?B1, ?B2, ?B3, ?B4, ?B5, ?take_0, ?having_nil;
      [done|by rewrite D2, app_nil_r|cbn [length]; lia..]. }
  inv_ok Hrun. destruct (_ && _); [|done]. by destruct Hdf2.
Qed.
End dispatch.

Module DispatchExample.
(** Two ways wide: of three waiting instructions a load, a squashed instruction
    and an addition, the first two leave. *)
Definition insts : store :=
  {[ 2 := IqExample.load; 4 := setSquashed IqExample.add; 5 := IqExample.sub ]}.
Definition unit0 : LSQUnit :=
  match lsq_init 8 8 0 0 false 2 false 64 with
  | Ok u => u
  | Err _ => mkLSQUnit 0 [] [] 0 0 0 false 0 0 0 0 0 0 0 0 0 0 0 false 0 0 None false false None false None false
  end.
Definition queue : InstQueue :=
  match IqExample.empty with Ok q => q | Err _ => IqExample.queue0 end.
Definition lsq : LSQ := mkLSQ Partitioned 8 8 8 8 1 [0%nat] [unit0].
Definition rob : ROB :=
  mkROB Dynamic 8 2 1 (λ _, 8) (λ _, 0) (λ _, []) None None (λ _, None) 0 (λ _, 0) (λ _, true)
    (λ _, Running) [0%nat] [].
Definition none : IewToRename :=
  mkIewToRename (λ _, 0) (λ _, 0) (λ _, 0) (λ _, 0) (λ _, 0) (λ _, 0) (λ _, 0) (λ _, 0)
    (λ _, false) (λ _, false) (λ _, false) (λ _, false).
Definition iew : IEW :=
  mkIEW true (λ _, StRunning) StRunning StIdle (λ _, [2; 4; 5]) (λ _, []) (λ _, false) false false
    false 0 0 [] none [] 1 2 2 8 1 [0%nat].
Definition stage : Stage () :=
  mkStage iew lsq (mkWorld unit0 queue insts tt ∅ 0 []) rob [] [].
Definition after : Stage () :=
  match dispatchInsts IqExample.mode2 0 stage with Ok g => g | Err _ => stage end.
End DispatchExample.

Lemma dispatch_in_order_witness :
  ∃ k, (k <= 2)%nat ∧ dispatched_first 0 k DispatchExample.stage DispatchExample.after.
Proof.
  apply (dispatch_in_order IqExample.mode2 0 DispatchExample.stage DispatchExample.after).
  - intros _. reflexivity.
  - split; [by_eval|]. intros p Hp. change (p ∈ [2; 4; 5]) in Hp. set_unfold in Hp.
    destruct Hp as [->|[->|[->|[]]]]; (eexists; split; [reflexivity|by_eval]).
  - vm_compute; reflexivity.
Defined.
