(* ===== verification/IewWriteback.v ===== *)
(** * Writeback

    [writebackInsts] broadcasts the results of the instructions at the head of
    the queue to commit.  What keeps a Meltdown-type attack out is that squashed
    and faulting instructions broadcast nothing: no register becomes ready through
    them, neither in the instruction queue nor in the scoreboard rename reads. *)

From S2P Require Import Prelude Regs Config DynInst Metadata Rob StoreSet DepGraph FUPool.
From S2P Require Import MemDepUnit InstQueue IqTaint Rename LsqUnit Lsq Iew.

Local Open Scope Z_scope.

(** ** What waking leaves of an instruction *)

(** Everything writeback looks at. *)
Record wb_same (i i' : DynInst) : Prop := {
  ws_squashed : isSquashed i' = isSquashed i;
  ws_executed : isExecuted i' = isExecuted i;
  ws_fault : fault i' = fault i;
  ws_dests : destRegIdx i' = destRegIdx i;
}.

#[export] Instance wb_same_preorder : PreOrder wb_same.
Proof. split; [done|]. intros ??? [] []. split; congruence. Qed.

Definition wb_store (s s' : store) : Prop :=
  ∀ p i', s' !! p = Some i' → ∃ i, s !! p = Some i ∧ wb_same i i'.

#[export] Instance wb_store_preorder : PreOrder wb_store.
Proof.
  split; [by intros s p i; exists i|]. intros s1 s2 s3 H1 H2 p k Hk.
  destruct (H2 p k Hk) as (j & Hj & ?). destruct (H1 p j Hj) as (i & ? & ?).
  exists i. split; [done|by etrans].
Qed.

Lemma wb_insert s p i i' : s !! p = Some i → wb_same i i' → wb_store s (<[p := i']> s).
Proof.
  intros Hp Hi q j Hq. destruct (decide (p = q)) as [<-|].
  - rewrite lookup_insert_eq in Hq. simplify_eq. eauto.
  - rewrite lookup_insert_ne in Hq by done. by exists j.
Qed.

Lemma markSrcRegReady_wb i i' : markSrcRegReady i = Ok i' → wb_same i i'.
Proof.
  unfold markSrcRegReady. set (j := if _ =? _ then _ else _). intros H.
  destruct (_ <? _) in H; [discriminate|]. inv_ok H. unfold j.
  destruct (_ =? _); [|done]. split; dyn_simpl; done.
Qed.

Section writeback.
Context {M : Type}.
Variable cfg : DolmaConfig.

Lemma setDataRestricted_wb i i' : setDataRestricted cfg i = Ok i' → wb_same i i'.
Proof. unfold setDataRestricted. intros H. inv_ok H. split; dyn_simpl; done. Qed.

Lemma setDataInducer_wb i i' : setDataInducer cfg i = Ok i' → wb_same i i'.
Proof. unfold setDataInducer. intros H. inv_ok H. split; dyn_simpl; done. Qed.

Lemma taint_wb c i i' : taint cfg c i = Ok i' → wb_same i i'.
Proof.
  unfold taint. set (j := if _ || _ then _ else i). intros H.
  transitivity j; [unfold j; by destruct (_ || _)|].
  destruct (negb _); [by apply setDataRestricted_wb|by inv_ok H].
Qed.

Lemma induceData_wb p q s s' : induceData cfg p q s = Ok s' → wb_store s s'.
Proof.
  assert (∀ s', modifyM (setDataInducer cfg) p s = Ok s' → wb_store s s') as Hm.
  { intros s1 (i & i' & Hi & Hf & ->)%modifyM_Ok. eapply wb_insert; [done|]. by apply setDataInducer_wb. }
  unfold induceData. intros H. inv_ok1 H. destruct (_ && _); [|by inv_ok H].
  destruct (_ || _); [auto|]. destruct (isDolmaMemOnly cfg); [|by inv_ok H].
  inv_ok1 H. destruct a0; [auto|by inv_ok H].
Qed.

(** ** Registers that become ready *)

(** [b'] is ready where [b] was, and at the registers of [P]. *)
Definition readies (P : Z → Prop) (b b' : list bool) : Prop :=
  ∀ n : nat, b' !! n = Some true → b !! n = Some true ∨ P (Z.of_nat n).

Lemma readies_trans P b1 b2 b3 : readies P b1 b2 → readies P b2 b3 → readies P b1 b3.
Proof. intros H1 H2 n Hn. destruct (H2 n Hn) as [?|?]; [auto|by right]. Qed.
Lemma readies_eq P b b' : b' = b → readies P b b'.
Proof. intros -> n Hn. by left. Qed.
Lemma readies_set P what b i b' : vec_set what b i true = Ok b' → P i → readies P b b'.
Proof.
  intros [Hi ->]%vec_set_Ok HP n Hn. destruct (decide (n = Z.to_nat i)) as [->|].
  - right. by rewrite Z2Nat.id by lia.
  - rewrite list_lookup_insert_ne in Hn by done. by left.
Qed.

Lemma pushReady_board p c q q' : pushReady p c q = Ok q' → regScoreboard q' = regScoreboard q.
Proof.
  assert (∀ q q', addToOrderList c q = Ok q' → regScoreboard q' = regScoreboard q) as Ha.
  { unfold addToOrderList. intros q1 q2 H. by inv_ok H. }
  unfold pushReady. intros H. destruct (negb _); [by apply Ha in H|].
  inv_ok1 H. inv_ok1 H. destruct (_ <? _); [by apply Ha in H|by inv_ok H].
Qed.

Lemma addReadyMemInsts_board ps q s q' :
  addReadyMemInsts ps q s = Ok q' → regScoreboard q' = regScoreboard q.
Proof.
  revert q. induction ps as [|p ps IH]; intros q H; unfold addReadyMemInsts in *; cbn in H;
    [by inv_ok H|]. inv_ok1 H. apply IH in H. rewrite H. unfold addReadyMemInst in E.
  inv_ok1 E. by apply pushReady_board in E.
Qed.

Lemma addIfReady_board p q s q' : addIfReady p q s = Ok q' → regScoreboard q' = regScoreboard q.
Proof.
  unfold addIfReady. intros H. inv_ok1 H. destruct (readyToIssue a); [|by inv_ok H].
  destruct (isMemRef a); [|by apply pushReady_board in H].
  destruct (md_regsReady _ _ _) as [[rs u]|]; [|discriminate].
  by apply addReadyMemInsts_board in H.
Qed.

Lemma wakeOne_wb p reg t q s d q' s' :
  wakeOne cfg p reg t (q, s) d = Ok (q', s') → wb_store s s' ∧ regScoreboard q' = regScoreboard q.
Proof.
  unfold wakeOne. intros H. do 3 inv_ok1 H. inv_ok1 H. inv_ok1 H. inv_ok1 H.
  apply deref_Ok in E3. inv_ok1 H. inv_ok1 H. inv_ok1 H. inv_ok H.
  apply addIfReady_board in E7. apply markSrcRegReady_wb in E6. split; [|done].
  eapply wb_insert; [done|]. etrans; [|done]. destruct t; [by eapply taint_wb|by inv_ok E5].
Qed.

Lemma wakeAll_wb p reg t deps : ∀ q s q' s',
  foldM (wakeOne cfg p reg t) deps (q, s) = Ok (q', s') →
  wb_store s s' ∧ regScoreboard q' = regScoreboard q.
Proof.
  induction deps as [|d deps IH]; intros q s q' s' H; cbn [foldM] in H; [by inv_ok H|].
  destruct (wakeOne _ _ _ _ _ _) as [[q1 s1]|] eqn:E; [|discriminate].
  apply wakeOne_wb in E as [? ?]. apply IH in H as [? ?]. split; [by etrans|congruence].
Qed.

Lemma wakeReg_wb (P : Z → Prop) p t reg q s n q' s' n' :
  P (PhysRegId_flatIndex reg) →
  wakeReg cfg p t (q, s, n) reg = Ok (q', s', n') →
  wb_store s s' ∧ readies P (regScoreboard q) (regScoreboard q').
Proof.
  intros HP H. unfold wakeReg in H. destruct (PhysRegId_isFixedMapping reg).
  { inv_ok H. split; [done|by apply readies_eq]. }
  destruct (dg_pop_all _ _ _) as [[ds g]|]; [|discriminate].
  destruct (foldM _ _ _) as [[q1 s1]|] eqn:Ef; [|discriminate].
  apply wakeAll_wb in Ef as [Hs Hb]. do 3 inv_ok1 H. inv_ok1 H. inv_ok H. split; [done|].
  cbn in *. rewrite <- Hb. by eapply readies_set.
Qed.

Lemma wakeRegs_wb (P : Z → Prop) p t c idxs : ∀ q s n q' s' n',
  (∀ d, d ∈ destRegIdx c → P (PhysRegId_flatIndex d)) →
  foldM (λ qsn idx, let! d := renamedDestRegIdx idx c in wakeReg cfg p t qsn d) idxs (q, s, n)
    = Ok (q', s', n') →
  wb_store s s' ∧ readies P (regScoreboard q) (regScoreboard q').
Proof.
  induction idxs as [|k idxs IH]; intros q s n q' s' n' HP H; cbn [foldM] in H.
  { inv_ok H. split; [done|by apply readies_eq]. }
  destruct (renamedDestRegIdx k c) as [rk|] eqn:Ek; [|discriminate].
  destruct (wakeReg _ _ _ _ _) as [[[q1 s1] n1]|] eqn:E; [|discriminate].
  apply vec_get_Ok in Ek as [_ Ek%list_elem_of_lookup_2].
  apply (wakeReg_wb P) in E as [? ?]; [|auto]. apply IH in H as [? ?]; [|done].
  split; [by etrans|by eapply readies_trans].
Qed.

(** The registers an instruction writes. *)
Definition writes (i : DynInst) (flat : Z) : Prop :=
  ∃ d, d ∈ destRegIdx i ∧ PhysRegId_flatIndex d = flat.

Lemma wakeDependentInstructions_wb p i q s q' s' n :
  s !! p = Some i → wakeDependentInstructions cfg p q s = Ok (q', s', n) →
  wb_store s s' ∧ readies (writes i) (regScoreboard q) (regScoreboard q').
Proof.
  intros Hi H. unfold wakeDependentInstructions in H. inv_ok1 H. apply induceData_wb in E.
  inv_ok1 H. apply deref_Ok in E0. destruct (E _ _ E0) as (i' & Hi' & [_ _ _ Hd]). simplify_eq.
  apply (wakeRegs_wb (writes i)) in H as [? ?]; [split; [by etrans|done]|].
  rewrite Hd. intros d Hin. by exists d.
Qed.

Lemma completeMemInst_wb p q s q' s' :
  completeMemInst p q s = Ok (q', s') → wb_store s s' ∧ regScoreboard q' = regScoreboard q.
Proof.
  unfold completeMemInst. intros H. inv_ok1 H. apply deref_Ok in E. inv_ok1 H. inv_ok H.
  split; [|done]. eapply wb_insert; [done|]. split; unfold clearInIQ; dyn_simpl; rewrite ?andb_true_r; done.
Qed.

Lemma wakeDependents_wb p i q s q' s' n :
  s !! p = Some i → wakeDependents cfg p q s = Ok (q', s', n) →
  wb_store s s' ∧ readies (writes i) (regScoreboard q) (regScoreboard q').
Proof.
  intros Hi H. unfold wakeDependents in H. rewrite (proj2 (deref_Ok _ _ _) Hi) in H.
  inv_ok1 H. inv_ok1 H. inv_ok1 H. destruct a as [q1 s1].
  assert (wb_store s s1 ∧ regScoreboard q1 = regScoreboard q) as [Hs Hb].
  { destruct (isMemRef i); [|destruct (_ || _); [|by inv_ok E1]].
    - destruct (md_wakeDependents _ _ _) as [[rs u]|]; [|done]. inv_ok1 E1.
      apply addReadyMemInsts_board in E2. apply completeMemInst_wb in E1 as [? Hb].
      split; [done|]. by rewrite Hb, E2.
    - destruct (md_completeBarrier _ _ _) as [[rs u]|]; [|done]. inv_ok1 E1.
      apply addReadyMemInsts_board in E2. inv_ok E1. done. }
  assert (∃ i1, s1 !! p = Some i1) as [i1 Hi1].
  { unfold wakeDependentInstructions, induceData in H. destruct (s1 !! p) eqn:Hp; [eauto|].
    unfold deref in H at 1. by rewrite Hp in H. }
  destruct (Hs _ _ Hi1) as (i0 & Hi0 & [_ _ _ Hd]). simplify_eq.
  destruct (wakeDependentInstructions_wb _ _ _ _ _ _ _ Hi1 H) as [Hs2 Hr].
  split; [by etrans|]. rewrite Hb in Hr. unfold readies, writes in *. by rewrite Hd in Hr.
Qed.

(** ** The stage *)

(** An instruction whose result may be used. *)
Definition produces (s : store) (p : DynInstPtr) (flat : Z) : Prop :=
  ∃ i, s !! p = Some i ∧ isSquashed i = false ∧ isExecuted i = true ∧ fault i = None ∧ writes i flat.

Record broadcast (s : store) (P : Z → Prop) (g g' : Stage M) : Prop := {
  bc_insts : wb_store s (sg_insts g) → wb_store s (sg_insts g');
  bc_queue : readies P (regScoreboard (sg_iq g)) (regScoreboard (sg_iq g'));
  bc_board : readies P (sg_scoreboard g) (sg_scoreboard g');
}.

Lemma broadcast_refl s P g : broadcast s P g g.
Proof. split; [done|by apply readies_eq..]. Qed.
Lemma broadcast_trans s P g1 g2 g3 : broadcast s P g1 g2 → broadcast s P g2 g3 → broadcast s P g1 g3.
Proof. intros [] []. split; [auto|by eapply readies_trans..]. Qed.

Lemma setRegs_readies (P : Z → Prop) i idxs : ∀ sb sb',
  (∀ flat, writes i flat → P flat) →
  foldM (λ sb idx, let! d := renamedDestRegIdx idx i in sb_setReg d sb) idxs sb = Ok sb' →
  readies P sb sb'.
Proof.
  induction idxs as [|k idxs IH]; intros sb sb' HP H; cbn [foldM] in H; [inv_ok H; by apply readies_eq|].
  inv_ok1 H. inv_ok1 E. apply vec_get_Ok in E0 as [_ Hd%list_elem_of_lookup_2].
  apply IH in H; [|done]. eapply readies_trans; [|done]. unfold sb_setReg in E. inv_ok1 E.
  destruct (PhysRegId_isFixedMapping a0); [inv_ok E; by apply readies_eq|].
  eapply readies_set; [done|]. apply HP. by exists a0.
Qed.

Lemma writebackInst_broadcast s p g g' :
  wb_store s (sg_insts g) → writebackInst cfg g p = Ok g' → broadcast s (produces s p) g g'.
Proof.
  unfold writebackInst. intros Hs H. inv_ok1 H. apply deref_Ok in E. rename a into i.
  destruct (_ && _) eqn:Hc; [|inv_ok H; apply broadcast_refl].
  apply andb_true_iff in Hc as [Hc Hf%bool_decide_eq_true]. apply andb_true_iff in Hc as [Hq%negb_true_iff Hx].
  destruct (Hs _ _ E) as (i0 & Hi0 & [W1 W2 W3 W4]).
  assert (∀ flat, writes i flat → produces s p flat) as HP.
  { intros flat Hw. exists i0. unfold writes in *. rewrite W4 in Hw. split_and!; congruence || done. }
  unfold stageWakeDependents in H. destruct (wakeDependents _ _ _ _) as [[[q1 s1] n]|] eqn:Ew; [|done].
  destruct (wakeDependents_wb _ _ _ _ _ _ _ E Ew) as [Hs1 Hr]. inv_ok1 H. apply deref_Ok in E0.
  destruct (Hs1 _ _ E0) as (i1 & Hi1 & [_ _ _ W4']). simplify_eq. inv_ok H.
  split; cbn; [intros _; by etrans|intros n' Hn'; destruct (Hr n' Hn'); auto|].
  eapply (setRegs_readies _ a); [|done]. unfold writes in *. rewrite W4'. auto.
Qed.

Lemma readies_weaken (P Q : Z → Prop) b b' : (∀ z, P z → Q z) → readies P b b' → readies Q b b'.
Proof. intros HPQ H n Hn. destruct (H n Hn); auto. Qed.

Lemma writebackAll_broadcast s ps : ∀ g g',
  wb_store s (sg_insts g) → foldM (writebackInst cfg) ps g = Ok g' →
  broadcast s (λ flat, ∃ p, p ∈ ps ∧ produces s p flat) g g'.
Proof.
  induction ps as [|p ps IH]; intros g g' Hs H; cbn [foldM] in H; [inv_ok H; apply broadcast_refl|].
  inv_ok1 H. apply (writebackInst_broadcast s) in E as [B1 B2 B3]; [|done].
  destruct (IH _ _ (B1 Hs) H) as [C1 C2 C3].
  split; [auto| |]; (eapply readies_trans; eapply readies_weaken; [|eassumption| |eassumption]);
    cbn; set_solver.
Qed.

(** C24: Faulting and squashed instructions give nothing away.  When
    [writebackInsts] has run, every physical register that became ready, in the
    instruction queue's scoreboard or in the one of rename, is a destination of
    an instruction at the head of the queue to commit that is not squashed, has
    executed and has no fault. *)
Theorem only_clean_results_broadcast (g g' : Stage M) (b : IEWStruct)
    (Hb : toCommit (sg_iew g) = Ok b)
    (Hrun : writebackInsts cfg g = Ok g') :
  let ps := leadingInsts (take (Z.to_nat (wbWidth (sg_iew g))) (ic_insts b)) in
  let clean flat := ∃ p, p ∈ ps ∧ produces (sg_insts g) p flat in
  readies clean (regScoreboard (sg_iq g)) (regScoreboard (sg_iq g')) ∧
  readies clean (sg_scoreboard g) (sg_scoreboard g').
Proof.
  unfold writebackInsts in Hrun. rewrite Hb in Hrun.
  apply (writebackAll_broadcast (sg_insts g)) in Hrun as [_ H2 H3]; [done|reflexivity].
Qed.
End writeback.

Module WritebackExample.
(** The load 2 has faulted, the subtraction 5 has not: only register 5 becomes
    ready. *)
Definition faulted : DynInst := set_fault (Some GeneralProtection) (setExecuted IqExample.load).
Definition insts : store := {[ 2 := faulted; 5 := setExecuted (IqExample.inst 5 [IsInteger] [] [5]) ]}.
Definition unit0 : LSQUnit :=
  mkLSQUnit 0 [] [] 0 0 0 false 0 0 0 0 0 0 0 0 0 0 0 false 0 0 None false false None false None false.
Definition rob : ROB :=
  mkROB Dynamic 8 2 1 (λ _, 8) (λ _, 0) (λ _, []) None None (λ _, None) 0 (λ _, 0) (λ _, true)
    (λ _, Running) [0%nat] [].
Definition none : IewToRename :=
  mkIewToRename (λ _, 0) (λ _, 0) (λ _, 0) (λ _, 0) (λ _, 0) (λ _, 0) (λ _, 0) (λ _, 0)
    (λ _, false) (λ _, false) (λ _, false) (λ _, false).
Definition slots : IEWStruct :=
  mkIEWStruct [Some 2; Some 5] 2 (λ _, None) (λ _, 0) (λ _, 0) (λ _, false) (λ _, false) (λ _, false).
Definition iew : IEW :=
  mkIEW true (λ _, StRunning) StRunning StIdle (λ _, []) (λ _, []) (λ _, false) false false
    false 0 0 [slots] none [] 1 2 2 8 1 [0%nat].
Definition queue : InstQueue := match IqExample.empty with Ok q => q | Err _ => IqExample.queue0 end.
Definition stage : Stage () :=
  mkStage iew (mkLSQ Partitioned 8 8 8 8 1 [0%nat] []) (mkWorld unit0 queue insts tt ∅ 0 []) rob
    (replicate 8 false) [].
Definition after : Stage () :=
  match writebackInsts IqExample.mode2 stage with Ok g => g | Err _ => stage end.
End WritebackExample.

Lemma only_clean_results_broadcast_witness :
  sg_scoreboard WritebackExample.after = [false; false; false; false; false; true; false; false] ∧
  readies (λ flat, ∃ p, p ∈ [2; 5] ∧ produces WritebackExample.insts p flat)
    (sg_scoreboard WritebackExample.stage) (sg_scoreboard WritebackExample.after).
Proof.
  split; [vm_compute; reflexivity|].
  refine (proj2 (only_clean_results_broadcast IqExample.mode2 WritebackExample.stage
                   WritebackExample.after WritebackExample.slots _ _)).
  - reflexivity.
  - vm_compute; reflexivity.
Defined.
