(* ===== verification/Commit.v ===== *)
(** * The commit stage

    [DefaultCommit] ([cpu/o3/commit.hh], [cpu/o3/commit_impl.hh]): retirement of
    instructions in order, traps and interrupts, the insertion of renamed
    instructions into the reorder buffer, and DOLMA's treatment of redirects: one
    that depends on a restricted instruction is ignored when it is reported and
    performed when the reorder buffer finds it resolved.

    The stage works on the reorder buffer, the instruction queue, the load/store
    queue, the instructions, the commit rename map and the memory system, gathered
    in [Com].  What belongs to the rest of the CPU (interrupt controller, traps,
    PC events, miscellaneous registers, the CPU's own instruction list) is the
    interface [CpuEnv].  Scheduled trap events are kept in [trapEvents]; the event
    itself is [processTrapEvent].  The checker, tracing, probes, profiling and
    statistics (also [funcExeInst] and [instDone]) are left out. *)

From S2P Require Import Prelude Regs Config DynInst Metadata Rob InstQueue Rename LsqUnit Lsq Iew.

Local Open Scope Z_scope.

(** ** Data *)

Inductive ThreadStatus : Type :=
  | CRunning | CIdle | CROBSquashing | CTrapPending | CFetchTrapPending | CSquashAfterPending.
Inductive CommitPolicy : Type := Aggressive | RoundRobin | OldestReady.
Inductive CommitHeadError : Type :=
  | CommitSuccess | SquashingBranchMispredict | SquashingMemoryViolation | RetiringSquashes
  | GeneralStall | LoadStall | StoreStall | LoadOrder | StoreOrder | ROBEmpty | MemBarrier
  | WriteBarrier | InstructionFault | NoThreadReady.
#[export] Instance ThreadStatus_eq_dec : EqDecision ThreadStatus.
Proof. solve_decision. Defined.
#[export] Instance CommitHeadError_eq_dec : EqDecision CommitHeadError.
Proof. solve_decision. Defined.

Record CommitInfo := mkCommitInfo {
  ci_pc : Addr;
  ci_mispredictInst : option DynInstPtr;
  ci_squashInst : option DynInstPtr;
  ci_strictlyOrderedLoad : option DynInstPtr;
  ci_nonSpecSeqNum : InstSeqNum;
  ci_doneSeqNum : InstSeqNum;
  ci_freeROBEntries : Z;
  ci_squash : bool;
  ci_robSquashing : bool;
  ci_usedROB : bool;
  ci_emptyROB : bool;
  ci_branchTaken : bool;
  ci_interruptPending : bool;
  ci_clearInterrupt : bool;
  ci_strictlyOrdered : bool;
}.

Definition set_ci_pc (v : Addr) (f : CommitInfo) : CommitInfo :=
  mkCommitInfo v (ci_mispredictInst f) (ci_squashInst f) (ci_strictlyOrderedLoad f)
    (ci_nonSpecSeqNum f) (ci_doneSeqNum f) (ci_freeROBEntries f) (ci_squash f)
    (ci_robSquashing f) (ci_usedROB f) (ci_emptyROB f) (ci_branchTaken f)
    (ci_interruptPending f) (ci_clearInterrupt f) (ci_strictlyOrdered f).
Definition set_ci_mispredictInst (v : option DynInstPtr) (f : CommitInfo) : CommitInfo :=
  mkCommitInfo (ci_pc f) v (ci_squashInst f) (ci_strictlyOrderedLoad f)
    (ci_nonSpecSeqNum f) (ci_doneSeqNum f) (ci_freeROBEntries f) (ci_squash f)
    (ci_robSquashing f) (ci_usedROB f) (ci_emptyROB f) (ci_branchTaken f)
    (ci_interruptPending f) (ci_clearInterrupt f) (ci_strictlyOrdered f).
Definition set_ci_squashInst (v : option DynInstPtr) (f : CommitInfo) : CommitInfo :=
  mkCommitInfo (ci_pc f) (ci_mispredictInst f) v (ci_strictlyOrderedLoad f)
    (ci_nonSpecSeqNum f) (ci_doneSeqNum f) (ci_freeROBEntries f) (ci_squash f)
    (ci_robSquashing f) (ci_usedROB f) (ci_emptyROB f) (ci_branchTaken f)
    (ci_interruptPending f) (ci_clearInterrupt f) (ci_strictlyOrdered f).
Definition set_ci_strictlyOrderedLoad (v : option DynInstPtr) (f : CommitInfo) : CommitInfo :=
  mkCommitInfo (ci_pc f) (ci_mispredictInst f) (ci_squashInst f) v (ci_nonSpecSeqNum f)
    (ci_doneSeqNum f) (ci_freeROBEntries f) (ci_squash f) (ci_robSquashing f)
    (ci_usedROB f) (ci_emptyROB f) (ci_branchTaken f) (ci_interruptPending f)
    (ci_clearInterrupt f) (ci_strictlyOrdered f).
Definition set_ci_nonSpecSeqNum (v : InstSeqNum) (f : CommitInfo) : CommitInfo :=
  mkCommitInfo (ci_pc f) (ci_mispredictInst f) (ci_squashInst f)
    (ci_strictlyOrderedLoad f) v (ci_doneSeqNum f) (ci_freeROBEntries f)
    (ci_squash f) (ci_robSquashing f) (ci_usedROB f) (ci_emptyROB f)
    (ci_branchTaken f) (ci_interruptPending f) (ci_clearInterrupt f)
    (ci_strictlyOrdered f).
Definition set_ci_doneSeqNum (v : InstSeqNum) (f : CommitInfo) : CommitInfo :=
  mkCommitInfo (ci_pc f) (ci_mispredictInst f) (ci_squashInst f)
    (ci_strictlyOrderedLoad f) (ci_nonSpecSeqNum f) v (ci_freeROBEntries f)
    (ci_squash f) (ci_robSquashing f) (ci_usedROB f) (ci_emptyROB f)
    (ci_branchTaken f) (ci_interruptPending f) (ci_clearInterrupt f)
    (ci_strictlyOrdered f).
Definition set_ci_freeROBEntries (v : Z) (f : CommitInfo) : CommitInfo :=
  mkCommitInfo (ci_pc f) (ci_mispredictInst f) (ci_squashInst f)
    (ci_strictlyOrderedLoad f) (ci_nonSpecSeqNum f) (ci_doneSeqNum f) v
    (ci_squash f) (ci_robSquashing f) (ci_usedROB f) (ci_emptyROB f)
    (ci_branchTaken f) (ci_interruptPending f) (ci_clearInterrupt f)
    (ci_strictlyOrdered f).
Definition set_ci_squash (v : bool) (f : CommitInfo) : CommitInfo :=
  mkCommitInfo (ci_pc f) (ci_mispredictInst f) (ci_squashInst f)
    (ci_strictlyOrderedLoad f) (ci_nonSpecSeqNum f) (ci_doneSeqNum f)
    (ci_freeROBEntries f) v (ci_robSquashing f) (ci_usedROB f) (ci_emptyROB f)
    (ci_branchTaken f) (ci_interruptPending f) (ci_clearInterrupt f)
    (ci_strictlyOrdered f).
Definition set_ci_robSquashing (v : bool) (f : CommitInfo) : CommitInfo :=
  mkCommitInfo (ci_pc f) (ci_mispredictInst f) (ci_squashInst f)
    (ci_strictlyOrderedLoad f) (ci_nonSpecSeqNum f) (ci_doneSeqNum f)
    (ci_freeROBEntries f) (ci_squash f) v (ci_usedROB f) (ci_emptyROB f)
    (ci_branchTaken f) (ci_interruptPending f) (ci_clearInterrupt f)
    (ci_strictlyOrdered f).
Definition set_ci_usedROB (v : bool) (f : CommitInfo) : CommitInfo :=
  mkCommitInfo (ci_pc f) (ci_mispredictInst f) (ci_squashInst f)
    (ci_strictlyOrderedLoad f) (ci_nonSpecSeqNum f) (ci_doneSeqNum f)
    (ci_freeROBEntries f) (ci_squash f) (ci_robSquashing f) v (ci_emptyROB f)
    (ci_branchTaken f) (ci_interruptPending f) (ci_clearInterrupt f)
    (ci_strictlyOrdered f).
Definition set_ci_emptyROB (v : bool) (f : CommitInfo) : CommitInfo :=
  mkCommitInfo (ci_pc f) (ci_mispredictInst f) (ci_squashInst f)
    (ci_strictlyOrderedLoad f) (ci_nonSpecSeqNum f) (ci_doneSeqNum f)
    (ci_freeROBEntries f) (ci_squash f) (ci_robSquashing f) (ci_usedROB f) v
    (ci_branchTaken f) (ci_interruptPending f) (ci_clearInterrupt f)
    (ci_strictlyOrdered f).
Definition set_ci_branchTaken (v : bool) (f : CommitInfo) : CommitInfo :=
  mkCommitInfo (ci_pc f) (ci_mispredictInst f) (ci_squashInst f)
    (ci_strictlyOrderedLoad f) (ci_nonSpecSeqNum f) (ci_doneSeqNum f)
    (ci_freeROBEntries f) (ci_squash f) (ci_robSquashing f) (ci_usedROB f)
    (ci_emptyROB f) v (ci_interruptPending f) (ci_clearInterrupt f)
    (ci_strictlyOrdered f).
Definition set_ci_interruptPending (v : bool) (f : CommitInfo) : CommitInfo :=
  mkCommitInfo (ci_pc f) (ci_mispredictInst f) (ci_squashInst f)
    (ci_strictlyOrderedLoad f) (ci_nonSpecSeqNum f) (ci_doneSeqNum f)
    (ci_freeROBEntries f) (ci_squash f) (ci_robSquashing f) (ci_usedROB f)
    (ci_emptyROB f) (ci_branchTaken f) v (ci_clearInterrupt f)
    (ci_strictlyOrdered f).
Definition set_ci_clearInterrupt (v : bool) (f : CommitInfo) : CommitInfo :=
  mkCommitInfo (ci_pc f) (ci_mispredictInst f) (ci_squashInst f)
    (ci_strictlyOrderedLoad f) (ci_nonSpecSeqNum f) (ci_doneSeqNum f)
    (ci_freeROBEntries f) (ci_squash f) (ci_robSquashing f) (ci_usedROB f)
    (ci_emptyROB f) (ci_branchTaken f) (ci_interruptPending f) v
    (ci_strictlyOrdered f).
Definition set_ci_strictlyOrdered (v : bool) (f : CommitInfo) : CommitInfo :=
  mkCommitInfo (ci_pc f) (ci_mispredictInst f) (ci_squashInst f)
    (ci_strictlyOrderedLoad f) (ci_nonSpecSeqNum f) (ci_doneSeqNum f)
    (ci_freeROBEntries f) (ci_squash f) (ci_robSquashing f) (ci_usedROB f)
    (ci_emptyROB f) (ci_branchTaken f) (ci_interruptPending f)
    (ci_clearInterrupt f) v.

Record Commit := mkCommit {
  co_active : bool; (** [_status] *)
  co_nextActive : bool; (** [_nextStatus] *)
  commitPolicy : CommitPolicy;
  commitStatus : ThreadID → ThreadStatus;
  changedROBNumEntries : ThreadID → bool;
  checkEmptyROB : ThreadID → bool;
  trapInFlight : ThreadID → bool;
  committedStores : ThreadID → bool;
  trapSquash : ThreadID → bool;
  tcSquash : ThreadID → bool;
  co_pc : ThreadID → Addr; (** [pc] *)
  youngestSeqNum : ThreadID → InstSeqNum;
  lastCommitedSeqNum : ThreadID → InstSeqNum;
  squashAfterInst : ThreadID → option DynInstPtr;
  interrupt : option Fault;
  canHandleInterrupts : bool;
  avoidQuiesceLiveLock : bool;
  drainPending : bool;
  drainImminent : bool;
  priority_list : list ThreadID;
  latestSquashReason : CommitHeadError;
  co_wroteToTimeBuffer : bool;
  toIEW : ThreadID → CommitInfo; (** [toIEW->commitInfo] *)
  trapPending : ThreadID → bool; (** of [thread[tid]] *)
  noSquashFromTC : ThreadID → bool; (** of [thread[tid]] *)
  trapEvents : list (ThreadID * option Fault); (** scheduled by [generateTrapEvent] *)
  commitWidth : nat;
  renameWidth : nat;
  co_numThreads : nat;
  co_activeThreads : list ThreadID;
}.

Definition set_co_active (v : bool) (c : Commit) : Commit :=
  mkCommit v (co_nextActive c) (commitPolicy c) (commitStatus c)
    (changedROBNumEntries c) (checkEmptyROB c) (trapInFlight c)
    (committedStores c) (trapSquash c) (tcSquash c) (co_pc c)
    (youngestSeqNum c) (lastCommitedSeqNum c) (squashAfterInst c)
    (interrupt c) (canHandleInterrupts c) (avoidQuiesceLiveLock c)
    (drainPending c) (drainImminent c) (priority_list c)
    (latestSquashReason c) (co_wroteToTimeBuffer c) (toIEW c) (trapPending c)
    (noSquashFromTC c) (trapEvents c) (commitWidth c) (renameWidth c)
    (co_numThreads c) (co_activeThreads c).
Definition set_co_nextActive (v : bool) (c : Commit) : Commit :=
  mkCommit (co_active c) v (commitPolicy c) (commitStatus c) (changedROBNumEntries c)
    (checkEmptyROB c) (trapInFlight c) (committedStores c) (trapSquash c)
    (tcSquash c) (co_pc c) (youngestSeqNum c) (lastCommitedSeqNum c)
    (squashAfterInst c) (interrupt c) (canHandleInterrupts c)
    (avoidQuiesceLiveLock c) (drainPending c) (drainImminent c)
    (priority_list c) (latestSquashReason c) (co_wroteToTimeBuffer c)
    (toIEW c) (trapPending c) (noSquashFromTC c) (trapEvents c)
    (commitWidth c) (renameWidth c) (co_numThreads c) (co_activeThreads c).
Definition set_commitStatus (v : ThreadID → ThreadStatus) (c : Commit) : Commit :=
  mkCommit (co_active c) (co_nextActive c) (commitPolicy c) v
    (changedROBNumEntries c) (checkEmptyROB c) (trapInFlight c)
    (committedStores c) (trapSquash c) (tcSquash c) (co_pc c)
    (youngestSeqNum c) (lastCommitedSeqNum c) (squashAfterInst c)
    (interrupt c) (canHandleInterrupts c) (avoidQuiesceLiveLock c)
    (drainPending c) (drainImminent c) (priority_list c)
    (latestSquashReason c) (co_wroteToTimeBuffer c) (toIEW c) (trapPending c)
    (noSquashFromTC c) (trapEvents c) (commitWidth c) (renameWidth c)
    (co_numThreads c) (co_activeThreads c).
Definition set_changedROBNumEntries (v : ThreadID → bool) (c : Commit) : Commit :=
  mkCommit (co_active c) (co_nextActive c) (commitPolicy c) (commitStatus c) v
    (checkEmptyROB c) (trapInFlight c) (committedStores c) (trapSquash c)
    (tcSquash c) (co_pc c) (youngestSeqNum c) (lastCommitedSeqNum c)
    (squashAfterInst c) (interrupt c) (canHandleInterrupts c)
    (avoidQuiesceLiveLock c) (drainPending c) (drainImminent c)
    (priority_list c) (latestSquashReason c) (co_wroteToTimeBuffer c)
    (toIEW c) (trapPending c) (noSquashFromTC c) (trapEvents c)
    (commitWidth c) (renameWidth c) (co_numThreads c) (co_activeThreads c).
Definition set_checkEmptyROB (v : ThreadID → bool) (c : Commit) : Commit :=
  mkCommit (co_active c) (co_nextActive c) (commitPolicy c) (commitStatus c)
    (changedROBNumEntries c) v (trapInFlight c) (committedStores c)
    (trapSquash c) (tcSquash c) (co_pc c) (youngestSeqNum c)
    (lastCommitedSeqNum c) (squashAfterInst c) (interrupt c)
    (canHandleInterrupts c) (avoidQuiesceLiveLock c) (drainPending c)
    (drainImminent c) (priority_list c) (latestSquashReason c)
    (co_wroteToTimeBuffer c) (toIEW c) (trapPending c) (noSquashFromTC c)
    (trapEvents c) (commitWidth c) (renameWidth c) (co_numThreads c)
    (co_activeThreads c).
Definition set_trapInFlight (v : ThreadID → bool) (c : Commit) : Commit :=
  mkCommit (co_active c) (co_nextActive c) (commitPolicy c) (commitStatus c)
    (changedROBNumEntries c) (checkEmptyROB c) v (committedStores c)
    (trapSquash c) (tcSquash c) (co_pc c) (youngestSeqNum c)
    (lastCommitedSeqNum c) (squashAfterInst c) (interrupt c)
    (canHandleInterrupts c) (avoidQuiesceLiveLock c) (drainPending c)
    (drainImminent c) (priority_list c) (latestSquashReason c)
    (co_wroteToTimeBuffer c) (toIEW c) (trapPending c) (noSquashFromTC c)
    (trapEvents c) (commitWidth c) (renameWidth c) (co_numThreads c)
    (co_activeThreads c).
Definition set_committedStores (v : ThreadID → bool) (c : Commit) : Commit :=
  mkCommit (co_active c) (co_nextActive c) (commitPolicy c) (commitStatus c)
    (changedROBNumEntries c) (checkEmptyROB c) (trapInFlight c) v
    (trapSquash c) (tcSquash c) (co_pc c) (youngestSeqNum c)
    (lastCommitedSeqNum c) (squashAfterInst c) (interrupt c)
    (canHandleInterrupts c) (avoidQuiesceLiveLock c) (drainPending c)
    (drainImminent c) (priority_list c) (latestSquashReason c)
    (co_wroteToTimeBuffer c) (toIEW c) (trapPending c) (noSquashFromTC c)
    (trapEvents c) (commitWidth c) (renameWidth c) (co_numThreads c)
    (co_activeThreads c).
Definition set_trapSquash (v : ThreadID → bool) (c : Commit) : Commit :=
  mkCommit (co_active c) (co_nextActive c) (commitPolicy c) (commitStatus c)
    (changedROBNumEntries c) (checkEmptyROB c) (trapInFlight c)
    (committedStores c) v (tcSquash c) (co_pc c) (youngestSeqNum c)
    (lastCommitedSeqNum c) (squashAfterInst c) (interrupt c)
    (canHandleInterrupts c) (avoidQuiesceLiveLock c) (drainPending c)
    (drainImminent c) (priority_list c) (latestSquashReason c)
    (co_wroteToTimeBuffer c) (toIEW c) (trapPending c) (noSquashFromTC c)
    (trapEvents c) (commitWidth c) (renameWidth c) (co_numThreads c)
    (co_activeThreads c).
Definition set_tcSquash (v : ThreadID → bool) (c : Commit) : Commit :=
  mkCommit (co_active c) (co_nextActive c) (commitPolicy c) (commitStatus c)
    (changedROBNumEntries c) (checkEmptyROB c) (trapInFlight c)
    (committedStores c) (trapSquash c) v (co_pc c) (youngestSeqNum c)
    (lastCommitedSeqNum c) (squashAfterInst c) (interrupt c)
    (canHandleInterrupts c) (avoidQuiesceLiveLock c) (drainPending c)
    (drainImminent c) (priority_list c) (latestSquashReason c)
    (co_wroteToTimeBuffer c) (toIEW c) (trapPending c) (noSquashFromTC c)
    (trapEvents c) (commitWidth c) (renameWidth c) (co_numThreads c)
    (co_activeThreads c).
Definition set_co_pc (v : ThreadID → Addr) (c : Commit) : Commit :=
  mkCommit (co_active c) (co_nextActive c) (commitPolicy c) (commitStatus c)
    (changedROBNumEntries c) (checkEmptyROB c) (trapInFlight c)
    (committedStores c) (trapSquash c) (tcSquash c) v (youngestSeqNum c)
    (lastCommitedSeqNum c) (squashAfterInst c) (interrupt c)
    (canHandleInterrupts c) (avoidQuiesceLiveLock c) (drainPending c)
    (drainImminent c) (priority_list c) (latestSquashReason c)
    (co_wroteToTimeBuffer c) (toIEW c) (trapPending c) (noSquashFromTC c)
    (trapEvents c) (commitWidth c) (renameWidth c) (co_numThreads c)
    (co_activeThreads c).
Definition set_youngestSeqNum (v : ThreadID → InstSeqNum) (c : Commit) : Commit :=
  mkCommit (co_active c) (co_nextActive c) (commitPolicy c) (commitStatus c)
    (changedROBNumEntries c) (checkEmptyROB c) (trapInFlight c)
    (committedStores c) (trapSquash c) (tcSquash c) (co_pc c) v
    (lastCommitedSeqNum c) (squashAfterInst c) (interrupt c)
    (canHandleInterrupts c) (avoidQuiesceLiveLock c) (drainPending c)
    (drainImminent c) (priority_list c) (latestSquashReason c)
    (co_wroteToTimeBuffer c) (toIEW c) (trapPending c) (noSquashFromTC c)
    (trapEvents c) (commitWidth c) (renameWidth c) (co_numThreads c)
    (co_activeThreads c).
Definition set_lastCommitedSeqNum (v : ThreadID → InstSeqNum) (c : Commit) : Commit :=
  mkCommit (co_active c) (co_nextActive c) (commitPolicy c) (commitStatus c)
    (changedROBNumEntries c) (checkEmptyROB c) (trapInFlight c)
    (committedStores c) (trapSquash c) (tcSquash c) (co_pc c)
    (youngestSeqNum c) v (squashAfterInst c) (interrupt c)
    (canHandleInterrupts c) (avoidQuiesceLiveLock c) (drainPending c)
    (drainImminent c) (priority_list c) (latestSquashReason c)
    (co_wroteToTimeBuffer c) (toIEW c) (trapPending c) (noSquashFromTC c)
    (trapEvents c) (commitWidth c) (renameWidth c) (co_numThreads c)
    (co_activeThreads c).
Definition set_squashAfterInst (v : ThreadID → option DynInstPtr) (c : Commit) : Commit :=
  mkCommit (co_active c) (co_nextActive c) (commitPolicy c) (commitStatus c)
    (changedROBNumEntries c) (checkEmptyROB c) (trapInFlight c)
    (committedStores c) (trapSquash c) (tcSquash c) (co_pc c)
    (youngestSeqNum c) (lastCommitedSeqNum c) v (interrupt c)
    (canHandleInterrupts c) (avoidQuiesceLiveLock c) (drainPending c)
    (drainImminent c) (priority_list c) (latestSquashReason c)
    (co_wroteToTimeBuffer c) (toIEW c) (trapPending c) (noSquashFromTC c)
    (trapEvents c) (commitWidth c) (renameWidth c) (co_numThreads c)
    (co_activeThreads c).
Definition set_interrupt (v : option Fault) (c : Commit) : Commit :=
  mkCommit (co_active c) (co_nextActive c) (commitPolicy c) (commitStatus c)
    (changedROBNumEntries c) (checkEmptyROB c) (trapInFlight c)
    (committedStores c) (trapSquash c) (tcSquash c) (co_pc c)
    (youngestSeqNum c) (lastCommitedSeqNum c) (squashAfterInst c) v
    (canHandleInterrupts c) (avoidQuiesceLiveLock c) (drainPending c)
    (drainImminent c) (priority_list c) (latestSquashReason c)
    (co_wroteToTimeBuffer c) (toIEW c) (trapPending c) (noSquashFromTC c)
    (trapEvents c) (commitWidth c) (renameWidth c) (co_numThreads c)
    (co_activeThreads c).
Definition set_canHandleInterrupts (v : bool) (c : Commit) : Commit :=
  mkCommit (co_active c) (co_nextActive c) (commitPolicy c) (commitStatus c)
    (changedROBNumEntries c) (checkEmptyROB c) (trapInFlight c)
    (committedStores c) (trapSquash c) (tcSquash c) (co_pc c)
    (youngestSeqNum c) (lastCommitedSeqNum c) (squashAfterInst c)
    (interrupt c) v (avoidQuiesceLiveLock c) (drainPending c)
    (drainImminent c) (priority_list c) (latestSquashReason c)
    (co_wroteToTimeBuffer c) (toIEW c) (trapPending c) (noSquashFromTC c)
    (trapEvents c) (commitWidth c) (renameWidth c) (co_numThreads c)
    (co_activeThreads c).
Definition set_avoidQuiesceLiveLock (v : bool) (c : Commit) : Commit :=
  mkCommit (co_active c) (co_nextActive c) (commitPolicy c) (commitStatus c)
    (changedROBNumEntries c) (checkEmptyROB c) (trapInFlight c)
    (committedStores c) (trapSquash c) (tcSquash c) (co_pc c)
    (youngestSeqNum c) (lastCommitedSeqNum c) (squashAfterInst c)
    (interrupt c) (canHandleInterrupts c) v (drainPending c) (drainImminent c)
    (priority_list c) (latestSquashReason c) (co_wroteToTimeBuffer c)
    (toIEW c) (trapPending c) (noSquashFromTC c) (trapEvents c)
    (commitWidth c) (renameWidth c) (co_numThreads c) (co_activeThreads c).
Definition set_drainPending (v : bool) (c : Commit) : Commit :=
  mkCommit (co_active c) (co_nextActive c) (commitPolicy c) (commitStatus c)
    (changedROBNumEntries c) (checkEmptyROB c) (trapInFlight c)
    (committedStores c) (trapSquash c) (tcSquash c) (co_pc c)
    (youngestSeqNum c) (lastCommitedSeqNum c) (squashAfterInst c)
    (interrupt c) (canHandleInterrupts c) (avoidQuiesceLiveLock c) v
    (drainImminent c) (priority_list c) (latestSquashReason c)
    (co_wroteToTimeBuffer c) (toIEW c) (trapPending c) (noSquashFromTC c)
    (trapEvents c) (commitWidth c) (renameWidth c) (co_numThreads c)
    (co_activeThreads c).
Definition set_drainImminent (v : bool) (c : Commit) : Commit :=
  mkCommit (co_active c) (co_nextActive c) (commitPolicy c) (commitStatus c)
    (changedROBNumEntries c) (checkEmptyROB c) (trapInFlight c)
    (committedStores c) (trapSquash c) (tcSquash c) (co_pc c)
    (youngestSeqNum c) (lastCommitedSeqNum c) (squashAfterInst c)
    (interrupt c) (canHandleInterrupts c) (avoidQuiesceLiveLock c)
    (drainPending c) v (priority_list c) (latestSquashReason c)
    (co_wroteToTimeBuffer c) (toIEW c) (trapPending c) (noSquashFromTC c)
    (trapEvents c) (commitWidth c) (renameWidth c) (co_numThreads c)
    (co_activeThreads c).
Definition set_priority_list (v : list ThreadID) (c : Commit) : Commit :=
  mkCommit (co_active c) (co_nextActive c) (commitPolicy c) (commitStatus c)
    (changedROBNumEntries c) (checkEmptyROB c) (trapInFlight c)
    (committedStores c) (trapSquash c) (tcSquash c) (co_pc c)
    (youngestSeqNum c) (lastCommitedSeqNum c) (squashAfterInst c)
    (interrupt c) (canHandleInterrupts c) (avoidQuiesceLiveLock c)
    (drainPending c) (drainImminent c) v (latestSquashReason c)
    (co_wroteToTimeBuffer c) (toIEW c) (trapPending c) (noSquashFromTC c)
    (trapEvents c) (commitWidth c) (renameWidth c) (co_numThreads c)
    (co_activeThreads c).
Definition set_latestSquashReason (v : CommitHeadError) (c : Commit) : Commit :=
  mkCommit (co_active c) (co_nextActive c) (commitPolicy c) (commitStatus c)
    (changedROBNumEntries c) (checkEmptyROB c) (trapInFlight c)
    (committedStores c) (trapSquash c) (tcSquash c) (co_pc c)
    (youngestSeqNum c) (lastCommitedSeqNum c) (squashAfterInst c)
    (interrupt c) (canHandleInterrupts c) (avoidQuiesceLiveLock c)
    (drainPending c) (drainImminent c) (priority_list c) v
    (co_wroteToTimeBuffer c) (toIEW c) (trapPending c) (noSquashFromTC c)
    (trapEvents c) (commitWidth c) (renameWidth c) (co_numThreads c)
    (co_activeThreads c).
Definition set_co_wroteToTimeBuffer (v : bool) (c : Commit) : Commit :=
  mkCommit (co_active c) (co_nextActive c) (commitPolicy c) (commitStatus c)
    (changedROBNumEntries c) (checkEmptyROB c) (trapInFlight c)
    (committedStores c) (trapSquash c) (tcSquash c) (co_pc c)
    (youngestSeqNum c) (lastCommitedSeqNum c) (squashAfterInst c)
    (interrupt c) (canHandleInterrupts c) (avoidQuiesceLiveLock c)
    (drainPending c) (drainImminent c) (priority_list c)
    (latestSquashReason c) v (toIEW c) (trapPending c) (noSquashFromTC c)
    (trapEvents c) (commitWidth c) (renameWidth c) (co_numThreads c)
    (co_activeThreads c).
Definition set_toIEW (v : ThreadID → CommitInfo) (c : Commit) : Commit :=
  mkCommit (co_active c) (co_nextActive c) (commitPolicy c) (commitStatus c)
    (changedROBNumEntries c) (checkEmptyROB c) (trapInFlight c)
    (committedStores c) (trapSquash c) (tcSquash c) (co_pc c)
    (youngestSeqNum c) (lastCommitedSeqNum c) (squashAfterInst c)
    (interrupt c) (canHandleInterrupts c) (avoidQuiesceLiveLock c)
    (drainPending c) (drainImminent c) (priority_list c)
    (latestSquashReason c) (co_wroteToTimeBuffer c) v (trapPending c)
    (noSquashFromTC c) (trapEvents c) (commitWidth c) (renameWidth c)
    (co_numThreads c) (co_activeThreads c).
Definition set_trapPending (v : ThreadID → bool) (c : Commit) : Commit :=
  mkCommit (co_active c) (co_nextActive c) (commitPolicy c) (commitStatus c)
    (changedROBNumEntries c) (checkEmptyROB c) (trapInFlight c)
    (committedStores c) (trapSquash c) (tcSquash c) (co_pc c)
    (youngestSeqNum c) (lastCommitedSeqNum c) (squashAfterInst c)
    (interrupt c) (canHandleInterrupts c) (avoidQuiesceLiveLock c)
    (drainPending c) (drainImminent c) (priority_list c)
    (latestSquashReason c) (co_wroteToTimeBuffer c) (toIEW c) v
    (noSquashFromTC c) (trapEvents c) (commitWidth c) (renameWidth c)
    (co_numThreads c) (co_activeThreads c).
Definition set_noSquashFromTC (v : ThreadID → bool) (c : Commit) : Commit :=
  mkCommit (co_active c) (co_nextActive c) (commitPolicy c) (commitStatus c)
    (changedROBNumEntries c) (checkEmptyROB c) (trapInFlight c)
    (committedStores c) (trapSquash c) (tcSquash c) (co_pc c)
    (youngestSeqNum c) (lastCommitedSeqNum c) (squashAfterInst c)
    (interrupt c) (canHandleInterrupts c) (avoidQuiesceLiveLock c)
    (drainPending c) (drainImminent c) (priority_list c)
    (latestSquashReason c) (co_wroteToTimeBuffer c) (toIEW c) (trapPending c)
    v (trapEvents c) (commitWidth c) (renameWidth c) (co_numThreads c)
    (co_activeThreads c).
Definition set_trapEvents (v : list (ThreadID * option Fault)) (c : Commit) : Commit :=
  mkCommit (co_active c) (co_nextActive c) (commitPolicy c) (commitStatus c)
    (changedROBNumEntries c) (checkEmptyROB c) (trapInFlight c)
    (committedStores c) (trapSquash c) (tcSquash c) (co_pc c)
    (youngestSeqNum c) (lastCommitedSeqNum c) (squashAfterInst c)
    (interrupt c) (canHandleInterrupts c) (avoidQuiesceLiveLock c)
    (drainPending c) (drainImminent c) (priority_list c)
    (latestSquashReason c) (co_wroteToTimeBuffer c) (toIEW c) (trapPending c)
    (noSquashFromTC c) v (commitWidth c) (renameWidth c) (co_numThreads c)
    (co_activeThreads c).

(** What the issue stage reads of it. *)
Definition toCommitComm (f : CommitInfo) : CommitComm :=
  mkCommitComm (ci_squash f) (ci_robSquashing f) (ci_doneSeqNum f) (ci_nonSpecSeqNum f)
    (ci_strictlyOrdered f) (ci_strictlyOrderedLoad f).

(** The rest of the CPU; [E] is its state.  Trap, interrupt and PC events may
    change the PC of the thread. *)
Class CpuEnv (E : Type) := {
  env_checkInterrupts : E → bool;
  env_getInterrupts : E → option Fault;
  env_processInterrupts : option Fault → Addr → E → Addr * E;
  env_trap : Fault → ThreadID → option StaticInst → Addr → E → Addr * E;
  env_servicePC : ThreadID → Addr → E → Addr * E; (** [pcEventQueue.service] *)
  env_instListEmpty : E → bool; (** [cpu->instList.empty()] *)
  env_updateMiscRegs : DynInst → E → E;
  env_commitDrained : ThreadID → E → E;
}.

Record Com (M E : Type) := mkCom {
  cm : Commit;
  cm_rob : ROB;
  cm_iq : InstQueue;
  cm_lsq : LSQ;
  cm_insts : store;
  cm_map : ThreadID → UnifiedRenameMap;
  cm_mem : M;
  cm_env : E;
}.
Arguments mkCom {M E}. Arguments cm {M E}. Arguments cm_rob {M E}. Arguments cm_iq {M E}.
Arguments cm_lsq {M E}. Arguments cm_insts {M E}. Arguments cm_map {M E}. Arguments cm_mem {M E}.
Arguments cm_env {M E}.

Section com.
Context {M E : Type}.
Definition cm_set (c : Commit) (x : Com M E) : Com M E :=
  mkCom c (cm_rob x) (cm_iq x) (cm_lsq x) (cm_insts x) (cm_map x) (cm_mem x) (cm_env x).
Definition cm_set_rob (r : ROB) (s : store) (x : Com M E) : Com M E :=
  mkCom (cm x) r (cm_iq x) (cm_lsq x) s (cm_map x) (cm_mem x) (cm_env x).
Definition cm_set_iq (q : InstQueue) (x : Com M E) : Com M E :=
  mkCom (cm x) (cm_rob x) q (cm_lsq x) (cm_insts x) (cm_map x) (cm_mem x) (cm_env x).
Definition cm_set_insts (s : store) (x : Com M E) : Com M E := cm_set_rob (cm_rob x) s x.
Definition cm_set_map (m : ThreadID → UnifiedRenameMap) (x : Com M E) : Com M E :=
  mkCom (cm x) (cm_rob x) (cm_iq x) (cm_lsq x) (cm_insts x) m (cm_mem x) (cm_env x).
Definition cm_set_mem (m : M) (x : Com M E) : Com M E :=
  mkCom (cm x) (cm_rob x) (cm_iq x) (cm_lsq x) (cm_insts x) (cm_map x) m (cm_env x).
Definition cm_set_env (e : E) (x : Com M E) : Com M E :=
  mkCom (cm x) (cm_rob x) (cm_iq x) (cm_lsq x) (cm_insts x) (cm_map x) (cm_mem x) e.
Definition cm_on (f : Commit → Commit) (x : Com M E) : Com M E := cm_set (f (cm x)) x.
End com.

(** [commitInfo[tid].field = v] *)
Definition tell (tid : ThreadID) (f : CommitInfo → CommitInfo) (c : Commit) : Commit :=
  set_toIEW (upd tid (f (toIEW c tid)) (toIEW c)) c.
Definition setThreadStatus (tid : ThreadID) (st : ThreadStatus) (c : Commit) : Commit :=
  set_commitStatus (upd tid st (commitStatus c)) c.
Definition setChangedROB (tid : ThreadID) (c : Commit) : Commit :=
  set_changedROBNumEntries (upd tid true (changedROBNumEntries c)) c.

(** ** Construction *)

Definition newCommit (policy : string) (width rwidth threads : nat) (active : list ThreadID)
    (info : CommitInfo) : outcome Commit :=
  if MaxWidth <? Z.of_nat width then Err (PanicCall "commitWidth") else
  let make pol prio :=
    Ok (mkCommit true false pol (λ _, CIdle) (λ _, false) (λ _, false) (λ _, false) (λ _, false)
          (λ _, false) (λ _, false) (λ _, 0) (λ _, 0) (λ _, 0) (λ _, None) None true false false false
          prio CommitSuccess false (λ _, info) (λ _, false) (λ _, false) [] width rwidth threads active) in
  if (policy =? "aggressive")%string then make Aggressive []
  else if (policy =? "roundrobin")%string then make RoundRobin (seq 0 threads)
  else if (policy =? "oldestready")%string then make OldestReady []
  else Err (Assertion "Invalid SMT Commit Policy").

(** The event scheduled by a trap. *)
Definition processTrapEvent (tid : ThreadID) (c : Commit) : Commit :=
  set_trapSquash (upd tid true (trapSquash c)) c.

Definition generateTrapEvent (tid : ThreadID) (f : option Fault) (c : Commit) : Commit :=
  set_trapPending (upd tid true (trapPending c))
    (set_trapInFlight (upd tid true (trapInFlight c))
       (set_trapEvents (trapEvents c ++ [(tid, f)]) c)).

Definition generateTCEvent (tid : ThreadID) (c : Commit) : outcome Commit :=
  assert! negb (trapInFlight c tid) as "generateTCEvent: !trapInFlight[tid]" in
  Ok (set_tcSquash (upd tid true (tcSquash c)) c).

Definition drain (c : Commit) : Commit := set_drainPending true c.
Definition drainResume (c : Commit) : Commit := set_drainImminent false (set_drainPending false c).

(** [std::find] and [erase] on the list of threads. *)
Fixpoint erase_first_tid (tid : ThreadID) (l : list ThreadID) : list ThreadID :=
  match l with
  | [] => []
  | t :: l' => if (t =? tid)%nat then l' else t :: erase_first_tid tid l'
  end.

Definition deactivateThread (tid : ThreadID) (c : Commit) : Commit :=
  set_priority_list (erase_first_tid tid (priority_list c)) c.

Definition co_updateStatus (c : Commit) : Commit :=
  let c := fold_left (λ c tid,
    let c := set_changedROBNumEntries (upd tid false (changedROBNumEntries c)) c in
    if bool_decide (commitStatus c tid = CTrapPending) || bool_decide (commitStatus c tid = CFetchTrapPending)
    then set_co_nextActive true c else c) (co_activeThreads c) c in
  set_co_active (co_nextActive c) c.

Definition changedROBEntries (c : Commit) : bool :=
  existsb (changedROBNumEntries c) (co_activeThreads c).

(** ** Squashes *)

Section stage.
Context {M E : Type} `{MemSystem M} `{CpuEnv E}.
Variable cfg : DolmaConfig.
Variable FullSystem : bool.

Definition co_startupStage (x : Com M E) : Com M E :=
  let r := resetEntries (cm_rob x) in
  let x := cm_set_rob r (cm_insts x) x in
  cm_on (λ c, fold_left (λ c tid,
    tell tid (λ f, set_ci_emptyROB true (set_ci_freeROBEntries (numFreeEntriesThread tid r)
                     (set_ci_usedROB true f))) c) (seq 0 (co_numThreads c)) c) x.

(** [microPC] is the micro PC of a PC state. *)
Definition co_isDrained (microPC : Addr → Z) (x : Com M E) : bool :=
  forallb (λ tid, microPC (co_pc (cm x) tid) =? 0) (seq 0 (co_numThreads (cm x)))
  && isEmpty (cm_rob x) && bool_decide (interrupt (cm x) = None).

Definition co_takeOverFrom (x : Com M E) : Com M E :=
  let x := cm_on (λ c, fold_left (λ c tid,
      set_squashAfterInst (upd tid None (squashAfterInst c))
        (set_tcSquash (upd tid false (tcSquash c))
           (set_trapSquash (upd tid false (trapSquash c))
              (set_changedROBNumEntries (upd tid false (changedROBNumEntries c))
                 (setThreadStatus tid CIdle c)))))
      (seq 0 (co_numThreads c)) (set_co_nextActive false (set_co_active true c))) x in
  cm_set_rob (resetState (cm_rob x)) (cm_insts x) x.

Definition squashAll (tid : ThreadID) (x : Com M E) : outcome (Com M E) :=
  let! squashed_inst :=
    if isEmptyThread tid (cm_rob x) then Ok (lastCommitedSeqNum (cm x) tid)
    else
      let! o := readHeadInst tid (cm_rob x) (cm_insts x) in
      match o with
      | None => Err (NullDeref "readHeadInst(tid)->seqNum")
      | Some p => let! i := deref p (cm_insts x) in Ok (u64 (seqNum i - 1))
      end in
  let! (r, s) := squash squashed_inst tid (cm_rob x) (cm_insts x) in
  let x := cm_set_rob r s x in
  Ok (cm_on (λ c,
    let c := set_youngestSeqNum (upd tid (lastCommitedSeqNum c tid) (youngestSeqNum c)) c in
    tell tid (λ f, set_ci_pc (co_pc c tid) (set_ci_squashInst None (set_ci_mispredictInst None
                     (set_ci_robSquashing true (set_ci_squash true (set_ci_doneSeqNum squashed_inst f))))))
      (setChangedROB tid c)) x).

Definition squashFromTrap (tid : ThreadID) (x : Com M E) : outcome (Com M E) :=
  let! x := squashAll tid x in
  Ok (cm_on (λ c,
    setThreadStatus tid CROBSquashing
      (set_trapSquash (upd tid false (trapSquash c))
         (set_trapInFlight (upd tid false (trapInFlight c))
            (set_noSquashFromTC (upd tid false (noSquashFromTC c))
               (set_trapPending (upd tid false (trapPending c)) c))))) x).

Definition squashFromTC (tid : ThreadID) (x : Com M E) : outcome (Com M E) :=
  let! x := squashAll tid x in
  let x := cm_on (λ c, set_noSquashFromTC (upd tid false (noSquashFromTC c)) c) x in
  assert! negb (trapPending (cm x) tid) as "squashFromTC: !trapPending" in
  Ok (cm_on (λ c, set_tcSquash (upd tid false (tcSquash c)) (setThreadStatus tid CROBSquashing c)) x).

Definition squashFromSquashAfter (tid : ThreadID) (x : Com M E) : outcome (Com M E) :=
  let! x := squashAll tid x in
  Ok (cm_on (λ c,
    setThreadStatus tid CROBSquashing
      (set_squashAfterInst (upd tid None (squashAfterInst c))
         (tell tid (set_ci_squashInst (squashAfterInst c tid)) c))) x).

Definition squashAfter (tid : ThreadID) (p : DynInstPtr) (c : Commit) : outcome Commit :=
  assert! (match squashAfterInst c tid with None => true | Some q => q =? p end)
    as "squashAfter: !squashAfterInst[tid] || squashAfterInst[tid] == head_inst" in
  Ok (set_squashAfterInst (upd tid (Some p) (squashAfterInst c))
        (setThreadStatus tid CSquashAfterPending c)).

(** ** Interrupts *)

Definition handleInterrupt (x : Com M E) : outcome (Com M E) :=
  if negb (env_checkInterrupts (cm_env x)) then
    Ok (cm_on (λ c, set_avoidQuiesceLiveLock true (set_interrupt None
                      (tell 0%nat (set_ci_clearInterrupt true) c))) x)
  else if canHandleInterrupts (cm x) && env_instListEmpty (cm_env x) then
    let x := cm_on (tell 0%nat (set_ci_clearInterrupt true)) x in
    assert! negb (noSquashFromTC (cm x) 0%nat) as "handleInterrupt: !noSquashFromTC" in
    let (pc, e) := env_processInterrupts (env_getInterrupts (cm_env x)) (co_pc (cm x) 0%nat) (cm_env x) in
    let x := cm_set_env e x in
    Ok (cm_on (λ c, set_avoidQuiesceLiveLock false (generateTrapEvent 0%nat None
                      (set_interrupt None (setThreadStatus 0%nat CTrapPending
                         (set_noSquashFromTC (upd 0%nat false (noSquashFromTC c))
                            (set_co_pc (upd 0%nat pc (co_pc c)) c)))))) x)
  else Ok x.

Definition propagateInterrupt (x : Com M E) : Com M E :=
  let c := cm x in
  if bool_decide (commitStatus c 0%nat = CTrapPending) || bool_decide (interrupt c ≠ None)
     || trapSquash c 0%nat || tcSquash c 0%nat || drainImminent c then x
  else
    let i := env_getInterrupts (cm_env x) in
    cm_on (λ c, let c := set_interrupt i c in
      match i with None => c | Some _ => tell 0%nat (set_ci_interruptPending true) c end) x.

(** ** Redirects *)

(** The end of both ways to squash for a redirect: [sn] is the last instruction
    that stays, [branchOf] finds the branch, if it was one, once the squash has
    been started. *)
Definition squashTo (tid : ThreadID) (sn : InstSeqNum)
    (branchOf : store → outcome (option DynInstPtr)) (taken : bool) (pc : Addr)
    (reason : CommitHeadError) (x : Com M E) : outcome (Com M E) :=
  let x := cm_on (λ c, set_youngestSeqNum (upd tid sn (youngestSeqNum c))
                         (setThreadStatus tid CROBSquashing (set_latestSquashReason reason c))) x in
  let! (r, s) := squash sn tid (cm_rob x) (cm_insts x) in
  let x := cm_set_rob r s x in
  let! mispredicted := branchOf s in
  let! squashInst := findInst tid sn r s in
  let! taken := match mispredicted with
                | None => Ok taken
                | Some b => let! i := deref b s in Ok (if isUncondCtrl i then true else taken)
                end in
  Ok (cm_on (λ c, tell tid (λ f,
        set_ci_pc pc (set_ci_squashInst squashInst (set_ci_branchTaken taken
          (set_ci_mispredictInst mispredicted (set_ci_robSquashing true
             (set_ci_squash true (set_ci_doneSeqNum sn f))))))) (setChangedROB tid c)) x).

Definition doPendingRedirect (squasher : DynInstPtr) (x : Com M E) : outcome (Com M E) :=
  let! i := deref squasher (cm_insts x) in
  let tid := threadNumber i in
  let! x :=
    if isPendingBranch i then Ok x
    else
      assert! instAddr i =? violator_PC i as "doPendingRedirect: instAddr() == violator_PC" in
      if isSTT cfg then Ok x
      else let! q := iq_violation tid (getColliderPC i) (instAddr i) (cm_iq x) in Ok (cm_set_iq q x) in
  let! sn := if isPendingMemOrder i then Ok (u64 (seqNum i - 1))
             else assert! isControlInducer i as "doPendingRedirect: isControlInducer()" in Ok (seqNum i) in
  squashTo tid sn
    (λ s, let! i := deref squasher s in Ok (if isPendingBranch i then Some squasher else None))
    (branchTaken i) (pc i)
    (if isPendingBranch i then SquashingBranchMispredict else SquashingMemoryViolation) x.

(** The redirect has been dealt with. *)
Definition clearRedirect (i : DynInst) : DynInst :=
  clearPendingMemOrder (clearControlInducer (clearPendingBranch i)).
Definition clearRedirectOf (p : DynInstPtr) (x : Com M E) : outcome (Com M E) :=
  let! s := modify clearRedirect p (cm_insts x) in Ok (cm_set_insts s x).

(** May the redirect of [i] be performed when it is reported? *)
Definition canSquash (i : DynInst) : bool :=
  negb (isDolmaRestricted i && (isPendingBranch i || isPendingMemOrder i))
  && negb (negb (isSTT cfg) && isPendingMemOrder i && (getColliderPC i =? 0)).

(** The redirect reported by the issue stage, [b] being [fromIEW]. *)
Definition reportedRedirect (tid : ThreadID) (b : IEWStruct) (x : Com M E) : outcome (Com M E) :=
  let! o := findInst tid (ic_squashedSeqNum b tid) (cm_rob x) (cm_insts x) in
  match o with
  | None => Err (Assertion "commit: squasher")
  | Some p =>
      let! i := deref p (cm_insts x) in
      if canSquash i then
        let sn := if ic_includeSquashInst b tid then u64 (ic_squashedSeqNum b tid - 1)
                  else ic_squashedSeqNum b tid in
        let! x := squashTo tid sn (λ _, Ok (ic_mispredictInst b tid)) (ic_branchTaken b tid) (ic_pc b tid)
                    (match ic_mispredictInst b tid with
                     | Some _ => SquashingBranchMispredict
                     | None => SquashingMemoryViolation end) x in
        clearRedirectOf p x
      else Ok x
  end.

(** The part of [commit()] that looks for a redirect of a thread. *)
Definition redirectThread (tid : ThreadID) (b : IEWStruct) (x : Com M E) : outcome (Com M E) :=
  let! o := getResolvedRedirect cfg tid (cm_rob x) (cm_insts x) in
  let! resolved := match o with
                   | None => Ok None
                   | Some p => let! i := deref p (cm_insts x) in Ok (Some (p, i))
                   end in
  let youngest := youngestSeqNum (cm x) tid in
  let redirects (i : DynInst) :=
    (seqNum i <=? youngest) && (negb (ic_squash b tid) || (seqNum i <=? ic_squashedSeqNum b tid)) in
  let reported := ic_squash b tid && (ic_squashedSeqNum b tid <=? youngest) in
  match resolved with
  | Some (p, i) =>
      if redirects i then
        assert! isControlInducer i || isPendingMemOrder i as "commit: isControlInducer() || isPendingMemOrder()" in
        let! x := doPendingRedirect p x in clearRedirectOf p x
      else if reported then reportedRedirect tid b x
      else
        assert! isControlInducer i || isPendingMemOrder i as "commit: isControlInducer() || isPendingMemOrder()" in
        clearRedirectOf p x
  | None => if reported then reportedRedirect tid b x else Ok x
  end.

(** ** Choosing a thread *)

Definition mayCommit (tid : ThreadID) (c : Commit) : bool :=
  bool_decide (commitStatus c tid = CRunning) || bool_decide (commitStatus c tid = CIdle)
  || bool_decide (commitStatus c tid = CFetchTrapPending).

Fixpoint roundRobinIn (l : list ThreadID) (x : Com M E) : outcome (option ThreadID) :=
  match l with
  | [] => Ok None
  | tid :: l' =>
      if mayCommit tid (cm x) then
        let! b := isHeadReady tid (cm_rob x) (cm_insts x) in
        if b then Ok (Some tid) else roundRobinIn l' x
      else roundRobinIn l' x
  end.
Definition roundRobin (x : Com M E) : outcome (option ThreadID * Com M E) :=
  let! o := roundRobinIn (priority_list (cm x)) x in
  match o with
  | None => Ok (None, x)
  | Some tid =>
      Ok (Some tid, cm_on (λ c, set_priority_list (erase_first_tid tid (priority_list c) ++ [tid]) c) x)
  end.

(** [oldest] holds a thread, and is what sequence numbers are compared with. *)
Definition oldestStep (x : Com M E) (oldest : option ThreadID) (tid : ThreadID) : outcome (option ThreadID) :=
  if negb (isEmptyThread tid (cm_rob x)) && mayCommit tid (cm x) then
    let! b := isHeadReady tid (cm_rob x) (cm_insts x) in
    if b : bool then
      let! o := readHeadInst tid (cm_rob x) (cm_insts x) in
      match o with
      | None => Err (NullDeref "head_inst")
      | Some p =>
          let! i := deref p (cm_insts x) in
          match oldest with
          | None => Ok (Some tid)
          | Some t => Ok (if seqNum i <? Z.of_nat t then Some tid else Some t)
          end
      end
    else Ok oldest
  else Ok oldest.
Definition oldestReady (x : Com M E) : outcome (option ThreadID) :=
  foldM (oldestStep x) (co_activeThreads (cm x)) None.

Definition getCommittingThread (x : Com M E) : outcome (option ThreadID * Com M E) :=
  if (1 <? co_numThreads (cm x))%nat then
    match commitPolicy (cm x) with
    | RoundRobin => roundRobin x
    | Aggressive | OldestReady => let! t := oldestReady x in Ok (t, x)
    end
  else
    match co_activeThreads (cm x) with
    | [] => Err (Assertion "getCommittingThread: !activeThreads->empty()")
    | tid :: _ => Ok (if mayCommit tid (cm x) then Some tid else None, x)
    end.

(** ** Committing *)

Variable regFile : PhysRegFile.
(** [flattenedDestRegIdx(idx)], an operand of the static instruction. *)
Variable flattenedDestRegIdx : DynInst → nat → RegId.
(** The micro PC of a PC state, and [advancePC]. *)
Variable microPC : Addr → Z.
Variable advancePC : DynInst → Addr.
(** How often PC events may redirect one instruction. *)
Variable serviceBound : nat.

Definition hasStores (tid : ThreadID) (x : Com M E) : outcome bool :=
  let! u := unitOf tid (cm_lsq x) in Ok (hasStoresToWB u).

(** The instruction at the head has not been executed. *)
Definition unexecutedHead (p : DynInstPtr) (i : DynInst) (inst_num : nat) (x : Com M E)
  : outcome (CommitHeadError * Com M E) :=
  let tid := threadNumber i in
  assert! isNonSpeculative i || isStoreConditional i || isMemBarrier i || isWriteBarrier i
          || (isLoad i && strictlyOrdered i) as "commitHead: un-executed instruction" in
  let! st := if (0 <? inst_num)%nat then Ok true else hasStores tid x in
  if st : bool then Ok (StoreOrder, x)
  else
    let! s := modify clearCanCommit p (cm_insts x) in
    let x := cm_on (tell tid (set_ci_nonSpecSeqNum (seqNum i))) (cm_set_insts s x) in
    if isLoad i && strictlyOrdered i then
      Ok (LoadOrder, cm_on (tell tid (λ f, set_ci_strictlyOrderedLoad (Some p)
                                             (set_ci_strictlyOrdered true f))) x)
    else Ok (if isLoad i then LoadStall else if isStore i then StoreStall else GeneralStall, x).

(** The instruction at the head has a fault. *)
Definition faultingHead (p : DynInstPtr) (i : DynInst) (f : Fault) (inst_num : nat) (x : Com M E)
  : outcome (CommitHeadError * Com M E) :=
  let tid := threadNumber i in
  let! st := hasStores tid x in
  if st || (0 <? inst_num)%nat then Ok (StoreOrder, x)
  else
    let! s := modify setCompleted p (cm_insts x) in
    let x := cm_set_insts s x in
    assert! negb (noSquashFromTC (cm x) tid) as "commitHead: !noSquashFromTC" in
    let (pc, e) := env_trap f tid (if notAnInst i then None else Some (staticInst i))
                     (co_pc (cm x) tid) (cm_env x) in
    let x := cm_set_env e x in
    Ok (InstructionFault,
        cm_on (λ c, generateTrapEvent tid (Some f)
                      (setThreadStatus tid CTrapPending
                         (set_noSquashFromTC (upd tid false (noSquashFromTC c))
                            (set_co_pc (upd tid pc (co_pc c)) c)))) x).

Definition commitHead (p : DynInstPtr) (inst_num : nat) (x : Com M E)
  : outcome (CommitHeadError * Com M E) :=
  let! i := deref p (cm_insts x) in
  let tid := threadNumber i in
  if negb (isExecuted i) then unexecutedHead p i inst_num x
  else if static i IsThreadSync then Err (PanicCall "Thread sync instructions are not handled yet.")
  else
    match getFault i with
    | Some f => faultingHead p i f inst_num x
    | None =>
        let! x := if isStore i then Ok x
                  else let! s := modify setCompleted p (cm_insts x) in Ok (cm_set_insts s x) in
        let! m := foldM (λ m idx, let! d := renamedDestRegIdx idx i in
                                  um_setEntry regFile (flattenedDestRegIdx i idx) d m)
                    (seq 0 (numDestRegs i)) (cm_map x tid) in
        let x := cm_set_map (upd tid m (cm_map x)) x in
        let! (r, s, mem) := retireHead cfg tid (cm_rob x) (cm_insts x) (cm_mem x) in
        let x := cm_set_mem mem (cm_set_rob r s x) in
        Ok (CommitSuccess,
            if isStore i then cm_on (λ c, set_committedStores (upd tid true (committedStores c)) c) x
            else x)
    end.

(** The loop over PC events; how often it ran. *)
Fixpoint servicePC (fuel : nat) (tid : ThreadID) (count : nat) (x : Com M E)
  : outcome (nat * Com M E) :=
  match fuel with
  | O => Err (NoFuel "pcEventQueue")
  | S n =>
      let oldpc := co_pc (cm x) tid in
      let (pc, e) := env_servicePC tid oldpc (cm_env x) in
      let x := cm_on (λ c, set_co_pc (upd tid pc (co_pc c)) c) (cm_set_env e x) in
      if oldpc =? pc then Ok (S count, x) else servicePC n tid (S count) x
  end.

(** What follows a successful commit; [true] when the loop is left. *)
Definition afterCommit (p : DynInstPtr) (tid : ThreadID) (x : Com M E) : outcome (bool * Com M E) :=
  let! i := deref p (cm_insts x) in
  let x := cm_on (λ c, tell tid (set_ci_doneSeqNum (seqNum i)) (setChangedROB tid c)) x in
  let x := if (tid =? 0)%nat
           then cm_on (set_canHandleInterrupts (negb (static i IsDelayedCommit))) x else x in
  assert! negb (isStoreConditional i) || isCompleted i || negb (readPredicate i)
    as "commitInsts: store conditional" in
  let x := cm_set_env (env_updateMiscRegs i (cm_env x)) x in
  let x := cm_on (λ c, set_lastCommitedSeqNum (upd tid (seqNum i) (lastCommitedSeqNum c))
                         (set_co_pc (upd tid (advancePC i) (co_pc c)) c)) x in
  let! c := if static i IsSquashAfter then squashAfter tid p (cm x) else Ok (cm x) in
  let x := cm_set c x in
  let! x :=
    if drainPending (cm x) && (microPC (co_pc (cm x) tid) =? 0)
       && bool_decide (interrupt (cm x) = None) && negb (trapPending (cm x) tid) then
      let! c := squashAfter tid p (cm x) in
      Ok (cm_set_env (env_commitDrained tid (cm_env x)) (cm_set (set_drainImminent true c) x))
    else Ok x in
  let onInstBoundary := negb (static i IsMicroop) || static i IsLastMicroop
                        || negb (static i IsDelayedCommit) in
  let! (stop, x) :=
    if onInstBoundary then
      assert! negb (noSquashFromTC (cm x) tid) && negb (trapPending (cm x) tid)
        as "commitInsts: !noSquashFromTC && !trapPending" in
      let! (count, x) := servicePC serviceBound tid 0 x in Ok ((1 <? count)%nat, x)
    else Ok (false, x) in
  if stop : bool then Ok (true, x)
  else if bool_decide (interrupt (cm x) = None) && avoidQuiesceLiveLock (cm x) && onInstBoundary
          && env_checkInterrupts (cm_env x) then
    let! c := squashAfter tid p (cm x) in Ok (false, cm_set c x)
  else Ok (false, x).

(** Why the instruction at the head does not commit. *)
Definition stallReason (i : DynInst) : CommitHeadError :=
  if isLoad i then LoadStall else if isStore i then StoreStall
  else if isMemBarrier i then MemBarrier else if isWriteBarrier i then WriteBarrier else GeneralStall.

(** The loop: how many instructions were committed, and the last status. *)
Fixpoint commitLoop (fuel : nat) (num_committed : nat) (status : CommitHeadError) (x : Com M E)
  : outcome (nat * CommitHeadError * Com M E) :=
  match fuel with
  | O => Err (NoFuel "commitInsts")
  | S n =>
      if negb (num_committed <? commitWidth (cm x))%nat then Ok (num_committed, status, x) else
      let! x := match interrupt (cm x) with None => Ok x | Some _ => handleInterrupt x end in
      let! (t, x) := getCommittingThread x in
      match t with
      | None => Ok (num_committed, NoThreadReady, x)
      | Some commit_thread =>
          if threadEntries (cm_rob x) commit_thread =? 0 then Ok (num_committed, ROBEmpty, x) else
          let! o := readHeadInst commit_thread (cm_rob x) (cm_insts x) in
          match o with
          | None => Err (NullDeref "head_inst")
          | Some p =>
              let! i := deref p (cm_insts x) in
              if negb (readyToCommit i) then Ok (num_committed, stallReason i, x) else
              let tid := threadNumber i in
              assert! (tid =? commit_thread)%nat as "commitInsts: tid == commit_thread" in
              if isSquashed i then
                let! (r, s, mem) := retireHead cfg commit_thread (cm_rob x) (cm_insts x) (cm_mem x) in
                let x := cm_on (setChangedROB tid) (cm_set_mem mem (cm_set_rob r s x)) in
                commitLoop n num_committed RetiringSquashes x
              else
                let x := cm_on (λ c, set_co_pc (upd tid (pc i) (co_pc c)) c) x in
                let! (st, x) := commitHead p num_committed x in
                if bool_decide (st = CommitSuccess) then
                  let! (stop, x) := afterCommit p tid x in
                  if stop : bool then Ok (S num_committed, st, x)
                  else commitLoop n (S num_committed) st x
                else Ok (num_committed, st, x)
          end
      end
  end.

(** Every iteration takes an instruction out of the reorder buffer. *)
Definition commitFuel (x : Com M E) : nat :=
  S (sum_list_with (λ t, length (instList (cm_rob x) t)) (seq 0 (co_numThreads (cm x)))).

Definition commitInsts (x : Com M E) : outcome (Com M E) :=
  let! (n, st, x) := commitLoop (commitFuel x) 0 CommitSuccess x in
  assert! (0 <? n)%nat || bool_decide (st ≠ CommitSuccess) as "commitInsts: commit_status != CommitSuccess" in
  Ok x.

(** ** Renamed and completed instructions *)

Definition getInst (x : Com M E) (p : DynInstPtr) : outcome (Com M E) :=
  let! i := deref p (cm_insts x) in
  let tid := threadNumber i in
  if negb (isSquashed i) && bool_decide (commitStatus (cm x) tid ≠ CROBSquashing)
     && bool_decide (commitStatus (cm x) tid ≠ CTrapPending) then
    let! (r, s) := insertInst cfg p (cm_rob x) (cm_insts x) in
    assert! threadEntries r tid <=? maxEntries r tid as "getInsts: getThreadEntries <= getMaxEntries" in
    Ok (cm_on (λ c, set_youngestSeqNum (upd tid (seqNum i) (youngestSeqNum c)) (setChangedROB tid c))
          (cm_set_rob r s x))
  else Ok x.
Definition getInsts (fromRename : list DynInstPtr) (x : Com M E) : outcome (Com M E) :=
  foldM getInst (take (renameWidth (cm x)) fromRename) x.

Definition markCompleted (s : store) (o : option DynInstPtr) : outcome store :=
  match o with
  | None => Err (Assertion "markCompletedInsts: fromIEW->insts[inst_num]")
  | Some p =>
      let! i := deref p s in
      if negb (isSquashed i) && negb (isPendingBranch i) && negb (isPendingMemOrder i)
      then modifyM setCanCommit p s else Ok s
  end.
Definition markCompletedInsts (b : IEWStruct) (x : Com M E) : outcome (Com M E) :=
  let! s := foldM markCompleted (take (Z.to_nat (ic_size b)) (ic_insts b)) (cm_insts x) in
  Ok (cm_set_insts s x).

(** ** The cycle *)

Definition squashThread (tid : ThreadID) (b : IEWStruct) (x : Com M E) : outcome (Com M E) :=
  let! x :=
    if trapSquash (cm x) tid then
      assert! negb (tcSquash (cm x) tid) as "commit: !tcSquash[tid]" in squashFromTrap tid x
    else if tcSquash (cm x) tid then
      assert! bool_decide (commitStatus (cm x) tid ≠ CTrapPending)
        as "commit: commitStatus[tid] != TrapPending" in squashFromTC tid x
    else if bool_decide (commitStatus (cm x) tid = CSquashAfterPending) then squashFromSquashAfter tid x
    else Ok x in
  if bool_decide (commitStatus (cm x) tid ≠ CTrapPending) then redirectThread tid b x else Ok x.

(** What rename is told about the entries of a thread. *)
Definition reportROB (tid : ThreadID) (x : Com M E) : outcome (Com M E) :=
  let x :=
    if changedROBNumEntries (cm x) tid then
      cm_on (λ c,
        let c := tell tid (λ f, set_ci_freeROBEntries (numFreeEntriesThread tid (cm_rob x))
                                  (set_ci_usedROB true f)) c in
        let c := set_changedROBNumEntries (upd tid false (changedROBNumEntries c))
                   (set_co_wroteToTimeBuffer true c) in
        if isEmptyThread tid (cm_rob x) then set_checkEmptyROB (upd tid true (checkEmptyROB c)) c else c) x
    else x in
  let! st := hasStores tid x in
  Ok (if checkEmptyROB (cm x) tid && isEmptyThread tid (cm_rob x) && negb st && negb (committedStores (cm x) tid)
      then cm_on (λ c,
             set_co_wroteToTimeBuffer true
               (tell tid (λ f, set_ci_freeROBEntries (numFreeEntriesThread tid (cm_rob x))
                                 (set_ci_emptyROB true (set_ci_usedROB true f)))
                  (set_checkEmptyROB (upd tid false (checkEmptyROB c)) c))) x
      else x).

Definition commit (fromRename : list DynInstPtr) (b : IEWStruct) (x : Com M E) : outcome (Com M E) :=
  let x := if FullSystem && env_checkInterrupts (cm_env x) then propagateInterrupt x else x in
  let! (n, x) := foldM (λ '(n, x) tid,
      let! x := squashThread tid b x in
      Ok (if bool_decide (commitStatus (cm x) tid = CROBSquashing) then S n else n, x))
    (co_activeThreads (cm x)) (0%nat, x) in
  let x := if (n =? 0)%nat then x else cm_on (set_co_nextActive true) x in
  let! x := if (n =? co_numThreads (cm x))%nat then Ok x
            else let! x := getInsts fromRename x in commitInsts x in
  foldM (λ x tid, reportROB tid x) (co_activeThreads (cm x)) x.

Definition endSquash (x : Com M E) (tid : ThreadID) : outcome (Com M E) :=
  let x := cm_on (λ c, set_committedStores (upd tid false (committedStores c)) c) x in
  if bool_decide (commitStatus (cm x) tid = CROBSquashing) then
    if doneSquashing (cm_rob x) tid then
      Ok (cm_on (λ c, set_latestSquashReason CommitSuccess (setThreadStatus tid CRunning c)) x)
    else
      let! (r, s) := doSquash tid (cm_rob x) (cm_insts x) in
      Ok (cm_on (λ c, set_co_wroteToTimeBuffer true (tell tid (set_ci_robSquashing true) c))
            (cm_set_rob r s x))
  else Ok x.

Definition headReady (x : Com M E) (tid : ThreadID) : outcome (Com M E) :=
  if isEmptyThread tid (cm_rob x) then Ok x else
  let! o := readHeadInst tid (cm_rob x) (cm_insts x) in
  match o with
  | None => Err (NullDeref "readHeadInst(tid)")
  | Some p => let! i := deref p (cm_insts x) in
              Ok (if readyToCommit i then cm_on (set_co_nextActive true) x else x)
  end.

(** [tick]: [fromRename] and [b] are what the wires from rename and the issue
    stage hold. *)
Definition co_tick (fromRename : list DynInstPtr) (b : IEWStruct) (x : Com M E) : outcome (Com M E) :=
  let x := cm_on (λ c, set_co_nextActive false (set_co_wroteToTimeBuffer false c)) x in
  match co_activeThreads (cm x) with
  | [] => Ok x
  | active =>
      let! x := foldM endSquash active x in
      let! x := commit fromRename b x in
      let! x := markCompletedInsts b x in
      let! x := foldM headReady active x in
      Ok (cm_on co_updateStatus x)
  end.
End stage.
