(* ===== verification/CommitRedirect.v ===== *)
(** * Redirects at commit

    Commit performs a redirect when the instruction behind it is safe.  A redirect
    that hangs on a restricted instruction is ignored when the issue stage reports
    it: fetch is not told and nothing is squashed.  It is performed once the
    reorder buffer finds it resolved. *)

From S2P Require Import Prelude Regs Config DynInst Metadata Rob RobSafe Speculation RobSquash.
From S2P Require Import InstQueue IqTaint Rename LsqUnit Lsq Iew IewPorts IewRedirect Commit.

Local Open Scope Z_scope.

Section redirects.
Context {M E : Type} {HM : MemSystem M} {HE : CpuEnv E}.
Variable cfg : DolmaConfig.

(** The instruction whose redirect is performed: it is in the buffer, and when
    its redirect had been delayed it is no longer restricted; a violation whose
    store was restricted has a known collider, unless in STT mode, which does not
    delay it. *)
Definition safe_source (tid : ThreadID) (x : Com M E) (p : DynInstPtr) (i : DynInst) : Prop :=
  p ∈ instList (cm_rob x) tid ∧ cm_insts x !! p = Some i ∧
  (isPendingBranch i = true ∨ isPendingMemOrder i = true → isDolmaRestricted i = false) ∧
  (isSTT cfg = false → isPendingMemOrder i = true → isPendingBranch i = false → getColliderPC i ≠ 0).

Lemma findInstIn_elem l sn s p :
  findInstIn l sn s = Ok (Some p) → p ∈ l ∧ ∃ i, s !! p = Some i ∧ seqNum i = sn.
Proof.
  induction l as [|q l IH]; cbn; [done|]. intros H. inv_ok1 H. apply deref_Ok in E0.
  destruct (Z.eqb_spec (seqNum a) sn) as [Heq|].
  - inv_ok H. split; [set_solver|eauto].
  - destruct (IH H) as [? ?]. split; [set_solver|done].
Qed.

Lemma resolvedRedirectIn_elem l s p :
  resolvedRedirectIn cfg l s = Ok (Some p) →
  p ∈ l ∧ ∃ i, s !! p = Some i ∧ isDolmaRestricted i = false ∧
    (isPendingBranch i = true ∨
     isPendingMemOrder i = true ∧ (getColliderPC i ≠ 0 ∨ isSTT cfg = true)).
Proof.
  induction l as [|q l IH]; cbn; [done|]. intros H. inv_ok1 H. apply deref_Ok in E0.
  destruct (negb _ && _) eqn:Hc.
  - inv_ok H. split; [set_solver|]. exists a. split; [done|].
    apply andb_true_iff in Hc as [Hr%negb_true_iff Hp]. split; [done|].
    apply orb_true_iff in Hp as [?|Hp]; [by left|right].
    apply andb_true_iff in Hp as [? Hp]. split; [done|].
    apply orb_true_iff in Hp as [Hn%negb_true_iff%Z.eqb_neq|?]; auto.
  - destruct (IH H) as [? ?]. split; [set_solver|done].
Qed.

Lemma canSquash_safe i :
  canSquash cfg i = true →
  (isPendingBranch i = true ∨ isPendingMemOrder i = true → isDolmaRestricted i = false) ∧
  (isSTT cfg = false → isPendingMemOrder i = true → getColliderPC i ≠ 0).
Proof.
  unfold canSquash. intros [H1%negb_true_iff H2%negb_true_iff]%andb_true_iff. split.
  - intros Hp. destruct (isDolmaRestricted i); [|done]. cbn in H1.
    apply orb_false_iff in H1 as [? ?]. destruct Hp; congruence.
  - intros Hs Hm. rewrite Hs, Hm in H2. cbn in H2. by apply Z.eqb_neq in H2.
Qed.

Lemma toIEW_tell tid f c : toIEW (tell tid f c) tid = f (toIEW c tid).
Proof. apply fn_lookup_insert. Qed.
Lemma toIEW_tell_ne tid t f c : t ≠ tid → toIEW (tell tid f c) t = toIEW c t.
Proof. intros Ht. by apply fn_lookup_insert_ne. Qed.

(** Squashing for a redirect changes what fetch sees of this thread only. *)
Lemma squashTo_tell tid sn br taken pc' reason (x x' : Com M E) :
  squashTo tid sn br taken pc' reason x = Ok x' →
  ci_squash (toIEW (cm x') tid) = true ∧ ci_doneSeqNum (toIEW (cm x') tid) = sn ∧
  ci_pc (toIEW (cm x') tid) = pc' ∧
  youngestSeqNum (cm x') tid = sn ∧ commitStatus (cm x') tid = CROBSquashing ∧
  (∀ t, t ≠ tid → toIEW (cm x') t = toIEW (cm x) t).
Proof.
  unfold squashTo. cbn. intros H1. destruct (squash _ _ _ _) as [[r s]|]; [|done].
  inv_ok1 H1. inv_ok1 H1. inv_ok1 H1. injection H1 as <-. unfold cm_on. cbn [cm cm_set cm_set_rob].
  rewrite !toIEW_tell. split_and!; try done; [apply fn_lookup_insert..|].
  intros t Ht. by rewrite toIEW_tell_ne.
Qed.

(** A squash for a redirect of [p] in thread [tid]: down to [sn], with fetch
    going on at [pc']. *)
Definition performed (tid : ThreadID) (sn : InstSeqNum) (pc' : Addr) (x' : Com M E) : Prop :=
  ci_squash (toIEW (cm x') tid) = true ∧ ci_doneSeqNum (toIEW (cm x') tid) = sn ∧
  ci_pc (toIEW (cm x') tid) = pc' ∧ youngestSeqNum (cm x') tid = sn ∧
  commitStatus (cm x') tid = CROBSquashing.

Lemma doPendingRedirect_performed p i (x x' : Com M E) :
  cm_insts x !! p = Some i → doPendingRedirect cfg p x = Ok x' →
  performed (threadNumber i) (if isPendingMemOrder i then u64 (seqNum i - 1) else seqNum i) (pc i) x' ∧
  (∀ t, t ≠ threadNumber i → toIEW (cm x') t = toIEW (cm x) t).
Proof.
  unfold doPendingRedirect. intros Hi H. rewrite (proj2 (deref_Ok _ _ _) Hi) in H.
  inv_ok1 H. rename a into y. inv_ok1 H. rename a into sn.
  assert (toIEW (cm y) = toIEW (cm x)) as Hy.
  { destruct (isPendingBranch i); [by inv_ok E0|]. inv_ok1 E0. destruct (isSTT cfg); [by inv_ok E0|].
    by inv_ok E0. }
  assert (sn = if isPendingMemOrder i then u64 (seqNum i - 1) else seqNum i) as ->.
  { destruct (isPendingMemOrder i); by inv_ok E1. }
  apply squashTo_tell in H as (? & ? & ? & ? & ? & Ho). split; [done|].
  intros t Ht. by rewrite Ho, Hy.
Qed.

Lemma clearRedirectOf_cm p (x x' : Com M E) : clearRedirectOf p x = Ok x' → cm x' = cm x.
Proof. unfold clearRedirectOf. intros H. by inv_ok H. Qed.

Lemma reportedRedirect_performed tid b (x x' : Com M E) :
  reportedRedirect cfg tid b x = Ok x' →
  x' = x ∨ ∃ p i, safe_source tid x p i ∧ seqNum i = ic_squashedSeqNum b tid ∧
    performed tid (if ic_includeSquashInst b tid then u64 (seqNum i - 1) else seqNum i) (ic_pc b tid) x' ∧
    (∀ t, t ≠ tid → toIEW (cm x') t = toIEW (cm x) t).
Proof.
  unfold reportedRedirect. intros H. inv_ok1 H. destruct a as [p|]; [|done].
  apply findInstIn_elem in E0 as (Hp & i & Hi & Hsn). rewrite (proj2 (deref_Ok _ _ _) Hi) in H.
  destruct (canSquash cfg i) eqn:Hc; [|inv_ok H; by left]. right. exists p, i.
  apply canSquash_safe in Hc as [Hc1 Hc2]. inv_ok1 H. apply clearRedirectOf_cm in H.
  unfold performed. rewrite H, Hsn. apply squashTo_tell in E0 as (? & ? & ? & ? & ? & ?).
  split; [by split_and!; auto|]. by split_and!.
Qed.

Lemma redirectThread_source tid b (x x' : Com M E) :
  (∀ p i, p ∈ instList (cm_rob x) tid → cm_insts x !! p = Some i → threadNumber i = tid) →
  redirectThread cfg tid b x = Ok x' →
  cm x' = cm x ∧ cm_rob x' = cm_rob x ∨
  ∃ p i sn pc', safe_source tid x p i ∧ (sn = seqNum i ∨ sn = u64 (seqNum i - 1)) ∧
    performed tid sn pc' x' ∧ (∀ t, t ≠ tid → toIEW (cm x') t = toIEW (cm x) t).
Proof.
  intros Ht. unfold redirectThread. intros H. inv_ok1 H. rename a into o. inv_ok1 H. rename a into res.
  assert (∀ y, reportedRedirect cfg tid b x = Ok y → y = x' →
    cm x' = cm x ∧ cm_rob x' = cm_rob x ∨
    ∃ p i sn pc', safe_source tid x p i ∧ (sn = seqNum i ∨ sn = u64 (seqNum i - 1)) ∧
      performed tid sn pc' x' ∧ (∀ t, t ≠ tid → toIEW (cm x') t = toIEW (cm x) t)) as Hrep.
  { intros y Hy <-. apply reportedRedirect_performed in Hy as [->|(p & i & Hs & Hsn & Hp & Ho)]; [by left|].
    right. exists p, i. eexists _, _. split; [done|]. split; [|by split].
    destruct (ic_includeSquashInst b tid); auto. }
  destruct o as [p|].
  - apply resolvedRedirectIn_elem in E0 as (Hp & i & E2 & Hnr & Hpend).
    rewrite (proj2 (deref_Ok _ _ _) E2) in E1. injection E1 as <-.
    destruct (_ && _) eqn:Hr.
    + inv_ok1 H. destruct (doPendingRedirect cfg p x) as [y|] eqn:Hd; [|done].
      apply clearRedirectOf_cm in H.
      apply (doPendingRedirect_performed _ _ _ _ E2) in Hd as [Hperf Ho].
      rewrite (Ht _ _ Hp E2) in Hperf, Ho. right.
      exists p, i. eexists _, _. split; [|split; [|unfold performed; rewrite H; split; done]].
      * split_and!; [done|done|done|]. intros ? ? ?. destruct Hpend as [?|[_ [?|?]]]; congruence.
      * destruct (isPendingMemOrder i); auto.
    + destruct (ic_squash b tid && _); [eauto|]. inv_ok1 H. left.
      unfold clearRedirectOf in H. by inv_ok H.
  - injection E1 as <-. destruct (ic_squash b tid && _); [eauto|]. inv_ok H. by left.
Qed.

(** C25: Commit performs no restricted redirect.  When a cycle of commit makes
    fetch start over in thread [tid] because of a redirect, the instruction
    behind it is in the reorder buffer and safe: if its misprediction or its
    memory-order violation had been marked as pending, it is not restricted any
    more, and unless in STT mode the store of a violation has been resolved.
    Fetch is redirected to just behind the instruction, or to the instruction
    itself, and the other threads are told nothing. *)
Theorem no_restricted_redirect (tid : ThreadID) (b : IEWStruct) (x x' : Com M E)
    (Hthread : ∀ p i, p ∈ instList (cm_rob x) tid → cm_insts x !! p = Some i → threadNumber i = tid)
    (Hrun : redirectThread cfg tid b x = Ok x')
    (Hbefore : ci_squash (toIEW (cm x) tid) = false)
    (Hafter : ci_squash (toIEW (cm x') tid) = true) :
  ∃ p i, safe_source tid x p i ∧
    (ci_doneSeqNum (toIEW (cm x') tid) = seqNum i ∨ ci_doneSeqNum (toIEW (cm x') tid) = u64 (seqNum i - 1)) ∧
    commitStatus (cm x') tid = CROBSquashing ∧
    (∀ t, t ≠ tid → toIEW (cm x') t = toIEW (cm x) t).
Proof.
  apply redirectThread_source in Hrun as [[Hc _]|(p & i & sn & pc' & Hs & Hsn & Hp & Ho)]; [|clear Hbefore|done].
  - rewrite Hc, Hbefore in Hafter. done.
  - destruct Hp as (_ & -> & _ & _ & Hst). by exists p, i.
Qed.

(** ** From the report to commit *)

Variable branching : DynInst → bool.
Variable advancePC : DynInst → Addr.
Hypothesis advancePC_ext : ∀ i j,
  pc i = pc j → staticInst i = staticInst j → advancePC i = advancePC j.

(** The redirect of [r] comes from an instruction DOLMA restricts. *)
Definition restricted_report (r : Report) (i : DynInst) : Prop :=
  isDolmaRestricted i = true ∧ (is_violation r = false → isControlInducer i = true).

Lemma restricted_held s s' r i j :
  held cfg s s' r i → restricted_report r i → s' !! subject r = Some j → reported_as i j →
  canSquash cfg j = false.
Proof.
  intros Hheld [Hr Hc] Hj [_ _ _ Hrj _ _ _]. unfold canSquash. rewrite Hrj, Hr.
  assert (isPendingBranch j || isPendingMemOrder j = true) as ->; [|done].
  apply orb_true_iff. destruct r as [p|c v]; cbn in *.
  - destruct Hheld as (j' & ? & ?); auto. simplify_eq. by left.
  - destruct Hheld as (j' & ? & ?); auto. simplify_eq. by right.
Qed.

(** A restricted redirect waits.  Whatever redirects of a thread the issue
    stage reports in a cycle, if all of them come from restricted instructions
    and no delayed redirect of the thread is resolved, then commit does nothing at
    all about them: no instruction is squashed, fetch and the other stages are
    told nothing, and no state of commit changes. *)
Theorem restricted_redirect_waits (tid : ThreadID) (y y' : IEW) (s s' : store) (b b' : IEWStruct)
    (rs : list Report) (x : Com M E)
    (Hb : toCommit y = Ok b) (Hnone : ic_squash b tid = false) (Hrs : rs ≠ [])
    (Hlive : Forall (λ r, is_Some (s !! subject r)) rs)
    (Hrun : foldM (report cfg branching advancePC tid) rs (y, s) = Ok (y', s'))
    (Hb' : toCommit y' = Ok b')
    (Hinsts : cm_insts x = s')
    (Hrob : ∀ r i, r ∈ rs → s !! subject r = Some i →
       findInst tid (seqNum i) (cm_rob x) s' = Ok (Some (subject r)))
    (Hrestricted : ∀ r i, r ∈ rs → s !! subject r = Some i → restricted_report r i)
    (Hresolved : getResolvedRedirect cfg tid (cm_rob x) s' = Ok None) :
  redirectThread cfg tid b' x = Ok x.
Proof.
  destruct (reports_inv cfg branching advancePC tid advancePC_ext s rs [] (y, s) (y', s'))
    as (Has & b1 & Hb1 & Hw); [|done..|].
  { split; [done|]. exists b. auto. }
  cbn [fst snd] in Has, Hb1, Hw. rewrite Hb' in Hb1. injection Hb1 as <-.
  destruct Hw as [[Hnil _]|(r & i & Hr & Hi & (_ & Hsn & _) & Hheld & _)]; [done|].
  destruct (Has _ _ Hi) as (j & Hj & Hij).
  pose proof (restricted_held _ _ _ _ _ Hheld (Hrestricted _ _ Hr Hi) Hj Hij) as Hno.
  unfold redirectThread. rewrite Hinsts, Hresolved. destruct (_ && _); [|done].
  unfold reportedRedirect. rewrite Hinsts, Hsn, (Hrob _ _ Hr Hi).
  rewrite (proj2 (deref_Ok _ _ _) Hj), Hno. done.
Qed.
End redirects.

Module CommitExample.
(** A CPU without interrupts, traps or PC events, and a memory that is not
    looked at. *)
#[global] Instance quiet : CpuEnv () := {|
  env_checkInterrupts _ := false; env_getInterrupts _ := None;
  env_processInterrupts _ pc e := (pc, e); env_trap _ _ _ pc e := (pc, e);
  env_servicePC _ pc e := (pc, e); env_instListEmpty _ := true;
  env_updateMiscRegs _ e := e; env_commitDrained _ e := e |}.

Definition info : CommitInfo :=
  mkCommitInfo 0 None None None 0 0 0 false false false false false false false false.
Definition stage : Commit :=
  mkCommit true false OldestReady (λ _, CRunning) (λ _, false) (λ _, false) (λ _, false) (λ _, false)
    (λ _, false) (λ _, false) (λ _, 0) (λ _, 9) (λ _, 0) (λ _, None) None true false false false [0%nat]
    CommitSuccess false (λ _, info) (λ _, false) (λ _, false) [] 2 2 1 [0%nat].
Definition regs : UnifiedRenameMap :=
  mkUnifiedRenameMap (λ _, mkSimpleRenameMap [] (mkRegId IntRegClass 0 0)) Full.
Definition rob (l : list DynInstPtr) : ROB :=
  mkROB Dynamic 8 2 1 (λ _, 8) (λ _, Z.of_nat (length l)) (λ t, if (t =? 0)%nat then l else []) (head l)
    (last l) (λ _, None) (Z.of_nat (length l)) (λ _, 0) (λ _, true) (λ _, Running) [0%nat] [].
Definition com (l : list DynInstPtr) (s : store) : Com () () :=
  mkCom stage (rob l) IqExample.queue0 (mkLSQ Partitioned 8 8 8 8 1 [0%nat] []) s (λ _, regs) tt tt.

(** The branch 3 is reported; it is restricted, or it is not. *)
Definition reports : list Report := [Mispredict 3].
Definition insts (restricted : bool) : store :=
  let i := PortsExample.nop 3 in
  let i := if restricted then status_set ControlRestricted i else i in
  {[ 2 := status_set RobEntry (PortsExample.nop 2); 3 := status_set RobEntry (status_set ControlInducer i) ]}.
Definition reported (restricted : bool) : IEW * store :=
  match foldM (report PortsExample.mode RedirectExample.taken RedirectExample.next 0) reports
          (PortsExample.wide, insts restricted) with
  | Ok xs => xs | Err _ => (PortsExample.wide, ∅) end.
Definition wire (restricted : bool) : IEWStruct :=
  match toCommit (fst (reported restricted)) with Ok b => b | Err _ => PortsExample.cycle [] end.
Definition before (restricted : bool) : Com () () := com [2; 3] (snd (reported restricted)).
Definition after : Com () () :=
  match redirectThread PortsExample.mode 0 (wire false) (before false) with Ok x => x | Err _ => com [] ∅ end.
End CommitExample.

Lemma no_restricted_redirect_witness :
  ∃ p i, safe_source PortsExample.mode 0 (CommitExample.before false) p i ∧
    commitStatus (cm CommitExample.after) 0 = CROBSquashing.
Proof.
  destruct (no_restricted_redirect PortsExample.mode 0 (CommitExample.wire false)
              (CommitExample.before false) CommitExample.after) as (p & i & H1 & _ & H2 & _).
  - intros p i Hp Hi. change (p ∈ [2; 3]) in Hp. set_unfold in Hp.
    destruct Hp as [->|[->|[]]]; revert Hi; vm_compute; by intros [= <-].
  - vm_compute; reflexivity.
  - reflexivity.
  - vm_compute; reflexivity.
  - by exists p, i.
Defined.

Lemma restricted_redirect_waits_witness :
  redirectThread PortsExample.mode 0 (CommitExample.wire true) (CommitExample.before true)
  = Ok (CommitExample.before true).
Proof.
  apply (restricted_redirect_waits PortsExample.mode RedirectExample.taken RedirectExample.next
           ltac:(intros i j H _; unfold RedirectExample.next; by rewrite H)
           0 PortsExample.wide (fst (CommitExample.reported true)) (CommitExample.insts true)
           (snd (CommitExample.reported true)) (PortsExample.cycle [Some 3; Some 10])
           (CommitExample.wire true) CommitExample.reports (CommitExample.before true)).
  - reflexivity.
  - reflexivity.
  - discriminate.
  - repeat constructor; by eexists.
  - vm_compute; reflexivity.
  - vm_compute; reflexivity.
  - reflexivity.
  - intros r i ->%list_elem_of_singleton Hi. vm_compute in Hi. injection Hi as <-. vm_compute; reflexivity.
  - intros r i ->%list_elem_of_singleton Hi. vm_compute in Hi. injection Hi as <-. by_eval.
  - vm_compute; reflexivity.
Defined.
