(* ===== verification/CommitFuel.v ===== *)
(** * The operations of commit end

    None of what [commitInsts] does to one instruction exhausts a bound of the model,
    except the loop over PC events, whose bound is a parameter because what an event
    does to the PC is not modelled. *)

From S2P Require Import Prelude Regs Config DynInst Metadata Rob RobSafe StoreSet.
From S2P Require Import InstQueue IqContention Rename LsqUnit Lsq Iew Commit.

Local Open Scope Z_scope.

(** If a bound was exhausted, it was that of [w]. *)
Definition boundedBy {A} (w : string) (o : outcome A) : Prop := ∀ v, o = Err (NoFuel v) → v = w.

Lemma fuelled_boundedBy {A} w (o : outcome A) : fuelled o → boundedBy w o.
Proof. by destruct o as [a|[]]; intros H v [=]. Qed.

Lemma boundedBy_bind {A B} w (c : outcome A) (k : A → outcome B) :
  boundedBy w c → (∀ a, c = Ok a → boundedBy w (k a)) →
  boundedBy w (match c with Ok a => k a | Err e => Err e end).
Proof. destruct c as [a|e]; [auto|]. intros H _ v [= ->]. by apply H. Qed.

Lemma boundedBy_err {A B} w e : boundedBy w (@Err A e) → boundedBy w (@Err B e).
Proof. intros H v [= ->]. by apply H. Qed.

Lemma foldM_fuelled {A S} (f : S → A → outcome S) l :
  (∀ s a, fuelled (f s a)) → ∀ s, fuelled (foldM f l s).
Proof. intros Hf. induction l as [|a l IH]; intros s; cbn; [done|]. apply fuelled_bind; auto. Qed.

(** Takes a computation without loops of its own apart. *)
Ltac fuelled :=
  repeat first
    [ solve [auto with fuelled nocore]
    | match goal with
      | |- fuelled (Ok _) => exact I
      | |- fuelled (Err _) => exact I
      | |- fuelled (foldM _ _ _) => apply foldM_fuelled; intros
      end
    | apply fuelled_bind; [|intros ? _]
    | match goal with |- fuelled (match ?c with _ => _ end) => destruct c end
    | done ].

Lemma modifyM_fuelled f p s : (∀ i, fuelled (f i)) → fuelled (modifyM f p s).
Proof. intros Hf. unfold modifyM. fuelled. Qed.
Lemma modify_fuelled f p s : fuelled (modify f p s).
Proof. unfold modify. by apply modifyM_fuelled. Qed.
#[export] Hint Resolve modify_fuelled : fuelled.

Lemma findInstIn_fuelled l sn s : fuelled (findInstIn l sn s).
Proof. induction l as [|q l IH]; cbn; fuelled. Qed.
#[export] Hint Resolve findInstIn_fuelled : fuelled.

Lemma setPendingMetadata_fuelled cfg i : fuelled (setPendingMetadata cfg i).
Proof. unfold setPendingMetadata. fuelled. Qed.
Lemma setPendingMemOrderStore_fuelled cfg i p s : fuelled (modifyM (setPendingMemOrderStore cfg i) p s).
Proof. apply modifyM_fuelled. intros j. unfold setPendingMemOrderStore. fuelled. Qed.
#[export] Hint Resolve setPendingMetadata_fuelled setPendingMemOrderStore_fuelled : fuelled.

Lemma liftRestrictions_fuelled cfg a p s : fuelled (liftRestrictions cfg a p s).
Proof. unfold liftRestrictions. fuelled. Qed.
Lemma resolveInducer_fuelled cfg a p s : fuelled (resolveInducer cfg a p s).
Proof. unfold resolveInducer. fuelled. Qed.
Lemma noteInst_fuelled cfg l a p s : fuelled (noteInst cfg l a p s).
Proof. unfold noteInst. fuelled. Qed.
#[export] Hint Resolve liftRestrictions_fuelled resolveInducer_fuelled noteInst_fuelled : fuelled.

Lemma updateSafeStatus_fuelled cfg tid r s : fuelled (updateSafeStatus cfg tid r s).
Proof. unfold updateSafeStatus. fuelled. Qed.
#[export] Hint Resolve updateSafeStatus_fuelled : fuelled.

Lemma updateHead_fuelled r s : fuelled (updateHead r s).
Proof.
  unfold updateHead. fuelled.
  assert (∀ l o, fuelled (updateHeadIn l r s o)) as H; [|apply H].
  induction l as [|t l IH]; intros o; cbn; fuelled; apply IH.
Qed.
#[export] Hint Resolve updateHead_fuelled : fuelled.

Lemma isHeadReady_fuelled tid r s : fuelled (isHeadReady tid r s).
Proof. unfold isHeadReady. fuelled. Qed.
Lemma readHeadInst_fuelled tid r s : fuelled (readHeadInst tid r s).
Proof. unfold readHeadInst. fuelled. Qed.
#[export] Hint Resolve isHeadReady_fuelled readHeadInst_fuelled : fuelled.

Lemma um_setEntry_fuelled rf arch phys m : fuelled (um_setEntry rf arch phys m).
Proof.
  unfold um_setEntry, um_lookup, simple_setEntry, simple_lookup, getMiscRegId, present. fuelled.
Qed.
#[export] Hint Resolve um_setEntry_fuelled : fuelled.

Section commit.
Context {M E : Type} {HM : MemSystem M} {HE : CpuEnv E}.
Variable cfg : DolmaConfig.
Variable regFile : PhysRegFile.
Variable flattenedDestRegIdx : DynInst → nat → RegId.
Variable microPC : Addr → Z.
Variable advancePC : DynInst → Addr.
Variable serviceBound : nat.
Implicit Types x : Com M E.

Lemma retireHead_fuelled tid r s (m : M) : fuelled (retireHead cfg tid r s m).
Proof.
  unfold retireHead, modifyM. fuelled; [|unfold clearInROB; fuelled].
  unfold updateMetadataIfNeeded, updateLRU, dolmaLoad. fuelled.
Qed.

Lemma handleInterrupt_fuelled x : fuelled (handleInterrupt x).
Proof. unfold handleInterrupt. fuelled. Qed.

Lemma getCommittingThread_fuelled x : fuelled (getCommittingThread x).
Proof.
  unfold getCommittingThread, roundRobin, oldestReady. fuelled; try (unfold oldestStep; fuelled).
  induction (priority_list (cm x)) as [|t l IH]; cbn; fuelled.
Qed.

Lemma commitHead_fuelled p n x : fuelled (commitHead cfg regFile flattenedDestRegIdx p n x).
Proof.
  unfold commitHead. fuelled; try apply retireHead_fuelled.
  - unfold unexecutedHead, hasStores, unitOf. fuelled.
  - unfold faultingHead, hasStores, unitOf. fuelled.
  - unfold renamedDestRegIdx. fuelled.
Qed.

Lemma servicePC_bounded fuel tid : ∀ n x, boundedBy "pcEventQueue" (servicePC fuel tid n x).
Proof.
  induction fuel as [|f IH]; intros n x v H; cbn in H; [by injection H|].
  destruct (env_servicePC _ _ _) as [pc e]. destruct (_ =? _); [done|]. by apply IH in H.
Qed.

Lemma squashAfter_fuelled tid p c : fuelled (squashAfter tid p c).
Proof. unfold squashAfter. fuelled. Qed.

Lemma afterCommit_bounded p tid x :
  boundedBy "pcEventQueue" (afterCommit microPC advancePC serviceBound p tid x).
Proof.
  pose proof squashAfter_fuelled. pose proof servicePC_bounded. unfold afterCommit.
  repeat first
    [ solve [apply fuelled_boundedBy; fuelled; auto]
    | apply boundedBy_bind; [|intros ? _]
    | match goal with |- boundedBy _ (match ?c with _ => _ end) => destruct c end
    | solve [auto] ].
Qed.
End commit.
