(* ===== verification/CommitOrder.v ===== *)
(** * Committing in order

    [commitInsts] takes instructions from the heads of the threads' lists only,
    as many as the commit width allows, and only instructions that are ready and
    that have been squashed or have executed without a fault.  A fault changes
    nothing of the reorder buffer, the commit rename map or the memory system. *)

From S2P Require Import Prelude Regs Config DynInst Metadata Rob RobSafe Speculation RobCount.
From S2P Require Import InstQueue IqTaint IqContention Rename LsqUnit Lsq Iew IewPorts IewDispatch Commit CommitFuel CommitRedirect.

Local Open Scope Z_scope.

(** ** The specification *)

(** An instruction leaves the buffer: its thread, its name and what it was. *)
Record Retirement := mkRetirement { rt_tid : ThreadID; rt_inst : DynInstPtr; rt_as : DynInst }.

(** Each instruction leaves from the head of its thread's list. *)
Inductive in_order : (ThreadID → list DynInstPtr) → list Retirement → (ThreadID → list DynInstPtr) → Prop :=
  | in_order_nil lists : in_order lists [] lists
  | in_order_cons lists t p i rest es lists' :
      lists t = p :: rest → in_order (<[t := rest]> lists) es lists' →
      in_order lists (mkRetirement t p i :: es) lists'.

(** It may leave. *)
Definition may_leave (e : Retirement) : Prop :=
  let i := rt_as e in
  readyToCommit i = true ∧ threadNumber i = rt_tid e ∧
  (isSquashed i = true ∨ isSquashed i = false ∧ isExecuted i = true ∧ fault i = None).

Definition committed (es : list Retirement) : nat :=
  length (filter (λ e, isSquashed (rt_as e) = false) es).

Section order.
Context {M E : Type} {HM : MemSystem M} {HE : CpuEnv E}.
Variable cfg : DolmaConfig.
Variable regFile : PhysRegFile.
Variable flattenedDestRegIdx : DynInst → nat → RegId.
Variable microPC : Addr → Z.
Variable advancePC : DynInst → Addr.
Variable serviceBound : nat.

#[local] Abbreviation loop := (commitLoop cfg regFile flattenedDestRegIdx microPC advancePC serviceBound).

(** ** What the operations leave of the stage *)

(** The parts of the stage the loop depends on but does not change. *)
Record same_setup (x x' : Com M E) : Prop := {
  su_threads : co_numThreads (cm x') = co_numThreads (cm x);
  su_active : co_activeThreads (cm x') = co_activeThreads (cm x);
  su_width : commitWidth (cm x') = commitWidth (cm x);
  su_priority : ∀ t, t ∈ priority_list (cm x') → t ∈ priority_list (cm x);
}.
#[local] Instance same_setup_preorder : PreOrder same_setup.
Proof. split; [done|]. intros ??? [] []. split; auto; congruence. Qed.

Lemma retireHead_list tid r s (m : M) r' s' m' p rest :
  instList r tid = p :: rest →
  retireHead cfg tid r s m = Ok (r', s', m') → instList r' = <[tid := rest]> (instList r).
Proof.
  unfold retireHead. intros Hl H. rewrite Hl in H. inv_ok1 H. inv_ok1 H. inv_ok1 H.
  destruct (if isPendingMetadata a then _ else _) as [[s1 m1]|]; [|done].
  inv_ok1 H. inv_ok1 H. inv_ok1 H. inv_ok1 H. inv_ok1 H. inv_ok H. cbn.
  by match goal with Hu : updateHead _ _ = Ok _ |- _ => rewrite (updateHead_instList _ _ _ Hu) end.
Qed.

Lemma handleInterrupt_frame (x x' : Com M E) :
  handleInterrupt x = Ok x' → same_setup x x' ∧ cm_rob x' = cm_rob x ∧ cm_insts x' = cm_insts x.
Proof.
  unfold handleInterrupt. intros H. destruct (negb _); [by inv_ok H|].
  destruct (_ && _); [|by inv_ok H]. inv_ok1 H. destruct (env_processInterrupts _ _ _). by inv_ok H.
Qed.

Lemma erase_first_elem t u l : t ∈ erase_first_tid u l → t ∈ l.
Proof.
  induction l as [|v l IH]; cbn; [done|]. destruct (v =? u)%nat; set_solver.
Qed.

Lemma roundRobinIn_elem l (x : Com M E) t : roundRobinIn l x = Ok (Some t) → t ∈ l.
Proof.
  induction l as [|u l IH]; cbn; [done|]. intros H. destruct (mayCommit u (cm x)); [inv_ok1 H; destruct a|].
  - inv_ok H. set_solver.
  - apply IH in H. set_solver.
  - apply IH in H. set_solver.
Qed.

Lemma oldestReady_elem (x : Com M E) t : oldestReady x = Ok (Some t) → t ∈ co_activeThreads (cm x).
Proof.
  unfold oldestReady.
  assert (∀ l o, foldM (oldestStep x) l o = Ok (Some t) → o = Some t ∨ t ∈ l) as Hgen.
  { induction l as [|u l IH]; intros o H; cbn [foldM] in H; [inv_ok H; by left|]. inv_ok1 H.
    apply IH in H as [->|?]; [|right; set_solver]. unfold oldestStep in E0.
    destruct (negb _ && _); [|inv_ok E0; by left]. inv_ok1 E0. destruct a; [|inv_ok E0; by left].
    inv_ok1 E0. destruct a; [|done]. inv_ok1 E0. destruct o as [v|]; [|inv_ok E0; right; set_solver].
    destruct (_ <? _); inv_ok E0; [right; set_solver|by left]. }
  intros H. apply Hgen in H as [?|?]; done.
Qed.

(** A thread that commits is an active one, or one of the priority list. *)
Lemma getCommittingThread_frame (x x' : Com M E) o :
  getCommittingThread x = Ok (o, x') →
  same_setup x x' ∧ cm_rob x' = cm_rob x ∧ cm_insts x' = cm_insts x ∧
  (∀ t, o = Some t → t ∈ co_activeThreads (cm x) ∨ t ∈ priority_list (cm x)).
Proof.
  unfold getCommittingThread. intros H. destruct (1 <? _)%nat.
  - destruct (commitPolicy (cm x)).
    + inv_ok1 H. inv_ok H. split_and!; try done. intros t ->. left. by apply oldestReady_elem.
    + unfold roundRobin in H. inv_ok1 H. destruct a as [t|]; inv_ok H; [|by split_and!].
      apply roundRobinIn_elem in E0. split_and!; [|done|done|].
      * split; try done. cbn. intros u [Hu| ->%list_elem_of_singleton]%elem_of_app; [|done].
        by eapply erase_first_elem.
      * intros u [= <-]. by right.
    + inv_ok1 H. inv_ok H. split_and!; try done. intros t ->. left. by apply oldestReady_elem.
  - destruct (co_activeThreads (cm x)) as [|t ts]; [done|]. inv_ok H. split_and!; try done.
    intros u Hu. destruct (mayCommit t (cm x')); simplify_eq. left. set_solver.
Qed.

Lemma commitHead_success p n (x x' : Com M E) :
  commitHead cfg regFile flattenedDestRegIdx p n x = Ok (CommitSuccess, x') →
  ∃ i, cm_insts x !! p = Some i ∧ isExecuted i = true ∧ fault i = None ∧ same_setup x x' ∧
    ∀ rest, instList (cm_rob x) (threadNumber i) = p :: rest →
      instList (cm_rob x') = <[threadNumber i := rest]> (instList (cm_rob x)).
Proof.
  unfold commitHead. intros H. inv_ok1 H. apply deref_Ok in E0. rename a into i.
  destruct (isExecuted i) eqn:Hx; cbn [negb] in H.
  2: { exfalso. unfold unexecutedHead in H. inv_ok1 H. inv_ok1 H. destruct a; [done|].
       inv_ok1 H. destruct (_ && _); [done|]. destruct (isLoad i); [done|]. by destruct (isStore i). }
  destruct (static i IsThreadSync); [done|]. unfold getFault in H. destruct (fault i) eqn:Hf.
  { exfalso. unfold faultingHead in H. inv_ok1 H. destruct (_ || _); [done|]. inv_ok1 H. inv_ok1 H.
    by destruct (env_trap _ _ _ _ _). }
  exists i. split; [done|]. split; [done|]. split; [done|]. inv_ok1 H. rename a into y.
  assert (cm y = cm x ∧ cm_rob y = cm_rob x) as [Hc Hr].
  { destruct (isStore i); [by inv_ok E1|]. inv_ok1 E1. by inv_ok E1. }
  inv_ok1 H. destruct (retireHead _ _ _ _ _) as [[[r s] mem]|] eqn:Hret; [|done]. cbn in Hret.
  injection H as <-. split.
  - destruct (isStore i); split; cbn; by rewrite ?Hc.
  - intros rest Hrest. rewrite <- Hr in Hrest. pose proof (retireHead_list _ _ _ _ _ _ _ _ _ Hrest Hret) as Hl.
    rewrite <- Hr. by destruct (isStore i).
Qed.

(** A head that does not commit leaves the buffer, the rename map and memory alone. *)
Lemma commitHead_fail p n (x x' : Com M E) cs :
  commitHead cfg regFile flattenedDestRegIdx p n x = Ok (cs, x') → cs ≠ CommitSuccess →
  cm_rob x' = cm_rob x ∧ cm_map x' = cm_map x ∧ cm_mem x' = cm_mem x ∧ cm_lsq x' = cm_lsq x.
Proof.
  unfold commitHead. intros H Hcs. inv_ok1 H. destruct (negb _).
  { unfold unexecutedHead in H. inv_ok1 H. inv_ok1 H. destruct a0; [by inv_ok H|].
    inv_ok1 H. destruct (_ && _); by inv_ok H. }
  destruct (static a IsThreadSync); [done|]. destruct (getFault a).
  - unfold faultingHead in H. inv_ok1 H. destruct (_ || _); [by inv_ok H|]. inv_ok1 H. inv_ok1 H.
    destruct (env_trap _ _ _ _ _). by inv_ok H.
  - inv_ok1 H. inv_ok1 H. destruct (retireHead _ _ _ _ _) as [[[r s] mem]|]; [|done]. by inv_ok H.
Qed.

Lemma squashAfter_frame tid p c c' :
  squashAfter tid p c = Ok c' →
  co_numThreads c' = co_numThreads c ∧ co_activeThreads c' = co_activeThreads c ∧
  commitWidth c' = commitWidth c ∧ priority_list c' = priority_list c.
Proof. unfold squashAfter. intros H. by inv_ok H. Qed.

Lemma same_setup_cm (x x' : Com M E) :
  co_numThreads (cm x') = co_numThreads (cm x) ∧ co_activeThreads (cm x') = co_activeThreads (cm x) ∧
  commitWidth (cm x') = commitWidth (cm x) ∧ priority_list (cm x') = priority_list (cm x) →
  same_setup x x'.
Proof. intros (? & ? & ? & Hp). split; try done. by rewrite Hp. Qed.

Lemma servicePC_frame fuel tid : ∀ count (x x' : Com M E) n,
  servicePC fuel tid count x = Ok (n, x') → same_setup x x' ∧ cm_rob x' = cm_rob x.
Proof.
  induction fuel as [|f IH]; intros count x x' n H; cbn in H; [done|].
  destruct (env_servicePC tid (co_pc (cm x) tid) (cm_env x)) as [pc e].
  destruct (_ =? _); [by inv_ok H|]. apply IH in H as [Hs Hr]. split; [|by rewrite Hr].
  etrans; [|done]. done.
Qed.

Lemma afterCommit_frame p tid (x x' : Com M E) stop :
  afterCommit microPC advancePC serviceBound p tid x = Ok (stop, x') →
  same_setup x x' ∧ cm_rob x' = cm_rob x.
Proof.
  unfold afterCommit. intros H. inv_ok1 H. cbv zeta in H. inv_ok1 H.
  set (x1 := cm_on _ (cm_set_env _ _)) in H.
  assert (same_setup x x1 ∧ cm_rob x1 = cm_rob x) as [S1 R1] by (unfold x1; by destruct (_ =? _)%nat).
  clearbody x1. inv_ok1 H. rename a0 into c2.
  assert (same_setup x1 (cm_set c2 x1)) as S2.
  { apply same_setup_cm. destruct (static a IsSquashAfter); [by apply squashAfter_frame in E2|by inv_ok E2]. }
  inv_ok1 H. rename a0 into x3.
  assert (same_setup (cm_set c2 x1) x3 ∧ cm_rob x3 = cm_rob x1) as [S3 R3].
  { destruct (_ && _); [|by inv_ok E3]. inv_ok1 E3. inv_ok E3. split; [|done].
    apply same_setup_cm. by apply squashAfter_frame in E4. }
  set (onB := _ || _) in H.
  destruct (if onB then _ else _) as [[st x4]|] eqn:Hsrv; [|done].
  assert (same_setup x3 x4 ∧ cm_rob x4 = cm_rob x3) as [S4 R4].
  { destruct onB; [|by inv_ok Hsrv]. inv_ok1 Hsrv.
    destruct (servicePC _ _ _ _) as [[cnt x5]|] eqn:Hs; [|done]. inv_ok Hsrv. by apply servicePC_frame in Hs. }
  assert (same_setup x x4 ∧ cm_rob x4 = cm_rob x) as [S5 R5].
  { split; [|congruence]. by do 3 (etrans; [done|]). }
  destruct st; [by inv_ok H|].
  destruct (bool_decide (interrupt (cm x4) = None) && avoidQuiesceLiveLock (cm x4) && onB
            && env_checkInterrupts (cm_env x4)); [|by inv_ok H]. inv_ok1 H. inv_ok H.
  split; [|done]. etrans; [done|]. apply same_setup_cm. by apply squashAfter_frame in E4.
Qed.

(** ** The loop *)

Definition rob_size (x : Com M E) : nat :=
  sum_list_with (λ t, length (instList (cm_rob x) t)) (seq 0 (co_numThreads (cm x))).

Definition setup_ok (x : Com M E) : Prop :=
  ∀ t, t ∈ co_activeThreads (cm x) ∨ t ∈ priority_list (cm x) → (t < co_numThreads (cm x))%nat.

Lemma setup_ok_same (x x' : Com M E) : same_setup x x' → setup_ok x → setup_ok x'.
Proof. intros [H1 H2 _ H4] Hok t. rewrite H1, H2. intros [?|?]; apply Hok; auto. Qed.

Lemma sum_lengths_other (f : ThreadID → list DynInstPtr) t rest n : ∀ k,
  (t < k)%nat →
  sum_list_with (λ u, length (<[t := rest]> f u)) (seq k n) = sum_list_with (λ u, length (f u)) (seq k n).
Proof.
  induction n as [|n IH]; intros k Hk; cbn; [done|].
  rewrite fn_lookup_insert_ne, IH by lia. done.
Qed.

Lemma sum_lengths (f : ThreadID → list DynInstPtr) t p rest n : ∀ k,
  f t = p :: rest → (k <= t < k + n)%nat →
  sum_list_with (λ u, length (f u)) (seq k n)
  = S (sum_list_with (λ u, length (<[t := rest]> f u)) (seq k n)).
Proof.
  induction n as [|n IH]; intros k Hf Hk; [lia|]. cbn.
  destruct (decide (t = k)) as [->|Hne].
  - rewrite fn_lookup_insert, sum_lengths_other, Hf by lia. done.
  - rewrite fn_lookup_insert_ne by done. rewrite (IH (S k)) by (done || lia). lia.
Qed.

Lemma rob_size_retire (x x' : Com M E) t p rest :
  (t < co_numThreads (cm x))%nat → co_numThreads (cm x') = co_numThreads (cm x) →
  instList (cm_rob x) t = p :: rest → instList (cm_rob x') = <[t := rest]> (instList (cm_rob x)) →
  rob_size x = S (rob_size x').
Proof.
  intros Ht Hn Hl Hl'. unfold rob_size. rewrite Hn, Hl'. apply (sum_lengths _ _ p); [done|lia].
Qed.

Lemma readHeadInst_list tid r s p :
  readHeadInst tid r s = Ok (Some p) → ∃ rest, instList r tid = p :: rest.
Proof.
  unfold readHeadInst. intros H. destruct (negb _); [|done].
  destruct (instList r tid) as [|q rest]; [done|]. inv_ok1 H. inv_ok1 H. injection H as <-. by exists rest.
Qed.

Lemma interrupt_frame (x y : Com M E) :
  match interrupt (cm x) with None => Ok x | Some _ => handleInterrupt x end = Ok y →
  same_setup x y ∧ cm_rob y = cm_rob x ∧ cm_insts y = cm_insts x.
Proof. intros H. destruct (interrupt (cm x)); [by apply handleInterrupt_frame|by inv_ok H]. Qed.

(** An operation failed, and not for want of fuel. *)
#[local] Ltac stops := split; [done|apply fuelled_boundedBy; assumption].

(** With enough fuel the loop ends, and more fuel changes nothing. *)
Lemma commitLoop_ends f1 : ∀ f2 n st (x : Com M E),
  setup_ok x → (rob_size x < f1)%nat → (rob_size x < f2)%nat →
  loop f1 n st x = loop f2 n st x ∧ boundedBy "pcEventQueue" (loop f1 n st x).
Proof.
  induction f1 as [|f1 IH]; intros [|f2] n st x Hok H1 H2; try lia. cbn [commitLoop].
  destruct (negb _); [done|].
  assert (fuelled (match interrupt (cm x) with None => Ok x | Some _ => handleInterrupt x end)) as Fi
    by (destruct (interrupt (cm x)); [apply handleInterrupt_fuelled|done]).
  destruct (match interrupt (cm x) with None => _ | Some _ => _ end) as [y|e] eqn:Hint; [|stops].
  apply interrupt_frame in Hint as (Si & Ri & _).
  pose proof (getCommittingThread_fuelled y) as Fg.
  destruct (getCommittingThread y) as [[o z]|e] eqn:Hg; [|stops].
  apply getCommittingThread_frame in Hg as (Sg & Rg & _ & Hmem). destruct o as [t|]; [|done].
  destruct (_ =? 0); [done|]. pose proof (readHeadInst_fuelled t (cm_rob z) (cm_insts z)) as Fh.
  destruct (readHeadInst t _ _) as [[p|]|e] eqn:Hh; [|done|stops].
  apply readHeadInst_list in Hh as [rest Hl]. pose proof (deref_fuelled p (cm_insts z)) as Fd.
  destruct (deref p _) as [i|e] eqn:Hi; [|stops].
  destruct (negb _); [done|]. destruct (_ =? t)%nat eqn:Ht; [|done]. apply Nat.eqb_eq in Ht.
  assert (same_setup x z) as Sz by (by etrans).
  assert (t < co_numThreads (cm x))%nat as Hlt.
  { rewrite <- (su_threads _ _ Si). by apply (setup_ok_same _ _ Si Hok), Hmem. }
  assert (∀ w, same_setup x w → instList (cm_rob w) = <[t := rest]> (instList (cm_rob z)) →
    ∀ m st', loop f1 m st' w = loop f2 m st' w ∧ boundedBy "pcEventQueue" (loop f1 m st' w)) as Hrec.
  { intros w Sw Hw m st'. rewrite Rg, Ri in Hw.
    assert (rob_size x = S (rob_size w)) as Hsz.
    { apply (rob_size_retire x w t p rest Hlt); [apply Sw| |done]. by rewrite <- Ri, <- Rg. }
    apply IH; [by eapply setup_ok_same|lia|lia]. }
  destruct (isSquashed i).
  - pose proof (retireHead_fuelled cfg t (cm_rob z) (cm_insts z) (cm_mem z)) as Fr.
    destruct (retireHead _ _ _ _ _) as [[[r s] mem]|e] eqn:Hr; [|stops].
    apply Hrec.
    + etrans; [exact Sz|]. done.
    + cbn. by eapply retireHead_list.
  - set (z' := cm_on _ z). pose proof (commitHead_fuelled cfg regFile flattenedDestRegIdx p n z') as Fc.
    destruct (commitHead _ _ _ _ _ z') as [[cs w]|e] eqn:Hc; [|stops].
    destruct (bool_decide (cs = CommitSuccess)) eqn:Hcs; [|done]. apply bool_decide_eq_true in Hcs as ->.
    apply commitHead_success in Hc as (j & Hj & _ & _ & Sc & Hlist). cbn in Hj.
    apply deref_Ok in Hi. simplify_eq.
    pose proof (afterCommit_bounded microPC advancePC serviceBound p (threadNumber i) w) as Fa.
    destruct (afterCommit _ _ _ _ _ _) as [[stop v]|] eqn:Ha; [|split; [done|by eapply boundedBy_err]].
    apply afterCommit_frame in Ha as [Sa Ra]. destruct stop; [done|]. apply Hrec.
    + etrans; [exact Sz|]. etrans; [|exact Sa]. by etrans; [|exact Sc].
    + rewrite Ra. by apply Hlist.
Qed.

(** What the loop does is an in-order commit. *)
Lemma commitLoop_order fuel : ∀ n st (x x' : Com M E) n' st',
  (n <= commitWidth (cm x))%nat → loop fuel n st x = Ok (n', st', x') →
  ∃ es, in_order (instList (cm_rob x)) es (instList (cm_rob x')) ∧ Forall may_leave es ∧
    n' = (n + committed es)%nat ∧ (n' <= commitWidth (cm x))%nat.
Proof.
  induction fuel as [|f IH]; intros n st x x' n' st' Hn H; cbn [commitLoop] in H; [done|].
  assert (∀ y, cm_rob y = cm_rob x → x' = y → n' = n →
    ∃ es, in_order (instList (cm_rob x)) es (instList (cm_rob x')) ∧ Forall may_leave es ∧
    n' = (n + committed es)%nat ∧ (n' <= commitWidth (cm x))%nat) as Hstop.
  { intros y Hy -> ->. exists []. rewrite Hy. split; [constructor|]. split; [done|]. cbn. lia. }
  destruct (negb _) eqn:Hw; [inv_ok H; by eapply Hstop|].
  apply negb_false_iff, Nat.ltb_lt in Hw.
  destruct (match interrupt (cm x) with None => _ | Some _ => _ end) as [y|] eqn:Hint; [|done].
  apply interrupt_frame in Hint as (Si & Ri & _).
  destruct (getCommittingThread y) as [[o z]|] eqn:Hg; [|done].
  apply getCommittingThread_frame in Hg as (Sg & Rg & _ & Hmem).
  assert (cm_rob z = cm_rob x) as Rz by congruence. assert (same_setup x z) as Sz by (by etrans).
  destruct o as [t|]; [|inv_ok H; by eapply Hstop].
  destruct (_ =? 0); [inv_ok H; by eapply Hstop|].
  destruct (readHeadInst t _ _) as [[p|]|] eqn:Hh; [|done..].
  apply readHeadInst_list in Hh as [rest Hl]. destruct (deref p _) as [i|] eqn:Hi; [|done].
  destruct (readyToCommit i) eqn:Hrd; cbn [negb] in H; [|inv_ok H; by eapply Hstop].
  destruct (_ =? t)%nat eqn:Ht; [|done]. apply Nat.eqb_eq in Ht.
  assert (∀ w m, same_setup x w → instList (cm_rob w) = <[t := rest]> (instList (cm_rob z)) →
    may_leave (mkRetirement t p i) → m = (n + committed [mkRetirement t p i])%nat → (m <= commitWidth (cm x))%nat →
    (∃ es, in_order (instList (cm_rob w)) es (instList (cm_rob x')) ∧ Forall may_leave es ∧
      n' = (m + committed es)%nat ∧ (n' <= commitWidth (cm w))%nat) →
    ∃ es, in_order (instList (cm_rob x)) es (instList (cm_rob x')) ∧ Forall may_leave es ∧
      n' = (n + committed es)%nat ∧ (n' <= commitWidth (cm x))%nat) as Hrec.
  { intros w m Sw Hlw Hleave -> Hm (es & Ho & Hf & -> & Hle). rewrite (su_width _ _ Sw) in Hle.
    exists (mkRetirement t p i :: es). split_and!; [| |by unfold committed; rewrite !filter_cons; cbn; case_decide; cbn; lia|done].
    - econstructor; [by rewrite <- Rz|]. by rewrite <- Rz, <- Hlw.
    - by constructor. }
  destruct (isSquashed i) eqn:Hsq.
  - destruct (retireHead _ _ _ _ _) as [[[r s] mem]|] eqn:Hr; [|done].
    set (w := cm_on _ _) in H. assert (same_setup x w) as Sw by (etrans; [exact Sz|done]).
    apply (Hrec w n); [done|cbn; by eapply retireHead_list| | |done|].
    + split_and!; [done|done|by left].
    + unfold committed. rewrite filter_cons_False by (cbn; by rewrite Hsq). cbn. lia.
    + apply IH in H; [done|]. by rewrite (su_width _ _ Sw).
  - destruct (commitHead _ _ _ _ _ _) as [[cs w]|] eqn:Hc; [|done].
    destruct (bool_decide (cs = CommitSuccess)) eqn:Hcs.
    2: { apply bool_decide_eq_false in Hcs. apply commitHead_fail in Hc as (Rw & _); [|done].
         inv_ok H. eapply Hstop; [|done..]. by rewrite Rw. }
    apply bool_decide_eq_true in Hcs as ->.
    apply commitHead_success in Hc as (j & Hj & Hx & Hf & Sc & Hlist). cbn in Hj. apply deref_Ok in Hi. simplify_eq.
    destruct (afterCommit _ _ _ _ _ _) as [[stop v]|] eqn:Ha; [|done].
    apply afterCommit_frame in Ha as [Sa Ra].
    assert (same_setup x v) as Sv by (etrans; [exact Sz|]; etrans; [|exact Sa]; by etrans; [|exact Sc]).
    apply (Hrec v (S n)); [done|rewrite Ra; by apply Hlist| | |lia|].
    + split_and!; [done|done|by right].
    + unfold committed. rewrite filter_cons_True by done. cbn. lia.
    + destruct stop.
      * inv_ok H. exists []. cbn. rewrite (su_width _ _ Sv). split_and!; [constructor|done|lia|lia].
      * apply IH in H; [done|]. rewrite (su_width _ _ Sv). lia.
Qed.

(** C26: Instructions commit in order.  The loop of [commitInsts] terminates: given
    [commitFuel], one more than there are instructions in the reorder buffer, it
    never runs out of fuel (the one bound it may exhaust is that of the PC events of an
    instruction, whose handlers are outside the model), and more fuel changes
    nothing.  When it returns, the instructions that left the reorder buffer left
    it one by one, each from the head of the list of its thread; each was ready and
    either squashed or executed without a fault, and no more than [commitWidth] of
    them, as many as the loop counted, were not squashed. *)
Theorem commit_in_order (x : Com M E) (Hok : setup_ok x) :
  (∀ w, loop (commitFuel x) 0 CommitSuccess x = Err (NoFuel w) → w = "pcEventQueue"%string) ∧
  (∀ fuel, (commitFuel x <= fuel)%nat →
     loop fuel 0 CommitSuccess x = loop (commitFuel x) 0 CommitSuccess x) ∧
  (∀ n st x', loop (commitFuel x) 0 CommitSuccess x = Ok (n, st, x') →
     ∃ es, in_order (instList (cm_rob x)) es (instList (cm_rob x')) ∧ Forall may_leave es ∧
       n = committed es ∧ (n <= commitWidth (cm x))%nat).
Proof.
  assert (rob_size x < commitFuel x)%nat as Hf by (change (rob_size x < S (rob_size x))%nat; lia).
  split; [by apply (commitLoop_ends _ (commitFuel x))|]. split.
  - intros fuel Hfuel. apply commitLoop_ends; [done|lia|done].
  - intros n st x' H. eapply commitLoop_order in H; [done|lia].
Qed.

(** C27: Faults are precise.  An executed instruction with a fault at the head of
    the reorder buffer is not committed: the reorder buffer, the commit rename map,
    the load/store queue and the memory system stay as they are.  While an older
    instruction committed in the same cycle or a store of the thread has still to
    be written, nothing changes at all; otherwise the fault is raised: the
    trap is invoked once, at the PC of the stage, the thread waits for it, and the
    squash of the trap is scheduled. *)
Theorem precise_faults (p : DynInstPtr) (i : DynInst) (f : Fault) (n : nat) (u : LSQUnit) (x : Com M E)
    (Hi : cm_insts x !! p = Some i) (Hexec : isExecuted i = true) (Hf : fault i = Some f)
    (Hsync : static i IsThreadSync = false)
    (Hlsq : unitOf (threadNumber i) (cm_lsq x) = Ok u)
    (Htc : noSquashFromTC (cm x) (threadNumber i) = false) :
  let tid := threadNumber i in
  if hasStoresToWB u || (0 <? n)%nat
  then commitHead cfg regFile flattenedDestRegIdx p n x = Ok (StoreOrder, x)
  else ∃ x', commitHead cfg regFile flattenedDestRegIdx p n x = Ok (InstructionFault, x') ∧
    cm_rob x' = cm_rob x ∧ cm_map x' = cm_map x ∧ cm_mem x' = cm_mem x ∧ cm_lsq x' = cm_lsq x ∧
    commitStatus (cm x') tid = CTrapPending ∧ trapInFlight (cm x') tid = true ∧
    trapEvents (cm x') = trapEvents (cm x) ++ [(tid, Some f)] ∧
    (co_pc (cm x') tid, cm_env x') =
      env_trap f tid (if notAnInst i then None else Some (staticInst i)) (co_pc (cm x) tid) (cm_env x) ∧
    (∀ t, t ≠ tid → commitStatus (cm x') t = commitStatus (cm x) t ∧ co_pc (cm x') t = co_pc (cm x) t).
Proof.
  intros tid. unfold commitHead. rewrite (proj2 (deref_Ok _ _ _) Hi), Hexec, Hsync. cbn [negb].
  unfold getFault. rewrite Hf. unfold faultingHead, hasStores. rewrite Hlsq.
  destruct (_ || _); [done|]. rewrite (proj2 (modify_Ok _ _ _ _) (ex_intro _ i (conj Hi eq_refl))). cbn. rewrite Htc. cbn.
  fold tid. destruct (env_trap f tid _ (co_pc (cm x) tid) (cm_env x)) as [pc' e'].
  eexists. split; [reflexivity|]. cbn. unfold upd. split_and!; try done; try by rewrite fn_lookup_insert.
  intros t Ht. by rewrite !fn_lookup_insert_ne.
Qed.

(** ** The choice of the oldest thread *)

(** A thread with a head that may commit now. *)
Definition commit_ready (x : Com M E) (t : ThreadID) : bool :=
  negb (isEmptyThread t (cm_rob x)) && mayCommit t (cm x)
  && match isHeadReady t (cm_rob x) (cm_insts x) with Ok b => b | Err _ => false end.

Lemma oldest_step (active : list ThreadID) (x : Com M E) o t o' :
  (∀ t u p i rest, t ∈ active → u ∈ active →
     instList (cm_rob x) t = p :: rest → cm_insts x !! p = Some i → Z.of_nat u <= seqNum i) →
  t ∈ active → from_option (λ u, u ∈ active) True o → oldestStep x o t = Ok o' →
  o' = match o with Some u => Some u | None => if commit_ready x t then Some t else None end.
Proof.
  intros Hnums Ht Ho H. unfold oldestStep in H. unfold commit_ready.
  destruct (negb _ && _); cbn [andb]; [|inv_ok H; by destruct o'].
  inv_ok1 H. destruct a; [|inv_ok H; by destruct o'].
  inv_ok1 H. destruct a as [p|]; [|done]. inv_ok1 H. rename a into i.
  apply readHeadInst_list in E1 as [rest Hrest]. apply deref_Ok in E2.
  destruct o as [u|]; [|by inv_ok H].
  assert (Z.of_nat u <= seqNum i) by (eapply Hnums; [exact Ht|exact Ho|done..]).
  destruct (_ <? _) eqn:Hlt; [apply Z.ltb_lt in Hlt; lia|]. by inv_ok H.
Qed.

(** The oldest-ready policy is a first-ready policy.  [oldestReady] compares
    the sequence number of a head with the identifier of the thread chosen so far.
    Where all sequence numbers in the buffer are at least the thread identifiers, which holds
    as soon as as many instructions as there are threads have been fetched, it
    chooses the first active thread with a head ready to commit, however
    old the heads of the other threads are. *)
Theorem oldest_ready_is_first (x : Com M E) (o : option ThreadID)
    (Hnums : ∀ t u p i rest, t ∈ co_activeThreads (cm x) → u ∈ co_activeThreads (cm x) →
       instList (cm_rob x) t = p :: rest → cm_insts x !! p = Some i → Z.of_nat u <= seqNum i)
    (Hrun : oldestReady x = Ok o) :
  o = head (filter (λ t, commit_ready x t = true) (co_activeThreads (cm x))).
Proof.
  revert Hrun. unfold oldestReady.
  assert (∀ l o', l ⊆ co_activeThreads (cm x) → from_option (λ t, t ∈ co_activeThreads (cm x)) True o' →
    foldM (oldestStep x) l o' = Ok o →
    o = match o' with Some t => Some t | None => head (filter (λ t, commit_ready x t = true) l) end) as Hgen.
  { induction l as [|u l IH]; intros o' Hl Ho' H; cbn [foldM] in H; [inv_ok H; by destruct o|].
    inv_ok1 H.
    assert (a = match o' with Some t => Some t | None => if commit_ready x u then Some u else None end) as Ha.
    { by apply (oldest_step (co_activeThreads (cm x))) in E0; [| |set_solver|]. }
    rewrite filter_cons. apply IH in H; [|set_solver|].
    - rewrite H, Ha. destruct o'; [done|]. case_decide as Hr; [by rewrite Hr|].
      apply not_true_is_false in Hr. by rewrite Hr.
    - rewrite Ha. destruct o'; [done|]. destruct (commit_ready x u); cbn; set_solver. }
  intros Hrun. by eapply Hgen in Hrun.
Qed.
End order.

Module CommitOrderExample.
Import CommitExample.
Definition files : PhysRegFile := mkPhysRegFile (λ _, []) Full.
Definition ready (sn : Z) : DynInst :=
  status_set RobEntry (status_set CanCommit (setExecuted (PortsExample.nop sn))).
(** A squashed instruction, then three to commit, two ways wide. *)
Definition insts : store :=
  {[ 2 := setSquashed (ready 2); 3 := ready 3; 4 := ready 4; 5 := ready 5 ]}.
Definition start : Com () () := com [2; 3; 4; 5] insts.
Definition run := commitLoop PortsExample.mode files (λ _ _, mkRegId IntRegClass 0 0) (λ _, 0) (λ i, pc i + 4) 2.
Definition summary (fuel : nat) : option (nat * CommitHeadError * list DynInstPtr) :=
  match run fuel 0 CommitSuccess start with
  | Ok (n, st, x) => Some (n, st, instList (cm_rob x) 0%nat)
  | Err _ => None
  end.

(** Instruction 3 has a fault and is alone. *)
Definition faulty : DynInst := set_fault (Some GeneralProtection) (ready 3).
Definition lone : Com () () :=
  mkCom stage (rob [3]) IqExample.queue0 DispatchExample.lsq {[ 3 := faulty ]} (λ _, regs) tt tt.

(** Two threads; the head of thread 1 is the older one. *)
Definition two_threads : Commit :=
  mkCommit true false OldestReady (λ _, CRunning) (λ _, false) (λ _, false) (λ _, false) (λ _, false)
    (λ _, false) (λ _, false) (λ _, 0) (λ _, 9) (λ _, 0) (λ _, None) None true false false false [0%nat; 1%nat]
    CommitSuccess false (λ _, info) (λ _, false) (λ _, false) [] 2 2 2 [0%nat; 1%nat].
Definition two : Com () () :=
  mkCom two_threads
    (set_instList (λ t, if (t =? 0)%nat then [9] else [3]) (set_threadEntries (λ _, 1) (rob [])))
    IqExample.queue0 DispatchExample.lsq {[ 9 := ready 9; 3 := ready 3 ]} (λ _, regs) tt tt.
End CommitOrderExample.

(** Instruction 2 and two of the others leave; 5 stays. *)
Lemma commit_in_order_witness : ∃ es x', CommitOrderExample.run 20 0 CommitSuccess CommitOrderExample.start
    = Ok (2%nat, CommitSuccess, x') ∧ instList (cm_rob x') 0%nat = [5] ∧
  in_order (instList (cm_rob CommitOrderExample.start)) es (instList (cm_rob x')) ∧ committed es = 2%nat.
Proof.
  destruct (commit_in_order PortsExample.mode CommitOrderExample.files (λ _ _, mkRegId IntRegClass 0 0) (λ _, 0)
              (λ i, pc i + 4) 2 CommitOrderExample.start) as (_ & Hfuel & Hok).
  { intros t Ht. change (t ∈ [0%nat] ∨ t ∈ [0%nat]) in Ht. change (t < 1)%nat. set_unfold in Ht. lia. }
  assert (Hx : CommitOrderExample.summary (commitFuel CommitOrderExample.start) = Some (2%nat, CommitSuccess, [5]))
    by (vm_compute; reflexivity).
  unfold CommitOrderExample.summary in Hx.
  destruct (CommitOrderExample.run (commitFuel CommitOrderExample.start) 0 CommitSuccess CommitOrderExample.start)
    as [[[n st] x']|e] eqn:Hrun; [|discriminate Hx].
  apply (inj Some), pair_equal_spec in Hx as [[Hn Hst]%pair_equal_spec Hl].
  destruct (Hok _ _ x' Hrun) as (es & Ho & _ & Hes & _). exists es, x'.
  subst st n. split; [|exact (conj Hl (conj Ho (eq_sym Hes)))].
  rewrite <- Hrun. unfold CommitOrderExample.run. apply Hfuel. vm_compute; lia.
Defined.

Lemma precise_faults_witness :
  ∃ x', commitHead PortsExample.mode CommitOrderExample.files (λ _ _, mkRegId IntRegClass 0 0) 3 0
          CommitOrderExample.lone = Ok (InstructionFault, x') ∧
    cm_rob x' = cm_rob CommitOrderExample.lone ∧ commitStatus (cm x') 0%nat = CTrapPending.
Proof.
  destruct (precise_faults PortsExample.mode CommitOrderExample.files (λ _ _, mkRegId IntRegClass 0 0) 3
              CommitOrderExample.faulty GeneralProtection 0 DispatchExample.unit0 CommitOrderExample.lone
              ltac:(reflexivity) ltac:(reflexivity) ltac:(reflexivity) ltac:(reflexivity) ltac:(vm_compute; reflexivity)
              ltac:(reflexivity))
    as (x' & H1 & H2 & _ & _ & _ & H3 & _).
  by exists x'.
Defined.

(** The younger head commits first. *)
Lemma oldest_ready_is_first_witness :
  oldestReady CommitOrderExample.two = Ok (Some 0%nat) ∧
  head (filter (λ t, commit_ready CommitOrderExample.two t = true) [0; 1])%nat = Some 0%nat.
Proof.
  split; [vm_compute; reflexivity|]. symmetry.
  apply (oldest_ready_is_first CommitOrderExample.two (Some 0%nat)); [|vm_compute; reflexivity].
  intros t u p i rest Ht Hu Hl Hi. change (t ∈ [0; 1]%nat) in Ht. change (u ∈ [0; 1]%nat) in Hu.
  assert (p = 9 ∨ p = 3) as Hp.
  { cbn in Hl. destruct (t =? 0)%nat; injection Hl as <- <-; auto. }
  assert (3 <= seqNum i) as Hs.
  { destruct Hp as [-> | ->]; revert Hi; vm_compute; intros [= <-]; discriminate. }
  set_unfold in Hu. lia.
Defined.
