(* ===== verification/DirPred.v ===== *)
(** * Direction predictors

    The predictors of branch directions that [BPredUnit] can be: [LocalBP]
    ([cpu/pred/2bit_local.cc]), [TournamentBP] ([cpu/pred/tournament.cc]) and
    [BiModeBP] ([cpu/pred/bi_mode.cc]), on saturating counters
    ([cpu/pred/sat_counter.hh]).  The virtual functions of [BPredUnit] are the
    class [DirPred]; what the unit relies on is [DirPredOk], which the three
    predictors satisfy: every operation is defined, the counters are changed by
    [update] at commit only, and [squash] puts the global history register back to where
    it was before the branch.  The local histories of [TournamentBP] are outside it.  [void *bp_history] is the type [H] of the predictor. *)

From S2P Require Import Prelude Regs Config DynInst StoreSet.

Local Open Scope Z_scope.

(** ** Machine integers *)

Definition u8 := wrap 8.
Definition u32 := wrap 32.
(** [mask] ([base/bitfield.hh]) stored in an [unsigned]. *)
Definition mask32 (bits : Z) : Z := u32 (2 ^ bits - 1).
(** [floorLog2] and [ceilLog2] ([base/intmath.hh]). *)
Definition floorLog2 (x : Z) : Z := Z.log2 x.
Definition ceilLog2 (n : Z) : Z := if n =? 1 then 0 else floorLog2 (n - 1) + 1.

(** ** Saturating counters *)

Record SatCounter := mkSatCounter { initialVal : Z; maxVal : Z; counter : Z }.
(** The counter of [resize] followed by [setBits]. *)
Definition setBits (bits : Z) : SatCounter := mkSatCounter 0 (u8 (2 ^ bits - 1)) 0.
Definition sc_reset (c : SatCounter) : SatCounter := mkSatCounter (initialVal c) (maxVal c) (initialVal c).
Definition increment (c : SatCounter) : SatCounter :=
  if counter c <? maxVal c then mkSatCounter (initialVal c) (maxVal c) (u8 (counter c + 1)) else c.
Definition decrement (c : SatCounter) : SatCounter :=
  if 0 <? counter c then mkSatCounter (initialVal c) (maxVal c) (counter c - 1) else c.
Definition train (taken : bool) (c : SatCounter) : SatCounter :=
  if taken then increment c else decrement c.

Definition vec_on {A} (what : string) (f : A → A) (v : list A) (i : Z) : outcome (list A) :=
  let! a := vec_get what v i in vec_set what v i (f a).

(** ** The interface *)

Class DirPred (P H : Type) := {
  dp_lookup : ThreadID → Addr → P → outcome (bool * H * P);
  dp_uncondBranch : ThreadID → Addr → P → outcome (H * P);
  dp_btbUpdate : ThreadID → Addr → H → P → outcome P;
  dp_update : ThreadID → Addr → bool → H → bool → P → outcome P;
  dp_squash : ThreadID → H → P → outcome P;
  dp_getGHR : ThreadID → H → Z;
}.

(** What the unit relies on.  [dp_thread] are the threads it keeps
    registers for, [dp_history] is the global history register of a thread (0 for [LocalBP],
    which has none), [dp_saved] the one recorded with a branch, [dp_tables] the counters. *)
Class DirPredOk (P H : Type) `{DirPred P H} := {
  dp_thread : P → ThreadID → Prop;
  dp_wf : P → Prop;
  dp_saved_wf : P → H → Prop;
  dp_Tables : Type;
  dp_tables : P → dp_Tables;
  dp_history : ThreadID → P → Z;
  dp_saved : H → Z;
  dp_lookup_ok tid a p : dp_wf p → dp_thread p tid → ∃ b h p',
    dp_lookup tid a p = Ok (b, h, p') ∧ dp_wf p' ∧ (∀ t, dp_thread p t → dp_thread p' t) ∧
    dp_tables p' = dp_tables p ∧ dp_saved_wf p' h ∧ dp_saved h = dp_history tid p ∧
    (∀ h', dp_saved_wf p h' → dp_saved_wf p' h') ∧
    (∀ t, t ≠ tid → dp_history t p' = dp_history t p);
  dp_uncond_ok tid a p : dp_wf p → dp_thread p tid → ∃ h p',
    dp_uncondBranch tid a p = Ok (h, p') ∧ dp_wf p' ∧ (∀ t, dp_thread p t → dp_thread p' t) ∧
    dp_tables p' = dp_tables p ∧ dp_saved_wf p' h ∧ dp_saved h = dp_history tid p ∧
    (∀ h', dp_saved_wf p h' → dp_saved_wf p' h') ∧
    (∀ t, t ≠ tid → dp_history t p' = dp_history t p);
  dp_btb_ok tid a h p : dp_wf p → dp_thread p tid → ∃ p',
    dp_btbUpdate tid a h p = Ok p' ∧ dp_wf p' ∧ (∀ t, dp_thread p t → dp_thread p' t) ∧
    dp_tables p' = dp_tables p ∧ (∀ h', dp_saved_wf p h' → dp_saved_wf p' h') ∧
    (∀ t, t ≠ tid → dp_history t p' = dp_history t p);
  dp_update_ok tid a taken h squashed p :
    dp_wf p → dp_thread p tid → dp_saved_wf p h → ∃ p',
    dp_update tid a taken h squashed p = Ok p' ∧ dp_wf p' ∧ (∀ t, dp_thread p t → dp_thread p' t) ∧
    (squashed = true → dp_tables p' = dp_tables p) ∧
    (squashed = false → ∀ t, dp_history t p' = dp_history t p) ∧
    (∀ h', dp_saved_wf p h' → dp_saved_wf p' h') ∧
    (∀ t, t ≠ tid → dp_history t p' = dp_history t p);
  dp_squash_ok tid h p : dp_wf p → dp_thread p tid → dp_saved_wf p h → ∃ p',
    dp_squash tid h p = Ok p' ∧ dp_wf p' ∧ (∀ t, dp_thread p t → dp_thread p' t) ∧
    dp_tables p' = dp_tables p ∧ dp_history tid p' = dp_saved h ∧
    (∀ h', dp_saved_wf p h' → dp_saved_wf p' h') ∧
    (∀ t, t ≠ tid → dp_history t p' = dp_history t p);
}.

(** ** [LocalBP] *)

Module Local.
Record LocalBP := mkLocalBP {
  localCtrs : list SatCounter;
  localCtrBits : Z;
  indexMask : Z;
  l_instShiftAmt : Z;
}.

Definition newLocalBP (size bits shift : Z) : outcome LocalBP :=
  if negb (isPowerOf2 size) then Err (PanicCall "Invalid local predictor size!") else
  let sets := size / bits in
  if negb (isPowerOf2 sets) then Err (PanicCall "Invalid number of local predictor sets!") else
  Ok (mkLocalBP (replicate (Z.to_nat sets) (setBits bits)) bits (sets - 1) shift).

Definition set_localCtrs (v : list SatCounter) (p : LocalBP) : LocalBP :=
  mkLocalBP v (localCtrBits p) (indexMask p) (l_instShiftAmt p).
Definition local_reset (p : LocalBP) : LocalBP := set_localCtrs (sc_reset <$> localCtrs p) p.

Definition getLocalIndex (a : Addr) (p : LocalBP) : Z :=
  Z.land (Z.shiftr a (l_instShiftAmt p)) (indexMask p).
Definition getPrediction (count : Z) (p : LocalBP) : bool :=
  negb (Z.shiftr count (localCtrBits p - 1) =? 0).

Definition local_lookup (tid : ThreadID) (a : Addr) (p : LocalBP) : outcome (bool * () * LocalBP) :=
  let! c := vec_get "localCtrs" (localCtrs p) (getLocalIndex a p) in
  Ok (getPrediction (counter c) p, tt, p).
Definition local_update (tid : ThreadID) (a : Addr) (taken : bool) (h : ()) (squashed : bool) (p : LocalBP)
  : outcome LocalBP :=
  if squashed then Ok p
  else
    let! v := vec_on "localCtrs" (train taken) (localCtrs p) (getLocalIndex a p) in
    Ok (set_localCtrs v p).
End Local.

(** [bp_history] stays [NULL] and [btbUpdate], [uncondBranch] and [squash] do nothing. *)
#[export] Instance LocalBP_pred : DirPred Local.LocalBP () := {|
  dp_lookup := Local.local_lookup;
  dp_uncondBranch _ _ p := Ok (tt, p);
  dp_btbUpdate _ _ _ p := Ok p;
  dp_update := Local.local_update;
  dp_squash _ _ p := Ok p;
  dp_getGHR _ _ := 0 |}.

(** ** [TournamentBP] *)

Module Tournament.
Record TourHistory := mkTourHistory {
  h_globalHistory : Z;
  localHistoryIdx : Z;
  localHistory : Z;
  localPredTaken : bool;
  globalPredTaken : bool;
  globalUsed : bool;
}.
(** [static const int invalidPredictorIndex = -1], converted to [unsigned]. *)
Definition invalidPredictorIndex : Z := u32 (-1).

Record TournamentBP := mkTournamentBP {
  localCtrs : list SatCounter;
  localHistoryTable : list Z;
  globalCtrs : list SatCounter;
  choiceCtrs : list SatCounter;
  globalHistory : list Z;
  localPredictorMask : Z;
  localHistoryTableSize : Z;
  globalHistoryMask : Z;
  choiceHistoryMask : Z;
  historyRegisterMask : Z;
  localThreshold : Z;
  globalThreshold : Z;
  choiceThreshold : Z;
  t_instShiftAmt : Z;
}.

(** [(ULL(1) << (bits - 1)) - 1]. *)
Definition threshold (bits : Z) : Z := u32 (2 ^ (bits - 1) - 1).

Definition newTournamentBP (lsize lbits ltable gsize gbits csize cbits shift : Z) (threads : nat)
  : outcome TournamentBP :=
  if negb (isPowerOf2 lsize) then Err (PanicCall "Invalid local predictor size!") else
  if negb (isPowerOf2 gsize) then Err (PanicCall "Invalid global predictor size!") else
  if negb (isPowerOf2 ltable) then Err (PanicCall "Invalid local history table size!") else
  if negb (isPowerOf2 csize) then Err (PanicCall "Invalid choice predictor size!") else
  let historyMask := mask32 (Z.max (ceilLog2 gsize) (ceilLog2 csize)) in
  if historyMask <? gsize - 1 then Err (PanicCall "Global predictor too large for global history bits!") else
  if historyMask <? csize - 1 then Err (PanicCall "Choice predictor too large for global history bits!") else
  Ok (mkTournamentBP (replicate (Z.to_nat lsize) (setBits lbits)) (replicate (Z.to_nat ltable) 0)
        (replicate (Z.to_nat gsize) (setBits gbits)) (replicate (Z.to_nat csize) (setBits cbits))
        (replicate threads 0) (mask32 (ceilLog2 lsize)) ltable (gsize - 1) (csize - 1) historyMask
        (threshold lbits) (threshold gbits) (threshold cbits) shift).

Definition set_globalHistory (v : list Z) (p : TournamentBP) : TournamentBP :=
  mkTournamentBP (localCtrs p) (localHistoryTable p) (globalCtrs p) (choiceCtrs p) v
    (localPredictorMask p) (localHistoryTableSize p) (globalHistoryMask p) (choiceHistoryMask p)
    (historyRegisterMask p) (localThreshold p) (globalThreshold p) (choiceThreshold p) (t_instShiftAmt p).
Definition set_localHistoryTable (v : list Z) (p : TournamentBP) : TournamentBP :=
  mkTournamentBP (localCtrs p) v (globalCtrs p) (choiceCtrs p) (globalHistory p)
    (localPredictorMask p) (localHistoryTableSize p) (globalHistoryMask p) (choiceHistoryMask p)
    (historyRegisterMask p) (localThreshold p) (globalThreshold p) (choiceThreshold p) (t_instShiftAmt p).
Definition set_counters (l g c : list SatCounter) (p : TournamentBP) : TournamentBP :=
  mkTournamentBP l (localHistoryTable p) g c (globalHistory p)
    (localPredictorMask p) (localHistoryTableSize p) (globalHistoryMask p) (choiceHistoryMask p)
    (historyRegisterMask p) (localThreshold p) (globalThreshold p) (choiceThreshold p) (t_instShiftAmt p).

Definition calcLocHistIdx (a : Addr) (p : TournamentBP) : Z :=
  u32 (Z.land (Z.shiftr a (t_instShiftAmt p)) (localHistoryTableSize p - 1)).

(** [updateGlobalHistTaken] and [updateGlobalHistNotTaken]. *)
Definition updateGlobalHist (tid : ThreadID) (taken : bool) (p : TournamentBP) : outcome TournamentBP :=
  let! v := vec_on "globalHistory"
    (λ g, Z.land (Z.lor (u32 (Z.shiftl g 1)) (Z.b2z taken)) (historyRegisterMask p))
    (globalHistory p) (Z.of_nat tid) in
  Ok (set_globalHistory v p).
(** [updateLocalHistTaken] and [updateLocalHistNotTaken]. *)
Definition updateLocalHist (idx : Z) (taken : bool) (p : TournamentBP) : outcome TournamentBP :=
  let! v := vec_on "localHistoryTable" (λ g, Z.lor (u32 (Z.shiftl g 1)) (Z.b2z taken))
    (localHistoryTable p) idx in
  Ok (set_localHistoryTable v p).

Definition tour_btbUpdate (tid : ThreadID) (a : Addr) (h : TourHistory) (p : TournamentBP) : outcome TournamentBP :=
  let! v := vec_on "globalHistory" (λ g, Z.land g (Z.ldiff (historyRegisterMask p) 1))
    (globalHistory p) (Z.of_nat tid) in
  let p := set_globalHistory v p in
  let! w := vec_on "localHistoryTable" (λ g, Z.land g (Z.ldiff (localPredictorMask p) 1))
    (localHistoryTable p) (calcLocHistIdx a p) in
  Ok (set_localHistoryTable w p).

Definition tour_lookup (tid : ThreadID) (a : Addr) (p : TournamentBP) : outcome (bool * TourHistory * TournamentBP) :=
  let local_history_idx := calcLocHistIdx a p in
  let! lh := vec_get "localHistoryTable" (localHistoryTable p) local_history_idx in
  let local_predictor_idx := Z.land lh (localPredictorMask p) in
  let! lc := vec_get "localCtrs" (localCtrs p) local_predictor_idx in
  let local_prediction := localThreshold p <? counter lc in
  let! gh := vec_get "globalHistory" (globalHistory p) (Z.of_nat tid) in
  let! gc := vec_get "globalCtrs" (globalCtrs p) (Z.land gh (globalHistoryMask p)) in
  let global_prediction := globalThreshold p <? counter gc in
  let! cc := vec_get "choiceCtrs" (choiceCtrs p) (Z.land gh (choiceHistoryMask p)) in
  let choice_prediction := choiceThreshold p <? counter cc in
  let history := mkTourHistory gh local_history_idx local_predictor_idx local_prediction
                   global_prediction choice_prediction in
  assert! local_history_idx <? localHistoryTableSize p as "lookup: local_history_idx" in
  let taken := if choice_prediction then global_prediction else local_prediction in
  let! p := updateGlobalHist tid taken p in
  let! p := updateLocalHist local_history_idx taken p in
  Ok (taken, history, p).

Definition tour_uncondBranch (tid : ThreadID) (a : Addr) (p : TournamentBP) : outcome (TourHistory * TournamentBP) :=
  let! gh := vec_get "globalHistory" (globalHistory p) (Z.of_nat tid) in
  let! p := updateGlobalHist tid true p in
  Ok (mkTourHistory gh invalidPredictorIndex invalidPredictorIndex true true true, p).

Definition trainIf (b : bool) (what : string) (taken : bool) (v : list SatCounter) (i : Z)
  : outcome (list SatCounter) := if b then vec_on what (train taken) v i else Ok v.

Definition tour_update (tid : ThreadID) (a : Addr) (taken : bool) (h : TourHistory) (squashed : bool)
  (p : TournamentBP) : outcome TournamentBP :=
  let local_history_idx := calcLocHistIdx a p in
  assert! local_history_idx <? localHistoryTableSize p as "update: local_history_idx" in
  let old_local_pred_valid := negb (localHistory h =? invalidPredictorIndex) in
  if squashed then
    let! v := vec_set "globalHistory" (globalHistory p) (Z.of_nat tid)
      (Z.land (Z.lor (u32 (Z.shiftl (h_globalHistory h) 1)) (Z.b2z taken)) (historyRegisterMask p)) in
    let p := set_globalHistory v p in
    if old_local_pred_valid then
      let! w := vec_set "localHistoryTable" (localHistoryTable p) local_history_idx
        (Z.lor (u32 (Z.shiftl (localHistory h) 1)) (Z.b2z taken)) in
      Ok (set_localHistoryTable w p)
    else Ok p
  else
    let old_local_pred_index := Z.land (localHistory h) (localPredictorMask p) in
    assert! old_local_pred_index <? Z.of_nat (length (localCtrs p)) as "update: old_local_pred_index" in
    let choose := negb (eqb (localPredTaken h) (globalPredTaken h)) && old_local_pred_valid in
    let! c := if choose then
                vec_on "choiceCtrs"
                  (if eqb (localPredTaken h) taken then decrement
                   else if eqb (globalPredTaken h) taken then increment else id)
                  (choiceCtrs p) (Z.land (h_globalHistory h) (choiceHistoryMask p))
              else Ok (choiceCtrs p) in
    let! g := vec_on "globalCtrs" (train taken) (globalCtrs p) (Z.land (h_globalHistory h) (globalHistoryMask p)) in
    let! l := trainIf old_local_pred_valid "localCtrs" taken (localCtrs p) old_local_pred_index in
    Ok (set_counters l g c p).

Definition tour_squash (tid : ThreadID) (h : TourHistory) (p : TournamentBP) : outcome TournamentBP :=
  let! v := vec_set "globalHistory" (globalHistory p) (Z.of_nat tid) (h_globalHistory h) in
  let p := set_globalHistory v p in
  if localHistoryIdx h =? invalidPredictorIndex then Ok p
  else
    let! w := vec_set "localHistoryTable" (localHistoryTable p) (localHistoryIdx h) (localHistory h) in
    Ok (set_localHistoryTable w p).
End Tournament.

#[export] Instance TournamentBP_pred : DirPred Tournament.TournamentBP Tournament.TourHistory := {|
  dp_lookup := Tournament.tour_lookup;
  dp_uncondBranch := Tournament.tour_uncondBranch;
  dp_btbUpdate := Tournament.tour_btbUpdate;
  dp_update := Tournament.tour_update;
  dp_squash := Tournament.tour_squash;
  dp_getGHR _ h := Tournament.h_globalHistory h |}.

(** ** [BiModeBP] *)

Module BiMode.
Record BiHistory := mkBiHistory {
  h_globalHistoryReg : Z;
  takenUsed : bool;
  takenPred : bool;
  notTakenPred : bool;
  finalPred : bool;
}.
Record BiModeBP := mkBiModeBP {
  choiceCounters : list SatCounter;
  takenCounters : list SatCounter;
  notTakenCounters : list SatCounter;
  globalHistoryReg : list Z;
  historyRegisterMask : Z;
  choiceHistoryMask : Z;
  globalHistoryMask : Z;
  choiceThreshold : Z;
  takenThreshold : Z;
  notTakenThreshold : Z;
  b_instShiftAmt : Z;
}.

Definition newBiModeBP (gsize gbits csize cbits shift : Z) (threads : nat) : outcome BiModeBP :=
  if negb (isPowerOf2 csize) then Err (PanicCall "Invalid choice predictor size.") else
  if negb (isPowerOf2 gsize) then Err (PanicCall "Invalid global history predictor size.") else
  let counters n bits := replicate (Z.to_nat n) (setBits bits) in
  Ok (mkBiModeBP (counters csize cbits) (counters gsize gbits) (counters gsize gbits) (replicate threads 0)
        (mask32 (ceilLog2 gsize)) (csize - 1) (gsize - 1)
        (Tournament.threshold cbits) (Tournament.threshold gbits) (Tournament.threshold gbits) shift).

Definition set_globalHistoryReg (v : list Z) (p : BiModeBP) : BiModeBP :=
  mkBiModeBP (choiceCounters p) (takenCounters p) (notTakenCounters p) v (historyRegisterMask p)
    (choiceHistoryMask p) (globalHistoryMask p) (choiceThreshold p) (takenThreshold p)
    (notTakenThreshold p) (b_instShiftAmt p).
Definition set_counters (c t n : list SatCounter) (p : BiModeBP) : BiModeBP :=
  mkBiModeBP c t n (globalHistoryReg p) (historyRegisterMask p)
    (choiceHistoryMask p) (globalHistoryMask p) (choiceThreshold p) (takenThreshold p)
    (notTakenThreshold p) (b_instShiftAmt p).

Definition updateGlobalHistReg (tid : ThreadID) (taken : bool) (p : BiModeBP) : outcome BiModeBP :=
  let! v := vec_on "globalHistoryReg"
    (λ g, Z.land (Z.lor (u32 (Z.shiftl g 1)) (Z.b2z taken)) (historyRegisterMask p))
    (globalHistoryReg p) (Z.of_nat tid) in
  Ok (set_globalHistoryReg v p).

Definition choiceHistoryIdx (a : Addr) (p : BiModeBP) : Z :=
  Z.land (Z.shiftr a (b_instShiftAmt p)) (choiceHistoryMask p).
Definition globalHistoryIdx (a : Addr) (ghr : Z) (p : BiModeBP) : Z :=
  Z.land (Z.lxor (Z.shiftr a (b_instShiftAmt p)) ghr) (globalHistoryMask p).

Definition bi_uncondBranch (tid : ThreadID) (a : Addr) (p : BiModeBP) : outcome (BiHistory * BiModeBP) :=
  let! gh := vec_get "globalHistoryReg" (globalHistoryReg p) (Z.of_nat tid) in
  let! p := updateGlobalHistReg tid true p in
  Ok (mkBiHistory gh true true true true, p).

Definition bi_squash (tid : ThreadID) (h : BiHistory) (p : BiModeBP) : outcome BiModeBP :=
  let! v := vec_set "globalHistoryReg" (globalHistoryReg p) (Z.of_nat tid) (h_globalHistoryReg h) in
  Ok (set_globalHistoryReg v p).

Definition bi_lookup (tid : ThreadID) (a : Addr) (p : BiModeBP) : outcome (bool * BiHistory * BiModeBP) :=
  let! gh := vec_get "globalHistoryReg" (globalHistoryReg p) (Z.of_nat tid) in
  let! cc := vec_get "choiceCounters" (choiceCounters p) (choiceHistoryIdx a p) in
  let! tc := vec_get "takenCounters" (takenCounters p) (globalHistoryIdx a gh p) in
  let! nc := vec_get "notTakenCounters" (notTakenCounters p) (globalHistoryIdx a gh p) in
  let choicePrediction := choiceThreshold p <? counter cc in
  let takenGHBPrediction := takenThreshold p <? counter tc in
  let notTakenGHBPrediction := notTakenThreshold p <? counter nc in
  let finalPrediction := if choicePrediction then takenGHBPrediction else notTakenGHBPrediction in
  let! p := updateGlobalHistReg tid finalPrediction p in
  Ok (finalPrediction,
      mkBiHistory gh choicePrediction takenGHBPrediction notTakenGHBPrediction finalPrediction, p).

Definition bi_btbUpdate (tid : ThreadID) (a : Addr) (h : BiHistory) (p : BiModeBP) : outcome BiModeBP :=
  let! v := vec_on "globalHistoryReg" (λ g, Z.land g (Z.ldiff (historyRegisterMask p) 1))
    (globalHistoryReg p) (Z.of_nat tid) in
  Ok (set_globalHistoryReg v p).

Definition bi_update (tid : ThreadID) (a : Addr) (taken : bool) (h : BiHistory) (squashed : bool) (p : BiModeBP)
  : outcome BiModeBP :=
  if squashed then
    let! v := vec_set "globalHistoryReg" (globalHistoryReg p) (Z.of_nat tid)
      (Z.lor (u32 (Z.shiftl (h_globalHistoryReg h) 1)) (Z.b2z taken)) in
    Ok (set_globalHistoryReg v p)
  else
    let gi := globalHistoryIdx a (h_globalHistoryReg h) p in
    let! t := if takenUsed h then vec_on "takenCounters" (train taken) (takenCounters p) gi
              else Ok (takenCounters p) in
    let! n := if takenUsed h then Ok (notTakenCounters p)
              else vec_on "notTakenCounters" (train taken) (notTakenCounters p) gi in
    let trainChoice :=
      if eqb (finalPred h) taken then eqb (finalPred h) (takenUsed h) else true in
    let! c := if trainChoice then
                vec_on "choiceCounters" (train taken) (choiceCounters p) (choiceHistoryIdx a p)
              else Ok (choiceCounters p) in
    Ok (set_counters c t n p).
End BiMode.

#[export] Instance BiModeBP_pred : DirPred BiMode.BiModeBP BiMode.BiHistory := {|
  dp_lookup := BiMode.bi_lookup;
  dp_uncondBranch := BiMode.bi_uncondBranch;
  dp_btbUpdate := BiMode.bi_btbUpdate;
  dp_update := BiMode.bi_update;
  dp_squash := BiMode.bi_squash;
  dp_getGHR _ h := BiMode.h_globalHistoryReg h |}.
