(* ===== verification/DirPredOk.v ===== *)
(** * The direction predictors satisfy their interface

    For [LocalBP], [TournamentBP] and [BiModeBP]: the constructors give
    well-formed predictors, and the laws of [DirPredOk] hold. *)

From S2P Require Import Prelude Regs Config DynInst StoreSet DirPred.

Local Open Scope Z_scope.

(** ** Indices *)

Lemma isPowerOf2_log2 n : 0 < n → isPowerOf2 n = true → n = 2 ^ Z.log2 n.
Proof.
  unfold isPowerOf2. intros Hn [_ Hl%Z.eqb_eq]%andb_true_iff.
  pose proof (Z.log2_spec n Hn) as [H1 H2]. pose proof (Z.log2_nonneg n).
  destruct (decide (n = 2 ^ Z.log2 n)) as [|Hne]; [done|exfalso].
  assert (Z.log2 (n - 1) = Z.log2 n) as Hk by (apply Z.log2_unique; lia).
  assert (Z.testbit (Z.land n (n - 1)) (Z.log2 n) = true) as Ht.
  { rewrite Z.land_spec, Z.bit_log2 by done. rewrite <- Hk at 1. rewrite Z.bit_log2; [done|].
    assert (0 < 2 ^ Z.log2 n) by (apply Z.pow_pos_nonneg; lia). lia. }
  by rewrite Hl, Z.bits_0 in Ht.
Qed.

Lemma ceilLog2_pow k : 0 <= k → ceilLog2 (2 ^ k) = k.
Proof.
  intros Hk. unfold ceilLog2, floorLog2. destruct (Z.eqb_spec (2 ^ k) 1) as [H1|H1].
  - destruct (decide (k = 0)); [done|]. pose proof (Z.pow_gt_1 2 k ltac:(lia)). lia.
  - assert (0 < k) by (destruct (decide (k = 0)) as [->|]; [done|lia]).
    rewrite Z.sub_1_r, Z.log2_pred_pow2 by done. lia.
Qed.

Lemma mask32_pow k : 0 <= k <= 32 → mask32 k = 2 ^ k - 1.
Proof.
  intros Hk. unfold mask32, u32, wrap. apply Z.mod_small.
  pose proof (Z.pow_le_mono_r 2 k 32 ltac:(lia) ltac:(lia)). pose proof (Z.pow_pos_nonneg 2 k). lia.
Qed.

(** [i & (size - 1)] is an index of a table whose size is a power of two. *)
Definition table {A} (v : list A) (m : Z) : Prop :=
  ∃ k, 0 <= k <= 32 ∧ m = 2 ^ k - 1 ∧ Z.of_nat (length v) = 2 ^ k.

Lemma land_pow_lt x k : 0 <= k → 0 <= Z.land x (2 ^ k - 1) < 2 ^ k.
Proof.
  intros Hk. replace (2 ^ k - 1) with (Z.ones k) by (rewrite Z.ones_equiv; lia).
  rewrite Z.land_ones by done. apply Z.mod_pos_bound. by apply Z.pow_pos_nonneg.
Qed.

Lemma table_index {A} (v : list A) m x : table v m → 0 <= Z.land x m < Z.of_nat (length v).
Proof. intros (k & Hk & -> & ->). apply land_pow_lt. lia. Qed.

Lemma table_replicate {A} (a : A) k : 0 <= k <= 32 → table (replicate (Z.to_nat (2 ^ k)) a) (2 ^ k - 1).
Proof.
  intros Hk. exists k. split_and!; [lia|lia|done|]. rewrite length_replicate.
  pose proof (Z.pow_pos_nonneg 2 k). lia.
Qed.

Lemma table_insert {A} (v : list A) m i a : table v m → table (<[i := a]> v) m.
Proof. intros (k & ? & ? & ?). exists k. by rewrite length_insert. Qed.

Lemma pow2_size n : 0 < n < 2 ^ 32 → isPowerOf2 n = true → ∃ k, 0 <= k <= 32 ∧ n = 2 ^ k.
Proof.
  intros Hn Hp. exists (Z.log2 n). split; [|apply isPowerOf2_log2; [lia|done]].
  split; [apply Z.log2_nonneg|]. apply Z.lt_le_incl, Z.log2_lt_pow2; lia.
Qed.

(** ** Vectors *)

Section vectors.
Context {A : Type} (what : string).
Lemma vec_on_total (f : A → A) v i :
  0 <= i < Z.of_nat (length v) →
  ∃ a, vec_get what v i = Ok a ∧ v !! Z.to_nat i = Some a ∧
    vec_on what f v i = Ok (<[Z.to_nat i := f a]> v).
Proof.
  intros Hi. destruct (vec_get_total what v i Hi) as [a Ha]. exists a.
  split; [done|]. split; [by apply vec_get_Ok in Ha as [_ ?]|].
  unfold vec_on. rewrite Ha. by rewrite vec_set_total.
Qed.
End vectors.

(** The register of a thread. *)
Definition reg_of (v : list Z) (t : ThreadID) : Z := default 0 (v !! t).
Lemma reg_of_other v t u a : u ≠ t → reg_of (<[t := a]> v) u = reg_of v u.
Proof. intros Hne. unfold reg_of. by rewrite list_lookup_insert_ne. Qed.
Lemma reg_of_same v t a : (t < length v)%nat → reg_of (<[t := a]> v) t = a.
Proof. intros Hl. unfold reg_of. by rewrite list_lookup_insert_eq. Qed.

(** Reads and updates the vectors an operation goes through. *)
Ltac vec_step :=
  match goal with
  | |- context [vec_on ?w ?f ?v ?i] =>
      let a := fresh "a" in let Hg := fresh in let Hl := fresh "Hl" in let Hv := fresh in
      destruct (vec_on_total w f v i) as (a & Hg & Hl & Hv);
        [by eauto with table|]; rewrite Hv; clear Hg Hv
  | |- context [vec_get ?w ?v ?i] =>
      let a := fresh "a" in let Hg := fresh in let Hl := fresh "Hl" in
      destruct (vec_get_total w v i) as [a Hg]; [by eauto with table|];
        rewrite Hg; apply vec_get_Ok in Hg as [_ Hl]
  | |- context [vec_set ?w ?v ?i ?a] => rewrite (vec_set_total w v i a) by eauto with table
  end; cbn beta iota.

Create HintDb table.
#[export] Hint Resolve table_index : table.
#[export] Hint Extern 1 (0 <= Z.of_nat _ < _) => (rewrite ?length_insert; lia) : table.

(** ** [LocalBP] *)

Definition local_wf (p : Local.LocalBP) : Prop := table (Local.localCtrs p) (Local.indexMask p).

Lemma newLocalBP_wf size bits shift p :
  0 < size < 2 ^ 32 → 0 < bits → Local.newLocalBP size bits shift = Ok p → local_wf p.
Proof.
  intros Hs Hb H. unfold Local.newLocalBP in H. destruct (negb _); [done|].
  destruct (isPowerOf2 (size / bits)) eqn:Hp; [|done]. injection H as <-.
  assert (0 <= size / bits <= size) as Hd.
  { split; [apply Z.div_pos; lia|]. apply Z.div_le_upper_bound; nia. }
  assert (size / bits ≠ 0) by (intros H0; by rewrite H0 in Hp).
  destruct (pow2_size (size / bits)) as (k & Hk & Heq); [lia|done|].
  rewrite Heq. by apply table_replicate.
Qed.

#[export] Program Instance LocalBP_ok : DirPredOk Local.LocalBP () := {|
  dp_thread _ _ := True; dp_wf := local_wf; dp_saved_wf _ _ := True;
  dp_tables p := Local.localCtrs p; dp_history _ _ := 0; dp_saved _ := 0 |}.
Next Obligation.
  intros tid a p Hwf _. cbn. unfold Local.local_lookup, Local.getLocalIndex, local_wf in *. vec_step. eauto 20.
Qed.
Next Obligation. intros tid a p Hwf _. cbn. eauto 20. Qed.
Next Obligation. intros tid a [] p Hwf _. cbn. eauto 20. Qed.
Next Obligation.
  intros tid a taken [] sq p Hwf _ _. cbn. unfold Local.local_update, Local.getLocalIndex, local_wf in *.
  destruct sq; [eauto 20|]. vec_step. eexists. split_and!; try done.
  by apply table_insert.
Qed.
Next Obligation. intros tid [] p Hwf _ _. cbn. eauto 20. Qed.

(** ** [BiModeBP] *)

Record bi_wf (p : BiMode.BiModeBP) : Prop := {
  bw_choice : table (BiMode.choiceCounters p) (BiMode.choiceHistoryMask p);
  bw_taken : table (BiMode.takenCounters p) (BiMode.globalHistoryMask p);
  bw_notTaken : table (BiMode.notTakenCounters p) (BiMode.globalHistoryMask p);
}.
#[export] Hint Resolve bw_choice bw_taken bw_notTaken : table.

Lemma newBiModeBP_wf gsize gbits csize cbits shift n p :
  0 < gsize < 2 ^ 32 → 0 < csize < 2 ^ 32 →
  BiMode.newBiModeBP gsize gbits csize cbits shift n = Ok p →
  bi_wf p ∧ length (BiMode.globalHistoryReg p) = n.
Proof.
  intros Hg Hc H. unfold BiMode.newBiModeBP in H. destruct (isPowerOf2 csize) eqn:Hpc; [|done].
  destruct (isPowerOf2 gsize) eqn:Hpg; [|done]. injection H as <-.
  apply pow2_size in Hpc as (c & Hkc & ->); [|done]. apply pow2_size in Hpg as (g & Hkg & ->); [|done].
  split; [split; by apply table_replicate|apply length_replicate].
Qed.

#[export] Program Instance BiModeBP_ok : DirPredOk BiMode.BiModeBP BiMode.BiHistory := {|
  dp_thread p tid := (tid < length (BiMode.globalHistoryReg p))%nat; dp_wf := bi_wf; dp_saved_wf _ _ := True;
  dp_tables p := (BiMode.choiceCounters p, BiMode.takenCounters p, BiMode.notTakenCounters p);
  dp_history tid p := reg_of (BiMode.globalHistoryReg p) tid; dp_saved := BiMode.h_globalHistoryReg |}.
Next Obligation.
  intros tid a p Hwf Ht. cbn in *. unfold BiMode.bi_lookup, BiMode.updateGlobalHistReg, BiMode.choiceHistoryIdx,
    BiMode.globalHistoryIdx. repeat vec_step. rewrite Nat2Z.id in *. do 3 eexists.
  split_and!; [reflexivity|by destruct Hwf|intros t ?; cbn; by rewrite length_insert|done|done|cbn|done|].
  - unfold reg_of. by simplify_option_eq.
  - intros t Hne. by apply reg_of_other.
Qed.
Next Obligation.
  intros tid a p Hwf Ht. cbn in *. unfold BiMode.bi_uncondBranch, BiMode.updateGlobalHistReg. repeat vec_step.
  rewrite Nat2Z.id in *. do 2 eexists.
  split_and!; [reflexivity|by destruct Hwf|intros t ?; cbn; by rewrite length_insert|done|done|cbn|done|].
  - unfold reg_of. by simplify_option_eq.
  - intros t Hne. by apply reg_of_other.
Qed.
Next Obligation.
  intros tid a h p Hwf Ht. cbn in *. unfold BiMode.bi_btbUpdate. vec_step. rewrite Nat2Z.id. eexists.
  split_and!; [reflexivity|by destruct Hwf|intros t ?; cbn; by rewrite length_insert|done|done|].
  intros t Hne. by apply reg_of_other.
Qed.
Next Obligation.
  intros tid a taken h sq p Hwf Ht _. cbn in *. unfold BiMode.bi_update. destruct sq.
  - vec_step. rewrite Nat2Z.id. eexists.
    split_and!; [reflexivity|by destruct Hwf|intros t ?; cbn; by rewrite length_insert|done|done|done|].
    intros t Hne. by apply reg_of_other.
  - unfold BiMode.globalHistoryIdx, BiMode.choiceHistoryIdx.
    destruct (BiMode.takenUsed h), (if eqb _ taken then _ else _); repeat vec_step; eexists;
      (split_and!; [reflexivity| |done..]); destruct Hwf; split; cbn;
      auto using table_insert.
Qed.
Next Obligation.
  intros tid h p Hwf Ht _. cbn in *. unfold BiMode.bi_squash. vec_step. rewrite Nat2Z.id. eexists.
  split_and!; [reflexivity|by destruct Hwf|intros t ?; cbn; by rewrite length_insert|done| |done|].
  - by apply reg_of_same.
  - intros t Hne. by apply reg_of_other.
Qed.

(** ** [TournamentBP] *)

Import Tournament.

Record tour_wf (p : TournamentBP) : Prop := {
  tw_local : table (localCtrs p) (localPredictorMask p);
  tw_global : table (globalCtrs p) (globalHistoryMask p);
  tw_choice : table (choiceCtrs p) (choiceHistoryMask p);
  tw_table : table (localHistoryTable p) (localHistoryTableSize p - 1);
}.
#[export] Hint Resolve tw_local tw_global tw_choice tw_table : table.

Lemma tw_size p : tour_wf p → localHistoryTableSize p = Z.of_nat (length (localHistoryTable p)).
Proof. intros [_ _ _ (k & ? & ? & ?)]. lia. Qed.

Lemma calcLocHistIdx_range a p :
  tour_wf p → 0 <= calcLocHistIdx a p < Z.of_nat (length (localHistoryTable p)).
Proof.
  intros Hwf. pose proof (table_index _ _ (Z.shiftr a (t_instShiftAmt p)) (tw_table p Hwf)) as Hi.
  destruct (tw_table p Hwf) as (k & Hk & _ & Hl). unfold calcLocHistIdx, u32, wrap. rewrite Z.mod_small; [done|].
  pose proof (Z.pow_le_mono_r 2 k 32 ltac:(lia) ltac:(lia)). lia.
Qed.
#[export] Hint Resolve calcLocHistIdx_range : table.

Lemma newTournamentBP_wf ls lb lt gs gb cs cb sh n p :
  0 < ls < 2 ^ 32 → 0 < lt < 2 ^ 32 → 0 < gs < 2 ^ 32 → 0 < cs < 2 ^ 32 →
  newTournamentBP ls lb lt gs gb cs cb sh n = Ok p → tour_wf p ∧ length (globalHistory p) = n.
Proof.
  intros Hl Ht Hg Hc H. unfold newTournamentBP in H.
  destruct (isPowerOf2 ls) eqn:Pl; [|done]. destruct (isPowerOf2 gs) eqn:Pg; [|done].
  destruct (isPowerOf2 lt) eqn:Pt; [|done]. destruct (isPowerOf2 cs) eqn:Pc; [|done].
  apply pow2_size in Pl as (kl & ? & ->), Pg as (kg & ? & ->), Pt as (kt & ? & ->), Pc as (kc & ? & ->); try done.
  cbn [negb] in H. destruct (_ <? 2 ^ kg - 1); [done|]. destruct (_ <? 2 ^ kc - 1); [done|]. injection H as <-.
  split; [|apply length_replicate].
  split; cbn; try by apply table_replicate. rewrite ceilLog2_pow, mask32_pow by lia. by apply table_replicate.
Qed.

Definition tour_saved_wf (p : TournamentBP) (h : TourHistory) : Prop :=
  localHistoryIdx h = invalidPredictorIndex ∨
  0 <= localHistoryIdx h < Z.of_nat (length (localHistoryTable p)).

(** Only the history registers and the local histories of [p'] differ, the
    register of [tid] being [g]. *)
Definition tour_moved (tid : ThreadID) (g : Z) (p p' : TournamentBP) : Prop :=
  tour_wf p' ∧ globalHistory p' = <[tid := g]> (globalHistory p) ∧
  length (localHistoryTable p') = length (localHistoryTable p) ∧
  (localCtrs p', globalCtrs p', choiceCtrs p') = (localCtrs p, globalCtrs p, choiceCtrs p).

Lemma tour_moved_laws tid g p p' :
  tour_moved tid g p p' → (tid < length (globalHistory p))%nat →
  tour_wf p' ∧ (∀ t, (t < length (globalHistory p))%nat → (t < length (globalHistory p'))%nat) ∧
  (localCtrs p', globalCtrs p', choiceCtrs p') = (localCtrs p, globalCtrs p, choiceCtrs p) ∧
  reg_of (globalHistory p') tid = g ∧
  (∀ h', tour_saved_wf p h' → tour_saved_wf p' h') ∧
  (∀ t, t ≠ tid → reg_of (globalHistory p') t = reg_of (globalHistory p) t).
Proof.
  intros (Hwf & Hg & Hl & Hc) Ht. rewrite Hg, length_insert. unfold tour_saved_wf. rewrite Hl.
  split_and!; try done; [by apply reg_of_same|]. intros t Hne. by apply reg_of_other.
Qed.

Lemma updateGlobalHist_moved tid taken p :
  tour_wf p → (tid < length (globalHistory p))%nat →
  ∃ g p', updateGlobalHist tid taken p = Ok p' ∧ tour_moved tid g p p' ∧ localHistoryTable p' = localHistoryTable p ∧
    localHistoryTableSize p' = localHistoryTableSize p.
Proof.
  intros Hwf Ht. unfold updateGlobalHist. vec_step. rewrite Nat2Z.id. do 2 eexists. split; [done|].
  split; [|done]. split; [by destruct Hwf|done].
Qed.

Lemma set_table_moved tid g p p' i x :
  tour_moved tid g p p' → tour_moved tid g p (set_localHistoryTable (<[i := x]> (localHistoryTable p')) p').
Proof.
  intros (Hwf & Hg & Hl & Hc). split; [|split; [done|split; [cbn; by rewrite length_insert|done]]].
  destruct Hwf. split; cbn; auto using table_insert.
Qed.

Lemma updateLocalHist_moved tid g idx taken p p' :
  tour_moved tid g p p' → 0 <= idx < Z.of_nat (length (localHistoryTable p')) →
  ∃ p'', updateLocalHist idx taken p' = Ok p'' ∧ tour_moved tid g p p''.
Proof.
  intros Hm Hi. unfold updateLocalHist. vec_step. eexists. split; [done|]. by apply set_table_moved.
Qed.

Lemma set_register_moved tid g p :
  tour_wf p → tour_moved tid g p (set_globalHistory (<[tid := g]> (globalHistory p)) p).
Proof. intros Hwf. split; [by destruct Hwf|done]. Qed.
#[export] Hint Resolve set_register_moved set_table_moved : table.

#[export] Program Instance TournamentBP_ok : DirPredOk TournamentBP TourHistory := {|
  dp_thread p tid := (tid < length (globalHistory p))%nat; dp_wf := tour_wf; dp_saved_wf := tour_saved_wf;
  dp_tables p := (localCtrs p, globalCtrs p, choiceCtrs p);
  dp_history tid p := reg_of (globalHistory p) tid; dp_saved := h_globalHistory |}.
Next Obligation.
  intros tid a p Hwf Ht. cbn in *. unfold tour_lookup. repeat vec_step. rewrite Nat2Z.id in *.
  rewrite (proj2 (Z.ltb_lt _ _)) by (rewrite tw_size by done; by apply calcLocHistIdx_range).
  set (taken := if _ <? _ then _ else _).
  destruct (updateGlobalHist_moved tid taken p Hwf Ht) as (g & p1 & -> & Hm & Ht1 & _).
  destruct (updateLocalHist_moved tid g (calcLocHistIdx a p) taken p p1 Hm) as (p2 & -> & Hm2).
  { rewrite Ht1. by apply calcLocHistIdx_range. }
  destruct (tour_moved_laws _ _ _ _ Hm2 Ht) as (? & ? & ? & ? & Hs & ?).
  do 3 eexists. split_and!; [reflexivity|done..| | |done|done].
  - apply Hs. right. by apply calcLocHistIdx_range.
  - unfold reg_of. by simplify_option_eq.
Qed.
Next Obligation.
  intros tid a p Hwf Ht. cbn in *. unfold tour_uncondBranch. vec_step. rewrite Nat2Z.id in *.
  destruct (updateGlobalHist_moved tid true p Hwf Ht) as (g & p1 & -> & Hm & _).
  destruct (tour_moved_laws _ _ _ _ Hm Ht) as (? & ? & ? & ? & Hs & ?).
  do 2 eexists. split_and!; [reflexivity|done..|by left| |done|done].
  unfold reg_of. by simplify_option_eq.
Qed.
Next Obligation.
  intros tid a h p Hwf Ht. cbn in *. unfold tour_btbUpdate. vec_step. rewrite Nat2Z.id.
  pose proof (set_register_moved tid (Z.land a0 (Z.ldiff (historyRegisterMask p) 1)) p Hwf) as Hm.
  set (p1 := set_globalHistory _ _) in *. pose proof (proj1 Hm). vec_step. eexists. split; [done|].
  by apply (set_table_moved _ _ _ _ (Z.to_nat (calcLocHistIdx a p1)) (Z.land a1 (Z.ldiff (localPredictorMask p1) 1))),
    tour_moved_laws in Hm as (? & ? & ? & _ & ? & ?).
Qed.
Next Obligation.
  intros tid a taken h sq p Hwf Ht Hh. cbn in *. unfold tour_update.
  rewrite (proj2 (Z.ltb_lt _ _)) by (rewrite tw_size by done; by apply calcLocHistIdx_range).
  destruct sq.
  - vec_step. rewrite Nat2Z.id. set (g := Z.land _ _).
    pose proof (set_register_moved tid g p Hwf) as Hm. set (p1 := set_globalHistory _ _) in *.
    assert (∃ p', (if negb (localHistory h =? invalidPredictorIndex) then
      let! w := vec_set "localHistoryTable" (localHistoryTable p1) (calcLocHistIdx a p)
        (Z.lor (u32 (Z.shiftl (localHistory h) 1)) (Z.b2z taken)) in Ok (set_localHistoryTable w p1)
      else Ok p1) = Ok p' ∧ tour_moved tid g p p') as (p' & -> & Hm').
    { destruct (negb _); [|eauto]. pose proof (calcLocHistIdx_range a p Hwf).
      rewrite vec_set_total by done. eauto with table. }
    destruct (tour_moved_laws _ _ _ _ Hm' Ht) as (? & ? & ? & ? & ? & ?).
    eexists. split_and!; [reflexivity|done..].
  - pose proof (table_index _ _ (localHistory h) (tw_local p Hwf)).
    rewrite (proj2 (Z.ltb_lt _ _)) by lia. cbv zeta. unfold trainIf.
    destruct (negb (eqb _ _) && _), (negb (localHistory h =? _)); repeat vec_step; eexists;
      (split; [reflexivity|]); (split_and!; [|done..]); destruct Hwf; split; cbn; auto using table_insert.
Qed.
Next Obligation.
  intros tid h p Hwf Ht Hh. cbn in *. unfold tour_squash. vec_step. rewrite Nat2Z.id.
  pose proof (set_register_moved tid (h_globalHistory h) p Hwf) as Hm.
  destruct (Z.eqb_spec (localHistoryIdx h) invalidPredictorIndex) as [_|Hne].
  - eexists. split; [done|]. by apply tour_moved_laws in Hm as (? & ? & ? & ? & ? & ?).
  - destruct Hh as [?|Hi]; [done|]. vec_step. eexists. split; [done|].
    by apply (set_table_moved _ _ _ _ (Z.to_nat (localHistoryIdx h)) (localHistory h)), tour_moved_laws
      in Hm as (? & ? & ? & ? & ? & ?).
Qed.
