(* ===== verification/BPred.v ===== *)
(** * The branch prediction unit

    [BPredUnit] ([cpu/pred/bpred_unit.cc]) with its return address stack
    ([cpu/pred/ras.cc]), branch target buffer ([cpu/pred/btb.cc]) and indirect
    target predictor ([cpu/pred/indirect.cc]), over any direction predictor of
    the class [DirPred].  The instruction set's [PCState] is the class [PcState].
    Statistics and probe points are left out; the random replacement of the indirect
    predictor draws from the stream [ip_random]. *)

From S2P Require Import Prelude Regs Config DynInst StoreSet DirPred.

Local Open Scope Z_scope.

(** [TheISA::PCState]: [pc_set a] is the state [PCState(a)], [pc_advance] is
    [TheISA::advancePC] and [pc_buildRet] [TheISA::buildRetPC]. *)
Class PcState (PC : Type) := {
  pc_set : Addr → PC;
  pc_instAddr : PC → Addr;
  pc_advance : StaticInst → PC → PC;
  pc_buildRet : PC → PC → PC;
}.

Definition si_flag (f : StaticFlag) (s : StaticInst) : bool := bs_test (si_flags s) f.

Section bpred.
Context {PC : Type} {HPC : PcState PC}.

(** ** The return address stack *)

Record ReturnAddrStack := mkRAS {
  addrStack : list PC;
  ras_numEntries : Z;
  usedEntries : Z;
  tos : Z;
}.

(** [init] on a fresh stack. *)
Definition ras_init (n : Z) : ReturnAddrStack := mkRAS (replicate (Z.to_nat n) (pc_set 0)) n 0 0.
Definition ras_reset (r : ReturnAddrStack) : ReturnAddrStack :=
  mkRAS (replicate (length (addrStack r)) (pc_set 0)) (ras_numEntries r) 0 0.

Definition incrTos (r : ReturnAddrStack) : Z :=
  let t := u32 (tos r + 1) in if t =? ras_numEntries r then 0 else t.
Definition decrTos (r : ReturnAddrStack) : Z :=
  if tos r =? 0 then u32 (ras_numEntries r - 1) else tos r - 1.

Definition ras_top (r : ReturnAddrStack) : outcome PC := vec_get "addrStack" (addrStack r) (tos r).
Definition ras_push (a : PC) (r : ReturnAddrStack) : outcome ReturnAddrStack :=
  let t := incrTos r in
  let! v := vec_set "addrStack" (addrStack r) t a in
  Ok (mkRAS v (ras_numEntries r)
        (if usedEntries r =? ras_numEntries r then usedEntries r else usedEntries r + 1) t).
Definition ras_pop (r : ReturnAddrStack) : ReturnAddrStack :=
  mkRAS (addrStack r) (ras_numEntries r) (if 0 <? usedEntries r then usedEntries r - 1 else usedEntries r)
    (decrTos r).
Definition ras_restore (idx : Z) (a : PC) (r : ReturnAddrStack) : outcome ReturnAddrStack :=
  let! v := vec_set "addrStack" (addrStack r) idx a in
  Ok (mkRAS v (ras_numEntries r) (usedEntries r) idx).

(** ** The branch target buffer *)

Record BTBEntry := mkBTBEntry { be_tag : Z; be_target : PC; be_tid : ThreadID; be_valid : bool }.
Record DefaultBTB := mkBTB {
  btb : list BTBEntry;
  btb_numEntries : Z;
  idxMask : Z;
  tagMask : Z;
  btb_instShiftAmt : Z;
  tagShiftAmt : Z;
  log2NumThreads : Z;
}.
Definition set_btb (v : list BTBEntry) (b : DefaultBTB) : DefaultBTB :=
  mkBTB v (btb_numEntries b) (idxMask b) (tagMask b) (btb_instShiftAmt b) (tagShiftAmt b) (log2NumThreads b).

Definition newBTB (entries tagBits shift threads : Z) : outcome DefaultBTB :=
  if negb (isPowerOf2 entries) then Err (PanicCall "BTB entries is not a power of 2!") else
  Ok (mkBTB (replicate (Z.to_nat entries) (mkBTBEntry 0 (pc_set 0) 0%nat false)) entries (entries - 1)
        (mask32 tagBits) shift (u32 (shift + floorLog2 entries)) (floorLog2 threads)).
Definition btb_reset (b : DefaultBTB) : DefaultBTB :=
  set_btb ((λ e, mkBTBEntry (be_tag e) (be_target e) (be_tid e) false) <$> btb b) b.

Definition getIndex (instPC : Addr) (tid : ThreadID) (b : DefaultBTB) : Z :=
  u32 (Z.land (Z.lxor (Z.shiftr instPC (btb_instShiftAmt b))
                 (Z.shiftl (Z.of_nat tid) (u32 (tagShiftAmt b - btb_instShiftAmt b - log2NumThreads b))))
         (idxMask b)).
Definition btb_getTag (instPC : Addr) (b : DefaultBTB) : Z := Z.land (Z.shiftr instPC (tagShiftAmt b)) (tagMask b).

Definition btbMatches (instPC : Addr) (tid : ThreadID) (b : DefaultBTB) (e : BTBEntry) : bool :=
  be_valid e && (btb_getTag instPC b =? be_tag e) && (be_tid e =? tid)%nat.
Definition btb_valid (instPC : Addr) (tid : ThreadID) (b : DefaultBTB) : outcome bool :=
  let idx := getIndex instPC tid b in
  assert! idx <? btb_numEntries b as "BTB: btb_idx < numEntries" in
  let! e := vec_get "btb" (btb b) idx in Ok (btbMatches instPC tid b e).
Definition btb_lookup (instPC : Addr) (tid : ThreadID) (b : DefaultBTB) : outcome PC :=
  let idx := getIndex instPC tid b in
  assert! idx <? btb_numEntries b as "BTB: btb_idx < numEntries" in
  let! e := vec_get "btb" (btb b) idx in
  Ok (if btbMatches instPC tid b e then be_target e else pc_set 0).
Definition btb_update (instPC : Addr) (target : PC) (tid : ThreadID) (b : DefaultBTB) : outcome DefaultBTB :=
  let idx := getIndex instPC tid b in
  assert! idx <? btb_numEntries b as "BTB: btb_idx < numEntries" in
  let! v := vec_set "btb" (btb b) idx (mkBTBEntry (btb_getTag instPC b) target tid true) in
  Ok (set_btb v b).

(** ** The indirect target predictor *)

Record IPredEntry := mkIPredEntry { ie_tag : Z; ie_target : PC }.
Record HistoryEntry := mkHistoryEntry { pcAddr : Addr; targetAddr : Addr; he_seqNum : InstSeqNum }.
(** [ThreadInfo]: the front of the deque is the head of the list. *)
Record ThreadInfo := mkThreadInfo { pathHist : list HistoryEntry; headHistEntry : Z }.
Record IndirectPredictor := mkIndirect {
  hashGHR : bool;
  hashTargets : bool;
  numSets : Z;
  numWays : Z;
  tagBits : Z;
  pathLength : Z;
  instShift : Z;
  targetCache : list (list IPredEntry);
  threadInfo : ThreadID → ThreadInfo;
  ip_random : nat → Z; (** what the calls of [rand] return *)
  ip_calls : nat; (** how often it has been called *)
}.
Definition set_threadInfo (v : ThreadID → ThreadInfo) (p : IndirectPredictor) : IndirectPredictor :=
  mkIndirect (hashGHR p) (hashTargets p) (numSets p) (numWays p) (tagBits p) (pathLength p) (instShift p)
    (targetCache p) v (ip_random p) (ip_calls p).
Definition set_targetCache (v : list (list IPredEntry)) (n : nat) (p : IndirectPredictor) : IndirectPredictor :=
  mkIndirect (hashGHR p) (hashTargets p) (numSets p) (numWays p) (tagBits p) (pathLength p) (instShift p)
    v (threadInfo p) (ip_random p) n.

Definition newIndirect (ghr targets : bool) (sets ways tag path shift : Z) (random : nat → Z)
  : outcome IndirectPredictor :=
  if negb (isPowerOf2 sets) then
    Err (PanicCall "Indirect predictor requires power of 2 number of sets") else
  Ok (mkIndirect ghr targets sets ways tag path shift
        (replicate (Z.to_nat sets) (replicate (Z.to_nat ways) (mkIPredEntry 0 (pc_set 0))))
        (λ _, mkThreadInfo [] 0) random 0).

(** The loop of [getSetIndex] over the youngest targets first; [p] counts. *)
Fixpoint hashPath (shift step p : Z) (l : list HistoryEntry) (hash : Z) : Z :=
  match l with
  | [] => hash
  | e :: l => hashPath shift step (p + 1) l (Z.lxor hash (Z.shiftr (targetAddr e) (shift + p * step)))
  end.
Definition getSetIndex (a : Addr) (ghr : Z) (hist : list HistoryEntry) (p : IndirectPredictor) : outcome Z :=
  let hash := Z.shiftr a (instShift p) in
  let hash := if hashGHR p then Z.lxor hash ghr else hash in
  if hashTargets p then
    if pathLength p =? 0 then Err (PanicCall "division by pathLength") else
    Ok (Z.land (hashPath (instShift p) (floorLog2 (numSets p) / pathLength p) 0
                  (take (Z.to_nat (pathLength p)) (reverse hist)) hash) (numSets p - 1))
  else Ok (Z.land hash (numSets p - 1)).
Definition ip_getTag (a : Addr) (p : IndirectPredictor) : Z :=
  Z.land (Z.shiftr a (instShift p)) (mask32 (tagBits p)).

(** The first way with the tag. *)
Fixpoint findWay (tag : Z) (ways : list IPredEntry) (k : nat) : option (nat * PC) :=
  match ways with
  | [] => None
  | w :: ways => if ie_tag w =? tag then Some (k, ie_target w) else findWay tag ways (S k)
  end.

Definition ip_lookup (a : Addr) (ghr : Z) (tid : ThreadID) (p : IndirectPredictor) : outcome (option PC) :=
  let! set_index := getSetIndex a ghr (pathHist (threadInfo p tid)) p in
  assert! set_index <? numSets p as "IndirectPredictor: set_index < numSets" in
  let! iset := vec_get "targetCache" (targetCache p) set_index in
  Ok (snd <$> findWay (ip_getTag a p) iset 0).

Definition on_thread (tid : ThreadID) (f : ThreadInfo → ThreadInfo) (p : IndirectPredictor) : IndirectPredictor :=
  set_threadInfo (<[tid := f (threadInfo p tid)]> (threadInfo p)) p.

Definition recordIndirect (a tgt : Addr) (sn : InstSeqNum) (tid : ThreadID) (p : IndirectPredictor)
  : IndirectPredictor :=
  on_thread tid (λ t, mkThreadInfo (pathHist t ++ [mkHistoryEntry a tgt sn]) (headHistEntry t)) p.

(** One call looks at one entry. *)
Definition ip_commit (sn : InstSeqNum) (tid : ThreadID) (p : IndirectPredictor) : IndirectPredictor :=
  on_thread tid (λ t,
    match pathHist t !! Z.to_nat (headHistEntry t) with
    | Some e =>
        if he_seqNum e <=? sn then
          if pathLength p <=? headHistEntry t then mkThreadInfo (tail (pathHist t)) (headHistEntry t)
          else mkThreadInfo (pathHist t) (headHistEntry t + 1)
        else t
    | None => t
    end) p.

(** The entries before the first younger one stay. *)
Fixpoint keepUntil (sn : InstSeqNum) (l : list HistoryEntry) : list HistoryEntry :=
  match l with
  | [] => []
  | e :: l => if sn <? he_seqNum e then [] else e :: keepUntil sn l
  end.
Definition ip_squash (sn : InstSeqNum) (tid : ThreadID) (p : IndirectPredictor) : IndirectPredictor :=
  on_thread tid (λ t, mkThreadInfo (keepUntil sn (pathHist t)) (headHistEntry t)) p.

Definition recordTarget (sn : InstSeqNum) (ghr : Z) (target : PC) (tid : ThreadID) (p : IndirectPredictor)
  : outcome IndirectPredictor :=
  let t := threadInfo p tid in
  match last (pathHist t) with
  | None => Err (NullDeref "recordTarget: *pathHist.rbegin()")
  | Some e =>
      let before := removelast (pathHist t) in
      let! set_index := getSetIndex (pcAddr e) ghr before p in
      let tag := ip_getTag (pcAddr e) p in
      let e := mkHistoryEntry (pcAddr e) (pc_instAddr target) (he_seqNum e) in
      let p := on_thread tid (λ t, mkThreadInfo (before ++ [e]) (headHistEntry t)) p in
      assert! set_index <? numSets p as "IndirectPredictor: set_index < numSets" in
      let! iset := vec_get "targetCache" (targetCache p) set_index in
      let '(k, calls) :=
        match findWay tag iset 0 with
        | Some (k, _) => (Z.of_nat k, ip_calls p)
        | None => (ip_random p (ip_calls p) mod numWays p, S (ip_calls p))
        end in
      let! iset := vec_set "iset" iset k (mkIPredEntry tag target) in
      let! v := vec_set "targetCache" (targetCache p) set_index iset in
      Ok (set_targetCache v calls p)
  end.

(** ** The unit *)

Context {P Hist : Type} {HP : DirPred P Hist}.

Record PredictorHistory := mkPredictorHistory {
  ph_seqNum : InstSeqNum;
  ph_pc : Addr;
  bpHistory : Hist;
  RASTarget : PC;
  RASIndex : Z;
  ph_predTaken : bool;
  usedRAS : bool;
  pushedRAS : bool;
  wasCall : bool;
  wasReturn : bool;
  wasIndirect : bool;
}.
Definition newHistory (sn : InstSeqNum) (a : Addr) (taken : bool) (h : Hist) : PredictorHistory :=
  mkPredictorHistory sn a h (pc_set 0) 0 taken false false false false false.
Definition set_ph_predTaken (v : bool) (e : PredictorHistory) : PredictorHistory :=
  mkPredictorHistory (ph_seqNum e) (ph_pc e) (bpHistory e) (RASTarget e) (RASIndex e) v (usedRAS e)
    (pushedRAS e) (wasCall e) (wasReturn e) (wasIndirect e).
Definition set_usedRAS (v : bool) (e : PredictorHistory) : PredictorHistory :=
  mkPredictorHistory (ph_seqNum e) (ph_pc e) (bpHistory e) (RASTarget e) (RASIndex e) (ph_predTaken e) v
    (pushedRAS e) (wasCall e) (wasReturn e) (wasIndirect e).
Definition set_pushedRAS (v : bool) (e : PredictorHistory) : PredictorHistory :=
  mkPredictorHistory (ph_seqNum e) (ph_pc e) (bpHistory e) (RASTarget e) (RASIndex e) (ph_predTaken e)
    (usedRAS e) v (wasCall e) (wasReturn e) (wasIndirect e).
Definition set_wasReturn (v : bool) (e : PredictorHistory) : PredictorHistory :=
  mkPredictorHistory (ph_seqNum e) (ph_pc e) (bpHistory e) (RASTarget e) (RASIndex e) (ph_predTaken e)
    (usedRAS e) (pushedRAS e) (wasCall e) v (wasIndirect e).
Definition set_wasIndirect (v : bool) (e : PredictorHistory) : PredictorHistory :=
  mkPredictorHistory (ph_seqNum e) (ph_pc e) (bpHistory e) (RASTarget e) (RASIndex e) (ph_predTaken e)
    (usedRAS e) (pushedRAS e) (wasCall e) (wasReturn e) v.
(** A return that takes the top of the stack. *)
Definition markReturn (idx : Z) (target : PC) (e : PredictorHistory) : PredictorHistory :=
  mkPredictorHistory (ph_seqNum e) (ph_pc e) (bpHistory e) target idx (ph_predTaken e)
    true (pushedRAS e) (wasCall e) true (wasIndirect e).
(** A call that pushes. *)
Definition markCall (e : PredictorHistory) : PredictorHistory :=
  mkPredictorHistory (ph_seqNum e) (ph_pc e) (bpHistory e) (RASTarget e) (RASIndex e) (ph_predTaken e)
    (usedRAS e) true true (wasReturn e) (wasIndirect e).

(** The front of [predHist] is the youngest branch. *)
Record BPredUnit := mkBPredUnit {
  bp_dir : P;
  predHist : ThreadID → list PredictorHistory;
  BTB : DefaultBTB;
  RAS : ThreadID → ReturnAddrStack;
  useIndirect : bool;
  iPred : IndirectPredictor;
}.
Definition set_dir (v : P) (u : BPredUnit) : BPredUnit :=
  mkBPredUnit v (predHist u) (BTB u) (RAS u) (useIndirect u) (iPred u).
Definition set_predHist (tid : ThreadID) (v : list PredictorHistory) (u : BPredUnit) : BPredUnit :=
  mkBPredUnit (bp_dir u) (<[tid := v]> (predHist u)) (BTB u) (RAS u) (useIndirect u) (iPred u).
Definition set_BTB (v : DefaultBTB) (u : BPredUnit) : BPredUnit :=
  mkBPredUnit (bp_dir u) (predHist u) v (RAS u) (useIndirect u) (iPred u).
Definition set_RAS (tid : ThreadID) (v : ReturnAddrStack) (u : BPredUnit) : BPredUnit :=
  mkBPredUnit (bp_dir u) (predHist u) (BTB u) (<[tid := v]> (RAS u)) (useIndirect u) (iPred u).
Definition set_iPred (v : IndirectPredictor) (u : BPredUnit) : BPredUnit :=
  mkBPredUnit (bp_dir u) (predHist u) (BTB u) (RAS u) (useIndirect u) v.

Definition newBPredUnit (dir : P) (b : DefaultBTB) (rasSize : Z) (indirect : bool) (ip : IndirectPredictor)
  : BPredUnit := mkBPredUnit dir (λ _, []) b (λ _, ras_init rasSize) indirect ip.

Definition bp_drainSanityCheck (threads : nat) (u : BPredUnit) : outcome () :=
  foldM (λ _ tid, assert! match predHist u tid with [] => true | _ => false end as "drainSanityCheck: ph.empty()" in Ok tt)
    (seq 0 threads) tt.

(** A call whose target is not known is not pushed unless it is unconditional. *)
Definition unpush (inst : StaticInst) (tid : ThreadID) (e : PredictorHistory) (u : BPredUnit)
  : PredictorHistory * BPredUnit :=
  if si_flag IsCall inst && negb (si_flag IsUncondControl inst)
  then (set_pushedRAS false e, set_RAS tid (ras_pop (RAS u tid)) u) else (e, u).

(** The target of a branch predicted taken: whether it is still, the target, the
    record. *)
Definition predictTarget (inst : StaticInst) (sn : InstSeqNum) (pc : PC) (tid : ThreadID)
  (e : PredictorHistory) (u : BPredUnit) : outcome (bool * PC * PredictorHistory * BPredUnit) :=
  if si_flag IsReturn inst then
    let! rasTop := ras_top (RAS u tid) in
    Ok (true, pc_buildRet pc rasTop, markReturn (tos (RAS u tid)) rasTop e,
        set_RAS tid (ras_pop (RAS u tid)) u)
  else
    let! (e, u) := if si_flag IsCall inst then
                     let! r := ras_push pc (RAS u tid) in Ok (markCall e, set_RAS tid r u)
                   else Ok (e, u) in
    if si_flag IsDirectControl inst || negb (useIndirect u) then
      let! valid := btb_valid (pc_instAddr pc) tid (BTB u) in
      if valid : bool then
        let! target := btb_lookup (pc_instAddr pc) tid (BTB u) in Ok (true, target, e, u)
      else
        let! u := if negb (si_flag IsCall inst) && negb (si_flag IsReturn inst) then
                    let! p := dp_btbUpdate tid (pc_instAddr pc) (bpHistory e) (bp_dir u) in Ok (set_dir p u)
                  else Ok u in
        let (e, u) := unpush inst tid e u in
        Ok (false, pc_advance inst pc, e, u)
    else
      let e := set_wasIndirect true e in
      let! hit := ip_lookup (pc_instAddr pc) (dp_getGHR (P := P) tid (bpHistory e)) tid (iPred u) in
      let '(taken, target, e, u) :=
        match hit with
        | Some target => (true, target, e, u)
        | None => let (e, u) := unpush inst tid e u in (false, pc_advance inst pc, e, u)
        end in
      Ok (taken, target, e,
          set_iPred (recordIndirect (pc_instAddr pc) (pc_instAddr target) sn tid (iPred u)) u).

(** [predict]: the direction, the predicted PC, the unit. *)
Definition predict (inst : StaticInst) (sn : InstSeqNum) (pc : PC) (tid : ThreadID) (u : BPredUnit)
  : outcome (bool * PC * BPredUnit) :=
  let! (taken, h, p) :=
    if si_flag IsUncondControl inst then
      let! (h, p) := dp_uncondBranch tid (pc_instAddr pc) (bp_dir u) in Ok (true, h, p)
    else dp_lookup tid (pc_instAddr pc) (bp_dir u) in
  let u := set_dir p u in
  let e := newHistory sn (pc_instAddr pc) taken h in
  let! (taken, target, e, u) :=
    if taken : bool then predictTarget inst sn pc tid e u
    else Ok (false, pc_advance inst pc, if si_flag IsReturn inst then set_wasReturn true e else e, u) in
  Ok (taken, target, set_predHist tid (e :: predHist u tid) u).

(** [update(done_sn, tid)]: the committed branches, the oldest first ([l] is the
    history from the back). *)
Fixpoint updateBranches (done_sn : InstSeqNum) (tid : ThreadID) (l : list PredictorHistory) (p : P)
  : outcome (list PredictorHistory * P) :=
  match l with
  | [] => Ok ([], p)
  | e :: l' =>
      if ph_seqNum e <=? done_sn then
        let! p := dp_update tid (ph_pc e) (ph_predTaken e) (bpHistory e) false p in
        updateBranches done_sn tid l' p
      else Ok (l, p)
  end.
Definition bp_update (done_sn : InstSeqNum) (tid : ThreadID) (u : BPredUnit) : outcome BPredUnit :=
  let u := set_iPred (ip_commit done_sn tid (iPred u)) u in
  let! (l, p) := updateBranches done_sn tid (reverse (predHist u tid)) (bp_dir u) in
  Ok (set_predHist tid (reverse l) (set_dir p u)).

(** The stack as it was before the branch. *)
Definition undoRAS (e : PredictorHistory) (r : ReturnAddrStack) : outcome ReturnAddrStack :=
  if usedRAS e then ras_restore (RASIndex e) (RASTarget e) r
  else if wasCall e && pushedRAS e then Ok (ras_pop r)
  else Ok r.

(** [squash(squashed_sn, tid)]. *)
Fixpoint squashBranches (sn : InstSeqNum) (tid : ThreadID) (l : list PredictorHistory) (r : ReturnAddrStack) (p : P)
  : outcome (list PredictorHistory * ReturnAddrStack * P) :=
  match l with
  | [] => Ok ([], r, p)
  | e :: l' =>
      if sn <? ph_seqNum e then
        let! r := undoRAS e r in
        let! p := dp_squash tid (bpHistory e) p in
        squashBranches sn tid l' r p
      else Ok (l, r, p)
  end.
Definition bp_squash (sn : InstSeqNum) (tid : ThreadID) (u : BPredUnit) : outcome BPredUnit :=
  let u := set_iPred (ip_squash sn tid (iPred u)) u in
  let! (l, r, p) := squashBranches sn tid (predHist u tid) (RAS u tid) (bp_dir u) in
  Ok (set_predHist tid l (set_RAS tid r (set_dir p u))).

(** [squash(squashed_sn, corrTarget, actually_taken, tid)], a mispredicted branch. *)
Definition bp_squashMispredict (sn : InstSeqNum) (corrTarget : PC) (actually_taken : bool) (tid : ThreadID)
  (u : BPredUnit) : outcome BPredUnit :=
  let! u := bp_squash sn tid u in
  match predHist u tid with
  | [] => Ok u
  | e :: l =>
      assert! ph_seqNum e =? sn as "squash: pred_hist.front().seqNum == squashed_sn" in
      let ghr := dp_getGHR (P := P) tid (bpHistory e) in
      let e := set_ph_predTaken actually_taken e in
      let! p := dp_update tid (ph_pc e) actually_taken (bpHistory e) true (bp_dir u) in
      let u := set_dir p u in
      let! (e, u) :=
        if actually_taken then
          let (e, u) := if wasReturn e && negb (usedRAS e)
                        then (set_usedRAS true e, set_RAS tid (ras_pop (RAS u tid)) u) else (e, u) in
          if wasIndirect e then
            let! ip := recordTarget (ph_seqNum e) ghr corrTarget tid (iPred u) in Ok (e, set_iPred ip u)
          else
            let! b := btb_update (ph_pc e) corrTarget tid (BTB u) in Ok (e, set_BTB b u)
        else if usedRAS e then
          let! r := ras_restore (RASIndex e) (RASTarget e) (RAS u tid) in
          Ok (set_usedRAS false e, set_RAS tid r u)
        else if wasCall e && pushedRAS e then
          Ok (set_pushedRAS false e, set_RAS tid (ras_pop (RAS u tid)) u)
        else Ok (e, u) in
      Ok (set_predHist tid (e :: l) u)
  end.
End bpred.
Arguments ReturnAddrStack PC : clear implicits.
Arguments DefaultBTB PC : clear implicits.
Arguments IndirectPredictor PC : clear implicits.
Arguments PredictorHistory PC Hist : clear implicits.
Arguments BPredUnit PC P Hist : clear implicits.
