(* ===== verification/BPredRas.v ===== *)
(** * The return address stack

    The circular buffer of [ReturnAddrStack] is a bounded stack: pushing drops
    the oldest address when it is full.  What a branch does to the stack, and that
    undoing the branches from the youngest to the oldest gives the addresses back. *)

From S2P Require Import Prelude Regs Config DynInst StoreSet DirPred DirPredOk BPred.

Local Open Scope Z_scope.

Section ras.
Context {PC : Type} {HPC : PcState PC}.
Implicit Types (r x y : ReturnAddrStack PC).

Record ras_wf r : Prop := {
  rw_size : 0 < ras_numEntries r < 2 ^ 32;
  rw_length : Z.of_nat (length (addrStack r)) = ras_numEntries r;
  rw_tos : 0 <= tos r < ras_numEntries r;
}.

Lemma ras_init_wf n : 0 < n < 2 ^ 32 → ras_wf (ras_init n).
Proof. intros Hn. split; cbn; [lia|rewrite length_replicate; lia|lia]. Qed.

(** The address [d] below the top. *)
Definition slot r (d : Z) : option PC := addrStack r !! Z.to_nat ((tos r - d) mod ras_numEntries r).

Lemma incrTos_mod r : ras_wf r → incrTos r = (tos r + 1) mod ras_numEntries r.
Proof.
  intros [Hn _ Ht]. unfold incrTos, u32, wrap. rewrite (Z.mod_small (tos r + 1)) by lia.
  destruct (Z.eqb_spec (tos r + 1) (ras_numEntries r)) as [->|].
  - by rewrite Z.mod_same by lia.
  - by rewrite Z.mod_small by lia.
Qed.

Lemma decrTos_mod r : ras_wf r → decrTos r = (tos r - 1) mod ras_numEntries r.
Proof.
  intros [Hn _ Ht]. unfold decrTos, u32, wrap. destruct (Z.eqb_spec (tos r) 0) as [->|].
  - rewrite Z.mod_small by lia.
    rewrite <- (Z_mod_plus_full (0 - 1) 1), Z.mod_small by lia. lia.
  - by rewrite Z.mod_small by lia.
Qed.

Lemma ras_index_lt r z : ras_wf r → (Z.to_nat (z mod ras_numEntries r) < length (addrStack r))%nat.
Proof.
  intros [Hn Hl _]. pose proof (Z.mod_pos_bound z (ras_numEntries r) ltac:(lia)). lia.
Qed.

Lemma ras_top_ok r : ras_wf r → ∃ a, ras_top r = Ok a ∧ slot r 0 = Some a.
Proof.
  intros Hr. pose proof Hr as [Hn Hl Ht].
  destruct (vec_get_total "addrStack" (addrStack r) (tos r)) as [a Ha]; [lia|].
  exists a. split; [done|]. unfold slot. rewrite Z.sub_0_r, Z.mod_small by lia.
  by apply vec_get_Ok in Ha as [_ ?].
Qed.

Lemma ras_push_ok a r :
  ras_wf r → ∃ r', ras_push a r = Ok r' ∧ ras_wf r' ∧ ras_numEntries r' = ras_numEntries r ∧
    tos r' = (tos r + 1) mod ras_numEntries r ∧
    addrStack r' = <[Z.to_nat (tos r') := a]> (addrStack r).
Proof.
  intros Hr. pose proof Hr as [Hn Hl Ht]. unfold ras_push. rewrite incrTos_mod by done.
  pose proof (Z.mod_pos_bound (tos r + 1) (ras_numEntries r) ltac:(lia)).
  rewrite vec_set_total by lia. eexists. split; [done|]. split; [|done].
  split; cbn; [done|by rewrite length_insert|done].
Qed.

Lemma ras_pop_ok r :
  ras_wf r → ras_wf (ras_pop r) ∧ ras_numEntries (ras_pop r) = ras_numEntries r ∧
    tos (ras_pop r) = (tos r - 1) mod ras_numEntries r ∧ addrStack (ras_pop r) = addrStack r.
Proof.
  intros Hr. pose proof Hr as [Hn Hl Ht]. cbn. rewrite decrTos_mod by done. split; [|done].
  split; cbn; [done|done|]. rewrite decrTos_mod by done. apply Z.mod_pos_bound. lia.
Qed.

Lemma ras_restore_ok idx a r :
  ras_wf r → 0 <= idx < ras_numEntries r →
  ∃ r', ras_restore idx a r = Ok r' ∧ ras_wf r' ∧ ras_numEntries r' = ras_numEntries r ∧
    tos r' = idx ∧ addrStack r' = <[Z.to_nat idx := a]> (addrStack r).
Proof.
  intros Hr Hi. pose proof Hr as [Hn Hl Ht]. unfold ras_restore. rewrite vec_set_total by lia.
  eexists. split; [done|]. split; [|done]. split; cbn; [done|by rewrite length_insert|done].
Qed.

Lemma mod_sub_l z d n : n ≠ 0 → (z mod n - d) mod n = (z - d) mod n.
Proof. intros Hn. by rewrite Zminus_mod_idemp_l. Qed.

Lemma slot_pop r d : ras_wf r → slot (ras_pop r) d = slot r (d + 1).
Proof.
  intros Hr. pose proof (ras_pop_ok r Hr) as (_ & Hn & Ht & Ha). unfold slot. rewrite Ha, Hn, Ht.
  rewrite mod_sub_l by (destruct Hr; lia). do 3 f_equal. lia.
Qed.

(** Distinct depths are distinct places. *)
Lemma place_inj t d d' n : 0 < n → 0 <= d < n → 0 <= d' < n → (t - d) mod n = (t - d') mod n → d = d'.
Proof.
  intros Hn Hd Hd' H.
  assert ((d' - d) mod n = 0) as H0.
  { replace (d' - d) with ((t - d) - (t - d')) by lia. rewrite Zminus_mod, H, Z.sub_diag. by apply Z.mod_0_l; lia. }
  apply Z.mod_divide in H0 as [k Hk]; [|lia]. assert (k = 0) by nia. subst. lia.
Qed.

Lemma slot_push a r r' :
  ras_wf r → ras_push a r = Ok r' →
  slot r' 0 = Some a ∧ ∀ d, 0 <= d < ras_numEntries r - 1 → slot r' (d + 1) = slot r d.
Proof.
  intros Hr H. destruct (ras_push_ok a r Hr) as (r1 & H1 & Hw & Hn & Ht & Ha). rewrite H in H1.
  injection H1 as <-. pose proof Hr as [Hn0 Hl Ht0]. pose proof Hw as [_ _ Ht1]. unfold slot. rewrite Ha, Hn. split.
  - rewrite Z.sub_0_r, Z.mod_small by lia. apply list_lookup_insert_eq. lia.
  - intros d Hd. rewrite list_lookup_insert_ne.
    + rewrite Ht, mod_sub_l by lia. do 3 f_equal. lia.
    + intros Heq. rewrite Hn in Ht1.
      pose proof (Z.mod_pos_bound (tos r' - (d + 1)) (ras_numEntries r) ltac:(lia)).
      assert (tos r' = (tos r' - (d + 1)) mod ras_numEntries r) as E by lia.
      rewrite <- (Z.sub_0_r (tos r')) in E at 1. rewrite <- (Z.mod_small (tos r' - 0) (ras_numEntries r)) in E by lia.
      apply place_inj in E; lia.
Qed.

Lemma slot_restore r idx a r' :
  ras_wf r → 0 <= idx < ras_numEntries r → ras_restore idx a r = Ok r' →
  slot r' 0 = Some a ∧
  ∀ d, 0 < d < ras_numEntries r → slot r' d = addrStack r !! Z.to_nat ((idx - d) mod ras_numEntries r).
Proof.
  intros Hr Hi H. destruct (ras_restore_ok idx a r Hr Hi) as (r1 & H1 & Hw & Hn & Ht & Ha). rewrite H in H1.
  injection H1 as <-. pose proof Hr as [Hn0 Hl Ht0]. unfold slot. rewrite Ha, Hn, Ht. split.
  - rewrite Z.sub_0_r, Z.mod_small by lia. apply list_lookup_insert_eq. lia.
  - intros d Hd. apply list_lookup_insert_ne. intros Heq.
    pose proof (Z.mod_pos_bound (idx - d) (ras_numEntries r) ltac:(lia)).
    assert ((idx - 0) mod ras_numEntries r = (idx - d) mod ras_numEntries r) as E
      by (rewrite Z.sub_0_r, (Z.mod_small idx) by lia; lia).
    apply place_inj in E; lia.
Qed.

(** ** A bounded stack *)

(** The youngest [length l] addresses of [r] are [l]. *)
Definition represents r (l : list PC) : Prop :=
  ras_wf r ∧ Z.of_nat (length l) <= ras_numEntries r ∧
  ∀ d a, l !! d = Some a → slot r (Z.of_nat d) = Some a.

(** The return address stack is a bounded stack.  Where it holds the
    addresses [l], the youngest first, reading the top gives the first of them,
    popping leaves the others, and pushing puts the address in front and drops the oldest
    one when all entries are in use; none of them fails.  An initialised
    stack holds nothing. *)
Theorem ras_refines (n : Z) (a : PC) r (l : list PC) (Hn : 0 < n < 2 ^ 32) (Hrep : represents r l) :
  represents (ras_init n) [] ∧
  (∀ b l', l = b :: l' → ras_top r = Ok b) ∧
  represents (ras_pop r) (tail l) ∧
  ∃ r', ras_push a r = Ok r' ∧ represents r' (take (Z.to_nat (ras_numEntries r)) (a :: l)).
Proof.
  destruct Hrep as (Hr & Hl & Hs). split; [|split; [|split]].
  - split; [by apply ras_init_wf|]. split; [cbn; lia|]. by intros [] ?.
  - intros b l' ->. destruct (ras_top_ok r Hr) as (b' & Ht & Hb). rewrite Ht.
    specialize (Hs 0%nat b eq_refl). change (slot r 0 = Some b) in Hs. by simplify_option_eq.
  - split; [by apply ras_pop_ok|]. rewrite (proj1 (proj2 (ras_pop_ok r Hr))).
    split; [destruct l; cbn in *; lia|]. intros d b Hd. rewrite slot_pop by done.
    destruct l as [|c l]; [done|].
    replace (Z.of_nat d + 1) with (Z.of_nat (S d)) by lia. by apply Hs.
  - destruct (ras_push_ok a r Hr) as (r' & Hp & Hw & Hn' & _). exists r'. split; [done|].
    destruct (slot_push a r r' Hr Hp) as [H0 H1]. split; [done|]. rewrite Hn'. pose proof (rw_size r Hr).
    split; [rewrite length_take; lia|]. intros d b Hd. apply lookup_take_Some in Hd as [Hd Hlt].
    destruct d as [|d]; [cbn in Hd; by simplify_eq|]. cbn in Hd.
    replace (Z.of_nat (S d)) with (Z.of_nat d + 1) by lia. rewrite H1 by lia. by apply Hs.
Qed.

(** ** Branches and their undoing *)

Context {Hist : Type}.
Implicit Types e : PredictorHistory PC Hist.

(** What predicting the branch recorded as [e] does to the stack. *)
Inductive ras_step e r : ReturnAddrStack PC → Prop :=
  | step_return :
      usedRAS e = true → RASIndex e = tos r → ras_top r = Ok (RASTarget e) → ras_step e r (ras_pop r)
  | step_call a r' :
      usedRAS e = false → wasCall e = true → pushedRAS e = true → ras_push a r = Ok r' → ras_step e r r'
  | step_dropped a r' :
      usedRAS e = false → wasCall e = true → pushedRAS e = false → ras_push a r = Ok r' →
      ras_step e r (ras_pop r')
  | step_none : usedRAS e = false → wasCall e = false → ras_step e r r.

Lemma ras_step_wf e r r' : ras_wf r → ras_step e r r' → ras_wf r' ∧ ras_numEntries r' = ras_numEntries r.
Proof.
  intros Hr Hs. destruct Hs as [|a r' _ _ _ Hp|a r' _ _ _ Hp|]; [| | |done].
  - by destruct (ras_pop_ok r Hr) as (? & ? & _).
  - destruct (ras_push_ok a r Hr) as (r1 & H1 & ? & ? & _). rewrite Hp in H1. by injection H1 as <-.
  - destruct (ras_push_ok a r Hr) as (r1 & H1 & Hw & Hn1 & _). rewrite Hp in H1. injection H1 as <-.
    destruct (ras_pop_ok _ Hw) as (? & Hn & _). by rewrite Hn.
Qed.

(** The same place of the top and the same [w] youngest addresses. *)
Definition same_top (w : Z) r x : Prop :=
  ras_wf x ∧ ras_numEntries x = ras_numEntries r ∧ tos x = tos r ∧ ∀ d, 0 <= d < w → slot x d = slot r d.

Lemma undo_step e r r' x w :
  ras_wf r → w <= ras_numEntries r → ras_step e r r' → same_top w r' x →
  ∃ y, undoRAS e x = Ok y ∧ same_top (if wasCall e then w - 1 else w) r y.
Proof.
  intros Hr Hw Hs (Hx & Hn & Ht & Hd). pose proof Hr as [Hn0 _ Ht0]. unfold undoRAS.
  destruct Hs as [Hu Hi Htop|a r' Hu Hc Hp Hpush|a r' Hu Hc Hp Hpush|Hu Hc]; rewrite Hu.
  - destruct (ras_pop_ok r Hr) as (_ & Hn1 & Ht1 & Ha1). rewrite Hn1 in Hn.
    destruct (ras_restore_ok (RASIndex e) (RASTarget e) x Hx) as (y & Hy & Hwy & Hny & Hty & _); [lia|].
    exists y. split; [done|]. split; [done|]. split; [congruence|]. split; [congruence|]. intros d Hlt.
    assert (d < w) as Hdw by (destruct (wasCall e); lia).
    destruct (slot_restore x (RASIndex e) (RASTarget e) y Hx ltac:(lia) Hy) as [H0 H1].
    destruct (decide (d = 0)) as [->|Hd0].
    + rewrite H0. destruct (ras_top_ok r Hr) as (b & Hb & ->). by rewrite Htop in Hb; simplify_eq.
    + rewrite H1 by lia. specialize (Hd (d - 1) ltac:(lia)). rewrite slot_pop in Hd by done.
      replace (d - 1 + 1) with d in Hd by lia. rewrite <- Hd. unfold slot. rewrite Hn, Ht, Ht1, Hi.
      rewrite mod_sub_l by lia. do 3 f_equal. lia.
  - rewrite Hc, Hp. cbn [andb].
    destruct (ras_push_ok a r Hr) as (r1 & H1 & Hw1 & Hn1 & Ht1 & _). rewrite Hpush in H1. injection H1 as <-.
    destruct (ras_pop_ok x Hx) as (Hwp & Hnp & Htp & _). eexists. split; [done|].
    split; [done|]. split; [congruence|]. split.
    + rewrite Htp, Ht, Ht1, Hn, Hn1, mod_sub_l by lia. rewrite Z.mod_small; lia.
    + intros d Hlt. rewrite slot_pop by done. rewrite Hd by lia.
      by apply (proj2 (slot_push a r r' Hr Hpush)); lia.
  - rewrite Hc, Hp. cbn [andb].
    destruct (ras_push_ok a r Hr) as (r1 & H1 & Hw1 & Hn1 & Ht1 & _). rewrite Hpush in H1. injection H1 as <-.
    destruct (ras_pop_ok r' Hw1) as (Hwp & Hnp & Htp & _). eexists. split; [done|].
    split; [done|]. split; [congruence|]. split.
    + rewrite Ht, Htp, Hn1, Ht1, mod_sub_l by lia. rewrite Z.mod_small; lia.
    + intros d Hlt. rewrite Hd by lia. rewrite slot_pop by done.
      by apply (proj2 (slot_push a r r' Hr Hpush)); lia.
  - rewrite Hc. cbn [andb]. by exists x.
Qed.

(** The branches of a history, the youngest first. *)
Inductive ras_steps : list (PredictorHistory PC Hist) → ReturnAddrStack PC → ReturnAddrStack PC → Prop :=
  | steps_nil r : ras_steps [] r r
  | steps_cons e es r r1 r2 : ras_steps es r r1 → ras_step e r1 r2 → ras_steps (e :: es) r r2.

Lemma ras_steps_wf es r r' : ras_wf r → ras_steps es r r' → ras_wf r' ∧ ras_numEntries r' = ras_numEntries r.
Proof.
  intros Hr Hs. induction Hs as [|e es r r1 r2 _ IH Hs]; [done|]. destruct (IH Hr) as [Hw Hn].
  destruct (ras_step_wf _ _ _ Hw Hs) as [? Hn']. by rewrite Hn'.
Qed.

Definition calls (es : list (PredictorHistory PC Hist)) : Z := Z.of_nat (length (filter (λ e, wasCall e = true) es)).

(** Undoing all branches, the youngest first. *)
Lemma undo_steps es : ∀ r r' x w,
  ras_wf r → w <= ras_numEntries r → ras_steps es r r' → same_top w r' x →
  ∃ y, foldM (λ r e, undoRAS e r) es x = Ok y ∧ same_top (w - calls es) r y.
Proof.
  induction es as [|e es IH]; intros r r' x w Hr Hw Hs Hx.
  - inversion Hs; subst. exists x. split; [done|]. by rewrite Z.sub_0_r.
  - inversion Hs as [|? ? ? r1 ? H1 H2]; subst. destruct (ras_steps_wf _ _ _ Hr H1) as [Hr1 Hn1].
    destruct (undo_step e r1 r' x w Hr1) as (y & Hy & Hsim); [lia|done|done|].
    destruct (IH r r1 y (if wasCall e then w - 1 else w) Hr) as (z & Hz & Hsz); [destruct (wasCall e); lia|done|done|].
    exists z. cbn [foldM]. rewrite Hy. split; [done|]. unfold calls in *. rewrite filter_cons.
    destruct Hsz as (? & ? & ? & Hd). split; [done|]. split; [done|]. split; [done|]. intros d Hlt. apply Hd.
    destruct (wasCall e); case_decide; try done; cbn [length] in *; lia.
Qed.
End ras.

(** Fixed-size instructions. *)
#[global] Instance word_pc : PcState Z := {|
  pc_set a := a; pc_instAddr a := a; pc_advance _ a := a + 4; pc_buildRet _ a := a + 4 |}.
Lemma ras_refines_witness :
  ∃ r', ras_push 64 (ras_init 4) = Ok r' ∧ represents r' [64].
Proof.
  destruct (ras_refines 4 64 (ras_init 4) []) as (_ & _ & _ & r' & H1 & H2).
  - lia.
  - split; [apply ras_init_wf; lia|]. split; [cbn; lia|]. by intros [] ?.
  - by exists r'.
Defined.
