(* ===== verification/BPredInv.v ===== *)
(** * The branch prediction unit is well formed and never fails

    The invariant of [BPredUnit] over any direction predictor that satisfies
    [DirPredOk], and what each operation does to the parts of the unit. *)

From S2P Require Import Prelude Regs Config DynInst StoreSet DirPred DirPredOk BPred BPredRas.

Local Open Scope Z_scope.

Section unit.
Context {PC : Type} {HPC : PcState PC}.
Context {P Hist : Type} {HP : DirPred P Hist} {HPok : DirPredOk P Hist}.
Implicit Types (u : BPredUnit PC P Hist) (e : PredictorHistory PC Hist) (tid t : ThreadID).

(** ** The branch target buffer *)

Definition btb_wf (b : DefaultBTB PC) : Prop :=
  table (btb b) (idxMask b) ∧ btb_numEntries b = Z.of_nat (length (btb b)).

Lemma newBTB_wf n tagBits shift threads b :
  0 < n < 2 ^ 32 → newBTB n tagBits shift threads = Ok b → btb_wf b.
Proof.
  intros Hn H. unfold newBTB in H. destruct (isPowerOf2 n) eqn:Hp; [|done]. injection H as <-.
  apply pow2_size in Hp as (k & Hk & ->); [|done].
  split; [by apply table_replicate|]. cbn. rewrite length_replicate. pose proof (Z.pow_pos_nonneg 2 k). lia.
Qed.

Lemma getIndex_range a tid b : btb_wf b → 0 <= getIndex a tid b < Z.of_nat (length (btb b)).
Proof.
  intros [Ht _]. unfold getIndex. set (x := Z.lxor _ _). pose proof (table_index _ _ x Ht) as Hi.
  destruct Ht as (k & Hk & _ & Hl). unfold u32, wrap. rewrite Z.mod_small; [done|].
  pose proof (Z.pow_le_mono_r 2 k 32 ltac:(lia) ltac:(lia)). lia.
Qed.

Lemma btb_entry a tid b :
  btb_wf b → ∃ x, btb b !! Z.to_nat (getIndex a tid b) = Some x ∧
    btb_valid a tid b = Ok (btbMatches a tid b x) ∧
    btb_lookup a tid b = Ok (if btbMatches a tid b x then be_target x else pc_set 0).
Proof.
  intros Hb. pose proof (getIndex_range a tid b Hb) as Hi. destruct Hb as [_ Hn].
  destruct (vec_get_total "btb" (btb b) _ Hi) as [x Hx]. exists x.
  split; [by apply vec_get_Ok in Hx as [_ ?]|].
  unfold btb_valid, btb_lookup. rewrite Hn, (proj2 (Z.ltb_lt _ _)) by lia. by rewrite Hx.
Qed.

Lemma btb_update_ok a target tid b :
  btb_wf b → btb_update a target tid b
    = Ok (set_btb (<[Z.to_nat (getIndex a tid b) := mkBTBEntry (btb_getTag a b) target tid true]> (btb b)) b).
Proof.
  intros Hb. pose proof (getIndex_range a tid b Hb) as Hi. destruct Hb as [_ Hn].
  unfold btb_update. rewrite Hn, (proj2 (Z.ltb_lt _ _)) by lia. by rewrite vec_set_total.
Qed.

Lemma set_btb_wf b i x : btb_wf b → btb_wf (set_btb (<[i := x]> (btb b)) b).
Proof. intros [Ht Hn]. split; cbn; [by apply table_insert|by rewrite length_insert]. Qed.

(** ** The indirect predictor *)

Record ip_wf (p : IndirectPredictor PC) : Prop := {
  iw_sets : table (targetCache p) (numSets p - 1);
  iw_size : numSets p = Z.of_nat (length (targetCache p));
  iw_path : hashTargets p = true → pathLength p ≠ 0;
  iw_ways : 0 < numWays p;
  iw_full : Forall (λ s, Z.of_nat (length s) = numWays p) (targetCache p);
}.

Lemma newIndirect_wf ghr targets sets ways tag path shift rnd p :
  0 < sets < 2 ^ 32 → 0 < ways → path ≠ 0 →
  newIndirect ghr targets sets ways tag path shift rnd = Ok p → ip_wf p.
Proof.
  intros Hs Hw Hpath H. unfold newIndirect in H. destruct (isPowerOf2 sets) eqn:Hp; [|done]. injection H as <-.
  apply pow2_size in Hp as (k & Hk & ->); [|done]. pose proof (Z.pow_pos_nonneg 2 k).
  split; cbn; [by apply table_replicate|rewrite length_replicate; lia|done|done|].
  apply Forall_replicate. rewrite length_replicate. lia.
Qed.

Lemma getSetIndex_ok a ghr hist p :
  ip_wf p → ∃ i, getSetIndex a ghr hist p = Ok i ∧ 0 <= i < numSets p.
Proof.
  intros [Ht Hn Hp _ _]. unfold getSetIndex.
  assert (∀ x, 0 <= Z.land x (numSets p - 1) < numSets p) as Hr by (intros x; pose proof (table_index _ _ x Ht); lia).
  destruct (hashTargets p); [|eauto]. rewrite (proj2 (Z.eqb_neq _ _)) by auto. eauto.
Qed.

Lemma ip_lookup_ok a ghr tid p : ip_wf p → ∃ o, ip_lookup a ghr tid p = Ok o.
Proof.
  intros Hp. unfold ip_lookup. destruct (getSetIndex_ok a ghr (pathHist (threadInfo p tid)) p Hp) as (i & -> & Hi).
  rewrite (proj2 (Z.ltb_lt _ _)) by lia. destruct (vec_get_total "targetCache" (targetCache p) i) as [s ->]; [|eauto].
  by rewrite <- (iw_size p Hp).
Qed.

Lemma on_thread_wf tid f p : ip_wf p → ip_wf (on_thread tid f p).
Proof. by intros []. Qed.

Lemma findWay_lt tag (ways : list (IPredEntry (PC := PC))) : ∀ k j x, findWay tag ways k = Some (j, x) → (k <= j < k + length ways)%nat.
Proof.
  induction ways as [|w ways IH]; intros k j x H; cbn in *; [done|].
  destruct (_ =? tag); [simplify_eq; lia|]. apply IH in H. lia.
Qed.

(** The entry the target is written to, and the draws made. *)
Lemma recordTarget_ok sn ghr target tid p before x :
  ip_wf p → pathHist (threadInfo p tid) = before ++ [x] →
  ∃ i s k calls, getSetIndex (pcAddr x) ghr before p = Ok i ∧ targetCache p !! Z.to_nat i = Some s ∧
    (k < length s)%nat ∧
    match findWay (ip_getTag (pcAddr x) p) s 0 with Some (j, _) => k = j | None => True end ∧
    recordTarget sn ghr target tid p
    = Ok (set_targetCache (<[Z.to_nat i := <[k := mkIPredEntry (ip_getTag (pcAddr x) p) target]> s]> (targetCache p)) calls
            (on_thread tid (λ th, mkThreadInfo (before ++ [mkHistoryEntry (pcAddr x) (pc_instAddr target) (he_seqNum x)])
                                   (headHistEntry th)) p)).
Proof.
  intros Hp Hpath. unfold recordTarget. rewrite Hpath, last_snoc, removelast_last.
  destruct (getSetIndex_ok (pcAddr x) ghr before p Hp) as (i & -> & Hi). pose proof (iw_size p Hp) as Hn.
  cbn [numSets targetCache on_thread set_threadInfo ip_calls ip_random numWays].
  rewrite (proj2 (Z.ltb_lt _ _)) by lia.
  destruct (vec_get_total "targetCache" (targetCache p) i) as [s Hs]; [lia|]. rewrite Hs.
  apply vec_get_Ok in Hs as [_ Hs]. pose proof (iw_ways p Hp).
  pose proof (proj1 (Forall_lookup _ _) (iw_full p Hp) _ _ Hs) as Hlen. cbn beta in Hlen.
  destruct (findWay (ip_getTag (pcAddr x) p) s 0) as [[j y]|] eqn:Hf.
  - pose proof (findWay_lt _ _ _ _ _ Hf).
    rewrite vec_set_total by lia. rewrite vec_set_total by lia. rewrite Nat2Z.id.
    exists i, s, j, (ip_calls p). rewrite Hf. split_and!; try done. lia.
  - pose proof (Z.mod_pos_bound (ip_random p (ip_calls p)) (numWays p) ltac:(lia)).
    rewrite vec_set_total by lia. rewrite vec_set_total by lia.
    exists i, s, (Z.to_nat (ip_random p (ip_calls p) mod numWays p)), (S (ip_calls p)).
    rewrite Hf. split_and!; try done. lia.
Qed.

Lemma set_targetCache_wf p i s k calls x :
  ip_wf p → targetCache p !! i = Some s → ip_wf (set_targetCache (<[i := <[k := x]> s]> (targetCache p)) calls p).
Proof.
  intros [Ht Hn Hp Hw Hf] Hs. split; cbn; [by apply table_insert|by rewrite length_insert|done|done|].
  apply Forall_insert; [done|]. rewrite length_insert. by apply (proj1 (Forall_lookup _ _) Hf _ _ Hs).
Qed.

(** ** The invariant *)

Record bp_wf u : Prop := {
  bw_dir : dp_wf (bp_dir u);
  bw_btb : btb_wf (BTB u);
  bw_ip : ip_wf (iPred u);
  bw_ras : ∀ t, ras_wf (RAS u t);
  bw_hist : ∀ t, Forall (λ e, dp_saved_wf (bp_dir u) (bpHistory e) ∧ 0 <= RASIndex e < ras_numEntries (RAS u t))
                   (predHist u t);
  bw_order : ∀ t, StronglySorted Z.gt (ph_seqNum <$> predHist u t);
  bw_path : ∀ t, StronglySorted Z.lt (he_seqNum <$> pathHist (threadInfo (iPred u) t));
  bw_indirect : ∀ t e, e ∈ predHist u t → wasIndirect e = true →
    ∃ x, x ∈ pathHist (threadInfo (iPred u) t) ∧ he_seqNum x = ph_seqNum e ∧ pcAddr x = ph_pc e;
}.

(** The number is younger than everything the unit remembers of the thread. *)
Definition fresh (sn : InstSeqNum) tid u : Prop :=
  Forall (λ e, ph_seqNum e < sn) (predHist u tid) ∧
  Forall (λ x, he_seqNum x < sn) (pathHist (threadInfo (iPred u) tid)).

Lemma newBPredUnit_wf dir b n ind ip :
  dp_wf dir → btb_wf b → 0 < n < 2 ^ 32 → ip_wf ip → (∀ t, pathHist (threadInfo ip t) = []) →
  bp_wf (newBPredUnit dir b n ind ip).
Proof.
  intros Hd Hb Hn Hip Hpath. split; cbn; try done.
  - intros _. by apply ras_init_wf.
  - intros _. constructor.
  - intros t. rewrite Hpath. constructor.
  - intros t e He. set_solver.
Qed.

(** ** Prediction *)

(** Counters and the registers of other threads stay. *)
Record dir_step tid (p p' : P) : Prop := {
  ds_wf : dp_wf p';
  ds_threads : ∀ t, dp_thread p t → dp_thread p' t;
  ds_tables : dp_tables p' = dp_tables p;
  ds_saved : ∀ h, dp_saved_wf p h → dp_saved_wf p' h;
  ds_other : ∀ t, t ≠ tid → dp_history t p' = dp_history t p;
}.

Lemma dir_step_refl tid p : dp_wf p → dir_step tid p p.
Proof. by split. Qed.
Lemma dir_step_trans tid p q r : dir_step tid p q → dir_step tid q r → dir_step tid p r.
Proof.
  intros [] []. split; auto; [congruence|]. intros t Ht. etrans; auto.
Qed.

(** What the search for a target does, from the record [e] of a branch to [e']. *)
Record targeted tid e e' u u' : Prop := {
  tg_seqNum : ph_seqNum e' = ph_seqNum e;
  tg_pc : ph_pc e' = ph_pc e;
  tg_dirHist : bpHistory e' = bpHistory e;
  tg_taken : ph_predTaken e' = ph_predTaken e;
  tg_index : 0 <= RASIndex e' < ras_numEntries (RAS u tid);
  tg_hist : predHist u' = predHist u;
  tg_btb : BTB u' = BTB u;
  tg_ras : ras_step e' (RAS u tid) (RAS u' tid);
  tg_ras_other : ∀ t, t ≠ tid → RAS u' t = RAS u t;
  tg_dir : dir_step tid (bp_dir u) (bp_dir u');
  tg_path : ∃ tgt, iPred u' = if wasIndirect e' then recordIndirect (ph_pc e) tgt (ph_seqNum e) tid (iPred u)
                              else iPred u;
}.

(** A record none of whose flags is set. *)
Definition blank e : Prop :=
  usedRAS e = false ∧ pushedRAS e = false ∧ wasCall e = false ∧ wasIndirect e = false ∧ RASIndex e = 0.

#[local] Ltac set_ras := cbn [RAS set_RAS set_iPred set_dir]; rewrite ?fn_lookup_insert, ?fn_lookup_insert_ne by done.

#[local] Ltac close_targeted :=
  first [ done | cbn; lia | by apply dir_step_refl | intros t Hne; by set_ras
        | set_ras; first [by apply step_return | by eapply step_call | by eapply step_dropped | by apply step_none]
        | cbn; repeat match goal with
                 | Hx : wasIndirect _ = _ |- _ => rewrite Hx
                 | Hx : ph_pc _ = _ |- _ => rewrite Hx
                 end; first [by exists 0 | by eexists] ].

Lemma predictTarget_ok inst sn pc tid e u :
  bp_wf u → dp_thread (bp_dir u) tid → blank e → ph_seqNum e = sn → ph_pc e = pc_instAddr pc →
  ∃ taken target e' u', predictTarget inst sn pc tid e u = Ok (taken, target, e', u') ∧ targeted tid e e' u u'.
Proof.
  intros [Hd Hb Hip Hr _ _ _ _] Ht (Hu & Hp & Hc & Hin & Hri) <- Hpc. unfold predictTarget.
  pose proof (rw_size _ (Hr tid)) as Hsz. pose proof (rw_tos _ (Hr tid)) as Htos.
  destruct (si_flag IsReturn inst) eqn:Hret.
  { destruct (ras_top_ok _ (Hr tid)) as (a & Ha & _). rewrite Ha. do 4 eexists. split; [done|].
    split; close_targeted. }
  destruct (btb_entry (pc_instAddr pc) tid (BTB u) Hb) as (x & _ & Hv & Hlk).
  destruct (ip_lookup_ok (pc_instAddr pc) (dp_getGHR (P := P) tid (bpHistory e)) tid (iPred u) Hip) as [o Ho].
  destruct (dp_btb_ok tid (pc_instAddr pc) (bpHistory e) (bp_dir u) Hd Ht) as (p' & Hbtb & H1 & H2 & H3 & H4 & H5).
  assert (dir_step tid (bp_dir u) p') as Hstep by done. clear H1 H2 H3 H4 H5.
  destruct (si_flag IsCall inst) eqn:Hcall.
  - destruct (ras_push_ok pc _ (Hr tid)) as (r & Hpush & Hw & _). rewrite Hpush. cbn. rewrite Hv, Hlk, Ho.
    unfold unpush. rewrite Hcall. cbn.
    destruct (si_flag IsDirectControl inst || _); [destruct (btbMatches _ _ _ _)|destruct o];
      [|destruct (si_flag IsUncondControl inst)| |destruct (si_flag IsUncondControl inst)]; cbn;
      do 4 eexists; (split; [reflexivity|]);
      (split; close_targeted).
  - cbn. rewrite Hv, Hlk, Ho. unfold unpush. rewrite Hcall. cbn.
    destruct (si_flag IsDirectControl inst || _); [destruct (btbMatches _ _ _ _)|destruct o];
      rewrite ?Hbtb; do 4 eexists; (split; [reflexivity|]);
      (split; close_targeted).
Qed.

(** What predicting a branch does; [e] is its record. *)
Record predicted (sn : InstSeqNum) (a : Addr) tid u u' e : Prop := {
  pd_seqNum : ph_seqNum e = sn;
  pd_pc : ph_pc e = a;
  pd_hist : predHist u' = <[tid := e :: predHist u tid]> (predHist u);
  pd_index : 0 <= RASIndex e < ras_numEntries (RAS u tid);
  pd_btb : BTB u' = BTB u;
  pd_ras : ras_step e (RAS u tid) (RAS u' tid);
  pd_ras_other : ∀ t, t ≠ tid → RAS u' t = RAS u t;
  pd_dir : dir_step tid (bp_dir u) (bp_dir u');
  pd_saved : dp_saved (bpHistory e) = dp_history tid (bp_dir u);
  pd_saved_wf : dp_saved_wf (bp_dir u') (bpHistory e);
  pd_path : ∃ tgt, iPred u' = if wasIndirect e then recordIndirect a tgt sn tid (iPred u) else iPred u;
}.

Lemma set_dir_wf tid u p : bp_wf u → dir_step tid (bp_dir u) p → bp_wf (set_dir p u).
Proof.
  intros [Hd Hb Hip Hr Hh Ho Hp Hi] [D1 D2 D3 D4 D5]. split; try done.
  intros t. eapply Forall_impl; [apply Hh|]. cbn. naive_solver.
Qed.

(** The direction, before the target. *)
Lemma direction_ok inst sn pc tid u :
  bp_wf u → dp_thread (bp_dir u) tid →
  ∃ taken h p, (if si_flag IsUncondControl inst then
      let! (h, p) := dp_uncondBranch tid (pc_instAddr pc) (bp_dir u) in Ok (true, h, p)
    else dp_lookup tid (pc_instAddr pc) (bp_dir u)) = Ok (taken, h, p) ∧
    dir_step tid (bp_dir u) p ∧ dp_saved h = dp_history tid (bp_dir u) ∧ dp_saved_wf p h ∧
    blank (newHistory sn (pc_instAddr pc) taken h).
Proof.
  intros Hwf Ht. destruct (si_flag _ _).
  - destruct (dp_uncond_ok tid (pc_instAddr pc) _ (bw_dir u Hwf) Ht) as (h & p & -> & ? & ? & ? & ? & ? & ? & ?).
    by exists true, h, p.
  - destruct (dp_lookup_ok tid (pc_instAddr pc) _ (bw_dir u Hwf) Ht) as (b & h & p & -> & ? & ? & ? & ? & ? & ? & ?).
    by exists b, h, p.
Qed.

Lemma predict_ok inst sn pc tid u :
  bp_wf u → dp_thread (bp_dir u) tid →
  ∃ taken target u' e, predict inst sn pc tid u = Ok (taken, target, u') ∧
    predicted sn (pc_instAddr pc) tid u u' e.
Proof.
  intros Hwf Ht. unfold predict.
  destruct (direction_ok inst sn pc tid u Hwf Ht) as (taken & h & p & -> & Hstep & Hsave & Hswf & Hblank).
  pose proof (rw_size _ (bw_ras u Hwf tid)) as Hsz. destruct taken.
  - destruct (predictTarget_ok inst sn pc tid (newHistory sn (pc_instAddr pc) true h) (set_dir p u))
      as (tk & tg & e & u2 & -> & [H1 H2 H3 H4 H5 H6 H7 H8 H9 H10 [tgt H11]]);
      [by eapply set_dir_wf|by apply Hstep|done..|].
    cbn in H1, H2, H3, H4. do 4 eexists. split; [reflexivity|].
    split; try done; cbn; [by rewrite H6|by eapply dir_step_trans|by rewrite H3|rewrite H3; by apply H10|by eexists].
  - set (e0 := newHistory sn (pc_instAddr pc) false h) in *.
    exists false, (pc_advance inst pc), (set_predHist tid ((if si_flag IsReturn inst then set_wasReturn true e0 else e0)
      :: predHist (set_dir p u) tid) (set_dir p u)), (if si_flag IsReturn inst then set_wasReturn true e0 else e0).
    split; [done|].
    destruct (si_flag IsReturn inst); (split; first [done | cbn; lia | by apply step_none | by exists 0]).
Qed.

Lemma path_sorted_snoc {A} (f : A → Z) l x :
  StronglySorted Z.lt (f <$> l) → Forall (λ y, f y < f x) l → StronglySorted Z.lt (f <$> l ++ [x]).
Proof.
  intros Hs Hx. rewrite fmap_app. apply StronglySorted_app. split_and!; [|done|repeat constructor].
  intros a b (y & -> & Hy)%list_elem_of_fmap ->%list_elem_of_singleton. by eapply Forall_forall in Hx.
Qed.

Lemma predicted_wf sn a tid u u' e :
  bp_wf u → fresh sn tid u → predicted sn a tid u u' e → bp_wf u'.
Proof.
  intros [Hd Hb Hip Hr Hh Ho Hp Hi] [Hf1 Hf2] [P1 P2 P3 P4 P5 P6 P7 P8 P9 P10 [tgt P11]].
  destruct (ras_step_wf _ _ _ (Hr tid) P6) as [Hrw Hrn].
  assert (∀ t, ras_wf (RAS u' t) ∧ ras_numEntries (RAS u' t) = ras_numEntries (RAS u t)) as Hr'.
  { intros t. destruct (decide (t = tid)) as [->|Hne]; [done|]. by rewrite P7. }
  assert (∀ t, pathHist (threadInfo (iPred u') t) =
    pathHist (threadInfo (iPred u) t) ++
      (if decide (t = tid) then if wasIndirect e then [mkHistoryEntry a tgt sn] else [] else [])) as Hpath.
  { intros t. rewrite P11. destruct (wasIndirect e); [|destruct (decide _); by rewrite app_nil_r].
    cbn. destruct (decide (t = tid)) as [->|Hne]; [by rewrite fn_lookup_insert|].
    by rewrite fn_lookup_insert_ne, app_nil_r by done. }
  split; [apply P8|by rewrite P5| |intros t; by apply Hr'| | | |].
  - rewrite P11. destruct (wasIndirect e); [by apply on_thread_wf|done].
  - intros t. rewrite P3. destruct (decide (t = tid)) as [->|Hne].
    + rewrite fn_lookup_insert, (proj2 (Hr' tid)). constructor; [done|].
      eapply Forall_impl; [apply Hh|]. cbn. intros x [? ?]. split; [by apply P8|done].
    + rewrite fn_lookup_insert_ne, (proj2 (Hr' t)) by done.
      eapply Forall_impl; [apply Hh|]. cbn. intros x [? ?]. split; [by apply P8|done].
  - intros t. rewrite P3. destruct (decide (t = tid)) as [->|Hne]; [|by rewrite fn_lookup_insert_ne].
    rewrite fn_lookup_insert. cbn. constructor; [done|]. apply Forall_fmap.
    eapply Forall_impl; [apply Hf1|]. cbn. intros x ?. lia.
  - intros t. rewrite Hpath. destruct (decide (t = tid)) as [->|]; [|by rewrite app_nil_r].
    destruct (wasIndirect e); [|by rewrite app_nil_r]. by apply path_sorted_snoc.
  - intros t e'. rewrite P3, Hpath. destruct (decide (t = tid)) as [->|Hne].
    + rewrite fn_lookup_insert. intros [->|He]%elem_of_cons Hw.
      * rewrite Hw. eexists. split; [apply elem_of_app; right; by apply list_elem_of_singleton|]. by rewrite P1, P2.
      * destruct (Hi _ _ He Hw) as (x & ? & ?). exists x. split; [|done]. by apply elem_of_app; left.
    + rewrite fn_lookup_insert_ne, app_nil_r by done. apply Hi.
Qed.
End unit.
