(* ===== verification/BPredUndo.v ===== *)
(** * Squashing and committing branches

    What [squash] and [update] of [BPredUnit] do to a well-formed unit: they are
    defined and preserve the invariant; squashing undoes predictions. *)

From S2P Require Import Prelude Regs Config DynInst StoreSet DirPred DirPredOk BPred BPredRas BPredInv.

Local Open Scope Z_scope.

Section undo.
Context {PC : Type} {HPC : PcState PC}.
Context {P Hist : Type} {HP : DirPred P Hist} {HPok : DirPredOk P Hist}.
Implicit Types (u : BPredUnit PC P Hist) (e : PredictorHistory PC Hist) (tid t : ThreadID).

(** ** Squashing *)

Lemma undoRAS_ok e (r : ReturnAddrStack PC) :
  ras_wf r → 0 <= RASIndex e < ras_numEntries r →
  ∃ r', undoRAS e r = Ok r' ∧ ras_wf r' ∧ ras_numEntries r' = ras_numEntries r.
Proof.
  intros Hr Hi. unfold undoRAS. destruct (usedRAS e).
  - destruct (ras_restore_ok (RASIndex e) (RASTarget e) r Hr Hi) as (r' & ? & ? & ? & _). by exists r'.
  - destruct (_ && _); [|by exists r]. destruct (ras_pop_ok r Hr) as (? & ? & _). by eexists.
Qed.

Definition hist_wf (p : P) (n : Z) e : Prop :=
  dp_saved_wf p (bpHistory e) ∧ 0 <= RASIndex e < n.

Lemma hist_wf_step tid p p' n l : dir_step tid p p' → Forall (hist_wf p n) l → Forall (hist_wf p' n) l.
Proof. intros Hs H. eapply Forall_impl; [done|]. intros e [? ?]. split; [by apply Hs|done]. Qed.

(** The history register the oldest of the branches saved. *)
Definition oldest_saved tid (young : list (PredictorHistory PC Hist)) (p : P) : Z :=
  match last young with Some e => dp_saved (bpHistory e) | None => dp_history tid p end.

Lemma squashBranches_ok sn tid young : ∀ old r p,
  Forall (λ e, sn < ph_seqNum e) young →
  match old with [] => True | e :: _ => ph_seqNum e <= sn end →
  ras_wf r → dp_wf p → dp_thread p tid → Forall (hist_wf p (ras_numEntries r)) young →
  ∃ r' p', squashBranches sn tid (young ++ old) r p = Ok (old, r', p') ∧
    foldM (λ r e, undoRAS e r) young r = Ok r' ∧ ras_wf r' ∧ ras_numEntries r' = ras_numEntries r ∧
    dir_step tid p p' ∧ dp_history tid p' = oldest_saved tid young p.
Proof.
  induction young as [|e young IH]; intros old r p Hy Ho Hr Hp Ht Hh; cbn.
  - exists r, p. split; [|by split_and!; try apply dir_step_refl].
    destruct old as [|e old]; [done|]. cbn. by rewrite (proj2 (Z.ltb_ge _ _)).
  - apply Forall_cons in Hy as [Hye Hy]. apply Forall_cons in Hh as [[Hs Hi] Hh].
    rewrite (proj2 (Z.ltb_lt _ _)) by done.
    destruct (undoRAS_ok e r Hr Hi) as (r1 & -> & Hr1 & Hn1).
    destruct (dp_squash_ok tid (bpHistory e) p Hp Ht Hs) as (p1 & -> & Hp1 & Ht1 & Htab & Hsv & Hm & Hoth).
    assert (dir_step tid p p1) as Hstep by done.
    destruct (IH old r1 p1 Hy Ho Hr1 Hp1 (Ht1 _ Ht)) as (r2 & p2 & -> & Hf & Hr2 & Hn2 & Hstep2 & Hsv2).
    { rewrite Hn1. by eapply hist_wf_step. }
    exists r2, p2. split; [done|]. split; [done|]. split; [done|]. split; [congruence|].
    split; [by eapply dir_step_trans|]. rewrite Hsv2. unfold oldest_saved.
    destruct young as [|e' young]; [done|]. rewrite (last_cons e).
    destruct (last (e' :: young)) eqn:Hl; [done|]. by apply last_None in Hl.
Qed.

(** A history is split at a sequence number. *)
Lemma split_young sn (l : list (PredictorHistory PC Hist)) :
  ∃ young old, l = young ++ old ∧ Forall (λ e, sn < ph_seqNum e) young ∧
    match old with [] => True | e :: _ => ph_seqNum e <= sn end.
Proof.
  induction l as [|e l (young & old & -> & Hy & Ho)]; [by exists [], []|].
  destruct (decide (sn < ph_seqNum e)).
  - exists (e :: young), old. by split_and!; [|constructor|].
  - exists [], (e :: young ++ old). split; [done|]. split; [done|lia].
Qed.

Lemma old_sorted sn (old : list (PredictorHistory PC Hist)) :
  StronglySorted Z.gt (ph_seqNum <$> old) →
  match old with [] => True | e :: _ => ph_seqNum e <= sn end → Forall (λ e, ph_seqNum e <= sn) old.
Proof.
  destruct old as [|e old]; [done|]. cbn. intros [_ Hx]%StronglySorted_inv He. constructor; [done|].
  rewrite Forall_fmap in Hx. eapply Forall_impl; [apply Hx|]. cbn. intros x ?. lia.
Qed.

(** The path that is kept. *)
Lemma keepUntil_filter sn l :
  StronglySorted Z.lt (he_seqNum <$> l) → keepUntil sn l = filter (λ x, he_seqNum x <= sn) l.
Proof.
  induction l as [|x l IH]; [done|]. cbn [keepUntil]. rewrite fmap_cons. intros [Hs Hx]%StronglySorted_inv.
  destruct (Z.ltb_spec sn (he_seqNum x)) as [Hlt|Hge].
  - rewrite filter_cons_False by lia. symmetry. apply filter_none. rewrite Forall_fmap in Hx.
    eapply Forall_impl; [apply Hx|]. cbn. intros y ?. lia.
  - rewrite filter_cons_True by done. by rewrite IH.
Qed.

Lemma StronglySorted_fmap_filter {A} (f : A → Z) (Q : A → Prop) `{∀ x, Decision (Q x)} l :
  StronglySorted Z.lt (f <$> l) → StronglySorted Z.lt (f <$> filter Q l).
Proof.
  induction l as [|x l IH]; [done|]. rewrite fmap_cons. intros [Hs Hx]%StronglySorted_inv.
  destruct (decide (Q x)); [rewrite filter_cons_True by done|rewrite filter_cons_False by done; auto].
  cbn. constructor; [auto|]. rewrite Forall_fmap in *. rewrite Forall_forall in *.
  intros y [_ ?]%list_elem_of_filter. by apply Hx.
Qed.

(** What squashing leaves of the unit. *)
Record squashed (sn : InstSeqNum) tid young old u u' : Prop := {
  sq_split : predHist u tid = young ++ old;
  sq_young : Forall (λ e, sn < ph_seqNum e) young;
  sq_old : Forall (λ e, ph_seqNum e <= sn) old;
  sq_hist : predHist u' = <[tid := old]> (predHist u);
  sq_btb : BTB u' = BTB u;
  sq_ip : iPred u' = ip_squash sn tid (iPred u);
  sq_ras : foldM (λ r e, undoRAS e r) young (RAS u tid) = Ok (RAS u' tid);
  sq_ras_other : ∀ t, t ≠ tid → RAS u' t = RAS u t;
  sq_dir : dir_step tid (bp_dir u) (bp_dir u');
  sq_saved : dp_history tid (bp_dir u') = oldest_saved tid young (bp_dir u);
}.

Lemma bp_squash_split sn tid young old u :
  bp_wf u → dp_thread (bp_dir u) tid →
  predHist u tid = young ++ old → Forall (λ e, sn < ph_seqNum e) young →
  match old with [] => True | e :: _ => ph_seqNum e <= sn end →
  ∃ u', bp_squash sn tid u = Ok u' ∧ squashed sn tid young old u u' ∧
    ras_wf (RAS u' tid) ∧ ras_numEntries (RAS u' tid) = ras_numEntries (RAS u tid).
Proof.
  intros Hwf Ht Hs Hy Ho. unfold bp_squash. cbn [predHist set_iPred RAS bp_dir].
  destruct (squashBranches_ok sn tid young old (RAS u tid) (bp_dir u)) as (r & p & Heq & Hf & Hr & Hn & Hd & Hsv);
    [done|done|by apply bw_ras|by apply bw_dir|done| |].
  { pose proof (bw_hist u Hwf tid) as Hh. rewrite Hs in Hh. by apply Forall_app in Hh as [? _]. }
  rewrite Hs, Heq. eexists. split; [reflexivity|]. cbn. rewrite !fn_lookup_insert.
  split; [|done]. split; try done; cbn.
  - apply old_sorted; [|done]. pose proof (bw_order u Hwf tid) as Hsort.
    rewrite Hs, fmap_app in Hsort. by apply StronglySorted_app in Hsort as (_ & _ & ?).
  - by rewrite fn_lookup_insert.
  - intros t Hne. by rewrite fn_lookup_insert_ne.
Qed.

Lemma squashed_wf sn tid young old u u' :
  bp_wf u → squashed sn tid young old u u' →
  ras_wf (RAS u' tid) → ras_numEntries (RAS u' tid) = ras_numEntries (RAS u tid) → bp_wf u'.
Proof.
  intros [Hd Hb Hip Hr Hh Ho Hp Hi] [S1 S2 S3 S4 S5 S6 S7 S8 S9 S10] Hrw Hrn.
  assert (∀ t, ras_wf (RAS u' t) ∧ ras_numEntries (RAS u' t) = ras_numEntries (RAS u t)) as Hr'.
  { intros t. destruct (decide (t = tid)) as [->|Hne]; [done|]. by rewrite S8. }
  assert (∀ t, ∃ young', predHist u t = young' ++ predHist u' t) as Hsub.
  { intros t. rewrite S4. destruct (decide (t = tid)) as [->|Hne].
    - rewrite fn_lookup_insert. by exists young.
    - rewrite fn_lookup_insert_ne by done. by exists []. }
  assert (∀ t, pathHist (threadInfo (iPred u') t) =
    if decide (t = tid) then filter (λ x, he_seqNum x <= sn) (pathHist (threadInfo (iPred u) tid))
    else pathHist (threadInfo (iPred u) t)) as Hpath.
  { intros t. rewrite S6. cbn. destruct (decide (t = tid)) as [->|Hne].
    - rewrite fn_lookup_insert. cbn. by apply keepUntil_filter.
    - by rewrite fn_lookup_insert_ne. }
  split; [apply S9|by rewrite S5|rewrite S6; by apply on_thread_wf|intros t; by apply Hr'| | | |].
  - intros t. destruct (Hsub t) as [young' Hsplit]. specialize (Hh t). rewrite Hsplit in Hh.
    apply Forall_app in Hh as [_ Hh]. rewrite (proj2 (Hr' t)). by apply (hist_wf_step tid (bp_dir u)).
  - intros t. destruct (Hsub t) as [young' Hsplit]. specialize (Ho t).
    rewrite Hsplit, fmap_app in Ho. by apply StronglySorted_app in Ho as (_ & _ & ?).
  - intros t. rewrite Hpath. destruct (decide _); [by apply StronglySorted_fmap_filter|done].
  - intros t e He Hw. destruct (Hsub t) as [young' Hsplit].
    destruct (Hi t e) as (x & Hx & Hxs & Hxp); [rewrite Hsplit; set_solver|done|].
    exists x. split; [|done]. rewrite Hpath. destruct (decide (t = tid)) as [->|]; [|done].
    apply list_elem_of_filter. split; [|done]. rewrite Hxs.
    rewrite S4, fn_lookup_insert in He. by apply (proj1 (Forall_forall _ _) S3).
Qed.

Lemma bp_squash_ok sn tid u :
  bp_wf u → dp_thread (bp_dir u) tid →
  ∃ u' young old, bp_squash sn tid u = Ok u' ∧ squashed sn tid young old u u' ∧ bp_wf u'.
Proof.
  intros Hwf Ht. destruct (split_young sn (predHist u tid)) as (young & old & Hs & Hy & Ho).
  destruct (bp_squash_split sn tid young old u Hwf Ht Hs Hy Ho) as (u' & Hu & Hsq & Hr & Hn).
  exists u', young, old. split; [done|]. split; [done|]. by eapply squashed_wf.
Qed.

(** ** Committing *)

(** Trained with the recorded directions, the oldest first. *)
Definition trainAll tid (l : list (PredictorHistory PC Hist)) (p : P) : outcome P :=
  foldM (λ p e, dp_update tid (ph_pc e) (ph_predTaken e) (bpHistory e) false p) l p.

(** The registers stay. *)
Record dir_trained (p p' : P) : Prop := {
  dt_wf : dp_wf p';
  dt_threads : ∀ t, dp_thread p t → dp_thread p' t;
  dt_saved : ∀ h, dp_saved_wf p h → dp_saved_wf p' h;
  dt_history : ∀ t, dp_history t p' = dp_history t p;
}.

Lemma updateBranches_ok sn tid l : ∀ p,
  dp_wf p → dp_thread p tid → Forall (λ e, dp_saved_wf p (bpHistory e)) l →
  ∃ done rest p', l = done ++ rest ∧ updateBranches sn tid l p = Ok (rest, p') ∧ trainAll tid done p = Ok p' ∧
    Forall (λ e, ph_seqNum e <= sn) done ∧ match rest with [] => True | e :: _ => sn < ph_seqNum e end ∧
    dir_trained p p'.
Proof.
  induction l as [|e l IH]; intros p Hp Ht Hl; cbn.
  - exists [], [], p. by split_and!.
  - apply Forall_cons in Hl as [Hs Hl]. destruct (Z.leb_spec (ph_seqNum e) sn) as [Hle|Hlt].
    + destruct (dp_update_ok tid (ph_pc e) (ph_predTaken e) (bpHistory e) false p Hp Ht Hs)
        as (p1 & Heq & Hp1 & Ht1 & _ & Hh & Hsv & _). rewrite Heq.
      destruct (IH p1 Hp1 (Ht1 _ Ht)) as (dn & rest & p2 & -> & -> & Htr & Hd & Hr & [D1 D2 D3 D4]).
      { eapply Forall_impl; [done|]. auto. }
      exists (e :: dn), rest, p2. split; [done|]. split; [done|].
      split; [by unfold trainAll; cbn; rewrite Heq|].
      split; [by constructor|]. split; [done|]. split; auto. intros t. rewrite D4. by apply Hh.
    + exists [], (e :: l), p. by split_and!.
Qed.

(** What committing leaves of the unit. *)
Record committedTo (sn : InstSeqNum) tid (dn : list (PredictorHistory PC Hist)) u u' : Prop := {
  ct_split : predHist u tid = predHist u' tid ++ reverse dn;
  ct_done : Forall (λ e, ph_seqNum e <= sn) dn;
  ct_rest : Forall (λ e, sn < ph_seqNum e) (predHist u' tid);
  ct_other : ∀ t, t ≠ tid → predHist u' t = predHist u t;
  ct_trained : trainAll tid dn (bp_dir u) = Ok (bp_dir u');
  ct_dir : dir_trained (bp_dir u) (bp_dir u');
  ct_btb : BTB u' = BTB u;
  ct_ras : RAS u' = RAS u;
  ct_ip : iPred u' = ip_commit sn tid (iPred u);
}.

Lemma reverse_sorted (l : list Z) : StronglySorted Z.gt l → StronglySorted Z.lt (reverse l).
Proof.
  induction 1 as [|x l Hl IH Hx]; [constructor|]. rewrite reverse_cons.
  apply StronglySorted_app. split_and!; [|done|repeat constructor].
  intros a b Ha ->%list_elem_of_singleton. rewrite elem_of_reverse in Ha.
  pose proof (proj1 (Forall_forall _ _) Hx a Ha). cbn in *. lia.
Qed.

Lemma bp_update_step sn tid u :
  bp_wf u → dp_thread (bp_dir u) tid → ∃ dn u', bp_update sn tid u = Ok u' ∧ committedTo sn tid dn u u'.
Proof.
  intros Hwf Ht. unfold bp_update. cbn [predHist set_iPred bp_dir].
  destruct (updateBranches_ok sn tid (reverse (predHist u tid)) (bp_dir u) (bw_dir u Hwf) Ht)
    as (dn & rest & p & Hl & -> & Htr & Hd & Hr & Hdir).
  { apply Forall_reverse. eapply Forall_impl; [apply (bw_hist u Hwf)|]. by intros e [? _]. }
  exists dn. eexists. split; [reflexivity|].
  assert (predHist u tid = reverse rest ++ reverse dn) as Hsplit
    by (by rewrite <- reverse_app, <- Hl, reverse_involutive).
  split; try done; cbn; rewrite ?fn_lookup_insert; try done.
  - apply Forall_reverse. pose proof (reverse_sorted _ (bw_order u Hwf tid)) as Hs.
    rewrite <- fmap_reverse, Hl, fmap_app in Hs. apply StronglySorted_app in Hs as (_ & _ & Hs).
    destruct rest as [|e rest]; [done|]. rewrite fmap_cons in Hs. apply StronglySorted_inv in Hs as [_ Hs].
    constructor; [done|]. rewrite Forall_fmap in Hs. eapply Forall_impl; [apply Hs|]. cbn. intros x ?. lia.
  - intros t Hne. by rewrite fn_lookup_insert_ne.
Qed.

(** The path loses entries of committed branches only. *)
Lemma ip_commit_path sn tid (p : IndirectPredictor PC) t :
  StronglySorted Z.lt (he_seqNum <$> pathHist (threadInfo p t)) →
  StronglySorted Z.lt (he_seqNum <$> pathHist (threadInfo (ip_commit sn tid p) t)) ∧
  ∀ x, x ∈ pathHist (threadInfo p t) → sn < he_seqNum x ∨ t ≠ tid →
    x ∈ pathHist (threadInfo (ip_commit sn tid p) t).
Proof.
  intros Hs. unfold ip_commit, on_thread. cbn. destruct (decide (t = tid)) as [->|Hne].
  2: { by rewrite fn_lookup_insert_ne. }
  rewrite fn_lookup_insert. destruct (pathHist (threadInfo p tid) !! _) as [y|] eqn:Hy; [|by split; auto].
  destruct (Z.leb_spec (he_seqNum y) sn) as [Hle|]; [|by split; auto].
  destruct (_ <=? _); [|by split; auto]. cbn.
  destruct (pathHist (threadInfo p tid)) as [|z l]; [done|]. cbn. rewrite fmap_cons in Hs.
  apply StronglySorted_inv in Hs as [Hs Hz]. split; [done|]. intros x Hx [Hlt|]; [|done].
  apply elem_of_cons in Hx as [->|]; [exfalso|done]. rewrite Forall_fmap in Hz.
  destruct (Z.to_nat _) as [|k] in Hy; cbn in Hy; [simplify_eq; lia|].
  pose proof (proj1 (Forall_lookup _ _) Hz _ _ Hy) as Hzy. cbn in Hzy. lia.
Qed.

Lemma committedTo_wf sn tid dn u u' : bp_wf u → committedTo sn tid dn u u' → bp_wf u'.
Proof.
  intros [Hd Hb Hip Hr Hh Ho Hp Hi] [C1 C2 C3 C4 C5 C6 C7 C8 C9].
  assert (∀ t, ∃ old, predHist u t = predHist u' t ++ old) as Hsub.
  { intros t. destruct (decide (t = tid)) as [->|Hne]; [by eexists|]. exists []. by rewrite app_nil_r, C4. }
  split; [apply C6|by rewrite C7|rewrite C9; by apply on_thread_wf|by rewrite C8| | | |].
  - intros t. destruct (Hsub t) as [old Hs]. specialize (Hh t). rewrite Hs in Hh. apply Forall_app in Hh as [Hh _].
    rewrite C8. eapply Forall_impl; [apply Hh|]. cbn. intros e [? ?]. split; [by apply C6|done].
  - intros t. destruct (Hsub t) as [old Hs]. specialize (Ho t). rewrite Hs, fmap_app in Ho.
    by apply StronglySorted_app in Ho as (_ & ? & _).
  - intros t. rewrite C9. by apply ip_commit_path.
  - intros t e He Hw. destruct (Hsub t) as [old Hs].
    destruct (Hi t e) as (x & Hx & Hxs & Hxp); [rewrite Hs; set_solver|done|].
    exists x. split; [|done]. rewrite C9. apply ip_commit_path; [apply Hp|done|].
    destruct (decide (t = tid)) as [->|]; [left|by right]. rewrite Hxs. by apply (proj1 (Forall_forall _ _) C3).
Qed.

(** ** Mispredictions *)

(** The youngest entry of a path whose entries are not younger than it. *)
Lemma path_last (l : list HistoryEntry) x :
  StronglySorted Z.lt (he_seqNum <$> l) → x ∈ l → Forall (λ y, he_seqNum y <= he_seqNum x) l →
  ∃ before, l = before ++ [x].
Proof.
  intros Hs (l1 & l2 & ->)%list_elem_of_split Hle. exists l1. destruct l2 as [|y l2]; [done|exfalso].
  rewrite fmap_app in Hs. apply StronglySorted_app in Hs as (_ & _ & Hs). rewrite fmap_cons in Hs.
  apply StronglySorted_inv in Hs as [_ Hx]. rewrite Forall_fmap in Hx.
  pose proof (proj1 (Forall_forall _ _) Hx y ltac:(set_solver)) as H1. cbn in H1.
  pose proof (proj1 (Forall_forall _ _) Hle y ltac:(set_solver)) as H2. cbn in H2. lia.
Qed.

(** After the squash: the mispredicted branch [e] is the youngest of the history. *)
Definition youngest sn tid e l u : Prop :=
  bp_wf u ∧ dp_thread (bp_dir u) tid ∧ predHist u tid = e :: l ∧ ph_seqNum e = sn ∧
  Forall (λ x, he_seqNum x <= sn) (pathHist (threadInfo (iPred u) tid)).

Lemma youngest_path sn tid e l u :
  youngest sn tid e l u → wasIndirect e = true →
  ∃ before x, pathHist (threadInfo (iPred u) tid) = before ++ [x] ∧ he_seqNum x = sn ∧ pcAddr x = ph_pc e.
Proof.
  intros (Hwf & Ht & Hh & Hsn & Hp) Hw.
  destruct (bw_indirect u Hwf tid e) as (x & Hx & Hxs & Hxp); [rewrite Hh; set_solver|done|].
  destruct (path_last _ x (bw_path u Hwf tid) Hx) as [before Hb]; [by rewrite Hxs, Hsn|].
  exists before, x. split_and!; [done|congruence|done].
Qed.

(** The rest of [squash(squashed_sn, corrTarget, actually_taken, tid)]. *)
Definition correct (corrTarget : PC) (taken : bool) tid e (l : list (PredictorHistory PC Hist)) u
  : outcome (BPredUnit PC P Hist) :=
  let ghr := dp_getGHR (P := P) tid (bpHistory e) in
  let e := set_ph_predTaken taken e in
  let! p := dp_update tid (ph_pc e) taken (bpHistory e) true (bp_dir u) in
  let u := set_dir p u in
  let! (e, u) :=
    if taken then
      let (e, u) := if wasReturn e && negb (usedRAS e)
                    then (set_usedRAS true e, set_RAS tid (ras_pop (RAS u tid)) u) else (e, u) in
      if wasIndirect e then
        let! ip := recordTarget (ph_seqNum e) ghr corrTarget tid (iPred u) in Ok (e, set_iPred ip u)
      else
        let! b := btb_update (ph_pc e) corrTarget tid (BTB u) in Ok (e, set_BTB b u)
    else if usedRAS e then
      let! r := ras_restore (RASIndex e) (RASTarget e) (RAS u tid) in
      Ok (set_usedRAS false e, set_RAS tid r u)
    else if wasCall e && pushedRAS e then
      Ok (set_pushedRAS false e, set_RAS tid (ras_pop (RAS u tid)) u)
    else Ok (e, u) in
  Ok (set_predHist tid (e :: l) u).

(** The records of the branch before and after. *)
Definition same_branch e e' : Prop :=
  ph_seqNum e' = ph_seqNum e ∧ ph_pc e' = ph_pc e ∧ bpHistory e' = bpHistory e ∧ RASIndex e' = RASIndex e ∧
  wasIndirect e' = wasIndirect e.

Record corrected corrTarget taken tid e l u u' : Prop := {
  co_hist : ∃ e', same_branch e e' ∧ ph_predTaken e' = taken ∧ predHist u' = <[tid := e' :: l]> (predHist u);
  co_dir : dir_step tid (bp_dir u) (bp_dir u');
  co_ras : ∀ t, ras_wf (RAS u' t) ∧ ras_numEntries (RAS u' t) = ras_numEntries (RAS u t);
  co_btb : if taken && negb (wasIndirect e) then btb_update (ph_pc e) corrTarget tid (BTB u) = Ok (BTB u')
           else BTB u' = BTB u;
  co_ip : if taken && wasIndirect e then
            recordTarget (ph_seqNum e) (dp_getGHR (P := P) tid (bpHistory e)) corrTarget tid (iPred u)
            = Ok (iPred u')
          else iPred u' = iPred u;
}.

Lemma set_RAS_wf tid r u (t : ThreadID) :
  bp_wf u → ras_wf r → ras_numEntries r = ras_numEntries (RAS u tid) →
  ras_wf (RAS (set_RAS tid r u) t) ∧ ras_numEntries (RAS (set_RAS tid r u) t) = ras_numEntries (RAS u t).
Proof.
  intros Hwf Hr Hn. cbn. destruct (decide (t = tid)) as [->|Hne]; [by rewrite fn_lookup_insert|].
  rewrite fn_lookup_insert_ne by done. split; [by apply bw_ras|done].
Qed.

Lemma correct_ok sn corrTarget taken tid e l u :
  youngest sn tid e l u → ∃ u', correct corrTarget taken tid e l u = Ok u' ∧ corrected corrTarget taken tid e l u u'.
Proof.
  intros Hy. pose proof Hy as (Hwf & Ht & Hh & Hsn & _). unfold correct.
  pose proof (bw_hist u Hwf tid) as Hf. rewrite Hh in Hf. apply Forall_cons in Hf as [[Hs Hi] _].
  destruct (dp_update_ok tid (ph_pc e) taken (bpHistory e) true (bp_dir u) (bw_dir u Hwf) Ht Hs)
    as (p & Hp & H1 & H2 & H3 & _ & H5 & H6).
  cbn [ph_pc bpHistory set_ph_predTaken]. rewrite Hp.
  assert (dir_step tid (bp_dir u) p) as Hstep by (split; auto). clear H1 H2 H3 H5 H6 Hp.
  assert (∀ t, ras_wf (RAS u t) ∧ ras_numEntries (RAS u t) = ras_numEntries (RAS u t)) as Hras
    by (intros t; split; [by apply bw_ras|done]).
  destruct (ras_pop_ok _ (bw_ras u Hwf tid)) as (Hpop & Hpopn & _).
  pose proof (λ t, set_RAS_wf tid _ u t Hwf Hpop Hpopn) as Hras1.
  destruct taken.
  - assert (∃ ip, if wasIndirect e then
        recordTarget (ph_seqNum e) (dp_getGHR (P := P) tid (bpHistory e)) corrTarget tid (iPred u) = Ok ip
      else ip = iPred u) as [ip Hip].
    { destruct (wasIndirect e) eqn:Hw; [|by eexists]. destruct (youngest_path _ _ _ _ _ Hy Hw) as (before & x & Hb & _).
      destruct (recordTarget_ok (ph_seqNum e) (dp_getGHR (P := P) tid (bpHistory e)) corrTarget tid (iPred u) before x
        (bw_ip u Hwf) Hb) as (? & ? & ? & ? & _ & _ & _ & _ & ->). by eexists. }
    pose proof (btb_update_ok (ph_pc e) corrTarget tid (BTB u) (bw_btb u Hwf)) as Hbtb.
    set (b := set_btb _ _) in Hbtb. clearbody b.
    destruct (wasReturn (set_ph_predTaken true e) && _); cbn; destruct (wasIndirect e) eqn:Hw; rewrite ?Hip, ?Hbtb;
      eexists; (split; [reflexivity|]); (split; cbn; rewrite ?Hw; try done; eexists; (split; [|split; [|reflexivity]]); done).
  - cbn. destruct (usedRAS e).
    + destruct (ras_restore_ok (RASIndex e) (RASTarget e) _ (bw_ras u Hwf tid) Hi) as (r & -> & Hr & Hn & _).
      eexists. split; [reflexivity|]. pose proof (λ t, set_RAS_wf tid r u t Hwf Hr Hn).
      split; cbn; try done. eexists; (split; [|split; [|reflexivity]]); done.
    + destruct (wasCall e && pushedRAS e); eexists; (split; [reflexivity|]); (split; cbn; try done;
        eexists; (split; [|split; [|reflexivity]]); done).
Qed.

Definition path_key (x : HistoryEntry) : InstSeqNum * Addr := (he_seqNum x, pcAddr x).

Lemma recordTarget_wf sn ghr target tid (p p' : IndirectPredictor PC) before x :
  ip_wf p → pathHist (threadInfo p tid) = before ++ [x] → recordTarget sn ghr target tid p = Ok p' →
  ip_wf p' ∧ ∀ t, path_key <$> pathHist (threadInfo p' t) = path_key <$> pathHist (threadInfo p t).
Proof.
  intros Hp Hb H. destruct (recordTarget_ok sn ghr target tid p before x Hp Hb) as (i & s & k & calls & _ & Hs & _ & _ & Heq).
  rewrite Heq in H. injection H as <-. split; [apply (set_targetCache_wf (on_thread _ _ p)); [by apply on_thread_wf|done]|].
  intros t. cbn. destruct (decide (t = tid)) as [->|Hne]; [|by rewrite fn_lookup_insert_ne].
  rewrite fn_lookup_insert, Hb. cbn [pathHist]. by rewrite !fmap_app.
Qed.

Lemma corrected_ip sn corrTarget taken tid e l u u' :
  youngest sn tid e l u → corrected corrTarget taken tid e l u u' →
  ip_wf (iPred u') ∧ ∀ t, path_key <$> pathHist (threadInfo (iPred u') t) = path_key <$> pathHist (threadInfo (iPred u) t).
Proof.
  intros Hy [_ _ _ _ Hip]. pose proof Hy as (Hwf & _). destruct (taken && wasIndirect e) eqn:Hw.
  - apply andb_true_iff in Hw as [-> Hw]. destruct (youngest_path _ _ _ _ _ Hy Hw) as (before & x & Hb & _).
    eapply recordTarget_wf; [by apply bw_ip|exact Hb|exact Hip].
  - rewrite Hip. by split; [apply bw_ip|].
Qed.

Lemma corrected_wf sn corrTarget taken tid e l u u' :
  youngest sn tid e l u → corrected corrTarget taken tid e l u u' → bp_wf u'.
Proof.
  intros Hy Hc. pose proof (corrected_ip _ _ _ _ _ _ _ _ Hy Hc) as [Hip' Hpath].
  destruct Hy as (Hwf & Ht & Hhd & _). destruct Hwf as [Hd Hb Hip Hr Hh Ho Hp Hi].
  destruct Hc as [(e' & (E1 & E2 & E3 & E4 & E5) & _ & C1) C2 C3 C4 _].
  assert (∀ t f, (f <$> predHist u' t : list Z) = f <$> predHist u t ∨ t = tid ∧ predHist u' t = e' :: l) as Hsame.
  { intros t f. rewrite C1. destruct (decide (t = tid)) as [->|Hne].
    - right. by rewrite fn_lookup_insert.
    - left. by rewrite fn_lookup_insert_ne. }
  assert (∀ t x, x ∈ predHist u' t → ∃ y, y ∈ predHist u t ∧ same_branch y x) as Hbr.
  { intros t x. rewrite C1. destruct (decide (t = tid)) as [->|Hne].
    - rewrite fn_lookup_insert, Hhd. intros [->|Hx]%elem_of_cons.
      + exists e. by split; [set_solver|].
      + exists x. by split; [set_solver|].
    - rewrite fn_lookup_insert_ne by done. intros Hx. by exists x. }
  split; [apply C2| |done|intros t; by apply C3| | | |].
  - destruct (taken && _); [|by rewrite C4]. rewrite btb_update_ok in C4 by done. injection C4 as <-. by apply set_btb_wf.
  - intros t. apply Forall_forall. intros x Hx. destruct (Hbr t x Hx) as (y & Hy & _ & _ & Hb3 & Hb4 & _).
    pose proof (proj1 (Forall_forall _ _) (Hh t) y Hy) as [H1 H2]. rewrite Hb3, Hb4, (proj2 (C3 t)).
    split; [by apply C2|done].
  - intros t. destruct (Hsame t ph_seqNum) as [->|[-> ->]]; [done|].
    specialize (Ho tid). rewrite Hhd in Ho. cbn in *. by rewrite E1.
  - intros t. specialize (Hp t). specialize (Hpath t).
    assert (∀ q, he_seqNum <$> q = fst <$> (path_key <$> q)) as Hk by (intros q; by rewrite <- list_fmap_compose).
    by rewrite Hk, Hpath, <- Hk.
  - intros t x Hx Hw. destruct (Hbr t x Hx) as (y & Hy & Hb1 & Hb2 & _ & _ & Hb5).
    destruct (Hi t y Hy) as (z & Hz & Hz1 & Hz2); [congruence|].
    assert (path_key z ∈ path_key <$> pathHist (threadInfo (iPred u') t)) as (z' & Hk & Hz')%list_elem_of_fmap.
    { rewrite Hpath. apply list_elem_of_fmap. by exists z. }
    exists z'. split; [done|]. unfold path_key in Hk. simplify_eq. split; congruence.
Qed.

(** The cases of a mispredicted branch: the unit has forgotten everything up to
    it, or it is the youngest left. *)
Lemma bp_squashMispredict_ok sn corrTarget taken tid u :
  bp_wf u → dp_thread (bp_dir u) tid →
  (∃ e, e ∈ predHist u tid ∧ ph_seqNum e = sn) ∨ Forall (λ e, sn < ph_seqNum e) (predHist u tid) →
  ∃ u' u1 young old, bp_squashMispredict sn corrTarget taken tid u = Ok u' ∧ bp_wf u' ∧
    squashed sn tid young old u u1 ∧
    match old with
    | [] => u' = u1
    | e :: l => youngest sn tid e l u1 ∧ corrected corrTarget taken tid e l u1 u'
    end.
Proof.
  intros Hwf Ht Hin. destruct (bp_squash_ok sn tid u Hwf Ht) as (u1 & young & old & Hs & Hsq & Hwf1).
  unfold bp_squashMispredict. rewrite Hs. pose proof Hsq as [S1 S2 S3 S4 S5 S6 S7 S8 S9 S10].
  assert (predHist u1 tid = old) as -> by (by rewrite S4, fn_lookup_insert). destruct old as [|e l].
  { exists u1, u1, young, []. by split_and!. }
  assert (ph_seqNum e = sn) as He.
  { apply Forall_cons in S3 as [S3 S3']. pose proof (bw_order u1 Hwf1 tid) as Ho.
    rewrite S4, fn_lookup_insert, fmap_cons in Ho. apply StronglySorted_inv in Ho as [_ Ho]. rewrite Forall_fmap in Ho.
    destruct Hin as [(x & Hx & Hxs)|Hall].
    - rewrite S1 in Hx. apply elem_of_app in Hx as [Hx|[->|Hx]%elem_of_cons].
      + pose proof (proj1 (Forall_forall _ _) S2 x Hx) as ?. cbn in *. lia.
      + done.
      + pose proof (proj1 (Forall_forall _ _) Ho x Hx) as ?. cbn in *. lia.
    - rewrite S1 in Hall. apply Forall_app in Hall as [_ Hall]. apply Forall_cons in Hall as [Hall _]. lia. }
  assert (youngest sn tid e l u1) as Hy.
  { split; [done|]. split; [by apply S9|]. split; [by rewrite S4, fn_lookup_insert|]. split; [done|].
    rewrite S6. cbn. rewrite fn_lookup_insert. cbn. rewrite keepUntil_filter by (by apply bw_path).
    apply Forall_forall. by intros x [? _]%list_elem_of_filter. }
  rewrite (proj2 (Z.eqb_eq _ _) He). destruct (correct_ok sn corrTarget taken tid e l u1 Hy) as (u' & Hu & Hc).
  exists u', u1, young, (e :: l). split; [exact Hu|]. split; [by eapply corrected_wf|by split].
Qed.
End undo.
