(* ===== verification/BPredSafe.v ===== *)
(** * What the branch prediction unit promises

    No operation of a well-formed unit fails; wrong-path predictions are undone by
    the squash and leave the trained data alone; a mispredicted branch is
    predicted with its right target the next time; and the direction a branch
    without a known target is trained with. *)

From S2P Require Import Prelude Regs Config DynInst StoreSet DirPred DirPredOk BPred BPredRas BPredInv BPredUndo.

Local Open Scope Z_scope.

Section safe.
Context {PC : Type} {HPC : PcState PC}.
Context {P Hist : Type} {HP : DirPred P Hist} {HPok : DirPredOk P Hist}.
Implicit Types (u : BPredUnit PC P Hist) (e : PredictorHistory PC Hist) (tid t : ThreadID).

(** C40: The unit never fails.  On a well-formed unit and a thread it has
    registers for, predicting a branch that is younger than all it remembers,
    committing, squashing, and correcting a misprediction of a branch that is still in the
    history (or older than all of it) succeed and leave the unit well formed:
    no assertion fails and no table is accessed out of range. *)
Theorem bpred_total u tid (Hwf : bp_wf u) (Ht : dp_thread (bp_dir u) tid) :
  (∀ inst sn pc, fresh sn tid u → ∃ taken target u', predict inst sn pc tid u = Ok (taken, target, u') ∧ bp_wf u') ∧
  (∀ sn, ∃ u', bp_update sn tid u = Ok u' ∧ bp_wf u') ∧
  (∀ sn, ∃ u', bp_squash sn tid u = Ok u' ∧ bp_wf u') ∧
  (∀ sn target taken,
    (∃ e, e ∈ predHist u tid ∧ ph_seqNum e = sn) ∨ Forall (λ e, sn < ph_seqNum e) (predHist u tid) →
    ∃ u', bp_squashMispredict sn target taken tid u = Ok u' ∧ bp_wf u').
Proof.
  split; [|split; [|split]].
  - intros inst sn pc Hf. destruct (predict_ok inst sn pc tid u Hwf Ht) as (tk & tg & u' & e & Hp & Hpd).
    exists tk, tg, u'. split; [done|]. by eapply predicted_wf.
  - intros sn. destruct (bp_update_step sn tid u Hwf Ht) as (dn & u' & Hu & Hc).
    exists u'. split; [done|]. by eapply committedTo_wf.
  - intros sn. destruct (bp_squash_ok sn tid u Hwf Ht) as (u' & young & old & Hu & _ & ?). by exists u'.
  - intros sn target taken Hin.
    destruct (bp_squashMispredict_ok sn target taken tid u Hwf Ht Hin) as (u' & _ & _ & _ & ? & ? & _). by exists u'.
Qed.

(** ** Wrong paths *)

Definition predictAll tid (l : list (StaticInst * InstSeqNum * PC)) u : outcome (BPredUnit PC P Hist) :=
  foldM (λ u '(inst, sn, pc), let! (_, _, u) := predict inst sn pc tid u in Ok u) l u.

(** The branches [es], the youngest first, have been predicted. *)
Record predictions tid sn es u u' : Prop := {
  pr_wf : bp_wf u';
  pr_thread : dp_thread (bp_dir u') tid;
  pr_hist : predHist u' tid = es ++ predHist u tid;
  pr_hist_other : ∀ t, t ≠ tid → predHist u' t = predHist u t;
  pr_young : Forall (λ e, sn < ph_seqNum e) es;
  pr_btb : BTB u' = BTB u;
  pr_cache : targetCache (iPred u') = targetCache (iPred u);
  pr_head : ∀ t, headHistEntry (threadInfo (iPred u') t) = headHistEntry (threadInfo (iPred u) t);
  pr_path : ∃ xs, pathHist (threadInfo (iPred u') tid) = pathHist (threadInfo (iPred u) tid) ++ xs ∧
    Forall (λ x, sn < he_seqNum x) xs;
  pr_path_other : ∀ t, t ≠ tid → pathHist (threadInfo (iPred u') t) = pathHist (threadInfo (iPred u) t);
  pr_ras : ras_steps es (RAS u tid) (RAS u' tid);
  pr_ras_other : ∀ t, t ≠ tid → RAS u' t = RAS u t;
  pr_dir : dir_step tid (bp_dir u) (bp_dir u');
  pr_saved : oldest_saved tid es (bp_dir u') = dp_history tid (bp_dir u) ∨ es = [] ∧ u' = u;
}.

Lemma predictions_nil tid sn u : bp_wf u → dp_thread (bp_dir u) tid → predictions tid sn [] u u.
Proof.
  intros Hwf Ht. split; try done; [exists []; by rewrite app_nil_r|constructor|by apply dir_step_refl, bw_dir|by right].
Qed.

Lemma predictions_snoc tid sn es u u1 u2 a e :
  predictions tid sn es u u1 → sn < ph_seqNum e → fresh (ph_seqNum e) tid u1 →
  predicted (ph_seqNum e) a tid u1 u2 e → predictions tid sn (e :: es) u u2.
Proof.
  intros [R1 R2 R3 R4 R5 R6 R7 R8 (xs & R9 & R9') R10 R11 R12 R13 R14] Hsn Hf Hp.
  pose proof (predicted_wf _ _ _ _ _ _ R1 Hf Hp) as Hwf.
  destruct Hp as [P1 P2 P3 P4 P5 P6 P7 P8 P9 P10 [tgt P11]].
  assert (∀ t, ∃ ys, pathHist (threadInfo (iPred u2) t) = pathHist (threadInfo (iPred u1) t) ++ ys ∧
      (t ≠ tid → ys = []) ∧ Forall (λ x, sn < he_seqNum x) ys) as Hpath.
  { intros t. rewrite P11. destruct (wasIndirect e); [|exists []; rewrite app_nil_r; by split_and!].
    cbn. destruct (decide (t = tid)) as [->|Hne].
    - rewrite fn_lookup_insert. eexists. split; [reflexivity|]. split; [done|]. by repeat constructor.
    - rewrite fn_lookup_insert_ne by done. exists []. rewrite app_nil_r. by split_and!. }
  split; [done|by apply P8| | |by constructor|congruence| | | | |by econstructor| |by eapply dir_step_trans|].
  - rewrite P3, fn_lookup_insert, R3. done.
  - intros t Hne. rewrite P3, fn_lookup_insert_ne by done. by apply R4.
  - rewrite P11. by destruct (wasIndirect e).
  - intros t. rewrite <- R8, P11. destruct (wasIndirect e); [|done]. cbn.
    destruct (decide (t = tid)) as [->|Hne]; [by rewrite fn_lookup_insert|by rewrite fn_lookup_insert_ne].
  - destruct (Hpath tid) as (ys & -> & _ & Hys). rewrite R9, <- app_assoc. exists (xs ++ ys).
    split; [done|]. by apply Forall_app.
  - intros t Hne. destruct (Hpath t) as (ys & -> & Hnil & _). by rewrite (Hnil Hne), app_nil_r, R10.
  - intros t Hne. by rewrite P7, R12.
  - left. unfold oldest_saved in *. destruct es as [|e' es]; cbn [last].
    + rewrite P9. by destruct R14 as [?|[_ ->]].
    + destruct R14 as [R14|[? _]]; [|done]. rewrite <- R14. change (last (e :: e' :: es)) with (last (e' :: es)).
      destruct (last (e' :: es)) eqn:Hl; [done|by apply last_None in Hl].
Qed.

(** The numbers ascend from [sn]. *)
Definition ascending (sn : InstSeqNum) (l : list (StaticInst * InstSeqNum * PC)) : Prop :=
  StronglySorted Z.lt (sn :: ((λ x, x.1.2) <$> l)).

Lemma predictAll_ok tid sn l : ∀ es u u1 m,
  predictions tid sn es u u1 → sn <= m → ascending m l →
  Forall (λ e, ph_seqNum e <= m) (predHist u1 tid) →
  Forall (λ x, he_seqNum x <= m) (pathHist (threadInfo (iPred u1) tid)) →
  ∃ es' u2, predictAll tid l u1 = Ok u2 ∧ predictions tid sn (es' ++ es) u u2 ∧ length es' = length l.
Proof.
  induction l as [|[[inst n] pc] l IH]; intros es u u1 m Hpr Hm Hasc Hh Hx.
  - by exists [], u1.
  - unfold ascending in Hasc. rewrite fmap_cons in Hasc. apply StronglySorted_inv in Hasc as [Hasc Hlt].
    apply Forall_cons in Hlt as [Hlt _]. cbn in Hlt, Hasc.
    destruct (predict_ok inst n pc tid u1 (pr_wf _ _ _ _ _ Hpr) (pr_thread _ _ _ _ _ Hpr))
      as (tk & tg & u2 & e & Hp & Hpd).
    pose proof (pd_seqNum _ _ _ _ _ _ Hpd) as <-.
    assert (fresh (ph_seqNum e) tid u1) as Hf.
    { split; (eapply Forall_impl; [done|]); cbn; intros ? ?; lia. }
    assert (predictions tid sn (e :: es) u u2) as Hpr2 by (eapply predictions_snoc; [done|lia|done|done]).
    destruct (IH (e :: es) u u2 (ph_seqNum e) Hpr2) as (es' & u3 & Hu3 & Hpr3 & Hl); [lia|done| | |].
    + rewrite (pd_hist _ _ _ _ _ _ Hpd), fn_lookup_insert. constructor; [done|].
      eapply Forall_impl; [apply Hf|]. cbn. intros ? ?. lia.
    + destruct (pd_path _ _ _ _ _ _ Hpd) as [tgt ->].
      assert (Forall (λ x, he_seqNum x <= ph_seqNum e) (pathHist (threadInfo (iPred u1) tid))) as Hx'
        by (eapply Forall_impl; [apply Hf|]; cbn; intros ? ?; lia).
      destruct (wasIndirect e); [|done]. cbn. rewrite fn_lookup_insert. cbn.
      apply Forall_app. split; [done|]. by repeat constructor.
    + exists (es' ++ [e]), u3. unfold predictAll in *. cbn [foldM]. rewrite Hp. split; [done|].
      rewrite <- app_assoc. split; [done|]. rewrite length_app. cbn. lia.
Qed.

(** C28: Squashing undoes predictions.  Whatever branches a wrong path predicts
    after [sn], squashing back to [sn] restores every thread's list of branches in flight,
    its global history register in the direction predictor, its indirect path and the top
    of its return address stack, and of the entries of that stack the youngest, all but as
    many as calls were predicted.  The saturating counters, the branch target buffer and
    the indirect targets are those from before.  The table of local histories that the
    tournament predictor keeps besides is no part of this claim: it is not always restored
    ([local_history_lost]). *)
Theorem squash_undoes_predictions (sn : InstSeqNum) tid u (l : list (StaticInst * InstSeqNum * PC))
    (Hwf : bp_wf u) (Ht : dp_thread (bp_dir u) tid)
    (Hold : Forall (λ e, ph_seqNum e <= sn) (predHist u tid))
    (Hpath : Forall (λ x, he_seqNum x <= sn) (pathHist (threadInfo (iPred u) tid)))
    (Hasc : ascending sn l) :
  ∃ u1 u2, predictAll tid l u = Ok u1 ∧ bp_squash sn tid u1 = Ok u2 ∧
    (∀ t, predHist u2 t = predHist u t ∧
      dp_history t (bp_dir u2) = dp_history t (bp_dir u) ∧
      threadInfo (iPred u2) t = threadInfo (iPred u) t ∧
      tos (RAS u2 t) = tos (RAS u t)) ∧
    (∀ d, 0 <= d < ras_numEntries (RAS u tid) - calls (take (length l) (predHist u1 tid)) →
       slot (RAS u2 tid) d = slot (RAS u tid) d) ∧
    dp_tables (bp_dir u2) = dp_tables (bp_dir u) ∧ BTB u2 = BTB u ∧
    targetCache (iPred u2) = targetCache (iPred u).
Proof.
  destruct (predictAll_ok tid sn l [] u u sn (predictions_nil tid sn u Hwf Ht)) as (es & u1 & Hu1 & Hpr & Hlen);
    [lia|done..|]. rewrite app_nil_r in Hpr.
  destruct Hpr as [R1 R2 R3 R4 R5 R6 R7 R8 (xs & R9 & R9') R10 R11 R12 R13 R14].
  destruct (bp_squash_split sn tid es (predHist u tid) u1 R1 R2 R3 R5) as (u2 & Hu2 & Hsq & _).
  { destruct (predHist u tid); [done|]. by apply Forall_cons in Hold as [? _]. }
  exists u1, u2. split; [done|]. split; [done|]. destruct Hsq as [S1 S2 S3 S4 S5 S6 S7 S8 S9 S10].
  destruct (undo_steps es (RAS u tid) (RAS u1 tid) (RAS u1 tid) (ras_numEntries (RAS u tid)))
    as (r & Hr & _ & _ & Htos & Hslots); [by apply bw_ras|lia|done| |].
  { split; [by apply bw_ras|done]. }
  rewrite S7 in Hr. injection Hr as <-.
  assert (∀ x y : ThreadInfo, pathHist x = pathHist y → headHistEntry x = headHistEntry y → x = y) as Hti
    by (intros [] []; cbn; congruence).
  split; [|split; [|split; [|split]]].
  - intros t. destruct (decide (t = tid)) as [->|Hne].
    + split; [by rewrite S4, fn_lookup_insert|]. split; [|split; [|done]].
      * rewrite S10. destruct R14 as [?|[-> ->]]; done.
      * rewrite S6. cbn. rewrite fn_lookup_insert. apply Hti; cbn; [|apply R8].
        rewrite keepUntil_filter by (by apply bw_path). rewrite R9, filter_app, filter_all by done.
        rewrite filter_none, app_nil_r; [done|]. eapply Forall_impl; [apply R9'|]. cbn. intros ? ?. lia.
    + split; [by rewrite S4, fn_lookup_insert_ne, R4|].
      split; [rewrite (ds_other _ _ _ S9), (ds_other _ _ _ R13); done|].
      split; [|by rewrite S8, R12]. rewrite S6. cbn. rewrite fn_lookup_insert_ne by done.
      apply Hti; [by apply R10|apply R8].
  - intros d Hd. apply Hslots. rewrite R3, take_app_length' in Hd by done. done.
  - by rewrite (ds_tables _ _ _ S9), (ds_tables _ _ _ R13).
  - by rewrite S5.
  - rewrite S6. cbn. done.
Qed.

(** ** Learning *)

(** The settings of the indirect predictor and its set index. *)
Lemma getSetIndex_config (p q : IndirectPredictor PC) a ghr hist :
  hashGHR q = hashGHR p → hashTargets q = hashTargets p → numSets q = numSets p →
  pathLength q = pathLength p → instShift q = instShift p →
  getSetIndex a ghr hist q = getSetIndex a ghr hist p.
Proof. unfold getSetIndex. by intros -> -> -> -> ->. Qed.

Lemma findWay_insert tag (s : list (IPredEntry (PC := PC))) target : ∀ k m,
  (k < length s)%nat →
  match findWay tag s m with Some (j, _) => (m + k)%nat = j | None => True end →
  findWay tag (<[k := mkIPredEntry tag target]> s) m = Some ((m + k)%nat, target).
Proof.
  induction s as [|w s IH]; intros k m Hk Hf; cbn in *; [lia|]. destruct k as [|k]; cbn.
  - by rewrite Z.eqb_refl, Nat.add_0_r.
  - destruct (Z.eqb_spec (ie_tag w) tag) as [|Hne].
    + lia.
    + rewrite IH; [f_equal; f_equal; lia|lia|]. destruct (findWay tag s (S m)) as [[j y]|]; [|done]. lia.
Qed.

(** The indirect predictor [q] has the targets of [p] and the path [before]. *)
Definition after_path tid (before : list HistoryEntry) (p q : IndirectPredictor PC) : Prop :=
  hashGHR q = hashGHR p ∧ hashTargets q = hashTargets p ∧ numSets q = numSets p ∧
  pathLength q = pathLength p ∧ instShift q = instShift p ∧ tagBits q = tagBits p ∧
  targetCache q = targetCache p ∧ pathHist (threadInfo q tid) = before.

Lemma recordTarget_learns sn ghr target tid (p p' q : IndirectPredictor PC) before x :
  ip_wf p → pathHist (threadInfo p tid) = before ++ [x] → recordTarget sn ghr target tid p = Ok p' →
  after_path tid before p' q → ip_lookup (pcAddr x) ghr tid q = Ok (Some target).
Proof.
  intros Hp Hb H (Q1 & Q2 & Q3 & Q4 & Q5 & Q6 & Q7 & Q8).
  destruct (recordTarget_ok sn ghr target tid p before x Hp Hb) as (i & s & k & calls & Hi & Hs & Hk & Hf & Heq).
  rewrite Heq in H. injection H as <-. cbn in Q1, Q2, Q3, Q4, Q5, Q6, Q7.
  unfold ip_lookup. rewrite Q8, (getSetIndex_config p q) by done. rewrite Hi.
  destruct (getSetIndex_ok (pcAddr x) ghr before p Hp) as (i' & Hi' & Hr). rewrite Hi in Hi'. injection Hi' as <-.
  rewrite Q3, (proj2 (Z.ltb_lt _ _)) by lia. unfold vec_get. rewrite (proj2 (Z.leb_le 0 i)) by lia.
  rewrite Q7, list_lookup_insert_eq by (by eapply lookup_lt_Some).
  assert (ip_getTag (pcAddr x) q = ip_getTag (pcAddr x) p) as -> by (unfold ip_getTag; by rewrite Q5, Q6).
  by rewrite (findWay_insert _ _ _ k 0).
Qed.

(** A mispredicted branch is predicted with its target.  After the correction
    of a taken branch that is still in the history, the branch target buffer
    holds its target; for an indirect branch, the indirect predictor gives it when
    the branch is fetched again after the same path and global history.  The
    counters are not trained yet, and the direction they will be trained with at
    commit is that of the branch. *)
Theorem mispredict_learned (sn : InstSeqNum) (target : PC) tid u u' e
    (Hwf : bp_wf u) (Ht : dp_thread (bp_dir u) tid)
    (He : e ∈ predHist u tid) (Hsn : ph_seqNum e = sn)
    (Hrun : bp_squashMispredict sn target true tid u = Ok u') :
  (∃ e' l, predHist u' tid = e' :: l ∧ ph_seqNum e' = sn ∧ ph_predTaken e' = true ∧ ph_pc e' = ph_pc e) ∧
  dp_tables (bp_dir u') = dp_tables (bp_dir u) ∧
  if wasIndirect e then
    ∃ before, Forall (λ x, he_seqNum x < sn) before ∧ ∀ q, after_path tid before (iPred u') q →
      ip_lookup (ph_pc e) (dp_getGHR (P := P) tid (bpHistory e)) tid q = Ok (Some target)
  else btb_valid (ph_pc e) tid (BTB u') = Ok true ∧ btb_lookup (ph_pc e) tid (BTB u') = Ok target.
Proof.
  destruct (bp_squashMispredict_ok sn target true tid u Hwf Ht) as (u2 & u1 & young & old & Hu2 & _ & Hsq & Hc);
    [left; by exists e|].
  rewrite Hrun in Hu2. injection Hu2 as <-. destruct Hsq as [S1 S2 S3 S4 S5 S6 S7 S8 S9 S10].
  assert (e ∈ old) as Hin.
  { rewrite S1 in He. apply elem_of_app in He as [He|]; [|done].
    pose proof (proj1 (Forall_forall _ _) S2 e He). cbn in *. lia. }
  destruct old as [|e1 l]; [set_solver|]. destruct Hc as [Hy Hc].
  assert (e1 = e) as ->.
  { pose proof Hy as (Hwf1 & _ & Hh1 & Hs1 & _). pose proof (bw_order u1 Hwf1 tid) as Ho.
    rewrite Hh1, fmap_cons in Ho. apply StronglySorted_inv in Ho as [_ Ho]. rewrite Forall_fmap in Ho.
    apply elem_of_cons in Hin as [|Hin]; [done|].
    pose proof (proj1 (Forall_forall _ _) Ho e Hin). cbn in *. lia. }
  pose proof Hy as (Hwf1 & _ & _ & _ & Hold).
  destruct Hc as [(e' & (E1 & E2 & _) & Etk & C1) C2 _ C4 C5]. split; [|split].
  - exists e', l. rewrite C1, fn_lookup_insert. split_and!; congruence.
  - by rewrite (ds_tables _ _ _ C2), (ds_tables _ _ _ S9).
  - destruct (wasIndirect e) eqn:Hw; cbn in C4, C5.
    + destruct (youngest_path _ _ _ _ _ Hy Hw) as (before & x & Hb & Hxs & Hxp). exists before. split.
      * pose proof (bw_path u1 Hwf1 tid) as Hp. rewrite Hb, fmap_app in Hp.
        apply StronglySorted_app in Hp as (Hp & _ & _).
        apply Forall_forall. intros y Hyb. rewrite <- Hxs. apply Hp; [by apply list_elem_of_fmap_2|set_solver].
      * intros q Hq. rewrite <- Hxp. eapply recordTarget_learns; [by apply bw_ip|exact Hb|exact C5|done].
    + rewrite btb_update_ok in C4 by (by apply bw_btb). injection C4 as <-.
      pose proof (getIndex_range (ph_pc e) tid _ (bw_btb u1 Hwf1)) as Hr.
      destruct (btb_entry (ph_pc e) tid _ (set_btb_wf _ (Z.to_nat (getIndex (ph_pc e) tid (BTB u1)))
        (mkBTBEntry (btb_getTag (ph_pc e) (BTB u1)) target tid true) (bw_btb u1 Hwf1))) as (x & Hx & -> & ->).
      cbn in Hx. change (getIndex (ph_pc e) tid _) with (getIndex (ph_pc e) tid (BTB u1)) in Hx.
      rewrite list_lookup_insert_eq in Hx by lia. simplify_eq. unfold btbMatches. cbn.
      by rewrite Nat.eqb_refl, Z.eqb_refl.
Qed.

(** A branch without a known target is trained as taken.  When the
    direction predictor says that a conditional direct branch is taken and the
    branch target buffer does not know it, [predict] answers that it falls
    through, but the record keeps the direction of the predictor.  A branch
    that does fall through is then predicted correctly, is not squashed, and is
    trained as taken when it commits. *)
Theorem target_miss_trains_taken (inst : StaticInst) (sn : InstSeqNum) (pc : PC) tid u (h : Hist) (p : P)
    (Hwf : bp_wf u) (Ht : dp_thread (bp_dir u) tid) (Hempty : predHist u tid = [])
    (Hcond : si_flag IsUncondControl inst = false) (Hdir : si_flag IsDirectControl inst = true)
    (Hcall : si_flag IsCall inst = false) (Hret : si_flag IsReturn inst = false)
    (Htaken : dp_lookup tid (pc_instAddr pc) (bp_dir u) = Ok (true, h, p))
    (Hmiss : btb_valid (pc_instAddr pc) tid (BTB u) = Ok false) :
  ∃ u1 u2, predict inst sn pc tid u = Ok (false, pc_advance inst pc, u1) ∧
    bp_update sn tid u1 = Ok u2 ∧
    dp_update tid (pc_instAddr pc) true h false (bp_dir u1) = Ok (bp_dir u2).
Proof.
  destruct (dp_lookup_ok tid (pc_instAddr pc) _ (bw_dir u Hwf) Ht) as (b & h' & p' & Hl & Hp' & Ht' & _ & Hs' & _).
  rewrite Htaken in Hl. injection Hl as <- <- <-.
  destruct (dp_btb_ok tid (pc_instAddr pc) h p Hp' (Ht' _ Ht)) as (p1 & Hb & Hp1 & Ht1 & _ & Hs1 & _).
  destruct (dp_update_ok tid (pc_instAddr pc) true h false p1 Hp1 (Ht1 _ (Ht' _ Ht)) (Hs1 _ Hs'))
    as (p2 & Hup & _).
  assert (predict inst sn pc tid u = Ok (false, pc_advance inst pc,
    set_predHist tid [newHistory sn (pc_instAddr pc) true h] (set_dir p1 (set_dir p u)))) as Hpred.
  { unfold predict, predictTarget, unpush. rewrite Hcond, Htaken, Hret, Hcall, Hdir. cbn. rewrite Hmiss. cbn.
    rewrite Hb. cbn. by rewrite Hempty. }
  rewrite Hpred. do 2 eexists. split; [reflexivity|]. unfold bp_update. cbn. rewrite fn_lookup_insert. cbn.
  rewrite Z.leb_refl, Hup. by split.
Qed.
End safe.

Module BpExample.
(** Small tables. *)
Definition flags (l : list StaticFlag) : StaticInst := mkStaticInst (foldr (λ f s, bs_set s f) 0%N l) 1 0 0 "".
Definition call := flags [IsControl; IsUncondControl; IsDirectControl; IsCall].
Definition ret := flags [IsControl; IsUncondControl; IsIndirectControl; IsReturn].
Definition cond := flags [IsControl; IsCondControl; IsDirectControl].
Definition jump := flags [IsControl; IsUncondControl; IsIndirectControl].

Definition blankDir : Tournament.TournamentBP :=
  Tournament.mkTournamentBP [] [] [] [] [] 0 0 0 0 0 0 0 0 0.
Definition dir : Tournament.TournamentBP :=
  match Tournament.newTournamentBP 4 2 4 8 2 8 2 2 1 with Ok p => p | Err _ => blankDir end.
Definition targets : DefaultBTB Z :=
  match newBTB 8 16 2 1 with Ok b => b | Err _ => mkBTB [] 0 0 0 0 0 0 end.
Definition indirect : IndirectPredictor Z :=
  match newIndirect true true 4 2 16 3 2 (λ _, 1) with
  | Ok p => p | Err _ => mkIndirect true true 0 0 0 0 0 [] (λ _, mkThreadInfo [] 0) (λ _, 0) 0
  end.
Definition start : BPredUnit Z Tournament.TournamentBP Tournament.TourHistory :=
  newBPredUnit dir targets 4 true indirect.
Definition after (inst : StaticInst) (sn : Z) (pc : Z) (u : BPredUnit Z Tournament.TournamentBP Tournament.TourHistory) :=
  match predict inst sn pc 0 u with Ok (_, _, u') => u' | Err _ => u end.

(** All counters say taken. *)
Definition eager : BPredUnit Z Tournament.TournamentBP Tournament.TourHistory :=
  newBPredUnit (Tournament.set_counters (replicate 4 (mkSatCounter 0 3 3)) (replicate 8 (mkSatCounter 0 3 3))
                  (replicate 8 (mkSatCounter 0 3 3)) dir) targets 4 true indirect.

Lemma dir_wf : tour_wf dir.
Proof. by apply (newTournamentBP_wf 4 2 4 8 2 8 2 2 1). Qed.
Lemma start_wf : bp_wf start.
Proof.
  apply newBPredUnit_wf; [apply dir_wf|by apply (newBTB_wf 8 16 2 1)|done|
    by apply (newIndirect_wf true true 4 2 16 3 2 (λ _, 1))|done].
Qed.
Lemma eager_wf : bp_wf eager.
Proof.
  apply newBPredUnit_wf; [|by apply (newBTB_wf 8 16 2 1)|done|
    by apply (newIndirect_wf true true 4 2 16 3 2 (λ _, 1))|done].
  split; [exists 2|exists 3|exists 3|exists 2]; by split_and!.
Qed.
Lemma after_wf inst sn pc : bp_wf (after inst sn pc start) ∧ dp_thread (bp_dir (after inst sn pc start)) 0%nat.
Proof.
  destruct (predict_ok inst sn pc 0%nat start start_wf) as (tk & tg & u' & e & Hp & Hpd); [change (0 < 1)%nat; lia|].
  unfold after. rewrite Hp. split; [|apply (pd_dir _ _ _ _ _ _ Hpd); change (0 < 1)%nat; lia].
  eapply predicted_wf; [apply start_wf| |done]. by split.
Qed.
End BpExample.

Lemma bpred_total_witness :
  ∃ u', bp_squash 2 0 (BpExample.after BpExample.call 3 64 BpExample.start) = Ok u' ∧ bp_wf u'.
Proof.
  destruct (bpred_total (BpExample.after BpExample.call 3 64 BpExample.start) 0%nat
              (proj1 (BpExample.after_wf _ _ _)) (proj2 (BpExample.after_wf _ _ _))) as (_ & _ & Hs & _).
  apply Hs.
Defined.

(** A call, a conditional branch, a return and an indirect jump. *)
Lemma squash_undoes_predictions_witness :
  ∃ u1 u2, predictAll 0 [(BpExample.call, 3, 64); (BpExample.cond, 4, 68); (BpExample.ret, 5, 72); (BpExample.jump, 6, 80)]
      BpExample.start = Ok u1 ∧ bp_squash 2 0 u1 = Ok u2 ∧ BTB u2 = BTB BpExample.start.
Proof.
  destruct (squash_undoes_predictions 2 0%nat BpExample.start
    [(BpExample.call, 3, 64); (BpExample.cond, 4, 68); (BpExample.ret, 5, 72); (BpExample.jump, 6, 80)])
    as (u1 & u2 & H1 & H2 & _ & _ & _ & H3 & _).
  - apply BpExample.start_wf.
  - change (0 < 1)%nat; lia.
  - constructor.
  - constructor.
  - unfold ascending; cbn; repeat constructor; lia.
  - by exists u1, u2.
Defined.

Lemma mispredict_learned_witness :
  ∃ u', bp_squashMispredict 3 100 true 0 (BpExample.after BpExample.cond 3 64 BpExample.start) = Ok u' ∧
    btb_lookup 64 0 (BTB u') = Ok 100.
Proof.
  destruct (bp_squashMispredict 3 100 true 0 (BpExample.after BpExample.cond 3 64 BpExample.start)) as [u'|] eqn:Hrun.
  - exists u'. split; [reflexivity|].
    destruct (mispredict_learned 3 100 0%nat (BpExample.after BpExample.cond 3 64 BpExample.start) u'
                (newHistory 3 64 false (Tournament.mkTourHistory 0 0 0 false false false))) as (_ & _ & H).
    + apply BpExample.after_wf.
    + apply BpExample.after_wf.
    + vm_compute. constructor.
    + reflexivity.
    + exact Hrun.
    + apply H.
  - exfalso. vm_compute in Hrun. discriminate Hrun.
Defined.

Lemma target_miss_trains_taken_witness :
  ∃ u1, predict BpExample.cond 3 64 0 BpExample.eager = Ok (false, 68, u1).
Proof.
  destruct (target_miss_trains_taken BpExample.cond 3 64 0%nat BpExample.eager
    (Tournament.mkTourHistory 0 0 0 true true true)
    (match dp_lookup 0%nat 64 (bp_dir BpExample.eager) with Ok (_, _, p) => p | Err _ => BpExample.dir end))
    as (u1 & u2 & H & _).
  - apply BpExample.eager_wf.
  - change (0 < 1)%nat; lia.
  - reflexivity.
  - reflexivity.
  - reflexivity.
  - reflexivity.
  - reflexivity.
  - vm_compute; reflexivity.
  - vm_compute; reflexivity.
  - exists u1. exact H.
Defined.

(** ** Oddities *)

(** An entry of the indirect predictor has no valid bit: a branch whose tag is 0 hits
    the empty predictor, and is predicted to jump to address 0. *)
Example cold_cache_hits : ip_lookup 2 0 0 BpExample.indirect = Ok (Some 0).
Proof. reflexivity. Qed.

(** An unconditional branch that misses in the branch target buffer clears the last bit
    of a local history, which squashing the branch does not restore: its record holds no
    local history. *)
Example local_history_lost :
  let p := Tournament.set_localHistoryTable [3; 3; 3; 3] BpExample.dir in
  match Tournament.tour_uncondBranch 0 64 p with
  | Ok (h, p1) =>
      match Tournament.tour_btbUpdate 0 64 h p1 with
      | Ok p2 => match Tournament.tour_squash 0 h p2 with
                 | Ok p3 => Tournament.localHistoryTable p3
                 | Err _ => [] end
      | Err _ => [] end
  | Err _ => [] end = [2; 3; 3; 3].
Proof. reflexivity. Qed.

(** The bi-mode predictor corrects its history register without masking it: with eight
    counters the register holds four bits. *)
Example bi_mode_unmasked :
  match BiMode.newBiModeBP 8 2 8 2 2 1 with
  | Ok p => match BiMode.bi_update 0 64 true (BiMode.mkBiHistory 7 true true true true) true p with
            | Ok p' => Some (BiMode.globalHistoryReg p', BiMode.historyRegisterMask p')
            | Err _ => None end
  | Err _ => None end = Some ([15], 7).
Proof. reflexivity. Qed.
