(* ===== verification/TimeBuf.v ===== *)
(** * Time buffers and the activity recorder

    [TimeBuffer] ([cpu/timebuf.hh]) carries what a stage writes to the stages that
    read it some cycles later: a circular vector seen relative to the current
    cycle, past slots at negative and future ones at positive indices.
    [ActivityRecorder] ([cpu/activity.hh], [cpu/activity.cc]) counts what is still
    in flight and which stages have work, to know when the CPU may stop ticking.
    [zero] is the zeroed and default-constructed slot. *)

From S2P Require Import Prelude.

Local Open Scope Z_scope.

(** ** The circular buffer *)

Section timebuf.
Context {T : Type}.
Variable zero : T.

Record TimeBuffer := mkTimeBuffer {
  past : Z;
  future : Z;
  tb_size : Z;
  tb_index : list T; (** what [index] points to *)
  base : Z;
}.

Definition newTimeBuffer (p f : Z) : outcome TimeBuffer :=
  assert! (0 <=? p) && (0 <=? f) as "TimeBuffer: past >= 0 && future >= 0" in
  Ok (mkTimeBuffer p f (p + f + 1) (replicate (Z.to_nat (p + f + 1)) zero) 0).

Definition tb_valid (idx : Z) (b : TimeBuffer) : bool := (- past b <=? idx) && (idx <=? future b).

Definition calculateVectorIndex (idx : Z) (b : TimeBuffer) : outcome Z :=
  assert! tb_valid idx b as "TimeBuffer::valid" in
  let vector_index := idx + base b in
  Ok (if tb_size b <=? vector_index then vector_index - tb_size b
      else if vector_index <? 0 then vector_index + tb_size b else vector_index).

Definition tb_read (idx : Z) (b : TimeBuffer) : outcome T :=
  let! k := calculateVectorIndex idx b in vec_get "index" (tb_index b) k.
Definition tb_write (idx : Z) (v : T) (b : TimeBuffer) : outcome TimeBuffer :=
  let! k := calculateVectorIndex idx b in
  let! l := vec_set "index" (tb_index b) k v in
  Ok (mkTimeBuffer (past b) (future b) (tb_size b) l (base b)).

Definition tb_advance (b : TimeBuffer) : outcome TimeBuffer :=
  let base' := if tb_size b <=? base b + 1 then 0 else base b + 1 in
  let ptr := base' + future b in
  let ptr := if tb_size b <=? ptr then ptr - tb_size b else ptr in
  let! l := vec_set "index" (tb_index b) ptr zero in
  Ok (mkTimeBuffer (past b) (future b) (tb_size b) l base').

(** ** A delay line *)

Record tb_wf (b : TimeBuffer) : Prop := {
  tb_past : 0 <= past b;
  tb_future : 0 <= future b;
  tb_sized : tb_size b = past b + future b + 1;
  tb_length : Z.of_nat (length (tb_index b)) = tb_size b;
  tb_base : 0 <= base b < tb_size b;
}.

(** The specification: the slots in reach, as a function of the relative cycle. *)
Definition Line : Type := Z → T.
Definition line_write (idx : Z) (v : T) (d : Line) : Line := λ i, if i =? idx then v else d i.
Definition line_advance (fut : Z) (d : Line) : Line := λ i, if i =? fut then zero else d (i + 1).

(** [b] implements [d]. *)
Record tb_repr (b : TimeBuffer) (d : Line) : Prop := {
  tr_wf : tb_wf b;
  tr_read i : - past b <= i <= future b → tb_read i b = Ok (d i);
}.

(** The slot of a relative cycle. *)
Definition slot (idx : Z) (b : TimeBuffer) : Z := (idx + base b) mod tb_size b.

Lemma mod_unique_range q k n z : z = n * q + k → 0 <= k < n → z mod n = k.
Proof. intros -> Hk. symmetry. by apply (Z.mod_unique_pos _ _ q). Qed.

Lemma calculateVectorIndex_slot idx b :
  tb_wf b → - past b <= idx <= future b → calculateVectorIndex idx b = Ok (slot idx b).
Proof.
  intros [Hp Hf Hs Hl Hb] Hi. unfold calculateVectorIndex, tb_valid, slot.
  rewrite (proj2 (Z.leb_le (- past b) idx)), (proj2 (Z.leb_le idx (future b))) by lia. cbn [andb]. f_equal.
  symmetry. destruct (Z.leb_spec (tb_size b) (idx + base b)); [|destruct (Z.ltb_spec (idx + base b) 0)].
  - apply (mod_unique_range 1); lia.
  - apply (mod_unique_range (-1)); lia.
  - apply (mod_unique_range 0); lia.
Qed.

Lemma slot_range idx b : tb_wf b → 0 <= slot idx b < tb_size b.
Proof. intros [? ? ? ? ?]. apply Z.mod_pos_bound. lia. Qed.

(** Slots in reach of each other are different. *)
Lemma slot_inj i j b :
  tb_wf b → - past b <= i <= future b → - past b <= j <= future b → slot i b = slot j b → i = j.
Proof.
  intros [Hp Hf Hs Hl Hb] Hi Hj H. unfold slot in H.
  pose proof (Z.div_mod (i + base b) (tb_size b) ltac:(lia)).
  pose proof (Z.div_mod (j + base b) (tb_size b) ltac:(lia)).
  assert ((i + base b) `div` tb_size b = (j + base b) `div` tb_size b); nia.
Qed.

(** Writing a slot of a buffer that may just have been turned. *)
Lemma vec_write_repr (b b' : TimeBuffer) (d : Line) k v :
  tb_wf b' → tb_size b' = tb_size b →
  - past b' <= k <= future b' →
  (∀ i, - past b' <= i <= future b' → i ≠ k → vec_get "index" (tb_index b) (slot i b') = Ok (d i)) →
  length (tb_index b) = length (tb_index b') →
  tb_index b' = <[Z.to_nat (slot k b') := v]> (tb_index b) →
  tb_repr b' (line_write k v d).
Proof.
  intros Hwf Hsz Hk Hd Hlen Hidx. split; [done|]. intros i Hi. unfold tb_read, line_write.
  rewrite calculateVectorIndex_slot by done. rewrite Hidx.
  pose proof (slot_range k b' Hwf). pose proof (tb_length _ Hwf).
  rewrite (vec_get_set "index" (tb_index b) (slot k b') v) by (apply vec_set_total; lia).
  destruct (Z.eqb_spec i k) as [->|Hne]; [by rewrite Z.eqb_refl|].
  destruct (Z.eqb_spec (slot i b') (slot k b')) as [He|]; [|by apply Hd].
  by apply slot_inj in He.
Qed.

Lemma tb_read_slot b d i :
  tb_repr b d → - past b <= i <= future b → vec_get "index" (tb_index b) (slot i b) = Ok (d i).
Proof.
  intros [Hwf Hr] Hi. specialize (Hr i Hi). unfold tb_read in Hr.
  by rewrite calculateVectorIndex_slot in Hr.
Qed.

(** ** The operations implement the specification *)

Lemma newTimeBuffer_repr p f :
  0 <= p → 0 <= f → ∃ b, newTimeBuffer p f = Ok b ∧ past b = p ∧ future b = f ∧ tb_repr b (λ _, zero).
Proof.
  intros Hp Hf. unfold newTimeBuffer. rewrite (proj2 (Z.leb_le 0 p) Hp), (proj2 (Z.leb_le 0 f) Hf).
  eexists. split; [done|]. split; [done|]. split; [done|].
  assert (tb_wf (mkTimeBuffer p f (p + f + 1) (replicate (Z.to_nat (p + f + 1)) zero) 0)) as Hwf.
  { split; cbn; try lia. rewrite length_replicate. lia. }
  split; [done|]. intros i Hi. unfold tb_read. rewrite calculateVectorIndex_slot by done.
  pose proof (slot_range i _ Hwf). apply vec_get_Ok. split; [lia|]. cbn in *.
  apply lookup_replicate_2. lia.
Qed.

Lemma tb_write_repr b d idx v :
  tb_repr b d → - past b <= idx <= future b →
  ∃ b', tb_write idx v b = Ok b' ∧ tb_repr b' (line_write idx v d) ∧ past b' = past b ∧ future b' = future b.
Proof.
  intros Hr Hi. pose proof (tr_wf _ _ Hr) as Hwf. unfold tb_write. rewrite calculateVectorIndex_slot by done.
  pose proof (slot_range idx b Hwf). pose proof (tb_length _ Hwf). rewrite vec_set_total by lia.
  eexists. split; [done|]. split; [|done]. apply (vec_write_repr b); cbn; try done.
  - destruct Hwf. split; cbn; try done. by rewrite length_insert.
  - intros i Hi' _. by apply (tb_read_slot b d).
  - by rewrite length_insert.
Qed.

Lemma tb_advance_repr b d :
  tb_repr b d →
  ∃ b', tb_advance b = Ok b' ∧ tb_repr b' (line_advance (future b) d) ∧ past b' = past b ∧ future b' = future b.
Proof.
  intros Hr. pose proof (tr_wf _ _ Hr) as Hwf. destruct (Hwf) as [Hp Hf Hs Hl Hb]. unfold tb_advance.
  set (base' := if tb_size b <=? base b + 1 then 0 else base b + 1).
  assert (0 <= base' < tb_size b ∧ ∃ q, base b + 1 = tb_size b * q + base') as [Hb' [q Hq]].
  { unfold base'. destruct (Z.leb_spec (tb_size b) (base b + 1)); split; try lia; [exists 1|exists 0]; lia. }
  set (ptr := if tb_size b <=? base' + future b then _ else _).
  assert (ptr = (future b + base') mod tb_size b) as Hptr.
  { unfold ptr. symmetry. destruct (Z.leb_spec (tb_size b) (base' + future b)).
    - apply (mod_unique_range 1); lia.
    - apply (mod_unique_range 0); lia. }
  clearbody ptr base'. pose proof (Z.mod_pos_bound (future b + base') (tb_size b) ltac:(lia)).
  rewrite vec_set_total by lia. eexists. split; [done|]. split; [|done].
  match goal with |- tb_repr ?x _ => set (b' := x) end.
  assert (tb_wf b') as Hwf' by (split; cbn; try done; by rewrite length_insert).
  assert (tb_repr b' (line_write (future b) zero (λ i, d (i + 1)))) as [_ Hrd].
  { apply (vec_write_repr b); try done; cbn.
    - lia.
    - intros i Hi Hne. rewrite <- (tb_read_slot b d (i + 1) Hr) by lia. f_equal. unfold slot. cbn.
      rewrite <- Z.add_assoc, (Z.add_comm 1), Hq.
      rewrite (Z.add_comm (tb_size b * q)), Z.add_assoc, Z.mul_comm. by rewrite Z.mod_add by lia.
    - by rewrite length_insert.
    - unfold slot. cbn. by rewrite Hptr. }
  split; [done|]. intros i Hi. rewrite Hrd by done. unfold line_write, line_advance. done.
Qed.

(** ** Communication with a delay *)

(** A stage that writes its wire 0 every cycle. *)
Definition sendCycle (b : TimeBuffer) (v : T) : outcome TimeBuffer :=
  let! b := tb_write 0 v b in tb_advance b.

Lemma sendCycle_repr b d v :
  tb_repr b d →
  ∃ b', sendCycle b v = Ok b' ∧ tb_repr b' (line_advance (future b) (line_write 0 v d)) ∧
        past b' = past b ∧ future b' = future b.
Proof.
  intros Hr. pose proof (tr_wf _ _ Hr) as [Hp Hf _ _ _]. unfold sendCycle.
  destruct (tb_write_repr b d 0 v Hr) as (b1 & -> & H1 & Hp1 & Hf1); [lia|].
  destruct (tb_advance_repr b1 _ H1) as (b2 & -> & H2 & Hp2 & Hf2).
  eexists. split; [done|]. rewrite <- Hf1. split; [done|]. split; congruence.
Qed.

(** a time buffer is a delay line: when a stage writes its wire in each of a
    row of cycles, a reader [delay] cycles behind finds at its own wire exactly
    what was written [delay] cycles ago, for every delay the buffer has room for;
    the accesses never go out of the vector. *)
Theorem timebuf_delays b d vs delay v :
  tb_repr b d → (delay < length vs)%nat → Z.of_nat (S delay) <= past b →
  reverse vs !! delay = Some v →
  ∃ b', foldM sendCycle vs b = Ok b' ∧ tb_read (- Z.of_nat (S delay)) b' = Ok v.
Proof.
  assert (∀ vs b d, tb_repr b d → ∃ b' d', foldM sendCycle vs b = Ok b' ∧ tb_repr b' d' ∧
      past b' = past b ∧ future b' = future b ∧
      ∀ k v, reverse vs !! k = Some v → Z.of_nat (S k) <= past b → d' (- Z.of_nat (S k)) = v) as Hgen.
  { clear. induction vs as [|v vs IH] using rev_ind; intros b d Hr; cbn [foldM].
    - exists b, d. split_and!; try done.
    - destruct (IH b d Hr) as (b1 & d1 & Hf1 & Hr1 & Hp1 & Hfu1 & H1).
      destruct (sendCycle_repr b1 d1 v Hr1) as (b2 & Hs & Hr2 & Hp2 & Hf2).
      exists b2, (line_advance (future b1) (line_write 0 v d1)). split_and!; [|done|congruence..|].
      + clear -Hf1 Hs. revert b Hf1. induction vs as [|w vs IH]; cbn; intros b Hf1.
        * inv_ok Hf1. by rewrite Hs.
        * destruct (sendCycle b w); [|done]. by apply IH.
      + intros k w Hk Hle. rewrite reverse_snoc in Hk. unfold line_advance, line_write.
        pose proof (tb_future _ (tr_wf _ _ Hr1)).
        rewrite (proj2 (Z.eqb_neq _ _)) by lia. destruct k as [|k]; cbn [lookup list_lookup] in Hk.
        * rewrite (proj2 (Z.eqb_eq _ _)) by lia. congruence.
        * rewrite (proj2 (Z.eqb_neq _ _)) by lia. rewrite <- (H1 k w Hk) by lia. f_equal. lia. }
  intros Hr Hlen Hle Hv. destruct (Hgen vs b d Hr) as (b' & d' & Hf & Hr' & Hp & Hfu & Hd).
  exists b'. split; [done|]. pose proof (tb_future _ (tr_wf _ _ Hr')).
  rewrite (tr_read _ _ Hr') by lia. f_equal. by apply Hd.
Qed.
End timebuf.

Lemma timebuf_delays_witness :
  ∃ b b', newTimeBuffer 0 3 1 = Ok b ∧ foldM (sendCycle 0) [7; 8; 9] b = Ok b' ∧ tb_read (-2) b' = Ok 8.
Proof.
  destruct (newTimeBuffer_repr 0 3 1 ltac:(lia) ltac:(lia)) as (b & Hb & Hp & _ & Hr). exists b.
  destruct (timebuf_delays 0 b _ [7; 8; 9] 1 8 Hr) as (b' & H1 & H2); [cbn; lia|lia|done|].
  exists b'. split; [done|]. by split.
Defined.
