(* ===== verification/Activity.v ===== *)
(** * The activity recorder

    [ActivityRecorder] ([cpu/activity.hh], [cpu/activity.cc]) counts the cycles
    whose communication is still in flight and the stages that have work to do: while
    the count is not zero the CPU keeps ticking.  [activity] of the constructor, a
    constant that keeps the CPU from ever idling, is the offset [extra]. *)

From S2P Require Import Prelude TimeBuf.

Local Open Scope Z_scope.

Record ActivityRecorder := mkActivityRecorder {
  activityBuffer : TimeBuffer (T := bool);
  longestLatency : Z;
  activityCount : Z;
  stageActive : list bool;
}.

Definition newActivityRecorder (num_stages : nat) (longest_latency extra : Z) : outcome ActivityRecorder :=
  let! b := newTimeBuffer false longest_latency 0 in
  Ok (mkActivityRecorder b longest_latency extra (replicate num_stages false)).

(** [activity()] *)
Definition ar_activity (a : ActivityRecorder) : outcome ActivityRecorder :=
  let! now := tb_read 0 (activityBuffer a) in
  if now : bool then Ok a
  else
    let! b := tb_write 0 true (activityBuffer a) in
    Ok (mkActivityRecorder b (longestLatency a) (activityCount a + 1) (stageActive a)).

Definition ar_advance (a : ActivityRecorder) : outcome ActivityRecorder :=
  let! oldest := tb_read (- longestLatency a) (activityBuffer a) in
  let count := if oldest : bool then activityCount a - 1 else activityCount a in
  assert! negb oldest || (0 <=? count) as "advance: activityCount >= 0" in
  let! b := tb_advance false (activityBuffer a) in
  Ok (mkActivityRecorder b (longestLatency a) count (stageActive a)).

Definition ar_activateStage (idx : Z) (a : ActivityRecorder) : outcome ActivityRecorder :=
  let! on := vec_get "stageActive" (stageActive a) idx in
  if on : bool then Ok a
  else
    let! l := vec_set "stageActive" (stageActive a) idx true in
    Ok (mkActivityRecorder (activityBuffer a) (longestLatency a) (activityCount a + 1) l).

Definition ar_deactivateStage (idx : Z) (a : ActivityRecorder) : outcome ActivityRecorder :=
  let! on := vec_get "stageActive" (stageActive a) idx in
  let! a := if on : bool then
      let! l := vec_set "stageActive" (stageActive a) idx false in
      Ok (mkActivityRecorder (activityBuffer a) (longestLatency a) (activityCount a - 1) l)
    else Ok a in
  assert! 0 <=? activityCount a as "deactivateStage: activityCount >= 0" in
  Ok a.

Definition ar_active (a : ActivityRecorder) : bool := negb (activityCount a =? 0).

Definition ar_reset (a : ActivityRecorder) : outcome ActivityRecorder :=
  let! b := foldM (λ b _, tb_advance false b) (seq 0 (S (Z.to_nat (longestLatency a)))) (activityBuffer a) in
  Ok (mkActivityRecorder b (longestLatency a) 0 (replicate (length (stageActive a)) false)).

(** The slots [0 .. -longestLatency], newest first. *)
Definition inFlight (a : ActivityRecorder) : outcome (list bool) :=
  foldM (λ l i, let! x := tb_read (- Z.of_nat i) (activityBuffer a) in Ok (l ++ [x]))
    (seq 0 (S (Z.to_nat (longestLatency a)))) [].
Definition count_true (l : list bool) : Z := Z.of_nat (length (filter (λ b : bool, b = true) l)).

Definition ar_validate (a : ActivityRecorder) : outcome () :=
  let! l := inFlight a in
  assert! count_true l + count_true (stageActive a) =? activityCount a as "validate: count == activityCount" in
  Ok ().

(** ** The count is exact *)

Lemma count_true_cons b l : count_true (b :: l) = Z.b2z b + count_true l.
Proof.
  unfold count_true.
  destruct b; [rewrite filter_cons_True by done|rewrite filter_cons_False by done]; cbn [length Z.b2z]; lia.
Qed.
Lemma count_true_nil : count_true [] = 0.
Proof. done. Qed.
Lemma count_true_app l k : count_true (l ++ k) = count_true l + count_true k.
Proof. unfold count_true. rewrite filter_app, length_app. lia. Qed.
Lemma count_true_nonneg l : 0 <= count_true l.
Proof. unfold count_true. lia. Qed.
Lemma count_true_replicate n : count_true (replicate n false) = 0.
Proof. induction n as [|n IH]; [done|]. cbn [replicate]. by rewrite count_true_cons, IH. Qed.
Lemma count_true_insert l i b b' :
  l !! i = Some b → count_true (<[i := b']> l) = count_true l - Z.b2z b + Z.b2z b'.
Proof.
  revert i. induction l as [|x l IH]; intros [|i] Hi; [done..| |].
  - injection Hi as ->. change (<[0%nat := b']> (b :: l)) with (b' :: l). rewrite !count_true_cons. lia.
  - change (<[S i := b']> (x :: l)) with (x :: <[i := b']> l).
    rewrite !count_true_cons, (IH i Hi). lia.
Qed.
Lemma count_true_zero l : count_true l = 0 ↔ true ∉ l.
Proof.
  induction l as [|b l IH]; [split; [set_solver|done]|]. pose proof (count_true_nonneg l).
  rewrite count_true_cons, not_elem_of_cons. destruct b; cbn; [split; [lia|naive_solver]|].
  rewrite Z.add_0_l, IH. naive_solver.
Qed.

(** What the buffer holds. *)
Definition slots (d : Z → bool) (n : nat) : list bool := (λ i, d (- Z.of_nat i)) <$> seq 0 (S n).
Definition older (d : Z → bool) (n : nat) : list bool := (λ i, d (- Z.of_nat i)) <$> seq 0 n.
#[local] Arguments slots : simpl never.
#[local] Arguments older : simpl never.

Record ar_repr (extra : Z) (a : ActivityRecorder) (d : Z → bool) : Prop := {
  ap_extra : 0 <= extra;
  ap_buffer : tb_repr (activityBuffer a) d;
  ap_past : past (activityBuffer a) = longestLatency a;
  ap_future : future (activityBuffer a) = 0;
  ap_count : activityCount a = extra + count_true (slots d (Z.to_nat (longestLatency a)))
                               + count_true (stageActive a);
}.

Lemma slots_advance d n :
  slots (line_advance false 0 d) n = false :: older d n.
Proof.
  unfold slots, older. cbn [seq fmap list_fmap]. f_equal.
  rewrite <- fmap_S_seq, <- list_fmap_compose. apply list_fmap_ext. intros _ i _. unfold line_advance. cbn.
  rewrite (proj2 (Z.eqb_neq _ _)) by lia. f_equal. lia.
Qed.

Lemma slots_last d n : slots d n = older d n ++ [d (- Z.of_nat n)].
Proof. unfold slots, older. by rewrite seq_S, fmap_app. Qed.

Lemma slots_now d n : slots d n !! 0%nat = Some (d 0).
Proof. done. Qed.

Lemma slots_write d n : slots (line_write 0 true d) n = <[0%nat := true]> (slots d n).
Proof.
  unfold slots. cbn [seq fmap list_fmap insert list_insert]. f_equal.
  apply list_fmap_ext. intros k i Hi%lookup_seq. unfold line_write.
  by rewrite (proj2 (Z.eqb_neq _ _)) by lia.
Qed.

Lemma latency_nonneg e a d : ar_repr e a d → 0 <= longestLatency a.
Proof. intros [_ Hb Hp _ _]. rewrite <- Hp. apply tb_past, (tr_wf _ _ Hb). Qed.

Lemma slots_zero n : slots (λ _, false) n = replicate (S n) false.
Proof.
  unfold slots. generalize 0%nat. generalize (S n). clear n. intros n. induction n as [|n IH]; intros k; [done|].
  cbn. f_equal. apply IH.
Qed.

Lemma newActivityRecorder_repr n lat extra :
  0 <= lat → 0 <= extra →
  ∃ a, newActivityRecorder n lat extra = Ok a ∧ ar_repr extra a (λ _, false) ∧ length (stageActive a) = n.
Proof.
  intros Hl He. unfold newActivityRecorder.
  destruct (newTimeBuffer_repr false lat 0 Hl ltac:(lia)) as (b & -> & Hp & Hf & Hr).
  eexists. split; [done|]. split; [|cbn; by rewrite length_replicate].
  split; cbn [activityBuffer activityCount longestLatency stageActive]; try done.
  rewrite slots_zero, !count_true_replicate. lia.
Qed.

Lemma ar_activity_repr e a d :
  ar_repr e a d →
  ∃ a', ar_activity a = Ok a' ∧ ar_repr e a' (line_write 0 true d) ∧ stageActive a' = stageActive a ∧
        longestLatency a' = longestLatency a.
Proof.
  intros Hr. pose proof (latency_nonneg _ _ _ Hr). destruct (Hr) as [He Hb Hp Hf Hc]. unfold ar_activity.
  rewrite (tr_read _ _ Hb) by lia. destruct (d 0) eqn:Hd.
  - exists a. split_and!; try done. split; try done.
    + split; [apply Hb|]. intros i Hi. rewrite (tr_read _ _ Hb) by done. unfold line_write.
      destruct (Z.eqb_spec i 0) as [->|]; [by rewrite Hd|done].
    + rewrite Hc, slots_write. do 2 f_equal.
      rewrite (count_true_insert _ _ true); [cbn; lia|by rewrite slots_now, Hd].
  - destruct (tb_write_repr _ _ 0 true Hb) as (b & -> & Hw & Hp' & Hf'); [lia|].
    eexists. split; [done|]. split; [|done]. split; cbn; try done; [congruence..|].
    rewrite Hc, slots_write, (count_true_insert _ _ false); [cbn; lia|by rewrite slots_now, Hd].
Qed.

Lemma ar_advance_repr e a d :
  ar_repr e a d →
  ∃ a', ar_advance a = Ok a' ∧ ar_repr e a' (line_advance false 0 d) ∧ stageActive a' = stageActive a ∧
        longestLatency a' = longestLatency a.
Proof.
  intros Hr. pose proof (latency_nonneg _ _ _ Hr). destruct (Hr) as [He Hb Hp Hf Hc]. unfold ar_advance.
  rewrite (tr_read _ _ Hb) by lia.
  destruct (tb_advance_repr false _ _ Hb) as (b & Hadv & Hw & Hp' & Hf').
  rewrite slots_last, count_true_app, count_true_cons, count_true_nil, Z2Nat.id in Hc by done.
  pose proof (count_true_nonneg (older d (Z.to_nat (longestLatency a)))).
  pose proof (count_true_nonneg (stageActive a)).
  assert (negb (d (- longestLatency a)) ||
    (0 <=? (if d (- longestLatency a) then activityCount a - 1 else activityCount a)) = true) as ->.
  { destruct (d _); cbn [negb orb Z.b2z] in Hc |- *; [apply Z.leb_le; lia|done]. }
  rewrite Hadv. eexists. split; [done|]. split; [|done]. rewrite Hf in Hw.
  split; cbn; try done; [congruence..|].
  rewrite slots_advance, count_true_cons. destruct (d _); cbn [Z.b2z] in Hc |- *; lia.
Qed.

Lemma ar_activateStage_repr e a d idx on :
  ar_repr e a d → vec_get "stageActive" (stageActive a) idx = Ok on →
  ∃ a', ar_activateStage idx a = Ok a' ∧ ar_repr e a' d ∧
        stageActive a' = <[Z.to_nat idx := true]> (stageActive a) ∧ longestLatency a' = longestLatency a.
Proof.
  intros Hr Hg. unfold ar_activateStage. rewrite Hg. apply vec_get_Ok in Hg as [Hi Hl].
  assert (idx < Z.of_nat (length (stageActive a))) by (apply lookup_lt_Some in Hl; lia).
  destruct on.
  - exists a. by rewrite list_insert_id.
  - rewrite vec_set_total by lia. eexists. split; [done|]. split; [|done].
    destruct Hr as [He Hb Hp Hf Hc]. split; cbn; try done.
    rewrite (count_true_insert _ _ false) by done. cbn. lia.
Qed.

Lemma ar_deactivateStage_repr e a d idx on :
  ar_repr e a d → vec_get "stageActive" (stageActive a) idx = Ok on →
  ∃ a', ar_deactivateStage idx a = Ok a' ∧ ar_repr e a' d ∧
        stageActive a' = <[Z.to_nat idx := false]> (stageActive a) ∧ longestLatency a' = longestLatency a.
Proof.
  intros Hr Hg. unfold ar_deactivateStage. rewrite Hg. apply vec_get_Ok in Hg as [Hi Hl].
  assert (idx < Z.of_nat (length (stageActive a))) by (apply lookup_lt_Some in Hl; lia).
  pose proof (count_true_nonneg (stageActive a)) as Hs.
  pose proof (count_true_nonneg (slots d (Z.to_nat (longestLatency a)))).
  destruct (Hr) as [He Hb Hp Hf Hc]. destruct on.
  - rewrite vec_set_total by lia. cbn [activityCount].
    pose proof (count_true_insert (stageActive a) _ _ false Hl) as Hins. cbn in Hins.
    pose proof (count_true_nonneg (<[Z.to_nat idx := false]> (stageActive a))).
    rewrite (proj2 (Z.leb_le 0 _)) by lia. eexists. split; [done|]. split; [|done].
    split; cbn; try done. lia.
  - rewrite (proj2 (Z.leb_le 0 _)) by lia. exists a. by rewrite list_insert_id.
Qed.

(** What happens to the recorder between two looks at it. *)
Inductive ArOp : Type := OpActivity | OpAdvance | OpActivate (idx : Z) | OpDeactivate (idx : Z).
Definition ar_step (a : ActivityRecorder) (op : ArOp) : outcome ActivityRecorder :=
  match op with
  | OpActivity => ar_activity a
  | OpAdvance => ar_advance a
  | OpActivate idx => ar_activateStage idx a
  | OpDeactivate idx => ar_deactivateStage idx a
  end.
Definition ar_legal (n : nat) (op : ArOp) : Prop :=
  match op with OpActivate idx | OpDeactivate idx => 0 <= idx < Z.of_nat n | _ => True end.

Lemma ar_step_repr e a d op :
  ar_repr e a d → ar_legal (length (stageActive a)) op →
  ∃ a' d', ar_step a op = Ok a' ∧ ar_repr e a' d' ∧ length (stageActive a') = length (stageActive a) ∧
    longestLatency a' = longestLatency a.
Proof.
  intros Hr Hop. destruct op as [| |idx|idx]; cbn in *.
  - destruct (ar_activity_repr _ _ _ Hr) as (a' & ? & ? & Hs & ?). exists a', (line_write 0 true d). by rewrite Hs.
  - destruct (ar_advance_repr _ _ _ Hr) as (a' & ? & ? & Hs & ?).
    exists a', (line_advance false 0 d). by rewrite Hs.
  - destruct (vec_get_total "stageActive" _ _ Hop) as [on Hon].
    destruct (ar_activateStage_repr _ _ _ _ _ Hr Hon) as (a' & ? & ? & Hs & ?).
    exists a', d. by rewrite Hs, length_insert.
  - destruct (vec_get_total "stageActive" _ _ Hop) as [on Hon].
    destruct (ar_deactivateStage_repr _ _ _ _ _ Hr Hon) as (a' & ? & ? & Hs & ?).
    exists a', d. by rewrite Hs, length_insert.
Qed.

Lemma inFlight_slots e a d : ar_repr e a d → inFlight a = Ok (slots d (Z.to_nat (longestLatency a))).
Proof.
  intros Hr. pose proof (latency_nonneg _ _ _ Hr). destruct Hr as [_ Hb Hp Hf _]. unfold inFlight, slots.
  assert (∀ l acc, (∀ i, i ∈ l → Z.of_nat i <= longestLatency a) →
    foldM (λ l i, let! x := tb_read (- Z.of_nat i) (activityBuffer a) in Ok (l ++ [x])) l acc
    = Ok (acc ++ ((λ i, d (- Z.of_nat i)) <$> l))) as Hgen.
  { induction l as [|i l IH]; intros acc Hl; cbn [foldM]; [by rewrite app_nil_r|].
    rewrite (tr_read _ _ Hb).
    - rewrite IH by set_solver. by rewrite <- (assoc_L (++)).
    - specialize (Hl i ltac:(set_solver)). lia. }
  rewrite Hgen; [done|]. intros i Hi%elem_of_seq. lia.
Qed.

(** The recorder's count is exact: starting from a fresh recorder, whatever
    stages report and however many cycles pass, no operation fails its assertions
    or leaves the buffer, [validate]'s recount agrees with the count, and the
    recorder is inactive exactly when no stage is active and no communication of
    the last [longestLatency] cycles is in flight: the CPU stops ticking only
    then. *)
Theorem activity_exact n lat ops a0 :
  0 <= lat → newActivityRecorder n lat 0 = Ok a0 → Forall (ar_legal n) ops →
  ∃ a l, foldM ar_step ops a0 = Ok a ∧ inFlight a = Ok l ∧ ar_validate a = Ok () ∧
    (ar_active a = false ↔ true ∉ l ∧ true ∉ stageActive a).
Proof.
  intros Hlat H0 Hops.
  destruct (newActivityRecorder_repr n lat 0 Hlat ltac:(lia)) as (a1 & H1 & Hr & Hlen).
  assert (a1 = a0) as -> by congruence. clear H0 H1.
  assert (∃ a d, foldM ar_step ops a0 = Ok a ∧ ar_repr 0 a d) as (a & d & Hf & Hra).
  { revert Hr Hlen. generalize (λ _ : Z, false). generalize a0. clear a0 Hlat lat.
    induction Hops as [|op ops Hop Hops IH]; intros a d Hr Hlen; cbn [foldM]; [eauto|].
    rewrite <- Hlen in Hop. destruct (ar_step_repr _ _ _ _ Hr Hop) as (a' & d' & -> & Hr' & Hlen' & _).
    apply (IH a' d' Hr'). congruence. }
  exists a, (slots d (Z.to_nat (longestLatency a))). split; [done|].
  pose proof (inFlight_slots _ _ _ Hra) as Hin. split; [done|].
  pose proof (ap_count _ _ _ Hra) as Hc. unfold ar_validate, ar_active. rewrite Hin, Hc. split.
  - by rewrite (proj2 (Z.eqb_eq _ _)) by lia.
  - rewrite negb_false_iff, Z.eqb_eq, <- !count_true_zero.
    pose proof (count_true_nonneg (slots d (Z.to_nat (longestLatency a)))).
    pose proof (count_true_nonneg (stageActive a)). lia.
Qed.

(** A decode stage that becomes active, writes and goes idle again. *)
Lemma activity_exact_witness :
  ∃ a0 a l, newActivityRecorder 5 10 0 = Ok a0 ∧
    foldM ar_step [OpActivate 1; OpActivity; OpAdvance; OpDeactivate 1] a0 = Ok a ∧ inFlight a = Ok l ∧
    ar_validate a = Ok () ∧ (ar_active a = false ↔ true ∉ l ∧ true ∉ stageActive a).
Proof.
  destruct (newActivityRecorder_repr 5 10 0 ltac:(lia) ltac:(lia)) as (a0 & H0 & _). exists a0.
  destruct (activity_exact 5 10 [OpActivate 1; OpActivity; OpAdvance; OpDeactivate 1] a0) as (a & l & H);
    [lia|done| |by exists a, l].
  repeat constructor; cbn; lia.
Defined.
