(* ===== verification/CpuList.v ===== *)
(** * The CPU's list of instructions in flight and its activity

    [FullO3CPU] ([cpu/o3/cpu.cc]) keeps every instruction from its creation by
    fetch until it has committed or was squashed ([instList]); the stages queue the
    iterators of what has to go on [removeList], which is emptied at the end of the
    cycle.  [ActivityRecorder] ([cpu/activity.cc]) decides whether the CPU may
    stop ticking.  An iterator of the list is the instruction it points to; erasing
    one that is no longer in the list is undefined in C++ and an error here. *)

From S2P Require Import Prelude Regs Config DynInst Rob.

Local Open Scope Z_scope.

(** ** The list of instructions *)

Record CpuList := mkCpuList {
  cpu_instList : list DynInstPtr;
  cpu_removeList : list DynInstPtr;
  removeInstsThisCycle : bool;
}.

Definition addInst (p : DynInstPtr) (c : CpuList) : CpuList :=
  mkCpuList (cpu_instList c ++ [p]) (cpu_removeList c) (removeInstsThisCycle c).

Definition removeFrontInst (p : DynInstPtr) (c : CpuList) : CpuList :=
  mkCpuList (cpu_instList c) (cpu_removeList c ++ [p]) true.

Definition squashInstIt (p : DynInstPtr) (tid : ThreadID) (cs : CpuList * store) : outcome (CpuList * store) :=
  let '(c, s) := cs in
  let! i := deref p s in
  if (threadNumber i =? tid)%nat then
    let! s := modify setSquashed p s in
    Ok (mkCpuList (cpu_instList c) (cpu_removeList c ++ [p]) (removeInstsThisCycle c), s)
  else Ok (c, s).

(** The loop of [removeInstsUntil], youngest instruction first. *)
Fixpoint squashYounger (seq_num : InstSeqNum) (tid : ThreadID) (l : list DynInstPtr) (cs : CpuList * store)
  : outcome (CpuList * store) :=
  match l with
  | [] => Ok cs
  | p :: l' =>
      let! i := deref p (snd cs) in
      if seq_num <? seqNum i then
        let! cs := squashInstIt p tid cs in squashYounger seq_num tid l' cs
      else Ok cs
  end.

Definition removing (c : CpuList) : CpuList := mkCpuList (cpu_instList c) (cpu_removeList c) true.

Definition removeInstsUntil (seq_num : InstSeqNum) (tid : ThreadID) (cs : CpuList * store)
  : outcome (CpuList * store) :=
  let '(c, s) := cs in
  assert! negb (bool_decide (cpu_instList c = [])) as "removeInstsUntil: !instList.empty()" in
  squashYounger seq_num tid (reverse (cpu_instList c)) (removing c, s).

(** The loop of [removeInstsNotInROB]: stops at [end_it], which is in the list. *)
Fixpoint squashNotInROB (end_it : option DynInstPtr) (tid : ThreadID) (l : list DynInstPtr)
  (cs : CpuList * store) : outcome (CpuList * store) :=
  match l with
  | [] => match end_it with
          | None => Ok cs
          | Some _ => Err (OutOfRange "removeInstsNotInROB: end_it")
          end
  | p :: l' =>
      if bool_decide (end_it = Some p) then Ok cs
      else let! cs := squashInstIt p tid cs in squashNotInROB end_it tid l' cs
  end.

Definition removeInstsNotInROB (tid : ThreadID) (rob : ROB) (cs : CpuList * store) : outcome (CpuList * store) :=
  let '(c, s) := cs in
  if bool_decide (cpu_instList c = []) then Ok (c, s)
  else
    let! end_it := if isEmptyThread tid rob then Ok None
                   else let! p := readTailInst tid rob in Ok (Some p) in
    squashNotInROB end_it tid (reverse (cpu_instList c)) (removing c, s).

(** [instList.erase] for each queued iterator. *)
Fixpoint eraseInst (l : list DynInstPtr) (p : DynInstPtr) : outcome (list DynInstPtr) :=
  match l with
  | [] => Err (OutOfRange "instList.erase")
  | q :: l' => if bool_decide (q = p) then Ok l' else let! r := eraseInst l' p in Ok (q :: r)
  end.
Definition cleanUpRemovedInsts (c : CpuList) : outcome CpuList :=
  let! l := foldM eraseInst (cpu_removeList c) (cpu_instList c) in
  Ok (mkCpuList l [] false).

(** ** What it guarantees *)

(** Instructions are in the list once, in the order of their numbers, each with
    its own number; what waits for removal is in the list, once. *)
Record cpu_ok (c : CpuList) (s : store) : Prop := {
  co_sorted : StronglySorted Z.lt (cpu_instList c);
  co_insts : ∀ p, p ∈ cpu_instList c → ∃ i, s !! p = Some i ∧ seqNum i = p;
  co_once : NoDup (cpu_removeList c);
  co_in : cpu_removeList c ⊆ cpu_instList c;
}.

(** The instructions of thread [tid] in [l]. *)
Definition of_thread (tid : ThreadID) (s : store) (l : list DynInstPtr) : list DynInstPtr :=
  filter (λ p, threadNumber <$> s !! p = Some tid) l.

Definition squashIn (l : list DynInstPtr) (s : store) : store :=
  foldl (λ s p, alter setSquashed p s) s l.

Lemma setSquashed_ids i : seqNum (setSquashed i) = seqNum i ∧ threadNumber (setSquashed i) = threadNumber i.
Proof.
  unfold setSquashed. destruct (dropDolmaReqs_frame (status_set Squashed i)) as [_ _ Hs _ _ _ Ht].
  by rewrite Hs, Ht.
Qed.

Lemma squashIn_lookup l s p :
  NoDup l → squashIn l s !! p = (if bool_decide (p ∈ l) then setSquashed else id) <$> s !! p.
Proof.
  intros Hnd. revert s. induction Hnd as [|q l Hq Hnd IH]; intros s; cbn.
  { rewrite bool_decide_eq_false_2 by set_solver. by destruct (s !! p). }
  unfold squashIn in IH. rewrite IH. destruct (decide (p = q)) as [->|Hpq].
  - rewrite lookup_alter_eq, bool_decide_eq_false_2, bool_decide_eq_true_2 by set_solver.
    by destruct (s !! q).
  - rewrite lookup_alter_ne by done. rewrite (bool_decide_ext (p ∈ q :: l) (p ∈ l)) by set_solver. done.
Qed.

Lemma squashIn_ids l s p :
  threadNumber <$> squashIn l s !! p = threadNumber <$> s !! p ∧
  seqNum <$> squashIn l s !! p = seqNum <$> s !! p.
Proof.
  revert s. induction l as [|q l IH]; intros s; [done|].
  change (squashIn (q :: l) s) with (squashIn l (alter setSquashed q s)).
  destruct (IH (alter setSquashed q s)) as [-> ->].
  destruct (decide (p = q)) as [->|Hpq]; [|by rewrite lookup_alter_ne].
  rewrite lookup_alter_eq. destruct (s !! q) as [i|]; [|done]. cbn. by destruct (setSquashed_ids i) as [-> ->].
Qed.

Lemma of_thread_squash tid l s k : of_thread tid (squashIn k s) l = of_thread tid s l.
Proof. apply list_filter_iff. intros p. by rewrite (proj1 (squashIn_ids k s p)). Qed.

Lemma squashInstIt_spec p tid c s i :
  s !! p = Some i →
  squashInstIt p tid (c, s)
  = Ok (mkCpuList (cpu_instList c) (cpu_removeList c ++ of_thread tid s [p]) (removeInstsThisCycle c),
        squashIn (of_thread tid s [p]) s).
Proof.
  intros Hi. unfold squashInstIt, modify, modifyM, deref, of_thread, filter. cbn. rewrite Hi. cbn.
  destruct (threadNumber i =? tid)%nat eqn:Ht.
  - apply Nat.eqb_eq in Ht as <-. rewrite decide_True by done. cbn.
    do 2 f_equal. apply map_eq. intros q.
    destruct (decide (q = p)) as [->|?].
    + by rewrite lookup_insert_eq, lookup_alter_eq, Hi.
    + by rewrite lookup_insert_ne, lookup_alter_ne.
  - apply Nat.eqb_neq in Ht. rewrite decide_False by congruence. rewrite app_nil_r. by destruct c.
Qed.

Lemma foldM_squash tid l : ∀ c s,
  (∀ p, p ∈ l → is_Some (s !! p)) →
  foldM (λ cs p, squashInstIt p tid cs) l (c, s)
  = Ok (mkCpuList (cpu_instList c) (cpu_removeList c ++ of_thread tid s l) (removeInstsThisCycle c),
        squashIn (of_thread tid s l) s).
Proof.
  induction l as [|p l IH]; intros c s Hl; cbn [foldM].
  { cbn. rewrite app_nil_r. by destruct c. }
  destruct (Hl p) as [i Hi]; [set_solver|]. rewrite (squashInstIt_spec _ _ _ _ _ Hi), IH.
  - rewrite of_thread_squash. cbn [cpu_instList cpu_removeList removeInstsThisCycle].
    replace (of_thread tid s (p :: l)) with (of_thread tid s [p] ++ of_thread tid s l)
      by (unfold of_thread; by rewrite <- filter_app).
    rewrite (assoc_L (++)). unfold squashIn. by rewrite foldl_app.
  - intros q Hq. destruct (Hl q) as [j Hj]; [set_solver|].
    destruct (squashIn_ids (of_thread tid s [p]) s q) as [_ H]. rewrite Hj in H.
    destruct (squashIn _ _ !! q); [by eexists|done].
Qed.

(** The loops stop where the older instructions begin. *)
Lemma squashYounger_foldM sn tid l : ∀ cs,
  (∀ p, p ∈ l → seqNum <$> snd cs !! p = Some p) →
  StronglySorted (Z.gt) l →
  squashYounger sn tid l cs = foldM (λ cs p, squashInstIt p tid cs) (filter (λ p, sn < p) l) cs.
Proof.
  induction l as [|p l IH]; intros [c s] Hl Hsort; [done|].
  apply StronglySorted_inv in Hsort as [Hsort Hp]. rewrite Forall_forall in Hp. cbn [squashYounger].
  assert (seqNum <$> s !! p = Some p) as Hs by (apply (Hl p); set_solver).
  destruct (s !! p) as [i|] eqn:Hi; [|done]. cbn in Hs. simplify_eq. unfold deref. cbn [snd]. rewrite Hi.
  destruct (Z.ltb_spec sn (seqNum i)).
  - rewrite filter_cons_True by done. cbn [foldM]. rewrite (squashInstIt_spec _ _ _ _ _ Hi). apply IH; [|done].
    intros q Hq. cbn [snd]. rewrite (proj2 (squashIn_ids _ s q)). apply (Hl q). set_solver.
  - rewrite filter_cons_False by lia. replace (filter _ l) with (@nil DynInstPtr); [done|]. symmetry.
    apply filter_none, Forall_forall. intros q Hq. specialize (Hp q Hq). cbn in Hp. lia.
Qed.

Lemma squashAfter_foldM tid k l r : ∀ cs,
  k ∉ l →
  squashNotInROB (Some k) tid (l ++ k :: r) cs = foldM (λ cs p, squashInstIt p tid cs) l cs.
Proof.
  induction l as [|p l IH]; intros cs Hk; cbn.
  { by rewrite bool_decide_eq_true_2. }
  rewrite bool_decide_eq_false_2 by set_solver. destruct (squashInstIt p tid cs) as [cs'|]; [|done].
  apply IH. set_solver.
Qed.

Lemma squashAfter_none tid l : ∀ cs,
  squashNotInROB None tid l cs = foldM (λ cs p, squashInstIt p tid cs) l cs.
Proof.
  induction l as [|p l IH]; intros cs; cbn; [done|].
  destruct (squashInstIt p tid cs); [apply IH|done].
Qed.

(** ** The operations, exactly *)

Lemma of_thread_subset tid s l : of_thread tid s l ⊆ l.
Proof. intros p. unfold of_thread. rewrite list_elem_of_filter. tauto. Qed.

Lemma cpu_ok_lookup c s p : cpu_ok c s → p ∈ cpu_instList c → seqNum <$> s !! p = Some p.
Proof. intros Hok Hp. destruct (co_insts _ _ Hok p Hp) as (i & -> & Hs). cbn. by rewrite Hs. Qed.

Lemma cpu_ok_present c s p : cpu_ok c s → p ∈ cpu_instList c → is_Some (s !! p).
Proof. intros Hok Hp. destruct (co_insts _ _ Hok p Hp) as (i & -> & _). by eexists. Qed.

Lemma sorted_reverse c s : cpu_ok c s → StronglySorted (Z.gt) (reverse (cpu_instList c)).
Proof. intros [Hs _ _ _]. by apply StronglySorted_reverse. Qed.

(** Queueing instructions that are not queued yet keeps the list in order. *)
Lemma cpu_ok_queue c s l b :
  cpu_ok c s → NoDup l → l ⊆ cpu_instList c → (∀ p, p ∈ l → p ∉ cpu_removeList c) →
  cpu_ok (mkCpuList (cpu_instList c) (cpu_removeList c ++ l) b) (squashIn l s).
Proof.
  intros [H1 H2 H3 H4] Hnd Hl Hnew. split; cbn; [done| | |set_solver].
  - intros p Hp. destruct (H2 p Hp) as (i & Hi & Hs). rewrite squashIn_lookup by done. rewrite Hi.
    case_bool_decide; cbn; [|by eauto]. eexists. split; [done|].
    by rewrite (proj1 (setSquashed_ids i)).
  - apply NoDup_app. split; [done|]. split; [|done]. intros p Hp Hl'. by apply (Hnew p).
Qed.

(** The instructions a squash after [seq_num] takes out of thread [tid], youngest
    first. *)
Definition squashedUntil (seq_num : InstSeqNum) (tid : ThreadID) (c : CpuList) (s : store) : list DynInstPtr :=
  of_thread tid s (filter (λ p, seq_num < p) (reverse (cpu_instList c))).

Lemma removeInstsUntil_exact seq_num tid c s :
  cpu_ok c s → cpu_instList c ≠ [] →
  removeInstsUntil seq_num tid (c, s)
  = Ok (mkCpuList (cpu_instList c) (cpu_removeList c ++ squashedUntil seq_num tid c s) true,
        squashIn (squashedUntil seq_num tid c s) s).
Proof.
  intros Hok Hne. unfold removeInstsUntil. rewrite bool_decide_eq_false_2 by done. cbn [negb].
  rewrite squashYounger_foldM.
  - rewrite foldM_squash; [done|]. intros p [_ Hp]%list_elem_of_filter.
    apply (cpu_ok_present c); [done|]. by apply elem_of_reverse.
  - intros p. rewrite elem_of_reverse. intros Hp. by apply (cpu_ok_lookup c s).
  - by eapply sorted_reverse.
Qed.

(** Erasing what is queued leaves the rest, in order. *)
Lemma eraseInst_filter l p : NoDup l → p ∈ l → eraseInst l p = Ok (filter (λ q, q ≠ p) l).
Proof.
  induction l as [|q l IH]; intros Hnd Hp; [set_solver|]. apply NoDup_cons in Hnd as [Hq Hnd]. cbn [eraseInst].
  case_bool_decide as Heq; [subst q|].
  - rewrite filter_cons_False by (intros Hn; by apply Hn). rewrite filter_all; [done|]. apply Forall_forall.
    intros x Hx ->. done.
  - rewrite IH, filter_cons_True by (done || set_solver). done.
Qed.

Lemma erase_all ps : ∀ l,
  NoDup ps → NoDup l → ps ⊆ l → foldM eraseInst ps l = Ok (filter (λ q, q ∉ ps) l).
Proof.
  induction ps as [|p ps IH]; intros l Hnd Hl Hsub; cbn [foldM].
  { rewrite filter_all; [done|]. apply Forall_forall. set_solver. }
  apply NoDup_cons in Hnd as [Hp Hnd]. rewrite eraseInst_filter by (done || set_solver).
  rewrite IH; [|done|by apply NoDup_filter|].
  - f_equal. rewrite list_filter_filter. apply list_filter_iff. intros q. set_solver.
  - intros q Hq. apply list_elem_of_filter. split; [set_solver|]. apply Hsub. set_solver.
Qed.

Lemma squashedUntil_in seq_num tid c s : squashedUntil seq_num tid c s ⊆ cpu_instList c.
Proof.
  intros p Hp%of_thread_subset. apply list_elem_of_filter in Hp as [_ Hp]. by apply elem_of_reverse.
Qed.

Lemma squashedUntil_once seq_num tid c s : cpu_ok c s → NoDup (squashedUntil seq_num tid c s).
Proof.
  intros [Hs _ _ _]. do 2 apply NoDup_filter. rewrite reverse_Permutation. by apply sorted_lt_NoDup.
Qed.

Lemma elem_of_squashedUntil seq_num tid c s p :
  p ∈ squashedUntil seq_num tid c s ↔
  p ∈ cpu_instList c ∧ seq_num < p ∧ threadNumber <$> s !! p = Some tid.
Proof.
  unfold squashedUntil, of_thread. rewrite !list_elem_of_filter, elem_of_reverse. tauto.
Qed.

(** What is queued goes at the end of the cycle. *)
Lemma cleanUp_exact c s :
  cpu_ok c s →
  cleanUpRemovedInsts c = Ok (mkCpuList (filter (λ p, p ∉ cpu_removeList c) (cpu_instList c)) [] false).
Proof.
  intros [Hs _ Hr Hsub]. unfold cleanUpRemovedInsts. rewrite erase_all; [done|done| |done].
  by apply sorted_lt_NoDup.
Qed.

Lemma cleanUp_ok c s c' : cpu_ok c s → cleanUpRemovedInsts c = Ok c' → cpu_ok c' s.
Proof.
  intros Hok H. rewrite (cleanUp_exact _ _ Hok) in H. inv_ok H. destruct Hok as [H1 H2 H3 H4].
  split; cbn; [by apply StronglySorted_filter| |constructor|set_solver].
  intros p [_ Hp]%list_elem_of_filter. auto.
Qed.

(** A squash of one thread takes exactly its younger instructions out of
    the pipeline: [removeInstsUntil] followed by the clean-up at the end of the
    cycle marks the instructions of the thread with a larger number squashed,
    touches no other instruction, and leaves in the CPU's list, in program order,
    all the others except those queued for removal before. *)
Theorem squash_removes_younger seq_num tid c s :
  cpu_ok c s → cpu_instList c ≠ [] →
  (∀ p, p ∈ cpu_removeList c → p ∉ squashedUntil seq_num tid c s) →
  ∃ c1 s1 c2,
    removeInstsUntil seq_num tid (c, s) = Ok (c1, s1) ∧ cleanUpRemovedInsts c1 = Ok c2 ∧ cpu_ok c2 s1 ∧
    (∀ p, p ∈ cpu_instList c2 ↔
       p ∈ cpu_instList c ∧ p ∉ cpu_removeList c ∧ ¬ (seq_num < p ∧ threadNumber <$> s !! p = Some tid)) ∧
    (∀ p, s1 !! p =
       (if bool_decide (p ∈ cpu_instList c ∧ seq_num < p ∧ threadNumber <$> s !! p = Some tid)
        then setSquashed else id) <$> s !! p).
Proof.
  intros Hok Hne Hnew. rewrite removeInstsUntil_exact by done. do 3 eexists. split; [done|].
  pose proof (cpu_ok_queue c s _ true Hok (squashedUntil_once seq_num tid c s Hok)
    (squashedUntil_in seq_num tid c s) (λ p H H', Hnew p H' H)) as Hok1.
  split; [by eapply cleanUp_exact|]. split; [eapply cleanUp_ok; [done|by eapply cleanUp_exact]|].
  cbn. split.
  - intros p. rewrite list_elem_of_filter, not_elem_of_app, elem_of_squashedUntil. tauto.
  - intros p. rewrite squashIn_lookup by by apply squashedUntil_once.
    by rewrite (bool_decide_ext _ _ (elem_of_squashedUntil _ _ _ _ _)).
Qed.

(** Two squashes of one thread in the same cycle queue the same iterators twice;
    the clean-up then erases an iterator that is gone. *)
Lemma squash_twice_erases_twice seq_num tid c s c1 s1 c2 s2 :
  cpu_ok c s → squashedUntil seq_num tid c s ≠ [] →
  removeInstsUntil seq_num tid (c, s) = Ok (c1, s1) → removeInstsUntil seq_num tid (c1, s1) = Ok (c2, s2) →
  ∃ p, p ∈ squashedUntil seq_num tid c s ∧ ∃ l1 l2 l3, cpu_removeList c2 = l1 ++ p :: l2 ++ p :: l3.
Proof.
  intros Hok Hne H1 H2.
  assert (cpu_instList c ≠ []) as Hc.
  { intros Hn. apply Hne. unfold squashedUntil. by rewrite Hn. }
  rewrite removeInstsUntil_exact in H1 by done. inv_ok H1.
  unfold removeInstsUntil in H2. rewrite bool_decide_eq_false_2 in H2 by done. cbn [negb cpu_instList] in H2.
  set (l := squashedUntil seq_num tid c s) in *.
  assert (∀ q, q ∈ cpu_instList c → seqNum <$> squashIn l s !! q = Some q) as Hq.
  { intros q Hq. rewrite (proj2 (squashIn_ids l s q)). by apply (cpu_ok_lookup c). }
  rewrite squashYounger_foldM in H2.
  2: { intros q. rewrite elem_of_reverse. apply Hq. }
  2: { by eapply sorted_reverse. }
  rewrite foldM_squash in H2.
  2: { intros q [_ Hin%elem_of_reverse]%list_elem_of_filter.
       rewrite reverse_involutive in Hin. specialize (Hq q Hin).
       destruct (squashIn l s !! q); [by eexists|done]. }
  inv_ok H2. rewrite of_thread_squash. cbn. fold (squashedUntil seq_num tid c s). fold l.
  destruct l as [|p l']; [done|]. exists p. split; [set_solver|].
  exists (cpu_removeList c), l', l'. by rewrite <- (assoc_L (++)).
Qed.

(** A squash from commit: what is younger than the thread's youngest instruction
    in the reorder buffer goes, everything when it has none. *)
Definition robTail (tid : ThreadID) (rob : ROB) : option DynInstPtr :=
  if isEmptyThread tid rob then None else last (instList rob tid).

Lemma removeInstsNotInROB_exact tid rob c s :
  cpu_ok c s → cpu_instList c ≠ [] →
  (isEmptyThread tid rob = false → ∃ t, last (instList rob tid) = Some t ∧ t ∈ cpu_instList c) →
  let l := match robTail tid rob with
           | Some t => squashedUntil t tid c s
           | None => of_thread tid s (reverse (cpu_instList c))
           end in
  removeInstsNotInROB tid rob (c, s)
  = Ok (mkCpuList (cpu_instList c) (cpu_removeList c ++ l) true, squashIn l s).
Proof.
  intros Hok Hne Ht. unfold removeInstsNotInROB, robTail, readTailInst. rewrite bool_decide_eq_false_2 by done.
  destruct (isEmptyThread tid rob).
  { rewrite squashAfter_none, foldM_squash; [done|]. intros p Hp. apply (cpu_ok_present c); [done|].
    by apply elem_of_reverse. }
  destruct (Ht eq_refl) as (t & -> & Hin). cbn.
  destruct (list_elem_of_split _ _ Hin) as (l1 & l2 & Heq).
  pose proof (co_sorted _ _ Hok) as Hsort. rewrite Heq in Hsort.
  apply StronglySorted_app in Hsort as (H1 & Hs1 & [_ H2]%StronglySorted_inv).
  rewrite Forall_forall in H2.
  assert (filter (λ p, t < p) (reverse (cpu_instList c)) = reverse l2) as Hfil.
  { rewrite Heq, reverse_app, reverse_cons, !filter_app, filter_cons_False by lia. cbn.
    rewrite app_nil_r, (filter_none _ (reverse l1)), app_nil_r, filter_all; [done|..];
      apply Forall_forall; intros q Hq; rewrite elem_of_reverse in Hq; [by apply H2|].
    rewrite Z.nlt_ge. apply Z.lt_le_incl, H1; set_solver. }
  unfold squashedUntil. rewrite Hfil, Heq, reverse_app, reverse_cons, <- (assoc_L (++)). cbn [app].
  rewrite squashAfter_foldM, foldM_squash; [by rewrite <- Heq| |].
  - intros p Hp. rewrite elem_of_reverse in Hp. apply (cpu_ok_present c); [done|]. rewrite Heq. set_solver.
  - intros Hq. rewrite elem_of_reverse in Hq. specialize (H2 t Hq). lia.
Qed.

(** Four instructions of two threads; the first has committed in this cycle. *)
Module CpuListExample.
Definition insts : store :=
  list_to_map ((λ '(sn, tid), (sn, initInst (mkStaticInst 0%N 1 0 0 "") 0 sn tid)) <$>
    [(1, 0%nat); (2, 0%nat); (3, 1%nat); (4, 0%nat)]).
Definition list : CpuList := mkCpuList [1; 2; 3; 4] [1] true.
Lemma list_ok : cpu_ok list insts.
Proof.
  split; [repeat constructor| |repeat constructor; set_solver|set_solver].
  intros p Hp. cbn in Hp. repeat (apply elem_of_cons in Hp as [->|Hp]; [by eexists|]). set_solver.
Qed.
End CpuListExample.

Lemma squash_removes_younger_witness :
  ∃ c1 s1 c2, removeInstsUntil 2 0 (CpuListExample.list, CpuListExample.insts) = Ok (c1, s1) ∧
    cleanUpRemovedInsts c1 = Ok c2 ∧ cpu_ok c2 s1.
Proof.
  destruct (squash_removes_younger 2 0 CpuListExample.list CpuListExample.insts CpuListExample.list_ok)
    as (c1 & s1 & c2 & H1 & H2 & H3 & _); [done| |by exists c1, s1, c2].
  intros p Hp. apply list_elem_of_singleton in Hp as ->. rewrite elem_of_squashedUntil. lia.
Defined.
