(* ===== verification/X86Pc.v ===== *)
(** * Program counters of the front end

    What fetch and decode use of the instruction set's [PCState] beyond the class
    [PcState]: the micro PC, [branching], [operator==] and the target a direct branch
    encodes.  The instance is the one of x86 ([arch/x86/types.hh],
    [arch/generic/types.hh], [arch/x86/utility.hh], [arch/x86/insts]); the target
    a branch encodes comes from the decoder the build generates and stays a
    parameter. *)

From S2P Require Import Prelude Regs Config DynInst DirPred BPred.

Local Open Scope Z_scope.

Class PcFlow (PC : Type) := {
  pc_nextInstAddr : PC → Addr;
  pc_microPC : PC → Z;
  pc_branching : PC → bool;
  pc_eqb : PC → PC → bool; (** [operator==] *)
  pc_branchTarget : StaticInst → PC → PC; (** of a direct branch *)
}.

(** [operator==] need not be equality: what the front end needs of it. *)
Class PcFlowOk (PC : Type) {HPC : PcState PC} {HF : PcFlow PC} := {
  pc_eqb_equiv : Equivalence (λ a b : PC, pc_eqb a b = true);
  pc_eqb_addr a b : pc_eqb a b = true → pc_instAddr a = pc_instAddr b;
  pc_eqb_micro a b : pc_eqb a b = true → pc_microPC a = pc_microPC b;
}.

(** ** x86 *)

Record PCState := mkPCState {
  x_pc : Addr;
  x_npc : Addr;
  x_upc : Z; (** [uint16_t] *)
  x_nupc : Z;
  x_size : Z; (** [uint8_t] *)
}.

(** [sizeof(MachInst)]: [uint64_t] *)
Definition MachInst_size : Z := 8.
Definition u16 := wrap 16.

Definition x_set (val : Addr) : PCState := mkPCState val (u64 (val + MachInst_size)) 0 1 0.
Definition x_setNPC (val : Addr) (p : PCState) : PCState := mkPCState (x_pc p) val (x_upc p) (x_nupc p) 0.
Definition x_setSize (newSize : Z) (p : PCState) : PCState :=
  mkPCState (x_pc p) (x_npc p) (x_upc p) (x_nupc p) (u8 newSize).
Definition x_branching (p : PCState) : bool :=
  negb (x_npc p =? u64 (x_pc p + x_size p)) || negb (x_nupc p =? x_upc p + 1).
Definition x_advance (p : PCState) : PCState :=
  mkPCState (x_npc p) (u64 (x_npc p + MachInst_size)) (x_upc p) (x_nupc p) 0.
Definition x_uAdvance (p : PCState) : PCState :=
  mkPCState (x_pc p) (x_npc p) (x_nupc p) (u16 (x_nupc p + 1)) (x_size p).
Definition x_uEnd (p : PCState) : PCState :=
  mkPCState (x_npc p) (u64 (x_npc p + MachInst_size)) 0 1 0.
Definition x_eqb (p q : PCState) : bool :=
  (x_pc p =? x_pc q) && (x_npc p =? x_npc q) && (x_upc p =? x_upc q) && (x_nupc p =? x_nupc q).

(** [X86MicroopBase::advancePC] and [X86StaticInst::advancePC]. *)
Definition x_advancePC (si : StaticInst) (p : PCState) : PCState :=
  if si_flag IsMicroop si then if si_flag IsLastMicroop si then x_uEnd p else x_uAdvance p
  else x_advance p.
Definition x_buildRetPC (curPC callPC : PCState) : PCState := x_uEnd callPC.

#[export] Instance x86_PcState : PcState PCState := {
  pc_set := x_set;
  pc_instAddr := x_pc;
  pc_advance := x_advancePC;
  pc_buildRet := x_buildRetPC;
}.

Definition x86_PcFlow (branchTarget : StaticInst → PCState → PCState) : PcFlow PCState := {|
  pc_nextInstAddr := x_npc;
  pc_microPC := x_upc;
  pc_branching := x_branching;
  pc_eqb := x_eqb;
  pc_branchTarget := branchTarget;
|}.

Lemma x_eqb_spec p q :
  x_eqb p q = true ↔ x_pc p = x_pc q ∧ x_npc p = x_npc q ∧ x_upc p = x_upc q ∧ x_nupc p = x_nupc q.
Proof. unfold x_eqb. rewrite !andb_true_iff, !Z.eqb_eq. tauto. Qed.

#[export] Instance x86_PcFlowOk bt : @PcFlowOk PCState x86_PcState (x86_PcFlow bt).
Proof.
  split; cbn.
  - split; intros p; intros; rewrite x_eqb_spec in *; intuition congruence.
  - intros a b H%x_eqb_spec. tauto.
  - intros a b H%x_eqb_spec. tauto.
Qed.
