(* ===== verification/Decode.v ===== *)
(** * The decode stage

    [DefaultDecode] ([cpu/o3/decode.hh], [cpu/o3/decode_impl.hh]): takes the
    instructions fetch sent, checks the direction and the target fetch predicted for
    direct branches, redirects fetch when the target is wrong, and hands the
    instructions to rename, keeping them in a skid buffer while rename is blocked.

    The stage works on the instructions, their PC states ([FrontInst]), the CPU's
    list of instructions and its activity recorder, gathered in [Dec].  What arrives
    through the time buffers is an argument ([fromFetch], [DecodeInputs]).
    Statistics and tracing are left out. *)

From S2P Require Import Prelude Regs Config DynInst TimeBuf Activity CpuList DirPred BPred X86Pc.

Local Open Scope Z_scope.

(** ** Data *)

(** The fields of a dynamic instruction only the front end reads; [pc] of
    [DynInst] is the address of [fi_pc].  The macro-op is [None] outside one. *)
Record FrontInst (PC Macro : Type) := mkFrontInst {
  fi_pc : PC; (** [pcState()] *)
  fi_predPC : PC; (** [readPredTarg()] *)
  fi_macroop : option Macro;
}.
Arguments mkFrontInst {PC Macro}. Arguments fi_pc {PC Macro}. Arguments fi_predPC {PC Macro}.
Arguments fi_macroop {PC Macro}.

Inductive DecodeStatus : Type :=
  | DRunning | DIdle | DStartSquash | DSquashing | DBlocked | DUnblocking.
#[export] Instance DecodeStatus_eq_dec : EqDecision DecodeStatus.
Proof. solve_decision. Defined.

(** [enum StageIdx] of [FullO3CPU]. *)
Definition FetchIdx : Z := 0.
Definition DecodeIdx : Z := 1.

Section decode.
Context {PC Macro : Type} {HPC : PcState PC} {HF : PcFlow PC}.

(** [decodeComm]: what decode tells fetch about a thread. *)
Record DecodeInfo := mkDecodeInfo {
  di_branchMispredict : bool;
  di_predIncorrect : bool;
  di_mispredictInst : option DynInstPtr;
  di_squash : bool;
  di_doneSeqNum : InstSeqNum;
  di_nextPC : PC;
  di_branchTaken : bool;
  di_squashInst : option DynInstPtr;
}.
Definition noDecodeInfo : DecodeInfo := mkDecodeInfo false false None false 0 (pc_set 0) false None.

Record Decode := mkDecode {
  dec_active : bool; (** [_status] *)
  decodeStatus : ThreadID → DecodeStatus;
  dec_insts : ThreadID → list DynInstPtr; (** [insts], the front first *)
  dec_skidBuffer : ThreadID → list DynInstPtr; (** [skidBuffer] *)
  renameStall : ThreadID → bool; (** [stalls[tid].rename] *)
  decodeBlock : ThreadID → bool; (** of [toFetch] *)
  decodeUnblock : ThreadID → bool; (** of [toFetch] *)
  decodeInfo : ThreadID → DecodeInfo; (** of [toFetch] *)
  decoded : list DynInstPtr; (** [toRename->insts[0 .. toRenameIndex)] *)
  dec_wroteToTimeBuffer : bool;
  decodeWidth : nat;
  dec_skidBufferMax : nat;
  dec_numThreads : nat;
  dec_activeThreads : list ThreadID;
}.

Definition set_dec_active (v : bool) (x : Decode) : Decode :=
  mkDecode v (decodeStatus x) (dec_insts x) (dec_skidBuffer x) (renameStall x)
    (decodeBlock x) (decodeUnblock x) (decodeInfo x) (decoded x)
    (dec_wroteToTimeBuffer x) (decodeWidth x) (dec_skidBufferMax x)
    (dec_numThreads x) (dec_activeThreads x).
Definition set_decodeStatus (v : ThreadID → DecodeStatus) (x : Decode) : Decode :=
  mkDecode (dec_active x) v (dec_insts x) (dec_skidBuffer x) (renameStall x)
    (decodeBlock x) (decodeUnblock x) (decodeInfo x) (decoded x)
    (dec_wroteToTimeBuffer x) (decodeWidth x) (dec_skidBufferMax x)
    (dec_numThreads x) (dec_activeThreads x).
Definition set_dec_insts (v : ThreadID → list DynInstPtr) (x : Decode) : Decode :=
  mkDecode (dec_active x) (decodeStatus x) v (dec_skidBuffer x) (renameStall x)
    (decodeBlock x) (decodeUnblock x) (decodeInfo x) (decoded x)
    (dec_wroteToTimeBuffer x) (decodeWidth x) (dec_skidBufferMax x)
    (dec_numThreads x) (dec_activeThreads x).
Definition set_dec_skidBuffer (v : ThreadID → list DynInstPtr) (x : Decode) : Decode :=
  mkDecode (dec_active x) (decodeStatus x) (dec_insts x) v (renameStall x)
    (decodeBlock x) (decodeUnblock x) (decodeInfo x) (decoded x)
    (dec_wroteToTimeBuffer x) (decodeWidth x) (dec_skidBufferMax x)
    (dec_numThreads x) (dec_activeThreads x).
Definition set_renameStall (v : ThreadID → bool) (x : Decode) : Decode :=
  mkDecode (dec_active x) (decodeStatus x) (dec_insts x) (dec_skidBuffer x) v
    (decodeBlock x) (decodeUnblock x) (decodeInfo x) (decoded x)
    (dec_wroteToTimeBuffer x) (decodeWidth x) (dec_skidBufferMax x)
    (dec_numThreads x) (dec_activeThreads x).
Definition set_decodeBlock (v : ThreadID → bool) (x : Decode) : Decode :=
  mkDecode (dec_active x) (decodeStatus x) (dec_insts x) (dec_skidBuffer x)
    (renameStall x) v (decodeUnblock x) (decodeInfo x) (decoded x)
    (dec_wroteToTimeBuffer x) (decodeWidth x) (dec_skidBufferMax x)
    (dec_numThreads x) (dec_activeThreads x).
Definition set_decodeUnblock (v : ThreadID → bool) (x : Decode) : Decode :=
  mkDecode (dec_active x) (decodeStatus x) (dec_insts x) (dec_skidBuffer x)
    (renameStall x) (decodeBlock x) v (decodeInfo x) (decoded x)
    (dec_wroteToTimeBuffer x) (decodeWidth x) (dec_skidBufferMax x)
    (dec_numThreads x) (dec_activeThreads x).
Definition set_decodeInfo (v : ThreadID → DecodeInfo) (x : Decode) : Decode :=
  mkDecode (dec_active x) (decodeStatus x) (dec_insts x) (dec_skidBuffer x)
    (renameStall x) (decodeBlock x) (decodeUnblock x) v (decoded x)
    (dec_wroteToTimeBuffer x) (decodeWidth x) (dec_skidBufferMax x)
    (dec_numThreads x) (dec_activeThreads x).
Definition set_decoded (v : list DynInstPtr) (x : Decode) : Decode :=
  mkDecode (dec_active x) (decodeStatus x) (dec_insts x) (dec_skidBuffer x)
    (renameStall x) (decodeBlock x) (decodeUnblock x) (decodeInfo x) v
    (dec_wroteToTimeBuffer x) (decodeWidth x) (dec_skidBufferMax x)
    (dec_numThreads x) (dec_activeThreads x).
Definition set_dec_wroteToTimeBuffer (v : bool) (x : Decode) : Decode :=
  mkDecode (dec_active x) (decodeStatus x) (dec_insts x) (dec_skidBuffer x)
    (renameStall x) (decodeBlock x) (decodeUnblock x) (decodeInfo x)
    (decoded x) v (decodeWidth x) (dec_skidBufferMax x) (dec_numThreads x)
    (dec_activeThreads x).


Record Dec := mkDec {
  dw : Decode;
  dw_insts : store;
  dw_front : gmap DynInstPtr (FrontInst PC Macro);
  dw_cpu : CpuList;
  dw_activity : ActivityRecorder;
}.
Definition dw_set (x : Decode) (w : Dec) : Dec :=
  mkDec x (dw_insts w) (dw_front w) (dw_cpu w) (dw_activity w).
Definition dw_on (f : Decode → Decode) (w : Dec) : Dec := dw_set (f (dw w)) w.
Definition dw_set_insts (s : store) (w : Dec) : Dec :=
  mkDec (dw w) s (dw_front w) (dw_cpu w) (dw_activity w).
Definition dw_set_cpu (cs : CpuList * store) (w : Dec) : Dec :=
  mkDec (dw w) (snd cs) (dw_front w) (fst cs) (dw_activity w).
Definition dw_set_front (m : gmap DynInstPtr (FrontInst PC Macro)) (w : Dec) : Dec :=
  mkDec (dw w) (dw_insts w) m (dw_cpu w) (dw_activity w).
Definition dw_set_activity (a : ActivityRecorder) (w : Dec) : Dec :=
  mkDec (dw w) (dw_insts w) (dw_front w) (dw_cpu w) a.

(** What the other stages told decode, as it arrives this cycle. *)
Record DecodeInputs := mkDecodeInputs {
  fromFetch : list DynInstPtr; (** [fromFetch->insts[0 .. size)] *)
  in_renameBlock : ThreadID → bool;
  in_renameUnblock : ThreadID → bool;
  in_commitSquash : ThreadID → bool; (** [fromCommit->commitInfo[tid].squash] *)
}.

Definition derefFront (p : DynInstPtr) (m : gmap DynInstPtr (FrontInst PC Macro)) : outcome (FrontInst PC Macro) :=
  match m !! p with Some f => Ok f | None => Err (NullDeref "DynInstPtr") end.

(** ** Start and drain *)

Definition newDecode (width fetchWidth fetchToDecodeDelay threads : nat) (active : list ThreadID) : Decode :=
  mkDecode false (λ _, DIdle) (λ _, []) (λ _, []) (λ _, false) (λ _, false) (λ _, false) (λ _, noDecodeInfo)
    [] false width ((fetchToDecodeDelay + 1) * fetchWidth) threads active.

(** [resetStage], also [startupStage] and [takeOverFrom]. *)
Definition dec_resetStage (x : Decode) : Decode :=
  foldl (λ x tid, set_renameStall (<[tid := false]> (renameStall x))
                    (set_decodeStatus (<[tid := DIdle]> (decodeStatus x)) x))
    (set_dec_active false x) (seq 0 (dec_numThreads x)).

Definition dec_drainSanityCheck (x : Decode) : outcome () :=
  foldM (λ _ tid,
    assert! bool_decide (dec_insts x tid = []) as "decode: insts[tid].empty()" in
    assert! bool_decide (dec_skidBuffer x tid = []) as "decode: skidBuffer[tid].empty()" in
    Ok ()) (seq 0 (dec_numThreads x)) ().

Definition dec_isDrained (x : Decode) : bool :=
  forallb (λ tid, bool_decide (dec_insts x tid = []) && bool_decide (dec_skidBuffer x tid = []) &&
                  (bool_decide (decodeStatus x tid = DRunning) || bool_decide (decodeStatus x tid = DIdle)))
    (seq 0 (dec_numThreads x)).

(** ** Blocking *)

Definition dec_setStatus (tid : ThreadID) (st : DecodeStatus) (x : Decode) : Decode :=
  set_decodeStatus (<[tid := st]> (decodeStatus x)) x.
Definition dec_setBlock (tid : ThreadID) (b : bool) (x : Decode) : Decode :=
  set_decodeBlock (<[tid := b]> (decodeBlock x)) x.
Definition dec_setUnblock (tid : ThreadID) (b : bool) (x : Decode) : Decode :=
  set_decodeUnblock (<[tid := b]> (decodeUnblock x)) x.
Definition dec_statusIs (x : Decode) (tid : ThreadID) (st : DecodeStatus) : bool :=
  bool_decide (decodeStatus x tid = st).

Definition dec_checkStall (tid : ThreadID) (x : Decode) : bool := renameStall x tid.

Definition dec_skidInsert (tid : ThreadID) (w : Dec) : outcome Dec :=
  let! x := foldM (λ x p,
      let! i := deref p (dw_insts w) in
      assert! (tid =? threadNumber i)%nat as "skidInsert: tid == inst->threadNumber" in
      Ok (set_dec_skidBuffer (<[tid := dec_skidBuffer x tid ++ [p]]> (dec_skidBuffer x))
            (set_dec_insts (<[tid := tail (dec_insts x tid)]> (dec_insts x)) x)))
    (dec_insts (dw w) tid) (dw w) in
  assert! (length (dec_skidBuffer x tid) <=? dec_skidBufferMax x)%nat
    as "skidInsert: skidBuffer[tid].size() <= skidBufferMax" in
  Ok (dw_set x w).

Definition dec_block (tid : ThreadID) (w : Dec) : outcome (bool * Dec) :=
  let! w := dec_skidInsert tid w in
  let x := dw w in
  if negb (dec_statusIs x tid DBlocked) then
    let x := dec_setStatus tid DBlocked x in
    let x := if decodeUnblock x tid then dec_setUnblock tid false x
             else set_dec_wroteToTimeBuffer true (dec_setBlock tid true x) in
    Ok (true, dw_set x w)
  else Ok (false, w).

Definition dec_unblock (tid : ThreadID) (x : Decode) : bool * Decode :=
  match dec_skidBuffer x tid with
  | [] => (true, dec_setStatus tid DRunning (set_dec_wroteToTimeBuffer true (dec_setUnblock tid true x)))
  | _ => (false, x)
  end.

Definition dec_skidsEmpty (x : Decode) : bool :=
  forallb (λ tid, bool_decide (dec_skidBuffer x tid = [])) (dec_activeThreads x).

(** ** Squashing *)

Definition dec_clearQueues (tid : ThreadID) (x : Decode) : Decode :=
  set_dec_skidBuffer (<[tid := []]> (dec_skidBuffer x)) (set_dec_insts (<[tid := []]> (dec_insts x)) x).

(** [squash(inst, tid)]: a branch whose target was predicted wrongly. *)
Definition squashFromBranch (inp : DecodeInputs) (p : DynInstPtr) (tid : ThreadID) (w : Dec) : outcome Dec :=
  let! i := deref p (dw_insts w) in
  let! f := derefFront p (dw_front w) in
  let taken := pc_branching (fi_pc f) || static i IsUncondControl in
  let info := mkDecodeInfo true true (Some p) true (seqNum i)
                (pc_branchTarget (staticInst i) (fi_pc f)) taken (Some p) in
  let x := set_decodeInfo (<[tid := info]> (decodeInfo (dw w))) (dw w) in
  let x := if dec_statusIs x tid DBlocked || dec_statusIs x tid DUnblocking
           then dec_setUnblock tid true x else x in
  let x := dec_setStatus tid DSquashing x in
  let! s := foldM (λ s q,
      let! j := deref q s in
      if (threadNumber j =? tid)%nat && (seqNum i <? seqNum j) then modify setSquashed q s else Ok s)
    (fromFetch inp) (dw_insts w) in
  let w := dw_set (dec_clearQueues tid x) (dw_set_insts s w) in
  let! cs := removeInstsUntil (seqNum i) tid (dw_cpu w, dw_insts w) in
  Ok (dw_set_cpu cs w).

(** [squash(tid)]: commit squashed. *)
Definition squashFromCommit (FullSystem : bool) (inp : DecodeInputs) (tid : ThreadID) (w : Dec) : outcome Dec :=
  let x := dw w in
  let x := if dec_statusIs x tid DBlocked || dec_statusIs x tid DUnblocking then
             if FullSystem then dec_setUnblock tid true x
             else if decodeBlock x tid then dec_setBlock tid false x else dec_setUnblock tid true x
           else x in
  let x := dec_setStatus tid DSquashing x in
  let! s := foldM (λ s q,
      let! j := deref q s in
      if (threadNumber j =? tid)%nat then modify setSquashed q s else Ok s)
    (fromFetch inp) (dw_insts w) in
  Ok (dw_set (dec_clearQueues tid x) (dw_set_insts s w)).

(** ** Signals *)

Definition dec_updateStatus (w : Dec) : outcome Dec :=
  let x := dw w in
  if existsb (λ tid, dec_statusIs x tid DUnblocking) (dec_activeThreads x) then
    if dec_active x then Ok w
    else let! a := ar_activateStage DecodeIdx (dw_activity w) in
         Ok (dw_set_activity a (dw_set (set_dec_active true x) w))
  else
    if dec_active x then
      let! a := ar_deactivateStage DecodeIdx (dw_activity w) in
      Ok (dw_set_activity a (dw_set (set_dec_active false x) w))
    else Ok w.

Definition dec_sortInsts (inp : DecodeInputs) (w : Dec) : outcome Dec :=
  let! x := foldM (λ x p,
      let! i := deref p (dw_insts w) in
      let tid := threadNumber i in
      Ok (set_dec_insts (<[tid := dec_insts x tid ++ [p]]> (dec_insts x)) x))
    (fromFetch inp) (dw w) in
  Ok (dw_set x w).

Definition dec_readStallSignals (inp : DecodeInputs) (tid : ThreadID) (x : Decode) : outcome Decode :=
  let x := if in_renameBlock inp tid then set_renameStall (<[tid := true]> (renameStall x)) x else x in
  if in_renameUnblock inp tid then
    assert! renameStall x tid as "readStallSignals: stalls[tid].rename" in
    Ok (set_renameStall (<[tid := false]> (renameStall x)) x)
  else Ok x.

Definition dec_checkSignalsAndUpdate (FullSystem : bool) (inp : DecodeInputs) (tid : ThreadID) (w : Dec)
  : outcome (bool * Dec) :=
  let! x := dec_readStallSignals inp tid (dw w) in
  let w := dw_set x w in
  if in_commitSquash inp tid then
    let! w := squashFromCommit FullSystem inp tid w in Ok (true, w)
  else if dec_checkStall tid (dw w) then dec_block tid w
  else if dec_statusIs (dw w) tid DBlocked then
    let '(_, x) := dec_unblock tid (dec_setStatus tid DUnblocking (dw w)) in Ok (true, dw_set x w)
  else if dec_statusIs (dw w) tid DSquashing then Ok (false, dw_on (dec_setStatus tid DRunning) w)
  else Ok (false, w).

(** ** Decoding *)

(** The queue the instructions come from. *)
Definition toDecode (fromSkid : bool) (tid : ThreadID) (x : Decode) : list DynInstPtr :=
  if fromSkid then dec_skidBuffer x tid else dec_insts x tid.
Definition popDecode (fromSkid : bool) (tid : ThreadID) (x : Decode) : Decode :=
  if fromSkid then set_dec_skidBuffer (<[tid := tail (dec_skidBuffer x tid)]> (dec_skidBuffer x)) x
  else set_dec_insts (<[tid := tail (dec_insts x tid)]> (dec_insts x)) x.

(** Was the target of this direct branch predicted wrongly? *)
Definition wrongTarget (i : DynInst) (f : FrontInst PC Macro) : bool :=
  static i IsDirectControl && (static i IsUncondControl || readPredTaken i) &&
  negb (pc_eqb (pc_branchTarget (staticInst i) (fi_pc f)) (fi_predPC f)).

Definition setPredTarg (p : DynInstPtr) (target : PC) (w : Dec) : outcome Dec :=
  let! f := derefFront p (dw_front w) in
  Ok (dw_set_front (<[p := mkFrontInst (fi_pc f) target (fi_macroop f)]> (dw_front w)) w).

(** A valid instruction goes to rename, marked ready when it has no sources. *)
Definition sendToRename (p : DynInstPtr) (i : DynInst) (w : Dec) : outcome Dec :=
  let! w := if (numSrcRegs i =? 0)%nat
            then let! s := modify setCanIssue p (dw_insts w) in Ok (dw_set_insts s w)
            else Ok w in
  Ok (dw_on (λ x, set_decoded (decoded x ++ [p]) x) w).

(** The loop over [n] available instructions. *)
Fixpoint decodeLoop (inp : DecodeInputs) (n : nat) (fromSkid : bool) (tid : ThreadID) (w : Dec) : outcome Dec :=
  match n with
  | O => Ok w
  | S n' =>
      if (length (decoded (dw w)) <? decodeWidth (dw w))%nat then
        match toDecode fromSkid tid (dw w) with
        | [] => Err (Assertion "decodeInsts: !insts_to_decode.empty()")
        | p :: _ =>
            let w := dw_on (popDecode fromSkid tid) w in
            let! i := deref p (dw_insts w) in
            if isSquashed i then decodeLoop inp n' fromSkid tid w
            else
              let! w := sendToRename p i w in
              if readPredTaken i && negb (isControl i) then Err (PanicCall "Instruction predicted as a branch!")
              else
                let! f := derefFront p (dw_front w) in
                if wrongTarget i f then
                  let! w := squashFromBranch inp p (threadNumber i) w in
                  setPredTarg p (pc_branchTarget (staticInst i) (fi_pc f)) w
                else decodeLoop inp n' fromSkid tid w
        end
      else Ok w
  end.

Definition decodeInsts (inp : DecodeInputs) (tid : ThreadID) (w : Dec) : outcome Dec :=
  let fromSkid := dec_statusIs (dw w) tid DUnblocking in
  let n := length (toDecode fromSkid tid (dw w)) in
  if (n =? 0)%nat then Ok w
  else
    let! w := decodeLoop inp n fromSkid tid w in
    let! w := if bool_decide (toDecode fromSkid tid (dw w) = []) then Ok w
              else let! (_, w) := dec_block tid w in Ok w in
    Ok (if bool_decide (decoded (dw w) = []) then w else dw_on (set_dec_wroteToTimeBuffer true) w).

Definition decode (inp : DecodeInputs) (tid : ThreadID) (w : Dec) : outcome (bool * Dec) :=
  if dec_statusIs (dw w) tid DRunning || dec_statusIs (dw w) tid DIdle then
    let! w := decodeInsts inp tid w in Ok (false, w)
  else if dec_statusIs (dw w) tid DUnblocking then
    assert! negb (dec_skidsEmpty (dw w)) as "decode: !skidsEmpty()" in
    let! w := decodeInsts inp tid w in
    let! w := if bool_decide (fromFetch inp = []) then Ok w else dec_skidInsert tid w in
    let '(change, x) := dec_unblock tid (dw w) in
    Ok (change, dw_set x w)
  else Ok (false, w).

(** One active thread: its signals, then its instructions. *)
Definition decodeThread (FullSystem : bool) (inp : DecodeInputs) (cw : bool * Dec) (tid : ThreadID)
  : outcome (bool * Dec) :=
  let '(status_change, w) := cw in
  let! (c1, w) := dec_checkSignalsAndUpdate FullSystem inp tid w in
  let! (c2, w) := decode inp tid w in
  Ok (c2 || (c1 || status_change), w).

(** The wires to fetch and rename are blank at the start of a cycle. *)
Definition dec_startCycle (x : Decode) : Decode :=
  set_decoded [] (set_dec_wroteToTimeBuffer false (set_decodeBlock (λ _, false)
    (set_decodeUnblock (λ _, false) (set_decodeInfo (λ _, noDecodeInfo) x)))).

(** [tick] *)
Definition dec_tick (FullSystem : bool) (inp : DecodeInputs) (w : Dec) : outcome Dec :=
  let! w := dec_sortInsts inp (dw_on dec_startCycle w) in
  let! (status_change, w) := foldM (decodeThread FullSystem inp) (dec_activeThreads (dw w)) (false, w) in
  let! w := if status_change : bool then dec_updateStatus w else Ok w in
  if dec_wroteToTimeBuffer (dw w) then
    let! a := ar_activity (dw_activity w) in Ok (dw_set_activity a w)
  else Ok w.
End decode.
