(* ===== verification/DecodeSafe.v ===== *)
(** * What decode's redirects depend on

    Decode updates the branch predictor and redirects fetch without asking DOLMA's
    restriction flags; the code argues that this is safe because such a squash "only
    depends on the PC".  Here: a cycle of decode reads of an instruction only its
    number, thread, static instruction, prediction and whether it is squashed, so
    it does the same whatever the operands, the taint and the restrictions of the
    instructions in flight are. *)

From S2P Require Import Prelude Regs Config DynInst TimeBuf Activity CpuList DirPred BPred X86Pc Decode.

Local Open Scope Z_scope.

(** ** Computations related by their results *)

Inductive orel {A B : Type} (R : A → B → Prop) : outcome A → outcome B → Prop :=
  | orel_ok a b : R a b → orel R (Ok a) (Ok b)
  | orel_err e : orel R (Err e) (Err e).

Create HintDb orel.
#[export] Hint Constructors orel : orel.

Lemma orel_bind {A B A' B'} (R : A → B → Prop) (R' : A' → B' → Prop) o1 o2 k1 k2 :
  orel R o1 o2 → (∀ a b, R a b → orel R' (k1 a) (k2 b)) →
  orel R' (match o1 with Ok a => k1 a | Err e => Err e end) (match o2 with Ok b => k2 b | Err e => Err e end).
Proof. intros [a b H|e] Hk; [by apply Hk|constructor]. Qed.

Lemma orel_refl {A} (R : A → A → Prop) `{!Reflexive R} o : orel R o o.
Proof. destruct o; by constructor. Qed.

Lemma orel_foldM {A S S'} (R : S → S' → Prop) (f : S → A → outcome S) (g : S' → A → outcome S') l :
  (∀ s s' a, R s s' → orel R (f s a) (g s' a)) → ∀ s s', R s s' → orel R (foldM f l s) (foldM g l s').
Proof.
  intros Hf. induction l as [|a l IH]; intros s s' Hs; cbn; [by constructor|].
  apply (orel_bind R); auto.
Qed.

Lemma orel_if {A B} (R : A → B → Prop) (c : bool) o1 o2 k1 k2 :
  orel R o1 o2 → orel R k1 k2 → orel R (if c then o1 else k1) (if c then o2 else k2).
Proof. by destruct c. Qed.

Lemma orel_if_eq {A B} (R : A → B → Prop) (c c' : bool) o1 o2 k1 k2 :
  c = c' → orel R o1 o2 → orel R k1 k2 → orel R (if c then o1 else k1) (if c' then o2 else k2).
Proof. intros <-. apply orel_if. Qed.

(** ** What the front end sees of an instruction *)

Definition view (i : DynInst) : InstSeqNum * ThreadID * StaticInst * bool * bool :=
  (seqNum i, threadNumber i, staticInst i, isSquashed i, readPredTaken i).

Definition same_view (s s' : store) : Prop := ∀ p, view <$> s !! p = view <$> s' !! p.

#[export] Instance same_view_equiv : Equivalence same_view.
Proof. split; [done|by intros s s' H p|intros s1 s2 s3 H1 H2 p; by rewrite H1]. Qed.

Lemma view_static i j f : view i = view j → static i f = static j f.
Proof. intros [=_ _ H _ _]. unfold static. by rewrite H. Qed.

Lemma deref_view p s s' :
  same_view s s' → orel (λ i j, view i = view j) (deref p s) (deref p s').
Proof.
  intros H. specialize (H p). unfold deref. destruct (s !! p), (s' !! p); try done; constructor. by apply (inj Some) in H.
Qed.

Lemma modify_view f p s s' :
  (∀ i j, view i = view j → view (f i) = view (f j)) →
  same_view s s' → orel same_view (modify f p s) (modify f p s').
Proof.
  intros Hf H. unfold modify, modifyM. apply (orel_bind _ _ _ _ _ _ (deref_view p _ _ H)).
  intros i j Hij. constructor. intros q. destruct (decide (q = p)) as [->|Hq].
  - rewrite !lookup_insert_eq. cbn. f_equal. auto.
  - by rewrite !lookup_insert_ne.
Qed.

Lemma setSquashed_view i :
  view (setSquashed i) = (seqNum i, threadNumber i, staticInst i, true, readPredTaken i).
Proof.
  unfold view, setSquashed. destruct (dropDolmaReqs_frame (status_set Squashed i)) as [H1 H2 H3 H4 _ _ H7].
  rewrite H3, H4, H7. unfold isSquashed, readPredTaken, st, fl. rewrite H1, H2. cbn. by rewrite bs_test_set.
Qed.

Lemma setCanIssue_view i : view (setCanIssue i) = view i.
Proof. unfold view, setCanIssue, status_set, isSquashed, st. cbn. by rewrite bs_test_set. Qed.

Lemma setSquashed_same i j : view i = view j → view (setSquashed i) = view (setSquashed j).
Proof. rewrite !setSquashed_view. intros [= -> -> -> _ ->]. done. Qed.
Lemma setCanIssue_same i j : view i = view j → view (setCanIssue i) = view (setCanIssue j).
Proof. by rewrite !setCanIssue_view. Qed.
#[export] Hint Resolve setSquashed_same setCanIssue_same deref_view modify_view : orel.

(** Simplifies what was read from two related stores. *)
Ltac same_reads H :=
  let Hs := fresh in let Ht := fresh in let Hst := fresh in let Hsq := fresh in let Hp := fresh in
  pose proof H as [= Hs Ht Hst Hsq Hp];
  unfold numSrcRegs, isControl; rewrite <- ?(view_static _ _ IsDirectControl H), <- ?(view_static _ _ IsUncondControl H),
    <- ?(view_static _ _ IsControl H), <- ?Hs, <- ?Ht, <- ?Hst, <- ?Hsq, <- ?Hp;
  clear Hs Ht Hst Hsq Hp.

(** ** The CPU's list *)

Definition same_list (cs cs' : CpuList * store) : Prop := fst cs = fst cs' ∧ same_view (snd cs) (snd cs').

Lemma squashInstIt_view p tid cs cs' :
  same_list cs cs' → orel same_list (squashInstIt p tid cs) (squashInstIt p tid cs').
Proof.
  destruct cs as [c s], cs' as [c' s']. intros [[= <-] Hs]. cbn [snd] in Hs. unfold squashInstIt.
  apply (orel_bind _ _ _ _ _ _ (deref_view p _ _ Hs)). intros i j Hij. same_reads Hij.
  apply orel_if; [|by constructor]. apply (orel_bind same_view); [by eauto with orel|].
  intros s1 s1' H1. by constructor.
Qed.

Lemma removeInstsUntil_view sn tid cs cs' :
  same_list cs cs' → orel same_list (removeInstsUntil sn tid cs) (removeInstsUntil sn tid cs').
Proof.
  destruct cs as [c s], cs' as [c' s']. intros [[= <-] Hs]. cbn [snd] in Hs. unfold removeInstsUntil.
  apply orel_if; [|constructor]. assert (same_list (removing c, s) (removing c, s')) as H by done.
  revert H. generalize (removing c, s), (removing c, s'). clear Hs s s'.
  induction (reverse (cpu_instList c)) as [|p l IH]; intros cs cs' H; cbn; [by constructor|].
  apply (orel_bind _ _ _ _ _ _ (deref_view p _ _ (proj2 H))). intros i j Hij. same_reads Hij.
  apply orel_if; [|by constructor]. apply (orel_bind same_list); [by apply squashInstIt_view|auto].
Qed.
#[export] Hint Resolve removeInstsUntil_view : orel.

(** ** The stage *)

Section safe.
Context {PC Macro : Type} {HPC : PcState PC} {HF : PcFlow PC}.
Implicit Types (w : Dec (PC := PC) (Macro := Macro)) (inp : DecodeInputs).

Record same_dec w w' : Prop := {
  sd_dw : dw w = dw w';
  sd_insts : same_view (dw_insts w) (dw_insts w');
  sd_front : dw_front w = dw_front w';
  sd_cpu : dw_cpu w = dw_cpu w';
  sd_activity : dw_activity w = dw_activity w';
}.
Definition same_flag (cw cw' : bool * Dec (PC := PC) (Macro := Macro)) : Prop :=
  fst cw = fst cw' ∧ same_dec (snd cw) (snd cw').

Lemma same_flag_ok c w w' : same_dec w w' → orel same_flag (Ok (c, w)) (Ok (c, w')).
Proof. intros H. constructor. by split. Qed.
Lemma same_dec_set x w w' : same_dec w w' → same_dec (dw_set x w) (dw_set x w').
Proof. intros []. by split. Qed.
Lemma same_dec_insts s s' w w' :
  same_dec w w' → same_view s s' → same_dec (dw_set_insts s w) (dw_set_insts s' w').
Proof. intros [] ?. by split. Qed.
Lemma same_dec_on f w w' : same_dec w w' → same_dec (dw_on f w) (dw_on f w').
Proof. intros []. split; cbn; congruence. Qed.
Lemma same_dec_activity a w w' : same_dec w w' → same_dec (dw_set_activity a w) (dw_set_activity a w').
Proof. intros []. by split. Qed.
Lemma same_dec_front m w w' : same_dec w w' → same_dec (dw_set_front m w) (dw_set_front m w').
Proof. intros []. by split. Qed.
Lemma same_dec_cpu cs cs' w w' :
  same_dec w w' → same_list cs cs' → same_dec (dw_set_cpu cs w) (dw_set_cpu cs' w').
Proof. intros [] []. by split. Qed.
#[local] Hint Resolve same_dec_set same_dec_insts same_dec_on same_dec_activity same_dec_front
  same_dec_cpu : orel.
#[local] Hint Extern 1 (same_view _ _) => eapply sd_insts : orel.

Lemma skidInsert_view tid w w' :
  same_dec w w' → orel same_dec (dec_skidInsert tid w) (dec_skidInsert tid w').
Proof.
  intros H. destruct (H) as [Hx Hs _ _ _]. unfold dec_skidInsert. rewrite Hx.
  apply (orel_bind eq).
  - apply orel_foldM; [|done]. intros x _ p <-. apply (orel_bind _ _ _ _ _ _ (deref_view p _ _ Hs)).
    intros i j Hij. same_reads Hij. apply orel_refl, _.
  - intros x _ <-. apply orel_if; constructor. auto with orel.
Qed.

Lemma block_view tid w w' : same_dec w w' → orel same_flag (dec_block tid w) (dec_block tid w').
Proof.
  intros H. unfold dec_block. apply (orel_bind same_dec); [by apply skidInsert_view|].
  intros w1 w1' H1. rewrite (sd_dw _ _ H1). apply orel_if; constructor; split; cbn; auto with orel.
Qed.

Lemma squashFromBranch_view inp p tid w w' :
  same_dec w w' → orel same_dec (squashFromBranch inp p tid w) (squashFromBranch inp p tid w').
Proof.
  intros H. destruct (H) as [Hx Hs Hf Hc _]. unfold squashFromBranch.
  apply (orel_bind _ _ _ _ _ _ (deref_view p _ _ Hs)). intros i j Hij. same_reads Hij. rewrite <- Hf, <- Hx.
  apply (orel_bind eq); [apply orel_refl, _|]. intros f _ <-. cbv zeta.
  apply (orel_bind same_view).
  - apply orel_foldM; [|done]. intros s s' q Hq. apply (orel_bind _ _ _ _ _ _ (deref_view q _ _ Hq)).
    intros k l Hkl. same_reads Hkl. apply orel_if; [by eauto with orel|by constructor].
  - intros s s' Hss. apply (orel_bind same_list); [|intros cs cs' Hcs; constructor; auto with orel].
    apply removeInstsUntil_view. by split.
Qed.

Lemma squashFromCommit_view fs inp tid w w' :
  same_dec w w' → orel same_dec (squashFromCommit fs inp tid w) (squashFromCommit fs inp tid w').
Proof.
  intros H. destruct (H) as [Hx Hs Hf Hc _]. unfold squashFromCommit. rewrite <- Hx.
  apply (orel_bind same_view); [|intros s s' Hss; constructor; auto with orel].
  apply orel_foldM; [|done]. intros s s' q Hq. apply (orel_bind _ _ _ _ _ _ (deref_view q _ _ Hq)).
  intros k l Hkl. same_reads Hkl. apply orel_if; [by eauto with orel|by constructor].
Qed.

Lemma checkSignals_view fs inp tid w w' :
  same_dec w w' →
  orel same_flag (dec_checkSignalsAndUpdate fs inp tid w) (dec_checkSignalsAndUpdate fs inp tid w').
Proof.
  intros H. unfold dec_checkSignalsAndUpdate. rewrite <- (sd_dw _ _ H).
  apply (orel_bind eq); [apply orel_refl, _|]. intros x _ <-.
  assert (same_dec (dw_set x w) (dw_set x w')) as H1 by auto with orel. apply orel_if.
  { apply (orel_bind same_dec); [by apply squashFromCommit_view|]. intros ???. by apply same_flag_ok. }
  apply orel_if; [by apply block_view|]. apply orel_if.
  { destruct (dec_unblock _ _). constructor. split; [done|]. cbn. auto with orel. }
  apply orel_if; constructor; split; cbn; auto with orel.
Qed.

Lemma sendToRename_view p i j w w' :
  view i = view j → same_dec w w' → orel same_dec (sendToRename p i w) (sendToRename p j w').
Proof.
  intros Hij H. unfold sendToRename. same_reads Hij.
  apply (orel_bind same_dec); [|intros w1 w1' H1; constructor; auto with orel].
  apply orel_if; [|by constructor]. apply (orel_bind same_view); [by eauto with orel|].
  intros ???. constructor. auto with orel.
Qed.

Lemma decodeLoop_view inp n : ∀ fromSkid tid w w',
  same_dec w w' → orel same_dec (decodeLoop inp n fromSkid tid w) (decodeLoop inp n fromSkid tid w').
Proof.
  induction n as [|n IH]; intros fromSkid tid w w' H; cbn [decodeLoop]; [by constructor|].
  rewrite <- (sd_dw _ _ H). apply orel_if; [|by constructor].
  destruct (toDecode fromSkid tid (dw w)) as [|p l]; [constructor|]. cbv zeta.
  pose proof (same_dec_on (popDecode fromSkid tid) _ _ H) as H1. revert H1.
  generalize (dw_on (popDecode fromSkid tid) w), (dw_on (popDecode fromSkid tid) w'). clear w w' H.
  intros w w' H. apply (orel_bind _ _ _ _ _ _ (deref_view p _ _ (sd_insts _ _ H))). intros i j Hij.
  unfold wrongTarget. apply orel_if_eq; [by same_reads Hij|by apply IH|].
  apply (orel_bind same_dec); [by apply sendToRename_view|].
  intros w1 w1' H1. same_reads Hij. apply orel_if; [constructor|]. rewrite <- (sd_front _ _ H1). apply (orel_bind eq); [apply orel_refl, _|].
  intros f _ <-. apply orel_if; [|apply IH; auto with orel].
  apply (orel_bind same_dec); [apply squashFromBranch_view; auto with orel|]. intros w2 w2' H2.
  unfold setPredTarg. rewrite <- (sd_front _ _ H2). apply (orel_bind eq); [apply orel_refl, _|].
  intros g _ <-. constructor. auto with orel.
Qed.

Lemma decodeInsts_view inp tid w w' :
  same_dec w w' → orel same_dec (decodeInsts inp tid w) (decodeInsts inp tid w').
Proof.
  intros H. unfold decodeInsts. rewrite <- (sd_dw _ _ H). apply orel_if; [by constructor|].
  apply (orel_bind same_dec); [by apply decodeLoop_view|]. intros w1 w1' H1. rewrite <- (sd_dw _ _ H1).
  apply (orel_bind same_dec).
  - apply orel_if; [by constructor|]. apply (orel_bind same_flag); [by apply block_view|].
    intros [c w2] [c' w2'] [_ H2]. by constructor.
  - intros w2 w2' H2. rewrite <- (sd_dw _ _ H2). constructor. case_bool_decide; auto with orel.
Qed.

Lemma decode_view inp tid w w' : same_dec w w' → orel same_flag (decode inp tid w) (decode inp tid w').
Proof.
  intros H. unfold decode. rewrite <- (sd_dw _ _ H). apply orel_if.
  { apply (orel_bind same_dec); [by apply decodeInsts_view|]. intros ???. by apply same_flag_ok. }
  apply orel_if; [|by apply same_flag_ok]. apply orel_if; [|constructor].
  apply (orel_bind same_dec); [by apply decodeInsts_view|]. intros w1 w1' H1.
  apply (orel_bind same_dec); [apply orel_if; [by constructor|by apply skidInsert_view]|].
  intros w2 w2' H2. rewrite <- (sd_dw _ _ H2). destruct (dec_unblock _ _). constructor.
  split; cbn; auto with orel.
Qed.

(** C31: decode cannot leak through its redirects: two cycles of decode on states
    that agree on the stage, the PCs, the predictions, the CPU's list and, of every
    instruction, its number, thread, static instruction, predicted direction and
    whether it is squashed, do the same (also fail the same), whatever the
    instructions' operands, taint, restrictions and memory state are: the same
    redirects and block signals for fetch, the same instructions for rename, the
    same predicted targets. *)
Theorem decode_noninterference fs inp w1 w2 :
  same_dec w1 w2 → orel same_dec (dec_tick fs inp w1) (dec_tick fs inp w2).
Proof.
  intros H. unfold dec_tick.
  apply (orel_bind same_dec).
  { pose proof (same_dec_on dec_startCycle _ _ H) as H1. destruct (H1) as [Hx Hs _ _ _]. unfold dec_sortInsts. rewrite <- Hx.
    apply (orel_bind eq); [|intros x _ <-; constructor; auto with orel].
    apply orel_foldM; [|done]. intros x _ p <-. apply (orel_bind _ _ _ _ _ _ (deref_view p _ _ Hs)).
    intros i j Hij. same_reads Hij. apply orel_refl, _. }
  intros w w' Hw. rewrite <- (sd_dw _ _ Hw). apply (orel_bind same_flag).
  { apply orel_foldM; [|by split]. intros [c v] [c' v'] tid [[= <-] Hv]. unfold decodeThread.
    apply (orel_bind same_flag); [by apply checkSignals_view|]. intros [c1 v1] [c1' v1'] [[= <-] Hv1].
    apply (orel_bind same_flag); [by apply decode_view|]. intros [c2 v2] [c2' v2'] [[= <-] Hv2].
    by apply same_flag_ok. }
  intros [c v] [c' v'] [[= <-] Hv]. cbn [snd] in Hv. apply (orel_bind same_dec).
  { apply orel_if; [|by constructor]. unfold dec_updateStatus. rewrite <- (sd_dw _ _ Hv), <- (sd_activity _ _ Hv).
    repeat apply orel_if; try (by constructor);
      (apply (orel_bind eq); [apply orel_refl, _|intros a _ <-; constructor; auto with orel]). }
  intros u u' Hu. rewrite <- (sd_dw _ _ Hu), <- (sd_activity _ _ Hu). apply orel_if; [|by constructor].
  apply (orel_bind eq); [apply orel_refl, _|]. intros a _ <-. constructor. auto with orel.
Qed.
End safe.

(** ** Examples *)

(** An operation, a jump to 100 that fetch predicted to 8, and what fetch brought
    from there. *)
Module DecodeExample.
#[export] Instance flow : PcFlow PCState := x86_PcFlow (λ _ _, x_set 100).
Definition si (l : list StaticFlag) : StaticInst := mkStaticInst (foldr (λ f s, bs_set s f) 0%N l) 1 1 0 "".
Definition jump := si [IsControl; IsDirectControl; IsUncondControl].
Definition insts : store :=
  list_to_map [(1, initInst (si [IsInteger]) 0 1 0); (2, initInst jump 4 2 0); (3, initInst (si [IsInteger]) 8 3 0)].
Definition front : gmap DynInstPtr (FrontInst PCState ()) :=
  list_to_map [(1, mkFrontInst (x_set 0) (x_set 4) None); (2, mkFrontInst (x_set 4) (x_set 8) None);
               (3, mkFrontInst (x_set 8) (x_set 12) None)].
Definition idle : Decode (PC := PCState) := newDecode 8 8 3 1 [0%nat].
Definition ready : Decode (PC := PCState) := set_dec_insts (λ t, if (t =? 0)%nat then [1; 2; 3] else []) idle.
Definition recorder : ActivityRecorder :=
  mkActivityRecorder (mkTimeBuffer 10 0 11 (replicate 11 false) 0) 10 0 (replicate 5 false).
Definition world (x : Decode (PC := PCState)) (s : store) : Dec :=
  mkDec x s front (mkCpuList [1; 2; 3] [] false) recorder.
Definition quiet (l : list DynInstPtr) : DecodeInputs := mkDecodeInputs l (λ _, false) (λ _, false) (λ _, false).
End DecodeExample.
Import DecodeExample.

(** The same cycle with a restricted, tainted third instruction. *)
Lemma decode_noninterference_witness :
  orel same_dec (dec_tick true (quiet [1; 2; 3]) (world idle insts))
    (dec_tick true (quiet [1; 2; 3])
       (world idle (<[3 := status_set ControlRestricted (set_ydi 1 (initInst (si [IsInteger]) 8 3 0))]> insts))).
Proof.
  apply (decode_noninterference true (quiet [1; 2; 3])). split; try done. intros p. cbn [dw_insts world].
  destruct (decide (p = 3)) as [->|Hp]; [reflexivity|by rewrite lookup_insert_ne].
Defined.
