(* ===== verification/DecodeOk.v ===== *)
(** * Decode: order, corrected targets and the handshake with fetch

    Decode hands a thread's instructions to rename in the order fetch sent them and
    loses none but those a redirect squashes; every direct branch it lets through
    carries its real target; and its block and unblock signals alternate, so the
    assertions with which fetch reads them hold. *)

From S2P Require Import Prelude Regs Config DynInst TimeBuf Activity CpuList DirPred BPred X86Pc Decode DecodeSafe.

Local Open Scope Z_scope.

Section decode.
Context {PC Macro : Type} {HPC : PcState PC} {HF : PcFlow PC}.
Implicit Types (w : Dec (PC := PC) (Macro := Macro)) (inp : DecodeInputs).

(** ** The loop *)

(** The instructions of [l] that are not squashed. *)
Definition live (s : store) (l : list DynInstPtr) : list DynInstPtr :=
  filter (λ p, isSquashed <$> s !! p = Some false) l.

Lemma view_squashed s s' p : same_view s s' → isSquashed <$> s !! p = isSquashed <$> s' !! p.
Proof.
  intros H. specialize (H p). destruct (s !! p), (s' !! p); try done. apply (inj Some) in H. injection H. cbn. congruence.
Qed.

Lemma live_view s s' l : same_view s s' → live s l = live s' l.
Proof. intros H. apply list_filter_iff. intros p. by rewrite (view_squashed _ _ _ H). Qed.

(** What is signalled about a thread. *)
Definition signals (x : Decode) (tid : ThreadID) : DecodeStatus * bool * bool * DecodeInfo (PC := PC) :=
  (decodeStatus x tid, decodeBlock x tid, decodeUnblock x tid, decodeInfo x tid).
Definition queues (x : Decode (PC := PC)) (tid : ThreadID) : list DynInstPtr * list DynInstPtr :=
  (dec_skidBuffer x tid, dec_insts x tid).

(** [k] instructions of the queue have gone through, none of them redirects. *)
Record ran (fromSkid : bool) (tid : ThreadID) (k : nat) w w' : Prop := {
  ra_queue : toDecode fromSkid tid (dw w') = drop k (toDecode fromSkid tid (dw w));
  ra_other : toDecode (negb fromSkid) tid (dw w') = toDecode (negb fromSkid) tid (dw w);
  ra_decoded : decoded (dw w') = decoded (dw w) ++ live (dw_insts w) (take k (toDecode fromSkid tid (dw w)));
  ra_right : ∀ p i f, p ∈ take k (toDecode fromSkid tid (dw w)) → dw_insts w !! p = Some i →
    isSquashed i = false → dw_front w !! p = Some f → wrongTarget i f = false;
  ra_view : same_view (dw_insts w) (dw_insts w');
  ra_front : dw_front w' = dw_front w;
  ra_cpu : dw_cpu w' = dw_cpu w;
  ra_signals : ∀ t, signals (dw w') t = signals (dw w) t;
  ra_queues : ∀ t, t ≠ tid → queues (dw w') t = queues (dw w) t;
  ra_stall : renameStall (dw w') = renameStall (dw w);
  ra_const : decodeWidth (dw w') = decodeWidth (dw w) ∧ dec_skidBufferMax (dw w') = dec_skidBufferMax (dw w) ∧
             dec_activeThreads (dw w') = dec_activeThreads (dw w);
}.

Lemma ran_0 fs tid w : ran fs tid 0 w w.
Proof. split; try done; [by rewrite app_nil_r|]. intros p i f Hp. by apply elem_of_nil in Hp. Qed.

Lemma wrongTarget_view i j f : view i = view j → wrongTarget (PC := PC) (Macro := Macro) i f = wrongTarget j f.
Proof. intros H. unfold wrongTarget. by same_reads H. Qed.

(** One instruction, then [k] more. *)
Lemma ran_step fs tid k w w1 w' :
  ran fs tid 1 w w1 → ran fs tid k w1 w' → ran fs tid (S k) w w'.
Proof.
  intros [A1 A2 A3 A4 A5 A6 A7 A8 A9 A10 A11] [B1 B2 B3 B4 B5 B6 B7 B8 B9 B10 B11].
  set (l := toDecode fs tid (dw w)) in *. assert (take (S k) l = take 1 l ++ take k (drop 1 l)) as Ht.
  { destruct l as [|p l]; [by destruct k|]. done. }
  split.
  - fold l. by rewrite B1, A1, drop_drop.
  - congruence.
  - fold l. rewrite B3, A3, A1, <- (assoc_L (++)), Ht. unfold live at 3. rewrite filter_app.
    by rewrite <- (live_view _ _ _ A5).
  - intros p i f Hp Hi Hsq Hf. fold l in Hp. rewrite Ht in Hp. apply elem_of_app in Hp as [Hp|Hp]; [by eapply A4|].
    pose proof (A5 p) as Hv. rewrite Hi in Hv. destruct (dw_insts w1 !! p) as [j|] eqn:Hj; [|done].
    apply (inj Some) in Hv. rewrite (wrongTarget_view _ _ _ Hv).
    apply (B4 p j f); [by rewrite A1|done| |by rewrite A6].
    injection Hv. congruence.
  - by etrans.
  - congruence.
  - congruence.
  - intros t. by rewrite B8, A8.
  - intros t Ht'. by rewrite B9, A9.
  - congruence.
  - destruct A11 as (? & ? & ?), B11 as (? & ? & ?). split_and!; congruence.
Qed.

Lemma sendToRename_spec p i w w' :
  dw_insts w !! p = Some i → sendToRename p i w = Ok w' →
  same_view (dw_insts w) (dw_insts w') ∧ dw w' = set_decoded (decoded (dw w) ++ [p]) (dw w) ∧
  dw_front w' = dw_front w ∧ dw_cpu w' = dw_cpu w.
Proof.
  unfold sendToRename. intros Hi H. inv_ok1 H. inv_ok H. destruct (numSrcRegs i =? 0)%nat; [|by inv_ok E].
  inv_ok1 E. apply modify_Ok in E0 as (j & Hj & ->). inv_ok E. simplify_eq. split; [|done]. cbn.
  intros q. destruct (decide (q = p)) as [->|Hq]; [|by rewrite lookup_insert_ne].
  rewrite lookup_insert_eq, Hi. cbn. by rewrite setCanIssue_view.
Qed.

Lemma pop_ran fs tid w p l i w' :
  toDecode fs tid (dw w) = p :: l → dw_insts w !! p = Some i →
  (isSquashed i = true ∧ w' = dw_on (popDecode fs tid) w ∨
   isSquashed i = false ∧ (∀ f, dw_front w !! p = Some f → wrongTarget i f = false) ∧
   sendToRename p i (dw_on (popDecode fs tid) w) = Ok w') →
  ran fs tid 1 w w'.
Proof.
  intros Hq Hi Hcase.
  assert (∃ ds, dw w' = set_decoded (decoded (dw w) ++ ds) (popDecode fs tid (dw w)) ∧
    ds = live (dw_insts w) [p] ∧ same_view (dw_insts w) (dw_insts w') ∧ dw_front w' = dw_front w ∧
    dw_cpu w' = dw_cpu w) as (ds & Hd & Hds & Hv & Hf & Hc).
  { unfold live, filter. cbn. rewrite Hi. cbn. destruct Hcase as [[Hsq ->]|(Hsq & _ & H)]; rewrite Hsq.
    - exists []. split_and!; try done. cbn. rewrite app_nil_r. by destruct fs, (dw w).
    - apply sendToRename_spec in H as (H1 & H2 & H3 & H4); [|done]. exists [p]. rewrite H2.
      split_and!; try done. cbn. by destruct fs, (dw w). }
  split; rewrite ?Hd; try done.
  - rewrite Hq. cbn [drop]. destruct fs; cbn in *; by rewrite fn_lookup_insert, Hq.
  - by destruct fs.
  - cbn. by rewrite Hq, Hds.
  - rewrite Hq. cbn [take]. intros q j f ->%list_elem_of_singleton Hj Hsq Hfr. simplify_eq.
    destruct Hcase as [[? _]|(_ & Hw & _)]; [congruence|]. by apply Hw.
  - by destruct fs.
  - intros t Ht. destruct fs; cbn; unfold queues; cbn; by rewrite fn_lookup_insert_ne.
  - by destruct fs.
  - by destruct fs.
Qed.

(** The redirect at the end of the loop: [w1] is the state the branch was found in. *)
Record redirected inp (fs : bool) (tid : ThreadID) (w1 : Dec) (p : DynInstPtr) (i : DynInst)
  (f : FrontInst PC Macro) w' : Prop := {
  re_head : ∃ l, toDecode fs tid (dw w1) = p :: l;
  re_inst : dw_insts w1 !! p = Some i;
  re_live : isSquashed i = false;
  re_front : dw_front w1 !! p = Some f;
  re_wrong : wrongTarget i f = true;
  re_do : ∃ w2 w3, sendToRename p i (dw_on (popDecode fs tid) w1) = Ok w2 ∧
    squashFromBranch inp p (threadNumber i) w2 = Ok w3 ∧
    setPredTarg p (pc_branchTarget (staticInst i) (fi_pc f)) w3 = Ok w';
}.

Lemma decodeLoop_spec inp n : ∀ fs tid w w',
  decodeLoop inp n fs tid w = Ok w' → n = length (toDecode fs tid (dw w)) →
  ∃ k w1, (k <= n)%nat ∧ ran fs tid k w w1 ∧
    (w' = w1 ∧ (k = n ∨ (decodeWidth (dw w) <= length (decoded (dw w1)))%nat) ∨
     ∃ p i f, redirected inp fs tid w1 p i f w').
Proof.
  induction n as [|n IH]; intros fs tid w w' H Hn; cbn [decodeLoop] in H.
  { inv_ok H. exists 0%nat, w'. split; [done|]. split; [apply ran_0|]. left. auto. }
  destruct (Nat.ltb_spec (length (decoded (dw w))) (decodeWidth (dw w))).
  2: { inv_ok H. exists 0%nat, w'. split; [lia|]. split; [apply ran_0|]. left. auto. }
  destruct (toDecode fs tid (dw w)) as [|p l] eqn:Hq; [done|].
  inv_ok1 H. rename a into i. apply deref_Ok in E. change (dw_insts w !! p = Some i) in E.
  assert (∀ w2, ran fs tid 1 w w2 → decodeLoop inp n fs tid w2 = Ok w' →
    ∃ k w1, (k <= S n)%nat ∧ ran fs tid k w w1 ∧
      (w' = w1 ∧ (k = S n ∨ (decodeWidth (dw w) <= length (decoded (dw w1)))%nat) ∨
       ∃ p i f, redirected inp fs tid w1 p i f w')) as Hnext.
  { intros w2 Hran H2. destruct (IH _ _ _ _ H2) as (k & w1 & Hk & Hran2 & Hend).
    { rewrite (ra_queue _ _ _ _ _ Hran), Hq. cbn [length] in Hn. injection Hn as Hn. by rewrite Hn. }
    exists (S k), w1. split; [lia|]. split; [by eapply ran_step|].
    rewrite (proj1 (ra_const _ _ _ _ _ Hran)) in Hend. destruct Hend as [[-> [->|]]|]; auto. }
  destruct (isSquashed i) eqn:Hsq.
  { eapply Hnext; [|exact H]. eapply pop_ran; eauto. }
  inv_ok1 H. rename a into w2. destruct (sendToRename_spec p i (dw_on (popDecode fs tid) w) w2 E E0) as (Hv & Hd & Hfr & Hc).
  destruct (readPredTaken i && negb (isControl i)); [done|].
  inv_ok1 H. rename a into f. unfold derefFront in E1. destruct (dw_front w2 !! p) as [f'|] eqn:Hf; [|done]. inv_ok1 E1.
  rewrite Hfr in Hf. change (dw_front w !! p = Some f) in Hf. destruct (wrongTarget i f) eqn:Hw.
  - inv_ok1 H. exists 0%nat, w. split; [lia|]. split; [apply ran_0|]. right. exists p, i, f. split; try done; eauto.
  - eapply Hnext; [|exact H]. eapply pop_ran; [done|done|]. right. split; [done|]. split; [|done].
    intros g Hg. congruence.
Qed.

(** ** The skid buffer *)

(** The incoming instructions of [tid] have joined its skid buffer. *)
Record moved (tid : ThreadID) (x x' : Decode (PC := PC)) : Prop := {
  mv_skid : dec_skidBuffer x' tid = dec_skidBuffer x tid ++ dec_insts x tid;
  mv_insts : dec_insts x' tid = [];
  mv_queues : ∀ t, t ≠ tid → queues x' t = queues x t;
  mv_signals : ∀ t, signals x' t = signals x t;
  mv_decoded : decoded x' = decoded x;
  mv_stall : renameStall x' = renameStall x;
  mv_const : decodeWidth x' = decodeWidth x ∧ dec_skidBufferMax x' = dec_skidBufferMax x ∧
             dec_activeThreads x' = dec_activeThreads x;
}.

Lemma skidInsert_spec tid w w' :
  dec_skidInsert tid w = Ok w' → w' = dw_set (dw w') w ∧ moved tid (dw w) (dw w').
Proof.
  unfold dec_skidInsert. intros H. inv_ok1 H. inv_ok1 H. inv_ok H. split; [done|]. cbn [dw dw_set]. clear E0.
  assert (∀ l x y, dec_insts x tid = l →
    foldM (λ x p,
      let! i := deref p (dw_insts w) in
      assert! (tid =? threadNumber i)%nat as "skidInsert: tid == inst->threadNumber" in
      Ok (set_dec_skidBuffer (<[tid := dec_skidBuffer x tid ++ [p]]> (dec_skidBuffer x))
            (set_dec_insts (<[tid := tail (dec_insts x tid)]> (dec_insts x)) x))) l x = Ok y →
    moved tid x y) as Hgen; [|by eapply Hgen].
  induction l as [|p l IH]; intros x y Hl Hf; cbn [foldM] in Hf.
  { inv_ok Hf. split; try done. by rewrite Hl, app_nil_r. }
  inv_ok1 Hf. inv_ok1 E0. inv_ok1 E0. inv_ok E0. apply IH in Hf; [|cbn; by rewrite fn_lookup_insert, Hl].
  destruct Hf as [H1 H2 H3 H4 H5 H6 H7]. cbn in H1. rewrite !fn_lookup_insert in H1. split; try done.
  - rewrite H1, Hl. cbn. by rewrite <- (assoc_L (++)).
  - intros t Ht. rewrite H3 by done. unfold queues. cbn. by rewrite !fn_lookup_insert_ne.
Qed.

(** What waits for decode, in the order fetch sent it. *)
Definition pending (tid : ThreadID) (x : Decode (PC := PC)) : list DynInstPtr := dec_skidBuffer x tid ++ dec_insts x tid.

Lemma moved_pending tid x x' : moved tid x x' → pending tid x' = pending tid x.
Proof. intros [H1 H2 _ _ _ _ _]. unfold pending. by rewrite H1, H2, app_nil_r. Qed.

(** The signals after [block]. *)
Definition blockSignals (g : DecodeStatus * bool * bool * DecodeInfo (PC := PC))
  : DecodeStatus * bool * bool * DecodeInfo (PC := PC) :=
  let '(st, blk, unb, info) := g in
  if bool_decide (st = DBlocked) then g
  else if unb then (DBlocked, blk, false, info) else (DBlocked, true, false, info).

(** What else a step that only moves or drops instructions of [tid] keeps. *)
Record frames (tid : ThreadID) w w' : Prop := {
  fr_queues : ∀ t, t ≠ tid → queues (dw w') t = queues (dw w) t;
  fr_signals : ∀ t, t ≠ tid → signals (dw w') t = signals (dw w) t;
  fr_stall : ∀ t, t ≠ tid → renameStall (dw w') t = renameStall (dw w) t;
  fr_const : decodeWidth (dw w') = decodeWidth (dw w) ∧ dec_skidBufferMax (dw w') = dec_skidBufferMax (dw w) ∧
             dec_activeThreads (dw w') = dec_activeThreads (dw w);
}.

#[export] Instance frames_preorder tid : PreOrder (frames tid).
Proof.
  split; [by intros w; split|]. intros w1 w2 w3 [A1 A2 A3 (A4 & A5 & A6)] [B1 B2 B3 (B4 & B5 & B6)].
  split; [| | |split_and!]; try congruence; intros t Ht; [by rewrite B1, A1|by rewrite B2, A2|by rewrite B3, A3].
Qed.

Lemma moved_frames tid w x' : moved tid (dw w) x' → frames tid w (dw_set x' w).
Proof. intros [H1 H2 H3 H4 H5 H6 H7]. split; cbn; auto. intros. by rewrite H6. Qed.

Lemma ran_frames fs tid k w w' : ran fs tid k w w' → frames tid w w'.
Proof. intros [_ _ _ _ _ _ _ ?? Hs ?]. split; auto. intros. by rewrite Hs. Qed.

Lemma signals_status x tid st b u d : signals x tid = (st, b, u, d) → decodeStatus x tid = st.
Proof. by intros [= ? ? ? ?]. Qed.

Lemma block_spec tid w b w' :
  dec_block tid w = Ok (b, w') →
  w' = dw_set (dw w') w ∧ frames tid w w' ∧ pending tid (dw w') = pending tid (dw w) ∧
  dec_insts (dw w') tid = [] ∧ decoded (dw w') = decoded (dw w) ∧
  signals (dw w') tid = blockSignals (signals (dw w) tid).
Proof.
  unfold dec_block. intros H. inv_ok1 H. rename a into v. apply skidInsert_spec in E as [Hw Hm].
  pose proof (moved_pending _ _ _ Hm) as Hp. pose proof (moved_frames _ w _ Hm) as Hf. rewrite <- Hw in Hf.
  pose proof (mv_insts _ _ _ Hm) as Hi. pose proof (mv_decoded _ _ _ Hm) as Hd.
  pose proof (mv_signals _ _ _ Hm tid) as Hs. clear Hm. unfold blockSignals. rewrite <- Hs.
  unfold dec_statusIs in H. unfold signals at 2. case_bool_decide as Hst; cbn [negb] in H.
  { inv_ok H. done. }
  assert (∀ y, dw_set y v = dw_set y w) as Hset by (intros y; by rewrite Hw).
  inv_ok H. split; [apply Hset|].
  assert (∀ y, dec_skidBuffer y = dec_skidBuffer (dw v) → dec_insts y = dec_insts (dw v) →
    decoded y = decoded (dw v) → renameStall y = renameStall (dw v) → decodeWidth y = decodeWidth (dw v) →
    dec_skidBufferMax y = dec_skidBufferMax (dw v) → dec_activeThreads y = dec_activeThreads (dw v) →
    (∀ t, t ≠ tid → signals y t = signals (dw v) t) →
    frames tid w (dw_set y v) ∧ pending tid y = pending tid (dw w) ∧ dec_insts y tid = [] ∧
    decoded y = decoded (dw w)) as Hy.
  { intros y H1 H2 H3 H4 H5 H6 H7 H8. unfold pending. rewrite H1, H2, H3. split_and!; try done.
    etrans; [exact Hf|]. split; cbn; auto; intros t _; unfold queues; by rewrite ?H1, ?H2, ?H4. }
  cbn [dw dw_set decodeUnblock dec_setStatus set_decodeStatus]. destruct (decodeUnblock (dw v) tid) eqn:Hu;
    (match goal with |- context [dw_set ?y v] => destruct (Hy y) as (? & ? & ? & ?) end; try done;
     [intros t Ht; unfold signals; cbn; by rewrite !fn_lookup_insert_ne|];
     split_and!; try done; unfold signals; cbn; by rewrite !fn_lookup_insert, ?Hu).
Qed.

(** ** Squashing *)

Definition ids (i : DynInst) : InstSeqNum * ThreadID * StaticInst * bool :=
  (seqNum i, threadNumber i, staticInst i, readPredTaken i).

(** Instructions keep what they are; some of them become squashed. *)
Definition squashes (s s' : store) : Prop :=
  ∀ p, ids <$> s' !! p = ids <$> s !! p ∧
       (isSquashed <$> s !! p = Some true → isSquashed <$> s' !! p = Some true).

#[export] Instance squashes_preorder : PreOrder squashes.
Proof.
  split; [done|]. intros s1 s2 s3 H1 H2 p. destruct (H1 p) as [A1 B1], (H2 p) as [A2 B2].
  split; [congruence|auto].
Qed.

Lemma same_view_squashes s s' : same_view s s' → squashes s s'.
Proof.
  intros H p. rewrite (view_squashed _ _ _ H). split; [|done]. specialize (H p).
  destruct (s !! p), (s' !! p); try done. apply (inj Some) in H. injection H. unfold ids. cbn. congruence.
Qed.

Lemma squashed_ids i : ids (setSquashed i) = ids i ∧ isSquashed (setSquashed i) = true.
Proof.
  pose proof (setSquashed_view i) as H. unfold view in H. injection H as H1 H2 H3 H4 H5. unfold ids.
  by rewrite H1, H2, H3, H5.
Qed.

Lemma modify_squashes p s s' : modify setSquashed p s = Ok s' → squashes s s'.
Proof.
  intros (i & Hi & ->)%modify_Ok q. destruct (decide (q = p)) as [->|Hq]; [|by rewrite lookup_insert_ne].
  rewrite lookup_insert_eq, Hi. cbn. by destruct (squashed_ids i) as [-> ->].
Qed.

Lemma squashIn_squashes l s : squashes s (squashIn l s).
Proof.
  revert s. induction l as [|q l IH]; intros s; [done|].
  change (squashIn (q :: l) s) with (squashIn l (alter setSquashed q s)). etrans; [|apply IH]. intros p.
  destruct (decide (p = q)) as [->|Hp]; [|by rewrite lookup_alter_ne]. rewrite lookup_alter_eq.
  destruct (s !! q) as [i|]; [|done]. cbn. by destruct (squashed_ids i) as [-> ->].
Qed.

Lemma foldM_squashes (c : DynInst → bool) l : ∀ s s',
  foldM (λ s q, let! j := deref q s in if c j then modify setSquashed q s else Ok s) l s = Ok s' → squashes s s'.
Proof.
  induction l as [|q l IH]; intros s s' H; cbn [foldM] in H; [by inv_ok H|]. inv_ok1 H. inv_ok1 E.
  etrans; [|by apply IH]. destruct (c a0); [by apply modify_squashes in E|by inv_ok E].
Qed.

Lemma cpu_ok_squashes c s s' : cpu_ok c s → squashes s s' → cpu_ok c s'.
Proof.
  intros [H1 H2 H3 H4] H. split; try done. intros p Hp. destruct (H2 p Hp) as (i & Hi & Hs).
  destruct (H p) as [Hv _]. rewrite Hi in Hv. destruct (s' !! p) as [j|]; [|done].
  exists j. split; [done|]. injection Hv. congruence.
Qed.

Lemma squashInstIt_squashes p tid cs cs' : squashInstIt p tid cs = Ok cs' → squashes (snd cs) (snd cs').
Proof.
  destruct cs as [c s]. unfold squashInstIt. intros H. inv_ok1 H. destruct (_ =? _)%nat; [|by inv_ok H].
  inv_ok1 H. inv_ok H. by apply modify_squashes in E0.
Qed.

Lemma removeInstsUntil_squashes sn tid c s c' s' :
  removeInstsUntil sn tid (c, s) = Ok (c', s') → squashes s s'.
Proof.
  unfold removeInstsUntil. intros H. inv_ok1 H. clear E.
  assert (∀ l cs cs', squashYounger sn tid l cs = Ok cs' → squashes (snd cs) (snd cs')) as Hgen.
  { clear. induction l as [|p l IH]; intros cs cs' H; cbn in H; [by inv_ok H|]. inv_ok1 H.
    destruct (_ <? _); [|by inv_ok H]. inv_ok1 H. etrans; [by eapply squashInstIt_squashes|auto]. }
  apply (Hgen _ _ _ H).
Qed.

Definition branchInfo (p : DynInstPtr) (i : DynInst) (f : FrontInst PC Macro) : DecodeInfo (PC := PC) :=
  mkDecodeInfo true true (Some p) true (seqNum i) (pc_branchTarget (staticInst i) (fi_pc f))
    (pc_branching (fi_pc f) || static i IsUncondControl) (Some p).

(** The signals after [squash(inst, tid)]. *)
Definition redirectSignals (info : DecodeInfo (PC := PC)) (g : DecodeStatus * bool * bool * DecodeInfo (PC := PC))
  : DecodeStatus * bool * bool * DecodeInfo (PC := PC) :=
  let '(st, blk, unb, _) := g in
  (DSquashing, blk, bool_decide (st = DBlocked) || bool_decide (st = DUnblocking) || unb, info).

Lemma squashFromBranch_spec inp p tid w w' i f :
  squashFromBranch inp p tid w = Ok w' → dw_insts w !! p = Some i → dw_front w !! p = Some f →
  frames tid w w' ∧ queues (dw w') tid = ([], []) ∧ decoded (dw w') = decoded (dw w) ∧
  dw_front w' = dw_front w ∧ squashes (dw_insts w) (dw_insts w') ∧
  signals (dw w') tid = redirectSignals (branchInfo p i f) (signals (dw w) tid) ∧
  (cpu_ok (dw_cpu w) (dw_insts w) → ∀ q,
     q ∈ cpu_instList (dw_cpu w) → seqNum i < q → threadNumber <$> dw_insts w !! q = Some tid →
     isSquashed <$> dw_insts w' !! q = Some true).
Proof.
  unfold squashFromBranch. intros H Hi Hf. rewrite (proj2 (deref_Ok _ _ _) Hi) in H. unfold derefFront in H. rewrite Hf in H.
  cbv zeta in H. inv_ok1 H. rename a into s1. apply foldM_squashes in E. inv_ok1 H. destruct a as [c s2]. inv_ok H.
  cbn [dw_cpu dw_set dw_set_insts dw_insts] in E0.
  match goal with |- context [dec_clearQueues tid ?y] => set (x := y) end.
  assert (frames tid w (dw_set x w) ∧ decoded x = decoded (dw w) ∧
    signals x tid = redirectSignals (branchInfo p i f) (signals (dw w) tid)) as (Hfr & Hd & Hs).
  { unfold x, dec_statusIs, signals, redirectSignals. cbn [decodeStatus set_decodeInfo].
    destruct (bool_decide (decodeStatus (dw w) tid = DBlocked) || bool_decide (decodeStatus (dw w) tid = DUnblocking)) eqn:Hst;
      (split; [split; try done; cbn; intros t Ht; unfold signals; cbn; by rewrite ?fn_lookup_insert_ne|]);
      (split; [done|]); cbn; by rewrite !fn_lookup_insert, ?Hst. }
  clearbody x.
  assert (removeInstsUntil (seqNum i) tid (dw_cpu w, s1) = Ok (c, s2) →
    squashes s1 s2 ∧ (cpu_ok (dw_cpu w) (dw_insts w) → ∀ q, q ∈ cpu_instList (dw_cpu w) → seqNum i < q →
       threadNumber <$> dw_insts w !! q = Some tid → isSquashed <$> s2 !! q = Some true)) as Hrm.
  { intros Hr. split; [by eapply removeInstsUntil_squashes|]. intros Hok q Hq Hlt Ht.
    assert (cpu_ok (dw_cpu w) s1) as Hok1 by by eapply cpu_ok_squashes.
    rewrite removeInstsUntil_exact in Hr; [|done|by intros Hn; rewrite Hn in Hq; apply elem_of_nil in Hq].
    inv_ok Hr. rewrite squashIn_lookup by by apply squashedUntil_once.
    rewrite bool_decide_eq_true_2; [|apply elem_of_squashedUntil; split_and!; try done].
    - destruct (co_insts _ _ Hok1 q Hq) as (j & -> & _). cbn. by rewrite (proj2 (squashed_ids j)).
    - rewrite <- Ht. destruct (E q) as [He _]. destruct (s1 !! q), (dw_insts w !! q); try done. injection He. cbn. congruence. }
  destruct (Hrm E0) as [Hs2 Hall]. split.
  { destruct Hfr as [F1 F2 F3 F4]. split; cbn; try done. intros t Ht. rewrite <- F1 by done. unfold queues. cbn.
    by rewrite !fn_lookup_insert_ne. }
  unfold queues. cbn. rewrite !fn_lookup_insert. split_and!; try done. by etrans.
Qed.

(** ** A thread's instructions *)

(** The queues hold instructions of their thread, and the skid buffer is empty
    unless the thread is blocked or unblocking. *)
Record queues_ok (tid : ThreadID) w : Prop := {
  qo_thread : ∀ p, p ∈ pending tid (dw w) → threadNumber <$> dw_insts w !! p = Some tid;
  qo_skid : decodeStatus (dw w) tid ≠ DBlocked → decodeStatus (dw w) tid ≠ DUnblocking →
            dec_skidBuffer (dw w) tid = [];
}.

Inductive ended (tid : ThreadID) (k : nat) w w' : Prop :=
  | Through :
      pending tid (dw w') = drop k (pending tid (dw w)) → dec_skidBuffer (dw w') tid = [] →
      signals (dw w') tid = signals (dw w) tid →
      squashes (dw_insts w) (dw_insts w') → dw_front w' = dw_front w → ended tid k w w'
  | Stopped :
      pending tid (dw w') = drop k (pending tid (dw w)) →
      dec_skidBuffer (dw w') tid ≠ [] → dec_insts (dw w') tid = [] →
      signals (dw w') tid = blockSignals (signals (dw w) tid) →
      squashes (dw_insts w) (dw_insts w') → dw_front w' = dw_front w → ended tid k w w'
  | Redirected p i f :
      queues (dw w') tid = ([], []) → last (live (dw_insts w) (take k (pending tid (dw w)))) = Some p →
      dw_insts w !! p = Some i → dw_front w !! p = Some f → wrongTarget i f = true →
      signals (dw w') tid = redirectSignals (branchInfo p i f) (signals (dw w) tid) →
      squashes (dw_insts w) (dw_insts w') →
      dw_front w' = <[p := mkFrontInst (fi_pc f) (pc_branchTarget (staticInst i) (fi_pc f)) (fi_macroop f)]>
                      (dw_front w) →
      (cpu_ok (dw_cpu w) (dw_insts w) → ∀ q,
         q ∈ cpu_instList (dw_cpu w) → seqNum i < q → threadNumber <$> dw_insts w !! q = Some tid →
         isSquashed <$> dw_insts w' !! q = Some true) →
      ended tid k w w'.

Lemma pending_queue fs tid x :
  (fs = false → dec_skidBuffer x tid = []) →
  pending tid x = toDecode fs tid x ++ (if fs then dec_insts x tid else []).
Proof. unfold pending. destruct fs; cbn; [done|]. intros H. by rewrite H, app_nil_r. Qed.

Lemma ran_pending fs tid k w w' :
  (fs = false → dec_skidBuffer (dw w) tid = []) → (k <= length (toDecode fs tid (dw w)))%nat →
  ran fs tid k w w' → pending tid (dw w') = drop k (pending tid (dw w)).
Proof.
  intros Hs Hk [H1 H2 _ _ _ _ _ _ _ _ _]. rewrite !(pending_queue fs).
  - rewrite H1. rewrite drop_app_le by done. by destruct fs; cbn in *; rewrite ?H2.
  - done.
  - intros ->. cbn in H2. by rewrite H2, Hs.
Qed.

Lemma view_lookup s s' p i :
  same_view s s' → s' !! p = Some i → ∃ j, s !! p = Some j ∧ view j = view i.
Proof.
  intros H Hi. specialize (H p). rewrite Hi in H. destruct (s !! p) as [j|]; [|done].
  exists j. split; [done|]. by apply (inj Some) in H.
Qed.

Lemma take_S_snoc {A} (l : list A) k p r : drop k l = p :: r → take (S k) l = take k l ++ [p].
Proof.
  intros H. apply take_S_r. rewrite <- (Nat.add_0_r k), <- lookup_drop. by rewrite H.
Qed.

Lemma wrongTarget_ids i j f : ids i = ids j → wrongTarget (PC := PC) (Macro := Macro) i f = wrongTarget j f.
Proof. intros [=_ _ Hs Hp]. unfold wrongTarget, static. by rewrite Hs, Hp. Qed.

Lemma branchInfo_view p i j f : view i = view j → branchInfo p i f = branchInfo p j f.
Proof. intros H. unfold branchInfo. by same_reads H. Qed.

Lemma redirected_ended inp fs tid k w w1 p i f w' :
  queues_ok tid w → (fs = false → dec_skidBuffer (dw w) tid = []) →
  (k <= length (toDecode fs tid (dw w)))%nat →
  ran fs tid k w w1 → redirected inp fs tid w1 p i f w' →
  ended tid (S k) w w' ∧ frames tid w w' ∧
  decoded (dw w') = decoded (dw w) ++ live (dw_insts w) (take (S k) (pending tid (dw w))) ∧
  queues (dw w') tid = ([], []) ∧
  (PcFlowOk PC → ∀ q j g, q ∈ live (dw_insts w) (take (S k) (pending tid (dw w))) →
     dw_insts w' !! q = Some j → dw_front w' !! q = Some g → wrongTarget j g = false).
Proof.
  intros Hq Hs Hk Hran [[l Hl] Hi Hsq Hf Hw (w2 & w3 & Hsend & Hsquash & Hset)].
  destruct (view_lookup _ _ _ _ (ra_view _ _ _ _ _ Hran) Hi) as (j & Hj & Hv).
  apply sendToRename_spec in Hsend as (Hv2 & Hd2 & Hf2 & Hc2); [|done]. cbn in Hv2, Hf2, Hc2.
  assert (∃ i2, dw_insts w2 !! p = Some i2 ∧ view i2 = view i) as (i2 & Hi2 & Hvi2).
  { pose proof (Hv2 p) as H. rewrite Hi in H. destruct (dw_insts w2 !! p) as [i2|]; [|done].
    exists i2. split; [done|]. by apply (inj Some) in H. }
  assert (threadNumber i = tid) as Ht.
  { pose proof (qo_thread _ _ Hq p) as H. rewrite Hj in H. cbn in H. injection Hv as _ Ht _ _ _. rewrite <- Ht.
    apply (inj Some), H. rewrite (pending_queue fs) by done. apply elem_of_app. left.
    rewrite (ra_queue _ _ _ _ _ Hran) in Hl.
    rewrite <- (take_drop k (toDecode fs tid (dw w))), Hl. set_solver. }
  rewrite Ht in Hsquash. clear Ht.
  destruct (squashFromBranch_spec _ _ _ _ _ _ f Hsquash Hi2) as (S1 & S2 & S3 & S4 & S5 & S6 & S7); [by rewrite Hf2|].
  unfold setPredTarg, derefFront in Hset. rewrite S4, Hf2, Hf in Hset. inv_ok Hset.
  assert (live (dw_insts w) (take (S k) (pending tid (dw w)))
    = live (dw_insts w) (take k (pending tid (dw w))) ++ [p]) as Hlive.
  { erewrite take_S_snoc.
    2: { rewrite <- (ran_pending fs _ _ _ w1) by done. rewrite (pending_queue fs), Hl; [done|].
         intros ->. rewrite <- (Hs eq_refl). apply (ra_other _ _ _ _ _ Hran). }
    unfold live. rewrite filter_app. f_equal. unfold filter. cbn. rewrite Hj. cbn.
    injection Hv as _ _ _ -> _. by rewrite Hsq. }
  assert (frames tid w w2) as Hfr2.
  { etrans; [by eapply ran_frames|]. split; rewrite ?Hd2.
    - intros t Hne. destruct fs; unfold queues; cbn; by rewrite fn_lookup_insert_ne.
    - intros t _. by destruct fs.
    - by destruct fs.
    - by destruct fs. }
  assert (signals (dw w2) tid = signals (dw w) tid) as Hsg.
  { rewrite <- (ra_signals _ _ _ _ _ Hran), Hd2. by destruct fs. }
  split_and!.
  - apply (Redirected _ _ _ _ p j f); cbn [dw dw_set_front dw_insts dw_front dw_cpu].
    + exact S2.
    + by rewrite Hlive, last_snoc.
    + done.
    + by rewrite <- (ra_front _ _ _ _ _ Hran).
    + by rewrite (wrongTarget_view _ _ _ Hv).
    + rewrite <- Hsg, (branchInfo_view _ j i2) by congruence. exact S6.
    + etrans; [apply same_view_squashes, (ra_view _ _ _ _ _ Hran)|].
      etrans; [by apply same_view_squashes|done].
    + rewrite (ra_front _ _ _ _ _ Hran). injection Hv as _ _ -> _ _. done.
    + rewrite <- (ra_cpu _ _ _ _ _ Hran), <- Hc2. intros Hok q Hin Hlt Htq. apply S7; [|done| |].
      * eapply cpu_ok_squashes; [done|]. etrans; apply same_view_squashes; [apply (ra_view _ _ _ _ _ Hran)|done].
      * injection Hv as Hv _. injection Hvi2 as Hv' _. congruence.
      * rewrite <- Htq. pose proof (ra_view _ _ _ _ _ Hran q) as A. pose proof (Hv2 q) as B.
        destruct (dw_insts w !! q), (dw_insts w1 !! q), (dw_insts w2 !! q); try done.
        apply (inj Some) in A, B. injection A. injection B. cbn. congruence.
  - etrans; [exact Hfr2|]. destruct S1 as [F1 F2 F3 F4]. by split.
  - cbn. rewrite S3, Hd2, Hlive. cbn [decoded set_decoded].
    rewrite (assoc_L (++)). f_equal. pose proof (ra_decoded _ _ _ _ _ Hran) as Hd.
    rewrite (pending_queue fs), take_app_le by done. by destruct fs.
  - exact S2.
  - cbn [dw_insts dw_set_front dw_front]. intros Hok q j' g Hin Hj' Hg.
    assert (squashes (dw_insts w) (dw_insts w3)) as Hsqs.
    { etrans; [apply same_view_squashes, (ra_view _ _ _ _ _ Hran)|].
      etrans; [by apply same_view_squashes|done]. }
    destruct (Hsqs q) as [Hids _]. rewrite Hj' in Hids. destruct (dw_insts w !! q) as [jq|] eqn:Hjq; [|done].
    apply (inj Some) in Hids. rewrite (wrongTarget_ids _ _ _ Hids). destruct (decide (q = p)) as [->|Hne].
    + rewrite lookup_insert_eq in Hg. injection Hg as <-. assert (jq = j) as -> by congruence. unfold wrongTarget. cbn.
      injection Hv as _ _ -> _ _. rewrite (@reflexivity _ _ (@Equivalence_Reflexive _ _ pc_eqb_equiv)).
      by rewrite andb_false_r.
    + rewrite lookup_insert_ne in Hg by done. rewrite Hlive in Hin. apply elem_of_app in Hin as [Hin|Hin]; [|set_solver].
      apply list_elem_of_filter in Hin as [Hlv Hin]. rewrite Hjq in Hlv. apply (inj Some) in Hlv.
      apply (ra_right _ _ _ _ _ Hran q jq g); [|done|done|].
      * by rewrite (pending_queue fs), take_app_le in Hin by done.
      * rewrite <- (ra_front _ _ _ _ _ Hran), <- Hf2, <- S4. by rewrite S4, Hf2.
Qed.

Lemma ended_wrote tid k w w' :
  ended tid k w w' → ended tid k w (dw_on (set_dec_wroteToTimeBuffer true) w').
Proof.
  intros [A1 A2 A3 A4 A5|A1 A2 A3 A4 A5 A6|p i f A1 A2 A3 A4 A5 A6 A7 A8 A9].
  - by apply Through.
  - by apply Stopped.
  - by apply (Redirected _ _ _ _ p i f).
Qed.

Lemma decodeInsts_spec inp tid w w' :
  queues_ok tid w → decodeStatus (dw w) tid ≠ DBlocked → decodeInsts inp tid w = Ok w' →
  ∃ k, ended tid k w w' ∧ frames tid w w' ∧
    decoded (dw w') = decoded (dw w) ++ live (dw_insts w) (take k (pending tid (dw w))) ∧
    (∀ p i f, p ∈ take k (pending tid (dw w)) → dw_insts w' !! p = Some i →
       p ∈ live (dw_insts w) (take k (pending tid (dw w))) → dw_front w' !! p = Some f →
       PcFlowOk PC → wrongTarget i f = false).
Proof.
  intros Hq Hnb H. unfold decodeInsts, dec_statusIs in H. set (fs := bool_decide (decodeStatus (dw w) tid = DUnblocking)) in *.
  assert (fs = false → dec_skidBuffer (dw w) tid = []) as Hs.
  { intros Hfs%bool_decide_eq_false. by apply (qo_skid _ _ Hq). }
  clearbody fs.
  destruct (length (toDecode fs tid (dw w)) =? 0)%nat eqn:Hn.
  { inv_ok H. apply Nat.eqb_eq, nil_length_inv in Hn. exists 0%nat. split_and!; try done.
    - apply Through; try done. destruct fs eqn:Hfs; [exact Hn|by apply Hs].
    - by rewrite app_nil_r.
    - intros p i f Hp. by apply elem_of_nil in Hp. }
  inv_ok1 H. rename a into wl. apply decodeLoop_spec in E as (k & w1 & Hk & Hran & Hend); [|done].
  inv_ok1 H. rename a into wb.
  assert (∃ wb', wb' = wb ∧ (w' = wb' ∨ w' = dw_on (set_dec_wroteToTimeBuffer true) wb')) as (? & -> & Hw').
  { exists wb. split; [done|]. injection H as <-. by destruct (bool_decide (decoded (dw wb) = [])); [left|right]. }
  assert (∀ k', ended tid k' w wb → frames tid w wb →
    decoded (dw wb) = decoded (dw w) ++ live (dw_insts w) (take k' (pending tid (dw w))) →
    (∀ p i f, p ∈ take k' (pending tid (dw w)) → dw_insts wb !! p = Some i →
       p ∈ live (dw_insts w) (take k' (pending tid (dw w))) → dw_front wb !! p = Some f →
       PcFlowOk PC → wrongTarget i f = false) →
    ∃ k, ended tid k w w' ∧ frames tid w w' ∧
      decoded (dw w') = decoded (dw w) ++ live (dw_insts w) (take k (pending tid (dw w))) ∧
      (∀ p i f, p ∈ take k (pending tid (dw w)) → dw_insts w' !! p = Some i →
         p ∈ live (dw_insts w) (take k (pending tid (dw w))) → dw_front w' !! p = Some f →
         PcFlowOk PC → wrongTarget i f = false)) as Hdone.
  { intros k' H1 H2 H3 H4. exists k'. destruct Hw' as [->| ->]; [done|]. split; [by apply ended_wrote|].
    destruct H2 as [F1 F2 F3 F4]. done. }
  assert (take k (pending tid (dw w)) = take k (toDecode fs tid (dw w))) as Htk.
  { by rewrite (pending_queue fs), take_app_le. }
  assert (∀ v, same_view (dw_insts w1) (dw_insts v) → dw_front v = dw_front w1 →
    ∀ p i f, p ∈ take k (pending tid (dw w)) → dw_insts v !! p = Some i →
      p ∈ live (dw_insts w) (take k (pending tid (dw w))) → dw_front v !! p = Some f →
      PcFlowOk PC → wrongTarget i f = false) as Hright.
  { intros v Hv Hf p i f Hp Hi Hl Hfp _. rewrite Htk in Hp. apply list_elem_of_filter in Hl as [Hsq _].
    destruct (view_lookup (dw_insts w) (dw_insts v) p i) as (j & Hj & Hvj).
    { transitivity (dw_insts w1); [apply (ra_view _ _ _ _ _ Hran)|done]. }
    { done. }
    rewrite <- (wrongTarget_view _ _ _ Hvj). rewrite Hj in Hsq. apply (inj Some) in Hsq.
    apply (ra_right _ _ _ _ _ Hran p j f Hp Hj Hsq). by rewrite <- (ra_front _ _ _ _ _ Hran), <- Hf. }
  destruct Hend as [[-> _]|(p & i & f & Hre)].
  - destruct (bool_decide_reflect (toDecode fs tid (dw w1) = [])) as [Hnil|Hnil];
      [inv_ok E|destruct (dec_block tid w1) as [[b v]|] eqn:Hb; [|done]; inv_ok E].
    + apply (Hdone k).
      * apply Through; [apply (ran_pending fs _ _ _ _ Hs Hk Hran)| |apply (ra_signals _ _ _ _ _ Hran)| |apply (ra_front _ _ _ _ _ Hran)].
        -- destruct fs; [exact Hnil|]. rewrite <- (Hs eq_refl). apply (ra_other _ _ _ _ _ Hran).
        -- apply same_view_squashes, (ra_view _ _ _ _ _ Hran).
      * by eapply ran_frames.
      * rewrite Htk. apply (ra_decoded _ _ _ _ _ Hran).
      * by apply Hright.
    + apply block_spec in Hb as (B1 & B2 & B3 & B4 & B5 & B6). apply (Hdone k).
      * apply Stopped; [rewrite B3; apply (ran_pending fs _ _ _ _ Hs Hk Hran)| |done| | |].
        -- intros Hn'. unfold pending in B3. rewrite Hn', B4 in B3. apply Hnil. destruct fs; cbn.
           ++ symmetry in B3. by apply app_eq_nil in B3 as [-> _].
           ++ symmetry in B3. by apply app_eq_nil in B3 as [_ ->].
        -- by rewrite B6, (ra_signals _ _ _ _ _ Hran).
        -- rewrite B1. apply same_view_squashes, (ra_view _ _ _ _ _ Hran).
        -- rewrite B1. apply (ra_front _ _ _ _ _ Hran).
      * etrans; [by eapply ran_frames|done].
      * rewrite B5, Htk. apply (ra_decoded _ _ _ _ _ Hran).
      * rewrite B1. by apply Hright.
  - destruct (redirected_ended _ _ _ _ _ _ _ _ _ _ Hq Hs Hk Hran Hre) as (He & Hfr & Hd & Hqs & Hcor).
    assert (toDecode fs tid (dw wl) = []) as Hnil by (unfold queues in Hqs; injection Hqs as Hq1 Hq2; by destruct fs).
    rewrite Hnil, bool_decide_eq_true_2 in E by done. inv_ok E. apply (Hdone (S k)); [done..|].
    intros q j g _ Hj Hl Hg Hok. by apply (Hcor Hok q).
Qed.

(** decode keeps the order and loses nothing: of the instructions waiting for
    a thread (skid buffer first) it takes a prefix and sends those of it that are not
    squashed to rename in that order; what is left goes on waiting, except after a
    redirect, which comes from the last instruction sent and squashes every
    younger instruction of the thread. *)
Theorem decode_in_order inp tid w w' :
  queues_ok tid w → decodeStatus (dw w) tid ≠ DBlocked → cpu_ok (dw_cpu w) (dw_insts w) →
  StronglySorted Z.lt (pending tid (dw w)) → pending tid (dw w) ⊆ cpu_instList (dw_cpu w) →
  decodeInsts inp tid w = Ok w' →
  ∃ k, let sent := live (dw_insts w) (take k (pending tid (dw w))) in
    decoded (dw w') = decoded (dw w) ++ sent ∧
    (pending tid (dw w') = drop k (pending tid (dw w)) ∨
     pending tid (dw w') = [] ∧ ∃ p, last sent = Some p ∧
       di_squash (decodeInfo (dw w') tid) = true ∧ di_squashInst (decodeInfo (dw w') tid) = Some p ∧
       di_doneSeqNum (decodeInfo (dw w') tid) = p ∧
       ∀ q, q ∈ pending tid (dw w) → p < q → isSquashed <$> dw_insts w' !! q = Some true).
Proof.
  intros Hq Hnb Hok Hsort Hin H. destruct (decodeInsts_spec _ _ _ _ Hq Hnb H) as (k & He & _ & Hd & _).
  exists k. cbv zeta. split; [done|].
  destruct He as [Hp|Hp|p i f Hqs Hl Hi Hf Hw Hsg _ _ Hall]; [by left..|right].
  unfold pending at 1. unfold queues in Hqs. injection Hqs as -> ->. split; [done|]. exists p. split; [done|].
  unfold signals, redirectSignals in Hsg. injection Hsg as _ _ _ Hinfo. rewrite Hinfo. cbn.
  assert (p ∈ cpu_instList (dw_cpu w)) as Hpin.
  { apply Hin. apply last_Some_elem_of in Hl. apply list_elem_of_filter in Hl as [_ Hl].
    apply elem_of_take in Hl as (n & Hl & _). by eapply list_elem_of_lookup_2. }
  destruct (co_insts _ _ Hok p Hpin) as (j & Hj & Hs). assert (j = i) as -> by congruence.
  split_and!; try done. intros q Hq' Hlt. apply Hall; [done|by apply Hin|lia|by apply (qo_thread _ _ Hq)].
Qed.

(** Every direct branch decode lets through has its real target: after a cycle
    of decoding a thread, the instructions sent to rename that are direct branches
    (unconditional or predicted taken) are predicted to the target their encoding
    gives, the wrong predictions having been corrected. *)
Theorem decode_corrects_targets inp tid w w' :
  PcFlowOk PC → queues_ok tid w → decodeStatus (dw w) tid ≠ DBlocked → decodeInsts inp tid w = Ok w' →
  ∃ sent, decoded (dw w') = decoded (dw w) ++ sent ∧
    ∀ p i f, p ∈ sent → dw_insts w' !! p = Some i → dw_front w' !! p = Some f →
      static i IsDirectControl = true → static i IsUncondControl || readPredTaken i = true →
      pc_eqb (pc_branchTarget (staticInst i) (fi_pc f)) (fi_predPC f) = true.
Proof.
  intros Hok Hq Hnb H. destruct (decodeInsts_spec _ _ _ _ Hq Hnb H) as (k & _ & _ & Hd & Hr).
  eexists. split; [exact Hd|]. intros p i f Hp Hi Hf Hdir Hun.
  assert (wrongTarget i f = false) as Hw.
  { eapply Hr; [|done..]. by apply list_elem_of_filter in Hp as [_ Hp]. }
  unfold wrongTarget in Hw. rewrite Hdir, Hun in Hw. by apply negb_false_iff in Hw.
Qed.

(** ** The handshake with fetch *)

Definition held (st : DecodeStatus) : bool := bool_decide (st = DBlocked) || bool_decide (st = DUnblocking).

(** [stalled]: what fetch knew before this cycle's signals. *)
Definition agrees (stalled : bool) (x : Decode (PC := PC)) (tid : ThreadID) : Prop :=
  let '(st, blk, unb, _) := signals x tid in
  (blk = true → unb = true → False) ∧ (unb = true → stalled = true) ∧
  held st = (if blk then true else if unb then false else stalled).

Lemma blockSignals_agrees b g x x' tid :
  signals x tid = g → signals x' tid = blockSignals g → agrees b x tid → agrees b x' tid.
Proof.
  intros Hx Hx'. unfold agrees. rewrite Hx, Hx'. destruct g as [[[st blk] unb] info]. unfold blockSignals.
  case_bool_decide as Hst; [done|]. intros (H1 & H2 & H3). destruct unb; cbn.
  - split_and!; try done. destruct blk; [by destruct H1|]. by rewrite H2.
  - done.
Qed.

Lemma redirect_agrees b g info x x' tid :
  signals x tid = g → signals x' tid = redirectSignals info g →
  decodeBlock x tid = false → agrees b x tid → agrees b x' tid.
Proof.
  intros Hx Hx' Hb. unfold agrees. rewrite Hx, Hx'. unfold signals in Hx. subst g. unfold redirectSignals.
  rewrite Hb. fold (held (decodeStatus x tid)). intros (_ & H2 & H3).
  destruct (held (decodeStatus x tid)) eqn:Hh; cbn in *; split_and!; try done; by destruct (decodeUnblock x tid).
Qed.

Definition fresh (x : Decode (PC := PC)) (tid : ThreadID) : Prop :=
  decodeBlock x tid = false ∧ decodeUnblock x tid = false.

(** What a step of [tid] may do to the state, for the handshake. *)
Record thread_step (stalled : bool) (tid : ThreadID) w w' : Prop := {
  ts_agrees : agrees stalled (dw w') tid;
  ts_queues : queues_ok tid w';
  ts_noblock : decodeStatus (dw w') tid ≠ DBlocked → decodeBlock (dw w') tid = false;
  ts_frames : frames tid w w';
  ts_insts : squashes (dw_insts w) (dw_insts w');
}.

Lemma squashes_thread s s' p tid :
  squashes s s' → threadNumber <$> s !! p = Some tid → threadNumber <$> s' !! p = Some tid.
Proof.
  intros H Ht. destruct (H p) as [Hi _]. destruct (s !! p), (s' !! p); try done. injection Hi. cbn in *. congruence.
Qed.

(** Keeping part of the queues keeps the threads right. *)
Lemma queues_ok_sub tid w w' :
  queues_ok tid w → squashes (dw_insts w) (dw_insts w') → pending tid (dw w') ⊆ pending tid (dw w) →
  (decodeStatus (dw w') tid ≠ DBlocked → decodeStatus (dw w') tid ≠ DUnblocking →
   dec_skidBuffer (dw w') tid = []) → queues_ok tid w'.
Proof. intros [H1 H2] Hs Hp Hk. split; [|done]. intros p Hin. eapply squashes_thread; [done|]. auto. Qed.

Lemma squashFromCommit_spec FullSystem inp tid w w' :
  squashFromCommit FullSystem inp tid w = Ok w' → fresh (dw w) tid →
  frames tid w w' ∧ queues (dw w') tid = ([], []) ∧ squashes (dw_insts w) (dw_insts w') ∧
  signals (dw w') tid = redirectSignals (decodeInfo (dw w) tid) (signals (dw w) tid).
Proof.
  unfold squashFromCommit. intros H [Hb Hu]. cbv zeta in H. inv_ok1 H. apply foldM_squashes in E. inv_ok H.
  match goal with |- context [dec_clearQueues tid ?y] => set (x := y) end.
  assert (frames tid w (dw_set x w) ∧
    signals x tid = redirectSignals (decodeInfo (dw w) tid) (signals (dw w) tid)) as (Hfr & Hs).
  { unfold x, dec_statusIs, signals, redirectSignals. rewrite Hb.
    destruct (bool_decide (decodeStatus (dw w) tid = DBlocked) || bool_decide (decodeStatus (dw w) tid = DUnblocking)) eqn:Hst;
      [destruct FullSystem|];
      (split; [split; try done; cbn; intros t Ht; unfold signals; cbn; by rewrite ?fn_lookup_insert_ne|]);
      cbn; by rewrite ?fn_lookup_insert, ?Hst, ?Hb. }
  clearbody x. unfold queues. cbn. rewrite !fn_lookup_insert. split_and!; try done.
  destruct Hfr as [F1 F2 F3 F4]. split; cbn; try done. intros t Ht. rewrite <- F1 by done. unfold queues. cbn.
  by rewrite !fn_lookup_insert_ne.
Qed.

Lemma readStallSignals_frame inp tid x x' :
  dec_readStallSignals inp tid x = Ok x' →
  (∀ t, signals x' t = signals x t) ∧ (∀ t, queues x' t = queues x t) ∧ decoded x' = decoded x ∧
  decodeWidth x' = decodeWidth x ∧ dec_skidBufferMax x' = dec_skidBufferMax x ∧
  dec_activeThreads x' = dec_activeThreads x ∧ (∀ t, t ≠ tid → renameStall x' t = renameStall x t).
Proof.
  unfold dec_readStallSignals. intros H. destruct (in_renameUnblock inp tid); [inv_ok1 H|]; inv_ok H;
    destruct (in_renameBlock inp tid); split_and!; try done; cbn; intros t Ht; by rewrite ?fn_lookup_insert_ne.
Qed.

Lemma signals_eq x x' tid :
  signals x' tid = signals x tid →
  decodeStatus x' tid = decodeStatus x tid ∧ decodeBlock x' tid = decodeBlock x tid ∧
  decodeUnblock x' tid = decodeUnblock x tid.
Proof. unfold signals. by intros [= -> -> -> _]. Qed.

Lemma agrees_eq b x x' tid : signals x' tid = signals x tid → agrees b x tid → agrees b x' tid.
Proof. intros H. unfold agrees. by rewrite H. Qed.

Lemma fresh_agrees x tid : fresh x tid → agrees (held (decodeStatus x tid)) x tid.
Proof. intros [H1 H2]. unfold agrees, signals. by rewrite H1, H2. Qed.

(** Switching between two states that both hold fetch, or both do not. *)
Lemma setStatus_signals x tid st : signals (dec_setStatus tid st x) tid
  = (st, decodeBlock x tid, decodeUnblock x tid, decodeInfo x tid).
Proof. unfold signals. cbn. by rewrite fn_lookup_insert. Qed.
Lemma setStatus_frames tid st w : frames tid w (dw_on (dec_setStatus tid st) w).
Proof. split; try done. intros t Ht. unfold signals. cbn. by rewrite fn_lookup_insert_ne. Qed.

(** [unblock]: nothing, or the end of the stall when the skid buffer is empty. *)
Lemma unblock_spec tid x b x' :
  dec_unblock tid x = (b, x') →
  x' = x ∧ dec_skidBuffer x tid ≠ [] ∨
  dec_skidBuffer x tid = [] ∧ (∀ t, queues x' t = queues x t) ∧ decoded x' = decoded x ∧
  signals x' tid = (DRunning, decodeBlock x tid, true, decodeInfo x tid) ∧
  ∀ w, dw w = x → frames tid w (dw_set x' w).
Proof.
  unfold dec_unblock. intros H. destruct (dec_skidBuffer x tid) as [|p l] eqn:Hs; injection H as _ <-; [right|by left].
  split_and!; try done.
  - unfold signals. cbn. by rewrite !fn_lookup_insert.
  - intros w <-. split; try done. intros t Ht. unfold signals. cbn. by rewrite !fn_lookup_insert_ne.
Qed.

Lemma unblock_agrees b tid x c x' :
  dec_unblock tid x = (c, x') → agrees b x tid → decodeBlock x tid = false → b = true → agrees b x' tid.
Proof.
  intros [[-> _]|(_ & _ & _ & Hs & _)]%unblock_spec Ha Hb ->; [done|]. unfold agrees. by rewrite Hs, Hb.
Qed.

Lemma moved_block_step tid w b w' :
  dec_block tid w = Ok (b, w') → fresh (dw w) tid → queues_ok tid w →
  thread_step (held (decodeStatus (dw w) tid)) tid w w'.
Proof.
  intros H Hfr Hq. apply block_spec in H as (B1 & B2 & B3 & B4 & B5 & B6).
  assert (decodeStatus (dw w') tid = DBlocked) as Hst.
  { unfold signals, blockSignals in B6. case_bool_decide as Hs; [congruence|].
    destruct (decodeUnblock (dw w) tid); congruence. }
  split; [|split|by rewrite Hst|done|].
  - apply (blockSignals_agrees _ _ (dw w) (dw w') tid eq_refl B6). by apply fresh_agrees.
  - rewrite B3. intros p Hp. rewrite B1. by apply (qo_thread _ _ Hq).
  - by rewrite Hst.
  - by rewrite B1.
Qed.

(** [checkSignalsAndUpdate] once the stall signals have been read. *)
Lemma afterStall_step fs inp tid w b w' :
  (if in_commitSquash inp tid then let! v := squashFromCommit fs inp tid w in Ok (true, v)
   else if dec_checkStall tid (dw w) then dec_block tid w
   else if dec_statusIs (dw w) tid DBlocked then
     let '(_, x) := dec_unblock tid (dec_setStatus tid DUnblocking (dw w)) in Ok (true, dw_set x w)
   else if dec_statusIs (dw w) tid DSquashing then Ok (false, dw_on (dec_setStatus tid DRunning) w)
   else Ok (false, w)) = Ok (b, w') →
  fresh (dw w) tid → queues_ok tid w → thread_step (held (decodeStatus (dw w) tid)) tid w w'.
Proof.
  intros H Hfr Hq. pose proof (fresh_agrees _ _ Hfr) as Ha. destruct (in_commitSquash inp tid).
  { destruct (squashFromCommit _ _ _ _) as [v|] eqn:E; [|done]. inv_ok H.
    apply squashFromCommit_spec in E as (S1 & S2 & S3 & S4); [|done].
    assert (decodeBlock (dw w') tid = false) as Hb.
    { unfold signals, redirectSignals in S4. destruct Hfr as [Hb _]. rewrite Hb in S4. congruence. }
    split; try done.
    - by apply (redirect_agrees _ _ _ (dw w) (dw w') tid eq_refl S4 (proj1 Hfr)).
    - apply (queues_ok_sub tid w); try done; unfold pending, queues in *;
        injection S2 as Hk Hn; rewrite ?Hk, ?Hn; [set_solver|done]. }
  destruct (dec_checkStall tid (dw w)); [by eapply moved_block_step|]. unfold dec_statusIs in H.
  destruct (bool_decide_reflect (decodeStatus (dw w) tid = DBlocked)) as [Hst|Hnb].
  - destruct (dec_unblock _ _) as [c x] eqn:Hu. inv_ok H.
    set (w1 := dw_on (dec_setStatus tid DUnblocking) w).
    assert (frames tid w w1) as Hf1 by apply setStatus_frames.
    pose proof (setStatus_signals (dw w) tid DUnblocking) as Hs1. destruct Hfr as [Hb Hub]. rewrite Hb, Hub in Hs1.
    assert (agrees true (dec_setStatus tid DUnblocking (dw w)) tid) as Ha1 by (unfold agrees; by rewrite Hs1).
    rewrite Hst. split.
    + eapply unblock_agrees; [exact Hu|done| |done]. cbn. exact Hb.
    + apply unblock_spec in Hu as [[-> Hne]|(Hnil & Hqs & _ & _)]; (apply (queues_ok_sub tid w); [done|reflexivity|..]);
        cbn.
      * done.
      * cbn. rewrite fn_lookup_insert. done.
      * unfold pending. specialize (Hqs tid). injection Hqs as -> ->. done.
      * specialize (Hqs tid). injection Hqs as -> _. done.
    + cbn. apply unblock_spec in Hu as [[-> Hne]|(_ & _ & _ & Hs & _)]; [done|].
      intros _. unfold signals in Hs. cbn in Hs. congruence.
    + apply unblock_spec in Hu as [[-> Hne]|(_ & _ & _ & _ & Hf)]; [done|].
      etrans; [exact Hf1|]. by apply (Hf w1).
    + reflexivity.
  - destruct (bool_decide_reflect (decodeStatus (dw w) tid = DSquashing)) as [Hst|Hns]; inv_ok H.
    + pose proof (setStatus_signals (dw w) tid DRunning) as Hs1. destruct Hfr as [Hb Hub]. rewrite Hb, Hub in Hs1.
      split; [| |cbn; by rewrite Hb|apply setStatus_frames|reflexivity].
      * unfold agrees. cbn [dw dw_on dw_set]. rewrite Hs1, Hst. done.
      * apply (queues_ok_sub tid w); [done|reflexivity|done|]. intros _ _. apply (qo_skid _ _ Hq); by rewrite Hst.
    + split; try done. intros _. apply Hfr.
Qed.

Lemma checkSignals_step fs inp tid w b w' :
  dec_checkSignalsAndUpdate fs inp tid w = Ok (b, w') → fresh (dw w) tid → queues_ok tid w →
  thread_step (held (decodeStatus (dw w) tid)) tid w w'.
Proof.
  unfold dec_checkSignalsAndUpdate. intros H Hfr Hq. inv_ok1 H. rename a into x.
  apply readStallSignals_frame in E as (Hsg & Hqs & _ & Hwd & Hmx & Hat & Hrs).
  destruct (signals_eq _ _ _ (Hsg tid)) as (Hst & Hbl & Hub). rewrite <- Hst.
  assert (frames tid w (dw_set x w)) as Hf0 by (split; auto).
  apply (afterStall_step fs inp tid (dw_set x w)) in H as [A1 A2 A3 A4 A5].
  - split; try done. by etrans.
  - destruct Hfr. split; cbn; congruence.
  - apply (queues_ok_sub tid w); [done|reflexivity| |]; cbn; specialize (Hqs tid).
    + unfold pending. injection Hqs as -> ->. done.
    + injection Hqs as -> _. rewrite Hst. apply (qo_skid _ _ Hq).
Qed.

Lemma ended_squashes tid k w w' : ended tid k w w' → squashes (dw_insts w) (dw_insts w').
Proof. by intros []. Qed.

Lemma decodeInsts_step b inp tid w w' :
  decodeInsts inp tid w = Ok w' → decodeStatus (dw w) tid ≠ DBlocked → decodeBlock (dw w) tid = false →
  agrees b (dw w) tid → queues_ok tid w →
  thread_step b tid w w' ∧
  (dec_skidBuffer (dw w') tid = [] → decodeBlock (dw w') tid = false) ∧
  (decodeStatus (dw w') tid = decodeStatus (dw w) tid ∨ decodeStatus (dw w') tid = DBlocked ∨
   dec_skidBuffer (dw w') tid = [] ∧ dec_insts (dw w') tid = []).
Proof.
  intros H Hnb Hb Ha Hq. destruct (decodeInsts_spec _ _ _ _ Hq Hnb H) as (k & He & Hfr & _).
  pose proof (ended_squashes _ _ _ _ He) as Hs.
  destruct He as [Hp Hsk Hsg _ _|Hp Hsk Hin Hsg _ _|p i f Hqs _ _ _ _ Hsg _ _ _].
  - destruct (signals_eq _ _ _ Hsg) as (Hst & Hbl & _). split; [|split; [by rewrite Hbl|by left]].
    split; try done; [by eapply agrees_eq| |by rewrite Hbl].
    apply (queues_ok_sub tid w); try done. rewrite Hp. apply subseteq_drop.
  - assert (decodeStatus (dw w') tid = DBlocked) as Hst.
    { unfold signals, blockSignals in Hsg. case_bool_decide; [done|]. destruct (decodeUnblock (dw w) tid); congruence. }
    split; [|split; [done|auto]]. split; try done.
    + by apply (blockSignals_agrees _ _ (dw w) (dw w') tid eq_refl Hsg).
    + apply (queues_ok_sub tid w); try done. rewrite Hp. apply subseteq_drop.
  - unfold queues in Hqs. injection Hqs as Hk Hn.
    assert (decodeBlock (dw w') tid = false) as Hb'.
    { unfold signals, redirectSignals in Hsg. rewrite Hb in Hsg. congruence. }
    split; [|split; auto]. split; try done.
    + by apply (redirect_agrees _ _ _ (dw w) (dw w') tid eq_refl Hsg).
    + apply (queues_ok_sub tid w); try done. unfold pending. rewrite Hk, Hn. set_solver.
Qed.

Lemma skidInsert_step b tid w w' :
  dec_skidInsert tid w = Ok w' → thread_step b tid w w → 
  (decodeStatus (dw w) tid = DUnblocking ∨ decodeStatus (dw w) tid = DBlocked ∨
   dec_skidBuffer (dw w) tid = [] ∧ dec_insts (dw w) tid = []) →
  thread_step b tid w w' ∧ signals (dw w') tid = signals (dw w) tid ∧
  dec_skidBuffer (dw w') tid = pending tid (dw w) ∧ dec_insts (dw w') tid = [].
Proof.
  intros H [A1 A2 A3 _ _] Hcase. apply skidInsert_spec in H as [Hw Hm].
  pose proof (mv_signals _ _ _ Hm tid) as Hsg. pose proof (mv_skid _ _ _ Hm) as Hsk. pose proof (mv_insts _ _ _ Hm) as Hin.
  destruct (signals_eq _ _ _ Hsg) as (Hst & Hbl & _). split; [|done]. split.
  - by eapply agrees_eq.
  - apply (queues_ok_sub tid w); [done|rewrite Hw; reflexivity|by rewrite (moved_pending _ _ _ Hm)|].
    rewrite Hst. intros H1 H2. destruct Hcase as [?|[?|[Hk Hn]]]; [done..|]. by rewrite Hsk, Hk, Hn.
  - by rewrite Hst, Hbl.
  - rewrite Hw. by apply moved_frames.
  - rewrite Hw. reflexivity.
Qed.

Lemma thread_step_trans b tid w1 w2 w3 :
  thread_step b tid w1 w2 → thread_step b tid w2 w3 → thread_step b tid w1 w3.
Proof. intros [A1 A2 A3 A4 A5] [B1 B2 B3 B4 B5]. split; try done; by etrans. Qed.

Lemma thread_step_self b tid w w' : thread_step b tid w w' → thread_step b tid w' w'.
Proof. intros [A1 A2 A3 _ _]. by split. Qed.

Lemma decode_step b inp tid w c w' :
  decode inp tid w = Ok (c, w') → thread_step b tid w w → thread_step b tid w w'.
Proof.
  unfold decode, dec_statusIs. intros H Hself. pose proof Hself as [Ha Hq Hb _ _].
  destruct (bool_decide_reflect (decodeStatus (dw w) tid = DRunning)) as [Hr|Hr];
    [|destruct (bool_decide_reflect (decodeStatus (dw w) tid = DIdle)) as [Hi|Hi]]; cbn [orb] in H.
  1,2: destruct (decodeInsts inp tid w) as [v|] eqn:E; [|done]; inv_ok H;
    eapply (decodeInsts_step b) in E as [? _]; [done|congruence|apply Hb; congruence|done..].
  destruct (bool_decide_reflect (decodeStatus (dw w) tid = DUnblocking)) as [Hu|Hu]; [|by inv_ok H].
  assert (decodeBlock (dw w) tid = false) as Hbl by (apply Hb; congruence).
  assert (b = true) as Hbt.
  { unfold agrees, signals in Ha. rewrite Hu, Hbl in Ha. destruct Ha as (_ & _ & Ha). by destruct (decodeUnblock (dw w) tid). }
  destruct (negb (dec_skidsEmpty (dw w))); [|done].
  destruct (decodeInsts inp tid w) as [v|] eqn:E; [|done].
  apply (decodeInsts_step b) in E as (Hv & Hnb & Hcase); [|congruence|done..].
  pose proof (thread_step_self _ _ _ _ Hv) as Hvs.
  inv_ok1 H. rename a into u.
  assert (thread_step b tid v u ∧ (dec_skidBuffer (dw u) tid = [] → decodeBlock (dw u) tid = false)) as [Hu' Hbu].
  { destruct (bool_decide (fromFetch inp = [])); [inv_ok E; by split|].
    apply (skidInsert_step b) in E as (H1 & H2 & H3 & _); [|done|rewrite Hu in Hcase; tauto]. split; [done|].
    rewrite (proj1 (proj2 (signals_eq _ _ _ H2))), H3. intros Hn. apply Hnb. unfold pending in Hn.
    by apply app_eq_nil in Hn as [-> _]. }
  pose proof (thread_step_trans _ _ _ _ _ Hv Hu') as Hwu. clear Hv Hu' Hcase Hnb Hvs E.
  destruct (dec_unblock tid (dw u)) as [ch x] eqn:Hx. inv_ok H. eapply thread_step_trans; [exact Hwu|].
  destruct Hwu as [U1 U2 U3 U4 U5].
  destruct (unblock_spec _ _ _ _ Hx) as [[-> Hne]|(Hnil & Hqs & _ & Hsg & Hf)]; [by destruct u|].
  split.
  - eapply unblock_agrees; [exact Hx|done|auto|done].
  - apply (queues_ok_sub tid u); [done|reflexivity| |]; cbn; specialize (Hqs tid).
    + unfold pending. injection Hqs as -> ->. done.
    + by injection Hqs as -> _.
  - cbn. intros _. unfold signals in Hsg. injection Hsg as _ -> _ _. auto.
  - by apply Hf.
  - reflexivity.
Qed.

Lemma decodeThread_step fs inp c w tid c' w' :
  decodeThread fs inp (c, w) tid = Ok (c', w') → fresh (dw w) tid → queues_ok tid w →
  thread_step (held (decodeStatus (dw w) tid)) tid w w'.
Proof.
  unfold decodeThread. intros H Hfr Hq. inv_ok1 H. destruct a as [c1 w1]. inv_ok1 H. destruct a as [c2 w2]. inv_ok H.
  apply checkSignals_step in E; [|done..]. eapply thread_step_trans; [exact E|].
  eapply decode_step; [done|]. by eapply thread_step_self.
Qed.

Lemma queues_ok_other t tid b w w' : thread_step b tid w w' → t ≠ tid → queues_ok t w → queues_ok t w'.
Proof.
  intros [_ _ _ Hf Hs] Ht Hq. pose proof (fr_queues _ _ _ Hf t Ht) as Hqs. unfold queues in Hqs. injection Hqs as Hk Hi.
  destruct (signals_eq _ _ _ (fr_signals _ _ _ Hf t Ht)) as (Hst & _ & _).
  apply (queues_ok_sub t w); [done..| |].
  - unfold pending. by rewrite Hk, Hi.
  - rewrite Hst, Hk. apply (qo_skid _ _ Hq).
Qed.

(** What holds of the threads during a tick: those already visited have
    signalled, the others have not. *)
Record visiting (stalled : ThreadID → bool) (todo : list ThreadID) w : Prop := {
  vi_queues t : queues_ok t w;
  vi_agrees t : agrees (stalled t) (dw w) t;
  vi_fresh t : t ∈ todo → fresh (dw w) t;
}.

Lemma foldM_visiting fs inp stalled ts : ∀ cw cw',
  NoDup ts → visiting stalled ts (snd cw) → foldM (decodeThread fs inp) ts cw = Ok cw' →
  visiting stalled [] (snd cw').
Proof.
  induction ts as [|tid ts IH]; intros [c w] cw' Hnd Hv H; cbn [foldM] in H; [by inv_ok H|].
  apply NoDup_cons in Hnd as [Hni Hnd]. inv_ok1 H. destruct a as [c1 w1]. destruct Hv as [V1 V2 V3].
  cbn [snd] in *. assert (fresh (dw w) tid) as Hfr by (apply V3; set_solver).
  pose proof (decodeThread_step _ _ _ _ _ _ _ E Hfr (V1 tid)) as Hst.
  assert (held (decodeStatus (dw w) tid) = stalled tid) as Hh.
  { pose proof (V2 tid) as Ha. unfold agrees, signals in Ha. destruct Hfr as [Hfb Hfu].
    rewrite Hfb, Hfu in Ha. tauto. }
  rewrite Hh in Hst. eapply (IH (c1, w1)); [done| |exact H]. split.
  - intros t. destruct (decide (t = tid)) as [->|Ht]; [apply (ts_queues _ _ _ _ Hst)|].
    by eapply queues_ok_other.
  - intros t. destruct (decide (t = tid)) as [->|Ht]; [apply (ts_agrees _ _ _ _ Hst)|].
    by eapply agrees_eq; [apply (fr_signals _ _ _ (ts_frames _ _ _ _ Hst))|].
  - intros t Ht. cbn [snd]. assert (t ≠ tid) as Hne by (intros ->; done).
    destruct (signals_eq _ _ _ (fr_signals _ _ _ (ts_frames _ _ _ _ Hst) t Hne)) as (_ & Hb & Hu).
    unfold fresh. rewrite Hb, Hu. apply V3. set_solver.
Qed.

Lemma sortInsts_queues inp w w' :
  dec_sortInsts inp w = Ok w' →
  (∀ t, queues_ok t w → queues_ok t w') ∧ (∀ t, signals (dw w') t = signals (dw w) t) ∧
  dw_insts w' = dw_insts w ∧ dec_activeThreads (dw w') = dec_activeThreads (dw w).
Proof.
  unfold dec_sortInsts. intros H. inv_ok1 H. rename a into x. inv_ok H. cbn [dw dw_set dw_insts].
  assert (∀ l y z, foldM (λ x p, let! i := deref p (dw_insts w) in
      let tid := threadNumber i in
      Ok (set_dec_insts (<[tid := dec_insts x tid ++ [p]]> (dec_insts x)) x)) l y = Ok z →
    (∀ t, dec_skidBuffer z t = dec_skidBuffer y t) ∧ (∀ t, signals z t = signals y t) ∧
    dec_activeThreads z = dec_activeThreads y ∧
    ∀ t p, p ∈ dec_insts z t → p ∈ dec_insts y t ∨ threadNumber <$> dw_insts w !! p = Some t) as Hgen.
  { induction l as [|p l IH]; intros y z Hf; cbn [foldM] in Hf; [inv_ok Hf; split_and!; auto|].
    inv_ok1 Hf. inv_ok1 E0. inv_ok E0. apply deref_Ok in E1. apply IH in Hf as (H1 & H2 & H3 & H4).
    split_and!; try done. intros t q Hq. apply H4 in Hq as [Hq|Hq]; [|by right]. cbn in Hq.
    destruct (decide (t = threadNumber a0)) as [->|Ht]; [|rewrite fn_lookup_insert_ne in Hq by done; by left].
    rewrite fn_lookup_insert in Hq. apply elem_of_app in Hq as [Hq|Hq]; [by left|right].
    apply list_elem_of_singleton in Hq as ->. by rewrite E1. }
  destruct (Hgen _ _ _ E) as (H1 & H2 & H3 & H4). split_and!; try done.
  intros t [Hq1 Hq2]. split.
  - intros p Hp. cbn in *. unfold pending in *. rewrite H1 in Hp. apply elem_of_app in Hp as [Hp|Hp].
    + apply Hq1, elem_of_app. by left.
    + apply H4 in Hp as [Hp|Hp]; [|done]. apply Hq1, elem_of_app. by right.
  - cbn. destruct (signals_eq _ _ _ (H2 t)) as (-> & _ & _). by rewrite H1.
Qed.

Lemma updateStatus_same w w' :
  dec_updateStatus w = Ok w' →
  (∀ t, signals (dw w') t = signals (dw w) t) ∧ (∀ t, queues (dw w') t = queues (dw w) t) ∧
  dw_insts w' = dw_insts w.
Proof.
  unfold dec_updateStatus. intros H. destruct (existsb _ _), (dec_active (dw w)); try (by inv_ok H);
    inv_ok1 H; by inv_ok H.
Qed.

(** decode's block and unblock signals are a handshake: with fetch stalled at
    the start of a cycle exactly for the threads decode holds up, after the cycle no
    thread is told both to block and to unblock, only a stalled thread is told to
    unblock, and fetch, having read the signals, is again stalled exactly for the
    threads decode holds up; and the skid buffers are empty but for those.  So the
    two assertions with which fetch reads the signals never fail. *)
Theorem decode_handshake fs inp w w' :
  NoDup (dec_activeThreads (dw w)) → (∀ tid, queues_ok tid w) → dec_tick fs inp w = Ok w' →
  ∀ tid, queues_ok tid w' ∧
    (decodeUnblock (dw w') tid = true →
       held (decodeStatus (dw w) tid) = true ∧ decodeBlock (dw w') tid = false) ∧
    held (decodeStatus (dw w') tid) =
      (if decodeBlock (dw w') tid then true
       else if decodeUnblock (dw w') tid then false else held (decodeStatus (dw w) tid)).
Proof.
  unfold dec_tick. intros Hnd Hq H. inv_ok1 H. rename a into w1.
  apply sortInsts_queues in E as (Hq1 & Hs1 & Hi1 & Ha1). inv_ok1 H. destruct a as [c w2].
  inv_ok1 H. rename a into w3. set (stalled := λ t, held (decodeStatus (dw w) t)).
  assert (visiting stalled (dec_activeThreads (dw w1)) w1) as Hv1.
  { split; intros t.
    - apply Hq1. destruct (Hq t) as [A B]. by split.
    - eapply agrees_eq; [apply Hs1|]. by apply (fresh_agrees (dec_startCycle (dw w))).
    - intros _. unfold fresh. by destruct (signals_eq _ _ _ (Hs1 t)) as (_ & -> & ->). }
  apply (foldM_visiting fs inp stalled) in E; [|by rewrite Ha1|done]. cbn [snd] in E. destruct E as [V1 V2 _].
  assert ((∀ t, signals (dw w') t = signals (dw w2) t) ∧ (∀ t, queues (dw w') t = queues (dw w2) t) ∧
    dw_insts w' = dw_insts w2) as (Hs' & Hq' & Hi').
  { assert (dw w' = dw w3 ∧ dw_insts w' = dw_insts w3) as [-> ->].
    { destruct (dec_wroteToTimeBuffer (dw w3)); [inv_ok1 H|]; by inv_ok H. }
    destruct c; [by apply updateStatus_same|by inv_ok E0]. }
  intros tid. pose proof (V2 tid) as Ha. unfold agrees in Ha. rewrite <- Hs' in Ha. unfold signals in Ha.
  destruct Ha as (A1 & A2 & A3). split_and!.
  - destruct (V1 tid) as [B1 B2]. pose proof (Hq' tid) as Hqt. unfold queues in Hqt. injection Hqt as Hk Hn.
    destruct (signals_eq _ _ _ (Hs' tid)) as (Hst & _ & _). split.
    + unfold pending. rewrite Hk, Hn, Hi'. exact B1.
    + by rewrite Hst, Hk.
  - intros Hu. split; [by apply A2|]. destruct (decodeBlock (dw w') tid); [by destruct A1|done].
  - exact A3.
Qed.
End decode.

(** ** Examples *)

Import DecodeExample.

Module DecodeReady.
Lemma thread0 p : p ∈ [1; 2; 3] → threadNumber <$> insts !! p = Some 0%nat.
Proof. intros Hp. repeat (apply elem_of_cons in Hp as [->|Hp]; [done|]). by apply elem_of_nil in Hp. Qed.
Lemma ready_ok tid : queues_ok tid (world ready insts).
Proof.
  split; [|done]. intros p Hp. cbn in Hp. destruct tid; [by apply thread0|by apply elem_of_nil in Hp].
Qed.
Lemma idle_ok tid : queues_ok tid (world idle insts).
Proof. split; [|done]. intros p Hp. by apply elem_of_nil in Hp. Qed.
Lemma flight_ok : cpu_ok (mkCpuList [1; 2; 3] [] false) insts.
Proof.
  split; [repeat constructor| |constructor|set_solver]. intros p Hp. cbn in Hp.
  repeat (apply elem_of_cons in Hp as [->|Hp]; [by eexists|]). by apply elem_of_nil in Hp.
Qed.
End DecodeReady.
Import DecodeReady.

Lemma decode_in_order_witness :
  ∃ w' k, decodeInsts (quiet [1; 2; 3]) 0 (world ready insts) = Ok w' ∧
    decoded (dw w') = live insts (take k [1; 2; 3]) ∧ pending 0 (dw w') = [].
Proof.
  destruct (decodeInsts (quiet [1; 2; 3]) 0 (world ready insts)) as [w'|] eqn:E; [|vm_compute in E; discriminate].
  destruct (decode_in_order (quiet [1; 2; 3]) 0 (world ready insts) w' (ready_ok 0)) as (k & Hd & Hp); [done|apply flight_ok| |done|done|].
  { repeat constructor. }
  exists w', k. split; [done|]. split; [done|]. by vm_compute in E; injection E as <-.
Defined.

Lemma decode_corrects_targets_witness :
  ∃ w' sent, decodeInsts (quiet [1; 2; 3]) 0 (world ready insts) = Ok w' ∧ decoded (dw w') = sent ∧ sent = [1; 2].
Proof.
  destruct (decodeInsts (quiet [1; 2; 3]) 0 (world ready insts)) as [w'|] eqn:E; [|vm_compute in E; discriminate].
  destruct (decode_corrects_targets (quiet [1; 2; 3]) 0 (world ready insts) w' (x86_PcFlowOk (λ _ _, x_set 100)) (ready_ok 0)) as (sent & Hd & _);
    [done|done|].
  exists w', sent. split; [done|]. split; [done|]. change (decoded (dw (world ready insts))) with (@nil DynInstPtr) in Hd.
  cbn [app] in Hd. rewrite <- Hd. by vm_compute in E; injection E as <-.
Defined.

Lemma decode_handshake_witness :
  ∃ w', dec_tick true (quiet [1; 2; 3]) (world idle insts) = Ok w' ∧ ∀ tid, queues_ok tid w'.
Proof.
  destruct (dec_tick true (quiet [1; 2; 3]) (world idle insts)) as [w'|] eqn:E; [|vm_compute in E; discriminate].
  exists w'. split; [done|]. intros tid.
  apply (decode_handshake true (quiet [1; 2; 3]) (world idle insts) w'); [|apply idle_ok|done].
  repeat constructor. set_solver.
Defined.

