(* ===== verification/Fetch.v ===== *)
(** * The fetch stage

    [DefaultFetch] ([cpu/o3/fetch.hh], [cpu/o3/fetch_impl.hh]): the choice of a
    thread, translation and reading of the instructions' bytes, their decoding
    into (micro-)instructions, branch prediction, the queue to decode, and the
    handling of redirects from commit and decode.

    The stage works on the instructions and their PC states, the CPU's list of
    instructions, the reorder buffer, the activity recorder and the branch
    prediction unit, gathered in [Fet].  The instruction translation buffer, the
    instruction cache port and the CPU around the stage are the interface
    [FetchEnv]; the instruction set's decoder, whose instruction objects the build
    generates, is [IsaDecoder].  A memory request is a pointer, here a number.
    Statistics, tracing and probe points are left out. *)

From S2P Require Import Prelude Regs Config DynInst Rob TimeBuf Activity CpuList StoreSet DirPred BPred X86Pc Decode.

Local Open Scope Z_scope.

(** ** Data *)

Inductive FetchStatus : Type :=
  | FRunning | FIdle | FSquashing | FBlocked | FFetching | FTrapPending | FQuiescePending
  | FItlbWait | FIcacheWaitResponse | FIcacheWaitRetry | FIcacheAccessComplete | FNoGoodAddr.
#[export] Instance FetchStatus_eq_dec : EqDecision FetchStatus.
Proof. solve_decision. Defined.
Inductive FetchPriority : Type := FpSingleThread | FpRoundRobin | FpBranch | FpIQ | FpLSQ.

(** [RequestPtr]: [fr_id] is the pointer; [fr_paddr] is set by the translation. *)
Record FetchReq := mkFetchReq {
  fr_id : Z;
  fr_tid : ThreadID; (** [contextToThread(contextId())] *)
  fr_vaddr : Addr;
  fr_paddr : Addr;
  fr_pc : Addr;
}.
Definition set_paddr (a : Addr) (r : FetchReq) : FetchReq :=
  mkFetchReq (fr_id r) (fr_tid r) (fr_vaddr r) a (fr_pc r).

(** Parameters of the stage. *)
Record FetchConfig := mkFetchConfig {
  fetchWidth : Z;
  toDecodeWidth : nat; (** [decodeWidth] *)
  fetchBufferSize : Z;
  fetchQueueSize : nat;
  instSize : Z; (** [sizeof(TheISA::MachInst)] *)
  fetchPolicy : FetchPriority;
  fe_numThreads : nat;
  numFetchingThreads : nat;
  fe_activeThreads : list ThreadID;
}.

(** [TheISA::Decoder] and the macro-ops it makes. *)
Class IsaDecoder (D PC Macro : Type) := {
  dc_reset : D → D;
  dc_instReady : D → bool;
  dc_needMoreBytes : D → bool;
  dc_moreBytes : PC → Addr → Z → D → D;
  dc_decode : PC → D → (StaticInst + Macro) * PC * D; (** also updates the PC *)
  mo_fetchMicroop : Macro → Z → StaticInst;
  rom_fetchMicroop : Z → option Macro → StaticInst; (** [microcodeRom.fetchMicroop] *)
}.

(** The CPU and the memory system around the stage. *)
Class FetchEnv (E : Type) := {
  fe_switchedOut : E → bool;
  fe_isDraining : E → bool;
  fe_wakeCPU : E → E;
  fe_translate : FetchReq → E → option (option Fault * Addr) * E; (** [translateTiming]: the answer, when it comes at once *)
  fe_isMemAddr : Addr → E → bool;
  fe_sendTimingReq : FetchReq → E → bool * E;
  fe_random : E → Z * E; (** [random_mt.random<uint8_t>(0, n - 1)] modulo [n] *)
}.

Section fetch.
Context {PC Macro D E P Hist : Type} {HPC : PcState PC} {HF : PcFlow PC} {HD : IsaDecoder D PC Macro}
  {HE : FetchEnv E} {HP : DirPred P Hist}.

Record Fetch := mkFetch {
  fe_active : bool; (** [_status] *)
  fetchStatus : ThreadID → FetchStatus;
  priorityList : list ThreadID;
  decoder : ThreadID → D;
  fe_pc : ThreadID → PC; (** [pc] *)
  fetchOffset : ThreadID → Z;
  macroop : ThreadID → option Macro;
  delayedCommit : ThreadID → bool;
  memReq : ThreadID → option FetchReq;
  fe_wroteToTimeBuffer : bool;
  numInst : Z;
  decodeStall : ThreadID → bool; (** [stalls[tid].decode] *)
  drainStalls : ThreadID → bool; (** [stalls[tid].drain] *)
  cacheBlocked : bool;
  retryPkt : option FetchReq;
  retryTid : option ThreadID; (** [None] is [InvalidThreadID] *)
  fetchBuffer : ThreadID → list Z; (** bytes *)
  fetchBufferPC : ThreadID → Addr;
  fetchBufferValid : ThreadID → bool;
  fetchQueue : ThreadID → list DynInstPtr; (** the front first *)
  interruptPending : bool;
  issuePipelinedIfetch : ThreadID → bool;
  finishTranslationEvent : option (Fault * FetchReq); (** scheduled with these *)
  toDecodeInsts : list DynInstPtr; (** [toDecode->insts[0 .. size)] *)
  nextReq : Z; (** requests made so far *)
  fetchCfg : FetchConfig;
}.

Definition set_fe_active (v : bool) (x : Fetch) : Fetch :=
  mkFetch v (fetchStatus x) (priorityList x) (decoder x) (fe_pc x) (fetchOffset x)
    (macroop x) (delayedCommit x) (memReq x) (fe_wroteToTimeBuffer x)
    (numInst x) (decodeStall x) (drainStalls x) (cacheBlocked x) (retryPkt x)
    (retryTid x) (fetchBuffer x) (fetchBufferPC x) (fetchBufferValid x)
    (fetchQueue x) (interruptPending x) (issuePipelinedIfetch x)
    (finishTranslationEvent x) (toDecodeInsts x) (nextReq x) (fetchCfg x).
Definition set_fetchStatus (v : ThreadID → FetchStatus) (x : Fetch) : Fetch :=
  mkFetch (fe_active x) v (priorityList x) (decoder x) (fe_pc x) (fetchOffset x)
    (macroop x) (delayedCommit x) (memReq x) (fe_wroteToTimeBuffer x)
    (numInst x) (decodeStall x) (drainStalls x) (cacheBlocked x) (retryPkt x)
    (retryTid x) (fetchBuffer x) (fetchBufferPC x) (fetchBufferValid x)
    (fetchQueue x) (interruptPending x) (issuePipelinedIfetch x)
    (finishTranslationEvent x) (toDecodeInsts x) (nextReq x) (fetchCfg x).
Definition set_priorityList (v : list ThreadID) (x : Fetch) : Fetch :=
  mkFetch (fe_active x) (fetchStatus x) v (decoder x) (fe_pc x) (fetchOffset x)
    (macroop x) (delayedCommit x) (memReq x) (fe_wroteToTimeBuffer x)
    (numInst x) (decodeStall x) (drainStalls x) (cacheBlocked x) (retryPkt x)
    (retryTid x) (fetchBuffer x) (fetchBufferPC x) (fetchBufferValid x)
    (fetchQueue x) (interruptPending x) (issuePipelinedIfetch x)
    (finishTranslationEvent x) (toDecodeInsts x) (nextReq x) (fetchCfg x).
Definition set_decoder (v : ThreadID → D) (x : Fetch) : Fetch :=
  mkFetch (fe_active x) (fetchStatus x) (priorityList x) v (fe_pc x) (fetchOffset x)
    (macroop x) (delayedCommit x) (memReq x) (fe_wroteToTimeBuffer x)
    (numInst x) (decodeStall x) (drainStalls x) (cacheBlocked x) (retryPkt x)
    (retryTid x) (fetchBuffer x) (fetchBufferPC x) (fetchBufferValid x)
    (fetchQueue x) (interruptPending x) (issuePipelinedIfetch x)
    (finishTranslationEvent x) (toDecodeInsts x) (nextReq x) (fetchCfg x).
Definition set_fe_pc (v : ThreadID → PC) (x : Fetch) : Fetch :=
  mkFetch (fe_active x) (fetchStatus x) (priorityList x) (decoder x) v
    (fetchOffset x) (macroop x) (delayedCommit x) (memReq x)
    (fe_wroteToTimeBuffer x) (numInst x) (decodeStall x) (drainStalls x)
    (cacheBlocked x) (retryPkt x) (retryTid x) (fetchBuffer x)
    (fetchBufferPC x) (fetchBufferValid x) (fetchQueue x) (interruptPending x)
    (issuePipelinedIfetch x) (finishTranslationEvent x) (toDecodeInsts x)
    (nextReq x) (fetchCfg x).
Definition set_fetchOffset (v : ThreadID → Z) (x : Fetch) : Fetch :=
  mkFetch (fe_active x) (fetchStatus x) (priorityList x) (decoder x) (fe_pc x) v
    (macroop x) (delayedCommit x) (memReq x) (fe_wroteToTimeBuffer x)
    (numInst x) (decodeStall x) (drainStalls x) (cacheBlocked x) (retryPkt x)
    (retryTid x) (fetchBuffer x) (fetchBufferPC x) (fetchBufferValid x)
    (fetchQueue x) (interruptPending x) (issuePipelinedIfetch x)
    (finishTranslationEvent x) (toDecodeInsts x) (nextReq x) (fetchCfg x).
Definition set_macroop (v : ThreadID → option Macro) (x : Fetch) : Fetch :=
  mkFetch (fe_active x) (fetchStatus x) (priorityList x) (decoder x) (fe_pc x)
    (fetchOffset x) v (delayedCommit x) (memReq x) (fe_wroteToTimeBuffer x)
    (numInst x) (decodeStall x) (drainStalls x) (cacheBlocked x) (retryPkt x)
    (retryTid x) (fetchBuffer x) (fetchBufferPC x) (fetchBufferValid x)
    (fetchQueue x) (interruptPending x) (issuePipelinedIfetch x)
    (finishTranslationEvent x) (toDecodeInsts x) (nextReq x) (fetchCfg x).
Definition set_delayedCommit (v : ThreadID → bool) (x : Fetch) : Fetch :=
  mkFetch (fe_active x) (fetchStatus x) (priorityList x) (decoder x) (fe_pc x)
    (fetchOffset x) (macroop x) v (memReq x) (fe_wroteToTimeBuffer x)
    (numInst x) (decodeStall x) (drainStalls x) (cacheBlocked x) (retryPkt x)
    (retryTid x) (fetchBuffer x) (fetchBufferPC x) (fetchBufferValid x)
    (fetchQueue x) (interruptPending x) (issuePipelinedIfetch x)
    (finishTranslationEvent x) (toDecodeInsts x) (nextReq x) (fetchCfg x).
Definition set_memReq (v : ThreadID → option FetchReq) (x : Fetch) : Fetch :=
  mkFetch (fe_active x) (fetchStatus x) (priorityList x) (decoder x) (fe_pc x)
    (fetchOffset x) (macroop x) (delayedCommit x) v (fe_wroteToTimeBuffer x)
    (numInst x) (decodeStall x) (drainStalls x) (cacheBlocked x) (retryPkt x)
    (retryTid x) (fetchBuffer x) (fetchBufferPC x) (fetchBufferValid x)
    (fetchQueue x) (interruptPending x) (issuePipelinedIfetch x)
    (finishTranslationEvent x) (toDecodeInsts x) (nextReq x) (fetchCfg x).
Definition set_fe_wroteToTimeBuffer (v : bool) (x : Fetch) : Fetch :=
  mkFetch (fe_active x) (fetchStatus x) (priorityList x) (decoder x) (fe_pc x)
    (fetchOffset x) (macroop x) (delayedCommit x) (memReq x) v (numInst x)
    (decodeStall x) (drainStalls x) (cacheBlocked x) (retryPkt x) (retryTid x)
    (fetchBuffer x) (fetchBufferPC x) (fetchBufferValid x) (fetchQueue x)
    (interruptPending x) (issuePipelinedIfetch x) (finishTranslationEvent x)
    (toDecodeInsts x) (nextReq x) (fetchCfg x).
Definition set_numInst (v : Z) (x : Fetch) : Fetch :=
  mkFetch (fe_active x) (fetchStatus x) (priorityList x) (decoder x) (fe_pc x)
    (fetchOffset x) (macroop x) (delayedCommit x) (memReq x)
    (fe_wroteToTimeBuffer x) v (decodeStall x) (drainStalls x)
    (cacheBlocked x) (retryPkt x) (retryTid x) (fetchBuffer x)
    (fetchBufferPC x) (fetchBufferValid x) (fetchQueue x) (interruptPending x)
    (issuePipelinedIfetch x) (finishTranslationEvent x) (toDecodeInsts x)
    (nextReq x) (fetchCfg x).
Definition set_decodeStall (v : ThreadID → bool) (x : Fetch) : Fetch :=
  mkFetch (fe_active x) (fetchStatus x) (priorityList x) (decoder x) (fe_pc x)
    (fetchOffset x) (macroop x) (delayedCommit x) (memReq x)
    (fe_wroteToTimeBuffer x) (numInst x) v (drainStalls x) (cacheBlocked x)
    (retryPkt x) (retryTid x) (fetchBuffer x) (fetchBufferPC x)
    (fetchBufferValid x) (fetchQueue x) (interruptPending x)
    (issuePipelinedIfetch x) (finishTranslationEvent x) (toDecodeInsts x)
    (nextReq x) (fetchCfg x).
Definition set_drainStalls (v : ThreadID → bool) (x : Fetch) : Fetch :=
  mkFetch (fe_active x) (fetchStatus x) (priorityList x) (decoder x) (fe_pc x)
    (fetchOffset x) (macroop x) (delayedCommit x) (memReq x)
    (fe_wroteToTimeBuffer x) (numInst x) (decodeStall x) v (cacheBlocked x)
    (retryPkt x) (retryTid x) (fetchBuffer x) (fetchBufferPC x)
    (fetchBufferValid x) (fetchQueue x) (interruptPending x)
    (issuePipelinedIfetch x) (finishTranslationEvent x) (toDecodeInsts x)
    (nextReq x) (fetchCfg x).
Definition set_cacheBlocked (v : bool) (x : Fetch) : Fetch :=
  mkFetch (fe_active x) (fetchStatus x) (priorityList x) (decoder x) (fe_pc x)
    (fetchOffset x) (macroop x) (delayedCommit x) (memReq x)
    (fe_wroteToTimeBuffer x) (numInst x) (decodeStall x) (drainStalls x) v
    (retryPkt x) (retryTid x) (fetchBuffer x) (fetchBufferPC x)
    (fetchBufferValid x) (fetchQueue x) (interruptPending x)
    (issuePipelinedIfetch x) (finishTranslationEvent x) (toDecodeInsts x)
    (nextReq x) (fetchCfg x).
Definition set_retryPkt (v : option FetchReq) (x : Fetch) : Fetch :=
  mkFetch (fe_active x) (fetchStatus x) (priorityList x) (decoder x) (fe_pc x)
    (fetchOffset x) (macroop x) (delayedCommit x) (memReq x)
    (fe_wroteToTimeBuffer x) (numInst x) (decodeStall x) (drainStalls x)
    (cacheBlocked x) v (retryTid x) (fetchBuffer x) (fetchBufferPC x)
    (fetchBufferValid x) (fetchQueue x) (interruptPending x)
    (issuePipelinedIfetch x) (finishTranslationEvent x) (toDecodeInsts x)
    (nextReq x) (fetchCfg x).
Definition set_retryTid (v : option ThreadID) (x : Fetch) : Fetch :=
  mkFetch (fe_active x) (fetchStatus x) (priorityList x) (decoder x) (fe_pc x)
    (fetchOffset x) (macroop x) (delayedCommit x) (memReq x)
    (fe_wroteToTimeBuffer x) (numInst x) (decodeStall x) (drainStalls x)
    (cacheBlocked x) (retryPkt x) v (fetchBuffer x) (fetchBufferPC x)
    (fetchBufferValid x) (fetchQueue x) (interruptPending x)
    (issuePipelinedIfetch x) (finishTranslationEvent x) (toDecodeInsts x)
    (nextReq x) (fetchCfg x).
Definition set_fetchBuffer (v : ThreadID → list Z) (x : Fetch) : Fetch :=
  mkFetch (fe_active x) (fetchStatus x) (priorityList x) (decoder x) (fe_pc x)
    (fetchOffset x) (macroop x) (delayedCommit x) (memReq x)
    (fe_wroteToTimeBuffer x) (numInst x) (decodeStall x) (drainStalls x)
    (cacheBlocked x) (retryPkt x) (retryTid x) v (fetchBufferPC x)
    (fetchBufferValid x) (fetchQueue x) (interruptPending x)
    (issuePipelinedIfetch x) (finishTranslationEvent x) (toDecodeInsts x)
    (nextReq x) (fetchCfg x).
Definition set_fetchBufferPC (v : ThreadID → Addr) (x : Fetch) : Fetch :=
  mkFetch (fe_active x) (fetchStatus x) (priorityList x) (decoder x) (fe_pc x)
    (fetchOffset x) (macroop x) (delayedCommit x) (memReq x)
    (fe_wroteToTimeBuffer x) (numInst x) (decodeStall x) (drainStalls x)
    (cacheBlocked x) (retryPkt x) (retryTid x) (fetchBuffer x) v
    (fetchBufferValid x) (fetchQueue x) (interruptPending x)
    (issuePipelinedIfetch x) (finishTranslationEvent x) (toDecodeInsts x)
    (nextReq x) (fetchCfg x).
Definition set_fetchBufferValid (v : ThreadID → bool) (x : Fetch) : Fetch :=
  mkFetch (fe_active x) (fetchStatus x) (priorityList x) (decoder x) (fe_pc x)
    (fetchOffset x) (macroop x) (delayedCommit x) (memReq x)
    (fe_wroteToTimeBuffer x) (numInst x) (decodeStall x) (drainStalls x)
    (cacheBlocked x) (retryPkt x) (retryTid x) (fetchBuffer x)
    (fetchBufferPC x) v (fetchQueue x) (interruptPending x)
    (issuePipelinedIfetch x) (finishTranslationEvent x) (toDecodeInsts x)
    (nextReq x) (fetchCfg x).
Definition set_fetchQueue (v : ThreadID → list DynInstPtr) (x : Fetch) : Fetch :=
  mkFetch (fe_active x) (fetchStatus x) (priorityList x) (decoder x) (fe_pc x)
    (fetchOffset x) (macroop x) (delayedCommit x) (memReq x)
    (fe_wroteToTimeBuffer x) (numInst x) (decodeStall x) (drainStalls x)
    (cacheBlocked x) (retryPkt x) (retryTid x) (fetchBuffer x)
    (fetchBufferPC x) (fetchBufferValid x) v (interruptPending x)
    (issuePipelinedIfetch x) (finishTranslationEvent x) (toDecodeInsts x)
    (nextReq x) (fetchCfg x).
Definition set_interruptPending (v : bool) (x : Fetch) : Fetch :=
  mkFetch (fe_active x) (fetchStatus x) (priorityList x) (decoder x) (fe_pc x)
    (fetchOffset x) (macroop x) (delayedCommit x) (memReq x)
    (fe_wroteToTimeBuffer x) (numInst x) (decodeStall x) (drainStalls x)
    (cacheBlocked x) (retryPkt x) (retryTid x) (fetchBuffer x)
    (fetchBufferPC x) (fetchBufferValid x) (fetchQueue x) v
    (issuePipelinedIfetch x) (finishTranslationEvent x) (toDecodeInsts x)
    (nextReq x) (fetchCfg x).
Definition set_issuePipelinedIfetch (v : ThreadID → bool) (x : Fetch) : Fetch :=
  mkFetch (fe_active x) (fetchStatus x) (priorityList x) (decoder x) (fe_pc x)
    (fetchOffset x) (macroop x) (delayedCommit x) (memReq x)
    (fe_wroteToTimeBuffer x) (numInst x) (decodeStall x) (drainStalls x)
    (cacheBlocked x) (retryPkt x) (retryTid x) (fetchBuffer x)
    (fetchBufferPC x) (fetchBufferValid x) (fetchQueue x) (interruptPending x)
    v (finishTranslationEvent x) (toDecodeInsts x) (nextReq x) (fetchCfg x).
Definition set_finishTranslationEvent (v : option (Fault * FetchReq)) (x : Fetch) : Fetch :=
  mkFetch (fe_active x) (fetchStatus x) (priorityList x) (decoder x) (fe_pc x)
    (fetchOffset x) (macroop x) (delayedCommit x) (memReq x)
    (fe_wroteToTimeBuffer x) (numInst x) (decodeStall x) (drainStalls x)
    (cacheBlocked x) (retryPkt x) (retryTid x) (fetchBuffer x)
    (fetchBufferPC x) (fetchBufferValid x) (fetchQueue x) (interruptPending x)
    (issuePipelinedIfetch x) v (toDecodeInsts x) (nextReq x) (fetchCfg x).
Definition set_toDecodeInsts (v : list DynInstPtr) (x : Fetch) : Fetch :=
  mkFetch (fe_active x) (fetchStatus x) (priorityList x) (decoder x) (fe_pc x)
    (fetchOffset x) (macroop x) (delayedCommit x) (memReq x)
    (fe_wroteToTimeBuffer x) (numInst x) (decodeStall x) (drainStalls x)
    (cacheBlocked x) (retryPkt x) (retryTid x) (fetchBuffer x)
    (fetchBufferPC x) (fetchBufferValid x) (fetchQueue x) (interruptPending x)
    (issuePipelinedIfetch x) (finishTranslationEvent x) v (nextReq x)
    (fetchCfg x).
Definition set_nextReq (v : Z) (x : Fetch) : Fetch :=
  mkFetch (fe_active x) (fetchStatus x) (priorityList x) (decoder x) (fe_pc x)
    (fetchOffset x) (macroop x) (delayedCommit x) (memReq x)
    (fe_wroteToTimeBuffer x) (numInst x) (decodeStall x) (drainStalls x)
    (cacheBlocked x) (retryPkt x) (retryTid x) (fetchBuffer x)
    (fetchBufferPC x) (fetchBufferValid x) (fetchQueue x) (interruptPending x)
    (issuePipelinedIfetch x) (finishTranslationEvent x) (toDecodeInsts x) v
    (fetchCfg x).


Record Fet := mkFet {
  fw : Fetch;
  fw_insts : store;
  fw_front : gmap DynInstPtr (FrontInst PC Macro);
  fw_cpu : CpuList;
  fw_rob : ROB;
  fw_activity : ActivityRecorder;
  fw_bp : BPredUnit PC P Hist;
  fw_seqNum : InstSeqNum; (** [globalSeqNum] *)
  fw_env : E;
}.
Definition fw_set (x : Fetch) (w : Fet) : Fet :=
  mkFet x (fw_insts w) (fw_front w) (fw_cpu w) (fw_rob w) (fw_activity w) (fw_bp w) (fw_seqNum w) (fw_env w).
Definition fw_on (f : Fetch → Fetch) (w : Fet) : Fet := fw_set (f (fw w)) w.
Definition fw_set_insts (s : store) (w : Fet) : Fet :=
  mkFet (fw w) s (fw_front w) (fw_cpu w) (fw_rob w) (fw_activity w) (fw_bp w) (fw_seqNum w) (fw_env w).
Definition fw_set_front (m : gmap DynInstPtr (FrontInst PC Macro)) (w : Fet) : Fet :=
  mkFet (fw w) (fw_insts w) m (fw_cpu w) (fw_rob w) (fw_activity w) (fw_bp w) (fw_seqNum w) (fw_env w).
Definition fw_set_cpu (cs : CpuList * store) (w : Fet) : Fet :=
  mkFet (fw w) (snd cs) (fw_front w) (fst cs) (fw_rob w) (fw_activity w) (fw_bp w) (fw_seqNum w) (fw_env w).
Definition fw_set_activity (a : ActivityRecorder) (w : Fet) : Fet :=
  mkFet (fw w) (fw_insts w) (fw_front w) (fw_cpu w) (fw_rob w) a (fw_bp w) (fw_seqNum w) (fw_env w).
Definition fw_set_bp (b : BPredUnit PC P Hist) (w : Fet) : Fet :=
  mkFet (fw w) (fw_insts w) (fw_front w) (fw_cpu w) (fw_rob w) (fw_activity w) b (fw_seqNum w) (fw_env w).
Definition fw_set_env (e : E) (w : Fet) : Fet :=
  mkFet (fw w) (fw_insts w) (fw_front w) (fw_cpu w) (fw_rob w) (fw_activity w) (fw_bp w) (fw_seqNum w) e.

(** [commitComm], what fetch reads of it. *)
Record FetchCommit := mkFetchCommit {
  fc_squash : bool;
  fc_mispredictInst : option DynInstPtr;
  fc_squashInst : option DynInstPtr;
  fc_pc : PC;
  fc_doneSeqNum : InstSeqNum;
  fc_branchTaken : bool;
  fc_interruptPending : bool;
  fc_clearInterrupt : bool;
}.

(** What the other stages told fetch, as it arrives this cycle. *)
Record FetchInputs := mkFetchInputs {
  fi_decodeBlock : ThreadID → bool;
  fi_decodeUnblock : ThreadID → bool;
  fi_decodeInfo : ThreadID → DecodeInfo (PC := PC);
  fi_commit : ThreadID → FetchCommit;
  fi_iqCount : ThreadID → Z;
  fi_ldstqCount : ThreadID → Z;
}.

Definition fe_statusIs (x : Fetch) (tid : ThreadID) (st : FetchStatus) : bool := bool_decide (fetchStatus x tid = st).
Definition fe_setStatus (tid : ThreadID) (st : FetchStatus) (x : Fetch) : Fetch :=
  set_fetchStatus (<[tid := st]> (fetchStatus x)) x.
Definition clearMemReq (tid : ThreadID) (x : Fetch) : Fetch := set_memReq (<[tid := None]> (memReq x)) x.

(** ** Start, drain, wake up *)

(** The policy of the constructor; [policy] is the lower-cased parameter. *)
Definition fetchPolicyOf (threads : nat) (policy : string) : outcome FetchPriority :=
  if String.eqb policy "singlethread" then
    if (1 <? threads)%nat then Err (PanicCall "Invalid Fetch Policy for a SMT workload.") else Ok FpSingleThread
  else if String.eqb policy "roundrobin" then Ok FpRoundRobin
  else if String.eqb policy "branch" then Ok FpBranch
  else if String.eqb policy "iqcount" then Ok FpIQ
  else if String.eqb policy "lsqcount" then Ok FpLSQ
  else Err (PanicCall "Invalid Fetch Policy").

(** The constructor; [d0] makes a thread's decoder.  What the constructor leaves
    open is given by [pc0] and the values [resetStage] writes. *)
Definition newFetch (maxThreads : nat) (maxWidth cacheBlkSize : Z) (policy : string) (d0 : ThreadID → D)
  (pc0 : ThreadID → PC) (c : FetchConfig) : outcome Fetch :=
  if (maxThreads <? fe_numThreads c)%nat then Err (PanicCall "numThreads is larger than compiled limit")
  else if maxWidth <? fetchWidth c then Err (PanicCall "fetchWidth is larger than compiled limit")
  else if cacheBlkSize <? fetchBufferSize c then
    Err (PanicCall "fetch buffer size is greater than the cache block size")
  else if negb (cacheBlkSize mod fetchBufferSize c =? 0) then
    Err (PanicCall "cache block is not a multiple of the fetch buffer")
  else
    let! p := fetchPolicyOf (fe_numThreads c) policy in
    let c := mkFetchConfig (fetchWidth c) (toDecodeWidth c) (fetchBufferSize c) (fetchQueueSize c) (instSize c) p
               (fe_numThreads c) (numFetchingThreads c) (fe_activeThreads c) in
    Ok (mkFetch false (λ _, FIdle) [] d0 pc0 (λ _, 0) (λ _, None) (λ _, false) (λ _, None) false 0 (λ _, false)
          (λ _, false) false None None (λ _, replicate (Z.to_nat (fetchBufferSize c)) 0) (λ _, 0) (λ _, false)
          (λ _, []) false (λ _, false) None [] 0 c).

(** One thread in [resetStage]; [pc0] is [cpu->pcState(tid)]. *)
Definition resetThread (pc0 : ThreadID → PC) (x : Fetch) (tid : ThreadID) : Fetch :=
  set_priorityList (priorityList x ++ [tid])
    (set_fetchQueue (<[tid := []]> (fetchQueue x))
    (set_fetchBufferValid (<[tid := false]> (fetchBufferValid x))
    (set_fetchBufferPC (<[tid := 0]> (fetchBufferPC x))
    (set_drainStalls (<[tid := false]> (drainStalls x))
    (set_decodeStall (<[tid := false]> (decodeStall x))
    (set_memReq (<[tid := None]> (memReq x))
    (set_delayedCommit (<[tid := false]> (delayedCommit x))
    (set_macroop (<[tid := None]> (macroop x))
    (set_fetchOffset (<[tid := 0]> (fetchOffset x))
    (set_fe_pc (<[tid := pc0 tid]> (fe_pc x))
    (fe_setStatus tid FRunning x))))))))))).
Definition fe_resetStage (pc0 : ThreadID → PC) (x : Fetch) : Fetch :=
  let x := set_priorityList [] (set_cacheBlocked false (set_interruptPending false (set_numInst 0 x))) in
  let x := foldl (resetThread pc0) x (seq 0 (fe_numThreads (fetchCfg x))) in
  set_fe_active false (set_fe_wroteToTimeBuffer false x).

Definition switchToActive (w : Fet) : outcome Fet :=
  if fe_active (fw w) then Ok w
  else let! a := ar_activateStage FetchIdx (fw_activity w) in
       Ok (fw_set_activity a (fw_on (set_fe_active true) w)).
Definition switchToInactive (w : Fet) : outcome Fet :=
  if fe_active (fw w) then
    let! a := ar_deactivateStage FetchIdx (fw_activity w) in
    Ok (fw_set_activity a (fw_on (set_fe_active false) w))
  else Ok w.

Definition fe_startupStage (pc0 : ThreadID → PC) (w : Fet) : outcome Fet :=
  assert! bool_decide (priorityList (fw w) = []) as "startupStage: priorityList.empty()" in
  switchToActive (fw_on (fe_resetStage pc0) w).

Definition fe_drainResume (x : Fetch) : Fetch :=
  foldl (λ x tid, set_drainStalls (<[tid := false]> (drainStalls x))
                    (set_decodeStall (<[tid := false]> (decodeStall x)) x))
    x (seq 0 (fe_numThreads (fetchCfg x))).

Definition fe_isDrained (x : Fetch) : bool :=
  forallb (λ tid, bool_decide (fetchQueue x tid = []) &&
                  (fe_statusIs x tid FIdle || (fe_statusIs x tid FBlocked && drainStalls x tid)))
    (seq 0 (fe_numThreads (fetchCfg x)))
  && bool_decide (finishTranslationEvent x = None).

Definition fe_drainSanityCheck (w : Fet) : outcome () :=
  let x := fw w in
  assert! fe_isDrained x as "drainSanityCheck: isDrained()" in
  assert! negb (bool_decide (is_Some (retryPkt x))) as "drainSanityCheck: retryPkt == NULL" in
  assert! negb (bool_decide (is_Some (retryTid x))) as "drainSanityCheck: retryTid == InvalidThreadID" in
  assert! negb (cacheBlocked x) as "drainSanityCheck: !cacheBlocked" in
  assert! negb (interruptPending x) as "drainSanityCheck: !interruptPending" in
  let! _ := foldM (λ _ tid,
    assert! negb (bool_decide (is_Some (memReq x tid))) as "drainSanityCheck: !memReq[i]" in
    assert! fe_statusIs x tid FIdle || drainStalls x tid
      as "drainSanityCheck: fetchStatus[i] == Idle || stalls[i].drain" in Ok ())
    (seq 0 (fe_numThreads (fetchCfg x))) () in
  bp_drainSanityCheck (fe_numThreads (fetchCfg x)) (fw_bp w).

Definition fe_drainStall (tid : ThreadID) (w : Fet) : outcome Fet :=
  assert! fe_isDraining (fw_env w) as "drainStall: cpu->isDraining()" in
  assert! negb (drainStalls (fw w) tid) as "drainStall: !stalls[tid].drain" in
  Ok (fw_on (λ x, set_drainStalls (<[tid := true]> (drainStalls x)) x) w).

Definition wakeFromQuiesce (x : Fetch) : Fetch := fe_setStatus 0 FRunning x.

Definition fe_deactivateThread (tid : ThreadID) (x : Fetch) : Fetch :=
  match list_find (λ t, t = tid) (priorityList x) with
  | Some (k, _) => set_priorityList (delete k (priorityList x)) x
  | None => x
  end.

Definition fe_checkStall (tid : ThreadID) (w : Fet) : outcome bool :=
  if drainStalls (fw w) tid then
    assert! fe_isDraining (fw_env w) as "checkStall: cpu->isDraining()" in Ok true
  else Ok false.

Definition updateFetchStatus (w : Fet) : outcome Fet :=
  let x := fw w in
  if existsb (λ tid, fe_statusIs x tid FRunning || fe_statusIs x tid FSquashing || fe_statusIs x tid FIcacheAccessComplete)
       (fe_activeThreads (fetchCfg x))
  then switchToActive w else switchToInactive w.

(** ** The instructions' bytes *)

Definition fetchBufferAlignPC (c : FetchConfig) (addr : Addr) : Addr :=
  Z.land addr (Z.lnot (fetchBufferSize c - 1)).
(** [& BaseCPU::PCMask] *)
Definition maskPC (c : FetchConfig) (addr : Addr) : Addr := Z.land (u64 addr) (Z.lnot (instSize c - 1)).
Definition checkInterrupt (x : Fetch) : bool := interruptPending x.
Definition isRomMicroPC (upc : Z) : bool := Z.testbit upc 15.

(** [buildInst]: the new instruction. *)
Definition buildInst (tid : ThreadID) (si : StaticInst) (curMacroop : option Macro) (thisPC nextPC : PC) (w : Fet)
  : outcome (DynInstPtr * Fet) :=
  let p : DynInstPtr := fw_seqNum w in
  let i := initInst si (pc_instAddr thisPC) p tid in
  let x := fw w in
  assert! numInst x <? fetchWidth (fetchCfg x) as "buildInst: numInst < fetchWidth" in
  let x := set_fetchQueue (<[tid := fetchQueue x tid ++ [p]]> (fetchQueue x)) x in
  assert! (length (fetchQueue x tid) <=? fetchQueueSize (fetchCfg x))%nat
    as "buildInst: fetchQueue[tid].size() <= fetchQueueSize" in
  let x := set_delayedCommit (<[tid := si_flag IsDelayedCommit si]> (delayedCommit x)) x in
  Ok (p, mkFet x (<[p := i]> (fw_insts w)) (<[p := mkFrontInst thisPC nextPC curMacroop]> (fw_front w))
           (addInst p (fw_cpu w)) (fw_rob w) (fw_activity w) (fw_bp w) (p + 1) (fw_env w)).

Definition fe_setPredTarg (p : DynInstPtr) (target : PC) (w : Fet) : outcome Fet :=
  let! f := derefFront p (fw_front w) in
  Ok (fw_set_front (<[p := mkFrontInst (fi_pc f) target (fi_macroop f)]> (fw_front w)) w).

(** [StaticInst::nopStaticInstPtr]: no flags, no registers. *)
Definition nopStaticInst : StaticInst := mkStaticInst 0%N 0 0 0 "gem5 nop".

(** The request [r] reads the block of the fetch buffer. *)
Definition readIcache (tid : ThreadID) (r : FetchReq) (w : Fet) : outcome Fet :=
  let x := set_fetchBufferValid (<[tid := false]> (fetchBufferValid (fw w)))
             (set_fetchBufferPC (<[tid := fr_vaddr r]> (fetchBufferPC (fw w))) (fw w)) in
  let '(sent, e) := fe_sendTimingReq r (fw_env w) in
  let w := fw_set_env e (fw_set x w) in
  if sent : bool then Ok (fw_on (fe_setStatus tid FIcacheWaitResponse) w)
  else
    assert! negb (bool_decide (is_Some (retryPkt x))) as "finishTranslation: retryPkt == NULL" in
    assert! negb (bool_decide (is_Some (retryTid x))) as "finishTranslation: retryTid == InvalidThreadID" in
    Ok (fw_on (λ x, set_cacheBlocked true (set_retryTid (Some tid) (set_retryPkt (Some r)
                      (fe_setStatus tid FIcacheWaitRetry x)))) w).

(** A no-op that carries the fault of a translation to commit. *)
Definition fetchFault (tid : ThreadID) (flt : Fault) (w : Fet) : outcome Fet :=
  let w := fw_on (clearMemReq tid) w in
  let fetchPC := fe_pc (fw w) tid in
  let! (p, w) := buildInst tid nopStaticInst None fetchPC fetchPC w in
  let! s := modify (λ i, set_fault (Some flt) (flag_assign NotAnInst true i)) p (fw_insts w) in
  let! w := fe_setPredTarg p fetchPC (fw_set_insts s w) in
  let! a := ar_activity (fw_activity w) in
  Ok (fw_set_activity a (fw_on (λ x, fe_setStatus tid FTrapPending (set_fe_wroteToTimeBuffer true x)) w)).

Definition fe_finishTranslation (flt : option Fault) (r : FetchReq) (w : Fet) : outcome Fet :=
  let tid := fr_tid r in
  assert! negb (fe_switchedOut (fw_env w)) as "finishTranslation: !cpu->switchedOut()" in
  let w := fw_set_env (fe_wakeCPU (fw_env w)) w in
  let x := fw w in
  let current := match memReq x tid with
                 | Some m => (fr_id r =? fr_id m) && (fr_vaddr r =? fr_vaddr m)
                 | None => false
                 end in
  if negb (fe_statusIs x tid FItlbWait) || negb current then Ok w
  else
    match flt with
    | None =>
        if negb (fe_isMemAddr (fr_paddr r) (fw_env w)) then
          Ok (fw_on (λ x, clearMemReq tid (fe_setStatus tid FNoGoodAddr x)) w)
        else let! w := readIcache tid r w in updateFetchStatus w
    | Some f =>
        if negb (numInst x <? fetchWidth (fetchCfg x)) ||
           negb (length (fetchQueue x tid) <? fetchQueueSize (fetchCfg x))%nat then
          assert! negb (bool_decide (is_Some (finishTranslationEvent x)))
            as "finishTranslation: !finishTranslationEvent.scheduled()" in
          Ok (fw_on (set_finishTranslationEvent (Some (f, r))) w)
        else let! w := fetchFault tid f w in updateFetchStatus w
    end.

(** [FinishTranslationEvent::process], a cycle later. *)
Definition processFinishTranslation (w : Fet) : outcome Fet :=
  match finishTranslationEvent (fw w) with
  | None => Ok w
  | Some (f, r) =>
      assert! numInst (fw w) <? fetchWidth (fetchCfg (fw w)) as "process: fetch->numInst < fetch->fetchWidth" in
      fe_finishTranslation (Some f) r (fw_on (set_finishTranslationEvent None) w)
  end.

Definition fetchCacheLine (vaddr : Addr) (tid : ThreadID) (pc : Addr) (w : Fet) : outcome Fet :=
  assert! negb (fe_switchedOut (fw_env w)) as "fetchCacheLine: !cpu->switchedOut()" in
  let x := fw w in
  if cacheBlocked x then Ok w
  else if checkInterrupt x && negb (delayedCommit x tid) then Ok w
  else
    let r := mkFetchReq (nextReq x) tid (fetchBufferAlignPC (fetchCfg x) vaddr) 0 pc in
    let x := set_memReq (<[tid := Some r]> (memReq x)) (set_nextReq (nextReq x + 1) x) in
    let x := fe_setStatus tid FItlbWait x in
    let '(answer, e) := fe_translate r (fw_env w) in
    let w := fw_set_env e (fw_set x w) in
    match answer with
    | None => Ok w
    | Some (flt, paddr) => fe_finishTranslation flt (set_paddr paddr r) w
    end.

(** The response of the instruction cache with the block's bytes. *)
Definition processCacheCompletion (r : FetchReq) (bytes : list Z) (w : Fet) : outcome Fet :=
  let tid := fr_tid r in
  assert! negb (fe_switchedOut (fw_env w)) as "processCacheCompletion: !cpu->switchedOut()" in
  let current := match memReq (fw w) tid with Some m => fr_id r =? fr_id m | None => false end in
  if negb (fe_statusIs (fw w) tid FIcacheWaitResponse) || negb current then Ok w
  else
    let w := fw_on (λ x, set_fetchBufferValid (<[tid := true]> (fetchBufferValid x))
                           (set_fetchBuffer (<[tid := bytes]> (fetchBuffer x)) x)) w in
    let! w := switchToActive (fw_set_env (fe_wakeCPU (fw_env w)) w) in
    let! stall := fe_checkStall tid w in
    Ok (fw_on (λ x, clearMemReq tid (fe_setStatus tid (if stall : bool then FBlocked else FIcacheAccessComplete) x)) w).

Definition fe_recvReqRetry (w : Fet) : outcome Fet :=
  let x := fw w in
  match retryPkt x with
  | Some r =>
      assert! cacheBlocked x as "recvReqRetry: cacheBlocked" in
      match retryTid x with
      | None => Err (Assertion "recvReqRetry: retryTid != InvalidThreadID")
      | Some tid =>
          assert! fe_statusIs x tid FIcacheWaitRetry as "recvReqRetry: fetchStatus[retryTid] == IcacheWaitRetry" in
          let '(sent, e) := fe_sendTimingReq r (fw_env w) in
          let w := fw_set_env e w in
          Ok (if sent : bool then
                fw_on (λ x, set_cacheBlocked false (set_retryTid None (set_retryPkt None
                              (fe_setStatus tid FIcacheWaitResponse x)))) w
              else w)
      end
  | None =>
      assert! negb (bool_decide (is_Some (retryTid x))) as "recvReqRetry: retryTid == InvalidThreadID" in
      Ok (fw_on (set_cacheBlocked false) w)
  end.

(** ** Redirects *)

Definition isWaiting (x : Fetch) (tid : ThreadID) : bool :=
  fe_statusIs x tid FIcacheWaitResponse || fe_statusIs x tid FItlbWait.

Definition fe_doSquash (newPC : PC) (squashInst : option DynInstPtr) (tid : ThreadID) (w : Fet) : outcome Fet :=
  let! m := match squashInst with
            | None => Ok None
            | Some p => let! f := derefFront p (fw_front w) in
                        Ok (if pc_instAddr (fi_pc f) =? pc_instAddr newPC then fi_macroop f else None)
            end in
  let x := fw w in
  let x := set_decoder (<[tid := dc_reset (decoder x tid)]> (decoder x))
             (set_macroop (<[tid := m]> (macroop x))
             (set_fetchOffset (<[tid := 0]> (fetchOffset x)) (set_fe_pc (<[tid := newPC]> (fe_pc x)) x))) in
  let x := if isWaiting x tid then clearMemReq tid x else x in
  let! x := if bool_decide (retryTid x = Some tid) then
              assert! cacheBlocked x as "doSquash: cacheBlocked" in
              Ok (set_retryTid None (set_retryPkt None x))
            else Ok x in
  Ok (fw_set (set_delayedCommit (<[tid := true]> (delayedCommit x))
               (set_fetchQueue (<[tid := []]> (fetchQueue x)) (fe_setStatus tid FSquashing x))) w).

Definition squashFromDecode (newPC : PC) (squashInst : option DynInstPtr) (seq_num : InstSeqNum) (tid : ThreadID)
  (w : Fet) : outcome Fet :=
  let! w := fe_doSquash newPC squashInst tid w in
  let! cs := removeInstsUntil seq_num tid (fw_cpu w, fw_insts w) in Ok (fw_set_cpu cs w).

Definition fe_squash (newPC : PC) (squashInst : option DynInstPtr) (tid : ThreadID) (w : Fet) : outcome Fet :=
  let! w := fe_doSquash newPC squashInst tid w in
  let! cs := removeInstsNotInROB tid (fw_rob w) (fw_cpu w, fw_insts w) in Ok (fw_set_cpu cs w).

(** What decode says about its queue. *)
Definition fe_readStall (inp : FetchInputs) (tid : ThreadID) (x : Fetch) : outcome Fetch :=
  let x := if fi_decodeBlock inp tid then set_decodeStall (<[tid := true]> (decodeStall x)) x else x in
  if fi_decodeUnblock inp tid then
    assert! decodeStall x tid as "checkSignalsAndUpdate: stalls[tid].decode" in
    assert! negb (fi_decodeBlock inp tid) as "checkSignalsAndUpdate: !fromDecode->decodeBlock[tid]" in
    Ok (set_decodeStall (<[tid := false]> (decodeStall x)) x)
  else Ok x.

(** DOLMA: only branches that depend on no run-time operand redirect fetch while
    they are restricted. *)
Definition fe_checkRedirect (c : FetchCommit) (w : Fet) : outcome () :=
  match fc_mispredictInst c with
  | None => Ok ()
  | Some p =>
      let! squasher := deref p (fw_insts w) in
      if isDolmaRestricted squasher then
        assert! negb (isControlInducer squasher) as "checkSignalsAndUpdate: !squasher->isControlInducer()" in Ok ()
      else Ok ()
  end.

Definition handleCommitSquash (c : FetchCommit) (tid : ThreadID) (w : Fet) : outcome Fet :=
  let! _ := fe_checkRedirect c w in
  let! w := fe_squash (fc_pc c) (fc_squashInst c) tid w in
  let! mispredict := match fc_mispredictInst c with
                     | None => Ok false
                     | Some p => let! i := deref p (fw_insts w) in Ok (isControl i)
                     end in
  let! u := if mispredict : bool then bp_squashMispredict (fc_doneSeqNum c) (fc_pc c) (fc_branchTaken c) tid (fw_bp w)
            else bp_squash (fc_doneSeqNum c) tid (fw_bp w) in
  Ok (fw_set_bp u w).

Definition predictorOfDecode (d : DecodeInfo (PC := PC)) (tid : ThreadID) (w : Fet) : outcome Fet :=
  let! u := if di_branchMispredict d
            then bp_squashMispredict (di_doneSeqNum d) (di_nextPC d) (di_branchTaken d) tid (fw_bp w)
            else bp_squash (di_doneSeqNum d) tid (fw_bp w) in
  Ok (fw_set_bp u w).

(** The stalls, when no redirect has been taken. *)
Definition checkBlocked (tid : ThreadID) (w : Fet) : outcome (bool * Fet) :=
  let! stall := fe_checkStall tid w in
  let x := fw w in
  if stall && negb (fe_statusIs x tid FIcacheWaitResponse) && negb (fe_statusIs x tid FIcacheWaitRetry)
     && negb (fe_statusIs x tid FItlbWait) && negb (fe_statusIs x tid FQuiescePending)
  then Ok (true, fw_on (fe_setStatus tid FBlocked) w)
  else if fe_statusIs x tid FBlocked || fe_statusIs x tid FSquashing
  then Ok (true, fw_on (fe_setStatus tid FRunning) w)
  else Ok (false, w).

Definition fe_checkSignalsAndUpdate (inp : FetchInputs) (tid : ThreadID) (w : Fet) : outcome (bool * Fet) :=
  let! x := fe_readStall inp tid (fw w) in
  let w := fw_set x w in
  let c := fi_commit inp tid in
  if fc_squash c then let! w := handleCommitSquash c tid w in Ok (true, w)
  else
    let! w := if fc_doneSeqNum c =? 0 then Ok w
              else let! u := bp_update (fc_doneSeqNum c) tid (fw_bp w) in Ok (fw_set_bp u w) in
    let d := fi_decodeInfo inp tid in
    if di_squash d then
      let! w := predictorOfDecode d tid w in
      if negb (fe_statusIs (fw w) tid FSquashing) then
        let! w := squashFromDecode (di_nextPC d) (di_squashInst d) (di_doneSeqNum d) tid w in Ok (true, w)
      else checkBlocked tid w
    else checkBlocked tid w.

(** ** Which thread fetches *)

Definition canFetch (x : Fetch) (tid : ThreadID) : bool :=
  fe_statusIs x tid FRunning || fe_statusIs x tid FIcacheAccessComplete || fe_statusIs x tid FIdle.

(** The loop of [roundRobin] over what is left of the list. *)
Fixpoint firstReady (x : Fetch) (l : list ThreadID) : outcome (option (ThreadID * list ThreadID)) :=
  match l with
  | [] => Ok None
  | tid :: l' =>
      assert! (tid <=? fe_numThreads (fetchCfg x))%nat as "roundRobin: high_pri <= numThreads" in
      if canFetch x tid then Ok (Some (tid, l'))
      else let! r := firstReady x l' in
           Ok (match r with Some (t, rest) => Some (t, tid :: rest) | None => None end)
  end.
Definition fe_roundRobin (x : Fetch) : outcome (option ThreadID * Fetch) :=
  let! r := firstReady x (priorityList x) in
  Ok (match r with
      | Some (tid, rest) => (Some tid, set_priorityList (rest ++ [tid]) x)
      | None => (None, x)
      end).

(** [iqCount] and [lsqCount]: [threadMap] holds the last thread of each count; the
    counts are tried from the lowest. *)
Definition threadMap (count : ThreadID → Z) (l : list ThreadID) : gmap Z ThreadID :=
  foldl (λ m tid, <[count tid := tid]> m) ∅ l.
Definition byCount (count : ThreadID → Z) (x : Fetch) : option ThreadID :=
  let l := fe_activeThreads (fetchCfg x) in
  head (filter (λ tid, canFetch x tid = true)
          (omap (λ c, threadMap count l !! c) (merge_sort Z.le (count <$> l)))).

Definition getFetchingThread (inp : FetchInputs) (x : Fetch) : outcome (option ThreadID * Fetch) :=
  if (1 <? fe_numThreads (fetchCfg x))%nat then
    match fetchPolicy (fetchCfg x) with
    | FpSingleThread => Ok (Some 0%nat, x)
    | FpRoundRobin => fe_roundRobin x
    | FpIQ => Ok (byCount (fi_iqCount inp) x, x)
    | FpLSQ => Ok (byCount (fi_ldstqCount inp) x, x)
    | FpBranch => Err (PanicCall "Branch Count Fetch policy unimplemented")
    end
  else match fe_activeThreads (fetchCfg x) with
       | [] => Ok (None, x)
       | tid :: _ => Ok (if canFetch x tid then Some tid else None, x)
       end.

(** ** Fetching from a thread *)

(** The local variables of [fetch]. *)
Record FetchLoop := mkFetchLoop {
  fl_thisPC : PC;
  fl_nextPC : PC;
  fl_pcOffset : Z;
  fl_blkOffset : Z; (** [unsigned] *)
  fl_curMacroop : option Macro;
  fl_inRom : bool;
  fl_predictedBranch : bool;
  fl_quiesce : bool;
}.

Definition numInstsOf (c : FetchConfig) : Z := fetchBufferSize c / instSize c.
Definition blkOffsetOf (tid : ThreadID) (fetchAddr : Addr) (x : Fetch) : Z :=
  u32 (u64 (fetchAddr - fetchBufferPC x tid) / instSize (fetchCfg x)).
(** [cacheInsts[k]]: a machine instruction, the low byte first. *)
Definition machInstAt (k : Z) (c : FetchConfig) (bytes : list Z) : Z :=
  foldr (λ b r, b + 256 * r) 0 (take (Z.to_nat (instSize c)) (drop (Z.to_nat (k * instSize c)) bytes)).

Definition lookupAndUpdateNextPC (p : DynInstPtr) (nextPC : PC) (w : Fet) : outcome (bool * PC * Fet) :=
  let! i := deref p (fw_insts w) in
  if negb (isControl i) then
    let nextPC := pc_advance (staticInst i) nextPC in
    let! w := fe_setPredTarg p nextPC w in
    let! s := modify (flag_assign PredTaken false) p (fw_insts w) in
    Ok (false, nextPC, fw_set_insts s w)
  else
    let! (taken, nextPC, u) := predict (staticInst i) (seqNum i) nextPC (threadNumber i) (fw_bp w) in
    let! w := fe_setPredTarg p nextPC (fw_set_bp u w) in
    let! s := modify (flag_assign PredTaken taken) p (fw_insts w) in
    Ok (taken, nextPC, fw_set_insts s w).

(** The decoder's next instruction or macro-op, when it has one. *)
Definition decodeNext (tid : ThreadID) (l : FetchLoop) (w : Fet) : option (option StaticInst * FetchLoop * Fet) :=
  if bool_decide (is_Some (fl_curMacroop l)) || fl_inRom l then Some (None, l, w)
  else if dc_instReady (decoder (fw w) tid) then
    let '(r, pc, d) := dc_decode (fl_thisPC l) (decoder (fw w) tid) in
    let w := fw_on (λ x, set_decoder (<[tid := d]> (decoder x)) x) w in
    let '(si, m, off) := match r with
                         | inl si => (Some si, None, 0)
                         | inr m => (None, Some m, fl_pcOffset l)
                         end in
    Some (si, mkFetchLoop pc (fl_nextPC l) off (fl_blkOffset l) m (fl_inRom l) (fl_predictedBranch l) (fl_quiesce l), w)
  else None.

(** The (micro-)instruction to build. *)
Definition chooseInst (si : option StaticInst) (l : FetchLoop) : outcome StaticInst :=
  if fl_inRom l then Ok (rom_fetchMicroop (pc_microPC (fl_thisPC l)) (fl_curMacroop l))
  else match fl_curMacroop l, si with
       | Some m, _ => Ok (mo_fetchMicroop m (pc_microPC (fl_thisPC l)))
       | None, Some si => Ok si
       | None, None => Err (NullDeref "fetch: staticInst")
       end.

(** The instruction [si] joins the queue and the PC moves on. *)
Definition fetchOne (tid : ThreadID) (si : StaticInst) (l : FetchLoop) (w : Fet) : outcome (FetchLoop * Fet) :=
  let micro := bool_decide (is_Some (fl_curMacroop l)) || fl_inRom l in
  let thisPC := fl_thisPC l in
  let! (p, w) := buildInst tid si (fl_curMacroop l) thisPC (fl_nextPC l) w in
  let w := fw_on (λ x, set_numInst (numInst x + 1) x) w in
  let! (taken, nextPC, w) := lookupAndUpdateNextPC p thisPC w in
  let predicted := fl_predictedBranch l || pc_branching thisPC || taken in
  let newMacro := (micro && si_flag IsLastMicroop si) || negb (pc_instAddr thisPC =? pc_instAddr nextPC) in
  let inRom := isRomMicroPC (pc_microPC nextPC) in
  let quiesce := si_flag IsQuiesce si in
  let w := if quiesce then fw_on (fe_setStatus tid FQuiescePending) w else w in
  Ok (if newMacro
      then mkFetchLoop nextPC nextPC 0 (blkOffsetOf tid (maskPC (fetchCfg (fw w)) (pc_instAddr nextPC)) (fw w))
             None inRom predicted quiesce
      else mkFetchLoop nextPC nextPC (fl_pcOffset l) (fl_blkOffset l) (fl_curMacroop l) inRom predicted quiesce, w).

Definition hasRoom (tid : ThreadID) (x : Fetch) : bool :=
  (numInst x <? fetchWidth (fetchCfg x)) && (length (fetchQueue x tid) <? fetchQueueSize (fetchCfg x))%nat.

(** The inner loop, over the instructions the bytes so far give; its body runs at
    least once. *)
Fixpoint fetchInner (fuel : nat) (tid : ThreadID) (l : FetchLoop) (w : Fet) : outcome (FetchLoop * Fet) :=
  match fuel with
  | O => Err (NoFuel "fetch: inner loop")
  | S fuel =>
      match decodeNext tid l w with
      | None => Ok (l, w)
      | Some (si, l, w) =>
          let! si := chooseInst si l in
          let! (l, w) := fetchOne tid si l w in
          if fl_quiesce l then Ok (l, w)
          else if (bool_decide (is_Some (fl_curMacroop l)) || dc_instReady (decoder (fw w) tid)) && hasRoom tid (fw w)
          then fetchInner fuel tid l w
          else Ok (l, w)
      end
  end.

(** More bytes for the decoder when it is the only source of instructions; [None]
    leaves the loop. *)
Definition feedDecoder (tid : ThreadID) (l : FetchLoop) (w : Fet) : option (FetchLoop * Fet) :=
  let x := fw w in
  let cfg := fetchCfg x in
  if negb (fl_inRom l) && negb (bool_decide (is_Some (fl_curMacroop l))) && negb (dc_instReady (decoder x tid)) then
    let fetchAddr := maskPC cfg (pc_instAddr (fl_thisPC l) + fl_pcOffset l) in
    if negb (fetchBufferValid x tid) || negb (fetchBufferAlignPC cfg fetchAddr =? fetchBufferPC x tid) then None
    else if numInstsOf cfg <=? fl_blkOffset l then None
    else
      let inst := machInstAt (fl_blkOffset l) cfg (fetchBuffer x tid) in
      let d := dc_moreBytes (fl_thisPC l) fetchAddr inst (decoder x tid) in
      let w := fw_on (set_decoder (<[tid := d]> (decoder x))) w in
      Some (if dc_needMoreBytes d
            then mkFetchLoop (fl_thisPC l) (fl_nextPC l) (fl_pcOffset l + instSize cfg) (fl_blkOffset l + 1)
                   (fl_curMacroop l) (fl_inRom l) (fl_predictedBranch l) (fl_quiesce l)
            else l, w)
  else Some (l, w).

Definition reevaluateRom (l : FetchLoop) : FetchLoop :=
  mkFetchLoop (fl_thisPC l) (fl_nextPC l) (fl_pcOffset l) (fl_blkOffset l) (fl_curMacroop l)
    (isRomMicroPC (pc_microPC (fl_thisPC l))) (fl_predictedBranch l) (fl_quiesce l).

(** The outer loop. *)
Fixpoint fetchOuter (fuel : nat) (tid : ThreadID) (l : FetchLoop) (w : Fet) : outcome (FetchLoop * Fet) :=
  if hasRoom tid (fw w) && negb (fl_predictedBranch l) && negb (fl_quiesce l) then
    match fuel with
    | O => Err (NoFuel "fetch: outer loop")
    | S fuel =>
        match feedDecoder tid l w with
        | None => Ok (l, w)
        | Some (l, w) =>
            let! (l, w) := fetchInner (Z.to_nat (fetchWidth (fetchCfg (fw w)) - numInst (fw w))) tid l w in
            fetchOuter fuel tid (reevaluateRom l) w
        end
    end
  else Ok (l, w).

Definition fetchFuel (x : Fetch) : nat :=
  Z.to_nat ((fetchWidth (fetchCfg x) - numInst x + 1) * (Z.max 0 (numInstsOf (fetchCfg x)) + 1)).

(** After the loop. *)
Definition endFetch (tid : ThreadID) (l : FetchLoop) (x : Fetch) : Fetch :=
  let x := set_fetchOffset (<[tid := fl_pcOffset l]> (fetchOffset x))
             (set_macroop (<[tid := fl_curMacroop l]> (macroop x)) x) in
  let x := if 0 <? numInst x then set_fe_wroteToTimeBuffer true x else x in
  let x := set_fe_pc (<[tid := fl_thisPC l]> (fe_pc x)) x in
  let fetchAddr := maskPC (fetchCfg x) (pc_instAddr (fl_thisPC l) + fl_pcOffset l) in
  set_issuePipelinedIfetch
    (<[tid := negb (fetchBufferAlignPC (fetchCfg x) fetchAddr =? fetchBufferPC x tid) &&
              negb (fe_statusIs x tid FIcacheWaitResponse) && negb (fe_statusIs x tid FItlbWait) &&
              negb (fe_statusIs x tid FIcacheWaitRetry) && negb (fe_statusIs x tid FQuiescePending) &&
              negb (bool_decide (is_Some (fl_curMacroop l)))]> (issuePipelinedIfetch x)) x.

(** The instructions of a thread whose bytes are there. *)
Definition fetchInsts (tid : ThreadID) (status_change : bool) (w : Fet) : outcome (bool * Fet) :=
  let x := fw w in
  let thisPC := fe_pc x tid in
  let fetchAddr := maskPC (fetchCfg x) (pc_instAddr thisPC + fetchOffset x tid) in
  let l := mkFetchLoop thisPC thisPC (fetchOffset x tid) (blkOffsetOf tid fetchAddr x) (macroop x tid)
             (isRomMicroPC (pc_microPC thisPC)) false false in
  let! (l, w) := fetchOuter (fetchFuel x) tid l w in
  Ok (status_change || fl_quiesce l, fw_on (endFetch tid l) w).

(** Are the bytes at the PC, or micro-instructions, at hand? *)
Definition haveInsts (x : Fetch) (tid : ThreadID) : bool :=
  let fetchAddr := maskPC (fetchCfg x) (pc_instAddr (fe_pc x tid) + fetchOffset x tid) in
  (fetchBufferValid x tid && (fetchBufferAlignPC (fetchCfg x) fetchAddr =? fetchBufferPC x tid))
  || isRomMicroPC (pc_microPC (fe_pc x tid)) || bool_decide (is_Some (macroop x tid)).

(** [fetch] of the thread that was chosen. *)
Definition fetchThread (tid : ThreadID) (status_change : bool) (w : Fet) : outcome (bool * Fet) :=
  let x := fw w in
  if fe_statusIs x tid FIcacheAccessComplete then fetchInsts tid true (fw_on (fe_setStatus tid FRunning) w)
  else if fe_statusIs x tid FRunning then
    if negb (haveInsts x tid) then
      let! w := fetchCacheLine (maskPC (fetchCfg x) (pc_instAddr (fe_pc x tid) + fetchOffset x tid)) tid
                  (pc_instAddr (fe_pc x tid)) w in Ok (status_change, w)
    else if checkInterrupt x && negb (delayedCommit x tid) then Ok (status_change, w)
    else fetchInsts tid status_change w
  else Ok (status_change, w).

(** The loop of [tick]; no thread ends it. *)
Fixpoint fetchThreads (inp : FetchInputs) (n : nat) (status_change : bool) (w : Fet) : outcome (bool * Fet) :=
  match n with
  | O => Ok (status_change, w)
  | S n =>
      let! (tid, x) := getFetchingThread inp (fw w) in
      assert! negb (fe_switchedOut (fw_env w)) as "fetch: !cpu->switchedOut()" in
      let w := fw_set x w in
      match tid with
      | None => Ok (status_change, w)
      | Some tid => let! (c, w) := fetchThread tid status_change w in fetchThreads inp n c w
      end
  end.

Definition pipelineIcacheAccesses (w : Fet) (tid : ThreadID) : outcome Fet :=
  let x := fw w in
  if negb (issuePipelinedIfetch x tid) then Ok w
  else
    let thisPC := fe_pc x tid in
    if isRomMicroPC (pc_microPC thisPC) then Ok w
    else
      let fetchAddr := maskPC (fetchCfg x) (pc_instAddr thisPC + fetchOffset x tid) in
      if negb (fetchBufferValid x tid && (fetchBufferAlignPC (fetchCfg x) fetchAddr =? fetchBufferPC x tid))
      then fetchCacheLine fetchAddr tid (pc_instAddr thisPC) w
      else Ok w.

(** ** To decode *)

(** The front of the thread's queue goes to decode. *)
Definition sendToDecode (tid : ThreadID) (x : Fetch) : Fetch :=
  set_fetchQueue (<[tid := tail (fetchQueue x tid)]> (fetchQueue x))
    (set_fe_wroteToTimeBuffer true (set_toDecodeInsts (toDecodeInsts x ++ take 1 (fetchQueue x tid)) x)).

(** [itr] are the threads from [tid_itr] to the end of [activeThreads]. *)
Fixpoint sendLoop (fuel : nat) (itr : list ThreadID) (insts_to_decode available_insts : nat) (x : Fetch)
  : outcome Fetch :=
  if bool_decide (available_insts ≠ 0%nat) && (insts_to_decode <? toDecodeWidth (fetchCfg x))%nat then
    match fuel, itr with
    | O, _ => Err (NoFuel "tick: insts_to_decode")
    | _, [] => Err (OutOfRange "tick: *tid_itr")
    | S fuel, tid :: itr =>
        let itr := match itr with [] => fe_activeThreads (fetchCfg x) | _ => itr end in
        if negb (decodeStall x tid) && negb (bool_decide (fetchQueue x tid = []))
        then sendLoop fuel itr (S insts_to_decode) (available_insts - 1) (sendToDecode tid x)
        else sendLoop fuel itr insts_to_decode available_insts x
    end
  else Ok x.

Definition availableInsts (x : Fetch) : nat :=
  sum_list_with (λ tid, if decodeStall x tid then 0%nat else length (fetchQueue x tid)) (fe_activeThreads (fetchCfg x)).
Definition sendInsts (w : Fet) : outcome Fet :=
  let x := fw w in
  let active := fe_activeThreads (fetchCfg x) in
  let '(r, e) := fe_random (fw_env w) in
  let itr := drop (Z.to_nat (r mod Z.of_nat (length active))) active in
  let! x := sendLoop (availableInsts x * length active) itr 0 (availableInsts x) x in
  Ok (fw_set_env e (fw_set x w)).

(** ** A cycle *)

Definition fe_startCycle (x : Fetch) : Fetch :=
  set_toDecodeInsts [] (set_fe_wroteToTimeBuffer false
    (set_issuePipelinedIfetch
       (foldl (λ m tid, <[tid := false]> m) (issuePipelinedIfetch x) (seq 0 (fe_numThreads (fetchCfg x)))) x)).

Definition readInterrupts (FullSystem : bool) (inp : FetchInputs) (x : Fetch) : Fetch :=
  if FullSystem then
    let c := fi_commit inp 0%nat in
    let x := if fc_interruptPending c then set_interruptPending true x else x in
    if fc_clearInterrupt c then set_interruptPending false x else x
  else x.

Definition fe_checkThread (inp : FetchInputs) (cw : bool * Fet) (tid : ThreadID) : outcome (bool * Fet) :=
  let! (updated, w) := fe_checkSignalsAndUpdate inp tid (snd cw) in Ok (fst cw || updated, w).

Definition fe_tick (FullSystem : bool) (inp : FetchInputs) (w : Fet) : outcome Fet :=
  let w := fw_on fe_startCycle w in
  let! (status_change, w) := foldM (fe_checkThread inp) (fe_activeThreads (fetchCfg (fw w))) (false, w) in
  let w := fw_on (readInterrupts FullSystem inp) w in
  let! (status_change, w) := fetchThreads inp (numFetchingThreads (fetchCfg (fw w))) status_change w in
  let! w := if status_change : bool then updateFetchStatus w else Ok w in
  let! w := foldM pipelineIcacheAccesses (seq 0 (fe_numThreads (fetchCfg (fw w)))) w in
  let! w := sendInsts w in
  let! w := if fe_wroteToTimeBuffer (fw w) then
              let! a := ar_activity (fw_activity w) in Ok (fw_set_activity a w)
            else Ok w in
  Ok (fw_on (set_numInst 0) w).
End fetch.
Arguments Fetch PC Macro D : clear implicits.
Arguments Fet PC Macro D E P Hist : clear implicits.
Arguments FetchLoop PC Macro : clear implicits.
