(* ===== verification/FetchLoop.v ===== *)
(** * What the fetch loop builds

    The instructions a thread fetches form a path: each is at the PC that was
    predicted after the one before it, from the thread's PC to its new PC.  The loops
    end, no assertion of theirs fails and the prediction unit stays well formed. *)

From S2P Require Import Prelude Regs Config DynInst Rob TimeBuf Activity CpuList StoreSet DirPred BPred BPredRas BPredInv.
From S2P Require Import DirPredOk BPredSafe X86Pc Decode DecodeSafe Fetch.

Local Open Scope Z_scope.

(** What fetch relies on: decoding takes the instruction out of the decoder and
    keeps the address and the micro PC; given bytes, the decoder completes an
    instruction or asks for more; a reset does not make one up. *)
Class IsaDecoderOk (D PC Macro : Type) {HPC : PcState PC} {HF : PcFlow PC} {HD : IsaDecoder D PC Macro} := {
  dc_decode_done pc d : dc_instReady (snd (dc_decode pc d)) = false;
  dc_decode_addr pc d : pc_instAddr (snd (fst (dc_decode pc d))) = pc_instAddr pc;
  dc_decode_micro pc d : pc_microPC (snd (fst (dc_decode pc d))) = pc_microPC pc;
  dc_more_ready pc a bytes d :
    dc_instReady (dc_moreBytes pc a bytes d) = true ∨ dc_needMoreBytes (dc_moreBytes pc a bytes d) = true;
  dc_reset_ready d : dc_instReady d = false → dc_instReady (dc_reset d) = false;
}.

Section loops.
Context {PC Macro D E P Hist : Type} {HPC : PcState PC} {HF : PcFlow PC} {HD : IsaDecoder D PC Macro}
  {HE : FetchEnv E} {HP : DirPred P Hist} {HDok : IsaDecoderOk D PC Macro}.
Implicit Types (w : Fet PC Macro D E P Hist) (x : Fetch PC Macro D).
Implicit Types (front : gmap DynInstPtr (FrontInst PC Macro)).

(** ** Paths *)

Definition same_place (a b : PC) : Prop := pc_instAddr a = pc_instAddr b ∧ pc_microPC a = pc_microPC b.

#[export] Instance same_place_equiv : Equivalence same_place.
Proof. unfold same_place. split; [done|by intros a b []|by intros a b c [-> ->]]. Qed.

(** From one PC along the predicted targets of the instructions to another. *)
Inductive path (front : gmap DynInstPtr (FrontInst PC Macro)) : PC → list DynInstPtr → PC → Prop :=
  | path_nil pc : path front pc [] pc
  | path_cons pc p f l pc' :
      front !! p = Some f → same_place pc (fi_pc f) → path front (fi_predPC f) l pc' →
      path front pc (p :: l) pc'.

Lemma path_app front a l1 b l2 c : path front a l1 b → path front b l2 c → path front a (l1 ++ l2) c.
Proof. induction 1; cbn; [done|]. econstructor; eauto. Qed.

Lemma path_one front pc p f : front !! p = Some f → same_place pc (fi_pc f) → path front pc [p] (fi_predPC f).
Proof. intros. econstructor; [done|done|constructor]. Qed.

Lemma path_frame front front' a l b :
  (∀ p, p ∈ l → front' !! p = front !! p) → path front a l b → path front' a l b.
Proof.
  intros Hf. induction 1 as [|pc p f l pc' H1 H2 H3 IH]; [constructor|].
  econstructor; [|done|]; [by rewrite Hf by set_solver|]. apply IH. set_solver.
Qed.

Lemma path_split front a l1 l2 c : path front a (l1 ++ l2) c → ∃ b, path front a l1 b ∧ path front b l2 c.
Proof.
  revert a. induction l1 as [|p l1 IH]; intros a H; cbn in *; [by exists a; split; [constructor|]|].
  inversion H; subst. destruct (IH _ ltac:(eassumption)) as (b & ? & ?). exists b. split; [|done]. by econstructor.
Qed.

(** ** One instruction *)

(** What the front end keeps of an instruction: its number, thread and operation,
    and the predicted direction. *)
Definition ident (i : DynInst) : InstSeqNum * ThreadID * StaticInst * bool :=
  (seqNum i, threadNumber i, staticInst i, readPredTaken i).

(** Only branches are predicted taken. *)
Definition built (tid : ThreadID) (s : store) (p : DynInstPtr) : Prop :=
  ∃ i, s !! p = Some i ∧ seqNum i = p ∧ threadNumber i = tid ∧ (readPredTaken i = true → isControl i = true).

(** The instructions [ps] have been built and nothing else has changed for
    other threads. *)
Record grown (tid : ThreadID) (a b : PC) (ps : list DynInstPtr) w w' : Prop := {
  gr_queue : fetchQueue (fw w') tid = fetchQueue (fw w) tid ++ ps;
  gr_queues : ∀ t, t ≠ tid → fetchQueue (fw w') t = fetchQueue (fw w) t;
  gr_num : numInst (fw w') = numInst (fw w) + Z.of_nat (length ps);
  gr_seq : fw_seqNum w' = fw_seqNum w + Z.of_nat (length ps);
  gr_ps : ps = seqZ (fw_seqNum w) (Z.of_nat (length ps));
  gr_path : path (fw_front w') a ps b;
  gr_built : Forall (built tid (fw_insts w')) ps;
  gr_front : ∀ q, q < fw_seqNum w → fw_front w' !! q = fw_front w !! q;
  gr_insts : ∀ q, q < fw_seqNum w → fw_insts w' !! q = fw_insts w !! q;
  gr_list : cpu_instList (fw_cpu w') = cpu_instList (fw_cpu w) ++ ps;
  gr_removing : cpu_removeList (fw_cpu w') = cpu_removeList (fw_cpu w);
  gr_decoder : ∀ t, t ≠ tid → decoder (fw w') t = decoder (fw w) t;
  gr_status : ∀ t, t ≠ tid → fetchStatus (fw w') t = fetchStatus (fw w) t;
  gr_quiesce : fetchStatus (fw w') tid = fetchStatus (fw w) tid ∨ fetchStatus (fw w') tid = FQuiescePending;
  gr_cfg : fetchCfg (fw w') = fetchCfg (fw w);
  gr_pc : fe_pc (fw w') = fe_pc (fw w);
  gr_req : memReq (fw w') = memReq (fw w) ∧ nextReq (fw w') = nextReq (fw w);
  gr_buffer : fetchBufferPC (fw w') = fetchBufferPC (fw w) ∧ fetchBufferValid (fw w') = fetchBufferValid (fw w);
  gr_sent : toDecodeInsts (fw w') = toDecodeInsts (fw w);
  gr_stall : decodeStall (fw w') = decodeStall (fw w);
  gr_env : fw_env w' = fw_env w ∧ fw_rob w' = fw_rob w;
  gr_len : (length (fetchQueue (fw w) tid) <= fetchQueueSize (fetchCfg (fw w)) →
            length (fetchQueue (fw w') tid) <= fetchQueueSize (fetchCfg (fw w)))%nat;
}.

Lemma grown_trans tid a b c ps qs w1 w2 w3 :
  grown tid a b ps w1 w2 → grown tid b c qs w2 w3 → grown tid a c (ps ++ qs) w1 w3.
Proof.
  intros [A1 A1' A2 A3 A4 A5 A6 A7 A8 A9 A10 A11 A12 A12' A13 A14 [A15 A15'] [A16 A16'] A17 A18 [A19 A19'] A20].
  intros [B1 B1' B2 B3 B4 B5 B6 B7 B8 B9 B10 B11 B12 B12' B13 B14 [B15 B15'] [B16 B16'] B17 B18 [B19 B19'] B20].
  assert (∀ q, q ∈ ps → q < fw_seqNum w2) as Hlt.
  { intros q Hq. rewrite A4 in Hq. apply elem_of_seqZ in Hq. lia. }
  split; try congruence.
  - by rewrite B1, A1, (assoc_L (++)).
  - intros t Ht. by rewrite B1', A1'.
  - rewrite length_app. lia.
  - rewrite length_app. lia.
  - rewrite length_app, Nat2Z.inj_add, seqZ_app by lia. rewrite <- A4. f_equal. rewrite <- A3. done.
  - eapply path_app; [|done]. eapply path_frame; [|done]. intros q Hq. by apply B7, Hlt.
  - apply Forall_app. split; [|done]. rewrite Forall_forall in A6 |- *. intros q Hq.
    destruct (A6 q Hq) as (i & Hi & ?). exists i. rewrite B8 by auto. done.
  - intros q Hq. rewrite B7 by lia. auto.
  - intros q Hq. rewrite B8 by lia. auto.
  - rewrite B9, A9. by rewrite (assoc_L (++)).
  - intros t Ht. rewrite B11 by done. auto.
  - intros t Ht. rewrite B12 by done. auto.
  - destruct B12' as [->|?]; [done|by right].
  - split; congruence.
  - split; congruence.
  - split; congruence.
  - intros Hl. rewrite <- A13. apply B20. rewrite A13. by apply A20.
Qed.

Lemma grown_nil tid a w : grown tid a a [] w w.
Proof.
  split; try done; try (by left); try lia; cbn; try lia.
  - by rewrite app_nil_r.
  - by rewrite app_nil_r.
Qed.

Lemma setPredTaken_read b i : readPredTaken (flag_assign PredTaken b i) = b.
Proof. unfold readPredTaken, fl, flag_assign. cbn. by rewrite bs_test_assign, N.eqb_refl. Qed.

(** The direction and the next PC that are noted with an instruction. *)
Lemma lookupAndUpdateNextPC_spec p pc w i f taken next w' :
  fw_insts w !! p = Some i → fw_front w !! p = Some f →
  lookupAndUpdateNextPC p pc w = Ok (taken, next, w') →
  (if isControl i then ∃ u, predict (staticInst i) (seqNum i) pc (threadNumber i) (fw_bp w) = Ok (taken, next, u) ∧ fw_bp w' = u
   else taken = false ∧ next = pc_advance (staticInst i) pc ∧ fw_bp w' = fw_bp w) ∧
  fw w' = fw w ∧ fw_cpu w' = fw_cpu w ∧ fw_rob w' = fw_rob w ∧ fw_env w' = fw_env w ∧
  fw_activity w' = fw_activity w ∧ fw_seqNum w' = fw_seqNum w ∧
  fw_insts w' = <[p := flag_assign PredTaken taken i]> (fw_insts w) ∧
  fw_front w' = <[p := mkFrontInst (fi_pc f) next (fi_macroop f)]> (fw_front w).
Proof.
  intros Hi Hf. unfold lookupAndUpdateNextPC, fe_setPredTarg, modify, modifyM, deref, derefFront. rewrite Hi.
  destruct (isControl i) eqn:Hc; cbn [negb].
  - destruct (predict _ _ _ _ _) as [[[tk nx] u]|] eqn:Hp; [|done]. cbn. rewrite Hf. cbn. rewrite Hi. intros [= <- <- <-].
    by split; [exists u|].
  - rewrite Hf. cbn. rewrite Hi. intros [= <- <- <-]. done.
Qed.

(** The state with the new instruction. *)
Definition withInst tid si m thisPC nextPC w : Fet PC Macro D E P Hist :=
  let p : DynInstPtr := fw_seqNum w in
  mkFet (set_delayedCommit (<[tid := si_flag IsDelayedCommit si]> (delayedCommit (fw w)))
           (set_fetchQueue (<[tid := fetchQueue (fw w) tid ++ [p]]> (fetchQueue (fw w))) (fw w)))
    (<[p := initInst si (pc_instAddr thisPC) p tid]> (fw_insts w)) (<[p := mkFrontInst thisPC nextPC m]> (fw_front w))
    (addInst p (fw_cpu w)) (fw_rob w) (fw_activity w) (fw_bp w) (p + 1) (fw_env w).

Lemma buildInst_spec tid si m thisPC nextPC w p w' :
  buildInst tid si m thisPC nextPC w = Ok (p, w') →
  p = fw_seqNum w ∧ numInst (fw w) < fetchWidth (fetchCfg (fw w)) ∧
  (length (fetchQueue (fw w) tid) < fetchQueueSize (fetchCfg (fw w)))%nat ∧
  w' = withInst tid si m thisPC nextPC w.
Proof.
  unfold buildInst. intros H. inv_ok1 H. inv_ok1 H. inv_ok H. split; [done|].
  apply Z.ltb_lt in E0. apply Nat.leb_le in E1. cbn in E1. rewrite fn_lookup_insert, length_app in E1. cbn in E1.
  split; [done|]. split; [lia|]. done.
Qed.

Lemma buildInst_total tid si m thisPC nextPC w :
  hasRoom tid (fw w) = true → ∃ p w', buildInst tid si m thisPC nextPC w = Ok (p, w').
Proof.
  unfold hasRoom, buildInst. intros [-> H%Nat.ltb_lt]%andb_true_iff. cbn.
  rewrite fn_lookup_insert, length_app. cbn. rewrite (proj2 (Nat.leb_le _ _)) by lia. by eexists _, _.
Qed.

Lemma fetchOne_grown tid si a l w l' w' :
  same_place a (fl_thisPC l) → fetchOne tid si l w = Ok (l', w') →
  grown tid a (fl_thisPC l') [fw_seqNum w] w w' ∧ decoder (fw w') = decoder (fw w) ∧
  fl_inRom l' = isRomMicroPC (pc_microPC (fl_thisPC l')) ∧
  numInst (fw w) < fetchWidth (fetchCfg (fw w)) ∧
  (length (fetchQueue (fw w) tid) < fetchQueueSize (fetchCfg (fw w)))%nat.
Proof.
  intros Ha. unfold fetchOne. intros H. inv_ok1 H. destruct a0 as [p w1]. inv_ok1 H. destruct a0 as [[taken next] w2].
  apply buildInst_spec in E0 as (-> & Hnum & Hlen & ->). set (p := fw_seqNum w : DynInstPtr) in *.
  eapply lookupAndUpdateNextPC_spec in E1 as (Hpred & H1 & H2 & H3 & H4 & H5 & H6 & H7 & H8);
    [|apply lookup_insert_eq..].
  unfold withInst in H1, H2, H3, H4, H6, H7, H8.
  fold p in H1, H2, H6, H7, H8. cbn [fw_on fw_set fw fw_insts fw_front fw_cpu fw_rob fw_env fw_seqNum fi_pc fi_macroop] in H1, H2, H3, H4, H6, H7, H8.
  rewrite insert_insert_eq in H7. rewrite insert_insert_eq in H8. cbn [fi_pc fi_macroop] in H8.
  assert (fl_thisPC l' = next ∧ fl_inRom l' = isRomMicroPC (pc_microPC next)) as [-> ->].
  { injection H as <- _. by destruct (_ || negb _). }
  assert (grown tid a next [p] w w2 ∧ decoder (fw w2) = decoder (fw w)) as [Hg Hd].
  { split; [|by rewrite H1]. split; rewrite ?H1, ?H2, ?H3, ?H4, ?H6, ?H7, ?H8; cbn; try done; try (by left).
    - by rewrite fn_lookup_insert.
    - intros t Ht. by rewrite fn_lookup_insert_ne.
    - eapply path_cons; [apply lookup_insert_eq|done|constructor].
    - constructor; [|done]. eexists. split; [apply lookup_insert_eq|].
      split; [done|]. split; [done|]. rewrite setPredTaken_read. intros ->.
      change (isControl (initInst si (pc_instAddr (fl_thisPC l)) p tid) = true).
      destruct (isControl _); [done|]. by destruct Hpred.
    - intros q Hq. rewrite lookup_insert_ne; [done|]. unfold p. lia.
    - intros q Hq. rewrite lookup_insert_ne; [done|]. unfold p. lia.
    - intros _. rewrite fn_lookup_insert, length_app. cbn. lia. }
  injection H as _ <-. split; [|split; [by destruct (si_flag IsQuiesce si)|done]].
  destruct (si_flag IsQuiesce si); [|done].
  destruct Hg as [G1 G1' G2 G3 G4 G5 G6 G7 G8 G9 G10 G11 G12 G12' G13 G14 G15 G16 G17 G18 G19 G20].
  split; try done; cbn; [intros t Ht; rewrite fn_lookup_insert_ne by done; by apply G12|].
  right. by rewrite fn_lookup_insert.
Qed.

(** ** The loops *)

Implicit Types (l : FetchLoop PC Macro).

Lemma decodeNext_spec tid l w si l' w' :
  decodeNext tid l w = Some (si, l', w') →
  same_place (fl_thisPC l) (fl_thisPC l') ∧ fl_predictedBranch l' = fl_predictedBranch l ∧
  (∃ d, w' = fw_on (λ x, set_decoder (<[tid := d]> (decoder x)) x) w ∨ w' = w) ∧
  (is_Some (fl_curMacroop l') ∨ fl_inRom l' = true ∨ is_Some si) ∧
  (dc_instReady (decoder (fw w) tid) = false ∨ (fl_curMacroop l = None ∧ fl_inRom l = false) →
     dc_instReady (decoder (fw w') tid) = false).
Proof.
  unfold decodeNext. destruct (bool_decide (is_Some (fl_curMacroop l)) || fl_inRom l) eqn:Hm.
  { intros [= <- <- <-]. split; [done|]. split; [done|]. split; [exists (decoder (fw w) tid); by right|].
    apply orb_true_iff in Hm as [Hm%bool_decide_eq_true|Hm].
    - split; [by left|]. intros [?|[Hn _]]; [done|]. rewrite Hn in Hm. by destruct Hm.
    - split; [by right; left|]. intros [?|[_ ?]]; congruence. }
  destruct (dc_instReady (decoder (fw w) tid)) eqn:Hr; [|done].
  pose proof (dc_decode_done (fl_thisPC l) (decoder (fw w) tid)) as Hd1.
  pose proof (dc_decode_addr (fl_thisPC l) (decoder (fw w) tid)) as Hd2.
  pose proof (dc_decode_micro (fl_thisPC l) (decoder (fw w) tid)) as Hd3.
  destruct (dc_decode _ _) as [[r pc] d]. cbn in Hd1, Hd2, Hd3.
  destruct r as [s|m]; intros [= <- <- <-]; cbn [fl_thisPC fl_predictedBranch fl_curMacroop fl_inRom fw fw_on fw_set set_decoder decoder];
    (split; [by split|]; split; [done|]; split; [exists d; by left|]; split; [by eauto|]);
    intros _; by rewrite fn_lookup_insert.
Qed.

Lemma decodeNext_none tid l w :
  decodeNext tid l w = None → fl_curMacroop l = None ∧ fl_inRom l = false ∧ dc_instReady (decoder (fw w) tid) = false.
Proof.
  unfold decodeNext. case_bool_decide as Hm; cbn.
  - done.
  - destruct (fl_inRom l); [done|]. destruct (dc_instReady _).
    + destruct (dc_decode _ _) as [[[s|m] pc] d]; done.
    + intros _. apply eq_None_not_Some in Hm. done.
Qed.

(** The instruction in the decoder has been taken out, or will be. *)
Definition not_ready tid w : Prop := dc_instReady (decoder (fw w) tid) = false.
Definition takes_ready tid l w : Prop := not_ready tid w ∨ (fl_curMacroop l = None ∧ fl_inRom l = false).

Lemma grown_decoder tid a b ps w d w' :
  grown tid a b ps (fw_on (λ x, set_decoder (<[tid := d]> (decoder x)) x) w) w' → grown tid a b ps w w'.
Proof.
  intros [G1 G1' G2 G3 G4 G5 G6 G7 G8 G9 G10 G11 G12 G12' G13 G14 G15 G16 G17 G18 G19 G20].
  split; try done. intros t Ht. rewrite G11 by done. cbn. by rewrite fn_lookup_insert_ne.
Qed.

(** What a run of the loops has done. *)
Definition ran_loop tid l w (r : FetchLoop PC Macro * Fet PC Macro D E P Hist) : Prop :=
  ∃ ps, grown tid (fl_thisPC l) (fl_thisPC (fst r)) ps w (snd r) ∧ not_ready tid (snd r).

Lemma ran_loop_trans tid l1 l2 w1 w2 a ps r :
  grown tid a (fl_thisPC l2) ps w1 w2 → ran_loop tid l2 w2 r → a = fl_thisPC l1 → ran_loop tid l1 w1 r.
Proof. intros Hg (qs & Hg' & Hr) ->. exists (ps ++ qs). split; [by eapply grown_trans|done]. Qed.

Lemma fetchStep_grown tid l w si l1 w1 si' l2 w2 :
  takes_ready tid l w → decodeNext tid l w = Some (si, l1, w1) → fetchOne tid si' l1 w1 = Ok (l2, w2) →
  grown tid (fl_thisPC l) (fl_thisPC l2) [fw_seqNum w] w w2 ∧ not_ready tid w2.
Proof.
  intros Hr Hd Hf. destruct (decodeNext_spec _ _ _ _ _ _ Hd) as (Hp & _ & [d Hw] & _ & Hready).
  apply (fetchOne_grown _ _ (fl_thisPC l)) in Hf as (Hg & Hdec & _); [|done].
  split; [|unfold not_ready; rewrite Hdec; by apply Hready].
  destruct Hw as [->| ->]; [|done]. by eapply grown_decoder.
Qed.

Lemma fetchInner_grown fuel tid : ∀ l w r,
  takes_ready tid l w → fetchInner fuel tid l w = Ok r → ran_loop tid l w r.
Proof.
  induction fuel as [|fuel IH]; intros l w r Hr H; [done|]. cbn [fetchInner] in H.
  destruct (decodeNext tid l w) as [[[si l1] w1]|] eqn:Hd.
  - inv_ok1 H. inv_ok1 H. destruct a0 as [l2 w2]. destruct (fetchStep_grown _ _ _ _ _ _ _ _ _ Hr Hd E1) as [Hg Hn].
    assert (ran_loop tid l w (l2, w2)) as Hstop by (by exists [fw_seqNum w]).
    destruct (fl_quiesce l2); [by injection H as <-|]. destruct (_ && _); [|by injection H as <-].
    eapply ran_loop_trans; [done| |done]. eapply IH; [by left|done].
  - injection H as <-. exists []. split; [apply grown_nil|].
    by apply decodeNext_none in Hd as (_ & _ & ?).
Qed.

Lemma feedDecoder_spec tid l w l' w' :
  not_ready tid w → feedDecoder tid l w = Some (l', w') →
  fl_thisPC l' = fl_thisPC l ∧ (∃ d, w' = w ∨ w' = fw_on (λ x, set_decoder (<[tid := d]> (decoder x)) x) w) ∧
  takes_ready tid l' w' ∧ fl_inRom l' = fl_inRom l ∧
  (dc_instReady (decoder (fw w') tid) = true ∨ fl_inRom l' = true ∨ is_Some (fl_curMacroop l') ∨
   fl_blkOffset l' = fl_blkOffset l + 1 ∧ fl_blkOffset l < numInstsOf (fetchCfg (fw w))).
Proof.
  unfold feedDecoder, takes_ready, not_ready. intros Hn. rewrite Hn, andb_true_r.
  destruct (fl_inRom l) eqn:Hrom; cbn [negb andb].
  { intros [= <- <-]. split; [done|]. split; [exists (decoder (fw w) tid); by left|]. split_and!; auto. }
  case_bool_decide as Hm; cbn [negb].
  { intros [= <- <-]. split; [done|]. split; [exists (decoder (fw w) tid); by left|]. split_and!; auto. }
  destruct (_ || _); [done|]. destruct (Z.leb_spec (numInstsOf (fetchCfg (fw w))) (fl_blkOffset l)) as [|Hlt]; [done|].
  intros [= <- <-]. set (d := dc_moreBytes _ _ _ _). apply eq_None_not_Some in Hm.
  pose proof (dc_more_ready (fl_thisPC l) (maskPC (fetchCfg (fw w)) (pc_instAddr (fl_thisPC l) + fl_pcOffset l))
    (machInstAt (fl_blkOffset l) (fetchCfg (fw w)) (fetchBuffer (fw w) tid)) (decoder (fw w) tid)) as Hmore. fold d in Hmore.
  split; [by destruct (dc_needMoreBytes d)|]. split; [exists d; by right|].
  split; [right; by destruct (dc_needMoreBytes d)|]. split; [by destruct (dc_needMoreBytes d)|].
  cbn. rewrite fn_lookup_insert. destruct Hmore as [?|Hmore]; [by left|]. rewrite Hmore. cbn. auto.
Qed.

Lemma fetchOuter_grown fuel tid : ∀ l w r, not_ready tid w → fetchOuter fuel tid l w = Ok r → ran_loop tid l w r.
Proof.
  assert (∀ l w, not_ready tid w → ran_loop tid l w (l, w)) as Hstop.
  { intros l w Hn. exists []. split; [apply grown_nil|done]. }
  induction fuel as [|fuel IH]; intros l w r Hn H; cbn [fetchOuter] in H; (destruct (_ && _); [|injection H as <-; auto]).
  { done. }
  destruct (feedDecoder tid l w) as [[l1 w1]|] eqn:Hf; [|injection H as <-; auto].
  apply feedDecoder_spec in Hf as (Hpc & [d Hw] & Ht & _); [|done]. inv_ok1 H. destruct a as [l2 w2].
  apply fetchInner_grown in E0 as (ps & Hg & Hn2); [|done]. cbn [fst snd] in Hg, Hn2.
  apply (IH (reevaluateRom l2)) in H; [|done]. rewrite Hpc in Hg.
  apply (ran_loop_trans _ _ (reevaluateRom l2) _ w2 (fl_thisPC l) ps); [|done|done].
  destruct Hw as [->| ->]; [exact Hg|]. by eapply grown_decoder.
Qed.

(** ** The loops end and do not fail *)

Context {HPok : DirPredOk P Hist}.

(** The prediction unit is well formed and remembers nothing younger than the next
    instruction. *)
Definition bp_good tid w : Prop :=
  bp_wf (fw_bp w) ∧ dp_thread (bp_dir (fw_bp w)) tid ∧ ∀ t, fresh (fw_seqNum w) t (fw_bp w).

Lemma predicted_fresh (sn : InstSeqNum) a tid (u u' : BPredUnit PC P Hist) e :
  predicted sn a tid u u' e → (∀ t, fresh sn t u) → ∀ t, fresh (sn + 1) t u'.
Proof.
  intros [P1 _ P3 _ _ _ _ _ _ _ [tgt P11]] Hf t. destruct (Hf t) as [H1 H2].
  assert (∀ {A} (f : A → Z) k, Forall (λ e, f e < sn) k → Forall (λ e, f e < sn + 1) k) as Hw.
  { intros A f k Hk. eapply Forall_impl; [done|]. cbn. lia. }
  split.
  - rewrite P3. destruct (decide (t = tid)) as [->|]; [|rewrite fn_lookup_insert_ne by done; auto].
    rewrite fn_lookup_insert. constructor; [lia|]. auto.
  - rewrite P11. destruct (wasIndirect e); [|auto]. unfold recordIndirect, on_thread. cbn.
    destruct (decide (t = tid)) as [->|]; [|rewrite fn_lookup_insert_ne by done; auto].
    rewrite fn_lookup_insert. cbn. apply Forall_app. split; [auto|]. constructor; [|done]. cbn. lia.
Qed.

Lemma lookup_total p pc w i f :
  fw_insts w !! p = Some i → fw_front w !! p = Some f → seqNum i = p → fw_seqNum w = p + 1 →
  bp_wf (fw_bp w) → dp_thread (bp_dir (fw_bp w)) (threadNumber i) → (∀ t, fresh p t (fw_bp w)) →
  ∃ taken next w', lookupAndUpdateNextPC p pc w = Ok (taken, next, w') ∧ bp_wf (fw_bp w') ∧
    (∀ t, dp_thread (bp_dir (fw_bp w)) t → dp_thread (bp_dir (fw_bp w')) t) ∧
    (∀ t, fresh (fw_seqNum w') t (fw_bp w')).
Proof.
  intros Hi Hf Hs Hsn Hwf Ht Hfr. unfold lookupAndUpdateNextPC, fe_setPredTarg, modify, modifyM, deref, derefFront.
  rewrite Hi, Hs. destruct (isControl i); cbn [negb].
  - destruct (predict_ok (staticInst i) p pc (threadNumber i) (fw_bp w) Hwf Ht) as (tk & tg & u & e & -> & Hpd).
    cbn. rewrite Hf. cbn. rewrite Hi. do 3 eexists. split; [done|]. cbn. split; [by eapply predicted_wf|].
    split; [apply Hpd|]. rewrite Hsn. by eapply predicted_fresh.
  - rewrite Hf. cbn. rewrite Hi. do 3 eexists. split; [done|]. cbn. split; [done|]. split; [done|].
    intros t. destruct (Hfr t) as [H1 H2]. rewrite Hsn. split; (eapply Forall_impl; [done|]); cbn; lia.
Qed.

Lemma fetchOne_total tid si l w :
  hasRoom tid (fw w) = true → bp_good tid w → ∃ l' w', fetchOne tid si l w = Ok (l', w') ∧ bp_good tid w'.
Proof.
  intros Hroom (Hwf & Ht & Hf). unfold fetchOne.
  destruct (buildInst_total tid si (fl_curMacroop l) (fl_thisPC l) (fl_nextPC l) w Hroom) as (p & w1 & E0). rewrite E0.
  apply buildInst_spec in E0 as (-> & _ & _ & ->).
  edestruct (lookup_total (fw_seqNum w) (fl_thisPC l)
    (fw_on (λ x, set_numInst (numInst x + 1) x) (withInst tid si (fl_curMacroop l) (fl_thisPC l) (fl_nextPC l) w)))
    as (tk & nx & w2 & -> & H1 & H2 & H3); [apply lookup_insert_eq..|done|done|done|done|done|].
  do 2 eexists. split; [done|]. unfold bp_good. destruct (si_flag IsQuiesce si); cbn in *; auto.
Qed.

Lemma bp_good_decoder tid d w :
  bp_good tid w → bp_good tid (fw_on (λ x, set_decoder (<[tid := d]> (decoder x)) x) w).
Proof. done. Qed.

Lemma decodeNext_keeps tid l w si l1 w1 :
  decodeNext tid l w = Some (si, l1, w1) →
  hasRoom tid (fw w1) = hasRoom tid (fw w) ∧ (bp_good tid w → bp_good tid w1) ∧ numInst (fw w1) = numInst (fw w) ∧
  ∃ si', chooseInst si l1 = Ok si'.
Proof.
  intros Hd. destruct (decodeNext_spec _ _ _ _ _ _ Hd) as (_ & _ & [d Hw] & Hsrc & _).
  split_and!; [by destruct Hw as [->| ->]..|]. unfold chooseInst.
  destruct (fl_inRom l1); [by eexists|]. destruct (fl_curMacroop l1); [by eexists|].
  destruct Hsrc as [[? ?]|[?|[s ->]]]; [done|done|by eexists].
Qed.

Lemma hasRoom_num tid w : hasRoom tid (fw w) = true → numInst (fw w) < fetchWidth (fetchCfg (fw w)).
Proof. unfold hasRoom. intros [H%Z.ltb_lt _]%andb_true_iff. done. Qed.

Lemma fetchInner_total fuel tid : ∀ l w,
  (Z.to_nat (fetchWidth (fetchCfg (fw w)) - numInst (fw w)) <= fuel)%nat →
  hasRoom tid (fw w) = true → bp_good tid w → takes_ready tid l w →
  ∃ l' w', fetchInner fuel tid l w = Ok (l', w') ∧ bp_good tid w' ∧
    (decodeNext tid l w = None ∧ l' = l ∧ w' = w ∨
     numInst (fw w) < numInst (fw w') <= fetchWidth (fetchCfg (fw w))).
Proof.
  induction fuel as [|fuel IH]; intros l w Hfuel Hroom Hgood Hr; pose proof (hasRoom_num _ _ Hroom) as Hlt; [lia|].
  cbn [fetchInner]. destruct (decodeNext tid l w) as [[[si l1] w1]|] eqn:Hd; [|exists l, w; split_and!; auto].
  destruct (decodeNext_keeps _ _ _ _ _ _ Hd) as (H1 & H2 & H3 & [si' Hsi]). rewrite Hsi.
  destruct (fetchOne_total tid si' l1 w1) as (l2 & w2 & Hone & Hgood2); [by rewrite H1|auto|]. rewrite Hone.
  destruct (fetchStep_grown _ _ _ _ _ _ _ _ _ Hr Hd Hone) as [Hg Hn].
  pose proof (gr_num _ _ _ _ _ _ Hg) as Hnum. cbn in Hnum. pose proof (gr_cfg _ _ _ _ _ _ Hg) as Hcfg.
  destruct (fl_quiesce l2); [exists l2, w2; split_and!; auto; lia|].
  destruct (_ && hasRoom tid (fw w2)) eqn:Hc; [|exists l2, w2; split_and!; auto; right; lia].
  apply andb_true_iff in Hc as [_ Hroom2].
  destruct (IH l2 w2) as (l3 & w3 & -> & Hgood3 & Hres); [rewrite Hcfg; lia|done|done|by left|].
  exists l3, w3. split; [done|]. split; [done|]. right. rewrite Hcfg in Hres.
  destruct Hres as [(_ & -> & ->)|?]; lia.
Qed.

Lemma feedDecoder_blk tid l w l1 w1 : feedDecoder tid l w = Some (l1, w1) → 0 <= fl_blkOffset l → 0 <= fl_blkOffset l1.
Proof.
  unfold feedDecoder. intros H Hb. destruct (_ && _); [|by injection H as <- _].
  destruct (_ || _); [done|]. destruct (_ <=? _); [done|]. injection H as <- _.
  destruct (dc_needMoreBytes _); cbn; lia.
Qed.

(** How much work is left: instructions, then chunks of the buffer. *)
Definition fetchMeasure l w : Z :=
  (fetchWidth (fetchCfg (fw w)) - numInst (fw w)) * (Z.max 0 (numInstsOf (fetchCfg (fw w))) + 1) +
  Z.max 0 (numInstsOf (fetchCfg (fw w)) - fl_blkOffset l).

Lemma u32_nonneg z : 0 <= u32 z.
Proof. apply Z.mod_pos_bound. lia. Qed.

Lemma fetchOne_blk tid si l w l' w' :
  fetchOne tid si l w = Ok (l', w') → 0 <= fl_blkOffset l → 0 <= fl_blkOffset l'.
Proof.
  unfold fetchOne. intros H Hb. inv_ok1 H. destruct a. inv_ok1 H. destruct a as [[? ?] ?]. injection H as <- _.
  destruct (_ || negb _); [apply u32_nonneg|done].
Qed.

Lemma decodeNext_blk tid l w si l1 w1 : decodeNext tid l w = Some (si, l1, w1) → fl_blkOffset l1 = fl_blkOffset l.
Proof.
  unfold decodeNext. destruct (_ || _); [by intros [= _ <- _]|]. destruct (dc_instReady _); [|done].
  destruct (dc_decode _ _) as [[[s|m] pc] d]; by intros [= _ <- _].
Qed.

Lemma fetchInner_blk fuel tid : ∀ l w l' w',
  fetchInner fuel tid l w = Ok (l', w') → 0 <= fl_blkOffset l → 0 <= fl_blkOffset l'.
Proof.
  induction fuel as [|fuel IH]; intros l w l' w' H Hb; [done|]. cbn [fetchInner] in H.
  destruct (decodeNext tid l w) as [[[si l1] w1]|] eqn:Hd; [|by injection H as <- _].
  inv_ok1 H. inv_ok1 H. destruct a0 as [l2 w2]. apply decodeNext_blk in Hd. apply fetchOne_blk in E1; [|by rewrite Hd].
  destruct (fl_quiesce l2); [by injection H as <- _|]. destruct (_ && _); [eauto|by injection H as <- _].
Qed.

Lemma fetchOuter_total fuel tid : ∀ l w,
  fetchMeasure l w <= Z.of_nat fuel → 0 <= fl_blkOffset l → numInst (fw w) <= fetchWidth (fetchCfg (fw w)) →
  bp_good tid w → not_ready tid w →
  ∃ l' w', fetchOuter fuel tid l w = Ok (l', w') ∧ bp_good tid w' ∧ numInst (fw w') <= fetchWidth (fetchCfg (fw w)).
Proof.
  induction fuel as [|fuel IH]; intros l w Hm Hblk Hnum Hgood Hn; cbn [fetchOuter];
    (destruct (hasRoom tid (fw w) && _ && _) eqn:Hc; [|by exists l, w]);
    apply andb_true_iff in Hc as [[Hroom _]%andb_true_iff _]; pose proof (hasRoom_num _ _ Hroom) as Hlt.
  { unfold fetchMeasure in Hm. nia. }
  destruct (feedDecoder tid l w) as [[l1 w1]|] eqn:Hf; [|by exists l, w].
  assert (0 <= fl_blkOffset l1) as Hblk1 by by eapply feedDecoder_blk.
  apply feedDecoder_spec in Hf as (Hpc & [d Hw] & Ht & Hrom & Hsrc); [|done].
  assert (fetchCfg (fw w1) = fetchCfg (fw w) ∧ numInst (fw w1) = numInst (fw w) ∧ hasRoom tid (fw w1) = true ∧ bp_good tid w1)
    as (Hcfg & Hnum1 & Hroom1 & Hgood1) by (destruct Hw as [->| ->]; done).
  destruct (fetchInner_total (Z.to_nat (fetchWidth (fetchCfg (fw w1)) - numInst (fw w1))) tid l1 w1)
    as (l2 & w2 & Hin & Hgood2 & Hres); [done..|]. rewrite Hin.
  pose proof (fetchInner_blk _ _ _ _ _ _ Hin Hblk1) as Hblk2.
  apply fetchInner_grown in Hin as (ps & Hg & Hn2); [|done]. pose proof (gr_cfg _ _ _ _ _ _ Hg) as Hcfg2. cbn in Hcfg2, Hn2.
  rewrite Hcfg in Hcfg2, Hres. rewrite Hnum1 in Hres.
  assert (numInst (fw w2) <= fetchWidth (fetchCfg (fw w))) as Hnum2 by (destruct Hres as [(_ & _ & ->)|?]; lia).
  rewrite <- Hcfg2. apply IH; [|done|by rewrite Hcfg2|done|done].
  unfold fetchMeasure in *. rewrite Hcfg2. cbn [reevaluateRom fl_blkOffset].
  destruct Hres as [(Hd & -> & ->)|?]; [|nia].
  apply decodeNext_none in Hd as (Hd1 & Hd2 & Hd3). rewrite Hnum1.
  destruct Hsrc as [?|[?|[[? ?]|[-> ?]]]]; [congruence..|]. lia.
Qed.

(** C30: Fetching from a thread always ends, without a failing assertion and within
    the bounds the code never tests again: with the decoder empty and the
    prediction unit well formed, [fetch] adds at most [fetchWidth] instructions to the
    thread's queue, with consecutive numbers, and they are a path from the
    thread's PC to its new PC: each is at the place that was predicted after the
    one before it, and only branches are predicted taken.  The decoder is empty
    again, so the reset of a redirect, which does not discard an instruction the
    decoder has ready, has none to discard. *)
Theorem fetch_total tid c w :
  numInst (fw w) <= fetchWidth (fetchCfg (fw w)) → bp_good tid w → not_ready tid w →
  ∃ c' w' ps, fetchInsts tid c w = Ok (c', w') ∧
    path (fw_front w') (fe_pc (fw w) tid) ps (fe_pc (fw w') tid) ∧
    fetchQueue (fw w') tid = fetchQueue (fw w) tid ++ ps ∧ Forall (built tid (fw_insts w')) ps ∧
    ps = seqZ (fw_seqNum w) (Z.of_nat (length ps)) ∧
    numInst (fw w') = numInst (fw w) + Z.of_nat (length ps) ∧ numInst (fw w') <= fetchWidth (fetchCfg (fw w)) ∧
    bp_good tid w' ∧ not_ready tid w'.
Proof.
  intros Hnum Hgood Hn. unfold fetchInsts. set (l := mkFetchLoop _ _ _ _ _ _ _ _).
  destruct (fetchOuter_total (fetchFuel (fw w)) tid l w) as (l' & w' & Ho & Hgood' & Hnum'); [| |done|done|done|].
  { unfold fetchMeasure, fetchFuel. pose proof (u32_nonneg (u64 (maskPC (fetchCfg (fw w)) (pc_instAddr (fe_pc (fw w) tid) + fetchOffset (fw w) tid) - fetchBufferPC (fw w) tid) / instSize (fetchCfg (fw w)))).
    rewrite Z2Nat.id by nia. cbn [l fl_blkOffset]. unfold blkOffsetOf. nia. }
  { apply u32_nonneg. }
  rewrite Ho. apply fetchOuter_grown in Ho as (ps & Hg & Hn'); [|done]. cbn [fst snd] in *.
  do 2 eexists. exists ps. split; [done|].
  assert (∀ x, fe_pc (endFetch tid l' x) tid = fl_thisPC l' ∧ fetchQueue (endFetch tid l' x) = fetchQueue x ∧
    numInst (endFetch tid l' x) = numInst x ∧ decoder (endFetch tid l' x) = decoder x) as He.
  { intros x. unfold endFetch. split_and!; cbn; try (by destruct (0 <? numInst x)).
    rewrite fn_lookup_insert. by destruct (0 <? numInst x). }
  destruct (He (fw w')) as (H1 & H2 & H3 & H4). unfold not_ready, bp_good. cbn [fw_on fw_set fw fw_front fw_insts].
  rewrite H1, H2, H3, H4. pose proof (gr_num _ _ _ _ _ _ Hg).
  split_and!; try (by apply Hg); try done; try lia; apply Hgood'.
Qed.
End loops.

Module FetchExample.
#[export] Instance flow : PcFlow PCState := x86_PcFlow (λ _ _, x_set 100).
Definition micro (l : list StaticFlag) : StaticInst := DecodeExample.si (IsMicroop :: l).

(** Every eight bytes are an instruction: 1 jumps, 2 is a macro-op of two, the
    others only compute. *)
#[export] Instance bytes : IsaDecoder (option Z) PCState (list StaticInst) := {
  dc_reset := id;
  dc_instReady d := bool_decide (is_Some d);
  dc_needMoreBytes _ := true;
  dc_moreBytes _ _ chunk _ := Some chunk;
  dc_decode pc d :=
    (match d with
     | Some 1 => inl (DecodeExample.jump)
     | Some 2 => inr [micro [IsInteger]; micro [IsLastMicroop]]
     | _ => inl (DecodeExample.si [IsInteger])
     end, mkPCState (x_pc pc) (u64 (x_pc pc + 8)) (x_upc pc) (x_nupc pc) 8, None);
  mo_fetchMicroop m upc := nth (Z.to_nat upc) m nopStaticInst;
  rom_fetchMicroop _ _ := nopStaticInst;
}.
#[export] Instance bytes_ok : IsaDecoderOk (option Z) PCState (list StaticInst).
Proof. split; try done. by left. Qed.

#[export] Instance env : FetchEnv () := {
  fe_switchedOut _ := false;
  fe_isDraining _ := false;
  fe_wakeCPU e := e;
  fe_translate r e := (Some (None, fr_vaddr r), e);
  fe_isMemAddr _ _ := true;
  fe_sendTimingReq _ e := (true, e);
  fe_random e := (0, e);
}.

Definition targets : DefaultBTB PCState :=
  match newBTB 8 16 2 1 with Ok b => b | Err _ => mkBTB [] 0 0 0 0 0 0 end.
Definition indirect : IndirectPredictor PCState :=
  match newIndirect true true 4 2 16 3 2 (λ _, 1) with
  | Ok p => p | Err _ => mkIndirect true true 0 0 0 0 0 [] (λ _, mkThreadInfo [] 0) (λ _, 0) 0
  end.
Definition predictor : BPredUnit PCState Tournament.TournamentBP Tournament.TourHistory :=
  newBPredUnit BpExample.dir targets 4 true indirect.
Lemma predictor_wf : bp_wf predictor.
Proof.
  apply newBPredUnit_wf; [apply BpExample.dir_wf|by apply (newBTB_wf 8 16 2 1)|done|
    by apply (newIndirect_wf true true 4 2 16 3 2 (λ _, 1))|done].
Qed.

Definition cfg : FetchConfig := mkFetchConfig 8 8 64 32 8 FpSingleThread 1 1 [0%nat].
(** The block at 0: an instruction, a macro-op, an instruction, a jump. *)
Definition block : list Z := flat_map (λ b, b :: replicate 7 0) [0; 2; 0; 1; 0; 0; 0; 0].
Definition stage : Fetch PCState (list StaticInst) (option Z) :=
  set_fetchBufferValid (λ _, true) (set_fetchBuffer (λ _, block)
    (fe_resetStage (λ _, x_set 0)
       (mkFetch false (λ _, FIdle) [] (λ _, None) (λ _, x_set 0) (λ _, 0) (λ _, None) (λ _, false) (λ _, None) false 0
          (λ _, false) (λ _, false) false None None (λ _, []) (λ _, 0) (λ _, false) (λ _, []) false (λ _, false) None [] 0 cfg))).
Definition rob : ROB := 
  mkROB Dynamic 8 2 1 (λ _, 8) (λ _, 0) (λ _, []) None None (λ _, None) 0 (λ _, 0) (λ _, true)
    (λ _, Running) [0%nat] [].
Definition world : Fet PCState (list StaticInst) (option Z) () Tournament.TournamentBP Tournament.TourHistory :=
  mkFet stage ∅ ∅ (mkCpuList [] [] false) rob DecodeExample.recorder predictor 1 ().
End FetchExample.
Import FetchExample.

Lemma fetch_total_witness :
  ∃ c w' ps, fetchInsts 0 false FetchExample.world = Ok (c, w') ∧ fetchQueue (fw w') 0%nat = ps ∧ ps = [1; 2; 3; 4; 5; 6; 7; 8].
Proof.
  destruct (fetch_total 0%nat false FetchExample.world) as (c & w' & ps & Hrun & _ & Hq & _).
  - vm_compute. done.
  - split; [apply FetchExample.predictor_wf|]. split; [change (0 < 1)%nat; lia|]. intros t. by split.
  - done.
  - exists c, w', ps. split; [done|]. split; [done|].
    change (fetchQueue (fw FetchExample.world) 0%nat) with (@nil DynInstPtr) in Hq. cbn [app] in Hq. rewrite <- Hq.
    vm_compute in Hrun. injection Hrun as _ <-. vm_compute. done.
Defined.
