(* ===== verification/FetchOk.v ===== *)
(** * Fetch: what decode gets

    Through every cycle, the instructions a thread has sent to decode and those
    in its queue are one path from the PC of its last redirect to its PC; the queue
    keeps its bound; decode is sent as many instructions as it takes, each
    thread's in their order; and what fetch asserts of the signals of decode and
    commit holds of the signals those stages give. *)

From S2P Require Import Prelude Regs Config DynInst Rob TimeBuf Activity CpuList StoreSet DirPred BPred BPredRas BPredInv.
From S2P Require Import DirPredOk BPredSafe X86Pc Decode DecodeSafe DecodeOk Fetch FetchLoop.

Local Open Scope Z_scope.

Section fetch.
Context {PC Macro D E P Hist : Type} {HPC : PcState PC} {HF : PcFlow PC} {HD : IsaDecoder D PC Macro}
  {HE : FetchEnv E} {HP : DirPred P Hist} {HDok : IsaDecoderOk D PC Macro}.
Implicit Types (w : Fet PC Macro D E P Hist) (x : Fetch PC Macro D) (start : ThreadID → PC).

(** ** The invariant *)

(** The instructions of thread [t] sent to decode this cycle. *)
Definition sent t w : list DynInstPtr := of_thread t (fw_insts w) (toDecodeInsts (fw w)).

Record fetch_ok start w : Prop := {
  fo_path t : path (fw_front w) (start t) (sent t w ++ fetchQueue (fw w) t) (fe_pc (fw w) t);
  fo_queue t : Forall (built t (fw_insts w)) (fetchQueue (fw w) t);
  fo_sent : Forall (λ p, ∃ t, built t (fw_insts w) p) (toDecodeInsts (fw w));
  fo_old p : (∃ t, p ∈ fetchQueue (fw w) t) ∨ p ∈ toDecodeInsts (fw w) → p < fw_seqNum w;
  fo_len t : (length (fetchQueue (fw w) t) <= fetchQueueSize (fetchCfg (fw w)))%nat;
  fo_decoder t : not_ready t w;
  fo_active : NoDup (fe_activeThreads (fetchCfg (fw w)));
}.

Definition same_ident (s s' : store) : Prop := ∀ p, ident <$> s' !! p = ident <$> s !! p.

#[export] Instance same_ident_equiv : Equivalence same_ident.
Proof. split; [done|by intros s s' H p|intros s1 s2 s3 H1 H2 p; by rewrite H2]. Qed.

Lemma ident_control i j : ident i = ident j → isControl i = isControl j.
Proof. unfold ident, isControl, static. intros H. assert (staticInst i = staticInst j) as -> by congruence. done. Qed.

Lemma built_ident t (s s' : store) p : ident <$> s' !! p = ident <$> s !! p → built t s p → built t s' p.
Proof.
  intros Hs (i & Hi & H1 & H2 & H3). rewrite Hi in Hs. destruct (s' !! p) as [j|] eqn:Hj; [|done].
  apply (inj Some) in Hs. exists j. split; [done|]. pose proof (ident_control _ _ Hs) as Hc. unfold ident in Hs.
  injection Hs as -> -> _ ->. rewrite Hc. done.
Qed.

Lemma thread_ident (s s' : store) p : ident <$> s' !! p = ident <$> s !! p → threadNumber <$> s' !! p = threadNumber <$> s !! p.
Proof.
  intros Hs. destruct (s !! p), (s' !! p); try done. apply (inj Some) in Hs. unfold ident in Hs. injection Hs as _ H _ _.
  cbn. by rewrite H.
Qed.

Lemma of_thread_ident t (s s' : store) l : (∀ p, p ∈ l → ident <$> s' !! p = ident <$> s !! p) → of_thread t s' l = of_thread t s l.
Proof.
  intros Hs. unfold of_thread. induction l as [|p l IH]; [done|].
  assert (of_thread t s' l = of_thread t s l) as Hl by (apply IH; set_solver). unfold of_thread in Hl.
  pose proof (thread_ident _ _ _ (Hs p (list_elem_of_here _ _))) as Hp.
  destruct (decide (threadNumber <$> s !! p = Some t)).
  - rewrite !filter_cons_True by congruence. by rewrite Hl.
  - rewrite !filter_cons_False by congruence. done.
Qed.

(** What does not concern the queues, the PCs and the decoders. *)
Record aside w w' : Prop := {
  as_queue : fetchQueue (fw w') = fetchQueue (fw w);
  as_pc : fe_pc (fw w') = fe_pc (fw w);
  as_sent : toDecodeInsts (fw w') = toDecodeInsts (fw w);
  as_decoder : decoder (fw w') = decoder (fw w);
  as_cfg : fetchCfg (fw w') = fetchCfg (fw w);
  as_front : fw_front w' = fw_front w;
  as_seq : fw_seqNum w' = fw_seqNum w;
  as_insts : same_ident (fw_insts w) (fw_insts w');
}.

#[export] Instance aside_preorder : PreOrder aside.
Proof.
  split; [by intros w; split|]. intros w1 w2 w3 [A1 A2 A3 A4 A5 A6 A7 A8] [B1 B2 B3 B4 B5 B6 B7 B8].
  split; congruence.
Qed.

Lemma aside_ok start w w' : aside w w' → fetch_ok start w → fetch_ok start w'.
Proof.
  intros [A1 A2 A3 A4 A5 A6 A7 A8] [F1 F2 F3 F4 F5 F6 F7].
  assert (∀ t, sent t w' = sent t w) as Hs by (intros t; unfold sent; rewrite A3; apply of_thread_ident; intros; apply A8).
  split; unfold not_ready; rewrite ?A1, ?A2, ?A3, ?A4, ?A5, ?A6, ?A7; try done.
  - intros t. rewrite Hs. apply F1.
  - intros t. eapply Forall_impl; [apply F2|]. intros p. exact (built_ident _ _ _ _ (A8 p)).
  - eapply Forall_impl; [apply F3|]. intros p [t Hp]. exists t. exact (built_ident _ _ _ _ (A8 p) Hp).
Qed.

(** The thread's queue has grown along the path, and its PC is the end of it. *)
Record extended tid (ps : list DynInstPtr) w w' : Prop := {
  ex_queue : fetchQueue (fw w') tid = fetchQueue (fw w) tid ++ ps;
  ex_queues t : t ≠ tid → fetchQueue (fw w') t = fetchQueue (fw w) t;
  ex_path : path (fw_front w') (fe_pc (fw w) tid) ps (fe_pc (fw w') tid);
  ex_pcs t : t ≠ tid → fe_pc (fw w') t = fe_pc (fw w) t;
  ex_built : Forall (built tid (fw_insts w')) ps;
  ex_new : Forall (λ p, fw_seqNum w <= p < fw_seqNum w') ps;
  ex_seq : fw_seqNum w <= fw_seqNum w';
  ex_front q : q < fw_seqNum w → fw_front w' !! q = fw_front w !! q;
  ex_insts q : q < fw_seqNum w → ident <$> fw_insts w' !! q = ident <$> fw_insts w !! q;
  ex_sent : toDecodeInsts (fw w') = toDecodeInsts (fw w);
  ex_cfg : fetchCfg (fw w') = fetchCfg (fw w);
  ex_len : (length (fetchQueue (fw w') tid) <= fetchQueueSize (fetchCfg (fw w)))%nat;
  ex_decoder t : not_ready t w → not_ready t w';
}.

Lemma extended_ok start tid ps w w' : extended tid ps w w' → fetch_ok start w → fetch_ok start w'.
Proof.
  intros [X1 X2 X3 X4 X5 X6 X7 X8 X9 X10 X11 X12 X13] [F1 F2 F3 F4 F5 F6 F7]. rewrite Forall_forall in X6.
  assert (∀ t, sent t w' = sent t w) as Hs.
  { intros t. unfold sent. rewrite X10. apply of_thread_ident. intros p Hp. apply X9, F4. by right. }
  assert (∀ t l, l ⊆ sent t w ++ fetchQueue (fw w) t → ∀ p, p ∈ l → fw_front w' !! p = fw_front w !! p) as Hold.
  { intros t l Hl p Hp. apply X8, F4. apply Hl, elem_of_app in Hp as [Hp|Hp]; [right|left; by exists t].
    by apply of_thread_subset in Hp. }
  split.
  - intros t. rewrite Hs. destruct (decide (t = tid)) as [->|Ht].
    + rewrite X1, (assoc_L (++)). eapply path_app; [|exact X3]. eapply path_frame; [|apply F1]. by apply (Hold tid).
    + rewrite X2, X4 by done. eapply path_frame; [|apply F1]. by apply (Hold t).
  - intros t. assert (Forall (built t (fw_insts w')) (fetchQueue (fw w) t)) as H.
    { rewrite Forall_forall. intros p Hp. eapply built_ident; [apply X9, F4; left; by exists t|].
      by eapply Forall_forall in F2. }
    destruct (decide (t = tid)) as [->|Ht]; [rewrite X1; by apply Forall_app|by rewrite X2].
  - rewrite X10, Forall_forall in *. intros p Hp. destruct (F3 p Hp) as [t Hb]. exists t.
    eapply built_ident; [apply X9, F4; by right|done].
  - intros p [[t Hp]|Hp].
    + destruct (decide (t = tid)) as [->|Ht]; [rewrite X1 in Hp; apply elem_of_app in Hp as [Hp|Hp]|rewrite X2 in Hp by done].
      * eapply Z.lt_le_trans; [apply F4; left; by exists tid|done].
      * by apply X6.
      * eapply Z.lt_le_trans; [apply F4; left; by exists t|done].
    + rewrite X10 in Hp. eapply Z.lt_le_trans; [apply F4; by right|done].
  - intros t. rewrite X11. destruct (decide (t = tid)) as [->|Ht]; [done|by rewrite X2].
  - intros t. apply X13, F6.
  - by rewrite X11.
Qed.

Lemma fetch_ok_start start start' w : (∀ t, start' t = start t) → fetch_ok start w → fetch_ok start' w.
Proof. intros Hs [F1 F2 F3 F4 F5 F6 F7]. split; try done. intros t. by rewrite Hs. Qed.

(** ** Redirects *)

Lemma setSquashed_ident i : ident (setSquashed i) = ident i.
Proof.
  pose proof (setSquashed_view i) as H. unfold view in H. unfold ident. congruence.
Qed.

Lemma modify_ident f p s s' : (∀ i, ident (f i) = ident i) → modify f p s = Ok s' → same_ident s s'.
Proof.
  intros Hf. unfold modify, modifyM, deref. destruct (s !! p) as [i|] eqn:Hi; [|done]. intros [= <-] q.
  destruct (decide (q = p)) as [->|Hq]; [rewrite lookup_insert_eq, Hi; cbn; by rewrite Hf|by rewrite lookup_insert_ne].
Qed.

Lemma squashInstIt_ident p tid cs cs' : squashInstIt p tid cs = Ok cs' → same_ident (snd cs) (snd cs').
Proof.
  destruct cs as [c s]. unfold squashInstIt. intros H. inv_ok1 H. destruct (_ =? _)%nat; [|by injection H as <-].
  inv_ok1 H. injection H as <-. eapply modify_ident; [|done]. apply setSquashed_ident.
Qed.

Lemma removeInstsUntil_ident sn tid cs cs' : removeInstsUntil sn tid cs = Ok cs' → same_ident (snd cs) (snd cs').
Proof.
  destruct cs as [c s]. unfold removeInstsUntil. intros H. inv_ok1 H. clear E0. revert H.
  change (snd (c, s)) with (snd (removing c, s)). generalize (removing c, s).
  induction (reverse (cpu_instList c)) as [|p l IH]; intros cs H; cbn in H; [by injection H as <-|].
  inv_ok1 H. destruct (_ <? _); [|by injection H as <-]. inv_ok1 H.
  etrans; [by eapply squashInstIt_ident|by apply IH].
Qed.

Lemma removeInstsNotInROB_ident tid rob cs cs' : removeInstsNotInROB tid rob cs = Ok cs' → same_ident (snd cs) (snd cs').
Proof.
  destruct cs as [c s]. unfold removeInstsNotInROB. intros H. destruct (bool_decide _); [by injection H as <-|].
  inv_ok1 H. clear E0. revert H. change (snd (c, s)) with (snd (removing c, s)). generalize (removing c, s).
  induction (reverse (cpu_instList c)) as [|p l IH]; intros cs H; cbn in H.
  { destruct a; [done|by injection H as <-]. }
  destruct (bool_decide _); [by injection H as <-|]. inv_ok1 H.
  etrans; [by eapply squashInstIt_ident|by apply IH].
Qed.

Lemma aside_cpu w cs : same_ident (fw_insts w) (snd cs) → aside w (fw_set_cpu cs w).
Proof. intros H. by split. Qed.

(** The status of the other threads and the configuration. *)
Definition others tid w w' : Prop :=
  (∀ t, t ≠ tid → fetchStatus (fw w') t = fetchStatus (fw w) t) ∧ fetchCfg (fw w') = fetchCfg (fw w).

Lemma others_trans tid w1 w2 w3 : others tid w1 w2 → others tid w2 w3 → others tid w1 w3.
Proof. intros [A1 A2] [B1 B2]. split; [intros t Ht; by rewrite B1, A1|congruence]. Qed.
Lemma others_refl tid w : others tid w w.
Proof. done. Qed.

Lemma doSquash_ok start newPC sq tid w w' :
  fe_doSquash newPC sq tid w = Ok w' → fetch_ok start w → toDecodeInsts (fw w) = [] →
  fetch_ok (<[tid := newPC]> start) w' ∧ toDecodeInsts (fw w') = [] ∧ others tid w w' ∧
  fw_cpu w' = fw_cpu w ∧ fw_insts w' = fw_insts w ∧ fw_rob w' = fw_rob w ∧ fetchStatus (fw w') tid = FSquashing.
Proof.
  unfold fe_doSquash. intros H [F1 F2 F3 F4 F5 F6 F7] Hs. inv_ok1 H. inv_ok1 H. rename a0 into x. injection H as <-.
  set (x0 := set_decoder _ _) in E1.
  assert (fetchQueue x = fetchQueue (fw w) ∧ fe_pc x = <[tid := newPC]> (fe_pc (fw w)) ∧
    decoder x = <[tid := dc_reset (decoder (fw w) tid)]> (decoder (fw w)) ∧ toDecodeInsts x = [] ∧
    fetchCfg x = fetchCfg (fw w) ∧ fetchStatus x = fetchStatus (fw w)) as (H1 & H2 & H3 & H4 & H5 & H6).
  { clear E0. subst x0. destruct (isWaiting _ _), (bool_decide _); inv_ok E1; by cbn. }
  split; [|split_and!; try done; [split; [|done]; intros t Ht; cbn; by rewrite fn_lookup_insert_ne, H6|cbn; by rewrite fn_lookup_insert]].
  assert (∀ t, fetchQueue (fw (fw_set (set_delayedCommit (<[tid:=true]> (delayedCommit x))
               (set_fetchQueue (<[tid:=[]]> (fetchQueue x)) (fe_setStatus tid FSquashing x))) w)) t
           = if decide (t = tid) then [] else fetchQueue (fw w) t) as Hq.
  { intros t. cbn. rewrite H1. destruct (decide (t = tid)) as [->|]; [by rewrite fn_lookup_insert|by rewrite fn_lookup_insert_ne]. }
  unfold sent in F1. rewrite Hs in F1. cbn in F1.
  split; unfold not_ready, sent; cbn [fw_set fw fw_front fw_insts fe_pc toDecodeInsts set_delayedCommit set_fetchQueue fe_setStatus set_fetchStatus decoder fetchCfg];
    rewrite ?H2, ?H3, ?H4, ?H5.
  - intros t. cbn [of_thread app]. unfold of_thread. cbn. rewrite H1. destruct (decide (t = tid)) as [->|Ht].
    + rewrite !fn_lookup_insert. constructor.
    + rewrite !fn_lookup_insert_ne by done. apply F1.
  - intros t. rewrite Hq. destruct (decide _); [constructor|apply F2].
  - constructor.
  - intros p [[t Hp]|Hp]; [|by apply elem_of_nil in Hp]. rewrite Hq in Hp.
    destruct (decide _); [by apply elem_of_nil in Hp|]. apply F4. left. by exists t.
  - intros t. rewrite Hq. destruct (decide _); [cbn; lia|apply F5].
  - intros t. destruct (decide (t = tid)) as [->|Ht]; [rewrite fn_lookup_insert; apply dc_reset_ready, F6|].
    rewrite fn_lookup_insert_ne by done. apply F6.
  - exact F7.
Qed.

(** Where thread [t] is redirected to by the signals of this cycle. *)
Definition redirected (inp : FetchInputs (PC := PC)) x (t : ThreadID) : option PC :=
  let c := fi_commit inp t in
  if fc_squash c then Some (fc_pc c)
  else
    let d := fi_decodeInfo inp t in
    if di_squash d && negb (fe_statusIs x t FSquashing) then Some (di_nextPC d) else None.

Lemma readStall_aside inp tid w x :
  fe_readStall inp tid (fw w) = Ok x → aside w (fw_set x w) ∧ fetchStatus x = fetchStatus (fw w).
Proof.
  unfold fe_readStall. intros H. destruct (fi_decodeBlock inp tid), (fi_decodeUnblock inp tid); inv_ok H; by split.
Qed.

Lemma aside_bp u w : aside w (fw_set_bp u w).
Proof. by split. Qed.
Lemma aside_on f w :
  fetchQueue (f (fw w)) = fetchQueue (fw w) → fe_pc (f (fw w)) = fe_pc (fw w) →
  toDecodeInsts (f (fw w)) = toDecodeInsts (fw w) → decoder (f (fw w)) = decoder (fw w) →
  fetchCfg (f (fw w)) = fetchCfg (fw w) → aside w (fw_on f w).
Proof. by split. Qed.

Lemma squashWith_ok start newPC sq tid w w1 w2 cs :
  fe_doSquash newPC sq tid w = Ok w1 → same_ident (fw_insts w1) (snd cs) → w2 = fw_set_cpu cs w1 →
  fetch_ok start w → toDecodeInsts (fw w) = [] →
  fetch_ok (<[tid := newPC]> start) w2 ∧ toDecodeInsts (fw w2) = [] ∧ others tid w w2.
Proof.
  intros Hd Hi -> Hok Hs. destruct (doSquash_ok _ _ _ _ _ _ Hd Hok Hs) as (Hok1 & Hs1 & Ho & _).
  split; [|done]. eapply aside_ok; [|done]. by apply aside_cpu.
Qed.

Lemma checkBlocked_aside tid w b w' :
  checkBlocked tid w = Ok (b, w') → aside w w' ∧ others tid w w' ∧ toDecodeInsts (fw w') = toDecodeInsts (fw w).
Proof.
  unfold checkBlocked. intros H. inv_ok1 H.
  destruct (_ && _); [|destruct (_ || _)]; injection H as _ <-;
    (split; [first [by apply aside_on|reflexivity]|]); (split; [|done]); (split; [|done]); intros t Ht; try done;
    cbn; by rewrite fn_lookup_insert_ne.
Qed.

Lemma fn_insert_same {A} (f : ThreadID → A) t u : <[t := f t]> f u = f u.
Proof. destruct (decide (u = t)) as [->|]; [by rewrite fn_lookup_insert|by rewrite fn_lookup_insert_ne]. Qed.

Lemma predictorOfDecode_aside d tid w w' :
  predictorOfDecode d tid w = Ok w' → aside w w' ∧ fw w' = fw w.
Proof. unfold predictorOfDecode. intros H. inv_ok1 H. injection H as <-. split; [apply aside_bp|done]. Qed.

Lemma handleCommitSquash_ok start c tid w w' :
  handleCommitSquash c tid w = Ok w' → fetch_ok start w → toDecodeInsts (fw w) = [] →
  fetch_ok (<[tid := fc_pc c]> start) w' ∧ toDecodeInsts (fw w') = [] ∧ others tid w w'.
Proof.
  unfold handleCommitSquash, fe_squash. intros H Hok Hs. inv_ok1 H. clear E0. inv_ok1 H. rename a0 into w2.
  inv_ok1 E0. rename a0 into w1. inv_ok1 E0. injection E0 as <-. inv_ok1 H. inv_ok1 H. injection H as <-.
  apply removeInstsNotInROB_ident in E2.
  destruct (squashWith_ok _ _ _ _ _ _ _ _ E1 E2 eq_refl Hok Hs) as (H1 & H2 & H3). split; [|done].
  eapply aside_ok; [apply aside_bp|done].
Qed.

Lemma checkSignals_ok start inp tid w b w' :
  fe_checkSignalsAndUpdate inp tid w = Ok (b, w') → fetch_ok start w → toDecodeInsts (fw w) = [] →
  fetch_ok (<[tid := default (start tid) (redirected inp (fw w) tid)]> start) w' ∧
  toDecodeInsts (fw w') = [] ∧ others tid w w'.
Proof.
  unfold fe_checkSignalsAndUpdate, redirected. intros H Hok Hs. inv_ok1 H. rename a into x.
  apply readStall_aside in E0 as [Ha Hst]. apply (aside_ok start) in Ha as Hok1; [|done].
  assert (toDecodeInsts (fw (fw_set x w)) = []) as Hs1 by (by rewrite (as_sent _ _ Ha)).
  assert (∀ w2, others tid (fw_set x w) w2 → others tid w w2) as Ho.
  { intros w2. apply others_trans. split; [intros t Ht; cbn; by rewrite Hst|apply Ha]. }
  set (w1 := fw_set x w) in *. assert (∀ st, fe_statusIs (fw w) tid st = fe_statusIs (fw w1) tid st) as Hst'.
  { intros st. unfold fe_statusIs. cbn. by rewrite Hst. }
  rewrite Hst'. clearbody w1. destruct (fc_squash (fi_commit inp tid)).
  { inv_ok1 H. injection H as _ <-. apply (handleCommitSquash_ok start) in E0 as (H1 & H2 & H3); auto. }
  inv_ok1 H. rename a into w2. assert (aside w1 w2 ∧ fw w2 = fw w1) as [Ha2 Hfw2].
  { destruct (_ =? _); [by injection E0 as <-|]. inv_ok1 E0. injection E0 as <-. split; [apply aside_bp|done]. }
  apply (aside_ok start) in Ha2 as Hok2; [|done].
  assert (∀ w3, aside w2 w3 → checkBlocked tid w3 = Ok (b, w') → fw w3 = fw w2 →
    fetch_ok start w' ∧ toDecodeInsts (fw w') = [] ∧ others tid w w') as Hrest.
  { intros w3 Ha3 Hb Hfw3. apply checkBlocked_aside in Hb as (Ha4 & Ho4 & Hs4).
    split; [by apply (aside_ok _ _ _ Ha4), (aside_ok _ _ _ Ha3)|]. split; [by rewrite Hs4, Hfw3, Hfw2|]. apply Ho.
    eapply others_trans; [|exact Ho4]. split; intros; by rewrite Hfw3, Hfw2. }
  assert (∀ w3 s3, fetch_ok s3 w3 ∧ s3 = start → fetch_ok (<[tid := default (start tid) None]> start) w3) as Hsame.
  { intros w3 s3 [H3 ->]. eapply fetch_ok_start; [|done]. intros t. cbn. apply fn_insert_same. }
  destruct (di_squash _); cbn [andb].
  - inv_ok1 H. rename a into w3. apply predictorOfDecode_aside in E1 as [Ha3 Hfw3]. rewrite <- Hfw2, <- Hfw3.
    destruct (negb _).
    + unfold squashFromDecode in H. inv_ok1 H. injection H as _ <-. inv_ok1 E1. inv_ok1 E1. injection E1 as <-.
      apply removeInstsUntil_ident in E3. apply (aside_ok start) in Ha3; [|done].
      destruct (squashWith_ok start _ _ _ _ _ _ _ E2 E3 eq_refl Ha3) as (H1 & H2 & H3); [by rewrite Hfw3, Hfw2|].
      split; [done|]. split; [done|]. apply Ho. eapply others_trans; [|exact H3]. split; intros; by rewrite Hfw3, Hfw2.
    + destruct (Hrest w3) as (H1 & H2); [done..|]. split; [|done]. by eapply Hsame.
  - destruct (Hrest w2) as (H1 & H2); [reflexivity|done..|]. split; [|done]. by eapply Hsame.
Qed.

Definition startOf (inp : FetchInputs (PC := PC)) x start (l : list ThreadID) t : PC :=
  if bool_decide (t ∈ l) then default (start t) (redirected inp x t) else start t.

Lemma checkThreads_ok inp l : ∀ start b w b' w',
  NoDup l → foldM (fe_checkThread inp) l (b, w) = Ok (b', w') → fetch_ok start w → toDecodeInsts (fw w) = [] →
  fetch_ok (startOf inp (fw w) start l) w' ∧ toDecodeInsts (fw w') = [] ∧ fetchCfg (fw w') = fetchCfg (fw w).
Proof.
  induction l as [|tid l IH]; intros start b w b' w' Hnd H Hok Hs; cbn [foldM] in H.
  { injection H as _ <-. split; [|done]. by eapply fetch_ok_start; [|done]. }
  apply NoDup_cons in Hnd as [Hnot Hnd]. inv_ok1 H. destruct a as [b1 w1]. unfold fe_checkThread in E0.
  inv_ok1 E0. destruct a as [u w2]. injection E0 as <- <-. cbn [snd] in E1.
  apply (checkSignals_ok start) in E1 as (Hok1 & Hs1 & [Hst Hc]); [|done..].
  apply (IH _ _ _ _ _ Hnd H) in Hok1 as (Hok2 & Hs2 & Hc2); [|done].
  split; [|split; [done|congruence]]. eapply fetch_ok_start; [|done]. intros t. unfold startOf.
  destruct (decide (t = tid)) as [->|Ht].
  - rewrite bool_decide_eq_true_2, bool_decide_eq_false_2 by set_solver. by rewrite fn_lookup_insert.
  - rewrite fn_lookup_insert_ne by done. rewrite (bool_decide_ext (t ∈ tid :: l) (t ∈ l)) by set_solver.
    case_bool_decide; [|done]. unfold redirected, fe_statusIs. by rewrite Hst.
Qed.

(** ** Fetching *)

Lemma fetchInsts_extended start tid c w c' w' :
  fetchInsts tid c w = Ok (c', w') → fetch_ok start w → ∃ ps, extended tid ps w w'.
Proof.
  unfold fetchInsts. intros H Hok. inv_ok1 H. destruct a as [l w1]. injection H as _ <-.
  apply fetchOuter_grown in E0 as (ps & Hg & Hn); [|apply Hok]. cbn [fst snd] in Hg, Hn.
  destruct Hg as [G1 G1' G2 G3 G4 G5 G6 G7 G8 G9 G10 G11 G12 G12' G13 G14 G15 G16 G17 G18 G19 G20]. exists ps.
  set (x := fw w1) in *.
  assert (fetchQueue (endFetch tid l x) = fetchQueue x ∧ fe_pc (endFetch tid l x) = <[tid := fl_thisPC l]> (fe_pc x) ∧
    toDecodeInsts (endFetch tid l x) = toDecodeInsts x ∧ decoder (endFetch tid l x) = decoder x ∧
    fetchCfg (endFetch tid l x) = fetchCfg x) as (H1 & H2 & H3 & H4 & H5).
  { unfold endFetch. split_and!; cbn; by destruct (0 <? numInst x). }
  split; unfold not_ready; cbn [fw_on fw_set fw fw_front fw_insts fw_seqNum]; fold x; rewrite ?H1, ?H2, ?H3, ?H4, ?H5; try done.
  - by rewrite fn_lookup_insert.
  - intros t Ht. by rewrite fn_lookup_insert_ne, G14.
  - rewrite G4, Forall_forall. intros p Hp%elem_of_seqZ. lia.
  - lia.
  - intros q Hq. by rewrite G8.
  - apply G20, Hok.
  - intros t Ht. destruct (decide (t = tid)) as [->|Hne]; [done|]. by rewrite G11.
Qed.

Lemma fetchFault_extended start tid flt w w' :
  fetchFault tid flt w = Ok w' → fetch_ok start w → ∃ ps, extended tid ps w w'.
Proof.
  unfold fetchFault. intros H Hok. inv_ok1 H. destruct a as [p w1]. apply buildInst_spec in E0 as (-> & _ & Hlen & ->).
  unfold modify, modifyM, deref in H. cbn [withInst fw_insts fw_on fw_set fw_seqNum clearMemReq set_memReq fw] in H, Hlen.
  rewrite lookup_insert_eq in H. unfold fe_setPredTarg, derefFront in H.
  cbn [withInst fw_front fw_set_insts fw_on fw_set fw_seqNum clearMemReq set_memReq fw] in H. rewrite lookup_insert_eq in H.
  inv_ok1 H. rename a into act. injection H as <-. exists [fw_seqNum w : DynInstPtr].
  split; try done; cbn [withInst fw_front fw_insts fw_seqNum fw_set_insts fw_set_front fw_set_activity fw_on fw_set fw].
  - cbn. by rewrite fn_lookup_insert.
  - intros t Ht. cbn. by rewrite fn_lookup_insert_ne.
  - cbn. eapply path_cons; [apply lookup_insert_eq|done|constructor].
  - constructor; [|done]. eexists. split; [apply lookup_insert_eq|]. done.
  - constructor; [|done]. cbn. lia.
  - cbn. lia.
  - intros q Hq. rewrite insert_insert_eq, lookup_insert_ne; [done|]. cbn. lia.
  - intros q Hq. rewrite insert_insert_eq, lookup_insert_ne; [done|]. cbn. lia.
  - cbn. rewrite fn_lookup_insert, length_app. cbn. cbn in Hlen. lia.
Qed.

(** The invariant goes on to hold with the same starts. *)
Definition kept w w' : Prop := ∀ start, fetch_ok start w → fetch_ok start w'.
#[export] Instance kept_preorder : PreOrder kept.
Proof. split; [by intros w start|intros w1 w2 w3 H1 H2 start H; auto]. Qed.

Lemma aside_kept w w' : aside w w' → kept w w'.
Proof. intros H start. by apply aside_ok. Qed.
Lemma kept_on f w :
  fetchQueue (f (fw w)) = fetchQueue (fw w) → fe_pc (f (fw w)) = fe_pc (fw w) →
  toDecodeInsts (f (fw w)) = toDecodeInsts (fw w) → decoder (f (fw w)) = decoder (fw w) →
  fetchCfg (f (fw w)) = fetchCfg (fw w) → kept w (fw_on f w).
Proof. intros. by apply aside_kept, aside_on. Qed.
Lemma kept_env e w : kept w (fw_set_env e w).
Proof. by apply aside_kept. Qed.
Lemma kept_activity a w : kept w (fw_set_activity a w).
Proof. by apply aside_kept. Qed.

Lemma switchToActive_kept w w' : switchToActive w = Ok w' → kept w w'.
Proof.
  unfold switchToActive. intros H. destruct (fe_active _); [by injection H as <-|]. inv_ok1 H. injection H as <-.
  etrans; [|apply kept_activity]. by apply kept_on.
Qed.
Lemma switchToInactive_kept w w' : switchToInactive w = Ok w' → kept w w'.
Proof.
  unfold switchToInactive. intros H. destruct (fe_active _); [|by injection H as <-]. inv_ok1 H. injection H as <-.
  etrans; [|apply kept_activity]. by apply kept_on.
Qed.
Lemma updateFetchStatus_kept w w' : updateFetchStatus w = Ok w' → kept w w'.
Proof.
  unfold updateFetchStatus. destruct (existsb _ _); [apply switchToActive_kept|apply switchToInactive_kept].
Qed.

Lemma readIcache_kept tid r w w' : readIcache tid r w = Ok w' → kept w w'.
Proof.
  unfold readIcache. intros H. destruct (fe_sendTimingReq r (fw_env w)) as [sent e].
  destruct sent; [injection H as <-|inv_ok1 H; inv_ok1 H; injection H as <-]; by apply aside_kept.
Qed.

Lemma fetchFault_kept tid flt w w' : fetchFault tid flt w = Ok w' → kept w w'.
Proof. intros H start Hok. destruct (fetchFault_extended start _ _ _ _ H Hok) as [ps Hx]. by eapply extended_ok. Qed.

Lemma finishTranslation_kept flt r w w' : fe_finishTranslation flt r w = Ok w' → kept w w'.
Proof.
  unfold fe_finishTranslation. intros H. inv_ok1 H. etrans; [apply (kept_env (fe_wakeCPU (fw_env w)))|].
  revert H. generalize (fw_set_env (fe_wakeCPU (fw_env w)) w). intros w1 H.
  destruct (negb _ || negb _); [by injection H as <-|]. destruct flt as [f|].
  - destruct (_ || _).
    + inv_ok1 H. injection H as <-. by apply kept_on.
    + inv_ok1 H. etrans; [by eapply fetchFault_kept|by apply updateFetchStatus_kept].
  - destruct (fe_isMemAddr _ _); cbn [negb] in H; [|injection H as <-; by apply kept_on]. inv_ok1 H.
    etrans; [by eapply readIcache_kept|by apply updateFetchStatus_kept].
Qed.

Lemma processFinishTranslation_kept w w' : processFinishTranslation w = Ok w' → kept w w'.
Proof.
  unfold processFinishTranslation. intros H. destruct (finishTranslationEvent _) as [[f r]|]; [|by injection H as <-].
  inv_ok1 H. etrans; [|by eapply finishTranslation_kept]. by apply kept_on.
Qed.

Lemma fetchCacheLine_kept vaddr tid pc w w' : fetchCacheLine vaddr tid pc w = Ok w' → kept w w'.
Proof.
  unfold fetchCacheLine. intros H. inv_ok1 H. destruct (cacheBlocked _); [by injection H as <-|].
  destruct (_ && _); [by injection H as <-|]. destruct (fe_translate _ _) as [answer e]. destruct answer as [[flt pa]|].
  - etrans; [|by eapply finishTranslation_kept]. by apply aside_kept.
  - injection H as <-. by apply aside_kept.
Qed.

Lemma processCacheCompletion_kept r bytes w w' : processCacheCompletion r bytes w = Ok w' → kept w w'.
Proof.
  unfold processCacheCompletion. intros H. inv_ok1 H. destruct (_ || _); [by injection H as <-|].
  inv_ok1 H. inv_ok1 H. injection H as <-. apply switchToActive_kept in E1.
  etrans; [|by apply kept_on]. etrans; [|exact E1]. by apply aside_kept.
Qed.

Lemma recvReqRetry_kept w w' : fe_recvReqRetry w = Ok w' → kept w w'.
Proof.
  unfold fe_recvReqRetry. intros H. destruct (retryPkt _); [|inv_ok1 H; injection H as <-; by apply kept_on].
  inv_ok1 H. destruct (retryTid _); [|done]. inv_ok1 H. destruct (fe_sendTimingReq _ _) as [[] e]; injection H as <-; by apply aside_kept.
Qed.

Lemma pipelineIcacheAccesses_kept w tid w' : pipelineIcacheAccesses w tid = Ok w' → kept w w'.
Proof.
  unfold pipelineIcacheAccesses. intros H. destruct (negb _); [by injection H as <-|].
  destruct (isRomMicroPC _); [by injection H as <-|]. destruct (negb _); [|by injection H as <-].
  by eapply fetchCacheLine_kept.
Qed.

Lemma fetchInsts_kept tid c w c' w' : fetchInsts tid c w = Ok (c', w') → kept w w'.
Proof. intros H start Hok. destruct (fetchInsts_extended start _ _ _ _ _ H Hok) as [ps Hx]. by eapply extended_ok. Qed.

Lemma fetchThread_kept tid c w c' w' : fetchThread tid c w = Ok (c', w') → kept w w'.
Proof.
  unfold fetchThread. intros H. destruct (fe_statusIs _ _ _).
  { etrans; [|by eapply fetchInsts_kept]. by apply kept_on. }
  destruct (fe_statusIs _ _ _); [|by injection H as _ <-]. destruct (negb _).
  { inv_ok1 H. injection H as _ <-. by eapply fetchCacheLine_kept. }
  destruct (_ && _); [by injection H as _ <-|]. by eapply fetchInsts_kept.
Qed.

Lemma getFetchingThread_aside inp w t x : getFetchingThread inp (fw w) = Ok (t, x) → aside w (fw_set x w).
Proof.
  unfold getFetchingThread, fe_roundRobin. intros H. destruct (_ <? _)%nat.
  - destruct (fetchPolicy _); try (by injection H as _ <-); [|done]. inv_ok1 H. destruct a as [[? ?]|]; by injection H as _ <-.
  - destruct (fe_activeThreads _); by injection H as _ <-.
Qed.

Lemma fetchThreads_kept inp n : ∀ c w c' w', fetchThreads inp n c w = Ok (c', w') → kept w w'.
Proof.
  induction n as [|n IH]; intros c w c' w' H; cbn in H; [by injection H as _ <-|].
  inv_ok1 H. destruct a as [t x]. inv_ok1 H. apply getFetchingThread_aside in E0.
  etrans; [by apply aside_kept|]. destruct t as [tid|]; [|by injection H as _ <-].
  inv_ok1 H. destruct a as [c1 w1]. etrans; [by eapply fetchThread_kept|by eapply IH].
Qed.

(** ** Sending *)

Lemma of_thread_one t tid s p : built tid s p → of_thread t s [p] = if decide (t = tid) then [p] else [].
Proof.
  intros (i & Hi & _ & Ht & _). unfold of_thread, filter. cbn. rewrite Hi. cbn.
  destruct (decide (t = tid)) as [->|Hne]; [by rewrite decide_True by congruence|rewrite decide_False by congruence; done].
Qed.

Lemma send_kept tid w : fetchQueue (fw w) tid ≠ [] → kept w (fw_on (sendToDecode tid) w).
Proof.
  intros Hne start [F1 F2 F3 F4 F5 F6 F7]. destruct (fetchQueue (fw w) tid) as [|p q] eqn:Hq; [done|].
  assert (built tid (fw_insts w) p) as Hb by (specialize (F2 tid); rewrite Hq in F2; by inversion F2).
  assert (∀ t, fetchQueue (sendToDecode tid (fw w)) t = if decide (t = tid) then q else fetchQueue (fw w) t) as Hq'.
  { intros t. cbn. rewrite Hq. destruct (decide _) as [->|]; [by rewrite fn_lookup_insert|by rewrite fn_lookup_insert_ne]. }
  assert (toDecodeInsts (sendToDecode tid (fw w)) = toDecodeInsts (fw w) ++ [p]) as Hs by (cbn; by rewrite Hq).
  split; unfold sent, not_ready; cbn [fw_on fw_set fw fw_front fw_insts fw_seqNum]; rewrite ?Hs; try done.
  - intros t. rewrite Hq'. unfold of_thread at 1. rewrite filter_app. change (filter _ [p]) with (of_thread t (fw_insts w) [p]).
    rewrite (of_thread_one _ _ _ _ Hb), <- (assoc_L (++)). specialize (F1 t). unfold sent in F1.
    destruct (decide (t = tid)) as [->|]; [by rewrite Hq in F1|done].
  - intros t. rewrite Hq'. destruct (decide _) as [->|]; [|apply F2]. specialize (F2 tid). rewrite Hq in F2. by inversion F2.
  - apply Forall_app. split; [done|]. constructor; [by exists tid|done].
  - intros r [[t Hr]|Hr].
    + rewrite Hq' in Hr. apply F4. left. destruct (decide _) as [->|]; [exists tid; rewrite Hq; set_solver|by exists t].
    + apply elem_of_app in Hr as [Hr|Hr%list_elem_of_singleton]; [apply F4; by right|].
      apply F4. left. exists tid. rewrite Hq. set_solver.
  - intros t. rewrite Hq'. specialize (F5 t). destruct (decide _) as [->|]; [rewrite Hq in F5; cbn in *; lia|done].
Qed.

(** One instruction of a thread decode takes instructions of. *)
Definition sendable x tid : bool := negb (decodeStall x tid) && negb (bool_decide (fetchQueue x tid = [])).
Definition send_step x x' : Prop :=
  ∃ tid, tid ∈ fe_activeThreads (fetchCfg x) ∧ sendable x tid = true ∧ x' = sendToDecode tid x.

Lemma sendable_ne x tid : sendable x tid = true → fetchQueue x tid ≠ [].
Proof. unfold sendable. intros [_ H%negb_true_iff]%andb_true_iff. by apply bool_decide_eq_false in H. Qed.

Lemma sends_kept n x x' w : nsteps send_step n x x' → kept (fw_set x w) (fw_set x' w).
Proof.
  induction 1 as [x|n x y z (tid & _ & Hs & ->) _ IH]; [done|]. etrans; [|exact IH].
  apply (send_kept tid (fw_set x w)), sendable_ne, Hs.
Qed.

Lemma sendToDecode_same tid x :
  fetchCfg (sendToDecode tid x) = fetchCfg x ∧ decodeStall (sendToDecode tid x) = decodeStall x.
Proof. done. Qed.

Lemma available_send tid x :
  NoDup (fe_activeThreads (fetchCfg x)) → tid ∈ fe_activeThreads (fetchCfg x) → sendable x tid = true →
  availableInsts x = S (availableInsts (sendToDecode tid x)).
Proof.
  intros Hnd Hin Hs. pose proof (sendable_ne _ _ Hs) as Hne. unfold sendable in Hs. apply andb_true_iff in Hs as [Hst%negb_true_iff _].
  unfold availableInsts. change (fetchCfg (sendToDecode tid x)) with (fetchCfg x).
  change (decodeStall (sendToDecode tid x)) with (decodeStall x).
  induction Hnd as [|t l Hnot Hnd IH]; [by apply elem_of_nil in Hin|]. cbn [sum_list_with].
  destruct (decide (t = tid)) as [->|Ht].
  - rewrite Hst. cbn [sendToDecode set_fetchQueue fetchQueue]. rewrite fn_lookup_insert.
    destruct (fetchQueue x tid) as [|p q] eqn:Hq; [done|]. cbn [length tail Nat.add]. do 2 f_equal.
    clear IH Hin. induction l as [|u l IHl]; [done|]. cbn [sum_list_with].
    apply NoDup_cons in Hnd as [_ Hnd]. rewrite IHl by set_solver. cbn. rewrite fn_lookup_insert_ne by set_solver. done.
  - rewrite IH by set_solver. cbn [sendToDecode set_fetchQueue fetchQueue]. rewrite fn_lookup_insert_ne by done. lia.
Qed.

Lemma available_ready x : availableInsts x ≠ 0%nat → ∃ tid, tid ∈ fe_activeThreads (fetchCfg x) ∧ sendable x tid = true.
Proof.
  unfold availableInsts, sendable. induction (fe_activeThreads (fetchCfg x)) as [|t l IH]; cbn; [done|]. intros Hne.
  destruct (decodeStall x t) eqn:Hst; cbn in Hne.
  { destruct IH as (tid & ? & ?); [done|]. exists tid. split; [set_solver|done]. }
  destruct (fetchQueue x t) as [|p q] eqn:Hq; cbn in Hne.
  { destruct IH as (tid & ? & ?); [done|]. exists tid. split; [set_solver|done]. }
  exists t. split; [set_solver|]. by rewrite Hst, Hq.
Qed.

(** The iterator's next position. *)
Lemma next_visit (active pre itr : list ThreadID) tid :
  pre ++ tid :: itr = active → ∃ pre' itr',
  (match itr with [] => active | _ => itr end) = itr' ∧ pre' ++ itr' = active ∧ itr' ≠ [] ∧
  ∀ k t, (itr ++ pre) !! k = Some t → (itr' ++ pre') !! k = Some t.
Proof.
  intros <-. destruct itr as [|u itr].
  - exists [], (pre ++ [tid]). split_and!; [done|done|by destruct pre|]. intros k t Hk. cbn in Hk.
    rewrite app_nil_r. by apply lookup_app_l_Some.
  - exists (pre ++ [tid]), (u :: itr). split_and!; [done|by rewrite <- (assoc_L (++))|done|].
    intros k t Hk. rewrite (assoc_L (++)). by apply lookup_app_l_Some.
Qed.

(** Instructions are there, and the fuel reaches the next and all after it. *)
Definition enough (fuel : nat) (itr pre : list ThreadID) (avail : nat) x : Prop :=
  avail = 0%nat ∨ ∃ k tid, (itr ++ pre) !! k = Some tid ∧ sendable x tid = true ∧
    ((avail - 1) * length (itr ++ pre) + k < fuel)%nat.

Lemma enough_start fuel itr pre x :
  pre ++ itr = fe_activeThreads (fetchCfg x) → (availableInsts x * length (itr ++ pre) <= fuel)%nat →
  enough fuel itr pre (availableInsts x) x.
Proof.
  intros Hact Hf. destruct (decide (availableInsts x = 0%nat)) as [->|Hne]; [by left|]. right.
  destruct (available_ready _ Hne) as (tid & Hin & Hs). rewrite <- Hact in Hin.
  assert (tid ∈ itr ++ pre) as [k Hk]%list_elem_of_lookup_1 by set_solver.
  exists k, tid. split; [done|]. split; [done|]. apply lookup_lt_Some in Hk. nia.
Qed.

Lemma sendLoop_ok fuel : ∀ pre itr n avail x,
  pre ++ itr = fe_activeThreads (fetchCfg x) → itr ≠ [] → NoDup (fe_activeThreads (fetchCfg x)) →
  avail = availableInsts x → enough fuel itr pre avail x →
  ∃ x', sendLoop fuel itr n avail x = Ok x' ∧ nsteps send_step (min avail (toDecodeWidth (fetchCfg x) - n)) x x'.
Proof.
  induction fuel as [|fuel IH]; intros pre itr n avail x Hact Hne Hnd Hav Hen; cbn [sendLoop];
    (case_bool_decide as Ha; [destruct (Nat.ltb_spec n (toDecodeWidth (fetchCfg x))) as [Hn|Hn]|]); cbn [andb];
    try (exists x; split; [done|]; replace (min _ _) with 0%nat by lia; constructor).
  { destruct Hen as [?|(k & tid & _ & _ & Hf%Nat.nlt_0_r)]; done. }
  destruct Hen as [?|(k & t & Hk & Ht & Hf)]; [done|]. destruct itr as [|tid itr]; [done|].
  destruct (next_visit _ _ _ _ Hact) as (pre' & itr' & -> & Hact' & Hne' & Hnext).
  assert (length (itr' ++ pre') = length ((tid :: itr) ++ pre)) as Hlen.
  { assert (length (pre' ++ itr') = length (pre ++ tid :: itr)) as Hl by congruence.
    rewrite !length_app in *. cbn in *. lia. }
  change (negb (decodeStall x tid) && negb (bool_decide (fetchQueue x tid = []))) with (sendable x tid).
  destruct (sendable x tid) eqn:Hs.
  - assert (tid ∈ fe_activeThreads (fetchCfg x)) as Hin by (rewrite <- Hact; set_solver).
    pose proof (available_send tid x Hnd Hin Hs) as Hav'.
    assert (avail - 1 = availableInsts (sendToDecode tid x))%nat as Hav1 by lia.
    destruct (IH pre' itr' (S n) (avail - 1)%nat (sendToDecode tid x)) as (x' & Hrun & Hsteps); [done..| |].
    { rewrite Hav1. apply enough_start; [done|]. rewrite Hlen, <- Hav1. lia. }
    exists x'. split; [done|]. change (fetchCfg (sendToDecode tid x)) with (fetchCfg x) in Hsteps.
    replace (min avail _) with (S (min (avail - 1) (toDecodeWidth (fetchCfg x) - S n))) by lia.
    econstructor; [|exact Hsteps]. by exists tid.
  - destruct k as [|k]; [cbn in Hk; congruence|]. cbn in Hk.
    destruct (IH pre' itr' n avail x) as (x' & Hrun & Hsteps); [done..| |by exists x'].
    right. exists k, t. split; [by apply Hnext|]. split; [done|]. rewrite Hlen. lia.
Qed.

Lemma itr_split (active : list ThreadID) (r : Z) :
  active ≠ [] → ∃ pre itr, pre ++ itr = active ∧ itr ≠ [] ∧ drop (Z.to_nat (r mod Z.of_nat (length active))) active = itr.
Proof.
  intros Hne. set (k := Z.to_nat _). exists (take k active), (drop k active). split; [apply take_drop|]. split; [|done].
  intros Hd%(f_equal length). rewrite length_drop in Hd. cbn in Hd.
  assert (length active ≠ 0%nat) by (by destruct active).
  pose proof (Z.mod_pos_bound r (Z.of_nat (length active))). lia.
Qed.

Lemma sendInsts_steps w :
  NoDup (fe_activeThreads (fetchCfg (fw w))) →
  ∃ x' e, sendInsts w = Ok (fw_set_env e (fw_set x' w)) ∧
    nsteps send_step (min (availableInsts (fw w)) (toDecodeWidth (fetchCfg (fw w)))) (fw w) x'.
Proof.
  intros Hnd. unfold sendInsts. destruct (fe_random (fw_env w)) as [r e].
  destruct (decide (fe_activeThreads (fetchCfg (fw w)) = [])) as [Hnil|Hne].
  - assert (availableInsts (fw w) = 0%nat) as -> by (unfold availableInsts; by rewrite Hnil).
    exists (fw w), e. split; [|constructor]. by rewrite Hnil.
  - destruct (itr_split _ r Hne) as (pre & itr & Hact & Hitr & ->).
    destruct (sendLoop_ok (availableInsts (fw w) * length (fe_activeThreads (fetchCfg (fw w)))) pre itr 0
      (availableInsts (fw w)) (fw w)) as (x' & -> & Hsteps); [done..| |].
    { apply enough_start; [done|]. rewrite <- Hact, !length_app. lia. }
    exists x', e. split; [done|]. by rewrite Nat.sub_0_r in Hsteps.
Qed.

Lemma sends_spec start n x x' w :
  nsteps send_step n x x' → fetch_ok start (fw_set x w) →
  ∃ ps, toDecodeInsts x' = toDecodeInsts x ++ ps ∧ length ps = n ∧
    ∀ t, fetchQueue x t = of_thread t (fw_insts w) ps ++ fetchQueue x' t.
Proof.
  induction 1 as [x|n x y z (tid & _ & Hs & ->) _ IH]; intros Hok; [exists []; by rewrite app_nil_r|].
  pose proof (sendable_ne _ _ Hs) as Hne. pose proof (send_kept tid (fw_set x w) Hne start Hok) as Hok'.
  destruct (IH Hok') as (ps & H1 & H2 & H3). pose proof (fo_queue _ _ Hok tid) as Hb. cbn in Hb, Hne.
  destruct (fetchQueue x tid) as [|p q] eqn:Hq; [done|]. apply Forall_cons in Hb as [Hb _]. exists (p :: ps).
  split; [rewrite H1; cbn; by rewrite Hq, <- (assoc_L (++))|]. split; [cbn; lia|]. intros t.
  change (p :: ps) with ([p] ++ ps). unfold of_thread at 1. rewrite filter_app.
  change (filter _ [p]) with (of_thread t (fw_insts w) [p]). rewrite (of_thread_one _ _ _ _ Hb).
  specialize (H3 t). cbn in H3. rewrite Hq in H3. destruct (decide (t = tid)) as [->|Ht].
  - rewrite fn_lookup_insert in H3. rewrite Hq. cbn in H3 |- *. by rewrite H3.
  - by rewrite fn_lookup_insert_ne in H3.
Qed.

(** Fetch sends decode all it takes and starves no thread: at the end of a
    cycle it always comes to an end of sending, having sent the smaller of
    [decodeWidth] and the number of instructions in the queues of the threads decode
    does not stall; each thread's instructions leave from the front of its queue, in
    order, and nothing else changes but the random number drawn. *)
Theorem fetch_sends start w :
  fetch_ok start w →
  ∃ w' ps, sendInsts w = Ok w' ∧ toDecodeInsts (fw w') = toDecodeInsts (fw w) ++ ps ∧
    length ps = min (availableInsts (fw w)) (toDecodeWidth (fetchCfg (fw w))) ∧
    (∀ t, fetchQueue (fw w) t = of_thread t (fw_insts w) ps ++ fetchQueue (fw w') t) ∧
    fw_insts w' = fw_insts w ∧ fw_front w' = fw_front w ∧ fetch_ok start w'.
Proof.
  intros Hok. destruct (sendInsts_steps w (fo_active _ _ Hok)) as (x' & e & Hrun & Hsteps).
  assert (fw_set (fw w) w = w) as Hw by by destruct w.
  destruct (sends_spec start _ _ _ w Hsteps) as (ps & H1 & H2 & H3); [by rewrite Hw|].
  exists (fw_set_env e (fw_set x' w)), ps. split_and!; try done.
  apply kept_env, (sends_kept _ _ _ w Hsteps). by rewrite Hw.
Qed.

(** ** All events *)

(** What can happen to the stage: a cycle, an answer of the instruction translation
    buffer, the delayed event of a fault, a block from the instruction cache, and the
    cache accepting requests again. *)
Inductive FetchEvent : Type :=
  | EvTick (fs : bool) (inp : FetchInputs (PC := PC))
  | EvTranslated (flt : option Fault) (r : FetchReq)
  | EvFault
  | EvIcache (r : FetchReq) (bytes : list Z)
  | EvRetry.
Definition handleEvent w (e : FetchEvent) : outcome (Fet PC Macro D E P Hist) :=
  match e with
  | EvTick fs inp => fe_tick fs inp w
  | EvTranslated flt r => fe_finishTranslation flt r w
  | EvFault => processFinishTranslation w
  | EvIcache r bytes => processCacheCompletion r bytes w
  | EvRetry => fe_recvReqRetry w
  end.

(** The end of a path. *)
Definition pathEnd (front : gmap DynInstPtr (FrontInst PC Macro)) (a : PC) (l : list DynInstPtr) : PC :=
  match last l with
  | Some p => match front !! p with Some f => fi_predPC f | None => a end
  | None => a
  end.
Lemma path_end front a l b : path front a l b → b = pathEnd front a l.
Proof.
  induction 1 as [|a p f l b H1 H2 H3 IH]; [done|]. unfold pathEnd. destruct l as [|q l].
  - inversion H3; subst. cbn. by rewrite H1.
  - rewrite last_cons_cons. rewrite IH. unfold pathEnd. destruct (last (q :: l)) as [r|] eqn:Hl; [|by apply last_None in Hl].
    assert (∀ a' l' b', path front a' l' b' → ∀ r, last l' = Some r → is_Some (front !! r)) as Hin.
    { induction 1 as [|a' p' f' l' b' G1 G2 G3 IHp]; [done|]. intros r'. destruct l' as [|q' l']; [cbn; intros [= <-]; by eexists|].
      rewrite last_cons_cons. apply IHp. }
    destruct (Hin _ _ _ H3 _ Hl) as [g ->]. done.
Qed.

(** Where the instructions sent from the next cycle on start, when there is no
    redirect: behind those sent in this one. *)
Definition nextStart start w t : PC := pathEnd (fw_front w) (start t) (sent t w).
Definition startAfter (e : FetchEvent) start w : ThreadID → PC :=
  match e with
  | EvTick _ inp => startOf inp (fw w) (nextStart start w) (fe_activeThreads (fetchCfg (fw w)))
  | _ => start
  end.

Lemma startCycle_ok start w :
  fetch_ok start w → fetch_ok (nextStart start w) (fw_on fe_startCycle w).
Proof.
  intros [F1 F2 F3 F4 F5 F6 F7]. split; [|exact F2| | |exact F5|exact F6|exact F7].
  - intros t. destruct (path_split _ _ _ _ _ (F1 t)) as (b & Hb & Hr). unfold nextStart. by rewrite <- (path_end _ _ _ _ Hb).
  - cbn. constructor.
  - intros p [?|Hp]; [apply F4; by left|]. cbn in Hp. by apply elem_of_nil in Hp.
Qed.

Lemma readInterrupts_kept fs inp w : kept w (fw_on (readInterrupts fs inp) w).
Proof. apply kept_on; unfold readInterrupts; by repeat case_match. Qed.

Lemma sendLoop_kept w fuel : ∀ itr n avail x x', sendLoop fuel itr n avail x = Ok x' → kept (fw_set x w) (fw_set x' w).
Proof.
  induction fuel as [|fuel IH]; intros itr n avail x x' H; cbn [sendLoop] in H;
    (destruct (_ && (n <? _)%nat); [|by injection H as <-]); [done|]. destruct itr as [|tid itr]; [done|].
  change (negb (decodeStall x tid) && negb (bool_decide (fetchQueue x tid = []))) with (sendable x tid) in H.
  destruct (sendable x tid) eqn:Hs; [|by eapply IH]. etrans; [|by eapply IH].
  apply (send_kept tid (fw_set x w)), sendable_ne, Hs.
Qed.

Lemma sendInsts_kept w w' : sendInsts w = Ok w' → kept w w'.
Proof.
  unfold sendInsts. intros H. destruct (fe_random _) as [r e]. inv_ok1 H. injection H as <-.
  apply (sendLoop_kept w) in E0. etrans; [|apply kept_env]. by destruct w.
Qed.

Lemma foldM_kept {A} (f : Fet PC Macro D E P Hist → A → outcome (Fet PC Macro D E P Hist)) l : ∀ w w',
  (∀ w a w', f w a = Ok w' → kept w w') → foldM f l w = Ok w' → kept w w'.
Proof.
  induction l as [|a l IH]; intros w w' Hf H; cbn in H; [by injection H as <-|]. inv_ok1 H.
  etrans; [by eapply Hf|by eapply IH].
Qed.

Lemma tick_ok fs inp start w w' :
  fetch_ok start w → fe_tick fs inp w = Ok w' →
  fetch_ok (startAfter (EvTick fs inp) start w) w'.
Proof.
  intros Hok%startCycle_ok H. pose proof (fo_active _ _ Hok) as Hnd. unfold fe_tick in H. inv_ok1 H. destruct a as [c1 w1].
  apply (checkThreads_ok inp _ (nextStart start w)) in E0 as (Hok1 & _ & Hc1); [|done..].
  assert (kept w1 w') as Hk; [|by apply Hk in Hok1]. clear Hok Hok1.
  inv_ok1 H. destruct a as [c2 w2]. inv_ok1 H. rename a into w3. inv_ok1 H. rename a into w4. inv_ok1 H. rename a into w5.
  inv_ok1 H. rename a into w6. injection H as <-. etrans; [apply (readInterrupts_kept fs inp)|].
  etrans; [by eapply fetchThreads_kept|]. trans w3.
  { destruct c2; [by apply updateFetchStatus_kept|by injection E1 as <-]. }
  etrans; [eapply foldM_kept; [exact pipelineIcacheAccesses_kept|done]|]. etrans; [by eapply sendInsts_kept|].
  etrans; [|by apply kept_on]. destruct (fe_wroteToTimeBuffer _); [|by injection E4 as <-].
  inv_ok1 E4. injection E4 as <-. apply kept_activity.
Qed.

(** C29: Fetch follows its predictions.  Whatever happens to the stage, for every
    thread the instructions sent to decode in this cycle and then those in the queue
    are a path: each is at the place predicted after the one before it, the last
    one predicts the thread's PC, and the first is at the place predicted after the last one
    sent before, or at the target of the redirect by which commit or decode restarted
    the thread in this cycle.  They have the numbers they were made with, belong to the
    thread, and only branches among them are predicted taken; no queue is longer than
    [fetchQueueSize]; and no decoder keeps an instruction from cycle to cycle. *)
Theorem fetch_follows_predictions start w e w' :
  fetch_ok start w → handleEvent w e = Ok w' →
  fetch_ok (startAfter e start w) w'.
Proof.
  intros Hok H. destruct e as [fs inp|flt r| |r bytes|]; cbn [handleEvent] in H.
  - by apply tick_ok.
  - by apply (finishTranslation_kept _ _ _ _ H).
  - by apply (processFinishTranslation_kept _ _ H).
  - by apply (processCacheCompletion_kept _ _ _ _ H).
  - by apply (recvReqRetry_kept _ _ H).
Qed.
End fetch.

Module FetchStart.
Import FetchExample.
Definition start (t : ThreadID) : PCState := x_set 0.
Lemma world_ok : fetch_ok start world.
Proof.
  split; [| | | | |done|repeat constructor; set_solver].
  - intros t. change (fetchQueue (fw world) t) with (fetchQueue stage t).
    assert (fetchQueue stage t = []) as -> by (destruct t; done).
    assert (fe_pc (fw world) t = start t) as -> by (destruct t; done). constructor.
  - intros t. assert (fetchQueue (fw world) t = []) as -> by (destruct t; done). constructor.
  - cbn. constructor.
  - intros p [[t Hp]|Hp]; [|cbn in Hp; by apply elem_of_nil in Hp].
    assert (fetchQueue (fw world) t = []) as Hq by (destruct t; done). rewrite Hq in Hp. by apply elem_of_nil in Hp.
  - intros t. assert (fetchQueue (fw world) t = []) as -> by (destruct t; done). cbn. lia.
Qed.
Definition silent : FetchInputs (PC := PCState) :=
  mkFetchInputs (λ _, false) (λ _, false) (λ _, noDecodeInfo)
    (λ _, mkFetchCommit false None None (x_set 0) 0 false false false) (λ _, 0) (λ _, 0).
(** The stage with eight instructions in the queue. *)
Definition filled := match fetchInsts 0 false world with Ok (_, w) => w | Err _ => world end.
Lemma filled_ok : fetch_ok start filled.
Proof.
  destruct (fetchInsts 0 false world) as [[c w]|] eqn:E; [|vm_compute in E; discriminate].
  unfold filled. rewrite E. exact (fetchInsts_kept _ _ _ _ _ E start world_ok).
Qed.
End FetchStart.
Import FetchExample FetchStart.

Lemma fetch_sends_witness :
  ∃ w' ps, sendInsts filled = Ok w' ∧ length ps = 8%nat ∧ toDecodeInsts (fw w') = toDecodeInsts (fw filled) ++ ps.
Proof.
  destruct (fetch_sends start filled) as (w' & ps & H1 & H2 & H3 & _).
  - apply filled_ok.
  - exists w', ps. split; [done|]. split; [|done]. rewrite H3. vm_compute. done.
Defined.

Lemma fetch_follows_predictions_witness :
  ∃ w', handleEvent world (EvTick true silent) = Ok w' ∧ toDecodeInsts (fw w') = [1; 2; 3; 4; 5; 6; 7; 8] ∧
    fetch_ok (startAfter (EvTick true silent) start world) w'.
Proof.
  destruct (handleEvent world (EvTick true silent)) as [w'|] eqn:E; [|vm_compute in E; discriminate].
  exists w'. split; [done|]. split; [|exact (fetch_follows_predictions start world _ w' world_ok E)].
  assert ((match handleEvent world (EvTick true silent) with Ok w => toDecodeInsts (fw w) | Err _ => [] end)
    = [1; 2; 3; 4; 5; 6; 7; 8]) as H by by vm_compute.
  by rewrite E in H.
Defined.
