(* ===== verification/FetchSignals.v ===== *)
(** * Fetch and what the rest of the machine tells it

    The answers to requests of a wrong path change nothing once the thread has been
    redirected; the signals of decode keep fetch stalled exactly while decode holds
    instructions up; and the redirects of commit pass fetch's check. *)

From S2P Require Import Prelude Regs Config DynInst Metadata Rob RobSafe Speculation RobSquash TimeBuf Activity CpuList StoreSet.
From S2P Require Import DirPred DirPredOk BPred BPredRas BPredInv BPredSafe X86Pc Decode DecodeSafe DecodeOk.
From S2P Require Import InstQueue Rename LsqUnit Lsq Iew IewPorts IewRedirect Commit CommitRedirect.
From S2P Require Import Fetch FetchLoop FetchOk.

Local Open Scope Z_scope.

(** ** Requests of a wrong path *)

Section requests.
Context {PC Macro D E P Hist : Type} {HPC : PcState PC} {HF : PcFlow PC} {HD : IsaDecoder D PC Macro}
  {HE : FetchEnv E} {HP : DirPred P Hist} {HDok : IsaDecoderOk D PC Macro}.
Implicit Types (w : Fet PC Macro D E P Hist) (x : Fetch PC Macro D).

(** The thread waits for the answer to its request. *)
Definition waiting x t : bool :=
  fe_statusIs x t FItlbWait || fe_statusIs x t FIcacheWaitResponse || fe_statusIs x t FIcacheWaitRetry.

(** A thread that waits after [x'] did so before for the same request, or for one
    made since. *)
Record asks x x' : Prop := {
  ak_next : nextReq x <= nextReq x';
  ak_wait t : waiting x' t = true →
    (waiting x t = true ∧ memReq x' t = memReq x t) ∨ ∃ m, memReq x' t = Some m ∧ nextReq x <= fr_id m;
}.

#[export] Instance asks_preorder : PreOrder asks.
Proof.
  split; [intros x; split; [lia|by left]|]. intros x y z [A1 A2] [B1 B2]. split; [lia|]. intros t Ht.
  destruct (B2 t Ht) as [[Hy Hm]|(m & Hm & Hn)]; [|right; exists m; split; [done|lia]].
  destruct (A2 t Hy) as [[Hx Hm']|(m & Hm' & Hn)]; [left; split; [done|congruence]|right; exists m; split; [congruence|done]].
Qed.

Lemma asks_same x x' :
  fetchStatus x' = fetchStatus x → memReq x' = memReq x → nextReq x' = nextReq x → asks x x'.
Proof.
  intros Hs Hm Hn. split; [lia|]. intros t Ht. left. rewrite Hm. split; [|done].
  unfold waiting, fe_statusIs in *. by rewrite <- Hs.
Qed.

Lemma statusIs_set tid st x t st' :
  fe_statusIs (fe_setStatus tid st x) t st' = if decide (t = tid) then bool_decide (st = st') else fe_statusIs x t st'.
Proof.
  unfold fe_statusIs. cbn. destruct (decide (t = tid)) as [->|]; [by rewrite fn_lookup_insert|by rewrite fn_lookup_insert_ne].
Qed.

Lemma waiting_set tid st x t :
  waiting (fe_setStatus tid st x) t =
  if decide (t = tid) then bool_decide (st = FItlbWait) || bool_decide (st = FIcacheWaitResponse) || bool_decide (st = FIcacheWaitRetry)
  else waiting x t.
Proof. unfold waiting. rewrite !statusIs_set. by destruct (decide _). Qed.

(** The thread stops waiting, or goes on with the same request. *)
Lemma asks_status tid st x x' :
  fetchStatus x' = fetchStatus (fe_setStatus tid st x) → nextReq x' = nextReq x →
  (∀ t, t ≠ tid → memReq x' t = memReq x t) →
  st ∉ [FItlbWait; FIcacheWaitResponse; FIcacheWaitRetry] ∨ waiting x tid = true ∧ memReq x' tid = memReq x tid →
  asks x x'.
Proof.
  intros Hs Hn Hm Hst. split; [lia|]. intros t Ht. left.
  assert (waiting x' t = waiting (fe_setStatus tid st x) t) as Hw by (unfold waiting, fe_statusIs; by rewrite Hs).
  rewrite Hw, waiting_set in Ht. destruct (decide (t = tid)) as [->|]; [|auto].
  destruct Hst as [Hst|?]; [|done]. exfalso. apply Hst.
  destruct (bool_decide (st = FItlbWait)) eqn:E1; [apply bool_decide_eq_true in E1 as ->; set_solver|].
  destruct (bool_decide (st = FIcacheWaitResponse)) eqn:E2; [apply bool_decide_eq_true in E2 as ->; set_solver|].
  cbn in Ht. apply bool_decide_eq_true in Ht as ->. set_solver.
Qed.

#[local] Ltac asks_same := apply asks_same; done.

Lemma switchToActive_asks w w' : switchToActive w = Ok w' → asks (fw w) (fw w').
Proof.
  unfold switchToActive. intros H. destruct (fe_active _); [by injection H as <-|]. inv_ok1 H. injection H as <-. asks_same.
Qed.
Lemma updateFetchStatus_asks w w' : updateFetchStatus w = Ok w' → asks (fw w) (fw w').
Proof.
  unfold updateFetchStatus. destruct (existsb _ _); [apply switchToActive_asks|].
  unfold switchToInactive. intros H. destruct (fe_active _); [|by injection H as <-]. inv_ok1 H. injection H as <-. asks_same.
Qed.

Lemma readIcache_asks tid r w w' :
  readIcache tid r w = Ok w' → waiting (fw w) tid = true → asks (fw w) (fw w').
Proof.
  unfold readIcache. intros H Hw. destruct (fe_sendTimingReq r (fw_env w)) as [sent e].
  destruct sent; [injection H as <-|inv_ok1 H; inv_ok1 H; injection H as <-]; eapply (asks_status tid); try done; by right.
Qed.

Lemma fetchFault_asks tid flt w w' : fetchFault tid flt w = Ok w' → asks (fw w) (fw w').
Proof.
  unfold fetchFault. intros H. inv_ok1 H. destruct a as [p w1]. apply buildInst_spec in E0 as (_ & _ & _ & ->).
  inv_ok1 H. rename a into s. inv_ok1 H. rename a into w2. inv_ok1 H. injection H as <-.
  assert (fw w2 = fw (withInst tid nopStaticInst None (fe_pc (fw w) tid) (fe_pc (fw w) tid) (fw_on (clearMemReq tid) w))) as Hw2.
  { unfold fe_setPredTarg in E1. inv_ok1 E1. by injection E1 as <-. }
  eapply (asks_status tid FTrapPending); cbn; rewrite ?Hw2; try done.
  - intros t Ht. cbn. by rewrite fn_lookup_insert_ne.
  - left. set_solver.
Qed.

Lemma finishTranslation_asks flt r w w' : fe_finishTranslation flt r w = Ok w' → asks (fw w) (fw w').
Proof.
  unfold fe_finishTranslation. intros H. inv_ok1 H. change (fw w) with (fw (fw_set_env (fe_wakeCPU (fw_env w)) w)).
  revert H. generalize (fw_set_env (fe_wakeCPU (fw_env w)) w). intros w1 H.
  destruct (fe_statusIs (fw w1) (fr_tid r) FItlbWait) eqn:Hst; cbn [negb orb] in H; [|by injection H as <-].
  assert (waiting (fw w1) (fr_tid r) = true) as Hw by (unfold waiting; by rewrite Hst).
  destruct (match memReq (fw w1) (fr_tid r) with Some m => _ | None => false end); cbn [negb] in H; [|by injection H as <-].
  destruct flt as [f|].
  - destruct (_ || _).
    + inv_ok1 H. injection H as <-. asks_same.
    + inv_ok1 H. etrans; [by eapply fetchFault_asks|by apply updateFetchStatus_asks].
  - destruct (fe_isMemAddr _ _); cbn [negb] in H.
    + inv_ok1 H. etrans; [by eapply readIcache_asks|by apply updateFetchStatus_asks].
    + injection H as <-. eapply (asks_status (fr_tid r) FNoGoodAddr); try done; [|left; set_solver].
      intros t Ht. cbn. by rewrite fn_lookup_insert_ne.
Qed.

Lemma fetchCacheLine_asks vaddr tid pc w w' : fetchCacheLine vaddr tid pc w = Ok w' → asks (fw w) (fw w').
Proof.
  unfold fetchCacheLine. intros H. inv_ok1 H. destruct (cacheBlocked _); [by injection H as <-|].
  destruct (_ && _); [by injection H as <-|]. set (r := mkFetchReq _ _ _ _ _) in H.
  set (x := fe_setStatus tid FItlbWait (set_memReq (<[tid:=Some r]> (memReq (fw w))) (set_nextReq (nextReq (fw w) + 1) (fw w)))) in H.
  assert (asks (fw w) x) as Hx.
  { split; [cbn; lia|]. intros t Ht. unfold x in Ht. rewrite waiting_set in Ht. destruct (decide (t = tid)) as [->|Hne].
    - right. exists r. cbn. rewrite fn_lookup_insert. split; [done|lia].
    - left. split; [done|]. cbn. by rewrite fn_lookup_insert_ne. }
  destruct (fe_translate _ _) as [answer e]. destruct answer as [[flt pa]|].
  - apply finishTranslation_asks in H. by etrans.
  - by injection H as <-.
Qed.

Lemma processFinishTranslation_asks w w' : processFinishTranslation w = Ok w' → asks (fw w) (fw w').
Proof.
  unfold processFinishTranslation. intros H. destruct (finishTranslationEvent _) as [[f r]|]; [|by injection H as <-].
  inv_ok1 H. apply finishTranslation_asks in H. etrans; [|exact H]. asks_same.
Qed.

Lemma processCacheCompletion_asks r bytes w w' : processCacheCompletion r bytes w = Ok w' → asks (fw w) (fw w').
Proof.
  unfold processCacheCompletion. intros H. inv_ok1 H. destruct (_ || _); [by injection H as <-|].
  inv_ok1 H. rename a into w1. inv_ok1 H. rename a into st. injection H as <-. apply switchToActive_asks in E1.
  etrans; [|eapply (asks_status (fr_tid r) (if st then FBlocked else FIcacheAccessComplete)); try done].
  - etrans; [|exact E1]. asks_same.
  - intros t Ht. cbn. by rewrite fn_lookup_insert_ne.
  - left. destruct st; set_solver.
Qed.

Lemma recvReqRetry_asks w w' : fe_recvReqRetry w = Ok w' → asks (fw w) (fw w').
Proof.
  unfold fe_recvReqRetry. intros H. destruct (retryPkt _); [|inv_ok1 H; injection H as <-; asks_same].
  inv_ok1 H. destruct (retryTid _) as [tid|]; [|done]. inv_ok1 H.
  destruct (fe_sendTimingReq _ _) as [[] e]; injection H as <-; [|asks_same].
  eapply (asks_status tid FIcacheWaitResponse); try done. right. split; [|done]. unfold waiting. by rewrite E1, orb_true_r.
Qed.

Lemma doSquash_asks newPC sq tid w w' :
  fe_doSquash newPC sq tid w = Ok w' → asks (fw w) (fw w') ∧ waiting (fw w') tid = false ∧ nextReq (fw w') = nextReq (fw w).
Proof.
  unfold fe_doSquash. intros H. inv_ok1 H. inv_ok1 H. rename a0 into x. injection H as <-. set (x0 := set_decoder _ _) in E1.
  assert (fetchStatus x = fetchStatus (fw w) ∧ nextReq x = nextReq (fw w) ∧
    ∀ t, t ≠ tid → memReq x t = memReq (fw w) t) as (H1 & H2 & H3).
  { clear E0. subst x0. destruct (isWaiting _ _), (bool_decide _); inv_ok E1; cbn; split_and!; try done;
      intros t Ht; by rewrite fn_lookup_insert_ne. }
  split; [|split; [|done]].
  - eapply (asks_status tid FSquashing); cbn; rewrite ?H1; try done. left. set_solver.
  - change (waiting (fe_setStatus tid FSquashing x) tid = false). rewrite waiting_set. by rewrite decide_True.
Qed.

Lemma checkBlocked_asks tid w b w' : checkBlocked tid w = Ok (b, w') → asks (fw w) (fw w').
Proof.
  unfold checkBlocked. intros H. inv_ok1 H. destruct (_ && _); [|destruct (_ || _)]; injection H as _ <-.
  - eapply (asks_status tid FBlocked); try done. left. set_solver.
  - eapply (asks_status tid FRunning); try done. left. set_solver.
  - done.
Qed.

Lemma checkSignals_asks inp tid w b w' : fe_checkSignalsAndUpdate inp tid w = Ok (b, w') → asks (fw w) (fw w').
Proof.
  unfold fe_checkSignalsAndUpdate. intros H. inv_ok1 H. rename a into x.
  assert (asks (fw w) x) as Hx.
  { unfold fe_readStall in E0. destruct (fi_decodeBlock inp tid), (fi_decodeUnblock inp tid); inv_ok E0; asks_same. }
  trans (fw (fw_set x w)); [exact Hx|]. clear Hx E0. revert H. generalize (fw_set x w). clear x. intros w1 H.
  destruct (fc_squash _).
  { inv_ok1 H. injection H as _ <-. unfold handleCommitSquash, fe_squash in E0. inv_ok1 E0. clear E1.
    inv_ok1 E0. inv_ok1 E1. inv_ok1 E1. injection E1 as <-. inv_ok1 E0. inv_ok1 E0. injection E0 as <-.
    by apply doSquash_asks in E2 as [? _]. }
  inv_ok1 H. rename a into w2. assert (fw w2 = fw w1) as Hw2.
  { destruct (_ =? _); [by injection E0 as <-|]. inv_ok1 E0. by injection E0 as <-. }
  rewrite <- Hw2. clear Hw2 E0. destruct (di_squash _); [|by eapply checkBlocked_asks]. inv_ok1 H. rename a into w3.
  apply predictorOfDecode_aside in E0 as [_ Hw3]. rewrite <- Hw3. destruct (negb _); [|by eapply checkBlocked_asks].
  inv_ok1 H. injection H as _ <-. unfold squashFromDecode in E0. inv_ok1 E0. inv_ok1 E0. injection E0 as <-.
  by apply doSquash_asks in E1 as [? _].
Qed.

Lemma checkThreads_asks inp l : ∀ b w b' w', foldM (fe_checkThread inp) l (b, w) = Ok (b', w') → asks (fw w) (fw w').
Proof.
  induction l as [|tid l IH]; intros b w b' w' H; cbn [foldM] in H; [by injection H as _ <-|].
  inv_ok1 H. destruct a as [b1 w1]. unfold fe_checkThread in E0. inv_ok1 E0. destruct a as [u w2].
  injection E0 as <- <-. apply checkSignals_asks in E1. etrans; [exact E1|by eapply IH].
Qed.

Lemma fetchInsts_asks start tid c w c' w' :
  fetchInsts tid c w = Ok (c', w') → fetch_ok start w → asks (fw w) (fw w').
Proof.
  unfold fetchInsts. intros H Hok. inv_ok1 H. destruct a as [l w1]. injection H as _ <-.
  apply fetchOuter_grown in E0 as (ps & Hg & _); [|apply Hok]. cbn [snd] in Hg. trans (fw w1).
  - destruct (gr_req _ _ _ _ _ _ Hg) as [Hm Hn]. split; [lia|]. intros t Ht. left. rewrite Hm. split; [|done].
    assert (fetchStatus (fw w1) t = fetchStatus (fw w) t ∨ fetchStatus (fw w1) t = FQuiescePending) as [Hs|Hs].
    { destruct (decide (t = tid)) as [->|]; [apply (gr_quiesce _ _ _ _ _ _ Hg)|left; by apply (gr_status _ _ _ _ _ _ Hg)]. }
    + unfold waiting, fe_statusIs in *. by rewrite <- Hs.
    + unfold waiting, fe_statusIs in Ht. by rewrite Hs in Ht.
  - apply asks_same; unfold endFetch; cbn; by destruct (0 <? numInst (fw w1)).
Qed.

Lemma fetchThread_asks start tid c w c' w' : fetchThread tid c w = Ok (c', w') → fetch_ok start w → asks (fw w) (fw w').
Proof.
  intros H Hok. unfold fetchThread in H. destruct (fe_statusIs _ _ _).
  { apply (fetchInsts_asks start) in H; [|by apply (kept_on (fe_setStatus tid FRunning))]. etrans; [|exact H].
    eapply (asks_status tid FRunning); try done. left. set_solver. }
  destruct (fe_statusIs _ _ _); [|by injection H as _ <-]. destruct (haveInsts _ _); cbn [negb] in H.
  - destruct (_ && _); [by injection H as _ <-|]. by apply (fetchInsts_asks start) in H.
  - inv_ok1 H. injection H as _ <-. by eapply fetchCacheLine_asks.
Qed.

Lemma fetchThreads_asks start inp n : ∀ c w c' w',
  fetchThreads inp n c w = Ok (c', w') → fetch_ok start w → asks (fw w) (fw w').
Proof.
  induction n as [|n IH]; intros c w c' w' H Hok; cbn in H; [by injection H as _ <-|].
  inv_ok1 H. destruct a as [t x]. inv_ok1 H.
  assert (asks (fw w) x) as Hx.
  { unfold getFetchingThread, fe_roundRobin in E0. destruct (_ <? _)%nat.
    - destruct (fetchPolicy _); try (by injection E0 as _ <-); [|done]. inv_ok1 E0. destruct a as [[? ?]|]; injection E0 as _ <-; asks_same.
    - destruct (fe_activeThreads _); by injection E0 as _ <-. }
  apply getFetchingThread_aside in E0. trans (fw (fw_set x w)); [exact Hx|]. apply (aside_ok start) in E0; [|done].
  destruct t as [tid|]; [|by injection H as _ <-]. inv_ok1 H. destruct a as [c1 w1].
  pose proof (fetchThread_kept _ _ _ _ _ E2 start E0) as Hok1. trans (fw w1); [|by eapply IH].
  by eapply fetchThread_asks.
Qed.

Lemma sendLoop_asks fuel : ∀ itr n avail x x', sendLoop fuel itr n avail x = Ok x' → asks x x'.
Proof.
  induction fuel as [|fuel IH]; intros itr n avail x x' H; cbn [sendLoop] in H;
    (destruct (_ && (n <? _)%nat); [|by injection H as <-]); [done|]. destruct itr as [|tid itr]; [done|].
  destruct (_ && negb _); [|by eapply IH]. apply IH in H. etrans; [|exact H]. asks_same.
Qed.

Lemma pipelineIcacheAccesses_asks w tid w' : pipelineIcacheAccesses w tid = Ok w' → asks (fw w) (fw w').
Proof.
  unfold pipelineIcacheAccesses. intros H. destruct (negb _); [by injection H as <-|].
  destruct (isRomMicroPC _); [by injection H as <-|]. destruct (negb _); [|by injection H as <-].
  by eapply fetchCacheLine_asks.
Qed.

Lemma pipelineAll_asks l : ∀ w w', foldM pipelineIcacheAccesses l w = Ok w' → asks (fw w) (fw w').
Proof.
  induction l as [|t l IH]; intros w w' H; cbn in H; [by injection H as <-|]. inv_ok1 H.
  etrans; [by eapply pipelineIcacheAccesses_asks|by apply IH].
Qed.

Lemma tick_asks fs inp start w w' : fetch_ok start w → fe_tick fs inp w = Ok w' → asks (fw w) (fw w').
Proof.
  intros Hok%startCycle_ok H. pose proof (fo_active _ _ Hok) as Hnd. unfold fe_tick in H. inv_ok1 H. destruct a as [c1 w1].
  pose proof (checkThreads_asks _ _ _ _ _ _ E0) as H1.
  apply (checkThreads_ok inp _ (nextStart start w)) in E0 as (Hok1 & _); [|done..].
  apply (readInterrupts_kept fs inp) in Hok1.
  inv_ok1 H. destruct a as [c2 w2]. inv_ok1 H. rename a into w3. inv_ok1 H. rename a into w4. inv_ok1 H. rename a into w5.
  inv_ok1 H. rename a into w6. injection H as <-. apply (fetchThreads_asks _ _ _ _ _ _ _ E0) in Hok1.
  trans (fw (fw_on fe_startCycle w)); [asks_same|]. etrans; [exact H1|]. etrans; [|trans (fw w2); [exact Hok1|]].
  { apply asks_same; unfold readInterrupts; cbn; by repeat case_match. }
  trans (fw w3). { destruct c2; [by apply updateFetchStatus_asks|by injection E1 as <-]. }
  trans (fw w4).
  { by eapply pipelineAll_asks. }
  trans (fw w5). { unfold sendInsts in E3. destruct (fe_random _). inv_ok1 E3. injection E3 as <-. by eapply sendLoop_asks. }
  trans (fw w6); [|asks_same]. destruct (fe_wroteToTimeBuffer _); [|by injection E4 as <-].
  inv_ok1 E4. injection E4 as <-. asks_same.
Qed.

Lemma handleEvent_asks start w e w' : fetch_ok start w → handleEvent w e = Ok w' → asks (fw w) (fw w').
Proof.
  intros Hok H. destruct e; cbn [handleEvent] in H; eauto using tick_asks, finishTranslation_asks,
    processFinishTranslation_asks, processCacheCompletion_asks, recvReqRetry_asks.
Qed.

(** The answer to [r] is not waited for. *)
Definition stale (r : FetchReq) x : Prop :=
  fr_id r < nextReq x ∧
  (waiting x (fr_tid r) = true → ∀ m, memReq x (fr_tid r) = Some m → fr_id m ≠ fr_id r).

Lemma asks_stale r x x' : asks x x' → stale r x → stale r x'.
Proof.
  intros [A1 A2] [S1 S2]. split; [lia|]. intros Hw m Hm.
  destruct (A2 _ Hw) as [[Hw' Heq]|(m' & Hm' & Hn)]; [rewrite Heq in Hm; auto|].
  rewrite Hm in Hm'. injection Hm' as <-. lia.
Qed.

Lemma stale_translation flt r w w' :
  stale r (fw w) → fe_finishTranslation flt r w = Ok w' → w' = fw_set_env (fe_wakeCPU (fw_env w)) w.
Proof.
  intros [_ Hs] H. unfold fe_finishTranslation in H. inv_ok1 H.
  change (fw (fw_set_env (fe_wakeCPU (fw_env w)) w)) with (fw w) in H.
  destruct (fe_statusIs (fw w) (fr_tid r) FItlbWait) eqn:Hst; cbn [negb orb] in H; [|by injection H as <-].
  assert (waiting (fw w) (fr_tid r) = true) as Hw by (unfold waiting; by rewrite Hst).
  specialize (Hs Hw). destruct (memReq (fw w) (fr_tid r)) as [m|]; [|by injection H as <-].
  assert ((fr_id r =? fr_id m) = false) as Hid by (apply Z.eqb_neq; intros Heq; by apply (Hs m)).
  rewrite Hid in H. by injection H as <-.
Qed.

Lemma stale_response r bytes w w' : stale r (fw w) → processCacheCompletion r bytes w = Ok w' → w' = w.
Proof.
  intros [_ Hs] H. unfold processCacheCompletion in H. inv_ok1 H.
  destruct (fe_statusIs (fw w) (fr_tid r) FIcacheWaitResponse) eqn:Hst; cbn [negb orb] in H; [|by injection H as <-].
  assert (waiting (fw w) (fr_tid r) = true) as Hw by (unfold waiting; by rewrite Hst, orb_true_r).
  specialize (Hs Hw). destruct (memReq (fw w) (fr_tid r)) as [m|]; [|by injection H as <-].
  assert ((fr_id r =? fr_id m) = false) as Hid by (apply Z.eqb_neq; intros Heq; by apply (Hs m)).
  rewrite Hid in H. by injection H as <-.
Qed.

Fixpoint starts (es : list FetchEvent) start w : (ThreadID → PC) :=
  match es with
  | [] => start
  | e :: es => match handleEvent w e with Ok w' => starts es (startAfter e start w) w' | Err _ => start end
  end.

Lemma run_asks es : ∀ start w w',
  fetch_ok start w → foldM handleEvent es w = Ok w' → asks (fw w) (fw w') ∧ fetch_ok (starts es start w) w'.
Proof.
  induction es as [|e es IH]; intros start w w' Hok H; cbn [foldM starts] in H |- *; [by injection H as <-|].
  inv_ok1 H. rename a into w1. assert (fetch_ok (startAfter e start w) w1) as Hok1.
  { destruct e; cbn [handleEvent] in E0; [by apply tick_ok|by apply (finishTranslation_kept _ _ _ _ E0)
      |by apply (processFinishTranslation_kept _ _ E0)|by apply (processCacheCompletion_kept _ _ _ _ E0)
      |by apply (recvReqRetry_kept _ _ E0)]. }
  apply (handleEvent_asks start) in E0; [|done]. destruct (IH _ _ _ Hok1 H) as [Ha Hok2]. split; [by etrans|done].
Qed.

(** A redirect makes fetch deaf to the wrong path's memory accesses.  Once a
    thread has been squashed, the answers to all requests it had made for
    instructions, translations (with or without a fault) as well as cache
    blocks, leave the stage as it is, whatever happens to the stage in between: such
    an answer only wakes up the CPU. *)
Theorem wrong_path_answers_ignored start newPC sq tid w w0 es w1 r :
  fetch_ok start w → toDecodeInsts (fw w) = [] → fe_doSquash newPC sq tid w = Ok w0 →
  fr_tid r = tid → fr_id r < nextReq (fw w) → foldM handleEvent es w0 = Ok w1 →
  (∀ flt w2, fe_finishTranslation flt r w1 = Ok w2 → w2 = fw_set_env (fe_wakeCPU (fw_env w1)) w1) ∧
  (∀ bytes w2, processCacheCompletion r bytes w1 = Ok w2 → w2 = w1).
Proof.
  intros Hok Hs Hd Hr Hid Hrun. destruct (doSquash_ok _ _ _ _ _ _ Hd Hok Hs) as (Hok0 & _).
  apply doSquash_asks in Hd as (_ & Hw & Hn).
  assert (stale r (fw w1)) as Hst.
  { eapply asks_stale; [by apply (run_asks _ _ _ _ Hok0 Hrun)|]. split; [lia|]. rewrite Hr, Hw. done. }
  split; [intros flt w2; by apply stale_translation|intros bytes w2; by apply stale_response].
Qed.
End requests.

(** ** Decode's signals *)

Section stalls.
Context {PC Macro Macro' D : Type} {HPC : PcState PC} {HF : PcFlow PC} {HD : IsaDecoder D PC Macro}.
Implicit Types (w : Dec (PC := PC) (Macro := Macro')) (x : Fetch PC Macro D).

Lemma readStall_ok (inp : FetchInputs (PC := PC)) tid x :
  (fi_decodeUnblock inp tid = true → decodeStall x tid = true ∧ fi_decodeBlock inp tid = false) →
  ∃ x', fe_readStall inp tid x = Ok x' ∧
    decodeStall x' tid = (if fi_decodeBlock inp tid then true else if fi_decodeUnblock inp tid then false else decodeStall x tid) ∧
    ∀ t, t ≠ tid → decodeStall x' t = decodeStall x t.
Proof.
  intros H. unfold fe_readStall. destruct (fi_decodeUnblock inp tid).
  - destruct (H eq_refl) as [Hs ->]. rewrite Hs. eexists. split; [done|]. cbn. rewrite fn_lookup_insert.
    split; [done|]. intros t Ht. by rewrite fn_lookup_insert_ne.
  - eexists. split; [done|]. destruct (fi_decodeBlock inp tid); [|done]. cbn. rewrite fn_lookup_insert.
    split; [done|]. intros t Ht. by rewrite fn_lookup_insert_ne.
Qed.

(** Fetch reads the signals about the threads [l]. *)
Definition readStalls (inp : FetchInputs (PC := PC)) (l : list ThreadID) x : outcome (Fetch PC Macro D) :=
  foldM (λ x tid, fe_readStall inp tid x) l x.

(** Decode and fetch agree on who is stalled.  If at the start of a cycle of decode
    fetch is stalled exactly for the threads decode holds instructions of, then
    fetch reads the signals of this cycle without a failing assertion and is again
    stalled exactly for the threads decode then holds instructions of; and decode's
    skid buffers are empty but for those. *)
Theorem decode_fetch_handshake fs inp w w' (finp : FetchInputs (PC := PC)) x (l : list ThreadID) :
  NoDup l → NoDup (dec_activeThreads (dw w)) → (∀ tid, queues_ok tid w) → dec_tick fs inp w = Ok w' →
  fi_decodeBlock finp = decodeBlock (dw w') → fi_decodeUnblock finp = decodeUnblock (dw w') →
  (∀ tid, tid ∈ l → decodeStall x tid = DecodeOk.held (decodeStatus (dw w) tid)) →
  ∃ x', readStalls finp l x = Ok x' ∧ (∀ tid, queues_ok tid w') ∧
    ∀ tid, tid ∈ l → decodeStall x' tid = DecodeOk.held (decodeStatus (dw w') tid).
Proof.
  intros Hl Hnd Hq Htick Hb Hu Hstall. pose proof (decode_handshake fs inp w w' Hnd Hq Htick) as Hsig. clear Hnd Hq Htick.
  assert (∃ x', readStalls finp l x = Ok x' ∧ ∀ tid, tid ∈ l → decodeStall x' tid = DecodeOk.held (decodeStatus (dw w') tid))
    as (x' & ? & ?); [|exists x'; split; [done|]; split; [intros tid; by destruct (Hsig tid)|done]].
  revert x Hstall. unfold readStalls. induction Hl as [|tid l Hnot Hl IH]; intros x Hstall; [exists x; split; [done|set_solver]|]. cbn [foldM].
  destruct (Hsig tid) as (_ & Hun & Hheld).
  destruct (readStall_ok finp tid x) as (x1 & -> & Hx & Ho).
  { rewrite Hu, Hb. intros Ht. destruct (Hun Ht) as [H1 H2]. rewrite Hstall by set_solver. done. }
  destruct (IH x1) as (x' & Hx' & Hres).
  { intros t Ht. rewrite Ho by set_solver. apply Hstall. set_solver. }
  exists x'. split; [done|]. intros t [->|Ht]%elem_of_cons; [|by apply Hres].
  assert (decodeStall x' tid = decodeStall x1 tid) as ->.
  { clear - Hx' Hnot. revert x1 Hx'. induction l as [|u l IH]; intros x1 H; cbn in H; [by injection H as <-|].
    destruct (fe_readStall finp u x1) as [x2|] eqn:E; [|done]. rewrite (IH ltac:(set_solver) _ H).
    unfold fe_readStall in E. assert (tid ≠ u) as Hne by set_solver.
    destruct (fi_decodeBlock finp u), (fi_decodeUnblock finp u); inv_ok E; cbn; by rewrite ?fn_lookup_insert_ne. }
  rewrite Hx, Hb, Hu, (Hstall tid) by set_solver. by rewrite Hheld.
Qed.
End stalls.

(** ** Commit's redirects *)

Section redirects.
Context {M E : Type} {HM : MemSystem M} {HE : CpuEnv E}.
Context {PC Macro D E' P Hist : Type} {HPC : PcState PC} {HF : PcFlow PC} {HD : IsaDecoder D PC Macro}
  {HE' : FetchEnv E'} {HP : DirPred P Hist}.
Variable cfg : DolmaConfig.

Lemma clearRedirect_inducer i : isControlInducer (clearRedirect i) = false.
Proof.
  unfold clearRedirect, isControlInducer, st. apply andb_false_iff. right.
  unfold clearPendingMemOrder, clearControlInducer, clearPendingBranch.
  cbn. autorewrite with bits. cbn. by rewrite andb_false_r.
Qed.

Lemma squashTo_branch tid sn br taken pc' reason (x x' : Com M E) :
  squashTo tid sn br taken pc' reason x = Ok x' →
  ∃ s, br s = Ok (ci_mispredictInst (toIEW (cm x') tid)) ∧ s = cm_insts x'.
Proof.
  unfold squashTo. cbn. intros H1. destruct (squash _ _ _ _) as [[r s]|]; [|done].
  inv_ok1 H1. inv_ok1 H1. inv_ok1 H1. injection H1 as <-. exists s. unfold cm_on. cbn [cm cm_set cm_set_rob cm_insts].
  by rewrite toIEW_tell.
Qed.

Lemma clearRedirectOf_spec p (x x' : Com M E) :
  clearRedirectOf p x = Ok x' → cm x' = cm x ∧ ∃ i, cm_insts x' !! p = Some i ∧ isControlInducer i = false.
Proof.
  unfold clearRedirectOf. intros H. inv_ok1 H. injection H as <-. split; [done|].
  unfold modify, modifyM, deref in E0. destruct (cm_insts x !! p) as [i|]; [|done]. injection E0 as <-.
  exists (clearRedirect i). split; [apply lookup_insert_eq|apply clearRedirect_inducer].
Qed.

(** Every redirect commit sends passes fetch's check.  The mispredicted
    instruction of the message, when there is one, is the instruction whose redirect
    commit has just performed; commit has withdrawn its mark as a control inducer in the
    same cycle, so when fetch reads the message the assertion that a restricted
    redirect is no control inducer holds.  It holds whether the instruction is
    restricted or not: the check cannot detect a restricted redirect. *)
Theorem commit_redirect_accepted tid (b : IEWStruct) (x x' : Com M E) c (w : Fet PC Macro D E' P Hist)
    (Hkeys : ∀ p i, cm_insts x !! p = Some i → seqNum i = p)
    (Hthread : ∀ p i, p ∈ instList (cm_rob x) tid → cm_insts x !! p = Some i → threadNumber i = tid)
    (Hmis : ∀ q, ic_mispredictInst b tid = Some q → q = ic_squashedSeqNum b tid)
    (Hrun : redirectThread cfg tid b x = Ok x')
    (Hbefore : ci_squash (toIEW (cm x) tid) = false)
    (Hafter : ci_squash (toIEW (cm x') tid) = true)
    (Hmsg : fc_mispredictInst c = ci_mispredictInst (toIEW (cm x') tid))
    (Hsame : fw_insts w = cm_insts x') :
  (∀ q, fc_mispredictInst c = Some q → ∃ i, fw_insts w !! q = Some i ∧ isControlInducer i = false) ∧
  fe_checkRedirect c w = Ok ().
Proof.
  assert (∀ q, fc_mispredictInst c = Some q → ∃ i, fw_insts w !! q = Some i ∧ isControlInducer i = false) as Hq.
  { rewrite Hsame. intros q Hq. rewrite Hmsg in Hq. clear Hmsg Hsame.
    assert (∀ y, reportedRedirect cfg tid b x = Ok y → y = x' →
      ∃ i, cm_insts x' !! q = Some i ∧ isControlInducer i = false) as Hrep.
    { intros y Hy ->. unfold reportedRedirect in Hy. inv_ok1 Hy. destruct a as [p|]; [|done].
      apply findInstIn_elem in E0 as (_ & i & Hi & Hsn). rewrite (proj2 (deref_Ok _ _ _) Hi) in Hy.
      destruct (canSquash cfg i); [|injection Hy as ->; congruence]. inv_ok1 Hy. rename a into z.
      apply clearRedirectOf_spec in Hy as [Hc Hp]. apply squashTo_branch in E0 as (s & Hbr & _).
      rewrite <- Hc, Hq in Hbr. injection Hbr as Hbr. apply Hmis in Hbr. apply Hkeys in Hi.
      assert (q = p) as -> by congruence. done. }
    unfold redirectThread in Hrun. inv_ok1 Hrun. rename a into o. inv_ok1 Hrun. rename a into res.
    destruct res as [[p i]|].
    - destruct (_ && (_ || _)).
      + inv_ok1 Hrun. inv_ok1 Hrun. rename a into z. apply clearRedirectOf_spec in Hrun as [Hc Hp].
        destruct o as [p'|]; [|done]. apply resolvedRedirectIn_elem in E0 as (Hin & i' & Hi' & _).
        rewrite (proj2 (deref_Ok p' _ i') Hi') in E1. injection E1 as <- <-. apply (Hthread _ i') in Hin; [|done].
        unfold doPendingRedirect in E3. destruct (deref_Ok p' (cm_insts x) i') as [_ Hd]. rewrite (Hd Hi') in E3. inv_ok1 E3. inv_ok1 E3.
        rewrite Hin in E3. apply squashTo_branch in E3 as (s & Hbr & _). rewrite <- Hc, Hq in Hbr. inv_ok1 Hbr.
        destruct (isPendingBranch a1); [|done]. by injection Hbr as <-.
      + destruct (_ && _); [by apply (Hrep x')|]. inv_ok1 Hrun. apply clearRedirectOf_spec in Hrun as [Hc _]. congruence.
    - destruct (_ && _); [by apply (Hrep x')|]. injection Hrun as <-. congruence. }
  split; [done|]. unfold fe_checkRedirect. destruct (fc_mispredictInst c) as [q|] eqn:Hm; [|done].
  destruct (Hq q eq_refl) as (i & Hi & Hind). rewrite (proj2 (deref_Ok _ _ _) Hi), Hind. by destruct (isDolmaRestricted i).
Qed.
End redirects.

(** ** Examples *)

#[local] Existing Instances FetchExample.flow FetchExample.bytes FetchExample.bytes_ok FetchExample.env.

Module FetchWaits.
Import FetchExample FetchStart.
(** The thread waits for the translation of request 0. *)
Definition request : FetchReq := mkFetchReq 0 0 0 0 0.
Definition wait (x : Fetch PCState (list StaticInst) (option Z)) :=
  fe_setStatus 0%nat FItlbWait (set_memReq (λ _, Some request) (set_nextReq 1 x)).
Definition waits := fw_on wait world.
Lemma waits_ok : fetch_ok start waits.
Proof. exact (aside_ok start world waits (aside_on wait world eq_refl eq_refl eq_refl eq_refl eq_refl) world_ok). Qed.
Definition squashed := match fe_doSquash (x_set 64) None 0 waits with Ok w => w | Err _ => waits end.
Definition later := match foldM handleEvent [EvTick true silent; EvTick true silent] squashed with Ok w => w | Err _ => squashed end.
End FetchWaits.

Lemma wrong_path_answers_ignored_witness :
  fetchStatus (fw FetchWaits.later) 0%nat = FIcacheWaitResponse ∧
  ∀ w2, processCacheCompletion FetchWaits.request [0] FetchWaits.later = Ok w2 → w2 = FetchWaits.later.
Proof.
  split; [by vm_compute|].
  refine (proj2 (wrong_path_answers_ignored FetchStart.start (x_set 64) None 0 FetchWaits.waits FetchWaits.squashed
    [EvTick true FetchStart.silent; EvTick true FetchStart.silent] FetchWaits.later FetchWaits.request _ _ _ _ _ _) [0]).
  - apply FetchWaits.waits_ok.
  - reflexivity.
  - vm_compute. reflexivity.
  - reflexivity.
  - vm_compute. reflexivity.
  - vm_compute. reflexivity.
Defined.

Module Handshake.
Definition after : Dec (PC := PCState) (Macro := ()) :=
  match dec_tick true (DecodeExample.quiet [1; 2; 3]) (DecodeExample.world DecodeExample.idle DecodeExample.insts) with
  | Ok w => w | Err _ => DecodeExample.world DecodeExample.idle DecodeExample.insts end.
Definition signals : FetchInputs (PC := PCState) :=
  mkFetchInputs (decodeBlock (dw after)) (decodeUnblock (dw after)) (decodeInfo (dw after))
    (fi_commit FetchStart.silent) (λ _, 0) (λ _, 0).
End Handshake.

Lemma decode_fetch_handshake_witness :
  ∃ x', readStalls Handshake.signals [0%nat] FetchExample.stage = Ok x' ∧
    decodeStall x' 0%nat = DecodeOk.held (decodeStatus (dw Handshake.after) 0%nat).
Proof.
  destruct (decode_fetch_handshake (HF := DecodeExample.flow) true (DecodeExample.quiet [1; 2; 3])
    (DecodeExample.world DecodeExample.idle DecodeExample.insts) Handshake.after Handshake.signals FetchExample.stage [0%nat])
    as (x' & H1 & _ & H2).
  - repeat constructor. set_solver.
  - repeat constructor. set_solver.
  - apply DecodeReady.idle_ok.
  - vm_compute. reflexivity.
  - reflexivity.
  - reflexivity.
  - intros tid ->%list_elem_of_singleton. vm_compute. reflexivity.
  - exists x'. split; [done|]. apply H2. constructor.
Defined.

Module Redirected.
Definition message : FetchCommit (PC := PCState) :=
  mkFetchCommit true (ci_mispredictInst (toIEW (cm CommitExample.after) 0)) None (x_set 0) 3 false false false.
Definition world := fw_set_insts (cm_insts CommitExample.after) FetchExample.world.
End Redirected.

Lemma commit_redirect_accepted_witness :
  fc_mispredictInst Redirected.message = Some 3 ∧ fe_checkRedirect Redirected.message Redirected.world = Ok ().
Proof.
  split; [vm_compute; reflexivity|].
  refine (proj2 (commit_redirect_accepted PortsExample.mode 0 (CommitExample.wire false) (CommitExample.before false)
    CommitExample.after Redirected.message Redirected.world _ _ _ _ _ _ _ _)).
  - change (map_Forall (λ (p : DynInstPtr) i, seqNum i = p) (cm_insts (CommitExample.before false))).
    apply (bool_decide_unpack _). vm_compute. exact I.
  - intros p i Hp Hi. change (p ∈ [2; 3]) in Hp. set_unfold in Hp.
    destruct Hp as [->|[->|[]]]; revert Hi; vm_compute; by intros [= <-].
  - intros q Hq. revert Hq. vm_compute. by intros [= <-].
  - vm_compute; reflexivity.
  - reflexivity.
  - vm_compute; reflexivity.
  - reflexivity.
  - reflexivity.
Defined.

(** A redirect of a thread that waits to retry its cache access keeps the request in
    [memReq]: when the CPU is drained before the thread fetches again, the stage
    is drained but the check of a drained stage fails. *)
Module DrainExample.
#[local] Instance draining : FetchEnv () := {
  fe_switchedOut _ := false; fe_isDraining _ := true; fe_wakeCPU e := e;
  fe_translate r e := (Some (None, fr_vaddr r), e); fe_isMemAddr _ _ := true;
  fe_sendTimingReq _ e := (true, e); fe_random e := (0, e) }.
Definition retrying := fw_on (λ x, fe_setStatus 0%nat FIcacheWaitRetry (set_cacheBlocked true
  (set_retryTid (Some 0%nat) (set_retryPkt (Some FetchWaits.request) (set_memReq (λ _, Some FetchWaits.request)
    (set_nextReq 1 x)))))) FetchExample.world.
Definition redirect : FetchInputs (PC := PCState) :=
  mkFetchInputs (λ _, false) (λ _, false) (λ _, noDecodeInfo)
    (λ _, mkFetchCommit true None None (x_set 64) 0 false false false) (λ _, 0) (λ _, 0).
Definition drained :=
  let! w := handleEvent retrying (EvTick true redirect) in
  let! w := handleEvent w EvRetry in
  let! w := fe_drainStall 0 w in
  handleEvent w (EvTick true FetchStart.silent).
Example drained_check_fails :
  (let! w := drained in Ok (fe_isDrained (fw w))) = Ok true ∧
  (let! w := drained in fe_drainSanityCheck w) = Err (Assertion "drainSanityCheck: !memReq[i]").
Proof. split; vm_compute; reflexivity. Qed.
End DrainExample.
