(* ===== verification/ReplPolicy.v ===== *)
(** * Cache replacement policies

    [mem/cache/replacement_policies/]: what a policy does to the replacement
    data of an entry when it is inserted ([reset]), used ([touch]) and dropped
    ([invalidate]), and which of the candidates it evicts ([getVictim]).  A
    policy is a record of these operations; what the tags rely on is
    [PolicyOk], which every policy here satisfies. *)

From S2P Require Import Prelude.

Local Open Scope Z_scope.

(** ** The interface *)

(** [random_mt.random(lo, hi)] ([base/random.hh]): the generator of the
    C++ library behind it is a parameter. *)
Class RandomGen (G : Type) := {
  random : Z → Z → G → Z * G;
}.

Class RandomGenOk (G : Type) `{RandomGen G} := {
  random_bounds : ∀ lo hi g, lo <= hi → lo <= (random lo hi g).1 <= hi;
}.

(** [BaseReplacementPolicy]: [D] is the policy's [ReplacementData].  [getVictim]
    answers the position of the victim among the candidates, and their data
    afterwards; operations that draw random numbers thread the generator.  The
    tick is [curTick()]. *)
Record ReplacementPolicy (G D : Type) := mkReplacementPolicy {
  rp_instantiateEntry : D;
  rp_invalidate : D → D;
  rp_touch : Tick → D → D;
  rp_reset : Tick → G → D → D * G;
  rp_getVictim : Tick → G → list D → outcome (nat * list D * G);
}.
Arguments mkReplacementPolicy {G D} _ _ _ _ _.
Arguments rp_instantiateEntry {G D} _.
Arguments rp_invalidate {G D} _ _.
Arguments rp_touch {G D} _ _ _.
Arguments rp_reset {G D} _ _ _ _.
Arguments rp_getVictim {G D} _ _ _ _.

(** A victim is one of the candidates, which keep their number. *)
Definition PolicyOk {G D} (rp : ReplacementPolicy G D) : Prop :=
  ∀ now g ds, ds ≠ [] →
  ∃ i ds' g', rp_getVictim rp now g ds = Ok (i, ds', g') ∧
              (i < length ds)%nat ∧ length ds' = length ds.

(** ** The search the policies share

    [victim = candidates[0]; for (candidate : candidates) if (better(candidate,
    victim)) victim = candidate;] *)
Section search.
Context {D : Type} (better : D → D → bool).

Fixpoint searchVictim (i : nat) (victim : nat * D) (l : list D) : nat * D :=
  match l with
  | [] => victim
  | c :: l' => searchVictim (S i) (if better c victim.2 then (i, c) else victim) l'
  end.

Definition getVictimBy (ds : list D) : outcome nat :=
  match ds with
  | [] => Err (Assertion "candidates.size() > 0")
  | c :: _ => Ok (searchVictim 0 (0%nat, c) ds).1
  end.
End search.

Lemma getVictimBy_ext {D} (b b' : D → D → bool) ds :
  (∀ c v, b c v = b' c v) → getVictimBy b ds = getVictimBy b' ds.
Proof.
  intros Hb. assert (Hs : ∀ l i v, searchVictim b i v l = searchVictim b' i v l).
  { induction l as [|x l IH]; intros i v; cbn; [done|]. by rewrite Hb, IH. }
  destruct ds; cbn; [done|]. by rewrite Hb, Hs.
Qed.

(** A search by a key finds the first candidate with the least key. *)
Definition first_least {D} (key : D → Z) (ds : list D) (i : nat) : Prop :=
  ∃ d, ds !! i = Some d ∧
       (∀ j d', ds !! j = Some d' → key d <= key d') ∧
       (∀ j d', (j < i)%nat → ds !! j = Some d' → key d < key d').

Section by_key.
Context {D : Type} (key : D → Z).
Let less (c v : D) : bool := key c <? key v.

Lemma searchVictim_least ds l i v :
  drop i ds = l →
  ds !! v.1 = Some v.2 → (v.1 < i ∨ i = 0 ∧ v.1 = 0)%nat →
  (∀ j d, (j < i)%nat → ds !! j = Some d → key v.2 <= key d) →
  (∀ j d, (j < v.1)%nat → ds !! j = Some d → key v.2 < key d) →
  first_least key ds (searchVictim less i v l).1.
Proof.
  revert i v. induction l as [|c l IH]; intros i v Hl Hv Hi Hle Hlt; cbn.
  - exists v.2. split_and!; try done. intros j d Hj. apply (Hle j); [|done].
    apply lookup_lt_Some in Hj. apply (f_equal length) in Hl.
    rewrite length_drop in Hl. cbn in Hl. lia.
  - assert (Hc : ds !! i = Some c)
      by (rewrite <-(Nat.add_0_r i), <-lookup_drop, Hl; reflexivity).
    assert (Hdrop : drop (S i) ds = l)
      by (rewrite <-Nat.add_1_r, <-drop_drop, Hl; reflexivity).
    unfold less at 2. destruct (Z.ltb_spec (key c) (key v.2)) as [Hb|Hb];
      apply IH; cbn; auto; try lia.
    + intros j d Hj Hd. destruct (decide (j = i)) as [->|]; [naive_solver lia|].
      assert (key v.2 <= key d) by (apply (Hle j); [lia|done]). lia.
    + intros j d Hj Hd. assert (key v.2 <= key d) by (apply (Hle j); done). lia.
    + intros j d Hj Hd. destruct (decide (j = i)) as [->|]; [naive_solver lia|].
      apply (Hle j); [lia|done].
Qed.

Lemma getVictimBy_least ds :
  ds ≠ [] → ∃ i, getVictimBy less ds = Ok i ∧ first_least key ds i.
Proof.
  destruct ds as [|c ds]; [done|]. intros _. eexists; split; [reflexivity|].
  apply searchVictim_least; cbn; auto; lia.
Qed.

Lemma first_least_lt ds i : first_least key ds i → (i < length ds)%nat.
Proof. intros (d & Hd & _). by eapply lookup_lt_Some. Qed.
End by_key.

(** ** The policies *)

Section policies.
Context {G : Type}.

(** A policy whose search changes nothing. *)
Definition searching {D} (better : D → D → bool) (now : Tick) (g : G) (ds : list D)
  : outcome (nat * list D * G) :=
  let! i := getVictimBy better ds in Ok (i, ds, g).

(** *** [LRURP]: the data is [lastTouchTick]. *)
Definition LRURP : ReplacementPolicy G Tick :=
  mkReplacementPolicy 0 (λ _, 0) (λ now _, now) (λ now g _, (now, g))
    (searching (λ c v, c <? v)).

(** *** [MRURP]: the data is [lastTouchTick]. *)
Definition MRURP : ReplacementPolicy G Tick :=
  mkReplacementPolicy 0 (λ _, 0) (λ now _, now) (λ now g _, (now, g))
    (searching (λ c v, v <? c)).

(** *** [FIFORP]: the data is [tickInserted]. *)
Definition FIFORP : ReplacementPolicy G Tick :=
  mkReplacementPolicy 0 (λ _, 0) (λ _ t, t) (λ now g _, (now, g))
    (searching (λ c v, c <? v)).

(** *** [LFURP]: the data is [refCount], an [unsigned]. *)
Definition LFURP : ReplacementPolicy G Z :=
  mkReplacementPolicy 0 (λ _, 0) (λ _ n, wrap 32 (n + 1)) (λ _ g _, (1, g))
    (searching (λ c v, c <? v)).

(** *** [SecondChanceRP] *)
Record SecondChanceReplData := mkSecondChance {
  sc_tickInserted : Tick;
  hasSecondChance : bool;
}.

(** [useSecondChance]. *)
Definition useSecondChance (now : Tick) (d : SecondChanceReplData) :=
  mkSecondChance now false.

Definition sc_invalid (d : SecondChanceReplData) : bool :=
  (sc_tickInserted d =? 0) && negb (hasSecondChance d).

(** [FIFORP::getVictim] on the second-chance data. *)
Definition sc_fifo (c v : SecondChanceReplData) : bool :=
  sc_tickInserted c <? sc_tickInserted v.

Fixpoint scLoop (fuel : nat) (now : Tick) (ds : list SecondChanceReplData)
  : outcome (nat * list SecondChanceReplData) :=
  match fuel with
  | O => Err (NoFuel "SecondChanceRP::getVictim")
  | S fuel' =>
      let! i := getVictimBy sc_fifo ds in
      match ds !! i with
      | Some d =>
          if hasSecondChance d
          then scLoop fuel' now (<[i := useSecondChance now d]> ds)
          else Ok (i, ds)
      | None => Err (OutOfRange "candidates")
      end
  end.

(** Every round but the last uses up a second chance. *)
Definition scChances (ds : list SecondChanceReplData) : nat :=
  length (filter (λ d, hasSecondChance d = true) ds).

Definition sc_getVictim (now : Tick) (g : G) (ds : list SecondChanceReplData)
  : outcome (nat * list SecondChanceReplData * G) :=
  match ds with
  | [] => Err (Assertion "candidates.size() > 0")
  | _ =>
      match list_find (λ d, sc_invalid d = true) ds with
      | Some (i, _) => Ok (i, ds, g)
      | None => let! (i, ds) := scLoop (S (scChances ds)) now ds in Ok (i, ds, g)
      end
  end.

Definition SecondChanceRP : ReplacementPolicy G SecondChanceReplData :=
  mkReplacementPolicy
    (mkSecondChance 0 false)
    (λ _, mkSecondChance 0 false)
    (λ _ d, mkSecondChance (sc_tickInserted d) true)
    (λ now g _, (mkSecondChance now true, g))
    sc_getVictim.

Context `{RandomGen G}.

(** *** [BRRIPRP]: the data is the re-reference prediction value [rrpv]. *)
Section brrip.
Context (maxRRPV : Z) (hitPriority : bool) (btp : Z).

Definition brrip_touch (now : Tick) (rrpv : Z) : Z :=
  if hitPriority then 0 else if 0 <? rrpv then rrpv - 1 else rrpv.

Definition brrip_reset (now : Tick) (g : G) (rrpv : Z) : Z * G :=
  let '(r, g) := random 1 100 g in
  (if r <=? btp then maxRRPV - 1 else maxRRPV, g).

(** The search returns early on an invalid entry: [inl]. *)
Fixpoint brripSearch (i : nat) (victim : nat * Z) (l : list Z) : nat + nat * Z :=
  match l with
  | [] => inr victim
  | c :: l' =>
      if c =? maxRRPV + 1 then inl i
      else brripSearch (S i) (if victim.2 <? c then (i, c) else victim) l'
  end.

Definition brrip_getVictim (now : Tick) (g : G) (ds : list Z)
  : outcome (nat * list Z * G) :=
  match ds with
  | [] => Err (Assertion "candidates.size() > 0")
  | c :: _ =>
      match brripSearch 0 (0%nat, c) ds with
      | inl i => Ok (i, ds, g)
      | inr (i, rrpv) =>
          let diff := maxRRPV - rrpv in
          Ok (i, if 0 <? diff then map (λ r, r + diff) ds else ds, g)
      end
  end.

(** The constructor's [fatal_if]. *)
Definition BRRIPRP : outcome (ReplacementPolicy G Z) :=
  if maxRRPV <=? 0 then Err (PanicCall "max_RRPV should be greater than zero")
  else Ok (mkReplacementPolicy (maxRRPV + 1) (λ _, maxRRPV + 1)
             brrip_touch brrip_reset brrip_getVictim).
End brrip.

(** *** [BIPRP]: an LRU policy with its own [reset]. *)
Definition bip_reset (btp : Z) (now : Tick) (g : G) (t : Tick) : Tick * G :=
  let '(r, g) := random 1 100 g in (if r <=? btp then now else 1, g).

Definition BIPRP (btp : Z) : ReplacementPolicy G Tick :=
  mkReplacementPolicy (rp_instantiateEntry LRURP) (rp_invalidate LRURP)
    (rp_touch LRURP) (bip_reset btp) (rp_getVictim LRURP).

(** *** [RandomRP]: the data is [valid]. *)
Definition random_getVictim (now : Tick) (g : G) (ds : list bool)
  : outcome (nat * list bool * G) :=
  match ds with
  | [] => Err (Assertion "candidates.size() > 0")
  | _ =>
      let '(r, g) := random 0 (Z.of_nat (length ds) - 1) g in
      Ok (match list_find (λ v, v = false) ds with
          | Some (i, _) => i
          | None => Z.to_nat r
          end, ds, g)
  end.

Definition RandomRP : ReplacementPolicy G bool :=
  mkReplacementPolicy false (λ _, false) (λ _ v, v) (λ _ g _, (true, g))
    random_getVictim.
End policies.

(** ** Every policy picks one of the candidates *)

Lemma searching_ok {G D} (key : D → Z) (rp : ReplacementPolicy G D) :
  (∀ now g ds, rp_getVictim rp now g ds = searching (λ c v, key c <? key v) now g ds) →
  PolicyOk rp.
Proof.
  intros Hrp now g ds Hne. rewrite Hrp. unfold searching.
  destruct (getVictimBy_least key ds Hne) as (i & -> & Hi).
  exists i, ds, g. split_and!; [done| |done]. by eapply first_least_lt.
Qed.

Section policies_ok.
Context {G : Type}.

Lemma lru_ok : PolicyOk (@LRURP G).
Proof. by apply (searching_ok id). Qed.

Lemma fifo_ok : PolicyOk (@FIFORP G).
Proof. by apply (searching_ok id). Qed.

Lemma lfu_ok : PolicyOk (@LFURP G).
Proof. by apply (searching_ok id). Qed.

Lemma mru_better (c v : Tick) : (v <? c) = (- c <? - v).
Proof. apply eq_true_iff_eq. rewrite !Z.ltb_lt. lia. Qed.

Lemma mru_ok : PolicyOk (@MRURP G).
Proof.
  intros now g ds Hne. destruct (getVictimBy_least Z.opp ds Hne) as (i & Hv & Hi).
  exists i, ds, g. cbn. unfold searching.
  assert (getVictimBy (λ c v, v <? c) ds = getVictimBy (λ c v, - c <? - v) ds) as ->.
  { apply getVictimBy_ext, mru_better. }
  rewrite Hv. split_and!; [done| |done]. by eapply first_least_lt.
Qed.

(** A round of the second-chance search. *)
Lemma scLoop_ok now fuel ds :
  ds ≠ [] → (scChances ds < fuel)%nat →
  ∃ i ds' d, scLoop fuel now ds = Ok (i, ds') ∧ length ds' = length ds ∧
    ds' !! i = Some d ∧ hasSecondChance d = false ∧
    first_least sc_tickInserted ds' i ∧
    (∀ j e, ds !! j = Some e →
       ds' !! j = Some e ∨ hasSecondChance e = true ∧ ds' !! j = Some (useSecondChance now e)).
Proof.
  revert ds. induction fuel as [|fuel IH]; intros ds Hne Hf; [lia|]. cbn.
  destruct (getVictimBy_least sc_tickInserted ds Hne) as (i & Hv & Hi).
  change (getVictimBy sc_fifo ds = Ok i) in Hv. rewrite Hv.
  pose proof Hi as (d & Hd & _). rewrite Hd.
  destruct (hasSecondChance d) eqn:Hc; [|naive_solver].
  destruct (IH (<[i:=useSecondChance now d]> ds)) as (k & ds' & e & -> & Hlen & Hk & He & Hfl & Hj).
  - intros Hnil. apply (f_equal length) in Hnil. rewrite length_insert in Hnil.
    by destruct ds.
  - enough (scChances (<[i:=useSecondChance now d]> ds) < scChances ds)%nat by lia.
    unfold scChances. rewrite <-(take_drop_middle ds i d Hd) at 2.
    rewrite insert_take_drop by (by eapply lookup_lt_Some).
    rewrite !filter_app, !length_app.
    rewrite (filter_cons_False _ (useSecondChance now d)) by done.
    rewrite (filter_cons_True _ d) by done. cbn. lia.
  - rewrite length_insert in Hlen. exists k, ds', e. split_and!; try done.
    intros j f Hf'. destruct (decide (j = i)) as [->|Hne'].
    + right. assert (f = d) as -> by congruence. split; [done|].
      destruct (Hj i (useSecondChance now d)) as [Hi'|[Hs ?]].
      * apply list_lookup_insert_eq. by eapply lookup_lt_Some.
      * exact Hi'.
      * discriminate Hs.
    + apply Hj. by rewrite list_lookup_insert_ne.
Qed.

Lemma second_chance_ok : PolicyOk (@SecondChanceRP G).
Proof.
  intros now g ds Hne. cbn. unfold sc_getVictim. destruct ds as [|c ds]; [done|].
  set (l := c :: ds) in *. destruct (list_find _ l) as [[i d]|] eqn:Hf.
  - apply list_find_Some in Hf as (Hi & _). apply lookup_lt_Some in Hi. naive_solver.
  - destruct (scLoop_ok now (S (scChances l)) l) as (i & ds' & d & -> & Hlen & Hd & _);
      [done|lia|]. exists i, ds', g. apply lookup_lt_Some in Hd. split_and!; [done|lia|done].
Qed.

Context `{RandomGenOk G}.

Lemma bip_ok btp : PolicyOk (@BIPRP G _ btp).
Proof. apply lru_ok. Qed.

Lemma random_ok : PolicyOk (@RandomRP G _).
Proof.
  intros now g ds Hne. cbn. unfold random_getVictim. destruct ds as [|c ds]; [done|].
  set (l := c :: ds) in *.
  assert (0 < length l)%nat by (cbn; lia).
  pose proof (random_bounds 0 (Z.of_nat (length l) - 1) g ltac:(lia)) as Hr.
  destruct (random _ _ g) as [r g'] eqn:Er. cbn [fst] in Hr.
  eexists _, l, g'. split_and!; [reflexivity| |done].
  destruct (list_find _ l) as [[i d]|] eqn:Hf; [|lia].
  apply list_find_Some in Hf as (Hi & _). by apply lookup_lt_Some in Hi.
Qed.

Section brrip_ok.
Context (maxRRPV : Z) (hitPriority : bool) (btp : Z).

(** The search stops at the first invalid entry, or finds the largest value. *)
Lemma brripSearch_spec ds l i v :
  drop i ds = l → ds !! v.1 = Some v.2 → (∀ j r, (j < i)%nat → ds !! j = Some r → r <= v.2) →
  match brripSearch maxRRPV i v l with
  | inl k => ds !! k = Some (maxRRPV + 1)
  | inr (k, r) => ds !! k = Some r ∧ ∀ j r', ds !! j = Some r' → r' <= r
  end.
Proof.
  revert i v. induction l as [|c l IH]; intros i [k r] Hl Hk Hle; cbn in *.
  - split; [done|]. intros j r' Hj. apply (Hle j); [|done].
    apply lookup_lt_Some in Hj. apply (f_equal length) in Hl.
    rewrite length_drop in Hl. cbn in Hl. lia.
  - assert (Hc : ds !! i = Some c)
      by (rewrite <-(Nat.add_0_r i), <-lookup_drop, Hl; reflexivity).
    assert (Hdrop : drop (S i) ds = l)
      by (rewrite <-Nat.add_1_r, <-drop_drop, Hl; reflexivity).
    destruct (Z.eqb_spec c (maxRRPV + 1)) as [->|]; [done|].
    apply IH; [done|by destruct (Z.ltb_spec r c)|].
    intros j r' Hj Hr. destruct (decide (j = i)) as [->|].
    + assert (r' = c) as -> by congruence. destruct (Z.ltb_spec r c); cbn; lia.
    + assert (r' <= r) by (apply (Hle j); [lia|done]). destruct (Z.ltb_spec r c); cbn; lia.
Qed.

Lemma brrip_victim now (g : G) ds :
  ds ≠ [] →
  ∃ i ds' r, brrip_getVictim maxRRPV now g ds = Ok (i, ds', g) ∧ length ds' = length ds ∧
    ds' !! i = Some r ∧
    (r = maxRRPV + 1 ∧ ds' = ds ∨
     (∀ j r', ds' !! j = Some r' → r' <= r) ∧ maxRRPV <= r).
Proof.
  unfold brrip_getVictim. destruct ds as [|c ds]; [done|]. intros _. set (l := c :: ds).
  pose proof (brripSearch_spec l l 0 (0%nat, c) eq_refl eq_refl) as Hs.
  destruct (brripSearch maxRRPV 0 (0%nat, c) l) as [i|[i r]].
  - specialize (Hs ltac:(lia)). exists i, l, (maxRRPV + 1). naive_solver.
  - destruct Hs as [Hi Hmax]; [lia|]. destruct (Z.ltb_spec 0 (maxRRPV - r)) as [Hd|Hd].
    + exists i, (map (λ x, x + (maxRRPV - r)) l), maxRRPV. split_and!; [done|apply length_map| |].
      * rewrite list_lookup_fmap, Hi. cbn. f_equal. lia.
      * right. split; [|lia]. intros j r'. rewrite list_lookup_fmap, fmap_Some.
        intros (x & Hx & ->). specialize (Hmax _ _ Hx). lia.
    + exists i, l, r. split_and!; [done|done|done|]. right. split; [done|lia].
Qed.

Lemma brrip_ok rp : BRRIPRP maxRRPV hitPriority btp = Ok rp → PolicyOk (G:=G) rp.
Proof.
  unfold BRRIPRP. destruct (maxRRPV <=? 0); [done|]. intros [= <-] now g ds Hne.
  destruct (brrip_victim now g ds Hne) as (i & ds' & r & Hv & Hlen & Hi & _).
  exists i, ds', g. split_and!; [exact Hv| |done].
  rewrite <-Hlen. by eapply lookup_lt_Some.
Qed.

(** Prediction values stay between 0 and [maxRRPV], or are the invalid one. *)
Definition rrpv_ok (r : Z) : Prop := 0 <= r <= maxRRPV + 1.

Lemma brrip_bounds rp now (g : G) ds i ds' g' r :
  BRRIPRP maxRRPV hitPriority btp = Ok rp → rrpv_ok r → Forall rrpv_ok ds →
  rrpv_ok (rp_instantiateEntry rp) ∧ rrpv_ok (rp_invalidate rp r) ∧
  rrpv_ok (rp_touch rp now r) ∧ rrpv_ok (rp_reset rp now g r).1 ∧
  (rp_getVictim rp now g ds = Ok (i, ds', g') → Forall rrpv_ok ds').
Proof.
  unfold BRRIPRP. destruct (Z.leb_spec maxRRPV 0); [done|]. intros [= <-] Hr Hds. cbn.
  unfold rrpv_ok in *. split; [lia|]. split; [lia|]. split; [|split].
  - unfold brrip_touch. destruct hitPriority; [lia|]. destruct (Z.ltb_spec 0 r); lia.
  - unfold brrip_reset. destruct (random 1 100 g) as [x ?]. destruct (x <=? btp); cbn; lia.
  - unfold brrip_getVictim. destruct ds as [|c ds]; [done|]. set (l := c :: ds) in *.
    pose proof (brripSearch_spec l l 0 (0%nat, c) eq_refl eq_refl ltac:(lia)) as Hs.
    destruct (brripSearch maxRRPV 0 (0%nat, c) l) as [k|[k r']]; [by intros [= <- <- <-]|].
    destruct Hs as [Hk Hmax]. destruct (Z.ltb_spec 0 (maxRRPV - r')); [|by intros [= <- <- <-]].
    intros Heq. assert (ds' = (λ x, x + (maxRRPV - r')) <$> l) as -> by (injection Heq as _ <- _; reflexivity).
    apply Forall_forall. intros x [y [-> Hy]]%list_elem_of_fmap.
    apply list_elem_of_lookup in Hy as [j Hj]. specialize (Hmax _ _ Hj).
    rewrite Forall_forall in Hds. specialize (Hds y ltac:(by apply list_elem_of_lookup; exists j)). cbn in *. lia.
Qed.
End brrip_ok.
End policies_ok.
