(* ===== verification/ReplOrder.v ===== *)
(** * Replacement order

    What the time stamps of [LRURP] mean: over any sequence of uses and
    invalidations at increasing ticks they implement a list of ways, the most
    recently used first; and the clock-like search of [SecondChanceRP] ends. *)

From S2P Require Import Prelude ReplPolicy.

Local Open Scope Z_scope.

(** ** Least recently used *)

(** What happens to the ways of a set: [LUse] is a hit ([touch]) or a fill
    ([reset]), [LDrop] an invalidation. *)
Inductive LruEvent := LUse (hit : bool) (w : nat) | LDrop (w : nat).

Section lru.
Context {G : Type}.
Abbreviation rp := (@LRURP G).

(** The policy's calls on the data of the ways. *)
Definition lruStep (g : G) (now : Tick) (ev : LruEvent) (ds : list Tick) : list Tick :=
  match ev with
  | LUse true w => alter (rp_touch rp now) w ds
  | LUse false w => alter (λ d, (rp_reset rp now g d).1) w ds
  | LDrop w => alter (rp_invalidate rp) w ds
  end.

(** The abstract policy: the used ways, the most recently used first. *)
Definition stackStep (ev : LruEvent) (used : list nat) : list nat :=
  match ev with
  | LUse _ w => w :: filter (λ v, v ≠ w) used
  | LDrop w => filter (λ v, v ≠ w) used
  end.

(** Its victim: the first unused way, or the least recently used one. *)
Definition stackVictim (n : nat) (used : list nat) : option nat :=
  match list_find (λ w, w ∉ used) (seq 0 n) with
  | Some (_, w) => Some w
  | None => last used
  end.

Definition lruRun (g : G) (evs : list (Tick * LruEvent)) (ds : list Tick) : list Tick :=
  foldl (λ ds ev, lruStep g ev.1 ev.2 ds) ds evs.
Definition stackRun (evs : list (Tick * LruEvent)) (used : list nat) : list nat :=
  foldl (λ used ev, stackStep ev.2 used) used evs.

Definition way (ev : LruEvent) : nat := match ev with LUse _ w | LDrop w => w end.

(** Ways in range, at strictly increasing ticks. *)
Definition events_ok (n : nat) (evs : list (Tick * LruEvent)) : Prop :=
  Forall (λ ev, 0 < ev.1 ∧ (way ev.2 < n)%nat) evs ∧ StronglySorted Z.lt evs.*1.

(** [now] bounds the stamps. *)
Definition lru_rel (n : nat) (now : Tick) (ds : list Tick) (used : list nat) : Prop :=
  length ds = n ∧
  StronglySorted (λ a b, ds !!! b < ds !!! a) used ∧
  (∀ w, w ∈ used ↔ ∃ t, ds !! w = Some t ∧ t ≠ 0) ∧
  (∀ w t, ds !! w = Some t → 0 <= t <= now).

Lemma lru_init n : lru_rel n 0 (replicate n (rp_instantiateEntry rp)) [].
Proof.
  split_and!.
  - apply length_replicate.
  - constructor.
  - intros w. split; [set_solver|]. intros (t & [-> _]%lookup_replicate & Ht). done.
  - intros w t [-> _]%lookup_replicate. cbn. lia.
Qed.

(** A stamp of another way keeps the order of the others. *)
Lemma sorted_insert_other (ds : list Tick) w v l :
  w ∉ l → StronglySorted (λ a b, ds !!! b < ds !!! a) l →
  StronglySorted (λ a b, <[w:=v]> ds !!! b < <[w:=v]> ds !!! a) l.
Proof.
  intros Hw Hs. induction Hs as [|a l Hl IH Ha]; constructor.
  - apply IH. set_solver.
  - rewrite Forall_forall in *. intros b Hb.
    rewrite !list_lookup_total_insert_ne by set_solver. auto.
Qed.

Lemma lruStep_insert g now ev (ds : list Tick) :
  (way ev < length ds)%nat →
  lruStep g now ev ds = <[way ev := match ev with LUse _ _ => now | LDrop _ => 0 end]> ds.
Proof.
  intros [d Hd]%lookup_lt_is_Some_2.
  destruct ev as [[] w|w]; cbn in *; apply list_eq; intros i;
    (destruct (decide (i = w)) as [->|];
      [rewrite list_lookup_alter_eq, Hd, list_lookup_insert_eq by (by eapply lookup_lt_Some)
      |rewrite list_lookup_alter_ne, list_lookup_insert_ne by done]); done.
Qed.

Lemma lru_step_rel g n now now' ev ds used :
  lru_rel n now ds used → now < now' → 0 < now' → (way ev < n)%nat →
  lru_rel n now' (lruStep g now' ev ds) (stackStep ev used).
Proof.
  intros (Hlen & Hsort & Hused & Hpos) Hnow Hp Hw.
  rewrite lruStep_insert by lia.
  assert (Hf : StronglySorted (λ a b, ds !!! b < ds !!! a) (filter (λ v, v ≠ way ev) used))
    by (by apply StronglySorted_filter).
  assert (Hn : way ev ∉ filter (λ v, v ≠ way ev) used)
    by (rewrite list_elem_of_filter; naive_solver).
  split_and!.
  - by rewrite length_insert.
  - destruct ev as [b w|w]; cbn in *; [constructor|]; try (by apply sorted_insert_other).
    apply Forall_forall. intros v [Hv Hin]%list_elem_of_filter.
    rewrite list_lookup_total_insert_eq by lia. rewrite list_lookup_total_insert_ne by done.
    apply Hused in Hin as (t & Ht & _). erewrite list_lookup_total_correct by done.
    specialize (Hpos _ _ Ht). lia.
  - intros v. destruct (decide (v = way ev)) as [->|Hne].
    + rewrite list_lookup_insert_eq by lia.
      destruct ev as [b w|w]; cbn in *; [|naive_solver].
      split; [intros _; exists now'; split; [done|lia]|intros _; set_solver].
    + rewrite list_lookup_insert_ne by done. rewrite <-Hused.
      destruct ev as [b w|w]; cbn in *; rewrite ?elem_of_cons, list_elem_of_filter; naive_solver.
  - intros v t. destruct (decide (v = way ev)) as [->|Hne].
    + rewrite list_lookup_insert_eq by lia. intros [= <-]. destruct ev; lia.
    + rewrite list_lookup_insert_ne by done. intros Ht. specialize (Hpos _ _ Ht). lia.
Qed.

Lemma lru_run_rel g n evs now ds used :
  lru_rel n now ds used → Forall (λ ev, now < ev.1) evs → events_ok n evs →
  ∃ now', lru_rel n now' (lruRun g evs ds) (stackRun evs used).
Proof.
  revert now ds used. induction evs as [|[t ev] evs IH]; intros now ds used Hrel Hnow [Hok Hs];
    cbn; [eauto|].
  inversion Hnow as [|? ? Ht]; inversion Hok as [|? ? [Hp Hw] Hok']; inversion Hs as [|? ? Hs' Hall];
    subst; cbn in *.
  apply (IH t); [by eapply lru_step_rel|exact (proj1 (Forall_fmap fst (Z.lt t) evs) Hall)|done].
Qed.

(** The victim under the relation. *)
Lemma lru_rel_victim n now ds used g tick :
  (0 < n)%nat → lru_rel n now ds used →
  ∃ w, rp_getVictim rp tick g ds = Ok (w, ds, g) ∧ stackVictim n used = Some w.
Proof.
  intros Hn (Hlen & Hsort & Hused & Hpos).
  destruct (getVictimBy_least id ds) as (w & Hv & d & Hd & Hmin & Hfirst); [by intros ->; cbn in *; lia|].
  exists w. cbn. unfold searching. change (λ c v, c <? v) with (λ c v : Tick, id c <? id v).
  rewrite Hv. split; [done|]. unfold stackVictim.
  destruct (list_find _ (seq 0 n)) as [[i v]|] eqn:Hf.
  - apply list_find_Some in Hf as (Hi & Hnot & Hbefore).
    apply lookup_seq in Hi as [-> Hi]. cbn in *. f_equal.
    assert (Hzero : ds !! i = Some 0).
    { destruct (lookup_lt_is_Some_2 ds i) as [t Ht]; [lia|]. rewrite Ht. f_equal.
      destruct (decide (t = 0)); [done|]. destruct Hnot. apply Hused. eauto. }
    destruct (lt_eq_lt_dec i w) as [[Hlt|?]|Hlt]; [|done|].
    + specialize (Hfirst _ _ Hlt Hzero). specialize (Hpos _ _ Hd). unfold id in *. lia.
    + specialize (Hbefore w w). rewrite lookup_seq_lt in Hbefore by lia.
      assert (w ∉ used → False) as Hin by (intros Hin; by apply (Hbefore eq_refl); [lia|]).
      destruct (decide (w ∈ used)) as [Hu|Hu]; [|by destruct Hin].
      apply Hused in Hu as (t & Ht & Hne). specialize (Hmin _ _ Hzero). specialize (Hpos _ _ Ht).
      unfold id in *. naive_solver lia.
  - rewrite list_find_None, Forall_forall in Hf.
    assert (Hw : w ∈ used).
    { destruct (decide (w ∈ used)); [done|]. destruct (Hf w); [|done].
      apply elem_of_seq. apply lookup_lt_Some in Hd. lia. }
    apply list_elem_of_split in Hw as (l1 & l2 & ->).
    destruct l2 as [|x l2 _] using rev_ind; [by rewrite last_app, last_cons|].
    exfalso. apply StronglySorted_app in Hsort as (_ & _ & Hs).
    inversion Hs as [|? ? _ Hall]; subst. rewrite Forall_forall in Hall.
    specialize (Hall x ltac:(set_solver)).
    destruct (proj1 (Hused x) ltac:(set_solver)) as (t & Ht & _).
    specialize (Hmin _ _ Ht). erewrite !list_lookup_total_correct in Hall by done.
    unfold id in *. lia.
Qed.

(** C39: [LRURP] implements least-recently-used replacement.  After any sequence of
    hits, fills and invalidations of the ways of a set, at strictly increasing
    ticks, [getVictim] picks the first way that is not in use, and if there is none
    the way at the end of the list that moves every used way to its front. *)
Theorem lru_refines_recency (n : nat) (g : G) (tick : Tick) (evs : list (Tick * LruEvent)) :
  (0 < n)%nat → events_ok n evs →
  ∃ w ds', rp_getVictim rp tick g (lruRun g evs (replicate n (rp_instantiateEntry rp)))
           = Ok (w, ds', g) ∧
           stackVictim n (stackRun evs []) = Some w.
Proof.
  intros Hn Hev.
  destruct (lru_run_rel g n evs 0 _ _ (lru_init n)) as [now Hrel]; [|done|].
  - destruct Hev as [Hall _]. eapply Forall_impl; [done|]. naive_solver.
  - destruct (lru_rel_victim n now _ _ g tick Hn Hrel) as (w & Hv & Hs). eauto.
Qed.
End lru.

(** Four ways are filled, way 0 is hit again, way 2 is dropped and filled: the
    victim is way 1. *)
Lemma lru_refines_recency_witness :
  let evs := [(1, LUse false 0%nat); (2, LUse false 1%nat); (3, LUse false 2%nat);
              (4, LUse false 3%nat); (5, LUse true 0%nat); (6, LDrop 2); (7, LUse false 2%nat)] in
  stackVictim 4 (stackRun evs []) = Some 1%nat ∧
  ∃ w ds', rp_getVictim LRURP 8 tt (lruRun tt evs (replicate 4 0)) = Ok (w, ds', tt) ∧
           stackVictim 4 (stackRun evs []) = Some w.
Proof.
  intros evs. split; [reflexivity|].
  apply (lru_refines_recency 4 tt 8 evs); [lia|]. split.
  - repeat constructor; cbn; lia.
  - repeat constructor; cbn; lia.
Defined.

(** ** Second chance *)

(** The search of [SecondChanceRP::getVictim] ends: every round but the last
    uses up one second chance.  The victim has none left and is the oldest
    insertion of the candidates, or it is an invalid entry and nothing changes;
    a candidate that loses its second chance is re-inserted at the current tick,
    the others keep their data. *)
Theorem second_chance_search {G} (now : Tick) (g : G) (ds : list SecondChanceReplData) :
  ds ≠ [] →
  ∃ i ds' d, rp_getVictim SecondChanceRP now g ds = Ok (i, ds', g) ∧
    ds' !! i = Some d ∧ hasSecondChance d = false ∧
    (sc_invalid d = true ∧ ds' = ds ∨
     first_least sc_tickInserted ds' i ∧ Forall (λ e, sc_invalid e = false) ds) ∧
    (∀ j e, ds !! j = Some e →
       ds' !! j = Some e ∨ hasSecondChance e = true ∧ ds' !! j = Some (useSecondChance now e)).
Proof.
  intros Hne. cbn. unfold sc_getVictim. destruct ds as [|c ds]; [done|]. set (l := c :: ds) in *.
  destruct (list_find _ l) as [[i d]|] eqn:Hf.
  - apply list_find_Some in Hf as (Hi & Hinv & _). exists i, l, d.
    unfold sc_invalid in *. apply andb_true_iff in Hinv as Hinv'.
    destruct Hinv' as [_ Hc%negb_true_iff]. naive_solver.
  - destruct (scLoop_ok now (S (scChances l)) l) as (i & ds' & d & -> & _ & Hd & Hc & Hfl & Hj);
      [done|lia|]. exists i, ds', d. split_and!; try done. right. split; [done|].
    apply list_find_None in Hf. eapply Forall_impl; [exact Hf|].
    intros e He. by apply not_true_is_false.
Qed.

(** Three entries, two with a second chance: the third is evicted only after the
    older two used theirs. *)
Lemma second_chance_search_witness :
  let ds := [mkSecondChance 3 true; mkSecondChance 5 true; mkSecondChance 7 false] in
  rp_getVictim SecondChanceRP 9 tt ds
    = Ok (2%nat, [mkSecondChance 9 false; mkSecondChance 9 false; mkSecondChance 7 false], tt) ∧
  ∃ i ds' d, rp_getVictim SecondChanceRP 9 tt ds = Ok (i, ds', tt) ∧
    ds' !! i = Some d ∧ hasSecondChance d = false ∧
    (sc_invalid d = true ∧ ds' = ds ∨
     first_least sc_tickInserted ds' i ∧ Forall (λ e, sc_invalid e = false) ds) ∧
    (∀ j e, ds !! j = Some e →
       ds' !! j = Some e ∨ hasSecondChance e = true ∧ ds' !! j = Some (useSecondChance 9 e)).
Proof.
  intros ds. split; [reflexivity|]. apply (second_chance_search 9 tt ds). done.
Defined.

(** [MRURP] evicts the largest stamp, so an invalidated way, whose stamp is 0,
    goes last and not first. *)
Example mru_keeps_invalid :
  rp_getVictim (@MRURP unit) 9 tt [rp_invalidate (@MRURP unit) 5; 7] = Ok (1%nat, [0; 7], tt).
Proof. reflexivity. Qed.
