(* ===== verification/Packet.v ===== *)
(** * Memory packets

    [mem/packet.hh], [mem/packet.cc]: the commands with their attributes, and the
    packets the caches exchange.  A packet's request is the core's [Request], with
    the fields of the class the core model does not carry beside it. *)

From S2P Require Import Prelude Config.

Local Open Scope Z_scope.

(** ** Commands *)

Module MemCmd.

(** [MemCmd::Command]. *)
Inductive Command :=
  | InvalidCmd | ReadReq | ReadResp | ReadRespWithInvalidate | WriteReq | WriteResp
  | WritebackDirty | WritebackClean | WriteClean | CleanEvict | SoftPFReq
  | HardPFReq | SoftPFResp | HardPFResp | WriteLineReq | UpgradeReq | SCUpgradeReq
  | UpgradeResp | SCUpgradeFailReq | UpgradeFailResp | ReadExReq | ReadExResp
  | ReadCleanReq | ReadSharedReq | LoadLockedReq | StoreCondReq | StoreCondFailReq
  | StoreCondResp | SwapReq | SwapResp | MessageReq | MessageResp | MemFenceReq
  | MemFenceResp | CleanSharedReq | CleanSharedResp | CleanInvalidReq
  | CleanInvalidResp | InvalidDestError | BadAddressError | FunctionalReadError
  | FunctionalWriteError | PrintReq | FlushReq | InvalidateReq | InvalidateResp.

(** [MemCmd::Attribute]. *)
Inductive Attribute :=
  | IsRead | IsWrite | IsUpgrade | IsInvalidate | IsClean | NeedsWritable | IsRequest
  | IsResponse | NeedsResponse | IsEviction | IsSWPrefetch | IsHWPrefetch | IsLlsc
  | HasData | IsError | IsPrint | IsFlush | FromCache.

#[global] Instance Attribute_eq_dec : EqDecision Attribute.
Proof. solve_decision. Defined.

(** [commandInfo]: the attributes and the response. *)
Definition commandInfo (c : Command) : list Attribute * Command :=
  match c with
  | InvalidCmd => ([], InvalidCmd)
  | ReadReq => ([IsRead; IsRequest; NeedsResponse], ReadResp)
  | ReadResp => ([IsRead; IsResponse; HasData], InvalidCmd)
  | ReadRespWithInvalidate => ([IsRead; IsResponse; HasData; IsInvalidate], InvalidCmd)
  | WriteReq => ([IsWrite; NeedsWritable; IsRequest; NeedsResponse; HasData], WriteResp)
  | WriteResp => ([IsWrite; IsResponse], InvalidCmd)
  | WritebackDirty => ([IsWrite; IsRequest; IsEviction; HasData; FromCache], InvalidCmd)
  | WritebackClean => ([IsWrite; IsRequest; IsEviction; HasData; FromCache], InvalidCmd)
  | WriteClean => ([IsWrite; IsRequest; HasData; FromCache], InvalidCmd)
  | CleanEvict => ([IsRequest; IsEviction; FromCache], InvalidCmd)
  | SoftPFReq => ([IsRead; IsRequest; IsSWPrefetch; NeedsResponse], SoftPFResp)
  | HardPFReq =>
      ([IsRead; IsRequest; IsHWPrefetch; NeedsResponse; FromCache], HardPFResp)
  | SoftPFResp => ([IsRead; IsResponse; IsSWPrefetch; HasData], InvalidCmd)
  | HardPFResp => ([IsRead; IsResponse; IsHWPrefetch; HasData], InvalidCmd)
  | WriteLineReq =>
      ([IsWrite; NeedsWritable; IsRequest; NeedsResponse; HasData], WriteResp)
  | UpgradeReq =>
      ([IsInvalidate; NeedsWritable; IsUpgrade; IsRequest; NeedsResponse; FromCache], UpgradeResp)
  | SCUpgradeReq =>
      ([IsInvalidate; NeedsWritable; IsUpgrade; IsLlsc; IsRequest; NeedsResponse; FromCache], UpgradeResp)
  | UpgradeResp => ([IsUpgrade; IsResponse], InvalidCmd)
  | SCUpgradeFailReq =>
      ([IsRead; NeedsWritable; IsInvalidate; IsLlsc; IsRequest; NeedsResponse; FromCache], UpgradeFailResp)
  | UpgradeFailResp => ([IsRead; IsResponse; HasData], InvalidCmd)
  | ReadExReq =>
      ([IsRead; NeedsWritable; IsInvalidate; IsRequest; NeedsResponse; FromCache], ReadExResp)
  | ReadExResp => ([IsRead; IsResponse; HasData], InvalidCmd)
  | ReadCleanReq => ([IsRead; IsRequest; NeedsResponse; FromCache], ReadResp)
  | ReadSharedReq => ([IsRead; IsRequest; NeedsResponse; FromCache], ReadResp)
  | LoadLockedReq => ([IsRead; IsLlsc; IsRequest; NeedsResponse], ReadResp)
  | StoreCondReq =>
      ([IsWrite; NeedsWritable; IsLlsc; IsRequest; NeedsResponse; HasData], StoreCondResp)
  | StoreCondFailReq =>
      ([IsWrite; NeedsWritable; IsLlsc; IsRequest; NeedsResponse; HasData], StoreCondResp)
  | StoreCondResp => ([IsWrite; IsLlsc; IsResponse], InvalidCmd)
  | SwapReq =>
      ([IsRead; IsWrite; NeedsWritable; IsRequest; HasData; NeedsResponse], SwapResp)
  | SwapResp => ([IsRead; IsWrite; IsResponse; HasData], InvalidCmd)
  | MessageReq => ([IsWrite; IsRequest; NeedsResponse; HasData], MessageResp)
  | MessageResp => ([IsWrite; IsResponse], InvalidCmd)
  | MemFenceReq => ([IsRequest; NeedsResponse], MemFenceResp)
  | MemFenceResp => ([IsResponse], InvalidCmd)
  | CleanSharedReq => ([IsRequest; IsClean; NeedsResponse; FromCache], CleanSharedResp)
  | CleanSharedResp => ([IsResponse; IsClean], InvalidCmd)
  | CleanInvalidReq =>
      ([IsRequest; IsInvalidate; IsClean; NeedsResponse; FromCache], CleanInvalidResp)
  | CleanInvalidResp => ([IsResponse; IsInvalidate; IsClean], InvalidCmd)
  | InvalidDestError => ([IsResponse; IsError], InvalidCmd)
  | BadAddressError => ([IsResponse; IsError], InvalidCmd)
  | FunctionalReadError => ([IsRead; IsResponse; IsError], InvalidCmd)
  | FunctionalWriteError => ([IsWrite; IsResponse; IsError], InvalidCmd)
  | PrintReq => ([IsRequest; IsPrint], InvalidCmd)
  | FlushReq => ([IsRequest; IsFlush; NeedsWritable], InvalidCmd)
  | InvalidateReq =>
      ([IsInvalidate; IsRequest; NeedsWritable; NeedsResponse; FromCache], InvalidateResp)
  | InvalidateResp => ([IsInvalidate; IsResponse], InvalidCmd)
  end.

Definition testCmdAttrib (c : Command) (a : Attribute) : bool :=
  bool_decide (a ∈ (commandInfo c).1).

Definition isRead (c : Command) := testCmdAttrib c IsRead.
Definition isWrite (c : Command) := testCmdAttrib c IsWrite.
Definition isUpgrade (c : Command) := testCmdAttrib c IsUpgrade.
Definition isRequest (c : Command) := testCmdAttrib c IsRequest.
Definition isResponse (c : Command) := testCmdAttrib c IsResponse.
Definition needsWritable (c : Command) := testCmdAttrib c NeedsWritable.
Definition needsResponse (c : Command) := testCmdAttrib c NeedsResponse.
Definition isInvalidate (c : Command) := testCmdAttrib c IsInvalidate.
Definition isEviction (c : Command) := testCmdAttrib c IsEviction.
Definition isClean (c : Command) := testCmdAttrib c IsClean.
Definition fromCache (c : Command) := testCmdAttrib c FromCache.
Definition isWriteback (c : Command) := testCmdAttrib c IsEviction && testCmdAttrib c HasData.
Definition hasData (c : Command) := testCmdAttrib c HasData.
Definition isLLSC (c : Command) := testCmdAttrib c IsLlsc.
Definition isSWPrefetch (c : Command) := testCmdAttrib c IsSWPrefetch.
Definition isPrefetch (c : Command) :=
  testCmdAttrib c IsSWPrefetch || testCmdAttrib c IsHWPrefetch.
Definition isError (c : Command) := testCmdAttrib c IsError.
Definition responseCommand (c : Command) : Command := (commandInfo c).2.

(** The enumeration, in order, and the index of a command ([toInt]). *)
Definition all_commands : list Command :=
  [InvalidCmd; ReadReq; ReadResp; ReadRespWithInvalidate; WriteReq; WriteResp;
   WritebackDirty; WritebackClean; WriteClean; CleanEvict; SoftPFReq; HardPFReq;
   SoftPFResp; HardPFResp; WriteLineReq; UpgradeReq; SCUpgradeReq; UpgradeResp;
   SCUpgradeFailReq; UpgradeFailResp; ReadExReq; ReadExResp; ReadCleanReq;
   ReadSharedReq; LoadLockedReq; StoreCondReq; StoreCondFailReq; StoreCondResp;
   SwapReq; SwapResp; MessageReq; MessageResp; MemFenceReq; MemFenceResp;
   CleanSharedReq; CleanSharedResp; CleanInvalidReq; CleanInvalidResp;
   InvalidDestError; BadAddressError; FunctionalReadError; FunctionalWriteError;
   PrintReq; FlushReq; InvalidateReq; InvalidateResp].

Definition toInt (c : Command) : N :=
  match c with
  | InvalidCmd => 0%N | ReadReq => 1%N | ReadResp => 2%N
  | ReadRespWithInvalidate => 3%N | WriteReq => 4%N | WriteResp => 5%N
  | WritebackDirty => 6%N | WritebackClean => 7%N | WriteClean => 8%N
  | CleanEvict => 9%N | SoftPFReq => 10%N | HardPFReq => 11%N | SoftPFResp => 12%N
  | HardPFResp => 13%N | WriteLineReq => 14%N | UpgradeReq => 15%N
  | SCUpgradeReq => 16%N | UpgradeResp => 17%N | SCUpgradeFailReq => 18%N
  | UpgradeFailResp => 19%N | ReadExReq => 20%N | ReadExResp => 21%N
  | ReadCleanReq => 22%N | ReadSharedReq => 23%N | LoadLockedReq => 24%N
  | StoreCondReq => 25%N | StoreCondFailReq => 26%N | StoreCondResp => 27%N
  | SwapReq => 28%N | SwapResp => 29%N | MessageReq => 30%N | MessageResp => 31%N
  | MemFenceReq => 32%N | MemFenceResp => 33%N | CleanSharedReq => 34%N
  | CleanSharedResp => 35%N | CleanInvalidReq => 36%N | CleanInvalidResp => 37%N
  | InvalidDestError => 38%N | BadAddressError => 39%N | FunctionalReadError => 40%N
  | FunctionalWriteError => 41%N | PrintReq => 42%N | FlushReq => 43%N
  | InvalidateReq => 44%N | InvalidateResp => 45%N
  end.

#[global] Instance toInt_inj : Inj (=) (=) toInt.
Proof. apply (enum_index_inj toInt all_commands). by intros []. Qed.

#[global] Instance Command_eq_dec : EqDecision Command.
Proof.
  intros c d. destruct (decide (toInt c = toInt d)) as [E|E].
  - left. by apply toInt_inj.
  - right. by intros ->.
Defined.

(** A statement about every command is checked on the table. *)
Lemma forall_commands (P : Command → bool) :
  forallb P all_commands = true → ∀ c, P c = true.
Proof. intros H c. rewrite forallb_forall in H. apply H. destruct c; cbn; tauto. Qed.
End MemCmd.

(** ** Packets *)

(** More flags of [Request] ([mem/request.hh]). *)
Module ReqFlag2.
Definition MEM_SWAP : Z := 0x400000.
Definition PREFETCH : Z := 0x1000000.
Definition SECURE : Z := 0x10000000.
Definition ATOMIC_RETURN_OP : Z := 0x40000000.
Definition ATOMIC_NO_RETURN_OP : Z := 0x80000000.
Definition DST_BITS : Z := 0x3000000000.
End ReqFlag2.

Definition req_isSwap (r : Request) : bool :=
  flags_isSet (req_flags r) (Z.lor ReqFlag2.MEM_SWAP ReqFlag.MEM_SWAP_COND).
Definition req_isCondSwap (r : Request) : bool :=
  flags_isSet (req_flags r) ReqFlag.MEM_SWAP_COND.
Definition req_isPrefetch (r : Request) : bool := flags_isSet (req_flags r) ReqFlag2.PREFETCH.
Definition req_isSecure (r : Request) : bool := flags_isSet (req_flags r) ReqFlag2.SECURE.
Definition req_isAtomic (r : Request) : bool :=
  flags_isSet (req_flags r) ReqFlag2.ATOMIC_RETURN_OP ||
  flags_isSet (req_flags r) ReqFlag2.ATOMIC_NO_RETURN_OP.
Definition req_isCacheClean (r : Request) : bool := flags_isSet (req_flags r) ReqFlag.CLEAN.
Definition req_isCacheInvalidate (r : Request) : bool :=
  flags_isSet (req_flags r) ReqFlag.INVALIDATE.
Definition req_getDest (r : Request) : Z := Z.land (req_flags r) ReqFlag2.DST_BITS.

Module PktFlag.
Definition COPY_FLAGS : Z := 0x3F.
Definition HAS_SHARERS : Z := 0x1.
Definition EXPRESS_SNOOP : Z := 0x2.
Definition RESPONDER_HAD_WRITABLE : Z := 0x4.
Definition CACHE_RESPONDING : Z := 0x8.
Definition WRITE_THROUGH : Z := 0x10.
Definition SATISFIED : Z := 0x20.
Definition BLOCK_CACHED : Z := 0x10000.
End PktFlag.

(** A [Packet] whose address and size are valid (the constructors set them).  The
    sender state is left out: the packets that reach a first-level cache carry none
    of a cache. *)
Record Pkt := mkPkt {
  pk_cmd : MemCmd.Command;
  pk_flags : Z; (** the coordination flags below *)
  pk_req : Request;
  pk_contextId : Z; (** [req->contextId()] *)
  pk_masterId : Z; (** [req->masterId()] *)
  pk_taskId : Z; (** [req->taskId()] *)
  pk_extraData : Z; (** [req->getExtraData()] *)
  pk_data : option (list Z); (** [data], the payload's bytes; [None] is the null pointer *)
  pk_static : bool; (** [STATIC_DATA] *)
  pk_addr : Addr;
  pk_isSecure : bool;
  pk_size : Z;
  pk_headerDelay : Tick;
  pk_snoopDelay : Tick;
  pk_payloadDelay : Tick;
}.

Definition set_pk_cmd (v : MemCmd.Command) (p : Pkt) : Pkt :=
  mkPkt v (pk_flags p) (pk_req p) (pk_contextId p) (pk_masterId p) (pk_taskId p)
    (pk_extraData p) (pk_data p) (pk_static p) (pk_addr p) (pk_isSecure p)
    (pk_size p) (pk_headerDelay p) (pk_snoopDelay p) (pk_payloadDelay p).
Definition set_pk_flags (v : Z) (p : Pkt) : Pkt :=
  mkPkt (pk_cmd p) v (pk_req p) (pk_contextId p) (pk_masterId p) (pk_taskId p)
    (pk_extraData p) (pk_data p) (pk_static p) (pk_addr p) (pk_isSecure p)
    (pk_size p) (pk_headerDelay p) (pk_snoopDelay p) (pk_payloadDelay p).
Definition set_pk_req (v : Request) (p : Pkt) : Pkt :=
  mkPkt (pk_cmd p) (pk_flags p) v (pk_contextId p) (pk_masterId p) (pk_taskId p)
    (pk_extraData p) (pk_data p) (pk_static p) (pk_addr p) (pk_isSecure p)
    (pk_size p) (pk_headerDelay p) (pk_snoopDelay p) (pk_payloadDelay p).
Definition set_pk_extraData (v : Z) (p : Pkt) : Pkt :=
  mkPkt (pk_cmd p) (pk_flags p) (pk_req p) (pk_contextId p) (pk_masterId p)
    (pk_taskId p) v (pk_data p) (pk_static p) (pk_addr p) (pk_isSecure p)
    (pk_size p) (pk_headerDelay p) (pk_snoopDelay p) (pk_payloadDelay p).
Definition set_pk_data (v : option (list Z)) (p : Pkt) : Pkt :=
  mkPkt (pk_cmd p) (pk_flags p) (pk_req p) (pk_contextId p) (pk_masterId p)
    (pk_taskId p) (pk_extraData p) v (pk_static p) (pk_addr p) (pk_isSecure p)
    (pk_size p) (pk_headerDelay p) (pk_snoopDelay p) (pk_payloadDelay p).
Definition set_pk_headerDelay (v : Tick) (p : Pkt) : Pkt :=
  mkPkt (pk_cmd p) (pk_flags p) (pk_req p) (pk_contextId p) (pk_masterId p)
    (pk_taskId p) (pk_extraData p) (pk_data p) (pk_static p) (pk_addr p)
    (pk_isSecure p) (pk_size p) v (pk_snoopDelay p) (pk_payloadDelay p).
Definition set_pk_snoopDelay (v : Tick) (p : Pkt) : Pkt :=
  mkPkt (pk_cmd p) (pk_flags p) (pk_req p) (pk_contextId p) (pk_masterId p)
    (pk_taskId p) (pk_extraData p) (pk_data p) (pk_static p) (pk_addr p)
    (pk_isSecure p) (pk_size p) (pk_headerDelay p) v (pk_payloadDelay p).
Definition set_pk_payloadDelay (v : Tick) (p : Pkt) : Pkt :=
  mkPkt (pk_cmd p) (pk_flags p) (pk_req p) (pk_contextId p) (pk_masterId p)
    (pk_taskId p) (pk_extraData p) (pk_data p) (pk_static p) (pk_addr p)
    (pk_isSecure p) (pk_size p) (pk_headerDelay p) (pk_snoopDelay p) v.

Section packet.
Implicit Types p : Pkt.

Definition pk_isRead p := MemCmd.isRead (pk_cmd p).
Definition pk_isWrite p := MemCmd.isWrite (pk_cmd p).
Definition pk_isUpgrade p := MemCmd.isUpgrade (pk_cmd p).
Definition pk_isRequest p := MemCmd.isRequest (pk_cmd p).
Definition pk_isResponse p := MemCmd.isResponse (pk_cmd p).
(** [needsWritable] asserts that the packet is a request. *)
Definition pk_needsWritable p : outcome bool :=
  assert! pk_isRequest p as "Packet::needsWritable: isRequest()" in
  Ok (MemCmd.needsWritable (pk_cmd p)).
Definition pk_needsResponse p := MemCmd.needsResponse (pk_cmd p).
Definition pk_isInvalidate p := MemCmd.isInvalidate (pk_cmd p).
Definition pk_isEviction p := MemCmd.isEviction (pk_cmd p).
Definition pk_isClean p := MemCmd.isClean (pk_cmd p).
Definition pk_fromCache p := MemCmd.fromCache (pk_cmd p).
Definition pk_isWriteback p := MemCmd.isWriteback (pk_cmd p).
Definition pk_hasData p := MemCmd.hasData (pk_cmd p).
Definition pk_hasRespData p := MemCmd.hasData (MemCmd.responseCommand (pk_cmd p)).
Definition pk_isLLSC p := MemCmd.isLLSC (pk_cmd p).
Definition pk_isError p := MemCmd.isError (pk_cmd p).
Definition pk_isCleanEviction p : bool :=
  bool_decide (pk_cmd p = MemCmd.CleanEvict) || bool_decide (pk_cmd p = MemCmd.WritebackClean).
Definition pk_mustCheckAbove p : bool :=
  bool_decide (pk_cmd p = MemCmd.HardPFReq) || pk_isEviction p.

Definition pk_isSet (f : Z) p : bool := flags_isSet (pk_flags p) f.
Definition pk_set (f : Z) p : Pkt := set_pk_flags (flags_set (pk_flags p) f) p.
Definition pk_clear (f : Z) p : Pkt := set_pk_flags (flags_clear (pk_flags p) f) p.

Definition cacheResponding := pk_isSet PktFlag.CACHE_RESPONDING.
Definition hasSharers := pk_isSet PktFlag.HAS_SHARERS.
Definition isExpressSnoop := pk_isSet PktFlag.EXPRESS_SNOOP.
Definition responderHadWritable := pk_isSet PktFlag.RESPONDER_HAD_WRITABLE.
Definition writeThrough := pk_isSet PktFlag.WRITE_THROUGH.
Definition satisfied := pk_isSet PktFlag.SATISFIED.
Definition isBlockCached := pk_isSet PktFlag.BLOCK_CACHED.

Definition setHasSharers := pk_set PktFlag.HAS_SHARERS.
Definition setExpressSnoop := pk_set PktFlag.EXPRESS_SNOOP.
Definition setBlockCached := pk_set PktFlag.BLOCK_CACHED.
Definition clearBlockCached := pk_clear PktFlag.BLOCK_CACHED.
Definition setCacheResponding p : outcome Pkt :=
  assert! pk_isRequest p as "setCacheResponding: isRequest()" in
  assert! negb (cacheResponding p) as "setCacheResponding: !CACHE_RESPONDING" in
  Ok (pk_set PktFlag.CACHE_RESPONDING p).
Definition setResponderHadWritable p : outcome Pkt :=
  assert! cacheResponding p as "setResponderHadWritable: cacheResponding()" in
  assert! negb (responderHadWritable p)
    as "setResponderHadWritable: !responderHadWritable()" in
  Ok (pk_set PktFlag.RESPONDER_HAD_WRITABLE p).
Definition setWriteThrough p : outcome Pkt :=
  assert! pk_isWrite p && (pk_isEviction p || bool_decide (pk_cmd p = MemCmd.WriteClean))
    as "setWriteThrough" in
  Ok (pk_set PktFlag.WRITE_THROUGH p).
Definition setSatisfied p : outcome Pkt :=
  assert! pk_isClean p as "setSatisfied: isClean()" in
  assert! negb (satisfied p) as "setSatisfied: !SATISFIED" in
  Ok (pk_set PktFlag.SATISFIED p).
Definition copyError (e p : Pkt) : outcome Pkt :=
  assert! pk_isError e as "copyError: pkt->isError()" in Ok (set_pk_cmd (pk_cmd e) p).

(** [blk_size] is a power of two. *)
Definition getOffset (blk_size : Z) p : Z := Z.land (pk_addr p) (blk_size - 1).
Definition getBlockAddr (blk_size : Z) p : Addr := Z.ldiff (pk_addr p) (blk_size - 1).

(** [makeResponse]; [makeAtomicResponse] and [makeTimingResponse] are the same. *)
Definition makeResponse p : outcome Pkt :=
  assert! pk_needsResponse p as "makeResponse: needsResponse()" in
  assert! pk_isRequest p as "makeResponse: isRequest()" in
  Ok (pk_clear PktFlag.EXPRESS_SNOOP
        (set_pk_cmd (MemCmd.responseCommand (pk_cmd p)) p)).

(** The payload.  Fresh storage is uninitialised in the code; it is written before
    it is read, and is zero here. *)
Definition pk_allocate p : outcome Pkt :=
  if pk_hasData p || pk_hasRespData p then
    match pk_data p with
    | None => Ok (set_pk_data (Some (replicate (Z.to_nat (pk_size p)) 0)) p)
    | Some _ => Err (Assertion "allocate: flags.noneSet(STATIC_DATA|DYNAMIC_DATA)")
    end
  else Ok p.
Definition getPtr p : outcome (list Z) :=
  match pk_data p with
  | Some d => Ok d
  | None => Err (Assertion "getPtr: flags.isSet(STATIC_DATA|DYNAMIC_DATA)")
  end.

(** [memcpy] from offset [off] of a buffer, and to offset [off]. *)
Definition bytesAt (off n : Z) (buf : list Z) : list Z :=
  take (Z.to_nat n) (drop (Z.to_nat off) buf).
Definition bytesPut (off : Z) (d buf : list Z) : list Z :=
  take (Z.to_nat off) buf ++ d ++ drop (Z.to_nat off + length d) buf.

(** [setData] from a buffer of at least [getSize()] bytes, [setDataFromBlock],
    [writeData] and [writeDataToBlock]. *)
Definition setData (d : list Z) p : outcome Pkt :=
  let! _ := getPtr p in Ok (set_pk_data (Some (bytesAt 0 (pk_size p) d)) p).
Definition setDataFromBlock (blk_data : list Z) (blkSize : Z) p : outcome Pkt :=
  setData (drop (Z.to_nat (getOffset blkSize p)) blk_data) p.
Definition writeData p : outcome (list Z) :=
  let! d := getPtr p in Ok (bytesAt 0 (pk_size p) d).
Definition writeDataToBlock (blk_data : list Z) (blkSize : Z) p : outcome (list Z) :=
  let! d := writeData p in Ok (bytesPut (getOffset blkSize p) d blk_data).

(** *** Constructors *)

(** [Packet(req, cmd)].  A request without a physical address gives a packet whose
    address may not be read; it is not represented. *)
Definition newPacket (req : Request) (ctx mid tid : Z) (cmd : MemCmd.Command) : outcome Pkt :=
  match req_paddr req with
  | Some a =>
      Ok (mkPkt cmd 0 req ctx mid tid 0 None false a (req_isSecure req) (req_size req) 0 0 0)
  | None => Err (Assertion "getAddr: flags.isSet(VALID_ADDR)")
  end.

(** [Packet(req, cmd, blkSize)], made for the request of [p]. *)
Definition newBlkPacket p (cmd : MemCmd.Command) (blkSize : Z) : outcome Pkt :=
  match req_paddr (pk_req p) with
  | Some a =>
      Ok (mkPkt cmd 0 (pk_req p) (pk_contextId p) (pk_masterId p) (pk_taskId p)
            (pk_extraData p) None false (Z.ldiff a (blkSize - 1))
            (req_isSecure (pk_req p)) blkSize 0 0 0)
  | None => Err (Assertion "getAddr: flags.isSet(VALID_ADDR)")
  end.

(** [Packet(pkt, clear_flags, alloc_data)]. *)
Definition copyPacket p (clear_flags alloc_data : bool) : outcome Pkt :=
  let q := mkPkt (pk_cmd p)
             (if clear_flags then 0 else Z.land (pk_flags p) PktFlag.COPY_FLAGS)
             (pk_req p) (pk_contextId p) (pk_masterId p) (pk_taskId p) (pk_extraData p)
             None false (pk_addr p) (pk_isSecure p) (pk_size p)
             (pk_headerDelay p) 0 (pk_payloadDelay p) in
  if alloc_data then
    if pk_static p then Ok (mkPkt (pk_cmd q) (pk_flags q) (pk_req q) (pk_contextId q)
                              (pk_masterId q) (pk_taskId q) (pk_extraData q) (pk_data p) true
                              (pk_addr q) (pk_isSecure q) (pk_size q) (pk_headerDelay q) 0
                              (pk_payloadDelay q))
    else pk_allocate q
  else Ok q.

(** [makeReadCmd], [makeWriteCmd], and [dataStatic] after [createRead] or
    [createWrite]. *)
Definition makeReadCmd (req : Request) : MemCmd.Command :=
  if req_isLLSC req then MemCmd.LoadLockedReq
  else if req_isPrefetch req then MemCmd.SoftPFReq
  else MemCmd.ReadReq.
Definition makeWriteCmd (req : Request) : MemCmd.Command :=
  if req_isLLSC req then MemCmd.StoreCondReq
  else if req_isSwap req || req_isAtomic req then MemCmd.SwapReq
  else if req_isCacheInvalidate req then
    if req_isCacheClean req then MemCmd.CleanInvalidReq else MemCmd.InvalidateReq
  else if req_isCacheClean req then MemCmd.CleanSharedReq
  else MemCmd.WriteReq.
Definition dataStatic (d : list Z) p : outcome Pkt :=
  match pk_data p with
  | None => Ok (mkPkt (pk_cmd p) (pk_flags p) (pk_req p) (pk_contextId p) (pk_masterId p)
                  (pk_taskId p) (pk_extraData p) (Some d) true (pk_addr p) (pk_isSecure p)
                  (pk_size p) (pk_headerDelay p) (pk_snoopDelay p) (pk_payloadDelay p))
  | Some _ => Err (Assertion "dataStatic: flags.noneSet(STATIC_DATA|DYNAMIC_DATA)")
  end.
End packet.

(** ** Facts of the command table *)

Definition implb_cmd (P Q : MemCmd.Command → bool) : MemCmd.Command → bool :=
  λ c, implb (P c) (Q c).

Lemma command_implies (P Q : MemCmd.Command → bool) :
  forallb (implb_cmd P Q) MemCmd.all_commands = true → ∀ c, P c = true → Q c = true.
Proof.
  intros H c Hc. pose proof (MemCmd.forall_commands _ H c) as Hi.
  unfold implb_cmd in Hi. by rewrite Hc in Hi.
Qed.
