(* ===== verification/CacheTags.v ===== *)
(** * Cache blocks and tags

    [mem/cache/blk.hh], [mem/cache/blk.cc], [mem/cache/tags/base_set_assoc.hh] with
    its base class and [cacheset.hh]: the blocks of a set-associative cache, how an
    address finds one, what an access does to the replacement data, and the choice
    and insertion of a block.  DOLMA gave [accessBlock] the argument
    [update_metadata]. *)

From S2P Require Import Prelude Config StoreSet Packet ReplPolicy.

Local Open Scope Z_scope.

(** ** Blocks *)

Module BlkStatus.
Definition BlkValid : Z := 0x01.
Definition BlkWritable : Z := 0x02.
Definition BlkReadable : Z := 0x04.
Definition BlkDirty : Z := 0x08.
Definition BlkHWPrefetched : Z := 0x20.
Definition BlkSecure : Z := 0x40.
End BlkStatus.
Import BlkStatus.

(** [CacheBlk::Lock]. *)
Record Lock := mkLock {
  lk_contextId : Z;
  lowAddr : Addr;
  highAddr : Addr;
}.

Definition MaxAddr : Addr := u64_max.
Definition MaxTick : Tick := u64_max.
Definition UnknownTaskId : Z := 1024.
Definition invldMasterId : Z := 65535.

(** [Lock(req)], [matches] and [intersects]: the range of a packet's request is
    the packet's. *)
Definition pk_low (p : Pkt) : Addr := pk_addr p.
Definition pk_high (p : Pkt) : Addr := u64 (pk_addr p + pk_size p - 1).
Definition lockOf (p : Pkt) : Lock := mkLock (pk_contextId p) (pk_low p) (pk_high p).
Definition lk_matches (p : Pkt) (l : Lock) : bool :=
  (lk_contextId l =? pk_contextId p) && (lowAddr l <=? pk_low p) && (pk_high p <=? highAddr l).
Definition lk_intersects (p : Pkt) (l : Lock) : bool :=
  (pk_low p <=? highAddr l) && (lowAddr l <=? pk_high p).

Section tags.
Context {G D : Type}.

(** [CacheBlk]; [set] and [way] are its position in the tags. *)
Record CacheBlk := mkCacheBlk {
  task_id : Z;
  blk_tag : Addr; (** [tag] *)
  blk_data : list Z; (** [data], [blkSize] bytes *)
  blk_status : Z; (** [status], an OR of [CacheBlkStatusBits] *)
  whenReady : Tick;
  blk_refCount : Z; (** [refCount], an [unsigned] *)
  srcMasterId : Z;
  tickInserted : Tick;
  isInitialized : bool;
  lockList : list Lock;
  replacementData : D;
}.

Definition set_task_id (v : Z) (b : CacheBlk) : CacheBlk :=
  mkCacheBlk v (blk_tag b) (blk_data b) (blk_status b) (whenReady b) (blk_refCount b)
    (srcMasterId b) (tickInserted b) (isInitialized b) (lockList b)
    (replacementData b).
Definition set_blk_tag (v : Addr) (b : CacheBlk) : CacheBlk :=
  mkCacheBlk (task_id b) v (blk_data b) (blk_status b) (whenReady b) (blk_refCount b)
    (srcMasterId b) (tickInserted b) (isInitialized b) (lockList b)
    (replacementData b).
Definition set_blk_data (v : list Z) (b : CacheBlk) : CacheBlk :=
  mkCacheBlk (task_id b) (blk_tag b) v (blk_status b) (whenReady b) (blk_refCount b)
    (srcMasterId b) (tickInserted b) (isInitialized b) (lockList b)
    (replacementData b).
Definition set_blk_status (v : Z) (b : CacheBlk) : CacheBlk :=
  mkCacheBlk (task_id b) (blk_tag b) (blk_data b) v (whenReady b) (blk_refCount b)
    (srcMasterId b) (tickInserted b) (isInitialized b) (lockList b)
    (replacementData b).
Definition set_whenReady (v : Tick) (b : CacheBlk) : CacheBlk :=
  mkCacheBlk (task_id b) (blk_tag b) (blk_data b) (blk_status b) v (blk_refCount b)
    (srcMasterId b) (tickInserted b) (isInitialized b) (lockList b)
    (replacementData b).
Definition set_blk_refCount (v : Z) (b : CacheBlk) : CacheBlk :=
  mkCacheBlk (task_id b) (blk_tag b) (blk_data b) (blk_status b) (whenReady b) v
    (srcMasterId b) (tickInserted b) (isInitialized b) (lockList b)
    (replacementData b).
Definition set_srcMasterId (v : Z) (b : CacheBlk) : CacheBlk :=
  mkCacheBlk (task_id b) (blk_tag b) (blk_data b) (blk_status b) (whenReady b)
    (blk_refCount b) v (tickInserted b) (isInitialized b) (lockList b)
    (replacementData b).
Definition set_tickInserted (v : Tick) (b : CacheBlk) : CacheBlk :=
  mkCacheBlk (task_id b) (blk_tag b) (blk_data b) (blk_status b) (whenReady b)
    (blk_refCount b) (srcMasterId b) v (isInitialized b) (lockList b)
    (replacementData b).
Definition set_isInitialized (v : bool) (b : CacheBlk) : CacheBlk :=
  mkCacheBlk (task_id b) (blk_tag b) (blk_data b) (blk_status b) (whenReady b)
    (blk_refCount b) (srcMasterId b) (tickInserted b) v (lockList b)
    (replacementData b).
Definition set_lockList (v : list Lock) (b : CacheBlk) : CacheBlk :=
  mkCacheBlk (task_id b) (blk_tag b) (blk_data b) (blk_status b) (whenReady b)
    (blk_refCount b) (srcMasterId b) (tickInserted b) (isInitialized b) v
    (replacementData b).
Definition set_replacementData (v : D) (b : CacheBlk) : CacheBlk :=
  mkCacheBlk (task_id b) (blk_tag b) (blk_data b) (blk_status b) (whenReady b)
    (blk_refCount b) (srcMasterId b) (tickInserted b) (isInitialized b)
    (lockList b) v.

(** [blk->status |= f] and [blk->status &= ~f]. *)
Definition blk_set (f : Z) (b : CacheBlk) : CacheBlk :=
  set_blk_status (Z.lor (blk_status b) f) b.
Definition blk_clear (f : Z) (b : CacheBlk) : CacheBlk :=
  set_blk_status (Z.ldiff (blk_status b) f) b.

Definition blk_has (needed_bits : Z) (b : CacheBlk) : bool :=
  Z.land (blk_status b) needed_bits =? needed_bits.
Definition isWritable := blk_has (Z.lor BlkWritable BlkValid).
Definition isReadable := blk_has (Z.lor BlkReadable BlkValid).
Definition blk_any (f : Z) (b : CacheBlk) : bool := negb (Z.land (blk_status b) f =? 0).
Definition blk_isValid := blk_any BlkValid.
Definition isDirty := blk_any BlkDirty.
Definition wasPrefetched := blk_any BlkHWPrefetched.
Definition blk_isSecure := blk_any BlkSecure.

(** [CacheBlk::invalidate]: [isInitialized], the data and the replacement data
    stay. *)
Definition blk_invalidate (b : CacheBlk) : CacheBlk :=
  mkCacheBlk UnknownTaskId MaxAddr (blk_data b) 0 MaxTick 0 invldMasterId MaxTick
    (isInitialized b) [] (replacementData b).

(** [CacheBlk::insert]. *)
Definition blk_insert (now : Tick) (tag : Addr) (is_secure : bool) (src_master_ID task_ID : Z)
    (b : CacheBlk) : CacheBlk :=
  mkCacheBlk task_ID tag (blk_data b) (if is_secure then BlkSecure else 0) (whenReady b) 1
    src_master_ID now (isInitialized b) (lockList b) (replacementData b).

(** [CacheBlk()] in storage of [size] bytes. *)
Definition newBlk (size : Z) (d : D) : CacheBlk :=
  blk_invalidate (mkCacheBlk 0 0 (replicate (Z.to_nat size) 0) 0 0 0 0 0 false [] d).

(** [trackLoadLocked], [clearLoadLocks] and [checkWrite]; the last one may set the
    extra data of the request. *)
Definition trackLoadLocked (p : Pkt) (b : CacheBlk) : outcome CacheBlk :=
  assert! pk_isLLSC p as "trackLoadLocked: pkt->isLLSC()" in
  Ok (set_lockList (lockOf p :: filter (λ l, lk_intersects p l = false) (lockList b)) b).

Definition clearLoadLocks (p : Pkt) (b : CacheBlk) : CacheBlk :=
  set_lockList
    (filter (λ l, (lk_intersects p l && negb (lk_contextId l =? pk_contextId p)) = false)
       (lockList b)) b.

Definition checkWrite (p : Pkt) (b : CacheBlk) : outcome (bool * Pkt * CacheBlk) :=
  assert! pk_isWrite p as "checkWrite: pkt->isWrite()" in
  if negb (pk_isLLSC p) && bool_decide (lockList b = []) then Ok (true, p, b)
  else if pk_isLLSC p then
    match list_find (λ l, lk_matches p l = true) (lockList b) with
    | Some (i, _) =>
        Ok (true, set_pk_extraData 1 p,
            clearLoadLocks p (set_lockList (delete i (lockList b)) b))
    | None => Ok (false, set_pk_extraData 0 p, clearLoadLocks p b)
    end
  else Ok (true, p, clearLoadLocks p b).

(** ** Tags *)

(** [BaseSetAssoc], with what it uses of [BaseTags]. *)
Record BaseSetAssoc := mkBaseSetAssoc {
  tg_assoc : Z; (** [assoc] *)
  tg_blkSize : Z; (** [blkSize] *)
  numSets : Z;
  sequentialAccess : bool;
  setShift : Z;
  tagShift : Z;
  setMask : Z;
  tg_lookupLatency : Z;
  accessLatency : Z;
  cacheSets : list (list CacheBlk); (** [sets[i].blks] *)
  tg_rng : G; (** the generator of the policy *)
}.

Definition set_cacheSets (v : list (list CacheBlk)) (t : BaseSetAssoc) : BaseSetAssoc :=
  mkBaseSetAssoc (tg_assoc t) (tg_blkSize t) (numSets t) (sequentialAccess t) (setShift t)
    (tagShift t) (setMask t) (tg_lookupLatency t) (accessLatency t) v
    (tg_rng t).
Definition set_tg_rng (v : G) (t : BaseSetAssoc) : BaseSetAssoc :=
  mkBaseSetAssoc (tg_assoc t) (tg_blkSize t) (numSets t) (sequentialAccess t) (setShift t)
    (tagShift t) (setMask t) (tg_lookupLatency t) (accessLatency t)
    (cacheSets t) v.

Context (rp : ReplacementPolicy G D).

Implicit Types (t : BaseSetAssoc).

Definition extractTag t (addr : Addr) : Addr := Z.shiftr addr (tagShift t).
Definition extractSet t (addr : Addr) : nat :=
  Z.to_nat (Z.land (Z.shiftr addr (setShift t)) (setMask t)).
Definition extractBlkOffset t (addr : Addr) : Z := Z.land addr (tg_blkSize t - 1).

(** A block's place: set and way. *)
Definition BlkPos : Type := nat * nat.

Definition regenerateBlkAddr t (pos : BlkPos) (b : CacheBlk) : Addr :=
  Z.lor (u64 (Z.shiftl (blk_tag b) (tagShift t))) (Z.shiftl (Z.of_nat pos.1) (setShift t)).

Definition blkAt t (pos : BlkPos) : outcome CacheBlk :=
  match cacheSets t !! pos.1 with
  | Some s =>
      match s !! pos.2 with Some b => Ok b | None => Err (OutOfRange "sets[set].blks") end
  | None => Err (OutOfRange "sets")
  end.
Definition blkPut t (pos : BlkPos) (b : CacheBlk) : BaseSetAssoc :=
  set_cacheSets (alter (λ s, <[pos.2 := b]> s) pos.1 (cacheSets t)) t.

(** [CacheSet::findBlk] and [BaseSetAssoc::findBlock]. *)
Definition blk_matches (tag : Addr) (is_secure : bool) (b : CacheBlk) : bool :=
  (blk_tag b =? tag) && blk_isValid b && Bool.eqb (blk_isSecure b) is_secure.
Definition findBlk (tag : Addr) (is_secure : bool) (s : list CacheBlk)
  : option (nat * CacheBlk) :=
  list_find (λ b, blk_matches tag is_secure b = true) s.
Definition findBlock t (addr : Addr) (is_secure : bool) : outcome (option BlkPos) :=
  match cacheSets t !! extractSet t addr with
  | Some s =>
      Ok (match findBlk (extractTag t addr) is_secure s with
          | Some (w, _) => Some (extractSet t addr, w)
          | None => None
          end)
  | None => Err (OutOfRange "sets")
  end.

(** [Clocked::ticksToCycles]. *)
Definition ticksToCycles (period : Tick) (t : Tick) : Z := (t + period - 1) / period.

(** [BaseSetAssoc::accessBlock]: the block, the latency, and the tags. *)
Definition accessLat (period now : Tick) t (b : CacheBlk) : Z :=
  if (now <? whenReady b) && (accessLatency t <? ticksToCycles period (whenReady b - now))
  then ticksToCycles period (whenReady b - now) + accessLatency t
  else accessLatency t.

Definition touchBlk (now : Tick) (b : CacheBlk) : CacheBlk :=
  set_replacementData (rp_touch rp now (replacementData b))
    (set_blk_refCount (wrap 32 (blk_refCount b + 1)) b).

Definition accessBlock (period now : Tick) (addr : Addr) (is_secure update_metadata : bool) t
  : outcome (option BlkPos * Z * BaseSetAssoc) :=
  let! blk := findBlock t addr is_secure in
  match blk with
  | Some pos =>
      let! b := blkAt t pos in
      Ok (Some pos, accessLat period now t b,
          if update_metadata then blkPut t pos (touchBlk now b) else t)
  | None => Ok (None, tg_lookupLatency t, t)
  end.

(** [findVictim]: the candidates are the ways of the set, whose replacement data
    the policy may change. *)
Definition findVictim (now : Tick) (addr : Addr) t : outcome (BlkPos * BaseSetAssoc) :=
  let i := extractSet t addr in
  match cacheSets t !! i with
  | Some s =>
      let! (w, ds, g) := rp_getVictim rp now (tg_rng t) (map replacementData s) in
      Ok ((i, w),
          set_tg_rng g
            (set_cacheSets (<[i := zip_with set_replacementData ds s]> (cacheSets t)) t))
  | None => Err (OutOfRange "sets")
  end.

(** [insertBlock]. *)
Definition insertBlock (now : Tick) (p : Pkt) (pos : BlkPos) t : outcome BaseSetAssoc :=
  let! b := blkAt t pos in
  assert! negb (blk_isValid b) as "insertBlock: !blk->isValid()" in
  let b := blk_insert now (extractTag t (pk_addr p)) (pk_isSecure p) (pk_masterId p)
             (pk_taskId p) b in
  let '(d, g) := rp_reset rp now (tg_rng t) (replacementData b) in
  Ok (set_tg_rng g (blkPut t pos (set_replacementData d b))).

(** [BaseSetAssoc::invalidate]. *)
Definition tg_invalidate (pos : BlkPos) t : outcome BaseSetAssoc :=
  let! b := blkAt t pos in
  assert! blk_isValid b as "BaseTags::invalidate: blk->isValid()" in
  let b := blk_invalidate b in
  Ok (blkPut t pos (set_replacementData (rp_invalidate rp (replacementData b)) b)).

(** *** The constructor *)

(** [BaseSetAssoc(p)] and [BaseTags(p)].  The initialisers divide by the
    associativity before the body checks it. *)
Definition newTags (size block_size assoc tag_latency data_latency : Z) (sequential : bool) (g : G)
  : outcome BaseSetAssoc :=
  if (block_size =? 0) || (block_size * assoc =? 0)
  then Err (PanicCall "BaseSetAssoc: division by zero") else
  let sets := size / (block_size * assoc) in
  if (block_size <? 4) || negb (isPowerOf2 block_size)
  then Err (PanicCall "Block size must be at least 4 and a power of 2") else
  if negb (isPowerOf2 sets)
  then Err (PanicCall "# of sets must be non-zero and a power of 2") else
  if assoc <=? 0 then Err (PanicCall "associativity must be greater than zero") else
  let shift := Z.log2 block_size in
  let newWay (j : nat) := set_blk_tag (Z.of_nat j) (newBlk block_size (rp_instantiateEntry rp)) in
  Ok (mkBaseSetAssoc assoc block_size sets sequential shift (shift + Z.log2 sets) (sets - 1)
        tag_latency
        (if sequential then tag_latency + data_latency else Z.max tag_latency data_latency)
        (replicate (Z.to_nat sets) (map newWay (seq 0 (Z.to_nat assoc)))) g).
End tags.
Arguments CacheBlk D : clear implicits.
Arguments BaseSetAssoc G D : clear implicits.
