(* ===== verification/CacheQueue.v ===== *)
(** * Miss and write queues

    [mem/cache/queue.hh], [queue_entry.hh], [mshr.hh], [mshr.cc], [mshr_queue.hh],
    [mshr_queue.cc], [write_queue.hh], [write_queue.cc], [write_queue_entry.hh] and
    [write_queue_entry.cc]: the miss status holding registers (MSHRs) with their
    targets, the write buffer, and the queues of entries both are kept in.

    The cache is a first-level one: no packet from above carries an MSHR of a cache
    above in its sender state, so [findNextSenderState<MSHR>] is null, a target is
    never marked pending, and [TargetList::clearDownstreamPending] does nothing. *)

From S2P Require Import Prelude Config Packet CacheTags.

Local Open Scope Z_scope.

(** ** Targets of an MSHR *)

(** [MSHR::Target::Source]. *)
Inductive Source := FromCPU | FromSnoop | FromPrefetcher.

#[global] Instance Source_eq_dec : EqDecision Source.
Proof. solve_decision. Defined.

Record Target := mkTarget {
  recvTime : Tick;
  tgt_readyTime : Tick; (** [readyTime] *)
  tgt_order : Z; (** [order] *)
  tgt_pkt : Pkt; (** [pkt] *)
  tgt_source : Source; (** [source] *)
  tgt_allocOnFill : bool; (** [allocOnFill] *)
}.
Definition set_tgt_pkt (v : Pkt) (t : Target) : Target :=
  mkTarget (recvTime t) (tgt_readyTime t) (tgt_order t) v (tgt_source t) (tgt_allocOnFill t).

Record TargetList := mkTargetList {
  tl_targets : list Target; (** the list itself *)
  tl_needsWritable : bool; (** [needsWritable] *)
  tl_hasUpgrade : bool; (** [hasUpgrade] *)
  tl_allocOnFill : bool; (** [allocOnFill] *)
  tl_hasFromCache : bool; (** [hasFromCache] *)
}.

Definition set_tl_targets (v : list Target) (l : TargetList) : TargetList :=
  mkTargetList v (tl_needsWritable l) (tl_hasUpgrade l) (tl_allocOnFill l)
    (tl_hasFromCache l).
Definition set_tl_needsWritable (v : bool) (l : TargetList) : TargetList :=
  mkTargetList (tl_targets l) v (tl_hasUpgrade l) (tl_allocOnFill l) (tl_hasFromCache l).

Definition emptyTargets : TargetList := mkTargetList [] false false false false.

(** [updateFlags]. *)
Definition tl_updateFlags (p : Pkt) (source : Source) (alloc_on_fill : bool) (l : TargetList)
  : outcome TargetList :=
  if decide (source = FromSnoop) then Ok l
  else
    let! nw := pk_needsWritable p in
    Ok (mkTargetList (tl_targets l)
          (tl_needsWritable l || nw)
          (tl_hasUpgrade l || pk_isUpgrade p || bool_decide (pk_cmd p = MemCmd.StoreCondReq))
          (tl_allocOnFill l || alloc_on_fill)
          (tl_hasFromCache l || negb (bool_decide (source = FromPrefetcher)) && pk_fromCache p)).

Definition tl_isReset (l : TargetList) : bool :=
  negb (tl_needsWritable l) && negb (tl_hasUpgrade l) && negb (tl_allocOnFill l) &&
  negb (tl_hasFromCache l).

Definition tl_resetFlags (l : TargetList) : TargetList :=
  mkTargetList (tl_targets l) false false false false.

(** [populateFlags]. *)
Definition tl_populateFlags (l : TargetList) : outcome TargetList :=
  foldM (λ l t, tl_updateFlags (tgt_pkt t) (tgt_source t) (tgt_allocOnFill t) l)
    (tl_targets l) (tl_resetFlags l).

(** [TargetList::add]; [now] is the target's [recvTime]. *)
Definition tl_add (now : Tick) (p : Pkt) (readyTime : Tick) (order : Z) (source : Source)
    (alloc_on_fill : bool) (l : TargetList) : outcome TargetList :=
  let! l := tl_updateFlags p source alloc_on_fill l in
  Ok (set_tl_targets (tl_targets l ++ [mkTarget now readyTime order p source alloc_on_fill]) l).

(** [replaceUpgrade]. *)
Definition replaceUpgrade (p : Pkt) : outcome Pkt :=
  let has_data := pk_hasData p || pk_hasRespData p in
  let p := match pk_cmd p with
           | MemCmd.UpgradeReq => set_pk_cmd MemCmd.ReadExReq p
           | MemCmd.SCUpgradeReq => set_pk_cmd MemCmd.SCUpgradeFailReq p
           | MemCmd.StoreCondReq => set_pk_cmd MemCmd.StoreCondFailReq p
           | _ => p
           end in
  if has_data then Ok p
  else
    assert! negb (pk_hasData p) as "replaceUpgrade: !pkt->hasData()" in
    if pk_hasRespData p then pk_allocate p else Ok p.

Definition replaceUpgradeTargets (ts : list Target) : outcome (list Target) :=
  foldM (λ acc t, let! p := replaceUpgrade (tgt_pkt t) in Ok (acc ++ [set_tgt_pkt p t])) ts [].

(** [replaceUpgrades]. *)
Definition tl_replaceUpgrades (l : TargetList) : outcome TargetList :=
  if tl_hasUpgrade l then
    let! ts := replaceUpgradeTargets (tl_targets l) in
    Ok (mkTargetList ts (tl_needsWritable l) false (tl_allocOnFill l) (tl_hasFromCache l))
  else Ok l.

(** [targets.front()]. *)
Definition tl_front (l : TargetList) : outcome Target :=
  match tl_targets l with t :: _ => Ok t | [] => Err (OutOfRange "targets.front()") end.

(** ** Entries and queues *)

Section queue.
Context {T : Type}.

(** [QueueEntry]. *)
Record QueueEntry := mkQueueEntry {
  qe_readyTime : Tick; (** [readyTime] *)
  qe_isUncacheable : bool;
  inService : bool;
  qe_order : Z; (** [order] *)
  qe_blkAddr : Addr; (** [blkAddr] *)
  qe_isSecure : bool;
  qe_data : T; (** what the subclass adds *)
}.

Definition set_qe_readyTime (v : Tick) (e : QueueEntry) : QueueEntry :=
  mkQueueEntry v (qe_isUncacheable e) (inService e) (qe_order e) (qe_blkAddr e)
    (qe_isSecure e) (qe_data e).
Definition set_inService (v : bool) (e : QueueEntry) : QueueEntry :=
  mkQueueEntry (qe_readyTime e) (qe_isUncacheable e) v (qe_order e) (qe_blkAddr e)
    (qe_isSecure e) (qe_data e).
Definition set_qe_order (v : Z) (e : QueueEntry) : QueueEntry :=
  mkQueueEntry (qe_readyTime e) (qe_isUncacheable e) (inService e) v (qe_blkAddr e)
    (qe_isSecure e) (qe_data e).
Definition set_qe_data (v : T) (e : QueueEntry) : QueueEntry :=
  mkQueueEntry (qe_readyTime e) (qe_isUncacheable e) (inService e) (qe_order e)
    (qe_blkAddr e) (qe_isSecure e) v.

(** [Queue<Entry>]. *)
Record Queue := mkQueue {
  q_numEntries : Z; (** [numEntries], the reserve included *)
  q_numReserve : Z; (** [numReserve] *)
  q_entries : list QueueEntry; (** [entries] *)
  allocatedList : list nat; (** pointers into [entries] *)
  readyList : list nat;
  freeList : list nat;
  q_numInService : Z; (** [_numInService] *)
  q_allocated : Z; (** [allocated] *)
}.

Definition set_q_entries (v : list QueueEntry) (q : Queue) : Queue :=
  mkQueue (q_numEntries q) (q_numReserve q) v (allocatedList q) (readyList q)
    (freeList q) (q_numInService q) (q_allocated q).
Definition set_allocatedList (v : list nat) (q : Queue) : Queue :=
  mkQueue (q_numEntries q) (q_numReserve q) (q_entries q) v (readyList q)
    (freeList q) (q_numInService q) (q_allocated q).
Definition set_readyList (v : list nat) (q : Queue) : Queue :=
  mkQueue (q_numEntries q) (q_numReserve q) (q_entries q) (allocatedList q) v
    (freeList q) (q_numInService q) (q_allocated q).
Definition set_freeList (v : list nat) (q : Queue) : Queue :=
  mkQueue (q_numEntries q) (q_numReserve q) (q_entries q) (allocatedList q)
    (readyList q) v (q_numInService q) (q_allocated q).
Definition set_q_numInService (v : Z) (q : Queue) : Queue :=
  mkQueue (q_numEntries q) (q_numReserve q) (q_entries q) (allocatedList q)
    (readyList q) (freeList q) v (q_allocated q).
Definition set_q_allocated (v : Z) (q : Queue) : Queue :=
  mkQueue (q_numEntries q) (q_numReserve q) (q_entries q) (allocatedList q)
    (readyList q) (freeList q) (q_numInService q) v.

Definition newQueue (num_entries reserve : Z) (entry : QueueEntry) : Queue :=
  mkQueue (num_entries + reserve) reserve
    (replicate (Z.to_nat (num_entries + reserve)) entry) [] []
    (seq 0 (Z.to_nat (num_entries + reserve))) 0 0.

Definition q_isEmpty (q : Queue) : bool := q_allocated q =? 0.
Definition q_isFull (q : Queue) : bool := q_numEntries q - q_numReserve q <=? q_allocated q.

Definition q_get (q : Queue) (i : nat) : outcome QueueEntry :=
  match q_entries q !! i with Some e => Ok e | None => Err (OutOfRange "entries") end.
Definition q_put (q : Queue) (i : nat) (e : QueueEntry) : Queue := set_q_entries (<[i := e]> (q_entries q)) q.

(** [addToReadyList]. *)
Fixpoint insertReady (q : Queue) (i : nat) (t : Tick) (l : list nat) : list nat :=
  match l with
  | [] => [i]
  | j :: l' =>
      match q_entries q !! j with
      | Some e => if t <? qe_readyTime e then i :: l else j :: insertReady q i t l'
      | None => j :: insertReady q i t l'
      end
  end.
Definition addToReadyList (q : Queue) (i : nat) : outcome Queue :=
  let! e := q_get q i in
  Ok (set_readyList (insertReady q i (qe_readyTime e) (readyList q)) q).

(** The first entry of a list that satisfies a test. *)
Definition q_search (q : Queue) (f : QueueEntry → bool) (l : list nat) : option nat :=
  snd <$> list_find (λ i, from_option f false (q_entries q !! i) = true) l.

(** [findMatch] with the default [ignore_uncacheable]; [findPending]. *)
Definition findMatch (q : Queue) (blk_addr : Addr) (is_secure : bool) : option nat :=
  q_search q (λ e, negb (qe_isUncacheable e) && (qe_blkAddr e =? blk_addr) &&
                   Bool.eqb (qe_isSecure e) is_secure) (allocatedList q).
Definition findPending (q : Queue) (blk_addr : Addr) (is_secure : bool) : option nat :=
  q_search q (λ e, (qe_blkAddr e =? blk_addr) && Bool.eqb (qe_isSecure e) is_secure)
    (readyList q).

(** [getNext] and [nextReadyTime]. *)
Definition getNext (now : Tick) (q : Queue) : option nat :=
  match readyList q with
  | i :: _ =>
      match q_entries q !! i with
      | Some e => if now <? qe_readyTime e then None else Some i
      | None => None
      end
  | [] => None
  end.
Definition nextReadyTime (q : Queue) : Tick :=
  match readyList q with
  | i :: _ => match q_entries q !! i with Some e => qe_readyTime e | None => MaxTick end
  | [] => MaxTick
  end.

(** [list.erase] through the iterator an entry keeps. *)
Definition erase (i : nat) (l : list nat) : list nat := filter (λ j, j ≠ i) l.

(** The common part of the two [allocate]: [fill] is [entry->allocate]. *)
Definition q_allocate (fill : QueueEntry → outcome QueueEntry) (q : Queue) : outcome (nat * Queue) :=
  match freeList q with
  | [] => Err (Assertion "allocate: !freeList.empty()")
  | i :: free =>
      let! e := q_get q i in
      let! e := fill e in
      let q := set_allocatedList (allocatedList q ++ [i]) (set_freeList free (q_put q i e)) in
      let! q := addToReadyList q i in
      Ok (i, set_q_allocated (q_allocated q + 1) q)
  end.

(** [Queue::deallocate]; [clear] is [entry->deallocate]. *)
Definition q_deallocate (clear : QueueEntry → outcome QueueEntry) (i : nat) (q : Queue) : outcome Queue :=
  let! e := q_get q i in
  let q := set_q_allocated (q_allocated q - 1)
             (set_freeList (i :: freeList q)
                (set_allocatedList (erase i (allocatedList q)) q)) in
  let q := if inService e then set_q_numInService (q_numInService q - 1) q
           else set_readyList (erase i (readyList q)) q in
  let! e := clear e in
  Ok (q_put q i e).
End queue.
Arguments QueueEntry T : clear implicits.
Arguments Queue T : clear implicits.

(** ** MSHRs *)

Record MshrData := mkMshrData {
  downstreamPending : bool;
  pendingModified : bool;
  postInvalidate : bool;
  postDowngrade : bool;
  isForward : bool;
  targets : TargetList;
  deferredTargets : TargetList;
}.

Definition set_downstreamPending (v : bool) (m : MshrData) : MshrData :=
  mkMshrData v (pendingModified m) (postInvalidate m) (postDowngrade m) (isForward m)
    (targets m) (deferredTargets m).
Definition set_pendingModified (v : bool) (m : MshrData) : MshrData :=
  mkMshrData (downstreamPending m) v (postInvalidate m) (postDowngrade m) (isForward m)
    (targets m) (deferredTargets m).
Definition set_postInvalidate (v : bool) (m : MshrData) : MshrData :=
  mkMshrData (downstreamPending m) (pendingModified m) v (postDowngrade m)
    (isForward m) (targets m) (deferredTargets m).
Definition set_postDowngrade (v : bool) (m : MshrData) : MshrData :=
  mkMshrData (downstreamPending m) (pendingModified m) (postInvalidate m) v
    (isForward m) (targets m) (deferredTargets m).
Definition set_isForward (v : bool) (m : MshrData) : MshrData :=
  mkMshrData (downstreamPending m) (pendingModified m) (postInvalidate m)
    (postDowngrade m) v (targets m) (deferredTargets m).
Definition set_targets (v : TargetList) (m : MshrData) : MshrData :=
  mkMshrData (downstreamPending m) (pendingModified m) (postInvalidate m)
    (postDowngrade m) (isForward m) v (deferredTargets m).
Definition set_deferredTargets (v : TargetList) (m : MshrData) : MshrData :=
  mkMshrData (downstreamPending m) (pendingModified m) (postInvalidate m)
    (postDowngrade m) (isForward m) (targets m) v.

Abbreviation MSHR := (QueueEntry MshrData).
Abbreviation MSHRQueue := (Queue MshrData).

(** [MSHR()]. *)
Definition newMSHR : MSHR :=
  mkQueueEntry 0 false false 0 0 false
    (mkMshrData false false false false false emptyTargets emptyTargets).

Definition ms_upd (f : MshrData → MshrData) (m : MSHR) : MSHR := set_qe_data (f (qe_data m)) m.
Definition ms_targets (m : MSHR) : TargetList := targets (qe_data m).
Definition ms_deferred (m : MSHR) : TargetList := deferredTargets (qe_data m).

Definition ms_needsWritable (m : MSHR) : bool := tl_needsWritable (ms_targets m).
Definition ms_allocOnFill (m : MSHR) : bool := tl_allocOnFill (ms_targets m).
Definition isCleaning (m : MSHR) : outcome bool :=
  let! t := tl_front (ms_targets m) in Ok (pk_isClean (tgt_pkt t)).
Definition isPendingModified (m : MSHR) : outcome bool :=
  assert! inService m as "isPendingModified: inService" in Ok (pendingModified (qe_data m)).
Definition hasPostInvalidate (m : MSHR) : outcome bool :=
  assert! inService m as "hasPostInvalidate: inService" in Ok (postInvalidate (qe_data m)).
Definition hasPostDowngrade (m : MSHR) : outcome bool :=
  assert! inService m as "hasPostDowngrade: inService" in Ok (postDowngrade (qe_data m)).
Definition getNumTargets (m : MSHR) : Z :=
  Z.of_nat (length (tl_targets (ms_targets m)) + length (tl_targets (ms_deferred m))).
Definition hasTargets (m : MSHR) : bool := negb (bool_decide (tl_targets (ms_targets m) = [])).

(** [MSHR::allocate]. *)
Definition ms_allocate (now : Tick) (blk_addr : Addr) (p : Pkt) (when_ready : Tick) (order : Z)
    (alloc_on_fill : bool) (m : MSHR) : outcome MSHR :=
  assert! tl_isReset (ms_targets m) as "MSHR::allocate: targets.isReset()" in
  let source := if decide (pk_cmd p = MemCmd.HardPFReq) then FromPrefetcher else FromCPU in
  let! ts := tl_add now p when_ready order source alloc_on_fill (ms_targets m) in
  assert! tl_isReset (ms_deferred m) as "MSHR::allocate: deferredTargets.isReset()" in
  Ok (mkQueueEntry when_ready (req_isUncacheable (pk_req p)) false order blk_addr (pk_isSecure p)
        (mkMshrData false (pendingModified (qe_data m)) (postInvalidate (qe_data m))
           (postDowngrade (qe_data m)) false ts (ms_deferred m))).

(** [clearDownstreamPending], called by the cache below. *)
Definition clearDownstreamPending (m : MSHR) : outcome MSHR :=
  assert! downstreamPending (qe_data m) as "clearDownstreamPending: downstreamPending" in
  Ok (ms_upd (set_downstreamPending false) m).

(** [MSHR::markInService]. *)
Definition ms_markInService (pending_modified_resp : bool) (m : MSHR) : outcome MSHR :=
  assert! negb (inService m) as "markInService: !inService" in
  Ok (ms_upd (λ d, set_postDowngrade false (set_postInvalidate false
                     (set_pendingModified (tl_needsWritable (targets d) || pending_modified_resp) d)))
        (set_inService true m)).

(** [MSHR::deallocate]. *)
Definition ms_deallocate (m : MSHR) : outcome MSHR :=
  assert! bool_decide (tl_targets (ms_targets m) = []) as "MSHR::deallocate: targets.empty()" in
  assert! tl_isReset (ms_deferred m) as "MSHR::deallocate: deferredTargets.isReset()" in
  Ok (set_inService false (ms_upd (λ d, set_targets (tl_resetFlags (targets d)) d) m)).

(** The condition under which [allocateTarget] defers a target. *)
Definition defersTarget (p : Pkt) (m : MSHR) : outcome bool :=
  let! t := tl_front (ms_targets m) in
  if req_isCacheMaintenance (pk_req p) || req_isCacheMaintenance (pk_req (tgt_pkt t)) ||
     negb (bool_decide (tl_targets (ms_deferred m) = []))
  then Ok true
  else if inService m then
    if postInvalidate (qe_data m) then Ok true
    else
      let! nw := pk_needsWritable p in
      Ok (nw && (negb (pendingModified (qe_data m)) || postDowngrade (qe_data m) ||
                 isForward (qe_data m)))
  else Ok false.

(** [MSHR::allocateTarget]. *)
Definition allocateTarget (now : Tick) (p : Pkt) (whenReady : Tick) (order : Z)
    (alloc_on_fill : bool) (m : MSHR) : outcome MSHR :=
  assert! negb (bool_decide (pk_cmd p = MemCmd.HardPFReq))
    as "allocateTarget: pkt->cmd != MemCmd::HardPFReq" in
  let! defer := defersTarget p m in
  if defer then
    let! p := if inService m && postInvalidate (qe_data m) then replaceUpgrade p else Ok p in
    let! ts := tl_add now p whenReady order FromCPU alloc_on_fill (ms_deferred m) in
    Ok (ms_upd (set_deferredTargets ts) m)
  else
    let! ts := tl_add now p whenReady order FromCPU alloc_on_fill (ms_targets m) in
    Ok (ms_upd (set_targets ts) m).

(** [MSHR::handleSnoop]: was the snoop taken care of; the snooped packet; the
    MSHR. *)
Definition ms_handleSnoop (now : Tick) (blkSize : Z) (p : Pkt) (order : Z) (m : MSHR)
  : outcome (bool * Pkt * MSHR) :=
  let! nw := pk_needsWritable p in
  let maintenance := req_isCacheMaintenance (pk_req p) in
  if negb (Bool.eqb nw (pk_isInvalidate p)) && negb maintenance
  then Err (PanicCall "MSHR::handleSnoop: needsWritable does not match isInvalidate") else
  if negb (inService m) || isExpressSnoop p && downstreamPending (qe_data m) then
    if nw || req_isCacheInvalidate (pk_req p) then
      let! ts := tl_replaceUpgrades (ms_targets m) in
      let! ds := tl_replaceUpgrades (ms_deferred m) in
      Ok (false, p, ms_upd (λ d, set_deferredTargets ds (set_targets ts d)) m)
    else Ok (false, p, m)
  else
    let! m :=
      if nw || req_isCacheInvalidate (pk_req p) then
        let! ds := tl_replaceUpgrades (ms_deferred m) in
        Ok (ms_upd (set_deferredTargets ds) m)
      else Ok m in
    let! tgt := tl_front (ms_targets m) in
    if postInvalidate (qe_data m) || req_isCacheInvalidate (pk_req (tgt_pkt tgt))
    then Ok (true, p, m)
    else
      let! (p, m) :=
        if pendingModified (qe_data m) || pk_isInvalidate p then
          let will_respond :=
            pendingModified (qe_data m) && pk_needsResponse p && negb (pk_isClean p) in
          let! cp := if will_respond then copyPacket p true true
                     else newBlkPacket p (pk_cmd p) blkSize in
          let! p :=
            if will_respond
            then (let! p := setCacheResponding p in setResponderHadWritable p)
            else Ok p in
          let! ts := tl_add now cp now order FromSnoop false (ms_targets m) in
          let m := ms_upd (set_targets ts) m in
          let m := if nw || pk_isInvalidate p then ms_upd (set_postInvalidate true) m else m in
          let! p := if pendingModified (qe_data m) && pk_isClean p then setSatisfied p else Ok p in
          Ok (p, m)
        else Ok (p, m) in
      if negb nw && negb (req_isUncacheable (pk_req p))
      then Ok (true, setHasSharers p, ms_upd (set_postDowngrade true) m)
      else Ok (true, p, m).

(** [extractServiceableTargets]: the targets to service now, and the MSHR. *)
Definition extractServiceableTargets (p : Pkt) (m : MSHR) : outcome (TargetList * MSHR) :=
  if decide (pk_cmd p = MemCmd.ReadRespWithInvalidate) then
    match tl_targets (ms_targets m) with
    | [] => Err (OutOfRange "targets.begin()")
    | t :: rest =>
        assert! negb (bool_decide (tgt_source t = FromSnoop))
          as "extractServiceableTargets: FromCPU or FromPrefetcher" in
        assert! forallb (λ t, negb (bool_decide (tgt_source t = FromPrefetcher))) rest
          as "extractServiceableTargets: it->source == Target::FromSnoop" in
        let! ready := tl_populateFlags
                        (set_tl_targets (t :: filter (λ t, tgt_source t = FromSnoop) rest)
                           emptyTargets) in
        let! ts := tl_populateFlags
                     (set_tl_targets (filter (λ t, tgt_source t = FromCPU) rest) (ms_targets m)) in
        Ok (ready, ms_upd (set_targets ts) m)
    end
  else
    let! ts := tl_populateFlags emptyTargets in
    Ok (ms_targets m, ms_upd (set_targets ts) m).

(** The deferred targets before the first one that fails a test, and the rest. *)
Fixpoint splitTargets (f : Target → bool) (l : list Target) : list Target * list Target :=
  match l with
  | t :: l' => if f t then let '(a, b) := splitTargets f l' in (t :: a, b) else ([], l)
  | [] => ([], [])
  end.

(** [promoteDeferredTargets]. *)
Definition promoteDeferredTargets (now : Tick) (m : MSHR) : outcome (bool * MSHR) :=
  let ts := tl_targets (ms_targets m) in
  let ds := tl_targets (ms_deferred m) in
  if bool_decide (ts = []) && bool_decide (ds = []) then Ok (false, m)
  else
    let maint t := req_isCacheMaintenance (pk_req (tgt_pkt t)) in
    let '(up, rest) :=
      match ds with
      | d :: ds' =>
          if maint d then if bool_decide (ts = []) then ([d], ds') else ([], ds)
          else splitTargets (λ t, negb (maint t)) ds
      | [] => ([], [])
      end in
    let! ds := tl_populateFlags (set_tl_targets rest (ms_deferred m)) in
    let! ts := tl_populateFlags (set_tl_targets (ts ++ up) (ms_targets m)) in
    let! t := tl_front ts in
    Ok (true,
        set_qe_order (tgt_order t)
          (set_qe_readyTime (Z.max now (tgt_readyTime t))
             (ms_upd (λ d, set_deferredTargets ds (set_targets ts d)) m))).

(** [promoteIf].  Both predicates assert that the targets they look at came from
    the CPU. *)
Definition promoteIf (f : Target → bool) (m : MSHR) : outcome MSHR :=
  assert! negb (downstreamPending (qe_data m)) as "promoteIf: !downstreamPending" in
  let '(up, rest) := splitTargets f (tl_targets (ms_deferred m)) in
  assert! forallb (λ t, bool_decide (tgt_source t = FromCPU)) (up ++ take 1 rest)
    as "promoteIf: t.source == Target::FromCPU" in
  let! ds := tl_populateFlags (set_tl_targets rest (ms_deferred m)) in
  Ok (ms_upd (λ d, set_deferredTargets ds
                     (set_targets (set_tl_targets (tl_targets (targets d) ++ up) (targets d)) d)) m).

(** [promoteReadable] and [promoteWritable].  Targets from the CPU are requests. *)
Definition promoteReadable (m : MSHR) : outcome MSHR :=
  if bool_decide (tl_targets (ms_deferred m) = []) then Ok m
  else
    let! inv := hasPostInvalidate m in
    if inv then Ok m
    else promoteIf (λ t, negb (req_isCacheInvalidate (pk_req (tgt_pkt t))) &&
                         negb (MemCmd.needsWritable (pk_cmd (tgt_pkt t)))) m.

Definition promoteWritable (m : MSHR) : outcome MSHR :=
  if tl_needsWritable (ms_deferred m) then
    let! inv := hasPostInvalidate m in
    if inv then Ok m
    else
      let! down := hasPostDowngrade m in
      if down then Ok m
      else
        assert! negb (tl_needsWritable (ms_targets m))
          as "promoteWritable: !targets.needsWritable" in
        promoteIf (λ t, negb (req_isCacheInvalidate (pk_req (tgt_pkt t))))
          (ms_upd (λ d, set_targets (set_tl_needsWritable true (targets d)) d) m)
  else Ok m.

(** *** [MSHRQueue] *)

Definition mq_allocate (now : Tick) (blk_addr : Addr) (p : Pkt) (when_ready : Tick) (order : Z)
    (alloc_on_fill : bool) (q : MSHRQueue) : outcome (nat * MSHRQueue) :=
  q_allocate (λ m, assert! getNumTargets m =? 0 as "MSHRQueue::allocate: getNumTargets() == 0" in
                   ms_allocate now blk_addr p when_ready order alloc_on_fill m) q.

Definition mq_markInService (i : nat) (pending_modified_resp : bool) (q : MSHRQueue)
  : outcome MSHRQueue :=
  let! m := q_get q i in
  let! m := ms_markInService pending_modified_resp m in
  let q := q_put q i m in
  Ok (set_q_numInService (q_numInService q + 1) (set_readyList (erase i (readyList q)) q)).

Definition mq_markPending (i : nat) (q : MSHRQueue) : outcome MSHRQueue :=
  let! m := q_get q i in
  assert! inService m as "MSHRQueue::markPending: inService" in
  addToReadyList (set_q_numInService (q_numInService q - 1) (q_put q i (set_inService false m))) i.

Definition mq_deallocate (i : nat) (q : MSHRQueue) : outcome MSHRQueue :=
  q_deallocate ms_deallocate i q.

(** [forceDeallocateTarget]: is the queue full no more. *)
Definition forceDeallocateTarget (now : Tick) (i : nat) (q : MSHRQueue)
  : outcome (bool * MSHRQueue) :=
  let was_full := q_isFull q in
  let! m := q_get q i in
  match tl_targets (ms_targets m) with
  | [] => Err (Assertion "forceDeallocateTarget: mshr->hasTargets()")
  | _ :: ts =>
      let m := ms_upd (λ d, set_targets (set_tl_targets ts (targets d)) d) m in
      let! (keep, m) := if hasTargets m then Ok (true, m) else promoteDeferredTargets now m in
      let q := q_put q i m in
      let! q := if keep then Ok q else mq_deallocate i q in
      Ok (was_full && negb (q_isFull q), q)
  end.

(** [canPrefetch]; [demandReserve] is a parameter of the queue. *)
Definition canPrefetch (demandReserve : Z) (q : MSHRQueue) : bool :=
  q_allocated q <? q_numEntries q - (q_numReserve q + 1 + demandReserve).

(** ** The write buffer *)

(** A target of a [WriteQueueEntry]. *)
Record WTarget := mkWTarget {
  wt_readyTime : Tick;
  wt_order : Z;
  wt_pkt : Pkt;
}.

Abbreviation WriteQueueEntry := (QueueEntry (list WTarget)).
Abbreviation WriteQueue := (Queue (list WTarget)).

Definition newWriteQueueEntry : WriteQueueEntry := mkQueueEntry 0 false false 0 0 false [].

(** [WriteQueueEntry::allocate]. *)
Definition we_allocate (blk_addr : Addr) (p : Pkt) (when_ready : Tick) (order : Z)
    (e : WriteQueueEntry) : outcome WriteQueueEntry :=
  let unc := req_isUncacheable (pk_req p) in
  if negb unc && negb (bool_decide (qe_data e = []))
  then Err (PanicCall "Write queue entry should never have more than one cacheable target") else
  if negb (pk_isWrite p && unc || pk_isEviction p && negb unc ||
           bool_decide (pk_cmd p = MemCmd.WriteClean))
  then Err (PanicCall "Write queue entry should be an uncacheable write or a cacheable eviction or a writeclean") else
  Ok (mkQueueEntry when_ready unc false order blk_addr (pk_isSecure p)
        (qe_data e ++ [mkWTarget when_ready order p])).

(** [getTarget()] of a write queue entry. *)
Definition we_getTarget (e : WriteQueueEntry) : outcome WTarget :=
  match qe_data e with t :: _ => Ok t | [] => Err (Assertion "getTarget: hasTargets()") end.

(** *** [WriteQueue] *)

Definition wq_allocate (blk_addr : Addr) (p : Pkt) (when_ready : Tick) (order : Z)
    (q : WriteQueue) : outcome (nat * WriteQueue) :=
  q_allocate (λ e, assert! bool_decide (qe_data e = [])
                     as "WriteQueue::allocate: getNumTargets() == 0" in
                   we_allocate blk_addr p when_ready order e) q.

(** [WriteQueueEntry::deallocate]. *)
Definition we_deallocate (e : WriteQueueEntry) : outcome WriteQueueEntry :=
  assert! bool_decide (qe_data e = []) as "WriteQueueEntry::deallocate: targets.empty()" in
  Ok (set_inService false e).

Definition wq_markInService (i : nat) (q : WriteQueue) : outcome WriteQueue :=
  let! e := q_get q i in
  match qe_data e with
  | [] => Err (OutOfRange "targets.pop_front()")
  | _ :: ts => q_deallocate we_deallocate i (q_put q i (set_qe_data ts e))
  end.
