(* ===== verification/Cache.v ===== *)
(** * The data cache

    [mem/cache/base.hh], [mem/cache/base.cc], [mem/cache/cache.cc]: the classic
    cache in timing mode, as the first-level cache next to the core.  A request from
    the core goes through the port ([port_recvTimingReq]), looks up the tags
    ([base_access]), and is answered at once or waits in an MSHR; the memory side
    sends the misses and writebacks and delivers the fills.  DOLMA's restricted reads and
    metadata updates go down the same path.

    Part one: the state, the port, and the request path. *)

From S2P Require Import Prelude Config Packet ReplPolicy CacheTags CacheQueue.
Import BlkStatus.

Local Open Scope Z_scope.

(** ** Parameters and surroundings *)

Inductive Clusivity := mostly_incl | mostly_excl.

#[global] Instance Clusivity_eq_dec : EqDecision Clusivity.
Proof. solve_decision. Defined.

(** The members that do not change.  [prefetcher] says whether there is one;
    [doFastWrites] is true in [Cache]'s constructor; [cp_inRange] is [inRange]. *)
Record CacheParams := mkCacheParams {
  cp_blkSize : Z; (** [blkSize] *)
  cp_clockPeriod : Tick;
  lookupLatency : Z;
  forwardLatency : Z;
  fillLatency : Z;
  responseLatency : Z;
  numTarget : Z;
  clusivity : Clusivity;
  isReadOnly : bool;
  writebackClean : bool;
  forwardSnoops : bool;
  prefetcher : bool;
  prefetchOnAccess : bool;
  demandReserve : Z;
  cp_inRange : Addr → bool;
}.

(** What the cache calls: the system's bypass mode, the port to the memory side (the
    answer, whether the cache below marked the MSHR, and the packet afterwards), the
    snoop of what is above, the prefetcher, the conflict check of the snoop response
    queue (the time to wait for), and an atomic operation on the bytes of a block. *)
Class CacheEnv (E : Type) := {
  ce_bypassCaches : E → bool;
  ce_sendTimingReq : Pkt → E → bool * bool * Pkt * E;
  ce_sendTimingSnoopReq : Pkt → E → Pkt * E;
  ce_notify : Pkt → E → Tick * E;
  ce_getPacket : E → option Pkt * E;
  ce_nextPrefetchReadyTime : E → Tick;
  ce_snoopConflict : Addr → E → option Tick;
  ce_atomicOp : Pkt → list Z → list Z;
}.

(** [CacheBlk *]: a block of the tags or [tempBlock]. *)
Inductive BlkRef := InTags (pos : BlkPos) | TempBlk.

#[global] Instance BlkRef_eq_dec : EqDecision BlkRef.
Proof. solve_decision. Defined.

(** [BlockedCause]. *)
Definition Blocked_NoMSHRs : Z := 0.
Definition Blocked_NoWBBuffers : Z := 1.
Definition Blocked_NoTargets : Z := 2.

Definition wbMasterId : Z := 0.

Section cache.
Context {G D E : Type} `{CacheEnv E} (rp : ReplacementPolicy G D).

Record Cache := mkCache {
  cc_params : CacheParams;
  cc_tags : BaseSetAssoc G D; (** [tags] *)
  tempBlock : CacheBlk D;
  tempAddr : Addr; (** [tempBlock->getAddr()] *)
  mshrQueue : MSHRQueue;
  writeBuffer : WriteQueue;
  cc_blocked : Z; (** [blocked], a bit per cause *)
  cc_order : Z; (** [order] *)
  noTargetMSHR : option nat;
  missCount : Z;
  port_blocked : bool; (** [cpuSidePort.blocked] *)
  mustSendRetry : bool;
  sendRetryEvent : option Tick; (** scheduled for *)
  retriesSent : Z; (** calls of [sendRetryReq] *)
  responses : list (Pkt * Tick); (** handed to [cpuSidePort.schedTimingResp] *)
  snoopResponses : list (Pkt * Tick); (** to [memSidePort.schedTimingSnoopResp] *)
  sendEvents : list Tick; (** calls of [memSidePort.schedSendEvent] *)
  waitingOnRetry : bool; (** of [memSidePort]'s request queue *)
  outstandingSnoop : list nat; (** the MSHRs whose prefetch was found above *)
  cc_now : Tick; (** [curTick()] *)
  cc_env : E; (** everything outside the cache *)
}.

Definition set_cc_tags (v : BaseSetAssoc G D) (c : Cache) : Cache :=
  mkCache (cc_params c) v (tempBlock c) (tempAddr c) (mshrQueue c) (writeBuffer c)
    (cc_blocked c) (cc_order c) (noTargetMSHR c) (missCount c)
    (port_blocked c) (mustSendRetry c) (sendRetryEvent c) (retriesSent c)
    (responses c) (snoopResponses c) (sendEvents c) (waitingOnRetry c)
    (outstandingSnoop c) (cc_now c) (cc_env c).
Definition set_tempBlock (v : CacheBlk D) (c : Cache) : Cache :=
  mkCache (cc_params c) (cc_tags c) v (tempAddr c) (mshrQueue c) (writeBuffer c)
    (cc_blocked c) (cc_order c) (noTargetMSHR c) (missCount c)
    (port_blocked c) (mustSendRetry c) (sendRetryEvent c) (retriesSent c)
    (responses c) (snoopResponses c) (sendEvents c) (waitingOnRetry c)
    (outstandingSnoop c) (cc_now c) (cc_env c).
Definition set_tempAddr (v : Addr) (c : Cache) : Cache :=
  mkCache (cc_params c) (cc_tags c) (tempBlock c) v (mshrQueue c) (writeBuffer c)
    (cc_blocked c) (cc_order c) (noTargetMSHR c) (missCount c)
    (port_blocked c) (mustSendRetry c) (sendRetryEvent c) (retriesSent c)
    (responses c) (snoopResponses c) (sendEvents c) (waitingOnRetry c)
    (outstandingSnoop c) (cc_now c) (cc_env c).
Definition set_mshrQueue (v : MSHRQueue) (c : Cache) : Cache :=
  mkCache (cc_params c) (cc_tags c) (tempBlock c) (tempAddr c) v (writeBuffer c)
    (cc_blocked c) (cc_order c) (noTargetMSHR c) (missCount c)
    (port_blocked c) (mustSendRetry c) (sendRetryEvent c) (retriesSent c)
    (responses c) (snoopResponses c) (sendEvents c) (waitingOnRetry c)
    (outstandingSnoop c) (cc_now c) (cc_env c).
Definition set_writeBuffer (v : WriteQueue) (c : Cache) : Cache :=
  mkCache (cc_params c) (cc_tags c) (tempBlock c) (tempAddr c) (mshrQueue c) v
    (cc_blocked c) (cc_order c) (noTargetMSHR c) (missCount c)
    (port_blocked c) (mustSendRetry c) (sendRetryEvent c) (retriesSent c)
    (responses c) (snoopResponses c) (sendEvents c) (waitingOnRetry c)
    (outstandingSnoop c) (cc_now c) (cc_env c).
Definition set_cc_blocked (v : Z) (c : Cache) : Cache :=
  mkCache (cc_params c) (cc_tags c) (tempBlock c) (tempAddr c) (mshrQueue c)
    (writeBuffer c) v (cc_order c) (noTargetMSHR c) (missCount c)
    (port_blocked c) (mustSendRetry c) (sendRetryEvent c) (retriesSent c)
    (responses c) (snoopResponses c) (sendEvents c) (waitingOnRetry c)
    (outstandingSnoop c) (cc_now c) (cc_env c).
Definition set_cc_order (v : Z) (c : Cache) : Cache :=
  mkCache (cc_params c) (cc_tags c) (tempBlock c) (tempAddr c) (mshrQueue c)
    (writeBuffer c) (cc_blocked c) v (noTargetMSHR c) (missCount c)
    (port_blocked c) (mustSendRetry c) (sendRetryEvent c) (retriesSent c)
    (responses c) (snoopResponses c) (sendEvents c) (waitingOnRetry c)
    (outstandingSnoop c) (cc_now c) (cc_env c).
Definition set_noTargetMSHR (v : option nat) (c : Cache) : Cache :=
  mkCache (cc_params c) (cc_tags c) (tempBlock c) (tempAddr c) (mshrQueue c)
    (writeBuffer c) (cc_blocked c) (cc_order c) v (missCount c)
    (port_blocked c) (mustSendRetry c) (sendRetryEvent c) (retriesSent c)
    (responses c) (snoopResponses c) (sendEvents c) (waitingOnRetry c)
    (outstandingSnoop c) (cc_now c) (cc_env c).
Definition set_missCount (v : Z) (c : Cache) : Cache :=
  mkCache (cc_params c) (cc_tags c) (tempBlock c) (tempAddr c) (mshrQueue c)
    (writeBuffer c) (cc_blocked c) (cc_order c) (noTargetMSHR c) v
    (port_blocked c) (mustSendRetry c) (sendRetryEvent c) (retriesSent c)
    (responses c) (snoopResponses c) (sendEvents c) (waitingOnRetry c)
    (outstandingSnoop c) (cc_now c) (cc_env c).
Definition set_port_blocked (v : bool) (c : Cache) : Cache :=
  mkCache (cc_params c) (cc_tags c) (tempBlock c) (tempAddr c) (mshrQueue c)
    (writeBuffer c) (cc_blocked c) (cc_order c) (noTargetMSHR c) (missCount c)
    v (mustSendRetry c) (sendRetryEvent c) (retriesSent c) (responses c)
    (snoopResponses c) (sendEvents c) (waitingOnRetry c) (outstandingSnoop c)
    (cc_now c) (cc_env c).
Definition set_mustSendRetry (v : bool) (c : Cache) : Cache :=
  mkCache (cc_params c) (cc_tags c) (tempBlock c) (tempAddr c) (mshrQueue c)
    (writeBuffer c) (cc_blocked c) (cc_order c) (noTargetMSHR c) (missCount c)
    (port_blocked c) v (sendRetryEvent c) (retriesSent c) (responses c)
    (snoopResponses c) (sendEvents c) (waitingOnRetry c) (outstandingSnoop c)
    (cc_now c) (cc_env c).
Definition set_sendRetryEvent (v : option Tick) (c : Cache) : Cache :=
  mkCache (cc_params c) (cc_tags c) (tempBlock c) (tempAddr c) (mshrQueue c)
    (writeBuffer c) (cc_blocked c) (cc_order c) (noTargetMSHR c) (missCount c)
    (port_blocked c) (mustSendRetry c) v (retriesSent c) (responses c)
    (snoopResponses c) (sendEvents c) (waitingOnRetry c) (outstandingSnoop c)
    (cc_now c) (cc_env c).
Definition set_retriesSent (v : Z) (c : Cache) : Cache :=
  mkCache (cc_params c) (cc_tags c) (tempBlock c) (tempAddr c) (mshrQueue c)
    (writeBuffer c) (cc_blocked c) (cc_order c) (noTargetMSHR c) (missCount c)
    (port_blocked c) (mustSendRetry c) (sendRetryEvent c) v (responses c)
    (snoopResponses c) (sendEvents c) (waitingOnRetry c) (outstandingSnoop c)
    (cc_now c) (cc_env c).
Definition set_responses (v : list (Pkt * Tick)) (c : Cache) : Cache :=
  mkCache (cc_params c) (cc_tags c) (tempBlock c) (tempAddr c) (mshrQueue c)
    (writeBuffer c) (cc_blocked c) (cc_order c) (noTargetMSHR c) (missCount c)
    (port_blocked c) (mustSendRetry c) (sendRetryEvent c) (retriesSent c) v
    (snoopResponses c) (sendEvents c) (waitingOnRetry c) (outstandingSnoop c)
    (cc_now c) (cc_env c).
Definition set_snoopResponses (v : list (Pkt * Tick)) (c : Cache) : Cache :=
  mkCache (cc_params c) (cc_tags c) (tempBlock c) (tempAddr c) (mshrQueue c)
    (writeBuffer c) (cc_blocked c) (cc_order c) (noTargetMSHR c) (missCount c)
    (port_blocked c) (mustSendRetry c) (sendRetryEvent c) (retriesSent c)
    (responses c) v (sendEvents c) (waitingOnRetry c) (outstandingSnoop c)
    (cc_now c) (cc_env c).
Definition set_sendEvents (v : list Tick) (c : Cache) : Cache :=
  mkCache (cc_params c) (cc_tags c) (tempBlock c) (tempAddr c) (mshrQueue c)
    (writeBuffer c) (cc_blocked c) (cc_order c) (noTargetMSHR c) (missCount c)
    (port_blocked c) (mustSendRetry c) (sendRetryEvent c) (retriesSent c)
    (responses c) (snoopResponses c) v (waitingOnRetry c) (outstandingSnoop c)
    (cc_now c) (cc_env c).
Definition set_waitingOnRetry (v : bool) (c : Cache) : Cache :=
  mkCache (cc_params c) (cc_tags c) (tempBlock c) (tempAddr c) (mshrQueue c)
    (writeBuffer c) (cc_blocked c) (cc_order c) (noTargetMSHR c) (missCount c)
    (port_blocked c) (mustSendRetry c) (sendRetryEvent c) (retriesSent c)
    (responses c) (snoopResponses c) (sendEvents c) v (outstandingSnoop c)
    (cc_now c) (cc_env c).
Definition set_outstandingSnoop (v : list nat) (c : Cache) : Cache :=
  mkCache (cc_params c) (cc_tags c) (tempBlock c) (tempAddr c) (mshrQueue c)
    (writeBuffer c) (cc_blocked c) (cc_order c) (noTargetMSHR c) (missCount c)
    (port_blocked c) (mustSendRetry c) (sendRetryEvent c) (retriesSent c)
    (responses c) (snoopResponses c) (sendEvents c) (waitingOnRetry c) v
    (cc_now c) (cc_env c).
Definition set_cc_now (v : Tick) (c : Cache) : Cache :=
  mkCache (cc_params c) (cc_tags c) (tempBlock c) (tempAddr c) (mshrQueue c)
    (writeBuffer c) (cc_blocked c) (cc_order c) (noTargetMSHR c) (missCount c)
    (port_blocked c) (mustSendRetry c) (sendRetryEvent c) (retriesSent c)
    (responses c) (snoopResponses c) (sendEvents c) (waitingOnRetry c)
    (outstandingSnoop c) v (cc_env c).
Definition set_cc_env (v : E) (c : Cache) : Cache :=
  mkCache (cc_params c) (cc_tags c) (tempBlock c) (tempAddr c) (mshrQueue c)
    (writeBuffer c) (cc_blocked c) (cc_order c) (noTargetMSHR c) (missCount c)
    (port_blocked c) (mustSendRetry c) (sendRetryEvent c) (retriesSent c)
    (responses c) (snoopResponses c) (sendEvents c) (waitingOnRetry c)
    (outstandingSnoop c) (cc_now c) v.

Abbreviation blkSize c := (cp_blkSize (cc_params c)).

(** [clockEdge(cycles)]: ticks of a clock that runs since tick 0. *)
Definition clockEdge (cycles : Z) (c : Cache) : Tick :=
  let period := cp_clockPeriod (cc_params c) in
  (cc_now c + period - 1) / period * period + period * cycles.

(** Access to a block through its pointer. *)
Definition getBlk (c : Cache) (r : BlkRef) : outcome (CacheBlk D) :=
  match r with InTags pos => blkAt (cc_tags c) pos | TempBlk => Ok (tempBlock c) end.
Definition putBlk (r : BlkRef) (b : CacheBlk D) (c : Cache) : Cache :=
  match r with
  | InTags pos => set_cc_tags (blkPut (cc_tags c) pos b) c
  | TempBlk => set_tempBlock b c
  end.
Definition modBlk (r : BlkRef) (f : CacheBlk D → CacheBlk D) (c : Cache) : outcome Cache :=
  let! b := getBlk c r in Ok (putBlk r (f b) c).

(** [tags->findBlock]. *)
Definition cc_findBlock (c : Cache) (addr : Addr) (is_secure : bool) : outcome (option BlkRef) :=
  let! pos := findBlock (cc_tags c) addr is_secure in Ok (InTags <$> pos).

(** A block and its contents, [blk && ...]. *)
Definition getBlkOpt (c : Cache) (blk : option BlkRef) : outcome (option (CacheBlk D)) :=
  match blk with Some r => let! b := getBlk c r in Ok (Some b) | None => Ok None end.

(** [BaseCache::regenerateBlkAddr]. *)
Definition cc_regenerateBlkAddr (c : Cache) (r : BlkRef) (b : CacheBlk D) : Addr :=
  match r with
  | InTags pos => regenerateBlkAddr (cc_tags c) pos b
  | TempBlk => tempAddr c
  end.

(** ** The port and the causes for blocking it *)

(** [CacheSlavePort::setBlocked] and [clearBlocked]. *)
Definition port_setBlocked (c : Cache) : outcome Cache :=
  assert! negb (port_blocked c) as "CacheSlavePort::setBlocked: !blocked" in
  let c := set_port_blocked true c in
  match sendRetryEvent c with
  | Some _ => Ok (set_mustSendRetry true (set_sendRetryEvent None c))
  | None => Ok c
  end.
Definition port_clearBlocked (c : Cache) : outcome Cache :=
  assert! port_blocked c as "CacheSlavePort::clearBlocked: blocked" in
  let c := set_port_blocked false c in
  if mustSendRetry c then
    match sendRetryEvent c with
    | None => Ok (set_sendRetryEvent (Some (cc_now c + 1)) c)
    | Some _ => Err (Assertion "schedule: !event->scheduled()")
    end
  else Ok c.

(** [processSendRetry], the scheduled event. *)
Definition processSendRetry (c : Cache) : Cache :=
  set_retriesSent (retriesSent c + 1) (set_mustSendRetry false (set_sendRetryEvent None c)).

(** [BaseCache::setBlocked] and [clearBlocked]. *)
Definition setBlocked (cause : Z) (c : Cache) : outcome Cache :=
  let! c := if cc_blocked c =? 0 then port_setBlocked c else Ok c in
  Ok (set_cc_blocked (Z.lor (cc_blocked c) (Z.shiftl 1 cause)) c).
Definition clearBlocked (cause : Z) (c : Cache) : outcome Cache :=
  let c := set_cc_blocked (Z.ldiff (cc_blocked c) (Z.shiftl 1 cause)) c in
  if cc_blocked c =? 0 then port_clearBlocked c else Ok c.

(** [memSidePort.schedSendEvent(time)]. *)
Definition schedMemSideSendEvent (time : Tick) (c : Cache) : Cache :=
  set_sendEvents (sendEvents c ++ [time]) c.
(** [cpuSidePort.schedTimingResp(pkt, time, true)]. *)
Definition schedTimingResp (p : Pkt) (time : Tick) (c : Cache) : Cache :=
  set_responses (responses c ++ [(p, time)]) c.

(** [BaseCache::markInService], for an MSHR and for a write queue entry. *)
Definition markInServiceMSHR (i : nat) (pending_modified_resp : bool) (c : Cache) : outcome Cache :=
  let wasFull := q_isFull (mshrQueue c) in
  let! q := mq_markInService i pending_modified_resp (mshrQueue c) in
  let c := set_mshrQueue q c in
  if wasFull && negb (q_isFull q) then clearBlocked Blocked_NoMSHRs c else Ok c.
Definition markInServiceWrite (i : nat) (c : Cache) : outcome Cache :=
  let wasFull := q_isFull (writeBuffer c) in
  let! q := wq_markInService i (writeBuffer c) in
  let c := set_writeBuffer q c in
  if wasFull && negb (q_isFull q) then clearBlocked Blocked_NoWBBuffers c else Ok c.

(** [allocOnFill]. *)
Definition allocOnFill (c : Cache) (cmd : MemCmd.Command) : bool :=
  bool_decide (clusivity (cc_params c) = mostly_incl) || bool_decide (cmd = MemCmd.WriteLineReq) ||
  bool_decide (cmd = MemCmd.ReadReq) || bool_decide (cmd = MemCmd.WriteReq) ||
  MemCmd.isPrefetch cmd || MemCmd.isLLSC cmd.

(** [allocateMissBuffer] and [allocateWriteBuffer]. *)
Definition allocateMissBuffer (p : Pkt) (time : Tick) (sched_send : bool) (c : Cache)
  : outcome (nat * Cache) :=
  let! (i, q) := mq_allocate (cc_now c) (getBlockAddr (blkSize c) p) p time (cc_order c)
                   (allocOnFill c (pk_cmd p)) (mshrQueue c) in
  let c := set_cc_order (cc_order c + 1) (set_mshrQueue q c) in
  let! c := if q_isFull q then setBlocked Blocked_NoMSHRs c else Ok c in
  Ok (i, if sched_send then schedMemSideSendEvent time c else c).
Definition allocateWriteBuffer (p : Pkt) (time : Tick) (c : Cache) : outcome Cache :=
  assert! pk_isWrite p || bool_decide (pk_cmd p = MemCmd.CleanEvict)
    as "allocateWriteBuffer: pkt->isWrite() || pkt->cmd == MemCmd::CleanEvict" in
  let! (_, q) := wq_allocate (getBlockAddr (blkSize c) p) p time (cc_order c) (writeBuffer c) in
  let c := set_cc_order (cc_order c + 1) (set_writeBuffer q c) in
  let! c := if q_isFull q then setBlocked Blocked_NoWBBuffers c else Ok c in
  Ok (schedMemSideSendEvent time c).

(** [incMissCount]; [exitSimLoop] at zero ends the simulation, not the call. *)
Definition incMissCount (c : Cache) : Cache :=
  if missCount c =? 0 then c else set_missCount (missCount c - 1) c.

(** ** Blocks leave and enter *)

(** [invalidateBlock]; for [tempBlock] also its address. *)
Definition invalidateBlock (r : BlkRef) (c : Cache) : outcome Cache :=
  match r with
  | InTags pos =>
      let! t := tg_invalidate rp pos (cc_tags c) in
      modBlk r blk_invalidate (set_cc_tags t c)
  | TempBlk => Ok (set_tempAddr MaxAddr (set_tempBlock (blk_invalidate (tempBlock c)) c))
  end.

(** The request of a packet the cache makes for one of its blocks. *)
Definition blkRequest (c : Cache) (r : BlkRef) (b : CacheBlk D) (flags : Z) : Request :=
  mkRequest 0 (blkSize c) (Z.lor flags (if blk_isSecure b then ReqFlag2.SECURE else 0))
    (Some (cc_regenerateBlkAddr c r b)) false.

(** What [writebackBlk] and [writecleanBlk] do after they made the packet: hand over
    write permission, clean the block, and copy the data. *)
Definition passOwnership (p : Pkt) (r : BlkRef) (b : CacheBlk D) (c : Cache)
  : outcome (Pkt * Cache) :=
  let p := if isWritable b then p else setHasSharers p in
  let b := if isWritable b then blk_clear BlkWritable b else b in
  let b := blk_clear BlkDirty b in
  let! p := pk_allocate p in
  let! p := setDataFromBlock (blk_data b) (blkSize c) p in
  Ok (p, putBlk r b c).

(** [writebackBlk]. *)
Definition writebackBlk (r : BlkRef) (c : Cache) : outcome (Pkt * Cache) :=
  let! b := getBlk c r in
  assert! negb (isReadOnly (cc_params c)) || writebackClean (cc_params c)
    as "Writeback from read-only cache" in
  assert! blk_isValid b && (isDirty b || writebackClean (cc_params c)) as "writebackBlk" in
  let! p := newPacket (blkRequest c r b 0) (-1) wbMasterId (task_id b)
              (if isDirty b then MemCmd.WritebackDirty else MemCmd.WritebackClean) in
  passOwnership p r b c.

(** [writecleanBlk]; the packet is block-sized. *)
Definition writecleanBlk (r : BlkRef) (dest : Z) (c : Cache) : outcome (Pkt * Cache) :=
  let! b := getBlk c r in
  let! p := newPacket (blkRequest c r b dest) (-1) wbMasterId (task_id b) MemCmd.WriteClean in
  let! p := newBlkPacket p MemCmd.WriteClean (blkSize c) in
  let! p := if dest =? 0 then Ok p else setWriteThrough p in
  passOwnership p r b c.

(** [cleanEvictBlk]. *)
Definition cleanEvictBlk (r : BlkRef) (c : Cache) : outcome Pkt :=
  let! b := getBlk c r in
  assert! negb (writebackClean (cc_params c)) as "cleanEvictBlk: !writebackClean" in
  assert! blk_isValid b && negb (isDirty b) as "cleanEvictBlk: blk->isValid() && !blk->isDirty()" in
  let! p := newPacket (blkRequest c r b 0) (-1) wbMasterId (task_id b) MemCmd.CleanEvict in
  pk_allocate p.

(** [Cache::evictBlock]. *)
Definition evictBlock (r : BlkRef) (c : Cache) : outcome (Pkt * Cache) :=
  let! b := getBlk c r in
  let! (p, c) := if isDirty b || writebackClean (cc_params c) then writebackBlk r c
                 else (let! p := cleanEvictBlk r c in Ok (p, c)) in
  let! c := invalidateBlock r c in
  Ok (p, c).

(** [allocateBlock]: the block, the writebacks, the cache.  The policy was asked even
    when the allocation fails. *)
Definition allocateBlock (p : Pkt) (c : Cache) : outcome (option BlkRef * list Pkt * Cache) :=
  let! (pos, t) := findVictim rp (cc_now c) (pk_addr p) (cc_tags c) in
  let c := set_cc_tags t c in
  let r := InTags pos in
  let! b := getBlk c r in
  let repl := if blk_isValid b
              then findMatch (mshrQueue c) (cc_regenerateBlkAddr c r b) (blk_isSecure b)
              else None in
  match repl with
  | Some i =>
      let! m := q_get (mshrQueue c) i in
      let! cleaning := if negb (isWritable b) && ms_needsWritable m then Ok true
                       else isCleaning m in
      assert! cleaning as "allocateBlock: outstanding upgrade or clean request" in
      Ok (None, [], c)
  | None =>
      let! (wbs, c) := if blk_isValid b
                       then (let! (wb, c) := evictBlock r c in Ok ([wb], c))
                       else Ok ([], c) in
      let! t := insertBlock rp (cc_now c) p pos (cc_tags c) in
      Ok (Some r, wbs, set_cc_tags t c)
  end.

(** [maintainClusivity]. *)
Definition maintainClusivity (from_cache : bool) (blk : option BlkRef) (c : Cache) : outcome Cache :=
  match blk with
  | Some r =>
      let! b := getBlk c r in
      if from_cache && blk_isValid b && negb (isDirty b) &&
         bool_decide (clusivity (cc_params c) = mostly_excl)
      then invalidateBlock r c
      else Ok c
  | None => Ok c
  end.

(** [tempBlock->insert(addr, is_secure)]. *)
Definition tempInsert (addr : Addr) (is_secure : bool) (c : Cache) : Cache :=
  set_tempAddr addr
    (set_tempBlock (set_blk_status (if is_secure then BlkSecure else 0) (tempBlock c)) c).

(** [handleFill]: the block, the writebacks, the cache. *)
Definition handleFill (p : Pkt) (blk : option BlkRef) (allocate : bool) (c : Cache)
  : outcome (BlkRef * list Pkt * Cache) :=
  let writeLine := bool_decide (pk_cmd p = MemCmd.WriteLineReq) in
  assert! pk_isResponse p || writeLine as "handleFill: pkt->isResponse() || WriteLineReq" in
  assert! pk_addr p =? getBlockAddr (blkSize c) p as "handleFill: addr == getBlockAddr" in
  assert! bool_decide (findMatch (writeBuffer c) (pk_addr p) (pk_isSecure p) = None)
    as "handleFill: !writeBuffer.findMatch(addr, is_secure)" in
  let! (r, wbs, c) :=
    match blk with
    | None =>
        assert! pk_hasData p as "handleFill: pkt->hasData()" in
        assert! pk_isRead p || writeLine as "handleFill: pkt->isRead() || WriteLineReq" in
        let! (blk, wbs, c) := if allocate then allocateBlock p c else Ok (None, [], c) in
        let! (r, c) :=
          match blk with
          | Some r => Ok (r, c)
          | None =>
              assert! negb (blk_isValid (tempBlock c)) as "handleFill: !tempBlock->isValid()" in
              Ok (TempBlk, tempInsert (pk_addr p) (pk_isSecure p) c)
          end in
        let! b := getBlk c r in
        assert! negb (blk_isValid b) as "handleFill: !blk->isValid()" in
        Ok (r, wbs, c)
    | Some r =>
        let! b := getBlk c r in
        assert! cc_regenerateBlkAddr c r b =? pk_addr p as "handleFill: regenerateBlkAddr(blk) == addr" in
        assert! Bool.eqb (blk_isSecure b) (pk_isSecure p) as "handleFill: blk->isSecure() == is_secure" in
        assert! pk_hasData p || blk_isValid b as "handleFill: pkt->hasData() || blk->isValid()" in
        Ok (r, [], c)
    end in
  let! b := getBlk c r in
  let b := set_isInitialized true (blk_set (Z.lor BlkValid BlkReadable) b) in
  assert! negb writeLine || negb (hasSharers p) as "handleFill: !pkt->hasSharers()" in
  let! b :=
    if hasSharers p then Ok b
    else
      let b := blk_set BlkWritable b in
      if cacheResponding p then
        assert! negb (isReadOnly (cc_params c))
          as "Should never see dirty snoop response in read-only cache" in
        Ok (blk_set BlkDirty b)
      else Ok b in
  let! b :=
    if pk_isRead p then
      assert! pk_hasData p as "handleFill: pkt->hasData()" in
      assert! pk_size p =? blkSize c as "handleFill: pkt->getSize() == blkSize" in
      let! d := writeDataToBlock (blk_data b) (blkSize c) p in
      Ok (set_blk_data d b)
    else Ok b in
  let b := set_whenReady
             (clockEdge 0 c + fillLatency (cc_params c) * cp_clockPeriod (cc_params c) +
              pk_payloadDelay p) b in
  Ok (r, wbs, putBlk r b c).

(** ** Satisfying a request from a block *)

(** The bytes of an integer in memory, little-endian. *)
Fixpoint leBytes (n : nat) (v : Z) : list Z :=
  match n with O => [] | S n => v mod 256 :: leBytes n (v / 256) end.

(** [cmpAndSwap]: the packet and the block afterwards. *)
Definition cmpAndSwap (blkSz : Z) (p : Pkt) (b : CacheBlk D) : outcome (Pkt * CacheBlk D) :=
  assert! pk_isRequest p as "cmpAndSwap: pkt->isRequest()" in
  let offset := getOffset blkSz p in
  assert! pk_size p <=? 8 as "cmpAndSwap: sizeof(uint64_t) >= pkt->getSize()" in
  let! overwrite_val := writeData p in
  let old := bytesAt offset (pk_size p) (blk_data b) in
  let! p := setData old p in
  let! overwrite_mem :=
    if req_isCondSwap (pk_req p) then
      if (pk_size p =? 8) || (pk_size p =? 4)
      then Ok (bool_decide (leBytes (Z.to_nat (pk_size p)) (pk_extraData p) = old))
      else Err (PanicCall "Invalid size for conditional read/write")
    else Ok true in
  Ok (p, if overwrite_mem
         then blk_set BlkDirty (set_blk_data (bytesPut offset overwrite_val (blk_data b)) b)
         else b).

(** [BaseCache::satisfyRequest]. *)
Definition base_satisfyRequest (p : Pkt) (r : BlkRef) (c : Cache) : outcome (Pkt * Cache) :=
  assert! pk_isRequest p as "satisfyRequest: pkt->isRequest()" in
  let! b := getBlk c r in
  assert! blk_isValid b as "satisfyRequest: blk && blk->isValid()" in
  let offset := getOffset (blkSize c) p in
  assert! offset + pk_size p <=? blkSize c as "satisfyRequest: getOffset + getSize <= blkSize" in
  if decide (pk_cmd p = MemCmd.SwapReq) then
    if req_isAtomic (pk_req p) then
      let old := bytesAt offset (pk_size p) (blk_data b) in
      let! p := setData old p in
      let d := ce_atomicOp p (drop (Z.to_nat offset) (blk_data b)) in
      Ok (p, putBlk r (blk_set BlkDirty
                         (set_blk_data (take (Z.to_nat offset) (blk_data b) ++ d) b)) c)
    else
      let! (p, b) := cmpAndSwap (blkSize c) p b in Ok (p, putBlk r b c)
  else if pk_isWrite p then
    assert! isWritable b as "satisfyRequest: blk->isWritable()" in
    let! (ok, p, b) := checkWrite p b in
    let! b := if ok then (let! d := writeDataToBlock (blk_data b) (blkSize c) p in
                          Ok (set_blk_data d b))
              else Ok b in
    Ok (p, putBlk r (blk_set BlkDirty b) c)
  else if pk_isRead p then
    let! b := if pk_isLLSC p then trackLoadLocked p b else Ok b in
    assert! pk_hasRespData p as "satisfyRequest: pkt->hasRespData()" in
    let! p := setDataFromBlock (blk_data b) (blkSize c) p in
    Ok (p, putBlk r b c)
  else if pk_isUpgrade p then
    assert! negb (hasSharers p) as "satisfyRequest: !pkt->hasSharers()" in
    if isDirty b then
      let! p := setCacheResponding p in Ok (p, putBlk r (blk_clear BlkDirty b) c)
    else Ok (p, c)
  else if pk_isClean p then Ok (p, putBlk r (blk_clear BlkDirty b) c)
  else
    assert! pk_isInvalidate p as "satisfyRequest: pkt->isInvalidate()" in
    let! c := invalidateBlock r c in Ok (p, c).

(** [Cache::satisfyRequest]: who gets the line in which state. *)
Definition cache_satisfyRequest (p : Pkt) (r : BlkRef) (deferred_response pending_downgrade : bool)
    (c : Cache) : outcome (Pkt * Cache) :=
  let! (p, c) := base_satisfyRequest p r c in
  if pk_isRead p && pk_fromCache p then
    assert! pk_size p =? blkSize c as "satisfyRequest: pkt->getSize() == blkSize" in
    let! b := getBlk c r in
    let! nw := pk_needsWritable p in
    if nw then
      assert! bool_decide (pk_cmd p = MemCmd.ReadExReq) ||
              bool_decide (pk_cmd p = MemCmd.SCUpgradeFailReq) as "satisfyRequest: ReadExReq" in
      assert! negb (hasSharers p) as "satisfyRequest: !pkt->hasSharers()" in
      if isDirty b then
        let! p := setCacheResponding p in Ok (p, putBlk r (blk_clear BlkDirty b) c)
      else Ok (p, c)
    else if isWritable b && negb pending_downgrade && negb (hasSharers p) &&
            negb (bool_decide (pk_cmd p = MemCmd.ReadCleanReq)) then
      if isDirty b then
        if negb deferred_response then
          let! p := setCacheResponding p in Ok (p, putBlk r (blk_clear BlkDirty b) c)
        else Ok (setHasSharers p, c)
      else Ok (p, c)
    else Ok (setHasSharers p, c)
  else Ok (p, c).

(** ** The lookup *)

(** What [access] answers: the request was satisfied, the packet, the block, the
    latency, the writebacks. *)
Record Access := mkAccess {
  ac_satisfied : bool;
  ac_pkt : Pkt;
  ac_blk : option BlkRef;
  ac_lat : Z;
  ac_writebacks : list Pkt;
}.

(** The part of [access] that looks for a writeback in the write buffer: [true] if
    it already answers the request. *)
Definition access_eviction (p : Pkt) (c : Cache) : outcome (bool * Cache) :=
  assert! negb (req_isRestricted (pk_req p)) as "access: !pkt->req->isRestricted()" in
  match findMatch (writeBuffer c) (pk_addr p) (pk_isSecure p) with
  | Some i =>
      let! e := q_get (writeBuffer c) i in
      assert! bool_decide (length (qe_data e) = 1%nat) as "access: wb_entry->getNumTargets() == 1" in
      let! t := we_getTarget e in
      assert! pk_isWriteback (wt_pkt t) as "access: wbPkt->isWriteback()" in
      if pk_isCleanEviction p then
        let e := set_qe_data [mkWTarget (wt_readyTime t) (wt_order t)
                                (clearBlockCached (wt_pkt t))] e in
        Ok (true, set_writeBuffer (q_put (writeBuffer c) i e) c)
      else
        assert! bool_decide (pk_cmd p = MemCmd.WritebackDirty)
          as "access: pkt->cmd == MemCmd::WritebackDirty" in
        let! c := markInServiceWrite i c in Ok (false, c)
  | None => Ok (false, c)
  end.

(** What a writeback or write-clean does to its block once there is one. *)
Definition access_fillWriteback (p : Pkt) (dirty writable : bool) (r : BlkRef) (c : Cache)
  : outcome Cache :=
  let! b := getBlk c r in
  let b := if dirty then blk_set BlkDirty b else b in
  let b := if writable then blk_set BlkWritable b else b in
  assert! negb (pk_needsResponse p) as "access: !pkt->needsResponse()" in
  let! d := writeDataToBlock (blk_data b) (blkSize c) p in
  let b := set_whenReady (clockEdge (fillLatency (cc_params c)) c + pk_headerDelay p +
                          pk_payloadDelay p) (set_blk_data d b) in
  Ok (putBlk r b c).

(** A block for a writeback: the one there is, or a new one, valid and readable. *)
Definition access_writebackBlk (p : Pkt) (blk : option BlkRef) (c : Cache)
  : outcome (option BlkRef * list Pkt * Cache) :=
  match blk with
  | Some r => Ok (Some r, [], c)
  | None =>
      let! (blk, wbs, c) := allocateBlock p c in
      match blk with
      | Some r =>
          let! c := modBlk r (blk_set (Z.lor BlkValid BlkReadable)) c in
          Ok (Some r, wbs, c)
      | None => Ok (None, wbs, incMissCount c)
      end
  end.

(** The three kinds of requests that carry a line from above. *)
Definition access_writeback (p : Pkt) (blk : option BlkRef) (lat : Z) (c : Cache)
  : outcome (Access * Cache) :=
  assert! negb (req_isRestricted (pk_req p)) as "access: !pkt->req->isRestricted()" in
  assert! blkSize c =? pk_size p as "access: blkSize == pkt->getSize()" in
  if bool_decide (pk_cmd p = MemCmd.WritebackClean) &&
     negb (bool_decide (findMatch (mshrQueue c) (pk_addr p) (pk_isSecure p) = None))
  then Ok (mkAccess true p blk lat [], c)
  else
    let! (blk, wbs, c) := access_writebackBlk p blk c in
    match blk with
    | None => Ok (mkAccess false p None lat wbs, c)
    | Some r =>
        let! c := access_fillWriteback p (bool_decide (pk_cmd p = MemCmd.WritebackDirty))
                    (negb (hasSharers p)) r c in
        Ok (mkAccess true p (Some r) lat wbs, c)
    end.

Definition access_writeClean (p : Pkt) (blk : option BlkRef) (lat : Z) (c : Cache)
  : outcome (Access * Cache) :=
  assert! negb (req_isRestricted (pk_req p)) as "access: !pkt->req->isRestricted()" in
  assert! blkSize c =? pk_size p as "access: blkSize == pkt->getSize()" in
  if bool_decide (blk = None) && writeThrough p then Ok (mkAccess false p None lat [], c)
  else
    let! (blk, wbs, c) := access_writebackBlk p blk c in
    match blk with
    | None => Ok (mkAccess false p None lat wbs, c)
    | Some r =>
        let! c := access_fillWriteback p (negb (writeThrough p)) false r c in
        Ok (mkAccess (negb (writeThrough p)) p (Some r) lat wbs, c)
    end.

(** Can the block serve the request as it is. *)
Definition canSatisfy (p : Pkt) (b : CacheBlk D) : outcome bool :=
  let! nw := pk_needsWritable p in Ok (if nw then isWritable b else isReadable b).

(** [BaseCache::access]. *)
Definition base_access (p : Pkt) (c : Cache) : outcome (Access * Cache) :=
  assert! pk_isRequest p as "access: pkt->isRequest()" in
  assert! negb (isReadOnly (cc_params c) && pk_isWrite p)
    as "Should never see a write in a read-only cache" in
  let! (pos, lat, t) :=
    accessBlock rp (cp_clockPeriod (cc_params c)) (cc_now c) (pk_addr p) (pk_isSecure p)
      (negb (req_isRestricted (pk_req p))) (cc_tags c) in
  let c := set_cc_tags t c in
  let blk := InTags <$> pos in
  if metadataUpdate (pk_req p) then Ok (mkAccess true p blk lat [], c) else
  if req_isCacheMaintenance (pk_req p) then
    assert! negb (req_isRestricted (pk_req p)) as "access: !pkt->req->isRestricted()" in
    Ok (mkAccess false p blk lat [], c)
  else
    let! (done, c) := if pk_isEviction p then access_eviction p c else Ok (false, c) in
    if (done : bool) then Ok (mkAccess true p blk lat [], c) else
    if pk_isWriteback p then access_writeback p blk lat c
    else if decide (pk_cmd p = MemCmd.CleanEvict) then
      assert! negb (req_isRestricted (pk_req p)) as "access: !pkt->req->isRestricted()" in
      Ok (mkAccess (negb (bool_decide (blk = None))) p blk lat [], c)
    else if decide (pk_cmd p = MemCmd.WriteClean) then access_writeClean p blk lat c
    else
      let! ob := getBlkOpt c blk in
      let! can := match ob with Some b => canSatisfy p b | None => Ok false end in
      match blk, can with
      | Some r, true =>
          let! (p, c) := cache_satisfyRequest p r false false c in
          let! c := maintainClusivity (pk_fromCache p) blk c in
          Ok (mkAccess true p blk lat [], c)
      | _, _ =>
          let '(p, c) := if req_isRestricted (pk_req p)
                         then (set_pk_req (req_clearUnsafe (pk_req p)) p, c)
                         else (p, incMissCount c) in
          if bool_decide (blk = None) && pk_isLLSC p && pk_isWrite p
          then Ok (mkAccess true (set_pk_extraData 0 p) blk lat [], c)
          else Ok (mkAccess false p blk lat [], c)
      end.

(** [Cache::access]: an uncacheable request flushes its block. *)
Definition cache_access (p : Pkt) (c : Cache) : outcome (Access * Cache) :=
  if req_isUncacheable (pk_req p) then
    assert! pk_isRequest p as "access: pkt->isRequest()" in
    assert! negb (isReadOnly (cc_params c) && pk_isWrite p)
      as "Should never see a write in a read-only cache" in
    let! old := cc_findBlock c (pk_addr p) (pk_isSecure p) in
    let! (wbs, c) :=
      match old with
      | Some r =>
          let! b := getBlk c r in
          if blk_isValid b then (let! (wb, c) := evictBlock r c in Ok ([wb], c)) else Ok ([], c)
      | None => Ok ([], c)
      end in
    Ok (mkAccess false p None (lookupLatency (cc_params c)) wbs, c)
  else base_access p c.

(** ** Writebacks *)

(** [isCachedAbove], in timing mode. *)
Definition isCachedAbove (p : Pkt) (c : Cache) : outcome (bool * Cache) :=
  if negb (forwardSnoops (cc_params c)) then Ok (false, c)
  else
    let! s := copyPacket p true false in
    assert! pk_isEviction p || bool_decide (pk_cmd p = MemCmd.WriteClean)
      as "isCachedAbove: pkt->isEviction() || pkt->cmd == MemCmd::WriteClean" in
    let '(s, e) := ce_sendTimingSnoopReq (setExpressSnoop s) (cc_env c) in
    assert! negb (cacheResponding s) as "isCachedAbove: !snoop_pkt.cacheResponding()" in
    Ok (isBlockCached s, set_cc_env e c).

(** One round of [doWritebacks], and the loop. *)
Definition doWriteback (forward_time : Tick) (c : Cache) (p : Pkt) : outcome Cache :=
  let! (above, c) := isCachedAbove p c in
  if (above : bool) then
    if decide (pk_cmd p = MemCmd.CleanEvict) then Ok c
    else if decide (pk_cmd p = MemCmd.WritebackClean) then
      assert! writebackClean (cc_params c) as "doWritebacks: writebackClean" in Ok c
    else
      assert! bool_decide (pk_cmd p = MemCmd.WritebackDirty) ||
              bool_decide (pk_cmd p = MemCmd.WriteClean)
        as "doWritebacks: WritebackDirty || WriteClean" in
      allocateWriteBuffer (setBlockCached p) forward_time c
  else allocateWriteBuffer p forward_time c.
Definition doWritebacks (writebacks : list Pkt) (forward_time : Tick) (c : Cache) : outcome Cache :=
  foldM (doWriteback forward_time) writebacks c.

(** ** Hits and misses *)

(** [handleTimingReqHit], of [Cache] and [BaseCache]. *)
Definition handleTimingReqHit (p : Pkt) (request_time : Tick) (c : Cache) : outcome Cache :=
  assert! negb (req_isUncacheable (pk_req p)) as "handleTimingReqHit: !pkt->req->isUncacheable()" in
  if pk_needsResponse p then
    let! p := makeResponse p in
    Ok (schedTimingResp (set_pk_payloadDelay 0 (set_pk_headerDelay 0 p)) request_time c)
  else Ok c.

(** The first assertion of [BaseCache::handleTimingReqMiss]. *)
Definition miss_unrestricted (p : option Pkt) : bool :=
  match p with Some p => negb (req_isRestricted (pk_req p)) | None => true end.

(** [BaseCache::handleTimingReqMiss]: [p] is null after a software prefetch that
    found an MSHR. *)
Definition base_handleTimingReqMiss (p : option Pkt) (mshr : option nat) (blk : option BlkRef)
    (forward_time : Tick) (c : Cache) : outcome Cache :=
  assert! miss_unrestricted p as "handleTimingReqMiss: !pkt || !pkt->req || !isRestricted()" in
  match mshr, p with
  | Some _, None => Ok c
  | Some i, Some p =>
      assert! negb (pk_isWriteback p) as "handleTimingReqMiss: !pkt->isWriteback()" in
      if decide (pk_cmd p = MemCmd.CleanEvict) then Ok c
      else if decide (pk_cmd p = MemCmd.WriteClean) then allocateWriteBuffer p forward_time c
      else
        let! m := q_get (mshrQueue c) i in
        let! m := allocateTarget (cc_now c) p forward_time (cc_order c)
                    (allocOnFill c (pk_cmd p)) m in
        let c := set_cc_order (cc_order c + 1) (set_mshrQueue (q_put (mshrQueue c) i m) c) in
        if getNumTargets m =? numTarget (cc_params c)
        then setBlocked Blocked_NoTargets (set_noTargetMSHR (Some i) c)
        else Ok c
  | None, None => Err (NullDeref "handleTimingReqMiss: pkt")
  | None, Some p =>
      if pk_isEviction p || bool_decide (pk_cmd p = MemCmd.WriteClean)
      then allocateWriteBuffer p forward_time c
      else
        let! ob := getBlkOpt c blk in
        let! c :=
          match blk, ob with
          | Some r, Some b =>
              if blk_isValid b then
                let! nw := pk_needsWritable p in
                assert! nw && negb (isWritable b) || req_isCacheMaintenance (pk_req p)
                  as "handleTimingReqMiss: needsWritable() && !blk->isWritable() || maintenance" in
                modBlk r (blk_clear BlkReadable) c
              else Ok c
          | _, _ => Ok c
          end in
        let! (_, c) := allocateMissBuffer p forward_time true c in
        Ok c
  end.

(** [Cache::handleTimingReqMiss]: the packet handed on ([None]: null). *)
Definition cache_handleTimingReqMiss (p : Pkt) (blk : option BlkRef)
    (forward_time request_time : Tick) (c : Cache) : outcome (option Pkt * Cache) :=
  if req_isUncacheable (pk_req p) then
    let! ob := getBlkOpt c blk in
    assert! match ob with Some b => negb (blk_isValid b) | None => true end
      as "handleTimingReqMiss: !blk || !blk->isValid()" in
    if pk_isWrite p then (let! c := allocateWriteBuffer p forward_time c in Ok (Some p, c))
    else
      assert! pk_isRead p as "handleTimingReqMiss: pkt->isRead()" in
      let! (_, c) := allocateMissBuffer p forward_time true c in Ok (Some p, c)
  else
    let mshr := findMatch (mshrQueue c) (getBlockAddr (blkSize c) p) (pk_isSecure p) in
    let! (pf, c) :=
      if MemCmd.isSWPrefetch (pk_cmd p) then
        assert! pk_needsResponse p as "handleTimingReqMiss: pkt->needsResponse()" in
        let! pf :=
          match mshr with
          | None =>
              let! pf := newPacket
                           (mkRequest 0 (req_size (pk_req p)) (req_flags (pk_req p))
                              (req_paddr (pk_req p)) false)
                           (-1) (pk_masterId p) UnknownTaskId (pk_cmd p) in
              let! pf := pk_allocate pf in
              assert! pk_addr pf =? pk_addr p as "handleTimingReqMiss: pf->getAddr() == pkt->getAddr()" in
              assert! pk_size pf =? pk_size p as "handleTimingReqMiss: pf->getSize() == pkt->getSize()" in
              Ok (Some pf)
          | Some _ => Ok None
          end in
        let! p := makeResponse p in
        Ok (pf, schedTimingResp p request_time c)
      else Ok (Some p, c) in
    let! c := base_handleTimingReqMiss pf mshr blk forward_time c in
    Ok (pf, c).

(** ** Requests from above *)

(** [prefetcher->notify(pkt)]. *)
Definition notifyPrefetcher (p : Pkt) (c : Cache) : Tick * Cache :=
  let '(t, e) := ce_notify p (cc_env c) in (t, set_cc_env e c).

(** The part of [BaseCache::recvTimingReq] after the lookup. *)
Definition recvTimingReq_hit (p : Pkt) (blk : option BlkRef) (request_time : Tick) (c : Cache)
  : outcome Cache :=
  let! ob := getBlkOpt c blk in
  let! (next_pf_time, c) :=
    if prefetcher (cc_params c) &&
       (prefetchOnAccess (cc_params c) || match ob with Some b => wasPrefetched b | None => false end)
    then
      let! c := match blk with Some r => modBlk r (blk_clear BlkHWPrefetched) c | None => Ok c end in
      if negb (MemCmd.isSWPrefetch (pk_cmd p)) then
        assert! negb (req_isCacheMaintenance (pk_req p))
          as "recvTimingReq: !pkt->req->isCacheMaintenance()" in
        Ok (notifyPrefetcher p c)
      else Ok (MaxTick, c)
    else Ok (MaxTick, c) in
  let! c := handleTimingReqHit p request_time c in
  Ok (if next_pf_time =? MaxTick then c else schedMemSideSendEvent next_pf_time c).
Definition recvTimingReq_miss (p : Pkt) (blk : option BlkRef) (forward_time request_time : Tick)
    (c : Cache) : outcome Cache :=
  let! (p, c) := cache_handleTimingReqMiss p blk forward_time request_time c in
  let '(next_pf_time, c) :=
    match p with
    | Some p =>
        if prefetcher (cc_params c) && negb (MemCmd.isSWPrefetch (pk_cmd p)) &&
           negb (req_isCacheMaintenance (pk_req p))
        then notifyPrefetcher p c else (MaxTick, c)
    | None => (MaxTick, c)
    end in
  Ok (if next_pf_time =? MaxTick then c else schedMemSideSendEvent next_pf_time c).

(** [BaseCache::recvTimingReq]: the packet as the caller sees it, and the cache. *)
Definition base_recvTimingReq (p : Pkt) (c : Cache) : outcome (Pkt * Cache) :=
  let forward_time := clockEdge (forwardLatency (cc_params c)) c + pk_headerDelay p in
  let wasUnsafe := req_isRestricted (pk_req p) in
  assert! negb wasUnsafe || pk_isRead p as "recvTimingReq: pkt->isRead()" in
  assert! negb wasUnsafe || negb (req_isUncacheable (pk_req p))
    as "recvTimingReq: !pkt->req->isUncacheable()" in
  let! (a, c) := cache_access p c in
  let p := ac_pkt a in
  if wasUnsafe && negb (ac_satisfied a) then
    assert! negb (req_isRestricted (pk_req p)) as "recvTimingReq: !pkt->req->isRestricted()" in
    Ok (p, c)
  else
    assert! negb wasUnsafe || req_isRestricted (pk_req p)
      as "recvTimingReq: pkt->req->isRestricted()" in
    if metadataUpdate (pk_req p) then Ok (p, c)
    else
      let! c := doWritebacks (ac_writebacks a) forward_time c in
      let request_time := clockEdge (ac_lat a) c + pk_headerDelay p in
      let p := set_pk_payloadDelay 0 (set_pk_headerDelay 0 p) in
      let! c := if ac_satisfied a then recvTimingReq_hit p (ac_blk a) request_time c
                else recvTimingReq_miss p (ac_blk a) forward_time request_time c in
      Ok (p, c).

(** [promoteWholeLineWrites]. *)
Definition promoteWholeLineWrites (c : Cache) (p : Pkt) : Pkt :=
  if bool_decide (pk_cmd p = MemCmd.WriteReq) && (pk_size p =? blkSize c) &&
     (getOffset (blkSize c) p =? 0)
  then set_pk_cmd MemCmd.WriteLineReq p else p.

(** [Cache::recvTimingReq]. *)
Definition cache_recvTimingReq (p : Pkt) (c : Cache) : outcome (Pkt * Cache) :=
  let p := promoteWholeLineWrites c p in
  if cacheResponding p then
    let! nw := pk_needsWritable p in
    assert! nw && negb (responderHadWritable p)
      as "recvTimingReq: pkt->needsWritable() && !pkt->responderHadWritable()" in
    let! s := copyPacket p true false in
    let! s := setCacheResponding (setExpressSnoop (set_pk_payloadDelay 0 (set_pk_headerDelay 0 s))) in
    let '(success, _, _, e) := ce_sendTimingReq s (cc_env c) in
    assert! success as "recvTimingReq: success" in
    Ok (p, set_cc_env e c)
  else base_recvTimingReq p c.

(** [CpuSidePort::tryTiming]. *)
Definition tryTiming (p : Pkt) (c : Cache) : bool * Cache :=
  if ce_bypassCaches (cc_env c) || isExpressSnoop p then (true, c)
  else if port_blocked c || mustSendRetry c then (false, set_mustSendRetry true c)
  else (true, set_mustSendRetry false c).

(** [CpuSidePort::recvTimingReq]: accepted or not; the packet; the cache. *)
Definition port_recvTimingReq (p : Pkt) (c : Cache) : outcome (bool * Pkt * Cache) :=
  assert! pk_isRequest p as "recvTimingReq: pkt->isRequest()" in
  if ce_bypassCaches (cc_env c) then
    let '(success, _, p, e) := ce_sendTimingReq p (cc_env c) in
    assert! success as "recvTimingReq: success" in
    Ok (true, p, set_cc_env e c)
  else
    let '(ok, c) := tryTiming p c in
    if ok then
      let wasUnsafe := req_isRestricted (pk_req p) in
      let! (p, c) := cache_recvTimingReq p c in
      Ok (negb (wasUnsafe && negb (req_isRestricted (pk_req p))) && negb (metadataUpdate (pk_req p)),
          p, c)
    else Ok (false, p, c).
End cache.
Arguments Cache G D E : clear implicits.
