(* ===== verification/CacheMem.v ===== *)
(** * The data cache: memory side and snoops

    The second half of [mem/cache/base.cc] and [mem/cache/cache.cc] in timing mode:
    what is sent to memory and when ([getNextQueueEntry], [sendMSHRQueuePacket],
    [sendWriteQueuePacket], [sendDeferredPacket]), the responses
    ([recvTimingResp], [serviceMSHRTargets]), and the snoops from below
    ([recvTimingSnoopReq], [handleSnoop]). *)

From S2P Require Import Prelude Config Packet ReplPolicy CacheTags CacheQueue Cache.
Import BlkStatus.

Local Open Scope Z_scope.

Section cache_mem.
Context {G D E : Type} `{CacheEnv E} (rp : ReplacementPolicy G D).
Abbreviation Cache := (Cache G D E).
Abbreviation blkSize c := (cp_blkSize (cc_params c)).

(** ** Sending *)

(** What [getNextQueueEntry] picks. *)
Inductive QEntry := QMshr (i : nat) | QWrite (i : nat).

(** The prefetch [getNextQueueEntry] tries when nothing else is ready. *)
Definition tryPrefetch (c : Cache) : outcome (option QEntry * Cache) :=
  if prefetcher (cc_params c) && canPrefetch (demandReserve (cc_params c)) (mshrQueue c) then
    let '(op, e) := ce_getPacket (cc_env c) in
    let c := set_cc_env e c in
    match op with
    | Some p =>
        let pf_addr := getBlockAddr (blkSize c) p in
        let! blk := cc_findBlock c pf_addr (pk_isSecure p) in
        if bool_decide (blk = None) &&
           bool_decide (findMatch (mshrQueue c) pf_addr (pk_isSecure p) = None) &&
           bool_decide (findMatch (writeBuffer c) pf_addr (pk_isSecure p) = None)
        then (let! (i, c) := allocateMissBuffer p (cc_now c) false c in Ok (Some (QMshr i), c))
        else Ok (None, c)
    | None => Ok (None, c)
    end
  else Ok (None, c).

(** [getNextQueueEntry]. *)
Definition getNextQueueEntry (c : Cache) : outcome (option QEntry * Cache) :=
  match getNext (cc_now c) (writeBuffer c), getNext (cc_now c) (mshrQueue c) with
  | Some w, miss =>
      if q_isFull (writeBuffer c) || bool_decide (miss = None) then
        let! we := q_get (writeBuffer c) w in
        match findPending (mshrQueue c) (qe_blkAddr we) (qe_isSecure we) with
        | Some i =>
            let! m := q_get (mshrQueue c) i in
            Ok (Some (if qe_order m <? qe_order we then QMshr i else QWrite w), c)
        | None => Ok (Some (QWrite w), c)
        end
      else
        match miss with
        | Some i =>
            let! m := q_get (mshrQueue c) i in
            match findPending (writeBuffer c) (qe_blkAddr m) (qe_isSecure m) with
            | Some w => Ok (Some (QWrite w), c)
            | None => Ok (Some (QMshr i), c)
            end
        | None => Ok (Some (QWrite w), c)
        end
  | None, Some i =>
      let! m := q_get (mshrQueue c) i in
      match findPending (writeBuffer c) (qe_blkAddr m) (qe_isSecure m) with
      | Some w => Ok (Some (QWrite w), c)
      | None => Ok (Some (QMshr i), c)
      end
  | None, None => tryPrefetch c
  end.

(** [nextQueueReadyTime]. *)
Definition nextQueueReadyTime (c : Cache) : Tick :=
  let nextReady := Z.min (nextReadyTime (mshrQueue c)) (nextReadyTime (writeBuffer c)) in
  if prefetcher (cc_params c) && canPrefetch (demandReserve (cc_params c)) (mshrQueue c)
  then Z.min nextReady (ce_nextPrefetchReadyTime (cc_env c)) else nextReady.

(** [createMissPacket]: the packet to send for a request, [None] if the request is
    to be forwarded as it is. *)
Definition createMissPacket (p : Pkt) (blk : option BlkRef) (needsWritable : bool) (c : Cache)
  : outcome (option Pkt) :=
  assert! negb (pk_isEviction p) as "createMissPacket: !cpu_pkt->isEviction()" in
  let! ob := getBlkOpt c blk in
  let valid := match ob with Some b => blk_isValid b | None => false end in
  let writable := match ob with Some b => isWritable b | None => false end in
  if req_isUncacheable (pk_req p) || negb valid && pk_isUpgrade p ||
     bool_decide (pk_cmd p = MemCmd.InvalidateReq) || pk_isClean p
  then Ok None
  else
    assert! pk_needsResponse p as "createMissPacket: cpu_pkt->needsResponse()" in
    let! cmd :=
      if decide (pk_cmd p = MemCmd.WriteLineReq) then
        assert! negb valid || negb writable as "createMissPacket: !blkValid || !blk->isWritable()" in
        Ok MemCmd.InvalidateReq
      else if valid then
        assert! needsWritable as "createMissPacket: needsWritable" in
        assert! negb writable as "createMissPacket: !blk->isWritable()" in
        Ok (if pk_isLLSC p then MemCmd.SCUpgradeReq else MemCmd.UpgradeReq)
      else if bool_decide (pk_cmd p = MemCmd.SCUpgradeFailReq) ||
              bool_decide (pk_cmd p = MemCmd.StoreCondFailReq)
      then Ok MemCmd.SCUpgradeFailReq
      else
        let force_clean_rsp :=
          isReadOnly (cc_params c) || bool_decide (clusivity (cc_params c) = mostly_excl) in
        Ok (if needsWritable then MemCmd.ReadExReq
            else if force_clean_rsp then MemCmd.ReadCleanReq else MemCmd.ReadSharedReq) in
    let! q := newBlkPacket p cmd (blkSize c) in
    let q := if hasSharers p && negb needsWritable then setHasSharers q else q in
    assert! pk_addr q =? getBlockAddr (blkSize c) q as "createMissPacket: block aligned" in
    let! q := pk_allocate q in
    Ok (Some q).

(** [BaseCache::sendMSHRQueuePacket]: is the port waiting for a retry. *)
Definition base_sendMSHRQueuePacket (i : nat) (c : Cache) : outcome (bool * Cache) :=
  let! m := q_get (mshrQueue c) i in
  let! t := tl_front (ms_targets m) in
  let tgt_pkt := tgt_pkt t in
  let! blk := cc_findBlock c (qe_blkAddr m) (qe_isSecure m) in
  let! ob := getBlkOpt c blk in
  let dirty := match ob with Some b => isDirty b | None => false end in
  let! op := createMissPacket tgt_pkt blk (ms_needsWritable m) c in
  let m := ms_upd (set_isForward (bool_decide (op = None))) m in
  let! p :=
    match op with
    | Some p => Ok p
    | None =>
        let! p := copyPacket tgt_pkt false true in
        assert! negb (pk_isWrite p) as "sendMSHRQueuePacket: !pkt->isWrite()" in
        Ok p
    end in
  let! p := if pk_isClean p && dirty then setSatisfied p else Ok p in
  let '(accepted, marked, p, e) := ce_sendTimingReq p (cc_env c) in
  let m := if marked then ms_upd (set_downstreamPending true) m else m in
  let c := set_cc_env e (set_mshrQueue (q_put (mshrQueue c) i m) c) in
  if negb accepted then Ok (true, c)
  else
    let! c := markInServiceMSHR i (negb (hasSharers p) && cacheResponding p) c in
    match blk with
    | Some r =>
        if pk_isClean p && dirty then
          let! (wb, c) := writecleanBlk r (req_getDest (pk_req p)) c in
          let! c := doWritebacks [wb] 0 c in
          Ok (false, c)
        else Ok (false, c)
    | None => Ok (false, c)
    end.

(** [Cache::sendMSHRQueuePacket]: a hardware prefetch first snoops what is above. *)
Definition cache_sendMSHRQueuePacket (i : nat) (c : Cache) : outcome (bool * Cache) :=
  let! m := q_get (mshrQueue c) i in
  let! t := tl_front (ms_targets m) in
  if bool_decide (pk_cmd (tgt_pkt t) = MemCmd.HardPFReq) && forwardSnoops (cc_params c) then
    let! blk := cc_findBlock c (qe_blkAddr m) (qe_isSecure m) in
    assert! bool_decide (blk = None) as "sendMSHRQueuePacket: !tags->findBlock" in
    let! s := copyPacket (tgt_pkt t) true false in
    let '(s, e) := ce_sendTimingSnoopReq (setExpressSnoop s) (cc_env c) in
    let c := set_cc_env e c in
    if cacheResponding s then
      assert! bool_decide (i ∉ outstandingSnoop c) as "sendMSHRQueuePacket: r.second" in
      let c := set_outstandingSnoop (i :: outstandingSnoop c) c in
      let! c := markInServiceMSHR i (negb (hasSharers s)) c in
      Ok (false, c)
    else if isBlockCached s then
      let! (freed, q) := forceDeallocateTarget (cc_now c) i (mshrQueue c) in
      let c := set_mshrQueue q c in
      let! c := if (freed : bool) then clearBlocked Blocked_NoMSHRs c else Ok c in
      Ok (false, c)
    else base_sendMSHRQueuePacket i c
  else base_sendMSHRQueuePacket i c.

(** [sendWriteQueuePacket]. *)
Definition sendWriteQueuePacket (i : nat) (c : Cache) : outcome (bool * Cache) :=
  let! e := q_get (writeBuffer c) i in
  let! t := we_getTarget e in
  let '(accepted, _, _, env) := ce_sendTimingReq (wt_pkt t) (cc_env c) in
  let c := set_cc_env env c in
  if negb accepted then Ok (true, c)
  else (let! c := markInServiceWrite i c in Ok (false, c)).

(** [CacheReqPacketQueue::sendDeferredPacket], and the retry that calls it
    ([PacketQueue::retry]). *)
Definition sendDeferredPacket (c : Cache) : outcome Cache :=
  assert! negb (waitingOnRetry c) as "sendDeferredPacket: !waitingOnRetry" in
  let! (entry, c) := getNextQueueEntry c in
  let! conflict :=
    match entry with
    | Some (QMshr i) => let! m := q_get (mshrQueue c) i in Ok (ce_snoopConflict (qe_blkAddr m) (cc_env c))
    | Some (QWrite i) => let! w := q_get (writeBuffer c) i in Ok (ce_snoopConflict (qe_blkAddr w) (cc_env c))
    | None => Ok None
    end in
  match conflict with
  | Some t => Ok (schedMemSideSendEvent t c)
  | None =>
      let! (w, c) :=
        match entry with
        | Some (QMshr i) => cache_sendMSHRQueuePacket i c
        | Some (QWrite i) => sendWriteQueuePacket i c
        | None => Ok (false, c)
        end in
      let c := set_waitingOnRetry w c in
      Ok (if (w : bool) then c else schedMemSideSendEvent (nextQueueReadyTime c) c)
  end.
Definition memSideRetry (c : Cache) : outcome Cache :=
  assert! waitingOnRetry c as "PacketQueue::retry: waitingOnRetry" in
  sendDeferredPacket (set_waitingOnRetry false c).

(** ** Snoops *)

(** [doTimingSupplyResponse]. *)
Definition doTimingSupplyResponse (req_pkt : Pkt) (blk_data : list Z)
    (already_copied pending_inval : bool) (c : Cache) : outcome Cache :=
  assert! pk_isRequest req_pkt as "doTimingSupplyResponse: isRequest()" in
  assert! pk_needsResponse req_pkt as "doTimingSupplyResponse: needsResponse()" in
  let! p := if already_copied then Ok req_pkt
            else copyPacket req_pkt false (pk_isRead req_pkt) in
  assert! req_isUncacheable (pk_req req_pkt) || pk_isInvalidate req_pkt || hasSharers p
    as "doTimingSupplyResponse: uncacheable, invalidate or hasSharers" in
  let! p := makeResponse p in
  let! p := if pk_isRead p then setDataFromBlock blk_data (blkSize c) p else Ok p in
  let p := if bool_decide (pk_cmd p = MemCmd.ReadResp) && pending_inval
           then set_pk_cmd MemCmd.ReadRespWithInvalidate p else p in
  let forward_time := clockEdge (forwardLatency (cc_params c)) c + pk_headerDelay p in
  let p := set_pk_payloadDelay 0 (set_pk_headerDelay 0 p) in
  Ok (set_snoopResponses (snoopResponses c ++ [(p, forward_time)]) c).

(** The upward snoop of [handleSnoop]: the delay it adds, and the packet with what
    was found above. *)
Definition snoopAbove (p : Pkt) (c : Cache) : outcome (Tick * Pkt * Cache) :=
  if forwardSnoops (cc_params c) then
    let alreadyResponded := cacheResponding p in
    let! s := copyPacket p true true in
    let s := set_pk_payloadDelay 0 (set_pk_headerDelay 0 (setExpressSnoop s)) in
    let '(s, e) := ce_sendTimingSnoopReq s (cc_env c) in
    let! p := if cacheResponding s then
                assert! negb alreadyResponded as "handleSnoop: !alreadyResponded" in
                setCacheResponding p
              else Ok p in
    let p := if hasSharers s then setHasSharers p else p in
    let p := if isBlockCached s then setBlockCached p else p in
    let! p := if satisfied s then setSatisfied p else Ok p in
    Ok (pk_headerDelay s, p, set_cc_env e c)
  else Ok (0, p, c).

(** [handleSnoop], with [is_timing] true. *)
Definition cc_handleSnoop (p : Pkt) (blk : option BlkRef) (is_deferred pending_inval : bool)
    (c : Cache) : outcome (Tick * Pkt * Cache) :=
  assert! negb (pending_inval && negb is_deferred) as "handleSnoop: !(pending_inval && !is_deferred)" in
  assert! pk_isRequest p as "handleSnoop: pkt->isRequest()" in
  let invalidate := pk_isInvalidate p in
  let! needs_writable := pk_needsWritable p in
  if invalidate && req_isUncacheable (pk_req p)
  then Err (PanicCall "handleSnoop: invalidating uncacheable snoop request") else
  let! (snoop_delay, p, c) := snoopAbove p c in
  let! ob := getBlkOpt c blk in
  let live := match blk, ob with
              | Some r, Some b => if blk_isValid b then Some (r, b) else None
              | _, _ => None
              end in
  if negb (pk_isClean p) && match live with None => true | Some _ => false end then
    assert! negb is_deferred || pk_needsResponse p as "handleSnoop: pkt->needsResponse()" in
    assert! negb is_deferred || cacheResponding p as "handleSnoop: pkt->cacheResponding()" in
    Ok (snoop_delay, p, c)
  else
    let! (respond, p, c) :=
      if pk_isClean p then
        match live with
        | Some (r, b) =>
            if isDirty b then
              let! (wb, c) := writecleanBlk r (req_getDest (pk_req p)) c in
              let! c := doWritebacks [wb] (clockEdge (forwardLatency (cc_params c)) c + pk_headerDelay p) c in
              let! p := setSatisfied p in
              Ok (false, p, c)
            else Ok (false, p, c)
        | None => Ok (false, p, c)
        end
      else
        match live with
        | Some (_, b) =>
            assert! negb (isReadOnly (cc_params c) && isDirty b)
              as "Should never have a dirty block in a read-only cache" in
            Ok (isDirty b && pk_needsResponse p, p, c)
        | None => Ok (false, p, c)
        end in
    if pk_mustCheckAbove p then Ok (snoop_delay, setBlockCached p, c)
    else
      let! (p, c) :=
        if pk_isRead p && negb invalidate then
          assert! negb needs_writable as "handleSnoop: !needs_writable" in
          let p := setHasSharers p in
          match blk with
          | Some r =>
              if req_isUncacheable (pk_req p) then Ok (p, c)
              else (let! c := modBlk r (blk_clear BlkWritable) c in Ok (p, c))
          | None => Err (NullDeref "handleSnoop: blk")
          end
        else Ok (p, c) in
      let! (p, c) :=
        if (respond : bool) then
          match blk with
          | None => Err (NullDeref "handleSnoop: blk")
          | Some r =>
              let! p := setCacheResponding p in
              let! b := getBlk c r in
              let! p := if negb (pk_isClean p) && isWritable b then setResponderHadWritable p
                        else Ok p in
              if negb invalidate && negb (hasSharers p)
              then Err (PanicCall "passing a Modified line, but keeping the block")
              else
                let! c := doTimingSupplyResponse p (blk_data b) is_deferred pending_inval c in
                Ok (p, c)
          end
        else
          assert! negb is_deferred || pk_needsResponse p as "handleSnoop: pkt->needsResponse()" in
          Ok (p, c) in
      let! c := match live with
                | Some (r, _) => if invalidate then invalidateBlock rp r c else Ok c
                | None => Ok c
                end in
      Ok (snoop_delay, p, c).

(** A snoop that finds the block in the write buffer: is the snoop done, the packet,
    the cache. *)
Definition snoopWriteBuffer (p : Pkt) (i : nat) (c : Cache) : outcome (bool * Pkt * Cache) :=
  let! e := q_get (writeBuffer c) i in
  assert! negb (qe_isUncacheable e) as "recvTimingSnoopReq: !wb_entry->isUncacheable()" in
  assert! bool_decide (length (qe_data e) = 1%nat)
    as "recvTimingSnoopReq: wb_entry->getNumTargets() == 1" in
  let! t := we_getTarget e in
  let wb := wt_pkt t in
  assert! pk_isEviction wb || bool_decide (pk_cmd wb = MemCmd.WriteClean)
    as "recvTimingSnoopReq: wb_pkt->isEviction() || WriteClean" in
  if pk_isEviction p then Ok (true, setBlockCached p, c)
  else
    let respond := bool_decide (pk_cmd wb = MemCmd.WritebackDirty) && pk_needsResponse p in
    let have_writable := negb (hasSharers wb) in
    let invalidate := pk_isInvalidate p in
    let share := negb (req_isUncacheable (pk_req p)) && pk_isRead p && negb invalidate in
    let! nw := if share then pk_needsWritable p else Ok false in
    assert! negb nw as "recvTimingSnoopReq: !pkt->needsWritable()" in
    let p := if share then setHasSharers p else p in
    let wb := if share then setHasSharers wb else wb in
    let e := set_qe_data [mkWTarget (wt_readyTime t) (wt_order t) wb] e in
    let c := set_writeBuffer (q_put (writeBuffer c) i e) c in
    let! (p, c) :=
      if respond then
        let! p := setCacheResponding p in
        let! p := if have_writable then setResponderHadWritable p else Ok p in
        let! d := getPtr wb in
        let! c := doTimingSupplyResponse p d false false c in
        Ok (p, c)
      else Ok (p, c) in
    let! c := if invalidate && negb (bool_decide (pk_cmd wb = MemCmd.WriteClean))
              then markInServiceWrite i c else Ok c in
    Ok (false, p, c).

(** [Cache::recvTimingSnoopReq]: the packet and the cache. *)
Definition cc_recvTimingSnoopReq (p : Pkt) (c : Cache) : outcome (Pkt * Cache) :=
  if negb (cp_inRange (cc_params c) (pk_addr p)) then Ok (p, c)
  else
    let! blk := cc_findBlock c (pk_addr p) (pk_isSecure p) in
    let blk_addr := getBlockAddr (blkSize c) p in
    let mshr := findMatch (mshrQueue c) blk_addr (pk_isSecure p) in
    let lookup := lookupLatency (cc_params c) * cp_clockPeriod (cc_params c) in
    let p := set_pk_snoopDelay (Z.max (pk_snoopDelay p) lookup) p in
    if negb (bool_decide (mshr = None)) && pk_mustCheckAbove p then Ok (setBlockCached p, c)
    else if negb (bool_decide (mshr = None)) && req_isCacheMaintenance (pk_req p) && satisfied p
    then Ok (p, c)
    else
      let! (deferred, p, c) :=
        match mshr with
        | Some i =>
            let! m := q_get (mshrQueue c) i in
            let! (deferred, p, m) := ms_handleSnoop (cc_now c) (blkSize c) p (cc_order c) m in
            Ok (deferred, p,
                set_cc_order (cc_order c + 1) (set_mshrQueue (q_put (mshrQueue c) i m) c))
        | None => Ok (false, p, c)
        end in
      if (deferred : bool) then Ok (p, c)
      else
        let! (done, p, c) :=
          match findMatch (writeBuffer c) blk_addr (pk_isSecure p) with
          | Some i => snoopWriteBuffer p i c
          | None => Ok (false, p, c)
          end in
        if (done : bool) then Ok (p, c)
        else
          let! (snoop_delay, p, c) := cc_handleSnoop p blk false false c in
          Ok (set_pk_snoopDelay (Z.max (pk_snoopDelay p) (snoop_delay + lookup)) p, c).

(** ** Responses *)

(** [handleUncacheableWriteResp]. *)
Definition handleUncacheableWriteResp (p : Pkt) (c : Cache) : Cache :=
  let completion_time :=
    clockEdge (responseLatency (cc_params c)) c + pk_headerDelay p + pk_payloadDelay p in
  schedTimingResp (set_pk_payloadDelay 0 (set_pk_headerDelay 0 p)) completion_time c.

(** The variables of [serviceMSHRTargets] that its loop changes. *)
Record Service := mkService {
  sv_blk : option BlkRef;
  sv_invalidate : bool;
  sv_writebacks : list Pkt;
}.

(** A read-modify-write of an MSHR through its pointer. *)
Definition modMSHR (i : nat) (f : MSHR → outcome MSHR) (c : Cache) : outcome Cache :=
  let! m := q_get (mshrQueue c) i in
  let! m := f m in
  Ok (set_mshrQueue (q_put (mshrQueue c) i m) c).

(** The case [FromCPU] for one target; [p] is the response, [initial_offset] that of
    the first target. *)
Definition serviceFromCPU (i : nat) (p : Pkt) (initial_offset : Z) (alloc : bool) (t : Target)
    (sv : Service) (c : Cache) : outcome (Service * Cache) :=
  let tp := tgt_pkt t in
  if MemCmd.isSWPrefetch (pk_cmd tp) then Ok (sv, c)
  else
    let! (sv, c) :=
      if decide (pk_cmd tp = MemCmd.WriteLineReq) then
        assert! negb (pk_isError p) as "serviceMSHRTargets: !is_error" in
        let! c := modMSHR i promoteWritable c in
        let! (r, wbs, c) := handleFill rp tp (sv_blk sv) alloc c in
        Ok (mkService (Some r) false (sv_writebacks sv ++ wbs), c)
      else Ok (sv, c) in
    let! m := q_get (mshrQueue c) i in
    let! ob := getBlkOpt c (sv_blk sv) in
    let valid := match ob with Some b => blk_isValid b | None => false end in
    let! (tp, when, c) :=
      match sv_blk sv with
      | Some r =>
          if valid && negb (isForward (qe_data m)) then
            let! down := hasPostDowngrade m in
            let! (tp, c) := cache_satisfyRequest rp tp r true down c in
            let transfer_offset := getOffset (blkSize c) tp - initial_offset in
            assert! negb (req_isUncacheable (pk_req tp)) as "serviceMSHRTargets: !isUncacheable()" in
            Ok (tp, Some (clockEdge (responseLatency (cc_params c)) c +
                          (if transfer_offset =? 0 then 0 else pk_payloadDelay p)), c)
          else Ok (tp, None, c)
      | None => Ok (tp, None, c)
      end in
    let! (tp, when, c) :=
      match when with Some t => Ok (tp, t, c) | None =>
      let after := clockEdge (responseLatency (cc_params c)) c + pk_payloadDelay p in
      if decide (pk_cmd p = MemCmd.UpgradeFailResp) then
        assert! bool_decide (pk_cmd tp = MemCmd.StoreCondReq) ||
                bool_decide (pk_cmd tp = MemCmd.StoreCondFailReq) ||
                bool_decide (pk_cmd tp = MemCmd.SCUpgradeFailReq) as "serviceMSHRTargets: StoreCond" in
        Ok (set_pk_extraData 0 tp, after, c)
      else
        let! c := match sv_blk sv with
                  | Some r => if sv_invalidate sv && valid then invalidateBlock rp r c else Ok c
                  | None => Ok c
                  end in
        if pk_isRead p && negb (pk_isError p) then
          assert! pk_addr p =? pk_addr tp as "serviceMSHRTargets: getAddr() == tgt_pkt->getAddr()" in
          assert! pk_size tp <=? pk_size p as "serviceMSHRTargets: getSize() >= tgt_pkt->getSize()" in
          let! d := getPtr p in
          let! tp := setData d tp in
          Ok (tp, after, c)
        else Ok (tp, after, c)
      end in
    let! tp := makeResponse tp in
    let! tp := if pk_isError p then copyError p tp else Ok tp in
    let! m := q_get (mshrQueue c) i in
    let! inval := if bool_decide (pk_cmd tp = MemCmd.ReadResp) then
                    if sv_invalidate sv then Ok true else hasPostInvalidate m
                  else Ok false in
    let tp := if (inval : bool) then set_pk_cmd MemCmd.ReadRespWithInvalidate tp else tp in
    Ok (sv, schedTimingResp (set_pk_payloadDelay 0 (set_pk_headerDelay 0 tp))
              (pk_headerDelay p + when) c).

(** [MSHR::clearDownstreamPending], called by the cache below. *)
Definition cc_clearDownstreamPending (i : nat) (c : Cache) : outcome Cache :=
  modMSHR i clearDownstreamPending c.

(** One target. *)
Definition serviceTarget (i : nat) (p : Pkt) (initial_offset : Z) (alloc : bool)
    (s : Service * Cache) (t : Target) : outcome (Service * Cache) :=
  let '(sv, c) := s in
  match tgt_source t with
  | FromCPU => serviceFromCPU i p initial_offset alloc t sv c
  | FromPrefetcher =>
      assert! bool_decide (pk_cmd (tgt_pkt t) = MemCmd.HardPFReq)
        as "serviceMSHRTargets: tgt_pkt->cmd == MemCmd::HardPFReq" in
      let! c := match sv_blk sv with
                | Some r => modBlk r (blk_set BlkHWPrefetched) c
                | None => Ok c
                end in
      Ok (sv, c)
  | FromSnoop =>
      assert! negb (pk_isError p) as "serviceMSHRTargets: !is_error" in
      let! m := q_get (mshrQueue c) i in
      let! inval := hasPostInvalidate m in
      assert! negb (sv_invalidate sv) || bool_decide (pk_cmd p = MemCmd.InvalidateResp) ||
              req_isCacheMaintenance (pk_req p) || inval as "serviceMSHRTargets: FromSnoop" in
      let! (_, _, c) := cc_handleSnoop (tgt_pkt t) (sv_blk sv) true inval c in
      Ok (sv, c)
  end.

(** [Cache::serviceMSHRTargets]: the writebacks and the cache. *)
Definition serviceMSHRTargets (i : nat) (p : Pkt) (blk : option BlkRef) (c : Cache)
  : outcome (list Pkt * Cache) :=
  let! m := q_get (mshrQueue c) i in
  let! initial := tl_front (ms_targets m) in
  let initial_offset := getOffset (blkSize c) (tgt_pkt initial) in
  let! (ts, m) := extractServiceableTargets p m in
  let c := set_mshrQueue (q_put (mshrQueue c) i m) c in
  let! (sv, c) := foldM (serviceTarget i p initial_offset (tl_allocOnFill ts)) (tl_targets ts)
                    (mkService blk (pk_isInvalidate p) [], c) in
  let! c := maintainClusivity rp (tl_hasFromCache ts) (sv_blk sv) c in
  let! ob := getBlkOpt c (sv_blk sv) in
  match sv_blk sv, ob with
  | Some r, Some b =>
      if blk_isValid b then
        let! m := q_get (mshrQueue c) i in
        let! inval := if sv_invalidate sv then Ok true else hasPostInvalidate m in
        if (inval : bool) then (let! c := invalidateBlock rp r c in Ok (sv_writebacks sv, c))
        else
          let! down := hasPostDowngrade m in
          if (down : bool) then (let! c := modBlk r (blk_clear BlkWritable) c in Ok (sv_writebacks sv, c))
          else Ok (sv_writebacks sv, c)
      else Ok (sv_writebacks sv, c)
  | _, _ => Ok (sv_writebacks sv, c)
  end.

(** The end of [recvTimingResp] for the MSHR: its deferred targets go on, or it is
    freed. *)
Definition retireMSHR (i : nat) (p : Pkt) (blk : option BlkRef) (c : Cache) : outcome Cache :=
  let! m := q_get (mshrQueue c) i in
  let! (again, m) := promoteDeferredTargets (cc_now c) m in
  let c := set_mshrQueue (q_put (mshrQueue c) i m) c in
  if (again : bool) then
    let! c := match blk with Some r => modBlk r (blk_clear BlkReadable) c | None => Ok c end in
    let! q := mq_markPending i (mshrQueue c) in
    Ok (schedMemSideSendEvent (clockEdge 0 c + pk_payloadDelay p) (set_mshrQueue q c))
  else
    let was_full := q_isFull (mshrQueue c) in
    let! q := mq_deallocate i (mshrQueue c) in
    let c := set_mshrQueue q c in
    let! c :=
      if was_full && negb (q_isFull q) then
        assert! negb (req_isRestricted (pk_req p)) as "recvTimingResp: !pkt->req->isRestricted()" in
        clearBlocked Blocked_NoMSHRs c
      else Ok c in
    if prefetcher (cc_params c) && canPrefetch (demandReserve (cc_params c)) (mshrQueue c) then
      let next_pf_time := Z.max (ce_nextPrefetchReadyTime (cc_env c)) (clockEdge 0 c) in
      Ok (if next_pf_time =? MaxTick then c else schedMemSideSendEvent next_pf_time c)
    else Ok c.

(** [BaseCache::recvTimingResp]; [i] is the MSHR the packet's sender state holds. *)
Definition dc_recvTimingResp (i : nat) (p : Pkt) (c : Cache) : outcome Cache :=
  assert! pk_isResponse p as "recvTimingResp: pkt->isResponse()" in
  if negb (pk_headerDelay p =? 0) && negb (bool_decide (pk_cmd p = MemCmd.HardPFResp))
  then Err (PanicCall "recvTimingResp: saw a non-zero packet delay") else
  let is_error := pk_isError p in
  if pk_isWrite p then
    assert! req_isUncacheable (pk_req p) as "recvTimingResp: pkt->req->isUncacheable()" in
    Ok (handleUncacheableWriteResp p c)
  else
    let! c :=
      if bool_decide (noTargetMSHR c = Some i) then
        assert! negb (req_isRestricted (pk_req p)) as "recvTimingResp: !pkt->req->isRestricted()" in
        let! c := clearBlocked Blocked_NoTargets c in
        Ok (set_noTargetMSHR None c)
      else Ok c in
    let! m := q_get (mshrQueue c) i in
    let! _ := tl_front (ms_targets m) in
    let is_fill := negb (isForward (qe_data m)) &&
                   (pk_isRead p || bool_decide (pk_cmd p = MemCmd.UpgradeResp)) in
    let! blk := cc_findBlock c (pk_addr p) (pk_isSecure p) in
    let! (blk, wbs, c) :=
      if is_fill && negb is_error then
        let! (r, wbs, c) := handleFill rp p blk (ms_allocOnFill m) c in
        Ok (Some r, wbs, c)
      else Ok (blk, [], c) in
    let! ob := getBlkOpt c blk in
    let! c :=
      match blk, ob with
      | Some r, Some b =>
          if blk_isValid b && pk_isClean p && negb (pk_isInvalidate p) then
            let! c := modBlk r (blk_set BlkReadable) c in
            modMSHR i promoteReadable c
          else Ok c
      | _, _ => Ok c
      end in
    let! ob := getBlkOpt c blk in
    let! c :=
      if match ob with Some b => isWritable b | None => false end &&
         negb (req_isCacheInvalidate (pk_req p))
      then modMSHR i promoteWritable c else Ok c in
    let! (wbs', c) := serviceMSHRTargets i p blk c in
    let! c := retireMSHR i p blk c in
    let! (wbs'', c) :=
      if bool_decide (blk = Some TempBlk) && blk_isValid (tempBlock c) then
        let! (wb, c) := evictBlock rp TempBlk c in Ok ([wb], c)
      else Ok ([], c) in
    doWritebacks (wbs ++ wbs' ++ wbs'') (clockEdge (forwardLatency (cc_params c)) c + pk_headerDelay p) c.

(** [Cache::recvTimingSnoopResp]; [i] is the MSHR whose target has the packet's
    request, if there is one. *)
Definition recvTimingSnoopResp (i : option nat) (p : Pkt) (c : Cache) : outcome Cache :=
  match i with
  | Some i =>
      if bool_decide (i ∈ outstandingSnoop c) then
        assert! bool_decide (pk_cmd p = MemCmd.HardPFResp)
          as "recvTimingSnoopResp: pkt->cmd == MemCmd::HardPFResp" in
        dc_recvTimingResp i p (set_outstandingSnoop (erase i (outstandingSnoop c)) c)
      else
        Ok (set_snoopResponses
              (snoopResponses c ++
               [(set_pk_payloadDelay 0 (set_pk_headerDelay 0 p),
                 clockEdge (forwardLatency (cc_params c)) c + pk_headerDelay p)]) c)
  | None =>
      Ok (set_snoopResponses
            (snoopResponses c ++
             [(set_pk_payloadDelay 0 (set_pk_headerDelay 0 p),
               clockEdge (forwardLatency (cc_params c)) c + pk_headerDelay p)]) c)
  end.
End cache_mem.
