(* ===== verification/CacheRun.v ===== *)
(** * Running the data cache

    The constructor of [BaseCache], and the cache as a machine: one step per call
    from outside (a request of the core, a response or a snoop from below, the
    events the cache scheduled) or per change outside (time, the surroundings).
    What a call hands to the packet queues ([mem/packet_queue.cc]) leaves the cache
    with the step. *)

From S2P Require Import Prelude Config Packet ReplPolicy CacheTags CacheQueue Cache CacheMem.

Local Open Scope Z_scope.

Section cache_run.
Context {G D E : Type} `{CacheEnv E} (rp : ReplacementPolicy G D).
Abbreviation Cache := (Cache G D E).

(** [BaseCache::BaseCache]: the MSHR queue has no reserve, the write buffer one
    entry for each MSHR.  [max_miss_count] starts the miss counter. *)
Definition newCache (params : CacheParams) (mshrs write_buffers max_miss_count : Z)
    (t : BaseSetAssoc G D) (e : E) : Cache :=
  mkCache params t (newBlk (cp_blkSize params) (rp_instantiateEntry rp)) MaxAddr
    (newQueue mshrs 0 newMSHR) (newQueue write_buffers mshrs newWriteQueueEntry)
    0 0 None max_miss_count false false None 0 [] [] [] false [] 0 e.

Inductive DcEvent :=
  | EReq (p : Pkt) (** a request of the core *)
  | EResp (i : nat) (p : Pkt) (** a response for an MSHR *)
  | ESnoopResp (i : option nat) (p : Pkt)
  | ESnoop (p : Pkt)
  | ESend (** the request queue's send event *)
  | ERetry (** the memory side can take a packet again *)
  | ESendRetry (** the port's retry event *)
  | EClearPending (i : nat) (** the cache below issued what it buffered *)
  | ETick (now : Tick)
  | EEnv (f : E → E).

(** What a step gives to the outside. *)
Record Answer := mkAnswer {
  an_accepted : bool;
  an_pkt : option Pkt;
  an_responses : list (Pkt * Tick);
  an_snoopResponses : list (Pkt * Tick);
  an_sendEvents : list Tick;
}.

Definition handOver (accepted : bool) (p : option Pkt) (c : Cache) : Answer * Cache :=
  (mkAnswer accepted p (responses c) (snoopResponses c) (sendEvents c),
   set_responses [] (set_snoopResponses [] (set_sendEvents [] c))).

(** The handler of an event. *)
Definition dcHandle (ev : DcEvent) (c : Cache) : outcome (bool * option Pkt * Cache) :=
  let quiet o := let! c := o in Ok (true, None, c) in
  match ev with
  | EReq p => let! (ok, p, c) := port_recvTimingReq rp p c in Ok (ok, Some p, c)
  | EResp i p => quiet (dc_recvTimingResp rp i p c)
  | ESnoopResp i p => quiet (recvTimingSnoopResp rp i p c)
  | ESnoop p => let! (p, c) := cc_recvTimingSnoopReq rp p c in Ok (true, Some p, c)
  | ESend => quiet (sendDeferredPacket c)
  | ERetry => quiet (memSideRetry c)
  | ESendRetry =>
      quiet (match sendRetryEvent c with Some _ => Ok (processSendRetry c) | None => Ok c end)
  | EClearPending i => quiet (cc_clearDownstreamPending i c)
  | ETick now => quiet (Ok (set_cc_now now c))
  | EEnv f => quiet (Ok (set_cc_env (f (cc_env c)) c))
  end.

Definition dcStep (ev : DcEvent) (c : Cache) : outcome (Answer * Cache) :=
  let! (ok, p, c) := dcHandle ev c in Ok (handOver ok p c).

Fixpoint dcRun (evs : list DcEvent) (c : Cache) : outcome (list Answer * Cache) :=
  match evs with
  | [] => Ok ([], c)
  | ev :: evs =>
      let! (a, c) := dcStep ev c in
      let! (l, c) := dcRun evs c in
      Ok (a :: l, c)
  end.
End cache_run.

(** ** A small cache

    Two sets of two ways of 16 bytes under LRU, below it a memory that accepts every
    packet.  Addresses 0, 32 and 64 share a set. *)

Module Tiny.
#[global] Instance unit_env : CacheEnv unit := {|
  ce_bypassCaches _ := false;
  ce_sendTimingReq p e := (true, false, p, e);
  ce_sendTimingSnoopReq p e := (p, e);
  ce_notify _ e := (MaxTick, e);
  ce_getPacket e := (None, e);
  ce_nextPrefetchReadyTime _ := MaxTick;
  ce_snoopConflict _ _ := None;
  ce_atomicOp _ d := d;
|}.

Definition rp : ReplacementPolicy unit Tick := LRURP.
Definition params : CacheParams :=
  mkCacheParams 16 1 2 1 2 2 2 mostly_incl false false false false false 1 (λ _, true).
Definition tags : BaseSetAssoc unit Tick :=
  match newTags rp 64 16 2 1 2 false tt with
  | Ok t => t
  | Err _ => mkBaseSetAssoc 0 0 0 false 0 0 0 0 0 [] tt
  end.
Definition cache (mshrs : Z) : Cache unit Tick unit := newCache rp params mshrs 2 100 tags tt.

(** A read of four bytes, with these flags of the request. *)
Definition request (a : Addr) (flags : Z) : Request := mkRequest a 4 flags (Some a) false.
Definition read (a : Addr) (flags : Z) : Pkt :=
  mkPkt MemCmd.ReadReq 0 (request a flags) 0 1 0 0 (Some [0; 0; 0; 0]) true a false 4 0 0 0.
Definition restricted (a : Addr) : Pkt := read a ReqFlag.RESTRICTED.
Definition update (a : Addr) : Pkt :=
  set_pk_req (req_setMetadataUpdate (request a 0)) (read a 0).

(** The memory's answer to the miss for an address: the line full of [v]. *)
Definition fill (a : Addr) (v : Z) : Pkt :=
  mkPkt MemCmd.ReadResp 0 (request a 0) 0 1 0 0 (Some (replicate 16 v)) false (Z.ldiff a 15) false
    16 0 0 0.

(** A miss, its fill and its response. *)
Definition load (i : nat) (a : Addr) (v : Z) : list (@DcEvent unit) :=
  [ETick (16 * a + 100); EReq (read a 0); ETick (16 * a + 110); ESend;
   ETick (16 * a + 150); EResp i (fill a v)].
End Tiny.

(** A miss is answered by the fill, a restricted read then hits and one of another
    line is refused. *)
Example tiny_run :
  (let! (l, _) := dcRun Tiny.rp (Tiny.load 0 4 7 ++
     [ETick 300; EReq (Tiny.restricted 8); EReq (Tiny.restricted 32)]) (Tiny.cache 1) in
   Ok (map (λ a, (an_accepted a, map (λ '(p, t), (pk_cmd p, pk_data p, t)) (an_responses a))) l))
  = Ok [(true, []); (true, []); (true, []); (true, []); (true, []);
        (true, [(MemCmd.ReadResp, Some [7; 7; 7; 7], 216)]); (true, []);
        (true, [(MemCmd.ReadResp, Some [7; 7; 7; 7], 302)]); (false, [])].
Proof. vm_compute. reflexivity. Qed.
