(* ===== verification/CacheSilent.v ===== *)
(** * Restricted reads and deferred updates in the data cache

    What DOLMA added to [mem/cache/base.cc] and [base_set_assoc.hh], end to end
    from the port: a restricted read leaves no trace in the cache, and a metadata
    update leaves exactly the trace the read would have left. *)

From S2P Require Import Prelude Regs Config DynInst Metadata.
From S2P Require Import Packet ReplPolicy CacheTags CacheQueue Cache CacheMem.
Import BlkStatus.

Local Open Scope Z_scope.

(** ** Reads of the core *)

(** What the predicates say of a [ReadReq]. *)
Record read_packet (p : Pkt) : Prop := {
  rd_request : pk_isRequest p = true;
  rd_read : pk_isRead p = true;
  rd_write : pk_isWrite p = false;
  rd_needsWritable : pk_needsWritable p = Ok false;
  rd_needsResponse : pk_needsResponse p = true;
  rd_eviction : pk_isEviction p = false;
  rd_writeback : pk_isWriteback p = false;
  rd_llsc : pk_isLLSC p = false;
  rd_fromCache : pk_fromCache p = false;
  rd_respData : pk_hasRespData p = true;
  rd_swap : bool_decide (pk_cmd p = MemCmd.SwapReq) = false;
  rd_cleanEvict : bool_decide (pk_cmd p = MemCmd.CleanEvict) = false;
  rd_writeClean : bool_decide (pk_cmd p = MemCmd.WriteClean) = false;
  rd_writeReq : bool_decide (pk_cmd p = MemCmd.WriteReq) = false;
  rd_prefetch : MemCmd.isSWPrefetch (pk_cmd p) = false;
}.

Lemma read_req p : pk_cmd p = MemCmd.ReadReq → read_packet p.
Proof.
  destruct p; cbn; intros ->. by constructor.
Qed.

(** A cacheable read as the load/store queue sends it: inside a line, with a buffer
    for the data. *)
Record core_read (blkSize : Z) (p : Pkt) : Prop := {
  cr_cmd : pk_cmd p = MemCmd.ReadReq;
  cr_flags : pk_flags p = 0;
  cr_data : is_Some (pk_data p);
  cr_inside : getOffset blkSize p + pk_size p <= blkSize;
  cr_cacheable : req_isUncacheable (pk_req p) = false;
  cr_maintenance : req_isCacheMaintenance (pk_req p) = false;
}.

Section silent.
Context {G D E : Type} `{CacheEnv E} (rp : ReplacementPolicy G D).
Abbreviation Cache := (Cache G D E).
Abbreviation blkSize c := (cp_blkSize (cc_params c)).

(** Every address has its set. *)
Definition tags_shaped (t : BaseSetAssoc G D) : Prop :=
  ∀ addr, is_Some (cacheSets t !! extractSet t addr).

(** The block of an address, and the block a read can be served from. *)
Definition resident (c : Cache) (p : Pkt) : option (BlkPos * CacheBlk D) :=
  match findBlock (cc_tags c) (pk_addr p) (pk_isSecure p) with
  | Ok (Some pos) =>
      match blkAt (cc_tags c) pos with Ok b => Some (pos, b) | Err _ => None end
  | _ => None
  end.
Definition readHit (c : Cache) (p : Pkt) : option (CacheBlk D) :=
  match resident c p with
  | Some (_, b) => if isReadable b then Some b else None
  | None => None
  end.

(** The bytes of a block a packet reads. *)
Definition readBytes (c : Cache) (p : Pkt) (b : CacheBlk D) : list Z :=
  bytesAt 0 (pk_size p) (drop (Z.to_nat (getOffset (blkSize c) p)) (blk_data b)).

(** The response to a read hit, and when it is due. *)
Definition hitResponse (c : Cache) (p : Pkt) (b : CacheBlk D) : Pkt :=
  set_pk_payloadDelay 0 (set_pk_headerDelay 0
    (pk_clear PktFlag.EXPRESS_SNOOP (set_pk_cmd MemCmd.ReadResp
       (set_pk_payloadDelay 0 (set_pk_headerDelay 0
          (set_pk_data (Some (readBytes c p b)) p)))))).
Definition hitTime (c : Cache) (p : Pkt) (b : CacheBlk D) : Tick :=
  clockEdge (accessLat (cp_clockPeriod (cc_params c)) (cc_now c) (cc_tags c) b) c +
  pk_headerDelay p.

(** *** The lookup *)

Lemma findBlock_shaped t addr sec :
  tags_shaped t → ∃ o, findBlock t addr sec = Ok o ∧
    ∀ pos, o = Some pos → ∃ b, blkAt t pos = Ok b ∧ blk_isValid b = true.
Proof.
  intros Hs. destruct (Hs addr) as [s Hset]. unfold findBlock. rewrite Hset.
  eexists. split; [reflexivity|]. intros pos. unfold findBlk.
  destruct (list_find _ s) as [[w b]|] eqn:Hf; [|done]. intros [= <-].
  apply list_find_Some in Hf as (Hw & Hm & _). exists b. unfold blkAt. cbn.
  rewrite Hset, Hw. split; [done|]. unfold blk_matches in Hm.
  by apply andb_true_iff in Hm as [[_ ?]%andb_true_iff _].
Qed.

Lemma resident_cases c p :
  tags_shaped (cc_tags c) →
  (∃ pos b, findBlock (cc_tags c) (pk_addr p) (pk_isSecure p) = Ok (Some pos) ∧
            blkAt (cc_tags c) pos = Ok b ∧ resident c p = Some (pos, b) ∧ blk_isValid b = true) ∨
  findBlock (cc_tags c) (pk_addr p) (pk_isSecure p) = Ok None ∧ resident c p = None.
Proof.
  intros Hs. unfold resident.
  destruct (findBlock_shaped (cc_tags c) (pk_addr p) (pk_isSecure p) Hs) as ([pos|] & Hf & Hb);
    rewrite Hf; [left|by right].
  destruct (Hb pos eq_refl) as (b & Hat & Hv). exists pos, b. rewrite Hat. done.
Qed.

Lemma blkPut_same (t : BaseSetAssoc G D) pos b : blkAt t pos = Ok b → blkPut t pos b = t.
Proof.
  unfold blkAt, blkPut. destruct (cacheSets t !! pos.1) as [s|] eqn:Hs; [|done].
  destruct (s !! pos.2) as [b'|] eqn:Hb; [|done]. intros [= ->].
  assert (alter (λ s, <[pos.2:=b]> s) pos.1 (cacheSets t) = cacheSets t) as ->;
    [|by destruct t].
  apply list_eq. intros i. destruct (decide (i = pos.1)) as [->|].
  - rewrite list_lookup_alter_eq, Hs. cbn. by rewrite list_insert_id.
  - by rewrite list_lookup_alter_ne.
Qed.

Lemma blkAt_put (t : BaseSetAssoc G D) pos b b' :
  blkAt t pos = Ok b → blkAt (blkPut t pos b') pos = Ok b'.
Proof.
  unfold blkAt, blkPut. cbn. rewrite list_lookup_alter_eq.
  destruct (cacheSets t !! pos.1) as [s|]; [|done]. cbn.
  destruct (s !! pos.2) as [b1|] eqn:Hb; [|done]. intros _.
  by rewrite list_lookup_insert_eq by (by eapply lookup_lt_Some).
Qed.

Lemma set_tags_same (c : Cache) : set_cc_tags (cc_tags c) c = c.
Proof. by destruct c. Qed.

Lemma putBlk_same (c : Cache) pos b : blkAt (cc_tags c) pos = Ok b → putBlk (InTags pos) b c = c.
Proof. intros Hb. cbn. by rewrite blkPut_same, set_tags_same. Qed.

Lemma accessBlock_resident c p upd :
  tags_shaped (cc_tags c) →
  accessBlock rp (cp_clockPeriod (cc_params c)) (cc_now c) (pk_addr p) (pk_isSecure p) upd
    (cc_tags c)
  = Ok match resident c p with
       | Some (pos, b) =>
           (Some pos, accessLat (cp_clockPeriod (cc_params c)) (cc_now c) (cc_tags c) b,
            if upd then blkPut (cc_tags c) pos (touchBlk rp (cc_now c) b) else cc_tags c)
       | None => (None, tg_lookupLatency (cc_tags c), cc_tags c)
       end.
Proof.
  intros Hs. unfold accessBlock.
  destruct (resident_cases c p Hs) as [(pos & b & -> & Hb & -> & _)|[-> ->]]; [|done].
  by rewrite Hb.
Qed.

(** *** Satisfying a read *)

Lemma satisfy_read blk p r (c : Cache) b :
  core_read blk p → blk = blkSize c → getBlk c r = Ok b → blk_isValid b = true →
  cache_satisfyRequest rp p r false false c
  = Ok (set_pk_data (Some (readBytes c p b)) p, putBlk r b c).
Proof.
  intros Hcr -> Hb Hv. destruct Hcr as [Hcmd _ [d Hd] Hin _ _].
  destruct (read_req p Hcmd). unfold cache_satisfyRequest, base_satisfyRequest.
  rewrite rd_request0, Hb, Hv. cbn iota.
  rewrite (proj2 (Z.leb_le _ _) Hin).
  destruct (decide (pk_cmd p = MemCmd.SwapReq)) as [Hx|_]; [congruence|].
  rewrite rd_write0, rd_read0, rd_llsc0, rd_respData0.
  unfold setDataFromBlock, setData, getPtr. rewrite Hd. cbn iota.
  assert (pk_fromCache (set_pk_data (Some (readBytes c p b)) p) = false) as Hfc
    by exact rd_fromCache0.
  unfold readBytes in *. rewrite Hfc, andb_false_r. done.
Qed.

(** [BaseCache::access] of a read of the core, restricted or not. *)
Lemma access_read c p :
  tags_shaped (cc_tags c) → core_read (blkSize c) p → metadataUpdate (pk_req p) = false →
  let c1 := set_cc_tags (match resident c p with
                         | Some (pos, b) =>
                             if req_isRestricted (pk_req p) then cc_tags c
                             else blkPut (cc_tags c) pos (touchBlk rp (cc_now c) b)
                         | None => cc_tags c
                         end) c in
  cache_access rp p c
  = Ok match readHit c p with
       | Some b =>
           (mkAccess true (set_pk_data (Some (readBytes c p b)) p) (InTags ∘ fst <$> resident c p)
              (accessLat (cp_clockPeriod (cc_params c)) (cc_now c) (cc_tags c) b) [], c1)
       | None =>
           (mkAccess false
              (if req_isRestricted (pk_req p)
               then set_pk_req (req_clearUnsafe (pk_req p)) p else p)
              (InTags ∘ fst <$> resident c p)
              (match resident c p with
               | Some (_, b) =>
                   accessLat (cp_clockPeriod (cc_params c)) (cc_now c) (cc_tags c) b
               | None => tg_lookupLatency (cc_tags c)
               end) [],
            if req_isRestricted (pk_req p) then c1 else incMissCount c1)
       end.
Proof.
  intros Hs Hcr Hmd c1. pose proof Hcr as [Hcmd _ _ _ Hunc Hmaint].
  pose proof (read_req p Hcmd) as [].
  unfold cache_access. rewrite Hunc. unfold base_access.
  rewrite rd_request0, rd_write0, andb_false_r, accessBlock_resident by done. cbn [negb].
  unfold readHit. destruct (resident c p) as [[pos b]|] eqn:Hr; cbn [fmap option_fmap option_map].
  - destruct (resident_cases c p Hs) as [(? & ? & _ & Hb & Hr' & Hv)|[_ ?]]; [|congruence].
    rewrite Hr in Hr'. injection Hr' as <- <-.
    set (b' := if req_isRestricted (pk_req p) then b else touchBlk rp (cc_now c) b).
    assert (Hb' : getBlk c1 (InTags pos) = Ok b').
    { subst c1 b'. cbn. destruct (req_isRestricted _); [done|]. by eapply blkAt_put. }
    assert (Hrd : isReadable b' = isReadable b) by (subst b'; by destruct (req_isRestricted _)).
    assert (Hv' : blk_isValid b' = true) by (subst b'; by destruct (req_isRestricted _)).
    assert (Hbytes : readBytes c1 p b' = readBytes c p b)
      by (subst b'; by destruct (req_isRestricted _)).
    assert (set_cc_tags (if negb (req_isRestricted (pk_req p))
                         then blkPut (cc_tags c) pos (touchBlk rp (cc_now c) b)
                         else cc_tags c) c = c1) as ->
      by (subst c1; by destruct (req_isRestricted _)).
    rewrite Hmd, Hmaint, rd_eviction0, rd_writeback0. cbn [fst snd].
    destruct (decide (pk_cmd p = MemCmd.CleanEvict)) as [?|_]; [congruence|].
    destruct (decide (pk_cmd p = MemCmd.WriteClean)) as [?|_]; [congruence|].
    unfold getBlkOpt, canSatisfy. rewrite Hb', rd_needsWritable0, Hrd.
    destruct (isReadable b) eqn:Hread.
    + rewrite (satisfy_read (blkSize c) p _ c1 b' Hcr eq_refl Hb' Hv'), Hbytes.
      rewrite putBlk_same by exact Hb'. unfold maintainClusivity. rewrite Hb'.
      change (pk_fromCache (set_pk_data (Some (readBytes c p b)) p)) with (pk_fromCache p).
      by rewrite rd_fromCache0.
    + by destruct (req_isRestricted (pk_req p)).
  - rewrite Hmd, Hmaint, rd_eviction0, rd_writeback0. cbn [fst snd].
    destruct (decide (pk_cmd p = MemCmd.CleanEvict)) as [?|_]; [congruence|].
    destruct (decide (pk_cmd p = MemCmd.WriteClean)) as [?|_]; [congruence|].
    cbn -[pk_isLLSC pk_isWrite pk_cmd].
    destruct (req_isRestricted (pk_req p)); cbn -[pk_isLLSC pk_isWrite];
      change (pk_isLLSC (set_pk_req _ p)) with (pk_isLLSC p); by rewrite rd_llsc0.
Qed.

(** ** Restricted reads *)

Lemma read_not_line (c : Cache) p : pk_cmd p = MemCmd.ReadReq → promoteWholeLineWrites c p = p.
Proof.
  intros Hp. unfold promoteWholeLineWrites. by rewrite (rd_writeReq p (read_req p Hp)).
Qed.

Lemma flags_zero f p : pk_flags p = 0 → pk_isSet f p = false.
Proof. intros Hf. unfold pk_isSet, flags_isSet. by rewrite Hf, Z.land_0_l. Qed.

Lemma restricted_cleared r : req_isRestricted (req_clearUnsafe r) = false.
Proof.
  unfold req_isRestricted, req_clearUnsafe, flags_isSet, flags_clear. cbn.
  apply negb_false_iff, Z.eqb_eq, Z.bits_inj'. intros n Hn.
  rewrite Z.land_spec, Z.ldiff_spec, Z.bits_0.
  destruct (Z.testbit (req_flags r) n); [|done]. cbn.
  by destruct (Z.testbit ReqFlag.RESTRICTED n).
Qed.

(** A hit, once the block is known: the response is queued. *)
Lemma hit_answered p r (c : Cache) b lat :
  core_read (blkSize c) p → prefetcher (cc_params c) = false → getBlk c r = Ok b →
  recvTimingReq_hit (set_pk_payloadDelay 0 (set_pk_headerDelay 0
                       (set_pk_data (Some (readBytes c p b)) p))) (Some r)
    (clockEdge lat c + pk_headerDelay p) c
  = Ok (schedTimingResp (hitResponse c p b) (clockEdge lat c + pk_headerDelay p) c).
Proof.
  intros [Hcmd _ _ _ Hunc _] Hpf Hb. pose proof (read_req p Hcmd) as [].
  unfold recvTimingReq_hit, getBlkOpt. rewrite Hb, Hpf. cbn [andb].
  unfold handleTimingReqHit. cbn [pk_req set_pk_payloadDelay set_pk_headerDelay set_pk_data].
  rewrite Hunc. cbn [negb].
  change (pk_needsResponse (set_pk_payloadDelay _ _)) with (pk_needsResponse p).
  rewrite rd_needsResponse0. unfold makeResponse.
  change (pk_needsResponse (set_pk_payloadDelay _ _)) with (pk_needsResponse p).
  change (pk_isRequest (set_pk_payloadDelay _ _)) with (pk_isRequest p).
  rewrite rd_needsResponse0, rd_request0. unfold hitResponse. cbn. by rewrite Hcmd.
Qed.

(** The three answers to a restricted read. *)
Inductive restricted_answer (p : Pkt) (c : Cache) : bool → Pkt → Cache → Prop :=
  | RaBusy :
      port_blocked c || mustSendRetry c = true →
      restricted_answer p c false p (set_mustSendRetry true c)
  | RaHit b p' :
      port_blocked c || mustSendRetry c = false → readHit c p = Some b →
      pk_req p' = pk_req p →
      restricted_answer p c true p'
        (schedTimingResp (hitResponse c p b) (hitTime c p b) c)
  | RaMiss :
      port_blocked c || mustSendRetry c = false → readHit c p = None →
      restricted_answer p c false (set_pk_req (req_clearUnsafe (pk_req p)) p) c.

Definition core_port (c : Cache) : Prop :=
  tags_shaped (cc_tags c) ∧ ce_bypassCaches (cc_env c) = false ∧
  prefetcher (cc_params c) = false.

Lemma port_restricted p (c : Cache) :
  core_port c → core_read (blkSize c) p → metadataUpdate (pk_req p) = false →
  req_isRestricted (pk_req p) = true →
  ∃ ok p' c', port_recvTimingReq rp p c = Ok (ok, p', c') ∧ restricted_answer p c ok p' c'.
Proof.
  intros (Hs & Hby & Hpf) Hcr Hmd Hr. pose proof Hcr as [Hcmd Hfl _ _ Hunc Hmaint].
  pose proof (read_req p Hcmd) as [].
  unfold port_recvTimingReq. rewrite rd_request0, Hby. unfold tryTiming.
  rewrite Hby. unfold isExpressSnoop. rewrite flags_zero by done. cbn [orb].
  destruct (port_blocked c || mustSendRetry c) eqn:Hbusy.
  { do 3 eexists. split; [reflexivity|]. by constructor. }
  assert (set_mustSendRetry false c = c) as ->.
  { apply orb_false_iff in Hbusy as [_ Hm]. destruct c. cbn in *. by subst. }
  unfold cache_recvTimingReq. rewrite read_not_line by done.
  unfold cacheResponding. rewrite flags_zero by done.
  unfold base_recvTimingReq. rewrite Hr, rd_read0, Hunc. cbn [negb orb].
  rewrite access_read, Hr by done.
  assert (set_cc_tags (match resident c p with Some (_, _) => cc_tags c | None => cc_tags c end) c
          = c) as Heq.
  { rewrite <-(set_tags_same c) at 3. by destruct (resident c p) as [[]|]. }
  destruct (readHit c p) as [b|] eqn:Hh; cbn [ac_pkt ac_satisfied andb negb].
  - cbn [pk_req set_pk_data]. rewrite Hr, Hmd. cbn [ac_writebacks doWritebacks foldM ac_lat ac_blk].
    rewrite Heq. unfold readHit in Hh.
    destruct (resident_cases c p Hs) as [(pos & b' & _ & Hb & Hres & _)|[_ Hres]];
      rewrite Hres in Hh |- *; [|done].
    destruct (isReadable b') eqn:Hread; [|done]. injection Hh as ->.
    cbn [fmap option_fmap option_map compose fst].
    change (pk_headerDelay (set_pk_data _ p)) with (pk_headerDelay p).
    rewrite hit_answered by done. cbn [pk_req set_pk_payloadDelay set_pk_headerDelay set_pk_data].
    rewrite Hr, Hmd. do 3 eexists. split; [reflexivity|].
    apply RaHit with (b := b); [done| |done]. unfold readHit. rewrite Hres.
    by rewrite Hread.
  - cbn [pk_req set_pk_req]. rewrite restricted_cleared. cbn [negb].
    rewrite Heq. do 3 eexists. split; [reflexivity|]. cbn [pk_req set_pk_req].
    rewrite restricted_cleared. by constructor.
Qed.
End silent.
