(* ===== verification/CacheQueueOk.v ===== *)
(** * Bookkeeping of the miss and write queues

    An invariant of [Queue]: every entry is either free or allocated, an allocated
    one is on the ready list exactly if it is not in service, the counters are the
    lengths of the lists, and free entries are empty.  Each operation keeps it. *)

From S2P Require Import Prelude Config Packet CacheTags CacheQueue.

Local Open Scope Z_scope.

Lemma erase_perm i l : NoDup l → i ∈ l → i :: erase i l ≡ₚ l.
Proof.
  induction 1 as [|x l Hx Hl IH]; intros Hi; [set_solver|]. unfold erase in *.
  destruct (decide (x = i)) as [->|Hne].
  - rewrite filter_cons_False by naive_solver. rewrite filter_all; [done|].
    apply Forall_forall. intros y Hy ->. done.
  - rewrite filter_cons_True by done. rewrite Permutation_swap, IH; [done|set_solver].
Qed.

Lemma erase_length i l : NoDup l → i ∈ l → Z.of_nat (length (erase i l)) = Z.of_nat (length l) - 1.
Proof.
  intros Hl Hi. pose proof (Permutation_length (erase_perm i l Hl Hi)) as Hp. cbn in Hp. lia.
Qed.

Lemma elem_of_erase i j l : j ∈ erase i l ↔ j ≠ i ∧ j ∈ l.
Proof. unfold erase. by rewrite list_elem_of_filter. Qed.

Lemma erase_NoDup i l : NoDup l → NoDup (erase i l).
Proof. unfold erase. apply NoDup_filter. Qed.

Section queue_ok.
Context {T : Type} (vacant : T → Prop).
Implicit Types (i : nat).

Record queue_ok (q : Queue T) : Prop := {
  qo_num : q_numEntries q = Z.of_nat (length (q_entries q));
  qo_perm : freeList q ++ allocatedList q ≡ₚ seq 0 (length (q_entries q));
  qo_count : q_allocated q = Z.of_nat (length (allocatedList q));
  qo_inService : q_numInService q = q_allocated q - Z.of_nat (length (readyList q));
  qo_nodup : NoDup (readyList q);
  qo_ready : ∀ i, i ∈ readyList q ↔
    i ∈ allocatedList q ∧ ∃ e, q_entries q !! i = Some e ∧ inService e = false;
  qo_free : ∀ i e, i ∈ freeList q → q_entries q !! i = Some e → vacant (qe_data e);
}.

Lemma qo_lists q : queue_ok q → NoDup (freeList q ++ allocatedList q).
Proof. intros Hq. rewrite (qo_perm q Hq). apply NoDup_seq. Qed.

Lemma qo_disjoint q i : queue_ok q → i ∈ freeList q → i ∈ allocatedList q → False.
Proof. intros Hq. pose proof (qo_lists q Hq) as (_ & Hd & _)%NoDup_app. naive_solver. Qed.

Lemma qo_allocNoDup q : queue_ok q → NoDup (allocatedList q).
Proof. intros Hq. by pose proof (qo_lists q Hq) as (_ & _ & ?)%NoDup_app. Qed.

(** Where an entry is. *)
Lemma qo_cases q i e :
  queue_ok q → q_entries q !! i = Some e → i ∈ allocatedList q ∨ i ∈ freeList q ∧ vacant (qe_data e).
Proof.
  intros Hq He. assert (Hin : i ∈ freeList q ++ allocatedList q).
  { rewrite (qo_perm q Hq). apply elem_of_seq. apply lookup_lt_Some in He. lia. }
  apply elem_of_app in Hin as [Hf|]; [right|by left]. eauto using qo_free.
Qed.

(** A queue that is not full has a free entry. *)
Lemma qo_hasFree q :
  queue_ok q → 0 <= q_numReserve q → q_isFull q = false → freeList q ≠ [].
Proof.
  intros Hq Hr Hf Hnil. unfold q_isFull in Hf. apply Z.leb_gt in Hf.
  pose proof (qo_perm q Hq) as Hp. rewrite Hnil in Hp. apply Permutation_length in Hp.
  rewrite length_seq in Hp. cbn in Hp. rewrite (qo_num q Hq), (qo_count q Hq) in Hf. lia.
Qed.

Lemma newQueue_ok num reserve e :
  0 <= num + reserve → vacant (qe_data e) → queue_ok (newQueue num reserve e).
Proof.
  intros Hn Hv. constructor; cbn; try done.
  - rewrite length_replicate. lia.
  - by rewrite app_nil_r, length_replicate.
  - constructor.
  - intros i. set_solver.
  - intros i e' _ [-> _]%lookup_replicate. done.
Qed.

(** *** Changing an allocated entry in place *)

Lemma q_put_ok q i e e' :
  queue_ok q → i ∈ allocatedList q → q_entries q !! i = Some e → inService e' = inService e →
  queue_ok (q_put q i e').
Proof.
  intros Hq Hi He Hs. destruct Hq as [H1 H2 H3 H4 H5 H6 H7] eqn:Hq'.
  constructor; cbn; rewrite ?length_insert; try done.
  - intros j. rewrite H6. destruct (decide (j = i)) as [->|Hne].
    + rewrite list_lookup_insert_eq by (by eapply lookup_lt_Some). naive_solver congruence.
    + by rewrite list_lookup_insert_ne.
  - intros j e1 Hf. destruct (decide (j = i)) as [->|Hne].
    + exfalso. by eapply qo_disjoint.
    + rewrite list_lookup_insert_ne by done. by apply H7.
Qed.

(** A change that keeps free entries vacant may touch any entry. *)
Lemma q_put_keep_ok q i e e' :
  queue_ok q → q_entries q !! i = Some e → inService e' = inService e →
  (vacant (qe_data e) → vacant (qe_data e')) → queue_ok (q_put q i e').
Proof.
  intros Hq He Hs Hv. destruct (qo_cases q i e Hq He) as [Hi|[Hi _]]; [by eapply q_put_ok|].
  destruct Hq as [H1 H2 H3 H4 H5 H6 H7] eqn:Hq'.
  constructor; cbn; rewrite ?length_insert; try done.
  - intros j. rewrite H6. destruct (decide (j = i)) as [->|Hne].
    + rewrite list_lookup_insert_eq by (by eapply lookup_lt_Some). naive_solver congruence.
    + by rewrite list_lookup_insert_ne.
  - intros j e1 Hf. destruct (decide (j = i)) as [->|Hne].
    + rewrite list_lookup_insert_eq by (by eapply lookup_lt_Some). intros [= <-]. eauto.
    + rewrite list_lookup_insert_ne by done. by apply H7.
Qed.

(** *** The ready list *)

Lemma insertReady_perm q i t l : insertReady (T:=T) q i t l ≡ₚ i :: l.
Proof.
  induction l as [|j l IH]; cbn; [done|].
  destruct (q_entries q !! j) as [e|]; [destruct (t <? qe_readyTime e); [done|]|];
    rewrite IH; apply Permutation_swap.
Qed.

(** *** Allocation and deallocation *)

Lemma q_allocate_ok q fill i q' :
  queue_ok q → (∀ e e', fill e = Ok e' → inService e' = false) →
  q_allocate fill q = Ok (i, q') →
  queue_ok q' ∧ q_allocated q' = q_allocated q + 1 ∧
  q_numEntries q' = q_numEntries q ∧ q_numReserve q' = q_numReserve q ∧
  freeList q = i :: freeList q' ∧ allocatedList q' = allocatedList q ++ [i].
Proof.
  intros Hq Hfill Ha. unfold q_allocate in Ha.
  destruct (freeList q) as [|i' free] eqn:Hf; [done|].
  destruct (q_get q i') as [e|] eqn:Hg; [|done]. destruct (fill e) as [e'|] eqn:He; [|done].
  apply Hfill in He.
  assert (Hlook : q_entries q !! i' = Some e)
    by (unfold q_get in Hg; destruct (q_entries q !! i'); naive_solver).
  assert (Hlt : (i' < length (q_entries q))%nat) by (by eapply lookup_lt_Some).
  unfold addToReadyList, q_get in Ha. cbn in Ha.
  rewrite list_lookup_insert_eq in Ha by done. injection Ha as <- <-. cbn.
  assert (Hi : i' ∉ allocatedList q).
  { intros Hin. apply (qo_disjoint q i' Hq); [rewrite Hf; set_solver|done]. }
  assert (Hir : i' ∉ readyList q) by (rewrite (qo_ready q Hq); naive_solver).
  split; [|done]. destruct Hq as [H1 H2 H3 H4 H5 H6 H7]. constructor; cbn; rewrite ?length_insert.
  - done.
  - rewrite <-H2, Hf. rewrite app_assoc, Permutation_app_comm. done.
  - rewrite length_app. cbn. lia.
  - rewrite insertReady_perm. cbn. lia.
  - rewrite insertReady_perm. by constructor.
  - intros j. rewrite insertReady_perm, elem_of_cons, elem_of_app, list_elem_of_singleton, H6.
    destruct (decide (j = i')) as [->|Hne].
    + rewrite list_lookup_insert_eq by done. naive_solver.
    + rewrite list_lookup_insert_ne by done. naive_solver.
  - intros j e1 Hj. rewrite list_lookup_insert_ne; [|intros ->].
    + apply H7. rewrite Hf. set_solver.
    + pose proof (NoDup_seq 0 (length (q_entries q))) as Hnd. rewrite <-H2, Hf in Hnd.
      cbn in Hnd. inversion Hnd. set_solver.
Qed.

Lemma q_deallocate_ok q clear i q' :
  queue_ok q → i ∈ allocatedList q →
  (∀ e e', clear e = Ok e' → vacant (qe_data e')) →
  q_deallocate clear i q = Ok q' →
  queue_ok q' ∧ q_allocated q' = q_allocated q - 1 ∧
  q_numEntries q' = q_numEntries q ∧ q_numReserve q' = q_numReserve q.
Proof.
  intros Hq Hi Hclear Hd. unfold q_deallocate in Hd.
  destruct (q_get q i) as [e|] eqn:Hg; [|done].
  assert (Hlook : q_entries q !! i = Some e)
    by (unfold q_get in Hg; destruct (q_entries q !! i); naive_solver).
  destruct (clear e) as [e'|] eqn:He; [|done]. apply Hclear in He. injection Hd as <-.
  pose proof (qo_allocNoDup q Hq) as Hnd.
  assert (Hlt : (i < length (q_entries q))%nat) by (by eapply lookup_lt_Some).
  assert (Hir : i ∈ readyList q ↔ inService e = false) by (rewrite (qo_ready q Hq); naive_solver).
  destruct Hq as [H1 H2 H3 H4 H5 H6 H7] eqn:Hq'.
  split; [|by destruct (inService e)].
  assert (Hready : readyList (q_put (if inService e then set_q_numInService (q_numInService q - 1)
             (set_q_allocated (q_allocated q - 1) (set_freeList (i :: freeList q)
                (set_allocatedList (erase i (allocatedList q)) q)))
           else set_readyList (erase i (readyList q)) (set_q_allocated (q_allocated q - 1)
             (set_freeList (i :: freeList q) (set_allocatedList (erase i (allocatedList q)) q)))) i e')
     = erase i (readyList q)).
  { destruct (inService e) eqn:Hs; [|done]. cbn. unfold erase. rewrite filter_all; [done|].
    apply Forall_forall. intros j Hj ->. apply Hir in Hj. done. }
  constructor.
  - destruct (inService e); cbn; by rewrite length_insert.
  - assert (freeList q ++ allocatedList q ≡ₚ (i :: freeList q) ++ erase i (allocatedList q)) as Hp.
    { rewrite <-(erase_perm i (allocatedList q)) at 1 by done. symmetry.
      apply Permutation_middle. }
    destruct (inService e); cbn; rewrite length_insert, <-H2, Hp; done.
  - destruct (inService e); cbn; rewrite erase_length by done; lia.
  - destruct (inService e) eqn:Hs; cbn; [|rewrite erase_length by naive_solver]; lia.
  - rewrite Hready. by apply erase_NoDup.
  - intros j. rewrite Hready, elem_of_erase, H6.
    destruct (inService e); cbn; rewrite elem_of_erase;
      (destruct (decide (j = i)) as [->|Hne]; [naive_solver|rewrite list_lookup_insert_ne by done]);
      naive_solver.
  - intros j e1 Hj Hl.
    assert (Hl' : (if decide (j = i) then Some e' else q_entries q !! j) = Some e1).
    { destruct (inService e); cbn in Hl; destruct (decide (j = i)) as [->|];
        [rewrite list_lookup_insert_eq in Hl|rewrite list_lookup_insert_ne in Hl
        |rewrite list_lookup_insert_eq in Hl|rewrite list_lookup_insert_ne in Hl]; done. }
    assert (j = i ∨ j ∈ freeList q) as Hj' by (destruct (inService e); cbn in Hj; set_solver).
    destruct (decide (j = i)); [naive_solver|]. destruct Hj'; naive_solver.
Qed.
End queue_ok.

(** *** The two queues *)

Definition ms_vacant (d : MshrData) : Prop :=
  tl_targets (targets d) = [] ∧ tl_targets (deferredTargets d) = [].
Definition we_vacant (l : list WTarget) : Prop := l = [].

Abbreviation mq_ok := (queue_ok ms_vacant).
Abbreviation wq_ok := (queue_ok we_vacant).

Lemma q_get_lookup {T} (q : Queue T) i e : q_get q i = Ok e → q_entries q !! i = Some e.
Proof. unfold q_get. destruct (q_entries q !! i); naive_solver. Qed.

(** An entry with a target is allocated. *)
Lemma mq_target_allocated q i m t :
  mq_ok q → q_get q i = Ok m → tl_front (ms_targets m) = Ok t → i ∈ allocatedList q.
Proof.
  intros Hq Hm%q_get_lookup Ht. destruct (qo_cases ms_vacant q i m Hq Hm) as [|[_ [Hv _]]]; [done|].
  unfold tl_front, ms_targets in Ht. by rewrite Hv in Ht.
Qed.

Lemma wq_target_allocated q i e t :
  wq_ok q → q_get q i = Ok e → we_getTarget e = Ok t → i ∈ allocatedList q.
Proof.
  intros Hq Hm%q_get_lookup Ht. destruct (qo_cases we_vacant q i e Hq Hm) as [|[_ Hv]]; [done|].
  unfold we_getTarget, we_vacant in *. by rewrite Hv in Ht.
Qed.

Lemma mq_allocate_ok now a p w o f q i q' :
  mq_ok q → mq_allocate now a p w o f q = Ok (i, q') →
  mq_ok q' ∧ q_allocated q' = q_allocated q + 1 ∧
  q_numEntries q' = q_numEntries q ∧ q_numReserve q' = q_numReserve q.
Proof.
  intros Hq Ha. eapply q_allocate_ok in Ha; [naive_solver|done|].
  intros m m' Hm. inv_ok1 Hm. unfold ms_allocate in Hm. by inv_ok Hm.
Qed.

Lemma wq_allocate_ok a p w o q i q' :
  wq_ok q → wq_allocate a p w o q = Ok (i, q') →
  wq_ok q' ∧ q_allocated q' = q_allocated q + 1 ∧
  q_numEntries q' = q_numEntries q ∧ q_numReserve q' = q_numReserve q.
Proof.
  intros Hq Ha. eapply q_allocate_ok in Ha; [naive_solver|done|].
  intros e e' He. inv_ok1 He. unfold we_allocate in He.
  destruct (_ && _); [done|]. destruct (negb _); [done|]. by injection He as <-.
Qed.

Lemma wq_markInService_ok i q q' :
  wq_ok q → wq_markInService i q = Ok q' →
  wq_ok q' ∧ q_allocated q' = q_allocated q - 1 ∧
  q_numEntries q' = q_numEntries q ∧ q_numReserve q' = q_numReserve q.
Proof.
  intros Hq Hm. unfold wq_markInService in Hm. destruct (q_get q i) as [e|] eqn:He; [|done].
  destruct (qe_data e) as [|t ts] eqn:Hd; [done|].
  assert (Hi : i ∈ allocatedList q)
    by (eapply (wq_target_allocated q i e t); [done|done|]; unfold we_getTarget; by rewrite Hd).
  apply q_get_lookup in He.
  eapply q_deallocate_ok in Hm; [exact Hm|by eapply q_put_ok|done|].
  intros e1 e2 H2. unfold we_deallocate in H2. inv_ok H2. by apply bool_decide_eq_true in E.
Qed.

Lemma mq_deallocate_ok i q q' m :
  mq_ok q → q_get q i = Ok m → i ∈ allocatedList q → tl_targets (ms_deferred m) = [] →
  mq_deallocate i q = Ok q' →
  mq_ok q' ∧ q_allocated q' = q_allocated q - 1 ∧
  q_numEntries q' = q_numEntries q ∧ q_numReserve q' = q_numReserve q.
Proof.
  intros Hq Hm Hi Hdef Hd. unfold mq_deallocate, q_deallocate in Hd. rewrite Hm in Hd.
  destruct (ms_deallocate m) as [m'|] eqn:Hc; [|done].
  assert (Hv : ms_vacant (qe_data m')).
  { unfold ms_deallocate in Hc. inv_ok Hc. apply bool_decide_eq_true in E. by split. }
  eapply (q_deallocate_ok ms_vacant q (λ _, Ok m') i); try done.
  - naive_solver.
  - unfold q_deallocate. by rewrite Hm.
Qed.

Lemma mq_markInService_ok i b q q' m :
  mq_ok q → q_get q i = Ok m → i ∈ allocatedList q → mq_markInService i b q = Ok q' →
  mq_ok q' ∧ q_allocated q' = q_allocated q ∧
  q_numEntries q' = q_numEntries q ∧ q_numReserve q' = q_numReserve q.
Proof.
  intros Hq Hm Hi Hs. unfold mq_markInService in Hs. rewrite Hm in Hs.
  destruct (ms_markInService b m) as [m'|] eqn:Hc; [|done]. injection Hs as <-.
  apply q_get_lookup in Hm. unfold ms_markInService in Hc. inv_ok1 Hc. inv_ok1 Hc.
  apply negb_true_iff in E. pose proof Hq as [H1 H2 H3 H4 H5 H6 H7].
  assert (Hir : i ∈ readyList q) by (rewrite H6; eauto).
  split; [|done]. constructor; cbn; rewrite ?length_insert; try done.
  - rewrite erase_length by done. lia.
  - by apply erase_NoDup.
  - intros j. rewrite elem_of_erase, H6. destruct (decide (j = i)) as [->|Hne].
    + rewrite list_lookup_insert_eq by (by eapply lookup_lt_Some). cbn. naive_solver.
    + rewrite list_lookup_insert_ne by done. naive_solver.
  - intros j e1 Hf. rewrite list_lookup_insert_ne; [by apply H7|intros ->; by eapply qo_disjoint].
Qed.

Lemma mq_markPending_ok i q q' :
  mq_ok q → i ∈ allocatedList q → mq_markPending i q = Ok q' →
  mq_ok q' ∧ q_allocated q' = q_allocated q ∧
  q_numEntries q' = q_numEntries q ∧ q_numReserve q' = q_numReserve q.
Proof.
  intros Hq Hi Hs. unfold mq_markPending in Hs. destruct (q_get q i) as [m|] eqn:Hm; [|done].
  inv_ok1 Hs. apply q_get_lookup in Hm. pose proof Hq as [H1 H2 H3 H4 H5 H6 H7].
  unfold addToReadyList, q_get in Hs. cbn in Hs.
  rewrite list_lookup_insert_eq in Hs by (by eapply lookup_lt_Some). injection Hs as <-.
  assert (Hir : i ∉ readyList q) by (rewrite H6; naive_solver congruence).
  split; [|done]. constructor; cbn; rewrite ?length_insert; try done.
  - rewrite insertReady_perm. cbn. lia.
  - rewrite insertReady_perm. by constructor.
  - intros j. rewrite insertReady_perm, elem_of_cons, H6. destruct (decide (j = i)) as [->|Hne].
    + rewrite list_lookup_insert_eq by (by eapply lookup_lt_Some). naive_solver.
    + rewrite list_lookup_insert_ne by done. naive_solver.
  - intros j e1 Hf. rewrite list_lookup_insert_ne; [by apply H7|intros ->; by eapply qo_disjoint].
Qed.
