(* ===== verification/CacheFrame.v ===== *)
(** * What the operations on blocks leave alone

    Most of the cache's operations work on one block and its packet.  They change
    neither the queues, nor the port, nor the geometry of the tags: the [view]
    of the cache.  One lemma per operation. *)

From S2P Require Import Prelude Config Packet ReplPolicy CacheTags CacheQueue Cache CacheMem.
Import BlkStatus.

Local Open Scope Z_scope.

(** ** The geometry of the tags *)

Definition geometry {G D} (t : BaseSetAssoc G D) : nat * Z * Z * Z :=
  (length (cacheSets t), setMask t, setShift t, tagShift t).

(** A computation that ended [Ok]: what every part of it answered. *)
Ltac ok_step :=
  match goal with
  | H : Ok _ = Ok _ |- _ => injection H; clear H; intros; subst
  | H : Err _ = Ok _ |- _ => discriminate H
  | H : (if ?b then _ else _) = Ok _ |- _ => destruct b eqn:?
  | H : (match ?o with _ => _ end) = Ok _ |- _ => destruct o eqn:?
  | H : (if ?b then _ else _) = (_, _) |- _ => destruct b eqn:?
  | H : (match ?o with _ => _ end) = (_, _) |- _ => destruct o eqn:?
  | H : (_, _) = (_, _) |- _ => injection H; clear H; intros; subst
  | H : Some _ = Some _ |- _ => injection H; clear H; intros; subst
  end.
Ltac ok_steps := repeat ok_step.

Section frame.
Context {G D E : Type} `{CacheEnv E} (rp : ReplacementPolicy G D).
Abbreviation Cache := (Cache G D E).

Lemma blkPut_geometry (t : BaseSetAssoc G D) pos b : geometry (blkPut t pos b) = geometry t.
Proof. unfold geometry, blkPut. cbn. by rewrite length_alter. Qed.

Lemma findVictim_geometry now addr (t t' : BaseSetAssoc G D) pos :
  findVictim rp now addr t = Ok (pos, t') → geometry t' = geometry t.
Proof.
  unfold findVictim. intros Hv. ok_steps. unfold geometry. cbn. by rewrite length_insert.
Qed.

Lemma insertBlock_geometry now p pos (t t' : BaseSetAssoc G D) :
  insertBlock rp now p pos t = Ok t' → geometry t' = geometry t.
Proof. unfold insertBlock. intros Hv. ok_steps. exact (blkPut_geometry t _ _). Qed.

Lemma tg_invalidate_geometry pos (t t' : BaseSetAssoc G D) :
  tg_invalidate rp pos t = Ok t' → geometry t' = geometry t.
Proof. unfold tg_invalidate. intros Hv. ok_steps. apply blkPut_geometry. Qed.

Lemma accessBlock_geometry period now addr sec upd (t t' : BaseSetAssoc G D) pos lat :
  accessBlock rp period now addr sec upd t = Ok (pos, lat, t') → geometry t' = geometry t.
Proof.
  unfold accessBlock. intros Hv. ok_steps; try done. destruct upd; [apply blkPut_geometry|done].
Qed.

(** ** The view *)

Record View := mkView {
  v_params : CacheParams;
  v_mshr : MSHRQueue;
  v_wb : WriteQueue;
  v_blocked : Z;
  v_noTarget : option nat;
  v_port : bool;
  v_must : bool;
  v_event : option Tick;
  v_geom : nat * Z * Z * Z;
}.

Definition view (c : Cache) : View :=
  mkView (cc_params c) (mshrQueue c) (writeBuffer c) (cc_blocked c) (noTargetMSHR c)
    (port_blocked c) (mustSendRetry c) (sendRetryEvent c) (geometry (cc_tags c)).

Lemma view_tags t (c : Cache) : geometry t = geometry (cc_tags c) → view (set_cc_tags t c) = view c.
Proof. intros Ht. unfold view. cbn. by rewrite Ht. Qed.

Lemma view_putBlk r b (c : Cache) : view (putBlk r b c) = view c.
Proof. destruct r; [|done]. apply view_tags, blkPut_geometry. Qed.

Lemma view_modBlk r f (c c' : Cache) : modBlk r f c = Ok c' → view c' = view c.
Proof. unfold modBlk. intros Hm. ok_steps. apply view_putBlk. Qed.

Lemma view_invalidateBlock r (c c' : Cache) : invalidateBlock rp r c = Ok c' → view c' = view c.
Proof.
  unfold invalidateBlock. intros Hi. destruct r; ok_steps; [|done].
  apply view_modBlk in Hi. rewrite Hi. apply view_tags. by eapply tg_invalidate_geometry.
Qed.

Lemma view_passOwnership p r b (c c' : Cache) p' :
  passOwnership p r b c = Ok (p', c') → view c' = view c.
Proof. unfold passOwnership. intros Hp. ok_steps; apply view_putBlk. Qed.

Lemma view_writebackBlk r (c c' : Cache) p : writebackBlk r c = Ok (p, c') → view c' = view c.
Proof. unfold writebackBlk. intros Hw. ok_steps; by eapply view_passOwnership. Qed.

Lemma view_writecleanBlk r d (c c' : Cache) p : writecleanBlk r d c = Ok (p, c') → view c' = view c.
Proof. unfold writecleanBlk. intros Hw. ok_steps; by eapply view_passOwnership. Qed.

Lemma view_evictBlock r (c c' : Cache) p : evictBlock rp r c = Ok (p, c') → view c' = view c.
Proof.
  unfold evictBlock. intros He. ok_steps.
  - match goal with H : writebackBlk _ _ = _ |- _ => apply view_writebackBlk in H; rewrite <-H end.
    by eapply view_invalidateBlock.
  - by eapply view_invalidateBlock.
Qed.

Lemma view_allocateBlock p (c c' : Cache) r wbs :
  allocateBlock rp p c = Ok (r, wbs, c') → view c' = view c.
Proof.
  unfold allocateBlock. intros Ha. destruct (findVictim _ _ _ _) as [[pos t]|] eqn:Hv; [|done].
  apply findVictim_geometry in Hv.
  assert (Ht : view (set_cc_tags t c) = view c) by (by apply view_tags).
  set (c1 := set_cc_tags t c) in *. ok_steps; try exact Ht.
  all: match goal with H : insertBlock _ _ _ _ _ = _ |- _ =>
         apply insertBlock_geometry in H; rewrite (view_tags _ _ H) end.
  - rewrite <-Ht. by eapply view_evictBlock.
  - done.
Qed.

Lemma view_maintainClusivity b blk (c c' : Cache) :
  maintainClusivity rp b blk c = Ok c' → view c' = view c.
Proof. unfold maintainClusivity. intros Hm. ok_steps; try done. by eapply view_invalidateBlock. Qed.

Lemma view_handleFill p blk alloc (c c' : Cache) r wbs :
  handleFill rp p blk alloc c = Ok (r, wbs, c') → view c' = view c.
Proof.
  unfold handleFill. intros Hf. do 3 (destruct (_ : bool) eqn:? in Hf; [|done]).
  match type of Hf with (match ?o with _ => _ end) = _ =>
    destruct o as [[[r1 wbs1] c1]|] eqn:Hblk; [|done] end.
  assert (view c1 = view c) as Hc1.
  { destruct blk; [ok_steps; done|]. ok_steps; try done;
      try (match goal with H : allocateBlock _ _ _ = _ |- _ => by eapply view_allocateBlock in H end). }
  rewrite <-Hc1. ok_steps; apply view_putBlk.
Qed.

Lemma view_satisfyRequest p r (c c' : Cache) p' :
  base_satisfyRequest rp p r c = Ok (p', c') → view c' = view c.
Proof.
  unfold base_satisfyRequest. intros Hs. ok_steps; rewrite ?view_putBlk; try done;
    by eapply view_invalidateBlock.
Qed.

Lemma view_cache_satisfyRequest p r d g (c c' : Cache) p' :
  cache_satisfyRequest rp p r d g c = Ok (p', c') → view c' = view c.
Proof.
  unfold cache_satisfyRequest. intros Hs.
  destruct (base_satisfyRequest rp p r c) as [[p1 c1]|] eqn:Hb; [|done].
  apply view_satisfyRequest in Hb. rewrite <-Hb. ok_steps; rewrite ?view_putBlk; done.
Qed.

Lemma view_incMissCount (c : Cache) : view (incMissCount c) = view c.
Proof. unfold incMissCount. by destruct (_ =? _). Qed.

Lemma view_access_writebackBlk p blk (c c' : Cache) r wbs :
  access_writebackBlk rp p blk c = Ok (r, wbs, c') → view c' = view c.
Proof.
  unfold access_writebackBlk. intros Ha. destruct blk; [by ok_steps|].
  destruct (allocateBlock rp p c) as [[[r1 wbs1] c1]|] eqn:Hb; [|done].
  apply view_allocateBlock in Hb. rewrite <-Hb. ok_steps; [|apply view_incMissCount].
  by eapply view_modBlk.
Qed.

Lemma view_fillWriteback p d w r (c c' : Cache) :
  access_fillWriteback p d w r c = Ok c' → view c' = view c.
Proof. unfold access_fillWriteback. intros Ha. ok_steps; apply view_putBlk. Qed.

Lemma view_isCachedAbove p (c c' : Cache) b : isCachedAbove p c = Ok (b, c') → view c' = view c.
Proof. unfold isCachedAbove. intros Hi. by ok_steps. Qed.

Lemma view_snoopAbove p (c c' : Cache) t p' :
  snoopAbove p c = Ok (t, p', c') → view c' = view c.
Proof. unfold snoopAbove. intros Hs. by ok_steps. Qed.

Lemma view_supplyResponse p d a b (c c' : Cache) :
  doTimingSupplyResponse p d a b c = Ok c' → view c' = view c.
Proof. unfold doTimingSupplyResponse. intros Hs. by ok_steps. Qed.

Lemma view_notifyPrefetcher p (c c' : Cache) t : notifyPrefetcher p c = (t, c') → view c' = view c.
Proof. unfold notifyPrefetcher. destruct (ce_notify _ _). by intros [= <- <-]. Qed.

Lemma view_handleHit p t (c c' : Cache) : handleTimingReqHit p t c = Ok c' → view c' = view c.
Proof. unfold handleTimingReqHit. intros Hs. by ok_steps. Qed.

Lemma view_recvTimingReq_hit p blk t (c c' : Cache) :
  recvTimingReq_hit p blk t c = Ok c' → view c' = view c.
Proof.
  unfold recvTimingReq_hit. intros Hs. ok_steps;
    repeat match goal with
      | H : handleTimingReqHit _ _ _ = _ |- _ => apply view_handleHit in H
      | H : modBlk _ _ _ = _ |- _ => apply view_modBlk in H
      | H : notifyPrefetcher _ _ = _ |- _ => apply view_notifyPrefetcher in H
      end; try destruct (_ =? MaxTick);
    try change (view (schedMemSideSendEvent _ ?x)) with (view x); congruence.
Qed.
End frame.
