(* ===== verification/CacheOk.v ===== *)
(** * The cache's bookkeeping

    The invariant of the data cache's queues and port over every operation: the
    queues are well formed, and the port is blocked for exactly the causes that
    hold.  So a request the port accepts always finds an MSHR. *)

From S2P Require Import Prelude Config Packet ReplPolicy CacheTags CacheQueue Cache CacheMem CacheRun.
From S2P Require Import CacheQueueOk CacheFrame.

Local Open Scope Z_scope.

(** ** The invariant *)

(** The bits of [blocked]: no MSHRs, no write buffers, no targets. *)
Definition causes (a b d : bool) : Z :=
  (if a then 1 else 0) + (if b then 2 else 0) + (if d then 4 else 0).

Definition has {A} (o : option A) : bool := match o with Some _ => true | None => false end.

Record port_inv (a b d : bool) (v : View) : Prop := {
  pi_causes : v_blocked v = causes a b d;
  pi_port : v_port v = (a || b || d);
  pi_event : has (v_event v) = v_must v && negb (v_port v); (** a refused request gets its retry *)
}.

Record cache_inv (v : View) : Prop := {
  ci_mshr : mq_ok (v_mshr v);
  ci_wb : wq_ok (v_wb v);
  ci_reserve : 0 <= q_numReserve (v_mshr v) ∧ 0 <= q_numReserve (v_wb v);
  ci_port : port_inv (q_isFull (v_mshr v)) (q_isFull (v_wb v)) (has (v_noTarget v)) v;
}.

(** Entries keep being in service or not. *)
Lemma allocateTarget_inService now p w o f m m' :
  allocateTarget now p w o f m = Ok m' → inService m' = inService m.
Proof. unfold allocateTarget. intros Ha. by ok_steps. Qed.

Lemma ms_handleSnoop_inService now k p o m b p' m' :
  ms_handleSnoop now k p o m = Ok (b, p', m') → inService m' = inService m.
Proof.
  unfold ms_handleSnoop. intros Ha. ok_steps;
    repeat match goal with |- context[if ?b then _ else _] => destruct b end; done.
Qed.

Lemma promoteIf_inService f m m' : promoteIf f m = Ok m' → inService m' = inService m.
Proof. unfold promoteIf. intros Ha. by ok_steps. Qed.

Lemma promoteReadable_inService m m' : promoteReadable m = Ok m' → inService m' = inService m.
Proof. unfold promoteReadable. intros Ha. ok_steps; try done. by eapply promoteIf_inService. Qed.

Lemma promoteWritable_inService m m' : promoteWritable m = Ok m' → inService m' = inService m.
Proof.
  unfold promoteWritable. intros Ha. ok_steps; try done.
  match goal with H : promoteIf _ _ = _ |- _ => by apply promoteIf_inService in H end.
Qed.

Lemma extract_inService p m l m' :
  extractServiceableTargets p m = Ok (l, m') → inService m' = inService m.
Proof. unfold extractServiceableTargets. intros Ha. by ok_steps. Qed.

Lemma promoteDeferred_inService now m b m' :
  promoteDeferredTargets now m = Ok (b, m') →
  inService m' = inService m ∧
  (b = false → m' = m ∧ tl_targets (ms_targets m) = [] ∧ tl_targets (ms_deferred m) = []).
Proof.
  unfold promoteDeferredTargets. intros Ha.
  destruct (bool_decide (tl_targets (ms_targets m) = []) && _) eqn:Hb.
  - injection Ha as <- <-. apply andb_true_iff in Hb as [?%bool_decide_eq_true ?%bool_decide_eq_true].
    naive_solver.
  - destruct (match tl_targets (ms_deferred m) with [] => _ | _ => _ end) as [up rest].
    by ok_steps.
Qed.

Lemma q_search_elem {T} (q : Queue T) f l i : q_search q f l = Some i → i ∈ l.
Proof.
  unfold q_search. destruct (list_find _ l) as [[k j]|] eqn:Hf; [|done]. intros [= <-].
  apply list_find_Some in Hf as (Hl & _). by eapply list_elem_of_lookup_2.
Qed.

Lemma full_markPending i (q q' : MSHRQueue) : mq_markPending i q = Ok q' → q_isFull q' = q_isFull q.
Proof. unfold mq_markPending, addToReadyList, q_get. intros Hm. by ok_steps. Qed.

Section cache_ok.
Context {G D E : Type} `{CacheEnv E} (rp : ReplacementPolicy G D).
Abbreviation Cache := (Cache G D E).

(** ** Steps that keep the invariant

    [good]: parameters and geometry stay, and the invariant if it held.  [kept]: the
    same MSHRs are allocated. *)
Record good (c c' : Cache) : Prop := {
  gd_params : cc_params c' = cc_params c;
  gd_geom : geometry (cc_tags c') = geometry (cc_tags c);
  gd_inv : cache_inv (view c) → cache_inv (view c');
}.
Definition kept (c c' : Cache) : Prop :=
  good c c' ∧ allocatedList (mshrQueue c') = allocatedList (mshrQueue c).

#[export] Instance good_preorder : PreOrder good.
Proof.
  split; [by constructor|]. intros a b c [H1 H2 H3] [H4 H5 H6].
  constructor; [congruence|congruence|auto].
Qed.
#[export] Instance kept_preorder : PreOrder kept.
Proof.
  split; [by split|]. intros a b c [H1 H2] [H3 H4]. split; [by etrans|congruence].
Qed.

Lemma kept_good c c' : kept c c' → good c c'.
Proof. by intros []. Qed.

Lemma view_kept c c' : view c' = view c → kept c c'.
Proof.
  intros Hv. split; [constructor|].
  - exact (f_equal v_params Hv).
  - exact (f_equal v_geom Hv).
  - by rewrite Hv.
  - by rewrite (f_equal v_mshr Hv : mshrQueue c' = mshrQueue c).
Qed.

(** *** Blocking and unblocking *)

Lemma port_inv_event a b d v : port_inv a b d v → a || b || d = true → v_event v = None.
Proof.
  intros [_ Hp He] Hb. rewrite Hp, Hb, andb_false_r in He. by destruct (v_event v).
Qed.

(** [setBlocked] for a cause sets its bit; everything but the port stays. *)
Lemma setBlocked_inv k a b d (c c' : Cache) :
  k = Blocked_NoMSHRs ∨ k = Blocked_NoWBBuffers ∨ k = Blocked_NoTargets →
  port_inv a b d (view c) → setBlocked k c = Ok c' →
  port_inv (a || (k =? 0)) (b || (k =? 1)) (d || (k =? 2)) (view c') ∧
  cc_params c' = cc_params c ∧ cc_tags c' = cc_tags c ∧ mshrQueue c' = mshrQueue c ∧
  writeBuffer c' = writeBuffer c ∧ noTargetMSHR c' = noTargetMSHR c.
Proof.
  intros Hk [Hc Hp He] Hs. unfold setBlocked, port_setBlocked in Hs. cbn in Hc, Hp, He.
  rewrite Hc in Hs.
  destruct Hk as [->|[-> | ->]]; destruct a, b, d; cbn in Hs; rewrite ?Hp in Hs; cbn in Hs;
    ok_steps; (split; [|done]); constructor; cbn in *; rewrite ?Hc; try done;
    repeat match goal with
      | Ev : sendRetryEvent c = _ |- _ => rewrite Ev in *; clear Ev
      | Ev : mustSendRetry c = _ |- _ => rewrite Ev in *; clear Ev
      end; cbn in *; rewrite ?Hp, ?andb_false_r, ?andb_true_r in *; congruence.
Qed.

(** [clearBlocked] clears the bit of a cause that holds. *)
Lemma clearBlocked_inv k a b d (c c' : Cache) :
  k = Blocked_NoMSHRs ∧ a = true ∨ k = Blocked_NoWBBuffers ∧ b = true ∨
    k = Blocked_NoTargets ∧ d = true →
  port_inv a b d (view c) → clearBlocked k c = Ok c' →
  port_inv (a && negb (k =? 0)) (b && negb (k =? 1)) (d && negb (k =? 2)) (view c') ∧
  cc_params c' = cc_params c ∧ cc_tags c' = cc_tags c ∧ mshrQueue c' = mshrQueue c ∧
  writeBuffer c' = writeBuffer c ∧ noTargetMSHR c' = noTargetMSHR c.
Proof.
  intros Hk [Hc Hp He] Hs. unfold clearBlocked, port_clearBlocked in Hs. cbn in Hc, Hp, He.
  rewrite Hc in Hs.
  destruct Hk as [[-> ->]|[[-> ->]|[-> ->]]];
    [destruct b, d|destruct a, d|destruct a, b]; cbn in Hs; rewrite ?Hp in Hs; cbn in Hs;
    ok_steps; (split; [|done]); constructor; cbn in *; rewrite ?Hc; try done;
    repeat match goal with
      | Ev : sendRetryEvent c = _ |- _ => rewrite Ev in *; clear Ev
      | Ev : mustSendRetry c = _ |- _ => rewrite Ev in *; clear Ev
      end; cbn in *; rewrite ?Hp, ?andb_false_r, ?andb_true_r in *; congruence.
Qed.

(** *** The queues *)

Lemma isFull_mono {T} (q q' : Queue T) :
  q_numEntries q' = q_numEntries q → q_numReserve q' = q_numReserve q →
  q_allocated q <= q_allocated q' → q_isFull q = true → q_isFull q' = true.
Proof. unfold q_isFull. intros -> -> Hle. rewrite !Z.leb_le. lia. Qed.

Lemma isFull_same {T} (q q' : Queue T) :
  q_numEntries q' = q_numEntries q → q_numReserve q' = q_numReserve q →
  q_allocated q' = q_allocated q → q_isFull q' = q_isFull q.
Proof. unfold q_isFull. by intros -> -> ->. Qed.

(** A full queue after an allocation blocks the port; else it was not full. *)
Lemma full_or {T} (q q' : Queue T) :
  q_numEntries q' = q_numEntries q → q_numReserve q' = q_numReserve q →
  q_allocated q' = q_allocated q + 1 → q_isFull q' = false → q_isFull q = false.
Proof.
  intros H1 H2 H3 Hf. destruct (q_isFull q) eqn:Hq; [|done].
  rewrite (isFull_mono q q') in Hf by (done || lia). done.
Qed.

Lemma good_allocateMissBuffer p t s (c c' : Cache) i :
  allocateMissBuffer p t s c = Ok (i, c') → good c c'.
Proof.
  unfold allocateMissBuffer. intros Ha.
  destruct (mq_allocate _ _ _ _ _ _ _) as [[j q]|] eqn:Hq; [|done].
  set (c1 := set_cc_order _ _) in *.
  assert (∀ c2, (if q_isFull q then setBlocked Blocked_NoMSHRs c1 else Ok c1) = Ok c2 → good c c2)
    as Hmain; [|ok_steps; destruct s; try (by apply Hmain);
      (etrans; [by apply Hmain|]; by apply kept_good, view_kept)].
  intros c2 Hb.
  assert (Hst : cc_params c2 = cc_params c ∧ cc_tags c2 = cc_tags c).
  { destruct (q_isFull q); [|by injection Hb as <-]. clear Ha.
    unfold setBlocked, port_setBlocked in Hb. by ok_steps. }
  destruct Hst as [Hp Ht]. constructor; [done|by rewrite Ht|].
  intros [Hm Hw [Hr1 Hr2] Hpi]. cbn in *.
  apply mq_allocate_ok in Hq as (Hm' & Hal & Hn & Hr); [|done].
  destruct (q_isFull q) eqn:Hfull.
  - destruct (setBlocked_inv Blocked_NoMSHRs _ _ _ c1 c2 (or_introl eq_refl)
      (Build_port_inv _ _ _ (view c1) (pi_causes _ _ _ _ Hpi) (pi_port _ _ _ _ Hpi)
         (pi_event _ _ _ _ Hpi)) Hb) as (Hpi' & _ & _ & E1 & E2 & E3).
    constructor; cbn; rewrite ?E1, ?E2, ?E3; cbn; try done; [lia|].
    rewrite orb_true_r, orb_false_r, orb_false_r in Hpi'. by rewrite Hfull.
  - injection Hb as <-. constructor; cbn; try done; [lia|].
    rewrite Hfull. rewrite (full_or (mshrQueue c) q) in Hpi by done. by destruct Hpi.
Qed.

Lemma kept_allocateWriteBuffer p t (c c' : Cache) :
  allocateWriteBuffer p t c = Ok c' → kept c c'.
Proof.
  unfold allocateWriteBuffer. intros Ha. destruct (_ || _); [|done].
  destruct (wq_allocate _ _ _ _ _) as [[j q]|] eqn:Hq; [|done].
  set (c1 := set_cc_order _ _) in *.
  destruct (if q_isFull q then _ else _) as [c2|] eqn:Hb; [|done]. injection Ha as <-.
  transitivity c2; [|by apply view_kept].
  assert (Hst : cc_params c2 = cc_params c ∧ cc_tags c2 = cc_tags c ∧ mshrQueue c2 = mshrQueue c).
  { destruct (q_isFull q); [|by injection Hb as <-].
    unfold setBlocked, port_setBlocked in Hb. by ok_steps. }
  destruct Hst as (Hp & Ht & Hms). split; [|by rewrite Hms]. constructor; [done|by rewrite Ht|].
  intros [Hm Hw [Hr1 Hr2] Hpi]. cbn in *.
  apply wq_allocate_ok in Hq as (Hw' & Hal & Hn & Hr); [|done].
  destruct (q_isFull q) eqn:Hfull.
  - destruct (setBlocked_inv Blocked_NoWBBuffers _ _ _ c1 c2 (or_intror (or_introl eq_refl))
      (Build_port_inv _ _ _ (view c1) (pi_causes _ _ _ _ Hpi) (pi_port _ _ _ _ Hpi)
         (pi_event _ _ _ _ Hpi)) Hb) as (Hpi' & _ & _ & E1 & E2 & E3).
    constructor; cbn; rewrite ?E1, ?E2, ?E3; cbn; try done; [lia|].
    rewrite orb_true_r, orb_false_r, orb_false_r in Hpi'. by rewrite Hfull.
  - injection Hb as <-. constructor; cbn; try done; [lia|].
    rewrite Hfull. rewrite (full_or (writeBuffer c) q) in Hpi by done. by destruct Hpi.
Qed.

(** Changing an allocated entry in place. *)
Lemma kept_putMSHR i m m' (c : Cache) :
  (cache_inv (view c) → i ∈ allocatedList (mshrQueue c)) →
  q_get (mshrQueue c) i = Ok m → inService m' = inService m →
  kept c (set_mshrQueue (q_put (mshrQueue c) i m') c).
Proof.
  intros Hi Hm%q_get_lookup Hs. split; [|done]. constructor; [done|done|].
  intros Hinv. specialize (Hi Hinv). destruct Hinv as [Hmq Hw Hr Hp].
  constructor; [by eapply q_put_ok|exact Hw|exact Hr|by destruct Hp].
Qed.

Lemma kept_putWrite i e e' (c : Cache) :
  (cache_inv (view c) → i ∈ allocatedList (writeBuffer c)) →
  q_get (writeBuffer c) i = Ok e → inService e' = inService e →
  kept c (set_writeBuffer (q_put (writeBuffer c) i e') c).
Proof.
  intros Hi Hm%q_get_lookup Hs. split; [|done]. constructor; [done|done|].
  intros Hinv. specialize (Hi Hinv). destruct Hinv as [Hmq Hw Hr Hp].
  constructor; [exact Hmq|by eapply q_put_ok|exact Hr|by destruct Hp].
Qed.

Lemma clearBlocked_frame k (c c' : Cache) :
  clearBlocked k c = Ok c' →
  cc_params c' = cc_params c ∧ cc_tags c' = cc_tags c ∧ mshrQueue c' = mshrQueue c ∧
  writeBuffer c' = writeBuffer c.
Proof. unfold clearBlocked, port_clearBlocked. intros Hc. by ok_steps. Qed.

(** An entry less: the queue is unblocked when it was full and is no more. *)
Lemma full_and {T} (q q' : Queue T) :
  q_numEntries q' = q_numEntries q → q_numReserve q' = q_numReserve q →
  q_allocated q' = q_allocated q - 1 → q_isFull q = false → q_isFull q' = false.
Proof.
  intros H1 H2 H3 Hf. destruct (q_isFull q') eqn:Hq; [|done].
  rewrite (isFull_mono q' q) in Hf by (done || lia). done.
Qed.

Lemma kept_markInServiceWrite i (c c' : Cache) : markInServiceWrite i c = Ok c' → kept c c'.
Proof.
  unfold markInServiceWrite. intros Ha.
  destruct (wq_markInService i (writeBuffer c)) as [q|] eqn:Hq; [|done].
  set (c1 := set_writeBuffer q c) in *.
  assert (Hst : cc_params c' = cc_params c ∧ cc_tags c' = cc_tags c ∧ mshrQueue c' = mshrQueue c ∧
                writeBuffer c' = q).
  { destruct (_ && _); [|by injection Ha as <-]. by apply clearBlocked_frame in Ha. }
  destruct Hst as (Hp & Ht & Hms & Hwb). split; [|by rewrite Hms].
  constructor; [done|by rewrite Ht|]. intros [Hm Hw [Hr1 Hr2] Hpi]. cbn in *.
  apply wq_markInService_ok in Hq as (Hw' & Hal & Hn & Hr); [|done].
  destruct (q_isFull (writeBuffer c)) eqn:Hf1, (q_isFull q) eqn:Hf2; cbn [andb negb] in Ha.
  2: { destruct (clearBlocked_inv Blocked_NoWBBuffers _ _ _ c1 c' (or_intror (or_introl (conj eq_refl eq_refl)))
         (Build_port_inv _ _ _ (view c1) (pi_causes _ _ _ _ Hpi) (pi_port _ _ _ _ Hpi)
         (pi_event _ _ _ _ Hpi)) Ha) as (Hpi' & _ & _ & E1 & E2 & E3).
       constructor; cbn; rewrite ?E1, ?E2, ?E3; cbn; try done; [lia|].
       rewrite Hf2. cbn in Hpi'. by rewrite !andb_true_r in Hpi'. }
  2: by rewrite (full_and (writeBuffer c) q) in Hf2.
  all: injection Ha as <-; constructor; cbn; try done; [lia|]; rewrite Hf2; by destruct Hpi.
Qed.

Lemma good_markInServiceMSHR i b m t (c c' : Cache) :
  q_get (mshrQueue c) i = Ok m → tl_front (ms_targets m) = Ok t →
  markInServiceMSHR i b c = Ok c' → good c c'.
Proof.
  unfold markInServiceMSHR. intros Hm Ht Ha.
  destruct (mq_markInService i b (mshrQueue c)) as [q|] eqn:Hq; [|done].
  assert (Hst : cc_params c' = cc_params c ∧ cc_tags c' = cc_tags c).
  { destruct (_ && _); [|by injection Ha as <-]. by apply clearBlocked_frame in Ha as (? & ? & _). }
  destruct Hst as [Hp Htg]. constructor; [done|by rewrite Htg|]. intros [Hmq Hw [Hr1 Hr2] Hpi]. cbn in *.
  eapply mq_markInService_ok in Hq as (Hm' & Hal & Hn & Hr); [|done|done|by eapply mq_target_allocated].
  assert (Hf : q_isFull q = q_isFull (mshrQueue c)) by (by apply isFull_same).
  rewrite Hf, andb_negb_r in Ha. injection Ha as <-.
  constructor; cbn; try done; [lia|]. rewrite Hf. by destruct Hpi.
Qed.

(** ** Requests *)

(** Collects what the operations on the way keep. *)
Ltac known :=
  repeat match goal with
    | H : context[view ?b = view ?a] |- _ => fail 1
    | H : putBlk _ _ _ = _ |- _ => fail 1
    | H : allocateWriteBuffer _ _ _ = Ok _ |- _ => apply kept_allocateWriteBuffer in H
    | H : markInServiceWrite _ _ = Ok _ |- _ => apply kept_markInServiceWrite in H
    | H : allocateMissBuffer _ _ _ _ = Ok _ |- _ => apply good_allocateMissBuffer in H
    | H : isCachedAbove _ _ = Ok _ |- _ => apply view_isCachedAbove, view_kept in H
    | H : modBlk _ _ _ = Ok _ |- _ => apply view_modBlk, view_kept in H
    | H : evictBlock _ _ _ = Ok _ |- _ => apply view_evictBlock, view_kept in H
    | H : writecleanBlk _ _ _ = Ok _ |- _ => apply view_writecleanBlk, view_kept in H
    | H : invalidateBlock _ _ _ = Ok _ |- _ => apply view_invalidateBlock, view_kept in H
    | H : handleFill _ _ _ _ _ = Ok _ |- _ => apply view_handleFill, view_kept in H
    | H : maintainClusivity _ _ _ _ = Ok _ |- _ => apply view_maintainClusivity, view_kept in H
    | H : cache_satisfyRequest _ _ _ _ _ _ = Ok _ |- _ => apply view_cache_satisfyRequest, view_kept in H
    | H : access_writebackBlk _ _ _ _ = Ok _ |- _ => apply view_access_writebackBlk, view_kept in H
    | H : access_fillWriteback _ _ _ _ _ = Ok _ |- _ => apply view_fillWriteback, view_kept in H
    | H : recvTimingReq_hit _ _ _ _ = Ok _ |- _ => apply view_recvTimingReq_hit, view_kept in H
    | H : snoopAbove _ _ = Ok _ |- _ => apply view_snoopAbove, view_kept in H
    | H : doTimingSupplyResponse _ _ _ _ _ = Ok _ |- _ => apply view_supplyResponse, view_kept in H
    | H : notifyPrefetcher _ _ = _ |- _ => apply view_notifyPrefetcher, view_kept in H
    end.

(** Chains them to the end state. *)
Ltac chain :=
  repeat match goal with
    | |- _ ?c ?c => reflexivity
    | H : kept ?a ?b |- kept _ ?b => transitivity a; [clear H|exact H]
    | H : good ?a ?b |- good _ ?b => transitivity a; [clear H|exact H]
    | H : kept ?a ?b |- good _ ?b => transitivity a; [clear H|exact (kept_good _ _ H)]
    | |- _ _ (schedMemSideSendEvent _ ?b) => transitivity b; [|first [apply kept_good|idtac]; by apply view_kept]
    | |- _ _ (schedTimingResp _ _ ?b) => transitivity b; [|first [apply kept_good|idtac]; by apply view_kept]
    | |- _ _ (set_snoopResponses _ ?b) => transitivity b; [|first [apply kept_good|idtac]; by apply view_kept]
    | |- _ _ (set_cc_env _ ?b) => transitivity b; [|first [apply kept_good|idtac]; by apply view_kept]
    | |- _ _ (set_cc_order _ ?b) => transitivity b; [|first [apply kept_good|idtac]; by apply view_kept]
    | |- _ _ (set_outstandingSnoop _ ?b) => transitivity b; [|first [apply kept_good|idtac]; by apply view_kept]
    | |- _ _ (set_waitingOnRetry _ ?b) => transitivity b; [|first [apply kept_good|idtac]; by apply view_kept]
    | |- _ _ (incMissCount ?b) => transitivity b; [|first [apply kept_good|idtac]; apply view_kept, view_incMissCount]
    | |- _ _ (if ?b then _ else _) => destruct b
    end.
Ltac keep := ok_steps; known; chain.

Lemma kept_doWriteback t p (c c' : Cache) : doWriteback t c p = Ok c' → kept c c'.
Proof. unfold doWriteback. intros Hd. keep. Qed.

Lemma kept_doWritebacks wbs t (c c' : Cache) : doWritebacks wbs t c = Ok c' → kept c c'.
Proof.
  unfold doWritebacks. revert c. induction wbs as [|p wbs IH]; intros c; cbn.
  - by intros [= <-].
  - destruct (doWriteback t c p) as [c1|] eqn:Hd; [|done]. intros Hc. apply kept_doWriteback in Hd.
    etrans; [exact Hd|]. by apply IH.
Qed.

Lemma kept_access_eviction p (c c' : Cache) b : access_eviction p c = Ok (b, c') → kept c c'.
Proof.
  unfold access_eviction. intros Ha. ok_steps; known; chain.
  eapply kept_putWrite; [|done|done]. intros _. by eapply q_search_elem.
Qed.

Lemma kept_access_writeback p blk l (c c' : Cache) a :
  access_writeback rp p blk l c = Ok (a, c') → kept c c'.
Proof. unfold access_writeback. intros Ha. keep. Qed.

Lemma kept_access_writeClean p blk l (c c' : Cache) a :
  access_writeClean rp p blk l c = Ok (a, c') → kept c c'.
Proof. unfold access_writeClean. intros Ha. keep. Qed.

Lemma kept_base_access p (c c' : Cache) a : base_access rp p c = Ok (a, c') → kept c c'.
Proof.
  unfold base_access. intros Ha. do 2 (destruct (_ : bool) in Ha; [|done]).
  destruct (accessBlock _ _ _ _ _ _ _) as [[[pos lat] t]|] eqn:Hb; [|done].
  apply accessBlock_geometry in Hb.
  transitivity (set_cc_tags t c); [by apply view_kept, view_tags|].
  set (c1 := set_cc_tags t c) in *. clearbody c1.
  ok_steps; known;
    repeat match goal with
      | H : access_eviction _ _ = Ok _ |- _ => apply kept_access_eviction in H
      | H : access_writeback _ _ _ _ _ = Ok _ |- _ => apply kept_access_writeback in H
      | H : access_writeClean _ _ _ _ _ = Ok _ |- _ => apply kept_access_writeClean in H
      end; chain.
Qed.

Lemma kept_cache_access p (c c' : Cache) a : cache_access rp p c = Ok (a, c') → kept c c'.
Proof.
  unfold cache_access. intros Ha. destruct (req_isUncacheable _); [|by eapply kept_base_access].
  keep.
Qed.

(** *** Misses *)

(** Running out of targets blocks the port; the response for the MSHR unblocks it. *)
Lemma kept_noTargets i (c c' : Cache) :
  setBlocked Blocked_NoTargets (set_noTargetMSHR (Some i) c) = Ok c' → kept c c'.
Proof.
  intros Hb.
  assert (Hst : cc_params c' = cc_params c ∧ cc_tags c' = cc_tags c ∧ mshrQueue c' = mshrQueue c ∧
                writeBuffer c' = writeBuffer c ∧ noTargetMSHR c' = Some i).
  { unfold setBlocked, port_setBlocked in Hb. by ok_steps. }
  destruct Hst as (Hp & Ht & Hms & Hwb & Hn). split; [|by rewrite Hms].
  constructor; [done|by rewrite Ht|]. intros [Hmq Hw Hr [P1 P2 P3]].
  destruct (setBlocked_inv Blocked_NoTargets (q_isFull (mshrQueue c)) (q_isFull (writeBuffer c))
    (has (noTargetMSHR c)) (set_noTargetMSHR (Some i) c) c'
    (or_intror (or_intror eq_refl)) (Build_port_inv _ _ _ (view (set_noTargetMSHR (Some i) c)) P1 P2 P3) Hb)
    as (Hpi & _).
  constructor; cbn in *; rewrite ?Hms, ?Hwb, ?Hn; try done.
  cbn. by rewrite !orb_false_r, orb_true_r in Hpi.
Qed.

Lemma kept_clearNoTargets i (c c' : Cache) :
  noTargetMSHR c = Some i → clearBlocked Blocked_NoTargets c = Ok c' →
  kept c (set_noTargetMSHR None c').
Proof.
  intros Hn Hb. pose proof (clearBlocked_frame _ _ _ Hb) as (Hp & Ht & Hms & Hwb).
  split; [|cbn; by rewrite Hms]. constructor; [done|cbn; by rewrite Ht|].
  intros [Hmq Hw Hr Hpi]. cbn in Hpi. rewrite Hn in Hpi. cbn in Hpi.
  destruct (clearBlocked_inv Blocked_NoTargets _ _ _ c c'
    (or_intror (or_intror (conj eq_refl eq_refl))) Hpi Hb) as ([P1 P2 P3] & _).
  constructor; cbn in *; rewrite ?Hms, ?Hwb; try done.
  rewrite !andb_true_r in P1, P2. by constructor.
Qed.

Lemma good_base_miss op mshr blk t (c c' : Cache) :
  (∀ i, mshr = Some i → i ∈ allocatedList (mshrQueue c)) →
  base_handleTimingReqMiss op mshr blk t c = Ok c' → good c c'.
Proof.
  unfold base_handleTimingReqMiss. intros Hi Hb. destruct (miss_unrestricted op); [|done].
  destruct mshr as [i|]; [|ok_steps; known; chain].
  destruct op as [p|]; [|keep]. specialize (Hi i eq_refl).
  ok_steps; known; chain;
    match goal with
    | H : allocateTarget _ _ _ _ _ _ = _ |- _ => apply allocateTarget_inService in H
    end;
    repeat match goal with
      | H : setBlocked _ _ = _ |- _ => apply kept_noTargets in H
      end; chain; try (apply kept_good; eapply kept_putMSHR; [by intros _|done|done]).
  all: by eapply kept_putMSHR.
Qed.

Lemma good_cache_miss p blk t t' (c c' : Cache) op :
  cache_handleTimingReqMiss p blk t t' c = Ok (op, c') → good c c'.
Proof.
  unfold cache_handleTimingReqMiss. intros Hm. destruct (req_isUncacheable _); [keep|].
  destruct (if MemCmd.isSWPrefetch _ then _ else _) as [[pf c1]|] eqn:Hpf; [|done].
  destruct (base_handleTimingReqMiss _ _ _ _ _) as [c2|] eqn:Hb; [|done]. injection Hm as _ <-.
  assert (Hc1 : kept c c1 ∧ mshrQueue c1 = mshrQueue c) by (ok_steps; split; try done; chain).
  destruct Hc1 as [Hk Hq]. etrans; [by apply kept_good|].
  eapply good_base_miss; [|done]. intros i Hi. rewrite Hq. by eapply q_search_elem.
Qed.

Lemma good_recvTimingReq_miss p blk t t' (c c' : Cache) :
  recvTimingReq_miss p blk t t' c = Ok c' → good c c'.
Proof.
  unfold recvTimingReq_miss. intros Hm.
  destruct (cache_handleTimingReqMiss _ _ _ _ _) as [[op c1]|] eqn:Hb; [|done].
  apply good_cache_miss in Hb. keep.
Qed.

Lemma good_base_recvTimingReq p (c c' : Cache) p' :
  base_recvTimingReq rp p c = Ok (p', c') → good c c'.
Proof.
  unfold base_recvTimingReq. intros Hr. ok_steps; known;
    repeat match goal with
      | H : cache_access _ _ _ = Ok _ |- _ => apply kept_cache_access in H
      | H : doWritebacks _ _ _ = Ok _ |- _ => apply kept_doWritebacks in H
      | H : recvTimingReq_miss _ _ _ _ _ = Ok _ |- _ => apply good_recvTimingReq_miss in H
      end; chain.
Qed.

Lemma good_cache_recvTimingReq p (c c' : Cache) p' :
  cache_recvTimingReq rp p c = Ok (p', c') → good c c'.
Proof.
  unfold cache_recvTimingReq. intros Hr. destruct (cacheResponding _); [keep|].
  by eapply good_base_recvTimingReq.
Qed.

Lemma good_tryTiming p (c c' : Cache) b : tryTiming p c = (b, c') → good c c'.
Proof.
  unfold tryTiming. destruct (_ || _); [by intros [= <- <-]|].
  destruct (port_blocked c || mustSendRetry c) eqn:Hb; intros [= <- <-].
  - constructor; [done|done|]. intros [Hm Hw Hr [P1 P2 P3]]. constructor; try done.
    constructor; try done. cbn in *. rewrite P3.
    apply orb_true_iff in Hb as [Hb|Hb]; rewrite Hb; [by rewrite !andb_false_r|done].
  - apply orb_false_iff in Hb as [_ Hb]. apply kept_good, view_kept. unfold view. cbn. by rewrite Hb.
Qed.

Lemma good_port p (c c' : Cache) ok p' :
  port_recvTimingReq rp p c = Ok (ok, p', c') → good c c'.
Proof.
  unfold port_recvTimingReq. intros Hr. ok_steps; known; chain;
    repeat match goal with
      | H : tryTiming _ _ = _ |- _ => apply good_tryTiming in H
      | H : cache_recvTimingReq _ _ _ = Ok _ |- _ => apply good_cache_recvTimingReq in H
      end; chain.
Qed.

(** ** Sending *)

Lemma good_getNext (c c' : Cache) e : getNextQueueEntry c = Ok (e, c') → good c c'.
Proof. unfold getNextQueueEntry, tryPrefetch. intros Hg. keep. Qed.

Lemma good_base_send i (c c' : Cache) b :
  base_sendMSHRQueuePacket i c = Ok (b, c') → good c c'.
Proof.
  unfold base_sendMSHRQueuePacket. intros Hs.
  destruct (q_get (mshrQueue c) i) as [m|] eqn:Hm; [|done].
  destruct (tl_front (ms_targets m)) as [t|] eqn:Ht; [|done].
  destruct (cc_findBlock _ _ _) as [blk|]; [|done]. destruct (getBlkOpt _ _) as [ob|]; [|done].
  destruct (createMissPacket _ _ _ _) as [op|]; [|done]. cbv zeta in Hs.
  match type of Hs with (match ?o with _ => _ end) = _ => destruct o as [p|]; [|done] end.
  match type of Hs with (match ?o with _ => _ end) = _ => destruct o as [p1|]; [|done] end.
  destruct (ce_sendTimingReq p1 (cc_env c)) as [[[accepted marked] p2] e].
  match type of Hs with context[q_put _ i ?x] => set (m2 := x) in * end.
  assert (Hm2 : inService m2 = inService m ∧ ms_targets m2 = ms_targets m)
    by (subst m2; by destruct marked).
  clearbody m2. destruct Hm2 as [Hs2 Ht2].
  set (c1 := set_cc_env e _) in *.
  assert (Hk : kept c c1).
  { transitivity (set_mshrQueue (q_put (mshrQueue c) i m2) c); [|by apply view_kept].
    eapply kept_putMSHR; [|done|done]. intros Hinv. by eapply mq_target_allocated; [apply Hinv|..]. }
  assert (Hm1 : q_get (mshrQueue c1) i = Ok m2).
  { unfold q_get. cbn. by rewrite list_lookup_insert_eq by (by eapply lookup_lt_Some, q_get_lookup). }
  clearbody c1. etrans; [by apply kept_good|]. destruct (negb accepted); [by ok_steps|].
  destruct (markInServiceMSHR _ _ _) as [c2|] eqn:Hmk; [|done].
  eapply good_markInServiceMSHR in Hmk; [|done|by rewrite Ht2]. etrans; [exact Hmk|].
  ok_steps; known;
    repeat match goal with
      | H : doWritebacks _ _ _ = Ok _ |- _ => apply kept_doWritebacks in H
      end; chain.
Qed.

(** Fewer or as many entries: either the queue is unblocked, or full as before. *)
Lemma full_step {T} (q q' : Queue T) :
  q_numEntries q' = q_numEntries q → q_numReserve q' = q_numReserve q →
  q_allocated q' <= q_allocated q → q_isFull q && negb (q_isFull q') = false →
  q_isFull q' = q_isFull q.
Proof.
  intros H1 H2 H3 Hf. destruct (q_isFull q) eqn:Hq; cbn in Hf; [by apply negb_false_iff in Hf|].
  destruct (q_isFull q') eqn:Hq'; [|done]. by rewrite (isFull_mono q' q) in Hq.
Qed.

(** The MSHR queue lost an entry, and the port was unblocked if that matters. *)
Lemma good_smaller q (c c' : Cache) :
  (cache_inv (view c) → mq_ok q ∧ q_allocated q <= q_allocated (mshrQueue c) ∧
     q_numEntries q = q_numEntries (mshrQueue c) ∧ q_numReserve q = q_numReserve (mshrQueue c)) →
  (if q_isFull (mshrQueue c) && negb (q_isFull q)
   then clearBlocked Blocked_NoMSHRs (set_mshrQueue q c) else Ok (set_mshrQueue q c)) = Ok c' →
  good c c'.
Proof.
  intros Hq Ha. set (c1 := set_mshrQueue q c) in *.
  assert (Hst : cc_params c' = cc_params c ∧ cc_tags c' = cc_tags c ∧ mshrQueue c' = q).
  { destruct (_ && _); [|by injection Ha as <-]. by apply clearBlocked_frame in Ha as (? & ? & ? & _). }
  destruct Hst as (Hp & Ht & Hms). constructor; [done|by rewrite Ht|].
  intros Hinv. specialize (Hq Hinv) as (Hm & Hal & Hn & Hr). destruct Hinv as [_ Hw [Hr1 Hr2] [P1 P2 P3]].
  cbn in P1, P2, P3.
  destruct (q_isFull (mshrQueue c) && negb (q_isFull q)) eqn:Hb.
  - apply andb_true_iff in Hb as [Hf1 Hf2%negb_true_iff]. rewrite Hf1 in P1, P2.
    destruct (clearBlocked_inv Blocked_NoMSHRs true _ _ c1 c' (or_introl (conj eq_refl eq_refl))
      (Build_port_inv _ _ _ (view c1) P1 P2 P3) Ha) as ([Q1 Q2 Q3] & _ & _ & E1 & E2 & E3).
    rewrite !andb_true_r in Q1, Q2. cbn in Q1, Q2, Q3.
    constructor; cbn; rewrite ?E1, ?E2, ?E3; cbn; try done; [by rewrite Hr|].
    rewrite Hf2. by constructor.
  - injection Ha as <-. apply full_step in Hb; [|done..].
    constructor; cbn; try done; [by rewrite Hr|]. rewrite Hb. by constructor.
Qed.

Lemma forceDeallocate_ok now i q b q' m t :
  mq_ok q → q_get q i = Ok m → tl_front (ms_targets m) = Ok t →
  forceDeallocateTarget now i q = Ok (b, q') →
  (mq_ok q' ∧ q_allocated q' <= q_allocated q ∧
   q_numEntries q' = q_numEntries q ∧ q_numReserve q' = q_numReserve q).
Proof.
  intros Hq Hm Ht Hf. assert (Hi : i ∈ allocatedList q) by (by eapply mq_target_allocated).
  unfold forceDeallocateTarget in Hf. rewrite Hm in Hf.
  destruct (tl_targets (ms_targets m)) as [|t1 ts]; [done|].
  set (m1 := ms_upd _ m) in *.
  destruct (if hasTargets m1 then _ else _) as [[keep m2]|] eqn:Hk; [|done].
  assert (inService m2 = inService m ∧ (keep = false → tl_targets (ms_deferred m2) = [])) as [Hs Hd].
  { destruct (hasTargets m1); [by ok_steps|].
    apply promoteDeferred_inService in Hk as [Hs Hk]. split; [by rewrite Hs|].
    intros ->. destruct (Hk eq_refl) as (-> & _ & ?). done. }
  assert (Hput : mq_ok (q_put q i m2)) by (eapply q_put_ok; [done|done|by apply q_get_lookup|done]).
  clear Hk. destruct keep.
  - injection Hf as _ <-. split; [done|]. cbn. lia.
  - destruct (mq_deallocate i (q_put q i m2)) as [q2|] eqn:Hdl; [|done]. injection Hf as _ <-.
    eapply mq_deallocate_ok in Hdl as (? & Hal & Hn & Hr); [|done| |done|by apply Hd].
    + cbn in *. split; [done|]. lia.
    + unfold q_get. cbn. by rewrite list_lookup_insert_eq by (by eapply lookup_lt_Some, q_get_lookup).
Qed.

Lemma forceDeallocate_freed now i q b q' :
  forceDeallocateTarget now i q = Ok (b, q') → b = q_isFull q && negb (q_isFull q').
Proof. unfold forceDeallocateTarget. intros Hf. by ok_steps. Qed.

Lemma good_cache_send i (c c' : Cache) b :
  cache_sendMSHRQueuePacket i c = Ok (b, c') → good c c'.
Proof.
  unfold cache_sendMSHRQueuePacket. intros Hs.
  destruct (q_get (mshrQueue c) i) as [m|] eqn:Hm; [|done].
  destruct (tl_front (ms_targets m)) as [t|] eqn:Ht; [|done].
  destruct (_ && forwardSnoops _); [|by eapply good_base_send].
  destruct (cc_findBlock _ _ _) as [blk|]; [|done]. destruct (bool_decide _); [|done].
  destruct (copyPacket _ _ _) as [s|]; [|done]. destruct (ce_sendTimingSnoopReq _ _) as [s' e].
  transitivity (set_cc_env e c); [by apply kept_good, view_kept|].
  set (c1 := set_cc_env e c) in *. assert (Hm1 : q_get (mshrQueue c1) i = Ok m) by exact Hm.
  clearbody c1. destruct (cacheResponding s').
  - destruct (bool_decide _); [|done]. ok_steps.
    transitivity (set_outstandingSnoop (i :: outstandingSnoop c1) c1); [by apply kept_good, view_kept|].
    by eapply good_markInServiceMSHR.
  - destruct (isBlockCached s'); [|by eapply good_base_send].
    destruct (forceDeallocateTarget _ _ _) as [[freed q]|] eqn:Hf; [|done].
    pose proof (forceDeallocate_freed _ _ _ _ _ Hf) as ->.
    destruct (if _ && _ then _ else _) as [c2|] eqn:Hc; [|done]. injection Hs as _ <-.
    eapply good_smaller; [|exact Hc]. intros Hinv.
    by eapply forceDeallocate_ok; [apply Hinv|..].
Qed.

Lemma good_sendWrite i (c c' : Cache) b : sendWriteQueuePacket i c = Ok (b, c') → good c c'.
Proof. unfold sendWriteQueuePacket. intros Hs. keep. Qed.

Lemma good_sendDeferred (c c' : Cache) : sendDeferredPacket c = Ok c' → good c c'.
Proof.
  unfold sendDeferredPacket. intros Hs. ok_steps; known;
    repeat match goal with
      | H : getNextQueueEntry _ = Ok _ |- _ => apply good_getNext in H
      | H : cache_sendMSHRQueuePacket _ _ = Ok _ |- _ => apply good_cache_send in H
      | H : sendWriteQueuePacket _ _ = Ok _ |- _ => apply good_sendWrite in H
      end; chain.
Qed.

(** ** Snoops *)

Lemma kept_handleSnoop p blk d g (c c' : Cache) t p' :
  cc_handleSnoop rp p blk d g c = Ok (t, p', c') → kept c c'.
Proof.
  unfold cc_handleSnoop. intros Hs. destruct (_ : bool) in Hs; [|done].
  destruct (pk_isRequest p); [|done]. destruct (pk_needsWritable p) as [nw|]; [|done].
  destruct (_ && req_isUncacheable _); [done|].
  destruct (snoopAbove p c) as [[[sd p1] c1]|] eqn:Ha; [|done].
  apply view_snoopAbove, view_kept in Ha. etrans; [exact Ha|]. clear Ha.
  destruct (getBlkOpt c1 blk) as [ob|]; [|done].
  destruct (_ && _); [by ok_steps|].
  match type of Hs with (match ?o with _ => _ end) = _ =>
    destruct o as [[[respond p2] c2]|] eqn:E1; [|done] end.
  assert (kept c1 c2) as Hk1.
  { ok_steps; known;
      repeat match goal with H : doWritebacks _ _ _ = Ok _ |- _ => apply kept_doWritebacks in H end;
      chain. }
  etrans; [exact Hk1|]. clear E1 Hk1. destruct (pk_mustCheckAbove p2); [by ok_steps|].
  match type of Hs with (match ?o with _ => _ end) = _ =>
    destruct o as [[p3 c3]|] eqn:E2; [|done] end.
  assert (kept c2 c3) as Hk2 by keep. etrans; [exact Hk2|]. clear E2 Hk2.
  match type of Hs with (match ?o with _ => _ end) = _ =>
    destruct o as [[p4 c4]|] eqn:E3; [|done] end.
  assert (kept c3 c4) as Hk3 by keep. etrans; [exact Hk3|]. clear E3 Hk3. keep.
Qed.

Lemma kept_snoopWriteBuffer p i (c c' : Cache) b p' :
  i ∈ allocatedList (writeBuffer c) →
  snoopWriteBuffer p i c = Ok (b, p', c') → kept c c'.
Proof.
  unfold snoopWriteBuffer. intros Hi Hs.
  destruct (q_get (writeBuffer c) i) as [e|] eqn:He; [|done].
  do 2 (destruct (_ : bool) in Hs; [|done]). destruct (we_getTarget e) as [t|]; [|done].
  destruct (_ : bool) in Hs; [|done]. destruct (pk_isEviction p); [by ok_steps|].
  match type of Hs with (match ?o with _ => _ end) = _ => destruct o as [nw|]; [|done] end.
  destruct (negb nw); [|done].
  match type of Hs with context[set_writeBuffer (q_put _ i ?e1) c] =>
    transitivity (set_writeBuffer (q_put (writeBuffer c) i e1) c);
      [by eapply kept_putWrite|]; set (c1 := set_writeBuffer (q_put (writeBuffer c) i e1) c) in * end.
  clearbody c1. keep.
Qed.

Lemma good_recvTimingSnoopReq p (c c' : Cache) p' :
  cc_recvTimingSnoopReq rp p c = Ok (p', c') → good c c'.
Proof.
  unfold cc_recvTimingSnoopReq. intros Hs. destruct (negb _); [by ok_steps|].
  destruct (cc_findBlock _ _ _) as [blk|]; [|done]. cbv zeta in Hs.
  destruct (_ && pk_mustCheckAbove _); [by ok_steps|].
  destruct (_ && satisfied _); [by ok_steps|].
  match type of Hs with (match ?o with _ => _ end) = _ =>
    destruct o as [[[deferred p1] c1]|] eqn:E1; [|done] end.
  assert (good c c1 ∧ writeBuffer c1 = writeBuffer c) as [Hk1 Hw1].
  { clear Hs. destruct (findMatch _ _ _) as [i|] eqn:Hi; [|by ok_steps].
    apply q_search_elem in Hi. ok_steps. split; [|done].
    match goal with H : ms_handleSnoop _ _ _ _ _ = _ |- _ => apply ms_handleSnoop_inService in H end.
    chain.
    apply kept_good. by eapply kept_putMSHR. }
  etrans; [exact Hk1|]. destruct deferred; [by ok_steps|].
  match type of Hs with (match ?o with _ => _ end) = _ =>
    destruct o as [[[done' p2] c2]|] eqn:E2; [|done] end.
  assert (kept c1 c2) as Hk2.
  { clear Hs. destruct (findMatch (writeBuffer c1) _ _) as [i|] eqn:Hi; [|by ok_steps].
    eapply kept_snoopWriteBuffer; [|exact E2]. by eapply q_search_elem. }
  etrans; [by apply kept_good|]. destruct done'; [by ok_steps|].
  destruct (cc_handleSnoop _ _ _ _ _ _) as [[[sd p3] c3]|] eqn:E3; [|done].
  apply kept_handleSnoop in E3. injection Hs as _ <-. by apply kept_good.
Qed.

(** ** Responses

    The loop of [serviceMSHRTargets] works on an MSHR that stays allocated. *)

Lemma kept_modMSHR i f (c c' : Cache) :
  i ∈ allocatedList (mshrQueue c) → (∀ m m', f m = Ok m' → inService m' = inService m) →
  modMSHR i f c = Ok c' → kept c c'.
Proof.
  unfold modMSHR. intros Hi Hf Hm. destruct (q_get (mshrQueue c) i) as [m|] eqn:Hg; [|done].
  destruct (f m) as [m'|] eqn:Hfm; [|done]. injection Hm as <-.
  eapply kept_putMSHR; eauto.
Qed.

Lemma kept_elem i (c c' : Cache) :
  kept c c' → i ∈ allocatedList (mshrQueue c) → i ∈ allocatedList (mshrQueue c').
Proof. by intros [_ ->]. Qed.

Lemma kept_serviceFromCPU i p o alloc t sv (c c' : Cache) sv' :
  i ∈ allocatedList (mshrQueue c) →
  serviceFromCPU rp i p o alloc t sv c = Ok (sv', c') → kept c c'.
Proof.
  unfold serviceFromCPU. intros Hi Hs. destruct (MemCmd.isSWPrefetch _); [by ok_steps|].
  match type of Hs with (match ?o with _ => _ end) = _ =>
    destruct o as [[sv1 c1]|] eqn:E1; [|done] end.
  assert (kept c c1) as Hk1.
  { clear Hs. destruct (decide _); [|by ok_steps]. ok_steps. known. chain.
    eapply kept_modMSHR; [done|apply promoteWritable_inService|done]. }
  etrans; [exact Hk1|]. clear E1 Hk1 Hi c.
  destruct (q_get (mshrQueue c1) i) as [m|]; [|done].
  destruct (getBlkOpt c1 (sv_blk sv1)) as [ob|]; [|done].
  match type of Hs with (match ?o with _ => _ end) = _ =>
    destruct o as [[[p2 when2] c2]|] eqn:E2; [|done] end.
  assert (kept c1 c2) as Hk2 by (clear Hs; keep).
  etrans; [exact Hk2|]. clear E2 Hk2 c1.
  match type of Hs with (match ?o with _ => _ end) = _ =>
    destruct o as [[[p3 when3] c3]|] eqn:E3; [|done] end.
  assert (kept c2 c3) as Hk3 by (clear Hs; keep).
  etrans; [exact Hk3|]. clear E3 Hk3 c2. keep.
Qed.

Lemma kept_serviceTarget i p o alloc t sv (c c' : Cache) sv' :
  i ∈ allocatedList (mshrQueue c) →
  serviceTarget rp i p o alloc (sv, c) t = Ok (sv', c') → kept c c'.
Proof.
  unfold serviceTarget. intros Hi Hs. destruct (tgt_source t).
  - by eapply kept_serviceFromCPU.
  - ok_steps; repeat match goal with
      | H : cc_handleSnoop _ _ _ _ _ _ = Ok _ |- _ => apply kept_handleSnoop in H
      end; chain.
  - keep.
Qed.

Lemma kept_serviceTargets i p o alloc ts sv (c c' : Cache) sv' :
  i ∈ allocatedList (mshrQueue c) →
  foldM (serviceTarget rp i p o alloc) ts (sv, c) = Ok (sv', c') → kept c c'.
Proof.
  revert sv c. induction ts as [|t ts IH]; intros sv c Hi; cbn [foldM].
  - by intros [= _ <-].
  - destruct (serviceTarget rp i p o alloc (sv, c) t) as [[sv1 c1]|] eqn:Hs; [|done].
    intros Hf. pose proof (kept_serviceTarget _ _ _ _ _ _ _ _ _ Hi Hs) as Hk. clear Hs.
    etrans; [exact Hk|]. eapply IH; [|exact Hf]. by eapply kept_elem.
Qed.

Lemma kept_serviceMSHRTargets i p blk (c c' : Cache) wbs :
  i ∈ allocatedList (mshrQueue c) →
  serviceMSHRTargets rp i p blk c = Ok (wbs, c') → kept c c'.
Proof.
  unfold serviceMSHRTargets. intros Hi Hs.
  destruct (q_get (mshrQueue c) i) as [m|] eqn:Hm; [|done].
  destruct (tl_front (ms_targets m)) as [t|]; [|done].
  destruct (extractServiceableTargets p m) as [[ts m1]|] eqn:Hx; [|done].
  apply extract_inService in Hx.
  match type of Hs with context[foldM _ _ (_, ?x)] => set (c1 := x) in * end.
  assert (kept c c1) as Hk by (by eapply kept_putMSHR).
  assert (Hi1 : i ∈ allocatedList (mshrQueue c1)) by (by eapply kept_elem).
  clearbody c1. etrans; [exact Hk|]. clear Hk Hi.
  destruct (foldM _ _ _) as [[sv c2]|] eqn:Hf; [|done].
  pose proof (kept_serviceTargets _ _ _ _ _ _ _ _ _ Hi1 Hf) as Hk.
  etrans; [exact Hk|]. clear Hk Hf Hi1. keep.
Qed.

Lemma kept_promoteDeferred i m b m' (c : Cache) :
  i ∈ allocatedList (mshrQueue c) → q_get (mshrQueue c) i = Ok m →
  promoteDeferredTargets (cc_now c) m = Ok (b, m') →
  kept c (set_mshrQueue (q_put (mshrQueue c) i m') c).
Proof.
  intros Hi Hm [Hs _]%promoteDeferred_inService. by eapply kept_putMSHR.
Qed.

Lemma good_retireMSHR i p blk (c c' : Cache) :
  i ∈ allocatedList (mshrQueue c) → retireMSHR i p blk c = Ok c' → good c c'.
Proof.
  unfold retireMSHR. intros Hi Hr. destruct (q_get (mshrQueue c) i) as [m|] eqn:Hm; [|done].
  destruct (promoteDeferredTargets _ _) as [[again m1]|] eqn:Hp; [|done].
  pose proof (kept_promoteDeferred _ _ _ _ _ Hi Hm Hp) as Hk.
  apply promoteDeferred_inService in Hp as [Hs Hp].
  set (c1 := set_mshrQueue _ c) in *.
  assert (Hi1 : i ∈ allocatedList (mshrQueue c1)) by (by eapply kept_elem).
  assert (Hm1 : q_get (mshrQueue c1) i = Ok m1).
  { unfold q_get. cbn. by rewrite list_lookup_insert_eq by (by eapply lookup_lt_Some, q_get_lookup). }
  clearbody c1. etrans; [by apply kept_good|]. clear Hk Hi. destruct again.
  - match type of Hr with (match ?o with _ => _ end) = _ => destruct o as [c2|] eqn:E2; [|done] end.
    assert (kept c1 c2) as Hk2 by (clear Hr; keep).
    etrans; [by apply kept_good|]. apply (kept_elem i) in Hk2; [|done].
    destruct (mq_markPending i (mshrQueue c2)) as [q|] eqn:Hq; [|done]. injection Hr as <-.
    transitivity (set_mshrQueue q c2); [|by apply kept_good, view_kept].
    eapply good_smaller; [intros Hinv|].
    + eapply mq_markPending_ok in Hq as (? & ? & ? & ?); [|apply Hinv|done].
      split; [done|]. lia.
    + apply full_markPending in Hq. by rewrite Hq, andb_negb_r.
  - destruct (mq_deallocate i (mshrQueue c1)) as [q|] eqn:Hq; [|done].
    match type of Hr with (match ?o with _ => _ end) = _ => destruct o as [c2|] eqn:E2; [|done] end.
    transitivity c2.
    + eapply (good_smaller q).
      * intros Hinv. destruct (Hp eq_refl) as (-> & _ & Hd).
        eapply mq_deallocate_ok in Hq as (? & ? & ? & ?); [|apply Hinv|done..].
        split; [done|]. lia.
      * destruct (_ && _); [|done]. by destruct (negb _).
    + clear E2. ok_steps; chain.
Qed.

Lemma good_recvTimingResp i p (c c' : Cache) :
  cache_inv (view c) → dc_recvTimingResp rp i p c = Ok c' → good c c'.
Proof.
  unfold dc_recvTimingResp. intros Hinv Hr. destruct (pk_isResponse p); [|done].
  destruct (_ && negb _); [done|]. cbv zeta in Hr. destruct (pk_isWrite p).
  { destruct (req_isUncacheable _); [|done]. injection Hr as <-. by apply kept_good, view_kept. }
  match type of Hr with (match ?o with _ => _ end) = _ => destruct o as [c1|] eqn:E1; [|done] end.
  assert (kept c c1) as Hk1.
  { clear Hr. destruct (bool_decide _) eqn:Hn; [|by injection E1 as <-].
    apply bool_decide_eq_true in Hn. destruct (negb _); [|done].
    destruct (clearBlocked _ _) as [c0|] eqn:Hc; [|done]. injection E1 as <-.
    by eapply kept_clearNoTargets. }
  etrans; [by apply kept_good|]. apply (gd_inv _ _ (kept_good _ _ Hk1)) in Hinv. clear E1 Hk1 c.
  destruct (q_get (mshrQueue c1) i) as [m|] eqn:Hm; [|done].
  destruct (tl_front (ms_targets m)) as [t|] eqn:Ht; [|done].
  assert (Hi : i ∈ allocatedList (mshrQueue c1)) by (by eapply mq_target_allocated; [apply Hinv|..]).
  clear Hm Hinv Ht.
  destruct (cc_findBlock _ _ _) as [blk|]; [|done].
  match type of Hr with (match ?o with _ => _ end) = _ =>
    destruct o as [[[blk2 wbs2] c2]|] eqn:E2; [|done] end.
  assert (kept c1 c2) as Hk2 by (clear Hr; keep).
  etrans; [by apply kept_good|]. apply (kept_elem i) in Hk2; [|done]. clear E2 Hi c1.
  destruct (getBlkOpt c2 blk2) as [ob|]; [|done].
  match type of Hr with (match ?o with _ => _ end) = _ => destruct o as [c3|] eqn:E3; [|done] end.
  assert (kept c2 c3) as Hk3.
  { clear Hr. ok_steps; chain. known. chain.
    apply kept_modMSHR in E3; [chain|by eapply kept_elem|apply promoteReadable_inService]. }
  etrans; [by apply kept_good|]. apply (kept_elem i) in Hk3; [|done]. clear E3 Hk2 c2 ob.
  destruct (getBlkOpt c3 blk2) as [ob|]; [|done].
  match type of Hr with (match ?o with _ => _ end) = _ => destruct o as [c4|] eqn:E4; [|done] end.
  assert (kept c3 c4) as Hk4.
  { clear Hr. destruct (_ && _); [|by injection E4 as <-].
    by eapply kept_modMSHR; [..|apply promoteWritable_inService|]. }
  etrans; [by apply kept_good|]. apply (kept_elem i) in Hk4; [|done]. clear E4 Hk3 c3 ob.
  destruct (serviceMSHRTargets _ _ _ _ _) as [[wbs5 c5]|] eqn:E5; [|done].
  pose proof (kept_serviceMSHRTargets _ _ _ _ _ _ Hk4 E5) as Hk5.
  etrans; [by apply kept_good|]. apply (kept_elem i) in Hk5; [|done]. clear E5 Hk4 c4.
  destruct (retireMSHR _ _ _ _) as [c6|] eqn:E6; [|done].
  apply good_retireMSHR in E6; [|done]. etrans; [exact E6|]. clear Hk5 E6 c5.
  match type of Hr with (match ?o with _ => _ end) = _ =>
    destruct o as [[wbs7 c7]|] eqn:E7; [|done] end.
  assert (kept c6 c7) as Hk7 by (clear Hr; keep).
  etrans; [by apply kept_good|]. apply kept_good. by eapply kept_doWritebacks.
Qed.

Lemma good_recvTimingSnoopResp i p (c c' : Cache) :
  cache_inv (view c) → recvTimingSnoopResp rp i p c = Ok c' → good c c'.
Proof.
  unfold recvTimingSnoopResp. intros Hinv Hr. destruct i as [i|]; [|ok_steps; chain].
  destruct (bool_decide _); [|ok_steps; chain]. destruct (bool_decide _); [|done].
  transitivity (set_outstandingSnoop (erase i (outstandingSnoop c)) c); [by apply kept_good, view_kept|].
  by eapply good_recvTimingResp.
Qed.

Lemma good_sendRetry (c : Cache) :
  has (sendRetryEvent c) = true → good c (processSendRetry c).
Proof.
  intros He. constructor; [done|done|]. intros [Hm Hw Hr [P1 P2 P3]].
  by constructor.
Qed.

(** The cache below clears a flag of an MSHR it was given. *)
Lemma good_clearPending i (c c' : Cache) :
  cache_inv (view c) → cc_clearDownstreamPending i c = Ok c' → good c c'.
Proof.
  unfold cc_clearDownstreamPending, modMSHR. intros [Hmq Hw Hr [P1 P2 P3]] Hc.
  destruct (q_get (mshrQueue c) i) as [m|] eqn:Hm; [|done].
  destruct (clearDownstreamPending m) as [m'|] eqn:Hm'; [|done]. injection Hc as <-.
  apply q_get_lookup in Hm. constructor; [done|done|]. intros _.
  assert (inService m' = inService m ∧ (ms_vacant (qe_data m) → ms_vacant (qe_data m'))) as [Hs Hv].
  { unfold clearDownstreamPending in Hm'. by ok_steps. }
  constructor; [by eapply q_put_keep_ok|exact Hw|exact Hr|by constructor].
Qed.

(** ** Every event *)

Lemma good_dcHandle ev (c c' : Cache) ok p :
  cache_inv (view c) → dcHandle rp ev c = Ok (ok, p, c') → good c c'.
Proof.
  intros Hinv Hd. destruct ev; cbn in Hd; ok_steps;
    try (by apply kept_good, view_kept).
  - by eapply good_port.
  - by eapply good_recvTimingResp.
  - by eapply good_recvTimingSnoopResp.
  - by eapply good_recvTimingSnoopReq.
  - by eapply good_sendDeferred.
  - unfold memSideRetry in *. ok_steps.
    transitivity (set_waitingOnRetry false c); [by apply kept_good, view_kept|].
    by eapply good_sendDeferred.
  - apply good_sendRetry. by rewrite Heqo0.
  - by eapply good_clearPending.
Qed.

Lemma good_dcStep ev (c c' : Cache) a :
  cache_inv (view c) → dcStep rp ev c = Ok (a, c') → good c c'.
Proof.
  unfold dcStep. intros Hinv Hd. destruct (dcHandle rp ev c) as [[[ok p] c1]|] eqn:Hh; [|done].
  apply good_dcHandle in Hh; [|done]. injection Hd as _ <-. etrans; [exact Hh|].
  by apply kept_good, view_kept.
Qed.

Lemma good_dcRun evs (c c' : Cache) l :
  cache_inv (view c) → dcRun rp evs c = Ok (l, c') → good c c'.
Proof.
  revert c l. induction evs as [|ev evs IH]; intros c l Hinv; cbn [dcRun].
  - by intros [= _ <-].
  - destruct (dcStep rp ev c) as [[a c1]|] eqn:Hs; [|done].
    apply good_dcStep in Hs; [|done].
    destruct (dcRun rp evs c1) as [[l1 c2]|] eqn:Hr; [|done]. intros [= _ <-].
    etrans; [exact Hs|]. eapply IH; [by apply Hs|exact Hr].
Qed.

Lemma newCache_inv params mshrs wbs n t (e : E) :
  0 < mshrs → 0 < wbs → cache_inv (view (newCache rp params mshrs wbs n t e)).
Proof.
  intros Hm Hw. constructor; cbn.
  - apply newQueue_ok; [lia|done].
  - apply newQueue_ok; [lia|done].
  - lia.
  - unfold q_isFull. cbn. replace (mshrs + 0 - 0 <=? 0) with false by lia.
    replace (wbs + mshrs - mshrs <=? 0) with false by lia. by constructor.
Qed.
End cache_ok.

(** An open port has room: an MSHR, and a write buffer beyond the reserve. *)
Lemma room {T} (vac : T → Prop) (q : Queue T) :
  queue_ok vac q → q_isFull q = false →
  q_numReserve q < Z.of_nat (length (freeList q)).
Proof.
  intros Hq Hf%Z.leb_gt. pose proof (Permutation_length (qo_perm _ _ Hq)) as Hl.
  rewrite length_app, length_seq in Hl. rewrite (qo_num _ _ Hq), (qo_count _ _ Hq) in Hf. lia.
Qed.

(** C35: Whatever happens to the data cache after its construction (requests, responses, snoops, retries, its own events), its miss queue and write buffer stay well formed, its port is blocked exactly if the miss queue is full, the write buffer is full or the cache has an MSHR on record for having run out of targets (its noTargetMSHR is not null; nothing is claimed about the number of targets of that or any other MSHR, and one that passes its limit by a deferred snoop need not be on record), a request it refused has a retry scheduled as soon as the port is open, and an open port always has a free MSHR and a free write buffer beyond the reserve for evictions. *)
Theorem cache_bookkeeping {G D E} `{CacheEnv E} (rp : ReplacementPolicy G D) params
    (mshrs write_buffers max_miss_count : Z) (t : BaseSetAssoc G D) (e : E) evs l c :
  0 < mshrs → 0 < write_buffers →
  dcRun rp evs (newCache rp params mshrs write_buffers max_miss_count t e) = Ok (l, c) →
  mq_ok (mshrQueue c) ∧ wq_ok (writeBuffer c) ∧
  cc_blocked c = causes (q_isFull (mshrQueue c)) (q_isFull (writeBuffer c)) (has (noTargetMSHR c)) ∧
  port_blocked c = (q_isFull (mshrQueue c) || q_isFull (writeBuffer c) || has (noTargetMSHR c)) ∧
  has (sendRetryEvent c) = mustSendRetry c && negb (port_blocked c) ∧
  (port_blocked c = false →
   0 < Z.of_nat (length (freeList (mshrQueue c))) ∧
   q_numReserve (writeBuffer c) < Z.of_nat (length (freeList (writeBuffer c)))).
Proof.
  intros Hm Hw Hr.
  pose proof (good_dcRun rp _ _ _ _ (newCache_inv rp params _ _ max_miss_count t e Hm Hw) Hr) as Hg.
  destruct (gd_inv _ _ Hg (newCache_inv rp params _ _ max_miss_count t e Hm Hw))
    as [Hmq Hwq [Hr1 Hr2] [P1 P2 P3]]. cbn in *.
  do 5 (split; [done|]). intros Hp. rewrite Hp in P2. symmetry in P2.
  apply orb_false_iff in P2 as [[Hf1 Hf2]%orb_false_iff _].
  pose proof (room _ _ Hmq Hf1). pose proof (room _ _ Hwq Hf2). lia.
Qed.

(** With one MSHR a miss blocks the port, a second read is refused, and the fill of
    the first schedules the retry. *)
Lemma cache_bookkeeping_witness :
  ∃ l1 c1 l2 c2,
    dcRun Tiny.rp [EReq (Tiny.read 4 0); EReq (Tiny.read 32 0)] (Tiny.cache 1) = Ok (l1, c1) ∧
    dcRun Tiny.rp [EReq (Tiny.read 4 0); EReq (Tiny.read 32 0); ETick 10; ESend; EResp 0 (Tiny.fill 4 7)]
      (Tiny.cache 1) = Ok (l2, c2) ∧
    port_blocked c1 = true ∧ has (sendRetryEvent c1) = false ∧
    port_blocked c2 = false ∧ has (sendRetryEvent c2) = true ∧ mq_ok (mshrQueue c2).
Proof.
  do 4 eexists. do 2 (split; [vm_compute; reflexivity|]). do 4 (split; [reflexivity|]).
  eapply (cache_bookkeeping Tiny.rp Tiny.params 1 2 100 Tiny.tags tt
    [EReq (Tiny.read 4 0); EReq (Tiny.read 32 0); ETick 10; ESend; EResp 0 (Tiny.fill 4 7)]);
    [lia|lia|vm_compute; reflexivity].
Defined.
