(* ===== verification/CacheNonint.v ===== *)
(** * What restricted reads leave in the data cache

    The theorems about DOLMA's additions to the cache, for the cache as a machine: a
    restricted read at an open port leaves the cache as it was and may be deleted
    from any run; the metadata update that makes up for one leaves what an ordinary
    hit would have left; and the cache is an instance of the core's [MemSystem]. *)

From S2P Require Import Prelude Regs Config DynInst Metadata StoreSet DirPredOk.
From S2P Require Import Packet ReplPolicy CacheTags CacheQueue Cache CacheMem CacheRun.
From S2P Require Import CacheQueueOk CacheFrame CacheOk CacheSilent.
Import BlkStatus.

Local Open Scope Z_scope.

(** ** Restricted reads among the events *)

(** [core_read], executable. *)
Definition isCoreRead (blkSize : Z) (p : Pkt) : bool :=
  bool_decide (pk_cmd p = MemCmd.ReadReq) && (pk_flags p =? 0) && has (pk_data p) &&
  (getOffset blkSize p + pk_size p <=? blkSize) && negb (req_isUncacheable (pk_req p)) &&
  negb (req_isCacheMaintenance (pk_req p)).

Lemma isCoreRead_ok blkSize p : isCoreRead blkSize p = true → core_read blkSize p.
Proof.
  unfold isCoreRead. intros [[[[[H1 H2]%andb_true_iff H3]%andb_true_iff H4]%andb_true_iff
    H5]%andb_true_iff H6]%andb_true_iff.
  apply bool_decide_eq_true in H1. apply Z.eqb_eq in H2. apply Z.leb_le in H4.
  apply negb_true_iff in H5, H6. constructor; try done.
  destruct (pk_data p) as [d|]; [by exists d|done].
Qed.

Definition isRestrictedRead {E} (blkSize : Z) (ev : @DcEvent E) : bool :=
  match ev with
  | EReq p => isCoreRead blkSize p && req_isRestricted (pk_req p) && negb (metadataUpdate (pk_req p))
  | _ => false
  end.

(** A run without them, and its answers. *)
Fixpoint withoutRestricted {E} (blkSize : Z) (evs : list (@DcEvent E)) : list (@DcEvent E) :=
  match evs with
  | [] => []
  | ev :: evs =>
      if isRestrictedRead blkSize ev then withoutRestricted blkSize evs
      else ev :: withoutRestricted blkSize evs
  end.
Fixpoint otherAnswers {E} (blkSize : Z) (evs : list (@DcEvent E)) (l : list Answer) : list Answer :=
  match evs, l with
  | ev :: evs, a :: l =>
      if isRestrictedRead blkSize ev then otherAnswers blkSize evs l
      else a :: otherAnswers blkSize evs l
  | _, _ => []
  end.

Section nonint.
Context {G D E : Type} `{CacheEnv E} (rp : ReplacementPolicy G D).
Abbreviation Cache := (Cache G D E).
Abbreviation blkSize c := (cp_blkSize (cc_params c)).

(** The port takes requests. *)
Definition port_open (c : Cache) : bool :=
  negb (ce_bypassCaches (cc_env c)) && negb (port_blocked c || mustSendRetry c).

(** Nothing waits to be handed over: so after every step. *)
Definition drained (c : Cache) : Prop :=
  responses c = [] ∧ snoopResponses c = [] ∧ sendEvents c = [].

Lemma dcStep_drained ev (c c' : Cache) a : dcStep rp ev c = Ok (a, c') → drained c'.
Proof. unfold dcStep. intros Hd. ok_steps. done. Qed.

Lemma handOver_same ok p (c : Cache) : drained c → handOver ok p c = (mkAnswer ok p [] [] [], c).
Proof. intros (H1 & H2 & H3). unfold handOver. rewrite H1, H2, H3. destruct c. cbn in *. by subst. Qed.

Lemma handOver_response ok p q t (c : Cache) :
  drained c → handOver ok p (schedTimingResp q t c) = (mkAnswer ok p [(q, t)] [] [], c).
Proof.
  intros (H1 & H2 & H3). unfold handOver. cbn. rewrite H1, H2, H3. destruct c. cbn in *. by subst.
Qed.

(** The request path of the cache: its tags have a set for every address, and it has
    no prefetcher. *)
Definition core_cache (c : Cache) : Prop := tags_shaped (cc_tags c) ∧ prefetcher (cc_params c) = false.

Lemma geometry_shaped (t t' : BaseSetAssoc G D) :
  geometry t' = geometry t → tags_shaped t → tags_shaped t'.
Proof.
  unfold geometry, tags_shaped, extractSet. intros [= Hl -> -> _] Hs addr.
  specialize (Hs addr). rewrite lookup_lt_is_Some in *. by rewrite Hl.
Qed.

Lemma good_core (c c' : Cache) : good c c' → core_cache c → core_cache c'.
Proof.
  intros [Hp Hg _] [Hs Hpf]. split; [by eapply geometry_shaped|by rewrite Hp].
Qed.

(** *** One restricted read *)

(** The answer: the data of a hit, or that the read is not to be restricted. *)
Definition restrictedAnswer (p : Pkt) (c : Cache) (a : Answer) : Prop :=
  an_snoopResponses a = [] ∧ an_sendEvents a = [] ∧
  match readHit c p with
  | Some b => an_accepted a = true ∧ an_responses a = [(hitResponse c p b, hitTime c p b)]
  | None => an_accepted a = false ∧ an_responses a = [] ∧
            an_pkt a = Some (set_pk_req (req_clearUnsafe (pk_req p)) p)
  end.

Lemma restricted_step p (c : Cache) :
  core_cache c → drained c → port_open c = true → isRestrictedRead (blkSize c) (@EReq E p) = true →
  ∃ a, dcStep rp (EReq p) c = Ok (a, c) ∧ restrictedAnswer p c a.
Proof.
  intros [Hs Hpf] Hd [Hby%negb_true_iff Hop%negb_true_iff]%andb_true_iff
    [[Hcr%isCoreRead_ok Hr]%andb_true_iff Hmd%negb_true_iff]%andb_true_iff.
  destruct (port_restricted rp p c (conj Hs (conj Hby Hpf)) Hcr Hmd Hr) as (ok & p' & c' & Hp & Ha).
  unfold dcStep, dcHandle. rewrite Hp. destruct Ha as [Hb|b p' _ Hh Hreq|_ Hh]; [congruence| |].
  - rewrite handOver_response by done. eexists. split; [reflexivity|].
    unfold restrictedAnswer. by rewrite Hh.
  - rewrite handOver_same by done. eexists. split; [reflexivity|].
    unfold restrictedAnswer. by rewrite Hh.
Qed.

Lemma closed_port p (c : Cache) :
  ce_bypassCaches (cc_env c) = false → isRestrictedRead (blkSize c) (@EReq E p) = true →
  port_blocked c || mustSendRetry c = true →
  port_recvTimingReq rp p c = Ok (false, p, set_mustSendRetry true c).
Proof.
  intros Hby [[[Hcmd Hfl _ _ _ _]%isCoreRead_ok _]%andb_true_iff _]%andb_true_iff Hb.
  pose proof (read_req p Hcmd) as [].
  unfold port_recvTimingReq, tryTiming. rewrite rd_request, Hby.
  unfold isExpressSnoop. rewrite flags_zero by done. cbn [orb]. by rewrite Hb.
Qed.

Lemma dcRun_length evs (c c' : Cache) l : dcRun rp evs c = Ok (l, c') → length l = length evs.
Proof.
  revert c l. induction evs as [|ev evs IH]; intros c l; cbn [dcRun]; [by intros [= <- _]|].
  destruct (dcStep rp ev c) as [[a c1]|]; [|done].
  destruct (dcRun rp evs c1) as [[l1 c2]|] eqn:Hr; [|done]. intros [= <- <-].
  cbn. by rewrite (IH _ _ Hr).
Qed.

(** *** Whole runs *)

(** The port is open whenever a restricted read arrives. *)
Fixpoint openAtRestricted (evs : list DcEvent) (c : Cache) : bool :=
  match evs with
  | [] => true
  | ev :: evs =>
      implb (isRestrictedRead (blkSize c) ev) (port_open c) &&
      match dcStep rp ev c with Ok (_, c) => openAtRestricted evs c | Err _ => true end
  end.

Lemma run_without bs evs (c : Cache) :
  cp_blkSize (cc_params c) = bs → cache_inv (view c) → core_cache c → drained c →
  openAtRestricted evs c = true →
  dcRun rp (withoutRestricted bs evs) c
  = (let! (l, c) := dcRun rp evs c in Ok (otherAnswers bs evs l, c)).
Proof.
  revert c. induction evs as [|ev evs IH]; intros c <- Hinv Hc Hd Ho; [done|].
  cbn [withoutRestricted dcRun openAtRestricted] in *. apply andb_true_iff in Ho as [Ho1 Ho2].
  destruct (isRestrictedRead (blkSize c) ev) eqn:Hr.
  - destruct ev as [p| | | | | | | | |]; try done.
    destruct (restricted_step p c Hc Hd Ho1 Hr) as (a & Hs & _). rewrite Hs in *.
    rewrite IH by done. destruct (dcRun rp evs c) as [[l c1]|]; [|done].
    cbn [otherAnswers]. by rewrite Hr.
  - cbn [dcRun]. destruct (dcStep rp ev c) as [[a c1]|] eqn:Hs; [|done].
    pose proof (good_dcStep rp _ _ _ _ Hinv Hs) as Hg.
    rewrite (IH c1);
      [|by rewrite (gd_params _ _ Hg)|by apply Hg|by eapply good_core|by eapply dcStep_drained|done].
    destruct (dcRun rp evs c1) as [[l c2]|]; [|done]. cbn [otherAnswers]. by rewrite Hr.
Qed.

(** ** Metadata updates *)

(** What an access of the block does to the tags, no more. *)
Definition touched (c : Cache) (p : Pkt) : Cache :=
  set_cc_tags match resident c p with
              | Some (pos, b) => blkPut (cc_tags c) pos (touchBlk rp (cc_now c) b)
              | None => cc_tags c
              end c.

Lemma port_open_path p (c : Cache) :
  port_open c = true → core_read (blkSize c) p →
  port_recvTimingReq rp p c
  = (let! (p', c') := base_recvTimingReq rp p c in
     Ok (negb (req_isRestricted (pk_req p) && negb (req_isRestricted (pk_req p'))) &&
         negb (metadataUpdate (pk_req p')), p', c')).
Proof.
  intros [Hby%negb_true_iff Hop%negb_true_iff]%andb_true_iff [Hcmd Hfl _ _ _ _].
  pose proof (read_req p Hcmd) as [].
  unfold port_recvTimingReq. rewrite rd_request, Hby. unfold tryTiming.
  rewrite Hby. unfold isExpressSnoop. rewrite flags_zero by done. cbn [orb]. rewrite Hop.
  assert (set_mustSendRetry false c = c) as ->.
  { apply orb_false_iff in Hop as [_ Hm]. destruct c. cbn in *. by subst. }
  unfold cache_recvTimingReq. rewrite read_not_line by done.
  unfold cacheResponding. by rewrite flags_zero.
Qed.

Lemma update_port p (c : Cache) :
  core_cache c → port_open c = true → core_read (blkSize c) p →
  metadataUpdate (pk_req p) = true → req_isRestricted (pk_req p) = false →
  port_recvTimingReq rp p c = Ok (false, p, touched c p).
Proof.
  intros [Hs Hpf] Hop Hcr Hmd Hr. pose proof Hcr as [Hcmd _ _ _ Hunc _].
  pose proof (read_req p Hcmd) as [].
  rewrite port_open_path by done.
  unfold base_recvTimingReq. rewrite Hr. cbn [negb orb andb].
  unfold cache_access. rewrite Hunc. unfold base_access.
  rewrite rd_request, rd_write, andb_false_r, accessBlock_resident, Hr by done. cbn [negb].
  unfold touched.
  destruct (resident c p) as [[pos b]|]; do 2 (rewrite Hmd; cbn [ac_pkt]); by rewrite Hmd.
Qed.

Lemma update_step p (c : Cache) :
  core_cache c → drained c → port_open c = true → core_read (blkSize c) p →
  metadataUpdate (pk_req p) = true → req_isRestricted (pk_req p) = false →
  dcStep rp (EReq p) c = Ok (mkAnswer false (Some p) [] [] [], touched c p).
Proof.
  intros Hc Hd Hop Hcr Hmd Hr. unfold dcStep, dcHandle.
  by rewrite update_port, handOver_same by done.
Qed.

Lemma plain_hit_step p b (c : Cache) :
  core_cache c → drained c → port_open c = true → core_read (blkSize c) p →
  metadataUpdate (pk_req p) = false → req_isRestricted (pk_req p) = false → readHit c p = Some b →
  ∃ a, dcStep rp (EReq p) c = Ok (a, touched c p) ∧ an_accepted a = true ∧
       an_responses a = [(hitResponse c p b, hitTime c p b)].
Proof.
  intros [Hs Hpf] Hd Hop Hcr Hmd Hr Hh. pose proof Hcr as [Hcmd _ _ _ Hunc _].
  pose proof (read_req p Hcmd) as [].
  unfold dcStep, dcHandle. rewrite port_open_path by done.
  unfold base_recvTimingReq. rewrite Hr. cbn [negb orb andb].
  rewrite access_read, Hh, Hr by done. cbn [ac_pkt ac_satisfied negb andb].
  cbn [pk_req set_pk_data]. rewrite Hmd. cbn [ac_writebacks doWritebacks foldM ac_lat ac_blk].
  unfold touched. unfold readHit in Hh.
  destruct (resident_cases c p Hs) as [(pos & b' & _ & Hb & Hres & _)|[_ Hres]];
    rewrite Hres in Hh |- *; [|done].
  destruct (isReadable b') eqn:Hread; [|done]. injection Hh as ->.
  cbn [fmap option_fmap option_map compose fst].
  change (pk_headerDelay (set_pk_data _ p)) with (pk_headerDelay p).
  set (c1 := set_cc_tags _ c).
  assert (Hb1 : getBlk c1 (InTags pos) = Ok (touchBlk rp (cc_now c) b))
    by (cbn; by eapply blkAt_put).
  change (readBytes c p b) with (readBytes c1 p (touchBlk rp (cc_now c) b)).
  rewrite (hit_answered p (InTags pos) c1 _ _ Hcr Hpf Hb1).
  cbn [pk_req set_pk_payloadDelay set_pk_headerDelay set_pk_data]. rewrite Hmd.
  rewrite handOver_response by exact Hd. eexists. split; [reflexivity|done].
Qed.

(** The packet of the same access with another request. *)
Lemma core_read_req r bs p :
  core_read bs p → req_isUncacheable r = false → req_isCacheMaintenance r = false →
  core_read bs (set_pk_req r p).
Proof. intros [] ??. by constructor. Qed.
End nonint.

(** A cache as its constructor makes it. *)
Lemma newTags_shaped {G D} (rp : ReplacementPolicy G D) size bs assoc tl dl sq g t :
  newTags rp size bs assoc tl dl sq g = Ok t → tags_shaped t.
Proof.
  unfold newTags. intros Hn addr. destruct (_ || _); [done|]. destruct (_ || _); [done|].
  destruct (negb (isPowerOf2 _)) eqn:Hp; [done|]. destruct (_ <=? 0); [done|].
  injection Hn as <-. unfold extractSet. cbn. apply lookup_lt_is_Some. rewrite length_replicate.
  apply negb_false_iff in Hp.
  set (n := size / (bs * assoc)) in *.
  assert (0 < n) as Hp1.
  { unfold isPowerOf2 in Hp. apply andb_true_iff in Hp as [Hn%negb_true_iff%Z.eqb_neq Hl%Z.eqb_eq].
    destruct (Z.lt_total n 0) as [Hneg|[?|?]]; [|done..].
    assert (Z.land n (n - 1) < 0) by (apply Z.land_neg; lia). lia. }
  pose proof (isPowerOf2_log2 n Hp1 Hp) as Hp2. symmetry in Hp2.
  assert (n - 1 = Z.ones (Z.log2 n)) as -> by (rewrite Z.ones_equiv; lia).
  rewrite Z.land_ones by apply Z.log2_nonneg. rewrite Hp2.
  pose proof (Z.mod_pos_bound (Z.shiftr addr (Z.log2 bs)) n Hp1). lia.
Qed.

Lemma newCache_core {G D E} `{CacheEnv E} (rp : ReplacementPolicy G D) params size bs assoc tl dl sq g t
    mshrs wbs n (e : E) :
  newTags rp size bs assoc tl dl sq g = Ok t → prefetcher params = false →
  core_cache (newCache rp params mshrs wbs n t e) ∧ drained (newCache rp params mshrs wbs n t e).
Proof. intros Ht Hpf. split; [|done]. split; [by eapply newTags_shaped|done]. Qed.

(** ** The cache as the core's memory system

    The core sees the port through [MemSystem]: a read packet for a request, its
    answer, and the request afterwards.  An error of the cache stays one; [T] is the
    data TLB. *)

(** The packet [LSQUnit::read] and [dolmaLoad] make for a request. *)
Definition coreRead (ctx mid tid : Z) (r : Request) : outcome Pkt :=
  let! p := newPacket r ctx mid tid (makeReadCmd r) in
  dataStatic (replicate (Z.to_nat (req_size r)) 0) p.

Lemma coreRead_req ctx mid tid r p : coreRead ctx mid tid r = Ok p → pk_req p = r.
Proof.
  unfold coreRead, newPacket. destruct (req_paddr r) as [a|]; [|done]. by intros [= <-].
Qed.

Section core.
Context {G D E T : Type} `{CacheEnv E} (rp : ReplacementPolicy G D).
Context (tlb_update : Request → bool → ThreadID → T → T) (ctx mid tid : Z).

Definition sendRead (r : Request) (o : outcome (Cache G D E)) : bool * Request * outcome (Cache G D E) :=
  match o with
  | Err e => (false, r, Err e)
  | Ok c =>
      match (let! p := coreRead ctx mid tid r in port_recvTimingReq rp p c) with
      | Ok (ok, p, c) => (ok, pk_req p, Ok c)
      | Err e => (false, r, Err e)
      end
  end.

#[export] Instance cache_mem : MemSystem (T * outcome (Cache G D E)) := {|
  dtb_updateLRU r w t m := (tlb_update r w t m.1, m.2);
  dcache_sendTimingReq r m :=
    let '(ok, r, o) := sendRead r m.2 in (ok, r, (m.1, o));
|}.

(** The cache keeps the request of a packet, but for clearing the restriction. *)
Lemma recvTimingReq_update p (c c' : Cache G D E) p' :
  metadataUpdate (pk_req p) = true → cache_recvTimingReq rp p c = Ok (p', c') →
  metadataUpdate (pk_req p') = true.
Proof.
  intros Hmd. unfold cache_recvTimingReq.
  assert (metadataUpdate (pk_req (promoteWholeLineWrites c p)) = true) as Hmd1
    by (unfold promoteWholeLineWrites; by destruct (_ && _)).
  generalize (promoteWholeLineWrites c p), Hmd1. clear p Hmd Hmd1. intros p Hmd.
  destruct (cacheResponding p); [intros Hr; by ok_steps|].
  unfold base_recvTimingReq. destruct (_ || _); [|done]. destruct (_ || _); [|done].
  destruct (cache_access rp p c) as [[a c1]|] eqn:Ha; [|done].
  assert (pk_req (ac_pkt a) = pk_req p) as Hq.
  { unfold cache_access in Ha. destruct (req_isUncacheable _); [by ok_steps|].
    unfold base_access in Ha. rewrite Hmd in Ha. by ok_steps. }
  cbn zeta. rewrite Hq, Hmd. intros Hr. ok_steps; by rewrite Hq.
Qed.

Lemma port_refuses p (c c' : Cache G D E) ok p' :
  ce_bypassCaches (cc_env c) = false → metadataUpdate (pk_req p) = true →
  port_recvTimingReq rp p c = Ok (ok, p', c') → ok = false.
Proof.
  intros Hby Hmd. unfold port_recvTimingReq. destruct (pk_isRequest p); [|done]. rewrite Hby.
  destruct (tryTiming p c) as [[] c1]; [|naive_solver].
  destruct (cache_recvTimingReq rp p c1) as [[p1 c2]|] eqn:Hr; [|done].
  apply recvTimingReq_update in Hr; [|done]. intros [= <- _ _].
  by rewrite Hr, andb_false_r.
Qed.

(** What the core relies on of its port. *)
#[export] Instance cache_mem_ok : (∀ e : E, ce_bypassCaches e = false) →
  MemSystemOk (T * outcome (Cache G D E)).
Proof.
  intros Hby. constructor. intros r [t o] Hmd. cbn. unfold sendRead.
  destruct o as [c|]; [|done].
  destruct (coreRead ctx mid tid r) as [p|] eqn:Hp; [|done].
  apply coreRead_req in Hp.
  destruct (port_recvTimingReq rp p c) as [[[ok p'] c']|] eqn:Hs; [|done].
  apply port_refuses in Hs as ->; [done|done|]. by rewrite Hp.
Qed.

Lemma coreRead_core r blk a :
  req_isLLSC r = false → req_isPrefetch r = false → req_isUncacheable r = false →
  req_isCacheMaintenance r = false → req_paddr r = Some a →
  Z.land a (blk - 1) + req_size r <= blk →
  ∃ p, coreRead ctx mid tid r = Ok p ∧ core_read blk p ∧ pk_req p = r.
Proof.
  intros Hl Hf Hu Hm Ha Hin. unfold coreRead, newPacket, makeReadCmd. rewrite Hl, Hf, Ha.
  eexists. split; [reflexivity|]. split; [|done]. by constructor.
Qed.

(** Restricting a request changes no other flag, and undoing it gives it back. *)
Lemma setUnsafe_flag r f :
  Z.land ReqFlag.RESTRICTED f = 0 → flags_isSet (req_flags (req_setUnsafe r)) f = flags_isSet (req_flags r) f.
Proof.
  intros Hf. unfold flags_isSet. cbn. unfold flags_set.
  by rewrite Z.land_lor_distr_l, Hf, Z.lor_0_r.
Qed.

Lemma unsafe_isRestricted r : req_isRestricted (req_setUnsafe r) = true.
Proof.
  unfold req_isRestricted, flags_isSet. cbn. unfold flags_set.
  rewrite Z.land_lor_distr_l, Z.land_diag. apply negb_true_iff, Z.eqb_neq.
  intros [_ Hz]%Z.lor_eq_0_iff. done.
Qed.

Lemma asMetadataUpdate_setUnsafe r :
  req_isRestricted r = false → asMetadataUpdate (req_setUnsafe r) = req_setMetadataUpdate r.
Proof.
  intros Hr%negb_false_iff%Z.eqb_eq. destruct r as [va size flags pa md].
  unfold asMetadataUpdate, req_setMetadataUpdate. cbn in *. f_equal.
  unfold flags_clear, flags_set. apply Z.bits_inj'. intros n Hn.
  apply (f_equal (λ z, Z.testbit z n)) in Hr. rewrite Z.land_spec, Z.bits_0 in Hr.
  rewrite Z.ldiff_spec, Z.lor_spec. by destruct (Z.testbit flags n), (Z.testbit _ n).
Qed.

Lemma coreRead_setUnsafe r p :
  coreRead ctx mid tid r = Ok p →
  coreRead ctx mid tid (req_setUnsafe r) = Ok (set_pk_req (req_setUnsafe r) p).
Proof.
  unfold coreRead, newPacket, makeReadCmd, req_isLLSC, req_isPrefetch, req_isSecure.
  rewrite !setUnsafe_flag by done. cbn [req_paddr req_setUnsafe req_set_flags req_size].
  destruct (req_paddr r) as [a|]; [|done]. by intros [= <-].
Qed.

Lemma coreRead_update r p :
  coreRead ctx mid tid r = Ok p →
  coreRead ctx mid tid (req_setMetadataUpdate r) = Ok (set_pk_req (req_setMetadataUpdate r) p).
Proof.
  unfold coreRead, newPacket, makeReadCmd. cbn [req_paddr req_setMetadataUpdate req_size].
  destruct (req_paddr r) as [a|]; [|done]. by intros [= <-].
Qed.

(** The replay of a load that was not split. *)
Lemma dolmaLoad_cache i r p (c : Cache G D E) t :
  dolmaPhysicalReq i = Some (req_setUnsafe r) → dolmaPhysicalSreqLow i = None →
  validationData i = None → req_isRestricted r = false →
  coreRead ctx mid tid r = Ok p → core_read (cp_blkSize (cc_params c)) p →
  core_cache c → port_open c = true →
  ∃ i', dolmaLoad i (t, Ok c) = Ok (i', (t, Ok (touched rp c p))).
Proof.
  intros Hi Hlo Hv Hr Hp Hcr Hc Ho. unfold dolmaLoad. rewrite Hi, bool_decide_true by done.
  cbn [dolmaPhysicalSreqLow set_validationData]. rewrite Hlo.
  rewrite asMetadataUpdate_setUnsafe by done.
  unfold dcache_sendTimingReq, cache_mem, sendRead. rewrite (coreRead_update r p) by done.
  cbn [snd fst]. rewrite update_port; [by eexists|done|done| |done|done].
  apply coreRead_req in Hp. destruct Hcr as [H1 H2 H3 H4 H5 H6]. rewrite Hp in H5, H6. by constructor.
Qed.
End core.

(** ** The theorems *)

(** C9: A restricted read that reaches an open data cache port is answered with the line's bytes if the line is readable, and otherwise turned back with its restriction cleared; either way the whole cache (tags, replacement data, queues, port, pending events) is exactly as before. At a port that takes no requests it is refused, and then it does leave a mark: the port remembers that it owes a retry. *)
Theorem restricted_read_invisible {G D E} `{CacheEnv E} (rp : ReplacementPolicy G D) p (c : Cache G D E) :
  core_cache c → drained c → ce_bypassCaches (cc_env c) = false →
  isRestrictedRead (cp_blkSize (cc_params c)) (@EReq E p) = true →
  ∃ a c', dcStep rp (EReq p) c = Ok (a, c') ∧
    if port_open c then c' = c ∧ restrictedAnswer p c a
    else c' = set_mustSendRetry true c ∧ a = mkAnswer false (Some p) [] [] [].
Proof.
  intros Hc Hd Hby Hr. destruct (port_open c) eqn:Ho.
  - destruct (restricted_step rp p c Hc Hd Ho Hr) as (a & Hs & Ha). by exists a, c.
  - unfold port_open in Ho. rewrite Hby in Ho. cbn in Ho. apply negb_false_iff in Ho.
    exists (mkAnswer false (Some p) [] [] []), (set_mustSendRetry true c).
    split; [|done]. unfold dcStep, dcHandle. by rewrite closed_port, handOver_same.
Qed.

(** C7: From any run of a newly built data cache, restricted reads may be deleted: if the port is open whenever one arrives, the run without them gives every other request, response and snoop the same answer and ends in the same cache. *)
Theorem restricted_reads_deletable {G D E} `{CacheEnv E} (rp : ReplacementPolicy G D) params
    (size assoc tag_latency data_latency mshrs write_buffers max_miss_count : Z) sq g t (e : E) evs :
  newTags rp size (cp_blkSize params) assoc tag_latency data_latency sq g = Ok t →
  prefetcher params = false → 0 < mshrs → 0 < write_buffers →
  let c := newCache rp params mshrs write_buffers max_miss_count t e in
  openAtRestricted rp evs c = true →
  dcRun rp (withoutRestricted (cp_blkSize params) evs) c
  = (let! (l, c') := dcRun rp evs c in Ok (otherAnswers (cp_blkSize params) evs l, c')).
Proof.
  intros Ht Hpf Hm Hw c Ho.
  destruct (newCache_core rp params _ _ _ _ _ _ _ t mshrs write_buffers max_miss_count e Ht Hpf).
  apply run_without; try done. by apply newCache_inv.
Qed.

(** C11: A deferred hit costs nothing, when its update gets through. Take the core's data cache without a prefetcher, with its port open and nothing of an earlier event left to hand over, and an ordinary cacheable load within one line, which the cache holds readable: not split over two lines (no low half is recorded), and without validation data recorded, which the code asserts when the update is sent. If the load is made restricted and the metadata update of its retirement is sent in the same tick, with no other event between the two, then the cache hands the core the same bytes at the same tick and is left in the same state as by the unrestricted load. At a blocked port, which is excluded here, the update is lost. *)
Theorem deferred_load_equals_hit {G D E T} `{CacheEnv E} (rp : ReplacementPolicy G D)
    (tlb_update : Request → bool → ThreadID → T → T) ctx mid tid i r p (c : Cache G D E) t b :
  core_cache c → drained c → port_open c = true →
  coreRead ctx mid tid r = Ok p → core_read (cp_blkSize (cc_params c)) p →
  req_isRestricted r = false → metadataUpdate r = false → readHit c p = Some b →
  dolmaPhysicalReq i = Some (req_setUnsafe r) → dolmaPhysicalSreqLow i = None →
  validationData i = None →
  let _ := cache_mem rp tlb_update ctx mid tid in
  ∃ q a1 i' c' a2,
    coreRead ctx mid tid (req_setUnsafe r) = Ok q ∧
    dcStep rp (EReq q) c = Ok (a1, c) ∧ dolmaLoad i (t, Ok c) = Ok (i', (t, Ok c')) ∧
    dcStep rp (EReq p) c = Ok (a2, c') ∧
    an_accepted a1 = true ∧ an_accepted a2 = true ∧
    map (λ '(x, k), (pk_data x, k)) (an_responses a1)
    = map (λ '(x, k), (pk_data x, k)) (an_responses a2).
Proof.
  intros Hc Hd Ho Hp Hcr Hr Hmd Hh Hi Hlo Hv Hmem. pose proof (coreRead_req _ _ _ _ _ Hp) as Hreq.
  destruct (plain_hit_step rp p b c) as (a2 & Hs2 & Ha2 & Hl2); try done; [by rewrite Hreq..|].
  destruct (dolmaLoad_cache rp tlb_update ctx mid tid i r p c t) as [i' Hl]; try done.
  set (q := set_pk_req (req_setUnsafe r) p).
  assert (Hq : core_read (cp_blkSize (cc_params c)) q).
  { destruct Hcr as [H1 H2 H3 H4 H5 H6]. rewrite Hreq in H5, H6. constructor; try done; cbn;
      [unfold req_isUncacheable|unfold req_isCacheMaintenance]; by rewrite setUnsafe_flag. }
  destruct Hc as [Hs Hpf]. pose proof Ho as [Hby%negb_true_iff Hop%negb_true_iff]%andb_true_iff.
  destruct (port_restricted rp q c (conj Hs (conj Hby Hpf)) Hq Hmd (unsafe_isRestricted r))
    as (ok & p' & c' & Hport & Ha).
  assert (readHit c q = Some b) as Hhq by exact Hh.
  exists q. destruct Ha as [Hb|b' p' _ Hh' _|_ Hh']; [congruence| |congruence].
  assert (b' = b) as -> by congruence.
  eexists _, i', _, a2. split; [by apply coreRead_setUnsafe|].
  unfold dcStep at 1, dcHandle. rewrite Hport, handOver_response by done.
  split; [reflexivity|]. split; [exact Hl|]. split; [exact Hs2|]. split; [done|]. split; [done|].
  by rewrite Hl2.
Qed.

(** ** On the small cache *)

Definition tiny_loaded : Cache unit Tick unit := Eval vm_compute in
  match dcRun Tiny.rp (Tiny.load 0 4 7 ++ [ETick 300]) (Tiny.cache 1) with
  | Ok (_, c) => c
  | Err _ => Tiny.cache 1
  end.

Lemma tiny_loaded_core : core_cache tiny_loaded ∧ drained tiny_loaded.
Proof.
  assert (∃ l, dcRun Tiny.rp (Tiny.load 0 4 7 ++ [ETick 300]) (Tiny.cache 1) = Ok (l, tiny_loaded))
    as [l Hr] by (eexists; vm_compute; reflexivity).
  pose proof (newCache_core Tiny.rp Tiny.params 64 16 2 1 2 false tt Tiny.tags 1 2 100 tt
    eq_refl eq_refl) as [Hc _].
  pose proof (good_dcRun Tiny.rp _ _ _ _ (newCache_inv Tiny.rp Tiny.params 1 2 100 Tiny.tags tt
    eq_refl eq_refl) Hr) as Hg. split; [exact (good_core _ _ Hg Hc)|repeat split].
Qed.

Lemma tiny_open : port_open tiny_loaded = true.
Proof. reflexivity. Qed.

(** The load brought its line; reads of it hit. *)
Lemma tiny_hit :
  ∃ b, readHit tiny_loaded (Tiny.restricted 8) = Some b ∧ readHit tiny_loaded (Tiny.read 8 0) = Some b ∧
       pk_data (hitResponse tiny_loaded (Tiny.restricted 8) b) = Some [7; 7; 7; 7].
Proof. eexists. vm_compute. done. Qed.

Lemma restricted_read_invisible_witness :
  ∃ a, dcStep Tiny.rp (EReq (Tiny.restricted 8)) tiny_loaded = Ok (a, tiny_loaded) ∧
       an_accepted a = true ∧ map (λ '(x, _), pk_data x) (an_responses a) = [Some [7; 7; 7; 7]].
Proof.
  destruct tiny_loaded_core as [Hc Hd]. destruct tiny_hit as (b & Hb & _ & Hd7).
  destruct (restricted_read_invisible (H := Tiny.unit_env) Tiny.rp (Tiny.restricted 8) tiny_loaded Hc Hd
    eq_refl eq_refl) as (a & c' & Hs & Ho).
  rewrite tiny_open in Ho. destruct Ho as [-> (_ & _ & Ha)]. rewrite Hb in Ha.
  destruct Ha as [Ha Hl]. exists a. split; [exact Hs|]. split; [exact Ha|].
  rewrite Hl. cbn [map]. by rewrite Hd7.
Defined.

(** Restricted reads before, between and after ordinary ones. *)
Definition tiny_events : list (@DcEvent unit) :=
  [EReq (Tiny.restricted 0)] ++ Tiny.load 0 4 7 ++
  [ETick 300; EReq (Tiny.restricted 8); EReq (Tiny.restricted 32); ETick 310; EReq (Tiny.read 0 0);
   EReq (Tiny.restricted 12)].

Lemma tiny_events_run : ∃ l c, dcRun Tiny.rp tiny_events (Tiny.cache 2) = Ok (l, c).
Proof. do 2 eexists. vm_compute. reflexivity. Qed.

Lemma run_answers {A B} (o o' : outcome (A * B)) (f : A → A) l c :
  o = (let! (l, c) := o' in Ok (f l, c)) → o' = Ok (l, c) → o = Ok (f l, c).
Proof. by intros -> ->. Qed.

Lemma restricted_reads_deletable_witness :
  ∃ l c, let bs := cp_blkSize Tiny.params in
    dcRun Tiny.rp tiny_events (Tiny.cache 2) = Ok (l, c) ∧ length l = 13%nat ∧
    withoutRestricted bs tiny_events = Tiny.load 0 4 7 ++ [ETick 300; ETick 310; EReq (Tiny.read 0 0)] ∧
    dcRun Tiny.rp (withoutRestricted bs tiny_events) (Tiny.cache 2)
    = Ok (otherAnswers bs tiny_events l, c).
Proof.
  destruct tiny_events_run as (l & c & Hr). exists l, c. split; [exact Hr|].
  split; [exact (dcRun_length _ _ _ _ _ Hr)|]. split; [reflexivity|].
  assert (openAtRestricted Tiny.rp tiny_events (Tiny.cache 2) = true) as Ho by (vm_compute; reflexivity).
  unfold Tiny.cache in *. eapply run_answers; [|exact Hr].
  exact (restricted_reads_deletable (H := Tiny.unit_env) Tiny.rp Tiny.params 64 2 1 2 2 2 100 false tt
    Tiny.tags tt tiny_events eq_refl eq_refl eq_refl eq_refl Ho).
Defined.

(** The retired load of an instruction. *)
Definition tiny_inst : DynInst :=
  set_dolmaPhysicalReq (Some (req_setUnsafe (Tiny.request 8 0)))
    (initInst (mkStaticInst 0%N 1 0 0 "") 0 1 0).

Lemma deferred_load_equals_hit_witness :
  ∃ q a1 i' c' a2,
    coreRead 0 1 0 (req_setUnsafe (Tiny.request 8 0)) = Ok q ∧
    dcStep Tiny.rp (EReq q) tiny_loaded = Ok (a1, tiny_loaded) ∧
    @dolmaLoad _ (cache_mem Tiny.rp (λ _ _ _ (t : unit), t) 0 1 0) tiny_inst (tt, Ok tiny_loaded)
    = Ok (i', (tt, Ok c')) ∧
    dcStep Tiny.rp (EReq (Tiny.read 8 0)) tiny_loaded = Ok (a2, c').
Proof.
  destruct tiny_loaded_core as [Hc Hd]. destruct tiny_hit as (b & _ & Hb & _).
  destruct (deferred_load_equals_hit (H := Tiny.unit_env) Tiny.rp (λ _ _ _ (t : unit), t) 0 1 0 tiny_inst
    (Tiny.request 8 0) (Tiny.read 8 0) tiny_loaded tt b Hc Hd
    ltac:(vm_compute; reflexivity) eq_refl
    (isCoreRead_ok 16 (Tiny.read 8 0) ltac:(vm_compute; reflexivity))
    eq_refl eq_refl Hb eq_refl eq_refl eq_refl)
    as (q & a1 & i' & c' & a2 & H1 & H2 & H3 & H4 & _).
  exists q, a1, i', c', a2. do 3 (split; [assumption|]). assumption.
Defined.
