(* ===== verification/CacheFill.v ===== *)
(** * A filled line is found

    The data path of the cache through its tags: when [handleFill] has put a line of
    memory into a block the policy gave up, a read of that line finds the block and
    takes the bytes memory sent. *)

From S2P Require Import Prelude Config Packet ReplPolicy CacheTags CacheQueue Cache CacheMem.
From S2P Require Import CacheRun CacheFrame CacheSilent.
Import BlkStatus.

Local Open Scope Z_scope.

Section fill.
Context {G D E : Type} `{CacheEnv E} (rp : ReplacementPolicy G D).
Abbreviation Cache := (Cache G D E).
Abbreviation blkSize c := (cp_blkSize (cc_params c)).
Abbreviation BaseSetAssoc := (BaseSetAssoc G D).
Implicit Types t : BaseSetAssoc.

(** ** Only one block of the set may answer *)

Definition others_differ (pos : BlkPos) (addr : Addr) (sec : bool) t : Prop :=
  ∀ s j b, cacheSets t !! extractSet t addr = Some s → s !! j = Some b →
    (extractSet t addr, j) ≠ pos → blk_matches (extractTag t addr) sec b = false.

Lemma geometry_address t t' addr :
  geometry t' = geometry t → extractSet t' addr = extractSet t addr ∧ extractTag t' addr = extractTag t addr.
Proof. unfold geometry, extractSet, extractTag. by intros [= _ -> -> ->]. Qed.

Lemma miss_differ pos addr sec t : findBlock t addr sec = Ok None → others_differ pos addr sec t.
Proof.
  unfold findBlock, others_differ. intros Hf s j b Hs Hb _. rewrite Hs in Hf.
  unfold findBlk in Hf. destruct (list_find _ s) as [[w b']|] eqn:Hl; [done|].
  apply list_find_None in Hl. rewrite Forall_lookup in Hl.
  apply not_true_is_false. by eapply Hl.
Qed.

Lemma differ_put pos addr sec t b :
  others_differ pos addr sec t → others_differ pos addr sec (blkPut t pos b).
Proof.
  unfold others_differ. intros Ho s j b' Hs Hb Hne.
  change (extractSet (blkPut t pos b) addr) with (extractSet t addr) in *.
  change (extractTag (blkPut t pos b) addr) with (extractTag t addr).
  cbn in Hs. destruct (decide (extractSet t addr = pos.1)) as [Heq|Hd].
  - rewrite Heq, list_lookup_alter_eq in Hs. destruct (cacheSets t !! pos.1) as [s0|] eqn:Hs0; [|done].
    injection Hs as <-. rewrite list_lookup_insert_ne in Hb.
    + eapply Ho; [by rewrite Heq|exact Hb|exact Hne].
    + intros <-. apply Hne. rewrite Heq. by destruct pos.
  - rewrite list_lookup_alter_ne in Hs by done. by eapply Ho.
Qed.

Lemma findVictim_differ now addr sec t t' pos :
  findVictim rp now addr t = Ok (pos, t') → findBlock t addr sec = Ok None →
  pos.1 = extractSet t addr ∧ others_differ pos addr sec t'.
Proof.
  intros Hv Hm. apply (miss_differ pos) in Hm.
  unfold findVictim in Hv. destruct (cacheSets t !! extractSet t addr) as [s|] eqn:Hs; [|done].
  destruct (rp_getVictim _ _ _ _) as [[[w ds] g]|]; [|done]. injection Hv as <- <-.
  split; [done|]. unfold others_differ in *. intros s' j b Hs' Hb Hne.
  change (extractSet (set_tg_rng g _) addr) with (extractSet t addr) in *.
  change (extractTag (set_tg_rng g _) addr) with (extractTag t addr).
  cbn in Hs'. rewrite list_lookup_insert_eq in Hs' by (by eapply lookup_lt_Some).
  injection Hs' as <-. apply lookup_zip_with_Some in Hb as (d & b0 & -> & _ & Hb0).
  exact (Hm s j b0 Hs Hb0 Hne).
Qed.

Lemma invalidateBlock_differ pos addr sec (c c' : Cache) :
  invalidateBlock rp (InTags pos) c = Ok c' →
  others_differ pos addr sec (cc_tags c) → others_differ pos addr sec (cc_tags c').
Proof.
  unfold invalidateBlock, modBlk, tg_invalidate. intros Hi Ho. ok_steps. cbn.
  by repeat apply differ_put.
Qed.

Lemma evictBlock_differ pos addr sec (c c' : Cache) p :
  evictBlock rp (InTags pos) c = Ok (p, c') →
  others_differ pos addr sec (cc_tags c) → others_differ pos addr sec (cc_tags c').
Proof.
  unfold evictBlock, writebackBlk, passOwnership. intros He Ho. ok_steps;
    (eapply invalidateBlock_differ; [eassumption|]); cbn; repeat apply differ_put; done.
Qed.

(** ** The new block *)

Lemma insertBlock_block now p pos t t' :
  insertBlock rp now p pos t = Ok t' →
  ∃ b, blkAt t' pos = Ok b ∧ blk_tag b = extractTag t (pk_addr p) ∧
       blk_status b = (if pk_isSecure p then BlkSecure else 0).
Proof.
  unfold insertBlock. intros Hi. destruct (blkAt t pos) as [b0|] eqn:Hb; [|done].
  destruct (negb _); [|done]. destruct (rp_reset _ _ _ _) as [d g]. injection Hi as <-.
  eexists. split; [by eapply (blkAt_put t)|done].
Qed.

Lemma allocateBlock_found p (c c' : Cache) pos wbs :
  allocateBlock rp p c = Ok (Some (InTags pos), wbs, c') →
  findBlock (cc_tags c) (pk_addr p) (pk_isSecure p) = Ok None →
  view c' = view c ∧ pos.1 = extractSet (cc_tags c) (pk_addr p) ∧
  others_differ pos (pk_addr p) (pk_isSecure p) (cc_tags c') ∧
  ∃ b, blkAt (cc_tags c') pos = Ok b ∧ blk_tag b = extractTag (cc_tags c) (pk_addr p) ∧
       blk_status b = (if pk_isSecure p then BlkSecure else 0).
Proof.
  intros Ha Hm. split; [by eapply view_allocateBlock|]. unfold allocateBlock in Ha.
  destruct (findVictim rp _ _ _) as [[pos' t]|] eqn:Hv; [|done].
  pose proof (findVictim_geometry _ _ _ _ _ _ Hv) as Hg.
  pose proof (findVictim_differ _ _ _ _ _ _ Hv Hm) as [Hset Ho]. clear Hv Hm.
  assert (cc_tags (set_cc_tags t c) = t) as Ht by done.
  set (c1 := set_cc_tags t c) in *. clearbody c1. rewrite <-Ht in Hg, Ho. clear Ht t.
  destruct (getBlk c1 (InTags pos')) as [b|]; [|done].
  match type of Ha with (match ?o with _ => _ end) = _ => destruct o; [by ok_steps|] end.
  match type of Ha with (match ?o with _ => _ end) = _ => destruct o as [[wbs2 c2]|] eqn:E2; [|done] end.
  destruct (insertBlock rp _ p pos' (cc_tags c2)) as [t|] eqn:Hi; [|done].
  injection Ha as <- <- <-.
  assert (geometry (cc_tags c2) = geometry (cc_tags c) ∧
          others_differ pos' (pk_addr p) (pk_isSecure p) (cc_tags c2)) as [Hg2 Ho2].
  { clear Hi. ok_steps; [|done]. split; [|by eapply evictBlock_differ].
    match goal with H : evictBlock _ _ _ = _ |- _ => apply view_evictBlock in H;
      pose proof (f_equal v_geom H) as Hge end. cbn in Hge. congruence. }
  split; [done|]. pose proof (insertBlock_block _ _ _ _ _ Hi) as (b' & Hb & Htag & Hst). split.
  - clear E2. unfold insertBlock in Hi. ok_steps. by apply (differ_put _ _ _ (cc_tags c2)).
  - exists b'. split; [exact Hb|]. split; [|exact Hst].
    by rewrite Htag, (proj2 (geometry_address _ _ (pk_addr p) Hg2)).
Qed.

(** ** The fill *)

(** The status of a block [handleFill] made: one of a few values. *)
Definition filled_status (sec : bool) (st : Z) : Prop :=
  ∃ w d : bool, st = Z.lor (Z.lor (Z.lor (if sec then BlkSecure else 0) (Z.lor BlkValid BlkReadable))
    (if w then BlkWritable else 0)) (if d then BlkDirty else 0).

Lemma filled_matches sec (b : CacheBlk D) tag :
  filled_status sec (blk_status b) → blk_tag b = tag → blk_matches tag sec b = true ∧ isReadable b = true.
Proof.
  intros (w & d & Hst) <-. unfold blk_matches, isReadable, blk_isValid, blk_isSecure, blk_any, blk_has.
  rewrite Z.eqb_refl, Hst. by destruct sec, w, d.
Qed.

(** The bytes a fill leaves in its block. *)
Lemma bytes_of_put data old off n :
  0 <= off → 0 <= n → off + n <= Z.of_nat (length data) →
  bytesAt 0 n (drop (Z.to_nat off) (bytesPut 0 data old)) = bytesAt off n data.
Proof.
  intros Ho Hn0 Hn. unfold bytesAt, bytesPut. change (Z.to_nat 0) with 0%nat.
  rewrite take_0, !drop_0. cbn [app]. rewrite drop_app_le, take_app_le; [done| |lia].
  rewrite length_drop. lia.
Qed.

Lemma handleFill_found p data pos wbs (c c' : Cache) :
  findBlock (cc_tags c) (pk_addr p) (pk_isSecure p) = Ok None →
  handleFill rp p None true c = Ok (InTags pos, wbs, c') →
  pk_isRead p = true → pk_data p = Some data → Z.of_nat (length data) = pk_size p →
  view c' = view c ∧ pk_addr p = getBlockAddr (blkSize c) p ∧ pk_size p = blkSize c ∧
  pos.1 = extractSet (cc_tags c) (pk_addr p) ∧
  others_differ pos (pk_addr p) (pk_isSecure p) (cc_tags c') ∧
  ∃ b old, blkAt (cc_tags c') pos = Ok b ∧ blk_tag b = extractTag (cc_tags c) (pk_addr p) ∧
       filled_status (pk_isSecure p) (blk_status b) ∧
       blk_data b = bytesPut (getOffset (blkSize c) p) data old.
Proof.
  intros Hm Hf Hrd Hdata Hlen. pose proof (view_handleFill rp _ _ _ _ _ _ _ Hf) as Hview.
  split; [done|]. unfold handleFill in Hf. destruct (_ || _); [|done].
  destruct (pk_addr p =? _) eqn:Ha; [|done]. apply Z.eqb_eq in Ha. split; [done|].
  destruct (bool_decide _); [|done]. destruct (pk_hasData p) eqn:Hd; [|done].
  rewrite Hrd in Hf. cbn [orb] in Hf.
  destruct (allocateBlock rp p c) as [[[ro wbs1] c1]|] eqn:Hal; [|done].
  destruct ro as [r|]; [|].
  2: { exfalso. clear Hal. by ok_steps. }
  assert (r = InTags pos) as ->.
  { clear Hal. by ok_steps. }
  apply allocateBlock_found in Hal as (Hv1 & Hset & Ho & b1 & Hb1 & Htag & Hst); [|done].
  assert (blkSize c1 = blkSize c) as Hbs by (by rewrite (f_equal v_params Hv1 : cc_params c1 = cc_params c)).
  cbn [getBlk] in Hf. rewrite Hb1 in Hf. destruct (negb (blk_isValid b1)); [|done].
  cbn [getBlk] in Hf. rewrite Hb1 in Hf. destruct (negb (bool_decide _) || _); [|done].
  match type of Hf with (match ?o with _ => _ end) = _ => destruct o as [b2|] eqn:E2; [|done] end.
  assert (blk_tag b2 = blk_tag b1 ∧ blk_data b2 = blk_data b1 ∧
          filled_status (pk_isSecure p) (blk_status b2)) as (Htag2 & Hdata2 & Hst2).
  { clear Hf. unfold filled_status.
    destruct (hasSharers p); [|destruct (cacheResponding p); [destruct (negb _); [|done]|]];
      injection E2 as <-; (split; [done|split; [done|]]); cbn [blk_status set_isInitialized blk_set set_blk_status];
      rewrite Hst;
      [exists false, false; by rewrite !Z.lor_0_r|by exists true, true|exists true, false; by rewrite Z.lor_0_r]. }
  clear E2. destruct (pk_size p =? blkSize c1) eqn:Hsz; [|done]. apply Z.eqb_eq in Hsz.
  unfold writeDataToBlock, writeData, getPtr in Hf. rewrite Hdata in Hf. injection Hf as _ <-.
  split; [congruence|]. split; [done|]. split; [by apply differ_put|].
  eexists _, (blk_data b1). split; [by eapply blkAt_put|]. split; [by rewrite <-Htag, <-Htag2|].
  split; [exact Hst2|]. cbn [blk_data set_whenReady set_blk_data]. rewrite Hdata2, Hbs. unfold bytesAt.
  rewrite drop_0, <-Hlen, Nat2Z.id. by rewrite take_ge.
Qed.

(** *** Reading it back *)

Lemma findBlock_at pos addr sec t b :
  blkAt t pos = Ok b → pos.1 = extractSet t addr → blk_matches (extractTag t addr) sec b = true →
  others_differ pos addr sec t → findBlock t addr sec = Ok (Some pos).
Proof.
  intros Hb Hset Hm Ho. unfold blkAt in Hb. rewrite Hset in Hb. unfold findBlock, findBlk.
  destruct (cacheSets t !! extractSet t addr) as [s|] eqn:Hs; [|done].
  destruct (s !! pos.2) as [b'|] eqn:Hw; [|done]. injection Hb as ->.
  assert (list_find (λ b, blk_matches (extractTag t addr) sec b = true) s = Some (pos.2, b)) as ->.
  { apply list_find_Some. split; [done|]. split; [done|]. intros j y Hy Hlt Hym.
    assert ((extractSet t addr, j) ≠ pos) as Hne by (intros <-; cbn in Hlt; lia).
    by rewrite (Ho s j y Hs Hy Hne) in Hym. }
  rewrite <-Hset. by destruct pos.
Qed.

(** Addresses of one line have the set and the tag in common. *)
Lemma same_line t a a' :
  0 <= setShift t <= tagShift t → Z.shiftr a' (setShift t) = Z.shiftr a (setShift t) →
  extractSet t a' = extractSet t a ∧ extractTag t a' = extractTag t a.
Proof.
  intros Hs Ha. unfold extractSet, extractTag. rewrite Ha. split; [done|].
  replace (tagShift t) with (setShift t + (tagShift t - setShift t)) by lia.
  by rewrite <-!Z.shiftr_shiftr, Ha by lia.
Qed.
End fill.

(** C36: After a memory read response has filled a line that was not in the cache, every read inside that line finds the new block, readable, and takes from it exactly the bytes of the response at its offset, whatever block the replacement policy chose to evict and whatever was written back for it. *)
Theorem fill_then_hit {G D E} `{CacheEnv E} (rp : ReplacementPolicy G D) p q data pos wbs
    (c c' : Cache G D E) :
  let blkSize := cp_blkSize (cc_params c) in
  findBlock (cc_tags c) (pk_addr p) (pk_isSecure p) = Ok None →
  handleFill rp p None true c = Ok (InTags pos, wbs, c') →
  pk_isRead p = true → pk_data p = Some data → Z.of_nat (length data) = pk_size p →
  0 <= setShift (cc_tags c) <= tagShift (cc_tags c) →
  Z.shiftr (pk_addr q) (setShift (cc_tags c)) = Z.shiftr (pk_addr p) (setShift (cc_tags c)) →
  pk_isSecure q = pk_isSecure p → 0 <= pk_addr q → 0 <= pk_size q →
  getOffset blkSize q + pk_size q <= blkSize →
  ∃ b, readHit c' q = Some b ∧ readBytes c' q b = bytesAt (getOffset blkSize q) (pk_size q) data.
Proof.
  intros bs Hm Hf Hrd Hdata Hlen Hsh Hq Hsec Haq Hsq Hin.
  destruct (handleFill_found rp p data pos wbs c c' Hm Hf Hrd Hdata Hlen)
    as (Hv & Hal & Hsz & Hset & Ho & b & old & Hb & Htag & Hst & Hbytes).
  destruct (same_line _ _ _ Hsh Hq) as [Hqs Hqt].
  assert (geometry (cc_tags c') = geometry (cc_tags c)) as Hg by exact (f_equal v_geom Hv).
  destruct (geometry_address _ _ (pk_addr p) Hg) as [Hgs Hgt].
  destruct (geometry_address _ _ (pk_addr q) Hg) as [Hgs' Hgt'].
  destruct (filled_matches _ b _ Hst Htag) as [Hmb Hrb].
  assert (findBlock (cc_tags c') (pk_addr q) (pk_isSecure q) = Ok (Some pos)) as Hfind.
  { rewrite Hsec. eapply findBlock_at; [exact Hb|congruence|congruence|].
    unfold others_differ in *. rewrite Hgs', Hqs, Hgt', Hqt, <-Hgs, <-Hgt. exact Ho. }
  exists b. unfold readHit, resident. rewrite Hfind, Hb, Hrb. split; [done|].
  unfold readBytes. rewrite (f_equal v_params Hv : cc_params c' = cc_params c). fold bs.
  assert (getOffset bs p = 0) as Hoff.
  { unfold getOffset. rewrite Hal. unfold getBlockAddr. apply Z.land_ldiff. }
  rewrite Hbytes. fold bs in Hoff, Hsz |- *. rewrite Hoff. apply bytes_of_put; [|done|lia].
  unfold getOffset. apply Z.land_nonneg. by left.
Qed.

Lemma tiny_fill : ∃ pos wbs c',
  handleFill Tiny.rp (Tiny.fill 4 7) None true (Tiny.cache 1) = Ok (InTags pos, wbs, c').
Proof. do 3 eexists. vm_compute. reflexivity. Qed.

(** The fill of the small cache's first line. *)
Lemma fill_then_hit_witness :
  ∃ pos wbs c' b, handleFill Tiny.rp (Tiny.fill 4 7) None true (Tiny.cache 1) = Ok (InTags pos, wbs, c') ∧
    readHit c' (Tiny.read 8 0) = Some b ∧ readBytes c' (Tiny.read 8 0) b = [7; 7; 7; 7].
Proof.
  destruct tiny_fill as (pos & wbs & c' & Hf). exists pos, wbs, c'.
  destruct (fill_then_hit Tiny.rp (Tiny.fill 4 7) (Tiny.read 8 0) (replicate 16 7) pos wbs (Tiny.cache 1) c'
    eq_refl Hf eq_refl eq_refl eq_refl ltac:(vm_compute; done) eq_refl eq_refl ltac:(vm_compute; done)
    ltac:(vm_compute; done) ltac:(vm_compute; done)) as (b & Hb & Hbytes).
  exists b. split; [exact Hf|]. split; [exact Hb|]. exact Hbytes.
Defined.
