(* ===== verification/RenameStage.v ===== *)
(** * The rename stage

    [DefaultRename] ([cpu/o3/rename.hh], [cpu/o3/rename_impl.hh]) around the register
    operations of [Rename]: the stage takes the instructions decode sent, stalls while
    the back end has no room, keeps what it cannot rename in a skid buffer, holds a
    serializing instruction back until the reorder buffer is empty, and hands the
    renamed instructions to the issue stage.

    What arrives through the time buffers is an argument ([RenameInputs]), in the
    records of the stages that send it.  The operands of a static instruction are
    generated code, an interface.  Statistics, tracing and probe points are left out. *)

From S2P Require Import Prelude Regs Config DynInst Metadata Rob StoreSet DepGraph FUPool MemDepUnit.
From S2P Require Import InstQueue Rename TimeBuf Activity CpuList DirPred BPred X86Pc Decode Iew Commit.

Local Open Scope Z_scope.

(** ** Instructions *)

(** The conversion of an [unsigned] result to [int]. *)
Definition asInt (z : Z) : Z := (z + 2 ^ 31) mod 2 ^ 32 - 2 ^ 31.

Definition isIprAccess (i : DynInst) : bool := static i IsIprAccess.
Definition isTempSerializeBefore (i : DynInst) : bool := st i SerializeBefore.
Definition isSerializeHandled (i : DynInst) : bool := st i SerializeHandled.
Definition setSerializeBefore : DynInst → DynInst := status_set SerializeBefore.
Definition clearSerializeBefore : DynInst → DynInst := status_reset SerializeBefore.
Definition setSerializeHandled : DynInst → DynInst := status_set SerializeHandled.

(** The operands of a static instruction: [srcRegIdx(i)], [destRegIdx(i)] and the
    numbers of destinations by class. *)
Class StaticOperands := {
  so_srcReg : StaticInst → nat → RegId;
  so_destReg : StaticInst → nat → RegId;
  so_numIntDestRegs : StaticInst → nat;
  so_numFPDestRegs : StaticInst → nat;
  so_numVecDestRegs : StaticInst → nat;
  so_numVecElemDestRegs : StaticInst → nat;
  so_numCCDestRegs : StaticInst → nat;
}.

Inductive RenameStatus : Type :=
  | RnRunning | RnIdle | RnStartSquash | RnSquashing | RnBlocked | RnUnblocking | RnSerializeStall.
#[export] Instance RenameStatus_eq_dec : EqDecision RenameStatus.
Proof. solve_decision. Defined.

Definition RenameIdx : Z := 2.

(** ** State *)

Record FreeEntries := mkFreeEntries {
  iqEntries : Z;
  robEntries : Z;
  lqEntries : Z;
  sqEntries : Z;
}.

Record RenStage := mkRenStage {
  rn_active : bool; (** [_status] *)
  renameStatus : ThreadID → RenameStatus;
  rn_insts : ThreadID → list DynInstPtr; (** [insts], the front first *)
  rn_skidBuffer : ThreadID → list DynInstPtr; (** [skidBuffer] *)
  instsInProgress : ThreadID → Z; (** [int] *)
  loadsInProgress : ThreadID → Z;
  storesInProgress : ThreadID → Z;
  freeEntries : ThreadID → FreeEntries;
  emptyROB : ThreadID → bool;
  iewStall : ThreadID → bool; (** [stalls[tid].iew] *)
  serializeInst : ThreadID → option DynInstPtr;
  serializeOnNextInst : ThreadID → bool;
  resumeSerialize : bool;
  resumeUnblocking : bool;
  blockThisCycle : bool;
  renameBlock : ThreadID → bool; (** of [toDecode] *)
  renameUnblock : ThreadID → bool; (** of [toDecode] *)
  renamed : list DynInstPtr; (** [toIEW->insts[0 .. toIEWIndex)] *)
  rn_wroteToTimeBuffer : bool;
  renameWidth : nat;
  rn_skidBufferMax : nat;
  rn_numThreads : nat;
  rn_activeThreads : list ThreadID;
}.

Definition set_rn_active (v : bool) (x : RenStage) : RenStage :=
  mkRenStage v (renameStatus x) (rn_insts x) (rn_skidBuffer x) (instsInProgress x)
  (loadsInProgress x) (storesInProgress x) (freeEntries x) (emptyROB x) (iewStall x)
  (serializeInst x) (serializeOnNextInst x) (resumeSerialize x) (resumeUnblocking x)
  (blockThisCycle x) (renameBlock x) (renameUnblock x) (renamed x) (rn_wroteToTimeBuffer x)
  (renameWidth x) (rn_skidBufferMax x) (rn_numThreads x) (rn_activeThreads x).
Definition set_renameStatus (v : ThreadID → RenameStatus) (x : RenStage) : RenStage :=
  mkRenStage (rn_active x) v (rn_insts x) (rn_skidBuffer x) (instsInProgress x)
  (loadsInProgress x) (storesInProgress x) (freeEntries x) (emptyROB x) (iewStall x)
  (serializeInst x) (serializeOnNextInst x) (resumeSerialize x) (resumeUnblocking x)
  (blockThisCycle x) (renameBlock x) (renameUnblock x) (renamed x) (rn_wroteToTimeBuffer x)
  (renameWidth x) (rn_skidBufferMax x) (rn_numThreads x) (rn_activeThreads x).
Definition set_rn_insts (v : ThreadID → list DynInstPtr) (x : RenStage) : RenStage :=
  mkRenStage (rn_active x) (renameStatus x) v (rn_skidBuffer x) (instsInProgress x)
  (loadsInProgress x) (storesInProgress x) (freeEntries x) (emptyROB x) (iewStall x)
  (serializeInst x) (serializeOnNextInst x) (resumeSerialize x) (resumeUnblocking x)
  (blockThisCycle x) (renameBlock x) (renameUnblock x) (renamed x) (rn_wroteToTimeBuffer x)
  (renameWidth x) (rn_skidBufferMax x) (rn_numThreads x) (rn_activeThreads x).
Definition set_rn_skidBuffer (v : ThreadID → list DynInstPtr) (x : RenStage) : RenStage :=
  mkRenStage (rn_active x) (renameStatus x) (rn_insts x) v (instsInProgress x)
  (loadsInProgress x) (storesInProgress x) (freeEntries x) (emptyROB x) (iewStall x)
  (serializeInst x) (serializeOnNextInst x) (resumeSerialize x) (resumeUnblocking x)
  (blockThisCycle x) (renameBlock x) (renameUnblock x) (renamed x) (rn_wroteToTimeBuffer x)
  (renameWidth x) (rn_skidBufferMax x) (rn_numThreads x) (rn_activeThreads x).
Definition set_instsInProgress (v : ThreadID → Z) (x : RenStage) : RenStage :=
  mkRenStage (rn_active x) (renameStatus x) (rn_insts x) (rn_skidBuffer x) v
  (loadsInProgress x) (storesInProgress x) (freeEntries x) (emptyROB x) (iewStall x)
  (serializeInst x) (serializeOnNextInst x) (resumeSerialize x) (resumeUnblocking x)
  (blockThisCycle x) (renameBlock x) (renameUnblock x) (renamed x) (rn_wroteToTimeBuffer x)
  (renameWidth x) (rn_skidBufferMax x) (rn_numThreads x) (rn_activeThreads x).
Definition set_loadsInProgress (v : ThreadID → Z) (x : RenStage) : RenStage :=
  mkRenStage (rn_active x) (renameStatus x) (rn_insts x) (rn_skidBuffer x) (instsInProgress x)
  v (storesInProgress x) (freeEntries x) (emptyROB x) (iewStall x) (serializeInst x)
  (serializeOnNextInst x) (resumeSerialize x) (resumeUnblocking x) (blockThisCycle x)
  (renameBlock x) (renameUnblock x) (renamed x) (rn_wroteToTimeBuffer x) (renameWidth x)
  (rn_skidBufferMax x) (rn_numThreads x) (rn_activeThreads x).
Definition set_storesInProgress (v : ThreadID → Z) (x : RenStage) : RenStage :=
  mkRenStage (rn_active x) (renameStatus x) (rn_insts x) (rn_skidBuffer x) (instsInProgress x)
  (loadsInProgress x) v (freeEntries x) (emptyROB x) (iewStall x) (serializeInst x)
  (serializeOnNextInst x) (resumeSerialize x) (resumeUnblocking x) (blockThisCycle x)
  (renameBlock x) (renameUnblock x) (renamed x) (rn_wroteToTimeBuffer x) (renameWidth x)
  (rn_skidBufferMax x) (rn_numThreads x) (rn_activeThreads x).
Definition set_rn_freeEntries (v : ThreadID → FreeEntries) (x : RenStage) : RenStage :=
  mkRenStage (rn_active x) (renameStatus x) (rn_insts x) (rn_skidBuffer x) (instsInProgress x)
  (loadsInProgress x) (storesInProgress x) v (emptyROB x) (iewStall x) (serializeInst x)
  (serializeOnNextInst x) (resumeSerialize x) (resumeUnblocking x) (blockThisCycle x)
  (renameBlock x) (renameUnblock x) (renamed x) (rn_wroteToTimeBuffer x) (renameWidth x)
  (rn_skidBufferMax x) (rn_numThreads x) (rn_activeThreads x).
Definition set_emptyROB (v : ThreadID → bool) (x : RenStage) : RenStage :=
  mkRenStage (rn_active x) (renameStatus x) (rn_insts x) (rn_skidBuffer x) (instsInProgress x)
  (loadsInProgress x) (storesInProgress x) (freeEntries x) v (iewStall x) (serializeInst x)
  (serializeOnNextInst x) (resumeSerialize x) (resumeUnblocking x) (blockThisCycle x)
  (renameBlock x) (renameUnblock x) (renamed x) (rn_wroteToTimeBuffer x) (renameWidth x)
  (rn_skidBufferMax x) (rn_numThreads x) (rn_activeThreads x).
Definition set_iewStall (v : ThreadID → bool) (x : RenStage) : RenStage :=
  mkRenStage (rn_active x) (renameStatus x) (rn_insts x) (rn_skidBuffer x) (instsInProgress x)
  (loadsInProgress x) (storesInProgress x) (freeEntries x) (emptyROB x) v (serializeInst x)
  (serializeOnNextInst x) (resumeSerialize x) (resumeUnblocking x) (blockThisCycle x)
  (renameBlock x) (renameUnblock x) (renamed x) (rn_wroteToTimeBuffer x) (renameWidth x)
  (rn_skidBufferMax x) (rn_numThreads x) (rn_activeThreads x).
Definition set_serializeInst (v : ThreadID → option DynInstPtr) (x : RenStage) : RenStage :=
  mkRenStage (rn_active x) (renameStatus x) (rn_insts x) (rn_skidBuffer x) (instsInProgress x)
  (loadsInProgress x) (storesInProgress x) (freeEntries x) (emptyROB x) (iewStall x) v
  (serializeOnNextInst x) (resumeSerialize x) (resumeUnblocking x) (blockThisCycle x)
  (renameBlock x) (renameUnblock x) (renamed x) (rn_wroteToTimeBuffer x) (renameWidth x)
  (rn_skidBufferMax x) (rn_numThreads x) (rn_activeThreads x).
Definition set_serializeOnNextInst (v : ThreadID → bool) (x : RenStage) : RenStage :=
  mkRenStage (rn_active x) (renameStatus x) (rn_insts x) (rn_skidBuffer x) (instsInProgress x)
  (loadsInProgress x) (storesInProgress x) (freeEntries x) (emptyROB x) (iewStall x)
  (serializeInst x) v (resumeSerialize x) (resumeUnblocking x) (blockThisCycle x)
  (renameBlock x) (renameUnblock x) (renamed x) (rn_wroteToTimeBuffer x) (renameWidth x)
  (rn_skidBufferMax x) (rn_numThreads x) (rn_activeThreads x).
Definition set_resumeSerialize (v : bool) (x : RenStage) : RenStage :=
  mkRenStage (rn_active x) (renameStatus x) (rn_insts x) (rn_skidBuffer x) (instsInProgress x)
  (loadsInProgress x) (storesInProgress x) (freeEntries x) (emptyROB x) (iewStall x)
  (serializeInst x) (serializeOnNextInst x) v (resumeUnblocking x) (blockThisCycle x)
  (renameBlock x) (renameUnblock x) (renamed x) (rn_wroteToTimeBuffer x) (renameWidth x)
  (rn_skidBufferMax x) (rn_numThreads x) (rn_activeThreads x).
Definition set_resumeUnblocking (v : bool) (x : RenStage) : RenStage :=
  mkRenStage (rn_active x) (renameStatus x) (rn_insts x) (rn_skidBuffer x) (instsInProgress x)
  (loadsInProgress x) (storesInProgress x) (freeEntries x) (emptyROB x) (iewStall x)
  (serializeInst x) (serializeOnNextInst x) (resumeSerialize x) v (blockThisCycle x)
  (renameBlock x) (renameUnblock x) (renamed x) (rn_wroteToTimeBuffer x) (renameWidth x)
  (rn_skidBufferMax x) (rn_numThreads x) (rn_activeThreads x).
Definition set_blockThisCycle (v : bool) (x : RenStage) : RenStage :=
  mkRenStage (rn_active x) (renameStatus x) (rn_insts x) (rn_skidBuffer x) (instsInProgress x)
  (loadsInProgress x) (storesInProgress x) (freeEntries x) (emptyROB x) (iewStall x)
  (serializeInst x) (serializeOnNextInst x) (resumeSerialize x) (resumeUnblocking x) v
  (renameBlock x) (renameUnblock x) (renamed x) (rn_wroteToTimeBuffer x) (renameWidth x)
  (rn_skidBufferMax x) (rn_numThreads x) (rn_activeThreads x).
Definition set_renameBlock (v : ThreadID → bool) (x : RenStage) : RenStage :=
  mkRenStage (rn_active x) (renameStatus x) (rn_insts x) (rn_skidBuffer x) (instsInProgress x)
  (loadsInProgress x) (storesInProgress x) (freeEntries x) (emptyROB x) (iewStall x)
  (serializeInst x) (serializeOnNextInst x) (resumeSerialize x) (resumeUnblocking x)
  (blockThisCycle x) v (renameUnblock x) (renamed x) (rn_wroteToTimeBuffer x) (renameWidth x)
  (rn_skidBufferMax x) (rn_numThreads x) (rn_activeThreads x).
Definition set_renameUnblock (v : ThreadID → bool) (x : RenStage) : RenStage :=
  mkRenStage (rn_active x) (renameStatus x) (rn_insts x) (rn_skidBuffer x) (instsInProgress x)
  (loadsInProgress x) (storesInProgress x) (freeEntries x) (emptyROB x) (iewStall x)
  (serializeInst x) (serializeOnNextInst x) (resumeSerialize x) (resumeUnblocking x)
  (blockThisCycle x) (renameBlock x) v (renamed x) (rn_wroteToTimeBuffer x) (renameWidth x)
  (rn_skidBufferMax x) (rn_numThreads x) (rn_activeThreads x).
Definition set_renamed (v : list DynInstPtr) (x : RenStage) : RenStage :=
  mkRenStage (rn_active x) (renameStatus x) (rn_insts x) (rn_skidBuffer x) (instsInProgress x)
  (loadsInProgress x) (storesInProgress x) (freeEntries x) (emptyROB x) (iewStall x)
  (serializeInst x) (serializeOnNextInst x) (resumeSerialize x) (resumeUnblocking x)
  (blockThisCycle x) (renameBlock x) (renameUnblock x) v (rn_wroteToTimeBuffer x)
  (renameWidth x) (rn_skidBufferMax x) (rn_numThreads x) (rn_activeThreads x).
Definition set_rn_wroteToTimeBuffer (v : bool) (x : RenStage) : RenStage :=
  mkRenStage (rn_active x) (renameStatus x) (rn_insts x) (rn_skidBuffer x) (instsInProgress x)
  (loadsInProgress x) (storesInProgress x) (freeEntries x) (emptyROB x) (iewStall x)
  (serializeInst x) (serializeOnNextInst x) (resumeSerialize x) (resumeUnblocking x)
  (blockThisCycle x) (renameBlock x) (renameUnblock x) (renamed x) v (renameWidth x)
  (rn_skidBufferMax x) (rn_numThreads x) (rn_activeThreads x).

(** The stage, the register state, the instruction queue's table of producers, the
    instructions and the CPU's activity recorder. *)
Record Ren := mkRen {
  rw : RenStage;
  rw_regs : RenameState;
  rw_iq : InstQueue;
  rw_insts : store;
  rw_activity : ActivityRecorder;
}.
Definition rw_set (x : RenStage) (w : Ren) : Ren :=
  mkRen x (rw_regs w) (rw_iq w) (rw_insts w) (rw_activity w).
Definition rw_on (f : RenStage → RenStage) (w : Ren) : Ren := rw_set (f (rw w)) w.
Definition rw_set_regs (r : RenameState) (w : Ren) : Ren :=
  mkRen (rw w) r (rw_iq w) (rw_insts w) (rw_activity w).
Definition rw_set_iq (q : InstQueue) (w : Ren) : Ren :=
  mkRen (rw w) (rw_regs w) q (rw_insts w) (rw_activity w).
Definition rw_set_insts (s : store) (w : Ren) : Ren :=
  mkRen (rw w) (rw_regs w) (rw_iq w) s (rw_activity w).
Definition rw_set_activity (a : ActivityRecorder) (w : Ren) : Ren :=
  mkRen (rw w) (rw_regs w) (rw_iq w) (rw_insts w) a.

(** What the other stages told rename, as it arrives this cycle. *)
Record RenameInputs := mkRenameInputs {
  fromDecode : list DynInstPtr; (** [fromDecode->insts[0 .. size)] *)
  rn_fromIEW : IewToRename;
  rn_fromCommit : ThreadID → CommitInfo;
}.

Definition rn_setStatus (tid : ThreadID) (s : RenameStatus) (x : RenStage) : RenStage :=
  set_renameStatus (<[tid := s]> (renameStatus x)) x.
Definition rn_setBlock (tid : ThreadID) (b : bool) (x : RenStage) : RenStage :=
  set_renameBlock (<[tid := b]> (renameBlock x)) x.
Definition rn_setUnblock (tid : ThreadID) (b : bool) (x : RenStage) : RenStage :=
  set_renameUnblock (<[tid := b]> (renameUnblock x)) x.
Definition rn_setSerializeInst (tid : ThreadID) (p : option DynInstPtr) (x : RenStage) : RenStage :=
  set_serializeInst (<[tid := p]> (serializeInst x)) x.
Definition rn_statusIs (x : RenStage) (tid : ThreadID) (s : RenameStatus) : bool :=
  bool_decide (renameStatus x tid = s).

Definition rn_modify (f : DynInst → DynInst) (p : DynInstPtr) (w : Ren) : outcome Ren :=
  let! s := modify f p (rw_insts w) in Ok (rw_set_insts s w).

(** ** Start and drain *)

Definition newRenStage (width decodeWidth decodeToRenameDelay threads : nat) (active : list ThreadID)
  : outcome RenStage :=
  assert! (width <=? 8)%nat as "renameWidth is larger than compiled limit" in
  Ok (mkRenStage false (λ _, RnIdle) (λ _, []) (λ _, []) (λ _, 0) (λ _, 0) (λ _, 0)
        (λ _, mkFreeEntries 0 0 0 0) (λ _, true) (λ _, false) (λ _, None) (λ _, false) false false false
        (λ _, false) (λ _, false) [] false width ((decodeToRenameDelay + 1) * decodeWidth) threads active).

(** [resetStage], also [startupStage] and [takeOverFrom]; [free] are the entries the
    issue stage and commit say are free. *)
Definition rn_resetThread (free : ThreadID → FreeEntries) (x : RenStage) (tid : ThreadID) : RenStage :=
  set_serializeOnNextInst (<[tid := false]> (serializeOnNextInst x))
    (set_storesInProgress (<[tid := 0]> (storesInProgress x))
    (set_loadsInProgress (<[tid := 0]> (loadsInProgress x))
    (set_instsInProgress (<[tid := 0]> (instsInProgress x))
    (rn_setSerializeInst tid None
    (set_iewStall (<[tid := false]> (iewStall x))
    (set_emptyROB (<[tid := true]> (emptyROB x))
    (set_rn_freeEntries (<[tid := free tid]> (freeEntries x))
    (rn_setStatus tid RnIdle x)))))))).
Definition rn_resetStage (free : ThreadID → FreeEntries) (x : RenStage) : RenStage :=
  foldl (rn_resetThread free)
    (set_resumeUnblocking false (set_resumeSerialize false (set_rn_active false x)))
    (seq 0 (rn_numThreads x)).

Definition rn_isDrained (w : Ren) : bool :=
  let x := rw w in
  forallb (λ tid, (instsInProgress x tid =? 0) &&
                  (match historyBuffer (rw_regs w) tid with [] => true | _ => false end) &&
                  bool_decide (rn_skidBuffer x tid = []) && bool_decide (rn_insts x tid = []) &&
                  (rn_statusIs x tid RnIdle || rn_statusIs x tid RnRunning))
    (seq 0 (rn_numThreads x)).

Definition rn_drainSanityCheck (w : Ren) : outcome () :=
  let x := rw w in
  foldM (λ _ tid,
    assert! (match historyBuffer (rw_regs w) tid with [] => true | _ => false end)
      as "rename: historyBuffer[tid].empty()" in
    assert! bool_decide (rn_insts x tid = []) as "rename: insts[tid].empty()" in
    assert! bool_decide (rn_skidBuffer x tid = []) as "rename: skidBuffer[tid].empty()" in
    assert! instsInProgress x tid =? 0 as "rename: instsInProgress[tid] == 0" in
    Ok ()) (seq 0 (rn_numThreads x)) ().

(** ** Room in the back end *)

Definition calcFreeROBEntries (inp : RenameInputs) (tid : ThreadID) (x : RenStage) : Z :=
  asInt (robEntries (freeEntries x tid) - (instsInProgress x tid - dispatched (rn_fromIEW inp) tid)).
Definition calcFreeIQEntries (inp : RenameInputs) (tid : ThreadID) (x : RenStage) : Z :=
  asInt (iqEntries (freeEntries x tid) - (instsInProgress x tid - dispatched (rn_fromIEW inp) tid)).
Definition calcFreeLQEntries (inp : RenameInputs) (tid : ThreadID) (x : RenStage) : Z :=
  asInt (lqEntries (freeEntries x tid) - (loadsInProgress x tid - dispatchedToLQ (rn_fromIEW inp) tid)).
Definition calcFreeSQEntries (inp : RenameInputs) (tid : ThreadID) (x : RenStage) : Z :=
  asInt (sqEntries (freeEntries x tid) - (storesInProgress x tid - dispatchedToSQ (rn_fromIEW inp) tid)).

Definition rn_readFreeEntries (inp : RenameInputs) (tid : ThreadID) (x : RenStage) : RenStage :=
  let i := rn_fromIEW inp in
  let c := rn_fromCommit inp tid in
  let e := freeEntries x tid in
  let e := if usedIQ i tid then mkFreeEntries (freeIQEntries i tid) (robEntries e) (lqEntries e) (sqEntries e)
           else e in
  let e := if usedLSQ i tid
           then mkFreeEntries (iqEntries e) (robEntries e) (freeLQEntries i tid) (freeSQEntries i tid)
           else e in
  if ci_usedROB c then
    let e := mkFreeEntries (iqEntries e) (ci_freeROBEntries c) (lqEntries e) (sqEntries e) in
    set_emptyROB (<[tid := ci_emptyROB c]> (emptyROB x)) (set_rn_freeEntries (<[tid := e]> (freeEntries x)) x)
  else set_rn_freeEntries (<[tid := e]> (freeEntries x)) x.

Definition rn_readStallSignals (inp : RenameInputs) (tid : ThreadID) (x : RenStage) : outcome RenStage :=
  let x := if iewBlock (rn_fromIEW inp) tid then set_iewStall (<[tid := true]> (iewStall x)) x else x in
  if iewUnblock (rn_fromIEW inp) tid then
    assert! iewStall x tid as "readStallSignals: stalls[tid].iew" in
    Ok (set_iewStall (<[tid := false]> (iewStall x)) x)
  else Ok x.

Definition rn_checkStall (inp : RenameInputs) (tid : ThreadID) (w : Ren) : bool :=
  let x := rw w in
  iewStall x tid || (calcFreeROBEntries inp tid x <=? 0) || (calcFreeIQEntries inp tid x <=? 0) ||
  ((calcFreeLQEntries inp tid x <=? 0) && (calcFreeSQEntries inp tid x <=? 0)) ||
  (numFreeEntriesMap (renameMap (rw_regs w) tid) (freeList (rw_regs w)) <=? 0)%nat ||
  (rn_statusIs x tid RnSerializeStall && (negb (emptyROB x tid) || negb (instsInProgress x tid =? 0))).

(** [validInsts() != 0] *)
Definition rn_validInsts (inp : RenameInputs) (w : Ren) : outcome bool :=
  foldM (λ b p, let! i := deref p (rw_insts w) in Ok (b || negb (isSquashed i))) (fromDecode inp) false.

(** ** Blocking *)

Definition rn_skidInsert (tid : ThreadID) (w : Ren) : outcome Ren :=
  let! x := foldM (λ x p,
      let! i := deref p (rw_insts w) in
      assert! (tid =? threadNumber i)%nat as "skidInsert: tid == inst->threadNumber" in
      Ok (set_rn_skidBuffer (<[tid := rn_skidBuffer x tid ++ [p]]> (rn_skidBuffer x))
            (set_rn_insts (<[tid := tail (rn_insts x tid)]> (rn_insts x)) x)))
    (rn_insts (rw w) tid) (rw w) in
  if (rn_skidBufferMax x <? length (rn_skidBuffer x tid))%nat
  then Err (PanicCall "Skidbuffer Exceeded Max Size")
  else Ok (rw_set x w).

(** The end of [block]: the signal to decode and the new status. *)
Definition blockStage (tid : ThreadID) (x : RenStage) : bool * RenStage :=
  if rn_statusIs x tid RnBlocked then (false, x)
  else
    let x := if resumeUnblocking x || negb (rn_statusIs x tid RnUnblocking)
             then set_rn_wroteToTimeBuffer true (rn_setUnblock tid false (rn_setBlock tid true x))
             else x in
    if rn_statusIs x tid RnSerializeStall then (false, x) else (true, rn_setStatus tid RnBlocked x).

Definition rn_block (tid : ThreadID) (w : Ren) : outcome (bool * Ren) :=
  let! w := rn_skidInsert tid w in
  let '(change, x) := blockStage tid (rw w) in
  Ok (change, rw_set x w).

Definition rn_unblock (tid : ThreadID) (x : RenStage) : bool * RenStage :=
  if bool_decide (rn_skidBuffer x tid = []) && negb (rn_statusIs x tid RnSerializeStall)
  then (true, rn_setStatus tid RnRunning (set_rn_wroteToTimeBuffer true (rn_setUnblock tid true x)))
  else (false, x).

(** ** Squashing *)

(** What [squash] does about a stall of the thread. *)
Definition squashStall (sn : InstSeqNum) (tid : ThreadID) (w : Ren) : outcome RenStage :=
  let x := rw w in
  let forget := rn_setSerializeInst tid None (set_resumeSerialize false (rn_setUnblock tid true x)) in
  if rn_statusIs x tid RnBlocked || rn_statusIs x tid RnUnblocking then Ok forget
  else if rn_statusIs x tid RnSerializeStall then
    match serializeInst x tid with
    | None => Err (NullDeref "serializeInst[tid]")
    | Some p =>
        let! i := deref p (rw_insts w) in
        Ok (if seqNum i <=? sn then set_resumeSerialize true x else forget)
    end
  else Ok x.

Definition squashArriving (sn : InstSeqNum) (tid : ThreadID) (ws : bool * store) (p : DynInstPtr)
  : outcome (bool * store) :=
  let! i := deref p (snd ws) in
  if (threadNumber i =? tid)%nat && (sn <? seqNum i)
  then let! s := modify setSquashed p (snd ws) in Ok (true, s)
  else Ok ws.

Definition rn_clearQueues (tid : ThreadID) (x : RenStage) : RenStage :=
  set_rn_skidBuffer (<[tid := []]> (rn_skidBuffer x)) (set_rn_insts (<[tid := []]> (rn_insts x)) x).

Section stage.
Context (rf : PhysRegFile) (cfg : DolmaConfig) (flattenRegId : RegId → RegId) {HSO : StaticOperands}.

Definition rn_squash (inp : RenameInputs) (sn : InstSeqNum) (tid : ThreadID) (w : Ren) : outcome Ren :=
  let! x := squashStall sn tid w in
  let x := rn_setStatus tid RnSquashing x in
  let! (wrote, s) := foldM (squashArriving sn tid) (fromDecode inp)
                       (rn_wroteToTimeBuffer x, rw_insts w) in
  let x := rn_clearQueues tid (set_rn_wroteToTimeBuffer wrote x) in
  let! r := rn_doSquash rf sn tid (rw_regs w) in
  Ok (rw_set_regs r (rw_set x (rw_set_insts s w))).

(** ** Signals *)

(** The end of a serialize stall: the instruction goes back to the front. *)
Definition resumeFront (tid : ThreadID) (p : DynInstPtr) (x : RenStage) : RenStage :=
  if bool_decide (rn_skidBuffer x tid = [])
  then set_rn_insts (<[tid := p :: rn_insts x tid]> (rn_insts x)) x
  else set_rn_skidBuffer (<[tid := p :: rn_skidBuffer x tid]> (rn_skidBuffer x)) x.

Definition endSerializeStall (tid : ThreadID) (w : Ren) : outcome Ren :=
  let serial := serializeInst (rw w) tid in
  let '(_, x) := rn_unblock tid (rn_setStatus tid RnUnblocking (rw w)) in
  match serial with
  | None => Err (NullDeref "serial_inst")
  | Some p =>
      let! w := rn_modify clearSerializeBefore p (rw_set x w) in
      Ok (rw_on (λ x, rn_setSerializeInst tid None (resumeFront tid p x)) w)
  end.

Definition rn_checkSignalsAndUpdate (inp : RenameInputs) (tid : ThreadID) (w : Ren) : outcome (bool * Ren) :=
  let w := rw_on (rn_readFreeEntries inp tid) w in
  let! x := rn_readStallSignals inp tid (rw w) in
  let w := rw_set x w in
  if ci_squash (rn_fromCommit inp tid) then
    let! w := rn_squash inp (ci_doneSeqNum (rn_fromCommit inp tid)) tid w in Ok (true, w)
  else if rn_checkStall inp tid w then rn_block tid w
  else if rn_statusIs x tid RnBlocked then
    let '(_, x) := rn_unblock tid (rn_setStatus tid RnUnblocking x) in Ok (true, rw_set x w)
  else if rn_statusIs x tid RnSquashing then
    if resumeSerialize x then Ok (true, rw_set (rn_setStatus tid RnSerializeStall x) w)
    else if resumeUnblocking x then Ok (true, rw_set (rn_setStatus tid RnUnblocking x) w)
    else Ok (false, rw_set (rn_setStatus tid RnRunning x) w)
  else if rn_statusIs x tid RnSerializeStall then
    let! w := endSerializeStall tid w in Ok (true, w)
  else Ok (false, w).

Definition rn_updateStatus (w : Ren) : outcome Ren :=
  let x := rw w in
  if existsb (λ tid, rn_statusIs x tid RnUnblocking) (rn_activeThreads x) then
    if rn_active x then Ok w
    else let! a := ar_activateStage RenameIdx (rw_activity w) in
         Ok (rw_set_activity a (rw_set (set_rn_active true x) w))
  else
    if rn_active x then
      let! a := ar_deactivateStage RenameIdx (rw_activity w) in
      Ok (rw_set_activity a (rw_set (set_rn_active false x) w))
    else Ok w.

Definition rn_sortInsts (inp : RenameInputs) (w : Ren) : outcome Ren :=
  let! x := foldM (λ x p,
      let! i := deref p (rw_insts w) in
      let tid := threadNumber i in
      Ok (set_rn_insts (<[tid := rn_insts x tid ++ [p]]> (rn_insts x)) x))
    (fromDecode inp) (rw w) in
  Ok (rw_set x w).

(** ** Renaming *)

(** The queue the instructions come from. *)
Definition toRename (fromSkid : bool) (tid : ThreadID) (x : RenStage) : list DynInstPtr :=
  if fromSkid then rn_skidBuffer x tid else rn_insts x tid.
Definition setRenameQueue (fromSkid : bool) (tid : ThreadID) (l : list DynInstPtr) (x : RenStage) : RenStage :=
  if fromSkid then set_rn_skidBuffer (<[tid := l]> (rn_skidBuffer x)) x
  else set_rn_insts (<[tid := l]> (rn_insts x)) x.

Definition canRenameInst (i : DynInst) (w : Ren) : bool :=
  let si := staticInst i in
  canRename (so_numIntDestRegs si) (so_numFPDestRegs si) (so_numVecDestRegs si) (so_numVecElemDestRegs si)
    (so_numCCDestRegs si) (freeList (rw_regs w)).

Definition mustSerializeBefore (i : DynInst) : bool :=
  (isIprAccess i || isSerializeBefore i) && negb (isSerializeHandled i).
Definition mustSerializeAfter (i : DynInst) : bool :=
  (isStoreConditional i || isSerializeAfter i) && negb (isSerializeHandled i).

(** The stall on a serialize-before instruction, already taken from the queue. *)
Definition startSerializeStall (tid : ThreadID) (p : DynInstPtr) (i : DynInst) (w : Ren) : outcome Ren :=
  let! w := if isTempSerializeBefore i then Ok w else rn_modify setSerializeHandled p w in
  Ok (rw_on (λ x, set_blockThisCycle true
                    (rn_setSerializeInst tid (Some p) (rn_setStatus tid RnSerializeStall x))) w).

(** [serializeAfter], on the queue the instructions come from. *)
Definition serializeAfter (fromSkid : bool) (tid : ThreadID) (w : Ren) : outcome Ren :=
  match toRename fromSkid tid (rw w) with
  | [] => Ok (rw_on (λ x, set_serializeOnNextInst (<[tid := true]> (serializeOnNextInst x)) x) w)
  | q :: _ => rn_modify setSerializeBefore q w
  end.

(** Sources, destinations, counters, and the slot to the issue stage. *)
Definition renameOne (tid : ThreadID) (p : DynInstPtr) (w : Ren) : outcome Ren :=
  let! i := deref p (rw_insts w) in
  let si := staticInst i in
  let srcs := so_srcReg si <$> seq 0 (numSrcRegs i) in
  let dests := so_destReg si <$> seq 0 (numDestRegs i) in
  let! s := renameSrcRegs rf cfg flattenRegId (threadNumber i) p srcs (rw_regs w) (rw_iq w) (rw_insts w) in
  let! (r, q, s) := renameDestRegs rf flattenRegId (threadNumber i) p dests (rw_regs w, rw_iq w, s) in
  let x := rw w in
  let x := if isLoad i then set_loadsInProgress (<[tid := loadsInProgress x tid + 1]> (loadsInProgress x)) x
           else x in
  let x := if isStore i then set_storesInProgress (<[tid := storesInProgress x tid + 1]> (storesInProgress x)) x
           else x in
  Ok (rw_set (set_renamed (renamed x ++ [p]) x) (rw_set_insts s (rw_set_iq q (rw_set_regs r w)))).

(** The loop of [renameInsts] over [n] available instructions; [cnt] is
    [renamed_insts].  What is left of [insts_available] comes first. *)
Fixpoint renameLoop (inp : RenameInputs) (fromSkid : bool) (tid : ThreadID) (n : nat) (cnt : Z) (w : Ren)
  : outcome (nat * Z * Ren) :=
  match n with
  | O => Ok (O, cnt, w)
  | S n' =>
      if (length (renamed (rw w)) <? renameWidth (rw w))%nat then
        match toRename fromSkid tid (rw w) with
        | [] => Err (Assertion "renameInsts: !insts_to_rename.empty()")
        | p :: rest =>
            let! i := deref p (rw_insts w) in
            if isLoad i && (calcFreeLQEntries inp tid (rw w) <=? 0) then Ok (n, cnt, w)
            else if isStore i && (calcFreeSQEntries inp tid (rw w) <=? 0) then Ok (n, cnt, w)
            else
              let v := rw_on (setRenameQueue fromSkid tid rest) w in
              if isSquashed i then renameLoop inp fromSkid tid n' cnt v
              else if negb (canRenameInst i w) then Ok (n, cnt, rw_on (set_blockThisCycle true) w)
              else if mustSerializeBefore i then
                let! v := startSerializeStall tid p i v in Ok (n, cnt, v)
              else
                let! v := if mustSerializeAfter i
                          then let! v := rn_modify setSerializeHandled p v in serializeAfter fromSkid tid v
                          else Ok v in
                let! v := renameOne tid p v in
                renameLoop inp fromSkid tid n' (cnt + 1) v
        end
      else Ok (n, cnt, w)
  end.

(** Serializing the next instruction, if an earlier one asked for it. *)
Definition serializeNext (fromSkid : bool) (tid : ThreadID) (w : Ren) : outcome Ren :=
  let x := rw w in
  if serializeOnNextInst x tid then
    if emptyROB x tid && (instsInProgress x tid =? 0)
    then Ok (rw_set (set_serializeOnNextInst (<[tid := false]> (serializeOnNextInst x)) x) w)
    else match toRename fromSkid tid x with
         | [] => Ok w
         | p :: _ => rn_modify setSerializeBefore p w
         end
  else Ok w.

Definition renameInsts (inp : RenameInputs) (tid : ThreadID) (w : Ren) : outcome Ren :=
  let fromSkid := rn_statusIs (rw w) tid RnUnblocking in
  let available := length (toRename fromSkid tid (rw w)) in
  if (available =? 0)%nat then Ok w
  else
    let free := Z.min (calcFreeROBEntries inp tid (rw w)) (calcFreeIQEntries inp tid (rw w)) in
    if free <=? 0 then
      let! (_, w) := rn_block tid (rw_on (set_blockThisCycle true) w) in Ok w
    else
      let w := if free <? Z.of_nat available then rw_on (set_blockThisCycle true) w else w in
      let! w := serializeNext fromSkid tid w in
      let! (unrenamed, cnt, w) := renameLoop inp fromSkid tid (Nat.min (Z.to_nat free) available) 0 w in
      let x := rw w in
      let x := set_instsInProgress (<[tid := instsInProgress x tid + cnt]> (instsInProgress x)) x in
      let x := if bool_decide (renamed x = []) then x else set_rn_wroteToTimeBuffer true x in
      let x := if (unrenamed =? 0)%nat then x else set_blockThisCycle true x in
      if blockThisCycle x then
        let! (_, w) := rn_block tid (rw_set x w) in Ok (rw_on (rn_setUnblock tid false) w)
      else Ok (rw_set x w).

(** The first part of [rename]: a stall that is being resumed blocks decode again. *)
Definition resumeStall (tid : ThreadID) (w : Ren) : outcome Ren :=
  let x := rw w in
  if rn_statusIs x tid RnSerializeStall && resumeSerialize x then
    let! (_, w) := rn_block tid (rw_on (set_resumeSerialize false) w) in
    Ok (rw_on (rn_setUnblock tid false) w)
  else if rn_statusIs x tid RnUnblocking && resumeUnblocking x then
    let! (_, w) := rn_block tid w in
    Ok (rw_on (λ x, rn_setUnblock tid false (set_resumeUnblocking false x)) w)
  else Ok w.

Definition rn_rename (inp : RenameInputs) (status_change : bool) (tid : ThreadID) (w : Ren)
  : outcome (bool * Ren) :=
  let! w := resumeStall tid w in
  if rn_statusIs (rw w) tid RnRunning || rn_statusIs (rw w) tid RnIdle then
    let! w := renameInsts inp tid w in Ok (status_change, w)
  else if rn_statusIs (rw w) tid RnUnblocking then
    let! w := renameInsts inp tid w in
    let! valid := rn_validInsts inp w in
    let! w := if valid : bool then rn_skidInsert tid w else Ok w in
    let '(change, x) := rn_unblock tid (rw w) in
    Ok (change || status_change || blockThisCycle x, rw_set x w)
  else Ok (status_change, w).

(** One active thread: its signals, then its instructions. *)
Definition renameThread (inp : RenameInputs) (cw : bool * Ren) (tid : ThreadID) : outcome (bool * Ren) :=
  let '(status_change, w) := cw in
  let! (c, w) := rn_checkSignalsAndUpdate inp tid w in
  rn_rename inp (c || status_change) tid w.

(** [tick] frees the registers of what commit committed. *)
Definition freeHistory (inp : RenameInputs) (w : Ren) (tid : ThreadID) : outcome Ren :=
  let c := rn_fromCommit inp tid in
  if negb (ci_doneSeqNum c =? 0) && negb (ci_squash c) && negb (rn_statusIs (rw w) tid RnSquashing)
  then let! r := removeFromHistory (ci_doneSeqNum c) tid (rw_regs w) in Ok (rw_set_regs r w)
  else Ok w.

(** The end of [tick]: what the issue stage dispatched is no longer in progress. *)
Definition updateProgress (inp : RenameInputs) (x : RenStage) (tid : ThreadID) : outcome RenStage :=
  let i := rn_fromIEW inp in
  let n := asInt (instsInProgress x tid - dispatched i tid) in
  let l := asInt (loadsInProgress x tid - dispatchedToLQ i tid) in
  let s := asInt (storesInProgress x tid - dispatchedToSQ i tid) in
  assert! 0 <=? l as "tick: loadsInProgress[tid] >= 0" in
  assert! 0 <=? s as "tick: storesInProgress[tid] >= 0" in
  assert! 0 <=? n as "tick: instsInProgress[tid] >= 0" in
  Ok (set_storesInProgress (<[tid := s]> (storesInProgress x))
       (set_loadsInProgress (<[tid := l]> (loadsInProgress x))
         (set_instsInProgress (<[tid := n]> (instsInProgress x)) x))).

(** The wires to decode and to the issue stage are blank at the start of a cycle. *)
Definition rn_startCycle (x : RenStage) : RenStage :=
  set_renamed [] (set_blockThisCycle false (set_rn_wroteToTimeBuffer false
    (set_renameBlock (λ _, false) (set_renameUnblock (λ _, false) x)))).

(** [tick] *)
Definition rn_tick (inp : RenameInputs) (w : Ren) : outcome Ren :=
  let! w := rn_sortInsts inp (rw_on rn_startCycle w) in
  let! (status_change, w) := foldM (renameThread inp) (rn_activeThreads (rw w)) (false, w) in
  let! w := if status_change : bool then rn_updateStatus w else Ok w in
  let! w := if rn_wroteToTimeBuffer (rw w)
            then let! a := ar_activity (rw_activity w) in Ok (rw_set_activity a w) else Ok w in
  let! w := foldM (freeHistory inp) (rn_activeThreads (rw w)) w in
  let! x := foldM (updateProgress inp) (seq 0 (rn_numThreads (rw w))) (rw w) in
  Ok (rw_set x w).
End stage.
