(* ===== verification/RenameStageOk.v ===== *)
(** * What a cycle of rename does to a thread's instructions

    The loop of [renameInsts] as a relation between the states before and after: which
    instructions it took from the queue, which of them went to the issue stage, where
    and why it stopped; and how little the rest of the stage changes. *)

From S2P Require Import Prelude Regs Config DynInst Metadata Rob StoreSet DepGraph FUPool MemDepUnit.
From S2P Require Import InstQueue Rename TimeBuf Activity CpuList DirPred BPred X86Pc Decode DecodeSafe DecodeOk Iew Commit.
From S2P Require Import RenameStage.

Local Open Scope Z_scope.

(** ** Instructions *)

(** What rename never changes in an instruction, but for squashing it. *)
Definition fixed (i : DynInst) : InstSeqNum * ThreadID * StaticInst * bool :=
  (seqNum i, threadNumber i, staticInst i, isSquashed i).
(** The marks of serialization. *)
Definition marks (i : DynInst) : bool * bool := (isTempSerializeBefore i, isSerializeHandled i).

Definition same {A} (f : DynInst → A) (s s' : store) : Prop := ∀ p, f <$> s' !! p = f <$> s !! p.

#[export] Instance same_preorder {A} (f : DynInst → A) : PreOrder (same f).
Proof. split; [done|]. intros s1 s2 s3 H1 H2 p. by rewrite H2, H1. Qed.

Lemma same_insert {A} (f : DynInst → A) s p i j : s !! p = Some i → f j = f i → same f s (<[p := j]> s).
Proof.
  intros Hi Hf q. destruct (decide (q = p)) as [->|Hq]; [|by rewrite lookup_insert_ne].
  rewrite lookup_insert_eq, Hi. cbn. by rewrite Hf.
Qed.

Definition looks (i : DynInst) := (fixed i, marks i).

Lemma looks_fixed s s' : same looks s s' → same fixed s s'.
Proof. intros H p. specialize (H p). destruct (s !! p), (s' !! p); try done. injection H. cbn. unfold fixed. congruence. Qed.
Lemma looks_marks s s' : same looks s s' → same marks s s'.
Proof. intros H p. specialize (H p). destruct (s !! p), (s' !! p); try done. injection H. cbn. unfold marks. congruence. Qed.

(** Is an instruction marked to serialize before it, whatever it is by nature? *)
Definition tempMark (s : store) (p : DynInstPtr) : bool :=
  match s !! p with Some i => isTempSerializeBefore i | None => false end.

Definition squashedAt (s : store) (p : DynInstPtr) : bool :=
  match s !! p with Some i => isSquashed i | None => false end.

Lemma fixed_squashedAt s s' p : same fixed s s' → squashedAt s' p = squashedAt s p.
Proof. intros H. specialize (H p). unfold squashedAt. destruct (s !! p), (s' !! p); try done. injection H. by intros ->. Qed.

Lemma tempMark_marks s s' p : marks <$> s' !! p = marks <$> s !! p → tempMark s' p = tempMark s p.
Proof. unfold tempMark. destruct (s !! p), (s' !! p); try done. by intros [= ->]. Qed.
Lemma tempMark_temp s s' p :
  isTempSerializeBefore <$> s' !! p = isTempSerializeBefore <$> s !! p → tempMark s' p = tempMark s p.
Proof. unfold tempMark. destruct (s !! p), (s' !! p); try done. by intros [= ->]. Qed.
Lemma tempMark_Some s p i : s !! p = Some i → tempMark s p = isTempSerializeBefore i.
Proof. unfold tempMark. by intros ->. Qed.
Lemma marks_both (s s' : store) p :
  isTempSerializeBefore <$> s' !! p = isTempSerializeBefore <$> s !! p →
  isSerializeHandled <$> s' !! p = isSerializeHandled <$> s !! p → marks <$> s' !! p = marks <$> s !! p.
Proof. destruct (s !! p), (s' !! p); try done. intros [= H1] [= H2]. cbn. unfold marks. by rewrite H1, H2. Qed.

Ltac marks_of := unfold looks, fixed, marks, isTempSerializeBefore, isSerializeHandled, setSerializeBefore,
  setSerializeHandled, clearSerializeBefore; autounfold with dyn; cbn; autorewrite with bits; cbn;
  rewrite ?andb_true_r, ?orb_true_r.

Lemma taint_looks cfg src i j : taint cfg src i = Ok j → looks j = looks i.
Proof.
  unfold taint. intros H. set (k := if _ || _ then _ else i) in H.
  assert (looks k = looks i) as <- by (unfold k; by destruct (_ || _)).
  destruct (isDataRestricted k); cbn in H; [by inv_ok H|]. unfold setDataRestricted in H. inv_ok H. marks_of. done.
Qed.

Lemma markReady_looks k i j : markSrcRegReadyIdx k i = Ok j → looks j = looks i.
Proof.
  unfold markSrcRegReadyIdx, markSrcRegReady. intros H. destruct (_ <? _) in H; [done|]. inv_ok H.
  destruct (_ =? _); [|done]. marks_of. done.
Qed.

Section loop.
Context (rf : PhysRegFile) (cfg : DolmaConfig) (flattenRegId : RegId → RegId) {HSO : StaticOperands}.

Lemma renameSrc_looks tid p x q s e s' : renameSrc rf cfg flattenRegId tid p x q s e = Ok s' → same looks s s'.
Proof.
  destruct e as [k a]. unfold renameSrc. intros H. inv_ok1 H. apply deref_Ok in E. rename a0 into i. inv_ok1 H.
  destruct (bool_decide _); [done|]. inv_ok1 H. inv_ok1 H. destruct a1.
  2: { injection H as <-. by apply (same_insert _ _ _ i). }
  inv_ok1 H. apply markReady_looks in E3. rename a1 into j.
  change (looks (set_srcRegIdx (arr_set k a0 (srcRegIdx i)) i)) with (looks i) in E3.
  assert (same looks s (<[p:=j]> s)) as Hj by by apply (same_insert _ _ _ i).
  destruct (RegId_isZeroReg a); [by injection H as <-|]. inv_ok1 H. destruct a1 as [pr|]; [|by injection H as <-].
  inv_ok1 H. destruct (_ && _); [|by injection H as <-]. inv_ok1 H. inv_ok1 H. injection H as <-.
  apply taint_looks in E7. etrans; [exact Hj|]. apply (same_insert _ _ _ j); [apply lookup_insert_eq|done].
Qed.

Lemma foldM_looks {A} (f : store → A → outcome store) l : (∀ s a s', f s a = Ok s' → same looks s s') →
  ∀ s s', foldM f l s = Ok s' → same looks s s'.
Proof.
  intros Hf. induction l as [|a l IH]; intros s s' H; cbn [foldM] in H; [by injection H as <-|].
  inv_ok1 H. etrans; [by eapply Hf|by apply IH].
Qed.

Lemma renameDests_looks tid p l : ∀ xqs xqs',
  foldM (renameDest rf flattenRegId tid p) l xqs = Ok xqs' → same looks (snd xqs) (snd xqs').
Proof.
  induction l as [|[k a] l IH]; intros [[x q] s] xqs' H; cbn [foldM] in H; [by injection H as <-|].
  inv_ok1 H. etrans; [|by eapply IH]. clear H IH. unfold renameDest in E. inv_ok1 E. apply deref_Ok in E0. inv_ok1 E.
  destruct a2 as [[[new prev] m] fl]. inv_ok1 E. inv_ok1 E. injection E as <-. by apply (same_insert _ _ _ a1).
Qed.

(** ** The fields the loop leaves alone *)

(** The queues and counters the loop works on are blanked out. *)
Definition rest (x : RenStage) : RenStage :=
  set_rn_insts (λ _, []) (set_rn_skidBuffer (λ _, []) (set_serializeOnNextInst (λ _, false)
    (set_loadsInProgress (λ _, 0) (set_storesInProgress (λ _, 0) (set_renamed [] x))))).

Definition queuesOf (x : RenStage) (t : ThreadID) : list DynInstPtr * list DynInstPtr :=
  (rn_skidBuffer x t, rn_insts x t).
Definition loadsOf (x : RenStage) (t : ThreadID) : Z * Z := (loadsInProgress x t, storesInProgress x t).

Lemma renameOne_spec tid p w w' :
  renameOne rf cfg flattenRegId tid p w = Ok w' →
  ∃ i, rw_insts w !! p = Some i ∧ same looks (rw_insts w) (rw_insts w') ∧ rest (rw w') = rest (rw w) ∧
    (∀ t, queuesOf (rw w') t = queuesOf (rw w) t) ∧ renamed (rw w') = renamed (rw w) ++ [p] ∧
    (∀ t, serializeOnNextInst (rw w') t = serializeOnNextInst (rw w) t) ∧
    (∀ t, t ≠ tid → loadsOf (rw w') t = loadsOf (rw w) t) ∧
    loadsOf (rw w') tid = (loadsInProgress (rw w) tid + (if isLoad i then 1 else 0),
                           storesInProgress (rw w) tid + (if isStore i then 1 else 0)).
Proof.
  unfold renameOne. intros H. inv_ok1 H. apply deref_Ok in E. rename a into i. exists i. split; [done|].
  inv_ok1 H. inv_ok1 H. destruct a0 as [[r q] s2]. injection H as <-. cbn [rw rw_set rw_insts rw_set_insts rw_set_iq rw_set_regs].
  split. { etrans; [by eapply foldM_looks; [apply renameSrc_looks|exact E0]|].
           apply (renameDests_looks _ _ _ _ _ E1). }
  destruct (isLoad i), (isStore i); (split; [done|]); (split; [done|]); (split; [done|]); (split; [done|]);
    (split; [intros t Ht|]); unfold loadsOf; cbn; rewrite ?fn_lookup_insert_ne, ?fn_lookup_insert by done; f_equal; lia.
Qed.

(** ** The loop *)

Lemma live_fixed s s' l : same fixed s s' → live s' l = live s l.
Proof.
  intros H. apply list_filter_iff. intros p. specialize (H p).
  destruct (s !! p), (s' !! p); try done. injection H. cbn. intros -> _ _ _. done.
Qed.

Lemma live_one (s : store) p i : s !! p = Some i → live s [p] = if isSquashed i then [] else [p].
Proof. intros Hi. unfold live, filter. cbn. rewrite Hi. cbn. by destruct (isSquashed i). Qed.

Lemma setRenameQueue_spec fs tid l x :
  toRename fs tid (setRenameQueue fs tid l x) = l ∧
  toRename (negb fs) tid (setRenameQueue fs tid l x) = toRename (negb fs) tid x ∧
  (∀ t, t ≠ tid → queuesOf (setRenameQueue fs tid l x) t = queuesOf x t) ∧ rest (setRenameQueue fs tid l x) = rest x ∧
  renamed (setRenameQueue fs tid l x) = renamed x ∧ loadsOf (setRenameQueue fs tid l x) = loadsOf x ∧
  serializeOnNextInst (setRenameQueue fs tid l x) = serializeOnNextInst x.
Proof.
  destruct fs; cbn; rewrite fn_lookup_insert; split_and!; try done; intros t Ht; unfold queuesOf; cbn;
    by rewrite fn_lookup_insert_ne.
Qed.

Lemma asInt_pred z : 0 < asInt z → asInt (z - 1) = asInt z - 1.
Proof.
  unfold asInt. intros H. replace (z - 1 + 2 ^ 31) with (z + 2 ^ 31 - 1) by lia.
  pose proof (Z.mod_pos_bound (z + 2 ^ 31) (2 ^ 32) ltac:(lia)) as Hb.
  assert ((z + 2 ^ 31 - 1) mod 2 ^ 32 = (z + 2 ^ 31) mod 2 ^ 32 - 1) as ->; [|lia].
  symmetry. apply Z.mod_unique with (q := (z + 2 ^ 31) / 2 ^ 32); [lia|].
  pose proof (Z.div_mod (z + 2 ^ 31) (2 ^ 32) ltac:(lia)). lia.
Qed.

Definition isLoadAt (s : store) (p : DynInstPtr) : bool := match s !! p with Some i => isLoad i | None => false end.
Definition isStoreAt (s : store) (p : DynInstPtr) : bool := match s !! p with Some i => isStore i | None => false end.
Definition count (f : DynInstPtr → bool) (l : list DynInstPtr) : Z := Z.of_nat (length (filter (λ p, f p = true) l)).

(** Does the instruction ask for the next one to be serialized? *)
Definition demands (i : DynInst) : bool := isStoreConditional i || static i DynInst.IsSerializeAfter.

Lemma demands_must i : demands i = true → isSerializeHandled i = false → mustSerializeAfter i = true.
Proof.
  unfold demands, mustSerializeAfter, isSerializeAfter. intros Hd ->. rewrite andb_true_r.
  apply orb_true_iff in Hd as [->| ->]; [done|]. by rewrite orb_true_r.
Qed.

Lemma fixed_demands i j : fixed i = fixed j → demands i = demands j.
Proof. unfold fixed, demands, isStoreConditional, static. by intros [= _ _ -> _]. Qed.

(** A queue without squashed instructions, of which none but the first was handled. *)
Record orderly (s : store) (l : list DynInstPtr) : Prop := {
  od_nodup : NoDup l;
  od_live : ∀ p i, p ∈ l → s !! p = Some i → isSquashed i = false;
  od_handled : ∀ p i, p ∈ tail l → s !! p = Some i → isSerializeHandled i = false;
}.

Lemma orderly_app_l s l1 l2 : orderly s (l1 ++ l2) → orderly s l1.
Proof.
  intros [H1 H2 H3]. split; [by apply NoDup_app in H1 as (? & _)|..]; intros p i Hp.
  - apply H2. apply elem_of_app. by left.
  - apply H3. destruct l1; [by apply elem_of_nil in Hp|]. cbn in *. apply elem_of_app. by left.
Qed.

(** The next instruction is marked, or will be when there is one. *)
Definition asked (fs : bool) (tid : ThreadID) (w : Ren) : Prop :=
  toRename fs tid (rw w) = [] ∧ serializeOnNextInst (rw w) tid = true ∨
  ∃ q k, toRename fs tid (rw w) = q :: k ∧ tempMark (rw_insts w) q = true.

(** The loop has taken [l] from the queue. *)
Record ranTo (inp : RenameInputs) (fs : bool) (tid : ThreadID) (l : list DynInstPtr) (w w' : Ren) : Prop := {
  rr_queue : toRename fs tid (rw w) = l ++ toRename fs tid (rw w');
  rr_other : toRename (negb fs) tid (rw w') = toRename (negb fs) tid (rw w);
  rr_others : ∀ t, t ≠ tid → queuesOf (rw w') t = queuesOf (rw w) t ∧ loadsOf (rw w') t = loadsOf (rw w) t ∧
    serializeOnNextInst (rw w') t = serializeOnNextInst (rw w) t;
  rr_rest : rest (rw w') = rest (rw w);
  rr_renamed : renamed (rw w') = renamed (rw w) ++ live (rw_insts w) l;
  rr_fixed : same fixed (rw_insts w) (rw_insts w');
  rr_handled : ∀ q, q ∉ l → isSerializeHandled <$> rw_insts w' !! q = isSerializeHandled <$> rw_insts w !! q;
  rr_grow : ∀ q i j, rw_insts w !! q = Some i → rw_insts w' !! q = Some j →
    isTempSerializeBefore i = true → isTempSerializeBefore j = true;
  rr_touched : ∀ q, q ∉ toRename fs tid (rw w) → marks <$> rw_insts w' !! q = marks <$> rw_insts w !! q;
  rr_free : NoDup l → ∀ q i, q ∈ l → rw_insts w !! q = Some i → isSquashed i = false → mustSerializeBefore i = false;
  rr_width : (length (renamed (rw w)) <= renameWidth (rw w))%nat → (length (renamed (rw w')) <= renameWidth (rw w))%nat;
  rr_loads : loadsOf (rw w') tid
    = (loadsInProgress (rw w) tid + count (isLoadAt (rw_insts w)) (live (rw_insts w) l),
       storesInProgress (rw w) tid + count (isStoreAt (rw_insts w)) (live (rw_insts w) l));
  rr_lq : 0 <= calcFreeLQEntries inp tid (rw w) → 0 <= calcFreeLQEntries inp tid (rw w');
  rr_sq : 0 <= calcFreeSQEntries inp tid (rw w) → 0 <= calcFreeSQEntries inp tid (rw w');
  rr_marked : NoDup (toRename fs tid (rw w)) → ∀ q i, q ∈ l → rw_insts w !! q = Some i → isSquashed i = false →
    tempMark (rw_insts w') q = true → isSerializeHandled i = true;
  rr_next : serializeOnNextInst (rw w) tid = true → serializeOnNextInst (rw w') tid = true;
  rr_after : orderly (rw_insts w) (toRename fs tid (rw w)) → ∀ l1 a l2 i, l = l1 ++ a :: l2 →
    rw_insts w !! a = Some i → demands i = true → isSerializeHandled i = false → l2 = [] ∧ asked fs tid w';
}.

Lemma count_app f l1 l2 : count f (l1 ++ l2) = count f l1 + count f l2.
Proof. unfold count. rewrite filter_app, length_app. lia. Qed.

Lemma live_app s l1 l2 : live s (l1 ++ l2) = live s l1 ++ live s l2.
Proof. apply filter_app. Qed.

Lemma count_ext f g l : (∀ p, f p = g p) → count f l = count g l.
Proof. intros H. unfold count. by rewrite (list_filter_iff (λ p, f p = true) (λ p, g p = true)) by (intros p; by rewrite H). Qed.

Lemma fixed_static s s' p (f : StaticInst → bool) :
  same fixed s s' →
  match s' !! p with Some i => f (staticInst i) | None => false end
  = match s !! p with Some i => f (staticInst i) | None => false end.
Proof. intros H. specialize (H p). destruct (s !! p), (s' !! p); try done. injection H. cbn. by intros _ -> _ _. Qed.

Lemma isLoadAt_fixed s s' p : same fixed s s' → isLoadAt s' p = isLoadAt s p.
Proof. apply (fixed_static s s' p (λ si, bs_test (si_flags si) IsLoad)). Qed.
Lemma isStoreAt_fixed s s' p : same fixed s s' → isStoreAt s' p = isStoreAt s p.
Proof. apply (fixed_static s s' p (λ si, bs_test (si_flags si) IsStore)). Qed.

Lemma ranTo_refl inp fs tid w : ranTo inp fs tid [] w w.
Proof.
  split; try done; try (by intros; simplify_eq); try (by rewrite app_nil_r); try (by intros; set_solver).
  - unfold loadsOf, count. cbn. f_equal; lia.
  - intros _ l1 a l2 i H. by destruct l1.
Qed.

Lemma must_looks i j :
  fixed i = fixed j → isSerializeHandled i = isSerializeHandled j →
  (isTempSerializeBefore i = true → isTempSerializeBefore j = true) →
  mustSerializeBefore j = false → mustSerializeBefore i = false.
Proof.
  unfold fixed, mustSerializeBefore, isIprAccess, isSerializeBefore, isTempSerializeBefore, static.
  intros [= _ _ -> _] -> Ht. destruct (isSerializeHandled j); [by rewrite !andb_false_r|]. rewrite !andb_true_r.
  destruct (st i SerializeBefore); [rewrite Ht by done; by rewrite !orb_true_r|].
  rewrite orb_false_r, !orb_false_iff. naive_solver.
Qed.

Lemma mustSerialize_temp i : mustSerializeBefore i = false → isTempSerializeBefore i = true → isSerializeHandled i = true.
Proof.
  unfold mustSerializeBefore, isTempSerializeBefore, isSerializeBefore. intros Hm Ht. rewrite Ht, !orb_true_r in Hm.
  by destruct (isSerializeHandled i).
Qed.

Lemma ranTo_trans inp fs tid l1 l2 w w1 w2 :
  ranTo inp fs tid l1 w w1 → ranTo inp fs tid l2 w1 w2 → ranTo inp fs tid (l1 ++ l2) w w2.
Proof.
  intros [A1 A2 A3 A4 A5 A6 A7 A8 A9 A10 A11 A12 A13 A14 A15 A16 A17] [B1 B2 B3 B4 B5 B6 B7 B8 B9 B10 B11 B12 B13 B14 B15 B16 B17]. split.
  - by rewrite A1, B1, (assoc_L (++)).
  - congruence.
  - intros t Ht. destruct (A3 t Ht) as (? & ? & ?), (B3 t Ht) as (? & ? & ?). split_and!; congruence.
  - congruence.
  - rewrite B5, A5, live_app, (assoc_L (++)). f_equal. by apply live_fixed.
  - by etrans.
  - intros q [H1 H2]%not_elem_of_app. by rewrite B7, A7.
  - intros q i j Hi Hj Ht. pose proof (A6 q) as H. rewrite Hi in H. destruct (rw_insts w1 !! q) as [k|] eqn:Hk; [|done].
    by eapply B8, A8.
  - intros q Hq. rewrite A1 in Hq. apply not_elem_of_app in Hq as Hq'. rewrite B9, A9; [done| |tauto]. by rewrite A1.
  - intros [Hd1 [Hd2 Hd3]]%NoDup_app q i Hq Hi Hs. apply elem_of_app in Hq as [Hq|Hq]; [by eapply A10|].
    assert (q ∉ l1) as Hn by (intros Hn; by apply (Hd2 q)).
    pose proof (A6 q) as H. rewrite Hi in H. destruct (rw_insts w1 !! q) as [k|] eqn:Hk; [|done]. apply (inj Some) in H.
    pose proof (A7 q Hn) as Hh. rewrite Hi, Hk in Hh. apply (inj Some) in Hh.
    apply (must_looks i k); [done|done|by apply (A8 q)|]. apply (B10 Hd3 q k Hq Hk). unfold fixed in H. congruence.
  - intros H. apply A11 in H. pose proof (f_equal renameWidth A4 : renameWidth (rw w1) = renameWidth (rw w)) as Hw.
    rewrite Hw in B11. auto.
  - unfold loadsOf in *. injection A12 as A12 A12'. rewrite B12, A12, A12', live_app, !count_app.
    rewrite (live_fixed _ _ _ A6). rewrite (count_ext (isLoadAt (rw_insts w1)) (isLoadAt (rw_insts w))) by (intros; by apply isLoadAt_fixed).
    rewrite (count_ext (isStoreAt (rw_insts w1)) (isStoreAt (rw_insts w))) by (intros; by apply isStoreAt_fixed). f_equal; lia.
  - auto.
  - auto.
  - intros Hd q i Hq Hi Hs Ht. pose proof Hd as Hd'. rewrite A1 in Hd'. apply NoDup_app in Hd' as (_ & Hd2 & Hd3).
    assert (q ∉ l1 → isSerializeHandled <$> rw_insts w1 !! q = Some (isSerializeHandled i)) as Hh by (intros Hn; by rewrite A7, Hi).
    pose proof (A6 q) as H. rewrite Hi in H. destruct (rw_insts w1 !! q) as [k|] eqn:Hk; [|done]. apply (inj Some) in H.
    destruct (decide (q ∈ l1)) as [Hq1|Hq1].
    + apply (A15 Hd q i Hq1 Hi Hs). rewrite <-Ht. symmetry. apply tempMark_marks, B9. by apply Hd2.
    + apply elem_of_app in Hq as [?|Hq]; [done|]. specialize (Hh Hq1). apply (inj Some) in Hh. rewrite <-Hh.
      apply (B15 Hd3 q k Hq Hk); [|done]. unfold fixed in H. congruence.
  - auto.
  - intros Hod x a y i Hl Hi Hdm Hh. pose proof Hod as [O1 O2 O3]. rewrite A1 in O1, O2, O3.
    pose proof O1 as (N1 & N2 & N3)%NoDup_app.
    assert (∀ q j k, q ∉ l1 → rw_insts w !! q = Some j → rw_insts w1 !! q = Some k →
      isSerializeHandled k = isSerializeHandled j) as Hsame.
    { intros q j k Hq Hj Hk. specialize (A7 q Hq). rewrite Hj, Hk in A7. by apply (inj Some) in A7. }
    assert (∀ q k, rw_insts w1 !! q = Some k → ∃ j, rw_insts w !! q = Some j ∧ fixed j = fixed k) as Hback.
    { intros q k Hk. specialize (A6 q). rewrite Hk in A6. destruct (rw_insts w !! q) as [j|]; [|done]. apply (inj Some) in A6. eauto. }
    assert (orderly (rw_insts w1) (toRename fs tid (rw w1))) as Hod1.
    { split; [done|..].
      - intros q k Hq Hk. destruct (Hback q k Hk) as (j & Hj & Hf). transitivity (isSquashed j); [unfold fixed in Hf; congruence|].
        apply (O2 q j); [apply elem_of_app; by right|done].
      - intros q k Hq Hk. destruct (Hback q k Hk) as (j & Hj & _). assert (q ∈ toRename fs tid (rw w1)) as Hqin by (destruct (toRename fs tid (rw w1)); [done|by right]).
        rewrite (Hsame q j k); [|intros Hx; by apply (N2 q)|done..]. apply (O3 q j); [|done].
        destruct l1; cbn; [done|]. apply elem_of_app. by right. }
    assert (∀ z, l2 = z ++ a :: y → y = [] ∧ asked fs tid w2) as Hsecond.
    { intros z Hz. assert (a ∈ toRename fs tid (rw w1)) as Ha.
      { rewrite B1, Hz. apply elem_of_app. left. apply elem_of_app. right. by left. }
      pose proof (A6 a) as H. rewrite Hi in H. destruct (rw_insts w1 !! a) as [k|] eqn:Hk; [|done]. apply (inj Some) in H.
      apply (B17 Hod1 z a y k Hz Hk); [by rewrite (fixed_demands k i)|]. rewrite (Hsame a i k); [done| |done..].
      intros Hx. by apply (N2 a). }
    apply app_eq_inv in Hl as [([|b z] & Hl & Hy)|(z & Hx & Hl)]; [by apply (Hsecond [])| |by apply (Hsecond z)].
    cbn in Hy. injection Hy as <- ->. destruct (A17 Hod x a z i Hl Hi Hdm Hh) as [-> Hask].
    assert (l2 = []) as ->.
    { destruct l2 as [|b l2]; [done|]. exfalso. unfold asked in Hask. rewrite B1 in Hask. destruct Hask as [[Hx _]|(q & k & Hq & Ht)]; [done|].
      cbn in Hq. injection Hq as -> _. assert (q ∈ toRename fs tid (rw w1)) as Hqin by (rewrite B1; by left).
      unfold tempMark in Ht. destruct (rw_insts w1 !! q) as [m|] eqn:Hm; [|done]. destruct (Hback q m Hm) as (j & Hj & _).
      assert (mustSerializeBefore m = false) as Hmust.
      { apply (B10 (ltac:(rewrite B1 in N3; by apply NoDup_app in N3 as (? & _))) q m); [by left|done|]. by apply (od_live _ _ Hod1 q). }
      apply mustSerialize_temp in Hmust; [|done]. rewrite (Hsame q j m) in Hmust; [|intros Hx; by apply (N2 q)|done..].
      rewrite (O3 q j) in Hmust; [done| |done]. rewrite Hl. destruct x; cbn; repeat (apply elem_of_app; right); done. }
    split; [done|]. cbn in B1. destruct Hask as [[Hq Hf]|(q & k & Hq & Ht)].
    + left. rewrite <-B1. auto.
    + right. exists q, k. rewrite <-B1. split; [done|]. unfold tempMark in Ht. specialize (B6 q).
      destruct (rw_insts w1 !! q) as [m|] eqn:Hm; [|done]. destruct (rw_insts w2 !! q) as [m'|] eqn:Hm'; [|done].
      rewrite (tempMark_Some _ _ _ Hm'). by apply (B8 q m).
Qed.

Lemma rn_modify_Ok f p w w' : rn_modify f p w = Ok w' →
  ∃ i, rw_insts w !! p = Some i ∧ w' = rw_set_insts (<[p := f i]> (rw_insts w)) w.
Proof. unfold rn_modify. intros H. inv_ok1 H. apply modify_Ok in E as (i & Hi & ->). injection H as <-. eauto. Qed.

Lemma setHandled_marks i : fixed (setSerializeHandled i) = fixed i ∧ marks (setSerializeHandled i) = (isTempSerializeBefore i, true).
Proof. marks_of. done. Qed.
Lemma setBefore_marks i : fixed (setSerializeBefore i) = fixed i ∧ marks (setSerializeBefore i) = (true, isSerializeHandled i).
Proof. marks_of. done. Qed.
Lemma clearBefore_marks i : fixed (clearSerializeBefore i) = fixed i ∧ marks (clearSerializeBefore i) = (false, isSerializeHandled i).
Proof. marks_of. by rewrite andb_false_r. Qed.

Lemma same_marks_handled (s s' : store) q : marks <$> s' !! q = marks <$> s !! q → isSerializeHandled <$> s' !! q = isSerializeHandled <$> s !! q.
Proof. destruct (s !! q), (s' !! q); try done. intros [= _ H]. cbn. by f_equal. Qed.

Lemma same_looks_temp s s' q i j :
  same looks s s' → s !! q = Some i → s' !! q = Some j → isTempSerializeBefore j = isTempSerializeBefore i.
Proof. intros H Hi Hj. specialize (H q). rewrite Hi, Hj in H. injection H. unfold marks. congruence. Qed.

(** The marks [serializeAfter] sets before an instruction is renamed. *)
Lemma serializeMarks_spec fs tid p i w w' :
  rw_insts w !! p = Some i →
  (if mustSerializeAfter i
   then let! v := rn_modify setSerializeHandled p w in serializeAfter fs tid v else Ok w) = Ok w' →
  (∀ t, queuesOf (rw w') t = queuesOf (rw w) t) ∧ rest (rw w') = rest (rw w) ∧ renamed (rw w') = renamed (rw w) ∧
  loadsOf (rw w') = loadsOf (rw w) ∧ (∀ t, t ≠ tid → serializeOnNextInst (rw w') t = serializeOnNextInst (rw w) t) ∧
  same fixed (rw_insts w) (rw_insts w') ∧
  (∀ q, q ≠ p → isSerializeHandled <$> rw_insts w' !! q = isSerializeHandled <$> rw_insts w !! q) ∧
  (∀ q, q ≠ p → q ∉ toRename fs tid (rw w) → marks <$> rw_insts w' !! q = marks <$> rw_insts w !! q) ∧
  (∀ q i j, rw_insts w !! q = Some i → rw_insts w' !! q = Some j → isTempSerializeBefore i = true → isTempSerializeBefore j = true) ∧
  (p ∉ toRename fs tid (rw w) → tempMark (rw_insts w') p = isTempSerializeBefore i) ∧
  (serializeOnNextInst (rw w) tid = true → serializeOnNextInst (rw w') tid = true) ∧
  (mustSerializeAfter i = true → asked fs tid w').
Proof.
  intros Hi H. destruct (mustSerializeAfter i);
    [|injection H as <-; split_and!; try done; intros; first [by apply tempMark_Some|by simplify_eq]].
  inv_ok1 H. apply rn_modify_Ok in E as (i' & Hi' & ->). assert (i' = i) as -> by congruence.
  destruct (setHandled_marks i) as [Hf Hm]. unfold serializeAfter in H.
  set (s1 := <[p := setSerializeHandled i]> (rw_insts w)) in *.
  assert (same fixed (rw_insts w) s1) as Hs1 by by apply (same_insert _ _ _ i).
  assert (∀ q, q ≠ p → s1 !! q = rw_insts w !! q) as Hq1 by (intros q Hq; unfold s1; by rewrite lookup_insert_ne).
  assert (∀ q i j, rw_insts w !! q = Some i → s1 !! q = Some j → isTempSerializeBefore i = true → isTempSerializeBefore j = true) as Ht1.
  { intros q a b Ha Hb Ht. destruct (decide (q = p)) as [->|Hq]; [|by rewrite Hq1, Ha in Hb; simplify_eq].
    unfold s1 in Hb. rewrite lookup_insert_eq in Hb. simplify_eq. unfold marks in Hm. congruence. }
  assert (tempMark s1 p = isTempSerializeBefore i) as Hp1.
  { unfold s1, tempMark. rewrite lookup_insert_eq. unfold marks in Hm. congruence. }
  change (toRename fs tid (rw (rw_set_insts s1 w))) with (toRename fs tid (rw w)) in H.
  destruct (toRename fs tid (rw w)) as [|q l] eqn:Hq.
  { injection H as <-. cbn. split_and!; try done; intros; rewrite ?fn_lookup_insert; rewrite ?fn_lookup_insert_ne, ?Hq1 by done; try done.
    left. split; [by destruct fs|]. cbn. by rewrite fn_lookup_insert. }
  apply rn_modify_Ok in H as (j & Hj & ->). cbn [rw_insts rw_set_insts rw] in *. destruct (setBefore_marks j) as [Gf Gm].
  split_and!; try done.
  - etrans; [exact Hs1|]. by apply (same_insert _ _ _ j).
  - intros a Ha. rewrite <-(Hq1 a Ha). destruct (decide (a = q)) as [->|Hne]; [|by rewrite lookup_insert_ne].
    rewrite lookup_insert_eq, Hj. cbn. f_equal. unfold marks in Gm. congruence.
  - intros a Ha Hn. rewrite lookup_insert_ne by set_solver. by rewrite Hq1.
  - intros a b c Hb Hc Ht. destruct (decide (a = q)) as [->|Hne].
    + rewrite lookup_insert_eq in Hc. simplify_eq. unfold marks in Gm. congruence.
    + rewrite lookup_insert_ne in Hc by done. by eapply Ht1.
  - intros [Hne _]%not_elem_of_cons. rewrite <-Hp1. unfold tempMark. by rewrite lookup_insert_ne.
  - intros _. right. exists q, l. split; [done|]. unfold tempMark. cbn [rw_insts rw_set_insts]. rewrite lookup_insert_eq.
    unfold marks in Gm. congruence.
Qed.

Lemma drop_ranTo inp fs tid w p l i :
  toRename fs tid (rw w) = p :: l → rw_insts w !! p = Some i → isSquashed i = true →
  ranTo inp fs tid [p] w (rw_on (setRenameQueue fs tid l) w).
Proof.
  intros Hq Hi Hs. destruct (setRenameQueue_spec fs tid l (rw w)) as (S1 & S2 & S3 & S4 & S5 & S6 & S7).
  assert (live (rw_insts w) [p] = []) as Hl by by rewrite (live_one _ _ _ Hi), Hs.
  split; cbn [rw rw_on rw_set rw_insts]; try done; rewrite ?S5, ?S6, ?Hl; try done; try (by intros; simplify_eq).
  - by rewrite Hq, S1.
  - intros t Ht. rewrite ?S6, S7. auto.
  - by rewrite app_nil_r.
  - intros _ q j ->%list_elem_of_singleton Hj Hf. congruence.
  - unfold loadsOf, count. cbn. f_equal; lia.
  - unfold calcFreeLQEntries. by rewrite (f_equal freeEntries S4 : freeEntries (setRenameQueue fs tid l (rw w)) = _), (f_equal (λ g, fst (g tid)) S6 : loadsInProgress (setRenameQueue fs tid l (rw w)) tid = _).
  - unfold calcFreeSQEntries. by rewrite (f_equal freeEntries S4 : freeEntries (setRenameQueue fs tid l (rw w)) = _), (f_equal (λ g, snd (g tid)) S6 : storesInProgress (setRenameQueue fs tid l (rw w)) tid = _).
  - intros _ q j ->%list_elem_of_singleton Hj Hf _. congruence.
  - by rewrite S7.
  - intros Hod x a y j Hx Ha. assert (a ∈ [p]) as ->%list_elem_of_singleton by (rewrite Hx; apply elem_of_app; right; by left).
    rewrite (od_live _ _ Hod p i) in Hs; [done| |done]. rewrite Hq. by left.
Qed.

Lemma calc_same inp tid x y :
  freeEntries x = freeEntries y → loadsOf x tid = loadsOf y tid →
  calcFreeLQEntries inp tid x = calcFreeLQEntries inp tid y ∧ calcFreeSQEntries inp tid x = calcFreeSQEntries inp tid y.
Proof. unfold calcFreeLQEntries, calcFreeSQEntries, loadsOf. by intros -> [= -> ->]. Qed.

Lemma lq_room e n d (b : bool) : (b = true → 0 < asInt (e - (n - d))) → 0 <= asInt (e - (n - d)) → 0 <= asInt (e - (n + (if b then 1 else 0) - d)).
Proof.
  intros Hb H. destruct b; [|by rewrite Z.add_0_r]. replace (e - (n + 1 - d)) with (e - (n - d) - 1) by lia.
  rewrite asInt_pred; [specialize (Hb eq_refl); lia|auto].
Qed.

Lemma queuesOf_toRename fs tid x y : queuesOf x tid = queuesOf y tid → toRename fs tid x = toRename fs tid y.
Proof. unfold queuesOf. intros [= H1 H2]. by destruct fs. Qed.

Lemma send_ranTo inp fs tid w p l i v w' :
  toRename fs tid (rw w) = p :: l → rw_insts w !! p = Some i → isSquashed i = false → mustSerializeBefore i = false →
  (length (renamed (rw w)) < renameWidth (rw w))%nat →
  (isLoad i = true → 0 < calcFreeLQEntries inp tid (rw w)) → (isStore i = true → 0 < calcFreeSQEntries inp tid (rw w)) →
  (if mustSerializeAfter i
   then let! v := rn_modify setSerializeHandled p (rw_on (setRenameQueue fs tid l) w) in serializeAfter fs tid v
   else Ok (rw_on (setRenameQueue fs tid l) w)) = Ok v →
  renameOne rf cfg flattenRegId tid p v = Ok w' → ranTo inp fs tid [p] w w'.
Proof.
  intros Hq Hi Hs Hm Hw Hlq Hsq Hmark Hone.
  destruct (setRenameQueue_spec fs tid l (rw w)) as (S1 & S2 & S3 & S4 & S5 & S6 & S7).
  apply (serializeMarks_spec fs tid p i (rw_on (setRenameQueue fs tid l) w)) in Hmark; [|done].
  destruct Hmark as (M1 & M2 & M3 & M4 & M5 & M6 & M7 & M8 & M9 & M10 & M11 & M12). cbn [rw rw_on rw_set rw_insts] in *.
  apply renameOne_spec in Hone as (j & Hj & R1 & R2 & R3 & R4 & R5 & R6 & R7).
  assert (fixed j = fixed i) as Hij.
  { pose proof (M6 p) as H. rewrite Hi, Hj in H. by apply (inj Some) in H. }
  assert (isLoad j = isLoad i ∧ isStore j = isStore i) as [Hjl Hjs].
  { unfold fixed in Hij. injection Hij as _ _ Hsi _. unfold isLoad, isStore, static. by rewrite Hsi. }
  assert (live (rw_insts w) [p] = [p]) as Hl by by rewrite (live_one _ _ _ Hi), Hs.
  assert (∀ t, queuesOf (rw w') t = queuesOf (setRenameQueue fs tid l (rw w)) t) as Hqs by (intros t; by rewrite R3, M1).
  assert (∀ b, toRename b tid (rw w') = toRename b tid (setRenameQueue fs tid l (rw w))) as Htr.
  { intros b. specialize (Hqs tid). unfold queuesOf in Hqs. injection Hqs as E1 E2. by destruct b. }
  assert (rest (rw w') = rest (rw w)) as Hrest by congruence.
  assert (freeEntries (rw w') = freeEntries (rw w)) as Hfe by exact (f_equal freeEntries Hrest).
  assert (loadsOf (rw w') tid = (loadsInProgress (rw w) tid + (if isLoad i then 1 else 0),
                                 storesInProgress (rw w) tid + (if isStore i then 1 else 0))) as Hlo.
  { rewrite R7, Hjl, Hjs. rewrite S6 in M4. f_equal; f_equal;
      [exact (f_equal (λ g, fst (g tid)) M4)|exact (f_equal (λ g, snd (g tid)) M4)]. }
  split; try done.
  - by rewrite Htr, Hq, S1.
  - by rewrite Htr, S2.
  - intros t Ht. rewrite Hqs, S3, R6, M4, S6, R5, M5, S7 by done. done.
  - by rewrite R4, M3, S5, Hl.
  - etrans; [exact M6|]. by apply looks_fixed.
  - intros q [Hne _]%not_elem_of_cons. etrans; [apply same_marks_handled, (looks_marks _ _ R1)|]. by apply M7.
  - intros q a b Ha Hb Ht. pose proof (M6 q) as H. rewrite Ha in H. destruct (rw_insts v !! q) as [c|] eqn:Hc; [|done].
    rewrite (same_looks_temp _ _ _ _ _ R1 Hc Hb). by eapply M9.
  - intros q Hn. rewrite Hq in Hn. apply not_elem_of_cons in Hn as [Hn1 Hn2].
    etrans; [apply (looks_marks _ _ R1)|]. apply M8; [done|]. by rewrite S1.
  - intros _ q a ->%list_elem_of_singleton Ha _. by simplify_eq.
  - intros _. rewrite R4, M3, S5, length_app. cbn. lia.
  - rewrite Hlo, Hl. unfold count, filter. cbn. unfold isLoadAt, isStoreAt. rewrite Hi.
    by destruct (isLoad i), (isStore i).
  - unfold loadsOf in Hlo. injection Hlo as Hlo _. unfold calcFreeLQEntries in *. rewrite Hfe, Hlo. by apply lq_room.
  - unfold loadsOf in Hlo. injection Hlo as _ Hlo. unfold calcFreeSQEntries in *. rewrite Hfe, Hlo. by apply lq_room.
  - rewrite Hq. intros [Hn _]%NoDup_cons q a ->%list_elem_of_singleton Ha _ Ht. assert (a = i) as -> by congruence.
    rewrite (tempMark_marks _ _ _ (looks_marks _ _ R1 p)), M10 in Ht by by rewrite S1.
    by apply mustSerialize_temp.
  - rewrite R5. rewrite S7 in M11. exact M11.
  - intros _ x a y m Hx Ha Hd Hh. destruct x as [|b x]; [|by destruct x]. injection Hx as -> ->.
    assert (m = i) as -> by congruence. split; [done|]. pose proof (demands_must _ Hd Hh) as Hask. apply M12 in Hask.
    unfold asked in *. rewrite R5, Htr, <-(queuesOf_toRename fs tid _ _ (M1 tid)).
    destruct Hask as [Hask|(q & k & Hk & Ht)]; [by left|right]. exists q, k. split; [done|].
    by rewrite (tempMark_marks _ _ _ (looks_marks _ _ R1 q)).
Qed.

(** Why the loop stopped with instructions left. *)
Inductive stopped (fs : bool) (tid : ThreadID) (w w' : Ren) : Prop :=
  | StopHere : w' = w → stopped fs tid w w'
  | StopRegisters p l : toRename fs tid (rw w) = p :: l → w' = rw_on (set_blockThisCycle true) w → stopped fs tid w w'
  | StopSerialize p l i : toRename fs tid (rw w) = p :: l → rw_insts w !! p = Some i → isSquashed i = false →
      mustSerializeBefore i = true → startSerializeStall tid p i (rw_on (setRenameQueue fs tid l) w) = Ok w' →
      stopped fs tid w w'.

Lemma renameLoop_spec inp fs tid : ∀ n cnt w m cnt' w',
  renameLoop rf cfg flattenRegId inp fs tid n cnt w = Ok (m, cnt', w') →
  ∃ l w1, ranTo inp fs tid l w w1 ∧ (length l + m = n)%nat ∧
    cnt' = cnt + Z.of_nat (length (live (rw_insts w) l)) ∧ stopped fs tid w1 w' ∧ (m = O → w' = w1).
Proof.
  induction n as [|n IH]; intros cnt w m cnt' w' H; cbn [renameLoop] in H.
  { injection H as <- <- <-. exists [], w. split_and!; try done; [apply ranTo_refl|cbn; lia|by apply StopHere]. }
  assert (∀ v, v = w ∨ v = rw_on (set_blockThisCycle true) w ∧ (∃ p l, toRename fs tid (rw w) = p :: l) →
    (S n, cnt, v) = (m, cnt', w') →
    ∃ l w1, ranTo inp fs tid l w w1 ∧ (length l + m = S n)%nat ∧
      cnt' = cnt + Z.of_nat (length (live (rw_insts w) l)) ∧ stopped fs tid w1 w' ∧ (m = O → w' = w1)) as Hstop.
  { intros v Hv Heq. injection Heq as <- <- <-. exists [], w.
    split_and!; try done; [apply ranTo_refl|cbn; lia|destruct Hv as [->|(-> & p & l & Hp)]; [by apply StopHere|by eapply StopRegisters]]. }
  destruct (Nat.ltb_spec (length (renamed (rw w))) (renameWidth (rw w))) as [Hwd|_]; [|eapply Hstop; [by left|congruence]].
  destruct (toRename fs tid (rw w)) as [|p l] eqn:Hq; [done|]. inv_ok1 H. apply deref_Ok in E. rename a into i.
  destruct (isLoad i && (calcFreeLQEntries inp tid (rw w) <=? 0)) eqn:Hlq; [eapply Hstop; [by left|congruence]|].
  destruct (isStore i && (calcFreeSQEntries inp tid (rw w) <=? 0)) eqn:Hsq; [eapply Hstop; [by left|congruence]|].
  assert (∀ v cnt1, ranTo inp fs tid [p] w v → cnt1 = cnt + Z.of_nat (length (live (rw_insts w) [p])) →
    renameLoop rf cfg flattenRegId inp fs tid n cnt1 v = Ok (m, cnt', w') →
    ∃ l w1, ranTo inp fs tid l w w1 ∧ (length l + m = S n)%nat ∧
      cnt' = cnt + Z.of_nat (length (live (rw_insts w) l)) ∧ stopped fs tid w1 w' ∧ (m = O → w' = w1)) as Hnext.
  { intros v cnt1 Hv -> Hl. destruct (IH _ _ _ _ _ Hl) as (l' & w1 & H1 & H2 & -> & H4 & H5).
    exists (p :: l'), w1. split_and!; try done.
    - by apply (ranTo_trans _ _ _ [p] l' _ v).
    - cbn. lia.
    - rewrite (live_fixed _ _ _ (rr_fixed _ _ _ _ _ _ Hv)). change (p :: l') with ([p] ++ l'). rewrite live_app, length_app. lia. }
  destruct (isSquashed i) eqn:Hs.
  { eapply Hnext; [by eapply drop_ranTo| |exact H]. rewrite (live_one _ _ _ E), Hs. cbn. lia. }
  destruct (canRenameInst i w); cbn [negb] in H; [|eapply Hstop; [right; split; [reflexivity|eauto]|congruence]].
  destruct (mustSerializeBefore i) eqn:Hm.
  { inv_ok1 H. injection H as <- <- <-. exists [], w.
    split_and!; try done; [apply ranTo_refl|cbn; lia|by eapply StopSerialize]. }
  inv_ok1 H. inv_ok1 H. eapply Hnext; [| |exact H].
  - eapply (send_ranTo inp fs tid w p l i); try done.
    + intros Hl. rewrite Hl in Hlq. cbn in Hlq. lia.
    + intros Hl. rewrite Hl in Hsq. cbn in Hsq. lia.
  - by rewrite (live_one _ _ _ E), Hs.
Qed.

(** ** Frames *)

Definition ident (i : DynInst) : InstSeqNum * ThreadID * StaticInst := (seqNum i, threadNumber i, staticInst i).
Definition signalsOf (x : RenStage) (t : ThreadID) : RenameStatus * bool * bool :=
  (renameStatus x t, renameBlock x t, renameUnblock x t).
Definition ofThread (x : RenStage) (t : ThreadID) :=
  (queuesOf x t, signalsOf x t, (serializeInst x t, serializeOnNextInst x t), (instsInProgress x t, loadsOf x t),
   (freeEntries x t, emptyROB x t, iewStall x t)).
Definition constants (x : RenStage) := (renameWidth x, rn_skidBufferMax x, rn_numThreads x, rn_activeThreads x).
(** What waits in the stage, in the order decode sent it. *)
Definition waits (tid : ThreadID) (x : RenStage) : list DynInstPtr := rn_skidBuffer x tid ++ rn_insts x tid.
Definition holds (tid : ThreadID) (x : RenStage) : list DynInstPtr := option_list (serializeInst x tid) ++ waits tid x.

(** A step of thread [tid]. *)
Record frames (tid : ThreadID) (w w' : Ren) : Prop := {
  fr_other : ∀ t, t ≠ tid → ofThread (rw w') t = ofThread (rw w) t;
  fr_const : constants (rw w') = constants (rw w);
  fr_ident : same ident (rw_insts w) (rw_insts w');
  fr_marks : ∀ q, q ∉ holds tid (rw w) → marks <$> rw_insts w' !! q = marks <$> rw_insts w !! q;
  fr_holds : holds tid (rw w') ⊆ holds tid (rw w);
  fr_squashed : ∀ q, squashedAt (rw_insts w) q = true → squashedAt (rw_insts w') q = true;
}.

#[export] Instance frames_preorder tid : PreOrder (frames tid).
Proof.
  split; [by intros w; split|]. intros w1 w2 w3 [A1 A2 A3 A4 A5 A6] [B1 B2 B3 B4 B5 B6]. split; try congruence.
  - intros t Ht. by rewrite B1, A1.
  - intros q Hq. rewrite B4, A4; auto.
  - by transitivity (holds tid (rw w2)).
  - auto.
Qed.

Lemma fixed_ident s s' : same fixed s s' → same ident s s'.
Proof. intros H p. specialize (H p). destruct (s !! p), (s' !! p); try done. injection H. cbn. unfold ident. congruence. Qed.

(** All but the queues, the status and the signals to decode. *)
Definition calm (x : RenStage) : RenStage :=
  set_rn_insts (λ _, []) (set_rn_skidBuffer (λ _, []) (set_renameStatus (λ _, RnIdle)
    (set_renameBlock (λ _, false) (set_renameUnblock (λ _, false) (set_rn_wroteToTimeBuffer false x))))).

Lemma calm_frames tid w x :
  calm x = calm (rw w) → (∀ t, t ≠ tid → queuesOf x t = queuesOf (rw w) t ∧ signalsOf x t = signalsOf (rw w) t) →
  waits tid x ⊆ waits tid (rw w) → frames tid w (rw_set x w).
Proof.
  intros Hc Ho Hw. split; cbn [rw rw_set rw_insts]; try done.
  - intros t Ht. destruct (Ho t Ht) as [Hq Hs]. unfold ofThread. rewrite Hq, Hs.
    exact (f_equal (λ y, (queuesOf (rw w) t, signalsOf (rw w) t, (serializeInst y t, serializeOnNextInst y t),
      (instsInProgress y t, loadsOf y t), (freeEntries y t, emptyROB y t, iewStall y t))) Hc).
  - exact (f_equal constants Hc).
  - unfold holds. rewrite (f_equal (λ y, serializeInst y tid) Hc : serializeInst x tid = serializeInst (rw w) tid). set_solver.
Qed.

(** The effect of [block] on a thread's status and signals. *)
Definition blockSignals (ru : bool) (g : RenameStatus * bool * bool) : RenameStatus * bool * bool :=
  let '(s, b, u) := g in
  if bool_decide (s = RnBlocked) then g
  else
    let '(b, u) := if ru || negb (bool_decide (s = RnUnblocking)) then (true, false) else (b, u) in
    (if bool_decide (s = RnSerializeStall) then s else RnBlocked, b, u).

Lemma rn_skidInsert_spec tid w w' :
  rn_skidInsert tid w = Ok w' →
  w' = rw_set (rw w') w ∧ calm (rw w') = calm (rw w) ∧ (∀ t, signalsOf (rw w') t = signalsOf (rw w) t) ∧
  queuesOf (rw w') tid = (waits tid (rw w), []) ∧ (∀ t, t ≠ tid → queuesOf (rw w') t = queuesOf (rw w) t).
Proof.
  unfold rn_skidInsert. intros H. inv_ok1 H. destruct (_ <? _)%nat in H; [done|]. injection H as <-. split; [done|].
  cbn [rw rw_set]. unfold waits.
  assert (∀ l x y, rn_insts x tid = l →
    foldM (λ x p,
      let! i := deref p (rw_insts w) in
      assert! (tid =? threadNumber i)%nat as "skidInsert: tid == inst->threadNumber" in
      Ok (set_rn_skidBuffer (<[tid := rn_skidBuffer x tid ++ [p]]> (rn_skidBuffer x))
            (set_rn_insts (<[tid := tail (rn_insts x tid)]> (rn_insts x)) x))) l x = Ok y →
    calm y = calm x ∧ (∀ t, signalsOf y t = signalsOf x t) ∧ queuesOf y tid = (rn_skidBuffer x tid ++ rn_insts x tid, []) ∧
    (∀ t, t ≠ tid → queuesOf y t = queuesOf x t)) as Hgen; [|by eapply Hgen].
  clear E. induction l as [|p l IH]; intros x y Hl Hf; cbn [foldM] in Hf.
  { injection Hf as <-. unfold queuesOf. by rewrite Hl, app_nil_r. }
  inv_ok1 Hf. inv_ok1 E. inv_ok1 E. injection E as <-. apply IH in Hf; [|cbn; by rewrite fn_lookup_insert, Hl].
  destruct Hf as (H1 & H2 & H3 & H4). split; [exact H1|]. split; [exact H2|]. split.
  - rewrite H3. cbn. rewrite !fn_lookup_insert, Hl. cbn. by rewrite <-(assoc_L (++)).
  - intros t Ht. rewrite H4 by done. unfold queuesOf. cbn. by rewrite !fn_lookup_insert_ne.
Qed.

Lemma blockStage_spec tid x b x' :
  blockStage tid x = (b, x') →
  calm x' = calm x ∧ (∀ t, queuesOf x' t = queuesOf x t) ∧ (∀ t, t ≠ tid → signalsOf x' t = signalsOf x t) ∧
  signalsOf x' tid = blockSignals (resumeUnblocking x) (signalsOf x tid).
Proof.
  unfold blockStage, rn_statusIs, blockSignals, signalsOf.
  destruct (bool_decide_reflect (renameStatus x tid = RnBlocked)) as [Hb|Hb]; [by intros [= <- <-]|].
  destruct (resumeUnblocking x || negb (bool_decide (renameStatus x tid = RnUnblocking))); cbn;
    destruct (bool_decide_reflect (renameStatus x tid = RnSerializeStall)) as [Hs|Hs]; intros [= <- <-];
    (split; [done|]); (split; [done|]);
    (split; [intros t Ht; cbn; by rewrite ?fn_lookup_insert_ne|cbn; by rewrite ?fn_lookup_insert, ?Hs]).
Qed.

Lemma rn_block_spec tid w b w' :
  rn_block tid w = Ok (b, w') →
  w' = rw_set (rw w') w ∧ calm (rw w') = calm (rw w) ∧ frames tid w w' ∧ queuesOf (rw w') tid = (waits tid (rw w), []) ∧
  signalsOf (rw w') tid = blockSignals (resumeUnblocking (rw w)) (signalsOf (rw w) tid).
Proof.
  unfold rn_block. intros H. inv_ok1 H. rename a into v. apply rn_skidInsert_spec in E as (S1 & S2 & S3 & S4 & S5).
  destruct (blockStage tid (rw v)) as [c x] eqn:Hb. apply blockStage_spec in Hb as (B1 & B2 & B3 & B4). injection H as <- <-.
  rewrite S1. cbn [rw rw_set]. split; [done|]. split; [congruence|]. split_and!.
  - apply (calm_frames tid w x); [congruence|intros t Ht; by rewrite B2, B3, S3, S5|].
    unfold waits. specialize (B2 tid). rewrite S4 in B2. injection B2 as -> ->. rewrite app_nil_r. done.
  - by rewrite B2.
  - rewrite B4, (f_equal resumeUnblocking S2 : resumeUnblocking (rw v) = _). by rewrite S3.
Qed.

Lemma rn_unblock_spec tid x b x' :
  rn_unblock tid x = (b, x') →
  calm x' = calm x ∧ (∀ t, queuesOf x' t = queuesOf x t) ∧ (∀ t, t ≠ tid → signalsOf x' t = signalsOf x t) ∧
  (x' = x ∧ (rn_skidBuffer x tid ≠ [] ∨ renameStatus x tid = RnSerializeStall) ∨
   rn_skidBuffer x tid = [] ∧ renameStatus x tid ≠ RnSerializeStall ∧
   signalsOf x' tid = (RnRunning, renameBlock x tid, true)).
Proof.
  unfold rn_unblock, rn_statusIs. destruct (bool_decide_reflect (rn_skidBuffer x tid = [])) as [Hk|Hk],
    (bool_decide_reflect (renameStatus x tid = RnSerializeStall)) as [Hs|Hs]; cbn; intros [= <- <-];
    (split; [done|]); (split; [done|]); (split; [intros t Ht; unfold signalsOf; cbn; by rewrite ?fn_lookup_insert_ne|]); auto.
  right. split_and!; try done. unfold signalsOf. cbn. by rewrite !fn_lookup_insert.
Qed.

(** ** A thread's turn *)

Lemma serializeNext_spec fs tid w w' :
  serializeNext fs tid w = Ok w' →
  (∀ t, queuesOf (rw w') t = queuesOf (rw w) t) ∧ rest (rw w') = rest (rw w) ∧ renamed (rw w') = renamed (rw w) ∧
  loadsOf (rw w') = loadsOf (rw w) ∧ (∀ t, t ≠ tid → serializeOnNextInst (rw w') t = serializeOnNextInst (rw w) t) ∧
  same fixed (rw_insts w) (rw_insts w') ∧ same isSerializeHandled (rw_insts w) (rw_insts w') ∧
  (∀ q, q ∉ toRename fs tid (rw w) → marks <$> rw_insts w' !! q = marks <$> rw_insts w !! q) ∧
  (∀ q i j, rw_insts w !! q = Some i → rw_insts w' !! q = Some j → isTempSerializeBefore i = true → isTempSerializeBefore j = true) ∧
  (serializeOnNextInst (rw w) tid = true → emptyROB (rw w) tid && (instsInProgress (rw w) tid =? 0) = true ∨
     serializeOnNextInst (rw w') tid = true ∧ ∀ q k, toRename fs tid (rw w) = q :: k → tempMark (rw_insts w') q = true).
Proof.
  unfold serializeNext. intros H. assert (w' = w → (∀ q i j, rw_insts w !! q = Some i → rw_insts w' !! q = Some j →
    isTempSerializeBefore i = true → isTempSerializeBefore j = true)) as Hid by (intros ->; intros; by simplify_eq).
  destruct (serializeOnNextInst (rw w) tid) eqn:Hfl; [|injection H as <-; split_and!; try done; by apply Hid].
  destruct (_ && _).
  { injection H as <-. cbn. split_and!; try done; intros; simplify_eq; first [done|by left|by rewrite fn_lookup_insert_ne]. }
  destruct (toRename fs tid (rw w)) as [|q l] eqn:Hq; [injection H as <-; split_and!; try done; [by apply Hid|by right]|].
  apply rn_modify_Ok in H as (j & Hj & ->). cbn [rw rw_set_insts rw_insts]. destruct (setBefore_marks j) as [Gf Gm].
  split_and!; try done.
  - by apply (same_insert _ _ _ j).
  - apply (same_insert _ _ _ j); [done|]. unfold marks in Gm. congruence.
  - intros a Ha. rewrite lookup_insert_ne; [done|]. set_solver.
  - intros a b c Hb Hc Ht. destruct (decide (a = q)) as [->|Hne].
    + rewrite lookup_insert_eq in Hc. simplify_eq. unfold marks in Gm. congruence.
    + rewrite lookup_insert_ne in Hc by done. congruence.
  - intros _. right. split; [done|]. intros a k [= <- _]. unfold tempMark. rewrite lookup_insert_eq.
    unfold marks in Gm. congruence.
Qed.

(** All but what a serialize stall changes. *)
Definition awake (x : RenStage) : RenStage :=
  set_blockThisCycle false (set_serializeInst (λ _, None) (set_renameStatus (λ _, RnIdle) x)).

Lemma startSerializeStall_spec tid p i w w' :
  rw_insts w !! p = Some i → startSerializeStall tid p i w = Ok w' →
  awake (rw w') = awake (rw w) ∧ serializeInst (rw w') tid = Some p ∧ blockThisCycle (rw w') = true ∧
  (∀ t, t ≠ tid → serializeInst (rw w') t = serializeInst (rw w) t ∧ renameStatus (rw w') t = renameStatus (rw w) t) ∧
  renameStatus (rw w') tid = RnSerializeStall ∧ same fixed (rw_insts w) (rw_insts w') ∧
  (∀ q, q ≠ p → isSerializeHandled <$> rw_insts w' !! q = isSerializeHandled <$> rw_insts w !! q) ∧
  same isTempSerializeBefore (rw_insts w) (rw_insts w') ∧
  (isTempSerializeBefore i = true → isSerializeHandled <$> rw_insts w' !! p = Some (isSerializeHandled i)).
Proof.
  unfold startSerializeStall. intros Hi H. inv_ok1 H. injection H as <-.
  cbn [rw rw_on rw_set rw_insts set_blockThisCycle rn_setSerializeInst set_serializeInst rn_setStatus set_renameStatus
       serializeInst blockThisCycle renameStatus].
  assert (same fixed (rw_insts w) (rw_insts a) ∧ rw a = rw w ∧
    (∀ q, q ≠ p → isSerializeHandled <$> rw_insts a !! q = isSerializeHandled <$> rw_insts w !! q) ∧
    same isTempSerializeBefore (rw_insts w) (rw_insts a) ∧
    (isTempSerializeBefore i = true → isSerializeHandled <$> rw_insts a !! p = Some (isSerializeHandled i))) as (Hf & -> & Hh & Ht & Hn).
  { destruct (isTempSerializeBefore i); [injection E as <-; split_and!; try done; by rewrite Hi|]. apply rn_modify_Ok in E as (j & Hj & ->).
    destruct (setHandled_marks j) as [Gf Gm].
    split; [by apply (same_insert _ _ _ j)|]. split; [done|]. split.
    - intros q Hq. cbn. by rewrite lookup_insert_ne.
    - split; [|done]. apply (same_insert _ _ _ j); [done|]. unfold marks in Gm. congruence. }
  rewrite !fn_lookup_insert. split_and!; try done; intros; by rewrite !fn_lookup_insert_ne.
Qed.

Definition noUnblock (g : RenameStatus * bool * bool) : RenameStatus * bool * bool :=
  let '(s, b, _) := g in (s, b, false).
Definition stalledNow (g : RenameStatus * bool * bool) : RenameStatus * bool * bool :=
  let '(_, b, u) := g in (RnSerializeStall, b, u).

(** How the turn of a thread that renamed [l] ends. *)
Inductive ended (tid : ThreadID) (l : list DynInstPtr) (w w' : Ren) : Prop :=
  | Through : waits tid (rw w) = l ++ waits tid (rw w') → serializeInst (rw w') tid = serializeInst (rw w) tid →
      signalsOf (rw w') tid = signalsOf (rw w) tid →
      (renameStatus (rw w) tid ≠ RnUnblocking → rn_skidBuffer (rw w') tid = []) → ended tid l w w'
  | Blocked u : waits tid (rw w) = l ++ waits tid (rw w') → serializeInst (rw w') tid = serializeInst (rw w) tid →
      let g := blockSignals (resumeUnblocking (rw w)) (signalsOf (rw w) tid) in
      signalsOf (rw w') tid = (if u : bool then noUnblock g else g) → rn_insts (rw w') tid = [] → ended tid l w w'
  | Serialized p i : waits tid (rw w) = l ++ p :: waits tid (rw w') → serializeInst (rw w') tid = Some p →
      rw_insts w' !! p = Some i → isSquashed i = false → isIprAccess i || isSerializeBefore i = true →
      (NoDup (l ++ [p]) → isSerializeHandled <$> rw_insts w !! p = Some false) →
      signalsOf (rw w') tid = noUnblock (blockSignals (resumeUnblocking (rw w)) (stalledNow (signalsOf (rw w) tid))) →
      rn_insts (rw w') tid = [] →
      (isSerializeHandled i = true → isIprAccess i || static i DynInst.IsSerializeBefore = true) → ended tid l w w'.

(** The next instruction is marked, or will be when there is one; the thread may wait with
    it already. *)
Definition askedFor (tid : ThreadID) (w : Ren) : Prop :=
  serializeOnNextInst (rw w) tid = true ∨
  ∃ q, tempMark (rw_insts w) q = true ∧
    (head (waits tid (rw w)) = Some q ∨
     serializeInst (rw w) tid = Some q ∧ renameStatus (rw w) tid = RnSerializeStall).

(** The thread knows the reorder buffer to be empty, and has nothing on the way. *)
Definition quietNow (tid : ThreadID) (x : RenStage) : bool := emptyROB x tid && (instsInProgress x tid =? 0).

(** What [renameInsts] did: it took [l]. *)
Record turn (inp : RenameInputs) (tid : ThreadID) (l : list DynInstPtr) (w w' : Ren) : Prop := {
  tn_frames : frames tid w w';
  tn_renamed : renamed (rw w') = renamed (rw w) ++ live (rw_insts w) l;
  tn_progress : instsInProgress (rw w') tid = instsInProgress (rw w) tid + Z.of_nat (length (live (rw_insts w) l));
  tn_fixed : same fixed (rw_insts w) (rw_insts w');
  tn_handled : ∀ q, q ∉ l → Some q ≠ serializeInst (rw w') tid →
    isSerializeHandled <$> rw_insts w' !! q = isSerializeHandled <$> rw_insts w !! q;
  tn_old : ∀ q, q ∉ waits tid (rw w) → marks <$> rw_insts w' !! q = marks <$> rw_insts w !! q;
  tn_flags : resumeSerialize (rw w') = resumeSerialize (rw w) ∧ resumeUnblocking (rw w') = resumeUnblocking (rw w);
  tn_room : (freeEntries (rw w') tid, emptyROB (rw w') tid, iewStall (rw w') tid)
    = (freeEntries (rw w) tid, emptyROB (rw w) tid, iewStall (rw w) tid);
  tn_free : NoDup l → ∀ q i, q ∈ l → rw_insts w !! q = Some i → isSquashed i = false → mustSerializeBefore i = false;
  tn_credit : l = [] ∨ Z.of_nat (length l) <= Z.min (calcFreeROBEntries inp tid (rw w)) (calcFreeIQEntries inp tid (rw w));
  tn_width : (length (renamed (rw w)) <= renameWidth (rw w))%nat → (length (renamed (rw w')) <= renameWidth (rw w))%nat;
  tn_loads : loadsOf (rw w') tid
    = (loadsInProgress (rw w) tid + count (isLoadAt (rw_insts w)) (live (rw_insts w) l),
       storesInProgress (rw w) tid + count (isStoreAt (rw_insts w)) (live (rw_insts w) l));
  tn_lq : 0 <= calcFreeLQEntries inp tid (rw w) → 0 <= calcFreeLQEntries inp tid (rw w');
  tn_sq : 0 <= calcFreeSQEntries inp tid (rw w) → 0 <= calcFreeSQEntries inp tid (rw w');
  tn_grow : ∀ q, tempMark (rw_insts w) q = true → tempMark (rw_insts w') q = true;
  tn_marked : NoDup (waits tid (rw w)) → ∀ q i, q ∈ l → rw_insts w !! q = Some i → isSquashed i = false →
    tempMark (rw_insts w') q = true → isSerializeHandled i = true;
  tn_next : serializeOnNextInst (rw w) tid = true → quietNow tid (rw w) = true ∨
    match l with [] => serializeOnNextInst (rw w') tid = true | a :: _ => tempMark (rw_insts w') a = true end;
  tn_after : orderly (rw_insts w) (waits tid (rw w)) → ∀ l1 a l2 i, l = l1 ++ a :: l2 →
    rw_insts w !! a = Some i → demands i = true → isSerializeHandled i = false → l2 = [] ∧ askedFor tid w';
  tn_ended : ended tid l w w';
}.

(** The state between the loop and the decision to block. *)
Record midTurn (inp : RenameInputs) (tid : ThreadID) (l : list DynInstPtr) (w w' : Ren) : Prop := {
  mt_other : ∀ t, t ≠ tid → ofThread (rw w') t = ofThread (rw w) t;
  mt_const : constants (rw w') = constants (rw w);
  mt_own : (instsInProgress (rw w') tid, freeEntries (rw w') tid, emptyROB (rw w') tid, iewStall (rw w') tid)
    = (instsInProgress (rw w) tid, freeEntries (rw w) tid, emptyROB (rw w) tid, iewStall (rw w) tid);
  mt_flags : resumeSerialize (rw w') = resumeSerialize (rw w) ∧ resumeUnblocking (rw w') = resumeUnblocking (rw w);
  mt_renamed : renamed (rw w') = renamed (rw w) ++ live (rw_insts w) l;
  mt_fixed : same fixed (rw_insts w) (rw_insts w');
  mt_handled : ∀ q, q ∉ l → Some q ≠ serializeInst (rw w') tid →
    isSerializeHandled <$> rw_insts w' !! q = isSerializeHandled <$> rw_insts w !! q;
  mt_old : ∀ q, q ∉ waits tid (rw w) → marks <$> rw_insts w' !! q = marks <$> rw_insts w !! q;
  mt_free : NoDup l → ∀ q i, q ∈ l → rw_insts w !! q = Some i → isSquashed i = false → mustSerializeBefore i = false;
  mt_width : (length (renamed (rw w)) <= renameWidth (rw w))%nat → (length (renamed (rw w')) <= renameWidth (rw w))%nat;
  mt_loads : loadsOf (rw w') tid
    = (loadsInProgress (rw w) tid + count (isLoadAt (rw_insts w)) (live (rw_insts w) l),
       storesInProgress (rw w) tid + count (isStoreAt (rw_insts w)) (live (rw_insts w) l));
  mt_lq : 0 <= calcFreeLQEntries inp tid (rw w) → 0 <= calcFreeLQEntries inp tid (rw w');
  mt_sq : 0 <= calcFreeSQEntries inp tid (rw w) → 0 <= calcFreeSQEntries inp tid (rw w');
  mt_grow : ∀ q, tempMark (rw_insts w) q = true → tempMark (rw_insts w') q = true;
  mt_marked : NoDup (waits tid (rw w)) → ∀ q i, q ∈ l → rw_insts w !! q = Some i → isSquashed i = false →
    tempMark (rw_insts w') q = true → isSerializeHandled i = true;
  mt_next : serializeOnNextInst (rw w) tid = true → quietNow tid (rw w) = true ∨
    match l with [] => serializeOnNextInst (rw w') tid = true | a :: _ => tempMark (rw_insts w') a = true end;
  mt_after : orderly (rw_insts w) (waits tid (rw w)) → ∀ l1 a l2 i, l = l1 ++ a :: l2 →
    rw_insts w !! a = Some i → demands i = true → isSerializeHandled i = false → l2 = [] ∧ askedFor tid w';
  mt_ended : (waits tid (rw w) = l ++ waits tid (rw w') ∧ serializeInst (rw w') tid = serializeInst (rw w) tid ∧
      signalsOf (rw w') tid = signalsOf (rw w) tid ∧
      (renameStatus (rw w) tid ≠ RnUnblocking → rn_skidBuffer (rw w') tid = [])) ∨
    (∃ p i, waits tid (rw w) = l ++ p :: waits tid (rw w') ∧ serializeInst (rw w') tid = Some p ∧
      rw_insts w' !! p = Some i ∧ isSquashed i = false ∧ isIprAccess i || isSerializeBefore i = true ∧
      (NoDup (l ++ [p]) → isSerializeHandled <$> rw_insts w !! p = Some false) ∧
      signalsOf (rw w') tid = stalledNow (signalsOf (rw w) tid) ∧ blockThisCycle (rw w') = true ∧
      (isSerializeHandled i = true → isIprAccess i || static i DynInst.IsSerializeBefore = true));
}.

Lemma waits_toRename fs tid x :
  (fs = false → rn_skidBuffer x tid = []) → waits tid x = toRename fs tid x ++ (if fs then rn_insts x tid else []).
Proof. unfold waits. destruct fs; cbn; [done|]. intros H. by rewrite H, app_nil_r. Qed.

Lemma asked_askedFor fs tid w :
  (fs = false → rn_skidBuffer (rw w) tid = []) → asked fs tid w → askedFor tid w.
Proof.
  intros Hs [[_ ?]|(q & k & Hq & Ht)]; [by left|right]. exists q. split; [done|left].
  rewrite (waits_toRename fs) by done. by rewrite Hq.
Qed.

Lemma orderly_same s s' l : same fixed s s' → same isSerializeHandled s s' → orderly s l → orderly s' l.
Proof.
  intros Hf Hh [O1 O2 O3]. split; [done|..]; intros p j Hp Hj; specialize (Hf p); specialize (Hh p); rewrite Hj in Hf, Hh;
    (destruct (s !! p) as [i|] eqn:Hi; [|done]); apply (inj Some) in Hf, Hh.
  - rewrite <-(O2 p i Hp Hi). unfold fixed in Hf. congruence.
  - rewrite <-(O3 p i Hp Hi). done.
Qed.

(** What a prefix of the loop, begun by [serializeNext], leaves. *)
Lemma loop_mid inp fs tid l w w2 w3 :
  fs = bool_decide (renameStatus (rw w) tid = RnUnblocking) → (fs = false → rn_skidBuffer (rw w) tid = []) →
  serializeNext fs tid w = Ok w2 → ranTo inp fs tid l w2 w3 →
  midTurn inp tid l w w3 ∧ toRename fs tid (rw w) = l ++ toRename fs tid (rw w3) ∧
  toRename (negb fs) tid (rw w3) = toRename (negb fs) tid (rw w) ∧
  (∀ q, q ∉ l → isSerializeHandled <$> rw_insts w3 !! q = isSerializeHandled <$> rw_insts w !! q) ∧
  (∀ q, q ∉ waits tid (rw w) → marks <$> rw_insts w3 !! q = marks <$> rw_insts w !! q) ∧
  rest (rw w3) = rest (rw w) ∧
  (orderly (rw_insts w) (waits tid (rw w)) → ∀ l1 a l2 i, l = l1 ++ a :: l2 →
     rw_insts w !! a = Some i → demands i = true → isSerializeHandled i = false → l2 = [] ∧ asked fs tid w3) ∧
  (fs = false → rn_skidBuffer (rw w3) tid = []).
Proof.
  intros Hfs Hskid Hn Hr. apply serializeNext_spec in Hn as (N1 & N2 & N3 & N4 & N5 & N6 & N7 & N8 & N9 & N10).
  destruct Hr as [A1 A2 A3 A4 A5 A6 A7 A8 A9 A10 A11 A12 A13 A14 A15 A16 A17].
  assert (∀ b, toRename b tid (rw w2) = toRename b tid (rw w)) as Htr.
  { intros b. specialize (N1 tid). unfold queuesOf in N1. injection N1 as E1 E2. by destruct b. }
  assert (rest (rw w3) = rest (rw w)) as Hrest by congruence.
  assert (live (rw_insts w2) l = live (rw_insts w) l) as Hlive by by apply live_fixed.
  assert (toRename fs tid (rw w) = l ++ toRename fs tid (rw w3)) as Hqu by by rewrite <-Htr, A1.
  assert (toRename (negb fs) tid (rw w3) = toRename (negb fs) tid (rw w)) as Hqo by by rewrite A2, Htr.
  assert (∀ q, q ∉ l → isSerializeHandled <$> rw_insts w3 !! q = isSerializeHandled <$> rw_insts w !! q) as Hh
    by (intros q Hq; by rewrite A7, N7).
  assert (fs = false → rn_skidBuffer (rw w3) tid = []) as Hskid3.
  { intros Hf. rewrite Hf in Hqo. cbn in Hqo. rewrite Hqo. auto. }
  assert (waits tid (rw w) = l ++ waits tid (rw w3)) as Hw.
  { rewrite !(waits_toRename fs) by done. rewrite Hqu, <-(assoc_L (++)). f_equal.
    by destruct fs; cbn in *; [rewrite Hqo|]. }
  assert (∀ q, q ∉ waits tid (rw w) → marks <$> rw_insts w3 !! q = marks <$> rw_insts w !! q) as Hold.
  { intros q Hq. assert (q ∉ toRename fs tid (rw w)) as Hn by (rewrite (waits_toRename fs) in Hq by done; set_solver).
    rewrite A9, N8; [done|done|]. by rewrite Htr. }
  assert (orderly (rw_insts w) (waits tid (rw w)) → ∀ l1 a l2 i, l = l1 ++ a :: l2 →
     rw_insts w !! a = Some i → demands i = true → isSerializeHandled i = false → l2 = [] ∧ asked fs tid w3) as Hafter.
  { intros Hod x a y i Hl Hi Hd Hha. rewrite (waits_toRename fs) in Hod by done. apply orderly_app_l in Hod.
    apply (orderly_same _ (rw_insts w2)) in Hod; [|done..]. rewrite <-Htr in Hod.
    pose proof (N6 a) as H. rewrite Hi in H. destruct (rw_insts w2 !! a) as [j|] eqn:Hj; [|done].
    apply (inj Some) in H. pose proof (N7 a) as H7. rewrite Hi, Hj in H7. apply (inj Some) in H7.
    apply (A17 Hod x a y j Hl Hj); [by rewrite (fixed_demands j i)|congruence]. }
  split; [|done]. split; try done.
  - intros t Ht. destruct (A3 t Ht) as (Q1 & Q2 & Q3). unfold ofThread. rewrite Q1, Q2, Q3, N1, N4, N5 by done.
    exact (f_equal (λ y, (queuesOf (rw w) t, signalsOf y t, (serializeInst y t, serializeOnNextInst (rw w) t),
      (instsInProgress y t, loadsOf (rw w) t), (freeEntries y t, emptyROB y t, iewStall y t))) Hrest).
  - exact (f_equal constants Hrest).
  - exact (f_equal (λ y, (instsInProgress y tid, freeEntries y tid, emptyROB y tid, iewStall y tid)) Hrest).
  - split; [exact (f_equal resumeSerialize Hrest)|exact (f_equal resumeUnblocking Hrest)].
  - by rewrite A5, N3, Hlive.
  - by etrans.
  - intros q Hq _. by apply Hh.
  - intros Hd q i Hq Hi Hs. pose proof (N6 q) as H. rewrite Hi in H. destruct (rw_insts w2 !! q) as [j|] eqn:Hj; [|done].
    apply (inj Some) in H. pose proof (N7 q) as H7. rewrite Hi, Hj in H7. apply (inj Some) in H7.
    apply (must_looks i j); [done|done|by apply (N9 q)|]. apply (A10 Hd q j Hq Hj). unfold fixed in H. congruence.
  - rewrite N3, (f_equal renameWidth N2 : renameWidth (rw w2) = renameWidth (rw w)) in A11. exact A11.
  - rewrite A12, Hlive.
    rewrite (f_equal (λ g, fst (g tid)) N4 : loadsInProgress (rw w2) tid = loadsInProgress (rw w) tid).
    rewrite (f_equal (λ g, snd (g tid)) N4 : storesInProgress (rw w2) tid = storesInProgress (rw w) tid).
    rewrite (count_ext (isLoadAt (rw_insts w2)) (isLoadAt (rw_insts w))) by (intros; by apply isLoadAt_fixed).
    by rewrite (count_ext (isStoreAt (rw_insts w2)) (isStoreAt (rw_insts w))) by (intros; by apply isStoreAt_fixed).
  - destruct (calc_same inp tid (rw w2) (rw w)) as [<- _]; [exact (f_equal freeEntries N2)|by rewrite N4|done].
  - destruct (calc_same inp tid (rw w2) (rw w)) as [_ <-]; [exact (f_equal freeEntries N2)|by rewrite N4|done].
  - intros q Hq. unfold tempMark in Hq |- *. pose proof (N6 q) as H. pose proof (A6 q) as H'.
    destruct (rw_insts w !! q) as [i|] eqn:Hi; [|done]. destruct (rw_insts w2 !! q) as [j|] eqn:Hj; [|done].
    destruct (rw_insts w3 !! q) as [k|] eqn:Hk; [|done]. apply (A8 q j k Hj Hk). by apply (N9 q i j).
  - intros Hd q i Hq Hi Hs Ht. pose proof (N6 q) as H. rewrite Hi in H. destruct (rw_insts w2 !! q) as [j|] eqn:Hj; [|done].
    apply (inj Some) in H. pose proof (N7 q) as H7. rewrite Hi, Hj in H7. apply (inj Some) in H7. rewrite <-H7.
    apply (A15 (ltac:(rewrite Htr; rewrite (waits_toRename fs) in Hd by done; by apply NoDup_app in Hd as (? & _))) q j Hq Hj); [|done].
    unfold fixed in H. congruence.
  - intros Hfl. apply N10 in Hfl as [?|[Hfl Hfront]]; [by left|right]. destruct l as [|a l]; [auto|].
    specialize (Hfront a _ Hqu). unfold tempMark in Hfront |- *. destruct (rw_insts w2 !! a) as [j|] eqn:Hj; [|done].
    pose proof (A6 a) as H. rewrite Hj in H. destruct (rw_insts w3 !! a) as [k|] eqn:Hk; [|done]. by apply (A8 a j).
  - intros Hod x a y i Hl Hi Hd Hha. destruct (Hafter Hod x a y i Hl Hi Hd Hha) as [-> Hask]. split; [done|].
    by apply (asked_askedFor fs).
  - left. split; [done|]. split; [exact (f_equal (λ y, serializeInst y tid) Hrest)|].
    split; [exact (f_equal (λ y, signalsOf y tid) Hrest)|]. intros Hne. apply Hskid3. rewrite Hfs. by apply bool_decide_eq_false.
Qed.

Lemma midTurn_blockThisCycle inp tid l b w w' :
  midTurn inp tid l w w' → (blockThisCycle (rw w') = true → b = true) → midTurn inp tid l w (rw_on (set_blockThisCycle b) w').
Proof.
  intros [A1 A2 A3 A4 A5 A6 A7 A8 A9 A10 A11 A12 A13 A14 A15 A17 A18 A16] Hb. split; try done.
  destruct A16 as [H|(p & i & H)]; [by left|right]. exists p, i. naive_solver.
Qed.

Lemma stopped_mid inp fs tid l w w2 w3 w4 :
  fs = bool_decide (renameStatus (rw w) tid = RnUnblocking) → (fs = false → rn_skidBuffer (rw w) tid = []) →
  serializeNext fs tid w = Ok w2 → ranTo inp fs tid l w2 w3 → stopped fs tid w3 w4 → midTurn inp tid l w w4.
Proof.
  intros Hfs Hskid Hn Hr Hst. destruct (loop_mid inp fs tid l w w2 w3 Hfs Hskid Hn Hr) as (Hmid & Hqu & Hqo & Hh & Hold & Hrest & Hafter & Hskid3).
  destruct Hst as [->|p lq Hp ->|p lq i Hp Hi Hsq Hmust Hstall]; [done|by apply midTurn_blockThisCycle|].
  destruct (setRenameQueue_spec fs tid lq (rw w3)) as (S1 & S2 & S3 & S4 & S5 & S6 & S7).
  apply startSerializeStall_spec in Hstall as (T1 & T2 & T3 & T4 & T5 & T6 & T7 & T8 & T9); [|done].
  cbn [rw rw_on rw_set rw_insts] in *.
  assert (∃ j, rw_insts w4 !! p = Some j ∧ fixed j = fixed i) as (j & Hj & Hij).
  { pose proof (T6 p) as H. rewrite Hi in H. destruct (rw_insts w4 !! p) as [j|]; [|done]. apply (inj Some) in H. eauto. }
  assert (rest (rw w4) = set_blockThisCycle true (set_serializeInst (serializeInst (rw w4)) (set_renameStatus (renameStatus (rw w4)) (rest (rw w))))) as Hrest4.
  { rewrite <-Hrest, <-S4. pose proof (f_equal rest T1) as H.
    transitivity (set_blockThisCycle (blockThisCycle (rw w4)) (set_serializeInst (serializeInst (rw w4)) (set_renameStatus (renameStatus (rw w4)) (rest (awake (rw w4))))));
      [destruct (rw w4); reflexivity|]. rewrite H, T3. reflexivity. }
  assert (∀ t, queuesOf (rw w4) t = queuesOf (setRenameQueue fs tid lq (rw w3)) t) as Q4
    by (intros t; exact (f_equal (λ y, queuesOf y t) T1)).
  assert (∀ t, loadsOf (rw w4) t = loadsOf (rw w3) t ∧ serializeOnNextInst (rw w4) t = serializeOnNextInst (rw w3) t) as L4.
  { intros t. split; [rewrite <-S6; exact (f_equal (λ y, loadsOf y t) T1)|rewrite <-S7; exact (f_equal (λ y, serializeOnNextInst y t) T1)]. }
  assert (∀ t, renameBlock (rw w4) t = renameBlock (rw w) t ∧ renameUnblock (rw w4) t = renameUnblock (rw w) t) as B4.
  { intros t. split; [exact (f_equal (λ y, renameBlock y t) Hrest4)|exact (f_equal (λ y, renameUnblock y t) Hrest4)]. }
  assert (waits tid (rw w) = l ++ p :: waits tid (rw w4)) as Hw.
  { rewrite (waits_toRename fs) by done. rewrite Hqu, Hp, <-(assoc_L (++)). f_equal. cbn. f_equal.
    specialize (Q4 tid). unfold queuesOf in Q4. injection Q4 as Q4 Q4'.
    unfold waits. rewrite Q4, Q4'. destruct fs; cbn in *; rewrite ?fn_lookup_insert; [by rewrite Hqo|].
    rewrite Hqo, Hskid by done. by rewrite app_nil_r. }
  destruct Hmid as [A1 A2 A3 A4 A5 A6 A7 A8 A9 A10 A11 A12 A13 A14 A15 A17 A18 A16]. split.
  - intros t Ht. rewrite <-A1 by done. destruct (L4 t) as [L4a L4b], (T4 t Ht) as [T4a T4b].
    unfold ofThread. rewrite L4a, L4b, T4a, Q4, S3 by done. unfold signalsOf. rewrite T4b.
    rewrite (f_equal (λ y, serializeInst y t) S4 : serializeInst (setRenameQueue fs tid lq (rw w3)) t = serializeInst (rw w3) t).
    rewrite (f_equal (λ y, renameStatus y t) S4 : renameStatus (setRenameQueue fs tid lq (rw w3)) t = renameStatus (rw w3) t).
    assert (rest (rw w4) = set_blockThisCycle true (set_serializeInst (serializeInst (rw w4)) (set_renameStatus (renameStatus (rw w4)) (rest (rw w3))))) as H3
      by by rewrite Hrest.
    exact (f_equal (λ y, (queuesOf (rw w3) t, (renameStatus (rw w3) t, renameBlock y t, renameUnblock y t), (serializeInst (rw w3) t, serializeOnNextInst (rw w3) t),
      (instsInProgress y t, loadsOf (rw w3) t), (freeEntries y t, emptyROB y t, iewStall y t))) H3).
  - exact (f_equal constants Hrest4).
  - exact (f_equal (λ y, (instsInProgress y tid, freeEntries y tid, emptyROB y tid, iewStall y tid)) Hrest4).
  - split; [exact (f_equal resumeSerialize Hrest4)|exact (f_equal resumeUnblocking Hrest4)].
  - rewrite <-A5, <-S5. exact (f_equal renamed T1).
  - by etrans.
  - intros q Hq Hne. rewrite T7 by congruence. by apply Hh.
  - intros q Hq. etrans; [apply marks_both; [by rewrite T8|apply T7]|by apply Hold]. rewrite Hw in Hq. set_solver.
  - done.
  - rewrite (f_equal renamed T1 : renamed (rw w4) = renamed (setRenameQueue fs tid lq (rw w3))), S5. done.
  - by rewrite (proj1 (L4 tid)).
  - destruct (calc_same inp tid (rw w4) (rw w3)) as [-> _]; [|apply L4|done].
    transitivity (freeEntries (rw w)); [exact (f_equal freeEntries Hrest4)|symmetry; exact (f_equal freeEntries Hrest)].
  - destruct (calc_same inp tid (rw w4) (rw w3)) as [_ ->]; [|apply L4|done].
    transitivity (freeEntries (rw w)); [exact (f_equal freeEntries Hrest4)|symmetry; exact (f_equal freeEntries Hrest)].
  - intros q Hq. rewrite (tempMark_temp _ _ q (T8 q)). by apply A14.
  - intros Hd q i' Hq Hi' Hs Ht. rewrite (tempMark_temp _ _ q (T8 q)) in Ht. by apply (A15 Hd q i').
  - intros Hfl. apply A17 in Hfl as [?|Hfl]; [by left|right]. destruct l as [|a l]; [by rewrite (proj2 (L4 tid))|].
    by rewrite (tempMark_temp _ _ a (T8 a)).
  - intros Hod x a y k Hl Ha Hd Hha. destruct (Hafter Hod x a y k Hl Ha Hd Hha) as [-> [[Hx _]|(q & m & Hq & Ht)]]; [congruence|].
    split; [done|]. right. exists q. rewrite (tempMark_temp _ _ q (T8 q)). split; [done|right]. split; [|done]. congruence.
  - right. exists p, j. split_and!; try done.
    + unfold fixed in Hij. congruence.
    + unfold mustSerializeBefore in Hmust. apply andb_true_iff in Hmust as [Hm _]. rewrite <-Hm.
      pose proof (T8 p) as Ht. rewrite Hi, Hj in Ht. apply (inj Some) in Ht. unfold isTempSerializeBefore in Ht.
      unfold fixed in Hij. injection Hij as _ _ Hsi _. unfold isIprAccess, isSerializeBefore, static. by rewrite Hsi, Ht.
    + intros Hd. rewrite <-Hh by (apply NoDup_app in Hd as (_ & Hd & _); set_solver). rewrite Hi. cbn.
      unfold mustSerializeBefore in Hmust. apply andb_true_iff in Hmust as [_ Hm]. f_equal. by apply negb_true_iff.
    + unfold signalsOf, stalledNow. destruct (B4 tid) as [-> ->]. by rewrite T5.
    + intros Hhj. unfold mustSerializeBefore in Hmust. apply andb_true_iff in Hmust as [Hm Hnh].
      destruct (isTempSerializeBefore i) eqn:Hti.
      { specialize (T9 eq_refl). rewrite Hj in T9. apply (inj Some) in T9. rewrite <-T9, Hhj in Hnh. done. }
      unfold isSerializeBefore, isTempSerializeBefore in Hm, Hti. rewrite Hti, orb_false_r in Hm.
      unfold fixed in Hij. injection Hij as _ _ Hsi _. unfold isIprAccess, static in *. by rewrite Hsi.
Qed.

(** The counters, and blocking if something stopped the loop. *)
Definition endTurn (tid : ThreadID) (unrenamed : nat) (cnt : Z) (w : Ren) : outcome Ren :=
  let x := rw w in
  let x := set_instsInProgress (<[tid := instsInProgress x tid + cnt]> (instsInProgress x)) x in
  let x := if bool_decide (renamed x = []) then x else set_rn_wroteToTimeBuffer true x in
  let x := if (unrenamed =? 0)%nat then x else set_blockThisCycle true x in
  if blockThisCycle x then
    let! (_, w) := rn_block tid (rw_set x w) in Ok (rw_on (rn_setUnblock tid false) w)
  else Ok (rw_set x w).

(** All but the counters and flags [endTurn] sets before it blocks. *)
Definition counted (x : RenStage) : RenStage :=
  set_instsInProgress (λ _, 0) (set_rn_wroteToTimeBuffer false (set_blockThisCycle false x)).

Lemma midTurn_frames inp tid l w w' : midTurn inp tid l w w' → frames tid w w'.
Proof.
  intros [A1 A2 A3 A4 A5 A6 A7 A8 A9 A10 A11 A12 A13 A14 A15 A17 A18 A16]. split; try done; [by apply fixed_ident|..].
  - intros q Hq. apply A8. unfold holds in Hq. set_solver.
  - unfold holds. destruct A16 as [(-> & -> & _)|(p & i & -> & -> & _)]; cbn; set_solver.
  - intros q. by rewrite (fixed_squashedAt _ _ q A6).
Qed.

Lemma noUnblock_signals tid x : signalsOf (rn_setUnblock tid false x) tid = noUnblock (signalsOf x tid).
Proof. unfold signalsOf, noUnblock. cbn. by rewrite fn_lookup_insert. Qed.

Lemma endTurn_spec inp tid l w w1 n w' :
  midTurn inp tid l w w1 →
  (l = [] ∨ Z.of_nat (length l) <= Z.min (calcFreeROBEntries inp tid (rw w)) (calcFreeIQEntries inp tid (rw w))) →
  endTurn tid n (Z.of_nat (length (live (rw_insts w) l))) w1 = Ok w' → turn inp tid l w w'.
Proof.
  intros Hm Hcr H. unfold endTurn in H. pose proof (midTurn_frames _ _ _ _ _ Hm) as Hfr.
  set (x1 := set_instsInProgress _ (rw w1)) in H. set (x2 := if bool_decide (renamed x1 = []) then x1 else _) in H.
  set (x3 := if (n =? 0)%nat then x2 else _) in H.
  assert (counted x3 = counted (rw w1)) as Hx.
  { unfold x3, x2. by destruct (n =? 0)%nat, (bool_decide _). }
  assert (instsInProgress x3 = instsInProgress x1) as Hx1 by (unfold x3, x2; by destruct (n =? 0)%nat, (bool_decide _)).
  assert (blockThisCycle (rw w1) = true → blockThisCycle x3 = true) as Hbt.
  { unfold x3, x2. by destruct (n =? 0)%nat, (bool_decide _). }
  assert (frames tid w (rw_set x3 w1)) as Hfr3.
  { destruct Hfr as [F1 F2 F3 F4 F5]. split; cbn [rw rw_set rw_insts]; try done.
    - intros t Ht. rewrite <-F1 by done. unfold ofThread. rewrite Hx1. unfold x1. cbn [instsInProgress set_instsInProgress].
      rewrite fn_lookup_insert_ne by done.
      exact (f_equal (λ y, (queuesOf y t, signalsOf y t, (serializeInst y t, serializeOnNextInst y t),
        (instsInProgress (rw w1) t, loadsOf y t), (freeEntries y t, emptyROB y t, iewStall y t))) Hx).
    - rewrite <-F2. exact (f_equal constants Hx).
    - etrans; [|exact F5]. by rewrite (f_equal (holds tid) Hx : holds tid x3 = holds tid (rw w1)). }
  destruct Hm as [A1 A2 A3 A4 A5 A6 A7 A8 A9 A10 A11 A12 A13 A14 A15 A17 A18 A16].
  assert (instsInProgress x3 tid = instsInProgress (rw w) tid + Z.of_nat (length (live (rw_insts w) l))) as Hprog.
  { rewrite Hx1. unfold x1. cbn. rewrite fn_lookup_insert. injection A3 as -> _ _ _. done. }
  assert (∀ v, rw_insts v = rw_insts w1 → frames tid w v → calm (rw v) = calm x3 →
    (askedFor tid w1 → askedFor tid v) → ended tid l w v → turn inp tid l w v) as Hturn.
  { intros v Hi Hf Hc Hask He.
    assert (∀ {B} (f : RenStage → B), (∀ y, f (calm y) = f y) → f (rw v) = f x3) as Hcv
      by (intros B f Hf'; rewrite <-(Hf' (rw v)), <-(Hf' x3); by rewrite Hc).
    assert (loadsOf (rw v) tid = loadsOf (rw w1) tid) as Hlo.
    { rewrite (Hcv _ (λ y, loadsOf y tid)) by done. exact (f_equal (λ y, loadsOf y tid) Hx). }
    assert (freeEntries (rw v) = freeEntries (rw w1)) as Hfe.
    { rewrite (Hcv _ freeEntries) by done. exact (f_equal freeEntries Hx). }
    assert (renamed (rw v) = renamed (rw w1)) as Hrn.
    { rewrite (Hcv _ renamed) by done. exact (f_equal renamed Hx). }
    assert (serializeOnNextInst (rw v) tid = serializeOnNextInst (rw w1) tid) as Hfl.
    { rewrite (Hcv _ (λ y, serializeOnNextInst y tid)) by done. exact (f_equal (λ y, serializeOnNextInst y tid) Hx). }
    assert (serializeInst (rw v) tid = serializeInst (rw w1) tid) as Hsi.
    { rewrite (Hcv _ (λ y, serializeInst y tid)) by done. exact (f_equal (λ y, serializeInst y tid) Hx). }
    destruct (calc_same inp tid (rw v) (rw w1) Hfe Hlo) as [Hlq Hsq].
    split; rewrite ?Hi, ?Hlo, ?Hrn, ?Hsi, ?Hlq, ?Hsq, ?Hfl; try done.
    - by rewrite (Hcv _ (λ y, instsInProgress y tid)) by done.
    - destruct A4 as [<- <-]. rewrite (Hcv _ resumeSerialize), (Hcv _ resumeUnblocking) by done.
      split; [exact (f_equal resumeSerialize Hx)|exact (f_equal resumeUnblocking Hx)].
    - injection A3 as _ <- <- <-. rewrite (Hcv _ (λ y, (freeEntries y tid, emptyROB y tid, iewStall y tid))) by done.
      exact (f_equal (λ y, (freeEntries y tid, emptyROB y tid, iewStall y tid)) Hx).
    - intros Hod x a y i Hl Ha Hd Hha. destruct (A18 Hod x a y i Hl Ha Hd Hha). auto. }
  destruct (blockThisCycle x3) eqn:Hb.
  - inv_ok1 H. destruct a as [b v]. injection H as <-. apply rn_block_spec in E as (B1 & B2 & B3 & B4 & B5).
    cbn [rw rw_set] in B2, B4, B5. pose proof (f_equal rw_insts B1) as Hi. cbn in Hi.
    assert (queuesOf (rw (rw_on (rn_setUnblock tid false) v)) tid = (waits tid (rw w1), [])) as Hqs.
    { etrans; [exact B4|]. by rewrite (f_equal (waits tid) Hx : waits tid x3 = waits tid (rw w1)). }
    assert (serializeInst (rw (rw_on (rn_setUnblock tid false) v)) tid = serializeInst (rw w1) tid) as Hsi.
    { etrans; [exact (f_equal (λ y, serializeInst y tid) B2)|exact (f_equal (λ y, serializeInst y tid) Hx)]. }
    assert (waits tid (rw (rw_on (rn_setUnblock tid false) v)) = waits tid (rw w1)) as Hw.
    { unfold queuesOf in Hqs. injection Hqs as Q1 Q2. unfold waits at 1. cbn in Q1, Q2 |- *. rewrite Q1, Q2. by rewrite app_nil_r. }
    assert (rn_insts (rw (rw_on (rn_setUnblock tid false) v)) tid = []) as Hnil by (unfold queuesOf in Hqs; congruence).
    assert (signalsOf (rw (rw_on (rn_setUnblock tid false) v)) tid
      = noUnblock (blockSignals (resumeUnblocking (rw w)) (signalsOf (rw w1) tid))) as Hsg.
    { cbn [rw rw_on rw_set]. rewrite noUnblock_signals, B5. f_equal. f_equal.
      - destruct A4 as [_ <-]. exact (f_equal resumeUnblocking Hx).
      - exact (f_equal (λ y, signalsOf y tid) Hx). }
    apply Hturn; [done| |exact B2| |].
    + etrans; [exact Hfr3|]. etrans; [exact B3|]. split; cbn [rw rw_on rw_set rw_insts]; try done.
      intros t Ht. unfold ofThread, signalsOf. cbn. by rewrite fn_lookup_insert_ne.
    + unfold askedFor. rewrite Hw, Hsi. cbn [rw_insts rw_on rw_set]. rewrite Hi.
      intros [Ha|(q & Ht & Hq)]; [left|right].
      * rewrite <-Ha. etrans; [exact (f_equal (λ y, serializeOnNextInst y tid) B2)|exact (f_equal (λ y, serializeOnNextInst y tid) Hx)].
      * exists q. split; [done|]. destruct Hq as [Hq|[Hq Hss]]; [by left|right]. split; [done|].
        assert (fst (fst (noUnblock (blockSignals (resumeUnblocking (rw w)) (signalsOf (rw w1) tid)))) = RnSerializeStall) as <-.
        { unfold signalsOf. rewrite Hss. by destruct (resumeUnblocking (rw w)). }
        by rewrite <-Hsg.
    + destruct A16 as [(E1 & E2 & E3 & E4)|(p & i & E1 & E2 & E3 & E4 & E5 & E6 & E7 & _ & E9)].
      * apply (Blocked _ _ _ _ true); [by rewrite Hw|by rewrite Hsi|by rewrite Hsg, E3|done].
      * apply (Serialized _ _ _ _ p i); try done; [by rewrite Hw|by rewrite Hsi|by cbn; rewrite Hi|by rewrite Hsg, E7].
  - injection H as <-. apply Hturn; try done.
    { unfold askedFor. cbn [rw rw_set rw_insts].
      assert (∀ {B} (f : RenStage → B), (∀ y, f (counted y) = f y) → f x3 = f (rw w1)) as Hcv
        by (intros B f Hf'; rewrite <-(Hf' x3), <-(Hf' (rw w1)); by rewrite Hx).
      by rewrite (Hcv _ (λ y, serializeOnNextInst y tid)), (Hcv _ (λ y, head (waits tid y))),
        (Hcv _ (λ y, serializeInst y tid)), (Hcv _ (λ y, renameStatus y tid)). }
    destruct A16 as [(E1 & E2 & E3 & E4)|(p & i & E1 & E2 & E3 & E4 & E5 & E6 & E7 & E8 & _)].
    + apply Through; cbn [rw rw_set].
      * by rewrite (f_equal (waits tid) Hx : waits tid x3 = waits tid (rw w1)).
      * rewrite <-E2. exact (f_equal (λ y, serializeInst y tid) Hx).
      * rewrite <-E3. exact (f_equal (λ y, signalsOf y tid) Hx).
      * intros Hne. rewrite <-E4 by done. exact (f_equal (λ y, rn_skidBuffer y tid) Hx).
    + by specialize (Hbt E8).
Qed.

(** A turn takes a prefix of what waits. *)
Lemma renameInsts_spec inp tid w w' :
  (renameStatus (rw w) tid ≠ RnUnblocking → rn_skidBuffer (rw w) tid = []) →
  renameInsts rf cfg flattenRegId inp tid w = Ok w' → ∃ l, turn inp tid l w w'.
Proof.
  intros Hskid H. unfold renameInsts, rn_statusIs in H. set (fs := bool_decide (renameStatus (rw w) tid = RnUnblocking)) in *.
  assert (fs = false → rn_skidBuffer (rw w) tid = []) as Hsk by (intros Hf%bool_decide_eq_false; auto).
  assert (midTurn inp tid [] w w) as Hmid0.
  { split; try done; try (by intros; set_solver); try (by rewrite app_nil_r).
    all: first [by left|intros _ [] ? ? ? Hx; discriminate Hx|unfold loadsOf, count; cbn; f_equal; lia]. }
  destruct (length (toRename fs tid (rw w)) =? 0)%nat eqn:Hn.
  { injection H as <-. exists []. apply Nat.eqb_eq, nil_length_inv in Hn. destruct Hmid0 as [A1 A2 A3 A4 A5 A6 A7 A8 A9 A10 A11 A12 A13 A14 A15 A17 A18 A16].
    split; try done; [cbn; lia|by left|by apply Through]. }
  destruct (Z.leb_spec (Z.min (calcFreeROBEntries inp tid (rw w)) (calcFreeIQEntries inp tid (rw w))) 0) as [Hf|Hf].
  { inv_ok1 H. destruct a as [b v]. injection H as <-. exists []. apply rn_block_spec in E as (B1 & B2 & B3 & B4 & B5).
    pose proof (f_equal rw_insts B1) as Hi. cbn in Hi. cbn [rw rw_on rw_set] in B2, B4, B5.
    assert (frames tid w v) as Hfr. { destruct B3 as [F1 F2 F3 F4 F5 F6]. by split. }
    assert (∀ {B} (f : RenStage → B), (∀ y, f (calm y) = f y) → f (rw v) = f (set_blockThisCycle true (rw w))) as Hcv
      by (intros B f Hf'; rewrite <-(Hf' (rw v)), <-(Hf' (set_blockThisCycle true (rw w))); by rewrite B2).
    pose proof (Hcv _ (λ y, loadsOf y tid) (λ _, eq_refl)) as Hlo. cbn in Hlo. pose proof (Hcv _ renamed (λ _, eq_refl)) as Hrn.
    destruct (calc_same inp tid (rw v) (rw w)) as [Hlq Hsq]; [exact (Hcv _ freeEntries (λ _, eq_refl))|exact Hlo|].
    split.
    - exact Hfr.
    - by rewrite Hrn, app_nil_r.
    - rewrite Z.add_0_r. exact (Hcv _ (λ y, instsInProgress y tid) (λ _, eq_refl)).
    - by rewrite Hi.
    - by rewrite Hi.
    - by rewrite Hi.
    - split; [exact (Hcv _ resumeSerialize (λ _, eq_refl))|exact (Hcv _ resumeUnblocking (λ _, eq_refl))].
    - exact (Hcv _ (λ y, (freeEntries y tid, emptyROB y tid, iewStall y tid)) (λ _, eq_refl)).
    - intros _ q i Hq. by apply elem_of_nil in Hq.
    - by left.
    - by rewrite Hrn.
    - rewrite Hlo. unfold loadsOf, count. cbn. f_equal; lia.
    - by rewrite Hlq.
    - by rewrite Hsq.
    - by rewrite Hi.
    - intros _ q i Hq. by apply elem_of_nil in Hq.
    - right. by rewrite (Hcv _ (λ y, serializeOnNextInst y tid)).
    - intros _ x a y i Hx. by destruct x.
    - apply (Blocked _ _ _ _ false); try done.
      + unfold queuesOf in B4. injection B4 as Q1 Q2. unfold waits at 2. rewrite Q1, Q2. cbn. by rewrite app_nil_r.
      + exact (Hcv _ (λ y, serializeInst y tid) (λ _, eq_refl)).
      + unfold queuesOf in B4. congruence. }
  set (w0 := if _ <? _ then _ else w) in H. inv_ok1 H. rename a into w2. inv_ok1 H. destruct a as [[n cnt] w4].
  assert (∃ b, w0 = rw_on (set_blockThisCycle b) w) as [b0 Hw0].
  { unfold w0. destruct (_ <? _); [by exists true|]. exists (blockThisCycle (rw w)). by destruct w as [[] ? ? ? ?]. }
  apply renameLoop_spec in E0 as (l & w3 & R1 & R2 & R3 & R4 & _). rewrite Z.add_0_l in R3.
  assert (midTurn inp tid l w0 w4) as Hm.
  { apply (stopped_mid inp fs tid l w0 w2 w3 w4); try done; by rewrite Hw0. }
  exists l. assert (turn inp tid l w0 w') as Ht.
  { eapply endTurn_spec; [exact Hm| |].
    - destruct l as [|a l]; [by left|right]. rewrite Hw0.
      change (calcFreeROBEntries inp tid (rw (rw_on (set_blockThisCycle b0) w))) with (calcFreeROBEntries inp tid (rw w)).
      change (calcFreeIQEntries inp tid (rw (rw_on (set_blockThisCycle b0) w))) with (calcFreeIQEntries inp tid (rw w)). lia.
    - unfold endTurn. apply serializeNext_spec in E as (_ & _ & _ & _ & _ & N6 & _).
      rewrite (live_fixed _ _ _ N6) in R3. rewrite <-R3. exact H. }
  rewrite Hw0 in Ht. destruct Ht as [T1 T2 T3 T4 T5 T5a T6 T7 T8 T9 T10 T11 T12 T13 T14 T15 T17 T18 T16]. split; try done.
  - destruct T1 as [F1 F2 F3 F4 F5]. by split.
  - destruct T16; [by apply Through|by eapply Blocked|by eapply Serialized].
Qed.
End loop.
