(* ===== verification/RenameSignals.v ===== *)
(** * How a thread of rename reacts to the other stages

    [checkSignalsAndUpdate] as a case analysis on squashes, stalls and the thread's
    status, and the handshake with decode: rename's block and unblock signals tell
    decode exactly for which threads rename holds instructions back. *)

From S2P Require Import Prelude Regs Config DynInst Metadata Rob StoreSet DepGraph FUPool MemDepUnit.
From S2P Require Import InstQueue Rename TimeBuf Activity CpuList DirPred BPred X86Pc Decode DecodeSafe DecodeOk Iew Commit.
From S2P Require Import IqTaint RenameInv.
From S2P Require Import RenameStage RenameStageOk.

Local Open Scope Z_scope.

Lemma rn_setSquashed_ident i :
  ident (setSquashed i) = ident i ∧ marks (setSquashed i) = marks i ∧ isSquashed (setSquashed i) = true.
Proof.
  pose proof (setSquashed_view i) as H. unfold DecodeSafe.view in H. injection H as H1 H2 H3 _ _. unfold ident.
  rewrite H1, H2, H3. split; [done|]. unfold setSquashed.
  destruct (DynInst.dropDolmaReqs_frame (status_set Squashed i)) as [H _ _ _ _ _ _].
  unfold marks, isTempSerializeBefore, isSerializeHandled, isSquashed, st. rewrite H. cbn. by autorewrite with bits.
Qed.

(** Is decode to be stalled because of this status? *)
Definition holding (s : RenameStatus) : bool :=
  bool_decide (s = RnBlocked) || bool_decide (s = RnUnblocking) || bool_decide (s = RnSerializeStall).

Section signals.
Context (rf : PhysRegFile) (cfg : DolmaConfig) (flattenRegId : RegId → RegId) {HSO : StaticOperands}.

Lemma squashArriving_same sn tid l : ∀ ws ws',
  foldM (squashArriving sn tid) l ws = Ok ws' → same ident (snd ws) (snd ws') ∧ same marks (snd ws) (snd ws') ∧
    ∀ q, squashedAt (snd ws) q = true → squashedAt (snd ws') q = true.
Proof.
  induction l as [|p l IH]; intros ws ws' H; cbn [foldM] in H; [by injection H as <-|]. inv_ok1 H.
  destruct (IH _ _ H) as (H1 & H2 & H2'). assert (same ident (snd ws) (snd a) ∧ same marks (snd ws) (snd a) ∧
    ∀ q, squashedAt (snd ws) q = true → squashedAt (snd a) q = true) as (H3 & H4 & H4').
  { unfold squashArriving in E. inv_ok1 E. destruct (_ && _); [|by injection E as <-]. inv_ok1 E. injection E as <-.
    apply modify_Ok in E1 as (i & Hi & ->). destruct (rn_setSquashed_ident i) as (? & ? & Hs). split_and!; [by apply (same_insert _ _ _ i)..|].
    intros q. unfold squashedAt. cbn [snd]. destruct (decide (q = p)) as [->|Hq]; [by rewrite lookup_insert_eq|].
    by rewrite lookup_insert_ne. }
  split_and!; [by etrans..|auto].
Qed.

(** What a thread saw, and what it did about it. *)
Inductive reacted (inp : RenameInputs) (tid : ThreadID) (w w' : Ren) : Prop :=
  | RSquashed s b u :
      ci_squash (rn_fromCommit inp tid) = true → signalsOf (rw w) tid = (s, b, u) → queuesOf (rw w') tid = ([], []) →
      (holding s = true ∧ signalsOf (rw w') tid = (RnSquashing, b, true) ∧ resumeSerialize (rw w') = false ∨
       s = RnSerializeStall ∧ signalsOf (rw w') tid = (RnSquashing, b, u) ∧
         (∃ p i, serializeInst (rw w) tid = Some p ∧ rw_insts w !! p = Some i ∧
            seqNum i <= ci_doneSeqNum (rn_fromCommit inp tid)) ∨
       holding s = false ∧ signalsOf (rw w') tid = (RnSquashing, b, u) ∧
         resumeSerialize (rw w') = resumeSerialize (rw w)) →
      reacted inp tid w w'
  | RBlocked :
      queuesOf (rw w') tid = (waits tid (rw w), []) →
      signalsOf (rw w') tid = blockSignals (resumeUnblocking (rw w)) (signalsOf (rw w) tid) →
      resumeSerialize (rw w') = resumeSerialize (rw w) → serializeInst (rw w') tid = serializeInst (rw w) tid →
      reacted inp tid w w'
  | RUnblocked b u :
      signalsOf (rw w) tid = (RnBlocked, b, u) → queuesOf (rw w') tid = queuesOf (rw w) tid →
      (rn_skidBuffer (rw w) tid ≠ [] ∧ signalsOf (rw w') tid = (RnUnblocking, b, u) ∨
       rn_skidBuffer (rw w) tid = [] ∧ signalsOf (rw w') tid = (RnRunning, b, true)) →
      resumeSerialize (rw w') = resumeSerialize (rw w) → serializeInst (rw w') tid = serializeInst (rw w) tid →
      reacted inp tid w w'
  | RRecovered b u :
      signalsOf (rw w) tid = (RnSquashing, b, u) → queuesOf (rw w') tid = queuesOf (rw w) tid →
      signalsOf (rw w') tid
      = (if resumeSerialize (rw w) then RnSerializeStall
         else if resumeUnblocking (rw w) then RnUnblocking else RnRunning, b, u) →
      resumeSerialize (rw w') = resumeSerialize (rw w) → serializeInst (rw w') tid = serializeInst (rw w) tid →
      reacted inp tid w w'
  | RReleased p b u :
      signalsOf (rw w) tid = (RnSerializeStall, b, u) → emptyROB (rw w') tid = true → instsInProgress (rw w') tid = 0 →
      serializeInst (rw w) tid = Some p → serializeInst (rw w') tid = None →
      (rn_skidBuffer (rw w) tid ≠ [] ∧ queuesOf (rw w') tid = (p :: rn_skidBuffer (rw w) tid, rn_insts (rw w) tid) ∧
         signalsOf (rw w') tid = (RnUnblocking, b, u) ∨
       rn_skidBuffer (rw w) tid = [] ∧ queuesOf (rw w') tid = ([], p :: rn_insts (rw w) tid) ∧
         signalsOf (rw w') tid = (RnRunning, b, true)) →
      resumeSerialize (rw w') = resumeSerialize (rw w) → reacted inp tid w w'
  | RNone s b u :
      signalsOf (rw w) tid = (s, b, u) → s ≠ RnBlocked → s ≠ RnSquashing → s ≠ RnSerializeStall →
      queuesOf (rw w') tid = queuesOf (rw w) tid → signalsOf (rw w') tid = (s, b, u) →
      resumeSerialize (rw w') = resumeSerialize (rw w) → serializeInst (rw w') tid = serializeInst (rw w) tid →
      reacted inp tid w w'.

(** All but the queues, the serialize stall, and the signals. *)
Definition quiet (x : RenStage) : RenStage := set_resumeSerialize false (set_serializeInst (λ _, None) (calm x)).

(** The mark to serialize before is taken only from an instruction the thread waited with
    and does so no longer. *)
Record keepsMarks (tid : ThreadID) (w w' : Ren) : Prop := {
  km_next : serializeOnNextInst (rw w') tid = serializeOnNextInst (rw w) tid;
  km_temp : ∀ q, serializeInst (rw w) tid ≠ Some q ∨ serializeInst (rw w') tid = Some q →
    tempMark (rw_insts w') q = tempMark (rw_insts w) q;
}.

Lemma same_keepsMarks tid w w' :
  quiet (rw w') = quiet (rw w) → same marks (rw_insts w) (rw_insts w') → keepsMarks tid w w'.
Proof. intros Hq H. split; [exact (f_equal (λ y, serializeOnNextInst y tid) Hq)|]. intros q _. by apply tempMark_marks. Qed.

Lemma same_marks_same_handled (s s' : store) : same marks s s' → same isSerializeHandled s s'.
Proof. intros H q. by apply same_marks_handled. Qed.

(** The part of the reaction that is the same in all cases. *)
Record reaction (inp : RenameInputs) (tid : ThreadID) (w w' : Ren) : Prop := {
  re_frames : frames tid w w';
  re_renamed : renamed (rw w') = renamed (rw w);
  re_unblocking : resumeUnblocking (rw w') = resumeUnblocking (rw w);
  re_progress : ∀ t, instsInProgress (rw w') t = instsInProgress (rw w) t;
  re_empty : emptyROB (rw w') tid = emptyROB (rn_readFreeEntries inp tid (rw w)) tid;
  re_handled : same isSerializeHandled (rw_insts w) (rw_insts w');
  re_temp : keepsMarks tid w w';
  re_reacted : reacted inp tid w w';
}.

(** Reading the wires changes only what the thread knows about free entries. *)
Definition informed (x : RenStage) : RenStage :=
  set_iewStall (λ _, false) (set_emptyROB (λ _, false) (set_rn_freeEntries (λ _, mkFreeEntries 0 0 0 0) x)).

Lemma readSignals_spec inp tid x x' :
  rn_readStallSignals inp tid (rn_readFreeEntries inp tid x) = Ok x' →
  informed x' = informed x ∧ emptyROB x' = emptyROB (rn_readFreeEntries inp tid x) ∧
  (∀ t, t ≠ tid → (freeEntries x' t, emptyROB x' t, iewStall x' t) = (freeEntries x t, emptyROB x t, iewStall x t)).
Proof.
  intros H. set (y := rn_readFreeEntries inp tid x) in *.
  assert (informed y = informed x ∧ ∀ t, t ≠ tid →
    (freeEntries y t, emptyROB y t, iewStall y t) = (freeEntries x t, emptyROB x t, iewStall x t)) as [Hy1 Hy2].
  { unfold y, rn_readFreeEntries. destruct (ci_usedROB _); (split; [done|]); intros t Ht; cbn; by rewrite ?fn_lookup_insert_ne. }
  clearbody y. unfold rn_readStallSignals in H. rewrite <-Hy1.
  destruct (iewUnblock (rn_fromIEW inp) tid); [inv_ok1 H|]; injection H as <-;
    (destruct (iewBlock (rn_fromIEW inp) tid); (split; [done|]); (split; [done|]); intros t Ht; rewrite <-Hy2 by done; cbn;
     by rewrite ?fn_lookup_insert_ne).
Qed.

Lemma informed_frames tid w x :
  informed x = informed (rw w) →
  (∀ t, t ≠ tid → (freeEntries x t, emptyROB x t, iewStall x t) = (freeEntries (rw w) t, emptyROB (rw w) t, iewStall (rw w) t)) →
  frames tid w (rw_set x w).
Proof.
  intros Hi Ho. split; cbn [rw rw_set rw_insts]; try done.
  - intros t Ht. unfold ofThread. rewrite (Ho t Ht).
    exact (f_equal (λ y, (queuesOf y t, signalsOf y t, (serializeInst y t, serializeOnNextInst y t),
      (instsInProgress y t, loadsOf y t), (freeEntries (rw w) t, emptyROB (rw w) t, iewStall (rw w) t))) Hi).
  - exact (f_equal constants Hi).
  - by rewrite (f_equal (holds tid) Hi : holds tid x = holds tid (rw w)).
Qed.

Lemma quiet_reaction tid w w' :
  quiet (rw w') = quiet (rw w) →
  (∀ t, t ≠ tid → queuesOf (rw w') t = queuesOf (rw w) t ∧ signalsOf (rw w') t = signalsOf (rw w) t ∧
     serializeInst (rw w') t = serializeInst (rw w) t) →
  holds tid (rw w') ⊆ holds tid (rw w) → same ident (rw_insts w) (rw_insts w') →
  (∀ q, q ∉ holds tid (rw w) → marks <$> rw_insts w' !! q = marks <$> rw_insts w !! q) →
  (∀ q, squashedAt (rw_insts w) q = true → squashedAt (rw_insts w') q = true) →
  frames tid w w' ∧ renamed (rw w') = renamed (rw w) ∧ resumeUnblocking (rw w') = resumeUnblocking (rw w) ∧
  (∀ t, instsInProgress (rw w') t = instsInProgress (rw w) t) ∧ emptyROB (rw w') tid = emptyROB (rw w) tid.
Proof.
  intros Hq Ho Hh Hi Hs Hsq. split; [split; try done|].
  - intros t Ht. destruct (Ho t Ht) as (Q1 & Q2 & Q3). unfold ofThread. rewrite Q1, Q2, Q3.
    exact (f_equal (λ y, (queuesOf (rw w) t, signalsOf (rw w) t, (serializeInst (rw w) t, serializeOnNextInst y t),
      (instsInProgress y t, loadsOf y t), (freeEntries y t, emptyROB y t, iewStall y t))) Hq).
  - exact (f_equal constants Hq).
  - split; [exact (f_equal renamed Hq)|]. split; [exact (f_equal resumeUnblocking Hq)|].
    split; [intros t; exact (f_equal (λ y, instsInProgress y t) Hq)|exact (f_equal (λ y, emptyROB y tid) Hq)].
Qed.

Lemma squash_reaction inp tid w w' :
  ci_squash (rn_fromCommit inp tid) = true →
  rn_squash rf inp (ci_doneSeqNum (rn_fromCommit inp tid)) tid w = Ok w' →
  frames tid w w' ∧ renamed (rw w') = renamed (rw w) ∧ resumeUnblocking (rw w') = resumeUnblocking (rw w) ∧
  (∀ t, instsInProgress (rw w') t = instsInProgress (rw w) t) ∧ emptyROB (rw w') tid = emptyROB (rw w) tid ∧
  same isSerializeHandled (rw_insts w) (rw_insts w') ∧ keepsMarks tid w w' ∧ reacted inp tid w w'.
Proof.
  intros Hsq H. unfold rn_squash in H. inv_ok1 H. rename a into x. inv_ok1 H. destruct a as [wrote s]. inv_ok1 H. injection H as <-.
  apply squashArriving_same in E0 as (Hi & Hh & Hsqd). cbn [snd] in Hi, Hh, Hsqd.
  set (x' := rn_clearQueues tid (set_rn_wroteToTimeBuffer wrote (rn_setStatus tid RnSquashing x))).
  set (w' := rw_set_regs a (rw_set x' (rw_set_insts s w))).
  assert (quiet x = quiet (rw w) ∧ (∀ t, t ≠ tid → signalsOf x t = signalsOf (rw w) t ∧ serializeInst x t = serializeInst (rw w) t) ∧
    (∀ t, queuesOf x t = queuesOf (rw w) t) ∧ renameBlock x tid = renameBlock (rw w) tid ∧
    (serializeInst x tid = None ∨ serializeInst x tid = serializeInst (rw w) tid) ∧
    (holding (renameStatus (rw w) tid) = true ∧ renameUnblock x tid = true ∧ resumeSerialize x = false ∨
     renameStatus (rw w) tid = RnSerializeStall ∧ renameUnblock x tid = renameUnblock (rw w) tid ∧
       (∃ p i, serializeInst (rw w) tid = Some p ∧ rw_insts w !! p = Some i ∧
          seqNum i <= ci_doneSeqNum (rn_fromCommit inp tid)) ∨
     holding (renameStatus (rw w) tid) = false ∧ x = rw w)) as (X1 & X2 & X3 & X4 & X5 & X6).
  { clear Hi Hh E1 x' w'. unfold squashStall, rn_statusIs in E.
    set (forget := rn_setSerializeInst tid None (set_resumeSerialize false (rn_setUnblock tid true (rw w)))) in E.
    assert (holding (renameStatus (rw w) tid) = true → quiet forget = quiet (rw w) ∧
      (∀ t, t ≠ tid → signalsOf forget t = signalsOf (rw w) t ∧ serializeInst forget t = serializeInst (rw w) t) ∧
      (∀ t, queuesOf forget t = queuesOf (rw w) t) ∧ renameBlock forget tid = renameBlock (rw w) tid ∧
      (serializeInst forget tid = None ∨ serializeInst forget tid = serializeInst (rw w) tid) ∧
      (holding (renameStatus (rw w) tid) = true ∧ renameUnblock forget tid = true ∧ resumeSerialize forget = false ∨
       renameStatus (rw w) tid = RnSerializeStall ∧ renameUnblock forget tid = renameUnblock (rw w) tid ∧
         (∃ p i, serializeInst (rw w) tid = Some p ∧ rw_insts w !! p = Some i ∧
            seqNum i <= ci_doneSeqNum (rn_fromCommit inp tid)) ∨
       holding (renameStatus (rw w) tid) = false ∧ forget = rw w)) as Hforget.
    { intros Hhold. split; [done|]. split; [intros t Ht; unfold signalsOf; cbn; by rewrite !fn_lookup_insert_ne|].
      split; [done|]. split; [done|]. split; [left; cbn; by rewrite fn_lookup_insert|].
      left. split; [done|]. split; [cbn; by rewrite fn_lookup_insert|done]. }
    destruct (bool_decide (renameStatus (rw w) tid = RnBlocked) || bool_decide (renameStatus (rw w) tid = RnUnblocking)) eqn:Hbu.
    { injection E as <-. apply Hforget. unfold holding. by rewrite Hbu. }
    destruct (bool_decide_reflect (renameStatus (rw w) tid = RnSerializeStall)) as [Hss|Hss].
    - destruct (serializeInst (rw w) tid) as [p|] eqn:Hp; [|done]. inv_ok1 E. apply deref_Ok in E0. rename a0 into i.
      destruct (Z.leb_spec (seqNum i) (ci_doneSeqNum (rn_fromCommit inp tid))) as [Hle|Hgt]; injection E as <-.
      + split_and!; try done; [by right|]. right. left. split_and!; try done. eauto.
      + apply Hforget. unfold holding. by rewrite Hss.
    - injection E as <-. split_and!; try done; [by right|]. right. right. split; [|done].
      unfold holding. rewrite Hbu. by rewrite bool_decide_eq_false_2. }
  assert (queuesOf x' tid = ([], [])) as Hq by (unfold queuesOf; cbn; by rewrite !fn_lookup_insert).
  assert (signalsOf x' tid = (RnSquashing, renameBlock x tid, renameUnblock x tid)) as Hs
    by (unfold signalsOf; cbn; by rewrite fn_lookup_insert).
  edestruct (quiet_reaction tid w w') as (Q1 & Q2 & Q3 & Q4 & Q5).
  - cbn [rw w']. exact X1.
  - intros t Ht. destruct (X2 t Ht) as [X2a X2b]. rewrite <-X2a, <-X2b, <-X3. cbn [rw w'].
    unfold queuesOf, signalsOf. cbn. by rewrite !fn_lookup_insert_ne.
  - assert (waits tid x' = []) as Hw by (unfold waits; cbn; by rewrite !fn_lookup_insert).
    unfold holds. change (rw w') with x'. rewrite Hw. change (serializeInst x' tid) with (serializeInst x tid). destruct X5 as [->| ->]; cbn; set_solver.
  - exact Hi.
  - intros q _. apply Hh.
  - exact Hsqd.
  - do 5 (split; [done|]). split; [by apply same_marks_same_handled|]. split; [by apply (same_keepsMarks _ w w' X1)|].
    eapply RSquashed; [done|reflexivity|exact Hq|].
    change (rw w') with x'. rewrite Hs, X4. change (resumeSerialize x') with (resumeSerialize x).
    destruct X6 as [(H1 & -> & H2)|[(H1 & -> & H2)|(H1 & ->)]]; auto.
Qed.

Lemma statusIs_eq x tid s b u : signalsOf x tid = (s, b, u) → renameStatus x tid = s ∧ renameBlock x tid = b ∧ renameUnblock x tid = u.
Proof. by intros [= -> -> ->]. Qed.

Lemma rn_setStatus_signals x tid s : signalsOf (rn_setStatus tid s x) tid = (s, renameBlock x tid, renameUnblock x tid).
Proof. unfold signalsOf. cbn. by rewrite fn_lookup_insert. Qed.
Lemma setStatus_signals_ne x tid s t : t ≠ tid → signalsOf (rn_setStatus tid s x) t = signalsOf x t.
Proof. intros Ht. unfold signalsOf. cbn. by rewrite fn_lookup_insert_ne. Qed.

(** Leaving [Blocked] or a serialize stall: on to unblocking, or straight to running. *)
Lemma unblocking_spec tid x c x' :
  rn_unblock tid (rn_setStatus tid RnUnblocking x) = (c, x') →
  calm x' = calm x ∧ (∀ t, queuesOf x' t = queuesOf x t) ∧ (∀ t, t ≠ tid → signalsOf x' t = signalsOf x t) ∧
  (rn_skidBuffer x tid ≠ [] ∧ signalsOf x' tid = (RnUnblocking, renameBlock x tid, renameUnblock x tid) ∨
   rn_skidBuffer x tid = [] ∧ signalsOf x' tid = (RnRunning, renameBlock x tid, true)).
Proof.
  intros Hu. apply rn_unblock_spec in Hu as (U1 & U2 & U3 & U4). split; [done|]. split; [done|]. split.
  - intros t Ht. rewrite U3 by done. by apply setStatus_signals_ne.
  - destruct U4 as [[-> [Hk|Hk]]|(Hk & _ & Hs)].
    + left. split; [exact Hk|]. apply rn_setStatus_signals.
    + cbn in Hk. by rewrite fn_lookup_insert in Hk.
    + right. split; [exact Hk|]. exact Hs.
Qed.

Lemma calm_reaction tid w x' :
  calm x' = calm (rw w) → (∀ t, queuesOf x' t = queuesOf (rw w) t) →
  (∀ t, t ≠ tid → signalsOf x' t = signalsOf (rw w) t) →
  frames tid w (rw_set x' w) ∧ renamed x' = renamed (rw w) ∧ resumeUnblocking x' = resumeUnblocking (rw w) ∧
  (∀ t, instsInProgress x' t = instsInProgress (rw w) t) ∧ emptyROB x' tid = emptyROB (rw w) tid ∧
  resumeSerialize x' = resumeSerialize (rw w) ∧ serializeInst x' tid = serializeInst (rw w) tid.
Proof.
  intros Hc Hq Hs. assert (∀ t, serializeInst x' t = serializeInst (rw w) t) as Hsi by (intros t; exact (f_equal (λ y, serializeInst y t) Hc)).
  destruct (quiet_reaction tid w (rw_set x' w)) as (Q1 & Q2 & Q3 & Q4 & Q5); try done.
  - exact (f_equal (λ y, set_resumeSerialize false (set_serializeInst (λ _, None) y)) Hc).
  - intros t Ht. auto.
  - unfold holds, waits. specialize (Hq tid). unfold queuesOf in Hq. cbn [rw rw_set]. injection Hq as -> ->. by rewrite Hsi.
  - split_and!; try done. exact (f_equal resumeSerialize Hc).
Qed.

Lemma release_reaction inp tid w w' :
  renameStatus (rw w) tid = RnSerializeStall → emptyROB (rw w) tid = true → instsInProgress (rw w) tid = 0 →
  endSerializeStall tid w = Ok w' →
  frames tid w w' ∧ renamed (rw w') = renamed (rw w) ∧ resumeUnblocking (rw w') = resumeUnblocking (rw w) ∧
  (∀ t, instsInProgress (rw w') t = instsInProgress (rw w) t) ∧ emptyROB (rw w') tid = emptyROB (rw w) tid ∧
  same isSerializeHandled (rw_insts w) (rw_insts w') ∧ keepsMarks tid w w' ∧ reacted inp tid w w'.
Proof.
  intros Hss He Hp H. unfold endSerializeStall in H. destruct (rn_unblock _ _) as [c x] eqn:Hu. apply unblocking_spec in Hu as (U1 & U2 & U3 & U4).
  destruct (serializeInst (rw w) tid) as [p|] eqn:Hsi; [|done]. inv_ok1 H. apply rn_modify_Ok in E as (i & Hi & ->). injection H as <-.
  cbn [rw_set rw_insts] in Hi. destruct (clearBefore_marks i) as [Cf Cm].
  set (y := rn_setSerializeInst tid None (resumeFront tid p x)).
  change (rw_on _ _) with (rw_set y (rw_set_insts (<[p := clearSerializeBefore i]> (rw_insts w)) (rw_set x w))).
  assert (same ident (rw_insts w) (<[p := clearSerializeBefore i]> (rw_insts w))) as Hid by (apply fixed_ident; by apply (same_insert _ _ _ i)).
  assert (same isSerializeHandled (rw_insts w) (<[p := clearSerializeBefore i]> (rw_insts w))) as Hha.
  { apply (same_insert _ _ _ i); [done|]. unfold marks in Cm. congruence. }
  assert (∀ q, q ≠ p → <[p := clearSerializeBefore i]> (rw_insts w) !! q = rw_insts w !! q) as Hother
    by (intros q Hq; by rewrite lookup_insert_ne).
  assert (rn_skidBuffer x tid = rn_skidBuffer (rw w) tid ∧ rn_insts x tid = rn_insts (rw w) tid) as [Hk Hn].
  { specialize (U2 tid). unfold queuesOf in U2. by injection U2. }
  assert (quiet y = quiet (rw w) ∧ (∀ t, t ≠ tid → queuesOf y t = queuesOf x t ∧ serializeInst y t = serializeInst x t) ∧
    (∀ t, signalsOf y t = signalsOf x t) ∧ serializeInst y tid = None ∧ resumeSerialize y = resumeSerialize x ∧
    queuesOf y tid = (if bool_decide (rn_skidBuffer x tid = []) then (rn_skidBuffer x tid, p :: rn_insts x tid)
                      else (p :: rn_skidBuffer x tid, rn_insts x tid))) as (Y1 & Y2 & Y3 & Y4 & Y5 & Y6).
  { split; [|unfold y, resumeFront, queuesOf; case_bool_decide; cbn].
    - transitivity (quiet x); [by unfold y, resumeFront; case_bool_decide|].
      exact (f_equal (λ z, set_resumeSerialize false (set_serializeInst (λ _, None) z)) U1).
    - split; [intros t Ht; by rewrite !fn_lookup_insert_ne|]. by rewrite !fn_lookup_insert.
    - split; [intros t Ht; by rewrite !fn_lookup_insert_ne|]. by rewrite !fn_lookup_insert. }
  clearbody y. rewrite Hk, Hn in Y6.
  assert (∀ t, serializeInst x t = serializeInst (rw w) t) as Hsx by (intros t; exact (f_equal (λ z, serializeInst z t) U1)).
  assert (resumeSerialize x = resumeSerialize (rw w)) as Hrs by exact (f_equal resumeSerialize U1).
  edestruct (quiet_reaction tid w (rw_set y (rw_set_insts (<[p := clearSerializeBefore i]> (rw_insts w)) (rw_set x w))))
    as (Q1 & Q2 & Q3 & Q4 & Q5); cbn [rw rw_set rw_insts rw_set_insts]; try done.
  - intros t Ht. destruct (Y2 t Ht) as [-> ->]. rewrite Y3, Hsx, U2, U3 by done. done.
  - unfold holds. rewrite Y4, Hsi. unfold waits. unfold queuesOf in Y6.
    case_bool_decide; injection Y6 as -> ->; set_solver.
  - intros q Hq. rewrite Hother; [done|]. intros ->. apply Hq. unfold holds. rewrite Hsi. by left.
  - intros q. rewrite (fixed_squashedAt (rw_insts w) (<[p := clearSerializeBefore i]> (rw_insts w)) q); [done|]. by apply (same_insert _ _ _ i).
  - do 5 (split; [done|]). split; [done|].
    split.
    { split; [exact (f_equal (λ y, serializeOnNextInst y tid) Y1)|]. cbn [rw rw_set rw_insts rw_set_insts].
      intros q Hq. unfold tempMark. rewrite Hother; [done|]. destruct Hq; congruence. }
    apply (RReleased _ _ _ _ p (renameBlock (rw w) tid) (renameUnblock (rw w) tid));
      cbn [rw rw_set rw_insts rw_set_insts]; try done; try congruence.
    + unfold signalsOf. by rewrite Hss.
    + etrans; [exact Q5|done].
    + etrans; [apply Q4|done].
    + rewrite Y3, Y6. destruct U4 as [[U4 ->]|[U4 ->]]; [left|right]; (split; [done|]); (split; [|done]).
      * by rewrite bool_decide_eq_false_2.
      * by rewrite bool_decide_eq_true_2, U4.
Qed.

(** The reaction, once the wires have been read. *)
Lemma react_spec inp tid w b w' :
  (if ci_squash (rn_fromCommit inp tid) then
     let! v := rn_squash rf inp (ci_doneSeqNum (rn_fromCommit inp tid)) tid w in Ok (true, v)
   else if rn_checkStall inp tid w then rn_block tid w
   else if rn_statusIs (rw w) tid RnBlocked then
     let '(_, x) := rn_unblock tid (rn_setStatus tid RnUnblocking (rw w)) in Ok (true, rw_set x w)
   else if rn_statusIs (rw w) tid RnSquashing then
     if resumeSerialize (rw w) then Ok (true, rw_set (rn_setStatus tid RnSerializeStall (rw w)) w)
     else if resumeUnblocking (rw w) then Ok (true, rw_set (rn_setStatus tid RnUnblocking (rw w)) w)
     else Ok (false, rw_set (rn_setStatus tid RnRunning (rw w)) w)
   else if rn_statusIs (rw w) tid RnSerializeStall then let! v := endSerializeStall tid w in Ok (true, v)
   else Ok (false, w)) = Ok (b, w') →
  frames tid w w' ∧ renamed (rw w') = renamed (rw w) ∧ resumeUnblocking (rw w') = resumeUnblocking (rw w) ∧
  (∀ t, instsInProgress (rw w') t = instsInProgress (rw w) t) ∧ emptyROB (rw w') tid = emptyROB (rw w) tid ∧
  same isSerializeHandled (rw_insts w) (rw_insts w') ∧ keepsMarks tid w w' ∧ reacted inp tid w w'.
Proof.
  destruct (ci_squash (rn_fromCommit inp tid)) eqn:Hsq.
  { intros H. inv_ok1 H. injection H as _ <-. by apply squash_reaction. }
  destruct (rn_checkStall inp tid w) eqn:Hst.
  { intros H. apply rn_block_spec in H as (B1 & B2 & B3 & B4 & B5). pose proof (f_equal rw_insts B1) as Hi. cbn in Hi.
    split; [done|]. split; [exact (f_equal renamed B2)|]. split; [exact (f_equal resumeUnblocking B2)|].
    split; [intros t; exact (f_equal (λ y, instsInProgress y t) B2)|]. split; [exact (f_equal (λ y, emptyROB y tid) B2)|].
    split; [by rewrite Hi|]. split.
    { split; [exact (f_equal (λ y, serializeOnNextInst y tid) B2)|]. intros q _. by rewrite Hi. }
    apply RBlocked; try done; [exact (f_equal resumeSerialize B2)|exact (f_equal (λ y, serializeInst y tid) B2)]. }
  unfold rn_statusIs. destruct (bool_decide_reflect (renameStatus (rw w) tid = RnBlocked)) as [Hb|Hb].
  { destruct (rn_unblock _ _) as [c x] eqn:Hu. intros [= _ <-]. apply unblocking_spec in Hu as (U1 & U2 & U3 & U4).
    destruct (calm_reaction tid w x U1 U2 U3) as (Q1 & Q2 & Q3 & Q4 & Q5 & Q6 & Q7). cbn [rw rw_set rw_insts].
    do 6 (split; [done|]). split; [split; [exact (f_equal (λ y, serializeOnNextInst y tid) U1)|done]|].
    apply (RUnblocked _ _ _ _ (renameBlock (rw w) tid) (renameUnblock (rw w) tid)); cbn [rw rw_set]; try done.
    unfold signalsOf. by rewrite Hb. }
  destruct (bool_decide_reflect (renameStatus (rw w) tid = RnSquashing)) as [Hs|Hs].
  { set (s := if resumeSerialize (rw w) then RnSerializeStall else if resumeUnblocking (rw w) then RnUnblocking else RnRunning).
    intros H. assert (w' = rw_set (rn_setStatus tid s (rw w)) w) as ->.
    { unfold s. destruct (resumeSerialize (rw w)), (resumeUnblocking (rw w)); by injection H as _ <-. }
    clear H. destruct (calm_reaction tid w (rn_setStatus tid s (rw w)) eq_refl (λ _, eq_refl)) as (Q1 & Q2 & Q3 & Q4 & Q5 & Q6 & Q7).
    { intros t Ht. by apply setStatus_signals_ne. }
    cbn [rw rw_set rw_insts]. do 6 (split; [done|]). split; [by split|].
    apply (RRecovered _ _ _ _ (renameBlock (rw w) tid) (renameUnblock (rw w) tid)); cbn [rw rw_set]; try done.
    - unfold signalsOf. by rewrite Hs.
    - apply rn_setStatus_signals. }
  destruct (bool_decide_reflect (renameStatus (rw w) tid = RnSerializeStall)) as [Hss|Hss].
  { intros H. inv_ok1 H. injection H as _ <-. apply release_reaction; try done; unfold rn_checkStall, rn_statusIs in Hst;
      apply orb_false_iff in Hst as [_ Hst]; rewrite bool_decide_eq_true_2 in Hst by done; cbn in Hst;
      apply orb_false_iff in Hst as [H1%negb_false_iff H2%negb_false_iff]; [done|by apply Z.eqb_eq]. }
  intros [= _ <-]. do 6 (split; [done|]). split; [by split|]. by eapply RNone.
Qed.

Lemma reacted_informed inp tid x w w' : informed x = informed (rw w) → reacted inp tid (rw_set x w) w' → reacted inp tid w w'.
Proof.
  intros Hi.
  assert (∀ {B} (f : RenStage → B), (∀ y, f (informed y) = f y) → f x = f (rw w)) as Hf
    by (intros B f H; by rewrite <-(H x), Hi, H).
  assert (waits tid x = waits tid (rw w)) as Hw by by apply (Hf _ (waits tid)).
  intros H; destruct H; cbn [rw rw_set rw_insts] in *;
    repeat match goal with
    | H : context [signalsOf x tid] |- _ => rewrite (Hf _ (λ y, signalsOf y tid) (λ _, eq_refl)) in H
    | H : context [queuesOf x tid] |- _ => rewrite (Hf _ (λ y, queuesOf y tid) (λ _, eq_refl)) in H
    | H : context [rn_skidBuffer x tid] |- _ => rewrite (Hf _ (λ y, rn_skidBuffer y tid) (λ _, eq_refl)) in H
    | H : context [rn_insts x tid] |- _ => rewrite (Hf _ (λ y, rn_insts y tid) (λ _, eq_refl)) in H
    | H : context [serializeInst x tid] |- _ => rewrite (Hf _ (λ y, serializeInst y tid) (λ _, eq_refl)) in H
    | H : context [resumeSerialize x] |- _ => rewrite (Hf _ resumeSerialize (λ _, eq_refl)) in H
    | H : context [resumeUnblocking x] |- _ => rewrite (Hf _ resumeUnblocking (λ _, eq_refl)) in H
    end; rewrite ?Hw in *.
  - by eapply RSquashed.
  - by apply RBlocked.
  - by eapply RUnblocked.
  - by eapply RRecovered.
  - by eapply RReleased.
  - by eapply RNone.
Qed.

Lemma checkSignals_spec inp tid w b w' : rn_checkSignalsAndUpdate rf inp tid w = Ok (b, w') → reaction inp tid w w'.
Proof.
  unfold rn_checkSignalsAndUpdate. intros H. inv_ok1 H. rename a into x. cbn [rw rw_on rw_set] in E.
  apply readSignals_spec in E as (Hi & He & Ho).
  change (rw_set x (rw_on (rn_readFreeEntries inp tid) w)) with (rw_set x w) in H.
  apply (react_spec inp tid (rw_set x w)) in H as (H1 & H2 & H3 & H4 & H5 & H6 & H7 & H8). cbn [rw rw_set rw_insts] in *.
  pose proof (informed_frames tid w x Hi Ho) as Hf. split.
  - by etrans.
  - rewrite H2. exact (f_equal renamed Hi).
  - rewrite H3. exact (f_equal resumeUnblocking Hi).
  - intros t. rewrite H4. exact (f_equal (λ y, instsInProgress y t) Hi).
  - rewrite H5. by rewrite He.
  - done.
  - destruct H7 as [H7 H7']. cbn [rw rw_set] in H7, H7'. split.
    + rewrite H7. exact (f_equal (λ y, serializeOnNextInst y tid) Hi).
    + intros q Hq. apply H7'. by rewrite (f_equal (λ y, serializeInst y tid) Hi : serializeInst x tid = serializeInst (rw w) tid).
  - by eapply reacted_informed.
Qed.

(** ** The turn of a thread *)

(** The skid buffer is empty unless the thread holds decode back. *)
Definition shape (tid : ThreadID) (x : RenStage) : Prop := holding (renameStatus x tid) = false → rn_skidBuffer x tid = [].

Lemma resumeStall_idle tid w w' :
  resumeSerialize (rw w) = false → resumeUnblocking (rw w) = false → resumeStall tid w = Ok w' → w' = w.
Proof. unfold resumeStall. intros -> ->. rewrite !andb_false_r. by intros [= <-]. Qed.

(** What follows [renameInsts] while unblocking. *)
Definition finishUnblocking (inp : RenameInputs) (status_change : bool) (tid : ThreadID) (w : Ren) : outcome (bool * Ren) :=
  let! valid := rn_validInsts inp w in
  let! w := if valid : bool then rn_skidInsert tid w else Ok w in
  let '(change, x) := rn_unblock tid (rw w) in
  Ok (change || status_change || blockThisCycle x, rw_set x w).

Lemma finishUnblocking_spec inp c tid w c' w' :
  finishUnblocking inp c tid w = Ok (c', w') →
  w' = rw_set (rw w') w ∧ calm (rw w') = calm (rw w) ∧ frames tid w w' ∧ waits tid (rw w') = waits tid (rw w) ∧
  (signalsOf (rw w') tid = signalsOf (rw w) tid ∧
     (rn_skidBuffer (rw w') tid ≠ [] ∨ renameStatus (rw w) tid = RnSerializeStall) ∨
   rn_skidBuffer (rw w') tid = [] ∧ renameStatus (rw w) tid ≠ RnSerializeStall ∧
     signalsOf (rw w') tid = (RnRunning, renameBlock (rw w) tid, true)).
Proof.
  unfold finishUnblocking. intros H. inv_ok1 H. inv_ok1 H. rename a0 into v.
  destruct (rn_unblock tid (rw v)) as [ch x] eqn:Hu. injection H as _ <-. apply rn_unblock_spec in Hu as (U1 & U2 & U3 & U4).
  assert (v = rw_set (rw v) w ∧ calm (rw v) = calm (rw w) ∧ (∀ t, signalsOf (rw v) t = signalsOf (rw w) t) ∧
    waits tid (rw v) = waits tid (rw w) ∧ ∀ t, t ≠ tid → queuesOf (rw v) t = queuesOf (rw w) t) as (V1 & V2 & V3 & V4 & V5).
  { destruct a; [|injection E0 as <-; by destruct w]. apply rn_skidInsert_spec in E0 as (S1 & S2 & S3 & S4 & S5).
    split_and!; try done. unfold queuesOf in S4. injection S4 as S4 S4'. unfold waits at 1. by rewrite S4, S4', app_nil_r. }
  assert (waits tid x = waits tid (rw w)) as Hw.
  { rewrite <-V4. specialize (U2 tid). unfold queuesOf in U2. injection U2 as E1 E2. unfold waits. by rewrite E1, E2. }
  rewrite V1. cbn [rw rw_set]. split; [done|]. split; [congruence|]. split; [|split; [done|]].
  - apply (calm_frames tid w x); [congruence| |by rewrite Hw]. intros t Ht. by rewrite U2, U3, V3, V5.
  - specialize (V3 tid) as Hs. unfold signalsOf in Hs. injection Hs as Hs1 Hs2 Hs3. specialize (U2 tid) as Hq.
    unfold queuesOf in Hq. injection Hq as Hq _. rewrite Hq, <-Hs1, <-Hs2.
    destruct U4 as [[-> Hk]|(Hk & Hne & Hsg)]; [left|right]; [|done]. split; [apply V3|done].
Qed.

(** [rename]: nothing, or a turn, which ends the unblocking once the skid buffer is empty. *)
Inductive renamedThread (inp : RenameInputs) (tid : ThreadID) (w w' : Ren) : Prop :=
  | Waiting : renameStatus (rw w) tid ≠ RnRunning → renameStatus (rw w) tid ≠ RnIdle → renameStatus (rw w) tid ≠ RnUnblocking →
      w' = w → renamedThread inp tid w w'
  | Turn l : renameStatus (rw w) tid = RnRunning ∨ renameStatus (rw w) tid = RnIdle → turn inp tid l w w' →
      renamedThread inp tid w w'
  | Unblocks l v c c' : renameStatus (rw w) tid = RnUnblocking → turn inp tid l w v → finishUnblocking inp c tid v = Ok (c', w') →
      renamedThread inp tid w w'.

Lemma rename_spec inp c tid w c' w' v :
  resumeStall tid w = Ok v → rn_rename rf cfg flattenRegId inp c tid w = Ok (c', w') → shape tid (rw v) → renamedThread inp tid v w'.
Proof.
  unfold rn_rename, rn_statusIs. intros -> H Hsh.
  destruct (bool_decide (renameStatus (rw v) tid = RnRunning) || bool_decide (renameStatus (rw v) tid = RnIdle)) eqn:Hr.
  { inv_ok1 H. injection H as _ <-.
    assert (renameStatus (rw v) tid = RnRunning ∨ renameStatus (rw v) tid = RnIdle) as Hst.
    { apply orb_true_iff in Hr as [Hr|Hr]; apply bool_decide_eq_true in Hr; auto. }
    apply renameInsts_spec in E as [l Hl]; [by eapply Turn|]. intros _. apply Hsh. by destruct Hst as [->| ->]. }
  apply orb_false_iff in Hr as [Hr1%bool_decide_eq_false Hr2%bool_decide_eq_false].
  destruct (bool_decide_reflect (renameStatus (rw v) tid = RnUnblocking)) as [Hu|Hu].
  - inv_ok1 H. apply renameInsts_spec in E as [l Hl]; [by eapply Unblocks|done].
  - injection H as _ <-. by apply Waiting.
Qed.

(** ** The handshake with decode *)

(** [stalled]: what decode knew before this cycle's signals. *)
Definition tells (stalled : bool) (g : RenameStatus * bool * bool) : Prop :=
  let '(s, b, u) := g in
  (b = true → u = true → False) ∧ (u = true → stalled = true) ∧
  holding s = (if b then true else if u then false else stalled) ∧ (s = RnUnblocking → b = false).

Lemma block_tells stalled g : tells stalled g → tells stalled (blockSignals false g).
Proof.
  destruct g as [[s b] u]. unfold blockSignals, tells. destruct s, b, u, stalled; cbn; naive_solver.
Qed.
Lemma noUnblock_tells stalled g : tells stalled g → holding (fst (fst g)) = true → tells stalled (noUnblock g).
Proof. destruct g as [[s b] u]. unfold tells. destruct s, b, u, stalled; cbn; naive_solver. Qed.
Lemma block_holding g : holding (fst (fst (blockSignals false g))) = true.
Proof. destruct g as [[s b] u]. unfold blockSignals. by destruct s, b, u. Qed.
Lemma stalled_tells stalled g : tells stalled (noUnblock (blockSignals false (stalledNow g))).
Proof. destruct g as [[s b] u]. unfold tells. by destruct s, b, u, stalled. Qed.

(** No squash leaves a serialize stall to be resumed: the instruction the thread waits
    with is younger than everything commit knows. *)
Definition noResume (inp : RenameInputs) (tid : ThreadID) (w : Ren) : Prop :=
  ci_squash (rn_fromCommit inp tid) = true → renameStatus (rw w) tid = RnSerializeStall →
  ∀ p i, serializeInst (rw w) tid = Some p → rw_insts w !! p = Some i → ci_doneSeqNum (rn_fromCommit inp tid) < seqNum i.

(** What a thread's part of the cycle keeps. *)
Record kept (stalled : bool) (tid : ThreadID) (x : RenStage) : Prop := {
  kp_tells : tells stalled (signalsOf x tid);
  kp_shape : shape tid x;
  kp_resume : resumeSerialize x = false;
  kp_unblocking : resumeUnblocking x = false;
}.

Lemma reaction_kept inp tid w w' s :
  signalsOf (rw w) tid = (s, false, false) → shape tid (rw w) → resumeSerialize (rw w) = false → resumeUnblocking (rw w) = false →
  noResume inp tid w → reaction inp tid w w' → kept (holding s) tid (rw w').
Proof.
  intros Hs Hsh Hrs Hru Hno [_ _ Hu _ _ _ _ Hre]. destruct (statusIs_eq _ _ _ _ _ Hs) as (Hst & _ & _).
  unfold shape in Hsh. rewrite Hst in Hsh. destruct Hre.
  - rewrite Hs in H0. injection H0 as <- <- <-. assert (shape tid (rw w')) as Hsh' by (intros _; unfold queuesOf in H1; congruence).
    destruct H2 as [(Hh & Hg & Hr)|[(-> & _ & p & i & Hp & Hi & Hle)|(Hh & Hg & Hr)]].
    + split; [|done|done|congruence]. rewrite Hg, Hh. unfold tells. naive_solver.
    + specialize (Hno H Hst p i Hp Hi). lia.
    + split; [|done|congruence|congruence]. rewrite Hg, Hh. unfold tells. naive_solver.
  - rewrite Hru, Hs in H0. split; [|..|congruence|congruence].
    + rewrite H0. apply block_tells. unfold tells. by destruct s.
    + unfold shape. pose proof (block_holding (s, false, false)) as Hb. rewrite <-H0 in Hb. unfold signalsOf in Hb. cbn [fst] in Hb. congruence.
  - rewrite Hs in H. injection H as -> <- <-. unfold queuesOf in H0. injection H0 as Hk _.
    destruct H1 as [[Hne Hg]|[He Hg]]; (split; [|..|congruence|congruence]); rewrite ?Hg; try done.
    + intros Hh. unfold signalsOf in Hg. injection Hg as Hg _ _. by rewrite Hg in Hh.
    + intros _. congruence.
  - rewrite Hs in H. injection H as -> <- <-. rewrite Hrs, Hru in H1. unfold queuesOf in H0. injection H0 as Hk _.
    split; [|..|congruence|congruence]; rewrite ?H1; [done|]. intros _. rewrite Hk. by apply Hsh.
  - rewrite Hs in H. injection H as -> <- <-.
    destruct H4 as [(Hne & Hq & Hg)|(He & Hq & Hg)]; (split; [|..|congruence|congruence]); rewrite ?Hg; try done.
    + intros Hh. unfold signalsOf in Hg. injection Hg as Hg _ _. by rewrite Hg in Hh.
    + intros _. unfold queuesOf in Hq. congruence.
  - rewrite Hs in H. injection H as <- <- <-. unfold queuesOf in H3. injection H3 as Hk _.
    split; [|..|congruence|congruence].
    + rewrite H4. unfold tells. by destruct s.
    + intros Hh. rewrite Hk. apply Hsh. unfold signalsOf in H4. injection H4 as H4 _ _. by rewrite H4 in Hh.
Qed.

Lemma ended_kept stalled tid l w w' :
  kept stalled tid (rw w) → resumeSerialize (rw w') = resumeSerialize (rw w) →
  resumeUnblocking (rw w') = resumeUnblocking (rw w) → ended tid l w w' → kept stalled tid (rw w').
Proof.
  intros [K1 K2 K3 K4] Hr Hu [E1 E2 E3 E4|u E1 E2 g E3 E4|p i E1 E2 E3 E4 E5 E6 E7 E8];
    (split; [|..|congruence|congruence]); try rewrite K4 in *.
  - by rewrite E3.
  - intros Hh. destruct (statusIs_eq _ _ _ _ _ E3) as (Hs & _ & _). rewrite Hs in Hh. apply E4. intros Hx. by rewrite Hx in Hh.
  - unfold g in E3. rewrite K4 in E3. rewrite E3. clear g.
    destruct u; [apply noUnblock_tells; [by apply block_tells|apply block_holding]|by apply block_tells].
  - intros Hh. pose proof (block_holding (signalsOf (rw w) tid)) as Hb. rewrite <-K4 in Hb. fold g in Hb. clearbody g.
    assert (holding (fst (fst (signalsOf (rw w') tid))) = true) as Hx by (rewrite E3; destruct u, g as [[??]?]; exact Hb).
    unfold signalsOf in Hx. cbn [fst] in Hx. congruence.
  - rewrite E7. apply stalled_tells.
  - intros Hh. assert (holding (fst (fst (signalsOf (rw w') tid))) = true) as Hx.
    { rewrite E7. pose proof (block_holding (stalledNow (signalsOf (rw w) tid))) as Hb.
      by destruct (blockSignals false (stalledNow (signalsOf (rw w) tid))) as [[??]?]. }
    unfold signalsOf in Hx. cbn [fst] in Hx. congruence.
Qed.

Lemma finish_kept inp c stalled tid w c' w' :
  kept stalled tid (rw w) → renameStatus (rw w) tid ≠ RnRunning → (renameBlock (rw w) tid = false ∨ renameStatus (rw w) tid = RnSerializeStall) →
  holding (renameStatus (rw w) tid) = true →
  finishUnblocking inp c tid w = Ok (c', w') → kept stalled tid (rw w').
Proof.
  intros [K1 K2 K3 K4] Hnr Hb Hh (F1 & F2 & F3 & F4 & F5)%finishUnblocking_spec.
  pose proof (f_equal resumeSerialize F2 : resumeSerialize (rw w') = resumeSerialize (rw w)) as Hr.
  pose proof (f_equal resumeUnblocking F2 : resumeUnblocking (rw w') = resumeUnblocking (rw w)) as Hu.
  destruct F5 as [[Hg Hk]|(Hk & Hne & Hg)]; (split; [|..|congruence|congruence]); rewrite ?Hg.
  - done.
  - intros Hx. destruct (statusIs_eq _ _ _ _ _ Hg) as (Hs & _ & _). rewrite Hs in Hx. congruence.
  - destruct Hb as [Hb|]; [|done]. rewrite Hb. unfold signalsOf, tells in K1. rewrite Hb, Hh in K1.
    destruct K1 as (_ & _ & K1 & _). unfold tells. destruct (renameUnblock (rw w) tid); [done|]. by rewrite <-K1.
  - intros _. done.
Qed.

Lemma ended_unblocking tid l w v :
  renameStatus (rw w) tid = RnUnblocking → renameBlock (rw w) tid = false → resumeUnblocking (rw w) = false → ended tid l w v →
  renameStatus (rw v) tid ≠ RnRunning ∧ holding (renameStatus (rw v) tid) = true ∧
  (renameBlock (rw v) tid = false ∨ renameStatus (rw v) tid = RnSerializeStall).
Proof.
  intros Hs Hb Hu. assert (signalsOf (rw w) tid = (RnUnblocking, false, renameUnblock (rw w) tid)) as Hg by (unfold signalsOf; by rewrite Hs, Hb).
  intros [E1 E2 E3 E4|u E1 E2 g E3 E4|p i E1 E2 E3 E4 E5 E6 E7 E8].
  - rewrite Hg in E3. injection E3 as -> -> _. auto.
  - unfold g in E3. rewrite Hg, Hu in E3. destruct u; injection E3 as -> -> _; auto.
  - rewrite Hg, Hu in E7. injection E7 as -> _ _. auto.
Qed.

Lemma thread_kept inp tid w c c' w' s :
  signalsOf (rw w) tid = (s, false, false) → shape tid (rw w) → resumeSerialize (rw w) = false → resumeUnblocking (rw w) = false →
  noResume inp tid w → renameThread rf cfg flattenRegId inp (c, w) tid = Ok (c', w') →
  kept (holding s) tid (rw w') ∧ frames tid w w'.
Proof.
  intros Hs Hsh Hrs Hru Hno H. unfold renameThread in H. inv_ok1 H. destruct a as [c1 w1]. apply checkSignals_spec in E.
  pose proof (re_frames _ _ _ _ E) as Hf1. apply (reaction_kept inp tid w w1 s Hs Hsh Hrs Hru Hno) in E.
  pose proof E as Hk1. destruct E as [K1 K2 K3 K4].
  assert (∃ v, resumeStall tid w1 = Ok v) as [v Hv].
  { unfold rn_rename in H. destruct (resumeStall tid w1); [eauto|done]. }
  pose proof (resumeStall_idle _ _ _ K3 K4 Hv) as ->.
  apply (rename_spec _ _ _ _ _ _ _ Hv) in H; [|done]. destruct H as [_ _ _ ->|l _ Ht|l v cc cc' Hst Ht Hfin].
  - done.
  - pose proof Ht as [T1 _ _ _ _ _ [T6 T7] _ _ _ _ _ _ _ _ _ _ _ T14]. split; [|by etrans].
    by eapply ended_kept.
  - pose proof Ht as [T1 _ _ _ _ _ [T6 T7] _ _ _ _ _ _ _ _ _ _ _ T14].
    assert (renameBlock (rw w1) tid = false) as Hb1.
    { unfold tells, signalsOf in K1. destruct K1 as (_ & _ & _ & K1). auto. }
    destruct (ended_unblocking tid l w1 v Hst Hb1 K4 T14) as (U1 & U2 & U3). split.
    + eapply (finish_kept inp cc _ tid v); try done. by eapply ended_kept.
    + apply finishUnblocking_spec in Hfin as (_ & _ & F3 & _). etrans; [exact Hf1|]. by etrans.
Qed.

(** ** The cycle *)

Lemma ofThread_eq x y t : ofThread x t = ofThread y t →
  signalsOf x t = signalsOf y t ∧ queuesOf x t = queuesOf y t ∧ serializeInst x t = serializeInst y t.
Proof. unfold ofThread. intros [=]. split_and!; [unfold signalsOf|unfold queuesOf|]; congruence. Qed.

Lemma shape_eq tid x y : signalsOf x tid = signalsOf y tid → queuesOf x tid = queuesOf y tid → shape tid y → shape tid x.
Proof. unfold shape, signalsOf, queuesOf. intros [= -> _ _] [= -> _]. done. Qed.

Lemma noResume_frames inp t tid w w' : t ≠ tid → frames t w w' → noResume inp tid w → noResume inp tid w'.
Proof.
  intros Hne [F1 _ F3 _ _ _] Hno Hc Hst p i Hp Hi. destruct (ofThread_eq _ _ _ (F1 tid ltac:(done))) as (G1 & _ & G3).
  specialize (F3 p). rewrite Hi in F3. destruct (rw_insts w !! p) as [j|] eqn:Hj; [|done]. injection F3 as F3 _ _. rewrite F3.
  apply (Hno Hc) with (p := p); [unfold signalsOf in G1; congruence|congruence|done].
Qed.

Lemma threads_kept inp l : ∀ w c c' w',
  NoDup l → (∀ tid, signalsOf (rw w) tid = (renameStatus (rw w) tid, false, false) ∨ tid ∉ l) → (∀ tid, shape tid (rw w)) →
  resumeSerialize (rw w) = false → resumeUnblocking (rw w) = false → (∀ tid, tid ∈ l → noResume inp tid w) →
  foldM (renameThread rf cfg flattenRegId inp) l (c, w) = Ok (c', w') →
  resumeSerialize (rw w') = false ∧ resumeUnblocking (rw w') = false ∧ (∀ tid, shape tid (rw w')) ∧
  (∀ tid, tid ∈ l → tells (holding (renameStatus (rw w) tid)) (signalsOf (rw w') tid)) ∧
  (∀ tid, tid ∉ l → signalsOf (rw w') tid = signalsOf (rw w) tid).
Proof.
  induction l as [|t l IH]; intros w c c' w' Hnd Hsg Hsh Hrs Hru Hno H; cbn [foldM] in H.
  { injection H as <- <-. split_and!; try done. intros tid Ht. by apply elem_of_nil in Ht. }
  apply NoDup_cons in Hnd as [Hnot Hnd]. inv_ok1 H. destruct a as [c1 w1].
  assert (∀ tid, tid ∈ l → tid ∈ t :: l ∧ tid ≠ t) as Hin by (intros tid Htl; split; [by right|by intros ->]).
  destruct (Hsg t) as [Ht|Ht]; [|by destruct Ht; left].
  destruct (thread_kept inp t w c c1 w1 _ Ht (Hsh t) Hrs Hru (Hno t ltac:(by left)) E) as [[K1 K2 K3 K4] Hf].
  assert (∀ tid, tid ≠ t → signalsOf (rw w1) tid = signalsOf (rw w) tid ∧ queuesOf (rw w1) tid = queuesOf (rw w) tid) as Ho.
  { intros tid Hne. destruct (ofThread_eq _ _ _ (fr_other _ _ _ Hf tid Hne)) as (? & ? & _). done. }
  destruct (IH w1 c1 c' w') as (I1 & I2 & I3 & I4 & I5); [exact Hnd| | |exact K3|exact K4| |exact H|].
  - intros tid. destruct (decide (tid = t)) as [->|Hne]; [by right|]. destruct (Ho tid Hne) as [Hg _].
    destruct (Hsg tid) as [Hx|Hx]; [left|right; by intros Htl; apply Hx, Hin]. rewrite Hg, Hx. unfold signalsOf in Hg. by injection Hg as -> _ _.
  - intros tid. destruct (decide (tid = t)) as [->|Hne]; [done|]. destruct (Ho tid Hne) as [Hg Hq]. eapply shape_eq; eauto.
  - intros tid Htl. apply (noResume_frames inp t tid w); [by destruct (Hin tid Htl)|done|]. apply Hno. by apply Hin.
  - split; [exact I1|]. split; [exact I2|]. split; [exact I3|]. split.
    + intros tid [->|Htl]%elem_of_cons; [by rewrite I5|]. assert (tid ≠ t) as Hne by by apply Hin.
      destruct (Ho tid Hne) as [Hg _]. unfold signalsOf in Hg. injection Hg as Hg _ _. rewrite <-Hg. auto.
    + intros tid [Hne Htl]%not_elem_of_cons. rewrite I5 by done. by apply Ho.
Qed.

(** What the end of [tick] leaves alone. *)
Definition settled (x : RenStage) : RenStage :=
  set_rn_active false (set_instsInProgress (λ _, 0) (set_loadsInProgress (λ _, 0) (set_storesInProgress (λ _, 0) x))).

(** A cycle is the sorting of what decode sent, a turn of every active thread, and
    bookkeeping. *)
Lemma tick_spec inp w w' :
  rn_tick rf cfg flattenRegId inp w = Ok w' →
  ∃ w1 c w2, rn_sortInsts inp (rw_on rn_startCycle w) = Ok w1 ∧
    foldM (renameThread rf cfg flattenRegId inp) (rn_activeThreads (rw w1)) (false, w1) = Ok (c, w2) ∧
    settled (rw w') = settled (rw w2) ∧ rw_insts w' = rw_insts w2.
Proof.
  unfold rn_tick. intros H. inv_ok1 H. rename a into w1. inv_ok1 H. destruct a as [c w2]. exists w1, c, w2.
  split; [done|]. split; [done|]. clear E E0.
  inv_ok1 H. rename a into w3. inv_ok1 H. rename a into w4. inv_ok1 H. rename a into w5. inv_ok1 H. rename a into x. injection H as <-.
  assert (settled (rw w3) = settled (rw w2) ∧ rw_insts w3 = rw_insts w2) as [H3 H3'].
  { destruct c; [|by injection E as <-]. unfold rn_updateStatus in E.
    destruct (existsb _ _), (rn_active (rw w2)); try (by injection E as <-); inv_ok1 E; by injection E as <-. }
  assert (rw w4 = rw w3 ∧ rw_insts w4 = rw_insts w3) as [H4 H4'].
  { destruct (rn_wroteToTimeBuffer (rw w3)); [inv_ok1 E0|]; by injection E0 as <-. }
  assert (rw w5 = rw w4 ∧ rw_insts w5 = rw_insts w4) as [H5 H5'].
  { clear -E1. revert E1. generalize (rn_activeThreads (rw w4)). intros l. revert w4.
    induction l as [|t l IH]; intros w4 E1; cbn [foldM] in E1; [by injection E1 as <-|].
    inv_ok1 E1. apply IH in E1 as [-> ->]. unfold freeHistory in E. destruct (_ && _); [inv_ok1 E|]; by injection E as <-. }
  cbn [rw rw_set rw_insts]. split; [|congruence]. rewrite <-H3, <-H4, <-H5. clear -E2.
  revert E2. generalize (seq 0 (rn_numThreads (rw w5))). intros l. generalize (rw w5). induction l as [|t l IH]; intros y E2; cbn [foldM] in E2; [by injection E2 as <-|].
  inv_ok1 E2. apply IH in E2. rewrite E2. unfold updateProgress in E. inv_ok1 E. inv_ok1 E. inv_ok1 E. by injection E as <-.
Qed.

Lemma sortInsts_spec inp w w' :
  rn_sortInsts inp w = Ok w' →
  w' = rw_set (rw w') w ∧ calm (rw w') = calm (rw w) ∧ (∀ t, signalsOf (rw w') t = signalsOf (rw w) t) ∧
  ∀ t, queuesOf (rw w') t
       = (rn_skidBuffer (rw w) t, rn_insts (rw w) t ++ filter (λ p, threadNumber <$> rw_insts w !! p = Some t) (fromDecode inp)).
Proof.
  unfold rn_sortInsts. intros H. inv_ok1 H. rename a into x. injection H as <-. split; [done|]. cbn [rw rw_set].
  revert E. generalize (rw w). induction (fromDecode inp) as [|p l IH]; intros y E; cbn [foldM] in E.
  { injection E as <-. split_and!; try done. intros t. by rewrite app_nil_r. }
  inv_ok1 E. inv_ok1 E0. apply deref_Ok in E1. injection E0 as <-. apply IH in E as (I1 & I2 & I3).
  split; [exact I1|]. split; [exact I2|]. intros t. rewrite I3, filter_cons, E1. cbn.
  destruct (decide (t = threadNumber a0)) as [->|Hne].
  - rewrite fn_lookup_insert, decide_True by done. by rewrite <-(assoc_L (++)).
  - rewrite fn_lookup_insert_ne, decide_False by congruence. done.
Qed.

(** Decode reads rename's signals about the threads [l]. *)
Definition readRenameStalls {PC} (inp : DecodeInputs) (l : list ThreadID) (d : Decode (PC := PC)) : outcome (Decode (PC := PC)) :=
  foldM (λ x tid, dec_readStallSignals inp tid x) l d.

Lemma readStallSignals_ok {PC} (inp : DecodeInputs) tid (d : Decode (PC := PC)) :
  (in_renameUnblock inp tid = true → renameStall d tid = true ∧ in_renameBlock inp tid = false) →
  ∃ d', dec_readStallSignals inp tid d = Ok d' ∧
    renameStall d' tid = (if in_renameBlock inp tid then true else if in_renameUnblock inp tid then false else renameStall d tid) ∧
    ∀ t, t ≠ tid → renameStall d' t = renameStall d t.
Proof.
  intros H. unfold dec_readStallSignals. destruct (in_renameUnblock inp tid).
  - destruct (H eq_refl) as [Hs ->]. rewrite Hs. eexists. split; [done|]. cbn. rewrite fn_lookup_insert.
    split; [done|]. intros t Ht. by rewrite fn_lookup_insert_ne.
  - eexists. split; [done|]. destruct (in_renameBlock inp tid); [|done]. cbn. rewrite fn_lookup_insert.
    split; [done|]. intros t Ht. by rewrite fn_lookup_insert_ne.
Qed.

Lemma readRenameStalls_ok {PC} (inp : DecodeInputs) (f : ThreadID → bool) l (d : Decode (PC := PC)) :
  NoDup l →
  (∀ tid, tid ∈ l → (in_renameUnblock inp tid = true → renameStall d tid = true ∧ in_renameBlock inp tid = false) ∧
     f tid = (if in_renameBlock inp tid then true else if in_renameUnblock inp tid then false else renameStall d tid)) →
  ∃ d', readRenameStalls inp l d = Ok d' ∧ (∀ tid, tid ∈ l → renameStall d' tid = f tid) ∧
        (∀ tid, tid ∉ l → renameStall d' tid = renameStall d tid).
Proof.
  intros Hl. revert d. unfold readRenameStalls. induction Hl as [|t l Hnot Hl IH]; intros d H.
  { exists d. split_and!; try done. intros tid Ht. by apply elem_of_nil in Ht. }
  destruct (H t) as [Hu Hf]; [by left|]. destruct (readStallSignals_ok inp t d Hu) as (d1 & Hd1 & Hs & Ho).
  assert (∀ tid, tid ∈ l → tid ≠ t) as Hne by (intros tid Ht ->; done).
  destruct (IH d1) as (d' & Hd' & I1 & I2).
  { intros tid Ht. rewrite (Ho tid) by auto. apply H. by right. }
  exists d'. cbn [foldM]. rewrite Hd1. split; [exact Hd'|]. split.
  - intros tid [->|Ht]%elem_of_cons; [rewrite I2 by done; congruence|by apply I1].
  - intros tid [Hx Hy]%not_elem_of_cons. rewrite I2 by done. by apply Ho.
Qed.
End signals.

Section handshake.
Context (rf : PhysRegFile) (cfg : DolmaConfig) (flattenRegId : RegId → RegId) {HSO : StaticOperands} {PC : Type}.

(** What rename keeps from cycle to cycle: the queues have their shape, and no stall
    waits to be resumed. *)
Record stage_ok (x : RenStage) : Prop := {
  so_shape : ∀ tid, shape tid x;
  so_resume : resumeSerialize x = false;
  so_unblocking : resumeUnblocking x = false;
}.

End handshake.

(** ** An example: a serializing instruction and one that follows it *)
Module RenameStageExample.
#[export] Instance operands : StaticOperands := {|
  so_srcReg _ _ := mkRegId IntRegClass 0 (-1); so_destReg _ _ := mkRegId IntRegClass 0 (-1);
  so_numIntDestRegs _ := 0%nat; so_numFPDestRegs _ := 0%nat; so_numVecDestRegs _ := 0%nat;
  so_numVecElemDestRegs _ := 0%nat; so_numCCDestRegs _ := 0%nat |}.
Definition si (l : list StaticFlag) : StaticInst := mkStaticInst (foldr (λ f s, bs_set s f) 0%N l) 1 0 0 "".
Definition insts : store :=
  list_to_map [(1, initInst (si [DynInst.IsSerializeBefore]) 0 1 0); (2, initInst (si [IsInteger]) 4 2 0);
               (3, initInst (si [IsMemRef; IsLoad]) 8 3 0)].
Definition idle : RenStage :=
  match newRenStage 4 4 1 1 [0%nat] with
  | Ok x => rn_resetStage (λ _, mkFreeEntries 8 8 8 8) x
  | Err _ => mkRenStage false (λ _, RnIdle) (λ _, []) (λ _, []) (λ _, 0) (λ _, 0) (λ _, 0) (λ _, mkFreeEntries 0 0 0 0)
      (λ _, true) (λ _, false) (λ _, None) (λ _, false) false false false (λ _, false) (λ _, false) [] false 0 0 0 []
  end.
Definition recorder : ActivityRecorder :=
  mkActivityRecorder (mkTimeBuffer 10 0 11 (replicate 11 false) 0) 10 0 (replicate 5 false).
Definition world (x : RenStage) : Ren := mkRen x RenameExample.start IqExample.queue0 insts recorder.
Definition silentIEW : IewToRename :=
  mkIewToRename (λ _, 0) (λ _, 0) (λ _, 0) (λ _, 0) (λ _, 0) (λ _, 0) (λ _, 0) (λ _, 0)
    (λ _, false) (λ _, false) (λ _, false) (λ _, false).
Definition silentCommit : CommitInfo := mkCommitInfo 0 None None None 0 0 0 false false false false false false false false.
Definition arrive (l : list DynInstPtr) : RenameInputs := mkRenameInputs l silentIEW (λ _, silentCommit).
Definition mode : DolmaConfig := mkDolmaConfig true false false false.
Definition cycle (l : list DynInstPtr) (w : Ren) : Ren :=
  match rn_tick RenameExample.rf mode id (arrive l) w with Ok w' => w' | Err _ => w end.
(** The serializing instruction arrives and stalls the thread; then it leaves. *)
Definition first : Ren := Eval vm_compute in cycle [1; 2] (world idle).
Definition second : Ren := cycle [] first.
Definition heard : DecodeInputs := mkDecodeInputs [] (renameBlock (rw first)) (renameUnblock (rw first)) (λ _, false).

Lemma rn_idle_ok : stage_ok (rw (world idle)).
Proof. split; [|done|done]. intros tid _. by vm_compute. Qed.
End RenameStageExample.
Import RenameStageExample.

