(* ===== verification/RenameSerial.v ===== *)
(** * Order and serialization in rename

    A turn of a thread hands the issue stage a prefix of what waits, in order and within
    the room the back end has; and an instruction marked serialize-before leaves rename
    only after a cycle in which the reorder buffer was reported empty and nothing the
    thread sent was still on its way. *)

From S2P Require Import Prelude Regs Config DynInst Metadata Rob StoreSet DepGraph FUPool MemDepUnit.
From S2P Require Import InstQueue Rename TimeBuf Activity CpuList DirPred BPred X86Pc Decode DecodeSafe DecodeOk Iew Commit.
From S2P Require IqTaint RenameInv.
From S2P Require Import RenameStage RenameStageOk RenameSignals.

Local Open Scope Z_scope.

Lemma stalled_status ru g : fst (fst (noUnblock (blockSignals ru (stalledNow g)))) = RnSerializeStall.
Proof. destruct g as [[s b] u]. by destruct ru. Qed.

Section order.
Context (rf : PhysRegFile) (cfg : DolmaConfig) (flattenRegId : RegId → RegId) {HSO : StaticOperands}.

(** C18: Rename keeps the order, loses nothing, and stays within the room it was promised. Of the instructions waiting for a thread (skid buffer first) a turn takes a prefix and sends those of it that are not squashed to the issue stage in that order; the rest goes on waiting, less the first of it if that one must serialize, which becomes the instruction the thread stalls on. No instruction sent had to serialize first; the prefix is no longer than the free entries of the reorder buffer and of the instruction queue, the cycle's output no longer than the width, and every load and store sent had an entry in its queue; the counters of what is in progress grow by exactly what was sent. *)
Theorem rename_in_order inp tid w w' :
  shape tid (rw w) → NoDup (waits tid (rw w)) →
  renameStatus (rw w) tid ≠ RnBlocked → renameStatus (rw w) tid ≠ RnSerializeStall →
  renameInsts rf cfg flattenRegId inp tid w = Ok w' →
  ∃ l, let sent := live (rw_insts w) l in
    renamed (rw w') = renamed (rw w) ++ sent ∧
    (waits tid (rw w) = l ++ waits tid (rw w') ∨
     ∃ p, waits tid (rw w) = l ++ p :: waits tid (rw w') ∧ serializeInst (rw w') tid = Some p ∧
       renameStatus (rw w') tid = RnSerializeStall) ∧
    (∀ p i, p ∈ sent → rw_insts w !! p = Some i → mustSerializeBefore i = false) ∧
    (l = [] ∨ Z.of_nat (length l) <= Z.min (calcFreeROBEntries inp tid (rw w)) (calcFreeIQEntries inp tid (rw w))) ∧
    ((length (renamed (rw w)) <= renameWidth (rw w))%nat → (length (renamed (rw w')) <= renameWidth (rw w))%nat) ∧
    (0 <= calcFreeLQEntries inp tid (rw w) → 0 <= calcFreeLQEntries inp tid (rw w')) ∧
    (0 <= calcFreeSQEntries inp tid (rw w) → 0 <= calcFreeSQEntries inp tid (rw w')) ∧
    instsInProgress (rw w') tid = instsInProgress (rw w) tid + Z.of_nat (length sent) ∧
    loadsInProgress (rw w') tid = loadsInProgress (rw w) tid + count (isLoadAt (rw_insts w)) sent ∧
    storesInProgress (rw w') tid = storesInProgress (rw w) tid + count (isStoreAt (rw_insts w)) sent.
Proof.
  intros Hsh Hnd Hb Hss H. apply renameInsts_spec in H as [l Ht].
  2: { intros Hu. apply Hsh. unfold holding. by rewrite !bool_decide_eq_false_2. }
  exists l. destruct Ht as [T1 T2 T3 T4 T5 T5a T6 T7 T8 T9 T10 T11 T12 T13 T15 T16 T17 T18 T14]. unfold loadsOf in T11. injection T11 as L1 L2.
  assert (∃ l', waits tid (rw w) = l ++ l') as [l' Hw] by (destruct T14; eauto).
  assert (NoDup l) as Hl by (rewrite Hw in Hnd; by apply NoDup_app in Hnd as (? & _)).
  split; [done|]. split; [|split].
  - destruct T14 as [E1|u E1|p i E1 E2 E3 E4 E5 E6 E7]; [by left|by left|right]. exists p. split; [done|]. split; [done|].
    rewrite (f_equal (λ g, fst (fst g)) E7 : renameStatus (rw w') tid = _). apply stalled_status.
  - intros p i [Hs Hp]%list_elem_of_filter Hi. rewrite Hi in Hs. cbn in Hs. apply (T8 Hl p i Hp Hi). congruence.
  - done.
Qed.

(** ** Instructions that wait for the reorder buffer to drain *)

(** What a thread saw at the start of a cycle: the reorder buffer is empty, and
    everything it sent has arrived. *)
Definition quietAt (inp : RenameInputs) (tid : ThreadID) (w : Ren) : bool :=
  emptyROB (rn_readFreeEntries inp tid (rw w)) tid && (instsInProgress (rw w) tid =? 0).

(** Instructions that are serialize-before by nature. *)
Definition serializing (i : DynInst) : bool := isIprAccess i || static i DynInst.IsSerializeBefore.

(** Has an instruction waited long enough: was it marked as handled, or was a mark it had
    ([T]: it was marked since it arrived) taken away again? *)
Definition released (T : DynInstPtr → bool) (s : store) (p : DynInstPtr) : Prop :=
  isSerializeHandled <$> s !! p = Some true ∨ T p = true ∧ tempMark s p = false.

(** Must the instruction after this one be serialized?  One that serializes before by
    nature is marked as handled for that, and then asks for nothing more. *)
Definition demandsAt (s : store) (p : DynInstPtr) : bool :=
  match s !! p with Some i => demands i && negb (serializing i) | None => false end.

(** [g]: since the reorder buffer was seen empty, the thread has sent nothing.
    [d]: the last instruction the thread sent demands that the next one serialize. *)
Record waiting_ok (T : DynInstPtr → bool) (d g : bool) (tid : ThreadID) (w : Ren) : Prop := {
  wo_shape : shape tid (rw w);
  wo_thread : ∀ p, p ∈ holds tid (rw w) → threadNumber <$> rw_insts w !! p = Some tid;
  wo_nodup : NoDup (holds tid (rw w));
  wo_released : ∀ p, p ∈ waits tid (rw w) → released T (rw_insts w) p →
    head (waits tid (rw w)) = Some p ∧ g = true ∧
    renameStatus (rw w) tid ≠ RnSerializeStall ∧ renameStatus (rw w) tid ≠ RnSquashing;
  wo_nature : ∀ p i, p ∈ holds tid (rw w) → rw_insts w !! p = Some i → isSerializeHandled i = true →
    serializing i = true;
  wo_owed : d = true → g = true ∨ askedFor tid w;
}.

Lemma ident_serializing i j : ident i = ident j → serializing i = serializing j.
Proof. unfold ident, serializing, isIprAccess, static. by intros [= _ _ ->]. Qed.
Lemma ident_demands i j : ident i = ident j → demands i = demands j.
Proof. unfold ident, demands, isStoreConditional, static. by intros [= _ _ ->]. Qed.
Lemma demandsAt_ident s s' p : same ident s s' → demandsAt s' p = demandsAt s p.
Proof.
  intros H. specialize (H p). unfold demandsAt. destruct (s !! p), (s' !! p); try done. apply (inj Some) in H.
  by rewrite (ident_demands _ _ H), (ident_serializing _ _ H).
Qed.

(** The nature of what was handled, from one store to another. *)
Lemma nature_step (s s' : store) p j :
  ident <$> s' !! p = ident <$> s !! p → isSerializeHandled <$> s' !! p = isSerializeHandled <$> s !! p →
  (∀ i, s !! p = Some i → isSerializeHandled i = true → serializing i = true) →
  s' !! p = Some j → isSerializeHandled j = true → serializing j = true.
Proof.
  intros Hid Hh Hn Hj Ht. rewrite Hj in Hid, Hh. destruct (s !! p) as [i|]; [|done].
  apply (inj Some) in Hid, Hh. rewrite (ident_serializing _ _ Hid). apply (Hn i); congruence.
Qed.

Lemma same_ident_thread s s' p t : same ident s s' → threadNumber <$> s !! p = Some t → threadNumber <$> s' !! p = Some t.
Proof. intros H Ht. specialize (H p). destruct (s !! p), (s' !! p); try done. injection H as _ Hx _. cbn in *. congruence. Qed.

(** A step that keeps what waits, or drops all of it. *)
Lemma waiting_ok_step T d g d' g' tid w w' :
  waiting_ok T d g tid w → frames tid w w' →
  (∀ p, p ∈ waits tid (rw w) → released T (rw_insts w') p → released T (rw_insts w) p) →
  same isSerializeHandled (rw_insts w) (rw_insts w') →
  NoDup (holds tid (rw w')) → shape tid (rw w') → (g = true → g' = true) →
  (d' = true → d = true ∧ (askedFor tid w → askedFor tid w')) →
  (waits tid (rw w') = [] ∨
   waits tid (rw w') = waits tid (rw w) ∧
     (renameStatus (rw w') tid = RnSerializeStall ∨ renameStatus (rw w') tid = RnSquashing →
      renameStatus (rw w) tid = RnSerializeStall ∨ renameStatus (rw w) tid = RnSquashing)) →
  waiting_ok T d' g' tid w'.
Proof.
  intros [W1 W2 W3 W4 W5 W6] [F1 F2 F3 F4 F5] Hh Hhd Hnd Hsh Hg Hd Hw. split; try done.
  - intros p Hp. eapply same_ident_thread; [done|]. auto.
  - intros p Hp Ht. destruct Hw as [Hw|[Hw Hs]]; [rewrite Hw in Hp; by apply elem_of_nil in Hp|].
    rewrite Hw in Hp |- *. apply (Hh p Hp) in Ht. destruct (W4 p Hp Ht) as (? & ? & ? & ?). split_and!; auto; intros Hx; destruct Hs; auto.
  - intros p j Hp. apply (nature_step (rw_insts w)); [apply F3|apply Hhd|]. intros i. by apply W5, F5.
  - intros [Hd1 Hd2]%Hd. destruct (W6 Hd1); auto.
Qed.

(** An instruction asked for stays so while the queue and the stall do. *)
Lemma askedFor_same tid w w' :
  serializeOnNextInst (rw w') tid = serializeOnNextInst (rw w) tid →
  head (waits tid (rw w')) = head (waits tid (rw w)) → serializeInst (rw w') tid = serializeInst (rw w) tid →
  (renameStatus (rw w) tid = RnSerializeStall → renameStatus (rw w') tid = RnSerializeStall) →
  (∀ q, q ∈ holds tid (rw w) → tempMark (rw_insts w') q = tempMark (rw_insts w) q) →
  askedFor tid w → askedFor tid w'.
Proof.
  intros Hf Hh Hs Hst Ht [Ha|(q & Hq & Hc)]; [left; by rewrite Hf|right]. exists q. rewrite Hh, Hs, Ht.
  - split; [done|]. destruct Hc as [?|[? ?]]; auto.
  - unfold holds. apply elem_of_app. destruct Hc as [Hc|[Hc _]]; [right|left; rewrite Hc; by left].
    destruct (waits tid (rw w)); [done|]. injection Hc as ->. by left.
Qed.

Lemma holds_eq tid x y : serializeInst x tid = serializeInst y tid → waits tid x = waits tid y → holds tid x = holds tid y.
Proof. unfold holds. by intros -> ->. Qed.

Lemma queuesOf_waits tid x y : queuesOf x tid = queuesOf y tid → waits tid x = waits tid y.
Proof. unfold queuesOf, waits. by intros [= -> ->]. Qed.

Lemma resumeStall_spec tid w v :
  resumeUnblocking (rw w) = false → resumeStall tid w = Ok v →
  frames tid w v ∧ rw_insts v = rw_insts w ∧ waits tid (rw v) = waits tid (rw w) ∧
  serializeInst (rw v) tid = serializeInst (rw w) tid ∧ renameStatus (rw v) tid = renameStatus (rw w) tid ∧
  renamed (rw v) = renamed (rw w) ∧ resumeUnblocking (rw v) = false ∧ (shape tid (rw w) → shape tid (rw v)) ∧
  serializeOnNextInst (rw v) tid = serializeOnNextInst (rw w) tid ∧ quietNow tid (rw v) = quietNow tid (rw w).
Proof.
  unfold resumeStall, rn_statusIs. intros Hu H. rewrite Hu, andb_false_r in H.
  destruct (bool_decide_reflect (renameStatus (rw w) tid = RnSerializeStall)) as [Hs|Hs]; cbn [andb] in H.
  2: { by injection H as <-. }
  destruct (resumeSerialize (rw w)); [|by injection H as <-]. inv_ok1 H. destruct a as [b u]. injection H as <-.
  apply rn_block_spec in E as (B1 & B2 & B3 & B4 & B5). cbn [rw rw_on rw_set] in B2, B3, B4, B5.
  pose proof (f_equal rw_insts B1) as Hi. cbn in Hi.
  assert (renameStatus (rw u) tid = RnSerializeStall) as Hst.
  { change (signalsOf (set_resumeSerialize false (rw w)) tid) with (signalsOf (rw w) tid) in B5.
    unfold signalsOf, blockSignals in B5. rewrite Hs in B5. cbn in B5. rewrite orb_true_r in B5. by injection B5. }
  split; [|split_and!].
  - destruct B3 as [F1 F2 F3 F4 F5]. split; cbn [rw rw_on rw_set rw_insts]; try done.
    intros t Ht. transitivity (ofThread (rw u) t); [|exact (F1 t Ht)]. unfold ofThread, signalsOf. cbn. by rewrite fn_lookup_insert_ne.
  - exact Hi.
  - unfold queuesOf in B4. injection B4 as Q1 Q2. unfold waits at 1. cbn. rewrite Q1, Q2. by rewrite app_nil_r.
  - exact (f_equal (λ y, serializeInst y tid) B2).
  - cbn. by rewrite Hst.
  - exact (f_equal renamed B2).
  - exact (eq_trans (f_equal resumeUnblocking B2) Hu).
  - intros _ Hh. cbn in Hh. by rewrite Hst in Hh.
  - exact (f_equal (λ y, serializeOnNextInst y tid) B2).
  - exact (f_equal (quietNow tid) B2).
Qed.

Lemma block_status g : holding (fst (fst (blockSignals false g))) = true ∧
  (fst (fst (blockSignals false g)) = RnSerializeStall → fst (fst g) = RnSerializeStall) ∧
  fst (fst (blockSignals false g)) ≠ RnSquashing.
Proof. destruct g as [[s b] u]. unfold blockSignals. destruct s; cbn; naive_solver. Qed.

Lemma signalsOf_status x tid g : signalsOf x tid = g → renameStatus x tid = fst (fst g).
Proof. by intros <-. Qed.

Lemma waits_not_serial T d g tid w p : waiting_ok T d g tid w → p ∈ waits tid (rw w) → serializeInst (rw w) tid ≠ Some p.
Proof.
  intros Hok Hp Hx. pose proof (wo_nodup _ _ _ _ _ Hok) as Hnd. unfold holds in Hnd. rewrite Hx in Hnd.
  apply NoDup_app in Hnd as (_ & Hd & _). apply (Hd p); [by left|done].
Qed.

Lemma reaction_ok inp tid T e d g w w' :
  resumeUnblocking (rw w) = false → waiting_ok T d g tid w → reaction inp tid w w' →
  (e = true → ci_squash (rn_fromCommit inp tid) = false) →
  waiting_ok T (e && d) (g || quietAt inp tid w) tid w'.
Proof.
  intros Hru Hok [Hf Hren Hu Hp He Hhd [Hfl Hte] Hre] Hnsq. pose proof Hok as [W1 W2 W3 W4 W5 W6].
  assert (∀ p, p ∈ waits tid (rw w) → released T (rw_insts w') p → released T (rw_insts w) p) as Hha.
  { intros p Hpw Hr. unfold released in *. rewrite Hhd, Hte in Hr; [done|]. left. by eapply waits_not_serial. }
  assert (∀ x, renameStatus (rw w') tid = x → holding x = true → shape tid (rw w')) as Hsh by (intros x <- Hh Hx; congruence).
  assert (serializeInst (rw w') tid = serializeInst (rw w) tid → waits tid (rw w') = waits tid (rw w) → NoDup (holds tid (rw w'))) as Hnd.
  { intros H1 H2. by rewrite (holds_eq _ _ _ H1 H2). }
  assert (g = true → g || quietAt inp tid w = true) as Hg by by intros ->.
  assert (serializeInst (rw w') tid = serializeInst (rw w) tid → waits tid (rw w') = waits tid (rw w) →
    (renameStatus (rw w) tid = RnSerializeStall → renameStatus (rw w') tid = RnSerializeStall) →
    e && d = true → d = true ∧ (askedFor tid w → askedFor tid w')) as Hd.
  { intros H1 H2 H3 [_ ->]%andb_true_iff. split; [done|]. apply askedFor_same; [done|by rewrite H2|done|done|].
    intros q _. apply Hte. destruct (decide (serializeInst (rw w) tid = Some q)); [right; congruence|by left]. }
  destruct Hre as [s b u Hsq Hs Hq Hcase|Hq Hs Hrs Hsi|b u Hs Hq Hcase Hrs Hsi|b u Hs Hq Hs' Hrs Hsi|p b u Hs Hem Hpr Hp1 Hp2 Hcase Hrs|s b u Hs N1 N2 N3 Hq Hs' Hrs Hsi].
  - assert (waits tid (rw w') = []) as Hw by (unfold queuesOf in Hq; injection Hq as Q1 Q2; unfold waits; by rewrite Q1, Q2).
    eapply waiting_ok_step; [exact Hok|exact Hf|exact Hha|exact Hhd| | |exact Hg| |left; exact Hw].
    + pose proof (fr_holds _ _ _ Hf) as Hsub. unfold holds. rewrite Hw, app_nil_r. destruct (serializeInst (rw w') tid); cbn; [apply NoDup_singleton|constructor].
    + intros _. unfold queuesOf in Hq. congruence.
    + intros [Hx%Hnsq _]%andb_true_iff. congruence.
  - rewrite Hru in Hs. apply signalsOf_status in Hs. destruct (block_status (signalsOf (rw w) tid)) as (B1 & B2 & B3).
    assert (waits tid (rw w') = waits tid (rw w)) as Hw.
    { unfold queuesOf in Hq. injection Hq as Q1 Q2. unfold waits at 1. by rewrite Q1, Q2, app_nil_r. }
    eapply waiting_ok_step; [exact Hok|exact Hf|exact Hha|exact Hhd|by apply Hnd|by eapply Hsh|exact Hg|apply Hd; [done..|]|right; split; [exact Hw|]].
    + intros Hx. rewrite Hs. unfold signalsOf. by rewrite Hx.
    + rewrite Hs. intros [Hx|Hx]; [left; by apply B2|by apply B3 in Hx].
  - pose proof (queuesOf_waits _ _ _ Hq) as Hw. unfold queuesOf in Hq. injection Hq as Hk _.
    apply signalsOf_status in Hs. cbn in Hs.
    destruct Hcase as [[Hne Hg'%signalsOf_status]|[Hnil Hg'%signalsOf_status]]; cbn [fst] in Hg';
      (eapply waiting_ok_step; [exact Hok|exact Hf|exact Hha|exact Hhd|by apply Hnd| |exact Hg|apply Hd; [done..|congruence]|right; split; [exact Hw|rewrite Hg'; by intros [|]]]).
    + by eapply Hsh.
    + intros _. congruence.
  - pose proof (queuesOf_waits _ _ _ Hq) as Hw. unfold queuesOf in Hq. injection Hq as Hk _. apply signalsOf_status in Hs. cbn in Hs.
    eapply waiting_ok_step; [exact Hok|exact Hf|exact Hha|exact Hhd|by apply Hnd| |exact Hg|apply Hd; [done..|congruence]|right; split; [exact Hw|]].
    + intros _. rewrite Hk. apply W1. by rewrite Hs.
    + intros _. by right.
  - apply signalsOf_status in Hs. cbn in Hs.
    assert (waits tid (rw w') = p :: waits tid (rw w) ∧ shape tid (rw w') ∧ renameStatus (rw w') tid ≠ RnSerializeStall ∧
      renameStatus (rw w') tid ≠ RnSquashing) as (Hw & Hsh' & Hn1 & Hn2).
    { destruct Hcase as [(Hne & Hq & Hg'%signalsOf_status)|(Hnil & Hq & Hg'%signalsOf_status)]; unfold queuesOf in Hq; injection Hq as Q1 Q2;
        unfold waits; rewrite Q1, Q2, ?Hnil, Hg'; (split; [done|]); (split; [|done]); [by eapply Hsh|by intros _]. }
    assert (holds tid (rw w') = holds tid (rw w)) as Hho by (unfold holds; by rewrite Hp1, Hp2, Hw).
    assert (g || quietAt inp tid w = true) as Hquiet.
    { apply orb_true_iff. right. unfold quietAt. by rewrite <-He, Hem, <-Hp, Hpr. }
    split; [done| |by rewrite Hho|..].
    + intros q Hq. rewrite Hho in Hq. eapply same_ident_thread; [apply (fr_ident _ _ _ Hf)|auto].
    + intros q Hq Ht. rewrite Hw in Hq |- *. apply elem_of_cons in Hq as [->|Hq]; [done|].
      apply (Hha q Hq) in Ht. destruct (W4 q Hq Ht) as (_ & _ & Hx & _). congruence.
    + intros q j Hq. rewrite Hho in Hq. apply (nature_step (rw_insts w)); [apply (fr_ident _ _ _ Hf)|apply Hhd|]. intros i. by apply W5.
    + intros _. by left.
  - pose proof (queuesOf_waits _ _ _ Hq) as Hw. unfold queuesOf in Hq. injection Hq as Hk _.
    apply signalsOf_status in Hs, Hs'. cbn in Hs, Hs'.
    eapply waiting_ok_step; [exact Hok|exact Hf|exact Hha|exact Hhd|by apply Hnd| |exact Hg|apply Hd; [done..|congruence]|right; split; [exact Hw|]].
    + intros Hx. rewrite Hk. apply W1. congruence.
    + rewrite Hs'. by intros [|].
Qed.

Lemma live_cons s p l : live s (p :: l) = live s [p] ++ live s l.
Proof. exact (live_app s [p] l). Qed.

(** Must the instruction sent after [l] be serialized, for the sake of the one before it?
    [d]: so it is if [l] is empty. *)
Definition owes (s : store) (d : bool) (l : list DynInstPtr) : bool :=
  match last l with Some q => demandsAt s q | None => d end.

(** What a turn may send while a thread's instructions wait as they should.
    [e]: nothing of the thread has been squashed. *)
Definition sent_ok (T : DynInstPtr → bool) (e d g : bool) (s : store) (sent : list DynInstPtr) : Prop :=
  ∀ p i, p ∈ sent → s !! p = Some i →
    serializing i || T p || isTempSerializeBefore i = true ∨
    e = true ∧ (∃ l1 l2, sent = l1 ++ p :: l2 ∧ owes s d l1 = true) →
    g = true ∧ head sent = Some p.

Lemma mustSerialize_handled i : serializing i = true → mustSerializeBefore i = false → isSerializeHandled i = true.
Proof.
  unfold serializing, mustSerializeBefore, isSerializeBefore. intros Hs Hm.
  destruct (isSerializeHandled i); [done|]. rewrite andb_true_r in Hm. apply orb_false_iff in Hm as [H1 [H2 _]%orb_false_iff].
  by rewrite H1, H2 in Hs.
Qed.

(** What a turn sends had been released, if it was ever to be serialized. *)
Lemma sent_released inp tid T d g l w w' p i j :
  waiting_ok T d g tid w → turn inp tid l w w' → p ∈ l → rw_insts w !! p = Some i → isSquashed i = false →
  rw_insts w' !! p = Some j → serializing j || T p || isTempSerializeBefore j = true → released T (rw_insts w) p.
Proof.
  intros Hok Ht Hp Hi Hs Hj Hser. pose proof (wo_nodup _ _ _ _ _ Hok) as Hnd. unfold holds in Hnd.
  apply NoDup_app in Hnd as (_ & _ & Hnd).
  assert (NoDup l) as Hl by (destruct (tn_ended _ _ _ _ _ Ht) as [E|u E|q k E]; rewrite E in Hnd; by apply NoDup_app in Hnd as (? & _)).
  pose proof (tn_free _ _ _ _ _ Ht Hl p i Hp Hi Hs) as Hm.
  unfold released. rewrite Hi, (tempMark_Some _ _ _ Hi).
  destruct (isSerializeHandled i) eqn:Hh; [left; cbn; congruence|right]. pose proof (fr_ident _ _ _ (tn_frames _ _ _ _ _ Ht) p) as Hid.
  rewrite Hi, Hj in Hid. apply (inj Some), ident_serializing in Hid.
  apply orb_true_iff in Hser as [[Hser|HT]%orb_true_iff|Htj].
  - rewrite Hid in Hser. apply mustSerialize_handled in Hser; [congruence|done].
  - split; [done|]. destruct (isTempSerializeBefore i) eqn:Hti; [|done]. apply mustSerialize_temp in Hm; [congruence|done].
  - rewrite (tn_marked _ _ _ _ _ Ht Hnd p i Hp Hi Hs) in Hh; [done|]. by rewrite (tempMark_Some _ _ _ Hj).
Qed.

Lemma sent_marked inp tid T d g l w w' p j :
  waiting_ok T d g tid w → turn inp tid l w w' → p ∈ live (rw_insts w) l → rw_insts w' !! p = Some j →
  serializing j || T p || isTempSerializeBefore j = true → g = true ∧ head (live (rw_insts w) l) = Some p.
Proof.
  intros Hok Ht Hp Hj Hser. apply list_elem_of_filter in Hp as [Hlv Hp].
  assert (∃ k, waits tid (rw w) = l ++ k) as [k Hk] by (destruct (tn_ended _ _ _ _ _ Ht); eauto).
  destruct (rw_insts w !! p) as [i|] eqn:Hi; [|done]. cbn in Hlv. assert (isSquashed i = false) as Hs by congruence.
  assert (released T (rw_insts w) p) as Hh by by eapply sent_released.
  destruct (wo_released _ _ _ _ _ Hok p) as (Hhd & Hg & _); [rewrite Hk; apply elem_of_app; by left|done|]. split; [done|].
  rewrite Hk in Hhd. destruct l as [|a l]; [by apply elem_of_nil in Hp|]. cbn in Hhd. injection Hhd as ->.
  by rewrite live_cons, (live_one _ _ _ Hi), Hs.
Qed.

Lemma orderly_waits T d g tid w :
  waiting_ok T d g tid w → (∀ p, p ∈ waits tid (rw w) → squashedAt (rw_insts w) p = false) →
  orderly (rw_insts w) (waits tid (rw w)).
Proof.
  intros Hok Hsq. pose proof (wo_nodup _ _ _ _ _ Hok) as Hnd. unfold holds in Hnd. apply NoDup_app in Hnd as (_ & _ & Hnd).
  split; [done|..]; intros p i Hp Hi.
  - specialize (Hsq p Hp). unfold squashedAt in Hsq. by rewrite Hi in Hsq.
  - apply not_true_is_false. intros Hh. assert (p ∈ waits tid (rw w)) as Hin by (destruct (waits tid (rw w)); [done|by right]).
    destruct (wo_released _ _ _ _ _ Hok p Hin) as [Hhd _]; [left; by rewrite Hi, <-Hh|].
    destruct (waits tid (rw w)); [done|]. injection Hhd as ->. by apply NoDup_cons in Hnd as [Hnd _].
Qed.

Lemma live_all s l : (∀ p, p ∈ l → is_Some (s !! p) ∧ squashedAt s p = false) → live s l = l.
Proof.
  intros H. apply filter_all, Forall_forall. intros p Hp. destruct (H p Hp) as [[i Hi] Hs]. unfold squashedAt in Hs.
  rewrite Hi in *. cbn. by rewrite Hs.
Qed.

(** An instruction asked for is marked, if the turn sends it, and asked for still, if not. *)
Lemma turn_asked inp tid l w w' :
  turn inp tid l w w' → askedFor tid w → renameStatus (rw w) tid ≠ RnSerializeStall →
  quietNow tid (rw w) = true ∨
  match l with [] => askedFor tid w' | a :: _ => tempMark (rw_insts w') a = true end.
Proof.
  intros Ht [Hf|(q & Hq & [Hh|[_ ?]])] Hss; [| |done].
  - destruct (tn_next _ _ _ _ _ Ht Hf) as [?|H]; [by left|right]. destruct l; [by left|done].
  - right. apply (tn_grow _ _ _ _ _ Ht) in Hq. destruct l as [|a l].
    + right. exists q. split; [done|].
      destruct (tn_ended _ _ _ _ _ Ht) as [E|u E|p i E1 E2 E3 E4 E5 E6 E7 E8]; [left; by rewrite <-Hh, E..|right].
      rewrite E1 in Hh. injection Hh as ->. split; [done|]. apply signalsOf_status in E7. by rewrite stalled_status in E7.
    + assert (a = q) as ->; [|done]. destruct (tn_ended _ _ _ _ _ Ht) as [E|u E|p i E]; rewrite E in Hh; by injection Hh.
Qed.

(** One that demands that the next be serialized is the last a turn sends. *)
Lemma turn_demand inp tid T d g l w w' l1 a l2 :
  waiting_ok T d g tid w → turn inp tid l w w' → orderly (rw_insts w) (waits tid (rw w)) →
  l = l1 ++ a :: l2 → demandsAt (rw_insts w') a = true → l2 = [] ∧ askedFor tid w'.
Proof.
  intros Hok Ht Hod Hl Hd. rewrite (demandsAt_ident (rw_insts w)) in Hd by apply (fr_ident _ _ _ (tn_frames _ _ _ _ _ Ht)).
  unfold demandsAt in Hd. destruct (rw_insts w !! a) as [i|] eqn:Hi; [|done]. apply andb_true_iff in Hd as [Hd Hs%negb_true_iff].
  apply (tn_after _ _ _ _ _ Ht Hod l1 a l2 i Hl Hi Hd). apply not_true_is_false. intros Hh.
  rewrite (wo_nature _ _ _ _ _ Hok a i) in Hs; [done| |done..]. unfold holds. apply elem_of_app. right.
  assert (a ∈ l) as Ha by (rewrite Hl; apply elem_of_app; right; by left).
  destruct (tn_ended _ _ _ _ _ Ht) as [E|u E|p j E]; rewrite E; apply elem_of_app; by left.
Qed.

Lemma turn_sent inp tid T e d g l w w' :
  waiting_ok T (e && d) g tid w → turn inp tid l w w' → renameStatus (rw w) tid ≠ RnSerializeStall →
  (e = true → orderly (rw_insts w) (waits tid (rw w)) ∧ live (rw_insts w) l = l) → (quietNow tid (rw w) = true → g = true) →
  sent_ok T e d g (rw_insts w') (live (rw_insts w) l).
Proof.
  intros Hok Ht Hss He Hq p j Hp Hj [Hser|[-> (l1 & l2 & Hl & Ho)]]; [by eapply sent_marked|].
  destruct (He eq_refl) as [Hod Hlv]. rewrite Hlv in *. destruct l1 as [|a l1 _] using rev_ind.
  - cbn in Ho, Hl. rewrite Hl. split; [|done]. destruct (wo_owed _ _ _ _ _ Hok Ho) as [?|Ha]; [done|].
    destruct (turn_asked _ _ _ _ _ Ht Ha Hss) as [?|Hx]; [auto|]. rewrite Hl in Hx.
    apply (sent_marked inp tid T (true && d) g l w w' p j Hok Ht); [by rewrite Hlv|done|].
    by rewrite <-(tempMark_Some _ _ _ Hj), Hx, orb_true_r.
  - unfold owes in Ho. rewrite last_snoc in Ho. rewrite <-(assoc_L (++)) in Hl.
    by destruct (turn_demand inp tid T (true && d) g l w w' l1 a (p :: l2) Hok Ht Hod Hl Ho) as [? _].
Qed.

Lemma turn_owed inp tid T e d g l w w' :
  waiting_ok T (e && d) g tid w → turn inp tid l w w' → renameStatus (rw w) tid ≠ RnSerializeStall →
  (e = true → orderly (rw_insts w) (waits tid (rw w)) ∧ live (rw_insts w) l = l) → (quietNow tid (rw w) = true → g = true) →
  e && owes (rw_insts w') d (live (rw_insts w) l) = true →
  (if bool_decide (live (rw_insts w) l = []) then g else false) = true ∨ askedFor tid w'.
Proof.
  intros Hok Ht Hss He Hq [-> Ho]%andb_true_iff. destruct (He eq_refl) as [Hod Hlv]. rewrite Hlv in *.
  destruct l as [|a l _] using rev_ind.
  - cbn. destruct (wo_owed _ _ _ _ _ Hok Ho) as [?|Ha]; [by left|].
    destruct (turn_asked _ _ _ _ _ Ht Ha Hss) as [?|Hx]; [left; auto|by right].
  - right. unfold owes in Ho. rewrite last_snoc in Ho.
    by destruct (turn_demand inp tid T (true && d) g (l ++ [a]) w w' l a [] Hok Ht Hod eq_refl Ho).
Qed.

(** What a turn marks as handled serializes by nature. *)
Lemma turn_nature inp tid T d g l w w' p j :
  waiting_ok T d g tid w → turn inp tid l w w' → p ∈ holds tid (rw w') → rw_insts w' !! p = Some j →
  isSerializeHandled j = true → serializing j = true.
Proof.
  intros Hok Ht Hp Hj Hh. pose proof (wo_nodup _ _ _ _ _ Hok) as Hnd. unfold holds in Hnd.
  apply NoDup_app in Hnd as (_ & Hdis & Hnd).
  assert (isSerializeHandled <$> rw_insts w' !! p = isSerializeHandled <$> rw_insts w !! p ∨ serializing j = true) as [Hs|?]; [|clear Hnd Hdis|done].
  - assert (∀ q, q ∉ waits tid (rw w) → isSerializeHandled <$> rw_insts w' !! q = isSerializeHandled <$> rw_insts w !! q) as Hold
      by (intros q Hq; by apply same_marks_handled, (tn_old _ _ _ _ _ Ht)).
    assert (serializeInst (rw w') tid = serializeInst (rw w) tid → waits tid (rw w) = l ++ waits tid (rw w') →
      isSerializeHandled <$> rw_insts w' !! p = isSerializeHandled <$> rw_insts w !! p) as Hstay.
    { intros E2 E1. unfold holds in Hp. rewrite E2 in Hp. apply elem_of_app in Hp as [Hp|Hp]; [apply Hold; by apply Hdis|].
      apply (tn_handled _ _ _ _ _ Ht).
      - rewrite E1 in Hnd. apply NoDup_app in Hnd as (_ & Hnd & _). intros Hx. by apply (Hnd p).
      - rewrite E2. intros Hx. apply (Hdis p); [rewrite <-Hx; by left|]. rewrite E1. apply elem_of_app. by right. }
    destruct (tn_ended _ _ _ _ _ Ht) as [E1 E2 _ _|u E1 E2 gs _ _|q i E1 E2 E3 E4 E5 E6 E7 E8 E9]; [left; by apply Hstay..|].
    unfold holds in Hp. rewrite E2 in Hp. apply elem_of_cons in Hp as [->|Hp]; [right|left].
    + assert (j = i) as -> by congruence. auto.
    + rewrite E1 in Hnd. apply NoDup_app in Hnd as (_ & N1 & N2). apply NoDup_cons in N2 as [N2 _].
      apply (tn_handled _ _ _ _ _ Ht); [intros Hx; apply (N1 p Hx); by right|]. rewrite E2. by intros [= ->].
  - eapply nature_step; [apply (fr_ident _ _ _ (tn_frames _ _ _ _ _ Ht))|exact Hs| |done|].
    + intros i. apply (wo_nature _ _ _ _ _ Hok). by apply (fr_holds _ _ _ (tn_frames _ _ _ _ _ Ht)).
    + done.
Qed.

Lemma turn_ok inp tid T e d g l w w' :
  waiting_ok T (e && d) g tid w →
  renameStatus (rw w) tid ≠ RnBlocked → renameStatus (rw w) tid ≠ RnSerializeStall → renameStatus (rw w) tid ≠ RnSquashing →
  resumeUnblocking (rw w) = false → (quietNow tid (rw w) = true → g = true) →
  (e = true → ∀ p, p ∈ waits tid (rw w) → squashedAt (rw_insts w) p = false) → turn inp tid l w w' →
  sent_ok T e d g (rw_insts w') (live (rw_insts w) l) ∧
  waiting_ok T (e && owes (rw_insts w') d (live (rw_insts w) l)) (if bool_decide (live (rw_insts w) l = []) then g else false) tid w'.
Proof.
  intros Hok Hb Hss Hsq Hru Hqu He Ht. pose proof Hok as [W1 W2 W3 W4 W5 W6].
  pose proof Ht as [T1 T2 T3 T4 T5 _ T6 T7 T8 T9 T10 T11 T12 T13 T15 T16 _ _ T14].
  assert (∃ k, waits tid (rw w) = l ++ k) as [k Hk] by (destruct T14; eauto).
  pose proof W3 as Hnd. unfold holds in Hnd. apply NoDup_app in Hnd as (_ & Hdis & Hnd).
  assert (NoDup l) as Hl by (rewrite Hk in Hnd; by apply NoDup_app in Hnd as (? & _)).
  assert (e = true → orderly (rw_insts w) (waits tid (rw w)) ∧ live (rw_insts w) l = l) as He'.
  { intros Hx. split; [by eapply orderly_waits; [|auto]|]. apply live_all. intros p Hp.
    assert (p ∈ waits tid (rw w)) as Hin by (rewrite Hk; apply elem_of_app; by left). split; [|by apply He].
    specialize (W2 p). destruct (rw_insts w !! p); [done|]. exfalso. discriminate W2. unfold holds. apply elem_of_app. by right. }
  split; [by apply (turn_sent inp tid T e d g l w w')|].
  - assert (∀ q, q ∈ waits tid (rw w') → q ∈ k) as Hin.
    { intros q Hq. destruct T14 as [E1|u E1|p i E1]; rewrite Hk in E1; apply app_inv_head in E1; subst k; [done|done|by right]. }
    split.
    + destruct T14 as [E1 E2 E3 E4|u E1 E2 gs E3 E4|p i E1 E2 E3 E4 E5 E6 E7 E8]; intros Hh.
      * apply signalsOf_status in E3. cbn in E3. apply E4. intros Hu. rewrite E3, Hu in Hh. done.
      * assert (holding (renameStatus (rw w') tid) = true) as Hx; [|congruence].
        apply signalsOf_status in E3. rewrite E3. unfold gs. rewrite Hru.
        pose proof (proj1 (block_status (signalsOf (rw w) tid))) as Hbs. destruct u; [|done].
        by destruct (blockSignals false (signalsOf (rw w) tid)) as [[??]?].
      * apply signalsOf_status in E7. rewrite stalled_status in E7. by rewrite E7 in Hh.
    + intros p Hp. eapply same_ident_thread; [apply (fr_ident _ _ _ T1)|]. by apply W2, (fr_holds _ _ _ T1).
    + destruct T14 as [E1 E2 E3 E4|u E1 E2 gs E3 E4|p i E1 E2 E3 E4 E5 E6 E7 E8]; unfold holds in *; rewrite E2, ?E1 in *.
      * apply NoDup_app in W3 as (N1 & N2 & N3). apply NoDup_app in N3 as (_ & _ & N3). apply NoDup_app. split_and!; try done.
        intros x Hx Hx'. apply (N2 x Hx). apply elem_of_app. by right.
      * apply NoDup_app in W3 as (N1 & N2 & N3). apply NoDup_app in N3 as (_ & _ & N3). apply NoDup_app. split_and!; try done.
        intros x Hx Hx'. apply (N2 x Hx). apply elem_of_app. by right.
      * cbn. by apply NoDup_app in Hnd as (_ & _ & Hnd).
    + intros q Hq Hh. pose proof (Hin q Hq) as Hqk.
      assert (q ∉ l) as Hql.
      { intros Hx. rewrite Hk in Hnd. apply NoDup_app in Hnd as (_ & Hnd & _). by apply (Hnd q). }
      assert (Some q ≠ serializeInst (rw w') tid) as Hqs.
      { intros Hx. destruct T14 as [E1 E2 E3 E4|u E1 E2 gs E3 E4|p i E1 E2 E3 E4 E5 E6 E7 E8].
        - rewrite E2 in Hx. apply (Hdis q); [rewrite <-Hx; by left|]. rewrite Hk. apply elem_of_app. by right.
        - rewrite E2 in Hx. apply (Hdis q); [rewrite <-Hx; by left|]. rewrite Hk. apply elem_of_app. by right.
        - rewrite E2 in Hx. injection Hx as ->. rewrite E1 in Hnd. apply NoDup_app in Hnd as (_ & _ & Hnd).
          by apply NoDup_cons in Hnd as [Hnd _]. }
      assert (released T (rw_insts w) q) as Hrel.
      { unfold released in *. rewrite T5 in Hh by done. destruct Hh as [Hh|[HT Hh]]; [by left|right]. split; [done|].
        apply not_true_is_false. intros Hx. apply T15 in Hx. congruence. }
      destruct (W4 q) as (Hhd & Hg & _); [rewrite Hk; apply elem_of_app; by right|done|].
      assert (l = []) as ->.
      { destruct l as [|a l]; [done|]. rewrite Hk in Hhd. cbn in Hhd. injection Hhd as ->. by destruct Hql; left. }
      rewrite bool_decide_eq_true_2 by done.
      destruct T14 as [E1 E2 E3 E4|u E1 E2 gs E3 E4|p i E1 E2 E3 E4 E5 E6 E7 E8]; cbn in E1.
      * rewrite <-E1. apply signalsOf_status in E3. cbn in E3. by rewrite E3.
      * rewrite <-E1. split; [done|]. split; [done|]. apply signalsOf_status in E3.
        assert (renameStatus (rw w') tid = fst (fst gs)) as ->.
        { rewrite E3. destruct u; [|done]. by destruct gs as [[??]?]. }
        unfold gs. rewrite Hru. destruct (block_status (signalsOf (rw w) tid)) as (B1 & B2 & B3). auto.
      * rewrite E1 in Hhd. cbn in Hhd. injection Hhd as ->. congruence.
    + intros p j Hp Hj Hh. by eapply turn_nature.
    + by apply (turn_owed inp tid T e d g l w w').
Qed.

Lemma finish_ok inp c c' tid T d g w w' :
  waiting_ok T d g tid w → holding (renameStatus (rw w) tid) = true → finishUnblocking inp c tid w = Ok (c', w') →
  waiting_ok T d g tid w' ∧ frames tid w w' ∧ renamed (rw w') = renamed (rw w) ∧ rw_insts w' = rw_insts w.
Proof.
  intros Hok Hho H. apply finishUnblocking_spec in H as (F1 & F2 & F3 & F4 & F5).
  assert (rw_insts w' = rw_insts w) as Hi by exact (f_equal rw_insts F1).
  split; [|split; [done|split; [exact (f_equal renamed F2)|done]]].
  assert (serializeInst (rw w') tid = serializeInst (rw w) tid) as Hsi by exact (f_equal (λ y, serializeInst y tid) F2).
  eapply waiting_ok_step; [exact Hok|exact F3|by rewrite Hi|by rewrite Hi| | |done| |right; split; [exact F4|]].
  - rewrite (holds_eq _ _ _ Hsi F4). apply (wo_nodup _ _ _ _ _ Hok).
  - destruct F5 as [[Hg Hk]|(Hk & _)]; [|by intros _]. intros Hh. apply signalsOf_status in Hg. cbn in Hg. rewrite Hg in Hh.
    congruence.
  - intros Hd. split; [done|]. apply askedFor_same; [exact (f_equal (λ y, serializeOnNextInst y tid) F2)|by rewrite F4|done| |by rewrite Hi].
    destruct F5 as [[Hg%signalsOf_status _]|(_ & Hne & _)]; [by rewrite Hg|done].
  - destruct F5 as [[Hg Hk]|(Hk & _ & Hg)]; apply signalsOf_status in Hg; cbn in Hg; rewrite Hg; [by auto|by intros [|]].
Qed.

Lemma owes_ident s s' d l : same ident s s' → owes s' d l = owes s d l.
Proof. intros H. unfold owes. destruct (last l) as [q|]; [|done]. by apply demandsAt_ident. Qed.

Lemma sent_ok_marks T e d g s s' l :
  same ident s s' → (∀ p, p ∈ l → marks <$> s' !! p = marks <$> s !! p) → sent_ok T e d g s l → sent_ok T e d g s' l.
Proof.
  intros H Hm Hs p i Hp Hi Hser. pose proof (H p) as Hid. specialize (Hm p Hp). rewrite Hi in Hid, Hm.
  destruct (s !! p) as [j|] eqn:Hj; [|done]. apply (inj Some), ident_serializing in Hid. apply (inj Some) in Hm.
  apply (Hs p j Hp Hj). unfold marks in Hm. injection Hm as <- _. rewrite <-Hid.
  destruct Hser as [?|[He (l1 & l2 & Hl & Ho)]]; [by left|right]. split; [done|]. exists l1, l2. split; [done|].
  by rewrite <-(owes_ident s s').
Qed.

Lemma sent_thread T d g tid inp l w w' : waiting_ok T d g tid w → turn inp tid l w w' →
  ∀ p, p ∈ live (rw_insts w) l → threadNumber <$> rw_insts w !! p = Some tid.
Proof.
  intros Hok Ht p [_ Hp]%list_elem_of_filter. apply (wo_thread _ _ _ _ _ Hok). apply elem_of_app. right.
  destruct (tn_ended _ _ _ _ _ Ht) as [E|u E|q i E]; rewrite E; apply elem_of_app; by left.
Qed.

(** No squash of the thread in this step. *)
Definition unsquashed (inp : RenameInputs) (tid : ThreadID) (w : Ren) (s : store) : Prop :=
  ci_squash (rn_fromCommit inp tid) = false ∧ ∀ p, p ∈ holds tid (rw w) → squashedAt s p = false.

Lemma thread_ok inp tid T e d g w c c' w' :
  resumeUnblocking (rw w) = false → waiting_ok T d g tid w → (e = true → unsquashed inp tid w (rw_insts w')) →
  renameThread rf cfg flattenRegId inp (c, w) tid = Ok (c', w') →
  ∃ sent, renamed (rw w') = renamed (rw w) ++ sent ∧
    (∀ p, p ∈ sent → threadNumber <$> rw_insts w' !! p = Some tid) ∧
    sent_ok T e d (g || quietAt inp tid w) (rw_insts w') sent ∧
    waiting_ok T (e && owes (rw_insts w') d sent) (if bool_decide (sent = []) then g || quietAt inp tid w else false) tid w' ∧
    frames tid w w' ∧ resumeUnblocking (rw w') = false.
Proof.
  intros Hru Hok He H. unfold renameThread in H. inv_ok1 H. destruct a as [c1 w1]. apply checkSignals_spec in E.
  pose proof (reaction_ok inp tid T e d g w w1 Hru Hok E (λ Hx, proj1 (He Hx))) as Hok1.
  destruct E as [Hf1 Hr1 Hu1 Hp1 Hem1 _ _ _]. rewrite Hru in Hu1.
  assert (quietNow tid (rw w1) = quietAt inp tid w) as Hqn by (unfold quietNow, quietAt; by rewrite Hem1, Hp1).
  set (q := g || quietAt inp tid w) in *.
  assert (∃ v, resumeStall tid w1 = Ok v) as [v Hv] by (unfold rn_rename in H; destruct (resumeStall tid w1); [eauto|done]).
  destruct (resumeStall_spec tid w1 v Hu1 Hv) as (V1 & V2 & V3 & V4 & V5 & V6 & V7 & V8 & V9 & V10).
  assert (waiting_ok T (e && d) q tid v) as Hokv.
  { eapply waiting_ok_step; [exact Hok1|exact V1|by rewrite V2|by rewrite V2| |apply V8, Hok1|done| |right; split; [exact V3|by rewrite V5]].
    - rewrite (holds_eq _ _ _ V4 V3). apply Hok1.
    - intros Hd. split; [done|]. apply askedFor_same; [done|by rewrite V3|done|by rewrite V5|by rewrite V2]. }
  apply (rename_spec _ _ _ _ _ _ _ _ _ _ Hv) in H; [|apply Hokv].
  assert (frames tid w v) as Hfv by by etrans.
  assert (quietNow tid (rw v) = true → q = true) as Hqv by (unfold q; rewrite V10, Hqn; intros ->; by rewrite orb_true_r).
  assert (∀ w2, frames tid v w2 → rw_insts w2 = rw_insts w' → e = true → ∀ p, p ∈ waits tid (rw v) → squashedAt (rw_insts v) p = false) as Hev.
  { intros w2 Hf2 Hi2 Hx p Hp. apply not_true_is_false. intros Hsq. apply (fr_squashed _ _ _ Hf2) in Hsq. rewrite Hi2 in Hsq.
    rewrite (proj2 (He Hx) p) in Hsq; [done|]. apply (fr_holds _ _ _ Hfv). unfold holds. apply elem_of_app. by right. }
  destruct H as [_ _ _ ->|l Hst Ht|l u cc cc' Hst Ht Hfin].
  - exists []. rewrite app_nil_r. rewrite bool_decide_eq_true_2 by done. split; [congruence|]. split; [intros p Hp; by apply elem_of_nil in Hp|].
    split; [intros p i Hp; by apply elem_of_nil in Hp|]. done.
  - destruct (turn_ok inp tid T e d q l v w' Hokv) as [Hs Hw]; [by destruct Hst as [->| ->]..|done|done| |done|].
    { by apply (Hev w'); [apply (tn_frames _ _ _ _ _ Ht)|]. }
    pose proof (fr_ident _ _ _ (tn_frames _ _ _ _ _ Ht)) as Hid.
    exists (live (rw_insts v) l). split; [rewrite (tn_renamed _ _ _ _ _ Ht); congruence|]. split.
    { intros p Hp. eapply same_ident_thread; [exact Hid|]. by eapply sent_thread. }
    split; [exact Hs|]. split; [exact Hw|]. split; [by etrans; [|apply (tn_frames _ _ _ _ _ Ht)]|].
    rewrite (proj2 (tn_flags _ _ _ _ _ Ht)). exact V7.
  - assert (rw_insts w' = rw_insts u) as Hiu by exact (f_equal rw_insts (proj1 (finishUnblocking_spec _ _ _ _ _ _ Hfin))).
    destruct (turn_ok inp tid T e d q l v u Hokv) as [Hs Hw]; [by rewrite Hst..|done|done| |done|].
    { by apply (Hev u); [apply (tn_frames _ _ _ _ _ Ht)|]. }
    pose proof (fr_ident _ _ _ (tn_frames _ _ _ _ _ Ht)) as Hid.
    assert (holding (renameStatus (rw u) tid) = true) as Hho.
    { destruct (tn_ended _ _ _ _ _ Ht) as [E1 E2 E3 E4|b E1 E2 gs E3 E4|p i E1 E2 E3 E4 E5 E6 E7 E8].
      - apply signalsOf_status in E3. cbn in E3. by rewrite E3, Hst.
      - apply signalsOf_status in E3. rewrite E3. unfold gs. rewrite V7.
        pose proof (proj1 (block_status (signalsOf (rw v) tid))) as Hbs. destruct b; [|done].
        by destruct (blockSignals false (signalsOf (rw v) tid)) as [[??]?].
      - apply signalsOf_status in E7. rewrite stalled_status in E7. by rewrite E7. }
    pose proof (f_equal resumeUnblocking (proj1 (proj2 (finishUnblocking_spec _ _ _ _ _ _ Hfin))) : resumeUnblocking (rw w') = resumeUnblocking (rw u)) as Hru'.
    destruct (finish_ok _ _ _ _ _ _ _ _ _ Hw Hho Hfin) as (F1 & F2 & F3 & F4).
    exists (live (rw_insts v) l). split; [rewrite F3, (tn_renamed _ _ _ _ _ Ht); congruence|]. split.
    { intros p Hp. rewrite F4. eapply same_ident_thread; [exact Hid|]. by eapply sent_thread. }
    split; [by rewrite F4|]. split; [by rewrite F4|].
    split; [etrans; [exact Hfv|]; etrans; [apply (tn_frames _ _ _ _ _ Ht)|exact F2]|].
    rewrite Hru', (proj2 (tn_flags _ _ _ _ _ Ht)). exact V7.
Qed.

(** ** All threads of a cycle *)

Lemma waiting_ok_mono T T' d d' g g' t w :
  (g = true → g' = true) → (d' = true → d = true) → (∀ p, released T' (rw_insts w) p → released T (rw_insts w) p) →
  waiting_ok T d g t w → waiting_ok T' d' g' t w.
Proof.
  intros Hg Hd HT [W1 W2 W3 W4 W5 W6]. split; try done.
  - intros p Hp Hh. destruct (W4 p Hp (HT p Hh)) as (? & ? & ?). auto.
  - intros Hx. destruct (W6 (Hd Hx)); auto.
Qed.

Lemma other_marks T d g tid w w' p t :
  waiting_ok T d g tid w → frames tid w w' → t ≠ tid → threadNumber <$> rw_insts w !! p = Some t →
  marks <$> rw_insts w' !! p = marks <$> rw_insts w !! p.
Proof.
  intros Hok Hf Hne Hp. apply (fr_marks _ _ _ Hf). intros Hx. apply (wo_thread _ _ _ _ _ Hok) in Hx. congruence.
Qed.

Lemma other_stage tid t w w' : t ≠ tid → frames tid w w' →
  waits t (rw w') = waits t (rw w) ∧ holds t (rw w') = holds t (rw w) ∧ renameStatus (rw w') t = renameStatus (rw w) t ∧
  serializeInst (rw w') t = serializeInst (rw w) t ∧ serializeOnNextInst (rw w') t = serializeOnNextInst (rw w) t.
Proof.
  intros Hne Hf. pose proof (fr_other _ _ _ Hf t Hne) as H. destruct (ofThread_eq _ _ _ H) as (G1 & G2 & G3).
  pose proof (queuesOf_waits _ _ _ G2) as Hw. split; [done|]. split; [by apply holds_eq|].
  split; [exact (signalsOf_status _ _ _ G1)|]. split; [done|]. unfold ofThread in H. by injection H.
Qed.

Lemma waiting_ok_other T d g du gu t tid w w' :
  t ≠ tid → waiting_ok T du gu tid w → frames tid w w' → waiting_ok T d g t w → waiting_ok T d g t w'.
Proof.
  intros Hne Hu Hf [W1 W2 W3 W4 W5 W6]. destruct (ofThread_eq _ _ _ (fr_other _ _ _ Hf t Hne)) as (G1 & G2 & _).
  destruct (other_stage _ _ _ _ Hne Hf) as (Hw & Hh & Hs & Hsi & Hfl).
  assert (∀ p, p ∈ holds t (rw w) → marks <$> rw_insts w' !! p = marks <$> rw_insts w !! p) as Hm
    by (intros p Hp; eapply other_marks; [done..|by apply W2]).
  split.
  - by eapply shape_eq.
  - intros p Hp. rewrite Hh in Hp. eapply same_ident_thread; [apply (fr_ident _ _ _ Hf)|auto].
  - by rewrite Hh.
  - intros p Hp Ht. rewrite Hw in Hp |- *. rewrite Hs. apply W4; [done|].
    assert (p ∈ holds t (rw w)) as Hin%Hm by (unfold holds; apply elem_of_app; by right).
    unfold released in *. by rewrite (same_marks_handled _ _ _ Hin), (tempMark_marks _ _ _ Hin) in Ht.
  - intros p j Hp. rewrite Hh in Hp. apply (nature_step (rw_insts w)); [apply (fr_ident _ _ _ Hf)|by apply same_marks_handled, Hm|].
    intros i. by apply W5.
  - intros Hd. destruct (W6 Hd) as [?|Ha]; [by left|right]. revert Ha. apply askedFor_same; [done|by rewrite Hw|done|by rewrite Hs|].
    intros q Hq. by apply tempMark_marks, Hm.
Qed.

Lemma quietAt_same inp t w w' :
  emptyROB (rw w') t = emptyROB (rw w) t → instsInProgress (rw w') t = instsInProgress (rw w) t → quietAt inp t w' = quietAt inp t w.
Proof.
  intros He Hi. unfold quietAt, rn_readFreeEntries. rewrite Hi. destruct (ci_usedROB _); cbn; rewrite ?fn_lookup_insert; by rewrite ?He.
Qed.

Lemma quietAt_other inp t tid w w' : t ≠ tid → frames tid w w' → quietAt inp t w' = quietAt inp t w.
Proof.
  intros Hne Hf. pose proof (fr_other _ _ _ Hf t Hne) as H. unfold ofThread in H. injection H as _ _ _ _ _ _ _ Hi _ _ _ Hem _.
  by apply quietAt_same.
Qed.

Definition sentBy (s : store) (tid : ThreadID) (l : list DynInstPtr) : list DynInstPtr :=
  filter (λ p, threadNumber <$> s !! p = Some tid) l.

Lemma sentBy_ident s s' tid l : same ident s s' → sentBy s' tid l = sentBy s tid l.
Proof.
  intros H. apply list_filter_iff. intros p. specialize (H p). destruct (s !! p), (s' !! p); try done.
  injection H as _ H _. cbn. by rewrite H.
Qed.

Lemma sentBy_app s t l l' : sentBy s t (l ++ l') = sentBy s t l ++ sentBy s t l'.
Proof. apply filter_app. Qed.

Lemma sentBy_own s tid t l : (∀ p, p ∈ l → threadNumber <$> s !! p = Some tid) → sentBy s t l = if decide (t = tid) then l else [].
Proof.
  intros H. unfold sentBy. destruct (decide (t = tid)) as [->|Hne].
  - apply filter_all. by apply Forall_forall.
  - apply filter_none, Forall_forall. intros p Hp. rewrite (H p Hp). congruence.
Qed.

Definition after (g q : bool) (sent : list DynInstPtr) : bool := if bool_decide (sent = []) then g || q else false.

Lemma threads_ok inp T (E : ThreadID → bool) l : ∀ w c c' w' (D G : ThreadID → bool),
  NoDup l → resumeUnblocking (rw w) = false → (∀ t, waiting_ok T (D t) (G t) t w) →
  (∀ t, t ∈ l → E t = true → unsquashed inp t w (rw_insts w')) →
  foldM (renameThread rf cfg flattenRegId inp) l (c, w) = Ok (c', w') →
  resumeUnblocking (rw w') = false ∧ same ident (rw_insts w) (rw_insts w') ∧ constants (rw w') = constants (rw w) ∧
  (∀ p t, t ∉ l → threadNumber <$> rw_insts w !! p = Some t → marks <$> rw_insts w' !! p = marks <$> rw_insts w !! p) ∧
  (∀ p, squashedAt (rw_insts w) p = true → squashedAt (rw_insts w') p = true) ∧
  ∃ S : ThreadID → list DynInstPtr, (∀ t, t ∉ l → S t = []) ∧
    (∀ t, sentBy (rw_insts w') t (renamed (rw w')) = sentBy (rw_insts w') t (renamed (rw w)) ++ S t) ∧
    (∀ t, sent_ok T (E t) (D t) (G t || quietAt inp t w) (rw_insts w') (S t)) ∧
    (∀ t, waiting_ok T (if bool_decide (t ∈ l) then E t && owes (rw_insts w') (D t) (S t) else D t)
            (if bool_decide (t ∈ l) then after (G t) (quietAt inp t w) (S t) else G t) t w').
Proof.
  induction l as [|u l IH]; intros w c c' w' D G Hnd Hru Hok He H; cbn [foldM] in H.
  { injection H as <- <-. do 5 (split; [done|]). exists (λ _, []). split; [done|].
    split; [intros t; by rewrite app_nil_r|]. split; [intros t p i Hp; by apply elem_of_nil in Hp|].
    intros t. rewrite !bool_decide_eq_false_2 by (intros Ht; by apply elem_of_nil in Ht). apply Hok. }
  apply NoDup_cons in Hnd as [Hnot Hnd]. inv_ok1 H. destruct a as [c1 w1].
  assert (∃ d1 g1, waiting_ok T d1 g1 u w1 ∧ frames u w w1) as (d0 & g0 & Hok0 & R5).
  { destruct (thread_ok inp u T false (D u) (G u) w c c1 w1 Hru (Hok u)) as (? & _ & _ & _ & ? & ? & _); [done|exact E0|eauto]. }
  assert (resumeUnblocking (rw w1) = false) as R6.
  { by destruct (thread_ok inp u T false (D u) (G u) w c c1 w1 Hru (Hok u)) as (? & _ & _ & _ & _ & _ & ?). }
  pose proof (fr_ident _ _ _ R5) as Hid.
  assert (∀ t, t ∈ l → t ≠ u) as Hin by (intros t Ht ->; done).
  assert (∀ t, t ∈ l → E t = true → unsquashed inp t w1 (rw_insts w')) as He1.
  { intros t Ht Hx. destruct (He t (ltac:(by right)) Hx) as [H1 H2]. split; [done|].
    by rewrite (proj1 (proj2 (other_stage _ _ _ _ (Hin t Ht) R5))). }
  assert (∀ t, t ≠ u → ∀ d g, waiting_ok T d g t w → waiting_ok T d g t w1) as Hother
    by (intros t Hne d g; by apply (waiting_ok_other T d g (D u) (G u) t u w)).
  (* what the rest of the loop does to the squashed instructions *)
  destruct (IH w1 c1 c' w' (<[u := d0]> D) (<[u := g0]> G) Hnd R6) as (_ & _ & _ & _ & Isq & _); [|exact He1|exact H|].
  { intros t. destruct (decide (t = u)) as [->|Hne]; [by rewrite !fn_lookup_insert|]. rewrite !fn_lookup_insert_ne by done. auto. }
  assert (E u = true → unsquashed inp u w (rw_insts w1)) as Heu.
  { intros Hx. destruct (He u (ltac:(by left)) Hx) as [H1 H2]. split; [done|]. intros p Hp. apply not_true_is_false. intros Hs.
    apply Isq in Hs. by rewrite (H2 p Hp) in Hs. }
  destruct (thread_ok inp u T (E u) (D u) (G u) w c c1 w1 Hru (Hok u) Heu E0) as (sent & R1 & R2 & R3 & R4 & _ & _).
  set (D1 := <[u := E u && owes (rw_insts w1) (D u) sent]> D). set (G1 := <[u := after (G u) (quietAt inp u w) sent]> G).
  destruct (IH w1 c1 c' w' D1 G1 Hnd R6) as (I1 & I2 & I3 & Im & _ & S & I4 & I5 & I6 & I7); [|exact He1|exact H|].
  { intros t. unfold D1, G1. destruct (decide (t = u)) as [->|Hne]; [by rewrite !fn_lookup_insert|].
    rewrite !fn_lookup_insert_ne by done. auto. }
  split; [exact I1|]. split; [by etrans|]. split; [rewrite I3; apply (fr_const _ _ _ R5)|].
  split.
  { intros p t [Hne Ht]%not_elem_of_cons Hp. etrans; [apply (Im p t Ht); by eapply same_ident_thread|].
    by eapply (other_marks T (D u) (G u) u w w1 p t). }
  split; [intros p Hp; by apply Isq, (fr_squashed _ _ _ R5)|].
  exists (λ t, if decide (t = u) then sent else S t).
  assert (∀ p, p ∈ sent → threadNumber <$> rw_insts w' !! p = Some u) as Hown.
  { intros p Hp. eapply same_ident_thread; [exact I2|auto]. }
  split; [|split; [|split]].
  - intros t [Hne Ht]%not_elem_of_cons. rewrite decide_False by done. auto.
  - intros t. rewrite I5, R1, sentBy_app, (sentBy_own _ u t sent) by done. destruct (decide (t = u)) as [->|Hne].
    + by rewrite I4, app_nil_r.
    + by rewrite app_nil_r.
  - intros t. destruct (decide (t = u)) as [->|Hne].
    { eapply sent_ok_marks; [exact I2| |exact R3]. intros p Hp. apply (Im p u Hnot). auto. }
    specialize (I6 t). unfold D1, G1 in I6. rewrite !fn_lookup_insert_ne in I6 by done. by rewrite (quietAt_other _ _ _ _ _ Hne R5) in I6.
  - intros t. specialize (I7 t). unfold D1, G1 in I7. destruct (decide (t = u)) as [->|Hne].
    + rewrite !bool_decide_eq_false_2 in I7 by done. rewrite !fn_lookup_insert in I7.
      rewrite !bool_decide_eq_true_2 by (by left). by rewrite (owes_ident (rw_insts w1)).
    + rewrite !fn_lookup_insert_ne in I7 by done. rewrite (quietAt_other _ _ _ _ _ Hne R5) in I7.
      assert (bool_decide (t ∈ u :: l) = bool_decide (t ∈ l)) as ->; [|done].
      apply bool_decide_ext. rewrite elem_of_cons. naive_solver.
Qed.

(** ** Cycles *)

(** What decode sends is new to the stage, and no other stage has marked it. *)
Definition arrives (inp : RenameInputs) (w : Ren) : Prop :=
  NoDup (fromDecode inp) ∧
  ∀ p, p ∈ fromDecode inp →
    (∀ t, p ∉ holds t (rw w)) ∧ isSerializeHandled <$> rw_insts w !! p = Some false.

(** The stage between cycles. *)
Record settled_ok (T : DynInstPtr → bool) (D G : ThreadID → bool) (w : Ren) : Prop := {
  sk_waiting : ∀ t, waiting_ok T (D t) (G t) t w;
  sk_active : NoDup (rn_activeThreads (rw w));
  sk_resume : resumeUnblocking (rw w) = false;
}.

(** One cycle of a run: the stage before (after whatever the rest of the CPU did to the
    instructions), what arrived, and the stage after. *)
Record RenameCycle := mkRenameCycle {
  cy_before : Ren;
  cy_inp : RenameInputs;
  cy_after : Ren;
}.

Definition cycleSent (tid : ThreadID) (c : RenameCycle) : list DynInstPtr :=
  sentBy (rw_insts (cy_after c)) tid (renamed (rw (cy_after c))).
Definition cycleQuiet (tid : ThreadID) (c : RenameCycle) : bool := quietAt (cy_inp c) tid (cy_before c).

(** Was the thread squashed in this cycle: does commit say so, or is an instruction that
    the stage held or that arrived squashed by its end? *)
Definition cycleSquashed (tid : ThreadID) (c : RenameCycle) : bool :=
  ci_squash (rn_fromCommit (cy_inp c) tid)
  || existsb (squashedAt (rw_insts (cy_after c)))
       (holds tid (rw (cy_before c)) ++ sentBy (rw_insts (cy_before c)) tid (fromDecode (cy_inp c))).

(** Must the next instruction be serialized for the sake of the last one the thread sent? *)
Definition cycleOwes (tid : ThreadID) (d : bool) (c : RenameCycle) : bool :=
  negb (cycleSquashed tid c) && owes (rw_insts (cy_after c)) d (cycleSent tid c).

(** What has arrived has not been marked since. *)
Definition renewed (inp : RenameInputs) (T : DynInstPtr → bool) (p : DynInstPtr) : bool :=
  if bool_decide (p ∈ fromDecode inp) then false else T p.

Lemma sort_stage inp t w w1 :
  rn_sortInsts inp (rw_on rn_startCycle w) = Ok w1 →
  let new := sentBy (rw_insts w) t (fromDecode inp) in
  rw_insts w1 = rw_insts w ∧ rn_skidBuffer (rw w1) t = rn_skidBuffer (rw w) t ∧
  waits t (rw w1) = waits t (rw w) ++ new ∧ serializeInst (rw w1) t = serializeInst (rw w) t ∧
  renameStatus (rw w1) t = renameStatus (rw w) t ∧ serializeOnNextInst (rw w1) t = serializeOnNextInst (rw w) t ∧
  holds t (rw w1) = holds t (rw w) ++ new ∧
  ∀ p, p ∈ new → p ∈ fromDecode inp ∧ threadNumber <$> rw_insts w !! p = Some t.
Proof.
  intros H new. apply sortInsts_spec in H as (S1 & S2 & S3 & S4). cbn [rw rw_on rw_set rw_insts] in *.
  specialize (S3 t). specialize (S4 t). apply signalsOf_status in S3. cbn in S3. unfold queuesOf in S4. injection S4 as Hk Hn.
  change (rn_insts (rn_startCycle (rw w)) t) with (rn_insts (rw w) t) in Hn.
  change (rn_skidBuffer (rn_startCycle (rw w)) t) with (rn_skidBuffer (rw w) t) in Hk. fold new in Hn.
  assert (waits t (rw w1) = waits t (rw w) ++ new) as Hw by (unfold waits; by rewrite Hk, Hn, (assoc_L (++))).
  assert (serializeInst (rw w1) t = serializeInst (rw w) t) as Hsi by exact (f_equal (λ y, serializeInst y t) S2).
  split_and!; try done.
  - exact (f_equal rw_insts S1).
  - exact (f_equal (λ y, serializeOnNextInst y t) S2).
  - unfold holds. by rewrite Hsi, Hw, (assoc_L (++)).
  - by intros p [? ?]%list_elem_of_filter.
Qed.

Lemma sort_ok inp T d g t w w1 :
  arrives inp w → waiting_ok T d g t w → rn_sortInsts inp (rw_on rn_startCycle w) = Ok w1 →
  waiting_ok (renewed inp T) d g t w1.
Proof.
  intros [Hnd Har] [W1 W2 W3 W4 W5 W6] H. destruct (sort_stage inp t w w1 H) as (Hi & Hk & Hw & Hsi & Hst & Hfl & Hh & Hnew).
  split; rewrite ?Hi.
  - intros Hx. rewrite Hk. apply W1. by rewrite <-Hst.
  - intros p Hp. rewrite Hh in Hp. apply elem_of_app in Hp as [Hp|Hp]; [auto|by apply Hnew].
  - rewrite Hh. apply NoDup_app. split; [done|]. split; [|by apply NoDup_filter].
    intros p Hp Hx. apply Hnew in Hx as [Hx _]. by apply (proj1 (Har p Hx) t).
  - intros p Hp Ht. rewrite Hw in Hp |- *. apply elem_of_app in Hp as [Hp|Hp].
    + assert (released T (rw_insts w) p) as Hr.
      { unfold released, renewed in *. destruct Ht as [Ht|[HT Ht]]; [by left|right]. split; [|done].
        by destruct (bool_decide _). }
      destruct (W4 p Hp Hr) as (H1 & H2 & H3 & H4). rewrite Hst. split; [|done]. by destruct (waits t (rw w)).
    + apply Hnew in Hp as [Hp _]. destruct (Har p Hp) as [_ Hx]. unfold released, renewed in Ht.
      rewrite bool_decide_eq_true_2 in Ht by done. destruct Ht as [Ht|[? _]]; congruence.
  - intros p i Hp Hpi Hhd. rewrite Hh in Hp. apply elem_of_app in Hp as [Hp|Hp]; [by apply (W5 p)|].
    apply Hnew in Hp as [Hp _]. destruct (Har p Hp) as [_ Hx]. rewrite Hpi in Hx. injection Hx. congruence.
  - intros Hd. destruct (W6 Hd) as [?|Ha]; [by left|right]. destruct Ha as [Ha|(q & Hq & Hc)]; [left; by rewrite Hfl|right].
    exists q. rewrite Hi, Hw, Hsi, Hst. split; [done|]. destruct Hc as [Hc|?]; [left|by right]. by destruct (waits t (rw w)).
Qed.

Lemma rn_tick_ok inp T D G w w' :
  settled_ok T D G w → arrives inp w → rn_tick rf cfg flattenRegId inp w = Ok w' →
  let c := mkRenameCycle w inp w' in
  settled_ok (λ p, renewed inp T p || tempMark (rw_insts w') p) (λ t, cycleOwes t (D t) c)
    (λ t, after (G t) (cycleQuiet t c) (cycleSent t c)) w' ∧
  ∀ t, sent_ok (renewed inp T) (negb (cycleSquashed t c)) (D t) (G t || cycleQuiet t c) (rw_insts w') (cycleSent t c).
Proof.
  intros [K1 K2 K3] Har Htick c. apply tick_spec in Htick as (w1 & b & w2 & Hsort & Hth & Hset & Hi).
  pose proof (λ t, sort_ok inp T (D t) (G t) t w w1 Har (K1 t) Hsort) as Hok1.
  pose proof (λ t, sort_stage inp t w w1 Hsort) as Hstage.
  apply sortInsts_spec in Hsort as (S1 & S2 & _ & _). cbn [rw rw_on rw_set] in S2.
  assert (rn_activeThreads (rw w1) = rn_activeThreads (rw w)) as Ha by exact (f_equal rn_activeThreads S2).
  destruct (threads_ok inp (renewed inp T) (λ t, negb (cycleSquashed t c)) (rn_activeThreads (rw w1)) w1 false b w2 D G)
    as (I1 & I2 & I3 & _ & _ & S & I4 & I5 & I6 & I7);
    [by rewrite Ha|exact (eq_trans (f_equal resumeUnblocking S2) K3)|exact Hok1| |exact Hth|].
  { intros t _ [H1 H2]%negb_true_iff%orb_false_iff. split; [done|]. intros p Hp.
    destruct (Hstage t) as (_ & _ & _ & _ & _ & _ & Hh & _). rewrite Hh in Hp. rewrite <-Hi.
    apply not_true_is_false. intros Hx. apply not_true_iff_false in H2. apply H2, existsb_exists. exists p.
    split; [by apply list_elem_of_In|done]. }
  assert (∀ t, quietAt inp t w1 = cycleQuiet t c) as Hq.
  { intros t. apply quietAt_same; [exact (f_equal (λ y, emptyROB y t) S2)|exact (f_equal (λ y, instsInProgress y t) S2)]. }
  assert (∀ t, cycleSent t c = S t) as Hsent.
  { intros t. unfold cycleSent. cbn [cy_after c]. rewrite Hi, (f_equal renamed Hset : renamed (rw w') = renamed (rw w2)), I5.
    by rewrite (f_equal renamed S2 : renamed (rw w1) = []). }
  split.
  - split.
    + intros t. specialize (I7 t). rewrite Hq, <-Hsent, <-Hi in I7.
      assert (waiting_ok (λ p, renewed inp T p || tempMark (rw_insts w') p) (cycleOwes t (D t) c)
                (after (G t) (cycleQuiet t c) (cycleSent t c)) t w2) as [W1 W2 W3 W4 W5 W6].
      { eapply waiting_ok_mono; [| | |exact I7].
        - destruct (bool_decide_reflect (t ∈ rn_activeThreads (rw w1))) as [_|Hn]; [done|].
          unfold after. rewrite Hsent, I4 by done. cbn. by intros ->.
        - unfold cycleOwes. destruct (bool_decide_reflect (t ∈ rn_activeThreads (rw w1))) as [_|Hn]; [done|].
          rewrite Hsent, I4 by done. by intros [_ ?]%andb_true_iff.
        - intros p [Hr|[HT Hr]]; [by left|right]. rewrite Hi, Hr, orb_false_r in HT. done. }
      assert (∀ {B} (f : RenStage → B), (∀ y, f (settled y) = f y) → f (rw w') = f (rw w2)) as Hs
        by (intros B f Hf; by rewrite <-(Hf (rw w')), Hset, Hf).
      split; rewrite ?(Hs _ (holds t) (λ _, eq_refl)), ?(Hs _ (waits t) (λ _, eq_refl)),
        ?(Hs _ (λ y, renameStatus y t) (λ _, eq_refl)); rewrite ?Hi in *; try done.
      * intros Hx. rewrite (Hs _ (λ y, rn_skidBuffer y t) (λ _, eq_refl)). apply W1.
        by rewrite <-(Hs _ (λ y, renameStatus y t) (λ _, eq_refl)).
      * intros Hd. destruct (W6 Hd) as [?|Hask]; [by left|right]. unfold askedFor. rewrite Hi.
        by rewrite (Hs _ (λ y, serializeOnNextInst y t) (λ _, eq_refl)), (Hs _ (λ y, head (waits t y)) (λ _, eq_refl)),
          (Hs _ (λ y, serializeInst y t) (λ _, eq_refl)), (Hs _ (λ y, renameStatus y t) (λ _, eq_refl)).
    + rewrite (f_equal rn_activeThreads Hset : rn_activeThreads (rw w') = rn_activeThreads (rw w2)).
      unfold constants in I3. injection I3 as _ _ _ ->. by rewrite Ha.
    + exact (eq_trans (f_equal resumeUnblocking Hset) I1).
  - intros t. rewrite Hsent, <-Hq, Hi. apply I6.
Qed.

(** Between cycles the rest of the CPU may change anything but the stage's own state
    and, of the instructions the stage holds, what they are and the marks it has made. *)
Definition environment (w w' : Ren) : Prop :=
  rw w' = rw w ∧
  ∀ t p, p ∈ holds t (rw w) → ident <$> rw_insts w' !! p = ident <$> rw_insts w !! p ∧
    marks <$> rw_insts w' !! p = marks <$> rw_insts w !! p.

Inductive rename_run (w0 : Ren) : list RenameCycle → Ren → Prop :=
  | run_start : rename_run w0 [] w0
  | run_cycle cs w w1 inp w2 :
      rename_run w0 cs w → environment w w1 → arrives inp w1 → rn_tick rf cfg flattenRegId inp w1 = Ok w2 →
      rename_run w0 (cs ++ [mkRenameCycle w1 inp w2]) w2.

(** Has the thread sent nothing since a cycle in which it saw the reorder buffer empty
    and nothing of its own on the way? *)
Definition sinceQuiet (tid : ThreadID) (cs : list RenameCycle) : bool :=
  foldl (λ g c, after g (cycleQuiet tid c) (cycleSent tid c)) false cs.

(** Has rename marked the instruction to serialize before it ([serializeAfter], or
    [serializeOnNextInst]) since it arrived, whether or not the mark is still there? *)
Definition markedSince (p : DynInstPtr) (cs : list RenameCycle) : bool :=
  foldl (λ m c, renewed (cy_inp c) (λ _, m) p || tempMark (rw_insts (cy_after c)) p) false cs.

(** The last instruction the thread sent demands that the next one serialize, and nothing
    of the thread has been squashed since. *)
Definition owing (tid : ThreadID) (cs : list RenameCycle) : bool :=
  foldl (λ d c, cycleOwes tid d c) false cs.

(** In cycle [c], after the cycles [cs], the instruction the thread sends before [p]
    demands that the next one serialize, and nothing of the thread is squashed. *)
Definition followsDemand (tid : ThreadID) (cs : list RenameCycle) (c : RenameCycle) (p : DynInstPtr) : Prop :=
  cycleSquashed tid c = false ∧
  ∃ l1 l2, cycleSent tid c = l1 ++ p :: l2 ∧ owes (rw_insts (cy_after c)) (owing tid cs) l1 = true.

Definition fresh_stage (w : Ren) : Prop :=
  (∀ t, holds t (rw w) = []) ∧ NoDup (rn_activeThreads (rw w)) ∧ resumeUnblocking (rw w) = false.

Lemma environment_ok T D G w w' : environment w w' → settled_ok T D G w → settled_ok T D G w'.
Proof.
  intros [Hx Hi] [K1 K2 K3]. split; rewrite ?Hx; try done. intros t. destruct (K1 t) as [W1 W2 W3 W4 W5 W6]. split; rewrite ?Hx; try done.
  - intros p Hp. specialize (W2 p Hp). pose proof (proj1 (Hi t p Hp)) as Hid.
    destruct (rw_insts w !! p), (rw_insts w' !! p); try done. injection Hid as _ Hid _. cbn in *. congruence.
  - intros p Hp Hh. assert (p ∈ holds t (rw w)) as Hin by (apply elem_of_app; by right).
    pose proof (proj2 (Hi t p Hin)) as Hm. unfold released in *.
    rewrite (same_marks_handled _ _ _ Hm), (tempMark_marks _ _ _ Hm) in Hh. auto.
  - intros p j Hp. apply (nature_step (rw_insts w)); [by apply (Hi t)|by apply same_marks_handled, (Hi t)|]. intros i. by apply W5.
  - intros Hd. destruct (W6 Hd) as [?|Ha]; [by left|right]. revert Ha. apply askedFor_same; rewrite ?Hx; try done.
    intros q Hq. by apply tempMark_marks, (Hi t).
Qed.

Lemma run_ok w0 cs w : fresh_stage w0 → rename_run w0 cs w →
  settled_ok (λ p, markedSince p cs) (λ t, owing t cs) (λ t, sinceQuiet t cs) w.
Proof.
  intros (Hh & Ha & Hu) Hrun. induction Hrun as [|cs w w1 inp w2 Hrun IH Henv Har Htick].
  - split; [|done|done]. intros t. specialize (Hh t) as Hht. assert (waits t (rw w0) = []) as Hw.
    { unfold holds in Hht. by apply app_eq_nil in Hht as [_ Hw]. }
    split; rewrite ?Hht, ?Hw.
    + intros _. unfold waits in Hw. by apply app_eq_nil in Hw as [Hw _].
    + intros p Hp. by apply elem_of_nil in Hp.
    + constructor.
    + intros p Hp. by apply elem_of_nil in Hp.
    + intros p i Hp. by apply elem_of_nil in Hp.
    + done.
  - apply (environment_ok _ _ _ _ _ Henv) in IH. destruct (rn_tick_ok _ _ _ _ _ _ IH Har Htick) as [[K1 K2 K3] _].
    split; [|done|done]. intros t. unfold sinceQuiet, owing. rewrite !foldl_snoc.
    refine (waiting_ok_mono _ _ _ _ _ _ _ _ _ _ _ (K1 t)); [done..|]. intros p. unfold released, markedSince. by rewrite foldl_snoc.
Qed.

(** C17: An instruction that must serialize before leaves rename only into an empty reorder buffer: one that serializes by nature (its static flag, or an IPR access), one that rename has marked since it arrived, whether the mark is still there or not, and one that the thread sends right after an instruction that serializes after (its static flag, or a store conditional; and not one that serializes before as well, which the code marks as handled only once) with nothing of the thread squashed since. In every run of the stage from its start, whatever the other stages do in between, if a cycle sends such an instruction to the issue stage, then the thread saw the reorder buffer reported empty and none of its own instructions on the way, in this cycle or an earlier one, it has sent nothing since, and the instruction is the first the thread sends in this cycle. *)
Theorem serialize_waits w0 cs c w p i :
  fresh_stage w0 → rename_run w0 (cs ++ [c]) w → p ∈ renamed (rw w) → rw_insts w !! p = Some i →
  serializing i = true ∨ markedSince p (cs ++ [c]) = true ∨ followsDemand (threadNumber i) cs c p →
  (sinceQuiet (threadNumber i) cs || cycleQuiet (threadNumber i) c) = true ∧ head (cycleSent (threadNumber i) c) = Some p.
Proof.
  intros Hf Hrun Hp Hi Hs. inversion Hrun as [Hnil|cs' w' w1 inp w2 Hrun' Henv Har Htick Hcs]; [by destruct cs|].
  apply app_inj_tail in Hcs as [-> <-]. subst. pose proof (run_ok _ _ _ Hf Hrun') as Hok.
  apply (environment_ok _ _ _ _ _ Henv) in Hok. destruct (rn_tick_ok _ _ _ _ _ _ Hok Har Htick) as [_ H].
  apply (H (threadNumber i) p i); [|done|].
  - apply list_elem_of_filter. cbn [cy_after]. by rewrite Hi.
  - destruct Hs as [Hs|[Hs|[Hsq Hs]]]; [left..|right].
    + by rewrite Hs.
    + unfold markedSince in Hs. rewrite foldl_snoc in Hs. cbn [cy_inp cy_after] in Hs. rewrite (tempMark_Some _ _ _ Hi) in Hs.
      rewrite <-orb_assoc. apply orb_true_iff. by right.
    + by rewrite Hsq.
Qed.
End order.

Import RenameStageExample.

(** Two instructions, of which the second is a load. *)
Lemma rename_in_order_witness :
  ∃ w', renameInsts RenameInv.RenameExample.rf mode id (arrive []) 0%nat (world (set_rn_insts (λ _, [2; 3]) idle)) = Ok w' ∧
    loadsInProgress (rw w') 0%nat = 0 + count (isLoadAt insts) (renamed (rw w')).
Proof.
  eexists. split; [vm_compute; reflexivity|].
  destruct (rename_in_order RenameInv.RenameExample.rf mode id (arrive []) 0%nat (world (set_rn_insts (λ _, [2; 3]) idle))
    (match renameInsts RenameInv.RenameExample.rf mode id (arrive []) 0%nat (world (set_rn_insts (λ _, [2; 3]) idle)) with Ok w' => w' | Err _ => world idle end))
    as (l & H1 & _ & _ & _ & _ & _ & _ & _ & H2 & _).
  - intros _. by vm_compute.
  - apply (bool_decide_unpack _). by vm_compute.
  - by vm_compute.
  - by vm_compute.
  - vm_compute. reflexivity.
  - etrans; [exact H2|]. f_equal. f_equal. symmetry. exact H1.
Defined.

(** An instruction that serializes after, 4, and the next one, 5, which waits until the
    issue stage has the first. *)
Module SerialExample.
Definition insts : store :=
  list_to_map [(4, initInst (si [DynInst.IsSerializeAfter]) 0 1 0); (5, initInst (si [IsInteger]) 4 2 0)].
Definition start : Ren := rw_set_insts insts (world idle).
Definition arrived : RenameInputs :=
  mkRenameInputs []
    (mkIewToRename (λ _, 0) (λ _, 0) (λ _, 0) (λ _, 0) (λ _, 0) (λ _, 0) (λ _, 0) (λ _, 1)
      (λ _, false) (λ _, false) (λ _, false) (λ _, false)) (λ _, silentCommit).
Definition step (inp : RenameInputs) (w : Ren) : Ren :=
  match rn_tick RenameInv.RenameExample.rf mode id inp w with Ok w' => w' | Err _ => w end.
Definition sent4 : Ren := Eval vm_compute in step (arrive [4; 5]) start.
Definition gone4 : Ren := Eval vm_compute in step arrived sent4.
Definition sent5 : Ren := Eval vm_compute in step (arrive []) gone4.
Definition cycles : list RenameCycle := [mkRenameCycle start (arrive [4; 5]) sent4; mkRenameCycle sent4 arrived gone4].
Definition last : RenameCycle := mkRenameCycle gone4 (arrive []) sent5.
End SerialExample.

Lemma same_environment w : environment w w.
Proof. by split. Qed.

Lemma nothing_arrives iew com w : arrives (mkRenameInputs [] iew com) w.
Proof. split; [constructor|]. intros p Hp. by apply elem_of_nil in Hp. Qed.

(** The first instruction serializes: it is held back for a cycle and then leaves.  In the
    other run instruction 5 waits because 4 serializes after. *)
Lemma serialize_waits_witness :
  let c1 := mkRenameCycle (world idle) (arrive [1; 2]) first in
  let c2 := mkRenameCycle first (arrive []) second in
  rename_run RenameInv.RenameExample.rf mode id (world idle) ([c1] ++ [c2]) second ∧
  (sinceQuiet 0%nat [c1] || cycleQuiet 0%nat c2) = true ∧ head (cycleSent 0%nat c2) = Some 1 ∧
  renamed (rw SerialExample.sent4) = [4] ∧ renamed (rw SerialExample.gone4) = [] ∧
  (sinceQuiet 0%nat SerialExample.cycles || cycleQuiet 0%nat SerialExample.last) = true ∧
  head (cycleSent 0%nat SerialExample.last) = Some 5.
Proof.
  intros c1 c2. assert (∀ t, holds t (rw (world idle)) = []) as nothing by (intros t; destruct t; by vm_compute).
  assert (fresh_stage (world idle)) as fresh.
  { split; [exact nothing|]. split; [apply (bool_decide_unpack _); by vm_compute|by vm_compute]. }
  assert (rename_run RenameInv.RenameExample.rf mode id (world idle) ([c1] ++ [c2]) second) as Hrun.
  { apply run_cycle with first; [apply (run_cycle _ _ _ _ [] (world idle))|..].
    - constructor.
    - apply same_environment.
    - split; [apply (bool_decide_unpack _); by vm_compute|].
      intros p Hp. split; [intros t; rewrite nothing; apply not_elem_of_nil|].
      cbn in Hp. apply elem_of_cons in Hp as [->|Hp]; [by vm_compute|]. apply list_elem_of_singleton in Hp as ->. by vm_compute.
    - vm_compute. reflexivity.
    - apply same_environment.
    - apply nothing_arrives.
    - vm_compute. reflexivity. }
  assert (rename_run RenameInv.RenameExample.rf mode id SerialExample.start (SerialExample.cycles ++ [SerialExample.last]) SerialExample.sent5) as Hrun'.
  { apply run_cycle with SerialExample.gone4;
      [apply (run_cycle _ _ _ _ [_] SerialExample.sent4); [apply (run_cycle _ _ _ _ [] SerialExample.start)|..]|..].
    - constructor.
    - apply same_environment.
    - split; [apply (bool_decide_unpack _); by vm_compute|].
      intros p Hp. split; [intros t; exact (eq_ind_r (λ l, p ∉ l) (not_elem_of_nil p) (nothing t))|].
      cbn in Hp. apply elem_of_cons in Hp as [->|Hp]; [by vm_compute|]. apply list_elem_of_singleton in Hp as ->. by vm_compute.
    - vm_compute. reflexivity.
    - apply same_environment.
    - apply nothing_arrives.
    - vm_compute. reflexivity.
    - apply same_environment.
    - apply nothing_arrives.
    - vm_compute. reflexivity. }
  split; [exact Hrun|].
  destruct (serialize_waits RenameInv.RenameExample.rf mode id (world idle) [c1] c2 second 1
    (default (initInst (si []) 0 0 0) (rw_insts second !! 1)) fresh Hrun) as [H1 H2].
  { apply (bool_decide_unpack _). by vm_compute. }
  { by vm_compute. }
  { left. by vm_compute. }
  split; [exact H1|]. split; [exact H2|]. split; [by vm_compute|]. split; [by vm_compute|].
  refine (serialize_waits RenameInv.RenameExample.rf mode id SerialExample.start SerialExample.cycles SerialExample.last
    SerialExample.sent5 5 (default (initInst (si []) 0 0 0) (rw_insts SerialExample.sent5 !! 5)) fresh Hrun' _ _ _).
  - apply (bool_decide_unpack _). by vm_compute.
  - by vm_compute.
  - right. right. split; [by vm_compute|]. exists [], []. split; by vm_compute.
Defined.
